(* ===== verification/_CoqProject ===== *)
-Q . S2P
Prelude.v
BTree.v
Float64.v
FloatRound.v
Duration.v
LinkProtocol.v
LinkSync.v
LinkGeometry.v
LinkStores.v
IpcTypes.v
LinkManager.v
LinkSession.v
LinkProps.v
LinkTiles.v
LinkConfig.v
IpcState.v
IpcServer.v
IpcWindows.v
LayoutScrolling.v
LayoutScrollingOps.v
LayoutSwap.v
LayoutScrollingProps.v
LayoutFloating.v
LayoutFloatingProps.v
LayoutOutput.v
LayoutWorkspace.v
LayoutWorkspaceOps.v
LayoutWorkspaceProps.v
LayoutMonitor.v
LayoutMonitorOps.v
LayoutMonitorMoves.v
LayoutMonitorSwitch.v
LayoutMonitorJoin.v
LayoutMonitorProps.v
LayoutSet.v
LayoutSetOwn.v
LayoutSetOps.v
LayoutSetOutputs.v
LayoutSetMoves.v
LayoutSetWindows.v
LayoutSetNames.v
LayoutSetConfig.v
LayoutSetProps.v
LayoutSetReconnect.v
LayoutSetOptions.v
LayoutView.v
LayoutMove.v
LayoutMoveGeometry.v
LayoutMoveOps.v
LayoutMoveDrop.v
LayoutMoveProps.v
ConfigBinds.v
Keyboard.v
KeyboardProps.v
KeyboardTimers.v
WindowMru.v
WindowMruProps.v
MruWorld.v
MruWorldProps.v
MruProps.v
A11yKeyboard.v
Region.v
OutputPositions.v
OutputPositionsProps.v
Actions.v
ActionsProps.v
ScratchColumns.v
FrameClock.v
Transaction.v
TransactionOps.v
TransactionProps.v
NiriRedraw.v
NiriRedrawOps.v
NiriRedrawInv.v
NiriRedrawLoop.v
NiriRedrawEvents.v
NiriRedrawProps.v
LiquidRules.v
LiquidBus.v
LiquidBudget.v
