(* ===== verification/Prelude.v ===== *)
(** * Verification of the Jackrose compositor core (niri-jackrose)

    Jackrose is a scrollable-tiling Wayland compositor, a fork of niri.  This library models the
    parts of it that decide where windows are, what clients are told about them, and how several
    machines share one layout, and proves them correct.  Everything a theorem speaks about is an
    executable definition translated from the Rust source under src/.

    ** The program and its parts

    - The layout (src/layout/) keeps windows in tiles, tiles in columns, columns in the scrolling
      space of a workspace, next to a floating space; monitors stack workspaces.  User actions,
      clients and output hotplug change it; each of its types has a [verify_invariants].
    - The compositor state (src/niri.rs) renders the outputs: each has a redraw state machine that
      the back end (src/backend/) drives with vblanks, and the session lock waits for every output
      to show a locked frame.
    - Input (src/input/mod.rs) decides which keys trigger binds and which reach clients; assistive
      technologies (src/dbus/freedesktop_a11y.rs) can grab keys before that.
    - The IPC server (src/ipc/server.rs) compares the layout with what it last announced and sends
      events; clients rebuild the state from them (crates/niri-ipc/src/state.rs).
    - The link (src/link/) shares a layout between machines: a replicated log of layout operations,
      sessions with leaders, heartbeats, persistence, trust, streams of remote tiles and a framed
      transport.
    - The liquid subsystem (src/liquid/) has a rule engine, a bus of state changes, an overlay stack
      and a performance budget that lowers the rendering quality.

    ** Files

    - Prelude.v: tactics, machine integers, vectors and their operations with panics.  BTree.v:
      [BTreeMap] as sorted association lists.  Float64.v: [f64] on the Standard
      Library's SpecFloat, exact on integers below 2^53.  FloatRound.v: clamping and rounding a
      double to an index.
    - LinkProtocol.v, LinkSync.v, LinkGeometry.v, LinkStores.v: the messages, the replicated layout
      (layout_sync.rs), geometry and hit testing of remote tiles, persistence, trust, discovery and
      the transport.  LinkManager.v is the whole of [LinkManager] over an explicit world of files
      and sockets; LinkSession.v its invariant over all reachable states, LinkProps.v its functional
      properties, LinkTiles.v the synchronisation of local tiles, LinkConfig.v its configuration.
    - IpcTypes.v, IpcState.v: the types and the state of the event stream (crates/niri-ipc).
      IpcServer.v, IpcWindows.v: the refresh functions of src/ipc/server.rs.
    - LayoutScrolling.v, LayoutScrollingOps.v, LayoutSwap.v, LayoutScrollingProps.v: [Column] and
      [ScrollingSpace] (src/layout/scrolling.rs).  LayoutFloating.v, LayoutFloatingProps.v:
      [FloatingSpace] (floating.rs).  LayoutOutput.v: the names of outputs.  LayoutWorkspace.v,
      LayoutWorkspaceOps.v, LayoutWorkspaceProps.v: [Workspace] (workspace.rs).  LayoutMonitor.v:
      [Monitor] (monitor.rs); LayoutMonitorOps.v, LayoutMonitorMoves.v, LayoutMonitorSwitch.v
      and LayoutMonitorJoin.v prove its operations correct, group by group,
      and LayoutMonitorProps.v collects them.
      LayoutSet.v: [Layout] with its monitors (mod.rs).  LayoutSetOwn.v: what ties workspaces to
      outputs and names to workspaces; LayoutSetOps.v: the invariant; LayoutSetOutputs.v,
      LayoutSetMoves.v, LayoutSetWindows.v, LayoutSetNames.v and LayoutSetConfig.v prove the
      operations correct, group by group; LayoutSetProps.v collects them and LayoutSetReconnect.v
      is about an output that comes back.  LayoutSetOptions.v: only configuration changes touch the
      options.
    - LayoutView.v: gestures over the columns of a workspace, their snapping points and where they
      end ([view_offset_gesture_end]).  LayoutMove.v: [interactive_move_begin], [_update] and
      [_end], drag and drop, gestures and [refresh] over the layout and the window held by the
      pointer; LayoutMoveGeometry.v: insert positions, LayoutMoveOps.v: views are locked and
      unlocked, LayoutMoveDrop.v: a window is taken and dropped,
      LayoutMoveProps.v: the invariant of layout and pointer together.
    - ConfigBinds.v, Keyboard.v: binds and their actions (crates/niri-config/src/binds.rs), and what
      input/mod.rs does with keys, buttons and switches.  KeyboardProps.v, KeyboardTimers.v: which
      events clients see, what a locked session allows, key repeat and cooldowns.  A11yKeyboard.v:
      [KeyboardMonitor] (freedesktop_a11y.rs).
    - WindowMru.v, WindowMruProps.v: the list of the switcher of recent windows (src/ui/mru.rs).
      MruWorld.v, MruWorldProps.v, MruProps.v: the switcher, focus times and their timers together
      with the layout and the window held by the pointer (niri.rs, input/mod.rs).
    - Actions.v, ActionsProps.v: what actions do to the layout ([do_action] of input/mod.rs).
      ScratchColumns.v: columns that go to a workspace of their own and back
      (niri.rs).
    - OutputPositions.v, OutputPositionsProps.v: where outputs are placed and which are next to each
      other (niri.rs), over an interface of the global space.  Transaction.v, TransactionOps.v,
      TransactionProps.v: reference-counted transactions (utils/transaction.rs) and the windows,
      buffers, timers and commits that hold them.
    - Region.v: regions as disjoint rectangles (src/utils/region.rs).
    - Duration.v: [Duration] of the language.  FrameClock.v: frame_clock.rs and
      utils/vblank_throttle.rs.  NiriRedraw.v: the redraw states, the session lock and the outputs
      (niri.rs, backend/tty.rs, backend/headless.rs).  NiriRedrawOps.v: what its operations change;
      NiriRedrawInv.v: its invariant; NiriRedrawLoop.v: the redraw of all queued outputs;
      NiriRedrawEvents.v: events and reachable states; NiriRedrawProps.v: the properties.
    - LiquidRules.v, LiquidBus.v, LiquidBudget.v: the rule engine, the state bus and overlay stack,
      the performance budget.

    ** How the code is represented

    Structs are records and enums inductive types with the fields and constructors the modelled code
    uses.  A function that can panic returns an option, [None] being the panic: indexing, [unwrap],
    [assert], checked arithmetic.  [runs o P] says that [o] does not panic and its result satisfies
    [P].  Code that draws workspace ids runs in the monad [Fresh] of LayoutMonitor.v, with [wp] for
    its specifications; the link manager threads its manager and world explicitly.  Windows are ids.
    The parent of a window and the geometry that focus changes compare are parameters.  Options are
    reduced to the settings that the structure depends on.

    ** What the theorems show

    - Layout: for scrolling spaces, floating spaces, workspaces and monitors, a step relation over
      all operations, the invariant that [verify_invariants] asserts in every reachable state, that
      no operation panics, and that no window is lost or duplicated.  Children float above their
      parents.  Round trips: open and close, consume and expel, move right and left, fullscreen
      and back.  Swapping exchanges exactly two windows and keeps the focused one; moving a workspace keeps the focus.
      For the layout of all monitors the invariant also has that workspace ids, names and windows
      are unique across monitors and that every workspace is on the output it belongs to, or on the
      primary monitor when that output is away; disconnecting an output and connecting it again
      restores its workspaces that have windows or a name; connected outputs get names that the layout tells apart.
      Through interactive moves, drag and drop and gestures a window is in a workspace or in the
      pointer's hands but never in both nor lost; it is dropped at the gap nearest to the pointer,
      and a gesture over columns snaps to the nearest point and settles where the column it focuses
      rests.  All of this is about operations whose callers keep their side ([ly_op_pre],
      [ml_op_pre]); in particular names are given where that is safe, and theorems of LayoutSetProps.v
      show what happens when they are not ([naming_elsewhere_panics]).
    - IPC: refreshing sends exactly the events that turn the announced state into the current one
      (a refinement for workspaces and for windows), and a client that replays the stream has the
      server's state.
    - Link: every layout operation has the effect specified for it and no other; gaps are detected; an
      invariant of all reachable states of the manager; restoring a persisted session gives it back,
      floats apart, whenever its file can be read;
      time-outs, heartbeats, purging and best-session selection are characterised; frames up to the
      size limit round-trip and the reader terminates; incoming messages are handled without a panic.
    - Redraw and lock: an invariant of all reachable states gives that no event [event_pre] admits
      meets one of the panics and [unreachable!]s of the redraw state machine, that a client is told that the session
      is locked only when every output shows a locked frame, and that a session being locked gets
      there or is given up by its deadline.  The redraw of all queued outputs terminates.  A vblank
      that comes while an estimated one is waited for may lead to a panic.  Predicted presentation times are bounded.
    - Keyboard: clients see presses and releases in pairs, unless the console is switched; a locked session runs only the actions
      that are allowed; timers belong to a repeat or a cooldown; "Mod" and the key it stands for
      find the same binds; grabbed keys are blocked in pairs.
    - Switcher: over all steps of windows, outputs, layout and switcher together, it lists windows
      that exist, selects one of them and focuses it in the end; it goes through them in the order of their focus times,
      of which the one of the focused window is the latest.
    - Actions: every action on the layout runs without a panic from every reachable world and keeps
      every window, and the invariants unless it names a workspace where that is not safe; an action that names a window gives it the focus unless
      another window is held or a swipe goes on; going to the
      next output and back undoes itself.  Scratch columns keep the invariants and every window too;
      the examples in ScratchColumns.v show where they do not do what they are meant to.
    - Outputs: no output is placed over an earlier one; where outputs are does not depend on the
      order in which they were connected; going on from an output visits all of them.
    - Transactions: reference counts are exact, and every commit that is held back is released by
      the last window to answer or by a deadline, its client being told once.
    - Regions: the rectangles are disjoint and cover what the region contains, if its edges are no
      farther apart than an [i32].
    - Liquid: rules apply by priority; the bus delivers the log; the topmost overlay has the highest
      priority; the quality changes at a bounded rate.

    ** Bounds and fuel

    The redraw loop runs with twice as many rounds as there are outputs, which [redraw_fuel_enough]
    proves enough.  Times of the frame clock are nanoseconds below 2^62, the repeat rate of keys is
    below 256 and modifiers are below 128, as in the source.  The transport loop reads one frame per round and every frame has at
    least four bytes, so the length of the stream plus one is enough, which
    [handle_incoming_stream_terminates] proves.  The workspace id counter is an unsigned 64-bit
    integer that wraps; steps ask that it is below 2^53 ([room]), which also makes workspace indices
    exact as doubles.  Millisecond clocks and sequence numbers are natural numbers below 2^64 with
    saturating, wrapping or panicking operations as in the source; release builds check overflow.

    ** Not modelled

    - Sizes, positions, tile heights, animations and rendering: the structure of the layout does not
      depend on them, except that focus changes compare positions, which are parameters.
    - What Smithay, libinput, DRM, PipeWire and zbus do: the code around them is glue.  Swipe
      trackers and clocks appear as the values they return.
    - What a frame contains; actions on sizes, urgency, screenshots, casts, processes and the link
      (their names and when they run are modelled); pointers, touch, tablets other than the buttons of a stylus, and gestures.  [event_pre] excludes a
      throttled vblank of an output that was removed and added again meanwhile, vblanks while an
      estimated one is waited for, and throttled ones that were not asked for.
    - Parsing of the configuration (derived decoders), the user interface, D-Bus services.
    - The file system, sockets and serialisation of the link are parameters; of the encodings
      only documented laws are hypotheses (JSON reads back all but floats, when it reads).
    - In the layout: insert hints, scrolling at the edges while dragging, animations, and the
      heights new windows ask for. *)
From stdpp Require Export gmap strings list sorting.
From Stdlib Require Export NArith ZArith Lia.

Declare Scope cidre_scope.
Delimit Scope cidre_scope with cidre.

(** ** Hint databases

    [cidre] collects the resolution lemmas of the invariants of all
    components, [cidre_simpl] the rewriting rules of the shared operations. *)
Create HintDb cidre.

(** ** Tactics *)

(** Case analysis on the innermost [match] or [if] of the goal. *)
Ltac split_match :=
  match goal with
  | |- context [ match ?x with _ => _ end ] =>
      lazymatch x with
      | context [ match _ with _ => _ end ] => fail
      | _ => destruct x eqn:?
      end
  end.

(** The same in a hypothesis. *)
Ltac split_match_in H :=
  match type of H with
  | context [ match ?x with _ => _ end ] =>
      lazymatch x with
      | context [ match _ with _ => _ end ] => fail
      | _ => destruct x eqn:?
      end
  end.

(** Turn the boolean tests of the code into propositions. *)
Ltac reflect_bools :=
  repeat match goal with
  | H : _ && _ = true |- _ => apply andb_true_iff in H; destruct H
  | H : _ || _ = false |- _ => apply orb_false_iff in H; destruct H
  | H : negb _ = true |- _ => apply negb_true_iff in H
  | H : negb _ = false |- _ => apply negb_false_iff in H
  | H : bool_decide _ = true |- _ => apply bool_decide_eq_true_1 in H
  | H : bool_decide _ = false |- _ => apply bool_decide_eq_false_1 in H
  | H : N.ltb _ _ = true |- _ => apply N.ltb_lt in H
  | H : N.ltb _ _ = false |- _ => apply N.ltb_ge in H
  | H : N.leb _ _ = true |- _ => apply N.leb_le in H
  | H : N.leb _ _ = false |- _ => apply N.leb_gt in H
  | H : N.eqb _ _ = true |- _ => apply N.eqb_eq in H
  | H : N.eqb _ _ = false |- _ => apply N.eqb_neq in H
  | H : Nat.ltb _ _ = true |- _ => apply Nat.ltb_lt in H
  | H : Nat.ltb _ _ = false |- _ => apply Nat.ltb_ge in H
  | H : Nat.leb _ _ = true |- _ => apply Nat.leb_le in H
  | H : Nat.leb _ _ = false |- _ => apply Nat.leb_gt in H
  | H : Nat.eqb _ _ = true |- _ => apply Nat.eqb_eq in H
  | H : Nat.eqb _ _ = false |- _ => apply Nat.eqb_neq in H
  end.

(** ** Machine integers

    Unsigned integers are kept as [N] below their bound; the operations write
    out what the Rust operation does at the bound. *)
Definition u8_max : N := 255.
Definition u16_max : N := 65535.
Definition u32_max : N := 4294967295.
Definition u64_max : N := 18446744073709551615.

(** [u64::saturating_add]. *)
Definition saturating_add_u64 (a b : N) : N := N.min (a + b) u64_max.

(** [saturating_sub] of any unsigned type: [N.sub] truncates at zero. *)
Definition saturating_sub (a b : N) : N := (a - b)%N.

(** [u64::wrapping_add]. *)
Definition wrapping_add_u64 (a b : N) : N := ((a + b) mod (u64_max + 1))%N.

Lemma saturating_add_u64_bound a b : (saturating_add_u64 a b ≤ u64_max)%N.
Proof. unfold saturating_add_u64. lia. Qed.

Lemma saturating_add_u64_below a b :
  (a + b ≤ u64_max)%N → saturating_add_u64 a b = (a + b)%N.
Proof. unfold saturating_add_u64. lia. Qed.

Lemma wrapping_add_u64_below a b :
  (a + b ≤ u64_max)%N → wrapping_add_u64 a b = (a + b)%N.
Proof. intros H. unfold wrapping_add_u64. apply N.mod_small. lia. Qed.

(** ** Panics

    A computation that does not panic and whose result has a property. *)
Definition runs {A} (o : option A) (P : A → Prop) : Prop := ∃ a, o = Some a ∧ P a.

Lemma runs_bind {A B} (o : option A) (f : A → option B) P Q :
  runs o P → (∀ a, P a → runs (f a) Q) → runs (o ≫= f) Q.
Proof. intros (a & -> & Ha) H. by apply H. Qed.

Lemma runs_ret {A} (a : A) (P : A → Prop) : P a → runs (Some a) P.
Proof. intros H. by exists a. Qed.

Lemma runs_weaken {A} (o : option A) (P Q : A → Prop) : runs o P → (∀ a, P a → Q a) → runs o Q.
Proof. intros (a & -> & Ha) H. exists a. auto. Qed.

Lemma runs_fmap {A B} (o : option A) (f : A → B) P Q :
  runs o P → (∀ a, P a → Q (f a)) → runs (f <$> o) Q.
Proof. intros (a & -> & Ha) H. exists (f a). auto. Qed.

(** ** Vectors

    [Vec::insert] at an index the caller has clamped to the length. *)
Definition insert_at {A} (i : nat) (x : A) (l : list A) : list A :=
  take i l ++ x :: drop i l.

(** [Vec::contains]. *)
Definition contains {A} `{EqDecision A} (x : A) (l : list A) : bool :=
  bool_decide (x ∈ l).

(** [if !v.contains(&x) { v.push(x) }]. *)
Definition push_unique {A} `{EqDecision A} (x : A) (l : list A) : list A :=
  if contains x l then l else l ++ [x].

(** [iter_mut().find(p)] followed by a write through the reference: the first
    element that satisfies [p] is replaced; [None] when there is none. *)
Fixpoint update_first {A} (p : A → bool) (f : A → A) (l : list A) : option (list A) :=
  match l with
  | [] => None
  | x :: l => if p x then Some (f x :: l) else (x ::.) <$> update_first p f l
  end.

Section vectors.
Context {A : Type}.
Implicit Types (x y : A) (l : list A).

Lemma insert_at_Permutation i x l : insert_at i x l ≡ₚ x :: l.
Proof.
  unfold insert_at. rewrite <- Permutation_middle. by rewrite take_drop.
Qed.

Lemma elem_of_insert_at i x y l : y ∈ insert_at i x l ↔ y = x ∨ y ∈ l.
Proof. by rewrite insert_at_Permutation, elem_of_cons. Qed.

Lemma NoDup_insert_at i x l : x ∉ l → NoDup l → NoDup (insert_at i x l).
Proof. intros. rewrite insert_at_Permutation. by constructor. Qed.

Lemma length_insert_at i x l : length (insert_at i x l) = S (length l).
Proof. by rewrite insert_at_Permutation. Qed.

Lemma lookup_insert_at i x l : i ≤ length l → insert_at i x l !! i = Some x.
Proof.
  intros. unfold insert_at.
  rewrite lookup_app_r; rewrite length_take; [|lia].
  by replace (i - i `min` length l) with 0 by lia.
Qed.

Lemma update_first_None p f l :
  update_first p f l = None ↔ (∀ x, x ∈ l → p x = false).
Proof.
  induction l as [|a l IH]; simpl; [set_solver|].
  destruct (p a) eqn:E.
  - split; [done|]. intros H. rewrite (H a) in E; [done|left].
  - rewrite fmap_None, IH. set_solver.
Qed.

Lemma update_first_length p f l l' :
  update_first p f l = Some l' → length l' = length l.
Proof.
  revert l'. induction l as [|a l IH]; simpl; intros l'; [done|].
  destruct (p a); intros H; simplify_option_eq; [done|].
  simpl. f_equal. by apply IH.
Qed.

(** The element written is the first that satisfies the predicate. *)
Lemma update_first_Some p f l l' :
  update_first p f l = Some l' →
  ∃ l1 x l2, l = l1 ++ x :: l2 ∧ l' = l1 ++ f x :: l2 ∧ p x = true ∧
    Forall (λ y, p y = false) l1.
Proof.
  revert l'. induction l as [|a l IH]; simpl; intros l'; [done|].
  destruct (p a) eqn:E; intros H.
  - simplify_eq. by exists [], a, l.
  - destruct (update_first p f l) as [k|] eqn:Ek; simplify_eq/=.
    destruct (IH k eq_refl) as (l1 & x & l2 & -> & -> & ? & ?).
    exists (a :: l1), x, l2. auto using Forall.
Qed.

Context `{EqDecision A}.

Lemma contains_spec x l : contains x l = true ↔ x ∈ l.
Proof. apply bool_decide_eq_true. Qed.

Lemma elem_of_push_unique x y l : y ∈ push_unique x l ↔ y = x ∨ y ∈ l.
Proof.
  unfold push_unique, contains. case_bool_decide; set_solver.
Qed.

Lemma NoDup_push_unique x l : NoDup l → NoDup (push_unique x l).
Proof.
  intros Hl. unfold push_unique, contains. case_bool_decide; [done|].
  apply NoDup_app. split_and!; [done|set_solver|apply NoDup_singleton].
Qed.

Lemma push_unique_id x l : x ∈ l → push_unique x l = l.
Proof. intros. unfold push_unique, contains. by rewrite bool_decide_true. Qed.
End vectors.

#[export] Hint Resolve NoDup_push_unique NoDup_insert_at : cidre.

(** ** Bounded queues

    The newest [n] elements of a list. *)
Definition lastn {A} (n : nat) (l : list A) : list A := drop (length l - n) l.

(** Push at the back of a queue that holds at most [n] elements, dropping the
    oldest element when it is full. *)
Definition push_bounded {A} (n : nat) (q : list A) (x : A) : list A :=
  (if n <=? length q then tail q else q) ++ [x].

Section bounded_queue.
Context {A : Type} (n : nat) (Hn : 1 ≤ n).
Implicit Types (q l : list A).

Lemma push_bounded_lastn q x :
  length q ≤ n → push_bounded n q x = lastn n (q ++ [x]).
Proof using Hn.
  intros Hq. unfold push_bounded, lastn. rewrite length_app. simpl.
  destruct (Nat.leb_spec n (length q)).
  - replace (length q + 1 - n) with 1 by lia. destruct q; simpl in *; [lia|done].
  - by replace (length q + 1 - n) with 0 by lia.
Qed.

Lemma length_lastn l : length (lastn n l) = n `min` length l.
Proof. unfold lastn. rewrite length_drop. lia. Qed.

Lemma last_lastn l : last (lastn n l) = last l.
Proof using Hn.
  destruct l as [|x l'] using rev_ind; [done|].
  unfold lastn. rewrite drop_app_le by (rewrite length_app; simpl; lia).
  by rewrite !last_snoc.
Qed.

Lemma lastn_lastn_app l1 l2 : lastn n (lastn n l1 ++ l2) = lastn n (l1 ++ l2).
Proof.
  unfold lastn at 1 3. rewrite !length_app, length_lastn. unfold lastn.
  destruct (Nat.le_gt_cases (length l1) n) as [Hl|Hl].
  - replace (length l1 - n) with 0 by lia. simpl. f_equal. lia.
  - rewrite <- drop_app_le by lia. rewrite drop_drop. f_equal. lia.
Qed.

(** After any number of pushes the queue holds the newest elements, in order. *)
Lemma foldl_push_bounded q l :
  length q ≤ n → foldl (push_bounded n) q l = lastn n (q ++ l).
Proof using Hn.
  revert q. induction l as [|x l IH]; intros q Hq; simpl.
  - rewrite app_nil_r. unfold lastn. by replace (length q - n) with 0 by lia.
  - rewrite push_bounded_lastn by done. rewrite IH by (rewrite length_lastn; lia).
    rewrite lastn_lastn_app. by rewrite <- app_assoc.
Qed.
End bounded_queue.

(** ** Vectors updated by index

    [Vec::insert], [Vec::remove] and [slice::swap] with their panics: [None] is an index out of
    range.  Elements are read with [!!] and written with [<[i:=x]>], which the models guard by a
    lookup. *)

Section vec.
Context {A : Type}.
Implicit Types (l : list A) (x : A) (i j : nat).

(** [Vec::insert]. *)
Definition vec_insert i x l : option (list A) :=
  if i <=? length l then Some (take i l ++ x :: drop i l) else None.

(** [Vec::remove]. *)
Definition vec_remove i l : option (A * list A) :=
  x ← l !! i; Some (x, take i l ++ drop (S i) l).

(** [slice::swap]. *)
Definition vec_swap i j l : option (list A) :=
  x ← l !! i; y ← l !! j; Some (<[j:=x]> (<[i:=y]> l)).

(** [iter().position(p)]. *)
Fixpoint vec_position (p : A → bool) l : option nat :=
  match l with
  | [] => None
  | x :: l => if p x then Some 0 else S <$> vec_position p l
  end.

Lemma vec_insert_ok i x l : i ≤ length l → vec_insert i x l = Some (take i l ++ x :: drop i l).
Proof. intros H. unfold vec_insert. by rewrite (proj2 (Nat.leb_le _ _) H). Qed.

Lemma vec_insert_Some i x l l' :
  vec_insert i x l = Some l' → i ≤ length l ∧ l' = take i l ++ x :: drop i l.
Proof. unfold vec_insert. destruct (Nat.leb_spec i (length l)); naive_solver. Qed.

Lemma vec_insert_perm i x l : take i l ++ x :: drop i l ≡ₚ x :: l.
Proof. by rewrite <-Permutation_middle, take_drop. Qed.

Lemma length_vec_insert i x l : length (take i l ++ x :: drop i l) = S (length l).
Proof. by rewrite (Permutation_length (vec_insert_perm i x l)). Qed.

Lemma vec_insert_lookup_eq i x l : i ≤ length l → (take i l ++ x :: drop i l) !! i = Some x.
Proof. intros H. apply list_lookup_middle. by rewrite length_take_le. Qed.

Lemma vec_insert_lookup_lt i j x l :
  j < i → i ≤ length l → (take i l ++ x :: drop i l) !! j = l !! j.
Proof.
  intros H Hi. rewrite lookup_app_l by (rewrite length_take; lia). by apply lookup_take_lt.
Qed.

Lemma vec_insert_lookup_ge i j x l :
  i ≤ j → i ≤ length l → (take i l ++ x :: drop i l) !! S j = l !! j.
Proof.
  intros H Hi. rewrite lookup_app_r by (rewrite length_take; lia).
  rewrite length_take_le by lia. replace (S j - i) with (S (j - i)) by lia. simpl.
  rewrite lookup_drop. f_equal. lia.
Qed.

Lemma vec_remove_ok i x l : l !! i = Some x → vec_remove i l = Some (x, take i l ++ drop (S i) l).
Proof. intros H. unfold vec_remove. by rewrite H. Qed.

Lemma vec_remove_Some i l x l' :
  vec_remove i l = Some (x, l') → l !! i = Some x ∧ l' = take i l ++ drop (S i) l.
Proof. unfold vec_remove. destruct (l !! i) eqn:E; naive_solver. Qed.

Lemma vec_remove_perm i x l : l !! i = Some x → l ≡ₚ x :: (take i l ++ drop (S i) l).
Proof. intros H. rewrite <-(take_drop_middle l i x H) at 1. by rewrite <-Permutation_middle. Qed.

Lemma length_vec_remove i x l : l !! i = Some x → S (length (take i l ++ drop (S i) l)) = length l.
Proof. intros H. by rewrite (Permutation_length (vec_remove_perm i x l H)). Qed.

Lemma vec_remove_lookup_lt i j l : j < i → (take i l ++ drop (S i) l) !! j = l !! j.
Proof.
  intros H. destruct (Nat.lt_ge_cases j (length l)) as [Hl|Hl].
  - rewrite lookup_app_l by (rewrite length_take; lia). by apply lookup_take_lt.
  - rewrite (take_ge l i), (drop_ge l (S i)) by lia. by rewrite app_nil_r.
Qed.

Lemma vec_remove_lookup_ge i j l :
  i ≤ j → i < length l → (take i l ++ drop (S i) l) !! j = l !! S j.
Proof.
  intros H Hi. rewrite lookup_app_r by (rewrite length_take; lia).
  rewrite length_take_le by lia. rewrite lookup_drop. f_equal. lia.
Qed.

(** Removing what was inserted, and inserting what was removed. *)
Lemma vec_remove_insert i x l :
  i ≤ length l → vec_remove i (take i l ++ x :: drop i l) = Some (x, l).
Proof.
  intros H. rewrite (vec_remove_ok i x) by by apply vec_insert_lookup_eq.
  rewrite take_app_length' by (by rewrite length_take_le).
  rewrite drop_app_ge by (rewrite length_take_le; lia).
  rewrite length_take_le by done. replace (S i - i) with 1 by lia. simpl.
  by rewrite drop_0, take_drop.
Qed.

Lemma vec_insert_remove i x l :
  l !! i = Some x → vec_insert i x (take i l ++ drop (S i) l) = Some l.
Proof.
  intros H. assert (Hi := lookup_lt_Some _ _ _ H).
  rewrite vec_insert_ok by (rewrite length_app, length_take_le; lia).
  rewrite take_app_length' by (rewrite length_take_le; lia).
  rewrite drop_app_length' by (rewrite length_take_le; lia). by rewrite take_drop_middle.
Qed.

Lemma vec_swap_ok i j x y l :
  l !! i = Some x → l !! j = Some y → vec_swap i j l = Some (<[j:=x]> (<[i:=y]> l)).
Proof. intros Hi Hj. unfold vec_swap. by rewrite Hi, Hj. Qed.

Lemma insert_perm i x y l : l !! i = Some x → x :: <[i:=y]> l ≡ₚ y :: l.
Proof.
  intros H. assert (Hi := lookup_lt_Some _ _ _ H).
  rewrite (insert_take_drop l i y Hi). rewrite <-Permutation_middle.
  rewrite <-(take_drop_middle l i x H) at 3. rewrite <-Permutation_middle. apply perm_swap.
Qed.

Lemma vec_swap_perm i j x y l :
  l !! i = Some x → l !! j = Some y → <[j:=x]> (<[i:=y]> l) ≡ₚ l.
Proof.
  intros Hi Hj. apply (Permutation_cons_inv (a := y)).
  destruct (decide (i = j)) as [->|Hne].
  - assert (x = y) by congruence. subst. rewrite (list_insert_id l j) by done. by rewrite list_insert_id.
  - rewrite (insert_perm j y x) by (rewrite list_lookup_insert_ne by done; exact Hj).
    by rewrite (insert_perm i x y).
Qed.

Lemma vec_position_Some p l i :
  vec_position p l = Some i → ∃ x, l !! i = Some x ∧ p x = true.
Proof.
  revert i. induction l as [|y l IH]; intros i; simpl; [done|].
  destruct (p y) eqn:E; [intros [= <-]; eauto|].
  intros (k & Hk & ->)%fmap_Some. by apply IH.
Qed.

Lemma vec_position_first p l i x : vec_position p l = Some i → x ∈ take i l → p x = false.
Proof.
  revert i. induction l as [|y l IH]; intros i; simpl; [done|].
  destruct (p y) eqn:E; [by intros [= <-] ?%not_elem_of_nil|].
  intros (k & Hk & ->)%fmap_Some. cbn [take]. intros [->|Hx]%elem_of_cons; [done|]. by eapply IH.
Qed.

Lemma vec_position_is_Some p l x : x ∈ l → p x = true → is_Some (vec_position p l).
Proof.
  induction l as [|y l IH]; [by intros ?%not_elem_of_nil|]. simpl.
  intros [->|H]%elem_of_cons Hp; [by rewrite Hp|].
  destruct (p y); [done|]. by apply fmap_is_Some, IH.
Qed.

Lemma vec_position_None p l : vec_position p l = None → ∀ x, x ∈ l → p x = false.
Proof.
  intros H x Hx. destruct (p x) eqn:E; [|done].
  destruct (vec_position_is_Some p l x Hx E) as [? Hs]. congruence.
Qed.
End vec.
