(* ===== verification/BTree.v ===== *)
(** * Stable sorting and ordered maps

    [slice::sort_by_key] is a stable sort: [stable_sort] is the insertion sort
    that keeps equal elements in their original order.  A
    [BTreeMap<Uuid, V>] is a finite map [gmap N V] whose iterators run in the
    order of the keys: [bt_to_list], [bt_keys] and [bt_values] are those
    iterators. *)
From S2P Require Import Prelude.

Section stable_sort.
Context {A : Type} (leb : A → A → bool).

(** Insert before the first element that is not smaller. *)
Fixpoint sort_insert (x : A) (l : list A) : list A :=
  match l with
  | [] => [x]
  | y :: l => if leb x y then x :: y :: l else y :: sort_insert x l
  end.

Definition stable_sort (l : list A) : list A := foldr sort_insert [] l.

Lemma sort_insert_Permutation x l : sort_insert x l ≡ₚ x :: l.
Proof.
  induction l as [|y l IH]; simpl; [done|].
  destruct (leb x y); [done|]. rewrite IH. constructor.
Qed.

Lemma stable_sort_Permutation l : stable_sort l ≡ₚ l.
Proof.
  induction l as [|x l IH]; simpl; [done|].
  by rewrite sort_insert_Permutation, IH.
Qed.

Lemma elem_of_stable_sort x l : x ∈ stable_sort l ↔ x ∈ l.
Proof. by rewrite stable_sort_Permutation. Qed.

Lemma length_stable_sort l : length (stable_sort l) = length l.
Proof. by rewrite stable_sort_Permutation. Qed.

(** The order the sort decides. *)
Let le (x y : A) : Prop := leb x y = true.
Context (Htotal : ∀ x y, le x y ∨ le y x).
Context (Htrans : ∀ x y z, le x y → le y z → le x z).

Lemma sort_insert_sorted x l :
  StronglySorted le l → StronglySorted le (sort_insert x l).
Proof.
  induction 1 as [|y l Hl IH Hy]; simpl; [repeat constructor|].
  destruct (leb x y) eqn:E.
  - repeat constructor; [done|done|done|].
    eapply Forall_impl; [exact Hy|]. intros z Hz. by eapply Htrans.
  - constructor; [done|].
    rewrite sort_insert_Permutation. constructor; [|done].
    destruct (Htotal x y) as [H|H]; [congruence|done].
Qed.

Lemma stable_sort_sorted l : StronglySorted le (stable_sort l).
Proof.
  induction l as [|x l IH]; simpl; [constructor|]. by apply sort_insert_sorted.
Qed.

(** Stability: a class of mutually equivalent elements keeps its order. *)
Lemma sort_insert_filter (p : A → bool) x l :
  (∀ y, p x = true → p y = true → le x y) →
  List.filter p (sort_insert x l) = List.filter p (x :: l).
Proof.
  intros Hp. induction l as [|y l IH]; simpl; [done|].
  destruct (leb x y) eqn:E; [done|]. simpl in *.
  destruct (p y) eqn:Ey; rewrite IH; [|done].
  destruct (p x) eqn:Ex; [|done].
  specialize (Hp y eq_refl Ey). unfold le in Hp. congruence.
Qed.

Lemma stable_sort_stable (p : A → bool) l :
  (∀ x y, p x = true → p y = true → le x y) →
  List.filter p (stable_sort l) = List.filter p l.
Proof.
  intros Hp. induction l as [|x l IH]; simpl; [done|].
  rewrite sort_insert_filter by auto. simpl. by rewrite IH.
Qed.

(** A sorted list is left alone. *)
Lemma stable_sort_id l : StronglySorted le l → stable_sort l = l.
Proof.
  induction 1 as [|x l Hl IH Hx]; simpl; [done|]. rewrite IH.
  destruct l as [|y l]; simpl; [done|].
  apply Forall_cons in Hx as [Hx _]. unfold le in Hx. by rewrite Hx.
Qed.
End stable_sort.

(** Elements of a sorted list at different positions are related. *)
Lemma StronglySorted_lookup_lt {A} (R : relation A) l i j x y :
  StronglySorted R l → l !! i = Some x → l !! j = Some y → i < j → R x y.
Proof.
  intros Hs. revert i j. induction Hs as [|a l Hs IH Ha]; intros i j Hi Hj Hij; [done|].
  destruct j as [|j]; [lia|]. destruct i as [|i]; simpl in *.
  - simplify_eq. rewrite Forall_forall in Ha. apply Ha. by eapply list_elem_of_lookup_2.
  - eapply IH; eauto. lia.
Qed.

(** Sorting commutes with a map that preserves the comparison. *)
Lemma sort_insert_map {A B} (la : A → A → bool) (lb : B → B → bool) (f : A → B) x l :
  (∀ x y, lb (f x) (f y) = la x y) →
  sort_insert lb (f x) (f <$> l) = f <$> sort_insert la x l.
Proof.
  intros Hf. induction l as [|y l IH]; csimpl; [done|]. rewrite Hf.
  destruct (la x y); csimpl; [done|]. by rewrite IH.
Qed.

Lemma stable_sort_map {A B} (la : A → A → bool) (lb : B → B → bool) (f : A → B) l :
  (∀ x y, lb (f x) (f y) = la x y) →
  stable_sort lb (f <$> l) = f <$> stable_sort la l.
Proof.
  intros Hf. induction l as [|x l IH]; csimpl; [done|].
  unfold stable_sort in *. simpl. rewrite IH. by apply sort_insert_map.
Qed.

(** ** Ordered maps *)
Section btree.
Context {V : Type}.
Implicit Types (m : gmap N V) (k : N) (v : V).

Definition entry_leb (p q : N * V) : bool := N.leb p.1 q.1.

Definition bt_to_list m : list (N * V) := stable_sort entry_leb (map_to_list m).
Definition bt_keys m : list N := (bt_to_list m).*1.
Definition bt_values m : list V := (bt_to_list m).*2.

Lemma entry_leb_total p q : entry_leb p q = true ∨ entry_leb q p = true.
Proof. unfold entry_leb. rewrite !N.leb_le. lia. Qed.

Lemma entry_leb_trans p q r :
  entry_leb p q = true → entry_leb q r = true → entry_leb p r = true.
Proof. unfold entry_leb. rewrite !N.leb_le. lia. Qed.

Lemma elem_of_bt_to_list m k v : (k, v) ∈ bt_to_list m ↔ m !! k = Some v.
Proof. unfold bt_to_list. by rewrite elem_of_stable_sort, elem_of_map_to_list. Qed.

Lemma elem_of_bt_keys m k : k ∈ bt_keys m ↔ is_Some (m !! k).
Proof.
  unfold bt_keys. rewrite list_elem_of_fmap. split.
  - intros ([k' v] & -> & H). apply elem_of_bt_to_list in H. eauto.
  - intros [v H]. exists (k, v). by rewrite elem_of_bt_to_list.
Qed.

Lemma elem_of_bt_values m v : v ∈ bt_values m ↔ ∃ k, m !! k = Some v.
Proof.
  unfold bt_values. rewrite list_elem_of_fmap. split.
  - intros ([k w] & -> & H). apply elem_of_bt_to_list in H. eauto.
  - intros [k H]. exists (k, v). by rewrite elem_of_bt_to_list.
Qed.

Lemma NoDup_bt_keys m : NoDup (bt_keys m).
Proof.
  unfold bt_keys, bt_to_list.
  rewrite (stable_sort_Permutation entry_leb). apply NoDup_fst_map_to_list.
Qed.

Lemma bt_to_list_sorted m :
  StronglySorted (λ p q, entry_leb p q = true) (bt_to_list m).
Proof. apply stable_sort_sorted; [apply entry_leb_total|apply entry_leb_trans]. Qed.

Lemma length_bt_to_list m : length (bt_to_list m) = size m.
Proof. unfold bt_to_list. by rewrite length_stable_sort, length_map_to_list. Qed.

Lemma length_bt_values m : length (bt_values m) = size m.
Proof. unfold bt_values. by rewrite length_fmap, length_bt_to_list. Qed.

Lemma bt_to_list_empty : bt_to_list (∅ : gmap N V) = [].
Proof. unfold bt_to_list. by rewrite map_to_list_empty. Qed.

Lemma bt_to_list_singleton k v : bt_to_list ({[k := v]} : gmap N V) = [(k, v)].
Proof. unfold bt_to_list. by rewrite map_to_list_singleton. Qed.

(** The iterator of a map is determined by its entries: a list with strictly
    increasing keys is what the map built from it yields. *)
Lemma bt_to_list_unique m l :
  StronglySorted (λ p q, entry_leb p q = true) l →
  l ≡ₚ map_to_list m → bt_to_list m = l.
Proof.
  intros Hs Hp.
  eapply (StronglySorted_unique_strong (λ p q, entry_leb p q = true));
    [|apply bt_to_list_sorted|done|].
  - intros [k1 v1] [k2 v2] H1 H2. unfold entry_leb. simpl.
    rewrite !N.leb_le. intros. assert (k1 = k2) as -> by lia.
    rewrite Hp, elem_of_map_to_list in H2.
    rewrite elem_of_bt_to_list in H1. congruence.
  - unfold bt_to_list. by rewrite stable_sort_Permutation.
Qed.
End btree.

(** [BTreeMap::keys] of the first entry: the least key. *)
Lemma bt_keys_head_min {V} (m : gmap N V) k ks :
  bt_keys m = k :: ks → is_Some (m !! k) ∧ ∀ j, is_Some (m !! j) → (k ≤ j)%N.
Proof.
  unfold bt_keys. intros H. pose proof (bt_to_list_sorted m) as Hs.
  destruct (bt_to_list m) as [|[k' v] l] eqn:E; simplify_eq/=.
  split.
  - exists v. apply elem_of_bt_to_list. rewrite E. left.
  - intros j [w Hw]. apply elem_of_bt_to_list in Hw. rewrite E in Hw.
    apply elem_of_cons in Hw as [[=]|Hw]; [lia|].
    apply StronglySorted_inv in Hs as [_ Hs].
    rewrite Forall_forall in Hs. specialize (Hs _ Hw).
    unfold entry_leb in Hs. by apply N.leb_le in Hs.
Qed.

(** [BTreeSet<Uuid>] built from an iterator, listed in order. *)
Definition bset_elements (s : gset N) : list N := stable_sort N.leb (elements s).

Lemma elem_of_bset_elements s k : k ∈ bset_elements s ↔ k ∈ s.
Proof. unfold bset_elements. by rewrite elem_of_stable_sort, elem_of_elements. Qed.

Lemma bset_elements_head_min s k ks :
  bset_elements s = k :: ks → k ∈ s ∧ ∀ j, j ∈ s → (k ≤ j)%N.
Proof.
  intros H.
  assert (Hs : StronglySorted (λ a b, N.leb a b = true) (bset_elements s)).
  { apply stable_sort_sorted; intros; rewrite ?N.leb_le in *; lia. }
  rewrite H in Hs. split; [rewrite <-elem_of_bset_elements, H; left|].
  intros j Hj. rewrite <-elem_of_bset_elements, H in Hj.
  apply elem_of_cons in Hj as [->|Hj]; [lia|].
  apply StronglySorted_inv in Hs as [_ Hs]. rewrite Forall_forall in Hs.
  by apply N.leb_le, Hs.
Qed.

(** The first value that a predicate holds of is the one with the least key. *)
Lemma find_bt_values {V} (p : V → bool) (m : gmap N V) :
  match List.find p (bt_values m) with
  | Some v => ∃ k, m !! k = Some v ∧ p v = true ∧ ∀ k' v', m !! k' = Some v' → p v' = true → (k ≤ k')%N
  | None => ∀ k v, m !! k = Some v → p v = false
  end.
Proof.
  pose proof (bt_to_list_sorted m) as Hs. pose proof (elem_of_bt_to_list m) as Hin. unfold bt_values.
  assert (H : match List.find p (bt_to_list m).*2 with
    | Some v => ∃ k, (k, v) ∈ bt_to_list m ∧ p v = true ∧ ∀ k' v', (k', v') ∈ bt_to_list m → p v' = true → (k ≤ k')%N
    | None => ∀ k v, (k, v) ∈ bt_to_list m → p v = false
    end).
  { clear Hin. induction Hs as [|[k v] l _ IH Hk]; cbn; [by intros k v ?%elem_of_nil|]. rewrite Forall_forall in Hk.
    destruct (p v) eqn:Ev.
    - exists k. split_and!; [left|done|]. intros k' v' [[= -> ->]|Hl]%elem_of_cons _; [lia|].
      apply Hk in Hl. unfold entry_leb in Hl. cbn in Hl. by apply N.leb_le.
    - destruct (List.find p l.*2) as [w|].
      + destruct IH as (kw & Hw & Hpw & Hmin). exists kw. split_and!; [by right|done|].
        intros k' v' [[= -> ->]|Hl]%elem_of_cons Hp; [congruence|by eapply Hmin].
      + intros k' v' [[= -> ->]|Hl]%elem_of_cons; [done|by eapply IH]. }
  destruct (List.find _ _) as [v|].
  - destruct H as (k & Hv & Hp & Hmin). exists k. split_and!; [by apply Hin|done|].
    intros k' v' Hk'%Hin. by eapply Hmin.
  - intros k v Hv%Hin. by eapply H.
Qed.
