(* ===== verification/Float64.v ===== *)
(** * Double precision floating point

    Rust's [f64] is IEEE-754 binary64.  The Standard Library's [SpecFloat]
    gives its operations as functions on integers, so that every definition
    that computes with [f64] stays executable.  The lemmas of this file show
    that on integers below 2^53 the conversions, sums and comparisons are
    exact; the geometry of tiles, whose sizes are [i32], stays in that range. *)
From S2P Require Import Prelude.
From Stdlib Require Import SpecFloat.

Local Open Scope Z_scope.

(** ** Operations *)
Abbreviation f64 := spec_float.

Definition f64_prec : Z := 53.
Definition f64_emax : Z := 1024.

Definition f64_add : f64 → f64 → f64 := SFadd f64_prec f64_emax.
Definition f64_sub : f64 → f64 → f64 := SFsub f64_prec f64_emax.
Definition f64_mul : f64 → f64 → f64 := SFmul f64_prec f64_emax.
Definition f64_div : f64 → f64 → f64 := SFdiv f64_prec f64_emax.
Definition f64_ltb : f64 → f64 → bool := SFltb.
Definition f64_leb : f64 → f64 → bool := SFleb.
(** [==] of [f64]: false on NaN, true on the two zeros. *)
Definition f64_eqb : f64 → f64 → bool := SFeqb.

Definition f64_is_nan (x : f64) : bool :=
  match x with S754_nan => true | _ => false end.

(** [f64::max]: a NaN argument is ignored. *)
Definition f64_max (x y : f64) : f64 :=
  if f64_is_nan x then y else if f64_is_nan y then x
  else if f64_ltb x y then y else x.

(** [z as f64] for an integer of at most 64 bits. *)
Definition f64_of_Z (z : Z) : f64 := binary_normalize f64_prec f64_emax z 0 false.

Definition f64_zero : f64 := S754_zero false.
Definition f64_one : f64 := f64_of_Z 1.

(** [f64::total_cmp(a, b) != Greater]: the IEEE total order, with -0 below +0
    and the NaN above everything. *)
Definition f64_total_leb (x y : f64) : bool :=
  match x, y with
  | _, S754_nan => true
  | S754_nan, _ => false
  | S754_zero sx, S754_zero sy => sx || negb sy
  | _, _ => f64_leb x y
  end.

Definition f64_total_eqb (x y : f64) : bool := f64_total_leb x y && f64_total_leb y x.

#[export] Instance f64_eq_dec : EqDecision f64.
Proof. solve_decision. Defined.

(** ** Rounding is exact on representable numbers *)

Lemma digits2_log2 p : Zpos (digits2_pos p) = Z.log2 (Zpos p) + 1.
Proof.
  induction p as [p IH|p IH|]; simpl digits2_pos; [| |done];
    rewrite Pos2Z.inj_succ, IH.
  - change (Zpos p~1) with (2 * Zpos p + 1). rewrite Z.log2_succ_double by lia. lia.
  - change (Zpos p~0) with (2 * Zpos p). rewrite Z.log2_double by lia. lia.
Qed.

Lemma iter_xO m d : Zpos (Pos.iter xO m d) = Zpos m * 2 ^ Zpos d.
Proof.
  induction d as [|d IH] using Pos.peano_ind; [simpl; lia|].
  rewrite Pos.iter_succ, Pos2Z.inj_succ, Z.pow_succ_r by lia.
  rewrite Pos2Z.inj_xO, IH. lia.
Qed.

Lemma iter_pos_shr_1 n m :
  0 < m →
  iter_pos shr_1 n (Build_shr_record (m * 2 ^ Zpos n) false false) =
  Build_shr_record m false false.
Proof.
  revert m. induction n as [n IH|n IH|]; intros m Hm; cbn [iter_pos].
  - assert (m * 2 ^ Zpos n~1 = 2 * (m * 2 ^ Zpos n * 2 ^ Zpos n)) as ->.
    { replace (Zpos n~1) with (1 + (Zpos n + Zpos n)) by lia.
      rewrite !Z.pow_add_r by lia. lia. }
    assert (0 < m * 2 ^ Zpos n) by (apply Z.mul_pos_pos; lia).
    assert (0 < m * 2 ^ Zpos n * 2 ^ Zpos n) as Hp by (apply Z.mul_pos_pos; lia).
    destruct (m * 2 ^ Zpos n * 2 ^ Zpos n) as [|q|q] eqn:E; [lia| |lia].
    change (shr_1 {| shr_m := 2 * Zpos q; shr_r := false; shr_s := false |})
      with {| shr_m := Zpos q; shr_r := false; shr_s := false |}.
    rewrite <- E, IH by done. by apply IH.
  - assert (m * 2 ^ Zpos n~0 = m * 2 ^ Zpos n * 2 ^ Zpos n) as ->.
    { replace (Zpos n~0) with (Zpos n + Zpos n) by lia.
      rewrite !Z.pow_add_r by lia. lia. }
    assert (0 < m * 2 ^ Zpos n) by (apply Z.mul_pos_pos; lia).
    rewrite IH by done. by apply IH.
  - destruct m as [|q|q]; [lia| |lia].
    change (Zpos q * 2 ^ 1) with (Zpos q * 2). by rewrite Z.mul_comm.
Qed.

(** A mantissa of exactly 53 bits is left alone. *)
Lemma shr_fexp_canonical M E :
  Z.log2 (Zpos M) = 52 → -1074 ≤ E →
  shr_fexp f64_prec f64_emax (Zpos M) E loc_Exact =
  (Build_shr_record (Zpos M) false false, E).
Proof.
  intros HM HE. unfold shr_fexp, Zdigits2, fexp, emin, f64_prec, f64_emax.
  rewrite digits2_log2, HM.
  replace (Z.max (52 + 1 + E - 53) (3 - 1024 - 53) - E) with 0 by lia. done.
Qed.

(** Trailing zeros beyond 53 bits are shifted out without loss. *)
Lemma shr_fexp_shift M E k :
  Z.log2 (Zpos M) = 52 → -1074 ≤ E → 0 ≤ k →
  shr_fexp f64_prec f64_emax (Zpos M * 2 ^ k) (E - k) loc_Exact =
  (Build_shr_record (Zpos M) false false, E).
Proof.
  intros HM HE Hk.
  destruct (decide (k = 0)) as [->|Hk0].
  { rewrite Z.mul_1_r, Z.sub_0_r. by apply shr_fexp_canonical. }
  assert (Hpos : 0 < Zpos M * 2 ^ k) by (apply Z.mul_pos_pos; lia).
  unfold shr_fexp, fexp, emin, f64_prec, f64_emax.
  assert (Hd : Zdigits2 (Zpos M * 2 ^ k) = 53 + k).
  { destruct (Zpos M * 2 ^ k) as [|q|q] eqn:Eq; [lia| |lia]. simpl.
    rewrite digits2_log2, <- Eq, Z.log2_mul_pow2 by lia. lia. }
  rewrite Hd.
  replace (Z.max (53 + k + (E - k) - 53) (3 - 1024 - 53) - (E - k)) with k by lia.
  destruct k as [|k|k]; [lia| |lia]. unfold shr, shr_record_of_loc.
  rewrite iter_pos_shr_1 by lia. f_equal. lia.
Qed.

Lemma binary_round_aux_exact s M E k :
  Z.log2 (Zpos M) = 52 → -1074 ≤ E ≤ 971 → 0 ≤ k →
  binary_round_aux f64_prec f64_emax s (Zpos M * 2 ^ k) (E - k) loc_Exact =
  S754_finite s M E.
Proof.
  intros HM HE Hk. unfold binary_round_aux.
  rewrite shr_fexp_shift by lia. cbn [shr_m loc_of_shr_record round_nearest_even].
  rewrite shr_fexp_canonical by lia. cbn [shr_m].
  by rewrite (proj2 (Z.leb_le _ _)) by (unfold f64_prec, f64_emax; lia).
Qed.

(** The canonical form of [m * 2^e]: its mantissa [M] has 53 bits.  [k] is the
    number of bits by which the given mantissa is too short (first case) or too
    long (second case). *)
Lemma binary_round_short s m e M k :
  Z.log2 (Zpos M) = 52 → 0 ≤ k → Zpos M = Zpos m * 2 ^ k →
  -1074 ≤ e - k ≤ 971 →
  binary_round f64_prec f64_emax s m e = S754_finite s M (e - k).
Proof.
  intros HM Hk Hm HE. unfold binary_round, fexp, emin, f64_prec, f64_emax.
  assert (Hl : Z.log2 (Zpos m) = 52 - k).
  { rewrite Hm, Z.log2_mul_pow2 in HM; lia. }
  rewrite digits2_log2, Hl.
  replace (Z.max (52 - k + 1 + e - 53) (3 - 1024 - 53)) with (e - k) by lia.
  unfold shl_align. replace (e - k - e) with (- k) by lia.
  pose proof (binary_round_aux_exact s M (e - k) 0 HM HE) as H.
  rewrite Z.mul_1_r, Z.sub_0_r in H.
  destruct k as [|k|k]; [| |lia].
  - cbn. rewrite Z.mul_1_r in Hm. injection Hm as <-.
    rewrite Z.sub_0_r in H |- *. by apply H.
  - change (- Zpos k) with (Zneg k). cbn.
    replace (Zpos (Pos.iter xO m k)) with (Zpos M) by (rewrite iter_xO; lia).
    by apply H.
Qed.

Lemma binary_round_long s m e M k :
  Z.log2 (Zpos M) = 52 → 0 ≤ k → Zpos m = Zpos M * 2 ^ k →
  -1074 ≤ e + k ≤ 971 →
  binary_round f64_prec f64_emax s m e = S754_finite s M (e + k).
Proof.
  intros HM Hk Hm HE. unfold binary_round, fexp, emin, f64_prec, f64_emax.
  assert (Hl : Z.log2 (Zpos m) = 52 + k).
  { rewrite Hm, Z.log2_mul_pow2; lia. }
  rewrite digits2_log2, Hl.
  replace (Z.max (52 + k + 1 + e - 53) (3 - 1024 - 53)) with (e + k) by lia.
  unfold shl_align. replace (e + k - e) with k by lia.
  pose proof (binary_round_aux_exact s M (e + k) k HM HE Hk) as H.
  replace (e + k - k) with e in H by lia. rewrite <- Hm in H.
  destruct k as [|k|k]; [done|done|lia].
Qed.

(** ** Exact integers *)

(** Exponent and mantissa of the double that holds the integer [p]. *)
Definition int_exp (p : positive) : Z := Z.log2 (Zpos p) - 52.

Definition int_mant (p : positive) : positive := Z.to_pos (Zpos p * 2 ^ (- int_exp p)).

(** The integers below 2^53. *)
Definition exact_pos (p : positive) : Prop := Zpos p < 2 ^ 53.

Lemma exact_pos_log2 p : exact_pos p → 0 ≤ Z.log2 (Zpos p) ≤ 52.
Proof.
  intros H. split; [apply Z.log2_nonneg|].
  assert (Z.log2 (Zpos p) < 53); [|lia]. apply Z.log2_lt_pow2; [lia|done].
Qed.

Lemma int_mant_eq p : exact_pos p → Zpos (int_mant p) = Zpos p * 2 ^ (- int_exp p).
Proof.
  intros H%exact_pos_log2. unfold int_mant. rewrite Z2Pos.id; [done|].
  apply Z.mul_pos_pos; [lia|]. apply Z.pow_pos_nonneg; unfold int_exp; lia.
Qed.

Lemma int_mant_log2 p : exact_pos p → Z.log2 (Zpos (int_mant p)) = 52.
Proof.
  intros H. rewrite int_mant_eq by done. apply exact_pos_log2 in H.
  unfold int_exp. rewrite Z.log2_mul_pow2; lia.
Qed.

Lemma f64_of_pos p :
  exact_pos p → f64_of_Z (Zpos p) = S754_finite false (int_mant p) (int_exp p).
Proof.
  intros H. pose proof (exact_pos_log2 p H).
  replace (int_exp p) with (0 - - int_exp p) by lia.
  apply (binary_round_short false p 0); [by apply int_mant_log2| | |];
    rewrite ?int_mant_eq by done; unfold int_exp; lia || done.
Qed.

(** The integer [p] scaled by [2^j], as the adder sees it. *)
Lemma shl_align_int p ez :
  exact_pos p → ez ≤ int_exp p →
  Zpos (fst (shl_align (int_mant p) (int_exp p) ez)) = Zpos p * 2 ^ (- ez).
Proof.
  intros Hp Hez. pose proof (exact_pos_log2 p Hp). unfold shl_align.
  destruct (ez - int_exp p) as [|d|d] eqn:E; [|lia|]; cbn [fst].
  - rewrite int_mant_eq by done. do 2 f_equal. lia.
  - rewrite iter_xO, int_mant_eq, <- Z.mul_assoc, <- Z.pow_add_r
      by (unfold int_exp in *; lia || done).
    do 2 f_equal. lia.
Qed.

Lemma int_exp_mono p q : Zpos p ≤ Zpos q → int_exp p ≤ int_exp q.
Proof. intros H. unfold int_exp. apply Z.log2_le_mono in H. lia. Qed.

Lemma f64_add_pos p q :
  exact_pos (p + q) →
  f64_add (f64_of_Z (Zpos p)) (f64_of_Z (Zpos q)) = f64_of_Z (Zpos (p + q)).
Proof.
  intros Hs. assert (Hp : exact_pos p) by (unfold exact_pos in *; lia).
  assert (Hq : exact_pos q) by (unfold exact_pos in *; lia).
  rewrite !f64_of_pos by done. unfold f64_add, SFadd.
  set (ez := Z.min (int_exp p) (int_exp q)). cbn [cond_Zopp].
  rewrite !shl_align_int by (done || (unfold ez; lia)).
  rewrite <- Z.mul_add_distr_r.
  pose proof (exact_pos_log2 _ Hp). pose proof (exact_pos_log2 _ Hq).
  pose proof (exact_pos_log2 _ Hs).
  assert (Hez : ez ≤ int_exp (p + q)).
  { unfold ez. pose proof (int_exp_mono p (p + q)). lia. }
  assert (Hz : ez ≤ 0) by (unfold ez, int_exp; lia).
  assert (Hm : Zpos (Z.to_pos ((Zpos p + Zpos q) * 2 ^ (- ez))) =
               (Zpos p + Zpos q) * 2 ^ (- ez)).
  { apply Z2Pos.id. apply Z.mul_pos_pos; [lia|]. apply Z.pow_pos_nonneg; lia. }
  rewrite <- Hm. cbn [binary_normalize].
  replace (int_exp (p + q)) with (ez + (int_exp (p + q) - ez)) by lia.
  apply binary_round_long; [by apply int_mant_log2|lia| |unfold int_exp in *; lia].
  rewrite Hm, int_mant_eq, <- Z.mul_assoc, <- Z.pow_add_r by (done || (unfold int_exp in *; lia)).
  rewrite Pos2Z.inj_add. do 2 f_equal. lia.
Qed.

Lemma f64_compare_pos p q :
  exact_pos p → exact_pos q →
  SFcompare (f64_of_Z (Zpos p)) (f64_of_Z (Zpos q)) = Some (Zpos p ?= Zpos q).
Proof.
  intros Hp Hq. rewrite !f64_of_pos by done. cbn [SFcompare]. f_equal.
  pose proof (exact_pos_log2 _ Hp). pose proof (exact_pos_log2 _ Hq).
  change (Pos.compare_cont Eq (int_mant p) (int_mant q))
    with (Zpos (int_mant p) ?= Zpos (int_mant q)).
  destruct (Z.compare_spec (int_exp p) (int_exp q)) as [He|He|He].
  - rewrite !int_mant_eq, He by done.
    assert (0 < 2 ^ (- int_exp q)) by (apply Z.pow_pos_nonneg; unfold int_exp in *; lia).
    destruct (Z.compare_spec (Zpos p) (Zpos q));
      [apply Z.compare_eq_iff|apply Z.compare_lt_iff|apply Z.compare_gt_iff]; nia.
  - symmetry. apply Z.compare_lt_iff. apply Z.nle_gt. intros Hle.
    apply int_exp_mono in Hle. lia.
  - symmetry. apply Z.compare_gt_iff. apply Z.nle_gt. intros Hle.
    apply int_exp_mono in Hle. lia.
Qed.

(** ** The interface the components use: non-negative integers *)
Definition exact_int (z : Z) : Prop := 0 ≤ z < 2 ^ 53.

Lemma f64_add_int a b :
  exact_int a → exact_int b → exact_int (a + b) →
  f64_add (f64_of_Z a) (f64_of_Z b) = f64_of_Z (a + b).
Proof.
  unfold exact_int. intros Ha Hb Hs.
  destruct a as [|p|p]; [|destruct b as [|q|q]|]; [| | |lia|lia].
  - destruct b as [|q|q]; [done| |lia].
    rewrite Z.add_0_l, f64_of_pos by (unfold exact_pos; lia). done.
  - rewrite Z.add_0_r, f64_of_pos by (unfold exact_pos; lia). done.
  - apply f64_add_pos. unfold exact_pos. lia.
Qed.

Lemma f64_compare_int a b :
  exact_int a → exact_int b →
  SFcompare (f64_of_Z a) (f64_of_Z b) = Some (a ?= b).
Proof.
  unfold exact_int. intros Ha Hb.
  destruct a as [|p|p], b as [|q|q]; try lia; [done| | |].
  - rewrite (f64_of_pos q) by (unfold exact_pos; lia). done.
  - rewrite (f64_of_pos p) by (unfold exact_pos; lia). done.
  - apply f64_compare_pos; unfold exact_pos; lia.
Qed.

Lemma f64_ltb_int a b :
  exact_int a → exact_int b → f64_ltb (f64_of_Z a) (f64_of_Z b) = (a <? b).
Proof.
  intros. unfold f64_ltb, SFltb, Z.ltb. rewrite f64_compare_int by done.
  by destruct (a ?= b).
Qed.

Lemma f64_leb_int a b :
  exact_int a → exact_int b → f64_leb (f64_of_Z a) (f64_of_Z b) = (a <=? b).
Proof.
  intros. unfold f64_leb, SFleb, Z.leb. rewrite f64_compare_int by done.
  by destruct (a ?= b).
Qed.

Lemma f64_is_nan_of_nonneg a : exact_int a → f64_is_nan (f64_of_Z a) = false.
Proof.
  unfold exact_int. intros Ha. destruct a as [|p|p]; [done| |lia].
  by rewrite f64_of_pos by (unfold exact_pos; lia).
Qed.

(** A negative integer is a finite negative double. *)
Lemma f64_of_neg p : exact_pos p → ∃ m e, f64_of_Z (Zneg p) = S754_finite true m e.
Proof.
  intros H. pose proof (exact_pos_log2 p H). exists (int_mant p), (0 - - int_exp p).
  apply (binary_round_short true p 0); [by apply int_mant_log2| | |];
    rewrite ?int_mant_eq by done; unfold int_exp; lia || done.
Qed.

Lemma f64_max_int a b :
  exact_int a → exact_int b → f64_max (f64_of_Z a) (f64_of_Z b) = f64_of_Z (Z.max a b).
Proof.
  intros Ha Hb. unfold f64_max.
  rewrite !f64_is_nan_of_nonneg, f64_ltb_int by done.
  destruct (Z.ltb_spec a b); f_equal; lia.
Qed.

(** [f64::max(1., z as f64)] for any [i32] value [z]. *)
Lemma f64_max_one_int z :
  - 2 ^ 53 < z < 2 ^ 53 → f64_max f64_one (f64_of_Z z) = f64_of_Z (Z.max 1 z).
Proof.
  intros Hz. destruct (decide (0 ≤ z)) as [H|H].
  - apply f64_max_int; unfold exact_int; lia.
  - destruct z as [|p|p]; [lia|lia|].
    destruct (f64_of_neg p) as (m & e & Hm); [unfold exact_pos; lia|].
    unfold f64_max, f64_one. rewrite Hm. done.
Qed.

(** The comparisons are those of one linear order with NaN left out. *)
Lemma f64_lt_le_le_absurd p a b :
  f64_ltb p a = true → f64_leb a b = true → f64_leb b p = true → False.
Proof.
  unfold f64_ltb, f64_leb, SFltb, SFleb, SFcompare.
  destruct p as [[]|[]| |[] mp ep], a as [[]|[]| |[] ma ea], b as [[]|[]| |[] mb eb];
    simpl; try done;
  destruct (Z.compare_spec ep ea), (Z.compare_spec ea eb), (Z.compare_spec eb ep);
    subst; try done; try lia;
  repeat match goal with
  | |- context [Pos.compare_cont Eq ?x ?y] =>
      change (Pos.compare_cont Eq x y) with (Pos.compare x y);
      destruct (Pos.compare_spec x y); simpl
  end; subst; try done; lia.
Qed.
