(* ===== verification/FloatRound.v ===== *)
(** * Rounding of doubles to indices

    [clamp], [floor], [ceil], [round] and the cast to [usize] of [f64], on the representation of
    Float64.v.  A double has a mantissa of at most 53 bits ([f64_ok]); every arithmetic operation
    keeps that, and a double clamped to integers rounds to an index that respects the bound. *)
From S2P Require Import Prelude Float64.
From Stdlib Require Import SpecFloat.

Local Open Scope Z_scope.

(** ** Operations *)
Definition f64_of_nat (n : nat) : f64 := f64_of_Z (Z.of_nat n).

Definition f64_abs : f64 → f64 := SFabs.

(** [f64::clamp]: panics unless [min <= max]. *)
Definition f64_clamp (x min max : f64) : option f64 :=
  if f64_leb min max then
    let x := if f64_ltb x min then min else x in
    Some (if f64_ltb max x then max else x)
  else None.

(** The double of sign [s] that is nearest to the integer [n]. *)
Definition f64_of_magnitude (s : bool) (n : Z) : f64 :=
  match n with
  | Zpos p => binary_round f64_prec f64_emax s p 0
  | _ => S754_zero s
  end.

(** A finite double with a fractional part is [m / 2^d]; [round] chooses the integer next to it. *)
Definition round_with (round : bool → Z → Z → Z) (x : f64) : f64 :=
  match x with
  | S754_finite s m (Zneg d) => f64_of_magnitude s (round s (Zpos m) (2 ^ Zpos d))
  | _ => x
  end.

Definition div_up (m q : Z) : Z := (m + q - 1) / q.

Definition f64_ceil : f64 → f64 := round_with (λ s m q, if s then m / q else div_up m q).
Definition f64_floor : f64 → f64 := round_with (λ s m q, if s then div_up m q else m / q).
(** Half-way cases go away from zero. *)
Definition f64_round : f64 → f64 := round_with (λ _ m q, (2 * m + q) / (2 * q)).

Definition usize_max : Z := 2 ^ 64 - 1.

(** [x as usize]: truncates, saturates, and maps NaN to zero. *)
Definition f64_as_usize (x : f64) : nat :=
  Z.to_nat
    match x with
    | S754_finite false m (Zneg d) => Z.min (Zpos m / 2 ^ Zpos d) usize_max
    | S754_finite false m e => Z.min (Zpos m * 2 ^ e) usize_max
    | S754_infinity false => usize_max
    | _ => 0
    end.

(** ** Doubles have 53 bits of mantissa *)
Definition f64_ok (x : f64) : Prop :=
  match x with S754_finite _ m _ => Zpos m < 2 ^ 53 | _ => True end.

Lemma shr_1_abs r : Z.abs (shr_m (shr_1 r)) * 2 ≤ Z.abs (shr_m r).
Proof. destruct r as [[|[]|[]] ? ?]; cbn; lia. Qed.

Lemma iter_shr_1_abs n r : Z.abs (shr_m (iter_pos shr_1 n r)) * 2 ^ Zpos n ≤ Z.abs (shr_m r).
Proof.
  revert r. induction n as [n IH|n IH|]; intros r; cbn [iter_pos].
  - pose proof (IH (iter_pos shr_1 n (shr_1 r))). pose proof (IH (shr_1 r)).
    pose proof (shr_1_abs r).
    replace (Zpos n~1) with (Zpos n + Zpos n + 1) by lia. rewrite !Z.pow_add_r by lia. nia.
  - pose proof (IH (iter_pos shr_1 n r)). pose proof (IH r).
    replace (Zpos n~0) with (Zpos n + Zpos n) by lia. rewrite !Z.pow_add_r by lia. nia.
  - apply shr_1_abs.
Qed.

Lemma digits2_bound p : Zpos p < 2 ^ Zpos (digits2_pos p).
Proof. rewrite digits2_log2. pose proof (Z.log2_spec (Zpos p) eq_refl). lia. Qed.

Lemma Zdigits2_bound m : Z.abs m < 2 ^ Zdigits2 m.
Proof. destruct m; [done|apply digits2_bound..]. Qed.

Lemma shr_fexp_bound m e :
  Z.abs (shr_m (fst (shr_fexp f64_prec f64_emax m e loc_Exact))) < 2 ^ 53.
Proof.
  unfold shr_fexp, fexp, shr. pose proof (Zdigits2_bound m) as Hm.
  set (d := Zdigits2 m) in *.
  assert (Hn : d - 53 ≤ Z.max (d + e - f64_prec) (emin f64_prec f64_emax) - e)
    by (unfold f64_prec; lia).
  destruct (Z.max _ _ - e) as [|n|n]; cbn [fst shr_record_of_loc shr_m].
  - assert (2 ^ d ≤ 2 ^ 53) by (apply Z.pow_le_mono_r; lia). lia.
  - pose proof (iter_shr_1_abs n (Build_shr_record m false false)) as Hi. cbn [shr_m] in Hi.
    assert (Hp : 2 ^ d ≤ 2 ^ (53 + Zpos n)) by (apply Z.pow_le_mono_r; lia).
    rewrite Z.pow_add_r in Hp by lia.
    assert (0 < 2 ^ Zpos n) by (apply Z.pow_pos_nonneg; lia). nia.
  - assert (2 ^ d ≤ 2 ^ 53) by (apply Z.pow_le_mono_r; lia). lia.
Qed.

Lemma binary_round_aux_ok s m e l : f64_ok (binary_round_aux f64_prec f64_emax s m e l).
Proof.
  unfold binary_round_aux. destruct (shr_fexp f64_prec f64_emax m e l) as [r e1].
  pose proof (shr_fexp_bound (round_nearest_even (shr_m r) (loc_of_shr_record r)) e1) as H.
  destruct (shr_fexp _ _ _ e1 loc_Exact) as [r2 e2]. cbn [fst] in H.
  destruct (shr_m r2); [done| |done]. case_match; simpl; [lia|done].
Qed.

Lemma binary_round_ok s m e : f64_ok (binary_round f64_prec f64_emax s m e).
Proof. unfold binary_round. case_match. apply binary_round_aux_ok. Qed.

Lemma binary_normalize_ok m e s : f64_ok (binary_normalize f64_prec f64_emax m e s).
Proof. destruct m; [done|apply binary_round_ok..]. Qed.

Lemma f64_of_nat_ok n : f64_ok (f64_of_nat n).
Proof. apply binary_normalize_ok. Qed.

Lemma f64_add_ok x y : f64_ok x → f64_ok y → f64_ok (f64_add x y).
Proof.
  intros Hx Hy. destruct x as [[]|[]| |], y as [[]|[]| |]; try done;
    apply binary_normalize_ok.
Qed.

Lemma f64_sub_ok x y : f64_ok x → f64_ok y → f64_ok (f64_sub x y).
Proof.
  intros Hx Hy. destruct x as [[]|[]| |], y as [[]|[]| |]; try done;
    apply binary_normalize_ok.
Qed.

Lemma f64_mul_ok x y : f64_ok (f64_mul x y).
Proof. destruct x as [[]|[]| |], y as [[]|[]| |]; try done; apply binary_round_aux_ok. Qed.

Lemma round_with_ok f x : f64_ok x → f64_ok (round_with f x).
Proof.
  intros Hx. destruct x as [| | |s m [|e|d]]; try done. simpl. unfold f64_of_magnitude.
  case_match; [done|apply binary_round_ok|done].
Qed.

Lemma f64_clamp_ok x lo hi :
  f64_leb lo hi = true → f64_ok x → f64_ok lo → f64_ok hi →
  ∃ y, f64_clamp x lo hi = Some y ∧ f64_ok y.
Proof.
  intros Hle Hx Hlo Hhi. unfold f64_clamp. rewrite Hle. eexists. split; [done|].
  repeat case_match; done.
Qed.

#[export] Hint Resolve f64_of_nat_ok f64_add_ok f64_sub_ok f64_mul_ok round_with_ok : cidre.

(** ** Indices *)
Definition exact_nat (n : nat) : Prop := Z.of_nat n < 2 ^ 53.

Lemma exact_nat_int n : exact_nat n → exact_int (Z.of_nat n).
Proof. unfold exact_nat, exact_int. lia. Qed.

Lemma f64_leb_nat a b :
  exact_nat a → exact_nat b → f64_leb (f64_of_nat a) (f64_of_nat b) = (a <=? b)%nat.
Proof.
  intros Ha%exact_nat_int Hb%exact_nat_int. unfold f64_of_nat. rewrite f64_leb_int by done.
  apply Bool.eq_iff_eq_true. rewrite Z.leb_le, Nat.leb_le. lia.
Qed.

(** A positive double that is not above the integer [hi] is [m / 2^d] with [m <= hi * 2^d]. *)
Lemma not_above_int hi m e :
  exact_int hi → Zpos m < 2 ^ 53 → f64_ltb (f64_of_Z hi) (S754_finite false m e) = false →
  e ≤ 0 ∧ Zpos m ≤ hi * 2 ^ (- e).
Proof.
  intros Hhi Hm Hlt. unfold exact_int in Hhi. destruct hi as [|p|p]; [done| |lia].
  assert (Hp : exact_pos p) by (unfold exact_pos; lia).
  rewrite f64_of_pos in Hlt by done. unfold f64_ltb, SFltb, SFcompare in Hlt.
  pose proof (exact_pos_log2 p Hp) as Hlog. pose proof (int_mant_log2 p Hp) as Hl52.
  pose proof (int_mant_eq p Hp) as HM.
  assert (HE : int_exp p ≤ 0) by (unfold int_exp; lia).
  destruct (Z.compare_spec (int_exp p) e) as [He|He|He]; [| done |].
  - subst e. split; [done|]. rewrite <- HM.
    change (Pos.compare_cont Eq (int_mant p) m) with (int_mant p ?= m)%positive in Hlt.
    destruct (Pos.compare_spec (int_mant p) m); [lia|done|lia].
  - split; [lia|].
    assert (H52 : 2 ^ 52 ≤ Zpos (int_mant p)).
    { pose proof (Z.log2_spec (Zpos (int_mant p)) eq_refl) as Hs. rewrite Hl52 in Hs. lia. }
    replace (- e) with (- int_exp p + (int_exp p - e)) by lia.
    rewrite Z.pow_add_r, Z.mul_assoc, <- HM by lia.
    assert (2 ^ 1 ≤ 2 ^ (int_exp p - e)) by (apply Z.pow_le_mono_r; lia). nia.
Qed.

Lemma f64_as_usize_int z : exact_int z → f64_as_usize (f64_of_Z z) = Z.to_nat z.
Proof.
  unfold exact_int. intros Hz. destruct z as [|p|p]; [done| |lia].
  assert (Hp : exact_pos p) by (unfold exact_pos; lia). rewrite f64_of_pos by done.
  pose proof (exact_pos_log2 p Hp). pose proof (int_mant_eq p Hp) as HM.
  unfold f64_as_usize, usize_max. f_equal.
  destruct (int_exp p) as [|e|e] eqn:E; [|unfold int_exp in E; lia|].
  - rewrite HM. lia.
  - rewrite HM. change (- Zneg e) with (Zpos e).
    rewrite Z.div_mul by (apply Z.pow_nonzero; lia). lia.
Qed.

Lemma as_usize_le hi x :
  exact_nat hi → f64_ok x → f64_ltb (f64_of_nat hi) x = false → (f64_as_usize x ≤ hi)%nat.
Proof.
  intros Hhi Hx Hlt. destruct x as [[]|[]| |[] m e]; try (unfold f64_as_usize; lia).
  - destruct hi; [done|]. exfalso. revert Hlt. unfold f64_of_nat.
    replace (Z.of_nat (S hi)) with (Zpos (Pos.of_succ_nat hi)) by lia.
    by rewrite f64_of_pos by (unfold exact_nat, exact_pos in *; lia).
  - destruct (not_above_int (Z.of_nat hi) m e) as [He Hm]; [by apply exact_nat_int|done|done|].
    unfold f64_as_usize. destruct e as [|e|d]; [|lia|]; [simpl in Hm; lia|].
    assert (Zpos m / 2 ^ Zpos d ≤ Z.of_nat hi); [|lia].
    apply Z.div_le_upper_bound; [apply Z.pow_pos_nonneg; lia|].
    change (- Zneg d) with (Zpos d) in Hm. lia.
Qed.

Lemma as_usize_round_le hi x :
  exact_nat hi → f64_ok x → f64_ltb (f64_of_nat hi) x = false →
  (f64_as_usize (f64_round x) ≤ hi)%nat.
Proof.
  intros Hhi Hx Hlt. pose proof (as_usize_le hi x Hhi Hx Hlt) as Hu.
  destruct x as [| | |s m [|e|d]]; try done. simpl. set (q := 2 ^ Zpos d) in *.
  assert (Hq : 0 < q) by (apply Z.pow_pos_nonneg; lia).
  destruct ((2 * Zpos m + q) / (2 * q)) as [|p|p] eqn:E;
    [unfold f64_as_usize; simpl; lia| |unfold f64_as_usize; simpl; lia].
  unfold f64_of_magnitude. destruct s.
  { unfold binary_round. destruct (shl_align p 0 _). unfold binary_round_aux.
    repeat case_match; unfold f64_as_usize; simpl; lia. }
  destruct (not_above_int (Z.of_nat hi) m (Zneg d)) as [_ Hm]; [by apply exact_nat_int|done|done|].
  assert (Hp : Zpos p ≤ Z.of_nat hi).
  { rewrite <- E. apply Z.lt_succ_r, Z.div_lt_upper_bound; [lia|].
    change (- Zneg d) with (Zpos d) in Hm. fold q in Hm. lia. }
  change (binary_round f64_prec f64_emax false p 0) with (f64_of_Z (Zpos p)).
  rewrite f64_as_usize_int by (unfold exact_int, exact_nat in *; lia). lia.
Qed.

Lemma f64_clamp_index x lo hi :
  f64_ok x → (lo ≤ hi)%nat → exact_nat hi →
  ∃ y, f64_clamp x (f64_of_nat lo) (f64_of_nat hi) = Some y ∧ f64_ok y ∧
       (f64_as_usize y ≤ hi)%nat ∧ (f64_as_usize (f64_round y) ≤ hi)%nat.
Proof.
  intros Hx Hle Hhi. assert (Hlo : exact_nat lo) by (unfold exact_nat in *; lia).
  assert (Hleb : f64_leb (f64_of_nat lo) (f64_of_nat hi) = true)
    by (rewrite f64_leb_nat by done; by apply Nat.leb_le).
  destruct (f64_clamp_ok x (f64_of_nat lo) (f64_of_nat hi)) as (y & Hy & Hyok);
    [done..|apply f64_of_nat_ok|apply f64_of_nat_ok|].
  assert (Hn : f64_ltb (f64_of_nat hi) y = false).
  { revert Hy. unfold f64_clamp. rewrite Hleb. intros [= <-].
    destruct (f64_ltb (f64_of_nat hi) _) eqn:E; [|done].
    unfold f64_of_nat. rewrite f64_ltb_int by (by apply exact_nat_int). lia. }
  exists y. auto using as_usize_le, as_usize_round_le.
Qed.

(** ** Doubles that are numbers

    Rounding never makes a NaN, so sums and differences of finite doubles are numbers. *)
Definition f64_finite (x : f64) : bool :=
  match x with S754_zero _ | S754_finite _ _ _ => true | _ => false end.

Lemma iter_shr_1_nonneg n r : 0 ≤ shr_m r → 0 ≤ shr_m (iter_pos shr_1 n r).
Proof.
  assert (H1 : ∀ r, 0 ≤ shr_m r → 0 ≤ shr_m (shr_1 r)) by (intros [[|[]|[]] ? ?]; cbn; lia).
  revert r. induction n as [n IH|n IH|]; intros r Hr; cbn [iter_pos]; auto.
Qed.

Lemma shr_fexp_nonneg m e l : 0 ≤ m → 0 ≤ shr_m (fst (shr_fexp f64_prec f64_emax m e l)).
Proof.
  intros Hm. unfold shr_fexp, shr. assert (Hr : 0 ≤ shr_m (shr_record_of_loc m l)) by (by destruct l as [|[]]).
  destruct (_ - e); cbn [fst]; auto using iter_shr_1_nonneg.
Qed.

Lemma binary_round_not_nan s m e : f64_is_nan (binary_round f64_prec f64_emax s m e) = false.
Proof.
  unfold binary_round. destruct (shl_align m e _) as [mz ez]. unfold binary_round_aux.
  pose proof (shr_fexp_nonneg (Zpos mz) ez loc_Exact (Pos2Z.is_nonneg _)) as H1.
  destruct (shr_fexp f64_prec f64_emax (Zpos mz) ez loc_Exact) as [r e1]. cbn [fst] in H1.
  set (k := round_nearest_even (shr_m r) (loc_of_shr_record r)).
  assert (Hk : 0 ≤ k) by (unfold k, round_nearest_even; repeat case_match; lia).
  pose proof (shr_fexp_nonneg k e1 loc_Exact Hk) as H2.
  destruct (shr_fexp f64_prec f64_emax k e1 loc_Exact) as [r2 e2]. cbn [fst] in H2.
  destruct (shr_m r2); [done|by case_match|lia].
Qed.

Lemma binary_normalize_not_nan m e s : f64_is_nan (binary_normalize f64_prec f64_emax m e s) = false.
Proof. destruct m; [done|apply binary_round_not_nan..]. Qed.

Lemma f64_add_not_nan x y : f64_is_nan x = false → f64_finite y = true → f64_is_nan (f64_add x y) = false.
Proof.
  destruct x as [[]|[]| |[]], y as [[]|[]| |[]]; intros Hx Hy; try done; apply binary_normalize_not_nan.
Qed.

Lemma f64_sub_not_nan x y : f64_is_nan x = false → f64_finite y = true → f64_is_nan (f64_sub x y) = false.
Proof.
  destruct x as [[]|[]| |[]], y as [[]|[]| |[]]; intros Hx Hy; try done; apply binary_normalize_not_nan.
Qed.

Lemma f64_finite_not_nan x : f64_finite x = true → f64_is_nan x = false.
Proof. by destruct x. Qed.

Lemma f64_abs_not_nan x : f64_is_nan (f64_abs x) = f64_is_nan x.
Proof. by destruct x. Qed.

(** Comparison of numbers is lexicographic on sign, exponent and mantissa. *)
Definition f64_key (x : f64) : Z * Z * Z :=
  match x with
  | S754_zero _ | S754_nan => (0, 0, 0)
  | S754_infinity s => (if s then -2 else 2, 0, 0)
  | S754_finite s m e => if s then (-1, - e, Zneg m) else (1, e, Zpos m)
  end.

Definition key_lt (a b : Z * Z * Z) : Prop :=
  a.1.1 < b.1.1 ∨ a.1.1 = b.1.1 ∧ (a.1.2 < b.1.2 ∨ a.1.2 = b.1.2 ∧ a.2 < b.2).

Lemma f64_compare_key x y :
  f64_is_nan x = false → f64_is_nan y = false →
  (SFcompare x y = Some Lt ↔ key_lt (f64_key x) (f64_key y)) ∧
  (SFcompare x y = Some Gt ↔ key_lt (f64_key y) (f64_key x)) ∧ is_Some (SFcompare x y).
Proof.
  intros Hx Hy. unfold key_lt, f64_key.
  destruct x as [sx|[]| |[] mx ex], y as [sy|[]| |[] my ey]; try done; cbn;
    try (split_and!; [split; (congruence || lia)..|by eexists]).
  - change (Pos.compare_cont Eq mx my) with (Zpos mx ?= Zpos my).
    destruct (Z.compare_spec ex ey), (Z.compare_spec (Zpos mx) (Zpos my)); cbn;
      (split_and!; [split; (congruence || lia)..|by eexists]).
  - change (Pos.compare_cont Eq mx my) with (Zpos mx ?= Zpos my).
    destruct (Z.compare_spec ex ey), (Z.compare_spec (Zpos mx) (Zpos my)); cbn;
      (split_and!; [split; (congruence || lia)..|by eexists]).
Qed.

Lemma f64_ltb_key x y :
  f64_is_nan x = false → f64_is_nan y = false → f64_ltb x y = true ↔ key_lt (f64_key x) (f64_key y).
Proof.
  intros Hx Hy. destruct (f64_compare_key x y Hx Hy) as (H1 & _ & [r Hr]). rewrite <- H1.
  unfold f64_ltb, SFltb. rewrite Hr. destruct r; split; congruence.
Qed.

Lemma f64_leb_key x y :
  f64_is_nan x = false → f64_is_nan y = false → f64_leb x y = true ↔ ¬ key_lt (f64_key y) (f64_key x).
Proof.
  intros Hx Hy. destruct (f64_compare_key x y Hx Hy) as (_ & H2 & [r Hr]). rewrite <- H2.
  unfold f64_leb, SFleb. rewrite Hr. destruct r; split; congruence.
Qed.

Lemma key_lt_trans a b c : ¬ key_lt b a → ¬ key_lt c b → ¬ key_lt c a.
Proof. unfold key_lt. lia. Qed.

Lemma f64_leb_refl x : f64_is_nan x = false → f64_leb x x = true.
Proof. intros Hx. apply f64_leb_key; [done..|]. unfold key_lt. lia. Qed.

Lemma f64_leb_trans x y z :
  f64_is_nan x = false → f64_is_nan y = false → f64_is_nan z = false →
  f64_leb x y = true → f64_leb y z = true → f64_leb x z = true.
Proof. intros Hx Hy Hz. rewrite !f64_leb_key by done. apply key_lt_trans. Qed.

Lemma f64_ltb_false x y :
  f64_is_nan x = false → f64_is_nan y = false → f64_ltb x y = false → f64_leb y x = true.
Proof.
  intros Hx Hy H%not_true_iff_false. rewrite f64_ltb_key in H by done. by apply f64_leb_key.
Qed.

Lemma f64_leb_ltb_trans x y z :
  f64_is_nan x = false → f64_is_nan y = false → f64_is_nan z = false →
  f64_leb x y = true → f64_ltb y z = true → f64_ltb x z = true.
Proof. intros Hx Hy Hz. rewrite !f64_ltb_key, f64_leb_key by done. unfold key_lt. lia. Qed.

Lemma f64_ltb_leb_trans x y z :
  f64_is_nan x = false → f64_is_nan y = false → f64_is_nan z = false →
  f64_ltb x y = true → f64_leb y z = true → f64_ltb x z = true.
Proof. intros Hx Hy Hz. rewrite !f64_ltb_key, f64_leb_key by done. unfold key_lt. lia. Qed.

Lemma f64_ltb_leb x y :
  f64_is_nan x = false → f64_is_nan y = false → f64_ltb x y = true → f64_leb x y = true.
Proof. intros Hx Hy. rewrite f64_ltb_key, f64_leb_key by done. unfold key_lt. lia. Qed.
