(* ===== verification/Duration.v ===== *)
(** * Durations

    A [Duration] is its number of nanoseconds; [None] is the panic of an overflow, or of a float
    that is negative, too large or not a number. *)
From S2P Require Import Prelude Float64.
From Stdlib Require Import SpecFloat.

Local Open Scope N_scope.

Definition NANOS_PER_SEC : N := 1000000000.

(** [Duration::MAX] is just below 2^64 seconds. *)
Definition duration_end : N := 2 ^ 64 * NANOS_PER_SEC.

Definition from_secs (s : N) : N := s * NANOS_PER_SEC.
Definition from_millis (ms : N) : N := ms * 1000000.

Definition as_secs_f64 (d : N) : f64 :=
  f64_add (f64_of_Z (Z.of_N (d / NANOS_PER_SEC)))
    (f64_div (f64_of_Z (Z.of_N (d mod NANOS_PER_SEC))) (f64_of_Z (Z.of_N NANOS_PER_SEC))).

(** [n / 2^k] rounded to the nearest integer, ties to even. *)
Definition shiftr_round_even (n k : N) : N :=
  let q := N.shiftr n k in
  let r := n - N.shiftl q k in
  if k =? 0 then q
  else match N.compare (2 * r) (N.shiftl 1 k) with
       | Lt => q
       | Gt => q + 1
       | Eq => if N.even q then q else q + 1
       end.

(** [Duration::from_secs_f64]: the exact value, rounded to the nearest nanosecond. *)
Definition from_secs_f64 (x : f64) : option N :=
  match x with
  | S754_zero _ => Some 0
  | S754_finite false m e =>
      let n := Npos m * NANOS_PER_SEC in
      let d := match e with
               | Zneg k => shiftr_round_even n (Npos k)
               | Z0 => n
               | Zpos k => N.shiftl n (Npos k)
               end in
      if d <? duration_end then Some d else None
  | _ => None
  end.

(** [Duration::mul_f64]. *)
Definition mul_f64 (d : N) (rhs : f64) : option N := from_secs_f64 (f64_mul rhs (as_secs_f64 d)).

(** [Duration + Duration] and [Duration - Duration]. *)
Definition duration_add (a b : N) : option N := if a + b <? duration_end then Some (a + b) else None.
Definition duration_sub (a b : N) : option N := if b <=? a then Some (a - b) else None.

(** Checked [u64] arithmetic. *)
Definition u64_add (a b : N) : option N := if a + b <=? u64_max then Some (a + b) else None.
Definition u64_mul (a b : N) : option N := if a * b <=? u64_max then Some (a * b) else None.

Lemma duration_add_ok a b : a + b < duration_end → duration_add a b = Some (a + b).
Proof. intros H. unfold duration_add. by rewrite (proj2 (N.ltb_lt _ _) H). Qed.

Lemma duration_sub_ok a b : b ≤ a → duration_sub a b = Some (a - b).
Proof. intros H. unfold duration_sub. by rewrite (proj2 (N.leb_le _ _) H). Qed.

Lemma u64_add_ok a b : a + b ≤ u64_max → u64_add a b = Some (a + b).
Proof. intros H. unfold u64_add. by rewrite (proj2 (N.leb_le _ _) H). Qed.

Lemma u64_mul_ok a b : a * b ≤ u64_max → u64_mul a b = Some (a * b).
Proof. intros H. unfold u64_mul. by rewrite (proj2 (N.leb_le _ _) H). Qed.
