(* ===== verification/LinkProtocol.v ===== *)
(** * The link protocol (src/link/protocol.rs, src/link/input_forward.rs)

    Messages, layout operations and the replicated [GlobalWorkspace] of a
    linked session.  A [Uuid] is its 128-bit value: the derived [Ord] of
    [uuid::Uuid] compares the big-endian bytes, which is the order of [N].
    [BTreeMap]s are [gmap]s iterated in key order (see [BTree]). *)
From S2P Require Import Prelude BTree Float64.

Abbreviation Uuid := N.
Abbreviation NodeId := Uuid.
Abbreviation SessionId := Uuid.
Abbreviation TileId := Uuid.
Abbreviation ColumnId := Uuid.

Definition PROTOCOL_VERSION : N := 1.

(** ** Tiles and viewports *)
Inductive StreamState :=
  | Pending | Streaming | Idle | Stale | Disconnected | PrivacyBlocked.

#[export] Instance StreamState_eq_dec : EqDecision StreamState.
Proof. solve_decision. Defined.

Record PrivacyFlags := MkPrivacyFlags {
  pf_private : bool;
  pf_clipboard : bool
}.

#[export] Instance PrivacyFlags_eq_dec : EqDecision PrivacyFlags.
Proof. solve_decision. Defined.

Record TileMetadata := MkTileMetadata {
  tm_tile_id : TileId;
  tm_owner_node_id : NodeId;
  tm_app_id : option string;
  tm_title : option string;
  tm_pid : option Z;
  tm_initial_size : Z * Z;
  tm_current_logical_size : Z * Z;
  tm_column_id : ColumnId;
  tm_column_tile_index : N;
  tm_stack_group : option string;
  tm_fullscreen : bool;
  tm_maximized : bool;
  tm_floating : bool;
  tm_last_known_alive_millis : N;
  tm_stream_state : StreamState;
  tm_privacy_flags : PrivacyFlags
}.

#[export] Instance TileMetadata_eq_dec : EqDecision TileMetadata.
Proof. solve_decision. Defined.

Definition set_tm_column_id (x : ColumnId) (r : TileMetadata) : TileMetadata :=
  MkTileMetadata r.(tm_tile_id) r.(tm_owner_node_id) r.(tm_app_id) r.(tm_title)
    r.(tm_pid) r.(tm_initial_size) r.(tm_current_logical_size) x
    r.(tm_column_tile_index) r.(tm_stack_group) r.(tm_fullscreen)
    r.(tm_maximized) r.(tm_floating) r.(tm_last_known_alive_millis)
    r.(tm_stream_state) r.(tm_privacy_flags).

Definition set_tm_fullscreen (x : bool) (r : TileMetadata) : TileMetadata :=
  MkTileMetadata r.(tm_tile_id) r.(tm_owner_node_id) r.(tm_app_id) r.(tm_title)
    r.(tm_pid) r.(tm_initial_size) r.(tm_current_logical_size)
    r.(tm_column_id) r.(tm_column_tile_index) r.(tm_stack_group) x
    r.(tm_maximized) r.(tm_floating) r.(tm_last_known_alive_millis)
    r.(tm_stream_state) r.(tm_privacy_flags).

Definition set_tm_maximized (x : bool) (r : TileMetadata) : TileMetadata :=
  MkTileMetadata r.(tm_tile_id) r.(tm_owner_node_id) r.(tm_app_id) r.(tm_title)
    r.(tm_pid) r.(tm_initial_size) r.(tm_current_logical_size)
    r.(tm_column_id) r.(tm_column_tile_index) r.(tm_stack_group)
    r.(tm_fullscreen) x r.(tm_floating) r.(tm_last_known_alive_millis)
    r.(tm_stream_state) r.(tm_privacy_flags).

Definition set_tm_floating (x : bool) (r : TileMetadata) : TileMetadata :=
  MkTileMetadata r.(tm_tile_id) r.(tm_owner_node_id) r.(tm_app_id) r.(tm_title)
    r.(tm_pid) r.(tm_initial_size) r.(tm_current_logical_size)
    r.(tm_column_id) r.(tm_column_tile_index) r.(tm_stack_group)
    r.(tm_fullscreen) r.(tm_maximized) x r.(tm_last_known_alive_millis)
    r.(tm_stream_state) r.(tm_privacy_flags).

Record Viewport := MkViewport {
  vp_node_id : NodeId;
  vp_output_name : string;
  vp_global_x : f64;
  vp_global_y : f64;
  vp_logical_width : f64;
  vp_logical_height : f64;
  vp_scale : f64;
  vp_transform : Z;
  vp_refresh_rate_millihz : option N
}.

#[export] Instance Viewport_eq_dec : EqDecision Viewport.
Proof. solve_decision. Defined.

Definition set_vp_global_x (x : f64) (r : Viewport) : Viewport :=
  MkViewport r.(vp_node_id) r.(vp_output_name) x r.(vp_global_y)
    r.(vp_logical_width) r.(vp_logical_height) r.(vp_scale)
    r.(vp_transform) r.(vp_refresh_rate_millihz).

(** The derived [PartialEq]: floating point fields are compared with [==]. *)
Definition Viewport_eqb (a b : Viewport) : bool :=
  bool_decide (a.(vp_node_id) = b.(vp_node_id)) &&
  bool_decide (a.(vp_output_name) = b.(vp_output_name)) &&
  f64_eqb a.(vp_global_x) b.(vp_global_x) &&
  f64_eqb a.(vp_global_y) b.(vp_global_y) &&
  f64_eqb a.(vp_logical_width) b.(vp_logical_width) &&
  f64_eqb a.(vp_logical_height) b.(vp_logical_height) &&
  f64_eqb a.(vp_scale) b.(vp_scale) &&
  bool_decide (a.(vp_transform) = b.(vp_transform)) &&
  bool_decide (a.(vp_refresh_rate_millihz) = b.(vp_refresh_rate_millihz)).

(** [Vec<Viewport> == Vec<Viewport>]. *)
Fixpoint viewports_eqb (a b : list Viewport) : bool :=
  match a, b with
  | [], [] => true
  | x :: a, y :: b => Viewport_eqb x y && viewports_eqb a b
  | _, _ => false
  end.

Record Participant := MkParticipant {
  pa_node_id : NodeId;
  pa_hostname : string;
  pa_fingerprint : string;
  pa_last_seen_millis : N
}.

#[export] Instance Participant_eq_dec : EqDecision Participant.
Proof. solve_decision. Defined.

Definition set_pa_last_seen_millis (x : N) (r : Participant) : Participant :=
  MkParticipant r.(pa_node_id) r.(pa_hostname) r.(pa_fingerprint) x.

(** ** The replicated workspace *)
Record GlobalWorkspace := MkGlobalWorkspace {
  gw_session_id : SessionId;
  gw_generation : N;
  gw_operation_seq : N;
  gw_columns : list ColumnId;
  gw_tiles : gmap TileId TileMetadata;
  gw_focused_tile : option TileId;
  gw_per_node_viewports : gmap NodeId (list Viewport);
  gw_per_node_outputs : gmap NodeId (list Viewport);
  gw_participants : gmap NodeId Participant;
  gw_leader_node_id : NodeId
}.

#[export] Instance GlobalWorkspace_eq_dec : EqDecision GlobalWorkspace.
Proof. solve_decision. Defined.

Definition set_gw_generation (x : N) (r : GlobalWorkspace) : GlobalWorkspace :=
  MkGlobalWorkspace r.(gw_session_id) x r.(gw_operation_seq) r.(gw_columns) r.(gw_tiles)
    r.(gw_focused_tile) r.(gw_per_node_viewports) r.(gw_per_node_outputs)
    r.(gw_participants) r.(gw_leader_node_id).

Definition set_gw_operation_seq (x : N) (r : GlobalWorkspace) : GlobalWorkspace :=
  MkGlobalWorkspace r.(gw_session_id) r.(gw_generation) x r.(gw_columns) r.(gw_tiles)
    r.(gw_focused_tile) r.(gw_per_node_viewports) r.(gw_per_node_outputs)
    r.(gw_participants) r.(gw_leader_node_id).

Definition set_gw_columns (x : list ColumnId) (r : GlobalWorkspace) : GlobalWorkspace :=
  MkGlobalWorkspace r.(gw_session_id) r.(gw_generation) r.(gw_operation_seq) x
    r.(gw_tiles) r.(gw_focused_tile) r.(gw_per_node_viewports)
    r.(gw_per_node_outputs) r.(gw_participants) r.(gw_leader_node_id).

Definition set_gw_tiles (x : gmap TileId TileMetadata) (r : GlobalWorkspace) : GlobalWorkspace :=
  MkGlobalWorkspace r.(gw_session_id) r.(gw_generation) r.(gw_operation_seq)
    r.(gw_columns) x r.(gw_focused_tile) r.(gw_per_node_viewports)
    r.(gw_per_node_outputs) r.(gw_participants) r.(gw_leader_node_id).

Definition set_gw_focused_tile (x : option TileId) (r : GlobalWorkspace) : GlobalWorkspace :=
  MkGlobalWorkspace r.(gw_session_id) r.(gw_generation) r.(gw_operation_seq)
    r.(gw_columns) r.(gw_tiles) x r.(gw_per_node_viewports)
    r.(gw_per_node_outputs) r.(gw_participants) r.(gw_leader_node_id).

Definition set_gw_per_node_viewports (x : gmap NodeId (list Viewport)) (r : GlobalWorkspace) : GlobalWorkspace :=
  MkGlobalWorkspace r.(gw_session_id) r.(gw_generation) r.(gw_operation_seq)
    r.(gw_columns) r.(gw_tiles) r.(gw_focused_tile) x
    r.(gw_per_node_outputs) r.(gw_participants) r.(gw_leader_node_id).

Definition set_gw_per_node_outputs (x : gmap NodeId (list Viewport)) (r : GlobalWorkspace) : GlobalWorkspace :=
  MkGlobalWorkspace r.(gw_session_id) r.(gw_generation) r.(gw_operation_seq)
    r.(gw_columns) r.(gw_tiles) r.(gw_focused_tile)
    r.(gw_per_node_viewports) x r.(gw_participants) r.(gw_leader_node_id).

Definition set_gw_participants (x : gmap NodeId Participant) (r : GlobalWorkspace) : GlobalWorkspace :=
  MkGlobalWorkspace r.(gw_session_id) r.(gw_generation) r.(gw_operation_seq)
    r.(gw_columns) r.(gw_tiles) r.(gw_focused_tile)
    r.(gw_per_node_viewports) r.(gw_per_node_outputs) x
    r.(gw_leader_node_id).

Definition set_gw_leader_node_id (x : NodeId) (r : GlobalWorkspace) : GlobalWorkspace :=
  MkGlobalWorkspace r.(gw_session_id) r.(gw_generation) r.(gw_operation_seq)
    r.(gw_columns) r.(gw_tiles) r.(gw_focused_tile)
    r.(gw_per_node_viewports) r.(gw_per_node_outputs) r.(gw_participants)
    x.

(** [GlobalWorkspace::empty]; [fresh] is the value of [SessionId::new_v4()]. *)
Definition GlobalWorkspace_empty (fresh : SessionId) (local_node_id : NodeId)
    (hostname fingerprint : string) : GlobalWorkspace :=
  {| gw_session_id := fresh;
     gw_generation := 0;
     gw_operation_seq := 0;
     gw_columns := [];
     gw_tiles := ∅;
     gw_focused_tile := None;
     gw_per_node_viewports := ∅;
     gw_per_node_outputs := ∅;
     gw_participants :=
       {[ local_node_id := MkParticipant local_node_id hostname fingerprint 0 ]};
     gw_leader_node_id := local_node_id |}.

(** ** Layout operations *)
Inductive TileStateChange :=
  | Fullscreen (value : bool)
  | Floating (value : bool)
  | Maximized (value : bool).

Inductive LayoutOpKind :=
  | InsertTile (tile : TileMetadata) (index : nat)
  | RemoveTile (tile_id : TileId)
  | MoveTile (tile_id : TileId) (column_id : ColumnId) (index : nat)
  | MoveColumn (column_id : ColumnId) (index : nat)
  | ResizeColumn (column_id : ColumnId) (width : Z)
  | FocusTile (tile_id : option TileId)
  | FocusColumn (column_id : ColumnId)
  | ScrollViewport (node_id : NodeId) (output_name : string) (global_x : f64)
  | SetViewport (viewport : Viewport)
  | ChangeTileState (tile_id : TileId) (change : TileStateChange)
  | ChangeTileMetadata (tile : TileMetadata)
  | SetFullscreen (tile_id : TileId) (value : bool)
  | SetFloating (tile_id : TileId) (value : bool)
  | EnterOverview
  | LeaveOverview
  | EnableLink
  | DisableLinkOp.

#[export] Instance TileStateChange_eq_dec : EqDecision TileStateChange.
Proof. solve_decision. Defined.
#[export] Instance LayoutOpKind_eq_dec : EqDecision LayoutOpKind.
Proof. solve_decision. Defined.

Record LayoutOp := MkLayoutOp {
  lo_seq : N;
  lo_issuer : NodeId;
  lo_generation : N;
  lo_kind : LayoutOpKind
}.

#[export] Instance LayoutOp_eq_dec : EqDecision LayoutOp.
Proof. solve_decision. Defined.

(** ** Forwarded input *)
Inductive ForwardedInputEvent :=
  | PointerMotion (tile_id : TileId) (local_pos global_pos : f64 * f64)
  | PointerButton (tile_id : TileId) (button : N) (pressed : bool)
  | PointerScroll (tile_id : TileId) (horizontal vertical : f64)
  | KeyboardKey (tile_id : TileId) (keycode : N) (pressed : bool)
  | Modifiers (tile_id : TileId) (depressed latched locked group : N).

(** ** Messages *)
Record Hello := MkHello {
  hello_hostname : string;
  hello_fingerprint : string
}.

Record CapabilityExchange := MkCapabilityExchange {
  ce_transports : list string;
  ce_codecs : list string;
  ce_clipboard : bool
}.

Record JoinRequest := MkJoinRequest {
  jr_hostname : string;
  jr_pairing_token : option string
}.

Record JoinAccept := MkJoinAccept {
  ja_leader_node_id : NodeId;
  ja_generation : N;
  ja_operation_seq : N
}.

Record PeerDescriptor := MkPeerDescriptor {
  pd_node_id : NodeId;
  pd_hostname : string;
  pd_fingerprint : string;
  pd_addr : option string
}.

Record LeaderElection := MkLeaderElection {
  le_generation : N;
  le_leader_node_id : NodeId;
  le_alive_nodes : list NodeId
}.

Record Heartbeat := MkHeartbeat {
  hb_operation_seq : N;
  hb_generation : N
}.

Record FrameBegin := MkFrameBegin {
  fb_tile_id : TileId;
  fb_frame_id : N;
  fb_width : N;
  fb_height : N;
  fb_format : string
}.

Record FrameChunk := MkFrameChunk {
  fc_tile_id : TileId;
  fc_frame_id : N;
  fc_offset : N;
  fc_payload : list Byte.byte
}.

(** One constructor per variant of [MessageKind]; the payload structs with a
    single field are that field. *)
Inductive MessageKind :=
  | MHello (m : Hello)
  | MCapabilityExchange (m : CapabilityExchange)
  | MJoinRequest (m : JoinRequest)
  | MJoinAccept (m : JoinAccept)
  | MJoinReject (reason : string)
  | MPeerList (peers : list PeerDescriptor)
  | MLeaderElection (m : LeaderElection)
  | MHeartbeat (m : Heartbeat)
  | MGlobalSnapshot (workspace : GlobalWorkspace)
  | MLayoutOp (op : LayoutOp)
  | MLayoutAck (seq : N)
  | MViewportUpdate (viewport : Viewport)
  | MTileMetadataUpdate (tile : TileMetadata)
  | MTileClosed (tile_id : TileId)
  | MFocusUpdate (focused_tile : option TileId)
  | MInputEvent (event : ForwardedInputEvent)
  | MFrameRequest (tile_id : TileId) (reason : string)
  | MFrameBegin (m : FrameBegin)
  | MFrameChunk (m : FrameChunk)
  | MFrameEnd (tile_id : TileId) (frame_id : N)
  | MStreamControl (tile_id : TileId) (mode : string)
  | MClipboardOffer (text : option string)
  | MDisableLink (persist : bool)
  | MPersistSession (session_id : SessionId)
  | MRestoreSession (session_id : SessionId)
  | MError (message : string).

Record Envelope := MkEnvelope {
  env_protocol_version : N;
  env_session_id : SessionId;
  env_sender_node_id : NodeId;
  env_nonce : N;
  env_timestamp_millis : N;
  env_kind : MessageKind
}.
