(* ===== verification/LinkSync.v ===== *)
(** * Layout synchronisation (src/link/layout_sync.rs, src/link/input_forward.rs)

    The operation log, leader choice, the interpreter [apply_op] of layout
    operations on the replicated workspace, and the global tile geometry that
    pointer input is routed with.

    [op_effect] says, operation by operation, what may be observed of a workspace
    after it: each tile, the columns, the focus, each viewport and the rest.  The
    refinement theorem [apply_op_refines] shows that [apply_op] has this effect.
    [simplified] is what its column rewriting amounts to, for the proofs. *)
From S2P Require Import Prelude BTree Float64 LinkProtocol.

(** ** Definitions *)

(** *** Operation log *)
Record SequencedOp := MkSequencedOp { so_seq : N; so_op : LayoutOp }.

Record OperationLog := MkOperationLog { ol_ops : list SequencedOp }.

Definition OperationLog_default : OperationLog := MkOperationLog [].

Definition OperationLog_push (log : OperationLog) (op : LayoutOp) : OperationLog :=
  MkOperationLog (log.(ol_ops) ++ [MkSequencedOp op.(lo_seq) op]).

Definition last_seq (log : OperationLog) : N :=
  default 0%N (so_seq <$> last log.(ol_ops)).

Definition OperationLog_len (log : OperationLog) : nat := length log.(ol_ops).

(** [skip_while]. *)
Fixpoint skip_while {A} (p : A → bool) (l : list A) : list A :=
  match l with
  | [] => []
  | x :: l' => if p x then skip_while p l' else l
  end.

Definition has_gap_after (log : OperationLog) (expected_next_seq : N) : bool :=
  match skip_while (λ it, N.ltb it.(so_seq) expected_next_seq) log.(ol_ops) with
  | [] => false
  | it :: _ => negb (N.eqb it.(so_seq) expected_next_seq)
  end.

(** *** Leader and generation *)
Definition choose_leader (participants : list Participant) : option NodeId :=
  head (bset_elements (list_to_set (pa_node_id <$> participants))).

Definition next_generation (current : N) : N := saturating_add_u64 current 1.

(** *** Columns *)

(** The sort key [(column_id, column_tile_index, tile_id)]. *)
Definition tile_key_leb (a b : TileMetadata) : bool :=
  match N.compare a.(tm_column_id) b.(tm_column_id) with
  | Lt => true
  | Gt => false
  | Eq =>
      match N.compare a.(tm_column_tile_index) b.(tm_column_tile_index) with
      | Lt => true
      | Gt => false
      | Eq => N.leb a.(tm_tile_id) b.(tm_tile_id)
      end
  end.

(** [by_column.entry(column).or_default()]. *)
Definition entry_or_default {A} (c : N) (m : gmap N (list A)) : gmap N (list A) :=
  match m !! c with Some _ => m | None => <[c := []]> m end.

(** [by_column.entry(column).or_default().push(x)]. *)
Definition entry_push {A} (c : N) (x : A) (m : gmap N (list A)) : gmap N (list A) :=
  <[c := default [] (m !! c) ++ [x]]> m.

Definition sorted_tiles (ws : GlobalWorkspace) : list TileMetadata :=
  stable_sort tile_key_leb (bt_values ws.(gw_tiles)).

Definition ordered_column_tiles (ws : GlobalWorkspace) : gmap ColumnId (list TileId) :=
  foldl (λ m t, entry_push t.(tm_column_id) t.(tm_tile_id) m)
    (foldl (λ m c, entry_or_default c m) ∅ ws.(gw_columns))
    (sorted_tiles ws).

(** [ordered.get(&c).cloned().unwrap_or_default()]. *)
Definition column_tiles (ws : GlobalWorkspace) (c : ColumnId) : list TileId :=
  default [] (ordered_column_tiles ws !! c).

Definition rewrite_column_membership (ws : GlobalWorkspace) (column_id : ColumnId)
    (tile_ids : list TileId) : GlobalWorkspace :=
  let tiles := omap (λ id, ws.(gw_tiles) !! id) tile_ids in
  let tiles := set_tm_column_id column_id <$> tiles in
  set_gw_tiles (foldl (λ m t, <[t.(tm_tile_id) := t]> m) ws.(gw_tiles) tiles) ws.

(** *** The interpreter *)
Definition change_tile_state (change : TileStateChange) (t : TileMetadata) : TileMetadata :=
  match change with
  | Fullscreen value => set_tm_fullscreen value t
  | Floating value => set_tm_floating value t
  | Maximized value => set_tm_maximized value t
  end.

Definition apply_insert_tile (ws : GlobalWorkspace) (tile : TileMetadata)
    (index : nat) : GlobalWorkspace :=
  let ws := set_gw_columns (push_unique tile.(tm_column_id) ws.(gw_columns)) ws in
  let next := column_tiles ws tile.(tm_column_id) in
  let idx := index `min` length next in
  let next := insert_at idx tile.(tm_tile_id) next in
  let ws := set_gw_tiles (<[tile.(tm_tile_id) := tile]> ws.(gw_tiles)) ws in
  rewrite_column_membership ws tile.(tm_column_id) next.

Definition apply_remove_tile (ws : GlobalWorkspace) (tile_id : TileId) : GlobalWorkspace :=
  let ws :=
    match ws.(gw_tiles) !! tile_id with
    | Some tile =>
        let ws := set_gw_tiles (delete tile_id ws.(gw_tiles)) ws in
        let next := column_tiles ws tile.(tm_column_id) in
        let next := List.filter (λ id, negb (N.eqb id tile_id)) next in
        rewrite_column_membership ws tile.(tm_column_id) next
    | None => ws
    end in
  if decide (ws.(gw_focused_tile) = Some tile_id) then set_gw_focused_tile None ws else ws.

Definition apply_move_tile (ws : GlobalWorkspace) (tile_id : TileId)
    (column_id : ColumnId) (index : nat) : GlobalWorkspace :=
  match ws.(gw_tiles) !! tile_id with
  | Some tile =>
      let old_column := tile.(tm_column_id) in
      let ws := set_gw_tiles
        (<[tile_id := set_tm_column_id column_id tile]> ws.(gw_tiles)) ws in
      let ordered := ordered_column_tiles ws in
      let old := default [] (ordered !! old_column) in
      let old := List.filter (λ id, negb (N.eqb id tile_id)) old in
      let ws := rewrite_column_membership ws old_column old in
      let new := default [] (ordered !! column_id) in
      let idx := index `min` length new in
      let new := insert_at idx tile_id new in
      let ws := rewrite_column_membership ws column_id new in
      set_gw_columns (push_unique column_id ws.(gw_columns)) ws
  | None => ws
  end.

Definition apply_move_column (ws : GlobalWorkspace) (column_id : ColumnId)
    (index : nat) : GlobalWorkspace :=
  let columns := List.filter (λ id, negb (N.eqb id column_id)) ws.(gw_columns) in
  let idx := index `min` length columns in
  set_gw_columns (insert_at idx column_id columns) ws.

Definition apply_focus_column (ws : GlobalWorkspace) (column_id : ColumnId) : GlobalWorkspace :=
  set_gw_focused_tile
    (tm_tile_id <$> List.find (λ t, N.eqb t.(tm_column_id) column_id)
                      (bt_values ws.(gw_tiles))) ws.

Definition apply_scroll_viewport (ws : GlobalWorkspace) (node_id : NodeId)
    (output_name : string) (global_x : f64) : GlobalWorkspace :=
  match ws.(gw_per_node_viewports) !! node_id with
  | Some viewports =>
      match update_first (λ it, bool_decide (it.(vp_output_name) = output_name))
              (set_vp_global_x global_x) viewports with
      | Some viewports =>
          set_gw_per_node_viewports (<[node_id := viewports]> ws.(gw_per_node_viewports)) ws
      | None => ws
      end
  | None => ws
  end.

Definition apply_set_viewport (ws : GlobalWorkspace) (viewport : Viewport) : GlobalWorkspace :=
  let entry := default [] (ws.(gw_per_node_viewports) !! viewport.(vp_node_id)) in
  let entry :=
    match update_first
            (λ it, bool_decide (it.(vp_output_name) = viewport.(vp_output_name)))
            (λ _, viewport) entry with
    | Some entry => entry
    | None => entry ++ [viewport]
    end in
  set_gw_per_node_viewports
    (<[viewport.(vp_node_id) := entry]> ws.(gw_per_node_viewports)) ws.

(** The arms of the [match] of [apply_op]. *)
Definition apply_op_kind (ws : GlobalWorkspace) (kind : LayoutOpKind) : GlobalWorkspace :=
  match kind with
  | InsertTile tile index => apply_insert_tile ws tile index
  | RemoveTile tile_id => apply_remove_tile ws tile_id
  | MoveTile tile_id column_id index => apply_move_tile ws tile_id column_id index
  | MoveColumn column_id index => apply_move_column ws column_id index
  | ResizeColumn _ _ => ws
  | FocusTile tile_id => set_gw_focused_tile tile_id ws
  | FocusColumn column_id => apply_focus_column ws column_id
  | ScrollViewport node_id output_name global_x =>
      apply_scroll_viewport ws node_id output_name global_x
  | SetViewport viewport => apply_set_viewport ws viewport
  | ChangeTileState tile_id change =>
      set_gw_tiles (alter (change_tile_state change) tile_id ws.(gw_tiles)) ws
  | ChangeTileMetadata tile =>
      set_gw_tiles (<[tile.(tm_tile_id) := tile]> ws.(gw_tiles)) ws
  | SetFullscreen tile_id value =>
      set_gw_tiles (alter (set_tm_fullscreen value) tile_id ws.(gw_tiles)) ws
  | SetFloating tile_id value =>
      set_gw_tiles (alter (set_tm_floating value) tile_id ws.(gw_tiles)) ws
  | EnterOverview | LeaveOverview | EnableLink | DisableLinkOp => ws
  end.

Definition apply_op (ws : GlobalWorkspace) (op : LayoutOp) : GlobalWorkspace :=
  let ws := set_gw_operation_seq op.(lo_seq) ws in
  let ws := set_gw_generation op.(lo_generation) ws in
  apply_op_kind ws op.(lo_kind).

(** *** Geometry *)
Record TileGeometry := MkTileGeometry {
  tg_tile_id : TileId;
  tg_owner_node_id : NodeId;
  tg_column_id : ColumnId;
  tg_logical_x : f64;
  tg_logical_y : f64;
  tg_logical_width : f64;
  tg_logical_height : f64
}.

Definition set_tg_logical_width (w : f64) (g : TileGeometry) : TileGeometry :=
  MkTileGeometry g.(tg_tile_id) g.(tg_owner_node_id) g.(tg_column_id)
    g.(tg_logical_x) g.(tg_logical_y) w g.(tg_logical_height).

(** The inner loop over the tiles of a column: [y] and [column_width] are its
    mutable variables, the result is [column_tiles] and the final width. *)
Fixpoint column_geometries (ws : GlobalWorkspace) (column_id : ColumnId) (x y : f64)
    (column_width : f64) (tile_ids : list TileId) : list TileGeometry * f64 :=
  match tile_ids with
  | [] => ([], column_width)
  | tile_id :: tile_ids =>
      match ws.(gw_tiles) !! tile_id with
      | None => column_geometries ws column_id x y column_width tile_ids
      | Some tile =>
          let width := f64_max f64_one (f64_of_Z tile.(tm_current_logical_size).1) in
          let height := f64_max f64_one (f64_of_Z tile.(tm_current_logical_size).2) in
          let column_width := f64_max column_width width in
          let g := {| tg_tile_id := tile.(tm_tile_id);
                      tg_owner_node_id := tile.(tm_owner_node_id);
                      tg_column_id := column_id;
                      tg_logical_x := x; tg_logical_y := y;
                      tg_logical_width := width; tg_logical_height := height |} in
          let r := column_geometries ws column_id x (f64_add y height) column_width tile_ids in
          (g :: r.1, r.2)
      end
  end.

(** The outer loop over the columns, with its variable [x]. *)
Fixpoint columns_geometries (ws : GlobalWorkspace) (ordered : gmap ColumnId (list TileId))
    (x : f64) (columns : list ColumnId) : list TileGeometry :=
  match columns with
  | [] => []
  | column_id :: columns =>
      match ordered !! column_id with
      | None => columns_geometries ws ordered x columns
      | Some tile_ids =>
          let r := column_geometries ws column_id x f64_zero f64_one tile_ids in
          (set_tg_logical_width r.2 <$> r.1) ++
          columns_geometries ws ordered (f64_add x r.2) columns
      end
  end.

Definition tile_geometries (ws : GlobalWorkspace) : list TileGeometry :=
  columns_geometries ws (ordered_column_tiles ws) f64_zero ws.(gw_columns).

(** [Point<f64, Logical>]. *)
Record Point := MkPoint { pt_x : f64; pt_y : f64 }.

(** The predicate of [hit_test_tile] and [owner_for_hit]. *)
Definition tile_contains (p : Point) (tile : TileGeometry) : bool :=
  f64_leb tile.(tg_logical_x) p.(pt_x) &&
  f64_leb tile.(tg_logical_y) p.(pt_y) &&
  f64_ltb p.(pt_x) (f64_add tile.(tg_logical_x) tile.(tg_logical_width)) &&
  f64_ltb p.(pt_y) (f64_add tile.(tg_logical_y) tile.(tg_logical_height)).

Definition hit_test_tile (ws : GlobalWorkspace) (global_pos : Point) : option TileGeometry :=
  List.find (tile_contains global_pos) (tile_geometries ws).

(** *** Input forwarding *)
Definition local_to_global (output_origin local_pos : Point) : Point :=
  MkPoint (f64_add output_origin.(pt_x) local_pos.(pt_x))
          (f64_add output_origin.(pt_y) local_pos.(pt_y)).

Definition owner_for_focus (focused_tile : option (TileId * NodeId)) :
    option (TileId * NodeId) := focused_tile.

Definition owner_for_hit (tiles : list TileGeometry) (global_pos : Point) :
    option (TileId * NodeId) :=
  (λ t, (t.(tg_tile_id), t.(tg_owner_node_id))) <$>
    List.find (tile_contains global_pos) tiles.

(** ** Specifications *)

(** The tiles of column [c] in the order the code sorts them. *)
Definition members (c : ColumnId) (l : list TileMetadata) : list TileId :=
  tm_tile_id <$> List.filter (λ t, N.eqb t.(tm_column_id) c) l.

(** Every tile is stored under its own id. *)
Definition keys_ok (ws : GlobalWorkspace) : Prop :=
  map_Forall (λ k t, t.(tm_tile_id) = k) ws.(gw_tiles).

(** The invariant of the replicated workspace. *)
Record workspace_ok (ws : GlobalWorkspace) : Prop := {
  wo_keys : keys_ok ws;
  wo_columns : NoDup ws.(gw_columns)
}.

(** Every tile belongs to a listed column. *)
Definition tiles_listed (ws : GlobalWorkspace) : Prop :=
  map_Forall (λ _ t, t.(tm_column_id) ∈ ws.(gw_columns)) ws.(gw_tiles).

(** [apply_op_kind] without the intermediate rewriting of column membership. *)
Definition simplified (ws : GlobalWorkspace) (kind : LayoutOpKind) : GlobalWorkspace :=
  match kind with
  | InsertTile tile _ =>
      set_gw_tiles (<[tile.(tm_tile_id) := tile]> ws.(gw_tiles))
        (set_gw_columns (push_unique tile.(tm_column_id) ws.(gw_columns)) ws)
  | RemoveTile tile_id =>
      set_gw_focused_tile
        (if decide (ws.(gw_focused_tile) = Some tile_id) then None else ws.(gw_focused_tile))
        (set_gw_tiles (delete tile_id ws.(gw_tiles)) ws)
  | MoveTile tile_id column_id _ =>
      if decide (is_Some (ws.(gw_tiles) !! tile_id)) then
        set_gw_tiles (alter (set_tm_column_id column_id) tile_id ws.(gw_tiles))
          (set_gw_columns (push_unique column_id ws.(gw_columns)) ws)
      else ws
  | _ => apply_op_kind ws kind
  end.

(** *** What can be observed after an operation *)
Section effect.
  Context (ws : GlobalWorkspace) (kind : LayoutOpKind).

Definition changed_at (id changed : TileId) (f : TileMetadata → TileMetadata) : option TileMetadata :=
  if decide (id = changed) then f <$> ws.(gw_tiles) !! id else ws.(gw_tiles) !! id.

Definition tile_after (id : TileId) : option TileMetadata :=
  match kind with
  | InsertTile tile _ | ChangeTileMetadata tile =>
      if decide (id = tile.(tm_tile_id)) then Some tile else ws.(gw_tiles) !! id
  | RemoveTile gone => if decide (id = gone) then None else ws.(gw_tiles) !! id
  | MoveTile moved column _ => changed_at id moved (set_tm_column_id column)
  | SetFullscreen changed value | ChangeTileState changed (Fullscreen value) => changed_at id changed (set_tm_fullscreen value)
  | SetFloating changed value | ChangeTileState changed (Floating value) => changed_at id changed (set_tm_floating value)
  | ChangeTileState changed (Maximized value) => changed_at id changed (set_tm_maximized value)
  | _ => ws.(gw_tiles) !! id
  end.

Definition with_column (column : ColumnId) : list ColumnId :=
  if decide (column ∈ ws.(gw_columns)) then ws.(gw_columns) else ws.(gw_columns) ++ [column].

(** A moved column comes behind as many of the others as its index says, or last. *)
Definition columns_after (columns : list ColumnId) : Prop :=
  match kind with
  | InsertTile tile _ => columns = with_column tile.(tm_column_id)
  | MoveTile id column _ =>
      columns = match ws.(gw_tiles) !! id with Some _ => with_column column | None => ws.(gw_columns) end
  | MoveColumn column index =>
      ∃ front back, columns = front ++ column :: back ∧ front ++ back = filter (.≠ column) ws.(gw_columns) ∧
        length front = index `min` length (front ++ back)
  | _ => columns = ws.(gw_columns)
  end.

Definition in_column (column : ColumnId) (id : TileId) : Prop :=
  ∃ t, ws.(gw_tiles) !! id = Some t ∧ t.(tm_column_id) = column.

(** A focused column focuses its tile with the least id. *)
Definition focus_after (focus : option TileId) : Prop :=
  match kind with
  | RemoveTile id => focus = if decide (ws.(gw_focused_tile) = Some id) then None else ws.(gw_focused_tile)
  | FocusTile id => focus = id
  | FocusColumn column =>
      match focus with
      | Some id => in_column column id ∧ ∀ id', in_column column id' → (id ≤ id')%N
      | None => ∀ id, ¬ in_column column id
      end
  | _ => focus = ws.(gw_focused_tile)
  end.

(** The first viewport of an output is changed and nothing else. *)
Definition first_changed (output : string) (f : Viewport → Viewport) (l l' : list Viewport) : Prop :=
  ∃ l1 v l2, l = l1 ++ v :: l2 ∧ l' = l1 ++ f v :: l2 ∧ v.(vp_output_name) = output ∧
    Forall (λ u, u.(vp_output_name) ≠ output) l1.
Definition no_viewport (output : string) (l : list Viewport) : Prop := Forall (λ u, u.(vp_output_name) ≠ output) l.

Definition viewports_after (viewports : gmap NodeId (list Viewport)) : Prop :=
  let others node := ∀ node', node' ≠ node → viewports !! node' = ws.(gw_per_node_viewports) !! node' in
  match kind with
  | ScrollViewport node output x => others node ∧
      match ws.(gw_per_node_viewports) !! node with
      | None => viewports !! node = None
      | Some l => ∃ l', viewports !! node = Some l' ∧
          (first_changed output (set_vp_global_x x) l l' ∨ no_viewport output l ∧ l' = l)
      end
  | SetViewport viewport => others viewport.(vp_node_id) ∧
      let l := default [] (ws.(gw_per_node_viewports) !! viewport.(vp_node_id)) in
      ∃ l', viewports !! viewport.(vp_node_id) = Some l' ∧
        (first_changed viewport.(vp_output_name) (λ _, viewport) l l' ∨
         no_viewport viewport.(vp_output_name) l ∧ l' = l ++ [viewport])
  | _ => viewports = ws.(gw_per_node_viewports)
  end.
End effect.

(** The effect of an operation: what it changes, and that it changes nothing else. *)
Record op_effect (ws : GlobalWorkspace) (op : LayoutOp) (ws' : GlobalWorkspace) : Prop := {
  oe_seq : ws'.(gw_operation_seq) = op.(lo_seq);
  oe_generation : ws'.(gw_generation) = op.(lo_generation);
  oe_tiles id : ws'.(gw_tiles) !! id = tile_after ws op.(lo_kind) id;
  oe_columns : columns_after ws op.(lo_kind) ws'.(gw_columns);
  oe_focus : focus_after ws op.(lo_kind) ws'.(gw_focused_tile);
  oe_viewports : viewports_after ws op.(lo_kind) ws'.(gw_per_node_viewports);
  oe_session : ws'.(gw_session_id) = ws.(gw_session_id);
  oe_outputs : ws'.(gw_per_node_outputs) = ws.(gw_per_node_outputs);
  oe_participants : ws'.(gw_participants) = ws.(gw_participants);
  oe_leader : ws'.(gw_leader_node_id) = ws.(gw_leader_node_id)
}.

(** ** Columns *)
Section columns.
Implicit Types (ws : GlobalWorkspace) (c : ColumnId) (m : gmap ColumnId (list TileId)).

Lemma lookup_entry_push c c' (x : TileId) m :
  entry_push c x m !! c' =
  if decide (c = c') then Some (default [] (m !! c) ++ [x]) else m !! c'.
Proof. unfold entry_push. apply lookup_insert. Qed.

Lemma lookup_entry_or_default c c' m :
  entry_or_default c m !! c' =
  if decide (c = c') then Some (default [] (m !! c)) else m !! c'.
Proof.
  unfold entry_or_default. case_decide as Hc; subst.
  - destruct (m !! c') eqn:E; simpl; [done|]. apply lookup_insert_eq.
  - destruct (m !! c); [done|]. by apply lookup_insert_ne.
Qed.

Lemma foldl_entry_or_default cols m c :
  foldl (λ m c, entry_or_default c m) m cols !! c =
  if decide (c ∈ cols) then Some (default [] (m !! c)) else m !! c.
Proof.
  revert m. induction cols as [|c' cols IH]; intros m; cbn [foldl].
  { by rewrite decide_False by apply not_elem_of_nil. }
  rewrite IH, lookup_entry_or_default.
  destruct (decide (c' = c)) as [->|Hne].
  - rewrite (decide_True (P := c ∈ c :: cols)) by left. by case_decide.
  - destruct (decide (c ∈ cols)).
    + by rewrite decide_True by (by right).
    + rewrite decide_False; [done|]. set_solver.
Qed.

Lemma foldl_entry_push l m c :
  foldl (λ m t, entry_push t.(tm_column_id) t.(tm_tile_id) m) m l !! c =
  if decide (members c l = []) then m !! c
  else Some (default [] (m !! c) ++ members c l).
Proof.
  revert m. induction l as [|t l IH]; intros m; cbn [foldl]; [done|].
  rewrite IH, lookup_entry_push.
  assert (Hm : members c (t :: l) =
    if decide (t.(tm_column_id) = c) then t.(tm_tile_id) :: members c l
    else members c l).
  { unfold members. cbn [List.filter].
    destruct (decide (t.(tm_column_id) = c)) as [Ht|Ht].
    - by rewrite (proj2 (N.eqb_eq _ _) Ht).
    - by rewrite (proj2 (N.eqb_neq _ _) Ht). }
  rewrite Hm. destruct (decide (t.(tm_column_id) = c)) as [->|Ht]; [|done].
  clear IH. case_decide as Hn; case_decide as Hc; try done; simpl.
  - by rewrite Hn.
  - by rewrite <- app_assoc.
Qed.

Lemma lookup_ordered_column_tiles ws c :
  ordered_column_tiles ws !! c =
  if decide (c ∈ ws.(gw_columns) ∨ members c (sorted_tiles ws) ≠ [])
  then Some (members c (sorted_tiles ws)) else None.
Proof.
  unfold ordered_column_tiles.
  rewrite foldl_entry_push, foldl_entry_or_default, lookup_empty. simpl.
  destruct (decide (members c (sorted_tiles ws) = [])) as [Hm|Hm];
    destruct (decide (c ∈ ws.(gw_columns))) as [Hc|Hc]; simpl;
    destruct (decide _) as [Hd|Hd]; rewrite ?Hm; naive_solver.
Qed.

Lemma column_tiles_members ws c : column_tiles ws c = members c (sorted_tiles ws).
Proof.
  unfold column_tiles. rewrite lookup_ordered_column_tiles.
  case_decide as H; [done|]. simpl.
  destruct (decide (members c (sorted_tiles ws) = [])); naive_solver.
Qed.

Lemma elem_of_sorted_tiles ws t :
  t ∈ sorted_tiles ws ↔ ∃ k, ws.(gw_tiles) !! k = Some t.
Proof. unfold sorted_tiles. by rewrite elem_of_stable_sort, elem_of_bt_values. Qed.

Lemma elem_of_members c l id :
  id ∈ members c l ↔ ∃ t, t ∈ l ∧ t.(tm_column_id) = c ∧ t.(tm_tile_id) = id.
Proof.
  unfold members. rewrite list_elem_of_fmap. split.
  - intros (t & -> & Ht). rewrite list_elem_of_In, filter_In in Ht.
    destruct Ht as [Ht Hc]. apply N.eqb_eq in Hc. rewrite <- list_elem_of_In in Ht. eauto.
  - intros (t & Ht & Hc & <-). exists t. split; [done|].
    rewrite list_elem_of_In, filter_In, <- list_elem_of_In. by rewrite N.eqb_eq.
Qed.

(** On a well-keyed workspace the members of [c] are exactly its tiles. *)
Lemma elem_of_column_tiles ws c id :
  keys_ok ws →
  id ∈ column_tiles ws c ↔ ∃ t, ws.(gw_tiles) !! id = Some t ∧ t.(tm_column_id) = c.
Proof.
  intros Hk. rewrite column_tiles_members, elem_of_members.
  setoid_rewrite elem_of_sorted_tiles. split.
  - intros (t & [k Ht] & Hc & <-). pose proof (Hk _ _ Ht) as Hkt. simpl in Hkt.
    subst k. eauto.
  - intros (t & Ht & Hc). exists t. split_and!; [by exists id|done|by apply (Hk _ _ Ht)].
Qed.
End columns.

(** ** Rewriting column membership *)

Lemma set_gw_tiles_id ws : set_gw_tiles ws.(gw_tiles) ws = ws.
Proof. by destruct ws. Qed.

Lemma set_tm_column_id_id t : set_tm_column_id t.(tm_column_id) t = t.
Proof. by destruct t. Qed.

Lemma foldl_insert_id (m : gmap TileId TileMetadata) l :
  (∀ t, t ∈ l → m !! t.(tm_tile_id) = Some t) →
  foldl (λ m t, <[t.(tm_tile_id) := t]> m) m l = m.
Proof.
  induction l as [|t l IH]; simpl; intros Hl; [done|].
  rewrite insert_id by (apply Hl; left). apply IH. intros t' Ht. apply Hl. by right.
Qed.

(** Rewriting is the identity when the listed tiles are already in the column. *)
Lemma rewrite_column_membership_id ws c ids :
  keys_ok ws →
  (∀ id t, id ∈ ids → ws.(gw_tiles) !! id = Some t → t.(tm_column_id) = c) →
  rewrite_column_membership ws c ids = ws.
Proof.
  intros Hk Hc. unfold rewrite_column_membership.
  rewrite foldl_insert_id; [apply set_gw_tiles_id|].
  intros t. rewrite list_elem_of_fmap. intros (t' & -> & Ht').
  apply list_elem_of_omap in Ht' as (id & Hid & Hl).
  rewrite <- (Hc id t' Hid Hl), set_tm_column_id_id.
  by rewrite (Hk _ _ Hl).
Qed.

Lemma keys_ok_insert ws t :
  keys_ok ws → keys_ok (set_gw_tiles (<[t.(tm_tile_id) := t]> ws.(gw_tiles)) ws).
Proof. intros Hk. unfold keys_ok. simpl. by apply map_Forall_insert_2. Qed.

Lemma keys_ok_delete ws id :
  keys_ok ws → keys_ok (set_gw_tiles (delete id ws.(gw_tiles)) ws).
Proof. intros Hk. unfold keys_ok. simpl. by apply map_Forall_delete. Qed.

Lemma keys_ok_alter ws f id :
  (∀ t, (f t).(tm_tile_id) = t.(tm_tile_id)) →
  keys_ok ws → keys_ok (set_gw_tiles (alter f id ws.(gw_tiles)) ws).
Proof.
  intros Hf Hk k t. simpl. rewrite lookup_alter. case_decide; subst.
  - destruct (gw_tiles ws !! k) as [t'|] eqn:E; simpl; intros; simplify_eq.
    rewrite Hf. by apply (Hk _ _ E).
  - apply Hk.
Qed.

#[export] Hint Resolve keys_ok_insert keys_ok_delete keys_ok_alter : cidre.

Lemma apply_insert_tile_spec ws t i :
  keys_ok ws → apply_insert_tile ws t i = simplified ws (InsertTile t i).
Proof.
  intros Hk. unfold apply_insert_tile.
  set (ws1 := set_gw_columns _ ws). assert (keys_ok ws1) as Hk1 by done.
  apply rewrite_column_membership_id; [by apply (keys_ok_insert ws1)|].
  intros id t' Hid. simpl. rewrite lookup_insert. case_decide; subst.
  - by intros [= ->].
  - intros Ht'. apply elem_of_insert_at in Hid as [->|Hid]; [done|].
    apply elem_of_column_tiles in Hid as (t'' & Ht'' & ?); [|done]. simpl in Ht''.
    congruence.
Qed.

Lemma elem_of_filter_neq (id x : N) l :
  id ∈ List.filter (λ y, negb (N.eqb y x)) l ↔ id ∈ l ∧ id ≠ x.
Proof. by rewrite !list_elem_of_In, filter_In, negb_true_iff, N.eqb_neq. Qed.

Lemma apply_remove_tile_spec ws id :
  keys_ok ws → apply_remove_tile ws id = simplified ws (RemoveTile id).
Proof.
  intros Hk. unfold apply_remove_tile. simpl.
  destruct (gw_tiles ws !! id) as [t|] eqn:Et; simpl.
  - rewrite rewrite_column_membership_id; simpl.
    + case_decide; by destruct ws.
    + by apply keys_ok_delete.
    + intros id' t' Hid Ht'. apply elem_of_filter_neq in Hid as [Hid Hne].
      apply elem_of_column_tiles in Hid as (t'' & Ht'' & ?); [|by apply keys_ok_delete].
      simpl in *. congruence.
  - rewrite delete_id by done. case_decide; by destruct ws.
Qed.

Lemma apply_move_tile_spec ws id c i :
  keys_ok ws → apply_move_tile ws id c i = simplified ws (MoveTile id c i).
Proof.
  intros Hk. unfold apply_move_tile, simplified.
  destruct (gw_tiles ws !! id) as [t|] eqn:Et.
  2:{ rewrite decide_False; [done|]. by intros [? ?]. }
  rewrite decide_True by eauto. cbv zeta.
  set (ws1 := set_gw_tiles _ ws).
  assert (Ha : ws1.(gw_tiles) = alter (set_tm_column_id c) id ws.(gw_tiles)).
  { unfold ws1. simpl. apply map_eq. intros k. rewrite lookup_insert, lookup_alter.
    case_decide; subst; [|done]. by rewrite Et. }
  assert (Hk1 : keys_ok ws1).
  { unfold keys_ok. rewrite Ha. by apply (keys_ok_alter ws). }
  assert (Hin : ∀ c' id', id' ∈ default [] (ordered_column_tiles ws1 !! c') →
            ∃ t', ws1.(gw_tiles) !! id' = Some t' ∧ t'.(tm_column_id) = c').
  { intros c' id' H. by apply elem_of_column_tiles in H. }
  rewrite (rewrite_column_membership_id ws1).
  2: done.
  2:{ intros id' t' [Hid _]%elem_of_filter_neq Ht'.
      apply Hin in Hid as (t'' & ? & ?). congruence. }
  rewrite rewrite_column_membership_id; [| done |].
  - rewrite <- Ha. by destruct ws.
  - intros id' t' [->|Hid]%elem_of_insert_at Ht'.
    + unfold ws1 in Ht'. simpl in Ht'. rewrite lookup_insert_eq in Ht'. by simplify_eq.
    + apply Hin in Hid as (t'' & ? & ?). congruence.
Qed.

(** ** Layout operations *)
Section operations.
Implicit Types (ws : GlobalWorkspace) (kind : LayoutOpKind) (op : LayoutOp).

Lemma apply_op_kind_spec ws kind :
  keys_ok ws → apply_op_kind ws kind = simplified ws kind.
Proof.
  intros Hk. destruct kind; try reflexivity.
  - by apply apply_insert_tile_spec.
  - by apply apply_remove_tile_spec.
  - by apply apply_move_tile_spec.
Qed.

Lemma keys_ok_stamp ws s g :
  keys_ok ws → keys_ok (set_gw_generation g (set_gw_operation_seq s ws)).
Proof. done. Qed.

Lemma change_tile_state_id change t :
  (change_tile_state change t).(tm_tile_id) = t.(tm_tile_id).
Proof. by destruct change. Qed.

Lemma change_tile_state_column change t :
  (change_tile_state change t).(tm_column_id) = t.(tm_column_id).
Proof. by destruct change. Qed.

Lemma keys_ok_simplified ws kind : keys_ok ws → keys_ok (simplified ws kind).
Proof.
  intros Hk. destruct kind; simpl; try done.
  - by apply map_Forall_insert_2.
  - by apply map_Forall_delete.
  - case_decide; [|done]. by apply (keys_ok_alter ws).
  - unfold apply_scroll_viewport. repeat split_match; done.
  - by apply keys_ok_alter, Hk; intros; apply change_tile_state_id.
  - by apply map_Forall_insert_2.
  - by apply (keys_ok_alter ws).
  - by apply (keys_ok_alter ws).
Qed.

Lemma NoDup_columns_simplified ws kind :
  NoDup ws.(gw_columns) → NoDup (simplified ws kind).(gw_columns).
Proof.
  intros Hn. destruct kind; simpl; try done; auto with cidre.
  - case_decide; simpl; auto with cidre.
  - apply NoDup_insert_at; [rewrite elem_of_filter_neq; naive_solver|].
    rewrite NoDup_ListNoDup in *. by apply List.NoDup_filter.
  - unfold apply_scroll_viewport. repeat split_match; done.
Qed.

Lemma workspace_ok_apply_op ws op : workspace_ok ws → workspace_ok (apply_op ws op).
Proof.
  intros [Hk Hn]. unfold apply_op.
  rewrite apply_op_kind_spec by done. split.
  - by apply keys_ok_simplified.
  - by apply NoDup_columns_simplified.
Qed.

Lemma workspace_ok_empty s n h f : workspace_ok (GlobalWorkspace_empty s n h f).
Proof. split; [apply map_Forall_empty|apply NoDup_nil_2]. Qed.

(** A tile that is in a listed column stays in one under every operation
    but a metadata change that names an unlisted column. *)
Definition keeps_listed ws kind : Prop :=
  match kind with
  | ChangeTileMetadata tile => tile.(tm_column_id) ∈ ws.(gw_columns)
  | _ => True
  end.

Lemma tiles_listed_alter ws f id :
  (∀ t, (f t).(tm_column_id) = t.(tm_column_id)) →
  tiles_listed ws → tiles_listed (set_gw_tiles (alter f id ws.(gw_tiles)) ws).
Proof.
  intros Hf Hl k t. simpl. rewrite lookup_alter. case_decide; subst; [|apply Hl].
  destruct (gw_tiles ws !! k) as [t'|] eqn:E; simpl; intros; simplify_eq.
  rewrite Hf. by apply (Hl _ _ E).
Qed.

Lemma tiles_listed_simplified ws kind :
  keeps_listed ws kind → tiles_listed ws → tiles_listed (simplified ws kind).
Proof.
  intros Hc Hl. destruct kind; simpl in *; try done.
  - apply map_Forall_insert_2; simpl; [apply elem_of_push_unique; by left|].
    eapply map_Forall_impl; [exact Hl|]. simpl. intros. apply elem_of_push_unique. by right.
  - by apply map_Forall_delete.
  - case_decide; [|done]. intros k t. simpl. rewrite lookup_alter, elem_of_push_unique.
    case_decide; subst.
    + destruct (gw_tiles ws !! k); simpl; intros; simplify_eq. by left.
    + intros Ht. right. by apply (Hl _ _ Ht).
  - eapply map_Forall_impl; [exact Hl|]. simpl. intros _ t Ht.
    rewrite elem_of_insert_at, elem_of_filter_neq.
    destruct (decide (tm_column_id t = column_id)); auto.
  - unfold apply_scroll_viewport. repeat split_match; done.
  - apply tiles_listed_alter, Hl. intros. apply change_tile_state_column.
  - by apply map_Forall_insert_2.
  - by apply (tiles_listed_alter ws).
  - by apply (tiles_listed_alter ws).
Qed.

(** *** The effect of each operation *)
Lemma simplified_frame ws kind :
  let ws' := simplified ws kind in
  gw_operation_seq ws' = gw_operation_seq ws ∧ gw_generation ws' = gw_generation ws ∧ gw_session_id ws' = gw_session_id ws ∧
  gw_per_node_outputs ws' = gw_per_node_outputs ws ∧ gw_participants ws' = gw_participants ws ∧
  gw_leader_node_id ws' = gw_leader_node_id ws.
Proof.
  destruct kind; try (by split_and!); cbn [simplified apply_op_kind].
  - by case_decide.
  - unfold apply_scroll_viewport. destruct (_ !! _) as [l|]; [|by split_and!]. by destruct (update_first _ _ _).
Qed.

Lemma alter_changed ws f changed id : alter f changed ws.(gw_tiles) !! id = changed_at ws id changed f.
Proof.
  unfold changed_at. rewrite lookup_alter. destruct (decide (changed = id)) as [->|].
  - by rewrite decide_True.
  - by rewrite decide_False.
Qed.

Lemma simplified_tiles ws kind id : gw_tiles (simplified ws kind) !! id = tile_after ws kind id.
Proof.
  destruct kind; try done; cbn [simplified apply_op_kind tile_after gw_tiles set_gw_tiles set_gw_columns set_gw_focused_tile].
  - rewrite lookup_insert. by repeat case_decide.
  - rewrite lookup_delete. by repeat case_decide.
  - case_decide as H; [apply alter_changed|]. rewrite <- eq_None_not_Some in H. unfold changed_at.
    case_decide; subst; [by rewrite H|done].
  - unfold apply_scroll_viewport. destruct (gw_per_node_viewports ws !! node_id); [|done]. by destruct (update_first _ _ _).
  - destruct change; apply alter_changed.
  - rewrite lookup_insert. by repeat case_decide.
  - apply alter_changed.
  - apply alter_changed.
Qed.

Lemma push_unique_with ws c : push_unique c ws.(gw_columns) = with_column ws c.
Proof.
  unfold push_unique, with_column. destruct (contains c (gw_columns ws)) eqn:E.
  - apply contains_spec in E. by rewrite decide_True.
  - rewrite decide_False; [done|]. intros H%contains_spec. congruence.
Qed.

Lemma simplified_columns ws kind : columns_after ws kind (gw_columns (simplified ws kind)).
Proof.
  destruct kind; try done; cbn [simplified apply_op_kind columns_after].
  - apply push_unique_with.
  - destruct (gw_tiles ws !! tile_id) as [t|] eqn:E.
    + rewrite decide_True by by eexists. apply push_unique_with.
    + rewrite decide_False; [done|]. by intros [? ?].
  - unfold apply_move_column. cbn [gw_columns set_gw_columns]. set (l := List.filter _ _).
    assert (El : l = filter (.≠ column_id) ws.(gw_columns)).
    { unfold l. clear l. induction (gw_columns ws) as [|c cs IH]; [done|]. rewrite filter_cons. cbn [List.filter]. rewrite IH.
      destruct (N.eqb_spec c column_id) as [->|]; cbn [negb]; [rewrite decide_False by auto|rewrite decide_True by done]; done. }
    exists (take (index `min` length l) l), (drop (index `min` length l) l). rewrite take_drop, El.
    split_and!; [done|done|]. rewrite length_take. lia.
  - unfold apply_scroll_viewport. destruct (gw_per_node_viewports ws !! node_id); [|done]. by destruct (update_first _ _ _).
Qed.

Lemma simplified_focus ws kind : keys_ok ws → focus_after ws kind (gw_focused_tile (simplified ws kind)).
Proof.
  intros Hk. destruct kind; try done; cbn [simplified apply_op_kind focus_after].
  - by case_decide.
  - unfold apply_focus_column. cbn [gw_focused_tile set_gw_focused_tile].
    pose proof (find_bt_values (λ t, N.eqb t.(tm_column_id) column_id) ws.(gw_tiles)) as H.
    destruct (List.find _ _) as [t|]; cbn.
    + destruct H as (k & Ht & Hc%N.eqb_eq & Hmin). rewrite (Hk _ _ Ht). split; [by exists t|].
      intros id' (t' & Ht' & Hc'). eapply Hmin; [exact Ht'|by apply N.eqb_eq].
    + intros id (t & Ht & Hc%N.eqb_eq). by rewrite (H _ _ Ht) in Hc.
  - unfold apply_scroll_viewport. destruct (gw_per_node_viewports ws !! node_id); [|done]. by destruct (update_first _ _ _).
Qed.

Lemma update_first_changed output f l :
  match update_first (λ it, bool_decide (it.(vp_output_name) = output)) f l with
  | Some l' => first_changed output f l l'
  | None => no_viewport output l
  end.
Proof.
  destruct (update_first _ _ _) as [l'|] eqn:E.
  - apply update_first_Some in E as (l1 & v & l2 & -> & -> & Hv%bool_decide_eq_true & Hl). exists l1, v, l2.
    split_and!; [done..|]. eapply Forall_impl; [exact Hl|]. by intros u Hu%bool_decide_eq_false.
  - rewrite update_first_None in E. apply Forall_forall. intros u Hu%E. by apply bool_decide_eq_false in Hu.
Qed.

Lemma simplified_viewports ws kind : viewports_after ws kind (gw_per_node_viewports (simplified ws kind)).
Proof.
  destruct kind; try done; cbn [simplified apply_op_kind viewports_after].
  - by case_decide.
  - unfold apply_scroll_viewport. destruct (gw_per_node_viewports ws !! node_id) as [l|] eqn:E; [|by split].
    pose proof (update_first_changed output_name (set_vp_global_x global_x) l) as H. destruct (update_first _ _ _) as [l'|].
    + split; [intros node' Hn; cbn; by rewrite lookup_insert_ne|]. exists l'. split; [apply lookup_insert_eq|by left].
    + split; [done|]. exists l. split; [done|by right].
  - unfold apply_set_viewport. cbn [gw_per_node_viewports set_gw_per_node_viewports]. set (l := default [] _).
    split; [intros node' Hn; by rewrite lookup_insert_ne|]. eexists. split; [apply lookup_insert_eq|].
    pose proof (update_first_changed viewport.(vp_output_name) (λ _, viewport) l) as H.
    destruct (update_first _ _ _) as [l'|]; [by left|by right].
Qed.
End operations.

(** Replaying a log of operations. *)
Definition replay (ws : GlobalWorkspace) (ops : list LayoutOp) : GlobalWorkspace :=
  foldl apply_op ws ops.

Lemma workspace_ok_replay ws ops : workspace_ok ws → workspace_ok (replay ws ops).
Proof.
  unfold replay. revert ws. induction ops as [|op ops IH]; intros ws H; simpl; [done|].
  by apply IH, workspace_ok_apply_op.
Qed.

#[export] Hint Resolve workspace_ok_apply_op workspace_ok_empty workspace_ok_replay
  keys_ok_simplified NoDup_columns_simplified : cidre.

(** ** Viewports *)

(** At most one viewport per output of a node. *)
Definition viewports_unique (ws : GlobalWorkspace) : Prop :=
  map_Forall (λ _ vps, NoDup (vp_output_name <$> vps)) ws.(gw_per_node_viewports).

Lemma update_first_names p f vps vps' :
  update_first p f vps = Some vps' →
  (∀ v, p v = true → (f v).(vp_output_name) = v.(vp_output_name)) →
  vp_output_name <$> vps' = vp_output_name <$> vps.
Proof.
  intros (l1 & x & l2 & -> & -> & Hp & _)%update_first_Some Hf.
  rewrite !fmap_app, !fmap_cons. by rewrite Hf.
Qed.

Lemma viewports_unique_apply_op ws op :
  viewports_unique ws → viewports_unique (apply_op ws op).
Proof.
  intros Hv. unfold apply_op.
  assert (Hs : ∀ ws', gw_per_node_viewports ws' = gw_per_node_viewports ws →
             viewports_unique ws') by (intros ws' H; unfold viewports_unique; by rewrite H).
  destruct (lo_kind op) eqn:Ek; cbn [apply_op_kind]; try (by apply Hs).
  - unfold apply_remove_tile. simpl. repeat (split_match; simpl); by apply Hs.
  - unfold apply_move_tile. simpl. split_match; by apply Hs.
  - unfold apply_scroll_viewport. simpl. repeat split_match; try (by apply Hs).
    apply map_Forall_insert_2; [|done]. simpl.
    erewrite update_first_names; [by eapply (Hv node_id)|done|done].
  - unfold apply_set_viewport. simpl. apply map_Forall_insert_2; [|done]. simpl.
    assert (Hd : NoDup (vp_output_name <$>
              default [] (gw_per_node_viewports ws !! vp_node_id viewport))).
    { destruct (gw_per_node_viewports ws !! vp_node_id viewport) eqn:E; simpl;
        [by eapply (Hv (vp_node_id viewport))|constructor]. }
    destruct (update_first _ _ _) as [vps|] eqn:E.
    + erewrite update_first_names; [done|done|]. simpl.
      intros v Hp. by apply bool_decide_eq_true_1 in Hp.
    + rewrite fmap_app. apply NoDup_app. split_and!; [done| |apply NoDup_singleton].
      intros n Hn. rewrite update_first_None in E.
      apply list_elem_of_fmap in Hn as (v & -> & Hin). simpl. rewrite list_elem_of_singleton.
      intros Heq. apply E in Hin. by apply bool_decide_eq_false_1 in Hin.
Qed.

(** ** The operation log *)
Lemma skip_while_spec {A} (p : A → bool) l :
  ∃ l1, l = l1 ++ skip_while p l ∧ Forall (λ x, p x = true) l1 ∧
        match skip_while p l with [] => True | x :: _ => p x = false end.
Proof.
  induction l as [|x l (l1 & Hl & Hf & Hh)]; simpl; [by exists []|].
  destruct (p x) eqn:E; [|by exists []].
  exists (x :: l1). split_and!; [by rewrite Hl at 1|by constructor|done].
Qed.

(** ** Sample data *)
Definition sample_tile (id owner column : Uuid) (w h : Z) : TileMetadata :=
  {| tm_tile_id := id; tm_owner_node_id := owner; tm_app_id := Some "app";
     tm_title := Some "title"; tm_pid := Some 42%Z; tm_initial_size := (w, h);
     tm_current_logical_size := (w, h); tm_column_id := column;
     tm_column_tile_index := 0; tm_stack_group := None; tm_fullscreen := false;
     tm_maximized := false; tm_floating := false; tm_last_known_alive_millis := 1;
     tm_stream_state := Pending; tm_privacy_flags := MkPrivacyFlags false false |}.

Definition sample_empty : GlobalWorkspace := GlobalWorkspace_empty 7 1 "host" "fp".

Definition sample_ops : list LayoutOp :=
  [MkLayoutOp 1 1 0 (InsertTile (sample_tile 10 1 100 800 300) 0);
   MkLayoutOp 2 1 0 (InsertTile (sample_tile 11 2 100 640 500) 0);
   MkLayoutOp 3 1 0 (InsertTile (sample_tile 12 2 101 320 200) 0)].

Definition sample_ws : GlobalWorkspace := replay sample_empty sample_ops.

Lemma sample_ws_ok : workspace_ok sample_ws.
Proof. apply workspace_ok_replay, workspace_ok_empty. Qed.

(** ** Properties *)

(** C25: refinement. On a workspace whose tiles are stored under their own ids, every layout operation
    stamps its sequence number and generation and has its specified effect on each tile, on the
    columns, on the focused tile and on each viewport, and no other effect: in particular the
    rewriting of column membership changes nothing. *)
Theorem apply_op_refines ws op : keys_ok ws → op_effect ws op (apply_op ws op).
Proof.
  intros Hk. unfold apply_op. set (ws1 := set_gw_generation _ _). assert (Hk1 : keys_ok ws1) by done.
  rewrite apply_op_kind_spec by done. destruct (simplified_frame ws1 (lo_kind op)) as (E1 & E2 & E3 & E4 & E5 & E6).
  split; [done|done|..|done|done|done|done].
  - apply (simplified_tiles ws1).
  - apply (simplified_columns ws1).
  - apply (simplified_focus ws1 _ Hk1).
  - apply (simplified_viewports ws1).
Qed.

Lemma apply_op_refines_witness :
  keys_ok sample_ws ∧ op_effect sample_ws (MkLayoutOp 4 1 0 (MoveTile 10 101 0))
    (apply_op sample_ws (MkLayoutOp 4 1 0 (MoveTile 10 101 0))).
Proof.
  split; [apply sample_ws_ok|].
  apply (apply_op_refines sample_ws (MkLayoutOp 4 1 0 (MoveTile 10 101 0))), sample_ws_ok.
Defined.

(** Invariant. Whatever operations are replayed on a fresh session, tiles stay
    stored under their own ids, no column is listed twice and no output of a
    node has two viewports. *)
Theorem replay_invariant session node hostname fp ops :
  let ws := replay (GlobalWorkspace_empty session node hostname fp) ops in
  workspace_ok ws ∧ viewports_unique ws.
Proof.
  split; [auto with cidre|]. unfold replay.
  assert (Hv : viewports_unique (GlobalWorkspace_empty session node hostname fp))
    by apply map_Forall_empty.
  revert Hv. generalize (GlobalWorkspace_empty session node hostname fp).
  induction ops as [|op ops IH]; intros ws Hv; simpl; [done|].
  by apply IH, viewports_unique_apply_op.
Qed.

(** The [index] of [InsertTile] and of [MoveTile] never matters: tiles are
    ordered by [column_tile_index], which no operation on columns updates. *)
Theorem tile_index_ignored session node hostname fp ops seq issuer gen tile id column i j :
  let ws := replay (GlobalWorkspace_empty session node hostname fp) ops in
  apply_op ws (MkLayoutOp seq issuer gen (InsertTile tile i)) =
  apply_op ws (MkLayoutOp seq issuer gen (InsertTile tile j)) ∧
  apply_op ws (MkLayoutOp seq issuer gen (MoveTile id column i)) =
  apply_op ws (MkLayoutOp seq issuer gen (MoveTile id column j)).
Proof.
  intros ws. assert (Hk : keys_ok ws).
  { apply (workspace_ok_replay (GlobalWorkspace_empty session node hostname fp)).
    apply workspace_ok_empty. }
  unfold apply_op. simpl lo_kind.
  by rewrite !apply_op_kind_spec by (by apply keys_ok_stamp).
Qed.

(** In a session whose metadata changes only name listed columns, every tile
    belongs to a listed column after any operation. *)
Theorem tiles_stay_listed ws op :
  workspace_ok ws → tiles_listed ws → keeps_listed ws op.(lo_kind) →
  tiles_listed (apply_op ws op).
Proof.
  intros [Hk _] Hl Hc. unfold apply_op.
  rewrite apply_op_kind_spec by (by apply keys_ok_stamp).
  by apply tiles_listed_simplified.
Qed.

Lemma tiles_stay_listed_witness :
  tiles_listed (apply_op sample_ws (MkLayoutOp 4 1 0 (MoveColumn 101 0))).
Proof.
  apply (tiles_stay_listed sample_ws (MkLayoutOp 4 1 0 (MoveColumn 101 0)));
    [apply sample_ws_ok| |exact I].
  apply map_Forall_to_list. vm_compute. repeat constructor.
Defined.

(** The premise is needed. A [ChangeTileMetadata] that names a new column
    leaves the tile in no listed column. *)
Theorem metadata_change_unlists_tile :
  let t := sample_tile 10 1 999 800 300 in
  let ws := apply_op sample_ws (MkLayoutOp 4 1 0 (ChangeTileMetadata t)) in
  ws.(gw_tiles) !! 10%N = Some t ∧ (999%N ∉ ws.(gw_columns)) ∧
  (10%N ∉ (tg_tile_id <$> tile_geometries ws)).
Proof. vm_compute. split_and!; [done|set_solver|set_solver]. Qed.

(** Gap detection. In a log whose sequence numbers increase, [has_gap_after]
    reports a gap exactly when some logged operation is at or past the expected
    number and the expected one itself is missing. *)
Theorem has_gap_after_spec log e :
  StronglySorted N.lt (so_seq <$> log.(ol_ops)) →
  has_gap_after log e = true ↔
  (∃ s, s ∈ (so_seq <$> log.(ol_ops)) ∧ (e ≤ s)%N) ∧ e ∉ (so_seq <$> log.(ol_ops)).
Proof.
  intros Hs. unfold has_gap_after.
  destruct (skip_while_spec (λ it, N.ltb it.(so_seq) e) log.(ol_ops)) as (l1 & Hl & Hf & Hh).
  revert Hl Hh. generalize (skip_while (λ it, N.ltb it.(so_seq) e) log.(ol_ops)).
  intros tl Hl Hh. rewrite Forall_forall in Hf. rewrite Hl, fmap_app in Hs |- *.
  assert (Hl1 : ∀ s, s ∈ so_seq <$> l1 → (s < e)%N).
  { intros s (x & -> & Hx)%list_elem_of_fmap. by apply N.ltb_lt, Hf. }
  destruct tl as [|it rest].
  - split; [done|]. intros [(s & Hin & Hle) _]. rewrite app_nil_r in Hin.
    apply Hl1 in Hin. lia.
  - apply N.ltb_ge in Hh. rewrite negb_true_iff, N.eqb_neq.
    rewrite fmap_cons in *. apply StronglySorted_app in Hs as (_ & _ & Hs).
    apply StronglySorted_cons in Hs as [Hs _]. rewrite Forall_forall in Hs.
    split.
    + intros Hne. split; [exists it.(so_seq); split; [set_solver|done]|].
      intros [H|[H|H]%elem_of_cons]%elem_of_app; [apply Hl1 in H; lia|congruence|].
      apply Hs in H. lia.
    + intros [_ Hni] Heq. apply Hni. rewrite <- Heq. set_solver.
Qed.

Lemma has_gap_after_spec_witness :
  let log := OperationLog_push OperationLog_default (MkLayoutOp 2 1 0 EnableLink) in
  has_gap_after log 1 = true.
Proof.
  apply (has_gap_after_spec _ 1); [repeat constructor|].
  split; [exists 2%N; split; [left|lia]|]. intros H. by apply list_elem_of_singleton in H.
Defined.

(** Leader choice. The leader is the least participating node id, and there
    is one as soon as there is a participant. *)
Theorem choose_leader_least participants leader :
  choose_leader participants = Some leader ↔
  leader ∈ (pa_node_id <$> participants) ∧
  ∀ p, p ∈ participants → (leader ≤ p.(pa_node_id))%N.
Proof.
  unfold choose_leader. set (s := list_to_set _ : gset N).
  assert (Hs : ∀ n, n ∈ s ↔ n ∈ (pa_node_id <$> participants))
    by (intros; apply elem_of_list_to_set).
  destruct (bset_elements s) as [|k ks] eqn:E; simpl.
  - split; [done|]. intros [Hin _]. rewrite <- Hs, <- elem_of_bset_elements, E in Hin.
    by apply not_elem_of_nil in Hin.
  - apply bset_elements_head_min in E as [Hk Hmin]. split.
    + intros [= <-]. rewrite <- Hs. split; [done|]. intros p Hp. apply Hmin, Hs.
      apply list_elem_of_fmap. eauto.
    + intros [Hin Hle]. f_equal.
      assert (k ≤ leader)%N by (apply Hmin; by rewrite Hs).
      apply Hs, list_elem_of_fmap in Hk as (p & -> & Hp). apply Hle in Hp. lia.
Qed.
