(* ===== verification/LinkGeometry.v ===== *)
(** * Geometry of the linked workspace

    The floating point loop [tile_geometries] of src/link/layout_sync.rs is
    related to the same computation on integers, [ztile_geometries]: as long as
    the sizes are [i32] values and there are at most 2^20 columns and tiles,
    every sum is exact.  From this follow that tiles never overlap, that the
    hit test finds the one tile that contains the point, and that every tile of
    a listed column has exactly one geometry. *)
From S2P Require Import Prelude BTree Float64 LinkProtocol LinkSync.

Local Open Scope Z_scope.

(** ** The integer computation *)
Record ZGeometry := MkZGeometry {
  zg_tile : TileMetadata;
  zg_column : ColumnId;
  zg_x : Z;
  zg_y : Z;
  zg_w : Z;
  zg_h : Z
}.

Definition tile_width (t : TileMetadata) : Z := Z.max 1 t.(tm_current_logical_size).1.
Definition tile_height (t : TileMetadata) : Z := Z.max 1 t.(tm_current_logical_size).2.

(** Tiles of a column stacked from [y] downwards, all at [x] and of width [w]. *)
Fixpoint zcolumn (c : ColumnId) (x y w : Z) (ts : list TileMetadata) : list ZGeometry :=
  match ts with
  | [] => []
  | t :: ts => MkZGeometry t c x y w (tile_height t) :: zcolumn c x (y + tile_height t) w ts
  end.

Definition column_width (w : Z) (ts : list TileMetadata) : Z :=
  foldl (λ w t, Z.max w (tile_width t)) w ts.

Definition column_height (ts : list TileMetadata) : Z :=
  foldr (λ t h, tile_height t + h) 0 ts.

Definition lookup_tiles (ws : GlobalWorkspace) (ids : list TileId) : list TileMetadata :=
  omap (λ id, ws.(gw_tiles) !! id) ids.

Fixpoint zcolumns (ws : GlobalWorkspace) (x : Z) (columns : list ColumnId) : list ZGeometry :=
  match columns with
  | [] => []
  | c :: columns =>
      let ts := lookup_tiles ws (column_tiles ws c) in
      zcolumn c x 0 (column_width 1 ts) ts ++ zcolumns ws (x + column_width 1 ts) columns
  end.

Definition ztile_geometries (ws : GlobalWorkspace) : list ZGeometry :=
  zcolumns ws 0 ws.(gw_columns).

Definition embed (g : ZGeometry) : TileGeometry :=
  {| tg_tile_id := g.(zg_tile).(tm_tile_id);
     tg_owner_node_id := g.(zg_tile).(tm_owner_node_id);
     tg_column_id := g.(zg_column);
     tg_logical_x := f64_of_Z g.(zg_x);
     tg_logical_y := f64_of_Z g.(zg_y);
     tg_logical_width := f64_of_Z g.(zg_w);
     tg_logical_height := f64_of_Z g.(zg_h) |}.

(** ** Bounds *)
Definition i32_range (z : Z) : Prop := - 2 ^ 31 ≤ z < 2 ^ 31.

Definition size_ok (t : TileMetadata) : Prop :=
  i32_range t.(tm_current_logical_size).1 ∧ i32_range t.(tm_current_logical_size).2.

#[export] Instance size_ok_dec t : Decision (size_ok t).
Proof. unfold size_ok, i32_range. apply _. Defined.

(** Sizes are [i32]s, and the workspace has at most 2^20 columns and tiles. *)
Record geometry_bounded (ws : GlobalWorkspace) : Prop := {
  gb_sizes : map_Forall (λ _ t, size_ok t) ws.(gw_tiles);
  gb_columns : Z.of_nat (length ws.(gw_columns)) ≤ 2 ^ 20;
  gb_tiles : Z.of_nat (size ws.(gw_tiles)) ≤ 2 ^ 20
}.

Lemma tile_width_bound t : size_ok t → 1 ≤ tile_width t < 2 ^ 31.
Proof. unfold size_ok, i32_range, tile_width. lia. Qed.

Lemma tile_height_bound t : size_ok t → 1 ≤ tile_height t < 2 ^ 31.
Proof. unfold size_ok, i32_range, tile_height. lia. Qed.

Lemma column_width_bound w ts :
  Forall size_ok ts → 1 ≤ w < 2 ^ 31 → w ≤ column_width w ts < 2 ^ 31.
Proof.
  unfold column_width. revert w. induction ts as [|t ts IH]; intros w Hts Hw; simpl; [lia|].
  apply Forall_cons in Hts as [Ht Hts]. pose proof (tile_width_bound t Ht).
  specialize (IH (Z.max w (tile_width t)) Hts). lia.
Qed.

Lemma column_height_bound ts :
  Forall size_ok ts → 0 ≤ column_height ts ≤ Z.of_nat (length ts) * 2 ^ 31.
Proof.
  induction 1 as [|t ts Ht Hts IH]; simpl; [lia|].
  pose proof (tile_height_bound t Ht). lia.
Qed.

Lemma column_height_cons t ts : column_height (t :: ts) = tile_height t + column_height ts.
Proof. done. Qed.

#[local] Arguments column_height : simpl never.
#[local] Arguments column_width : simpl never.

(** ** The loops are exact *)

(** The inner loop, before the widths are made equal. *)
Fixpoint zcolumn_raw (c : ColumnId) (x y : Z) (ts : list TileMetadata) : list ZGeometry :=
  match ts with
  | [] => []
  | t :: ts =>
      MkZGeometry t c x y (tile_width t) (tile_height t) ::
      zcolumn_raw c x (y + tile_height t) ts
  end.

Lemma column_geometries_exact ws c x y w ids :
  Forall size_ok (lookup_tiles ws ids) →
  0 ≤ y → y + column_height (lookup_tiles ws ids) < 2 ^ 53 → 1 ≤ w < 2 ^ 31 →
  column_geometries ws c (f64_of_Z x) (f64_of_Z y) (f64_of_Z w) ids =
  (embed <$> zcolumn_raw c x y (lookup_tiles ws ids),
   f64_of_Z (column_width w (lookup_tiles ws ids))).
Proof.
  unfold lookup_tiles. revert y w. induction ids as [|id ids IH]; intros y w; [done|].
  csimpl. destruct (gw_tiles ws !! id) as [t|] eqn:Et; [|by apply IH].
  csimpl. intros Hs Hy Hh Hw.
  apply Forall_cons in Hs as [Ht Hs].
  pose proof (tile_width_bound t Ht). pose proof (tile_height_bound t Ht).
  rewrite column_height_cons in Hh. pose proof (column_height_bound _ Hs).
  rewrite !f64_max_one_int by (destruct Ht as [[] []]; lia).
  change (Z.max 1 (tm_current_logical_size t).1) with (tile_width t).
  change (Z.max 1 (tm_current_logical_size t).2) with (tile_height t).
  rewrite f64_max_int, f64_add_int by (unfold exact_int; lia).
  rewrite IH by (done || lia). done.
Qed.

Lemma set_width_zcolumn_raw c x y w ts :
  set_tg_logical_width (f64_of_Z w) <$> (embed <$> zcolumn_raw c x y ts) =
  embed <$> zcolumn c x y w ts.
Proof.
  revert y. induction ts as [|t ts IH]; intros y; csimpl; [done|]. by rewrite IH.
Qed.

Section exact.
Context (ws : GlobalWorkspace) (Hb : geometry_bounded ws).

Lemma lookup_tiles_size_ok ids : Forall size_ok (lookup_tiles ws ids).
Proof.
  unfold lookup_tiles. rewrite Forall_forall. intros t Ht.
  apply list_elem_of_omap in Ht as (id & _ & Ht). by apply (gb_sizes ws Hb _ _ Ht).
Qed.

Lemma length_members c : (length (column_tiles ws c) ≤ size ws.(gw_tiles))%nat.
Proof.
  rewrite column_tiles_members. unfold members. rewrite length_fmap.
  etrans; [apply List.filter_length_le|].
  unfold sorted_tiles. by rewrite length_stable_sort, length_bt_values.
Qed.

Lemma length_lookup_tiles ids : (length (lookup_tiles ws ids) ≤ length ids)%nat.
Proof.
  unfold lookup_tiles. induction ids as [|id ids IH]; csimpl; [done|].
  destruct (gw_tiles ws !! id); csimpl; lia.
Qed.

Lemma columns_geometries_exact x cols :
  Forall (.∈ ws.(gw_columns)) cols →
  0 ≤ x → x + Z.of_nat (length cols) * 2 ^ 31 < 2 ^ 53 →
  columns_geometries ws (ordered_column_tiles ws) (f64_of_Z x) cols =
  embed <$> zcolumns ws x cols.
Proof.
  intros Hin. revert x. induction Hin as [|c cols Hc Hin IH]; intros x Hx Hl; csimpl; [done|].
  assert (Ho : ordered_column_tiles ws !! c = Some (column_tiles ws c)).
  { rewrite column_tiles_members, lookup_ordered_column_tiles.
    by rewrite decide_True by (by left). }
  rewrite Ho. pose proof (lookup_tiles_size_ok (column_tiles ws c)) as Hs.
  pose proof (column_height_bound _ Hs). pose proof (gb_tiles ws Hb).
  pose proof (length_members c). pose proof (length_lookup_tiles (column_tiles ws c)).
  pose proof (column_width_bound 1 _ Hs). csimpl in Hl.
  change f64_zero with (f64_of_Z 0). change f64_one with (f64_of_Z 1).
  rewrite column_geometries_exact by (done || lia). cbn [fst snd].
  rewrite set_width_zcolumn_raw, f64_add_int by (unfold exact_int; lia).
  rewrite IH by lia. by rewrite fmap_app.
Qed.

Lemma tile_geometries_exact : tile_geometries ws = embed <$> ztile_geometries ws.
Proof.
  apply (columns_geometries_exact 0); [by apply Forall_forall|lia|].
  pose proof (gb_columns ws Hb). lia.
Qed.
End exact.

(** ** Tiles do not overlap *)

(** [g1] is left of [g2], or above it in the same column. *)
Definition before (g1 g2 : ZGeometry) : Prop :=
  g1.(zg_x) + g1.(zg_w) ≤ g2.(zg_x) ∨
  (g1.(zg_x) = g2.(zg_x) ∧ g1.(zg_y) + g1.(zg_h) ≤ g2.(zg_y)).

Lemma elem_of_zcolumn c x y w ts g :
  Forall size_ok ts → g ∈ zcolumn c x y w ts →
  g.(zg_x) = x ∧ g.(zg_w) = w ∧ y ≤ g.(zg_y) ∧ 1 ≤ g.(zg_h) ∧
  g.(zg_y) + g.(zg_h) ≤ y + column_height ts.
Proof.
  intros Hts. revert y. induction Hts as [|t ts Ht Hts IH]; intros y; simpl; [set_solver|].
  pose proof (tile_height_bound t Ht). pose proof (column_height_bound ts Hts).
  rewrite column_height_cons.
  intros [->|Hg]%elem_of_cons; simpl; [lia|]. apply IH in Hg. lia.
Qed.

Lemma zcolumn_sorted c x y w ts :
  Forall size_ok ts → StronglySorted before (zcolumn c x y w ts).
Proof.
  intros Hts. revert y. induction Hts as [|t ts Ht Hts IH]; intros y; simpl; constructor; [done|].
  rewrite Forall_forall. intros g Hg. apply elem_of_zcolumn in Hg; [|done].
  right. simpl. lia.
Qed.

Section disjoint.
Context (ws : GlobalWorkspace) (Hb : geometry_bounded ws).

Lemma elem_of_zcolumns x cols g :
  0 ≤ x → g ∈ zcolumns ws x cols →
  x ≤ g.(zg_x) ∧ 1 ≤ g.(zg_w) ∧
  g.(zg_x) + g.(zg_w) ≤ x + Z.of_nat (length cols) * 2 ^ 31 ∧
  0 ≤ g.(zg_y) ∧ 1 ≤ g.(zg_h) ∧
  g.(zg_y) + g.(zg_h) ≤ Z.of_nat (size ws.(gw_tiles)) * 2 ^ 31.
Proof.
  revert x. induction cols as [|c cols IH]; intros x Hx; csimpl; [set_solver|].
  pose proof (lookup_tiles_size_ok ws Hb (column_tiles ws c)) as Hs.
  pose proof (column_width_bound 1 _ Hs). pose proof (column_height_bound _ Hs).
  pose proof (length_members ws c). pose proof (length_lookup_tiles ws (column_tiles ws c)).
  intros [Hg|Hg]%elem_of_app.
  - apply elem_of_zcolumn in Hg; [|done]. nia.
  - apply IH in Hg; lia.
Qed.

Lemma zcolumns_sorted x cols : 0 ≤ x → StronglySorted before (zcolumns ws x cols).
Proof.
  revert x. induction cols as [|c cols IH]; intros x Hx; csimpl; [constructor|].
  pose proof (lookup_tiles_size_ok ws Hb (column_tiles ws c)) as Hs.
  pose proof (column_width_bound 1 _ Hs).
  apply StronglySorted_app_2; [|by apply zcolumn_sorted|apply IH; lia].
  intros g1 g2 H1 H2. apply elem_of_zcolumn in H1; [|done].
  apply elem_of_zcolumns in H2; [|lia]. left. lia.
Qed.

Lemma ztile_exact g :
  g ∈ ztile_geometries ws →
  exact_int g.(zg_x) ∧ exact_int g.(zg_y) ∧ exact_int g.(zg_w) ∧ exact_int g.(zg_h) ∧
  exact_int (g.(zg_x) + g.(zg_w)) ∧ exact_int (g.(zg_y) + g.(zg_h)).
Proof.
  intros Hg. apply elem_of_zcolumns in Hg; [|lia].
  pose proof (gb_columns ws Hb). pose proof (gb_tiles ws Hb). unfold exact_int. lia.
Qed.

(** No point, representable or not as an integer, lies in both. *)
Lemma before_disjoint p g1 g2 :
  g1 ∈ ztile_geometries ws → g2 ∈ ztile_geometries ws → before g1 g2 →
  tile_contains p (embed g1) = true → tile_contains p (embed g2) = true → False.
Proof.
  intros (?&?&?&?&?&?)%ztile_exact (?&?&?&?&?&?)%ztile_exact Hbef.
  unfold tile_contains, embed. simpl. rewrite !f64_add_int by done.
  intros Hc1 Hc2. reflect_bools.
  destruct Hbef as [Hx|[Hx Hy]].
  - apply (f64_lt_le_le_absurd p.(pt_x) (f64_of_Z (g1.(zg_x) + g1.(zg_w)))
      (f64_of_Z g2.(zg_x))); [done| |done].
    rewrite f64_leb_int by done. by apply Z.leb_le.
  - apply (f64_lt_le_le_absurd p.(pt_y) (f64_of_Z (g1.(zg_y) + g1.(zg_h)))
      (f64_of_Z g2.(zg_y))); [done| |done].
    rewrite f64_leb_int by done. by apply Z.leb_le.
Qed.

Lemma contains_unique p g1 g2 :
  g1 ∈ tile_geometries ws → g2 ∈ tile_geometries ws →
  tile_contains p g1 = true → tile_contains p g2 = true → g1 = g2.
Proof.
  rewrite tile_geometries_exact, !list_elem_of_fmap by done.
  intros (z1 & -> & H1) (z2 & -> & H2) C1 C2.
  destruct (proj1 (list_elem_of_lookup _ _) H1) as [i Hi].
  destruct (proj1 (list_elem_of_lookup _ _) H2) as [j Hj].
  assert (Hs : StronglySorted before (ztile_geometries ws)) by (by apply zcolumns_sorted).
  destruct (Nat.lt_trichotomy i j) as [Hij|[->|Hij]].
  - exfalso. apply (before_disjoint p z1 z2); auto.
    by eapply StronglySorted_lookup_lt.
  - by simplify_eq.
  - exfalso. apply (before_disjoint p z2 z1); auto.
    by eapply StronglySorted_lookup_lt.
Qed.
End disjoint.

(** ** Every tile of a listed column has exactly one geometry *)
Section coverage.
Context (ws : GlobalWorkspace) (Hk : keys_ok ws).

Lemma column_geometries_ids c x y w ids :
  (∀ id, id ∈ ids → ∃ t, ws.(gw_tiles) !! id = Some t) →
  tg_tile_id <$> (column_geometries ws c x y w ids).1 = ids.
Proof.
  revert y w. induction ids as [|id ids IH]; intros y w Hids; csimpl; [done|].
  destruct (Hids id) as [t Ht]; [left|]. rewrite Ht. csimpl.
  rewrite (Hk _ _ Ht), IH; [done|]. intros. apply Hids. by right.
Qed.

Lemma columns_geometries_ids x cols :
  Forall (.∈ ws.(gw_columns)) cols →
  tg_tile_id <$> columns_geometries ws (ordered_column_tiles ws) x cols =
  mjoin (column_tiles ws <$> cols).
Proof.
  intros Hin. revert x. induction Hin as [|c cols Hc Hin IH]; intros x; csimpl; [done|].
  assert (Ho : ordered_column_tiles ws !! c = Some (column_tiles ws c)).
  { rewrite column_tiles_members, lookup_ordered_column_tiles.
    by rewrite decide_True by (by left). }
  rewrite Ho, fmap_app, IH, <- list_fmap_compose. f_equal.
  change (tg_tile_id ∘ set_tg_logical_width _) with tg_tile_id.
  apply column_geometries_ids. intros id Hid.
  apply elem_of_column_tiles in Hid as (t & ? & _); eauto.
Qed.

Lemma tile_geometries_ids :
  tg_tile_id <$> tile_geometries ws = mjoin (column_tiles ws <$> ws.(gw_columns)).
Proof. apply columns_geometries_ids. by apply Forall_forall. Qed.

Lemma sorted_tiles_NoDup : NoDup (tm_tile_id <$> sorted_tiles ws).
Proof.
  unfold sorted_tiles. rewrite stable_sort_Permutation.
  assert (tm_tile_id <$> bt_values ws.(gw_tiles) = bt_keys ws.(gw_tiles)) as ->.
  { unfold bt_values, bt_keys. rewrite <- list_fmap_compose. apply list_fmap_ext.
    intros i [k t] Hi. simpl. apply (Hk k t), elem_of_bt_to_list.
    by eapply list_elem_of_lookup_2. }
  apply NoDup_bt_keys.
Qed.

Lemma column_tiles_NoDup c : NoDup (column_tiles ws c).
Proof.
  rewrite column_tiles_members. unfold members.
  pose proof sorted_tiles_NoDup as Hn. revert Hn.
  induction (sorted_tiles ws) as [|t l IH]; csimpl; [done|].
  intros [Hni Hn]%NoDup_cons. destruct (_ =? _)%N; csimpl; [|by apply IH].
  constructor; [|by apply IH]. intros Hin. apply Hni.
  apply list_elem_of_fmap in Hin as (t' & -> & Ht'). apply list_elem_of_fmap.
  exists t'. split; [done|]. rewrite list_elem_of_In, filter_In in Ht'.
  by apply list_elem_of_In, Ht'.
Qed.

Lemma columns_tiles_NoDup cols : NoDup cols → NoDup (mjoin (column_tiles ws <$> cols)).
Proof.
  induction 1 as [|c cols Hc Hn IH]; csimpl; [constructor|].
  apply NoDup_app. split_and!; [apply column_tiles_NoDup| |done].
  intros id Hid. rewrite list_elem_of_join. intros (l & Hl & (c' & -> & Hc')%list_elem_of_fmap).
  apply elem_of_column_tiles in Hid as (t & ? & ?); [|done].
  apply elem_of_column_tiles in Hl as (t' & ? & ?); [|done].
  apply Hc. replace c with c' by congruence. done.
Qed.
End coverage.

(** ** Sample data *)
Lemma sample_ws_bounded : geometry_bounded sample_ws.
Proof.
  split; [|vm_compute; discriminate|vm_compute; discriminate].
  apply (bool_decide_unpack _). by vm_compute.
Qed.

Definition sample_point : Point := MkPoint (f64_of_Z 700) (f64_of_Z 400).

Definition sample_hit : TileGeometry :=
  embed (MkZGeometry (sample_tile 11 2 100 640 500) 100 0 300 800 500).

(** ** Properties *)

(** On a workspace within the bounds, [hit_test_tile] returns a geometry
    exactly when that geometry is one of the workspace and contains the point:
    tiles never overlap, so the first match is the only one. *)
Theorem hit_test_tile_correct ws p g :
  geometry_bounded ws →
  hit_test_tile ws p = Some g ↔ g ∈ tile_geometries ws ∧ tile_contains p g = true.
Proof.
  intros Hb. unfold hit_test_tile. split.
  - intros [Hin Hc]%find_some. by rewrite list_elem_of_In.
  - intros [Hin Hc]. destruct (List.find _ _) as [g'|] eqn:E.
    + apply find_some in E as [Hin' Hc']. rewrite <- list_elem_of_In in Hin'.
      f_equal. by eapply contains_unique.
    + apply list_elem_of_In in Hin. eapply find_none in E; [|done]. congruence.
Qed.

Lemma hit_test_tile_correct_witness :
  geometry_bounded sample_ws ∧ hit_test_tile sample_ws sample_point = Some sample_hit.
Proof.
  split; [apply sample_ws_bounded|].
  apply (hit_test_tile_correct sample_ws sample_point sample_hit sample_ws_bounded).
  vm_compute. split; [|done]. right. left.
Defined.

(** With unique columns and tiles stored under their ids, the tiles of
    listed columns, and only they, have a geometry, and each has exactly one. *)
Theorem tile_geometries_cover ws :
  workspace_ok ws →
  NoDup (tg_tile_id <$> tile_geometries ws) ∧
  ∀ id, id ∈ tg_tile_id <$> tile_geometries ws ↔
    ∃ t, ws.(gw_tiles) !! id = Some t ∧ t.(tm_column_id) ∈ ws.(gw_columns).
Proof.
  intros [Hk Hn]. rewrite tile_geometries_ids by done.
  split; [by apply columns_tiles_NoDup|]. intros id. rewrite list_elem_of_join. split.
  - intros (l & Hl & (c & -> & Hc)%list_elem_of_fmap).
    apply elem_of_column_tiles in Hl as (t & ? & <-); eauto.
  - intros (t & Ht & Hc). exists (column_tiles ws t.(tm_column_id)). split.
    + apply elem_of_column_tiles; eauto.
    + apply list_elem_of_fmap. eauto.
Qed.

Lemma tile_geometries_cover_witness :
  workspace_ok sample_ws ∧ 12%N ∈ (tg_tile_id <$> tile_geometries sample_ws).
Proof.
  split; [apply sample_ws_ok|].
  apply (proj2 (tile_geometries_cover sample_ws sample_ws_ok) 12%N).
  exists (sample_tile 12 2 101 320 200). split; [reflexivity|]. right. left.
Defined.
