(* ===== verification/LinkStores.v ===== *)
(** * Stores of the link: frames, peers, trust, transport, remote tiles

    - src/link/stream.rs: the bounded frame queue of a streamed tile;
    - src/link/discovery.rs: the list of discovered peers;
    - src/link/security.rs: the trust store;
    - src/link/transport.rs: message queues and the length-prefixed framing;
    - src/link/remote_tile.rs: the stand-in element of a tile of another node.

    The sockets and the [bincode] encoding of an envelope are not part of the
    sources: a connection is the list of bytes that can still be read from it,
    and the encoding is a pair of functions whose round trip is a hypothesis. *)
From S2P Require Import Prelude Float64 LinkProtocol.
From Stdlib Require Import Strings.Byte.

(** ** Streams of frames *)
Record FramePacket := MkFramePacket {
  fp_tile_id : TileId;
  fp_frame_id : N;
  fp_width : N;
  fp_height : N;
  fp_format : string;
  fp_bytes : list Byte.byte
}.

Record StreamBuffer := MkStreamBuffer {
  sb_tile_id : TileId;
  sb_state : StreamState;
  sb_queue : list FramePacket;
  sb_max_queued_frames : nat
}.

Definition set_sb_state (x : StreamState) (r : StreamBuffer) : StreamBuffer :=
  MkStreamBuffer r.(sb_tile_id) x r.(sb_queue) r.(sb_max_queued_frames).

Definition set_sb_queue (x : list FramePacket) (r : StreamBuffer) : StreamBuffer :=
  MkStreamBuffer r.(sb_tile_id) r.(sb_state) x r.(sb_max_queued_frames).

Definition StreamBuffer_new (tile_id : TileId) : StreamBuffer :=
  MkStreamBuffer tile_id Pending [] 2.

(** [VecDeque::pop_front]; the popped element is not used. *)
Definition pop_front {A} (q : list A) : list A := tail q.

Definition StreamBuffer_push (b : StreamBuffer) (packet : FramePacket) : StreamBuffer :=
  let b :=
    if b.(sb_max_queued_frames) <=? length b.(sb_queue)
    then set_sb_queue (pop_front b.(sb_queue)) b else b in
  let b := set_sb_state Streaming b in
  set_sb_queue (b.(sb_queue) ++ [packet]) b.

Definition StreamBuffer_latest (b : StreamBuffer) : option FramePacket := last b.(sb_queue).

Definition mark_stale (b : StreamBuffer) : StreamBuffer := set_sb_state Stale b.

(** ** Discovered peers *)
Record DiscoveredPeer := MkDiscoveredPeer {
  dp_hostname : string;
  dp_addr : string;
  dp_fingerprint : string
}.

#[export] Instance DiscoveredPeer_eq_dec : EqDecision DiscoveredPeer.
Proof. solve_decision. Defined.

Record DiscoveryState := MkDiscoveryState { ds_peers : list DiscoveredPeer }.

Definition DiscoveryState_default : DiscoveryState := MkDiscoveryState [].

Definition DiscoveryState_upsert (d : DiscoveryState) (peer : DiscoveredPeer) : DiscoveryState :=
  match update_first (λ it, bool_decide (it.(dp_addr) = peer.(dp_addr)))
          (λ _, peer) d.(ds_peers) with
  | Some peers => MkDiscoveryState peers
  | None => MkDiscoveryState (d.(ds_peers) ++ [peer])
  end.

Definition remove_by_addr (d : DiscoveryState) (addr : string) : DiscoveryState :=
  MkDiscoveryState (List.filter (λ p, negb (bool_decide (p.(dp_addr) = addr))) d.(ds_peers)).

(** ** Trust store *)
Record TrustedNode := MkTrustedNode {
  tn_node : string;
  tn_fingerprint : string
}.

#[export] Instance TrustedNode_eq_dec : EqDecision TrustedNode.
Proof. solve_decision. Defined.

Definition set_tn_fingerprint (x : string) (r : TrustedNode) : TrustedNode :=
  MkTrustedNode r.(tn_node) x.

Record TrustStore := MkTrustStore { ts_nodes : list TrustedNode }.

Definition TrustStore_default : TrustStore := MkTrustStore [].

Definition TrustStore_trust (s : TrustStore) (node fingerprint : string) : TrustStore :=
  match update_first (λ it, bool_decide (it.(tn_node) = node))
          (set_tn_fingerprint fingerprint) s.(ts_nodes) with
  | Some nodes => MkTrustStore nodes
  | None => MkTrustStore (s.(ts_nodes) ++ [MkTrustedNode node fingerprint])
  end.

Definition TrustStore_forget (s : TrustStore) (node : string) : TrustStore :=
  MkTrustStore
    (List.filter (λ it, negb (bool_decide (it.(tn_node) = node)) &&
                        negb (bool_decide (it.(tn_fingerprint) = node))) s.(ts_nodes)).

Definition is_trusted (s : TrustStore) (node fingerprint : string) : bool :=
  existsb (λ it, (bool_decide (it.(tn_node) = node) ||
                  bool_decide (it.(tn_fingerprint) = node)) &&
                 bool_decide (it.(tn_fingerprint) = fingerprint)) s.(ts_nodes).

(** ** Transport queues *)
Record PendingMessage := MkPendingMessage {
  pm_addr : string;
  pm_envelope : Envelope
}.

Record IncomingMessage := MkIncomingMessage {
  im_peer_addr : string;
  im_envelope : Envelope
}.

Record TransportState := MkTransportState {
  tr_outgoing : list PendingMessage;
  tr_incoming : list IncomingMessage;
  tr_listener_running : bool
}.

Definition set_tr_outgoing (x : list PendingMessage) (r : TransportState) : TransportState :=
  MkTransportState x r.(tr_incoming) r.(tr_listener_running).

Definition set_tr_incoming (x : list IncomingMessage) (r : TransportState) : TransportState :=
  MkTransportState r.(tr_outgoing) x r.(tr_listener_running).

Definition set_tr_listener_running (x : bool) (r : TransportState) : TransportState :=
  MkTransportState r.(tr_outgoing) r.(tr_incoming) x.

Definition TransportState_default : TransportState := MkTransportState [] [] false.

Definition enqueue (t : TransportState) (addr : string) (envelope : Envelope) : TransportState :=
  set_tr_outgoing (t.(tr_outgoing) ++ [MkPendingMessage addr envelope]) t.

(** [drain]: the queue is emptied and each message is handed to a sender thread;
    the result is the list of messages handed over. *)
Definition drain (t : TransportState) : list PendingMessage * TransportState :=
  (t.(tr_outgoing), set_tr_outgoing [] t).

Definition drain_incoming (t : TransportState) : list IncomingMessage * TransportState :=
  (t.(tr_incoming), set_tr_incoming [] t).

(** [start_listener]; [bound] is what binding the socket yields: the port or an
    error of the system. *)
Definition start_listener (t : TransportState) (bound : N + string) :
    (N + string) * TransportState :=
  if t.(tr_listener_running) then (inr "listener already running", t)
  else
    match bound with
    | inl port => (inl port, set_tr_listener_running true t)
    | inr err => (inr err, t)
    end.

(** ** Framing *)

Definition byte_of_N (n : N) : Byte.byte :=
  match Byte.of_N (n mod 256) with Some b => b | None => x00 end.

(** [u32::to_be_bytes] and [u32::from_be_bytes]. *)
Definition to_be_bytes (n : N) : list Byte.byte :=
  [byte_of_N (n / 16777216); byte_of_N (n / 65536); byte_of_N (n / 256); byte_of_N n].

Definition from_be_bytes (l : list Byte.byte) : N :=
  foldl (λ acc b, (acc * 256 + Byte.to_N b)%N) 0%N l.

(** [Read::read_exact]: fails when fewer bytes are left. *)
Definition read_exact (n : nat) (stream : list Byte.byte) :
    option (list Byte.byte * list Byte.byte) :=
  if n <=? length stream then Some (take n stream, drop n stream) else None.

Definition MAX_MESSAGE : N := 64 * 1024 * 1024.

Section framing.
(** The [bincode] encoding of an [Envelope]. *)
Context (serialize : Envelope → option (list Byte.byte)).
Context (deserialize : list Byte.byte → option Envelope).

(** The bytes [send_and_maybe_recv] writes for a message. *)
Definition frame (envelope : Envelope) : option (list Byte.byte) :=
  match serialize envelope with
  | Some encoded =>
      let len := to_be_bytes (N.of_nat (length encoded) mod (u32_max + 1)) in
      Some (len ++ encoded)
  | None => None
  end.

(** [read_envelope]: the envelope and the rest of the connection. *)
Definition read_envelope (stream : list Byte.byte) :
    option (Envelope * list Byte.byte) :=
  match read_exact 4 stream with
  | None => None
  | Some (len_buf, stream) =>
      let len := from_be_bytes len_buf in
      if (MAX_MESSAGE <? len)%N then None
      else
        match read_exact (N.to_nat len) stream with
        | None => None
        | Some (buf, stream) =>
            match deserialize buf with
            | Some envelope => Some (envelope, stream)
            | None => None
            end
        end
  end.

(** The loop of [handle_incoming_stream]; every turn reads at least the four
    bytes of the length. *)
Fixpoint handle_loop (fuel : nat) (peer : string) (stream : list Byte.byte)
    (incoming : list IncomingMessage) : option (list IncomingMessage) :=
  match fuel with
  | 0 => None
  | S fuel =>
      match read_envelope stream with
      | Some (envelope, stream) =>
          handle_loop fuel peer stream (incoming ++ [MkIncomingMessage peer envelope])
      | None => Some incoming
      end
  end.

Definition handle_incoming_stream (peer : string) (stream : list Byte.byte)
    (incoming : list IncomingMessage) : option (list IncomingMessage) :=
  handle_loop (S (length stream)) peer stream incoming.
End framing.

(** ** Remote tiles *)
Inductive RemoteTileOverlay :=
  | OverlayPlaceholder | OverlayStale | OverlayDisconnected | OverlayPrivacyBlocked.

(** [SolidColorBuffer] of src/render_helpers/solid_color.rs: its size and the
    number of commits. *)
Record SolidColorBuffer := MkSolidColorBuffer {
  sc_size : f64 * f64;
  sc_commit : N
}.

Definition SolidColorBuffer_new (size : f64 * f64) : SolidColorBuffer :=
  MkSolidColorBuffer size 0.

Definition SolidColorBuffer_resize (b : SolidColorBuffer) (size : f64 * f64) : SolidColorBuffer :=
  if f64_eqb size.1 b.(sc_size).1 && f64_eqb size.2 b.(sc_size).2 then b
  else MkSolidColorBuffer size (b.(sc_commit) + 1).

Record RemoteTile := MkRemoteTile {
  rt_metadata : TileMetadata;
  rt_size : Z * Z;
  rt_latest_frame : option FramePacket;
  rt_placeholder : SolidColorBuffer
}.

Definition set_rt_metadata (x : TileMetadata) (r : RemoteTile) : RemoteTile :=
  MkRemoteTile x r.(rt_size) r.(rt_latest_frame) r.(rt_placeholder).

Definition set_rt_size (x : Z * Z) (r : RemoteTile) : RemoteTile :=
  MkRemoteTile r.(rt_metadata) x r.(rt_latest_frame) r.(rt_placeholder).

Definition set_rt_latest_frame (x : option FramePacket) (r : RemoteTile) : RemoteTile :=
  MkRemoteTile r.(rt_metadata) r.(rt_size) x r.(rt_placeholder).

Definition set_rt_placeholder (x : SolidColorBuffer) (r : RemoteTile) : RemoteTile :=
  MkRemoteTile r.(rt_metadata) r.(rt_size) r.(rt_latest_frame) x.

Definition clamp_size (size : Z * Z) : Z * Z := (Z.max size.1 1, Z.max size.2 1).

Definition size_to_f64 (size : Z * Z) : f64 * f64 := (f64_of_Z size.1, f64_of_Z size.2).

Definition RemoteTile_new (metadata : TileMetadata) : RemoteTile :=
  let size := clamp_size metadata.(tm_current_logical_size) in
  MkRemoteTile metadata size None (SolidColorBuffer_new (size_to_f64 size)).

Definition update_metadata (t : RemoteTile) (metadata : TileMetadata) : RemoteTile :=
  let t := set_rt_size (clamp_size metadata.(tm_current_logical_size)) t in
  let t := set_rt_metadata metadata t in
  set_rt_placeholder (SolidColorBuffer_resize t.(rt_placeholder) (size_to_f64 t.(rt_size))) t.

Definition update_frame (t : RemoteTile) (frame : FramePacket) : RemoteTile :=
  set_rt_latest_frame (Some frame) t.

Definition overlay (t : RemoteTile) : RemoteTileOverlay :=
  match t.(rt_metadata).(tm_stream_state) with
  | Disconnected => OverlayDisconnected
  | Stale => OverlayStale
  | PrivacyBlocked => OverlayPrivacyBlocked
  | Pending | Idle => OverlayPlaceholder
  | Streaming =>
      match t.(rt_latest_frame) with
      | Some _ => OverlayPlaceholder
      | None => OverlayStale
      end
  end.

(** [LayoutElement] for [RemoteTile]: the operations with an effect or a
    non-constant result. *)
Inductive SizingMode := SizingNormal | SizingMaximized | SizingFullscreen.

Definition request_size (t : RemoteTile) (size : Z * Z) : RemoteTile :=
  set_rt_size (clamp_size size) t.

Definition set_floating (t : RemoteTile) (floating : bool) : RemoteTile :=
  set_rt_metadata (set_tm_floating floating t.(rt_metadata)) t.

Definition sizing_mode (t : RemoteTile) : SizingMode :=
  if t.(rt_metadata).(tm_fullscreen) then SizingFullscreen
  else if t.(rt_metadata).(tm_maximized) then SizingMaximized
  else SizingNormal.

Definition is_in_input_region (t : RemoteTile) (x y : f64) : bool :=
  f64_leb f64_zero x && f64_leb f64_zero y &&
  f64_ltb x (f64_of_Z t.(rt_size).1) && f64_ltb y (f64_of_Z t.(rt_size).2).

(** ** Lemmas *)

Lemma StreamBuffer_push_queue b p :
  (StreamBuffer_push b p).(sb_queue) =
  push_bounded b.(sb_max_queued_frames) b.(sb_queue) p.
Proof. unfold StreamBuffer_push, push_bounded. by destruct (_ <=? _). Qed.

Lemma StreamBuffer_push_max b p :
  (StreamBuffer_push b p).(sb_max_queued_frames) = b.(sb_max_queued_frames).
Proof. unfold StreamBuffer_push. by destruct (_ <=? _). Qed.

Lemma foldl_StreamBuffer_push b ps :
  (foldl StreamBuffer_push b ps).(sb_queue) =
  foldl (push_bounded b.(sb_max_queued_frames)) b.(sb_queue) ps.
Proof.
  revert b. induction ps as [|p ps IH]; intros b; simpl; [done|].
  by rewrite IH, StreamBuffer_push_queue, StreamBuffer_push_max.
Qed.

(** *** Bytes *)
Lemma to_N_byte_of_N n : Byte.to_N (byte_of_N n) = (n mod 256)%N.
Proof.
  unfold byte_of_N. destruct (Byte.of_N (n mod 256)) as [b|] eqn:E.
  - by apply Byte.to_of_N in E.
  - apply Byte.of_N_None_iff in E. pose proof (N.mod_lt n 256). lia.
Qed.

Lemma from_to_be_bytes n : (n ≤ u32_max)%N → from_be_bytes (to_be_bytes n) = n.
Proof.
  intros Hn. unfold from_be_bytes, to_be_bytes. cbn [foldl].
  rewrite !to_N_byte_of_N. unfold u32_max in Hn.
  pose proof (N.div_mod n 256). pose proof (N.div_mod (n / 256) 256).
  pose proof (N.div_mod (n / 65536) 256).
  replace (n / 65536)%N with (n / 256 / 256)%N in * by (by rewrite N.Div0.div_div).
  replace (n / 16777216)%N with (n / 256 / 256 / 256)%N in *
    by (by rewrite !N.Div0.div_div).
  assert (n / 256 / 256 / 256 < 256)%N.
  { rewrite !N.Div0.div_div. apply N.Div0.div_lt_upper_bound. lia. }
  rewrite (N.mod_small (n / 256 / 256 / 256)) by done. lia.
Qed.

Lemma length_to_be_bytes n : length (to_be_bytes n) = 4.
Proof. done. Qed.

Lemma read_exact_app l rest : read_exact (length l) (l ++ rest) = Some (l, rest).
Proof.
  unfold read_exact. rewrite length_app.
  destruct (Nat.leb_spec (length l) (length l + length rest)); [|lia].
  by rewrite take_app_length, drop_app_length.
Qed.

Section framing_lemmas.
Context (serialize : Envelope → option (list Byte.byte)).
Context (deserialize : list Byte.byte → option Envelope).

Lemma read_envelope_frame e b rest :
  serialize e = Some b → deserialize b = Some e → (N.of_nat (length b) ≤ MAX_MESSAGE)%N →
  read_envelope deserialize
    (to_be_bytes (N.of_nat (length b) mod (u32_max + 1)) ++ b ++ rest) = Some (e, rest).
Proof.
  intros Hs Hd Hl. unfold read_envelope.
  rewrite (read_exact_app (to_be_bytes _)).
  assert (N.of_nat (length b) < u32_max + 1)%N by (unfold MAX_MESSAGE, u32_max in *; lia).
  rewrite N.mod_small by done. rewrite from_to_be_bytes by lia.
  rewrite (proj2 (N.ltb_ge _ _)) by done.
  rewrite Nat2N.id, read_exact_app. by rewrite Hd.
Qed.

(** An envelope whose encoding is longer than the reader accepts; the writer does not check. *)
Definition oversized (e : Envelope) : Prop :=
  ∃ b, serialize e = Some b ∧ (MAX_MESSAGE < N.of_nat (length b) ≤ u32_max)%N.

(** What may follow on a connection: nothing, or the frame of such an envelope and anything else. *)
Definition ends_reading (tail : list Byte.byte) : Prop :=
  tail = [] ∨ ∃ e f rest, oversized e ∧ frame serialize e = Some f ∧ tail = f ++ rest.

Lemma ends_reading_none tail : ends_reading tail → read_envelope deserialize tail = None.
Proof.
  intros [->|(e & f & rest & (b & Hs & Hl) & Hf & ->)]; [done|]. unfold frame in Hf. rewrite Hs in Hf.
  apply (inj Some) in Hf as <-. unfold read_envelope. rewrite <-app_assoc, (read_exact_app (to_be_bytes _)).
  rewrite N.mod_small, from_to_be_bytes by lia. by rewrite (proj2 (N.ltb_lt _ _)) by lia.
Qed.

(** A successful read consumes at least the length prefix. *)
Lemma read_envelope_consumes s e rest :
  read_envelope deserialize s = Some (e, rest) → length rest + 4 ≤ length s.
Proof.
  unfold read_envelope, read_exact. intros H.
  repeat split_match_in H; simplify_eq. reflect_bools.
  rewrite !length_drop in *. lia.
Qed.

Lemma handle_loop_total fuel peer s inc :
  length s < fuel → is_Some (handle_loop deserialize fuel peer s inc).
Proof.
  revert s inc. induction fuel as [|fuel IH]; intros s inc Hf; simpl; [lia|].
  destruct (read_envelope deserialize s) as [[e rest]|] eqn:E; [|eauto].
  apply IH. apply read_envelope_consumes in E. lia.
Qed.

Lemma handle_loop_more fuel fuel' peer s inc r :
  handle_loop deserialize fuel peer s inc = Some r → fuel ≤ fuel' →
  handle_loop deserialize fuel' peer s inc = Some r.
Proof.
  revert fuel' s inc. induction fuel as [|fuel IH]; intros [|fuel'] s inc H Hf;
    simpl in *; try done; [lia|].
  destruct (read_envelope deserialize s) as [[e rest]|]; [|done].
  apply IH; [done|lia].
Qed.

Lemma read_envelope_nil : read_envelope deserialize [] = None.
Proof. done. Qed.
End framing_lemmas.

(** *** Discovered peers *)
Definition addrs_unique (d : DiscoveryState) : Prop := NoDup (dp_addr <$> d.(ds_peers)).

Lemma upsert_addrs d peer :
  dp_addr <$> (DiscoveryState_upsert d peer).(ds_peers) =
  push_unique peer.(dp_addr) (dp_addr <$> d.(ds_peers)).
Proof.
  unfold DiscoveryState_upsert, push_unique, contains.
  destruct (update_first _ _ _) as [peers|] eqn:E; simpl.
  - apply update_first_Some in E as (l1 & x & l2 & -> & -> & Hx & _).
    apply bool_decide_eq_true_1 in Hx. rewrite !fmap_app, !fmap_cons, Hx.
    rewrite bool_decide_true; [done|]. set_solver.
  - rewrite update_first_None in E. rewrite bool_decide_false, fmap_app; [done|].
    intros (p & Hp & Hin)%list_elem_of_fmap. apply E in Hin.
    by apply bool_decide_eq_false_1 in Hin.
Qed.

Lemma elem_of_upsert d peer : peer ∈ (DiscoveryState_upsert d peer).(ds_peers).
Proof.
  unfold DiscoveryState_upsert. destruct (update_first _ _ _) as [peers|] eqn:E; simpl.
  - apply update_first_Some in E as (l1 & x & l2 & _ & -> & _). set_solver.
  - set_solver.
Qed.

Lemma elem_of_upsert_other d peer p :
  p.(dp_addr) ≠ peer.(dp_addr) →
  p ∈ (DiscoveryState_upsert d peer).(ds_peers) ↔ p ∈ d.(ds_peers).
Proof.
  intros Hne. unfold DiscoveryState_upsert.
  destruct (update_first _ _ _) as [peers|] eqn:E; simpl.
  - apply update_first_Some in E as (l1 & x & l2 & -> & -> & Hx & _).
    apply bool_decide_eq_true_1 in Hx. rewrite !elem_of_app, !elem_of_cons.
    naive_solver congruence.
  - rewrite elem_of_app, list_elem_of_singleton. naive_solver.
Qed.

(** *** Trust store *)
Lemma is_trusted_true s n f :
  is_trusted s n f = true ↔
  ∃ it, it ∈ s.(ts_nodes) ∧ (it.(tn_node) = n ∨ it.(tn_fingerprint) = n) ∧
        it.(tn_fingerprint) = f.
Proof.
  unfold is_trusted. rewrite existsb_exists. setoid_rewrite <- list_elem_of_In.
  split; intros (it & Hin & H); exists it; (split; [done|]).
  - apply andb_true_iff in H as [H1 H2]. apply orb_true_iff in H1.
    rewrite !bool_decide_eq_true in *. done.
  - rewrite andb_true_iff, orb_true_iff, !bool_decide_eq_true. done.
Qed.

Lemma elem_of_trust s n f : MkTrustedNode n f ∈ (TrustStore_trust s n f).(ts_nodes).
Proof.
  unfold TrustStore_trust. destruct (update_first _ _ _) as [nodes|] eqn:E; simpl.
  - apply update_first_Some in E as (l1 & [n' f'] & l2 & _ & -> & Hx & _).
    apply bool_decide_eq_true_1 in Hx. simpl in Hx. subst. set_solver.
  - set_solver.
Qed.

Lemma elem_of_forget s n it :
  it ∈ (TrustStore_forget s n).(ts_nodes) ↔
  it ∈ s.(ts_nodes) ∧ it.(tn_node) ≠ n ∧ it.(tn_fingerprint) ≠ n.
Proof.
  unfold TrustStore_forget. simpl.
  rewrite !list_elem_of_In, filter_In, andb_true_iff, !negb_true_iff, !bool_decide_eq_false.
  done.
Qed.

(** ** Sample data *)
Definition sample_envelope : Envelope := MkEnvelope 1 7 2 0 0 (MLayoutAck 3).

Definition sample_serialize (e : Envelope) : option (list Byte.byte) := Some [x01; x02].
Definition sample_deserialize (b : list Byte.byte) : option Envelope := Some sample_envelope.

(** ** Properties *)

(** The frame queue of a streamed tile holds the two newest frames pushed,
    oldest first, and [latest] is the last one pushed. *)
Theorem stream_keeps_newest tile packets :
  let b := foldl StreamBuffer_push (StreamBuffer_new tile) packets in
  b.(sb_queue) = lastn 2 packets ∧ StreamBuffer_latest b = last packets.
Proof.
  intros b.
  assert (Hq : b.(sb_queue) = lastn 2 packets).
  { unfold b. rewrite foldl_StreamBuffer_push. apply (foldl_push_bounded 2); simpl; lia. }
  split; [done|]. unfold StreamBuffer_latest. rewrite Hq. apply last_lastn. lia.
Qed.

(** A peer announced over mDNS is stored once per address: the addresses
    stay distinct, the announced peer is present, and the others are kept. *)
Theorem discovery_upsert_spec d peer :
  addrs_unique d →
  addrs_unique (DiscoveryState_upsert d peer) ∧
  peer ∈ (DiscoveryState_upsert d peer).(ds_peers) ∧
  ∀ p, p.(dp_addr) ≠ peer.(dp_addr) →
    p ∈ (DiscoveryState_upsert d peer).(ds_peers) ↔ p ∈ d.(ds_peers).
Proof.
  intros Hu. split_and!; [|apply elem_of_upsert|intros; by apply elem_of_upsert_other].
  unfold addrs_unique. rewrite upsert_addrs. by apply NoDup_push_unique.
Qed.

Lemma discovery_upsert_spec_witness :
  addrs_unique (DiscoveryState_upsert (MkDiscoveryState [MkDiscoveredPeer "a" "1:1" "f"])
                  (MkDiscoveredPeer "b" "1:1" "g")).
Proof.
  apply (discovery_upsert_spec (MkDiscoveryState [MkDiscoveredPeer "a" "1:1" "f"])).
  apply NoDup_singleton.
Defined.

(** Trusting a node with a fingerprint makes that pair trusted; forgetting a
    name leaves nothing trusted under it, and keeps exactly the entries that
    mention it neither as node nor as fingerprint. *)
Theorem trust_store_spec s node fingerprint :
  is_trusted (TrustStore_trust s node fingerprint) node fingerprint = true ∧
  is_trusted (TrustStore_forget s node) node fingerprint = false ∧
  ∀ it, it ∈ (TrustStore_forget s node).(ts_nodes) ↔
    it ∈ s.(ts_nodes) ∧ it.(tn_node) ≠ node ∧ it.(tn_fingerprint) ≠ node.
Proof.
  split_and!; [| |intros; apply elem_of_forget].
  - apply is_trusted_true. exists (MkTrustedNode node fingerprint).
    split_and!; [apply elem_of_trust|by left|done].
  - apply not_true_iff_false. rewrite is_trusted_true.
    intros (it & (_ & Hn & Hp)%elem_of_forget & Hor & _). naive_solver.
Qed.

(** C37: framing round trip. A connection that carries the frames of envelopes
    that the encoding represents, each of at most 64 MiB, delivers exactly
    these envelopes, in order, behind what was queued before. Should the frame
    of a larger envelope follow, which the writer sends unchecked, it and the
    rest of the connection are lost, whatever that is. *)
Theorem frames_roundtrip serialize deserialize peer es fs tail incoming :
  Forall (λ e, ∃ b, serialize e = Some b ∧ deserialize b = Some e ∧
                    (N.of_nat (length b) ≤ MAX_MESSAGE)%N) es →
  Forall2 (λ e f, frame serialize e = Some f) es fs → ends_reading serialize tail →
  handle_incoming_stream deserialize peer (mjoin fs ++ tail) incoming =
  Some (incoming ++ (MkIncomingMessage peer <$> es)).
Proof.
  intros He Hf Ht. unfold handle_incoming_stream.
  enough (∃ fuel, handle_loop deserialize fuel peer (mjoin fs ++ tail) incoming =
            Some (incoming ++ (MkIncomingMessage peer <$> es))) as [fuel Hfuel].
  { destruct (handle_loop_total deserialize (S (length (mjoin fs ++ tail))) peer (mjoin fs ++ tail) incoming)
      as [r Hr]; [lia|]. rewrite Hr, <- Hfuel.
    pose proof (handle_loop_more deserialize _ (S (length (mjoin fs ++ tail)) + fuel) _ _ _ _ Hr) as H1.
    pose proof (handle_loop_more deserialize _ (S (length (mjoin fs ++ tail)) + fuel) _ _ _ _ Hfuel) as H2.
    rewrite H1 in H2 by lia. symmetry. rewrite Hfuel. symmetry. apply H2. lia. }
  revert incoming. induction Hf as [|e f es fs Hef Hf IH]; intros incoming; simpl.
  - exists 1. cbn [handle_loop]. rewrite (ends_reading_none serialize deserialize) by done. by rewrite app_nil_r.
  - apply Forall_cons in He as [(b & Hs & Hd & Hl) He].
    destruct (IH He (incoming ++ [MkIncomingMessage peer e])) as [fuel Hfuel].
    exists (S fuel). cbn [handle_loop]. unfold frame in Hef. rewrite Hs in Hef.
    apply (inj Some) in Hef as <-. cbn [mjoin list_join]. rewrite <- !app_assoc.
    rewrite (read_envelope_frame serialize deserialize e b) by done.
    by rewrite Hfuel, <- app_assoc.
Qed.

Lemma frames_roundtrip_witness :
  handle_incoming_stream sample_deserialize "p" [x00; x00; x00; x02; x01; x02] [] =
  Some [MkIncomingMessage "p" sample_envelope].
Proof.
  apply (frames_roundtrip sample_serialize sample_deserialize "p" [sample_envelope]
           [[x00; x00; x00; x02; x01; x02]] [] []).
  - constructor; [|constructor]. exists [x01; x02]. split_and!; [done|done|]. discriminate.
  - constructor; [reflexivity|constructor].
  - by left.
Defined.

(** Termination. Reading a connection to its end always finishes: the
    bytes left are enough fuel whatever the decoder does. *)
Theorem handle_incoming_stream_terminates deserialize peer stream incoming :
  ∃ q, handle_incoming_stream deserialize peer stream incoming = Some (incoming ++ q).
Proof.
  unfold handle_incoming_stream.
  destruct (handle_loop_total deserialize (S (length stream)) peer stream incoming) as [r Hr];
    [lia|]. rewrite Hr.
  clear -Hr. revert Hr. generalize (S (length stream)). intros fuel.
  revert stream incoming. induction fuel as [|fuel IH]; intros s inc H; simpl in H; [done|].
  destruct (read_envelope deserialize s) as [[e rest]|].
  - apply IH in H as [q Hq]. exists (MkIncomingMessage peer e :: q).
    by rewrite Hq, <- app_assoc.
  - simplify_eq. exists []. by rewrite app_nil_r.
Qed.

