(* ===== verification/IpcTypes.v ===== *)
(** * Types of the IPC protocol (crates/niri-ipc/src/lib.rs)

    The structures that the link manager answers IPC requests with; fields keep
    the names of the source after a prefix. *)
From S2P Require Import Prelude Float64 LinkProtocol.

(** A moment in time. *)
Record Timestamp := MkTimestamp {
  ts_secs : N;
  ts_nanos : N
}.

#[export] Instance Timestamp_eq_dec : EqDecision Timestamp.
Proof. solve_decision. Defined.

(** [Timestamp] of a number of milliseconds; the nanoseconds fit in a [u32]. *)
Definition timestamp_of_millis (millis : N) : Timestamp :=
  MkTimestamp (millis / 1000) ((millis mod 1000) * 1000000).

Record LinkViewport := MkLinkViewport {
  lv_node_id : Uuid;
  lv_output_name : string;
  lv_global_x : f64;
  lv_global_y : f64;
  lv_logical_width : f64;
  lv_logical_height : f64;
  lv_scale : f64;
  lv_transform : Z;
  lv_refresh_rate_millihz : option N
}.

Record LinkStatus := MkLinkStatus {
  lst_enabled : bool;
  lst_session_active : bool;
  lst_session_id : option Uuid;
  lst_local_node_id : Uuid;
  lst_leader_node_id : option Uuid;
  lst_operation_seq : N;
  lst_generation : N;
  lst_peer_count : nat;
  lst_remote_tile_count : nat;
  lst_message : string
}.

Record LinkPeer := MkLinkPeer {
  lpe_node_id : Uuid;
  lpe_hostname : string;
  lpe_addr : option string;
  lpe_trusted : bool;
  lpe_connected : bool;
  lpe_is_leader : bool
}.

Record LinkSessionSummary := MkLinkSessionSummary {
  lss_session_id : Uuid;
  lss_generation : N;
  lss_timestamp : Timestamp;
  lss_participants : list Uuid
}.

Record LinkRemoteTile := MkLinkRemoteTile {
  lrt_tile_id : Uuid;
  lrt_owner_node_id : Uuid;
  lrt_app_id : option string;
  lrt_title : option string;
  lrt_pid : option Z;
  lrt_column_id : Uuid;
  lrt_logical_x : f64;
  lrt_logical_y : f64;
  lrt_logical_width : f64;
  lrt_logical_height : f64;
  lrt_stream_state : string;
  lrt_last_known_alive : option Timestamp;
  lrt_placeholder : bool;
  lrt_disconnected : bool
}.

Record LinkGlobalWorkspace := MkLinkGlobalWorkspace {
  lgw_session_id : Uuid;
  lgw_generation : N;
  lgw_operation_seq : N;
  lgw_leader_node_id : Uuid;
  lgw_participants : list Uuid;
  lgw_focused_tile : option Uuid;
  lgw_columns : list Uuid;
  lgw_tiles : list LinkRemoteTile;
  lgw_viewports : list LinkViewport
}.

(** ** The event stream *)

(** A workspace as clients see it. *)
Record Workspace := MkWorkspace {
  iw_id : N;
  iw_idx : N;
  iw_name : option string;
  iw_output : option string;
  iw_is_urgent : bool;
  iw_is_active : bool;
  iw_is_focused : bool;
  iw_active_window_id : option N
}.

#[export] Instance Workspace_eq_dec : EqDecision Workspace.
Proof. solve_decision. Defined.

Definition set_iw_is_urgent (x : bool) (r : Workspace) : Workspace :=
  MkWorkspace r.(iw_id) r.(iw_idx) r.(iw_name) r.(iw_output) x r.(iw_is_active)
    r.(iw_is_focused) r.(iw_active_window_id).

Definition set_iw_is_active (x : bool) (r : Workspace) : Workspace :=
  MkWorkspace r.(iw_id) r.(iw_idx) r.(iw_name) r.(iw_output) r.(iw_is_urgent) x
    r.(iw_is_focused) r.(iw_active_window_id).

Definition set_iw_is_focused (x : bool) (r : Workspace) : Workspace :=
  MkWorkspace r.(iw_id) r.(iw_idx) r.(iw_name) r.(iw_output) r.(iw_is_urgent)
    r.(iw_is_active) x r.(iw_active_window_id).

Definition set_iw_active_window_id (x : option N) (r : Workspace) : Workspace :=
  MkWorkspace r.(iw_id) r.(iw_idx) r.(iw_name) r.(iw_output) r.(iw_is_urgent)
    r.(iw_is_active) r.(iw_is_focused) x.

(** Position- and size-related properties of a window. *)
Record WindowLayout := MkWindowLayout {
  wl_pos_in_scrolling_layout : option (nat * nat);
  wl_tile_size : f64 * f64;
  wl_window_size : Z * Z;
  wl_tile_pos_in_workspace_view : option (f64 * f64);
  wl_window_offset_in_tile : f64 * f64
}.

#[export] Instance WindowLayout_eq_dec : EqDecision WindowLayout.
Proof. solve_decision. Defined.

(** [PartialEq] of floats in tuples and options. *)
Definition f64_pair_eqb (a b : f64 * f64) : bool := f64_eqb a.1 b.1 && f64_eqb a.2 b.2.

(** The derived [PartialEq] of [WindowLayout]. *)
Definition WindowLayout_eqb (a b : WindowLayout) : bool :=
  bool_decide (a.(wl_pos_in_scrolling_layout) = b.(wl_pos_in_scrolling_layout)) &&
  f64_pair_eqb a.(wl_tile_size) b.(wl_tile_size) &&
  bool_decide (a.(wl_window_size) = b.(wl_window_size)) &&
  match a.(wl_tile_pos_in_workspace_view), b.(wl_tile_pos_in_workspace_view) with
  | Some p, Some q => f64_pair_eqb p q
  | None, None => true
  | _, _ => false
  end &&
  f64_pair_eqb a.(wl_window_offset_in_tile) b.(wl_window_offset_in_tile).

(** A toplevel window as clients see it. *)
Record Window := MkWindow {
  iwin_id : N;
  iwin_title : option string;
  iwin_app_id : option string;
  iwin_pid : option Z;
  iwin_workspace_id : option N;
  iwin_is_focused : bool;
  iwin_is_floating : bool;
  iwin_is_urgent : bool;
  iwin_layout : WindowLayout;
  iwin_focus_timestamp : option Timestamp
}.

#[export] Instance Window_eq_dec : EqDecision Window.
Proof. solve_decision. Defined.

Definition set_iwin_is_focused (x : bool) (r : Window) : Window :=
  MkWindow r.(iwin_id) r.(iwin_title) r.(iwin_app_id) r.(iwin_pid)
    r.(iwin_workspace_id) x r.(iwin_is_floating) r.(iwin_is_urgent)
    r.(iwin_layout) r.(iwin_focus_timestamp).

Definition set_iwin_is_urgent (x : bool) (r : Window) : Window :=
  MkWindow r.(iwin_id) r.(iwin_title) r.(iwin_app_id) r.(iwin_pid)
    r.(iwin_workspace_id) r.(iwin_is_focused) r.(iwin_is_floating) x
    r.(iwin_layout) r.(iwin_focus_timestamp).

Definition set_iwin_layout (x : WindowLayout) (r : Window) : Window :=
  MkWindow r.(iwin_id) r.(iwin_title) r.(iwin_app_id) r.(iwin_pid)
    r.(iwin_workspace_id) r.(iwin_is_focused) r.(iwin_is_floating)
    r.(iwin_is_urgent) x r.(iwin_focus_timestamp).

Definition set_iwin_focus_timestamp (x : option Timestamp) (r : Window) : Window :=
  MkWindow r.(iwin_id) r.(iwin_title) r.(iwin_app_id) r.(iwin_pid)
    r.(iwin_workspace_id) r.(iwin_is_focused) r.(iwin_is_floating)
    r.(iwin_is_urgent) r.(iwin_layout) x.

Record KeyboardLayouts := MkKeyboardLayouts {
  kl_names : list string;
  kl_current_idx : N
}.

#[export] Instance KeyboardLayouts_eq_dec : EqDecision KeyboardLayouts.
Proof. solve_decision. Defined.

Definition set_kl_current_idx (x : N) (r : KeyboardLayouts) : KeyboardLayouts :=
  MkKeyboardLayouts r.(kl_names) x.

Inductive CastKind := PipeWire | WlrScreencopy.

#[export] Instance CastKind_eq_dec : EqDecision CastKind.
Proof. solve_decision. Defined.

Inductive CastTarget :=
  | CastNothing
  | CastOutput (name : string)
  | CastWindow (id : N).

#[export] Instance CastTarget_eq_dec : EqDecision CastTarget.
Proof. solve_decision. Defined.

(** A screencast. *)
Record Cast := MkCast {
  ca_stream_id : N;
  ca_session_id : N;
  ca_kind : CastKind;
  ca_target : CastTarget;
  ca_is_dynamic_target : bool;
  ca_is_active : bool;
  ca_pid : option Z;
  ca_pw_node_id : option N
}.

#[export] Instance Cast_eq_dec : EqDecision Cast.
Proof. solve_decision. Defined.

(** [Event]; the constructors carry the fields of the source's struct variants. *)
Inductive Event :=
  | WorkspacesChanged (workspaces : list Workspace)
  | WorkspaceUrgencyChanged (id : N) (urgent : bool)
  | WorkspaceActivated (id : N) (focused : bool)
  | WorkspaceActiveWindowChanged (workspace_id : N) (active_window_id : option N)
  | WindowsChanged (windows : list Window)
  | WindowOpenedOrChanged (window : Window)
  | WindowClosed (id : N)
  | WindowFocusChanged (id : option N)
  | WindowFocusTimestampChanged (id : N) (focus_timestamp : option Timestamp)
  | WindowUrgencyChanged (id : N) (urgent : bool)
  | WindowLayoutsChanged (changes : list (N * WindowLayout))
  | KeyboardLayoutsChanged (keyboard_layouts : KeyboardLayouts)
  | KeyboardLayoutSwitched (idx : N)
  | OverviewOpenedOrClosed (is_open : bool)
  | ConfigLoaded (failed : bool)
  | ScreenshotCaptured (path : option string)
  | CastsChanged (casts : list Cast)
  | CastStartedOrChanged (cast : Cast)
  | CastStopped (stream_id : N)
  | LinkEnabled (session_id : option Uuid)
  | LinkDisabled (session_id : option Uuid)
  | LinkPeerDiscovered (peer : LinkPeer)
  | LinkPeerJoined (peer : LinkPeer)
  | LinkPeerLeft (node_id : Uuid)
  | LinkLeaderChanged (leader_node_id : Uuid) (generation : N)
  | LinkGlobalLayoutChanged (session_id : Uuid) (operation_seq : N)
  | LinkRemoteTileCreated (tile : LinkRemoteTile)
  | LinkRemoteTileUpdated (tile : LinkRemoteTile)
  | LinkRemoteTileClosed (tile_id : Uuid)
  | LinkStreamStarted (tile_id : Uuid)
  | LinkStreamStopped (tile_id : Uuid)
  | LinkStreamDegraded (tile_id : Uuid) (reason : string)
  | LinkInputForwarded (tile_id owner_node_id : Uuid) (kind : string)
  | LinkSessionPersisted (session_id : Uuid)
  | LinkErrorEvent (message : string)
  | TouchpadGestureProgress (gesture phase : string) (fingers : N) (direction : string)
      (progress velocity : f64).
