(* ===== verification/LinkManager.v ===== *)
(** * The link manager (src/link/session.rs, src/link/persistence.rs)

    [LinkManager] is the state of the link subsystem; every method is a
    function on [Sys], the manager together with its environment [World]:

    - [w_uuids] and [w_times] are what [Uuid::new_v4] and [now_millis] return, in
      the order of the calls;
    - [w_sessions] is the sessions directory in listing order, with [None] for
      a file that cannot be read; [w_dirs_ok], [w_write_ok] say whether creating
      the directory and writing files succeed;
    - [w_sent] collects the messages handed to the sender threads.

    [io::Result] is [option], a panic is [None] of the functions that can panic.
    JSON and the textual form of a [Uuid] come from libraries: they are the
    variables [to_json], [from_json], [trust_to_json] and [uuid_str]. *)
From Stdlib Require Import Ascii.
From S2P Require Import Prelude BTree Float64 LinkProtocol LinkSync LinkStores IpcTypes.

(** ** Configuration *)
Record RuntimeLinkConfig := MkRuntimeLinkConfig {
  rc_enabled : bool;
  rc_listen_address : string;
  rc_discovery : bool;
  rc_pairing_mode : bool;
  rc_trusted_nodes : list string;
  rc_transport_prefer : string;
  rc_transport_fallback : string;
  rc_preferred_codec : string;
  rc_max_fps : N;
  rc_idle_fps : N;
  rc_max_bitrate_mbps : N;
  rc_stream_only_visible : bool;
  rc_stale_frame_timeout_ms : N;
  rc_restore_last_session : bool;
  rc_unlink_policy : string;
  rc_remote_tile_placeholder : bool;
  rc_animate_link_transition : bool;
  rc_forward_keyboard : bool;
  rc_forward_pointer : bool;
  rc_forward_scroll : bool;
  rc_forward_touch : bool;
  rc_forward_tablet : bool;
  rc_remote_focus_follows_pointer : bool
}.

(** ** Persisted sessions *)
Record PersistedSession := MkPersistedSession {
  ps_version : N;
  ps_session_id : SessionId;
  ps_generation : N;
  ps_participants : list NodeId;
  ps_trusted_fingerprints : list string;
  ps_global_layout : GlobalWorkspace;
  ps_per_node_owned_tile_order : list (NodeId * list Uuid);
  ps_timestamp_millis : N
}.

(** ** Manager state *)
Record LinkPeerState := MkLinkPeerState {
  lp_node_id : NodeId;
  lp_hostname : string;
  lp_addr : option string;
  lp_fingerprint : string;
  lp_connected : bool
}.

Definition set_lp_connected (x : bool) (r : LinkPeerState) : LinkPeerState :=
  MkLinkPeerState r.(lp_node_id) r.(lp_hostname) r.(lp_addr) r.(lp_fingerprint) x.

Record LinkedSession := MkLinkedSession {
  ls_workspace : GlobalWorkspace;
  ls_log : OperationLog
}.

Definition set_ls_workspace (x : GlobalWorkspace) (r : LinkedSession) : LinkedSession :=
  MkLinkedSession x r.(ls_log).

Definition set_ls_log (x : OperationLog) (r : LinkedSession) : LinkedSession :=
  MkLinkedSession r.(ls_workspace) x.

Record LinkManager := MkLinkManager {
  lm_config : RuntimeLinkConfig;
  lm_local_node_id : NodeId;
  lm_hostname : string;
  lm_fingerprint : string;
  lm_enabled : bool;
  lm_pairing_mode : bool;
  lm_current_session : option LinkedSession;
  lm_discovered : DiscoveryState;
  lm_peers : gmap NodeId LinkPeerState;
  lm_remote_tiles : gmap Uuid RemoteTile;
  lm_transport : TransportState;
  lm_trust_store : TrustStore;
  lm_listen_port : N;
  lm_discovery_handle : bool;
  lm_discovery_queue : list DiscoveredPeer;
  lm_next_nonce : N
}.

Definition set_lm_enabled (x : bool) (r : LinkManager) : LinkManager :=
  MkLinkManager r.(lm_config) r.(lm_local_node_id) r.(lm_hostname) r.(lm_fingerprint)
    x r.(lm_pairing_mode) r.(lm_current_session) r.(lm_discovered)
    r.(lm_peers) r.(lm_remote_tiles) r.(lm_transport) r.(lm_trust_store)
    r.(lm_listen_port) r.(lm_discovery_handle) r.(lm_discovery_queue)
    r.(lm_next_nonce).

Definition set_lm_pairing_mode (x : bool) (r : LinkManager) : LinkManager :=
  MkLinkManager r.(lm_config) r.(lm_local_node_id) r.(lm_hostname) r.(lm_fingerprint)
    r.(lm_enabled) x r.(lm_current_session) r.(lm_discovered) r.(lm_peers)
    r.(lm_remote_tiles) r.(lm_transport) r.(lm_trust_store)
    r.(lm_listen_port) r.(lm_discovery_handle) r.(lm_discovery_queue)
    r.(lm_next_nonce).

Definition set_lm_current_session (x : option LinkedSession) (r : LinkManager) : LinkManager :=
  MkLinkManager r.(lm_config) r.(lm_local_node_id) r.(lm_hostname) r.(lm_fingerprint)
    r.(lm_enabled) r.(lm_pairing_mode) x r.(lm_discovered) r.(lm_peers)
    r.(lm_remote_tiles) r.(lm_transport) r.(lm_trust_store)
    r.(lm_listen_port) r.(lm_discovery_handle) r.(lm_discovery_queue)
    r.(lm_next_nonce).

Definition set_lm_discovered (x : DiscoveryState) (r : LinkManager) : LinkManager :=
  MkLinkManager r.(lm_config) r.(lm_local_node_id) r.(lm_hostname) r.(lm_fingerprint)
    r.(lm_enabled) r.(lm_pairing_mode) r.(lm_current_session) x
    r.(lm_peers) r.(lm_remote_tiles) r.(lm_transport) r.(lm_trust_store)
    r.(lm_listen_port) r.(lm_discovery_handle) r.(lm_discovery_queue)
    r.(lm_next_nonce).

Definition set_lm_peers (x : gmap NodeId LinkPeerState) (r : LinkManager) : LinkManager :=
  MkLinkManager r.(lm_config) r.(lm_local_node_id) r.(lm_hostname) r.(lm_fingerprint)
    r.(lm_enabled) r.(lm_pairing_mode) r.(lm_current_session)
    r.(lm_discovered) x r.(lm_remote_tiles) r.(lm_transport)
    r.(lm_trust_store) r.(lm_listen_port) r.(lm_discovery_handle)
    r.(lm_discovery_queue) r.(lm_next_nonce).

Definition set_lm_remote_tiles (x : gmap Uuid RemoteTile) (r : LinkManager) : LinkManager :=
  MkLinkManager r.(lm_config) r.(lm_local_node_id) r.(lm_hostname) r.(lm_fingerprint)
    r.(lm_enabled) r.(lm_pairing_mode) r.(lm_current_session)
    r.(lm_discovered) r.(lm_peers) x r.(lm_transport) r.(lm_trust_store)
    r.(lm_listen_port) r.(lm_discovery_handle) r.(lm_discovery_queue)
    r.(lm_next_nonce).

Definition set_lm_transport (x : TransportState) (r : LinkManager) : LinkManager :=
  MkLinkManager r.(lm_config) r.(lm_local_node_id) r.(lm_hostname) r.(lm_fingerprint)
    r.(lm_enabled) r.(lm_pairing_mode) r.(lm_current_session)
    r.(lm_discovered) r.(lm_peers) r.(lm_remote_tiles) x
    r.(lm_trust_store) r.(lm_listen_port) r.(lm_discovery_handle)
    r.(lm_discovery_queue) r.(lm_next_nonce).

Definition set_lm_trust_store (x : TrustStore) (r : LinkManager) : LinkManager :=
  MkLinkManager r.(lm_config) r.(lm_local_node_id) r.(lm_hostname) r.(lm_fingerprint)
    r.(lm_enabled) r.(lm_pairing_mode) r.(lm_current_session)
    r.(lm_discovered) r.(lm_peers) r.(lm_remote_tiles) r.(lm_transport) x
    r.(lm_listen_port) r.(lm_discovery_handle) r.(lm_discovery_queue)
    r.(lm_next_nonce).

Definition set_lm_listen_port (x : N) (r : LinkManager) : LinkManager :=
  MkLinkManager r.(lm_config) r.(lm_local_node_id) r.(lm_hostname) r.(lm_fingerprint)
    r.(lm_enabled) r.(lm_pairing_mode) r.(lm_current_session)
    r.(lm_discovered) r.(lm_peers) r.(lm_remote_tiles) r.(lm_transport)
    r.(lm_trust_store) x r.(lm_discovery_handle) r.(lm_discovery_queue)
    r.(lm_next_nonce).

Definition set_lm_discovery_handle (x : bool) (r : LinkManager) : LinkManager :=
  MkLinkManager r.(lm_config) r.(lm_local_node_id) r.(lm_hostname) r.(lm_fingerprint)
    r.(lm_enabled) r.(lm_pairing_mode) r.(lm_current_session)
    r.(lm_discovered) r.(lm_peers) r.(lm_remote_tiles) r.(lm_transport)
    r.(lm_trust_store) r.(lm_listen_port) x r.(lm_discovery_queue)
    r.(lm_next_nonce).

Definition set_lm_discovery_queue (x : list DiscoveredPeer) (r : LinkManager) : LinkManager :=
  MkLinkManager r.(lm_config) r.(lm_local_node_id) r.(lm_hostname) r.(lm_fingerprint)
    r.(lm_enabled) r.(lm_pairing_mode) r.(lm_current_session)
    r.(lm_discovered) r.(lm_peers) r.(lm_remote_tiles) r.(lm_transport)
    r.(lm_trust_store) r.(lm_listen_port) r.(lm_discovery_handle) x
    r.(lm_next_nonce).

Definition set_lm_next_nonce (x : N) (r : LinkManager) : LinkManager :=
  MkLinkManager r.(lm_config) r.(lm_local_node_id) r.(lm_hostname) r.(lm_fingerprint)
    r.(lm_enabled) r.(lm_pairing_mode) r.(lm_current_session)
    r.(lm_discovered) r.(lm_peers) r.(lm_remote_tiles) r.(lm_transport)
    r.(lm_trust_store) r.(lm_listen_port) r.(lm_discovery_handle)
    r.(lm_discovery_queue) x.

(** ** Environment *)
Record World := MkWorld {
  w_uuids : nat → Uuid;
  w_next_uuid : nat;
  w_times : nat → N;
  w_next_time : nat;
  w_dirs_ok : bool;
  w_write_ok : bool;
  w_sessions : list (string * option string);
  w_trusted : option string;
  w_sent : list PendingMessage
}.

Definition set_w_next_uuid (x : nat) (r : World) : World :=
  MkWorld r.(w_uuids) x r.(w_times) r.(w_next_time) r.(w_dirs_ok) r.(w_write_ok)
    r.(w_sessions) r.(w_trusted) r.(w_sent).

Definition set_w_next_time (x : nat) (r : World) : World :=
  MkWorld r.(w_uuids) r.(w_next_uuid) r.(w_times) x r.(w_dirs_ok) r.(w_write_ok)
    r.(w_sessions) r.(w_trusted) r.(w_sent).

Definition set_w_sessions (x : list (string * option string)) (r : World) : World :=
  MkWorld r.(w_uuids) r.(w_next_uuid) r.(w_times) r.(w_next_time) r.(w_dirs_ok)
    r.(w_write_ok) x r.(w_trusted) r.(w_sent).

Definition set_w_trusted (x : option string) (r : World) : World :=
  MkWorld r.(w_uuids) r.(w_next_uuid) r.(w_times) r.(w_next_time) r.(w_dirs_ok)
    r.(w_write_ok) r.(w_sessions) x r.(w_sent).

Definition set_w_sent (x : list PendingMessage) (r : World) : World :=
  MkWorld r.(w_uuids) r.(w_next_uuid) r.(w_times) r.(w_next_time) r.(w_dirs_ok)
    r.(w_write_ok) r.(w_sessions) r.(w_trusted) x.

Record Sys := MkSys { mgr : LinkManager; world : World }.

Definition set_mgr (m : LinkManager) (s : Sys) : Sys := MkSys m s.(world).
Definition on_mgr (f : LinkManager → LinkManager) (s : Sys) : Sys := MkSys (f s.(mgr)) s.(world).

(** [Uuid::new_v4()]. *)
Definition new_v4 (s : Sys) : Uuid * Sys :=
  (s.(world).(w_uuids) s.(world).(w_next_uuid),
   MkSys s.(mgr) (set_w_next_uuid (S s.(world).(w_next_uuid)) s.(world))).

(** [now_millis()]. *)
Definition now_millis (s : Sys) : N * Sys :=
  (s.(world).(w_times) s.(world).(w_next_time),
   MkSys s.(mgr) (set_w_next_time (S s.(world).(w_next_time)) s.(world))).

(** [self.transport.drain()]: the queued messages go to the network. *)
Definition transport_drain (s : Sys) : Sys :=
  let r := drain s.(mgr).(lm_transport) in
  MkSys (set_lm_transport r.2 s.(mgr)) (set_w_sent (s.(world).(w_sent) ++ r.1) s.(world)).

Definition transport_enqueue (addr : string) (envelope : Envelope) : Sys → Sys :=
  on_mgr (λ m, set_lm_transport (enqueue m.(lm_transport) addr envelope) m).

(** Write to the current session, when there is one. *)
Definition on_session (f : LinkedSession → LinkedSession) (m : LinkManager) : LinkManager :=
  match m.(lm_current_session) with
  | Some session => set_lm_current_session (Some (f session)) m
  | None => m
  end.

Definition on_workspace (f : GlobalWorkspace → GlobalWorkspace) : LinkManager → LinkManager :=
  on_session (λ session, set_ls_workspace (f session.(ls_workspace)) session).

(** ** File names

    [Path::extension] of a file name: what follows the last dot, when something
    precedes it. *)
Fixpoint split_last_dot (s : string) : option (string * string) :=
  match s with
  | EmptyString => None
  | String c s' =>
      match split_last_dot s' with
      | Some (stem, ext) => Some (String c stem, ext)
      | None => if bool_decide (c = "."%char) then Some (EmptyString, s') else None
      end
  end.

Definition extension (name : string) : option string :=
  match split_last_dot name with
  | Some (EmptyString, _) | None => None
  | Some (_, ext) => Some ext
  end.

(** [fs::write]: replace the file, or create it. *)
Definition write_file (name content : string) (files : list (string * option string)) :
    list (string * option string) :=
  match update_first (λ f, bool_decide (f.1 = name)) (λ f, (f.1, Some content)) files with
  | Some files => files
  | None => files ++ [(name, Some content)]
  end.

(** The state of the loops of [sync_local_tiles]. *)
Record SyncState := MkSyncState {
  ss_ws : GlobalWorkspace;
  ss_remote : gmap Uuid RemoteTile;
  ss_changed : bool
}.

Section link_manager.
Context (to_json : PersistedSession → option string).
Context (from_json : string → option PersistedSession).
Context (trust_to_json : TrustStore → option string).
Context (uuid_str : Uuid → string).

(** ** Persistence *)
Definition session_file (session_id : SessionId) : string :=
  (uuid_str session_id +:+ ".json")%string.

Definition ensure_dirs (w : World) : bool := w.(w_dirs_ok).

Definition load_session (w : World) (session_id : SessionId) : option PersistedSession :=
  match List.find (λ f, bool_decide (f.1 = session_file session_id)) w.(w_sessions) with
  | Some (_, Some content) => from_json content
  | _ => None
  end.

(** The loop body of [load_sessions]: files with another extension, unreadable
    files and files that do not parse are skipped. *)
Definition session_of_entry (entry : string * option string) : option PersistedSession :=
  if bool_decide (extension entry.1 = Some "json"%string) then
    match entry.2 with
    | Some content => from_json content
    | None => None
    end
  else None.

Definition timestamp_leb (a b : PersistedSession) : bool :=
  N.leb a.(ps_timestamp_millis) b.(ps_timestamp_millis).

Definition load_sessions (w : World) : option (list PersistedSession) :=
  if ensure_dirs w then
    Some (stable_sort timestamp_leb (omap session_of_entry w.(w_sessions)))
  else None.

(** [persist_session]; the path it returns on success is not used. *)
Definition persist_session (session : PersistedSession) (w : World) : option unit * World :=
  if ensure_dirs w then
    match to_json session with
    | Some content =>
        if w.(w_write_ok) then
          (Some (), set_w_sessions
                      (write_file (session_file session.(ps_session_id)) content
                         w.(w_sessions)) w)
        else (None, w)
    | None => (None, w)
    end
  else (None, w).

Definition peer_match_score (expected actual : list NodeId) : nat :=
  length (List.filter (λ id, contains id expected) actual).

(** [Iterator::max_by_key]: the last of the greatest elements. *)
Fixpoint max_by_key {A} (key : A → nat) (l : list A) : option A :=
  match l with
  | [] => None
  | x :: l =>
      match max_by_key key l with
      | Some y => if key y <? key x then Some x else Some y
      | None => Some x
      end
  end.

Definition restore_candidate (sessions : list PersistedSession)
    (participants : list NodeId) : option PersistedSession :=
  max_by_key (λ session, peer_match_score session.(ps_participants) participants) sessions.

(** ** Construction and network *)

(** [LinkManager::new]: [trust] and [node] are what loading the trust store and
    the node id from disk yields. *)
Definition LinkManager_new (config : RuntimeLinkConfig) (trust : option TrustStore)
    (node : option NodeId) (fresh : NodeId) (hostname : option string) : LinkManager :=
  let trust_store := default TrustStore_default trust in
  let local_node_id := default fresh node in
  let hostname := default "localhost"%string hostname in
  let fingerprint := ("niri-link:" +:+ uuid_str local_node_id)%string in
  {| lm_config := config;
     lm_local_node_id := local_node_id;
     lm_hostname := hostname;
     lm_fingerprint := fingerprint;
     lm_enabled := config.(rc_enabled);
     lm_pairing_mode := config.(rc_pairing_mode);
     lm_current_session := None;
     lm_discovered := DiscoveryState_default;
     lm_peers := ∅;
     lm_remote_tiles := ∅;
     lm_transport := TransportState_default;
     lm_trust_store := trust_store;
     lm_listen_port := 0;
     lm_discovery_handle := false;
     lm_discovery_queue := [];
     lm_next_nonce := 0 |}.

(** [start_network]: [bound] is the result of binding the listen address, and
    [mdns] whether the discovery daemon starts. *)
Definition start_network (bound : N + string) (mdns : bool) (m : LinkManager) : LinkManager :=
  if N.eqb m.(lm_listen_port) 0 then
    let r := start_listener m.(lm_transport) bound in
    let m := set_lm_transport r.2 m in
    match r.1 with
    | inl port =>
        let m := set_lm_listen_port port m in
        if m.(lm_config).(rc_discovery) && negb m.(lm_discovery_handle)
        then if mdns then set_lm_discovery_handle true m else m
        else m
    | inr _ => m
    end
  else m.

Definition make_envelope (kind : MessageKind) (s : Sys) : Envelope * Sys :=
  let '(session_id, s) :=
    match s.(mgr).(lm_current_session) with
    | Some session => (session.(ls_workspace).(gw_session_id), s)
    | None => new_v4 s
    end in
  let nonce := s.(mgr).(lm_next_nonce) in
  let s := on_mgr (set_lm_next_nonce (wrapping_add_u64 nonce 1)) s in
  let '(now, s) := now_millis s in
  (MkEnvelope PROTOCOL_VERSION session_id s.(mgr).(lm_local_node_id) nonce now kind, s).

Definition send_hello (addr : string) (s : Sys) : Sys :=
  let '(hello, s) :=
    make_envelope (MHello (MkHello s.(mgr).(lm_hostname) s.(mgr).(lm_fingerprint))) s in
  let s := transport_enqueue addr hello s in
  let '(join, s) := make_envelope (MJoinRequest (MkJoinRequest s.(mgr).(lm_hostname) None)) s in
  let s := transport_enqueue addr join s in
  transport_drain s.

(** The addresses of the connected peers, in the order of their ids. *)
Definition connected_addrs (m : LinkManager) : list string :=
  omap lp_addr (List.filter lp_connected (bt_values m.(lm_peers))).

(** One message of the same kind to each address. *)
Definition enqueue_to_all (kind : MessageKind) (addrs : list string) (s : Sys) : Sys :=
  foldl (λ s addr, let '(env, s) := make_envelope kind s in transport_enqueue addr env s)
    s addrs.

Definition broadcast_tile_update (tile : TileMetadata) (s : Sys) : Sys :=
  let addrs := connected_addrs s.(mgr) in
  transport_drain (enqueue_to_all (MTileMetadataUpdate tile) addrs s).

Definition poll_discovery (m : LinkManager) : bool * LinkManager :=
  let new_peers := m.(lm_discovery_queue) in
  let m := set_lm_discovery_queue [] m in
  match new_peers with
  | [] => (false, m)
  | _ => (true, set_lm_discovered
                  (foldl DiscoveryState_upsert m.(lm_discovered) new_peers) m)
  end.

(** ** Sessions *)
Definition enable (s : Sys) : Sys :=
  let s := on_mgr (set_lm_enabled true) s in
  match s.(mgr).(lm_current_session) with
  | Some _ => s
  | None =>
      let '(session_id, s) := new_v4 s in
      let ws := GlobalWorkspace_empty session_id s.(mgr).(lm_local_node_id)
                  s.(mgr).(lm_hostname) s.(mgr).(lm_fingerprint) in
      on_mgr (set_lm_current_session (Some (MkLinkedSession ws OperationLog_default))) s
  end.

Definition send_heartbeat (s : Sys) : Sys :=
  if s.(mgr).(lm_enabled) then
    let '(op_seq, generation) :=
      match s.(mgr).(lm_current_session) with
      | Some session =>
          (session.(ls_workspace).(gw_operation_seq), session.(ls_workspace).(gw_generation))
      | None => (0%N, 0%N)
      end in
    let addrs := connected_addrs s.(mgr) in
    transport_drain (enqueue_to_all (MHeartbeat (MkHeartbeat op_seq generation)) addrs s)
  else s.

Definition is_stale (local : NodeId) (now timeout_ms : N) (p : Participant) : bool :=
  negb (N.eqb p.(pa_node_id) local) && (0 <? p.(pa_last_seen_millis))%N &&
  (timeout_ms <? saturating_sub now p.(pa_last_seen_millis))%N.

(** The loop over the stale nodes: mark a connected peer as disconnected. *)
Definition disconnect_peer (st : bool * gmap NodeId LinkPeerState) (node_id : NodeId) :
    bool * gmap NodeId LinkPeerState :=
  match st.2 !! node_id with
  | Some peer =>
      if peer.(lp_connected) then (true, <[node_id := set_lp_connected false peer]> st.2)
      else st
  | None => st
  end.

Definition check_peer_timeouts (timeout_ms : N) (s : Sys) : bool * Sys :=
  if s.(mgr).(lm_enabled) then
    let '(now, s) := now_millis s in
    let stale_node_ids :=
      match s.(mgr).(lm_current_session) with
      | Some session =>
          pa_node_id <$>
            List.filter (is_stale s.(mgr).(lm_local_node_id) now timeout_ms)
              (bt_values session.(ls_workspace).(gw_participants))
      | None => []
      end in
    let r := foldl disconnect_peer (false, s.(mgr).(lm_peers)) stale_node_ids in
    (r.1, on_mgr (set_lm_peers r.2) s)
  else (false, s).

Definition touch_participant (node_id : NodeId) (s : Sys) : Sys :=
  match s.(mgr).(lm_current_session) with
  | Some session =>
      match session.(ls_workspace).(gw_participants) !! node_id with
      | Some participant =>
          let '(now, s) := now_millis s in
          on_mgr (on_workspace (λ ws,
            set_gw_participants
              (<[node_id := set_pa_last_seen_millis now participant]> ws.(gw_participants)) ws)) s
      | None => s
      end
  | None => s
  end.

(** The tiles of a node in layout order, [per_node_owned_tile_order]. *)
Definition owned_tiles (ws : GlobalWorkspace) (node_id : NodeId) : list TileId :=
  List.filter (λ tile_id,
      match ws.(gw_tiles) !! tile_id with
      | Some tile => N.eqb tile.(tm_owner_node_id) node_id
      | None => false
      end)
    (mjoin (bt_values (ordered_column_tiles ws))).

Definition persisted_of (m : LinkManager) (session : LinkedSession) (now : N) : PersistedSession :=
  let ws := session.(ls_workspace) in
  {| ps_version := 1;
     ps_session_id := ws.(gw_session_id);
     ps_generation := ws.(gw_generation);
     ps_participants := bt_keys ws.(gw_participants);
     ps_trusted_fingerprints := tn_fingerprint <$> m.(lm_trust_store).(ts_nodes);
     ps_global_layout := ws;
     ps_per_node_owned_tile_order :=
       (λ node_id, (node_id, owned_tiles ws node_id)) <$> bt_keys ws.(gw_participants);
     ps_timestamp_millis := now |}.

Definition persist_current_session (s : Sys) : option (option SessionId) * Sys :=
  match s.(mgr).(lm_current_session) with
  | None => (Some None, s)
  | Some session =>
      let '(now, s) := now_millis s in
      let persisted := persisted_of s.(mgr) session now in
      let '(r, w) := persist_session persisted s.(world) in
      let s := MkSys s.(mgr) w in
      match r with
      | Some _ => (Some (Some persisted.(ps_session_id)), s)
      | None => (None, s)
      end
  end.

Definition disable (s : Sys) : option SessionId * Sys :=
  let s := on_mgr (set_lm_enabled false) s in
  let session_id :=
    (λ it, it.(ls_workspace).(gw_session_id)) <$> s.(mgr).(lm_current_session) in
  let s := (persist_current_session s).2 in
  (session_id, on_mgr (set_lm_remote_tiles ∅) s).

Definition toggle (s : Sys) : Sys :=
  if s.(mgr).(lm_enabled) then (disable s).2 else enable s.

Definition join_addr (addr : string) (s : Sys) : Sys :=
  let s := enable s in
  let '(node_id, s) := new_v4 s in
  let peer := MkLinkPeerState node_id addr (Some addr) "" false in
  on_mgr (λ m, set_lm_peers (<[node_id := peer]> m.(lm_peers)) m) s.

Definition leave (s : Sys) : Sys :=
  on_mgr (set_lm_current_session None) (disable s).2.

(** ** Trust *)

(** [TrustStore::persist]. *)
Definition TrustStore_persist (store : TrustStore) (w : World) : option unit * World :=
  if ensure_dirs w then
    match trust_to_json store with
    | Some content =>
        if w.(w_write_ok) then (Some (), set_w_trusted (Some content) w) else (None, w)
    | None => (None, w)
    end
  else (None, w).

Definition persist_trust (s : Sys) : option unit * Sys :=
  let '(r, w) := TrustStore_persist s.(mgr).(lm_trust_store) s.(world) in
  (r, MkSys s.(mgr) w).

Definition LinkManager_pair (node : option string) (s : Sys) : option unit * Sys :=
  match node with
  | Some node =>
      persist_trust (on_mgr (λ m, set_lm_trust_store
        (TrustStore_trust m.(lm_trust_store) node node) m) s)
  | None => (Some (), on_mgr (set_lm_pairing_mode true) s)
  end.

Definition unpair (node : string) (s : Sys) : option unit * Sys :=
  persist_trust (on_mgr (λ m, set_lm_trust_store
    (TrustStore_forget m.(lm_trust_store) node) m) s).

Definition trust_node (node : string) (s : Sys) : option unit * Sys :=
  persist_trust (on_mgr (λ m, set_lm_trust_store
    (TrustStore_trust m.(lm_trust_store) node node) m) s).

Definition forget_node (node : string) (s : Sys) : option unit * Sys := unpair node s.

Definition set_leader (node : NodeId) (m : LinkManager) : LinkManager :=
  on_workspace (λ ws, set_gw_generation (next_generation ws.(gw_generation))
                        (set_gw_leader_node_id node ws)) m.

(** ** Restoring *)
Definition restore_session (session_id : SessionId) (s : Sys) : option bool * Sys :=
  match load_sessions s.(world) with
  | None => (None, s)
  | Some sessions =>
      match List.find (λ it, N.eqb it.(ps_session_id) session_id) sessions with
      | Some found =>
          let session := MkLinkedSession found.(ps_global_layout) OperationLog_default in
          (Some true,
           on_mgr (λ m, set_lm_enabled true (set_lm_current_session (Some session) m)) s)
      | None => (Some false, s)
      end
  end.

Definition restore_best_session (s : Sys) : option (option SessionId) * Sys :=
  match load_sessions s.(world) with
  | None => (None, s)
  | Some sessions =>
      let participants := bt_keys s.(mgr).(lm_peers) ++ [s.(mgr).(lm_local_node_id)] in
      match restore_candidate sessions participants with
      | None => (Some None, s)
      | Some found =>
          let session := MkLinkedSession found.(ps_global_layout) OperationLog_default in
          (Some (Some found.(ps_session_id)),
           on_mgr (λ m, set_lm_enabled true (set_lm_current_session (Some session) m)) s)
      end
  end.

(** ** Layout operations *)
Definition apply_layout_op (kind : LayoutOpKind) (m : LinkManager) : option N * LinkManager :=
  match m.(lm_current_session) with
  | None => (None, m)
  | Some session =>
      let next_seq := saturating_add_u64 (last_seq session.(ls_log)) 1 in
      let op := MkLayoutOp next_seq m.(lm_local_node_id)
                  session.(ls_workspace).(gw_generation) kind in
      let session := MkLinkedSession (apply_op session.(ls_workspace) op)
                       (OperationLog_push session.(ls_log) op) in
      (Some next_seq, set_lm_current_session (Some session) m)
  end.

Definition upsert_local_viewport (viewport : Viewport) (s : Sys) : Sys :=
  on_mgr (λ m, (apply_layout_op (SetViewport viewport) m).2) (enable s).

Definition upsert_local_tile (tile : TileMetadata) (index : nat) (s : Sys) : Sys :=
  on_mgr (λ m, (apply_layout_op (InsertTile tile index) m).2) (enable s).

Definition close_tile (tile_id : Uuid) (m : LinkManager) : LinkManager :=
  let m := (apply_layout_op (RemoveTile tile_id) m).2 in
  set_lm_remote_tiles (delete tile_id m.(lm_remote_tiles)) m.

Definition refresh_leader (m : LinkManager) : LinkManager :=
  on_workspace (λ ws,
    set_gw_leader_node_id
      (default m.(lm_local_node_id) (choose_leader (bt_values ws.(gw_participants)))) ws) m.

(** The common tail of [add_remote_tile] and [update_remote_tile]. *)
Definition session_insert_tile (tile : TileMetadata) : LinkManager → LinkManager :=
  on_workspace (λ ws,
    set_gw_tiles (<[tile.(tm_tile_id) := tile]> ws.(gw_tiles))
      (set_gw_columns (push_unique tile.(tm_column_id) ws.(gw_columns)) ws)).

Definition add_remote_tile (tile : TileMetadata) (s : Sys) : Sys :=
  let s := enable s in
  on_mgr (λ m, session_insert_tile tile
    (set_lm_remote_tiles
       (<[tile.(tm_tile_id) := RemoteTile_new tile]> m.(lm_remote_tiles)) m)) s.

Definition update_remote_tile (tile : TileMetadata) (s : Sys) : Sys :=
  let s := enable s in
  on_mgr (λ m,
    let remote :=
      match m.(lm_remote_tiles) !! tile.(tm_tile_id) with
      | Some remote => update_metadata remote tile
      | None => RemoteTile_new tile
      end in
    session_insert_tile tile
      (set_lm_remote_tiles (<[tile.(tm_tile_id) := remote]> m.(lm_remote_tiles)) m)) s.

(** [purge_stale_remote_tiles]. *)
Definition purge_stale_remote_tiles (timeout_ms : N) (s : Sys) : list Uuid * Sys :=
  if s.(mgr).(lm_enabled) then
    let '(now, s) := now_millis s in
    let disconnected_nodes : gset NodeId :=
      list_to_set (lp_node_id <$> List.filter (λ p, negb p.(lp_connected))
                                    (bt_values s.(mgr).(lm_peers))) in
    let stale_tile_ids :=
      (λ t, t.(rt_metadata).(tm_tile_id)) <$>
        List.filter (λ t,
          bool_decide (t.(rt_metadata).(tm_owner_node_id) ∈ disconnected_nodes) &&
          (timeout_ms <? saturating_sub now t.(rt_metadata).(tm_last_known_alive_millis))%N)
          (bt_values s.(mgr).(lm_remote_tiles)) in
    (stale_tile_ids, on_mgr (λ m, foldl (λ m id, close_tile id m) m stale_tile_ids) s)
  else ([], s).

(** ** Incoming messages

    The arms of [process_incoming]: the new state and whether a
    layout-relevant message was handled. [None] is a panic. *)
Definition handle_hello (sender : string) (node_id : NodeId) (hello : Hello) (s : Sys) : Sys :=
  let peer := {| lp_node_id := node_id; lp_hostname := hello.(hello_hostname);
                 lp_addr := Some sender; lp_fingerprint := hello.(hello_fingerprint);
                 lp_connected := true |} in
  on_mgr (λ m, set_lm_peers (<[node_id := peer]> m.(lm_peers)) m) s.

Definition connect_peer (node_id : NodeId) (m : LinkManager) : LinkManager :=
  set_lm_peers (alter (set_lp_connected true) node_id m.(lm_peers)) m.

Definition handle_join_request (sender : string) (node_id : NodeId) (s : Sys) : Sys :=
  let s := on_mgr (connect_peer node_id) s in
  let accept :=
    match s.(mgr).(lm_current_session) with
    | Some session =>
        MkJoinAccept session.(ls_workspace).(gw_leader_node_id)
          session.(ls_workspace).(gw_generation) session.(ls_workspace).(gw_operation_seq)
    | None => MkJoinAccept s.(mgr).(lm_local_node_id) 0 0
    end in
  let '(accept, s) := make_envelope (MJoinAccept accept) s in
  transport_drain (transport_enqueue sender accept s).

Definition handle_join_accept (accept : JoinAccept) : Sys → Sys :=
  on_mgr (on_workspace (λ ws,
    set_gw_generation accept.(ja_generation)
      (set_gw_leader_node_id accept.(ja_leader_node_id) ws))).

Definition handle_viewport_update (viewport : Viewport) : Sys → Sys :=
  on_mgr (on_workspace (λ ws,
    set_gw_per_node_viewports
      (entry_push viewport.(vp_node_id) viewport ws.(gw_per_node_viewports)) ws)).

Definition handle_focus_update (focused_tile : option TileId) : Sys → Sys :=
  on_mgr (on_workspace (set_gw_focused_tile focused_tile)).

Definition handle_layout_op (op : LayoutOp) : Sys → Sys :=
  on_mgr (on_session (λ session,
    MkLinkedSession (apply_op session.(ls_workspace) op)
      (OperationLog_push session.(ls_log) op))).

(** The merge loop of a snapshot: tiles of other nodes that are not known yet. *)
Definition merge_remote_tile (local : NodeId) (m : gmap Uuid RemoteTile)
    (entry : Uuid * TileMetadata) : gmap Uuid RemoteTile :=
  if N.eqb entry.2.(tm_owner_node_id) local then m
  else match m !! entry.1 with
       | Some _ => m
       | None => <[entry.1 := RemoteTile_new entry.2]> m
       end.

Definition handle_global_snapshot (ws : GlobalWorkspace) (s : Sys) : Sys :=
  match s.(mgr).(lm_current_session) with
  | None => s
  | Some session =>
      on_mgr (λ m,
        set_lm_current_session (Some (set_ls_workspace ws session))
          (set_lm_remote_tiles
             (foldl (merge_remote_tile m.(lm_local_node_id)) m.(lm_remote_tiles)
                (bt_to_list ws.(gw_tiles))) m)) s
  end.

(** The gap test computes [operation_seq + 1], which is checked for overflow. *)
Definition handle_heartbeat (node_id : NodeId) (hb : Heartbeat) (s : Sys) : option Sys :=
  let s := on_mgr (connect_peer node_id) s in
  let s := touch_participant node_id s in
  match s.(mgr).(lm_current_session) with
  | Some session =>
      if (session.(ls_workspace).(gw_operation_seq) <? u64_max)%N then Some s else None
  | None => Some s
  end.

Definition handle_disable_link (persist : bool) (s : Sys) : Sys :=
  let s := if persist then (persist_current_session s).2 else s in
  (disable s).2.

Definition has_session (s : Sys) : bool :=
  match s.(mgr).(lm_current_session) with Some _ => true | None => false end.

Definition handle_message (changed : bool) (s : Sys) (msg : IncomingMessage) :
    option (bool * Sys) :=
  let sender := msg.(im_peer_addr) in
  let node_id := msg.(im_envelope).(env_sender_node_id) in
  match msg.(im_envelope).(env_kind) with
  | MHello hello => Some (changed, handle_hello sender node_id hello s)
  | MJoinRequest _ => Some (changed, handle_join_request sender node_id s)
  | MJoinAccept accept => Some (true, handle_join_accept accept s)
  | MTileMetadataUpdate tile => Some (true, update_remote_tile tile s)
  | MTileClosed tile_id => Some (true, on_mgr (close_tile tile_id) s)
  | MViewportUpdate viewport => Some (true, handle_viewport_update viewport s)
  | MFocusUpdate focused_tile => Some (true, handle_focus_update focused_tile s)
  | MLayoutOp op => Some (changed || has_session s, handle_layout_op op s)
  | MGlobalSnapshot ws => Some (changed || has_session s, handle_global_snapshot ws s)
  | MHeartbeat hb => (λ s, (changed, s)) <$> handle_heartbeat node_id hb s
  | MDisableLink persist => Some (true, handle_disable_link persist s)
  | _ => Some (changed, s)
  end.

Fixpoint handle_messages (changed : bool) (s : Sys) (msgs : list IncomingMessage) :
    option (bool * Sys) :=
  match msgs with
  | [] => Some (changed, s)
  | msg :: msgs =>
      match handle_message changed s msg with
      | Some (changed, s) => handle_messages changed s msgs
      | None => None
      end
  end.

Definition process_incoming (s : Sys) : option (bool * Sys) :=
  let '(messages, transport) := drain_incoming s.(mgr).(lm_transport) in
  let s := on_mgr (set_lm_transport transport) s in
  handle_messages false s messages.

(** ** Local state *)

(** [ensure_local_participant] panics when there is no session after [enable]. *)
Definition ensure_local_participant (s : Sys) : option Sys :=
  let s := enable s in
  match s.(mgr).(lm_current_session) with
  | None => None
  | Some _ =>
      let '(now, s) := now_millis s in
      let p := MkParticipant s.(mgr).(lm_local_node_id) s.(mgr).(lm_hostname)
                 s.(mgr).(lm_fingerprint) now in
      Some (on_mgr (on_workspace (λ ws,
              set_gw_participants
                (<[s.(mgr).(lm_local_node_id) := p]> ws.(gw_participants)) ws)) s)
  end.

(** The comparison of [sync_local_viewports]. *)
Definition viewport_order_leb (a b : Viewport) : bool :=
  if f64_total_eqb a.(vp_global_x) b.(vp_global_x) then
    if f64_total_eqb a.(vp_global_y) b.(vp_global_y) then
      String.leb a.(vp_output_name) b.(vp_output_name)
    else f64_total_leb a.(vp_global_y) b.(vp_global_y)
  else f64_total_leb a.(vp_global_x) b.(vp_global_x).

Definition viewports_differ (current : option (list Viewport)) (viewports : list Viewport) : bool :=
  match current with
  | Some current => negb (viewports_eqb current viewports)
  | None => true
  end.

Definition sync_local_viewports (viewports : list Viewport) (s : Sys) : option (bool * Sys) :=
  if s.(mgr).(lm_enabled) then
    match ensure_local_participant s with
    | None => None
    | Some s =>
        match s.(mgr).(lm_current_session) with
        | None => None
        | Some session =>
            let viewports := stable_sort viewport_order_leb viewports in
            let local := s.(mgr).(lm_local_node_id) in
            let ws := session.(ls_workspace) in
            let changed :=
              viewports_differ (ws.(gw_per_node_viewports) !! local) viewports ||
              viewports_differ (ws.(gw_per_node_outputs) !! local) viewports in
            let s :=
              if changed then
                on_mgr (on_workspace (λ ws,
                  set_gw_per_node_outputs (<[local := viewports]> ws.(gw_per_node_outputs))
                    (set_gw_per_node_viewports
                       (<[local := viewports]> ws.(gw_per_node_viewports)) ws))) s
              else s in
            Some (changed, s)
        end
    end
  else Some (false, s).

Definition sync_remove (desired_ids : gset TileId) (st : SyncState) (tile_id : TileId) :
    SyncState :=
  if bool_decide (tile_id ∈ desired_ids) then st
  else
    let ws := set_gw_tiles (delete tile_id st.(ss_ws).(gw_tiles)) st.(ss_ws) in
    let ws := if decide (ws.(gw_focused_tile) = Some tile_id)
              then set_gw_focused_tile None ws else ws in
    MkSyncState ws (delete tile_id st.(ss_remote)) true.

Definition sync_insert (st : SyncState) (tile : TileMetadata) : SyncState :=
  if decide (st.(ss_ws).(gw_tiles) !! tile.(tm_tile_id) = Some tile) then st
  else
    MkSyncState
      (set_gw_tiles (<[tile.(tm_tile_id) := tile]> st.(ss_ws).(gw_tiles)) st.(ss_ws))
      st.(ss_remote) true.

(** The columns after a change: columns with remote tiles keep their place,
    local columns follow in the order of the local tiles. *)
Definition sync_columns (local : NodeId) (ws : GlobalWorkspace) (local_columns : list ColumnId) :
    list ColumnId :=
  let used_remote_columns : gset ColumnId :=
    list_to_set (tm_column_id <$> List.filter
      (λ t, negb (N.eqb t.(tm_owner_node_id) local)) (bt_values ws.(gw_tiles))) in
  foldl (λ cols c, push_unique c cols)
    (List.filter (λ c, bool_decide (c ∈ used_remote_columns)) ws.(gw_columns))
    local_columns.

Definition sync_tiles (local : NodeId) (tiles : list TileMetadata) (ws : GlobalWorkspace)
    (remote : gmap Uuid RemoteTile) : SyncState :=
  let desired_ids : gset TileId := list_to_set (tm_tile_id <$> tiles) in
  let existing_local_ids :=
    tm_tile_id <$> List.filter (λ t, N.eqb t.(tm_owner_node_id) local)
                     (bt_values ws.(gw_tiles)) in
  let st := foldl (sync_remove desired_ids) (MkSyncState ws remote false) existing_local_ids in
  let local_columns := foldl (λ cols t, push_unique t.(tm_column_id) cols) [] tiles in
  let st := foldl sync_insert st tiles in
  if st.(ss_changed) then
    MkSyncState (set_gw_columns (sync_columns local st.(ss_ws) local_columns) st.(ss_ws))
      st.(ss_remote) true
  else st.

Definition sync_local_tiles (tiles : list TileMetadata) (s : Sys) : option (bool * Sys) :=
  if s.(mgr).(lm_enabled) then
    match ensure_local_participant s with
    | None => None
    | Some s =>
        match s.(mgr).(lm_current_session) with
        | None => None
        | Some session =>
            let st := sync_tiles s.(mgr).(lm_local_node_id) tiles session.(ls_workspace)
                        s.(mgr).(lm_remote_tiles) in
            Some (st.(ss_changed),
                  on_mgr (λ m, set_lm_remote_tiles st.(ss_remote)
                    (set_lm_current_session
                       (Some (set_ls_workspace st.(ss_ws) session)) m)) s)
        end
    end
  else Some (false, s).

Definition sync_focused_tile (focused_tile : option Uuid) (s : Sys) : option (bool * Sys) :=
  if s.(mgr).(lm_enabled) then
    match ensure_local_participant s with
    | None => None
    | Some s =>
        match s.(mgr).(lm_current_session) with
        | None => None
        | Some session =>
            if decide (session.(ls_workspace).(gw_focused_tile) = focused_tile)
            then Some (false, s)
            else Some (true, on_mgr (on_workspace (set_gw_focused_tile focused_tile)) s)
        end
    end
  else Some (false, s).

(** ** Queries *)
Definition status (m : LinkManager) : LinkStatus :=
  let '(session_active, session_id, leader_node_id, operation_seq, generation) :=
    match m.(lm_current_session) with
    | Some session =>
        (true, Some session.(ls_workspace).(gw_session_id),
         Some session.(ls_workspace).(gw_leader_node_id),
         session.(ls_workspace).(gw_operation_seq), session.(ls_workspace).(gw_generation))
    | None => (false, None, None, 0%N, 0%N)
    end in
  {| lst_enabled := m.(lm_enabled);
     lst_session_active := session_active;
     lst_session_id := session_id;
     lst_local_node_id := m.(lm_local_node_id);
     lst_leader_node_id := leader_node_id;
     lst_operation_seq := operation_seq;
     lst_generation := generation;
     lst_peer_count := size m.(lm_peers);
     lst_remote_tile_count := size m.(lm_remote_tiles);
     lst_message := if m.(lm_enabled) then "link enabled" else "link disabled" |}.

Definition peer_list (m : LinkManager) : list LinkPeer :=
  (λ peer,
     {| lpe_node_id := peer.(lp_node_id);
        lpe_hostname := peer.(lp_hostname);
        lpe_addr := peer.(lp_addr);
        lpe_trusted := is_trusted m.(lm_trust_store) peer.(lp_hostname) peer.(lp_fingerprint);
        lpe_connected := peer.(lp_connected);
        lpe_is_leader :=
          match m.(lm_current_session) with
          | Some it => N.eqb it.(ls_workspace).(gw_leader_node_id) peer.(lp_node_id)
          | None => false
          end |}) <$> bt_values m.(lm_peers).

Definition session_summaries (w : World) : list LinkSessionSummary :=
  (λ session,
     {| lss_session_id := session.(ps_session_id);
        lss_generation := session.(ps_generation);
        lss_timestamp := timestamp_of_millis session.(ps_timestamp_millis);
        lss_participants := session.(ps_participants) |}) <$> default [] (load_sessions w).

(** [format!("{:?}", stream_state)]. *)
Definition StreamState_debug (state : StreamState) : string :=
  match state with
  | Pending => "Pending" | Streaming => "Streaming" | Idle => "Idle" | Stale => "Stale"
  | Disconnected => "Disconnected" | PrivacyBlocked => "PrivacyBlocked"
  end.

(** The [LinkRemoteTile] of a tile and its geometry. *)
Definition link_tile (metadata : TileMetadata) (geometry : TileGeometry) (placeholder : bool) :
    LinkRemoteTile :=
  {| lrt_tile_id := metadata.(tm_tile_id);
     lrt_owner_node_id := metadata.(tm_owner_node_id);
     lrt_app_id := metadata.(tm_app_id);
     lrt_title := metadata.(tm_title);
     lrt_pid := metadata.(tm_pid);
     lrt_column_id := metadata.(tm_column_id);
     lrt_logical_x := geometry.(tg_logical_x);
     lrt_logical_y := geometry.(tg_logical_y);
     lrt_logical_width := geometry.(tg_logical_width);
     lrt_logical_height := geometry.(tg_logical_height);
     lrt_stream_state := StreamState_debug metadata.(tm_stream_state);
     lrt_last_known_alive := Some (timestamp_of_millis metadata.(tm_last_known_alive_millis));
     lrt_placeholder := placeholder;
     lrt_disconnected := bool_decide (metadata.(tm_stream_state) = Disconnected) |}.

Definition remote_tiles (m : LinkManager) : list LinkRemoteTile :=
  match m.(lm_current_session) with
  | None => []
  | Some session =>
      let geometries := tile_geometries session.(ls_workspace) in
      omap (λ tile,
        (λ geometry, link_tile tile.(rt_metadata) geometry true) <$>
          List.find (λ it, N.eqb it.(tg_tile_id) tile.(rt_metadata).(tm_tile_id)) geometries)
        (bt_values m.(lm_remote_tiles))
  end.

Definition workspace_tiles (m : LinkManager) : list LinkRemoteTile :=
  match m.(lm_current_session) with
  | None => []
  | Some session =>
      omap (λ geometry,
        (λ metadata, link_tile metadata geometry
           (bool_decide (is_Some (m.(lm_remote_tiles) !! metadata.(tm_tile_id))))) <$>
          session.(ls_workspace).(gw_tiles) !! geometry.(tg_tile_id))
        (tile_geometries session.(ls_workspace))
  end.

Definition link_viewport (viewport : Viewport) : LinkViewport :=
  {| lv_node_id := viewport.(vp_node_id);
     lv_output_name := viewport.(vp_output_name);
     lv_global_x := viewport.(vp_global_x);
     lv_global_y := viewport.(vp_global_y);
     lv_logical_width := viewport.(vp_logical_width);
     lv_logical_height := viewport.(vp_logical_height);
     lv_scale := viewport.(vp_scale);
     lv_transform := viewport.(vp_transform);
     lv_refresh_rate_millihz := viewport.(vp_refresh_rate_millihz) |}.

Definition global_workspace (m : LinkManager) : option LinkGlobalWorkspace :=
  (λ session,
     let ws := session.(ls_workspace) in
     {| lgw_session_id := ws.(gw_session_id);
        lgw_generation := ws.(gw_generation);
        lgw_operation_seq := ws.(gw_operation_seq);
        lgw_leader_node_id := ws.(gw_leader_node_id);
        lgw_participants := bt_keys ws.(gw_participants);
        lgw_focused_tile := ws.(gw_focused_tile);
        lgw_columns := ws.(gw_columns);
        lgw_tiles := workspace_tiles m;
        lgw_viewports := link_viewport <$> mjoin (bt_values ws.(gw_per_node_viewports)) |}) <$>
    m.(lm_current_session).

Definition remote_hit (m : LinkManager) (global_pos : Point) :
    option (Uuid * NodeId * Point) :=
  match m.(lm_current_session) with
  | None => None
  | Some session =>
      match hit_test_tile session.(ls_workspace) global_pos with
      | None => None
      | Some hit =>
          if N.eqb hit.(tg_owner_node_id) m.(lm_local_node_id) then None
          else Some (hit.(tg_tile_id), hit.(tg_owner_node_id),
                     MkPoint (f64_sub global_pos.(pt_x) hit.(tg_logical_x))
                       (f64_sub global_pos.(pt_y) hit.(tg_logical_y)))
      end
  end.

Definition focused_remote_tile (m : LinkManager) : option (Uuid * NodeId) :=
  match m.(lm_current_session) with
  | None => None
  | Some session =>
      match session.(ls_workspace).(gw_focused_tile) with
      | None => None
      | Some tile_id =>
          match session.(ls_workspace).(gw_tiles) !! tile_id with
          | None => None
          | Some tile =>
              if N.eqb tile.(tm_owner_node_id) m.(lm_local_node_id) then None
              else Some (tile_id, tile.(tm_owner_node_id))
          end
      end
  end.
End link_manager.
