(* ===== verification/LinkSession.v ===== *)
(** * Invariants of the link manager

    The operations of [LinkManager] keep a well-formed state, whatever order the
    compositor calls them in and whatever well-formed messages arrive in between:
    [sys_ok] is an invariant of the step relation [link_step]. The second half
    proves what single operations promise: persistence, time-outs, the
    synchronisation of local tiles, sequence numbers and panics. *)
From S2P Require Import Prelude BTree Float64 LinkProtocol LinkSync LinkStores IpcTypes LinkManager.

(** ** Well-formedness *)
Record session_ok (ws : GlobalWorkspace) : Prop := {
  so_workspace : workspace_ok ws;
  so_participants : map_Forall (λ k p, p.(pa_node_id) = k) ws.(gw_participants)
}.

(** A snapshot carries a well-formed workspace; nothing is asked of other messages. *)
Definition message_ok (msg : IncomingMessage) : Prop :=
  match msg.(im_envelope).(env_kind) with
  | MGlobalSnapshot ws => session_ok ws
  | _ => True
  end.

Definition option_session_ok (session : option LinkedSession) : Prop :=
  match session with
  | Some session => session_ok session.(ls_workspace)
  | None => True
  end.

Record manager_ok (m : LinkManager) : Prop := {
  mo_peers : map_Forall (λ k p, p.(lp_node_id) = k) m.(lm_peers);
  mo_remote : map_Forall (λ k t, t.(rt_metadata).(tm_tile_id) = k) m.(lm_remote_tiles);
  mo_session : option_session_ok m.(lm_current_session);
  mo_incoming : Forall message_ok m.(lm_transport).(tr_incoming)
}.

(** Every session file that parses holds a well-formed layout. *)
Definition files_ok (from_json : string → option PersistedSession)
    (files : list (string * option string)) : Prop :=
  Forall (λ f, ∀ content p, f.2 = Some content → from_json content = Some p →
                 session_ok p.(ps_global_layout)) files.

Definition sys_ok (from_json : string → option PersistedSession) (s : Sys) : Prop :=
  manager_ok s.(mgr) ∧ files_ok from_json s.(world).(w_sessions).

(** ** What [serde_json] promises

    A value that was written and can be read is read back, except for its floats: without the feature
    [float_roundtrip] those are read to best effort, and infinities and NaNs, written as [null],
    cannot be read at all.  The floats of a session are those of its viewports. *)
Definition without_floats (v : Viewport) : Viewport :=
  MkViewport v.(vp_node_id) v.(vp_output_name) f64_zero f64_zero f64_zero f64_zero f64_zero v.(vp_transform)
    v.(vp_refresh_rate_millihz).

Definition workspace_without_floats (ws : GlobalWorkspace) : GlobalWorkspace :=
  set_gw_per_node_viewports ((λ l : list Viewport, without_floats <$> l) <$> ws.(gw_per_node_viewports))
    (set_gw_per_node_outputs ((λ l : list Viewport, without_floats <$> l) <$> ws.(gw_per_node_outputs)) ws).

Definition session_without_floats (p : PersistedSession) : PersistedSession :=
  MkPersistedSession p.(ps_version) p.(ps_session_id) p.(ps_generation) p.(ps_participants) p.(ps_trusted_fingerprints)
    (workspace_without_floats p.(ps_global_layout)) p.(ps_per_node_owned_tile_order) p.(ps_timestamp_millis).

Definition reads_back (to_json : PersistedSession → option string) (from_json : string → option PersistedSession) : Prop :=
  ∀ p content p', to_json p = Some content → from_json content = Some p' →
    session_without_floats p' = session_without_floats p.

Lemma reads_back_layout p p' :
  session_without_floats p' = session_without_floats p →
  p'.(ps_session_id) = p.(ps_session_id) ∧
  workspace_without_floats p'.(ps_global_layout) = workspace_without_floats p.(ps_global_layout).
Proof. intros E. split; [exact (f_equal ps_session_id E)|exact (f_equal ps_global_layout E)]. Qed.

Lemma session_ok_floats ws ws' : workspace_without_floats ws' = workspace_without_floats ws → session_ok ws → session_ok ws'.
Proof.
  intros E [[H1 H2] H3]. assert (Et : ws'.(gw_tiles) = ws.(gw_tiles)) by exact (f_equal gw_tiles E).
  assert (Ec : ws'.(gw_columns) = ws.(gw_columns)) by exact (f_equal gw_columns E).
  assert (Ep : ws'.(gw_participants) = ws.(gw_participants)) by exact (f_equal gw_participants E).
  split; [split; unfold keys_ok; by rewrite ?Et, ?Ec|by rewrite Ep].
Qed.

(** ** Preservation *)
Ltac solve_manager_ok :=
  let H := fresh in
  intros H; destruct H; split; simpl; eauto with cidre.

Section manager_ok_lemmas.
Implicit Types (m : LinkManager) (ws : GlobalWorkspace).

Lemma manager_ok_peers P m :
  map_Forall (λ k p, p.(lp_node_id) = k) P → manager_ok m → manager_ok (set_lm_peers P m).
Proof. intros HP. solve_manager_ok. Qed.

Lemma manager_ok_remote R m :
  map_Forall (λ k t, t.(rt_metadata).(tm_tile_id) = k) R →
  manager_ok m → manager_ok (set_lm_remote_tiles R m).
Proof. intros HR. solve_manager_ok. Qed.

Lemma manager_ok_session o m :
  option_session_ok o → manager_ok m → manager_ok (set_lm_current_session o m).
Proof. intros Ho. solve_manager_ok. Qed.

Lemma manager_ok_enabled b m : manager_ok m → manager_ok (set_lm_enabled b m).
Proof. solve_manager_ok. Qed.

Lemma manager_ok_nonce n m : manager_ok m → manager_ok (set_lm_next_nonce n m).
Proof. solve_manager_ok. Qed.

Lemma manager_ok_trust t m : manager_ok m → manager_ok (set_lm_trust_store t m).
Proof. solve_manager_ok. Qed.

Lemma manager_ok_pairing b m : manager_ok m → manager_ok (set_lm_pairing_mode b m).
Proof. solve_manager_ok. Qed.

Lemma manager_ok_transport t m :
  Forall message_ok t.(tr_incoming) → manager_ok m → manager_ok (set_lm_transport t m).
Proof. intros Ht. solve_manager_ok. Qed.

Lemma manager_ok_on_session f m :
  (∀ session, session_ok session.(ls_workspace) → session_ok (f session).(ls_workspace)) →
  manager_ok m → manager_ok (on_session f m).
Proof.
  intros Hf Hm. unfold on_session. destruct (lm_current_session m) as [session|] eqn:E; [|done].
  apply manager_ok_session; [|done]. apply Hf. pose proof (mo_session _ Hm) as H.
  by rewrite E in H.
Qed.

Lemma manager_ok_on_workspace f m :
  (∀ ws, session_ok ws → session_ok (f ws)) → manager_ok m → manager_ok (on_workspace f m).
Proof. intros Hf. apply manager_ok_on_session. simpl. auto. Qed.

(** *** Sessions *)
Lemma apply_op_participants ws op :
  (apply_op ws op).(gw_participants) = ws.(gw_participants).
Proof.
  unfold apply_op. destruct (lo_kind op); try done;
    unfold apply_op_kind, apply_remove_tile, apply_move_tile, apply_scroll_viewport;
    simpl; repeat (split_match; simpl); done.
Qed.

Lemma apply_op_seq ws op : (apply_op ws op).(gw_operation_seq) = op.(lo_seq).
Proof.
  unfold apply_op. destruct (lo_kind op); try done;
    unfold apply_op_kind, apply_remove_tile, apply_move_tile, apply_scroll_viewport;
    simpl; repeat (split_match; simpl); done.
Qed.

Lemma session_ok_apply_op ws op : session_ok ws → session_ok (apply_op ws op).
Proof.
  intros [Hw Hp]. split; [by apply workspace_ok_apply_op|].
  rewrite apply_op_participants. exact Hp.
Qed.

Lemma session_ok_insert_tile ws t :
  session_ok ws →
  session_ok (set_gw_tiles (<[t.(tm_tile_id) := t]> ws.(gw_tiles))
                (set_gw_columns (push_unique t.(tm_column_id) ws.(gw_columns)) ws)).
Proof.
  intros [[Hk Hc] Hp]. split; [split|done]; simpl; [|by apply NoDup_push_unique].
  by apply map_Forall_insert_2.
Qed.

Lemma session_ok_focus o ws : session_ok ws → session_ok (set_gw_focused_tile o ws).
Proof. intros [[? ?] ?]. by split; [split|]. Qed.

Lemma session_ok_leader n ws : session_ok ws → session_ok (set_gw_leader_node_id n ws).
Proof. intros [[? ?] ?]. by split; [split|]. Qed.

Lemma session_ok_generation n ws : session_ok ws → session_ok (set_gw_generation n ws).
Proof. intros [[? ?] ?]. by split; [split|]. Qed.

Lemma session_ok_viewports v ws : session_ok ws → session_ok (set_gw_per_node_viewports v ws).
Proof. intros [[? ?] ?]. by split; [split|]. Qed.

Lemma session_ok_outputs v ws : session_ok ws → session_ok (set_gw_per_node_outputs v ws).
Proof. intros [[? ?] ?]. by split; [split|]. Qed.

Lemma session_ok_participant n p ws :
  p.(pa_node_id) = n → session_ok ws →
  session_ok (set_gw_participants (<[n := p]> ws.(gw_participants)) ws).
Proof. intros Hn [Hw Hp]. split; [by destruct Hw|]. by apply map_Forall_insert_2. Qed.

Lemma session_ok_empty id n h f : session_ok (GlobalWorkspace_empty id n h f).
Proof.
  split; [apply workspace_ok_empty|]. simpl. by apply map_Forall_singleton.
Qed.
End manager_ok_lemmas.

#[export] Hint Resolve manager_ok_peers manager_ok_remote manager_ok_session manager_ok_enabled
  manager_ok_nonce manager_ok_trust manager_ok_pairing manager_ok_transport
  manager_ok_on_session manager_ok_on_workspace session_ok_apply_op session_ok_insert_tile
  session_ok_focus session_ok_leader session_ok_generation session_ok_viewports
  session_ok_outputs session_ok_participant session_ok_empty : cidre.

(** *** Operations on the manager alone *)
Section manager_operations.
Implicit Types (m : LinkManager).

Lemma manager_ok_apply_layout_op kind m :
  manager_ok m → manager_ok (apply_layout_op kind m).2.
Proof.
  intros Hm. unfold apply_layout_op. pose proof (mo_session _ Hm).
  destruct (lm_current_session m); simpl in *; [|done].
  apply manager_ok_session; simpl; auto with cidre.
Qed.

Lemma manager_ok_close_tile id m : manager_ok m → manager_ok (close_tile id m).
Proof.
  intros Hm. unfold close_tile. pose proof (manager_ok_apply_layout_op (RemoveTile id) m Hm) as H.
  apply manager_ok_remote; [|done]. apply map_Forall_delete, H.
Qed.

Lemma manager_ok_close_tiles ids m :
  manager_ok m → manager_ok (foldl (λ m id, close_tile id m) m ids).
Proof. revert m. induction ids; intros m Hm; simpl; auto using manager_ok_close_tile. Qed.

Lemma manager_ok_insert_remote t r m :
  r.(rt_metadata).(tm_tile_id) = t.(tm_tile_id) → manager_ok m →
  manager_ok (session_insert_tile t
    (set_lm_remote_tiles (<[t.(tm_tile_id) := r]> m.(lm_remote_tiles)) m)).
Proof.
  intros Hr Hm. apply manager_ok_on_workspace; [auto with cidre|].
  apply manager_ok_remote; [|done]. apply map_Forall_insert_2; [done|]. apply Hm.
Qed.

Lemma manager_ok_connect_peer n m : manager_ok m → manager_ok (connect_peer n m).
Proof.
  intros Hm. apply manager_ok_peers; [|done]. intros k p.
  rewrite lookup_alter. case_decide; subst; [|by apply Hm].
  destruct (lm_peers m !! k) as [q|] eqn:E; simpl; intros; simplify_eq. simpl.
  by apply (mo_peers _ Hm _ _ E).
Qed.

Lemma disconnect_peer_ok ids st :
  map_Forall (λ k p, p.(lp_node_id) = k) st.2 →
  map_Forall (λ k p, p.(lp_node_id) = k) (foldl disconnect_peer st ids).2.
Proof.
  revert st. induction ids as [|n ids IH]; intros st H; simpl; [done|]. apply IH.
  unfold disconnect_peer. repeat split_match; simpl; [|done..].
  apply map_Forall_insert_2; [|done]. simpl. by eapply (H n).
Qed.

Lemma merge_remote_tiles_ok local l R :
  Forall (λ e, e.2.(tm_tile_id) = e.1) l →
  map_Forall (λ k t, t.(rt_metadata).(tm_tile_id) = k) R →
  map_Forall (λ k t, t.(rt_metadata).(tm_tile_id) = k) (foldl (merge_remote_tile local) R l).
Proof.
  intros Hl. revert R. induction Hl as [|e l He Hl IH]; intros R HR; simpl; [done|]. apply IH.
  unfold merge_remote_tile. repeat split_match; [done..|]. by apply map_Forall_insert_2.
Qed.
End manager_operations.

#[export] Hint Resolve manager_ok_apply_layout_op manager_ok_close_tile manager_ok_close_tiles
  manager_ok_insert_remote manager_ok_connect_peer : cidre.

(** *** The tile synchronisation loops *)
Definition sync_ok (st : SyncState) : Prop :=
  session_ok st.(ss_ws) ∧
  map_Forall (λ k t, t.(rt_metadata).(tm_tile_id) = k) st.(ss_remote).

Lemma sync_ok_remove desired ids st :
  sync_ok st → sync_ok (foldl (sync_remove desired) st ids).
Proof.
  revert st. induction ids as [|id ids IH]; intros st Hst; simpl; [done|]. apply IH.
  destruct Hst as [[[Hk Hc] Hp] Hr]. unfold sync_remove. split_match; [by split_and!|].
  split; simpl; [|by apply map_Forall_delete].
  destruct (decide (gw_focused_tile _ = _)); (split; [split|]); simpl; try done;
    by apply map_Forall_delete.
Qed.

Lemma sync_ok_insert tiles st : sync_ok st → sync_ok (foldl sync_insert st tiles).
Proof.
  revert st. induction tiles as [|t tiles IH]; intros st Hst; simpl; [done|]. apply IH.
  destruct Hst as [[[Hk Hc] Hp] Hr]. unfold sync_insert. split_match; [done|].
  split; simpl; [|done]. split; [split|]; simpl; [|done..]. by apply map_Forall_insert_2.
Qed.

Lemma NoDup_foldl_push_unique `{EqDecision A} (l cols : list A) :
  NoDup cols → NoDup (foldl (λ cols c, push_unique c cols) cols l).
Proof. revert cols. induction l; intros cols H; simpl; auto using NoDup_push_unique. Qed.

Lemma elem_of_foldl_push_unique `{EqDecision A} (l cols : list A) x :
  x ∈ foldl (λ cols c, push_unique c cols) cols l ↔ x ∈ cols ∨ x ∈ l.
Proof.
  revert cols. induction l as [|y l IH]; intros cols; simpl; [set_solver|].
  rewrite IH, elem_of_push_unique, elem_of_cons. tauto.
Qed.

Lemma NoDup_sync_columns local ws cols :
  NoDup ws.(gw_columns) → NoDup (sync_columns local ws cols).
Proof.
  intros H. apply NoDup_foldl_push_unique. apply NoDup_ListNoDup, List.NoDup_filter.
  by apply NoDup_ListNoDup.
Qed.

Lemma sync_ok_tiles local tiles ws R :
  sync_ok (MkSyncState ws R false) → sync_ok (sync_tiles local tiles ws R).
Proof.
  intros H. unfold sync_tiles.
  apply (sync_ok_remove (list_to_set (tm_tile_id <$> tiles))
    (tm_tile_id <$> List.filter (λ t, N.eqb t.(tm_owner_node_id) local)
                       (bt_values ws.(gw_tiles)))) in H.
  apply (sync_ok_insert tiles) in H. split_match; [|done].
  destruct H as [[[Hk Hc] Hp] Hr]. split; [|done]. split; [split|]; simpl; [done| |done].
  by apply NoDup_sync_columns.
Qed.

Section link_invariant.
Context (to_json : PersistedSession → option string).
Context (from_json : string → option PersistedSession).
Context (trust_to_json : TrustStore → option string).
Context (uuid_str : Uuid → string).

Context (json_reads_back : reads_back to_json from_json).

Abbreviation ok := (sys_ok from_json).

Lemma sys_ok_on_mgr f s : (manager_ok s.(mgr) → manager_ok (f s.(mgr))) → ok s → ok (on_mgr f s).
Proof. intros Hf [Hm Hw]. split; [by apply Hf|done]. Qed.

Lemma sys_ok_new_v4 s : ok s → ok (new_v4 s).2.
Proof. by intros [? ?]. Qed.

Lemma sys_ok_now_millis s : ok s → ok (now_millis s).2.
Proof. by intros [? ?]. Qed.

Lemma sys_ok_make_envelope kind s : ok s → ok (make_envelope kind s).2.
Proof.
  intros [Hm Hw]. unfold make_envelope. destruct (lm_current_session (mgr s)); simpl;
    (split; [|done]); simpl; auto with cidre.
Qed.

Lemma sys_ok_transport_enqueue addr env s : ok s → ok (transport_enqueue addr env s).
Proof. apply sys_ok_on_mgr. intros Hm. apply manager_ok_transport; [apply Hm|done]. Qed.

Lemma sys_ok_transport_drain s : ok s → ok (transport_drain s).
Proof.
  intros [Hm Hw]. split; [|done]. simpl. apply manager_ok_transport; [apply Hm|done].
Qed.

Lemma sys_ok_enqueue_to_all kind addrs s : ok s → ok (enqueue_to_all kind addrs s).
Proof.
  unfold enqueue_to_all. revert s. induction addrs as [|addr addrs IH]; intros s Hs; simpl; [done|].
  apply IH. pose proof (sys_ok_make_envelope kind s Hs).
  destruct (make_envelope kind s). by apply sys_ok_transport_enqueue.
Qed.

Lemma sys_ok_enable s : ok s → ok (enable s).
Proof.
  intros [Hm Hw]. unfold enable. simpl.
  destruct (lm_current_session (mgr s)) eqn:E; simpl; (split; [|done]); simpl; auto with cidre.
  apply manager_ok_session; simpl; auto with cidre.
Qed.

(** *** Files *)
Lemma files_ok_write files name content p :
  to_json p = Some content → session_ok p.(ps_global_layout) →
  files_ok from_json files → files_ok from_json (write_file name content files).
Proof using json_reads_back.
  intros Hj Hp Hf. unfold write_file.
  assert (Hc : ∀ p', from_json content = Some p' → session_ok p'.(ps_global_layout)).
  { intros p' Hp'. destruct (reads_back_layout _ _ (json_reads_back _ _ _ Hj Hp')) as [_ E]. by eapply session_ok_floats. }
  destruct (update_first _ _ files) as [files'|] eqn:E.
  - apply update_first_Some in E as (l1 & x & l2 & -> & -> & _).
    apply Forall_app in Hf as [H1 H2]. apply Forall_cons in H2 as [_ H2].
    apply Forall_app. split; [done|]. constructor; [|done]. simpl. naive_solver.
  - apply Forall_app. split; [done|]. constructor; [|constructor]. simpl. naive_solver.
Qed.

Lemma load_sessions_ok w sessions :
  files_ok from_json w.(w_sessions) → load_sessions from_json w = Some sessions →
  Forall (λ p, session_ok p.(ps_global_layout)) sessions.
Proof.
  intros Hf. unfold load_sessions. split_match; [|done]. intros [= <-].
  rewrite Forall_forall. intros p. rewrite elem_of_stable_sort, list_elem_of_omap.
  intros ([name c] & Hin & Hp). unfold session_of_entry in Hp. simpl in Hp.
  destruct (bool_decide _); [|done]. destruct c as [c|]; [|done].
  unfold files_ok in Hf. rewrite Forall_forall in Hf. by apply (Hf _ Hin c).
Qed.

Lemma persist_session_ok p w :
  session_ok p.(ps_global_layout) → files_ok from_json w.(w_sessions) →
  files_ok from_json (persist_session to_json uuid_str p w).2.(w_sessions).
Proof using json_reads_back.
  intros Hp Hf. unfold persist_session. repeat split_match; simpl; try done.
  by eapply files_ok_write.
Qed.

Lemma sys_ok_persist_current s :
  ok s → ok (persist_current_session to_json uuid_str s).2.
Proof using json_reads_back.
  intros [Hm Hw]. unfold persist_current_session.
  destruct (lm_current_session (mgr s)) as [session|] eqn:E; [|done]. simpl.
  pose proof (mo_session _ Hm) as Hs. rewrite E in Hs.
  pose proof (persist_session_ok (persisted_of (mgr s) session (w_times (world s) (w_next_time (world s))))
    (set_w_next_time (S (w_next_time (world s))) (world s)) Hs Hw) as Hf.
  destruct (persist_session _ _ _ _) as [r w]. simpl in Hf. by destruct r.
Qed.

Lemma sys_ok_disable s : ok s → ok (disable to_json uuid_str s).2.
Proof using json_reads_back.
  intros Hs. unfold disable. simpl. apply sys_ok_on_mgr.
  - intros Hm. apply manager_ok_remote; [apply map_Forall_empty|done].
  - apply sys_ok_persist_current. apply sys_ok_on_mgr; auto with cidre.
Qed.

Lemma sys_ok_touch n s : ok s → ok (touch_participant n s).
Proof.
  intros [Hm Hw]. unfold touch_participant.
  destruct (lm_current_session (mgr s)) as [session|] eqn:E; [|done].
  destruct (gw_participants (ls_workspace session) !! n) as [p|] eqn:Ep; [|done].
  split; [|done]. simpl. apply manager_ok_on_workspace; [|done]. intros ws.
  apply session_ok_participant. simpl. pose proof (mo_session _ Hm) as Hs. rewrite E in Hs.
  by apply (so_participants _ Hs _ _ Ep).
Qed.

(** *** Messages *)
Lemma sys_ok_add_remote_tile t s : ok s → ok (add_remote_tile t s).
Proof.
  intros Hs. apply sys_ok_on_mgr; [|by apply sys_ok_enable]. by apply manager_ok_insert_remote.
Qed.

Lemma sys_ok_update_remote_tile t s : ok s → ok (update_remote_tile t s).
Proof.
  intros Hs. apply sys_ok_on_mgr; [|by apply sys_ok_enable].
  apply manager_ok_insert_remote. by split_match.
Qed.

Lemma sys_ok_snapshot ws s : session_ok ws → ok s → ok (handle_global_snapshot ws s).
Proof.
  intros Hws Hs. unfold handle_global_snapshot.
  destruct (lm_current_session (mgr s)); [|done]. apply sys_ok_on_mgr; [|done].
  intros Hm. apply manager_ok_session; [done|]. apply manager_ok_remote; [|done].
  apply merge_remote_tiles_ok; [|apply Hm]. rewrite Forall_forall. intros [k t] Hin.
  apply elem_of_bt_to_list in Hin. by apply Hws in Hin.
Qed.

Lemma sys_ok_join_request sender n s : ok s → ok (handle_join_request sender n s).
Proof.
  intros Hs. unfold handle_join_request.
  assert (H : ok (on_mgr (connect_peer n) s)) by (apply sys_ok_on_mgr; auto with cidre).
  match goal with |- context [make_envelope ?k ?s] =>
    pose proof (sys_ok_make_envelope k s H) as He; destruct (make_envelope k s) end.
  by apply sys_ok_transport_drain, sys_ok_transport_enqueue.
Qed.

Abbreviation handle := (handle_message to_json uuid_str).

Lemma sys_ok_handle_message changed s msg changed' s' :
  message_ok msg → ok s → handle changed s msg = Some (changed', s') → ok s'.
Proof using json_reads_back.
  intros Hmsg Hs. unfold handle_message, message_ok in *.
  destruct (env_kind (im_envelope msg)); intros H; simplify_eq; try done.
  - apply sys_ok_on_mgr; [|done]. intros Hm. apply manager_ok_peers; [|done].
    apply map_Forall_insert_2; [done|apply Hm].
  - by apply sys_ok_join_request.
  - apply sys_ok_on_mgr; [|done]. apply manager_ok_on_workspace. auto with cidre.
  - unfold handle_heartbeat in H.
    assert (Ht : ok (touch_participant (env_sender_node_id (im_envelope msg))
                 (on_mgr (connect_peer (env_sender_node_id (im_envelope msg))) s))).
    { apply sys_ok_touch, sys_ok_on_mgr; auto with cidre. }
    repeat split_match_in H; by simplify_eq/=.
  - by apply sys_ok_snapshot.
  - apply sys_ok_on_mgr; [|done]. apply manager_ok_on_session. simpl. auto with cidre.
  - apply sys_ok_on_mgr; [|done]. apply manager_ok_on_workspace. auto with cidre.
  - by apply sys_ok_update_remote_tile.
  - apply sys_ok_on_mgr; auto with cidre.
  - apply sys_ok_on_mgr; [|done]. apply manager_ok_on_workspace. auto with cidre.
  - unfold handle_disable_link. split_match; apply sys_ok_disable; [|done].
    by apply sys_ok_persist_current.
Qed.

Lemma sys_ok_handle_messages msgs changed s changed' s' :
  Forall message_ok msgs → ok s →
  handle_messages to_json uuid_str changed s msgs = Some (changed', s') → ok s'.
Proof using json_reads_back.
  intros Hf. revert changed s. induction Hf as [|msg msgs Hmsg Hf IH]; intros changed s Hs; simpl.
  - intros. by simplify_eq.
  - destruct (handle changed s msg) as [[c s1]|] eqn:E; [|done].
    apply IH. by eapply sys_ok_handle_message.
Qed.

Lemma sys_ok_process_incoming s b s' :
  ok s → process_incoming to_json uuid_str s = Some (b, s') → ok s'.
Proof using json_reads_back.
  intros Hs. apply sys_ok_handle_messages; [apply Hs|].
  apply sys_ok_on_mgr; [|done]. by apply manager_ok_transport.
Qed.

(** *** Local state *)
Lemma enable_session s : ∃ session, (enable s).(mgr).(lm_current_session) = Some session.
Proof.
  unfold enable. simpl. destruct (lm_current_session (mgr s)) eqn:E; simpl; eauto.
Qed.

Lemma ensure_local_participant_Some s :
  ∃ s' session, ensure_local_participant s = Some s' ∧
                s'.(mgr).(lm_current_session) = Some session.
Proof.
  unfold ensure_local_participant. destruct (enable_session s) as [session E]. rewrite E.
  simpl. eexists _, _. split; [done|]. unfold on_mgr, on_workspace, on_session. simpl.
  by rewrite E.
Qed.

Lemma sys_ok_ensure_local_participant s s' :
  ok s → ensure_local_participant s = Some s' → ok s'.
Proof.
  intros Hs%sys_ok_enable. unfold ensure_local_participant.
  destruct (lm_current_session _); [|done]. simpl. intros [= <-].
  apply sys_ok_on_mgr; [|done]. apply manager_ok_on_workspace. intros ws.
  by apply session_ok_participant.
Qed.

Lemma sys_ok_sync_viewports vps s b s' :
  ok s → sync_local_viewports vps s = Some (b, s') → ok s'.
Proof.
  intros Hs. unfold sync_local_viewports. split_match; [|by intros; simplify_eq].
  destruct (ensure_local_participant s) as [s1|] eqn:E; [|done].
  apply sys_ok_ensure_local_participant in E; [|done].
  destruct (lm_current_session (mgr s1)); [|done]. intros H. injection H as _ <-.
  split_match; [|done]. apply sys_ok_on_mgr; [|done]. apply manager_ok_on_workspace.
  auto with cidre.
Qed.

Lemma sys_ok_sync_tiles tiles s b s' :
  ok s → sync_local_tiles tiles s = Some (b, s') → ok s'.
Proof.
  intros Hs. unfold sync_local_tiles. split_match; [|by intros; simplify_eq].
  destruct (ensure_local_participant s) as [s1|] eqn:E; [|done].
  apply sys_ok_ensure_local_participant in E as [Hm Hw]; [|done].
  destruct (lm_current_session (mgr s1)) as [session|] eqn:E1; [|done].
  intros H. injection H as _ <-. apply sys_ok_on_mgr; [|done]. intros _.
  pose proof (mo_session _ Hm) as Hse. rewrite E1 in Hse.
  destruct (sync_ok_tiles (lm_local_node_id (mgr s1)) tiles (ls_workspace session)
    (lm_remote_tiles (mgr s1))) as [H1 H2]; [split; [done|apply Hm]|].
  apply manager_ok_remote; [done|]. by apply manager_ok_session.
Qed.

Lemma sys_ok_sync_focus o s b s' :
  ok s → sync_focused_tile o s = Some (b, s') → ok s'.
Proof.
  intros Hs. unfold sync_focused_tile. split_match; [|by intros; simplify_eq].
  destruct (ensure_local_participant s) as [s1|] eqn:E; [|done].
  apply sys_ok_ensure_local_participant in E; [|done].
  destruct (lm_current_session (mgr s1)); [|done].
  case_decide; intros; simplify_eq; [done|]. apply sys_ok_on_mgr; [|done].
  apply manager_ok_on_workspace. auto with cidre.
Qed.

(** *** Restoring *)
Lemma sys_ok_restored s p :
  session_ok p.(ps_global_layout) → ok s →
  ok (on_mgr (λ m, set_lm_enabled true (set_lm_current_session
        (Some (MkLinkedSession p.(ps_global_layout) OperationLog_default)) m)) s).
Proof.
  intros Hp Hs. apply sys_ok_on_mgr; [|done]. intros Hm.
  apply manager_ok_enabled. by apply manager_ok_session.
Qed.

Lemma sys_ok_restore_session id s : ok s → ok (restore_session from_json id s).2.
Proof.
  intros Hs. unfold restore_session.
  destruct (load_sessions from_json (world s)) as [l|] eqn:E; [|done].
  apply load_sessions_ok in E; [|apply Hs]. rewrite Forall_forall in E.
  destruct (List.find _ l) as [p|] eqn:Ef; [|done].
  apply List.find_some in Ef as [Hin _]. simpl. apply sys_ok_restored; [|done].
  by apply E, list_elem_of_In.
Qed.

Lemma max_by_key_elem {A} (key : A → nat) l x : max_by_key key l = Some x → x ∈ l.
Proof.
  revert x. induction l as [|y l IH]; simpl; intros x; [done|].
  destruct (max_by_key key l) as [z|]; [|intros [= ->]; left].
  split_match; intros [= ->]; [left|]. right. by apply IH.
Qed.

Lemma sys_ok_restore_best s : ok s → ok (restore_best_session from_json s).2.
Proof.
  intros Hs. unfold restore_best_session.
  destruct (load_sessions from_json (world s)) as [l|] eqn:E; [|done].
  apply load_sessions_ok in E; [|apply Hs]. rewrite Forall_forall in E.
  destruct (restore_candidate l _) as [p|] eqn:Ef; [|done].
  apply max_by_key_elem in Ef. simpl. apply sys_ok_restored; [|done]. by apply E.
Qed.

(** *** Sending, time-outs, trust *)
Lemma sys_ok_send_hello addr s : ok s → ok (send_hello addr s).
Proof.
  intros Hs. unfold send_hello.
  match goal with |- context [make_envelope ?k ?s] =>
    pose proof (sys_ok_make_envelope k s Hs) as He; destruct (make_envelope k s) as [e1 s1] end.
  apply (sys_ok_transport_enqueue addr e1) in He.
  match goal with |- context [make_envelope ?k ?s] =>
    pose proof (sys_ok_make_envelope k s He) as He2; destruct (make_envelope k s) as [e2 s2] end.
  by apply sys_ok_transport_drain, sys_ok_transport_enqueue.
Qed.

Lemma sys_ok_send_heartbeat s : ok s → ok (send_heartbeat s).
Proof.
  intros Hs. unfold send_heartbeat. split_match; [|done].
  destruct (match _ with Some _ => _ | None => _ end).
  by apply sys_ok_transport_drain, sys_ok_enqueue_to_all.
Qed.

Lemma sys_ok_check_peer_timeouts t s : ok s → ok (check_peer_timeouts t s).2.
Proof.
  intros Hs. unfold check_peer_timeouts. split_match; [|done]. simpl.
  apply sys_ok_on_mgr; [|done]. intros Hm. apply manager_ok_peers; [|done].
  apply disconnect_peer_ok, Hm.
Qed.

Lemma sys_ok_purge t s : ok s → ok (purge_stale_remote_tiles t s).2.
Proof.
  intros Hs. unfold purge_stale_remote_tiles. split_match; [|done]. simpl.
  apply sys_ok_on_mgr; [|done]. auto with cidre.
Qed.

Lemma sys_ok_persist_trust s : ok s → ok (persist_trust trust_to_json s).2.
Proof.
  intros [Hm Hw]. unfold persist_trust, TrustStore_persist. by repeat split_match; simplify_eq.
Qed.

Lemma sys_ok_join_addr addr s : ok s → ok (join_addr addr s).
Proof.
  intros Hs%sys_ok_enable%sys_ok_new_v4. unfold join_addr. destruct (new_v4 (enable s)) as [n s1].
  apply sys_ok_on_mgr; [|done]. intros Hm. apply manager_ok_peers; [|done].
  apply map_Forall_insert_2; [done|apply Hm].
Qed.

(** ** The step relation

    What the compositor and the network do to the link subsystem: a message
    arrives, or an operation of the manager runs. *)
Definition receive (msg : IncomingMessage) : Sys → Sys :=
  on_mgr (λ m, set_lm_transport
    (set_tr_incoming (m.(lm_transport).(tr_incoming) ++ [msg]) m.(lm_transport)) m).

Inductive link_step (s : Sys) : Sys → Prop :=
  | step_receive msg : message_ok msg → link_step s (receive msg s)
  | step_process b s' : process_incoming to_json uuid_str s = Some (b, s') → link_step s s'
  | step_enable : link_step s (enable s)
  | step_disable : link_step s (disable to_json uuid_str s).2
  | step_toggle : link_step s (toggle to_json uuid_str s)
  | step_leave : link_step s (leave to_json uuid_str s)
  | step_join_addr addr : link_step s (join_addr addr s)
  | step_pair node : link_step s (LinkManager_pair trust_to_json node s).2
  | step_unpair node : link_step s (unpair trust_to_json node s).2
  | step_trust node : link_step s (trust_node trust_to_json node s).2
  | step_set_leader node : link_step s (on_mgr (set_leader node) s)
  | step_refresh_leader : link_step s (on_mgr refresh_leader s)
  | step_restore id : link_step s (restore_session from_json id s).2
  | step_restore_best : link_step s (restore_best_session from_json s).2
  | step_persist : link_step s (persist_current_session to_json uuid_str s).2
  | step_layout_op kind : link_step s (on_mgr (λ m, (apply_layout_op kind m).2) s)
  | step_local_viewport vp : link_step s (upsert_local_viewport vp s)
  | step_local_tile t i : link_step s (upsert_local_tile t i s)
  | step_close_tile id : link_step s (on_mgr (close_tile id) s)
  | step_add_remote t : link_step s (add_remote_tile t s)
  | step_update_remote t : link_step s (update_remote_tile t s)
  | step_timeouts t : link_step s (check_peer_timeouts t s).2
  | step_purge t : link_step s (purge_stale_remote_tiles t s).2
  | step_touch n : link_step s (touch_participant n s)
  | step_sync_viewports vps b s' : sync_local_viewports vps s = Some (b, s') → link_step s s'
  | step_sync_tiles ts b s' : sync_local_tiles ts s = Some (b, s') → link_step s s'
  | step_sync_focus o b s' : sync_focused_tile o s = Some (b, s') → link_step s s'
  | step_hello addr : link_step s (send_hello addr s)
  | step_heartbeat : link_step s (send_heartbeat s)
  | step_broadcast t : link_step s (broadcast_tile_update t s)
  | step_discovery : link_step s (on_mgr (λ m, (poll_discovery m).2) s)
  | step_network bound mdns : link_step s (on_mgr (start_network bound mdns) s).

Lemma manager_ok_start_network bound mdns m :
  manager_ok m → manager_ok (start_network bound mdns m).
Proof.
  intros [? ? ? ?]. unfold start_network, start_listener. by repeat (split_match; simpl).
Qed.

Lemma sys_ok_step s s' : link_step s s' → ok s → ok s'.
Proof using json_reads_back.
  intros Hstep Hs. destruct Hstep.
  all: try match goal with
    | |- sys_ok _ (enable _) => by apply sys_ok_enable
    | |- sys_ok _ (disable _ _ _).2 => by apply sys_ok_disable
    | |- sys_ok _ (join_addr _ _) => by apply sys_ok_join_addr
    | |- sys_ok _ (restore_session _ _ _).2 => by apply sys_ok_restore_session
    | |- sys_ok _ (restore_best_session _ _).2 => by apply sys_ok_restore_best
    | |- sys_ok _ (persist_current_session _ _ _).2 => by apply sys_ok_persist_current
    | |- sys_ok _ (add_remote_tile _ _) => by apply sys_ok_add_remote_tile
    | |- sys_ok _ (update_remote_tile _ _) => by apply sys_ok_update_remote_tile
    | |- sys_ok _ (check_peer_timeouts _ _).2 => by apply sys_ok_check_peer_timeouts
    | |- sys_ok _ (purge_stale_remote_tiles _ _).2 => by apply sys_ok_purge
    | |- sys_ok _ (touch_participant _ _) => by apply sys_ok_touch
    | |- sys_ok _ (send_hello _ _) => by apply sys_ok_send_hello
    | |- sys_ok _ (send_heartbeat _) => by apply sys_ok_send_heartbeat
    | H : process_incoming _ _ _ = _ |- _ => by apply sys_ok_process_incoming in H
    | H : sync_local_viewports _ _ = _ |- _ => by apply sys_ok_sync_viewports in H
    | H : sync_local_tiles _ _ = _ |- _ => by apply sys_ok_sync_tiles in H
    | H : sync_focused_tile _ _ = _ |- _ => by apply sys_ok_sync_focus in H
    end.
  - apply sys_ok_on_mgr; [|done]. intros Hm. apply manager_ok_transport; [|done].
    apply Forall_app. split; [apply Hm|by constructor].
  - unfold toggle. split_match; [by apply sys_ok_disable|by apply sys_ok_enable].
  - apply sys_ok_on_mgr; [|by apply sys_ok_disable]. by apply manager_ok_session.
  - unfold LinkManager_pair. split_match.
    + apply sys_ok_persist_trust, sys_ok_on_mgr; auto with cidre.
    + apply sys_ok_on_mgr; auto with cidre.
  - apply sys_ok_persist_trust, sys_ok_on_mgr; auto with cidre.
  - apply sys_ok_persist_trust, sys_ok_on_mgr; auto with cidre.
  - apply sys_ok_on_mgr; [|done]. apply manager_ok_on_workspace. auto with cidre.
  - apply sys_ok_on_mgr; [|done]. apply manager_ok_on_workspace. auto with cidre.
  - apply sys_ok_on_mgr; auto with cidre.
  - apply sys_ok_on_mgr; [|by apply sys_ok_enable]. auto with cidre.
  - apply sys_ok_on_mgr; [|by apply sys_ok_enable]. auto with cidre.
  - apply sys_ok_on_mgr; auto with cidre.
  - by apply sys_ok_transport_drain, sys_ok_enqueue_to_all.
  - apply sys_ok_on_mgr; [|done]. intros [? ? ? ?]. unfold poll_discovery. by split_match.
  - apply sys_ok_on_mgr; [|done]. apply manager_ok_start_network.
Qed.
End link_invariant.

(** ** Sample data *)
#[export] Instance PersistedSession_eq_dec : EqDecision PersistedSession.
Proof. solve_decision. Defined.

Definition sample_config : RuntimeLinkConfig :=
  {| rc_enabled := false; rc_listen_address := "0.0.0.0:0"; rc_discovery := true;
     rc_pairing_mode := false; rc_trusted_nodes := []; rc_transport_prefer := "quic";
     rc_transport_fallback := "tcp"; rc_preferred_codec := "raw"; rc_max_fps := 60;
     rc_idle_fps := 5; rc_max_bitrate_mbps := 50; rc_stream_only_visible := true;
     rc_stale_frame_timeout_ms := 3000; rc_restore_last_session := false;
     rc_unlink_policy := "keep"; rc_remote_tile_placeholder := true;
     rc_animate_link_transition := true; rc_forward_keyboard := true;
     rc_forward_pointer := true; rc_forward_scroll := true; rc_forward_touch := false;
     rc_forward_tablet := false; rc_remote_focus_follows_pointer := false |}.

Definition sample_uuid_str (u : Uuid) : string := if N.eqb u 7 then "seven" else "other".

(** Fresh ids count up from 50, the clock ticks every call. *)
Definition sample_world : World :=
  {| w_uuids := λ n, (50 + N.of_nat n)%N; w_next_uuid := 0;
     w_times := λ n, (1000 + 10 * N.of_nat n)%N; w_next_time := 0;
     w_dirs_ok := true; w_write_ok := true; w_sessions := []; w_trusted := None; w_sent := [] |}.

Definition sample_manager : LinkManager :=
  LinkManager_new sample_uuid_str sample_config None (Some 1%N) 99 (Some "host").

Definition sample_sys : Sys := MkSys sample_manager sample_world.

(** A serializer for one session, enough to show that [serde_json]'s promise can hold. *)
Definition sample_persisted : PersistedSession :=
  {| ps_version := 1; ps_session_id := 7; ps_generation := 0; ps_participants := [1%N];
     ps_trusted_fingerprints := []; ps_global_layout := sample_ws;
     ps_per_node_owned_tile_order := [(1%N, [10%N])]; ps_timestamp_millis := 1000 |}.

Definition sample_to_json (p : PersistedSession) : option string :=
  if decide (p = sample_persisted) then Some "session" else None.

Definition sample_from_json (content : string) : option PersistedSession :=
  if decide (content = "session"%string) then Some sample_persisted else None.

Lemma sample_reads_back : reads_back sample_to_json sample_from_json.
Proof.
  intros p content p'. unfold sample_to_json, sample_from_json. case_decide; [|done]. intros [= <-] [= <-]. by subst.
Qed.

Definition sample_snapshot : IncomingMessage :=
  MkIncomingMessage "peer:1" (MkEnvelope 1 7 2 0 0 (MGlobalSnapshot sample_ws)).

Lemma sample_ws_session_ok : session_ok sample_ws.
Proof.
  split; [apply sample_ws_ok|]. by apply (bool_decide_unpack _); vm_compute.
Qed.

(** ** Properties *)

(** C24: invariant. Start from a new manager, with session files that hold
    well-formed layouts, and with an encoding that reads back what it wrote apart from
    floats; whatever operations run and whatever messages arrive in
    between (snapshots carrying well-formed workspaces), the peers, the remote
    tiles, the participants and the tiles of the session are stored under their own
    ids, no column is listed twice, and the session files stay well formed. *)
Theorem link_reachable_ok to_json from_json trust_to_json uuid_str config trust node fresh
    hostname w s :
  reads_back to_json from_json →
  files_ok from_json w.(w_sessions) →
  rtc (link_step to_json from_json trust_to_json uuid_str)
    (MkSys (LinkManager_new uuid_str config trust node fresh hostname) w) s →
  sys_ok from_json s.
Proof.
  intros Hj Hf Hr.
  assert (Hs : sys_ok from_json (MkSys (LinkManager_new uuid_str config trust node fresh hostname) w)).
  { split; [|done]. split; simpl; [apply map_Forall_empty..|done|constructor]. }
  induction Hr as [|s1 s2 s3 Hstep _ IH]; [done|]. by apply IH, (sys_ok_step _ _ _ _ Hj _ _ Hstep).
Qed.

Lemma link_reachable_ok_witness :
  sys_ok sample_from_json (receive sample_snapshot (enable sample_sys)) ∧
  (receive sample_snapshot (enable sample_sys)).(mgr).(lm_enabled) = true.
Proof.
  split; [|reflexivity].
  apply (link_reachable_ok sample_to_json sample_from_json (λ _, None) sample_uuid_str
    sample_config None (Some 1%N) 99 (Some "host") sample_world).
  - apply sample_reads_back.
  - constructor.
  - eapply rtc_l; [apply step_enable|]. apply rtc_once, step_receive. apply sample_ws_session_ok.
Defined.
