(* ===== verification/LinkProps.v ===== *)
(** * What the operations of the link manager promise

    Sequence numbers and panics of [process_incoming], persistence and restore,
    time-outs of peers and of their tiles, and what is sent to peers. *)
From Stdlib Require Import Ascii.
From S2P Require Import Prelude BTree Float64 LinkProtocol LinkSync LinkStores IpcTypes LinkManager LinkSession.

(** ** Sequence numbers of the incoming messages *)

(** The sequence number a message brings into the session. *)
Definition message_seq (msg : IncomingMessage) : N :=
  match msg.(im_envelope).(env_kind) with
  | MLayoutOp op => op.(lo_seq)
  | MGlobalSnapshot ws => ws.(gw_operation_seq)
  | _ => 0
  end.

(** There is room for [k] more operations before the sequence number saturates. *)
Definition seq_room (k : nat) (s : Sys) : Prop :=
  match s.(mgr).(lm_current_session) with
  | Some session =>
      (session.(ls_workspace).(gw_operation_seq) + N.of_nat k < u64_max)%N ∧
      (last_seq session.(ls_log) + N.of_nat k < u64_max)%N
  | None => (N.of_nat k < u64_max)%N
  end.

Lemma last_seq_push log op : last_seq (OperationLog_push log op) = op.(lo_seq).
Proof. unfold last_seq, OperationLog_push. simpl. by rewrite last_snoc. Qed.

Section sequence.
Context (to_json : PersistedSession → option string) (uuid_str : Uuid → string).
Implicit Types (s : Sys).

Lemma seq_room_same k s s' :
  s'.(mgr).(lm_current_session) = s.(mgr).(lm_current_session) →
  seq_room (S k) s → seq_room k s'.
Proof.
  intros H. unfold seq_room. rewrite H. destruct (lm_current_session (mgr s)); lia.
Qed.

(** Writes that keep the sequence number and the log. *)
Lemma seq_room_on_workspace k f s :
  (∀ ws, (f ws).(gw_operation_seq) = ws.(gw_operation_seq)) →
  seq_room (S k) s → seq_room k (on_mgr (on_workspace f) s).
Proof.
  intros Hf. unfold seq_room, on_workspace, on_session. simpl.
  destruct (lm_current_session (mgr s)) as [session|] eqn:E; simpl; rewrite ?E, ?Hf; lia.
Qed.

Lemma seq_room_enable k s : seq_room k s → seq_room k (enable s).
Proof.
  unfold seq_room, enable. simpl.
  destruct (lm_current_session (mgr s)) as [session|] eqn:E; simpl; rewrite ?E; [done|].
  simpl. unfold last_seq. simpl. lia.
Qed.

Lemma make_envelope_session kind s :
  (make_envelope kind s).2.(mgr).(lm_current_session) = s.(mgr).(lm_current_session).
Proof. unfold make_envelope. by destruct (lm_current_session (mgr s)) eqn:E. Qed.

Lemma persist_current_session_mgr s :
  (persist_current_session to_json uuid_str s).2.(mgr) = s.(mgr).
Proof.
  unfold persist_current_session. destruct (lm_current_session (mgr s)); [|done]. simpl.
  destruct (persist_session _ _ _ _) as [[]]; done.
Qed.

Lemma disable_session s :
  (disable to_json uuid_str s).2.(mgr).(lm_current_session) = s.(mgr).(lm_current_session).
Proof. unfold disable. simpl. by rewrite persist_current_session_mgr. Qed.

Lemma seq_room_touch k n s : seq_room (S k) s → seq_room k (touch_participant n s).
Proof.
  intros H. unfold touch_participant.
  destruct (lm_current_session (mgr s)) eqn:E; [|by apply (seq_room_same k s)].
  destruct (_ !! n); [|by apply (seq_room_same k s)]. simpl.
  by apply seq_room_on_workspace.
Qed.

Lemma handle_heartbeat_total k n hb s :
  seq_room (S k) s → ∃ s', handle_heartbeat n hb s = Some s' ∧ seq_room k s'.
Proof.
  intros H. unfold handle_heartbeat.
  assert (Hr : seq_room k (touch_participant n (on_mgr (connect_peer n) s))).
  { apply seq_room_touch. revert H. unfold seq_room. simpl. by destruct (lm_current_session _). }
  destruct (lm_current_session _) as [session|] eqn:E; [|eauto].
  assert (N.ltb (gw_operation_seq (ls_workspace session)) u64_max = true) as ->; [|eauto].
  apply N.ltb_lt. unfold seq_room in Hr. rewrite E in Hr. lia.
Qed.

Lemma seq_room_close_tile k id s : seq_room (S k) s → seq_room k (on_mgr (close_tile id) s).
Proof.
  unfold seq_room, close_tile, apply_layout_op. simpl.
  destruct (lm_current_session (mgr s)) as [session|] eqn:E; simpl; rewrite ?E; [|lia].
  simpl. rewrite apply_op_seq, last_seq_push. simpl.
  unfold saturating_add_u64. lia.
Qed.

Lemma seq_room_layout_op k op s :
  (op.(lo_seq) + N.of_nat k < u64_max)%N → seq_room (S k) s → seq_room k (handle_layout_op op s).
Proof.
  intros Hop. unfold seq_room, handle_layout_op, on_session. simpl.
  destruct (lm_current_session (mgr s)) as [session|] eqn:E; simpl; rewrite ?E; [|lia].
  simpl. rewrite apply_op_seq, last_seq_push. lia.
Qed.

Lemma seq_room_snapshot k ws s :
  (ws.(gw_operation_seq) + N.of_nat k < u64_max)%N → seq_room (S k) s →
  seq_room k (handle_global_snapshot ws s).
Proof.
  intros Hop. unfold seq_room, handle_global_snapshot.
  destruct (lm_current_session (mgr s)) as [session|] eqn:E; simpl; rewrite ?E; simpl; lia.
Qed.

Lemma seq_room_update_remote_tile k t s :
  seq_room (S k) s → seq_room k (update_remote_tile t s).
Proof.
  intros H. apply seq_room_enable in H. unfold update_remote_tile.
  revert H. generalize (enable s) as s1. intros s1.
  unfold seq_room, session_insert_tile, on_workspace, on_session. simpl.
  destruct (lm_current_session (mgr s1)) as [session|] eqn:E; simpl; rewrite ?E; simpl; lia.
Qed.

Lemma handle_join_request_session sender n s :
  (handle_join_request sender n s).(mgr).(lm_current_session) = s.(mgr).(lm_current_session).
Proof.
  unfold handle_join_request.
  match goal with |- context [make_envelope ?k ?s] =>
    pose proof (make_envelope_session k s) as He; destruct (make_envelope k s) end.
  simpl in *. done.
Qed.

Lemma handle_message_total k changed s msg :
  (message_seq msg + N.of_nat k < u64_max)%N → seq_room (S k) s →
  ∃ changed' s', handle_message to_json uuid_str changed s msg = Some (changed', s') ∧ seq_room k s'.
Proof.
  intros Hm Hs. unfold handle_message, message_seq in *.
  assert (Hid : seq_room k s) by (by apply (seq_room_same k s)).
  destruct (env_kind (im_envelope msg)); try (eexists _, _; split; [done|]; done).
  - eexists _, _; split; [done|]. apply (seq_room_same k s); [|done].
    apply handle_join_request_session.
  - eexists _, _; split; [done|]. by apply seq_room_on_workspace.
  - destruct (handle_heartbeat_total k (env_sender_node_id (im_envelope msg)) m s Hs)
      as (s' & -> & Hs'). eauto.
  - eexists _, _; split; [done|]. by apply seq_room_snapshot.
  - eexists _, _; split; [done|]. by apply seq_room_layout_op.
  - eexists _, _; split; [done|]. by apply seq_room_on_workspace.
  - eexists _, _; split; [done|]. by apply seq_room_update_remote_tile.
  - eexists _, _; split; [done|]. by apply seq_room_close_tile.
  - eexists _, _; split; [done|]. by apply seq_room_on_workspace.
  - eexists _, _; split; [done|]. apply (seq_room_same k s); [|done].
    unfold handle_disable_link. rewrite disable_session.
    split_match; [by rewrite persist_current_session_mgr|done].
Qed.

Lemma handle_messages_total msgs changed s :
  Forall (λ msg, (message_seq msg + N.of_nat (length msgs) < u64_max)%N) msgs →
  seq_room (length msgs) s →
  ∃ changed' s', handle_messages to_json uuid_str changed s msgs = Some (changed', s').
Proof.
  revert changed s. induction msgs as [|msg msgs IH]; intros changed s Hf Hs; simpl; [eauto|].
  apply Forall_cons in Hf as [Hmsg Hf].
  destruct (handle_message_total (length msgs) changed s msg) as (c & s1 & -> & Hs1);
    [simpl in Hmsg; lia|done|].
  apply IH; [|done]. eapply Forall_impl; [exact Hf|]. simpl. lia.
Qed.
End sequence.

(** ** Persistence *)
Section persistence.
Context (to_json : PersistedSession → option string).
Context (from_json : string → option PersistedSession).
Context (uuid_str : Uuid → string).

(** The sessions directory holds each session in the file named after it. *)
Definition names_ok (files : list (string * option string)) : Prop :=
  NoDup files.*1 ∧
  ∀ name content p, (name, Some content) ∈ files → from_json content = Some p →
    name = session_file uuid_str p.(ps_session_id).

Lemma split_last_dot_app (u ext : string) :
  split_last_dot ext = None →
  split_last_dot (u +:+ String "."%char ext) = Some (u, ext).
Proof.
  intros He. induction u as [|c u IH]; simpl.
  - by rewrite He.
  - by rewrite IH.
Qed.

Lemma extension_session_file id :
  uuid_str id ≠ EmptyString → extension (session_file uuid_str id) = Some "json"%string.
Proof.
  intros Hne. unfold extension, session_file.
  rewrite (split_last_dot_app (uuid_str id) "json") by reflexivity.
  by destruct (uuid_str id).
Qed.

Lemma write_file_spec name content files :
  NoDup files.*1 →
  NoDup (write_file name content files).*1 ∧
  ∀ n c, (n, c) ∈ write_file name content files ↔
    (n = name ∧ c = Some content) ∨ (n ≠ name ∧ (n, c) ∈ files).
Proof.
  intros Hnd. unfold write_file. destruct (update_first _ _ files) as [files'|] eqn:E.
  - apply update_first_Some in E as (l1 & [n0 c0] & l2 & -> & -> & Hn0 & Hl1).
    simpl in Hn0. apply bool_decide_eq_true_1 in Hn0 as ->.
    rewrite fmap_app, fmap_cons in Hnd |- *. split; [done|]. simpl in *.
    apply NoDup_app in Hnd as (_ & Hd & [Hnot _]%NoDup_cons).
    intros n c. rewrite !elem_of_app, !elem_of_cons.
    assert (Hin : ∀ l, name ∉ l.*1 → (n, c) ∈ l → n ≠ name).
    { intros l Hl Hin ->. apply Hl, list_elem_of_fmap. by exists (name, c). }
    assert (Hl1' : name ∉ l1.*1) by (intros H; apply (Hd _ H); left).
    split; [|naive_solver].
    intros [H|[H|H]]; [right|left|right]; [..|]; naive_solver.
  - rewrite update_first_None in E. rewrite fmap_app. split.
    + apply NoDup_app. split_and!; [done| |apply NoDup_singleton]. intros n Hn.
      simpl. rewrite list_elem_of_singleton. intros ->.
      apply list_elem_of_fmap in Hn as (f & -> & Hf). apply E in Hf.
      by apply bool_decide_eq_false_1 in Hf.
    + intros n c. rewrite elem_of_app, list_elem_of_singleton.
      assert (Hin : (n, c) ∈ files → n ≠ name).
      { intros Hf ->. apply E in Hf. by apply bool_decide_eq_false_1 in Hf. }
      naive_solver.
Qed.

(** After a session is written, loading finds it under its id. *)
Lemma find_written p content files :
  uuid_str p.(ps_session_id) ≠ EmptyString → from_json content = Some p → names_ok files →
  List.find (λ it, N.eqb it.(ps_session_id) p.(ps_session_id))
    (stable_sort timestamp_leb (omap (session_of_entry from_json)
       (write_file (session_file uuid_str p.(ps_session_id)) content files))) = Some p.
Proof.
  intros Hne Hp [Hnd Hnames].
  destruct (write_file_spec (session_file uuid_str p.(ps_session_id)) content files Hnd)
    as [_ Hw].
  destruct (List.find _ _) as [q|] eqn:Ef.
  - apply List.find_some in Ef as [Hq Hid]. apply N.eqb_eq in Hid.
    apply list_elem_of_In in Hq. rewrite elem_of_stable_sort, list_elem_of_omap in Hq.
    destruct Hq as ([n c] & Hin & Hq). unfold session_of_entry in Hq. simpl in Hq.
    destruct (bool_decide _); [|done]. destruct c as [c|]; [|done].
    apply Hw in Hin as [[-> [= ->]]|[Hn Hin]]; [congruence|].
    destruct Hn. rewrite <- Hid. by eapply Hnames.
  - exfalso. eapply List.find_none in Ef.
    + rewrite N.eqb_refl in Ef. done.
    + apply list_elem_of_In. rewrite elem_of_stable_sort, list_elem_of_omap.
      exists (session_file uuid_str p.(ps_session_id), Some content).
      split; [apply Hw; by left|]. unfold session_of_entry. simpl.
      rewrite extension_session_file by done. by rewrite bool_decide_true.
Qed.

(** If what is written cannot be read, loading finds nothing under its id. *)
Lemma find_unreadable id content files :
  from_json content = None → names_ok files →
  List.find (λ it, N.eqb it.(ps_session_id) id)
    (stable_sort timestamp_leb (omap (session_of_entry from_json) (write_file (session_file uuid_str id) content files))) = None.
Proof.
  intros Hc [Hnd Hnames]. destruct (write_file_spec (session_file uuid_str id) content files Hnd) as [_ Hw].
  destruct (List.find _ _) as [q|] eqn:Ef; [|done]. exfalso.
  apply List.find_some in Ef as [Hq Hid]. apply N.eqb_eq in Hid.
  apply list_elem_of_In in Hq. rewrite elem_of_stable_sort, list_elem_of_omap in Hq.
  destruct Hq as ([n c] & Hin & Hq). unfold session_of_entry in Hq. simpl in Hq.
  destruct (bool_decide _); [|done]. destruct c as [c|]; [|done].
  apply Hw in Hin as [[-> [= ->]]|[Hn Hin]]; [congruence|]. destruct Hn. rewrite <- Hid. by eapply Hnames.
Qed.
End persistence.

(** ** Time-outs *)

(** Whether node [k] has a participant record that has timed out. *)
Definition node_stale (s : Sys) (now timeout_ms : N) (k : NodeId) : bool :=
  match s.(mgr).(lm_current_session) with
  | Some session =>
      match session.(ls_workspace).(gw_participants) !! k with
      | Some p => is_stale s.(mgr).(lm_local_node_id) now timeout_ms p
      | None => false
      end
  | None => false
  end.

Definition disconnect_if (b : bool) (p : LinkPeerState) : LinkPeerState :=
  if b then set_lp_connected false p else p.

Lemma contains_cons (k n : N) ids : contains k (n :: ids) = N.eqb k n || contains k ids.
Proof.
  unfold contains. apply eq_true_iff_eq.
  rewrite orb_true_iff, !bool_decide_eq_true, N.eqb_eq. apply elem_of_cons.
Qed.

Lemma disconnect_if_id b p : p.(lp_connected) = false → disconnect_if b p = p.
Proof. destruct p, b; simpl; intros; by subst. Qed.

Lemma disconnect_if_set b p :
  disconnect_if b (set_lp_connected false p) = set_lp_connected false p.
Proof. by destruct b. Qed.

Lemma foldl_disconnect_peer ids (c : bool) (P : gmap NodeId LinkPeerState) k :
  (foldl disconnect_peer (c, P) ids).2 !! k = disconnect_if (contains k ids) <$> P !! k.
Proof.
  revert c P. induction ids as [|n ids IH]; intros c P; cbn [foldl].
  - unfold contains. rewrite bool_decide_false by set_solver. simpl. by destruct (P !! k).
  - rewrite contains_cons. unfold disconnect_peer at 2. simpl.
    destruct (P !! n) as [p|] eqn:E; [destruct (lp_connected p) eqn:Ec|]; rewrite IH.
    all: destruct (N.eqb_spec k n) as [->|Hne]; simpl; try done.
    + rewrite lookup_insert_eq, E. simpl. by rewrite disconnect_if_set.
    + by rewrite lookup_insert_ne.
    + rewrite E. simpl. f_equal. rewrite disconnect_if_id by done. simpl. destruct p; simpl in *; by subst.
    + by rewrite E.
Qed.

Lemma foldl_disconnect_changed ids (c : bool) (P : gmap NodeId LinkPeerState) :
  (foldl disconnect_peer (c, P) ids).1 = true ↔
  c = true ∨ ∃ k p, k ∈ ids ∧ P !! k = Some p ∧ p.(lp_connected) = true.
Proof.
  revert c P. induction ids as [|n ids IH]; intros c P; cbn [foldl]; [set_solver|].
  unfold disconnect_peer at 2. simpl.
  destruct (P !! n) as [p|] eqn:E; [destruct (lp_connected p) eqn:Ec|]; rewrite IH.
  - split; intros _; [|by left]. right. exists n, p. split_and!; [left|done..].
  - split.
    + intros [?|(k & q & Hk & Hq & Hc)]; [by left|]. right. exists k, q. by split; [right|].
    + intros [?|(k & q & Hk & Hq & Hc)]; [by left|].
      apply elem_of_cons in Hk as [->|Hk]; [congruence|]. right. eauto.
  - split.
    + intros [?|(k & q & Hk & Hq & Hc)]; [by left|]. right. exists k, q. by split; [right|].
    + intros [?|(k & q & Hk & Hq & Hc)]; [by left|].
      apply elem_of_cons in Hk as [->|Hk]; [congruence|]. right. eauto.
Qed.

(** The nodes whose record in the participants map has timed out. *)
Lemma elem_of_stale_ids local now t (ps : gmap NodeId Participant) k :
  map_Forall (λ k p, p.(pa_node_id) = k) ps →
  k ∈ (pa_node_id <$> List.filter (is_stale local now t) (bt_values ps)) ↔
  ∃ p, ps !! k = Some p ∧ is_stale local now t p = true.
Proof.
  intros Hps. rewrite list_elem_of_fmap. split.
  - intros (p & -> & Hp). apply list_elem_of_In, List.filter_In in Hp as [Hp Hs].
    apply list_elem_of_In, elem_of_bt_values in Hp as [k Hk].
    rewrite (Hps _ _ Hk). eauto.
  - intros (p & Hk & Hs). exists p. split; [by rewrite (Hps _ _ Hk)|].
    apply list_elem_of_In, List.filter_In. split; [|done].
    apply list_elem_of_In, elem_of_bt_values. eauto.
Qed.

(** ** Closing tiles *)
Lemma close_tile_remote id m :
  (close_tile id m).(lm_remote_tiles) = delete id m.(lm_remote_tiles).
Proof. unfold close_tile, apply_layout_op. by destruct (lm_current_session m). Qed.

Lemma close_tiles_remote ids m k :
  (foldl (λ m id, close_tile id m) m ids).(lm_remote_tiles) !! k =
  if decide (k ∈ ids) then None else m.(lm_remote_tiles) !! k.
Proof.
  revert m. induction ids as [|id ids IH]; intros m; cbn [foldl].
  - by rewrite decide_False by set_solver.
  - rewrite IH, close_tile_remote. rewrite lookup_delete.
    repeat destruct (decide _); set_solver.
Qed.

Lemma close_tile_session id m session :
  m.(lm_current_session) = Some session → session_ok session.(ls_workspace) →
  ∃ session', (close_tile id m).(lm_current_session) = Some session' ∧
    session_ok session'.(ls_workspace) ∧
    session'.(ls_workspace).(gw_tiles) = delete id session.(ls_workspace).(gw_tiles).
Proof.
  intros E Hs. unfold close_tile, apply_layout_op. rewrite E. simpl.
  eexists. split; [done|]. simpl. split; [by apply session_ok_apply_op|].
  unfold apply_op. rewrite apply_op_kind_spec; [done|]. apply Hs.
Qed.

Lemma close_tiles_session ids m session :
  m.(lm_current_session) = Some session → session_ok session.(ls_workspace) →
  ∃ session', (foldl (λ m id, close_tile id m) m ids).(lm_current_session) = Some session' ∧
    ∀ k, session'.(ls_workspace).(gw_tiles) !! k =
         if decide (k ∈ ids) then None else session.(ls_workspace).(gw_tiles) !! k.
Proof.
  revert m session. induction ids as [|id ids IH]; intros m session E Hs; cbn [foldl].
  - exists session. split; [done|]. intros k. by rewrite decide_False by set_solver.
  - destruct (close_tile_session id m session E Hs) as (s1 & E1 & Hs1 & Ht1).
    destruct (IH _ s1 E1 Hs1) as (s2 & E2 & Ht2). exists s2. split; [done|].
    intros k. rewrite Ht2, Ht1, lookup_delete. repeat destruct (decide _); set_solver.
Qed.

(** A remote tile that [purge_stale_remote_tiles] removes: its owner is a known
    peer that is not connected, and it was last alive too long ago. *)
Definition tile_purged (s : Sys) (now timeout_ms : N) (t : RemoteTile) : Prop :=
  (∃ p, s.(mgr).(lm_peers) !! t.(rt_metadata).(tm_owner_node_id) = Some p ∧
        p.(lp_connected) = false) ∧
  (timeout_ms < now - t.(rt_metadata).(tm_last_known_alive_millis))%N.

Lemma elem_of_disconnected (P : gmap NodeId LinkPeerState) k :
  map_Forall (λ k p, p.(lp_node_id) = k) P →
  k ∈ (list_to_set (lp_node_id <$> List.filter (λ p, negb p.(lp_connected)) (bt_values P))
       : gset NodeId) ↔
  ∃ p, P !! k = Some p ∧ p.(lp_connected) = false.
Proof.
  intros HP. rewrite elem_of_list_to_set, list_elem_of_fmap. split.
  - intros (p & -> & Hp). apply list_elem_of_In, List.filter_In in Hp as [Hp Hc%negb_true_iff].
    apply list_elem_of_In, elem_of_bt_values in Hp as [k Hk]. rewrite (HP _ _ Hk). eauto.
  - intros (p & Hk & Hc). exists p. split; [by rewrite (HP _ _ Hk)|].
    apply list_elem_of_In, List.filter_In. rewrite Hc. split; [|done].
    apply list_elem_of_In, elem_of_bt_values. eauto.
Qed.

Lemma elem_of_purged s now t k :
  manager_ok s.(mgr) →
  k ∈ ((λ t, t.(rt_metadata).(tm_tile_id)) <$>
        List.filter (λ r,
          bool_decide (r.(rt_metadata).(tm_owner_node_id) ∈
            (list_to_set (lp_node_id <$> List.filter (λ p, negb p.(lp_connected))
               (bt_values s.(mgr).(lm_peers))) : gset NodeId)) &&
          (t <? saturating_sub now r.(rt_metadata).(tm_last_known_alive_millis))%N)
          (bt_values s.(mgr).(lm_remote_tiles))) ↔
  ∃ r, s.(mgr).(lm_remote_tiles) !! k = Some r ∧ tile_purged s now t r.
Proof.
  intros [HP HR _ _]. rewrite list_elem_of_fmap. unfold tile_purged. split.
  - intros (r & -> & Hr). apply list_elem_of_In, List.filter_In in Hr as [Hr Hc].
    apply andb_true_iff in Hc as [Hd%bool_decide_eq_true_1 Ht%N.ltb_lt].
    apply list_elem_of_In, elem_of_bt_values in Hr as [k Hk]. rewrite (HR _ _ Hk).
    exists r. apply elem_of_disconnected in Hd; [|done]. done.
  - intros (r & Hk & Hd & Ht). exists r. split; [by rewrite (HR _ _ Hk)|].
    apply list_elem_of_In, List.filter_In. split; [apply list_elem_of_In, elem_of_bt_values; eauto|].
    apply andb_true_iff. split; [|by apply N.ltb_lt].
    apply bool_decide_eq_true_2. by apply elem_of_disconnected.
Qed.

(** ** Sending *)

(** The messages that sending [kind] to [addrs] hands to the network: one per address,
    with consecutive nonces and successive clock readings. *)
Fixpoint envelopes_to (session_id : SessionId) (local : NodeId) (kind : MessageKind)
    (times : nat → N) (tick : nat) (nonce : N) (addrs : list string) : list PendingMessage :=
  match addrs with
  | [] => []
  | addr :: addrs =>
      MkPendingMessage addr (MkEnvelope PROTOCOL_VERSION session_id local nonce (times tick) kind)
        :: envelopes_to session_id local kind times (S tick) (wrapping_add_u64 nonce 1) addrs
  end.

Lemma enqueue_to_all_spec kind addrs s session :
  s.(mgr).(lm_current_session) = Some session →
  let s' := enqueue_to_all kind addrs s in
  s'.(mgr).(lm_transport).(tr_outgoing) =
    s.(mgr).(lm_transport).(tr_outgoing) ++
    envelopes_to session.(ls_workspace).(gw_session_id) s.(mgr).(lm_local_node_id) kind
      s.(world).(w_times) s.(world).(w_next_time) s.(mgr).(lm_next_nonce) addrs ∧
  s'.(mgr).(lm_peers) = s.(mgr).(lm_peers) ∧ s'.(world).(w_sent) = s.(world).(w_sent) ∧
  s'.(mgr).(lm_current_session) = Some session.
Proof.
  intros E. unfold enqueue_to_all. revert s E.
  induction addrs as [|addr addrs IH]; intros s E; cbn [foldl envelopes_to].
  - by rewrite app_nil_r.
  - destruct (make_envelope kind s) as [env s1] eqn:Em.
    unfold make_envelope in Em. rewrite E in Em. simpl in Em. simplify_eq/=.
    edestruct (IH (transport_enqueue addr
      (MkEnvelope PROTOCOL_VERSION (gw_session_id (ls_workspace session))
         (lm_local_node_id (mgr s)) (lm_next_nonce (mgr s)) (w_times (world s) (w_next_time (world s)))
         kind)
      (MkSys (set_lm_next_nonce (wrapping_add_u64 (lm_next_nonce (mgr s)) 1) (mgr s))
         (set_w_next_time (S (w_next_time (world s))) (world s))))) as (H1 & H2 & H3 & H4); [done|].
    rewrite H1, H2, H3, H4. simpl. by rewrite <- app_assoc.
Qed.

(** ** Choosing a session *)
Lemma max_by_key_spec {A} (key : A → nat) l x :
  max_by_key key l = Some x →
  ∃ l1 l2, l = l1 ++ x :: l2 ∧ Forall (λ y, key y ≤ key x) l1 ∧ Forall (λ y, key y < key x) l2.
Proof.
  revert x. induction l as [|y l IH]; simpl; intros x; [done|].
  destruct (max_by_key key l) as [z|] eqn:E.
  - destruct (IH z eq_refl) as (l1 & l2 & -> & H1 & H2).
    destruct (Nat.ltb_spec (key z) (key y)); intros [= <-].
    + exists [], (l1 ++ z :: l2). split_and!; [done|constructor|].
      apply Forall_app. split; [|constructor; [done|]]; eapply Forall_impl; eauto; simpl; lia.
    + exists (y :: l1), l2. split_and!; [done| |done]. constructor; [lia|done].
  - intros [= ->]. destruct l as [|z l]; [|simpl in E; by repeat split_match_in E].
    exists [], []. split_and!; [done|constructor..].
Qed.

Lemma timestamp_leb_total p q : timestamp_leb p q = true ∨ timestamp_leb q p = true.
Proof. unfold timestamp_leb. rewrite !N.leb_le. lia. Qed.

Lemma timestamp_leb_trans p q r :
  timestamp_leb p q = true → timestamp_leb q r = true → timestamp_leb p r = true.
Proof. unfold timestamp_leb. rewrite !N.leb_le. lia. Qed.

(** ** Trust *)

(** Entries whose name and fingerprint are the same string. *)
Definition self_named (store : TrustStore) : Prop :=
  Forall (λ n, n.(tn_node) = n.(tn_fingerprint)) store.(ts_nodes).

Lemma self_named_trust store n : self_named store → self_named (TrustStore_trust store n n).
Proof.
  unfold self_named, TrustStore_trust. intros H.
  destruct (update_first _ _ _) as [l|] eqn:E; simpl.
  - apply update_first_Some in E as (l1 & x & l2 & E1 & -> & Hp & _). rewrite E1 in H.
    apply Forall_app in H as [H1 [_ H2]%Forall_cons]. apply Forall_app. split; [done|].
    constructor; [|done]. simpl. by apply bool_decide_eq_true_1 in Hp.
  - apply Forall_app. split; [done|]. by repeat constructor.
Qed.

Lemma self_named_forget store n : self_named store → self_named (TrustStore_forget store n).
Proof.
  unfold self_named, TrustStore_forget. rewrite !Forall_forall. simpl. intros H x Hx.
  apply list_elem_of_In, List.filter_In in Hx as [Hx _]. apply H. by apply list_elem_of_In.
Qed.

(** The commands that write the trust store, in the order the user gives them. *)
Inductive TrustCommand :=
  | CmdPair (node : option string)
  | CmdTrust (node : string)
  | CmdForget (node : string).

Definition run_trust (trust_to_json : TrustStore → option string) (s : Sys) (c : TrustCommand) : Sys :=
  match c with
  | CmdPair node => (LinkManager_pair trust_to_json node s).2
  | CmdTrust node => (trust_node trust_to_json node s).2
  | CmdForget node => (forget_node trust_to_json node s).2
  end.

Lemma persist_trust_mgr trust_to_json s : (persist_trust trust_to_json s).2.(mgr) = s.(mgr).
Proof. unfold persist_trust. by destruct (TrustStore_persist _ _ _). Qed.

Lemma self_named_run trust_to_json cmds s :
  self_named s.(mgr).(lm_trust_store) →
  self_named (foldl (run_trust trust_to_json) s cmds).(mgr).(lm_trust_store).
Proof.
  revert s. induction cmds as [|c cmds IH]; intros s H; simpl; [done|]. apply IH.
  destruct c as [[node|]|node|node]; cbn [run_trust];
    unfold LinkManager_pair, trust_node, forget_node, unpair;
    rewrite ?persist_trust_mgr; simpl; auto using self_named_trust, self_named_forget.
Qed.

(** ** Samples *)
Definition sample_layout_op_max : IncomingMessage :=
  MkIncomingMessage "peer:1" (MkEnvelope 1 7 2 0 0
    (MLayoutOp (MkLayoutOp u64_max 2 0 EnterOverview))).

Definition sample_heartbeat : IncomingMessage :=
  MkIncomingMessage "peer:1" (MkEnvelope 1 7 2 1 0 (MHeartbeat (MkHeartbeat 0 0))).

Definition sample_incoming (msgs : list IncomingMessage) (s : Sys) : Sys :=
  on_mgr (λ m, set_lm_transport (set_tr_incoming msgs m.(lm_transport)) m) s.

(** A manager whose session is [sample_ws], with two peers and one remote tile. *)
Definition sample_running : Sys :=
  on_mgr (λ m,
    set_lm_peers (<[2%N := MkLinkPeerState 2 "two" (Some "10.0.0.2:7") "fp2" false]>
                   (<[3%N := MkLinkPeerState 3 "three" (Some "10.0.0.3:7") "fp3" true]> ∅))
      (set_lm_remote_tiles {[ 11%N := RemoteTile_new (sample_tile 11 2 100 640 500) ]}
         (set_lm_current_session (Some (MkLinkedSession sample_ws OperationLog_default))
            (set_lm_enabled true m)))) sample_sys.

Lemma sample_running_ok : manager_ok sample_running.(mgr).
Proof.
  split; [..|constructor].
  - apply map_Forall_insert_2; [done|]. apply map_Forall_insert_2; [done|]. apply map_Forall_empty.
  - by apply map_Forall_singleton.
  - apply sample_ws_session_ok.
Qed.

(** ** Properties *)

(** Termination and absence of panics. [process_incoming] handles every queue of
    messages without panicking, as long as the sequence numbers in the session and
    in the messages leave room for one operation per message below [u64::MAX]. *)
Theorem process_incoming_total to_json uuid_str s :
  let msgs := s.(mgr).(lm_transport).(tr_incoming) in
  Forall (λ msg, (message_seq msg + N.of_nat (length msgs) < u64_max)%N) msgs →
  seq_room (length msgs) s →
  is_Some (process_incoming to_json uuid_str s).
Proof.
  intros msgs Hf Hs. unfold process_incoming. simpl.
  destruct (handle_messages_total to_json uuid_str msgs false
    (on_mgr (set_lm_transport (set_tr_incoming [] s.(mgr).(lm_transport))) s)) as (c & s' & H);
    [done|..].
  - revert Hs. unfold seq_room. simpl. done.
  - exists (c, s'). exact H.
Qed.

Lemma process_incoming_total_witness :
  is_Some (process_incoming sample_to_json sample_uuid_str
    (sample_incoming [sample_snapshot; sample_heartbeat] sample_running)).
Proof.
  apply process_incoming_total; [|by vm_compute].
  repeat (constructor; [by vm_compute|]). constructor.
Defined.

(** Error. A peer can make the compositor panic: a layout operation with sequence
    number [u64::MAX] followed by any heartbeat makes [process_incoming] overflow in the
    gap test. *)
Theorem heartbeat_overflow_panics to_json uuid_str s session a1 a2 e1 e2 op hb :
  s.(mgr).(lm_current_session) = Some session →
  s.(mgr).(lm_transport).(tr_incoming) = [MkIncomingMessage a1 e1; MkIncomingMessage a2 e2] →
  e1.(env_kind) = MLayoutOp op → op.(lo_seq) = u64_max → e2.(env_kind) = MHeartbeat hb →
  process_incoming to_json uuid_str s = None.
Proof.
  intros E Hin H1 Hop H2. unfold process_incoming. cbn [drain_incoming]. rewrite Hin.
  simpl handle_messages. unfold handle_message. simpl im_envelope. rewrite H1, H2.
  unfold handle_heartbeat, handle_layout_op, on_session, touch_participant. simpl. rewrite E. simpl.
  rewrite apply_op_participants.
  destruct (_ !! env_sender_node_id e2); unfold on_mgr, on_workspace, on_session; simpl;
    rewrite ?E; simpl; by rewrite apply_op_seq, Hop.
Qed.

Lemma heartbeat_overflow_panics_witness :
  process_incoming sample_to_json sample_uuid_str
    (sample_incoming [sample_layout_op_max; sample_heartbeat] sample_running) = None.
Proof. by eapply heartbeat_overflow_panics. Defined.

(** The three synchronisation entry points never hit their
    [expect("session created by enable")], enabled or not. *)
Theorem sync_never_panics vps tiles focused s :
  is_Some (sync_local_viewports vps s) ∧ is_Some (sync_local_tiles tiles s) ∧
  is_Some (sync_focused_tile focused s).
Proof.
  unfold sync_local_viewports, sync_local_tiles, sync_focused_tile.
  destruct (lm_enabled (mgr s)); [|split_and!; eauto].
  destruct (ensure_local_participant_Some s) as (s' & session & -> & ->).
  split_and!; [eauto..|]. case_decide; eauto.
Qed.

(** C36: round trip. When the session directory can be written and keeps each session under its own
    name, persisting the current session and restoring it by its id enables the link with the
    workspace that was persisted, the floats of its viewports apart, and an empty operation log, if
    the file can be read; if it cannot, as when a viewport has an infinite coordinate, nothing is
    restored and nothing changes. ([serde_json] is only known to read back all but the floats of
    what it wrote when it reads it; a [Uuid] prints as a non-empty string.) *)
Theorem persist_restore_roundtrip to_json from_json uuid_str s session content :
  reads_back to_json from_json → (∀ u, uuid_str u ≠ EmptyString) →
  names_ok from_json uuid_str s.(world).(w_sessions) →
  s.(world).(w_dirs_ok) = true → s.(world).(w_write_ok) = true →
  s.(mgr).(lm_current_session) = Some session →
  to_json (persisted_of s.(mgr) session (now_millis s).1) = Some content →
  let id := session.(ls_workspace).(gw_session_id) in
  let r := persist_current_session to_json uuid_str s in
  let r' := restore_session from_json id r.2 in
  r.1 = Some (Some id) ∧
  match from_json content with
  | Some _ =>
      r'.1 = Some true ∧ r'.2.(mgr).(lm_enabled) = true ∧
      ∃ ws, r'.2.(mgr).(lm_current_session) = Some (MkLinkedSession ws OperationLog_default) ∧
        workspace_without_floats ws = workspace_without_floats session.(ls_workspace)
  | None => r' = (Some false, r.2)
  end.
Proof.
  intros Hj Hu Hn Hd Hw E Hc id. subst id. unfold persist_current_session. rewrite E. simpl in *.
  set (p := persisted_of (mgr s) session (w_times (world s) (w_next_time (world s)))) in *.
  unfold persist_session, ensure_dirs. simpl. rewrite Hd, Hc, Hw. simpl. split; [done|].
  unfold restore_session, load_sessions, ensure_dirs. simpl. rewrite Hd.
  destruct (from_json content) as [p'|] eqn:Ep.
  - destruct (reads_back_layout _ _ (Hj _ _ _ Hc Ep)) as [Eid El].
    pose proof (find_written from_json uuid_str p' content (w_sessions (world s)) (Hu _) Ep Hn) as Hf.
    rewrite Eid in Hf. simpl in Hf. rewrite Hf. cbn. split_and!; [done|done|]. by eexists.
  - pose proof (find_unreadable from_json uuid_str (ps_session_id p) content (w_sessions (world s)) Ep Hn) as Hf.
    simpl in Hf. by rewrite Hf.
Qed.

(** A session whose persisted form is [sample_persisted]. *)
Definition sample_persistable : Sys :=
  on_mgr (set_lm_current_session (Some (MkLinkedSession sample_ws OperationLog_default))) sample_sys.

Lemma persist_restore_roundtrip_witness :
  let r := persist_current_session sample_to_json sample_uuid_str sample_persistable in
  let r' := restore_session sample_from_json 7 r.2 in
  r'.1 = Some true ∧ ∃ ws, r'.2.(mgr).(lm_current_session) = Some (MkLinkedSession ws OperationLog_default) ∧
    workspace_without_floats ws = workspace_without_floats sample_ws.
Proof.
  destruct (persist_restore_roundtrip sample_to_json sample_from_json sample_uuid_str sample_persistable
    (MkLinkedSession sample_ws OperationLog_default) "session" sample_reads_back) as [_ (H1 & _ & H2)]; try reflexivity.
  - intros u. unfold sample_uuid_str. by destruct (N.eqb u 7).
  - split; [constructor|]. intros name content p H. by apply elem_of_nil in H.
  - split; [exact H1|exact H2].
Defined.

(** A restored session forgets the sequence numbers it has used: the next local
    operation is numbered 1 and the workspace's [operation_seq] goes back to 1, whatever it
    was when the session was persisted. *)
Theorem restored_session_rewinds_seq from_json id s s' kind :
  restore_session from_json id s = (Some true, s') →
  ∃ session, (apply_layout_op kind s'.(mgr)).1 = Some 1%N ∧
    (apply_layout_op kind s'.(mgr)).2.(lm_current_session) = Some session ∧
    session.(ls_workspace).(gw_operation_seq) = 1%N.
Proof.
  unfold restore_session. destruct (load_sessions _ _); [|done].
  destruct (List.find _ _) as [p|]; [|done]. intros [= <-]. unfold apply_layout_op. simpl.
  eexists. split_and!; [done|done|]. simpl. by rewrite apply_op_seq.
Qed.

Lemma restored_session_rewinds_seq_witness :
  sample_ws.(gw_operation_seq) = 3%N ∧
  ∃ session, (apply_layout_op EnterOverview
      (restore_session sample_from_json 7
         (persist_current_session sample_to_json sample_uuid_str sample_persistable).2).2.(mgr)).1
        = Some 1%N ∧
    (apply_layout_op EnterOverview
      (restore_session sample_from_json 7
         (persist_current_session sample_to_json sample_uuid_str sample_persistable).2).2.(mgr)).2
      .(lm_current_session) = Some session ∧ session.(ls_workspace).(gw_operation_seq) = 1%N.
Proof.
  split; [reflexivity|].
  apply (restored_session_rewinds_seq sample_from_json 7
    (persist_current_session sample_to_json sample_uuid_str sample_persistable).2).
  vm_compute. reflexivity.
Defined.

(** Functional behaviour of [check_peer_timeouts]. A peer is disconnected exactly when
    the session has a participant record for it that was seen, is not the local node and is
    older than the time-out; every other peer keeps its state, in particular every peer
    without a participant record. The result says whether a connected peer was lost. *)
Theorem check_peer_timeouts_spec timeout_ms s :
  s.(mgr).(lm_enabled) = true → manager_ok s.(mgr) →
  let now := (now_millis s).1 in
  let r := check_peer_timeouts timeout_ms s in
  (∀ k, r.2.(mgr).(lm_peers) !! k =
          disconnect_if (node_stale s now timeout_ms k) <$> s.(mgr).(lm_peers) !! k) ∧
  (r.1 = true ↔ ∃ k p, s.(mgr).(lm_peers) !! k = Some p ∧ p.(lp_connected) = true ∧
                       node_stale s now timeout_ms k = true).
Proof.
  intros He Hm. unfold check_peer_timeouts. rewrite He. simpl.
  set (ids := match lm_current_session (mgr s) with Some _ => _ | None => _ end).
  set (now := w_times _ _) in *.
  assert (Hids : ∀ k, k ∈ ids ↔ node_stale s now timeout_ms k = true).
  { intros k. unfold ids, node_stale. pose proof (mo_session _ Hm) as Hs.
    destruct (lm_current_session (mgr s)) as [session|]; [|set_solver].
    rewrite elem_of_stale_ids by apply Hs. destruct (_ !! k); naive_solver. }
  split.
  - intros k. rewrite foldl_disconnect_peer. do 2 f_equal. unfold contains.
    apply eq_true_iff_eq. by rewrite bool_decide_eq_true, Hids.
  - rewrite foldl_disconnect_changed. setoid_rewrite Hids. naive_solver.
Qed.

Lemma check_peer_timeouts_spec_witness :
  let r := check_peer_timeouts 5 sample_running in
  (∀ k, r.2.(mgr).(lm_peers) !! k =
     disconnect_if (node_stale sample_running 1000 5 k) <$> sample_running.(mgr).(lm_peers) !! k) ∧
  (r.1 = true ↔ ∃ k p, sample_running.(mgr).(lm_peers) !! k = Some p ∧ p.(lp_connected) = true ∧
                       node_stale sample_running 1000 5 k = true).
Proof.
  apply (check_peer_timeouts_spec 5 sample_running); [reflexivity|apply sample_running_ok].
Defined.

(** Functional behaviour of [purge_stale_remote_tiles]. Exactly the remote tiles that
    belong to a known, disconnected peer and were last alive more than the time-out ago are
    removed, both from the remote tiles and from the session's workspace, and their ids are
    returned. *)
Theorem purge_stale_remote_tiles_spec timeout_ms s session :
  s.(mgr).(lm_enabled) = true → manager_ok s.(mgr) →
  s.(mgr).(lm_current_session) = Some session →
  let now := (now_millis s).1 in
  let r := purge_stale_remote_tiles timeout_ms s in
  let m := r.2.(mgr) in
  (∀ k, k ∈ r.1 ↔
     ∃ t, s.(mgr).(lm_remote_tiles) !! k = Some t ∧ tile_purged s now timeout_ms t) ∧
  (∀ k, m.(lm_remote_tiles) !! k =
          if decide (k ∈ r.1) then None else s.(mgr).(lm_remote_tiles) !! k) ∧
  ∃ session', m.(lm_current_session) = Some session' ∧
    ∀ k, session'.(ls_workspace).(gw_tiles) !! k =
           if decide (k ∈ r.1) then None else session.(ls_workspace).(gw_tiles) !! k.
Proof.
  intros He Hm E. unfold purge_stale_remote_tiles. rewrite He. simpl. split_and!.
  - intros k. by apply elem_of_purged.
  - intros k. apply close_tiles_remote.
  - apply close_tiles_session; [done|]. pose proof (mo_session _ Hm) as H. by rewrite E in H.
Qed.

Lemma purge_stale_remote_tiles_spec_witness :
  let r := purge_stale_remote_tiles 5 sample_running in
  r.1 = [11%N] ∧
  ∃ session', r.2.(mgr).(lm_current_session) = Some session' ∧
    ∀ k, session'.(ls_workspace).(gw_tiles) !! k =
           if decide (k ∈ r.1) then None else sample_ws.(gw_tiles) !! k.
Proof.
  split; [reflexivity|].
  apply (purge_stale_remote_tiles_spec 5 sample_running
    (MkLinkedSession sample_ws OperationLog_default)); [done|apply sample_running_ok|done].
Defined.

(** Every join request is accepted. Whatever the trust store and the pairing mode are,
    and whether or not the sender is a known peer, the request is answered with a
    [JoinAccept] that carries the leader, the generation and the sequence number. *)
Theorem join_request_always_accepted sender node_id s session :
  s.(mgr).(lm_current_session) = Some session →
  (handle_join_request sender node_id s).(world).(w_sent) =
  s.(world).(w_sent) ++ s.(mgr).(lm_transport).(tr_outgoing) ++
  [MkPendingMessage sender
     (MkEnvelope PROTOCOL_VERSION session.(ls_workspace).(gw_session_id)
        s.(mgr).(lm_local_node_id) s.(mgr).(lm_next_nonce) (now_millis s).1
        (MJoinAccept (MkJoinAccept session.(ls_workspace).(gw_leader_node_id)
           session.(ls_workspace).(gw_generation)
           session.(ls_workspace).(gw_operation_seq))))].
Proof.
  intros E. unfold handle_join_request, make_envelope. simpl. rewrite E. simpl. done.
Qed.

Lemma join_request_always_accepted_witness :
  length (handle_join_request "10.9.9.9:1" 77 sample_running).(world).(w_sent) = 1.
Proof.
  rewrite (join_request_always_accepted "10.9.9.9:1" 77 sample_running
    (MkLinkedSession sample_ws OperationLog_default) eq_refl). reflexivity.
Defined.

(** Functional behaviour of [send_heartbeat]. One heartbeat per connected peer
    with an address is handed to the network, in the order of the node ids, after
    what was queued before, each with the session's sequence number and generation
    and with consecutive nonces; nothing stays queued. *)
Theorem send_heartbeat_spec s session :
  s.(mgr).(lm_enabled) = true → s.(mgr).(lm_current_session) = Some session →
  let s' := send_heartbeat s in
  let ws := session.(ls_workspace) in
  s'.(mgr).(lm_transport).(tr_outgoing) = [] ∧
  s'.(world).(w_sent) =
    s.(world).(w_sent) ++ s.(mgr).(lm_transport).(tr_outgoing) ++
    envelopes_to ws.(gw_session_id) s.(mgr).(lm_local_node_id)
      (MHeartbeat (MkHeartbeat ws.(gw_operation_seq) ws.(gw_generation)))
      s.(world).(w_times) s.(world).(w_next_time) s.(mgr).(lm_next_nonce)
      (omap lp_addr (List.filter lp_connected (bt_values s.(mgr).(lm_peers)))).
Proof.
  intros He E. unfold send_heartbeat. rewrite He, E. simpl. split; [done|].
  edestruct (enqueue_to_all_spec (MHeartbeat (MkHeartbeat (gw_operation_seq (ls_workspace session))
    (gw_generation (ls_workspace session)))) (connected_addrs (mgr s)) s session E)
    as (H1 & _ & H2 & _).
  by rewrite H1, H2.
Qed.

Lemma send_heartbeat_spec_witness :
  (send_heartbeat sample_running).(mgr).(lm_transport).(tr_outgoing) = [] ∧
  pm_addr <$> (send_heartbeat sample_running).(world).(w_sent) = ["10.0.0.3:7"%string].
Proof.
  split.
  - apply (send_heartbeat_spec sample_running (MkLinkedSession sample_ws OperationLog_default));
      reflexivity.
  - reflexivity.
Defined.

(** [restore_best_session] picks, among the sessions that can be loaded, one that shares
    the most participants with the known peers and the local node and, among those, the one
    persisted last. *)
Theorem restore_best_is_newest from_json s id s' :
  restore_best_session from_json s = (Some (Some id), s') →
  ∃ sessions found,
    let participants := bt_keys s.(mgr).(lm_peers) ++ [s.(mgr).(lm_local_node_id)] in
    let score p := peer_match_score p.(ps_participants) participants in
    load_sessions from_json s.(world) = Some sessions ∧ found ∈ sessions ∧
    found.(ps_session_id) = id ∧
    s'.(mgr).(lm_current_session) =
      Some (MkLinkedSession found.(ps_global_layout) OperationLog_default) ∧
    ∀ p, p ∈ sessions → score p ≤ score found ∧
      (score p = score found → (p.(ps_timestamp_millis) ≤ found.(ps_timestamp_millis))%N).
Proof.
  unfold restore_best_session. destruct (load_sessions _ _) as [l|] eqn:El; [|done].
  destruct (restore_candidate l _) as [found|] eqn:Ef; [|done]. intros [= <- <-].
  exists l, found. simpl.
  pose proof (max_by_key_elem _ _ _ Ef). apply max_by_key_spec in Ef as (l1 & l2 & Hl & H1 & H2).
  split_and!; [done..|].
  assert (Hs : StronglySorted (λ a b, timestamp_leb a b = true) l).
  { unfold load_sessions in El. split_match_in El; [|done]. injection El as <-.
    apply stable_sort_sorted; [apply timestamp_leb_total|apply timestamp_leb_trans]. }
  rewrite Hl in Hs |- *. rewrite Forall_forall in H1, H2. simpl in H1, H2.
  intros p [Hp|[->|Hp]%elem_of_cons]%elem_of_app; [|lia|specialize (H2 _ Hp); lia].
  split; [by apply H1|]. intros _.
  apply N.leb_le, (StronglySorted_app_1_elem_of _ _ _ _ _ Hs Hp). left.
Qed.

Lemma restore_best_is_newest_witness :
  let s := (persist_current_session sample_to_json sample_uuid_str sample_persistable).2 in
  ∃ sessions found,
    load_sessions sample_from_json s.(world) = Some sessions ∧ found ∈ sessions ∧
    found.(ps_session_id) = 7%N.
Proof.
  intros s.
  destruct (restore_best_is_newest sample_from_json s 7%N (restore_best_session sample_from_json s).2)
    as (sessions & found & H1 & H2 & H3 & _); [vm_compute; reflexivity|].
  exists sessions, found. exact (conj H1 (conj H2 H3)).
Defined.

(** The trust commands can only make a peer trusted whose host name is its fingerprint.
    They store the given name as the fingerprint too, so after any sequence of pair, trust
    and forget commands on an empty store, a peer listed as trusted has a fingerprint equal
    to its host name, while a manager's own fingerprint is [niri-link:] and its node id. *)
Theorem trusted_peers_are_self_named trust_to_json cmds s peer :
  s.(mgr).(lm_trust_store) = TrustStore_default →
  let m := (foldl (run_trust trust_to_json) s cmds).(mgr) in
  peer ∈ bt_values m.(lm_peers) →
  is_trusted m.(lm_trust_store) peer.(lp_hostname) peer.(lp_fingerprint) = true →
  peer.(lp_hostname) = peer.(lp_fingerprint).
Proof.
  intros Hs m _ Ht.
  assert (H : self_named m.(lm_trust_store)).
  { apply self_named_run. rewrite Hs. constructor. }
  unfold self_named in H. rewrite Forall_forall in H.
  apply existsb_exists in Ht as (n & Hn & Ht). apply list_elem_of_In, H in Hn.
  apply andb_true_iff in Ht as [Ht Hf%bool_decide_eq_true_1].
  apply orb_true_iff in Ht as [Ht%bool_decide_eq_true_1|Ht%bool_decide_eq_true_1]; congruence.
Qed.

Definition sample_self_named : LinkPeerState :=
  MkLinkPeerState 4 "laptop" (Some "10.0.0.4:7") "laptop" true.

Lemma trusted_peers_are_self_named_witness :
  let s := on_mgr (set_lm_peers {[ 4%N := sample_self_named ]}) sample_sys in
  let m := (foldl (run_trust (λ _, Some "store"%string)) s [CmdTrust "laptop"]).(mgr) in
  is_trusted m.(lm_trust_store) "laptop" "laptop" = true ∧
  sample_self_named.(lp_hostname) = sample_self_named.(lp_fingerprint).
Proof.
  intros s m. split; [reflexivity|].
  apply (trusted_peers_are_self_named (λ _, Some "store"%string) [CmdTrust "laptop"] s);
    [reflexivity| |reflexivity].
  apply elem_of_bt_values. by exists 4%N.
Defined.
