(* ===== verification/LinkTiles.v ===== *)
(** * Synchronising the local tiles into the session

    [sync_local_tiles] replaces the tiles of the local node by the given ones. Here the
    two loops of the code are related to one equation between maps. *)
From S2P Require Import Prelude BTree Float64 LinkProtocol LinkSync LinkStores IpcTypes LinkManager LinkSession.

(** The local tiles by id. *)
Definition desired_tiles (tiles : list TileMetadata) : gmap TileId TileMetadata :=
  list_to_map ((λ t, (t.(tm_tile_id), t)) <$> tiles).

(** The tiles of the other nodes. *)
Definition foreign_tiles (local : NodeId) (m : gmap TileId TileMetadata) :
    gmap TileId TileMetadata :=
  filter (λ kt, kt.2.(tm_owner_node_id) ≠ local) m.

(** What [sync_local_tiles] makes of the tiles. *)
Definition synced_tiles (local : NodeId) (tiles : list TileMetadata)
    (m : gmap TileId TileMetadata) : gmap TileId TileMetadata :=
  desired_tiles tiles ∪ foreign_tiles local m.

Section sync.
Context (local : NodeId).
Implicit Types (tiles : list TileMetadata) (st : SyncState) (ws : GlobalWorkspace).

Lemma lookup_desired_Some tiles k t :
  NoDup (tm_tile_id <$> tiles) →
  desired_tiles tiles !! k = Some t ↔ t ∈ tiles ∧ t.(tm_tile_id) = k.
Proof.
  intros Hnd. unfold desired_tiles. rewrite <- elem_of_list_to_map.
  - rewrite list_elem_of_fmap. naive_solver.
  - by rewrite <- list_fmap_compose.
Qed.

Lemma lookup_desired_None tiles k :
  desired_tiles tiles !! k = None ↔ k ∉ (tm_tile_id <$> tiles).
Proof.
  unfold desired_tiles. rewrite <- not_elem_of_list_to_map. by rewrite <- list_fmap_compose.
Qed.

Lemma lookup_foreign m k :
  foreign_tiles local m !! k =
  match m !! k with
  | Some t => if decide (t.(tm_owner_node_id) = local) then None else Some t
  | None => None
  end.
Proof.
  unfold foreign_tiles. destruct (m !! k) as [t|] eqn:E.
  - case_decide as Hd.
    + apply map_lookup_filter_None. right. intros t'. rewrite E. intros [= <-]. simpl. tauto.
    + by apply map_lookup_filter_Some.
  - apply map_lookup_filter_None. by left.
Qed.

(** *** The removal loop *)
Lemma sync_remove_one desired st id k :
  (sync_remove desired st id).(ss_ws).(gw_tiles) !! k =
  if decide (k = id ∧ k ∉ desired) then None else st.(ss_ws).(gw_tiles) !! k.
Proof.
  unfold sync_remove. case_bool_decide as Hd.
  - rewrite decide_False; [done|]. intros [-> ?]. done.
  - cbn [ss_ws]. transitivity (delete id st.(ss_ws).(gw_tiles) !! k).
    + by destruct (decide (gw_focused_tile _ = _)).
    + rewrite lookup_delete. destruct (decide (id = k)) as [->|Hne].
      * by rewrite decide_True.
      * rewrite decide_False; [done|]. naive_solver.
Qed.

Lemma sync_remove_tiles desired ids st k :
  (foldl (sync_remove desired) st ids).(ss_ws).(gw_tiles) !! k =
  if decide (k ∈ ids ∧ k ∉ desired) then None else st.(ss_ws).(gw_tiles) !! k.
Proof.
  revert st. induction ids as [|id ids IH]; intros st; cbn [foldl].
  - rewrite decide_False; [done|]. intros [H _]. by apply elem_of_nil in H.
  - rewrite IH, sync_remove_one. pose proof (elem_of_cons ids k id) as Hc.
    destruct (decide (k ∈ ids ∧ k ∉ desired)), (decide (k ∈ id :: ids ∧ k ∉ desired)),
      (decide (k = id ∧ k ∉ desired)); tauto.
Qed.

Lemma sync_remove_columns desired ids st :
  (foldl (sync_remove desired) st ids).(ss_ws).(gw_columns) = st.(ss_ws).(gw_columns).
Proof.
  revert st. induction ids as [|id ids IH]; intros st; cbn [foldl]; [done|]. rewrite IH.
  unfold sync_remove. case_bool_decide; simpl; [done|]. by destruct (decide _).
Qed.

Lemma sync_remove_changed desired ids st :
  (foldl (sync_remove desired) st ids).(ss_changed) = true ↔
  st.(ss_changed) = true ∨ ∃ k, k ∈ ids ∧ k ∉ desired.
Proof.
  revert st. induction ids as [|id ids IH]; intros st; cbn [foldl].
  - split; [by left|]. intros [?|(k & Hk & _)]; [done|]. by apply elem_of_nil in Hk.
  - rewrite IH. unfold sync_remove. case_bool_decide as Hd; simpl.
    + split; (intros [?|(k & Hk & Hn)]; [by left|right; exists k]); [by split; [right|]|].
      apply elem_of_cons in Hk as [->|Hk]; done.
    + split; [|by left]. intros _. right. exists id. split; [left|done].
Qed.

(** *** The insertion loop *)
Lemma sync_insert_columns tiles st :
  (foldl sync_insert st tiles).(ss_ws).(gw_columns) = st.(ss_ws).(gw_columns).
Proof.
  revert st. induction tiles as [|t tiles IH]; intros st; simpl; [done|]. rewrite IH.
  unfold sync_insert. by destruct (decide _).
Qed.

Lemma sync_insert_one st t k :
  (sync_insert st t).(ss_ws).(gw_tiles) !! k =
  if decide (t.(tm_tile_id) = k) then Some t else st.(ss_ws).(gw_tiles) !! k.
Proof.
  unfold sync_insert. destruct (decide (_ !! tm_tile_id t = Some t)) as [E|_]; simpl.
  - destruct (decide (tm_tile_id t = k)) as [<-|]; [done|done].
  - apply lookup_insert.
Qed.

Lemma sync_insert_tiles tiles st :
  NoDup (tm_tile_id <$> tiles) →
  (foldl sync_insert st tiles).(ss_ws).(gw_tiles) = desired_tiles tiles ∪ st.(ss_ws).(gw_tiles).
Proof.
  revert st. induction tiles as [|t tiles IH]; intros st Hnd; cbn [foldl].
  - unfold desired_tiles. simpl. by rewrite (left_id_L ∅ (∪)).
  - rewrite fmap_cons in Hnd. apply NoDup_cons in Hnd as [Hnot Hnd]. rewrite IH by done.
    apply map_eq. intros k. unfold desired_tiles at 2. rewrite fmap_cons, list_to_map_cons.
    fold (desired_tiles tiles). rewrite !lookup_union, lookup_insert, sync_insert_one.
    destruct (decide (tm_tile_id t = k)) as [<-|]; [|done].
    rewrite (proj2 (lookup_desired_None tiles (tm_tile_id t))) by done.
    by destruct (gw_tiles (ss_ws st) !! tm_tile_id t).
Qed.

Lemma sync_insert_changed tiles st :
  NoDup (tm_tile_id <$> tiles) →
  (foldl sync_insert st tiles).(ss_changed) = true ↔
  st.(ss_changed) = true ∨
  ∃ t, t ∈ tiles ∧ st.(ss_ws).(gw_tiles) !! t.(tm_tile_id) ≠ Some t.
Proof.
  revert st. induction tiles as [|t tiles IH]; intros st Hnd; cbn [foldl].
  - split; [by left|]. intros [?|(t & Ht & _)]; [done|]. by apply elem_of_nil in Ht.
  - rewrite fmap_cons in Hnd. apply NoDup_cons in Hnd as [Hnot Hnd]. rewrite IH by done.
    assert (Hother : ∀ t', t' ∈ tiles → (sync_insert st t).(ss_ws).(gw_tiles) !! t'.(tm_tile_id) =
              st.(ss_ws).(gw_tiles) !! t'.(tm_tile_id)).
    { intros t' Ht'. rewrite sync_insert_one, decide_False; [done|]. intros E. apply Hnot.
      rewrite E. apply list_elem_of_fmap. eauto. }
    assert (Hc : (sync_insert st t).(ss_changed) = true ↔
              st.(ss_changed) = true ∨ st.(ss_ws).(gw_tiles) !! t.(tm_tile_id) ≠ Some t).
    { unfold sync_insert. destruct (decide _); simpl; tauto. }
    rewrite Hc. split.
    + intros [[?|Hne]|(t' & Ht' & Hne)]; [by left|right; exists t; by split; [left|]|].
      right. exists t'. rewrite <- Hother by done. by split; [right|].
    + intros [?|(t' & Ht' & Hne)]; [by left; left|].
      apply elem_of_cons in Ht' as [->|Ht']; [by left; right|].
      right. exists t'. by rewrite Hother.
Qed.

(** *** Both loops *)
Lemma elem_of_local_ids (m : gmap TileId TileMetadata) k :
  map_Forall (λ k t, t.(tm_tile_id) = k) m →
  k ∈ (tm_tile_id <$> List.filter (λ t, N.eqb t.(tm_owner_node_id) local) (bt_values m)) ↔
  ∃ t, m !! k = Some t ∧ t.(tm_owner_node_id) = local.
Proof.
  intros Hm. rewrite list_elem_of_fmap. split.
  - intros (t & -> & Ht). apply list_elem_of_In, List.filter_In in Ht as [Ht Ho%N.eqb_eq].
    apply list_elem_of_In, elem_of_bt_values in Ht as [k Hk]. rewrite (Hm _ _ Hk). eauto.
  - intros (t & Hk & Ho). exists t. split; [by rewrite (Hm _ _ Hk)|].
    apply list_elem_of_In, List.filter_In. split; [|by apply N.eqb_eq].
    apply list_elem_of_In, elem_of_bt_values. eauto.
Qed.

Lemma sync_tiles_tiles tiles ws R :
  keys_ok ws → NoDup (tm_tile_id <$> tiles) →
  (sync_tiles local tiles ws R).(ss_ws).(gw_tiles) = synced_tiles local tiles ws.(gw_tiles).
Proof.
  intros Hk Hnd. unfold sync_tiles.
  set (st := foldl sync_insert _ tiles).
  assert (Ht : st.(ss_ws).(gw_tiles) = synced_tiles local tiles ws.(gw_tiles)).
  { unfold st, synced_tiles. rewrite sync_insert_tiles by done. apply map_eq. intros k.
    destruct (desired_tiles tiles !! k) as [t|] eqn:Ed.
    - by rewrite !(lookup_union_Some_l _ _ _ _ Ed).
    - rewrite !lookup_union_r by done. rewrite sync_remove_tiles, lookup_foreign. simpl.
      apply lookup_desired_None in Ed.
      pose proof (elem_of_local_ids ws.(gw_tiles) k Hk) as Hl.
      destruct (decide _) as [[Hin _]|Hnot].
      + apply Hl in Hin as (t & -> & Ho). by rewrite decide_True.
      + destruct (gw_tiles ws !! k) as [t|] eqn:Et; [|done]. rewrite decide_False; [done|].
        intros Ho. apply Hnot. split; [apply Hl; eauto|by rewrite elem_of_list_to_set]. }
  by destruct (ss_changed st).
Qed.

Lemma synced_tiles_idemp tiles m :
  synced_tiles local tiles (synced_tiles local tiles m) = synced_tiles local tiles m.
Proof.
  unfold synced_tiles. apply map_eq. intros k.
  destruct (desired_tiles tiles !! k) as [t|] eqn:Ed.
  - by rewrite !(lookup_union_Some_l _ _ _ _ Ed).
  - rewrite !lookup_union_r by done. rewrite !lookup_foreign, lookup_union_r, lookup_foreign by done.
    destruct (m !! k) as [t'|]; [|done]. destruct (decide (tm_owner_node_id t' = local)); [done|].
    by rewrite decide_False.
Qed.

Lemma sync_tiles_changed tiles ws R :
  keys_ok ws → NoDup (tm_tile_id <$> tiles) →
  (sync_tiles local tiles ws R).(ss_changed) = true ↔
  synced_tiles local tiles ws.(gw_tiles) ≠ ws.(gw_tiles).
Proof.
  intros Hk Hnd. unfold sync_tiles.
  set (st := foldl sync_insert _ tiles).
  transitivity (st.(ss_changed) = true); [destruct (ss_changed st) eqn:E; simpl; by rewrite ?E|].
  unfold st. rewrite sync_insert_changed by done. rewrite sync_remove_changed. simpl.
  split.
  - intros [[?|(k & Hin & Hnot)]|(t & Ht & Hne)] Heq; [done|..].
    + apply elem_of_local_ids in Hin as (t & Et & Ho); [|done].
      rewrite <- Heq in Et. unfold synced_tiles in Et.
      rewrite elem_of_list_to_set in Hnot. apply lookup_desired_None in Hnot.
      rewrite lookup_union_r, lookup_foreign in Et by done. destruct (gw_tiles ws !! k) as [t'|] eqn:E'; [|done].
      destruct (decide (tm_owner_node_id t' = local)) as [|Hn]; [done|]. by simplify_eq.
    + apply Hne. rewrite sync_remove_tiles. simpl. rewrite decide_False.
      * rewrite <- Heq. unfold synced_tiles. apply lookup_union_Some_l.
        by apply lookup_desired_Some.
      * intros [_ Hn]. apply Hn. rewrite elem_of_list_to_set, list_elem_of_fmap. eauto.
  - intros Hneq. destruct (decide (Exists (λ t, ws.(gw_tiles) !! t.(tm_tile_id) ≠ Some t) tiles))
      as [(t & Ht & Hne)%Exists_exists|Hall].
    + right. exists t. split; [done|]. rewrite sync_remove_tiles. simpl. rewrite decide_False; [done|].
      intros [_ Hn]. apply Hn. rewrite elem_of_list_to_set, list_elem_of_fmap. eauto.
    + apply not_Exists_Forall in Hall; [|intros; apply _].
      left. right. set (ids := tm_tile_id <$> _). rewrite Forall_forall in Hall.
      destruct (decide (Exists (λ k, k ∉ (list_to_set (tm_tile_id <$> tiles) : gset TileId)) ids))
        as [Hex|Hno]; [by apply Exists_exists in Hex|].
      apply not_Exists_Forall in Hno; [|intros; apply _].
      rewrite Forall_forall in Hno. destruct Hneq. apply map_eq. intros k. unfold synced_tiles.
      destruct (desired_tiles tiles !! k) as [t|] eqn:Ed.
      * rewrite (lookup_union_Some_l _ _ _ _ Ed). apply lookup_desired_Some in Ed as [Ht <-]; [|done].
        symmetry. by apply dec_stable, Hall.
      * rewrite lookup_union_r, lookup_foreign by done.
        destruct (gw_tiles ws !! k) as [t|] eqn:Et; [|done].
        rewrite decide_False; [done|]. intros Ho. apply (Hno k).
        { apply elem_of_local_ids; eauto. }
        rewrite elem_of_list_to_set. by apply lookup_desired_None.
Qed.

Lemma elem_of_local_columns tiles cols c :
  c ∈ foldl (λ cols t, push_unique t.(tm_column_id) cols) cols tiles ↔
  c ∈ cols ∨ ∃ t, t ∈ tiles ∧ t.(tm_column_id) = c.
Proof.
  revert cols. induction tiles as [|t tiles IH]; intros cols; cbn [foldl].
  - split; [by left|]. intros [?|(t & Ht & _)]; [done|]. by apply elem_of_nil in Ht.
  - rewrite IH, elem_of_push_unique. setoid_rewrite elem_of_cons. naive_solver.
Qed.

(** Columns of tiles of other nodes and of the local tiles are listed. *)
Lemma elem_of_sync_columns ws cols c :
  c ∈ sync_columns local ws cols ↔
  c ∈ cols ∨ (c ∈ ws.(gw_columns) ∧
    ∃ k t, ws.(gw_tiles) !! k = Some t ∧ t.(tm_owner_node_id) ≠ local ∧ t.(tm_column_id) = c).
Proof.
  unfold sync_columns. rewrite elem_of_foldl_push_unique.
  assert (Hf : c ∈ List.filter (λ c, bool_decide (c ∈ (list_to_set (tm_column_id <$> List.filter
      (λ t, negb (N.eqb t.(tm_owner_node_id) local)) (bt_values ws.(gw_tiles))) : gset ColumnId)))
      ws.(gw_columns) ↔ c ∈ ws.(gw_columns) ∧
    ∃ k t, ws.(gw_tiles) !! k = Some t ∧ t.(tm_owner_node_id) ≠ local ∧ t.(tm_column_id) = c).
  { rewrite list_elem_of_In, List.filter_In, <- list_elem_of_In, bool_decide_eq_true.
    rewrite elem_of_list_to_set, list_elem_of_fmap. setoid_rewrite list_elem_of_In.
    setoid_rewrite List.filter_In. setoid_rewrite <- list_elem_of_In.
    setoid_rewrite elem_of_bt_values. setoid_rewrite negb_true_iff. setoid_rewrite N.eqb_neq.
    naive_solver. }
  rewrite Hf. tauto.
Qed.

Lemma sync_tiles_listed tiles ws R :
  keys_ok ws → NoDup (tm_tile_id <$> tiles) → tiles_listed ws →
  tiles_listed (sync_tiles local tiles ws R).(ss_ws).
Proof.
  intros Hk Hnd Hl k t. rewrite sync_tiles_tiles by done. intros Ht.
  pose proof (sync_tiles_tiles tiles ws R Hk Hnd) as Htiles.
  pose proof (sync_tiles_changed tiles ws R Hk Hnd) as Hc.
  unfold sync_tiles in *.
  set (st := foldl sync_insert _ tiles) in *.
  assert (Hcol : st.(ss_ws).(gw_columns) = ws.(gw_columns)).
  { unfold st. by rewrite sync_insert_columns, sync_remove_columns. }
  destruct (ss_changed st) eqn:E; simpl in *.
  - apply elem_of_sync_columns. rewrite Htiles, Hcol, elem_of_local_columns.
    unfold synced_tiles in Ht. destruct (desired_tiles tiles !! k) as [t'|] eqn:Ed.
    + rewrite (lookup_union_Some_l _ _ _ _ Ed) in Ht. simplify_eq.
      apply lookup_desired_Some in Ed as [Hin _]; [|done]. left. right. eauto.
    + pose proof Ht as Ht'. rewrite lookup_union_r, lookup_foreign in Ht' by done.
      destruct (gw_tiles ws !! k) as [t'|] eqn:Et; [|done].
      destruct (decide (tm_owner_node_id t' = local)); simplify_eq.
      right. split; [by apply (Hl _ _ Et)|]. exists k, t. done.
  - rewrite Hcol. rewrite E in Hc.
    destruct (decide (synced_tiles local tiles (gw_tiles ws) = gw_tiles ws)) as [Heq|Hne].
    + rewrite Heq in Ht. by apply (Hl _ _ Ht).
    + apply Hc in Hne. done.
Qed.
End sync.

(** The session after [ensure_local_participant] differs in the participants only. *)
Lemma ensure_local_participant_session s s1 session :
  s.(mgr).(lm_current_session) = Some session → ensure_local_participant s = Some s1 →
  ∃ ps, s1.(mgr).(lm_current_session) =
          Some (set_ls_workspace (set_gw_participants ps session.(ls_workspace)) session) ∧
    s1.(mgr).(lm_local_node_id) = s.(mgr).(lm_local_node_id) ∧ s1.(mgr).(lm_enabled) = true.
Proof.
  intros E. unfold ensure_local_participant, enable. simpl. rewrite E. simpl. rewrite E.
  intros [= <-]. unfold on_mgr, on_workspace, on_session. simpl. rewrite E. simpl. eauto.
Qed.

(** What a call of [sync_local_tiles] leaves behind. *)
Lemma sync_local_tiles_result tiles s session b s' :
  s.(mgr).(lm_enabled) = true → s.(mgr).(lm_current_session) = Some session →
  session_ok session.(ls_workspace) → NoDup (tm_tile_id <$> tiles) →
  sync_local_tiles tiles s = Some (b, s') →
  let local := s.(mgr).(lm_local_node_id) in
  let ws := session.(ls_workspace) in
  ∃ session', s'.(mgr).(lm_current_session) = Some session' ∧
    s'.(mgr).(lm_enabled) = true ∧ s'.(mgr).(lm_local_node_id) = local ∧
    session'.(ls_log) = session.(ls_log) ∧
    session'.(ls_workspace).(gw_tiles) = synced_tiles local tiles ws.(gw_tiles) ∧
    (b = true ↔ synced_tiles local tiles ws.(gw_tiles) ≠ ws.(gw_tiles)) ∧
    (tiles_listed ws → tiles_listed session'.(ls_workspace)).
Proof.
  intros He E Hs Hnd. unfold sync_local_tiles. rewrite He.
  destruct (ensure_local_participant s) as [s1|] eqn:E1; [|done].
  destruct (ensure_local_participant_session _ _ _ E E1) as (ps & Hs1 & Hl & He1).
  rewrite Hs1, Hl. intros H. injection H as <- <-. simpl. eexists. split; [done|].
  set (ws := set_gw_participants ps (ls_workspace session)).
  assert (Hk : keys_ok ws) by apply Hs. split_and!; [done..| | |]; simpl.
  - by rewrite sync_tiles_tiles.
  - by rewrite sync_tiles_changed.
  - intros Htl. by apply sync_tiles_listed.
Qed.

(** ** Properties *)

(** C27: refinement of [sync_local_tiles]. Given distinct tiles, the session holds
    afterwards exactly these tiles and the tiles of the other nodes, the result says
    whether that changed anything, every tile that was in a listed column still is, the
    operation log is not touched, and a second call with the same tiles reports no
    change. *)
Theorem sync_local_tiles_spec tiles s session b s' :
  s.(mgr).(lm_enabled) = true → s.(mgr).(lm_current_session) = Some session →
  manager_ok s.(mgr) → NoDup (tm_tile_id <$> tiles) →
  sync_local_tiles tiles s = Some (b, s') →
  let ws := session.(ls_workspace) in
  let synced := synced_tiles s.(mgr).(lm_local_node_id) tiles ws.(gw_tiles) in
  (∃ session', s'.(mgr).(lm_current_session) = Some session' ∧
     session'.(ls_workspace).(gw_tiles) = synced ∧ session'.(ls_log) = session.(ls_log) ∧
     (tiles_listed ws → tiles_listed session'.(ls_workspace))) ∧
  (b = true ↔ synced ≠ ws.(gw_tiles)) ∧
  fst <$> sync_local_tiles tiles s' = Some false.
Proof.
  intros He E Hm Hnd Hsync ws synced.
  assert (Hs : session_ok ws) by (pose proof (mo_session _ Hm) as H; by rewrite E in H).
  destruct (sync_local_tiles_result _ _ _ _ _ He E Hs Hnd Hsync)
    as (session' & E' & He' & Hl' & Hlog & Ht & Hb & Htl).
  split_and!; [by exists session'|done|].
  destruct (sync_local_tiles tiles s') as [[b2 s2]|] eqn:E2.
  - simpl. do 2 f_equal. apply not_true_is_false. intros ->.
    assert (Hm' : session_ok session'.(ls_workspace)).
    { destruct (sys_ok_sync_tiles (λ _, None) tiles s b s') as [Hok _];
        [by split; [|apply Forall_true]|done|].
      apply mo_session in Hok. by rewrite E' in Hok. }
    destruct (sync_local_tiles_result _ _ _ _ _ He' E' Hm' Hnd E2)
      as (_ & _ & _ & _ & _ & _ & [Hb2 _] & _).
    apply Hb2; [done|]. rewrite Ht, Hl'. apply synced_tiles_idemp.
  - exfalso. revert E2. unfold sync_local_tiles. rewrite He'.
    destruct (ensure_local_participant_Some s') as (s2 & session2 & -> & ->). done.
Qed.

(** Node 1 keeps tile 10 with a new title's metadata and opens tile 13. *)
Definition sample_local_tiles : list TileMetadata :=
  [sample_tile 10 1 100 900 300; sample_tile 13 1 102 400 400].

Definition sample_session_sys : Sys :=
  on_mgr (λ m, set_lm_enabled true (set_lm_current_session
    (Some (MkLinkedSession sample_ws OperationLog_default)) m)) sample_sys.

Lemma sync_local_tiles_spec_witness :
  ∃ b s', sync_local_tiles sample_local_tiles sample_session_sys = Some (b, s') ∧ b = true ∧
    fst <$> sync_local_tiles sample_local_tiles s' = Some false.
Proof.
  destruct (sync_local_tiles sample_local_tiles sample_session_sys) as [[b s']|] eqn:E;
    [|vm_compute in E; discriminate].
  destruct (sync_local_tiles_spec sample_local_tiles sample_session_sys
    (MkLinkedSession sample_ws OperationLog_default) b s') as (_ & _ & H).
  - reflexivity.
  - reflexivity.
  - split; [apply map_Forall_empty|apply map_Forall_empty|apply sample_ws_session_ok|constructor].
  - by apply (bool_decide_unpack _); vm_compute.
  - exact E.
  - exists b, s'. split; [reflexivity|]. split; [|exact H].
    assert (Hb : fst <$> sync_local_tiles sample_local_tiles sample_session_sys = Some true)
      by (vm_compute; reflexivity).
    rewrite E in Hb. by injection Hb.
Defined.
