(* ===== verification/LinkConfig.v ===== *)
(** * Configuration of the link (crates/niri-config/src/link.rs, src/link/config.rs)

    A configuration file is read into a [LinkPart], in which every setting is optional, and
    merged into the [Link] configuration; included files are merged one after the other.
    [LinkPart_then] is the part that two parts amount to; merging is an action of
    parts on configurations. *)
From S2P Require Import Prelude Float64 LinkProtocol LinkSync LinkStores IpcTypes LinkManager.

(** [if let Some(x) = &part.field { self.field = x }]; a [Flag] sets its boolean. *)
Definition merge_opt {A} (self : A) (part : option A) : A := default self part.

(** A setting given in either part, the second one winning. *)
Definition opt_then {A} (p q : option A) : option A :=
  match q with Some x => Some x | None => p end.

Lemma merge_opt_then {A} (x : A) p q : merge_opt (merge_opt x p) q = merge_opt x (opt_then p q).
Proof. by destruct q. Qed.

Lemma opt_then_assoc {A} (p q r : option A) : opt_then (opt_then p q) r = opt_then p (opt_then q r).
Proof. by destruct r. Qed.

(** ** The four groups of settings *)

Record LinkTransport := MkLinkTransport {
  lt_prefer : string;
  lt_fallback : string
}.

Record LinkTransportPart := MkLinkTransportPart {
  ltp_prefer : option string;
  ltp_fallback : option string
}.

Definition LinkTransport_default : LinkTransport :=
  {| lt_prefer := "quic";
     lt_fallback := "tcp-tls" |}.

Definition LinkTransport_merge_with (self : LinkTransport) (part : LinkTransportPart) : LinkTransport :=
  {| lt_prefer := merge_opt self.(lt_prefer) part.(ltp_prefer);
     lt_fallback := merge_opt self.(lt_fallback) part.(ltp_fallback) |}.

Definition LinkTransportPart_then (p q : LinkTransportPart) : LinkTransportPart :=
  {| ltp_prefer := opt_then p.(ltp_prefer) q.(ltp_prefer);
     ltp_fallback := opt_then p.(ltp_fallback) q.(ltp_fallback) |}.

Lemma LinkTransport_merge_then c p q :
  LinkTransport_merge_with (LinkTransport_merge_with c p) q = LinkTransport_merge_with c (LinkTransportPart_then p q).
Proof. unfold LinkTransport_merge_with. simpl. by rewrite !merge_opt_then. Qed.

Record LinkStreaming := MkLinkStreaming {
  lstr_preferred_codec : string;
  lstr_max_fps : N;
  lstr_max_bitrate_mbps : N;
  lstr_idle_fps : N;
  lstr_stream_only_visible : bool;
  lstr_stale_frame_timeout_ms : N
}.

Record LinkStreamingPart := MkLinkStreamingPart {
  lstrp_preferred_codec : option string;
  lstrp_max_fps : option N;
  lstrp_max_bitrate_mbps : option N;
  lstrp_idle_fps : option N;
  lstrp_stream_only_visible : option bool;
  lstrp_stale_frame_timeout_ms : option N
}.

Definition LinkStreaming_default : LinkStreaming :=
  {| lstr_preferred_codec := "av1,h264,raw";
     lstr_max_fps := 60;
     lstr_max_bitrate_mbps := 80;
     lstr_idle_fps := 5;
     lstr_stream_only_visible := true;
     lstr_stale_frame_timeout_ms := 500 |}.

Definition LinkStreaming_merge_with (self : LinkStreaming) (part : LinkStreamingPart) : LinkStreaming :=
  {| lstr_preferred_codec := merge_opt self.(lstr_preferred_codec) part.(lstrp_preferred_codec);
     lstr_max_fps := merge_opt self.(lstr_max_fps) part.(lstrp_max_fps);
     lstr_max_bitrate_mbps := merge_opt self.(lstr_max_bitrate_mbps) part.(lstrp_max_bitrate_mbps);
     lstr_idle_fps := merge_opt self.(lstr_idle_fps) part.(lstrp_idle_fps);
     lstr_stream_only_visible := merge_opt self.(lstr_stream_only_visible) part.(lstrp_stream_only_visible);
     lstr_stale_frame_timeout_ms := merge_opt self.(lstr_stale_frame_timeout_ms) part.(lstrp_stale_frame_timeout_ms) |}.

Definition LinkStreamingPart_then (p q : LinkStreamingPart) : LinkStreamingPart :=
  {| lstrp_preferred_codec := opt_then p.(lstrp_preferred_codec) q.(lstrp_preferred_codec);
     lstrp_max_fps := opt_then p.(lstrp_max_fps) q.(lstrp_max_fps);
     lstrp_max_bitrate_mbps := opt_then p.(lstrp_max_bitrate_mbps) q.(lstrp_max_bitrate_mbps);
     lstrp_idle_fps := opt_then p.(lstrp_idle_fps) q.(lstrp_idle_fps);
     lstrp_stream_only_visible := opt_then p.(lstrp_stream_only_visible) q.(lstrp_stream_only_visible);
     lstrp_stale_frame_timeout_ms := opt_then p.(lstrp_stale_frame_timeout_ms) q.(lstrp_stale_frame_timeout_ms) |}.

Lemma LinkStreaming_merge_then c p q :
  LinkStreaming_merge_with (LinkStreaming_merge_with c p) q = LinkStreaming_merge_with c (LinkStreamingPart_then p q).
Proof. unfold LinkStreaming_merge_with. simpl. by rewrite !merge_opt_then. Qed.

Record LinkLayout := MkLinkLayout {
  ll_mode : string;
  ll_restore_last_session : bool;
  ll_unlink_policy : string;
  ll_remote_tile_placeholder : bool;
  ll_animate_link_transition : bool
}.

Record LinkLayoutPart := MkLinkLayoutPart {
  llp_mode : option string;
  llp_restore_last_session : option bool;
  llp_unlink_policy : option string;
  llp_remote_tile_placeholder : option bool;
  llp_animate_link_transition : option bool
}.

Definition LinkLayout_default : LinkLayout :=
  {| ll_mode := "continuous-horizontal";
     ll_restore_last_session := true;
     ll_unlink_policy := "keep-owned-tiles";
     ll_remote_tile_placeholder := true;
     ll_animate_link_transition := true |}.

Definition LinkLayout_merge_with (self : LinkLayout) (part : LinkLayoutPart) : LinkLayout :=
  {| ll_mode := merge_opt self.(ll_mode) part.(llp_mode);
     ll_restore_last_session := merge_opt self.(ll_restore_last_session) part.(llp_restore_last_session);
     ll_unlink_policy := merge_opt self.(ll_unlink_policy) part.(llp_unlink_policy);
     ll_remote_tile_placeholder := merge_opt self.(ll_remote_tile_placeholder) part.(llp_remote_tile_placeholder);
     ll_animate_link_transition := merge_opt self.(ll_animate_link_transition) part.(llp_animate_link_transition) |}.

Definition LinkLayoutPart_then (p q : LinkLayoutPart) : LinkLayoutPart :=
  {| llp_mode := opt_then p.(llp_mode) q.(llp_mode);
     llp_restore_last_session := opt_then p.(llp_restore_last_session) q.(llp_restore_last_session);
     llp_unlink_policy := opt_then p.(llp_unlink_policy) q.(llp_unlink_policy);
     llp_remote_tile_placeholder := opt_then p.(llp_remote_tile_placeholder) q.(llp_remote_tile_placeholder);
     llp_animate_link_transition := opt_then p.(llp_animate_link_transition) q.(llp_animate_link_transition) |}.

Lemma LinkLayout_merge_then c p q :
  LinkLayout_merge_with (LinkLayout_merge_with c p) q = LinkLayout_merge_with c (LinkLayoutPart_then p q).
Proof. unfold LinkLayout_merge_with. simpl. by rewrite !merge_opt_then. Qed.

Record LinkInput := MkLinkInput {
  li_forward_keyboard : bool;
  li_forward_pointer : bool;
  li_forward_scroll : bool;
  li_forward_touch : bool;
  li_forward_tablet : bool;
  li_remote_focus_follows_pointer : bool
}.

Record LinkInputPart := MkLinkInputPart {
  lip_forward_keyboard : option bool;
  lip_forward_pointer : option bool;
  lip_forward_scroll : option bool;
  lip_forward_touch : option bool;
  lip_forward_tablet : option bool;
  lip_remote_focus_follows_pointer : option bool
}.

Definition LinkInput_default : LinkInput :=
  {| li_forward_keyboard := true;
     li_forward_pointer := true;
     li_forward_scroll := true;
     li_forward_touch := false;
     li_forward_tablet := false;
     li_remote_focus_follows_pointer := true |}.

Definition LinkInput_merge_with (self : LinkInput) (part : LinkInputPart) : LinkInput :=
  {| li_forward_keyboard := merge_opt self.(li_forward_keyboard) part.(lip_forward_keyboard);
     li_forward_pointer := merge_opt self.(li_forward_pointer) part.(lip_forward_pointer);
     li_forward_scroll := merge_opt self.(li_forward_scroll) part.(lip_forward_scroll);
     li_forward_touch := merge_opt self.(li_forward_touch) part.(lip_forward_touch);
     li_forward_tablet := merge_opt self.(li_forward_tablet) part.(lip_forward_tablet);
     li_remote_focus_follows_pointer := merge_opt self.(li_remote_focus_follows_pointer) part.(lip_remote_focus_follows_pointer) |}.

Definition LinkInputPart_then (p q : LinkInputPart) : LinkInputPart :=
  {| lip_forward_keyboard := opt_then p.(lip_forward_keyboard) q.(lip_forward_keyboard);
     lip_forward_pointer := opt_then p.(lip_forward_pointer) q.(lip_forward_pointer);
     lip_forward_scroll := opt_then p.(lip_forward_scroll) q.(lip_forward_scroll);
     lip_forward_touch := opt_then p.(lip_forward_touch) q.(lip_forward_touch);
     lip_forward_tablet := opt_then p.(lip_forward_tablet) q.(lip_forward_tablet);
     lip_remote_focus_follows_pointer := opt_then p.(lip_remote_focus_follows_pointer) q.(lip_remote_focus_follows_pointer) |}.

Lemma LinkInput_merge_then c p q :
  LinkInput_merge_with (LinkInput_merge_with c p) q = LinkInput_merge_with c (LinkInputPart_then p q).
Proof. unfold LinkInput_merge_with. simpl. by rewrite !merge_opt_then. Qed.

(** ** The whole configuration *)
Record Link := MkLink {
  lk_enable : bool;
  lk_listen_address : string;
  lk_discovery : bool;
  lk_pairing_mode : bool;
  lk_trusted_nodes : list string;
  lk_transport : LinkTransport;
  lk_streaming : LinkStreaming;
  lk_layout : LinkLayout;
  lk_input : LinkInput
}.

Record LinkPart := MkLinkPart {
  lkp_enable : option bool;
  lkp_listen_address : option string;
  lkp_discovery : option bool;
  lkp_pairing_mode : option bool;
  lkp_trusted_nodes : list string;
  lkp_transport : option LinkTransportPart;
  lkp_streaming : option LinkStreamingPart;
  lkp_layout : option LinkLayoutPart;
  lkp_input : option LinkInputPart
}.

Definition Link_default : Link :=
  {| lk_enable := false;
     lk_listen_address := "127.0.0.1:0";
     lk_discovery := true;
     lk_pairing_mode := false;
     lk_trusted_nodes := [];
     lk_transport := LinkTransport_default;
     lk_streaming := LinkStreaming_default;
     lk_layout := LinkLayout_default;
     lk_input := LinkInput_default |}.

(** [if let Some(x) = &part.group { self.group.merge_with(x) }]. *)
Definition merge_group {A P} (merge : A → P → A) (self : A) (part : option P) : A :=
  match part with Some part => merge self part | None => self end.

Definition Link_merge_with (self : Link) (part : LinkPart) : Link :=
  {| lk_enable := merge_opt self.(lk_enable) part.(lkp_enable);
     lk_listen_address := merge_opt self.(lk_listen_address) part.(lkp_listen_address);
     lk_discovery := merge_opt self.(lk_discovery) part.(lkp_discovery);
     lk_pairing_mode := merge_opt self.(lk_pairing_mode) part.(lkp_pairing_mode);
     lk_trusted_nodes := self.(lk_trusted_nodes) ++ part.(lkp_trusted_nodes);
     lk_transport := merge_group LinkTransport_merge_with self.(lk_transport) part.(lkp_transport);
     lk_streaming := merge_group LinkStreaming_merge_with self.(lk_streaming) part.(lkp_streaming);
     lk_layout := merge_group LinkLayout_merge_with self.(lk_layout) part.(lkp_layout);
     lk_input := merge_group LinkInput_merge_with self.(lk_input) part.(lkp_input) |}.

(** [From<&LinkConfig> for RuntimeLinkConfig]. *)
Definition RuntimeLinkConfig_from (value : Link) : RuntimeLinkConfig :=
  {| rc_enabled := value.(lk_enable);
     rc_listen_address := value.(lk_listen_address);
     rc_discovery := value.(lk_discovery);
     rc_pairing_mode := value.(lk_pairing_mode);
     rc_trusted_nodes := value.(lk_trusted_nodes);
     rc_transport_prefer := value.(lk_transport).(lt_prefer);
     rc_transport_fallback := value.(lk_transport).(lt_fallback);
     rc_preferred_codec := value.(lk_streaming).(lstr_preferred_codec);
     rc_max_fps := value.(lk_streaming).(lstr_max_fps);
     rc_idle_fps := value.(lk_streaming).(lstr_idle_fps);
     rc_max_bitrate_mbps := value.(lk_streaming).(lstr_max_bitrate_mbps);
     rc_stream_only_visible := value.(lk_streaming).(lstr_stream_only_visible);
     rc_stale_frame_timeout_ms := value.(lk_streaming).(lstr_stale_frame_timeout_ms);
     rc_restore_last_session := value.(lk_layout).(ll_restore_last_session);
     rc_unlink_policy := value.(lk_layout).(ll_unlink_policy);
     rc_remote_tile_placeholder := value.(lk_layout).(ll_remote_tile_placeholder);
     rc_animate_link_transition := value.(lk_layout).(ll_animate_link_transition);
     rc_forward_keyboard := value.(lk_input).(li_forward_keyboard);
     rc_forward_pointer := value.(lk_input).(li_forward_pointer);
     rc_forward_scroll := value.(lk_input).(li_forward_scroll);
     rc_forward_touch := value.(lk_input).(li_forward_touch);
     rc_forward_tablet := value.(lk_input).(li_forward_tablet);
     rc_remote_focus_follows_pointer := value.(lk_input).(li_remote_focus_follows_pointer) |}.

(** ** Composing parts *)
Definition group_then {P} (then_ : P → P → P) (p q : option P) : option P :=
  match p, q with
  | Some p, Some q => Some (then_ p q)
  | None, q => q
  | p, None => p
  end.

Lemma merge_group_then {A P} (merge : A → P → A) (then_ : P → P → P) c p q :
  (∀ c p q, merge (merge c p) q = merge c (then_ p q)) →
  merge_group merge (merge_group merge c p) q = merge_group merge c (group_then then_ p q).
Proof. intros H. destruct p, q; simpl; auto. Qed.

Definition LinkPart_then (p q : LinkPart) : LinkPart :=
  {| lkp_enable := opt_then p.(lkp_enable) q.(lkp_enable);
     lkp_listen_address := opt_then p.(lkp_listen_address) q.(lkp_listen_address);
     lkp_discovery := opt_then p.(lkp_discovery) q.(lkp_discovery);
     lkp_pairing_mode := opt_then p.(lkp_pairing_mode) q.(lkp_pairing_mode);
     lkp_trusted_nodes := p.(lkp_trusted_nodes) ++ q.(lkp_trusted_nodes);
     lkp_transport := group_then LinkTransportPart_then p.(lkp_transport) q.(lkp_transport);
     lkp_streaming := group_then LinkStreamingPart_then p.(lkp_streaming) q.(lkp_streaming);
     lkp_layout := group_then LinkLayoutPart_then p.(lkp_layout) q.(lkp_layout);
     lkp_input := group_then LinkInputPart_then p.(lkp_input) q.(lkp_input) |}.

Definition LinkPart_empty : LinkPart := MkLinkPart None None None None [] None None None None.

Lemma Link_merge_then c p q :
  Link_merge_with (Link_merge_with c p) q = Link_merge_with c (LinkPart_then p q).
Proof.
  unfold Link_merge_with. simpl. rewrite !merge_opt_then, <- app_assoc.
  rewrite (merge_group_then _ _ _ _ _ LinkTransport_merge_then).
  rewrite (merge_group_then _ _ _ _ _ LinkStreaming_merge_then).
  rewrite (merge_group_then _ _ _ _ _ LinkLayout_merge_then).
  by rewrite (merge_group_then _ _ _ _ _ LinkInput_merge_then).
Qed.

(** ** Properties *)

(** Merging configuration files one after the other is merging the one part they
    amount to: for every single setting the last file that gives it wins, wherever its
    group appears, and the trusted nodes of all files are collected in order; a file that
    gives nothing changes nothing. *)
Theorem merge_parts_is_one_part (parts : list LinkPart) (c : Link) :
  foldl Link_merge_with c parts = Link_merge_with c (foldl LinkPart_then LinkPart_empty parts) ∧
  (foldl Link_merge_with c parts).(lk_trusted_nodes) =
    c.(lk_trusted_nodes) ++ mjoin (lkp_trusted_nodes <$> parts).
Proof.
  split.
  - assert (He : c = Link_merge_with c LinkPart_empty).
    { destruct c. unfold Link_merge_with. simpl. by rewrite app_nil_r. }
    rewrite He at 1. generalize LinkPart_empty. clear He.
    induction parts as [|p parts IH]; intros q; simpl; [done|]. by rewrite Link_merge_then, IH.
  - revert c. induction parts as [|p parts IH]; intros c; simpl; [by rewrite app_nil_r|].
    rewrite IH. simpl. by rewrite <- app_assoc.
Qed.
