(* ===== verification/IpcState.v ===== *)
(** * The event-stream state (crates/niri-ipc/src/state.rs)

    Clients of the IPC event stream, and the server itself, keep the state that the
    events describe. A part of that state is an instance of the class
    [EventStreamStatePart], as in the source; [EventStreamStatePartLaws] states what a part
    promises: the events it [replicate]s rebuild it from the default state, and it ignores
    the events of the other parts. The full state is composed of the six parts and its
    theorem is proved from these promises.

    The iteration order of a [HashMap] is arbitrary: it is the class [HashOrder], of
    which only that every entry is visited once is known. *)
From S2P Require Import Prelude Float64 LinkProtocol IpcTypes.

Class HashOrder := {
  hash_iter : ∀ {V : Type}, gmap N V → list (N * V);
  hash_iter_perm : ∀ {V : Type} (m : gmap N V), hash_iter m ≡ₚ map_to_list m
}.

(** The order that [map_to_list] gives. *)
Definition listed_order : HashOrder :=
  {| hash_iter := λ V m, map_to_list m; hash_iter_perm := λ V m, reflexivity _ |}.

(** ** The trait *)

(** The result of [apply]: [None] of the source is [Applied], [Some event] is
    [Ignored], and a failed [expect] is [Panicked]. *)
Inductive Outcome (T : Type) :=
  | Applied (s : T)
  | Ignored (event : Event)
  | Panicked.
Arguments Applied {T} _.
Arguments Ignored {T} _.
Arguments Panicked {T}.

Class EventStreamStatePart (T : Type) := {
  state_default : T;
  replicate : T → list Event;
  apply : T → Event → Outcome T
}.

(** Apply a sequence of events; ignored events leave the state alone. *)
Fixpoint apply_all {T} `{EventStreamStatePart T} (s : T) (events : list Event) : option T :=
  match events with
  | [] => Some s
  | event :: events =>
      match apply s event with
      | Applied s => apply_all s events
      | Ignored _ => apply_all s events
      | Panicked => None
      end
  end.

(** ** The parts *)
Record WorkspacesState := MkWorkspacesState { wss_workspaces : gmap N Workspace }.
Record WindowsState := MkWindowsState { wns_windows : gmap N Window }.
Record KeyboardLayoutsState :=
  MkKeyboardLayoutsState { kls_keyboard_layouts : option KeyboardLayouts }.
Record OverviewState := MkOverviewState { ovs_is_open : bool }.
Record ConfigState := MkConfigState { cfs_failed : bool }.
Record CastsState := MkCastsState { cas_casts : gmap N Cast }.

Record EventStreamState := MkEventStreamState {
  es_workspaces : WorkspacesState;
  es_windows : WindowsState;
  es_keyboard_layouts : KeyboardLayoutsState;
  es_overview : OverviewState;
  es_config : ConfigState;
  es_casts : CastsState
}.

(** [into_iter().map(|x| (key(x), x)).collect()]: a later element replaces an
    earlier one with the same key. *)
Definition collect_by {A} (key : A → N) (l : list A) : gmap N A :=
  foldl (λ m x, <[key x := x]> m) ∅ l.

Definition WorkspacesState_apply (s : WorkspacesState) (event : Event) :
    Outcome WorkspacesState :=
  let m := s.(wss_workspaces) in
  match event with
  | WorkspacesChanged workspaces => Applied (MkWorkspacesState (collect_by iw_id workspaces))
  | WorkspaceUrgencyChanged id urgent =>
      Applied (MkWorkspacesState
        ((λ ws, if N.eqb ws.(iw_id) id then set_iw_is_urgent urgent ws else ws) <$> m))
  | WorkspaceActivated id focused =>
      match m !! id with
      | None => Panicked
      | Some ws =>
          let output := ws.(iw_output) in
          Applied (MkWorkspacesState
            ((λ ws,
                let got_activated := N.eqb ws.(iw_id) id in
                let ws := if decide (ws.(iw_output) = output)
                          then set_iw_is_active got_activated ws else ws in
                if focused then set_iw_is_focused got_activated ws else ws) <$> m))
      end
  | WorkspaceActiveWindowChanged workspace_id active_window_id =>
      match m !! workspace_id with
      | None => Panicked
      | Some ws =>
          Applied (MkWorkspacesState
            (<[workspace_id := set_iw_active_window_id active_window_id ws]> m))
      end
  | event => Ignored event
  end.

(** The change that a window event makes to the windows layouts, in order. *)
Fixpoint change_layouts (m : gmap N Window) (changes : list (N * WindowLayout)) :
    option (gmap N Window) :=
  match changes with
  | [] => Some m
  | (id, update) :: changes =>
      match m !! id with
      | None => None
      | Some win => change_layouts (<[id := set_iwin_layout update win]> m) changes
      end
  end.

Section parts.
Context `{HashOrder}.

Definition hash_values {V} (m : gmap N V) : list V := (hash_iter m).*2.

(** [for x in map.values_mut() { if p(x) { f(x); break; } }]. *)
Definition update_one {V} (p : V → bool) (f : V → V) (m : gmap N V) : gmap N V :=
  match List.find (λ kv, p kv.2) (hash_iter m) with
  | Some kv => alter f kv.1 m
  | None => m
  end.

Definition WindowsState_apply (s : WindowsState) (event : Event) : Outcome WindowsState :=
  let m := s.(wns_windows) in
  match event with
  | WindowsChanged windows => Applied (MkWindowsState (collect_by iwin_id windows))
  | WindowOpenedOrChanged window =>
      let m := <[window.(iwin_id) := window]> m in
      Applied (MkWindowsState
        (if window.(iwin_is_focused)
         then (λ win, if N.eqb win.(iwin_id) window.(iwin_id) then win
                      else set_iwin_is_focused false win) <$> m
         else m))
  | WindowClosed id =>
      match m !! id with
      | Some _ => Applied (MkWindowsState (delete id m))
      | None => Panicked
      end
  | WindowFocusChanged id =>
      Applied (MkWindowsState
        ((λ win, set_iwin_is_focused (bool_decide (Some win.(iwin_id) = id)) win) <$> m))
  | WindowFocusTimestampChanged id focus_timestamp =>
      Applied (MkWindowsState
        (update_one (λ win, N.eqb win.(iwin_id) id) (set_iwin_focus_timestamp focus_timestamp) m))
  | WindowUrgencyChanged id urgent =>
      Applied (MkWindowsState
        (update_one (λ win, N.eqb win.(iwin_id) id) (set_iwin_is_urgent urgent) m))
  | WindowLayoutsChanged changes =>
      match change_layouts m changes with
      | Some m => Applied (MkWindowsState m)
      | None => Panicked
      end
  | event => Ignored event
  end.

Definition KeyboardLayoutsState_replicate (s : KeyboardLayoutsState) : list Event :=
  match s.(kls_keyboard_layouts) with
  | Some keyboard_layouts => [KeyboardLayoutsChanged keyboard_layouts]
  | None => []
  end.

Definition KeyboardLayoutsState_apply (s : KeyboardLayoutsState) (event : Event) :
    Outcome KeyboardLayoutsState :=
  match event with
  | KeyboardLayoutsChanged keyboard_layouts =>
      Applied (MkKeyboardLayoutsState (Some keyboard_layouts))
  | KeyboardLayoutSwitched idx =>
      match s.(kls_keyboard_layouts) with
      | Some kb => Applied (MkKeyboardLayoutsState (Some (set_kl_current_idx idx kb)))
      | None => Panicked
      end
  | event => Ignored event
  end.

Definition OverviewState_apply (s : OverviewState) (event : Event) : Outcome OverviewState :=
  match event with
  | OverviewOpenedOrClosed is_open => Applied (MkOverviewState is_open)
  | event => Ignored event
  end.

Definition ConfigState_apply (s : ConfigState) (event : Event) : Outcome ConfigState :=
  match event with
  | ConfigLoaded failed => Applied (MkConfigState failed)
  | event => Ignored event
  end.

Definition CastsState_apply (s : CastsState) (event : Event) : Outcome CastsState :=
  let m := s.(cas_casts) in
  match event with
  | CastsChanged casts => Applied (MkCastsState (collect_by ca_stream_id casts))
  | CastStartedOrChanged cast => Applied (MkCastsState (<[cast.(ca_stream_id) := cast]> m))
  | CastStopped stream_id =>
      match m !! stream_id with
      | Some _ => Applied (MkCastsState (delete stream_id m))
      | None => Panicked
      end
  | event => Ignored event
  end.

#[export] Instance WorkspacesState_part : EventStreamStatePart WorkspacesState :=
  {| state_default := MkWorkspacesState ∅;
     replicate s := [WorkspacesChanged (hash_values s.(wss_workspaces))];
     apply := WorkspacesState_apply |}.

#[export] Instance WindowsState_part : EventStreamStatePart WindowsState :=
  {| state_default := MkWindowsState ∅;
     replicate s := [WindowsChanged (hash_values s.(wns_windows))];
     apply := WindowsState_apply |}.

#[export] Instance KeyboardLayoutsState_part : EventStreamStatePart KeyboardLayoutsState :=
  {| state_default := MkKeyboardLayoutsState None;
     replicate := KeyboardLayoutsState_replicate;
     apply := KeyboardLayoutsState_apply |}.

#[export] Instance OverviewState_part : EventStreamStatePart OverviewState :=
  {| state_default := MkOverviewState false;
     replicate s := [OverviewOpenedOrClosed s.(ovs_is_open)];
     apply := OverviewState_apply |}.

#[export] Instance ConfigState_part : EventStreamStatePart ConfigState :=
  {| state_default := MkConfigState false;
     replicate s := [ConfigLoaded s.(cfs_failed)];
     apply := ConfigState_apply |}.

#[export] Instance CastsState_part : EventStreamStatePart CastsState :=
  {| state_default := MkCastsState ∅;
     replicate s := [CastsChanged (hash_values s.(cas_casts))];
     apply := CastsState_apply |}.

(** ** The full state *)
Definition EventStreamState_replicate (s : EventStreamState) : list Event :=
  replicate s.(es_workspaces) ++ replicate s.(es_windows) ++
  replicate s.(es_keyboard_layouts) ++ replicate s.(es_overview) ++
  replicate s.(es_config) ++ replicate s.(es_casts).

(** One part of the full state tries the event; the rest sees it when it is ignored. *)
Definition try_part {P T} `{EventStreamStatePart P} (part : P) (put : P → T)
    (event : Event) (rest : Event → Outcome T) : Outcome T :=
  match apply part event with
  | Applied part => Applied (put part)
  | Ignored event => rest event
  | Panicked => Panicked
  end.

Definition EventStreamState_apply (s : EventStreamState) (event : Event) :
    Outcome EventStreamState :=
  let '(MkEventStreamState ws win kb ov cf ca) := s in
  try_part ws (λ ws, MkEventStreamState ws win kb ov cf ca) event (λ event,
  try_part win (λ win, MkEventStreamState ws win kb ov cf ca) event (λ event,
  try_part kb (λ kb, MkEventStreamState ws win kb ov cf ca) event (λ event,
  try_part ov (λ ov, MkEventStreamState ws win kb ov cf ca) event (λ event,
  try_part cf (λ cf, MkEventStreamState ws win kb ov cf ca) event (λ event,
  try_part ca (λ ca, MkEventStreamState ws win kb ov cf ca) event (λ event,
  Ignored event)))))).

#[export] Instance EventStreamState_part : EventStreamStatePart EventStreamState :=
  {| state_default :=
       MkEventStreamState state_default state_default state_default state_default
         state_default state_default;
     replicate := EventStreamState_replicate;
     apply := EventStreamState_apply |}.
End parts.

(** ** What a part promises *)
Inductive Part := PWorkspaces | PWindows | PKeyboard | POverview | PConfig | PCasts.

#[export] Instance Part_eq_dec : EqDecision Part.
Proof. solve_decision. Defined.

(** The part of the state that an event is about. *)
Definition event_part (event : Event) : option Part :=
  match event with
  | WorkspacesChanged _ | WorkspaceUrgencyChanged _ _ | WorkspaceActivated _ _
  | WorkspaceActiveWindowChanged _ _ => Some PWorkspaces
  | WindowsChanged _ | WindowOpenedOrChanged _ | WindowClosed _ | WindowFocusChanged _
  | WindowFocusTimestampChanged _ _ | WindowUrgencyChanged _ _
  | WindowLayoutsChanged _ => Some PWindows
  | KeyboardLayoutsChanged _ | KeyboardLayoutSwitched _ => Some PKeyboard
  | OverviewOpenedOrClosed _ => Some POverview
  | ConfigLoaded _ => Some PConfig
  | CastsChanged _ | CastStartedOrChanged _ | CastStopped _ => Some PCasts
  | _ => None
  end.

Class EventStreamStatePartLaws (T : Type) `{EventStreamStatePart T} := {
  part_of : Part;
  part_ok : T → Prop;
  part_ignores : ∀ s event, event_part event ≠ Some part_of → apply s event = Ignored event;
  part_handles : ∀ s event event', event_part event = Some part_of → apply s event ≠ Ignored event';
  part_preserves : ∀ s event s', part_ok s → apply s event = Applied s' → part_ok s';
  part_default_ok : part_ok state_default;
  part_replicates : ∀ s, Forall (λ event, event_part event = Some part_of) (replicate s);
  part_roundtrip : ∀ s, part_ok s → apply_all state_default (replicate s) = Some s
}.

(** ** Maps by id *)
Definition keyed {A} (key : A → N) (m : gmap N A) : Prop := map_Forall (λ k x, key x = k) m.

Lemma keyed_empty {A} (key : A → N) : keyed key ∅.
Proof. apply map_Forall_empty. Qed.

Lemma keyed_insert {A} (key : A → N) m x : keyed key m → keyed key (<[key x := x]> m).
Proof. by apply map_Forall_insert_2. Qed.

Lemma keyed_update {A} (key : A → N) m k x : key x = k → keyed key m → keyed key (<[k := x]> m).
Proof. intros <-. apply keyed_insert. Qed.

Lemma keyed_delete {A} (key : A → N) m k : keyed key m → keyed key (delete k m).
Proof. by apply map_Forall_delete. Qed.

Lemma keyed_fmap {A} (key : A → N) (f : A → A) m :
  (∀ x, key (f x) = key x) → keyed key m → keyed key (f <$> m).
Proof.
  intros Hf Hm k x. rewrite lookup_fmap. intros (y & Hy & ->)%fmap_Some_1.
  rewrite Hf. by apply Hm.
Qed.

Lemma keyed_alter {A} (key : A → N) (f : A → A) m k :
  (∀ x, key (f x) = key x) → keyed key m → keyed key (alter f k m).
Proof.
  intros Hf Hm j x. rewrite lookup_alter. case_decide; subst; [|apply Hm].
  intros (y & Hy & ->)%fmap_Some_1. rewrite Hf. by apply Hm.
Qed.

Lemma collect_by_foldl {A} (key : A → N) l (m : gmap N A) :
  NoDup (key <$> l) → (∀ k, k ∈ (key <$> l) → m !! k = None) →
  foldl (λ m x, <[key x := x]> m) m l = list_to_map ((λ x, (key x, x)) <$> l) ∪ m.
Proof.
  revert m. induction l as [|x l IH]; intros m Hnd Hm; cbn [foldl].
  - simpl. by rewrite (left_id_L ∅ (∪)).
  - rewrite fmap_cons in Hnd. apply NoDup_cons in Hnd as [Hx Hnd]. rewrite IH; [|done|].
    + rewrite fmap_cons, list_to_map_cons, <- insert_union_r; [by rewrite insert_union_l|].
      apply not_elem_of_list_to_map_1. by rewrite <- list_fmap_compose.
    + intros k Hk. rewrite lookup_insert_ne by (intros <-; done). apply Hm.
      rewrite fmap_cons. by right.
Qed.

(** Collecting a list with distinct keys gives the map of its elements. *)
Lemma collect_by_spec {A} (key : A → N) l :
  NoDup (key <$> l) → collect_by key l = list_to_map ((λ x, (key x, x)) <$> l).
Proof.
  intros Hnd. unfold collect_by. rewrite collect_by_foldl; [|done|done].
  by rewrite (right_id_L ∅ (∪)).
Qed.

Lemma collect_by_keyed {A} (key : A → N) l : keyed key (collect_by key l).
Proof.
  unfold collect_by. assert (H : keyed key (∅ : gmap N A)) by apply keyed_empty. revert H.
  generalize (∅ : gmap N A). induction l as [|x l IH]; intros m Hm; simpl; [done|].
  apply IH. by apply keyed_insert.
Qed.

Section hash_order.
Context `{HashOrder}.

(** Collecting the values of a map by id gives the map back, in any order. *)
Lemma collect_by_values {A} (key : A → N) (m : gmap N A) :
  keyed key m → collect_by key (hash_values m) = m.
Proof.
  intros Hm. pose proof (hash_iter_perm m) as Hp. unfold hash_values.
  assert (Hk : ∀ l : list (N * A), l ⊆ map_to_list m → (λ x, (key x, x)) <$> l.*2 = l).
  { induction l as [|[k x] l IH]; intros Hl; [done|]. rewrite !fmap_cons. simpl.
    rewrite (Hm k x); [f_equal; apply IH; set_solver|].
    apply elem_of_map_to_list, Hl. left. }
  assert (Hs : hash_iter m ⊆ map_to_list m) by (intros x; by rewrite Hp).
  rewrite collect_by_spec.
  - rewrite Hk by done. rewrite <- (list_to_map_to_list m) at 2. apply list_to_map_proper; [|done].
    rewrite Hp. apply NoDup_fst_map_to_list.
  - replace (key <$> (hash_iter m).*2) with (hash_iter m).*1.
    + rewrite Hp. apply NoDup_fst_map_to_list.
    + rewrite <- (Hk (hash_iter m) Hs) at 1. rewrite <- list_fmap_compose. done.
Qed.

Lemma keyed_update_one {A} (key : A → N) p (f : A → A) m :
  (∀ x, key (f x) = key x) → keyed key m → keyed key (update_one p f m).
Proof.
  intros Hf Hm. unfold update_one. split_match; [by apply keyed_alter|done].
Qed.

(** On a map by id the loop with [break] writes the one entry with that id. *)
Lemma update_one_keyed {A} (key : A → N) (f : A → A) m id :
  keyed key m → update_one (λ x, N.eqb (key x) id) f m = alter f id m.
Proof.
  intros Hm. unfold update_one. destruct (List.find _ _) as [[k x]|] eqn:E.
  - apply List.find_some in E as [Hin Hid]. apply N.eqb_eq in Hid. simpl in *.
    apply list_elem_of_In in Hin. rewrite hash_iter_perm in Hin. apply elem_of_map_to_list in Hin.
    rewrite (Hm _ _ Hin) in Hid. by subst.
  - apply map_eq. intros k. rewrite lookup_alter. case_decide as Hk; [|done]. subst.
    destruct (m !! k) as [x|] eqn:Ex; [|done].
    pose proof (List.find_none _ _ E (k, x)) as Hn. simpl in Hn.
    rewrite (Hm _ _ Ex), N.eqb_refl in Hn. discriminate Hn.
    apply list_elem_of_In. rewrite hash_iter_perm. by apply elem_of_map_to_list.
Qed.
End hash_order.

Lemma change_layouts_keyed changes m m' :
  keyed iwin_id m → change_layouts m changes = Some m' → keyed iwin_id m'.
Proof.
  revert m. induction changes as [|[id u] changes IH]; simpl; intros m Hm.
  - by intros [= <-].
  - destruct (m !! id) eqn:E; [|done]. apply IH, keyed_update; [|done]. by apply Hm in E.
Qed.

#[export] Hint Resolve keyed_empty keyed_insert keyed_update keyed_delete keyed_fmap keyed_alter
  collect_by_keyed keyed_update_one change_layouts_keyed : cidre.

(** ** The parts keep their promises *)
Section laws.
Context `{HashOrder}.

#[export] Program Instance WorkspacesState_laws : EventStreamStatePartLaws WorkspacesState :=
  {| part_of := PWorkspaces; part_ok s := keyed iw_id s.(wss_workspaces) |}.
Next Obligation. by intros s []. Qed.
Next Obligation. intros s [] event'; try done; simpl; by repeat split_match. Qed.
Next Obligation.
  intros [m] event s' Hm. unfold apply, WorkspacesState_part, WorkspacesState_apply.
  destruct event; try done; simpl in *; [..|destruct (m !! id); [|done]|destruct (m !! workspace_id) eqn:E; [|done]];
    intros [= <-]; simpl; auto with cidre.
  - apply keyed_fmap; [|done]. intros ws. by split_match.
  - apply keyed_fmap; [|done]. intros ws. by destruct (decide _), focused.
  - apply keyed_update; [|done]. by apply Hm in E.
Qed.
Next Obligation. apply keyed_empty. Qed.
Next Obligation. by repeat constructor. Qed.
Next Obligation. intros [m] Hm. simpl in *. by rewrite collect_by_values. Qed.

#[export] Program Instance WindowsState_laws : EventStreamStatePartLaws WindowsState :=
  {| part_of := PWindows; part_ok s := keyed iwin_id s.(wns_windows) |}.
Next Obligation. by intros s []. Qed.
Next Obligation. intros s [] event'; try done; simpl; by repeat split_match. Qed.
Next Obligation.
  intros [m] event s' Hm. unfold apply, WindowsState_part, WindowsState_apply.
  destruct event; try done; simpl in *; try (intros [= <-]; simpl; auto with cidre).
  - split_match; [|auto with cidre]. apply keyed_fmap; [|auto with cidre].
    intros win. by split_match.
  - destruct (m !! id); [|done]. intros [= <-]. simpl. auto with cidre.
  - destruct (change_layouts m changes) eqn:E; [|done]. intros [= <-]. simpl. eauto with cidre.
Qed.
Next Obligation. apply keyed_empty. Qed.
Next Obligation. by repeat constructor. Qed.
Next Obligation. intros [m] Hm. simpl in *. by rewrite collect_by_values. Qed.

#[export] Program Instance KeyboardLayoutsState_laws : EventStreamStatePartLaws KeyboardLayoutsState :=
  {| part_of := PKeyboard; part_ok s := True |}.
Next Obligation. by intros s []. Qed.
Next Obligation. intros s [] event'; try done; simpl; by repeat split_match. Qed.
Next Obligation. done. Qed.
Next Obligation. done. Qed.
Next Obligation.
  intros [[kb|]]; unfold replicate; simpl; unfold KeyboardLayoutsState_replicate; simpl;
    by repeat constructor.
Qed.
Next Obligation. by intros [[kb|]] _. Qed.

#[export] Program Instance OverviewState_laws : EventStreamStatePartLaws OverviewState :=
  {| part_of := POverview; part_ok s := True |}.
Next Obligation. by intros s []. Qed.
Next Obligation. by intros s [] event'. Qed.
Next Obligation. done. Qed.
Next Obligation. done. Qed.
Next Obligation. by repeat constructor. Qed.
Next Obligation. by intros [] _. Qed.

#[export] Program Instance ConfigState_laws : EventStreamStatePartLaws ConfigState :=
  {| part_of := PConfig; part_ok s := True |}.
Next Obligation. by intros s []. Qed.
Next Obligation. by intros s [] event'. Qed.
Next Obligation. done. Qed.
Next Obligation. done. Qed.
Next Obligation. by repeat constructor. Qed.
Next Obligation. by intros [] _. Qed.

#[export] Program Instance CastsState_laws : EventStreamStatePartLaws CastsState :=
  {| part_of := PCasts; part_ok s := keyed ca_stream_id s.(cas_casts) |}.
Next Obligation. by intros s []. Qed.
Next Obligation. intros s [] event'; try done; simpl; by repeat split_match. Qed.
Next Obligation.
  intros [m] event s' Hm. unfold apply, CastsState_part, CastsState_apply.
  destruct event; try done; simpl in *; try (intros [= <-]; simpl; auto with cidre).
  destruct (m !! stream_id); [|done]. intros [= <-]. simpl. auto with cidre.
Qed.
Next Obligation. apply keyed_empty. Qed.
Next Obligation. by repeat constructor. Qed.
Next Obligation. intros [m] Hm. simpl in *. by rewrite collect_by_values. Qed.
End laws.

(** ** The full state, from the promises of its parts *)
Section full_state.
Context `{HashOrder}.

Record stream_ok (s : EventStreamState) : Prop := {
  sk_workspaces : part_ok s.(es_workspaces);
  sk_windows : part_ok s.(es_windows);
  sk_keyboard_layouts : part_ok s.(es_keyboard_layouts);
  sk_overview : part_ok s.(es_overview);
  sk_config : part_ok s.(es_config);
  sk_casts : part_ok s.(es_casts)
}.

Lemma apply_all_app {T} `{EventStreamStatePart T} (s : T) e1 e2 :
  apply_all s (e1 ++ e2) = s ← apply_all s e1; apply_all s e2.
Proof. revert s. induction e1; intros s; simpl; [done|]. by split_match. Qed.

Lemma try_part_other {P T} `{EventStreamStatePartLaws P} (part : P) (put : P → T) event rest :
  event_part event ≠ Some (part_of (T := P)) → try_part part put event rest = rest event.
Proof. intros Hne. unfold try_part. by rewrite part_ignores. Qed.

Lemma try_part_own {P T} `{EventStreamStatePartLaws P} (part : P) (put : P → T) event rest rest' :
  event_part event = Some (part_of (T := P)) →
  try_part part put event rest = try_part part put event rest'.
Proof.
  intros He. unfold try_part. destruct (apply part event) eqn:E; try done.
  by apply part_handles in E.
Qed.

(** The events of one part act on that part alone. *)
Lemma apply_all_part {P} `{EventStreamStatePartLaws P} (put : P → EventStreamState)
    (Hput : ∀ p event, event_part event = Some (part_of (T := P)) →
              apply (put p) event = try_part p put event Ignored) p events :
  Forall (λ event, event_part event = Some (part_of (T := P))) events →
  apply_all (put p) events = put <$> apply_all p events.
Proof.
  intros Hf. revert p. induction Hf as [|event events He Hf IH]; intros p; cbn [apply_all]; [done|].
  rewrite Hput by done. unfold try_part. destruct (apply p event) eqn:E; [apply IH| |done].
  by apply part_handles in E.
Qed.

(** Replaying the events of one part from its default state. *)
Lemma apply_replicated_part {P} `{EventStreamStatePartLaws P} (put : P → EventStreamState) p :
  (∀ p event, event_part event = Some (part_of (T := P)) →
     apply (put p) event = try_part p put event Ignored) →
  part_ok p → apply_all (put state_default) (replicate p) = Some (put p).
Proof.
  intros Hput Hp. rewrite (apply_all_part put Hput) by apply part_replicates.
  by rewrite part_roundtrip.
Qed.

(** Skip the parts that an event is not about. *)
Ltac solve_put :=
  let p := fresh in let event := fresh in let He := fresh in
  intros p event He;
  match goal with |- apply ?s _ = _ => change (apply s event) with (EventStreamState_apply s event) end;
  unfold EventStreamState_apply;
  repeat (rewrite try_part_other by (rewrite He; done));
  erewrite try_part_own by done; reflexivity.

Lemma stream_roundtrip s : stream_ok s → apply_all state_default (replicate s) = Some s.
Proof.
  destruct s as [ws win kb ov cf ca]. intros [H1 H2 H3 H4 H5 H6].
  change (apply_all (MkEventStreamState state_default state_default state_default state_default
    state_default state_default) (replicate ws ++ replicate win ++ replicate kb ++
    replicate ov ++ replicate cf ++ replicate ca) = Some (MkEventStreamState ws win kb ov cf ca)).
  rewrite apply_all_app.
  rewrite (apply_replicated_part (λ ws, MkEventStreamState ws state_default state_default
    state_default state_default state_default) ws); [|solve_put|done].
  cbn [mbind option_bind]. rewrite apply_all_app.
  rewrite (apply_replicated_part (λ win, MkEventStreamState ws win state_default
    state_default state_default state_default) win); [|solve_put|done].
  cbn [mbind option_bind]. rewrite apply_all_app.
  rewrite (apply_replicated_part (λ kb, MkEventStreamState ws win kb
    state_default state_default state_default) kb); [|solve_put|done].
  cbn [mbind option_bind]. rewrite apply_all_app.
  rewrite (apply_replicated_part (λ ov, MkEventStreamState ws win kb ov
    state_default state_default) ov); [|solve_put|done].
  cbn [mbind option_bind]. rewrite apply_all_app.
  rewrite (apply_replicated_part (λ cf, MkEventStreamState ws win kb ov cf state_default) cf);
    [|solve_put|done].
  cbn [mbind option_bind].
  by rewrite (apply_replicated_part (λ ca, MkEventStreamState ws win kb ov cf ca) ca);
    [|solve_put|].
Qed.

Lemma try_part_ok {P} `{EventStreamStatePartLaws P} (part : P) (put : P → EventStreamState)
    event rest s' :
  (∀ part', part_ok part' → stream_ok (put part')) → part_ok part →
  (∀ event', rest event' = Applied s' → stream_ok s') →
  try_part part put event rest = Applied s' → stream_ok s'.
Proof.
  intros Hput Hp Hrest. unfold try_part. destruct (apply part event) eqn:E; [|by apply Hrest|done].
  intros [= <-]. by eapply Hput, part_preserves.
Qed.

Lemma stream_ok_apply s event s' : stream_ok s → apply s event = Applied s' → stream_ok s'.
Proof.
  destruct s as [ws win kb ov cf ca]. intros [H1 H2 H3 H4 H5 H6]. simpl in *.
  repeat (eapply try_part_ok; [by split|done|]; clear event; intros event). done.
Qed.

Lemma stream_ok_apply_all events s s' :
  stream_ok s → apply_all s events = Some s' → stream_ok s'.
Proof.
  revert s. induction events as [|event events IH]; intros s Hs; cbn [apply_all].
  - by intros [= <-].
  - destruct (apply s event) as [s1| |] eqn:E; [|by apply IH|done].
    apply IH. by eapply stream_ok_apply.
Qed.

Lemma stream_ok_default : stream_ok state_default.
Proof. split; apply part_default_ok. Qed.
End full_state.

(** ** Properties *)

(** C23: round trip. Whatever events brought a client to state [s], the events that
    [replicate] sends to a client that connects later bring it to the same state, in whatever
    order the hash maps list their values. *)
Theorem replicate_rebuilds_state `{HashOrder} (events : list Event) (s : EventStreamState) :
  apply_all state_default events = Some s →
  apply_all state_default (replicate s) = Some s.
Proof.
  intros Hs. apply stream_roundtrip. by eapply stream_ok_apply_all, Hs; apply stream_ok_default.
Qed.

Definition sample_workspace (id idx : N) (output : string) (active focused : bool) : Workspace :=
  MkWorkspace id idx None (Some output) false active focused None.

Definition sample_events : list Event :=
  [WorkspacesChanged [sample_workspace 1 1 "DP-1" true true; sample_workspace 2 2 "DP-1" false false];
   WorkspaceActivated 2 true; OverviewOpenedOrClosed true; ConfigLoaded false].

#[local] Existing Instance listed_order.

Lemma replicate_rebuilds_state_witness :
  ∃ s : EventStreamState, apply_all state_default sample_events = Some s ∧
    apply_all state_default (replicate s) = Some s.
Proof.
  destruct (apply_all state_default sample_events) as [s|] eqn:E;
    [|vm_compute in E; discriminate].
  exists s. split; [reflexivity|].
  exact (replicate_rebuilds_state sample_events s E).
Defined.
