(* ===== verification/IpcServer.v ===== *)
(** * Refreshing the event-stream state (src/ipc/server.rs)

    After every change of the layout the server compares its copy of the event-stream
    state with the layout and sends the events that describe the difference. A [Layout]
    here is what these functions read of the layout: the workspaces with their monitors
    and the windows. [snapshot] is the state that describes a layout; the refinement
    theorems say that the events take the snapshot of the old layout to the
    snapshot of the new one. *)
From S2P Require Import Prelude Float64 LinkProtocol IpcTypes IpcState.

(** ** What the server reads of the layout *)
Record MonitorView := MkMonitorView {
  mv_output_name : string;
  mv_active_workspace_idx : nat
}.

(** An item of [layout.workspaces()]. *)
Record WorkspaceView := MkWorkspaceView {
  wv_mon : option MonitorView;
  wv_ws_idx : nat;
  wv_id : N;
  wv_name : option string;
  wv_active_window : option N;
  wv_is_urgent : bool
}.

(** What [layout.with_windows] passes for a window. *)
Record WindowView := MkWindowView {
  nv_id : N;
  nv_title : option string;
  nv_app_id : option string;
  nv_pid : option Z;
  nv_ws_id : option N;
  nv_is_focused : bool;
  nv_is_floating : bool;
  nv_is_urgent : bool;
  nv_layout : WindowLayout;
  nv_focus_timestamp : option Timestamp
}.

Record LayoutView := MkLayoutView {
  lay_workspaces : list WorkspaceView;
  lay_active_workspace : option N;
  lay_windows : list WindowView;
  lay_overview_open : bool
}.

(** The server: its copy of the state and the events sent so far. *)
Record IpcServer := MkIpcServer {
  srv_state : EventStreamState;
  srv_sent : list Event
}.

(** ** Workspaces *)

(** [u8::try_from(ws_idx + 1).unwrap_or(u8::MAX)]. *)
Definition ipc_idx (ws_idx : nat) : N :=
  if (N.of_nat (ws_idx + 1) <=? u8_max)%N then N.of_nat (ws_idx + 1) else u8_max.

Definition wv_output (v : WorkspaceView) : option string := mv_output_name <$> v.(wv_mon).

Definition wv_is_active (v : WorkspaceView) : bool :=
  match v.(wv_mon) with
  | Some mon => mon.(mv_active_workspace_idx) =? v.(wv_ws_idx)
  | None => false
  end.

Definition ipc_workspace (focused_ws_id : option N) (v : WorkspaceView) : Workspace :=
  {| iw_id := v.(wv_id);
     iw_idx := ipc_idx v.(wv_ws_idx);
     iw_name := v.(wv_name);
     iw_output := wv_output v;
     iw_is_urgent := v.(wv_is_urgent);
     iw_is_active := wv_is_active v;
     iw_is_focused := bool_decide (Some v.(wv_id) = focused_ws_id);
     iw_active_window_id := v.(wv_active_window) |}.

(** The body of the loop over the workspaces: [None] when only a full update can
    describe the change. *)
Definition check_workspace (m : gmap N Workspace) (focused_ws_id : option N) (v : WorkspaceView) :
    option (list Event) :=
  match m !! v.(wv_id) with
  | None => None
  | Some ipc_ws =>
      if decide (ipc_ws.(iw_idx) = ipc_idx v.(wv_ws_idx) ∧ ipc_ws.(iw_name) = v.(wv_name) ∧
                 ipc_ws.(iw_output) = wv_output v) then
        let id := v.(wv_id) in
        Some
          ((if decide (ipc_ws.(iw_active_window_id) = v.(wv_active_window)) then []
            else [WorkspaceActiveWindowChanged id v.(wv_active_window)]) ++
           (if Bool.eqb v.(wv_is_urgent) ipc_ws.(iw_is_urgent) then []
            else [WorkspaceUrgencyChanged id v.(wv_is_urgent)]) ++
           (if bool_decide (Some id = focused_ws_id) && negb ipc_ws.(iw_is_focused)
            then [WorkspaceActivated id true]
            else if wv_is_active v && negb ipc_ws.(iw_is_active)
            then [WorkspaceActivated id false]
            else []))
      else None
  end.

(** The loop, which stops at the first workspace that needs a full update. *)
Fixpoint check_workspaces (m : gmap N Workspace) (focused_ws_id : option N)
    (views : list WorkspaceView) : option (list Event) :=
  match views with
  | [] => Some []
  | v :: views =>
      match check_workspace m focused_ws_id v with
      | None => None
      | Some events => (events ++.) <$> check_workspaces m focused_ws_id views
      end
  end.

Definition workspaces_events (m : gmap N Workspace) (layout : LayoutView) : list Event :=
  let focused_ws_id := layout.(lay_active_workspace) in
  let full :=
    [WorkspacesChanged (ipc_workspace focused_ws_id <$> layout.(lay_workspaces))] in
  match check_workspaces m focused_ws_id layout.(lay_workspaces) with
  | None => full
  | Some events =>
      let seen : gset N := list_to_set (wv_id <$> layout.(lay_workspaces)) in
      if bool_decide (dom m ⊆ seen) then events else full
  end.

Section server.
Context `{HashOrder}.

(** [state.apply(event.clone()); server.send_event(event)] for each event. *)
Definition ipc_refresh_workspaces (server : IpcServer) (layout : LayoutView) : option IpcServer :=
  let '(MkIpcServer (MkEventStreamState ws win kb ov cf ca) sent) := server in
  let events := workspaces_events ws.(wss_workspaces) layout in
  (λ ws, MkIpcServer (MkEventStreamState ws win kb ov cf ca) (sent ++ events)) <$>
    apply_all ws events.

Definition ipc_refresh_overview (server : IpcServer) (layout : LayoutView) : option IpcServer :=
  let '(MkIpcServer (MkEventStreamState ws win kb ov cf ca) sent) := server in
  if Bool.eqb ov.(ovs_is_open) layout.(lay_overview_open) then Some server
  else
    let event := OverviewOpenedOrClosed layout.(lay_overview_open) in
    (λ ov, MkIpcServer (MkEventStreamState ws win kb ov cf ca) (sent ++ [event])) <$>
      apply_all ov [event].

(** ** Windows *)
Definition make_ipc_window (v : WindowView) : Window :=
  {| iwin_id := v.(nv_id);
     iwin_title := v.(nv_title);
     iwin_app_id := v.(nv_app_id);
     iwin_pid := v.(nv_pid);
     iwin_workspace_id := v.(nv_ws_id);
     iwin_is_focused := v.(nv_is_focused);
     iwin_is_floating := v.(nv_is_floating);
     iwin_is_urgent := v.(nv_is_urgent);
     iwin_layout := v.(nv_layout);
     iwin_focus_timestamp := v.(nv_focus_timestamp) |}.

(** The closure of [with_windows]: the events and the layout change of a window. *)
Definition check_window (m : gmap N Window) (v : WindowView) :
    list Event * list (N * WindowLayout) :=
  let id := v.(nv_id) in
  match m !! id with
  | None => ([WindowOpenedOrChanged (make_ipc_window v)], [])
  | Some ipc_win =>
      if decide (ipc_win.(iwin_workspace_id) = v.(nv_ws_id) ∧
                 ipc_win.(iwin_is_floating) = v.(nv_is_floating) ∧
                 ipc_win.(iwin_title) = v.(nv_title) ∧ ipc_win.(iwin_app_id) = v.(nv_app_id)) then
        ((if v.(nv_is_focused) && negb ipc_win.(iwin_is_focused)
          then [WindowFocusChanged (Some id)] else []) ++
         (if decide (v.(nv_focus_timestamp) = ipc_win.(iwin_focus_timestamp)) then []
          else [WindowFocusTimestampChanged id v.(nv_focus_timestamp)]) ++
         (if Bool.eqb v.(nv_is_urgent) ipc_win.(iwin_is_urgent) then []
          else [WindowUrgencyChanged id v.(nv_is_urgent)]),
         if WindowLayout_eqb ipc_win.(iwin_layout) v.(nv_layout) then []
         else [(id, v.(nv_layout))])
      else ([WindowOpenedOrChanged (make_ipc_window v)], [])
  end.

Definition windows_events (m : gmap N Window) (layout : LayoutView) : list Event :=
  let checked := check_window m <$> layout.(lay_windows) in
  let batch_change_layouts := mjoin checked.*2 in
  let seen : gset N := list_to_set (nv_id <$> layout.(lay_windows)) in
  let focused := existsb nv_is_focused layout.(lay_windows) in
  let ipc_focused := existsb iwin_is_focused (hash_values m) in
  mjoin checked.*1 ++
  (match batch_change_layouts with [] => [] | changes => [WindowLayoutsChanged changes] end) ++
  (WindowClosed <$> List.filter (λ id, negb (bool_decide (id ∈ seen))) (hash_iter m).*1) ++
  (if negb focused && ipc_focused then [WindowFocusChanged None] else []).

Definition ipc_refresh_windows (server : IpcServer) (layout : LayoutView) : option IpcServer :=
  let '(MkIpcServer (MkEventStreamState ws win kb ov cf ca) sent) := server in
  let events := windows_events win.(wns_windows) layout in
  (λ win, MkIpcServer (MkEventStreamState ws win kb ov cf ca) (sent ++ events)) <$>
    apply_all win events.

Definition ipc_refresh_layout (server : IpcServer) (layout : LayoutView) : option IpcServer :=
  server ← ipc_refresh_workspaces server layout;
  server ← ipc_refresh_windows server layout;
  ipc_refresh_overview server layout.

(** ** Keyboard layouts, configuration, screenshots *)
Definition ipc_keyboard_layouts_changed (server : IpcServer) (keyboard_layouts : KeyboardLayouts) :
    option IpcServer :=
  let '(MkIpcServer (MkEventStreamState ws win kb ov cf ca) sent) := server in
  let event := KeyboardLayoutsChanged keyboard_layouts in
  (λ kb, MkIpcServer (MkEventStreamState ws win kb ov cf ca) (sent ++ [event])) <$>
    apply_all kb [event].

(** [idx] is the active layout; the [unwrap] fails when no layouts were announced. *)
Definition ipc_refresh_keyboard_layout_index (server : IpcServer) (idx : N) : option IpcServer :=
  let '(MkIpcServer (MkEventStreamState ws win kb ov cf ca) sent) := server in
  match kb.(kls_keyboard_layouts) with
  | None => None
  | Some layouts =>
      if N.eqb layouts.(kl_current_idx) idx then Some server
      else
        let event := KeyboardLayoutSwitched idx in
        (λ kb, MkIpcServer (MkEventStreamState ws win kb ov cf ca) (sent ++ [event])) <$>
          apply_all kb [event]
  end.

Definition ipc_config_loaded (server : IpcServer) (failed : bool) : option IpcServer :=
  let event := ConfigLoaded failed in
  (λ state, MkIpcServer state (server.(srv_sent) ++ [event])) <$>
    apply_all server.(srv_state) [event].

Definition ipc_screenshot_taken (server : IpcServer) (path : option string) : option IpcServer :=
  let event := ScreenshotCaptured path in
  (λ state, MkIpcServer state (server.(srv_sent) ++ [event])) <$>
    apply_all server.(srv_state) [event].

Definition ipc_gesture_progress (server : IpcServer) (gesture phase : string) (fingers : N)
    (direction : string) (progress velocity : f64) : IpcServer :=
  MkIpcServer server.(srv_state)
    (server.(srv_sent) ++
       [TouchpadGestureProgress gesture phase fingers direction progress velocity]).

Definition ipc_link_event (server : IpcServer) (event : Event) : IpcServer :=
  MkIpcServer server.(srv_state) (server.(srv_sent) ++ [event]).
End server.

(** ** Snapshots *)
Definition workspaces_snapshot (layout : LayoutView) : gmap N Workspace :=
  collect_by iw_id (ipc_workspace layout.(lay_active_workspace) <$> layout.(lay_workspaces)).

(** What the layout guarantees about its workspaces: distinct ids, one active workspace per
    monitor, the active workspace of the layout is active on its monitor, and there is
    none only without monitors. *)
Record workspaces_wf (layout : LayoutView) : Prop := {
  ww_ids : NoDup (wv_id <$> layout.(lay_workspaces));
  ww_one_active : ∀ v1 v2, v1 ∈ layout.(lay_workspaces) → v2 ∈ layout.(lay_workspaces) →
    wv_output v1 = wv_output v2 → wv_is_active v1 = true → wv_is_active v2 = true →
    wv_id v1 = wv_id v2;
  ww_some_active : ∀ v, v ∈ layout.(lay_workspaces) → is_Some v.(wv_mon) →
    ∃ a, a ∈ layout.(lay_workspaces) ∧ wv_output a = wv_output v ∧ wv_is_active a = true;
  ww_focused : ∀ id, layout.(lay_active_workspace) = Some id →
    ∃ v, v ∈ layout.(lay_workspaces) ∧ v.(wv_id) = id ∧ wv_is_active v = true;
  ww_unfocused : layout.(lay_active_workspace) = None →
    ∀ v, v ∈ layout.(lay_workspaces) → v.(wv_mon) = None
}.

Lemma iw_id_ipc_workspaces f (l : list WorkspaceView) : iw_id <$> (ipc_workspace f <$> l) = wv_id <$> l.
Proof. rewrite <- list_fmap_compose. by apply list_fmap_ext. Qed.

Lemma lookup_snapshot layout k w :
  NoDup (wv_id <$> layout.(lay_workspaces)) →
  workspaces_snapshot layout !! k = Some w ↔
  ∃ v, v ∈ layout.(lay_workspaces) ∧ v.(wv_id) = k ∧ w = ipc_workspace layout.(lay_active_workspace) v.
Proof.
  intros Hnd. unfold workspaces_snapshot. rewrite collect_by_spec by (by rewrite iw_id_ipc_workspaces).
  rewrite <- elem_of_list_to_map.
  - rewrite <- list_fmap_compose, list_elem_of_fmap. simpl. split.
    + intros (v & [= -> ->] & Hv). eauto.
    + intros (v & Hv & <- & ->). exists v. done.
  - rewrite <- !list_fmap_compose. simpl. exact Hnd.
Qed.

Lemma snapshot_keyed layout : keyed iw_id (workspaces_snapshot layout).
Proof. apply collect_by_keyed. Qed.

(** ** Events on workspaces, entry by entry *)

(** What an event does to one entry; [outs] is the output of each workspace. *)
Definition ws_effect (outs : N → option string) (w : Workspace) (event : Event) : Workspace :=
  match event with
  | WorkspaceUrgencyChanged id urgent =>
      if N.eqb w.(iw_id) id then set_iw_is_urgent urgent w else w
  | WorkspaceActivated id focused =>
      let got_activated := N.eqb w.(iw_id) id in
      let w := if decide (w.(iw_output) = outs id) then set_iw_is_active got_activated w else w in
      if focused then set_iw_is_focused got_activated w else w
  | WorkspaceActiveWindowChanged id active_window_id =>
      if N.eqb w.(iw_id) id then set_iw_active_window_id active_window_id w else w
  | _ => w
  end.

(** The workspace that an individual event is about. *)
Definition ws_target (event : Event) : option N :=
  match event with
  | WorkspaceUrgencyChanged id _ | WorkspaceActivated id _ | WorkspaceActiveWindowChanged id _ =>
      Some id
  | _ => None
  end.

Lemma ws_effect_id outs w event : (ws_effect outs w event).(iw_id) = w.(iw_id).
Proof. destruct event; simpl; try done; repeat split_match; done. Qed.

Lemma ws_effect_output outs w event : (ws_effect outs w event).(iw_output) = w.(iw_output).
Proof. destruct event; simpl; try done; repeat split_match; done. Qed.

Lemma ws_effects_id outs w events : (foldl (ws_effect outs) w events).(iw_id) = w.(iw_id).
Proof. revert w. induction events; intros w; simpl; [done|]. by rewrite IHevents, ws_effect_id. Qed.

Lemma ws_effects_output outs w events :
  (foldl (ws_effect outs) w events).(iw_output) = w.(iw_output).
Proof.
  revert w. induction events; intros w; simpl; [done|]. by rewrite IHevents, ws_effect_output.
Qed.

Section effects.
Context (outs : N → option string).

Definition outputs_ok (m : gmap N Workspace) : Prop :=
  map_Forall (λ k w, w.(iw_output) = outs k) m.

Lemma apply_workspace_event `{HashOrder} m event id :
  keyed iw_id m → outputs_ok m → ws_target event = Some id → is_Some (m !! id) →
  apply (MkWorkspacesState m) event = Applied (MkWorkspacesState ((λ w, ws_effect outs w event) <$> m)).
Proof.
  intros Hk Ho Ht [w Hw]. destruct event; simplify_eq/=; [done|..]; rewrite Hw.
  - do 2 f_equal. apply map_fmap_ext. intros k w' Hw'. simpl. by rewrite (Ho _ _ Hw).
  - do 2 f_equal. apply map_eq. intros k. rewrite lookup_fmap, lookup_insert.
    case_decide as Hid; subst.
    + rewrite Hw. simpl. by rewrite (Hk _ _ Hw), N.eqb_refl.
    + destruct (m !! k) as [w'|] eqn:E; [|done]. simpl. rewrite (Hk _ _ E).
      rewrite (proj2 (N.eqb_neq k id)) by congruence. done.
Qed.

Lemma apply_workspace_events `{HashOrder} events m :
  keyed iw_id m → outputs_ok m →
  Forall (λ event, ∃ id, ws_target event = Some id ∧ is_Some (m !! id)) events →
  apply_all (MkWorkspacesState m) events =
  Some (MkWorkspacesState ((λ w, foldl (ws_effect outs) w events) <$> m)).
Proof.
  intros Hk Ho Hf. revert m Hk Ho Hf.
  induction events as [|event events IH]; intros m Hk Ho Hf; cbn [apply_all].
  - simpl. by rewrite map_fmap_id.
  - apply Forall_cons in Hf as [(id & Ht & Hid) Hf].
    rewrite (apply_workspace_event m event id) by done. rewrite IH.
    + by rewrite <- map_fmap_compose.
    + apply keyed_fmap; [|done]. intros. apply ws_effect_id.
    + intros k w. rewrite lookup_fmap. intros (w' & Hw' & ->)%fmap_Some_1.
      rewrite ws_effect_output. by apply Ho.
    + eapply Forall_impl; [exact Hf|]. simpl. intros ev (id' & Ht' & Hid'). exists id'.
      split; [done|]. by rewrite lookup_fmap, fmap_is_Some.
Qed.

(** A field of an entry after the events: when every event that touches it writes [val],
    and one does or the field had that value before, then it has it afterwards. *)
Lemma ws_effects_field {B} (field : Workspace → B) (touches : Event → bool) val events w :
  (∀ event w', w'.(iw_id) = w.(iw_id) → w'.(iw_output) = w.(iw_output) → event ∈ events →
     field (ws_effect outs w' event) = if touches event then val else field w') →
  (field w = val ∨ ∃ event, event ∈ events ∧ touches event = true) →
  field (foldl (ws_effect outs) w events) = val.
Proof.
  induction events as [|event events IH] using rev_ind; intros Heff Hor.
  - destruct Hor as [?|(e & He & _)]; [done|]. by apply elem_of_nil in He.
  - rewrite foldl_app. simpl. rewrite Heff.
    + destruct (touches event) eqn:E; [done|]. apply IH.
      * intros e w' Hi Hx He. apply Heff; [done..|]. set_solver.
      * destruct Hor as [?|(e & He & Ht)]; [by left|]. right. exists e.
        split; [|done]. apply elem_of_app in He as [He|He]; [done|].
        apply list_elem_of_singleton in He. congruence.
    + apply ws_effects_id.
    + apply ws_effects_output.
    + set_solver.
Qed.
End effects.

(** ** The individual events describe the change *)
Section individual_events.
Context (m0 : gmap N Workspace) (f1 : option N).

Lemma check_workspaces_Some views events :
  check_workspaces m0 f1 views = Some events →
  (∀ v, v ∈ views → ∃ evs, check_workspace m0 f1 v = Some evs ∧ evs ⊆ events) ∧
  (∀ event, event ∈ events → ∃ v evs, v ∈ views ∧ check_workspace m0 f1 v = Some evs ∧ event ∈ evs).
Proof.
  revert events. induction views as [|v views IH]; intros events; simpl.
  - intros [= <-]. split; intros ? H; by apply elem_of_nil in H.
  - destruct (check_workspace m0 f1 v) as [evs|] eqn:E; [|done].
    destruct (check_workspaces m0 f1 views) as [rest|] eqn:Er; [|done]. simpl. intros [= <-].
    destruct (IH rest eq_refl) as [IH1 IH2]. split.
    + intros v' [->|Hv']%elem_of_cons; [exists evs; split; [done|set_solver]|].
      destruct (IH1 v' Hv') as (evs' & ? & ?). exists evs'. split; [done|set_solver].
    + intros event [He|He]%elem_of_app; [exists v, evs; split_and!; [left|done..]|].
      destruct (IH2 event He) as (v' & evs' & ? & ? & ?). exists v', evs'.
      split_and!; [by right|done..].
Qed.

(** What an event of the loop says about its workspace. *)
Lemma check_workspace_events v evs :
  check_workspace m0 f1 v = Some evs →
  ∃ w, m0 !! v.(wv_id) = Some w ∧ w.(iw_idx) = ipc_idx v.(wv_ws_idx) ∧
    w.(iw_name) = v.(wv_name) ∧ w.(iw_output) = wv_output v ∧
    (∀ event, event ∈ evs →
       event = WorkspaceActiveWindowChanged v.(wv_id) v.(wv_active_window) ∨
       event = WorkspaceUrgencyChanged v.(wv_id) v.(wv_is_urgent) ∨
       (event = WorkspaceActivated v.(wv_id) true ∧ f1 = Some v.(wv_id)) ∨
       (event = WorkspaceActivated v.(wv_id) false ∧ wv_is_active v = true)) ∧
    (w.(iw_active_window_id) = v.(wv_active_window) ∨
       WorkspaceActiveWindowChanged v.(wv_id) v.(wv_active_window) ∈ evs) ∧
    (w.(iw_is_urgent) = v.(wv_is_urgent) ∨ WorkspaceUrgencyChanged v.(wv_id) v.(wv_is_urgent) ∈ evs) ∧
    (f1 = Some v.(wv_id) → w.(iw_is_focused) = true ∨ WorkspaceActivated v.(wv_id) true ∈ evs) ∧
    (wv_is_active v = true →
       w.(iw_is_active) = true ∨ ∃ focused, WorkspaceActivated v.(wv_id) focused ∈ evs).
Proof.
  unfold check_workspace. destruct (m0 !! wv_id v) as [w|]; [|done].
  destruct (decide _) as [(Hi & Hn & Ho)|]; [|done]. intros [= <-]. exists w.
  split_and!; [done..| | | | |].
  - intros event. rewrite !elem_of_app. intros [He|[He|He]].
    + destruct (decide _); [by apply elem_of_nil in He|]. apply list_elem_of_singleton in He. by left.
    + destruct (Bool.eqb _ _); [by apply elem_of_nil in He|].
      apply list_elem_of_singleton in He. by right; left.
    + destruct (bool_decide _ && _) eqn:Ef.
      * apply list_elem_of_singleton in He. right; right; left. split; [done|].
        apply andb_true_iff in Ef as [Ef _]. by apply bool_decide_eq_true_1 in Ef.
      * destruct (wv_is_active v && _) eqn:Ea; [|by apply elem_of_nil in He].
        apply list_elem_of_singleton in He. right; right; right. split; [done|].
        by apply andb_true_iff in Ea as [Ea _].
  - destruct (decide (iw_active_window_id w = _)); [by left|]. right. set_solver.
  - destruct (Bool.eqb _ _) eqn:E; [left; symmetry; by apply eqb_prop|]. right. set_solver.
  - intros Hf. destruct (iw_is_focused w); [by left|]. right.
    rewrite bool_decide_true by done. simpl. set_solver.
  - intros Ha. destruct (iw_is_active w); [by left|]. right.
    destruct (bool_decide _ && _); [exists true|exists false; rewrite Ha; simpl]; set_solver.
Qed.
End individual_events.

(** Views of one layout with the same id are the same. *)
Lemma view_by_id (l : list WorkspaceView) v1 v2 :
  NoDup (wv_id <$> l) → v1 ∈ l → v2 ∈ l → v1.(wv_id) = v2.(wv_id) → v1 = v2.
Proof.
  intros Hnd [i Hi]%list_elem_of_lookup [j Hj]%list_elem_of_lookup Hid.
  assert (i = j); [|naive_solver].
  eapply NoDup_lookup; [exact Hnd|..]; rewrite list_lookup_fmap;
    [rewrite Hi|rewrite Hj]; simpl; [done|by rewrite Hid].
Qed.

(** The output of each workspace in a map. *)
Definition outputs_of (m : gmap N Workspace) (k : N) : option string :=
  match m !! k with Some w => w.(iw_output) | None => None end.

Lemma outputs_of_ok m : outputs_ok (outputs_of m) m.
Proof. intros k w Hw. unfold outputs_of. by rewrite Hw. Qed.

Section workspaces_refresh.
Context (l0 l1 : LayoutView) (H0 : workspaces_wf l0) (H1 : workspaces_wf l1).
Context (events : list Event).
Context (Hcheck : check_workspaces (workspaces_snapshot l0) l1.(lay_active_workspace)
                    l1.(lay_workspaces) = Some events).
Context (Hseen : dom (workspaces_snapshot l0) ⊆ list_to_set (C := gset N) (wv_id <$> l1.(lay_workspaces))).

#[local] Abbreviation m0 := (workspaces_snapshot l0).
#[local] Abbreviation f1 := (l1.(lay_active_workspace)).
#[local] Abbreviation outs := (outputs_of m0).

(** The old entry of a workspace of the new layout. *)
Lemma old_entry v :
  v ∈ l1.(lay_workspaces) →
  ∃ w v0, m0 !! v.(wv_id) = Some w ∧ v0 ∈ l0.(lay_workspaces) ∧ v0.(wv_id) = v.(wv_id) ∧
    w = ipc_workspace l0.(lay_active_workspace) v0 ∧
    w.(iw_idx) = ipc_idx v.(wv_ws_idx) ∧ w.(iw_name) = v.(wv_name) ∧
    wv_output v0 = wv_output v ∧ outs v.(wv_id) = wv_output v.
Proof using H0 Hcheck.
  intros Hv. destruct (check_workspaces_Some _ _ _ _ Hcheck) as [Hin _].
  destruct (Hin v Hv) as (evs & E & _).
  apply check_workspace_events in E as (w & Hw & Hi & Hn & Ho & _).
  pose proof Hw as Hw'. apply lookup_snapshot in Hw' as (v0 & Hv0 & Hid & ->); [|apply H0].
  exists (ipc_workspace (lay_active_workspace l0) v0), v0.
  split_and!; try done. unfold outputs_of. by rewrite Hw.
Qed.

(** The events, read at the workspaces of the new layout. *)
Lemma new_event event :
  event ∈ events →
  ∃ v, v ∈ l1.(lay_workspaces) ∧
    (event = WorkspaceActiveWindowChanged v.(wv_id) v.(wv_active_window) ∨
     event = WorkspaceUrgencyChanged v.(wv_id) v.(wv_is_urgent) ∨
     ∃ focused, event = WorkspaceActivated v.(wv_id) focused ∧ wv_is_active v = true ∧
       (focused = true → f1 = Some v.(wv_id))).
Proof using H1 Hcheck.
  intros He. destruct (check_workspaces_Some _ _ _ _ Hcheck) as [_ Hout].
  destruct (Hout event He) as (v & evs & Hv & E & Hev). exists v. split; [done|].
  apply check_workspace_events in E as (w & _ & _ & _ & _ & Hall & _).
  destruct (Hall event Hev) as [->|[->|[[-> Hf]|[-> Ha]]]]; [by left|by right; left|..]; right; right.
  - exists true. split_and!; [done| |done].
    destruct (ww_focused _ H1 _ Hf) as (v' & Hv' & Hid & Ha).
    by rewrite (view_by_id _ _ _ (ww_ids _ H1) Hv Hv').
  - exists false. done.
Qed.

Lemma events_in event evs v :
  v ∈ l1.(lay_workspaces) → check_workspace m0 f1 v = Some evs → event ∈ evs → event ∈ events.
Proof using Hcheck.
  intros Hv E He. destruct (check_workspaces_Some _ _ _ _ Hcheck) as [Hin _].
  destruct (Hin v Hv) as (evs' & E' & Hsub). simplify_eq. by apply Hsub.
Qed.

(** Everything the loop says about a workspace of the new layout. *)
Lemma view_facts v w :
  v ∈ l1.(lay_workspaces) → m0 !! v.(wv_id) = Some w →
  (w.(iw_active_window_id) = v.(wv_active_window) ∨
     WorkspaceActiveWindowChanged v.(wv_id) v.(wv_active_window) ∈ events) ∧
  (w.(iw_is_urgent) = v.(wv_is_urgent) ∨
     WorkspaceUrgencyChanged v.(wv_id) v.(wv_is_urgent) ∈ events) ∧
  (f1 = Some v.(wv_id) → w.(iw_is_focused) = true ∨ WorkspaceActivated v.(wv_id) true ∈ events) ∧
  (wv_is_active v = true →
     w.(iw_is_active) = true ∨ ∃ focused, WorkspaceActivated v.(wv_id) focused ∈ events).
Proof using Hcheck.
  intros Hv Hw. destruct (check_workspaces_Some _ _ _ _ Hcheck) as [Hin _].
  destruct (Hin v Hv) as (evs & E & Hsub).
  destruct (check_workspace_events _ _ _ _ E) as (w' & Hw' & _ & _ & _ & _ & Ha & Hu & Hf & Hact).
  simplify_eq. clear -Ha Hu Hf Hact Hsub. set_solver.
Qed.

Lemma final_active_window v w :
  v ∈ l1.(lay_workspaces) → m0 !! v.(wv_id) = Some w →
  (foldl (ws_effect outs) w events).(iw_active_window_id) = v.(wv_active_window).
Proof using H0 H1 Hcheck.
  intros Hv Hw. pose proof (snapshot_keyed _ _ _ Hw) as Hid. simpl in Hid.
  apply (ws_effects_field outs iw_active_window_id
    (λ e, match e with WorkspaceActiveWindowChanged id _ => N.eqb w.(iw_id) id | _ => false end)).
  - intros e w' Hi _ He. destruct (new_event e He) as (v' & Hv' & [->|[->|(fo & -> & _)]]); simpl.
    + rewrite Hi, Hid. destruct (N.eqb_spec (wv_id v) (wv_id v')) as [Heq|]; [|done].
      simpl. by rewrite (view_by_id _ _ _ (ww_ids _ H1) Hv Hv' Heq).
    + by split_match.
    + by destruct (decide _), fo.
  - destruct (view_facts v w Hv Hw) as ([?|He] & _); [by left|right].
    eexists. split; [exact He|]. simpl. by rewrite Hid, N.eqb_refl.
Qed.

Lemma final_urgent v w :
  v ∈ l1.(lay_workspaces) → m0 !! v.(wv_id) = Some w →
  (foldl (ws_effect outs) w events).(iw_is_urgent) = v.(wv_is_urgent).
Proof using H0 H1 Hcheck.
  intros Hv Hw. pose proof (snapshot_keyed _ _ _ Hw) as Hid. simpl in Hid.
  apply (ws_effects_field outs iw_is_urgent
    (λ e, match e with WorkspaceUrgencyChanged id _ => N.eqb w.(iw_id) id | _ => false end)).
  - intros e w' Hi _ He. destruct (new_event e He) as (v' & Hv' & [->|[->|(fo & -> & _)]]); simpl.
    + by split_match.
    + rewrite Hi, Hid. destruct (N.eqb_spec (wv_id v) (wv_id v')) as [Heq|]; [|done].
      simpl. by rewrite (view_by_id _ _ _ (ww_ids _ H1) Hv Hv' Heq).
    + by destruct (decide _), fo.
  - destruct (view_facts v w Hv Hw) as (_ & [?|He] & _); [by left|right].
    eexists. split; [exact He|]. simpl. by rewrite Hid, N.eqb_refl.
Qed.

Lemma final_focused v w :
  v ∈ l1.(lay_workspaces) → m0 !! v.(wv_id) = Some w →
  (foldl (ws_effect outs) w events).(iw_is_focused) = bool_decide (Some v.(wv_id) = f1).
Proof using H0 H1 Hcheck.
  intros Hv Hw. pose proof (snapshot_keyed _ _ _ Hw) as Hid. simpl in Hid.
  apply (ws_effects_field outs iw_is_focused
    (λ e, match e with WorkspaceActivated _ fo => fo | _ => false end)).
  - intros e w' Hi _ He. destruct (new_event e He) as (v' & Hv' & [->|[->|(fo & -> & _ & Hf)]]); simpl.
    + by split_match.
    + by split_match.
    + destruct fo; [|by destruct (decide _)]. rewrite (Hf eq_refl).
      transitivity (N.eqb (iw_id w') (wv_id v')); [by destruct (decide _)|].
      rewrite Hi, Hid. apply eq_true_iff_eq. rewrite N.eqb_eq, bool_decide_eq_true.
      split; [by intros ->|by intros [=]].
  - assert (Hopt : (∃ f, f1 = Some f) ∨ f1 = None) by (clear; destruct f1; eauto).
    destruct Hopt as [[f Ef]|Ef].
    + destruct (ww_focused _ H1 _ Ef) as (vf & Hvf & <- & Ha).
      destruct (old_entry vf Hvf) as (wf & v0 & Hwf & Hv0 & Hid0 & -> & _).
      destruct (view_facts vf _ Hvf Hwf) as (_ & _ & Hfoc & _).
      destruct (Hfoc Ef) as [Hold|He]; [left|right; eauto].
      simpl in Hold. apply bool_decide_eq_true_1 in Hold.
      apply lookup_snapshot in Hw as (v1 & _ & Hid1 & ->); [|apply H0]. simpl.
      apply bool_decide_ext. rewrite Ef, <- Hold, Hid1, Hid0. done.
    + left. destruct (old_entry v Hv) as (w' & v0 & Hw' & Hv0 & Hid0 & -> & _ & _ & Ho & _).
      simplify_eq. simpl. apply bool_decide_ext. rewrite Ef. split; [|done].
      intros Hf0. symmetry in Hf0.
      destruct (ww_focused _ H0 _ Hf0) as (vf & Hvf & Hidf & Ha).
      rewrite (view_by_id _ _ _ (ww_ids _ H0) Hvf Hv0 Hidf) in Ha.
      pose proof (ww_unfocused _ H1 Ef v Hv) as Hm. unfold wv_output in Ho. rewrite Hm in Ho.
      unfold wv_is_active in Ha. by destruct (wv_mon v0).
Qed.

Lemma final_active v w :
  v ∈ l1.(lay_workspaces) → m0 !! v.(wv_id) = Some w →
  (foldl (ws_effect outs) w events).(iw_is_active) = wv_is_active v.
Proof using H0 H1 Hcheck.
  intros Hv Hw. pose proof (snapshot_keyed _ _ _ Hw) as Hid. simpl in Hid.
  destruct (old_entry v Hv) as (w' & v0 & Hw' & Hv0 & Hid0 & Hweq & _ & _ & Ho & Houts).
  assert (w' = w) as -> by congruence. clear Hw'.
  assert (Hwo : iw_output w = wv_output v) by (by rewrite Hweq; simpl).
  apply (ws_effects_field outs iw_is_active
    (λ e, match e with WorkspaceActivated id _ => bool_decide (outs id = wv_output v) | _ => false end)).
  - intros e w' Hi Hx He. destruct (new_event e He) as (v' & Hv' & [->|[->|(fo & -> & Ha & _)]]); simpl.
    + by split_match.
    + by split_match.
    + destruct (old_entry v' Hv') as (_ & _ & _ & _ & _ & _ & _ & _ & _ & Ho').
      rewrite Ho'. rewrite Hx, Hwo.
      transitivity (if decide (wv_output v = wv_output v') then N.eqb (iw_id w') (wv_id v')
                    else iw_is_active w'); [by destruct (decide _), fo|].
      case_bool_decide as Hd; [|by rewrite decide_False by congruence].
      rewrite decide_True by done. rewrite Hi, Hid.
      destruct (N.eqb_spec (wv_id v) (wv_id v')) as [Heq|Hne].
      * by rewrite (view_by_id _ _ _ (ww_ids _ H1) Hv Hv' Heq).
      * destruct (wv_is_active v) eqn:Ea; [|done]. destruct Hne. by apply (ww_one_active _ H1).
  - destruct (wv_mon v) as [mon|] eqn:Em.
    + destruct (ww_some_active _ H1 v Hv) as (a & Ha & Hao & Haa); [by rewrite Em|].
      destruct (old_entry a Ha) as (wa & a0 & Hwa & Ha0 & Hida & -> & _ & _ & Hoa & Houta).
      destruct (view_facts a _ Ha Hwa) as (_ & _ & _ & Hact).
      destruct (Hact Haa) as [Hold|[fo He]].
      * left. rewrite Hweq. simpl in *. destruct (wv_is_active v) eqn:Eav.
        -- assert (Heq : wv_id v = wv_id a) by (by apply (ww_one_active _ H1)).
           rewrite (view_by_id _ _ _ (ww_ids _ H0) Hv0 Ha0); [done|congruence].
        -- destruct (wv_is_active v0) eqn:Ev0; [|done].
           assert (Heq : wv_id v0 = wv_id a0) by (apply (ww_one_active _ H0); [done..|congruence|done|done]).
           rewrite Hid0, Hida in Heq. rewrite (view_by_id _ _ _ (ww_ids _ H1) Hv Ha Heq) in Eav.
           congruence.
      * right. exists (WorkspaceActivated (wv_id a) fo). split; [done|].
        apply bool_decide_eq_true_2. congruence.
    + left. rewrite Hweq. simpl. unfold wv_is_active. rewrite Em.
      unfold wv_output in Ho. rewrite Em in Ho. by destruct (wv_mon v0).
Qed.

Lemma final_entry v w :
  v ∈ l1.(lay_workspaces) → m0 !! v.(wv_id) = Some w →
  foldl (ws_effect outs) w events = ipc_workspace f1 v.
Proof using H0 H1 Hcheck.
  intros Hv Hw.
  destruct (old_entry v Hv) as (w' & v0 & Hw' & Hv0 & Hid0 & Hweq & Hi & Hn & Ho & Houts).
  assert (w' = w) as -> by congruence. clear Hw'.
  assert (Hidx : ∀ field : Workspace → N, field = iw_idx →
    field (foldl (ws_effect outs) w events) = field w).
  { intros field ->. apply (ws_effects_field outs iw_idx (λ _, false)); [|by left].
    intros e w' _ _ _. destruct e; simpl; try done; repeat split_match; done. }
  assert (Hname : iw_name (foldl (ws_effect outs) w events) = iw_name w).
  { apply (ws_effects_field outs iw_name (λ _, false)); [|by left].
    intros e w' _ _ _. destruct e; simpl; try done; repeat split_match; done. }
  pose proof (ws_effects_id outs w events) as Hid. pose proof (ws_effects_output outs w events) as Hout.
  pose proof (final_active_window v w Hv Hw). pose proof (final_urgent v w Hv Hw).
  pose proof (final_focused v w Hv Hw). pose proof (final_active v w Hv Hw).
  specialize (Hidx iw_idx eq_refl). subst w.
  destruct (foldl _ _ events) as [i x n o u a fo aw]. simpl in *. unfold ipc_workspace.
  f_equal; congruence.
Qed.

Lemma events_target :
  Forall (λ event, ∃ id, ws_target event = Some id ∧ is_Some (m0 !! id)) events.
Proof using H0 H1 Hcheck.
  rewrite Forall_forall. intros e He. destruct (new_event e He) as (v & Hv & Hcase).
  destruct (old_entry v Hv) as (w & _ & Hw & _). exists (wv_id v). rewrite Hw. split; [|done].
  by destruct Hcase as [->|[->|(fo & -> & _)]].
Qed.

Lemma final_snapshot : (λ w, foldl (ws_effect outs) w events) <$> m0 = workspaces_snapshot l1.
Proof using H0 H1 Hcheck Hseen.
  apply map_eq. intros k. rewrite lookup_fmap. destruct (m0 !! k) as [w|] eqn:Hw; simpl.
  - assert (Hk : k ∈ (list_to_set (wv_id <$> l1.(lay_workspaces)) : gset N))
      by (apply Hseen, elem_of_dom; eauto).
    rewrite elem_of_list_to_set, list_elem_of_fmap in Hk. destruct Hk as (v & -> & Hv).
    symmetry. apply lookup_snapshot; [apply H1|]. exists v. split_and!; [done..|].
    by apply final_entry.
  - symmetry. apply eq_None_not_Some. intros [w Hs].
    apply lookup_snapshot in Hs as (v & Hv & <- & _); [|apply H1].
    destruct (old_entry v Hv) as (w' & _ & Hw' & _). congruence.
Qed.
End workspaces_refresh.

(** The events take the snapshot of a layout to the snapshot of the next. *)
Lemma workspaces_events_snapshot `{HashOrder} l0 l1 :
  workspaces_wf l0 → workspaces_wf l1 →
  apply_all (MkWorkspacesState (workspaces_snapshot l0))
    (workspaces_events (workspaces_snapshot l0) l1) =
  Some (MkWorkspacesState (workspaces_snapshot l1)).
Proof.
  intros H0 H1. unfold workspaces_events.
  destruct (check_workspaces _ _ _) as [events|] eqn:E; [|done].
  case_bool_decide as Hd; [|done].
  rewrite (apply_workspace_events (outputs_of (workspaces_snapshot l0))).
  - by rewrite (final_snapshot l0 l1 H0 H1 events E Hd).
  - apply snapshot_keyed.
  - apply outputs_of_ok.
  - by apply (events_target l0 l1).
Qed.

(** ** Samples *)
Definition sample_layout (active : nat) (focused : N) : LayoutView :=
  let mon := Some (MkMonitorView "DP-1" active) in
  {| lay_workspaces := [MkWorkspaceView mon 0 1 None (Some 5%N) false;
                        MkWorkspaceView mon 1 2 (Some "www"%string) None true];
     lay_active_workspace := Some focused; lay_windows := []; lay_overview_open := false |}.

Ltac solve_views :=
  repeat match goal with
  | H : _ ∈ _ :: _ |- _ => apply elem_of_cons in H as [->|H]
  | H : _ ∈ [] |- _ => by apply elem_of_nil in H
  end; simpl in *; try done.

Lemma sample_layout_wf active id :
  (active = 0 ∧ id = 1%N) ∨ (active = 1 ∧ id = 2%N) → workspaces_wf (sample_layout active id).
Proof.
  intros Hc. split.
  - simpl. by apply (bool_decide_unpack _); vm_compute.
  - intros v1 v2 Hv1 Hv2. simpl in *. solve_views; destruct Hc as [[-> ->]|[-> ->]]; done.
  - intros v Hv _. destruct Hc as [[-> ->]|[-> ->]]; simpl in *.
    + eexists. split; [left|]. solve_views.
    + eexists. split; [right; left|]. solve_views.
  - intros id' [= <-]. destruct Hc as [[-> ->]|[-> ->]]; simpl in *.
    + eexists. split; [left|done].
    + eexists. split; [right; left|done].
  - done.
Qed.

(** ** Properties *)

(** C21: refinement. When the server's workspaces describe a well-formed layout
    and the layout changes to any other well-formed one, [ipc_refresh_workspaces]
    does not panic, and the events it applies and sends (individual ones or one full
    update) take the state, and any client that was in the same state, to exactly the
    description of the new layout. *)
Theorem refresh_workspaces_refines `{HashOrder} l0 l1 win kb ov cf ca sent :
  workspaces_wf l0 → workspaces_wf l1 →
  let old := MkWorkspacesState (workspaces_snapshot l0) in
  let new := MkWorkspacesState (workspaces_snapshot l1) in
  ∃ events,
    ipc_refresh_workspaces (MkIpcServer (MkEventStreamState old win kb ov cf ca) sent) l1 =
      Some (MkIpcServer (MkEventStreamState new win kb ov cf ca) (sent ++ events)) ∧
    apply_all old events = Some new.
Proof.
  intros H0 H1 old new. exists (workspaces_events (workspaces_snapshot l0) l1).
  pose proof (workspaces_events_snapshot l0 l1 H0 H1) as He. split; [|exact He].
  subst old new. unfold ipc_refresh_workspaces. cbn [wss_workspaces]. cbv zeta. by rewrite He.
Qed.

#[local] Existing Instance listed_order.

Lemma refresh_workspaces_refines_witness :
  ∃ events,
    ipc_refresh_workspaces
      (MkIpcServer (MkEventStreamState (MkWorkspacesState (workspaces_snapshot (sample_layout 0 1)))
         state_default state_default state_default state_default state_default) [])
      (sample_layout 1 2) =
    Some (MkIpcServer (MkEventStreamState (MkWorkspacesState (workspaces_snapshot (sample_layout 1 2)))
         state_default state_default state_default state_default state_default) ([] ++ events)) ∧
    apply_all (MkWorkspacesState (workspaces_snapshot (sample_layout 0 1))) events =
      Some (MkWorkspacesState (workspaces_snapshot (sample_layout 1 2))).
Proof.
  apply (refresh_workspaces_refines (sample_layout 0 1) (sample_layout 1 2));
    apply sample_layout_wf; [by left|by right].
Defined.
