(* ===== verification/IpcWindows.v ===== *)
(** * The windows of the event stream follow the layout

    Refinement of [ipc_refresh_windows] (src/ipc/server.rs): the events it sends take any
    state that describes the old windows to one that describes the new ones. Window
    layouts are compared with the [PartialEq] of the source, so they are described up to
    it. *)
From S2P Require Import Prelude Float64 LinkProtocol IpcTypes IpcState IpcServer.

(** ** Runs of writes

    After a run of steps a property holds when some step establishes it or it held before,
    and no step breaks it. *)
Lemma foldl_establishes {A E} (eff : A → E → A) (good : A → Prop) (sets : E → Prop) events a :
  (∀ e a, e ∈ events → sets e ∨ good a → good (eff a e)) →
  (good a ∨ ∃ e, e ∈ events ∧ sets e) → good (foldl eff a events).
Proof.
  revert a. induction events as [|e events IH]; intros a Heff Hor; simpl.
  - destruct Hor as [?|(e & He & _)]; [done|]. by apply elem_of_nil in He.
  - apply IH; [intros; apply Heff; [by right|done]|].
    destruct Hor as [Hg|(e' & [->|He']%elem_of_cons & Hs)].
    + left. apply Heff; [left|by right].
    + left. apply Heff; [left|by left].
    + right. eauto.
Qed.

(** ** Events on windows, entry by entry *)
Definition win_effect (k : N) (o : option Window) (event : Event) : option Window :=
  match event with
  | WindowOpenedOrChanged window =>
      if N.eqb k window.(iwin_id) then Some window
      else if window.(iwin_is_focused) then set_iwin_is_focused false <$> o else o
  | WindowClosed id => if N.eqb k id then None else o
  | WindowFocusChanged id => set_iwin_is_focused (bool_decide (Some k = id)) <$> o
  | WindowFocusTimestampChanged id t =>
      if N.eqb k id then set_iwin_focus_timestamp t <$> o else o
  | WindowUrgencyChanged id urgent =>
      if N.eqb k id then set_iwin_is_urgent urgent <$> o else o
  | WindowLayoutsChanged changes =>
      foldl (λ o ch, if N.eqb k ch.1 then set_iwin_layout ch.2 <$> o else o) o changes
  | _ => o
  end.

(** The event is about windows and finds the windows it expects. *)
Definition win_safe (look : N → option Window) (event : Event) : Prop :=
  match event with
  | WindowOpenedOrChanged _ | WindowFocusChanged _ | WindowFocusTimestampChanged _ _
  | WindowUrgencyChanged _ _ => True
  | WindowClosed id => is_Some (look id)
  | WindowLayoutsChanged changes => ∀ id, id ∈ changes.*1 → is_Some (look id)
  | _ => False
  end.

Lemma change_layouts_effect changes m :
  (∀ id, id ∈ changes.*1 → is_Some (m !! id)) →
  ∃ m', change_layouts m changes = Some m' ∧
    ∀ k, m' !! k = win_effect k (m !! k) (WindowLayoutsChanged changes).
Proof.
  revert m. induction changes as [|[id u] changes IH]; intros m Hc; simpl; [eauto|].
  destruct (Hc id) as [w Hw]; [left|]. rewrite Hw.
  destruct (IH (<[id := set_iwin_layout u w]> m)) as (m' & -> & Hm').
  - intros id' Hid'. rewrite lookup_insert. case_decide; [done|]. apply Hc. by right.
  - exists m'. split; [done|]. intros k. rewrite Hm'. simpl. f_equal. rewrite lookup_insert.
    destruct (N.eqb_spec k id) as [->|Hne].
    + rewrite decide_True by done. by rewrite Hw.
    + by rewrite decide_False by done.
Qed.

Lemma apply_window_event `{HashOrder} m event :
  keyed iwin_id m → win_safe (λ k, m !! k) event →
  ∃ m', apply (MkWindowsState m) event = Applied (MkWindowsState m') ∧ keyed iwin_id m' ∧
    ∀ k, m' !! k = win_effect k (m !! k) event.
Proof.
  intros Hk Hs.
  assert (Hok : ∀ m', apply (MkWindowsState m) event = Applied (MkWindowsState m') →
    (∀ k, m' !! k = win_effect k (m !! k) event) → ∃ m',
    apply (MkWindowsState m) event = Applied (MkWindowsState m') ∧ keyed iwin_id m' ∧
    ∀ k, m' !! k = win_effect k (m !! k) event).
  { intros m' Ha Hl. exists m'. split_and!; [done| |done].
    exact (part_preserves (MkWindowsState m) event (MkWindowsState m') Hk Ha). }
  destruct event as [| | | | |w|id|id|id t|id u|ch| | | | | | | | | | | | | | | | | | | | | | | | |]; try done.
  - eapply Hok; [reflexivity|]. intros k. simpl. destruct (N.eqb_spec k (iwin_id w)) as [->|Hne].
    + destruct (iwin_is_focused w); [|by rewrite lookup_insert_eq].
      rewrite lookup_fmap, lookup_insert_eq. simpl. by rewrite N.eqb_refl.
    + destruct (iwin_is_focused w); [|by rewrite lookup_insert_ne].
      rewrite lookup_fmap, lookup_insert_ne by done. destruct (m !! k) as [w'|] eqn:E; [|done].
      simpl. rewrite (Hk _ _ E). by rewrite (proj2 (N.eqb_neq _ _) Hne).
  - destruct Hs as [w Hw]. eapply (Hok (delete id m)); [simpl; by rewrite Hw|]. intros k. simpl.
    rewrite lookup_delete. destruct (N.eqb_spec k id) as [->|Hne].
    + by rewrite decide_True.
    + by rewrite decide_False.
  - eapply Hok; [reflexivity|]. intros k. simpl. rewrite lookup_fmap.
    destruct (m !! k) as [w|] eqn:E; [|done]. simpl. by rewrite (Hk _ _ E).
  - eapply Hok; [reflexivity|]. intros k. simpl. rewrite (update_one_keyed iwin_id) by done.
    rewrite lookup_alter. destruct (N.eqb_spec k id) as [->|Hne].
    + by rewrite decide_True.
    + by rewrite decide_False.
  - eapply Hok; [reflexivity|]. intros k. simpl. rewrite (update_one_keyed iwin_id) by done.
    rewrite lookup_alter. destruct (N.eqb_spec k id) as [->|Hne].
    + by rewrite decide_True.
    + by rewrite decide_False.
  - destruct (change_layouts_effect ch m Hs) as (m' & Hm' & Hl).
    eapply (Hok m'); [simpl; by rewrite Hm'|done].
Qed.

(** A sequence in which every event finds the windows it expects. *)
Fixpoint win_safe_seq (look : N → option Window) (events : list Event) : Prop :=
  match events with
  | [] => True
  | event :: events => win_safe look event ∧ win_safe_seq (λ k, win_effect k (look k) event) events
  end.

Lemma win_safe_ext look look' event :
  (∀ k, look k = look' k) → win_safe look event → win_safe look' event.
Proof. intros Hl. destruct event; simpl; try done; [by rewrite Hl|]. by setoid_rewrite Hl. Qed.

Lemma win_safe_seq_ext look look' events :
  (∀ k, look k = look' k) → win_safe_seq look events → win_safe_seq look' events.
Proof.
  revert look look'. induction events as [|e events IH]; intros look look' Hl; simpl; [done|].
  intros [He Hs]. split; [by eapply win_safe_ext|]. eapply IH, Hs. intros k. simpl. by rewrite Hl.
Qed.

Lemma win_safe_seq_app look es1 es2 :
  win_safe_seq look (es1 ++ es2) ↔
  win_safe_seq look es1 ∧ win_safe_seq (λ k, foldl (win_effect k) (look k) es1) es2.
Proof.
  revert look. induction es1 as [|e es1 IH]; intros look; simpl; [tauto|]. rewrite IH. tauto.
Qed.

Lemma win_safe_seq_always look es :
  (∀ look e, e ∈ es → win_safe look e) → win_safe_seq look es.
Proof.
  revert look. induction es as [|e es IH]; intros look Hes; simpl; [done|].
  split; [apply Hes; left|]. apply IH. intros look' e' He'. apply Hes. by right.
Qed.

(** Closing distinct windows that are there. *)
Lemma win_safe_seq_closed look ids :
  NoDup ids → (∀ id, id ∈ ids → is_Some (look id)) → win_safe_seq look (WindowClosed <$> ids).
Proof.
  intros Hnd. revert look. induction Hnd as [|id ids Hid Hnd IH]; intros look Hl; simpl; [done|].
  split; [apply Hl; left|]. apply IH. intros id' Hid'. simpl.
  destruct (N.eqb_spec id' id) as [->|]; [done|]. apply Hl. by right.
Qed.

(** Only closing a window removes its entry. *)
Lemma effect_present k e o : e ≠ WindowClosed k → is_Some o → is_Some (win_effect k o e).
Proof.
  intros Hne Ho.
  destruct e as [| | | | |w|id|id|id t|id u|ch| | | | | | | | | | | | | | | | | | | | | | | | |];
    simpl; try done; rewrite ?fmap_is_Some; try done.
  - repeat split_match; rewrite ?fmap_is_Some; done.
  - destruct (N.eqb_spec k id); [congruence|done].
  - split_match; rewrite ?fmap_is_Some; done.
  - split_match; rewrite ?fmap_is_Some; done.
  - clear Hne. revert o Ho. induction ch as [|c ch IH]; intros o Ho; simpl; [done|].
    apply IH. split_match; rewrite ?fmap_is_Some; done.
Qed.

Lemma effects_present k es o :
  (∀ e, e ∈ es → e ≠ WindowClosed k) → is_Some o → is_Some (foldl (win_effect k) o es).
Proof.
  intros Hes Ho. apply (foldl_establishes (win_effect k) is_Some (λ _, False)); [|by left].
  intros e a He [[]|Ha]. apply effect_present; auto.
Qed.

Lemma safe_not_closed e k : (∀ look, win_safe look e) → e ≠ WindowClosed k.
Proof. intros Hs ->. by destruct (Hs (λ _, None)) as [w Hw]. Qed.

Lemma apply_window_events `{HashOrder} events m :
  keyed iwin_id m → win_safe_seq (λ k, m !! k) events →
  ∃ m', apply_all (MkWindowsState m) events = Some (MkWindowsState m') ∧ keyed iwin_id m' ∧
    ∀ k, m' !! k = foldl (win_effect k) (m !! k) events.
Proof.
  revert m. induction events as [|event events IH]; intros m Hk Hs; cbn [apply_all]; [eauto|].
  destruct Hs as [He Hs]. destruct (apply_window_event m event Hk He) as (m1 & -> & Hk1 & Hl1).
  destruct (IH m1 Hk1) as (m2 & Ha & Hk2 & Hl2).
  - eapply win_safe_seq_ext, Hs. intros k. simpl. by rewrite Hl1.
  - exists m2. split_and!; [done..|]. intros k. simpl. by rewrite Hl2, Hl1.
Qed.

(** ** Descriptions *)

(** Equal, or equal for the [PartialEq] that the server compares with. *)
Definition layout_same (a b : WindowLayout) : Prop := a = b ∨ WindowLayout_eqb a b = true.

(** The entry describes the window. *)
Record describes_window (w : Window) (v : WindowView) : Prop := {
  dw_id : w.(iwin_id) = v.(nv_id);
  dw_title : w.(iwin_title) = v.(nv_title);
  dw_app_id : w.(iwin_app_id) = v.(nv_app_id);
  dw_pid : w.(iwin_pid) = v.(nv_pid);
  dw_workspace_id : w.(iwin_workspace_id) = v.(nv_ws_id);
  dw_is_focused : w.(iwin_is_focused) = v.(nv_is_focused);
  dw_is_floating : w.(iwin_is_floating) = v.(nv_is_floating);
  dw_is_urgent : w.(iwin_is_urgent) = v.(nv_is_urgent);
  dw_layout : layout_same w.(iwin_layout) v.(nv_layout);
  dw_focus_timestamp : w.(iwin_focus_timestamp) = v.(nv_focus_timestamp)
}.

(** The map holds a description of every window and nothing else. *)
Record describes_windows (m : gmap N Window) (views : list WindowView) : Prop := {
  ds_entries : ∀ v, v ∈ views → ∃ w, m !! v.(nv_id) = Some w ∧ describes_window w v;
  ds_only : ∀ k w, m !! k = Some w → ∃ v, v ∈ views ∧ v.(nv_id) = k
}.

(** What the layout guarantees about windows: distinct ids and at most one focused. *)
Record windows_wf (views : list WindowView) : Prop := {
  nw_ids : NoDup (nv_id <$> views);
  nw_one_focused : ∀ v1 v2, v1 ∈ views → v2 ∈ views →
    v1.(nv_is_focused) = true → v2.(nv_is_focused) = true → v1.(nv_id) = v2.(nv_id)
}.

(** The process of a window does not change while it is open. *)
Definition pids_stable (views0 views1 : list WindowView) : Prop :=
  ∀ v0 v1, v0 ∈ views0 → v1 ∈ views1 → v0.(nv_id) = v1.(nv_id) → v0.(nv_pid) = v1.(nv_pid).

Lemma window_by_id (l : list WindowView) v1 v2 :
  NoDup (nv_id <$> l) → v1 ∈ l → v2 ∈ l → v1.(nv_id) = v2.(nv_id) → v1 = v2.
Proof.
  intros Hnd [i Hi]%list_elem_of_lookup [j Hj]%list_elem_of_lookup Hid.
  assert (i = j); [|naive_solver].
  eapply NoDup_lookup; [exact Hnd|..]; rewrite list_lookup_fmap;
    [rewrite Hi|rewrite Hj]; simpl; [done|by rewrite Hid].
Qed.

Lemma describes_keyed m views : describes_windows m views → NoDup (nv_id <$> views) → keyed iwin_id m.
Proof.
  intros [He Ho] Hnd k w Hw. destruct (Ho k w Hw) as (v & Hv & <-).
  destruct (He v Hv) as (w' & Hw' & Hd). simplify_eq. apply Hd.
Qed.

(** ** The events of a refresh *)
Section windows_refresh.
Context `{HashOrder} (m : gmap N Window) (l0 : list WindowView) (lay : LayoutView).
#[local] Abbreviation l1 := (lay.(lay_windows)).
#[local] Abbreviation events := (windows_events m lay).
Context (Hm : describes_windows m l0) (H0 : windows_wf l0) (H1 : windows_wf l1).
Context (Hpid : pids_stable l0 l1).

(** Where an event comes from. *)
Definition event_source (event : Event) : Prop :=
  (∃ v, v ∈ l1 ∧ event = WindowOpenedOrChanged (make_ipc_window v)) ∨
  (∃ v, v ∈ l1 ∧ v.(nv_is_focused) = true ∧ event = WindowFocusChanged (Some v.(nv_id))) ∨
  (∃ v, v ∈ l1 ∧ event = WindowFocusTimestampChanged v.(nv_id) v.(nv_focus_timestamp)) ∨
  (∃ v, v ∈ l1 ∧ event = WindowUrgencyChanged v.(nv_id) v.(nv_is_urgent)) ∨
  (∃ changes, event = WindowLayoutsChanged changes ∧
     ∀ ch, ch ∈ changes → ∃ v, v ∈ l1 ∧ ch = (v.(nv_id), v.(nv_layout)) ∧ is_Some (m !! v.(nv_id))) ∨
  (∃ id, event = WindowClosed id ∧ is_Some (m !! id) ∧ id ∉ (nv_id <$> l1)) ∨
  (event = WindowFocusChanged None ∧ ∀ v, v ∈ l1 → v.(nv_is_focused) = false).

Lemma elem_of_batch ch :
  ch ∈ mjoin (check_window m <$> l1).*2 ↔ ∃ v, v ∈ l1 ∧ ch ∈ (check_window m v).2.
Proof.
  rewrite list_elem_of_join. setoid_rewrite list_elem_of_fmap.
  split.
  - intros (l & Hin & p & -> & Hp). apply list_elem_of_fmap in Hp as (v & -> & Hv). eauto.
  - intros (v & Hv & Hin). exists (check_window m v).2. split; [done|].
    exists (check_window m v). split; [done|]. apply list_elem_of_fmap. eauto.
Qed.

Lemma elem_of_checked e :
  e ∈ mjoin (check_window m <$> l1).*1 ↔ ∃ v, v ∈ l1 ∧ e ∈ (check_window m v).1.
Proof.
  rewrite list_elem_of_join. setoid_rewrite list_elem_of_fmap.
  split.
  - intros (l & Hin & p & -> & Hp). apply list_elem_of_fmap in Hp as (v & -> & Hv). eauto.
  - intros (v & Hv & Hin). exists (check_window m v).1. split; [done|].
    exists (check_window m v). split; [done|]. apply list_elem_of_fmap. eauto.
Qed.

Lemma check_window_layout v ch :
  ch ∈ (check_window m v).2 → ch = (v.(nv_id), v.(nv_layout)) ∧ is_Some (m !! v.(nv_id)).
Proof.
  unfold check_window. destruct (m !! nv_id v) as [w|]; simpl;
    [|intros Hin; by apply elem_of_nil in Hin].
  destruct (decide _); simpl; [|intros Hin; by apply elem_of_nil in Hin].
  split_match; intros Hin; [by apply elem_of_nil in Hin|]. apply list_elem_of_singleton in Hin. eauto.
Qed.

Lemma check_window_source v e : v ∈ l1 → e ∈ (check_window m v).1 → event_source e.
Proof.
  intros Hv. unfold check_window, event_source.
  destruct (m !! nv_id v) as [w|]; simpl;
    [|intros He%list_elem_of_singleton; left; eauto].
  destruct (decide _); simpl; [|intros He%list_elem_of_singleton; left; eauto].
  rewrite !elem_of_app. intros [He|[He|He]].
  - destruct (nv_is_focused v) eqn:Ef; simpl in He; [|by apply elem_of_nil in He].
    split_match_in He; [|by apply elem_of_nil in He]. apply list_elem_of_singleton in He.
    right; left. eauto.
  - destruct (decide _); [by apply elem_of_nil in He|]. apply list_elem_of_singleton in He.
    right; right; left. eauto.
  - split_match_in He; [by apply elem_of_nil in He|]. apply list_elem_of_singleton in He.
    right; right; right; left. eauto.
Qed.

Lemma elem_of_closed k :
  WindowClosed k ∈ (WindowClosed <$> List.filter (λ id, negb (bool_decide
    (id ∈ (list_to_set (nv_id <$> l1) : gset N)))) (hash_iter m).*1) ↔
  is_Some (m !! k) ∧ k ∉ (nv_id <$> l1).
Proof.
  rewrite list_elem_of_fmap_inj by (by intros ? ? [=]).
  rewrite list_elem_of_In, List.filter_In, <- list_elem_of_In, negb_true_iff, bool_decide_eq_false.
  rewrite elem_of_list_to_set, hash_iter_perm, list_elem_of_fmap.
  split; (intros [Hk Hn]; split; [|done]).
  - destruct Hk as ([k' w] & -> & Hw). apply elem_of_map_to_list in Hw. eauto.
  - destruct Hk as [w Hw]. exists (k, w). split; [done|]. by apply elem_of_map_to_list.
Qed.

Lemma events_source e : e ∈ events → event_source e.
Proof.
  unfold windows_events. rewrite !elem_of_app. intros [He|[He|[He|He]]].
  - apply elem_of_checked in He as (v & Hv & He). by eapply check_window_source.
  - destruct (mjoin _) as [|ch chs] eqn:Eb; [by apply elem_of_nil in He|].
    apply list_elem_of_singleton in He. right; right; right; right; left.
    eexists. split; [exact He|]. intros ch' Hch'. rewrite <- Eb in Hch'.
    apply elem_of_batch in Hch' as (v & Hv & [-> ?]%check_window_layout). eauto.
  - apply list_elem_of_fmap in He as Hc. destruct Hc as (k & -> & _).
    apply elem_of_closed in He. right; right; right; right; right; left. eauto.
  - right; right; right; right; right; right.
    destruct (existsb nv_is_focused l1) eqn:Ef; simpl in He; [by apply elem_of_nil in He|].
    split_match_in He; [|by apply elem_of_nil in He]. apply list_elem_of_singleton in He.
    split; [done|]. intros v Hv. destruct (nv_is_focused v) eqn:Ev; [|done].
    rewrite <- Ef. symmetry. apply existsb_exists. exists v. split; [by apply list_elem_of_In|done].
Qed.

(** What is sent for a window of the new layout. *)
Lemma sent_for v :
  v ∈ l1 →
  WindowOpenedOrChanged (make_ipc_window v) ∈ events ∨
  ∃ w, m !! v.(nv_id) = Some w ∧
    w.(iwin_workspace_id) = v.(nv_ws_id) ∧ w.(iwin_is_floating) = v.(nv_is_floating) ∧
    w.(iwin_title) = v.(nv_title) ∧ w.(iwin_app_id) = v.(nv_app_id) ∧
    (v.(nv_is_focused) = true → w.(iwin_is_focused) = true ∨
       WindowFocusChanged (Some v.(nv_id)) ∈ events) ∧
    (w.(iwin_focus_timestamp) = v.(nv_focus_timestamp) ∨
       WindowFocusTimestampChanged v.(nv_id) v.(nv_focus_timestamp) ∈ events) ∧
    (w.(iwin_is_urgent) = v.(nv_is_urgent) ∨
       WindowUrgencyChanged v.(nv_id) v.(nv_is_urgent) ∈ events) ∧
    (WindowLayout_eqb w.(iwin_layout) v.(nv_layout) = true ∨
       ∃ changes, WindowLayoutsChanged changes ∈ events ∧ (v.(nv_id), v.(nv_layout)) ∈ changes).
Proof.
  intros Hv.
  assert (Hin : ∀ e, e ∈ (check_window m v).1 → e ∈ events).
  { intros e He. unfold windows_events. rewrite !elem_of_app. left. apply elem_of_checked. eauto. }
  assert (Hb : ∀ ch, ch ∈ (check_window m v).2 → ∃ chs, WindowLayoutsChanged chs ∈ events ∧ ch ∈ chs).
  { intros ch Hch. exists (mjoin (check_window m <$> l1).*2).
    assert (Hin' : ch ∈ mjoin (check_window m <$> l1).*2) by (apply elem_of_batch; eauto).
    split; [|done]. unfold windows_events. rewrite !elem_of_app. right; left.
    destruct (mjoin _) as [|c cs]; [by apply elem_of_nil in Hin'|]. apply list_elem_of_singleton. done. }
  revert Hin Hb. unfold check_window at 1 2.
  destruct (m !! nv_id v) as [w|] eqn:Ew; simpl; [|intros Hin _; left; apply Hin; left].
  destruct (decide _) as [(? & ? & ? & ?)|]; simpl; [|intros Hin _; left; apply Hin; left].
  intros Hin Hb. right. exists w. split_and!; try done.
  - intros Hf. destruct (iwin_is_focused w); [by left|]. right. apply Hin. rewrite Hf. left.
  - destruct (decide (nv_focus_timestamp v = _)); [by left|]. right. apply Hin.
    rewrite !elem_of_app. right; left. left.
  - destruct (Bool.eqb _ _) eqn:E; [left; symmetry; by apply eqb_prop|]. right. apply Hin.
    rewrite !elem_of_app. right; right. left.
  - destruct (WindowLayout_eqb _ _); [by left|]. right. apply Hb. left.
Qed.

(** ** Safety: every event finds its windows *)
Lemma check_window_safe v e look : e ∈ (check_window m v).1 → win_safe look e.
Proof.
  unfold check_window. destruct (m !! nv_id v) as [w|]; simpl;
    [|by intros ->%list_elem_of_singleton].
  destruct (decide _); simpl; [|by intros ->%list_elem_of_singleton].
  rewrite !elem_of_app. intros [He|[He|He]]; split_match_in He;
    (by apply elem_of_nil in He) || (apply list_elem_of_singleton in He; by subst).
Qed.

Lemma windows_events_safe : win_safe_seq (λ k, m !! k) events.
Proof.
  assert (Hchecked : ∀ look e, e ∈ mjoin (check_window m <$> l1).*1 → win_safe look e).
  { intros look e (v & _ & He)%elem_of_checked. by eapply check_window_safe. }
  assert (Hp1 : ∀ k, is_Some (m !! k) →
    is_Some (foldl (win_effect k) (m !! k) (mjoin (check_window m <$> l1).*1))).
  { intros k Hk. apply effects_present; [|done]. intros e He.
    apply safe_not_closed. intros look. by apply Hchecked. }
  unfold windows_events. apply win_safe_seq_app. split; [by apply win_safe_seq_always|].
  set (batch := mjoin (check_window m <$> l1).*2).
  apply win_safe_seq_app. split; [|apply win_safe_seq_app; split].
  - destruct batch as [|p batch'] eqn:E; [done|]. split; [|done]. cbn [win_safe]. rewrite <- E.
    intros id Hid. apply list_elem_of_fmap in Hid as (ch & -> & Hch).
    apply elem_of_batch in Hch as (v & Hv & [-> Hs]%check_window_layout). by apply Hp1.
  - apply win_safe_seq_closed.
    + apply NoDup_ListNoDup, List.NoDup_filter, NoDup_ListNoDup. rewrite hash_iter_perm.
      apply NoDup_fst_map_to_list.
    + intros id Hid.
      assert (Hin : is_Some (m !! id)).
      { apply (elem_of_closed id). apply list_elem_of_fmap. eauto. }
      destruct batch; [by apply Hp1|]. apply effects_present; [|by apply Hp1].
      intros e ->%list_elem_of_singleton. done.
  - by destruct (negb _ && _).
Qed.

(** ** The final entries *)

(** A property of the entry of window [v], if there is one. *)
Definition entry_is {B} (field : Window → B) (ok : B → Prop) (o : option Window) : Prop :=
  ∀ w, o = Some w → ok (field w).

(** An event that writes the field of the entry leaves it [ok]. *)
Lemma final_field {B} (field : Window → B) (ok : B → Prop) (sets : Event → Prop) v :
  (∀ e o, e ∈ events → sets e ∨ entry_is field ok o → entry_is field ok (win_effect v.(nv_id) o e)) →
  (∀ w, m !! v.(nv_id) = Some w → ok (field w) ∨ ∃ e, e ∈ events ∧ sets e) →
  entry_is field ok (foldl (win_effect v.(nv_id)) (m !! v.(nv_id)) events).
Proof.
  intros Heff Hinit. apply (foldl_establishes _ (entry_is field ok) sets); [done|].
  destruct (m !! nv_id v) as [w|] eqn:E; [|left; by intros w ?].
  destruct (Hinit w eq_refl) as [Hw|He]; [left|by right]. intros w' [= <-]. done.
Qed.

Lemma opened_is_own v v' :
  v ∈ l1 → v' ∈ l1 → N.eqb v.(nv_id) v'.(nv_id) = true → v' = v.
Proof using H1.
  intros Hv Hv' E%N.eqb_eq. by apply (window_by_id l1); [apply H1|..].
Qed.

(** The event writes the right value to [field] of the entry of [v]. *)
Definition writes {B} (field : Window → B) (v : WindowView) (e : Event) : Prop :=
  let val := field (make_ipc_window v) in
  e = WindowOpenedOrChanged (make_ipc_window v) ∨
  (e = WindowUrgencyChanged v.(nv_id) v.(nv_is_urgent) ∧
     ∀ w, field (set_iwin_is_urgent v.(nv_is_urgent) w) = val) ∨
  (e = WindowFocusTimestampChanged v.(nv_id) v.(nv_focus_timestamp) ∧
     ∀ w, field (set_iwin_focus_timestamp v.(nv_focus_timestamp) w) = val).

(** Fields other than the focus and the layout. *)
Lemma final_scalar {B} (field : Window → B) v :
  v ∈ l1 →
  (∀ w b, field (set_iwin_is_focused b w) = field w) →
  (∀ w b, field (set_iwin_layout b w) = field w) →
  (∀ w, field (set_iwin_is_urgent v.(nv_is_urgent) w) = field w ∨
        field (set_iwin_is_urgent v.(nv_is_urgent) w) = field (make_ipc_window v)) →
  (∀ w, field (set_iwin_focus_timestamp v.(nv_focus_timestamp) w) = field w ∨
        field (set_iwin_focus_timestamp v.(nv_focus_timestamp) w) = field (make_ipc_window v)) →
  (∀ w, m !! v.(nv_id) = Some w →
     field w = field (make_ipc_window v) ∨ ∃ e, e ∈ events ∧ writes field v e) →
  entry_is field (λ x, x = field (make_ipc_window v))
    (foldl (win_effect v.(nv_id)) (m !! v.(nv_id)) events).
Proof using H1.
  intros Hv Hf Hl Hu Ht Hinit. apply (final_field _ _ (writes field v)); [|exact Hinit].
  intros e o He Hor.
  destruct (events_source e He) as [(v' & Hv' & ->)|[(v' & Hv' & _ & ->)|[(v' & Hv' & ->)|
    [(v' & Hv' & ->)|[(ch & -> & _)|[(id & -> & _)|[-> _]]]]]]]; simpl.
  - destruct (N.eqb (nv_id v) (nv_id v')) eqn:E.
    + rewrite (opened_is_own v v' Hv Hv' E). intros w [= <-]. done.
    + destruct Hor as [[Heq|[[? _]|[? _]]]|Hg]; [|done..|].
      { injection Heq as Hid _ _ _ _ _ _ _ _ _. by rewrite Hid, N.eqb_refl in E. }
      destruct (nv_is_focused v'); [|done].
      intros w (w' & -> & ->)%fmap_Some_1. rewrite Hf. by apply Hg.
  - destruct Hor as [[|[[? _]|[? _]]]|Hg]; [done..|].
    intros w (w' & -> & ->)%fmap_Some_1. rewrite Hf. by apply Hg.
  - destruct (N.eqb (nv_id v) (nv_id v')) eqn:E.
    + rewrite (opened_is_own v v' Hv Hv' E). intros w (w' & -> & ->)%fmap_Some_1.
      destruct (Ht w') as [Hk|Hk]; [|done].
      destruct Hor as [[|[[? _]|[_ Hw]]]|Hg]; [done..|by apply Hw|]. rewrite Hk. by apply Hg.
    + destruct Hor as [[|[[? _]|[Heq _]]]|Hg]; [done..| |done].
      injection Heq as Hid _. by rewrite Hid, N.eqb_refl in E.
  - destruct (N.eqb (nv_id v) (nv_id v')) eqn:E.
    + rewrite (opened_is_own v v' Hv Hv' E). intros w (w' & -> & ->)%fmap_Some_1.
      destruct (Hu w') as [Hk|Hk]; [|done].
      destruct Hor as [[|[[_ Hw]|[? _]]]|Hg]; [done|by apply Hw|done|]. rewrite Hk. by apply Hg.
    + destruct Hor as [[|[[Heq _]|[? _]]]|Hg]; [done| |done..].
      injection Heq as Hid _. by rewrite Hid, N.eqb_refl in E.
  - destruct Hor as [[|[[? _]|[? _]]]|Hg]; [done..|]. clear He. revert o Hg.
    induction ch as [|c ch IH]; intros o Hg; simpl; [done|]. apply IH. split_match; [|done].
    intros w (w' & -> & ->)%fmap_Some_1. rewrite Hl. by apply Hg.
  - destruct Hor as [[|[[? _]|[? _]]]|Hg]; [done..|]. split_match; [by intros w ?|done].
  - destruct Hor as [[|[[? _]|[? _]]]|Hg]; [done..|].
    intros w (w' & -> & ->)%fmap_Some_1. rewrite Hf. by apply Hg.
Qed.

(** The layout: a batch that mentions the window writes it. *)
Lemma final_layout v :
  v ∈ l1 →
  entry_is iwin_layout (λ x, layout_same x v.(nv_layout))
    (foldl (win_effect v.(nv_id)) (m !! v.(nv_id)) events).
Proof using H1.
  intros Hv.
  apply (final_field _ _ (λ e, e = WindowOpenedOrChanged (make_ipc_window v) ∨
    ∃ ch, e = WindowLayoutsChanged ch ∧ (v.(nv_id), v.(nv_layout)) ∈ ch)).
  - intros e o He Hor.
    destruct (events_source e He) as [(v' & Hv' & ->)|[(v' & Hv' & _ & ->)|[(v' & Hv' & ->)|
      [(v' & Hv' & ->)|[(ch & -> & Hch)|[(id & -> & _)|[-> _]]]]]]]; simpl.
    + destruct (N.eqb (nv_id v) (nv_id v')) eqn:E.
      * rewrite (opened_is_own v v' Hv Hv' E). intros w [= <-]. by left.
      * destruct Hor as [[Heq|(? & ? & _)]|Hg]; [|done|].
        { injection Heq as Hid _ _ _ _ _ _ _ _ _. by rewrite Hid, N.eqb_refl in E. }
        destruct (nv_is_focused v'); [|done]. intros w (w' & -> & ->)%fmap_Some_1. exact (Hg w' eq_refl).
    + destruct Hor as [[|(? & ? & _)]|Hg]; [done..|].
      intros w (w' & -> & ->)%fmap_Some_1. exact (Hg w' eq_refl).
    + destruct Hor as [[|(? & ? & _)]|Hg]; [done..|]. split_match; [|done].
      intros w (w' & -> & ->)%fmap_Some_1. exact (Hg w' eq_refl).
    + destruct Hor as [[|(? & ? & _)]|Hg]; [done..|]. split_match; [|done].
      intros w (w' & -> & ->)%fmap_Some_1. exact (Hg w' eq_refl).
    + apply (foldl_establishes _ (entry_is iwin_layout (λ x, layout_same x v.(nv_layout)))
        (λ c, c = (nv_id v, nv_layout v))).
      * intros c o' Hc Hor'. destruct (Hch c Hc) as (v' & Hv' & -> & _). simpl.
        destruct (N.eqb (nv_id v) (nv_id v')) eqn:E.
        -- rewrite (opened_is_own v v' Hv Hv' E). intros w (w' & -> & ->)%fmap_Some_1. by left.
        -- destruct Hor' as [[= Hid _]|]; [|done]. by rewrite Hid, N.eqb_refl in E.
      * destruct Hor as [[|(ch' & [= <-] & Hin)]|Hg]; [done|right; eauto|by left].
    + destruct Hor as [[|(? & ? & _)]|Hg]; [done..|]. split_match; [by intros w ?|done].
    + destruct Hor as [[|(? & ? & _)]|Hg]; [done..|].
      intros w (w' & -> & ->)%fmap_Some_1. exact (Hg w' eq_refl).
  - intros w Hw. destruct (sent_for v Hv) as [He|(w' & Hw' & _ & _ & _ & _ & _ & _ & _ & Hl)]; [eauto|].
    simplify_eq. destruct Hl as [Hl|(ch & He & Hin)]; [by left; right|]. right. eauto 10.
Qed.

(** The events that move the focus. *)
Definition moves_focus (v : WindowView) (e : Event) : Prop :=
  (∃ w, e = WindowOpenedOrChanged w ∧ (w.(iwin_id) = v.(nv_id) ∨ w.(iwin_is_focused) = true)) ∨
  ∃ id, e = WindowFocusChanged id.

Lemma focus_effect v e o :
  v ∈ l1 → e ∈ events →
  moves_focus v e ∨ entry_is iwin_is_focused (λ x, x = v.(nv_is_focused)) o →
  entry_is iwin_is_focused (λ x, x = v.(nv_is_focused)) (win_effect v.(nv_id) o e).
Proof using H1.
  intros Hv He Hor.
  destruct (events_source e He) as [(v' & Hv' & ->)|[(v' & Hv' & Hf' & ->)|[(v' & Hv' & ->)|
    [(v' & Hv' & ->)|[(ch & -> & _)|[(id & -> & _)|[-> Hnone]]]]]]]; simpl.
  - destruct (N.eqb (nv_id v) (nv_id v')) eqn:E.
    + rewrite (opened_is_own v v' Hv Hv' E). intros w [= <-]. done.
    + apply N.eqb_neq in E. destruct (nv_is_focused v') eqn:Ef'.
      * intros w (w' & -> & ->)%fmap_Some_1. simpl. destruct (nv_is_focused v) eqn:Ef; [|done].
        destruct E. by apply (nw_one_focused _ H1).
      * destruct Hor as [[(w & [= <-] & [Hid|Hfoc])|(id & ?)]|Hg]; simpl in *; done || congruence.
  - intros w (w' & -> & ->)%fmap_Some_1. simpl.
    apply eq_true_iff_eq. rewrite bool_decide_eq_true. split.
    + intros [= Hid]. by rewrite (window_by_id l1 v v' (nw_ids _ H1) Hv Hv' Hid).
    + intros Hf. f_equal. by apply (nw_one_focused _ H1).
  - destruct Hor as [[(w & ? & _)|(id & ?)]|Hg]; [done..|]. split_match; [|done].
    intros w (w' & -> & ->)%fmap_Some_1. exact (Hg w' eq_refl).
  - destruct Hor as [[(w & ? & _)|(id & ?)]|Hg]; [done..|]. split_match; [|done].
    intros w (w' & -> & ->)%fmap_Some_1. exact (Hg w' eq_refl).
  - destruct Hor as [[(w & ? & _)|(id & ?)]|Hg]; [done..|]. clear He. revert o Hg.
    induction ch as [|c ch IH]; intros o Hg; simpl; [done|]. apply IH. split_match; [|done].
    intros w (w' & -> & ->)%fmap_Some_1. exact (Hg w' eq_refl).
  - destruct Hor as [[(w & ? & _)|(i & ?)]|Hg]; [done..|]. split_match; [by intros w ?|done].
  - intros w (w' & -> & ->)%fmap_Some_1. simpl. by rewrite (Hnone v Hv).
Qed.

(** When the focus of a window changes, some event says so. *)
Lemma focus_event v w :
  v ∈ l1 → m !! v.(nv_id) = Some w →
  w.(iwin_is_focused) = v.(nv_is_focused) ∨ ∃ e, e ∈ events ∧ moves_focus v e.
Proof using Hm H0 H1.
  intros Hv Hw. destruct (nv_is_focused v) eqn:Ef.
  - destruct (sent_for v Hv) as [He|(w' & Hw' & _ & _ & _ & _ & Hf & _)].
    + right. eexists. split; [exact He|]. left. eexists. split; [done|]. by left.
    + simplify_eq. destruct (Hf Ef) as [?|He]; [by left|]. right. eexists. split; [exact He|].
      right. eauto.
  - destruct (iwin_is_focused w) eqn:Ew; [|by left]. right.
    destruct (existsb nv_is_focused l1) eqn:Eall.
    + apply existsb_exists in Eall as (v' & Hv'%list_elem_of_In & Ef').
      destruct (sent_for v' Hv') as [He|(w' & Hw' & _ & _ & _ & _ & Hf & _)].
      * eexists. split; [exact He|]. left. eexists. split; [done|]. by right.
      * destruct (Hf Ef') as [Hold|He]; [|eexists; split; [exact He|]; right; eauto].
        destruct (ds_only _ _ Hm _ _ Hw) as (u & Hu & Hidu).
        destruct (ds_only _ _ Hm _ _ Hw') as (u' & Hu' & Hidu').
        destruct (ds_entries _ _ Hm u Hu) as (x & Hx & Hdx). rewrite Hidu in Hx. simplify_eq.
        destruct (ds_entries _ _ Hm u' Hu') as (x' & Hx' & Hdx'). rewrite Hidu' in Hx'. simplify_eq.
        assert (Heq : nv_id u = nv_id u').
        { apply (nw_one_focused _ H0); [done..| |].
          - by rewrite <- (dw_is_focused _ _ Hdx).
          - by rewrite <- (dw_is_focused _ _ Hdx'). }
        rewrite Hidu, Hidu' in Heq.
        rewrite (window_by_id l1 v v' (nw_ids _ H1) Hv Hv' Heq) in Ef. congruence.
    + exists (WindowFocusChanged None). split; [|right; eauto].
      unfold windows_events. rewrite !elem_of_app. right; right; right. rewrite Eall.
      assert (existsb iwin_is_focused (hash_values m) = true) as ->; [|by left].
      apply existsb_exists. exists w. split; [|done]. apply list_elem_of_In. unfold hash_values.
      rewrite hash_iter_perm. apply list_elem_of_fmap. exists (nv_id v, w). split; [done|].
      by apply elem_of_map_to_list.
Qed.

Lemma final_present v : v ∈ l1 → is_Some (foldl (win_effect v.(nv_id)) (m !! v.(nv_id)) events).
Proof.
  intros Hv.
  assert (Hc : ∀ e, e ∈ events → e ≠ WindowClosed v.(nv_id)).
  { intros e He ->. destruct (events_source _ He) as [(? & ? & ?)|[(? & ? & ? & ?)|[(? & ? & ?)|
      [(? & ? & ?)|[(? & ? & _)|[(id & Heq & _ & Hn)|[? _]]]]]]]; try done.
    injection Heq as <-. apply Hn. apply list_elem_of_fmap. eauto. }
  apply (foldl_establishes _ is_Some (λ e, e = WindowOpenedOrChanged (make_ipc_window v))).
  - intros e o He [->|Ho]; [simpl; rewrite N.eqb_refl; eauto|]. apply effect_present; auto.
  - destruct (sent_for v Hv) as [He|(w & Hw & _)]; [by eauto|]. left. eauto.
Qed.

Lemma final_absent k :
  k ∉ (nv_id <$> l1) → foldl (win_effect k) (m !! k) events = None.
Proof.
  intros Hk. apply (foldl_establishes _ (λ o, o = None) (λ e, e = WindowClosed k)).
  - intros e o He [->|Ho]; simpl; [by rewrite N.eqb_refl|subst o].
    destruct (events_source e He) as [(v' & Hv' & ->)|[(v' & Hv' & _ & ->)|[(v' & Hv' & ->)|
      [(v' & Hv' & ->)|[(ch & -> & _)|[(id & -> & _)|[-> _]]]]]]]; simpl; try done.
    + destruct (N.eqb_spec k (nv_id v')) as [->|]; [|by split_match].
      destruct Hk. apply list_elem_of_fmap. eauto.
    + by split_match.
    + by split_match.
    + clear He. induction ch as [|c ch IH]; simpl; [done|]. by destruct (N.eqb k c.1).
    + by split_match.
  - destruct (m !! k) as [w|] eqn:E; [right|by left].
    exists (WindowClosed k). split; [|done]. unfold windows_events. rewrite !elem_of_app.
    right; right; left. apply elem_of_closed. eauto.
Qed.

(** The entry of a window after the events describes it. *)
Lemma final_describes v w :
  v ∈ l1 → foldl (win_effect v.(nv_id)) (m !! v.(nv_id)) events = Some w → w.(iwin_id) = v.(nv_id) →
  describes_window w v.
Proof using Hm H0 H1 Hpid.
  intros Hv Hw Hid.
  assert (Hold : ∀ w0, m !! v.(nv_id) = Some w0 → w0.(iwin_pid) = v.(nv_pid)).
  { intros w0 Hw0. destruct (ds_only _ _ Hm _ _ Hw0) as (u & Hu & Hidu).
    destruct (ds_entries _ _ Hm u Hu) as (x & Hx & Hdx). rewrite Hidu in Hx. simplify_eq.
    rewrite (dw_pid _ _ Hdx). by apply Hpid. }
  assert (Hsc : ∀ B (field : Window → B), _) by exact (λ B field, final_scalar field v Hv).
  split; [done|..];
    try (refine (Hsc _ _ _ _ _ _ _ _ Hw); clear Hsc; [done|done|by left + by right|by left + by right|];
         intros w0 Hw0; destruct (sent_for v Hv) as [He|(w' & Hw' & ? & ? & ? & ? & _ & Ht & Hu & _)];
         [right; exists (WindowOpenedOrChanged (make_ipc_window v)); split; [exact He|by left]|];
         simplify_eq; try (left; simpl; first [done|by apply Hold]);
         first [destruct Hu as [?|He]; [by left|]; right; eexists; split; [exact He|]; right; left; done
               |destruct Ht as [?|He]; [by left|]; right; eexists; split; [exact He|]; right; right; done]).
  - refine (final_field iwin_is_focused (λ x, x = nv_is_focused v) (moves_focus v) v _ _ _ Hw).
    + intros e o He. by apply focus_effect.
    + intros w0. by apply focus_event.
  - exact (final_layout v Hv w Hw).
Qed.
End windows_refresh.

(** ** Samples *)
Definition sample_window_layout (x : Z) : WindowLayout :=
  {| wl_pos_in_scrolling_layout := Some (1, 1); wl_tile_size := (f64_of_Z 800, f64_of_Z 600);
     wl_window_size := (800%Z, 600%Z); wl_tile_pos_in_workspace_view := None;
     wl_window_offset_in_tile := (f64_of_Z x, f64_of_Z 0) |}.

Definition sample_window (id : N) (focused : bool) (x : Z) : WindowView :=
  {| nv_id := id; nv_title := Some "t"%string; nv_app_id := None; nv_pid := Some 7%Z;
     nv_ws_id := Some 1%N; nv_is_focused := focused; nv_is_floating := false;
     nv_is_urgent := false; nv_layout := sample_window_layout x; nv_focus_timestamp := None |}.

(** Window 5 closes, window 6 gets the focus and moves, window 7 opens. *)
Definition sample_windows0 : list WindowView := [sample_window 5 true 0; sample_window 6 false 0].
Definition sample_windows1 : LayoutView :=
  MkLayoutView [] None [sample_window 6 true 4; sample_window 7 false 0] false.

Definition sample_windows_state : gmap N Window :=
  <[5%N := make_ipc_window (sample_window 5 true 0)]>
    (<[6%N := make_ipc_window (sample_window 6 false 0)]> ∅).

Lemma sample_windows_described : describes_windows sample_windows_state sample_windows0.
Proof.
  split.
  - intros v Hv. unfold sample_windows0 in Hv. solve_views; eexists; (split; [reflexivity|]);
      split; simpl; try done; by left.
  - intros k w Hw. unfold sample_windows_state in Hw.
    apply lookup_insert_Some in Hw as [[<- <-]|[_ Hw]];
      [exists (sample_window 5 true 0); split; [left|done]|].
    apply lookup_insert_Some in Hw as [[<- <-]|[_ Hw]]; [|done].
    exists (sample_window 6 false 0). split; [right; left|done].
Qed.

(** ** Properties *)

(** C22: refinement. When the server's windows describe the windows of a layout
    and the layout changes to any other one (distinct ids, at most one focused window, a
    window keeps its process), [ipc_refresh_windows] does not panic, and the events it
    applies and sends take the state, and any client in the same state, to a description of
    the new windows. *)
Theorem refresh_windows_refines `{HashOrder} m views0 layout ws kb ov cf ca sent :
  describes_windows m views0 → windows_wf views0 → windows_wf layout.(lay_windows) →
  pids_stable views0 layout.(lay_windows) →
  ∃ events m',
    ipc_refresh_windows (MkIpcServer (MkEventStreamState ws (MkWindowsState m) kb ov cf ca) sent) layout =
      Some (MkIpcServer (MkEventStreamState ws (MkWindowsState m') kb ov cf ca) (sent ++ events)) ∧
    apply_all (MkWindowsState m) events = Some (MkWindowsState m') ∧
    describes_windows m' layout.(lay_windows).
Proof.
  intros Hm H0 H1 Hpid. exists (windows_events m layout).
  destruct (apply_window_events (windows_events m layout) m) as (m' & Ha & Hk & Hl).
  { by eapply describes_keyed, H0. }
  { apply windows_events_safe. }
  exists m'. split_and!; [|done|split].
  - unfold ipc_refresh_windows. cbn [wns_windows]. cbv zeta. by rewrite Ha.
  - intros v Hv. destruct (final_present m layout v Hv) as [w Hw]. rewrite <- Hl in Hw.
    exists w. split; [done|]. pose proof (Hk _ _ Hw) as Hid. rewrite Hl in Hw.
    by apply (final_describes m views0 layout).
  - intros k w Hw. destruct (decide (k ∈ (nv_id <$> layout.(lay_windows)))) as [Hin|Hnot].
    + apply list_elem_of_fmap in Hin as (v & -> & Hv). eauto.
    + rewrite Hl, final_absent in Hw by done. done.
Qed.

#[local] Existing Instance listed_order.

Lemma refresh_windows_refines_witness :
  ∃ events m',
    ipc_refresh_windows (MkIpcServer (MkEventStreamState state_default
      (MkWindowsState sample_windows_state) state_default state_default state_default state_default) [])
      sample_windows1 =
    Some (MkIpcServer (MkEventStreamState state_default (MkWindowsState m') state_default
      state_default state_default state_default) ([] ++ events)) ∧
    apply_all (MkWindowsState sample_windows_state) events = Some (MkWindowsState m') ∧
    describes_windows m' sample_windows1.(lay_windows).
Proof.
  apply (refresh_windows_refines sample_windows_state sample_windows0).
  - apply sample_windows_described.
  - split; [by apply (bool_decide_unpack _); vm_compute|].
    intros v1 v2 Hv1 Hv2. unfold sample_windows0 in *. solve_views.
  - split; [by apply (bool_decide_unpack _); vm_compute|].
    intros v1 v2 Hv1 Hv2. simpl in *. solve_views.
  - intros v0 v1 Hv0 Hv1. unfold sample_windows0 in *. simpl in *. solve_views.
Defined.
