(* ===== verification/LayoutScrolling.v ===== *)
(** * The scrolling layout (src/layout/scrolling.rs)

    The structure of a [ScrollingSpace]: columns of tiles, the active column and the active tile
    of every column, and what adding, removing, moving, consuming and expelling tiles does to
    them.  [None] is a panic: an index out of range, an [unwrap] of [None] or a failed [assert!].

    The geometry (view offset, sizes, animations, the cached [ColumnData] and [TileData]) follows
    the structure and does not influence it; it is left out, so [activate_prev_column_on_removal],
    an optional view offset, is kept as whether it is set, and [interactive_resize] as the window
    it resizes. *)
From S2P Require Import Prelude Float64.

(** ** Data *)
Inductive SizingMode := SizeNormal | SizeMaximized | SizeFullscreen.

#[export] Instance SizingMode_eq_dec : EqDecision SizingMode.
Proof. solve_decision. Defined.

Inductive ColumnDisplay := DisplayNormal | DisplayTabbed.

#[export] Instance ColumnDisplay_eq_dec : EqDecision ColumnDisplay.
Proof. solve_decision. Defined.

Inductive ColumnWidth := WidthProportion (p : f64) | WidthFixed (w : f64).

Inductive ScrollDirection := ScrollLeft | ScrollRight.

(** The options of the layout that its structure depends on. *)
Record Options := MkOptions {
  opt_default_column_display : ColumnDisplay;
  opt_empty_workspace_above_first : bool
}.

(** A tile: its window, the sizing mode last requested from the window
    ([pending_sizing_mode]), the column display of the window's rules, the tile's options and
    whether it goes back to floating. *)
Record Tile := MkTile {
  tl_window : N;
  tl_pending : SizingMode;
  tl_rule_display : option ColumnDisplay;
  tl_options : Options;
  tl_restore_to_floating : bool
}.

Record Column := MkColumn {
  co_tiles : list Tile;
  co_active : nat;
  co_width : ColumnWidth;
  co_full_width : bool;
  co_fullscreen : bool;
  co_maximized : bool;
  co_display : ColumnDisplay;
  co_options : Options
}.

Record ScrollingSpace := MkScrolling {
  sc_columns : list Column;
  sc_active : nat;
  sc_resize : option N;
  sc_activate_prev : bool;
  sc_options : Options
}.

Record RemovedTile := MkRemovedTile {
  rt_tile : Tile;
  rt_width : ColumnWidth;
  rt_full_width : bool;
  rt_floating : bool
}.

(** Field updates. *)
Definition set_tl_pending (m : SizingMode) (t : Tile) : Tile :=
  MkTile t.(tl_window) m t.(tl_rule_display) t.(tl_options) t.(tl_restore_to_floating).
Definition set_tl_options (o : Options) (t : Tile) : Tile :=
  MkTile t.(tl_window) t.(tl_pending) t.(tl_rule_display) o t.(tl_restore_to_floating).
Definition set_co_tiles (l : list Tile) (c : Column) : Column :=
  MkColumn l c.(co_active) c.(co_width) c.(co_full_width) c.(co_fullscreen) c.(co_maximized)
    c.(co_display) c.(co_options).
Definition set_co_active (i : nat) (c : Column) : Column :=
  MkColumn c.(co_tiles) i c.(co_width) c.(co_full_width) c.(co_fullscreen) c.(co_maximized)
    c.(co_display) c.(co_options).
Definition set_co_pending (fullscreen maximized : bool) (c : Column) : Column :=
  MkColumn c.(co_tiles) c.(co_active) c.(co_width) c.(co_full_width) fullscreen maximized
    c.(co_display) c.(co_options).
Definition set_co_display (d : ColumnDisplay) (c : Column) : Column :=
  MkColumn c.(co_tiles) c.(co_active) c.(co_width) c.(co_full_width) c.(co_fullscreen)
    c.(co_maximized) d c.(co_options).
Definition set_sc_columns (l : list Column) (s : ScrollingSpace) : ScrollingSpace :=
  MkScrolling l s.(sc_active) s.(sc_resize) s.(sc_activate_prev) s.(sc_options).
Definition set_sc_active (i : nat) (s : ScrollingSpace) : ScrollingSpace :=
  MkScrolling s.(sc_columns) i s.(sc_resize) s.(sc_activate_prev) s.(sc_options).
Definition set_sc_resize (r : option N) (s : ScrollingSpace) : ScrollingSpace :=
  MkScrolling s.(sc_columns) s.(sc_active) r s.(sc_activate_prev) s.(sc_options).
Definition set_sc_activate_prev (b : bool) (s : ScrollingSpace) : ScrollingSpace :=
  MkScrolling s.(sc_columns) s.(sc_active) s.(sc_resize) b s.(sc_options).

(** ** Columns *)
Definition pending_sizing_mode (c : Column) : SizingMode :=
  if c.(co_fullscreen) then SizeFullscreen
  else if c.(co_maximized) then SizeMaximized else SizeNormal.

(** Requests the column's sizing mode from all its windows. *)
Definition update_tile_sizes (c : Column) : Column :=
  set_co_tiles (set_tl_pending (pending_sizing_mode c) <$> c.(co_tiles)) c.

Definition tile_is (window : N) (t : Tile) : bool := N.eqb t.(tl_window) window.

Definition col_contains (c : Column) (window : N) : bool := existsb (tile_is window) c.(co_tiles).

Definition col_position (c : Column) (window : N) : option nat :=
  vec_position (tile_is window) c.(co_tiles).

Definition activate_idx (c : Column) (idx : nat) : option (Column * bool) :=
  if decide (c.(co_active) = idx) then Some (c, false)
  else _ ← c.(co_tiles) !! idx; Some (set_co_active idx c, true).

Definition col_activate_window (c : Column) (window : N) : option Column :=
  idx ← col_position c window; fst <$> activate_idx c idx.

Definition add_tile_at (c : Column) (idx : nat) (tile : Tile) : option Column :=
  let tile := set_tl_options c.(co_options) tile in
  let c := if decide (c.(co_display) = DisplayTabbed) then c else set_co_pending false false c in
  tiles ← vec_insert idx tile c.(co_tiles);
  Some (update_tile_sizes (set_co_tiles tiles c)).

Definition col_set_fullscreen (c : Column) (is_fullscreen : bool) : option Column :=
  if Bool.eqb c.(co_fullscreen) is_fullscreen then Some c
  else if is_fullscreen
          && negb ((length c.(co_tiles) =? 1) || bool_decide (c.(co_display) = DisplayTabbed))
  then None
  else Some (update_tile_sizes (set_co_pending is_fullscreen c.(co_maximized) c)).

Definition col_set_maximized (c : Column) (maximize : bool) : option Column :=
  if Bool.eqb c.(co_maximized) maximize then Some c
  else if maximize
          && negb ((length c.(co_tiles) =? 1) || bool_decide (c.(co_display) = DisplayTabbed))
  then None
  else Some (update_tile_sizes (set_co_pending c.(co_fullscreen) maximize c)).

Definition col_set_column_display (c : Column) (display : ColumnDisplay) : Column :=
  if decide (c.(co_display) = display) then c
  else update_tile_sizes (set_co_display display c).

Definition new_with_tile (tile : Tile) (width : ColumnWidth) (is_full_width : bool) :
    option Column :=
  let options := tile.(tl_options) in
  let display_mode := default options.(opt_default_column_display) tile.(tl_rule_display) in
  let rv := MkColumn [] 0 width is_full_width false false display_mode options in
  let pending := tile.(tl_pending) in
  rv ← add_tile_at rv 0 tile;
  match pending with
  | SizeNormal => Some rv
  | SizeMaximized => col_set_maximized rv true
  | SizeFullscreen => col_set_fullscreen rv true
  end.

Definition col_update_config (options : Options) (c : Column) : Column :=
  MkColumn (set_tl_options options <$> c.(co_tiles)) c.(co_active) c.(co_width)
    c.(co_full_width) c.(co_fullscreen) c.(co_maximized) c.(co_display) options.

(** [self.tiles.len() - 1]. *)
Definition last_idx {A} (l : list A) : option nat :=
  match l with [] => None | _ => Some (length l - 1) end.

Definition col_focus_index (c : Column) (index : nat) : option Column :=
  last ← last_idx c.(co_tiles); fst <$> activate_idx c (Nat.min (index - 1) last).

Definition col_focus_up (c : Column) : option (Column * bool) := activate_idx c (c.(co_active) - 1).

Definition col_focus_down (c : Column) : option (Column * bool) :=
  last ← last_idx c.(co_tiles); activate_idx c (Nat.min (c.(co_active) + 1) last).

Definition col_focus_top (c : Column) : option Column := fst <$> activate_idx c 0.

Definition col_focus_bottom (c : Column) : option Column :=
  last ← last_idx c.(co_tiles); fst <$> activate_idx c last.

Definition col_move_up (c : Column) : option (Column * bool) :=
  let new_idx := c.(co_active) - 1 in
  if decide (c.(co_active) = new_idx) then Some (c, false)
  else tiles ← vec_swap c.(co_active) new_idx c.(co_tiles);
       Some (set_co_active new_idx (set_co_tiles tiles c), true).

Definition col_move_down (c : Column) : option (Column * bool) :=
  last ← last_idx c.(co_tiles);
  let new_idx := Nat.min (c.(co_active) + 1) last in
  if decide (c.(co_active) = new_idx) then Some (c, false)
  else tiles ← vec_swap c.(co_active) new_idx c.(co_tiles);
       Some (set_co_active new_idx (set_co_tiles tiles c), true).

(** ** The space *)
Definition Scrolling_new (options : Options) : ScrollingSpace :=
  MkScrolling [] 0 None false options.

Definition sc_is_empty (s : ScrollingSpace) : bool :=
  match s.(sc_columns) with [] => true | _ => false end.

Definition active_window (s : ScrollingSpace) : option N :=
  match s.(sc_columns) !! s.(sc_active) with
  | Some c => tl_window <$> c.(co_tiles) !! c.(co_active)
  | None => None
  end.

Definition set_column (i : nat) (c : Column) (s : ScrollingSpace) : ScrollingSpace :=
  set_sc_columns (<[i:=c]> s.(sc_columns)) s.

(** The structural effect of [activate_column_with_anim_config]; it reads the column at [idx]
    to compute the view offset. *)
Definition activate_column (s : ScrollingSpace) (idx : nat) : option ScrollingSpace :=
  if decide (s.(sc_active) = idx) then Some s
  else _ ← s.(sc_columns) !! idx;
       Some (MkScrolling s.(sc_columns) idx None false s.(sc_options)).

Definition position_col (s : ScrollingSpace) (window : N) : option nat :=
  vec_position (λ c, col_contains c window) s.(sc_columns).

Definition add_column (s : ScrollingSpace) (idx : option nat) (column : Column) (activate : bool) :
    option ScrollingSpace :=
  let was_empty := sc_is_empty s in
  let idx := default (if was_empty then 0 else s.(sc_active) + 1) idx in
  let column := col_update_config s.(sc_options) column in
  columns ← vec_insert idx column s.(sc_columns);
  let s := set_sc_columns columns s in
  let s := if negb was_empty && (idx <=? s.(sc_active))
           then set_sc_active (s.(sc_active) + 1) s else s in
  if activate then
    let prev_offset := negb was_empty && (idx =? s.(sc_active) + 1) in
    s ← activate_column s idx;
    Some (set_sc_activate_prev prev_offset s)
  else Some s.

Definition sc_add_tile (s : ScrollingSpace) (col_idx : option nat) (tile : Tile) (activate : bool)
    (width : ColumnWidth) (is_full_width : bool) : option ScrollingSpace :=
  column ← new_with_tile tile width is_full_width;
  add_column s col_idx column activate.

(** The tile of a tabbed column that fades out when one is added: the one that was active, or
    the new one. *)
Definition fading_tile (target : Column) (prev_active tile_idx : nat) : option (option Tile) :=
  if decide (target.(co_display) = DisplayTabbed) then
    Some <$> target.(co_tiles) !! (if target.(co_active) =? tile_idx then prev_active else tile_idx)
  else Some None.

Definition add_tile_to_column (s : ScrollingSpace) (col_idx : nat) (tile_idx : option nat)
    (tile : Tile) (activate : bool) : option ScrollingSpace :=
  target ← s.(sc_columns) !! col_idx;
  let tile_idx := default (length target.(co_tiles)) tile_idx in
  let prev_active := target.(co_active) in
  target ← add_tile_at target tile_idx tile;
  let above := tile_idx <=? prev_active in
  let target := if above then set_co_active (target.(co_active) + 1) target else target in
  let prev_active := if above then prev_active + 1 else prev_active in
  s ← (if activate then
         r ← activate_idx target tile_idx;
         let s := set_column col_idx (fst r) s in
         if decide (s.(sc_active) = col_idx) then Some s else activate_column s col_idx
       else Some (set_column col_idx target s));
  target ← s.(sc_columns) !! col_idx;
  _ ← fading_tile target prev_active tile_idx;
  Some s.

Definition add_tile_right_of (s : ScrollingSpace) (right_of : N) (tile : Tile) (activate : bool)
    (width : ColumnWidth) (is_full_width : bool) : option ScrollingSpace :=
  right_of_idx ← position_col s right_of;
  sc_add_tile s (Some (right_of_idx + 1)) tile activate width is_full_width.

(** An interactive resize ends when its window leaves. *)
Definition stop_resize (p : N → bool) (r : option N) : option N :=
  match r with Some w => if p w then None else Some w | None => None end.

Definition remove_column_by_idx (s : ScrollingSpace) (column_idx : nat) :
    option (Column * ScrollingSpace) :=
  r ← vec_remove column_idx s.(sc_columns);
  let '(column, columns) := r in
  let s := set_sc_columns columns s in
  let s := set_sc_resize (stop_resize (col_contains column) s.(sc_resize)) s in
  let s := if column_idx + 1 =? s.(sc_active) then set_sc_activate_prev false s else s in
  match columns with
  | [] => Some (column, s)
  | _ =>
      if column_idx <? s.(sc_active) then
        Some (column, set_sc_activate_prev false (set_sc_active (s.(sc_active) - 1) s))
      else if (column_idx =? s.(sc_active)) && s.(sc_activate_prev) then
        if 0 <? column_idx then s ← activate_column s (s.(sc_active) - 1); Some (column, s)
        else Some (column, s)
      else s ← activate_column s (Nat.min s.(sc_active) (length columns - 1)); Some (column, s)
  end.

Definition remove_tile_by_idx (s : ScrollingSpace) (column_idx tile_idx : nat) :
    option (RemovedTile * ScrollingSpace) :=
  column ← s.(sc_columns) !! column_idx;
  if length column.(co_tiles) =? 1 then
    r ← remove_column_by_idx s column_idx;
    let '(column, s) := r in
    t ← vec_remove tile_idx column.(co_tiles);
    Some (MkRemovedTile (fst t) column.(co_width) column.(co_full_width) false, s)
  else
    t ← vec_remove tile_idx column.(co_tiles);
    let '(tile, tiles) := t in
    let column := set_co_tiles tiles column in
    let s := set_sc_resize (stop_resize (N.eqb tile.(tl_window)) s.(sc_resize)) s in
    let removed := MkRemovedTile tile column.(co_width) column.(co_full_width) false in
    column ←
      (if tile_idx <? column.(co_active) then Some (set_co_active (column.(co_active) - 1) column)
       else if (tile_idx =? column.(co_active)) && (tile_idx =? length tiles)
       then fst <$> activate_idx column (tile_idx - 1)
       else Some column);
    Some (removed, set_column column_idx (update_tile_sizes column) s).

Definition sc_remove_active_tile (s : ScrollingSpace) :
    option (option RemovedTile * ScrollingSpace) :=
  if sc_is_empty s then Some (None, s)
  else column ← s.(sc_columns) !! s.(sc_active);
       r ← remove_tile_by_idx s s.(sc_active) column.(co_active);
       Some (Some (fst r), snd r).

Definition sc_remove_tile (s : ScrollingSpace) (window : N) :
    option (RemovedTile * ScrollingSpace) :=
  column_idx ← position_col s window;
  column ← s.(sc_columns) !! column_idx;
  tile_idx ← col_position column window;
  remove_tile_by_idx s column_idx tile_idx.

Definition sc_remove_active_column (s : ScrollingSpace) :
    option (option Column * ScrollingSpace) :=
  if sc_is_empty s then Some (None, s)
  else r ← remove_column_by_idx s s.(sc_active); Some (Some (fst r), snd r).

Definition sc_activate_window (s : ScrollingSpace) (window : N) : option (ScrollingSpace * bool) :=
  match position_col s window with
  | None => Some (s, false)
  | Some column_idx =>
      column ← s.(sc_columns) !! column_idx;
      column ← col_activate_window column window;
      s ← activate_column (set_column column_idx column s) column_idx;
      Some (s, true)
  end.

(** *** Focus *)
Definition focus_left (s : ScrollingSpace) : option (ScrollingSpace * bool) :=
  if s.(sc_active) =? 0 then Some (s, false)
  else s ← activate_column s (s.(sc_active) - 1); Some (s, true).

Definition focus_right (s : ScrollingSpace) : option (ScrollingSpace * bool) :=
  if length s.(sc_columns) <=? s.(sc_active) + 1 then Some (s, false)
  else s ← activate_column s (s.(sc_active) + 1); Some (s, true).

Definition focus_column_first (s : ScrollingSpace) : option ScrollingSpace := activate_column s 0.

Definition focus_column_last (s : ScrollingSpace) : option ScrollingSpace :=
  if sc_is_empty s then Some s else activate_column s (length s.(sc_columns) - 1).

Definition focus_column (s : ScrollingSpace) (index : nat) : option ScrollingSpace :=
  if sc_is_empty s then Some s
  else activate_column s (Nat.min (index - 1) (length s.(sc_columns) - 1)).

(** Runs an operation of the active column, if there is one. *)
Definition on_active_column {B} (f : Column → option (Column * B)) (none : B) (s : ScrollingSpace) :
    option (ScrollingSpace * B) :=
  if sc_is_empty s then Some (s, none)
  else c ← s.(sc_columns) !! s.(sc_active);
       r ← f c;
       Some (set_column s.(sc_active) (fst r) s, snd r).

Definition with_unit (f : Column → option Column) (c : Column) : option (Column * unit) :=
  c ← f c; Some (c, tt).

Definition focus_window_in_column (s : ScrollingSpace) (index : nat) : option ScrollingSpace :=
  fst <$> on_active_column (with_unit (λ c, col_focus_index c index)) tt s.

Definition focus_down (s : ScrollingSpace) : option (ScrollingSpace * bool) :=
  on_active_column col_focus_down false s.

Definition focus_up (s : ScrollingSpace) : option (ScrollingSpace * bool) :=
  on_active_column col_focus_up false s.

(** [if !column.focus_x() { self.focus_y() }], nothing when there are no columns. *)
Definition focus_or (f : ScrollingSpace → option (ScrollingSpace * bool))
    (g : ScrollingSpace → option (ScrollingSpace * bool)) (s : ScrollingSpace) :
    option ScrollingSpace :=
  if sc_is_empty s then Some s
  else '(s', done) ← f s; if (done : bool) then Some s' else fst <$> g s'.

Definition focus_down_or_left : ScrollingSpace → option ScrollingSpace := focus_or focus_down focus_left.
Definition focus_down_or_right : ScrollingSpace → option ScrollingSpace := focus_or focus_down focus_right.
Definition focus_up_or_left : ScrollingSpace → option ScrollingSpace := focus_or focus_up focus_left.
Definition focus_up_or_right : ScrollingSpace → option ScrollingSpace := focus_or focus_up focus_right.

Definition focus_top (s : ScrollingSpace) : option ScrollingSpace :=
  fst <$> on_active_column (with_unit col_focus_top) tt s.

Definition focus_bottom (s : ScrollingSpace) : option ScrollingSpace :=
  fst <$> on_active_column (with_unit col_focus_bottom) tt s.

(** *** Moving *)
Definition move_column_to (s : ScrollingSpace) (new_idx : nat) : option ScrollingSpace :=
  if decide (s.(sc_active) = new_idx) then Some s
  else
    r ← vec_remove s.(sc_active) s.(sc_columns);
    let '(column, columns) := r in
    let s := set_sc_resize (stop_resize (col_contains column) s.(sc_resize)) s in
    columns ← vec_insert new_idx column columns;
    activate_column (set_sc_columns columns s) new_idx.

Definition move_column_to_index (s : ScrollingSpace) (index : nat) : option ScrollingSpace :=
  if sc_is_empty s then Some s
  else move_column_to s (Nat.min (index - 1) (length s.(sc_columns) - 1)).

Definition move_left (s : ScrollingSpace) : option (ScrollingSpace * bool) :=
  if s.(sc_active) =? 0 then Some (s, false)
  else s ← move_column_to s (s.(sc_active) - 1); Some (s, true).

Definition move_right (s : ScrollingSpace) : option (ScrollingSpace * bool) :=
  let new_idx := s.(sc_active) + 1 in
  if length s.(sc_columns) <=? new_idx then Some (s, false)
  else s ← move_column_to s new_idx; Some (s, true).

Definition move_column_to_first (s : ScrollingSpace) : option ScrollingSpace := move_column_to s 0.

Definition move_column_to_last (s : ScrollingSpace) : option ScrollingSpace :=
  if sc_is_empty s then Some s else move_column_to s (length s.(sc_columns) - 1).

Definition move_down (s : ScrollingSpace) : option (ScrollingSpace * bool) :=
  on_active_column col_move_down false s.

Definition move_up (s : ScrollingSpace) : option (ScrollingSpace * bool) :=
  on_active_column col_move_up false s.

(** *** Consuming and expelling *)

(** The column and tile of a window, or the active ones. *)
Definition source_tile (s : ScrollingSpace) (window : option N) : option (nat * nat) :=
  match window with
  | Some w =>
      col_idx ← position_col s w;
      col ← s.(sc_columns) !! col_idx;
      tile_idx ← col_position col w;
      Some (col_idx, tile_idx)
  | None => col ← s.(sc_columns) !! s.(sc_active); Some (s.(sc_active), col.(co_active))
  end.

Definition consume_or_expel_window_left (s : ScrollingSpace) (window : option N) :
    option ScrollingSpace :=
  if sc_is_empty s then Some s
  else
    src ← source_tile s window;
    let '(source_col_idx, source_tile_idx) := src in
    source ← s.(sc_columns) !! source_col_idx;
    let was_active := (s.(sc_active) =? source_col_idx) && (source.(co_active) =? source_tile_idx) in
    if length source.(co_tiles) =? 1 then
      if source_col_idx =? 0 then Some s
      else
        let target_column_idx := source_col_idx - 1 in
        let s := if was_active then set_sc_activate_prev true s else s in
        r ← remove_tile_by_idx s source_col_idx 0;
        add_tile_to_column (snd r) target_column_idx None (rt_tile (fst r)) was_active
    else
      r ← remove_tile_by_idx s source_col_idx source_tile_idx;
      let '(removed, s) := r in
      let target_column_idx := source_col_idx in
      s ← sc_add_tile s (Some target_column_idx) removed.(rt_tile) was_active removed.(rt_width)
            removed.(rt_full_width);
      Some (if was_active then set_sc_activate_prev false s else s).

Definition consume_or_expel_window_right (s : ScrollingSpace) (window : option N) :
    option ScrollingSpace :=
  if sc_is_empty s then Some s
  else
    src ← source_tile s window;
    let '(source_col_idx, source_tile_idx) := src in
    source ← s.(sc_columns) !! source_col_idx;
    let was_active := (s.(sc_active) =? source_col_idx) && (source.(co_active) =? source_tile_idx) in
    if length source.(co_tiles) =? 1 then
      if source_col_idx + 1 =? length s.(sc_columns) then Some s
      else
        let target_column_idx := source_col_idx in
        let s := if was_active then set_sc_activate_prev false s else s in
        r ← remove_tile_by_idx s source_col_idx 0;
        add_tile_to_column (snd r) target_column_idx None (rt_tile (fst r)) was_active
    else
      r ← remove_tile_by_idx s source_col_idx source_tile_idx;
      let '(removed, s) := r in
      let target_column_idx := source_col_idx + 1 in
      sc_add_tile s (Some target_column_idx) removed.(rt_tile) was_active removed.(rt_width)
        removed.(rt_full_width).

Definition consume_into_column (s : ScrollingSpace) : option ScrollingSpace :=
  if length s.(sc_columns) <? 2 then Some s
  else if s.(sc_active) =? length s.(sc_columns) - 1 then Some s
  else
    let target_column_idx := s.(sc_active) in
    let source_column_idx := s.(sc_active) + 1 in
    r ← remove_tile_by_idx s source_column_idx 0;
    add_tile_to_column (snd r) target_column_idx None (rt_tile (fst r)) false.

Definition expel_from_column (s : ScrollingSpace) : option ScrollingSpace :=
  if sc_is_empty s then Some s
  else
    let source_col_idx := s.(sc_active) in
    let target_col_idx := s.(sc_active) + 1 in
    source ← s.(sc_columns) !! source_col_idx;
    if length source.(co_tiles) =? 1 then Some s
    else
      last ← last_idx source.(co_tiles);
      r ← remove_tile_by_idx s source_col_idx last;
      let '(removed, s) := r in
      sc_add_tile s (Some target_col_idx) removed.(rt_tile) false removed.(rt_width)
        removed.(rt_full_width).

Definition swap_window_in_direction (s : ScrollingSpace) (direction : ScrollDirection) :
    option ScrollingSpace :=
  if sc_is_empty s then Some s
  else if match direction with
          | ScrollLeft => s.(sc_active) =? 0
          | ScrollRight => s.(sc_active) =? length s.(sc_columns) - 1
          end then Some s
  else
    let source_column_idx := s.(sc_active) in
    let target_column_idx := match direction with
                             | ScrollLeft => s.(sc_active) - 1
                             | ScrollRight => s.(sc_active) + 1
                             end in
    source ← s.(sc_columns) !! source_column_idx;
    target ← s.(sc_columns) !! target_column_idx;
    if (length source.(co_tiles) =? 1) && (length target.(co_tiles) =? 1)
    then move_column_to s target_column_idx
    else
      let source_tile_idx := source.(co_active) in
      let target_tile_idx := target.(co_active) in
      let drained := length source.(co_tiles) =? 1 in
      r ← remove_tile_by_idx s source_column_idx source_tile_idx;
      let '(source_removed, s) := r in
      let adjusted := match direction with
                      | ScrollRight => if drained then target_column_idx - 1 else target_column_idx
                      | ScrollLeft => target_column_idx
                      end in
      s ← add_tile_to_column s adjusted (Some target_tile_idx) source_removed.(rt_tile) false;
      r ← remove_tile_by_idx s adjusted (target_tile_idx + 1);
      let '(target_removed, s) := r in
      s ← (if drained
           then sc_add_tile s (Some source_column_idx) target_removed.(rt_tile) true
                  source_removed.(rt_width) source_removed.(rt_full_width)
           else add_tile_to_column s source_column_idx (Some source_tile_idx)
                  target_removed.(rt_tile) false);
      source ← s.(sc_columns) !! source_column_idx;
      let s := set_column source_column_idx (set_co_active source_tile_idx source) s in
      target ← s.(sc_columns) !! target_column_idx;
      let s := set_column target_column_idx (set_co_active target_tile_idx target) s in
      _ ← target.(co_tiles) !! target_tile_idx;
      _ ← source.(co_tiles) !! source_tile_idx;
      activate_column s target_column_idx.

(** *** Fullscreen, maximize and display mode *)
Definition sc_set_fullscreen (s : ScrollingSpace) (window : N) (is_fullscreen : bool) :
    option (ScrollingSpace * bool) :=
  col_idx ← position_col s window;
  col ← s.(sc_columns) !! col_idx;
  if Bool.eqb is_fullscreen col.(co_fullscreen) then Some (s, false)
  else
    let s := set_sc_resize (stop_resize (col_contains col) s.(sc_resize)) s in
    r ← (if is_fullscreen && ((1 <? length col.(co_tiles))
                              && negb (bool_decide (col.(co_display) = DisplayTabbed)))
         then s ← consume_or_expel_window_right s (Some window);
              Some (s, col_idx + 1)
         else Some (s, col_idx));
    let '(s, col_idx) := r in
    col ← s.(sc_columns) !! col_idx;
    col ← col_set_fullscreen col is_fullscreen;
    Some (set_column col_idx col s, true).

Definition sc_set_maximized (s : ScrollingSpace) (window : N) (maximize : bool) :
    option (ScrollingSpace * bool) :=
  col_idx ← position_col s window;
  col ← s.(sc_columns) !! col_idx;
  if Bool.eqb maximize col.(co_maximized) then Some (s, false)
  else
    let s := set_sc_resize (stop_resize (col_contains col) s.(sc_resize)) s in
    r ← (if maximize && ((1 <? length col.(co_tiles))
                         && negb (bool_decide (col.(co_display) = DisplayTabbed)))
         then s ← consume_or_expel_window_right s (Some window);
              Some (s, col_idx + 1)
         else Some (s, col_idx));
    let '(s, col_idx) := r in
    col ← s.(sc_columns) !! col_idx;
    col ← col_set_maximized col maximize;
    Some (set_column col_idx col s, true).

Definition set_column_display (s : ScrollingSpace) (display : ColumnDisplay) :
    option ScrollingSpace :=
  if sc_is_empty s then Some s
  else
    col ← s.(sc_columns) !! s.(sc_active);
    if decide (col.(co_display) = display) then Some s
    else
      let s := set_sc_resize (stop_resize (col_contains col) s.(sc_resize)) s in
      let col := update_tile_sizes (col_set_column_display col display) in
      let s := set_column s.(sc_active) col s in
      if negb (bool_decide (col.(co_display) = DisplayTabbed)) && (1 <? length col.(co_tiles)) then
        tile ← col.(co_tiles) !! col.(co_active);
        r ← sc_set_fullscreen s tile.(tl_window) false;
        r ← sc_set_maximized (fst r) tile.(tl_window) false;
        Some (fst r)
      else Some s.

Definition toggle_column_tabbed_display (s : ScrollingSpace) : option ScrollingSpace :=
  if sc_is_empty s then Some s
  else
    col ← s.(sc_columns) !! s.(sc_active);
    set_column_display s (match col.(co_display) with
                          | DisplayNormal => DisplayTabbed
                          | DisplayTabbed => DisplayNormal
                          end).

(** *** Interactive resize *)
Definition interactive_resize_begin (s : ScrollingSpace) (window : N) :
    option (ScrollingSpace * bool) :=
  match s.(sc_resize) with
  | Some _ => Some (s, false)
  | None =>
      col_idx ← position_col s window;
      col ← s.(sc_columns) !! col_idx;
      if decide (pending_sizing_mode col = SizeNormal)
      then Some (set_sc_resize (Some window) s, true) else Some (s, false)
  end.

Definition interactive_resize_end (s : ScrollingSpace) (window : option N) : option ScrollingSpace :=
  match s.(sc_resize) with
  | None => Some s
  | Some w =>
      match window with
      | Some window =>
          if N.eqb window w then
            _ ← s.(sc_columns) !! s.(sc_active);
            Some (set_sc_resize None s)
          else Some s
      | None => Some (set_sc_resize None s)
      end
  end.

(** ** The structure and its invariant *)

(** The windows of every column, top to bottom, columns left to right. *)
Definition col_windows (c : Column) : list N := tl_window <$> c.(co_tiles).
Definition arrangement (s : ScrollingSpace) : list (list N) := col_windows <$> s.(sc_columns).
Definition windows (s : ScrollingSpace) : list N := mjoin (arrangement s).

(** [Column::verify_invariants]. *)
Record column_ok (c : Column) : Prop := {
  co_active_ok : c.(co_active) < length c.(co_tiles);
  co_sizing_ok : pending_sizing_mode c ≠ SizeNormal →
    length c.(co_tiles) = 1 ∨ c.(co_display) = DisplayTabbed;
  co_pending_ok : Forall (λ t, t.(tl_pending) = pending_sizing_mode c) c.(co_tiles)
}.

(** [ScrollingSpace::verify_invariants], and that windows are distinct. *)
Record scrolling_ok (s : ScrollingSpace) : Prop := {
  sc_columns_ok : Forall column_ok s.(sc_columns);
  sc_active_ok : s.(sc_active) < length s.(sc_columns) ∨ s.(sc_columns) = [] ∧ s.(sc_active) = 0;
  sc_windows_ok : NoDup (windows s);
  sc_resize_ok : ∀ w, s.(sc_resize) = Some w → w ∈ windows s
}.

(** *** Columns *)
Lemma col_windows_length c : length (col_windows c) = length c.(co_tiles).
Proof. apply length_fmap. Qed.

Lemma set_co_active_id c : set_co_active c.(co_active) c = c.
Proof. by destruct c. Qed.

Lemma activate_idx_runs c idx :
  idx < length c.(co_tiles) →
  runs (activate_idx c idx) (λ r, fst r = set_co_active idx c).
Proof.
  intros [t Ht]%lookup_lt_is_Some. unfold activate_idx.
  destruct (decide (co_active c = idx)) as [<-|Hne].
  - apply runs_ret. simpl. by rewrite set_co_active_id.
  - rewrite Ht. by apply runs_ret.
Qed.

Lemma set_co_active_ok c idx :
  column_ok c → idx < length c.(co_tiles) → column_ok (set_co_active idx c).
Proof. intros [] H. by split. Qed.

Lemma col_windows_map (f : Tile → Tile) l c :
  (∀ t, tl_window (f t) = tl_window t) →
  col_windows (set_co_tiles (f <$> l) c) = tl_window <$> l.
Proof.
  intros H. unfold col_windows. simpl. rewrite <-list_fmap_compose.
  by apply list_fmap_ext; intros; apply H.
Qed.

Lemma update_tile_sizes_windows c : col_windows (update_tile_sizes c) = col_windows c.
Proof. by apply col_windows_map. Qed.

Lemma update_tile_sizes_pending c :
  Forall (λ t, t.(tl_pending) = pending_sizing_mode (update_tile_sizes c))
    (update_tile_sizes c).(co_tiles).
Proof. apply Forall_fmap. by apply Forall_true. Qed.

Lemma update_tile_sizes_ok c :
  c.(co_active) < length c.(co_tiles) →
  (pending_sizing_mode c ≠ SizeNormal → length c.(co_tiles) = 1 ∨ c.(co_display) = DisplayTabbed) →
  column_ok (update_tile_sizes c).
Proof.
  intros Ha Hp. split; [|intros H; specialize (Hp H)|apply update_tile_sizes_pending];
    simpl; by rewrite length_fmap.
Qed.

Lemma col_update_config_windows o c : col_windows (col_update_config o c) = col_windows c.
Proof. exact (col_windows_map (set_tl_options o) (co_tiles c) c (λ _, eq_refl)). Qed.

Lemma col_update_config_ok o c : column_ok c → column_ok (col_update_config o c).
Proof.
  intros [Ha Hs Hp]. split; simpl; rewrite ?length_fmap; [done|done|].
  apply Forall_fmap. eapply Forall_impl; [exact Hp|]. by intros t.
Qed.

(** What adding a tile to a column gives, also to the empty one it starts as. *)
Lemma add_tile_at_runs c idx t :
  idx ≤ length c.(co_tiles) →
  runs (add_tile_at c idx t) (λ c',
    col_windows c' = take idx (col_windows c) ++ tl_window t :: drop idx (col_windows c) ∧
    length c'.(co_tiles) = S (length c.(co_tiles)) ∧
    c'.(co_active) = c.(co_active) ∧ c'.(co_display) = c.(co_display) ∧
    c'.(co_width) = c.(co_width) ∧ c'.(co_full_width) = c.(co_full_width) ∧
    c'.(co_options) = c.(co_options) ∧
    (pending_sizing_mode c' ≠ SizeNormal → c'.(co_display) = DisplayTabbed) ∧
    Forall (λ t, t.(tl_pending) = pending_sizing_mode c') c'.(co_tiles)).
Proof.
  intros Hi. unfold add_tile_at.
  destruct (decide (co_display c = DisplayTabbed)) as [Hd|Hd]; simpl;
    (rewrite vec_insert_ok by done); apply runs_ret;
    (split_and!; [| |done..| |apply update_tile_sizes_pending]).
  all: try (rewrite update_tile_sizes_windows; unfold col_windows; simpl;
            by rewrite fmap_app, fmap_cons, fmap_take, fmap_drop).
  all: try (simpl; by rewrite length_fmap, length_vec_insert).
  all: done.
Qed.

Lemma new_with_tile_runs t w f :
  runs (new_with_tile t w f) (λ c, column_ok c ∧ col_windows c = [tl_window t] ∧ c.(co_active) = 0).
Proof.
  unfold new_with_tile. eapply runs_bind; [apply add_tile_at_runs; simpl; lia|].
  intros c (Hw & Hl & Ha & Hd & _ & _ & _ & Hp & Ht). simpl in *.
  assert (Hok : column_ok c) by (split; [lia|intros H; left; lia|done]).
  unfold col_set_maximized, col_set_fullscreen.
  destruct (tl_pending t); [by apply runs_ret|..]; repeat split_match; try (by apply runs_ret);
    try (exfalso; rewrite ?andb_true_iff, negb_true_iff, orb_false_iff, Nat.eqb_neq in *; lia);
    apply runs_ret; rewrite update_tile_sizes_windows; (split_and!; [|done|done]);
    apply update_tile_sizes_ok; simpl; lia.
Qed.

(** *** The windows of an arrangement *)
Lemma mjoin_insert_at (A : list (list N)) i c :
  mjoin (take i A ++ c :: drop i A) ≡ₚ c ++ mjoin A.
Proof. by rewrite (vec_insert_perm i c A). Qed.

Lemma mjoin_remove_at (A : list (list N)) i c :
  A !! i = Some c → mjoin A ≡ₚ c ++ mjoin (take i A ++ drop (S i) A).
Proof. intros H. by rewrite (vec_remove_perm i c A H) at 1. Qed.

Lemma mjoin_update (A : list (list N)) i c c' :
  A !! i = Some c → c ++ mjoin (<[i:=c']> A) ≡ₚ c' ++ mjoin A.
Proof. intros H. exact (join_Permutation _ _ (insert_perm i c c' A H)). Qed.

Lemma arrangement_lookup s i c :
  s.(sc_columns) !! i = Some c → arrangement s !! i = Some (col_windows c).
Proof. intros H. unfold arrangement. by rewrite list_lookup_fmap, H. Qed.

Lemma arrangement_insert_at l i c :
  col_windows <$> (take i l ++ c :: drop i l) =
  take i (col_windows <$> l) ++ col_windows c :: drop i (col_windows <$> l).
Proof. by rewrite fmap_app, fmap_cons, fmap_take, fmap_drop. Qed.

Lemma arrangement_remove_at l i :
  col_windows <$> (take i l ++ drop (S i) l) =
  take i (col_windows <$> l) ++ drop (S i) (col_windows <$> l).
Proof. by rewrite fmap_app, fmap_take, fmap_drop. Qed.

Lemma arrangement_set_column i c s :
  arrangement (set_column i c s) = <[i:=col_windows c]> (arrangement s).
Proof. unfold arrangement. simpl. apply list_fmap_insert. Qed.

Lemma windows_set_column i c c' s :
  s.(sc_columns) !! i = Some c →
  col_windows c ++ windows (set_column i c' s) ≡ₚ col_windows c' ++ windows s.
Proof.
  intros H. unfold windows. rewrite arrangement_set_column.
  apply mjoin_update. by apply arrangement_lookup.
Qed.

Lemma sc_is_empty_spec s : sc_is_empty s = bool_decide (s.(sc_columns) = []).
Proof. unfold sc_is_empty. by destruct (sc_columns s). Qed.

Lemma sc_nonempty s : scrolling_ok s → sc_is_empty s = false → s.(sc_active) < length s.(sc_columns).
Proof. intros [_ [H|[H _]] _ _]; [done|]. unfold sc_is_empty. by rewrite H. Qed.

Lemma column_lookup_ok s i c : scrolling_ok s → s.(sc_columns) !! i = Some c → column_ok c.
Proof. intros Hs Hi. by apply (Forall_lookup_1 _ _ _ _ (sc_columns_ok s Hs) Hi). Qed.

(** Replacing a column by one with the same windows. *)
Lemma set_column_ok s i c c' :
  scrolling_ok s → s.(sc_columns) !! i = Some c → column_ok c' →
  col_windows c' ≡ₚ col_windows c → scrolling_ok (set_column i c' s).
Proof.
  intros [Hc Ha Hn Hr] Hi Hc' Hw.
  assert (Hp : windows (set_column i c' s) ≡ₚ windows s).
  { apply (Permutation_app_inv_l (col_windows c)).
    rewrite (windows_set_column i c c' s Hi). by rewrite Hw. }
  split; simpl; [by apply Forall_insert| |by rewrite Hp|intros w Hw'; rewrite Hp; auto].
  rewrite length_insert. destruct Ha as [Ha|[Ha Ha']]; [by left|]. by rewrite Ha in Hi.
Qed.

(** *** Primitive operations *)
Lemma activate_column_runs s idx :
  scrolling_ok s → idx < length s.(sc_columns) ∨ idx = s.(sc_active) →
  runs (activate_column s idx) (λ s',
    scrolling_ok s' ∧ s'.(sc_columns) = s.(sc_columns) ∧ s'.(sc_active) = idx ∧
    s'.(sc_options) = s.(sc_options)).
Proof.
  intros Hs Hi. unfold activate_column. destruct (decide (sc_active s = idx)) as [<-|Hne].
  - by apply runs_ret.
  - destruct Hi as [Hi|Hi]; [|by subst idx].
    destruct (lookup_lt_is_Some_2 _ _ Hi) as [c ->]. apply runs_ret. simpl.
    split_and!; [|done..]. destruct Hs. split; simpl; auto; done.
Qed.

(** The space after the insertion of a column, before any activation. *)
Definition with_column (s : ScrollingSpace) (i : nat) (c : Column) : ScrollingSpace :=
  let cols := take i s.(sc_columns) ++ col_update_config s.(sc_options) c :: drop i s.(sc_columns) in
  let s1 := set_sc_columns cols s in
  if negb (sc_is_empty s) && (i <=? s.(sc_active)) then set_sc_active (s.(sc_active) + 1) s1 else s1.

Definition shifted_active (s : ScrollingSpace) (i : nat) : nat :=
  if negb (sc_is_empty s) && (i <=? s.(sc_active)) then s.(sc_active) + 1 else s.(sc_active).

Lemma with_column_fields s i c :
  sc_columns (with_column s i c) =
    take i s.(sc_columns) ++ col_update_config s.(sc_options) c :: drop i s.(sc_columns) ∧
  arrangement (with_column s i c) = take i (arrangement s) ++ col_windows c :: drop i (arrangement s) ∧
  windows (with_column s i c) ≡ₚ col_windows c ++ windows s ∧
  sc_active (with_column s i c) = shifted_active s i ∧
  sc_options (with_column s i c) = s.(sc_options) ∧ sc_resize (with_column s i c) = s.(sc_resize).
Proof.
  assert (Hc : sc_columns (with_column s i c) =
    take i s.(sc_columns) ++ col_update_config s.(sc_options) c :: drop i s.(sc_columns))
    by (unfold with_column; by case_match).
  assert (Ha : arrangement (with_column s i c) =
    take i (arrangement s) ++ col_windows c :: drop i (arrangement s)).
  { unfold arrangement at 1. by rewrite Hc, arrangement_insert_at, col_update_config_windows. }
  split_and!; [done|done| |unfold with_column, shifted_active; by case_match..].
  unfold windows at 1. rewrite Ha. apply mjoin_insert_at.
Qed.

Lemma with_column_ok s i c :
  scrolling_ok s → column_ok c → NoDup (col_windows c ++ windows s) → i ≤ length s.(sc_columns) →
  scrolling_ok (with_column s i c).
Proof.
  intros Hs Hc Hn Hi. destruct (with_column_fields s i c) as (Hcols & _ & Hw & Ha & _ & Hr). split.
  - rewrite Hcols, (vec_insert_perm i). constructor; [by apply col_update_config_ok|apply Hs].
  - left. rewrite Ha, Hcols, length_vec_insert. unfold shifted_active.
    destruct (sc_is_empty s) eqn:E; simpl; [destruct (sc_active_ok s Hs); lia|].
    pose proof (sc_nonempty s Hs E). case_match; lia.
  - by rewrite Hw.
  - intros w. rewrite Hr, Hw, elem_of_app. right. by apply (sc_resize_ok s Hs).
Qed.

(** Where [add_column] puts a column. *)
Definition column_place (s : ScrollingSpace) (idx : option nat) : nat :=
  default (if sc_is_empty s then 0 else s.(sc_active) + 1) idx.

Lemma column_place_le s idx :
  scrolling_ok s → (∀ i, idx = Some i → i ≤ length s.(sc_columns)) →
  column_place s idx ≤ length s.(sc_columns).
Proof.
  intros Hs Hidx. destruct idx as [i|]; simpl; [by apply Hidx|]. unfold column_place. simpl.
  destruct (sc_is_empty s) eqn:E; [lia|]. pose proof (sc_nonempty s Hs E). lia.
Qed.

(** A column is inserted, and activated or not. *)
Lemma add_column_runs s idx c activate :
  scrolling_ok s → column_ok c → NoDup (col_windows c ++ windows s) →
  (∀ i, idx = Some i → i ≤ length s.(sc_columns)) →
  let i := column_place s idx in
  runs (add_column s idx c activate) (λ s',
    scrolling_ok s' ∧ s'.(sc_columns) = sc_columns (with_column s i c) ∧
    arrangement s' = take i (arrangement s) ++ col_windows c :: drop i (arrangement s) ∧
    windows s' ≡ₚ col_windows c ++ windows s ∧
    s'.(sc_active) = (if activate then i else shifted_active s i) ∧
    s'.(sc_options) = s.(sc_options) ∧
    (activate = true → sc_is_empty s = false → i = S s.(sc_active) → s'.(sc_activate_prev) = true)).
Proof.
  intros Hs Hc Hn Hidx i. assert (Hi : i ≤ length s.(sc_columns)) by by apply column_place_le.
  destruct (with_column_fields s i c) as (Hcols & Harr & Hw & Ha & Ho & _).
  pose proof (with_column_ok s i c Hs Hc Hn Hi) as Hok.
  unfold add_column. fold (column_place s idx). fold i. rewrite vec_insert_ok by done. simpl.
  fold (with_column s i c). clearbody i. destruct activate.
  - eapply runs_bind;
      [apply (activate_column_runs _ i Hok); left; rewrite Hcols, length_vec_insert; lia|].
    intros s2 (Hs2 & Hc2 & Ha2 & Ho2). apply runs_ret.
    split; [destruct Hs2; split; simpl; auto; done|]. unfold windows, arrangement in *. simpl.
    rewrite Hc2, Ha2, Ho2, Ha. split_and!; try done.
    intros _ He Hi'. unfold shifted_active. rewrite He, Hi'. cbn [negb andb].
    rewrite (proj2 (Nat.leb_gt _ _)) by lia. apply Nat.eqb_eq. lia.
  - apply runs_ret. by split_and!.
Qed.

(** A new column of one tile. *)
Lemma sc_add_tile_runs s idx t activate w f :
  scrolling_ok s → tl_window t ∉ windows s →
  (∀ i, idx = Some i → i ≤ length s.(sc_columns)) →
  let i := column_place s idx in
  runs (sc_add_tile s idx t activate w f) (λ s',
    scrolling_ok s' ∧
    arrangement s' = take i (arrangement s) ++ [tl_window t] :: drop i (arrangement s) ∧
    windows s' ≡ₚ tl_window t :: windows s ∧
    s'.(sc_active) = (if activate then i else shifted_active s i) ∧
    s'.(sc_options) = s.(sc_options) ∧
    (activate = true → sc_is_empty s = false → i = S s.(sc_active) → s'.(sc_activate_prev) = true) ∧
    ∃ c, sc_columns s' = sc_columns (with_column s i c) ∧ col_windows c = [tl_window t] ∧
      c.(co_active) = 0).
Proof.
  intros Hs Hn Hidx i. unfold sc_add_tile. eapply runs_bind; [apply new_with_tile_runs|].
  intros c (Hc & Hw & Ha). eapply runs_weaken; [apply add_column_runs; auto|].
  - rewrite Hw. constructor; [done|apply Hs].
  - fold i. rewrite Hw. intros s' (? & ? & ? & ? & ? & ? & ?). split_and!; [done..|].
    exists c. done.
Qed.

(** The resize of a window that stays is kept. *)
Lemma stop_resize_ok (p : N → bool) r (l l' : list N) :
  (∀ w, r = Some w → w ∈ l) → (∀ w, w ∈ l → p w = false → w ∈ l') →
  ∀ w, stop_resize p r = Some w → w ∈ l'.
Proof.
  intros Hr Hl w. destruct r as [v|]; simpl; [|done]. destruct (p v) eqn:E; [done|].
  intros [= <-]. auto.
Qed.

Lemma col_contains_spec c w : col_contains c w = true ↔ w ∈ col_windows c.
Proof.
  unfold col_contains, col_windows. rewrite existsb_exists, list_elem_of_fmap.
  setoid_rewrite <-list_elem_of_In. unfold tile_is. setoid_rewrite N.eqb_eq. naive_solver.
Qed.

(** The space without a column, before the activation of another. *)
Lemma without_column_ok s i c a r b :
  scrolling_ok s → s.(sc_columns) !! i = Some c →
  (∀ w, r = Some w → w ∈ mjoin (take i (arrangement s) ++ drop (S i) (arrangement s))) →
  (a < length s.(sc_columns) - 1 ∨ length s.(sc_columns) = 1 ∧ a = 0) →
  scrolling_ok (MkScrolling (take i s.(sc_columns) ++ drop (S i) s.(sc_columns)) a r b s.(sc_options)).
Proof.
  intros Hs Hi Hr Ha.
  pose proof (mjoin_remove_at _ _ _ (arrangement_lookup s i c Hi)) as Hp.
  pose proof (length_vec_remove _ _ _ Hi) as Hl.
  assert (Hw : windows (MkScrolling (take i s.(sc_columns) ++ drop (S i) s.(sc_columns)) a r b
    s.(sc_options)) = mjoin (take i (arrangement s) ++ drop (S i) (arrangement s))).
  { unfold windows, arrangement at 1. simpl. by rewrite arrangement_remove_at. }
  split; simpl.
  - pose proof (sc_columns_ok s Hs) as Hf. rewrite (vec_remove_perm _ _ _ Hi) in Hf.
    by apply Forall_cons in Hf as [_ Hf].
  - destruct Ha as [Ha|[Ha ->]]; [left; lia|]. right. split; [|done].
    apply nil_length_inv. lia.
  - rewrite Hw. pose proof (sc_windows_ok s Hs) as Hn. unfold windows in Hn. rewrite Hp in Hn.
    by apply NoDup_app in Hn as (_ & _ & Hn).
  - rewrite Hw. done.
Qed.

Lemma activate_column_fields s idx :
  idx < length s.(sc_columns) →
  runs (activate_column s idx) (λ s',
    sc_columns s' = sc_columns s ∧ sc_active s' = idx ∧ sc_options s' = sc_options s ∧
    (∀ w, sc_resize s' = Some w → sc_resize s = Some w)).
Proof.
  intros Hi. unfold activate_column. destruct (decide (sc_active s = idx)) as [<-|Hne].
  - apply runs_ret. auto.
  - destruct (lookup_lt_is_Some_2 _ _ Hi) as [c ->]. apply runs_ret. by split_and!.
Qed.

(** The active column after the removal of one. *)
Definition removed_active (s : ScrollingSpace) (i : nat) : nat :=
  if i <? s.(sc_active) then s.(sc_active) - 1
  else if (i =? s.(sc_active)) && s.(sc_activate_prev) then s.(sc_active) - 1
  else Nat.min s.(sc_active) (length s.(sc_columns) - 2).

Lemma scrolling_eta s :
  s = MkScrolling (sc_columns s) (sc_active s) (sc_resize s) (sc_activate_prev s) (sc_options s).
Proof. by destruct s. Qed.

Lemma remove_column_runs s i c :
  scrolling_ok s → s.(sc_columns) !! i = Some c →
  runs (remove_column_by_idx s i) (λ r,
    fst r = c ∧ scrolling_ok (snd r) ∧
    sc_columns (snd r) = take i s.(sc_columns) ++ drop (S i) s.(sc_columns) ∧
    sc_active (snd r) = removed_active s i ∧ sc_options (snd r) = sc_options s).
Proof.
  intros Hs Hi. pose proof (lookup_lt_Some _ _ _ Hi) as Hlt.
  pose proof (length_vec_remove _ _ _ Hi) as Hl.
  assert (Ha : sc_active s < length (sc_columns s)).
  { destruct (sc_active_ok s Hs) as [?|[E _]]; [done|]. by rewrite E in Hi. }
  unfold remove_column_by_idx. rewrite (vec_remove_ok _ _ _ Hi). simpl.
  set (cols := take i (sc_columns s) ++ drop (S i) (sc_columns s)) in *.
  set (rz := stop_resize (col_contains c) (sc_resize s)).
  assert (Hr : ∀ w, rz = Some w →
    w ∈ mjoin (take i (arrangement s) ++ drop (S i) (arrangement s))).
  { apply (stop_resize_ok _ _ (windows s)); [apply Hs|]. intros w Hw Hc.
    pose proof (arrangement_lookup s i c Hi) as Harr. unfold windows in Hw.
    rewrite (mjoin_remove_at _ _ _ Harr), elem_of_app, <-col_contains_spec in Hw.
    destruct Hw as [Hw|Hw]; [congruence|done]. }
  (* any result with these columns, an active column in range and no new resize is fine *)
  assert (Hfin : ∀ s', sc_columns s' = cols → sc_options s' = sc_options s →
    (∀ w, sc_resize s' = Some w → rz = Some w) →
    (sc_active s' < length (sc_columns s) - 1 ∨ length (sc_columns s) = 1 ∧ sc_active s' = 0) →
    scrolling_ok s').
  { intros s' Hc' Ho' Hr' Ha'. rewrite (scrolling_eta s'), Hc', Ho'.
    apply (without_column_ok s i c); auto. }
  unfold removed_active.
  destruct cols as [|c0 l] eqn:Ecols.
  - assert (i = 0 ∧ sc_active s = 0) as [-> Ha0] by (simpl in Hl; lia).
    apply runs_ret. rewrite Ha0 in *. simpl.
    split_and!; [done|apply Hfin; simpl; auto; right; simpl in Hl; lia|done| |done].
    destruct (sc_activate_prev s); simpl; lia.
  - assert (Hpos : 0 < length cols) by (rewrite Ecols; simpl; lia).
    rewrite <-Ecols in *. clear Ecols.
    destruct (i + 1 =? sc_active s) eqn:E1; simpl; (destruct (Nat.ltb_spec i (sc_active s)) as [Hlt'|Hge]; simpl).
    all: try (apply runs_ret; simpl; split_and!; [done|apply Hfin; simpl; auto; left; lia|done..]).
    { apply Nat.eqb_eq in E1. lia. }
    destruct ((i =? sc_active s) && sc_activate_prev s) eqn:E2.
    + apply andb_true_iff in E2 as [E2%Nat.eqb_eq _]. destruct (Nat.ltb_spec 0 i).
      * eapply runs_bind; [apply activate_column_fields; simpl; lia|].
        intros s' (? & ? & ? & ?). apply runs_ret. simpl in *.
        split_and!; [done|apply Hfin; auto; left; lia|done..].
      * apply runs_ret. simpl. split_and!; [done|apply Hfin; simpl; auto; left; lia|done|lia|done].
    + eapply runs_bind; [apply activate_column_fields; simpl; lia|].
      intros s' (? & ? & ? & ?). apply runs_ret. simpl in *.
      split_and!; [done|apply Hfin; auto; left; lia|done|lia|done].
Qed.

(** *** Operations on arrangements, the specification of the structural operations *)
Definition arr_remove_tile (i j : nat) (A : list (list N)) : list (list N) :=
  match A !! i with
  | Some [_] => take i A ++ drop (S i) A
  | Some l => <[i:=take j l ++ drop (S j) l]> A
  | None => A
  end.

Definition arr_add_column (i : nat) (ws : list N) (A : list (list N)) : list (list N) :=
  take i A ++ ws :: drop i A.

Definition arr_add_tile (i j : nat) (w : N) (A : list (list N)) : list (list N) :=
  match A !! i with
  | Some l => <[i:=take j l ++ w :: drop j l]> A
  | None => A
  end.

Lemma arr_add_tile_windows i j w A l :
  A !! i = Some l → mjoin (arr_add_tile i j w A) ≡ₚ w :: mjoin A.
Proof.
  intros H. unfold arr_add_tile. rewrite H.
  apply (Permutation_app_inv_l l). rewrite (mjoin_update A i l _ H).
  rewrite (vec_insert_perm j w l). apply Permutation_middle.
Qed.

Lemma arr_remove_tile_windows i j w A l :
  A !! i = Some l → l !! j = Some w → mjoin A ≡ₚ w :: mjoin (arr_remove_tile i j A).
Proof.
  intros Hi Hj. unfold arr_remove_tile. rewrite Hi. pose proof (mjoin_remove_at A i l Hi) as Hr.
  assert (Hu : l ++ mjoin (<[i:=take j l ++ drop (S j) l]> A) ≡ₚ
    (take j l ++ drop (S j) l) ++ mjoin A) by by apply mjoin_update.
  assert (Hl : l ≡ₚ w :: (take j l ++ drop (S j) l)) by by apply vec_remove_perm.
  destruct l as [|x [|y l]]; [done| |].
  - destruct j; [|done]. injection Hj as ->. done.
  - apply (Permutation_app_inv_l (take j (x :: y :: l) ++ drop (S j) (x :: y :: l))).
    rewrite <-Hu. rewrite Hl at 1. apply Permutation_middle.
Qed.

(** The column that a tile leaves. *)
Lemma removed_tile_column_ok c j t :
  column_ok c → c.(co_tiles) !! j = Some t → length c.(co_tiles) ≠ 1 →
  let tiles := take j c.(co_tiles) ++ drop (S j) c.(co_tiles) in
  let c1 := set_co_tiles tiles c in
  runs (if j <? c1.(co_active) then Some (set_co_active (c1.(co_active) - 1) c1)
        else if (j =? c1.(co_active)) && (j =? length tiles)
        then fst <$> activate_idx c1 (j - 1)
        else Some c1) (λ c',
    column_ok (update_tile_sizes c') ∧
    col_windows (update_tile_sizes c') = take j (col_windows c) ++ drop (S j) (col_windows c) ∧
    c'.(co_display) = c.(co_display)).
Proof.
  intros [Ha Hs Hp] Hj Hne tiles c1. pose proof (lookup_lt_Some _ _ _ Hj) as Hlt.
  assert (Hl : S (length tiles) = length (co_tiles c)) by by apply (length_vec_remove _ t).
  assert (Hw : tl_window <$> tiles = take j (col_windows c) ++ drop (S j) (col_windows c))
    by (unfold tiles, col_windows; by rewrite fmap_app, fmap_take, fmap_drop).
  assert (Hfin : ∀ a, a < length tiles →
    column_ok (update_tile_sizes (set_co_active a c1)) ∧
    col_windows (update_tile_sizes (set_co_active a c1)) =
      take j (col_windows c) ++ drop (S j) (col_windows c) ∧
    co_display (set_co_active a c1) = co_display c).
  { intros a Hlta. split_and!; [|by rewrite update_tile_sizes_windows|done].
    apply update_tile_sizes_ok; [done|]. intros H. destruct (Hs H) as [?|?]; [done|by right]. }
  clearbody tiles. change (co_active c1) with (co_active c).
  destruct (Nat.ltb_spec j (co_active c)).
  - apply runs_ret, Hfin. lia.
  - destruct (Nat.eqb_spec j (co_active c)), (Nat.eqb_spec j (length tiles)); simpl.
    1: { eapply runs_fmap; [apply activate_idx_runs; simpl; lia|]. intros r ->. apply Hfin. lia. }
    all: apply runs_ret; rewrite <-(set_co_active_id c1); apply Hfin; simpl; lia.
Qed.

Lemma col_windows_lookup c j t :
  c.(co_tiles) !! j = Some t → col_windows c !! j = Some (tl_window t).
Proof. intros H. unfold col_windows. by rewrite list_lookup_fmap, H. Qed.

Lemma arr_remove_tile_single s i j c :
  s.(sc_columns) !! i = Some c → length c.(co_tiles) = 1 →
  arr_remove_tile i j (arrangement s) = take i (arrangement s) ++ drop (S i) (arrangement s).
Proof.
  intros Hi Hl. unfold arr_remove_tile. rewrite (arrangement_lookup s i c Hi).
  rewrite <-col_windows_length in Hl. by destruct (col_windows c) as [|? [|??]].
Qed.

Lemma arr_remove_tile_many s i j c :
  s.(sc_columns) !! i = Some c → length c.(co_tiles) ≠ 1 →
  arr_remove_tile i j (arrangement s) =
  <[i:=take j (col_windows c) ++ drop (S j) (col_windows c)]> (arrangement s).
Proof.
  intros Hi Hl. unfold arr_remove_tile. rewrite (arrangement_lookup s i c Hi).
  rewrite <-col_windows_length in Hl. by destruct (col_windows c) as [|? [|??]].
Qed.

Lemma remove_tile_runs s i j c t :
  scrolling_ok s → s.(sc_columns) !! i = Some c → c.(co_tiles) !! j = Some t →
  runs (remove_tile_by_idx s i j) (λ r,
    rt_tile (fst r) = t ∧ rt_floating (fst r) = false ∧ scrolling_ok (snd r) ∧
    windows s ≡ₚ tl_window t :: windows (snd r) ∧
    arrangement (snd r) = arr_remove_tile i j (arrangement s) ∧
    sc_active (snd r) = (if length c.(co_tiles) =? 1 then removed_active s i else s.(sc_active)) ∧
    sc_options (snd r) = sc_options s).
Proof.
  intros Hs Hi Hj. pose proof (column_lookup_ok s i c Hs Hi) as Hc.
  pose proof (arr_remove_tile_windows i j (tl_window t) (arrangement s) _
    (arrangement_lookup s i c Hi) (col_windows_lookup c j t Hj)) as Hp.
  unfold remove_tile_by_idx. rewrite Hi. simpl.
  destruct (Nat.eqb_spec (length (co_tiles c)) 1) as [Hl|Hl].
  - eapply runs_bind; [exact (remove_column_runs s i c Hs Hi)|].
    intros [c' s'] (Hfst & Hs' & Hc' & Ha & Ho). simpl in *. subst c'.
    rewrite (vec_remove_ok _ _ _ Hj).
    apply runs_ret. simpl. unfold windows.
    assert (Harr : arrangement s' = arr_remove_tile i j (arrangement s)).
    { rewrite (arr_remove_tile_single s i j c Hi Hl). unfold arrangement at 1.
      by rewrite Hc', arrangement_remove_at. }
    rewrite Harr. by split_and!.
  - rewrite (vec_remove_ok _ _ _ Hj). simpl.
    eapply runs_bind; [exact (removed_tile_column_ok c j t Hc Hj Hl)|].
    intros c' (Hok & Hw & _). apply runs_ret. simpl.
    set (s' := set_column _ _ _).
    assert (Harr : arrangement s' = arr_remove_tile i j (arrangement s)).
    { rewrite (arr_remove_tile_many s i j c Hi Hl). unfold s'. rewrite arrangement_set_column.
      by rewrite Hw. }
    assert (Hwin : windows s' = mjoin (arr_remove_tile i j (arrangement s)))
      by (unfold windows; by rewrite Harr).
    rewrite Hwin. split_and!; [done|done| |done|done|done|done].
    pose proof (sc_windows_ok s Hs) as Hnd. unfold windows in Hnd. rewrite Hp in Hnd.
    apply NoDup_cons in Hnd as [_ Hnd]. split.
    + apply Forall_insert; [apply Hs|done].
    + left. simpl. rewrite length_insert. destruct (sc_active_ok s Hs) as [?|[E _]]; [done|].
      by rewrite E in Hi.
    + by rewrite Hwin.
    + rewrite Hwin. apply (stop_resize_ok _ _ (windows s)); [apply Hs|]. intros w Hin Hne.
      unfold windows in Hin. rewrite Hp in Hin. apply elem_of_cons in Hin as [->|Hin]; [|done].
      by rewrite N.eqb_refl in Hne.
Qed.

(** Putting a column with one more window in place. *)
Lemma set_column_more_ok s i c c' w :
  scrolling_ok s → s.(sc_columns) !! i = Some c → column_ok c' →
  col_windows c' ≡ₚ w :: col_windows c → w ∉ windows s →
  windows (set_column i c' s) ≡ₚ w :: windows s ∧ scrolling_ok (set_column i c' s).
Proof.
  intros [Hc Ha Hn Hr] Hi Hc' Hw Hf.
  assert (Hp : windows (set_column i c' s) ≡ₚ w :: windows s).
  { apply (Permutation_app_inv_l (col_windows c)). rewrite (windows_set_column i c c' s Hi), Hw.
    simpl. apply Permutation_middle. }
  split; [done|]. split; simpl; [by apply Forall_insert| | |].
  - rewrite length_insert. destruct Ha as [Ha|[Ha Ha']]; [by left|]. by rewrite Ha in Hi.
  - rewrite Hp. by constructor.
  - intros v Hv. rewrite Hp. constructor. by apply Hr.
Qed.

Lemma add_tile_to_column_runs s i tile_idx t activate c :
  scrolling_ok s → s.(sc_columns) !! i = Some c →
  let j := default (length c.(co_tiles)) tile_idx in
  j ≤ length c.(co_tiles) → tl_window t ∉ windows s →
  runs (add_tile_to_column s i tile_idx t activate) (λ s',
    scrolling_ok s' ∧ windows s' ≡ₚ tl_window t :: windows s ∧
    arrangement s' = arr_add_tile i j (tl_window t) (arrangement s) ∧
    sc_active s' = (if activate then i else s.(sc_active)) ∧ sc_options s' = sc_options s).
Proof.
  intros Hs Hi j Hj Hf. pose proof (column_lookup_ok s i c Hs Hi) as [Hac _ _].
  pose proof (lookup_lt_Some _ _ _ Hi) as Hilt.
  unfold add_tile_to_column. rewrite Hi. simpl. fold j.
  eapply runs_bind; [by apply add_tile_at_runs|].
  intros c1 (Hw1 & Hl1 & Ha1 & Hd1 & _ & _ & _ & Hp1 & Ht1).
  (* the column with any active tile in range *)
  assert (Hset : ∀ a, a < length c1.(co_tiles) →
    scrolling_ok (set_column i (set_co_active a c1) s) ∧
    windows (set_column i (set_co_active a c1) s) ≡ₚ tl_window t :: windows s ∧
    arrangement (set_column i (set_co_active a c1) s) =
      arr_add_tile i j (tl_window t) (arrangement s)).
  { intros a Hlt. destruct (set_column_more_ok s i c (set_co_active a c1) (tl_window t)) as [??];
      [done|done|split; simpl; auto|by rewrite <-(vec_insert_perm j), <-Hw1|done|].
    split_and!; [done|done|]. rewrite arrangement_set_column. unfold arr_add_tile.
    rewrite (arrangement_lookup s i c Hi). by rewrite <-Hw1. }
  (* the last lookups *)
  assert (Hlast : ∀ (s' : ScrollingSpace) a p, p < length c1.(co_tiles) →
    (target ← <[i:=set_co_active a c1]> (sc_columns s) !! i;
     _ ← fading_tile target p j; Some s') = Some s').
  { intros s' a p Hp. rewrite list_lookup_insert_eq by done. simpl.
    unfold fading_tile. simpl. destruct (decide _); [|done].
    destruct (lookup_lt_is_Some_2 (co_tiles c1) (if a =? j then p else j)) as [? ->]; [|done].
    case_match; lia. }
  set (a := if j <=? co_active c then co_active c + 1 else co_active c).
  assert (Ha : a < length (co_tiles c1)) by (unfold a; case_match; lia).
  assert (Heq : (if j <=? co_active c then set_co_active (co_active c1 + 1) c1 else c1) =
    set_co_active a c1).
  { unfold a. rewrite Ha1. case_match; [done|]. by rewrite <-Ha1, set_co_active_id. }
  rewrite Heq. clear Heq. fold a. clearbody a. destruct activate.
  - destruct (activate_idx_runs (set_co_active a c1) j) as ([c2 b] & -> & Hc2); [simpl; lia|].
    simpl in Hc2. subst c2. simpl.
    change (set_co_active j (set_co_active a c1)) with (set_co_active j c1).
    destruct (Hset j) as (Hok & Hw & Harr); [lia|].
    destruct (decide (sc_active s = i)) as [E|E]; simpl.
    + rewrite Hlast by done. apply runs_ret. by split_and!.
    + eapply runs_bind; [apply (activate_column_runs _ i Hok); left; simpl; by rewrite length_insert|].
      intros s' (Hok' & Hc' & Ha' & Ho'). rewrite Hc'. simpl. rewrite Hlast by done. apply runs_ret.
      unfold windows, arrangement in *. rewrite Hc'. by split_and!.
  - destruct (Hset a) as (Hok & Hw & Harr); [done|]. simpl.
    rewrite Hlast by done. apply runs_ret. by split_and!.
Qed.
