(* ===== verification/LayoutScrollingOps.v ===== *)
(** * Operations of the scrolling layout never panic and keep its invariant

    The compound operations of [LayoutScrolling] in terms of its primitive ones, and the theorems
    about all of them. *)
From S2P Require Import Prelude LayoutScrolling.

(** The space after an operation that neither adds nor removes windows. *)
Definition keeps (s s' : ScrollingSpace) : Prop :=
  scrolling_ok s' ∧ windows s' ≡ₚ windows s ∧ s'.(sc_options) = s.(sc_options).

Lemma keeps_refl s : scrolling_ok s → keeps s s.
Proof. intros ?. unfold keeps. by split_and!. Qed.

Lemma keeps_trans s1 s2 s3 : keeps s1 s2 → keeps s2 s3 → keeps s1 s3.
Proof. intros (?&H1&?) (?&H2&?). unfold keeps. split_and!; [done|by rewrite H2, H1|congruence]. Qed.

Lemma windows_columns s s' : s'.(sc_columns) = s.(sc_columns) → windows s' = windows s.
Proof. intros H. unfold windows, arrangement. by rewrite H. Qed.

(** ** Focus *)
Lemma activate_column_keeps s idx :
  scrolling_ok s → idx < length s.(sc_columns) ∨ idx = s.(sc_active) →
  runs (activate_column s idx) (keeps s).
Proof.
  intros Hs Hi. eapply runs_weaken; [by apply activate_column_runs|].
  intros s' (? & Hc & _ & ?). unfold keeps. split_and!; [done|by rewrite (windows_columns s s' Hc)|done].
Qed.

Lemma focus_left_runs s : scrolling_ok s → runs (focus_left s) (λ r, keeps s (fst r)).
Proof.
  intros Hs. unfold focus_left. destruct (Nat.eqb_spec (sc_active s) 0).
  - by apply runs_ret, keeps_refl.
  - eapply runs_bind; [apply (activate_column_keeps s _ Hs)|].
    + left. destruct (sc_active_ok s Hs); lia.
    + intros s' ?. by apply runs_ret.
Qed.

Lemma focus_right_runs s : scrolling_ok s → runs (focus_right s) (λ r, keeps s (fst r)).
Proof.
  intros Hs. unfold focus_right. destruct (Nat.leb_spec (length (sc_columns s)) (sc_active s + 1)).
  - by apply runs_ret, keeps_refl.
  - eapply runs_bind; [apply (activate_column_keeps s _ Hs); left; lia|].
    intros s' ?. by apply runs_ret.
Qed.

(** An operation on one column that keeps its windows. *)
Definition col_keeps (c c' : Column) : Prop := column_ok c' ∧ col_windows c' ≡ₚ col_windows c.

Lemma on_active_column_runs {B} (f : Column → option (Column * B)) none s :
  scrolling_ok s → (∀ c, column_ok c → runs (f c) (λ r, col_keeps c (fst r))) →
  runs (on_active_column f none s) (λ r, keeps s (fst r)).
Proof.
  intros Hs Hf. unfold on_active_column. destruct (sc_is_empty s) eqn:E.
  - by apply runs_ret, keeps_refl.
  - destruct (lookup_lt_is_Some_2 _ _ (sc_nonempty s Hs E)) as [c Hc]. rewrite Hc. simpl.
    eapply runs_bind; [exact (Hf c (column_lookup_ok s _ c Hs Hc))|].
    intros [c' b] [Hok Hw]. apply runs_ret. simpl in *. unfold keeps.
    split_and!; [by eapply set_column_ok| |done].
    apply (Permutation_app_inv_l (col_windows c)).
    by rewrite (windows_set_column _ c c' s Hc), Hw.
Qed.

Lemma with_unit_runs (f : Column → option Column) c :
  runs (f c) (col_keeps c) → runs (with_unit f c) (λ r, col_keeps c (fst r)).
Proof. intros H. eapply runs_bind; [exact H|]. intros c' ?. by apply runs_ret. Qed.

Lemma activate_idx_keeps c idx :
  column_ok c → idx < length c.(co_tiles) → runs (activate_idx c idx) (λ r, col_keeps c (fst r)).
Proof.
  intros Hc Hi. eapply runs_weaken; [by apply activate_idx_runs|].
  intros r ->. split; [by apply set_co_active_ok|done].
Qed.

Lemma last_idx_ok c : column_ok c → last_idx c.(co_tiles) = Some (length c.(co_tiles) - 1).
Proof. intros [Ha _ _]. destruct (co_tiles c); simpl in *; [lia|done]. Qed.

(** Every focus operation of a column activates a tile in range. *)
Ltac column_focus :=
  match goal with
  | Hc : column_ok ?c |- _ =>
      unfold col_focus_index, col_focus_up, col_focus_down, col_focus_top, col_focus_bottom;
      rewrite ?(last_idx_ok c Hc); simpl;
      pose proof (co_active_ok c Hc)
  end.

Lemma col_focus_index_runs c i : column_ok c → runs (col_focus_index c i) (col_keeps c).
Proof.
  intros Hc. column_focus. eapply runs_fmap; [apply (activate_idx_keeps c _ Hc); lia|done].
Qed.
Lemma col_focus_up_runs c : column_ok c → runs (col_focus_up c) (λ r, col_keeps c (fst r)).
Proof. intros Hc. column_focus. apply (activate_idx_keeps c _ Hc). lia. Qed.
Lemma col_focus_down_runs c : column_ok c → runs (col_focus_down c) (λ r, col_keeps c (fst r)).
Proof. intros Hc. column_focus. apply (activate_idx_keeps c _ Hc). lia. Qed.
Lemma col_focus_top_runs c : column_ok c → runs (col_focus_top c) (col_keeps c).
Proof.
  intros Hc. column_focus. eapply runs_fmap; [apply (activate_idx_keeps c _ Hc); lia|done].
Qed.
Lemma col_focus_bottom_runs c : column_ok c → runs (col_focus_bottom c) (col_keeps c).
Proof.
  intros Hc. column_focus. eapply runs_fmap; [apply (activate_idx_keeps c _ Hc); lia|done].
Qed.

(** Swapping two tiles of a column. *)
Lemma swapped_column_keeps c i j tiles :
  column_ok c → vec_swap i j c.(co_tiles) = Some tiles → j < length c.(co_tiles) →
  col_keeps c (set_co_active j (set_co_tiles tiles c)).
Proof.
  intros [Ha Hs Hp] Hsw Hj. unfold vec_swap in Hsw.
  destruct (co_tiles c !! i) as [x|] eqn:Hi; [|done].
  destruct (co_tiles c !! j) as [y|] eqn:Hj'; [|done]. injection Hsw as <-.
  pose proof (vec_swap_perm i j x y _ Hi Hj') as Hperm.
  split; [split; simpl|].
  - by rewrite Hperm.
  - intros H. rewrite Hperm. by apply Hs.
  - by rewrite Hperm.
  - unfold col_windows. simpl. by rewrite Hperm.
Qed.

Lemma col_move_runs c new_idx :
  column_ok c → new_idx < length c.(co_tiles) →
  runs (if decide (c.(co_active) = new_idx) then Some (c, false)
        else tiles ← vec_swap c.(co_active) new_idx c.(co_tiles);
             Some (set_co_active new_idx (set_co_tiles tiles c), true)) (λ r, col_keeps c (fst r)).
Proof.
  intros Hc Hn. destruct (decide _); [apply runs_ret; by split|].
  destruct (lookup_lt_is_Some_2 _ _ (co_active_ok c Hc)) as [x Hx].
  destruct (lookup_lt_is_Some_2 _ _ Hn) as [y Hy].
  pose proof (vec_swap_ok _ _ _ _ _ Hx Hy) as Hsw. rewrite Hsw. apply runs_ret.
  by apply (swapped_column_keeps c (co_active c)).
Qed.

Lemma col_move_up_runs c : column_ok c → runs (col_move_up c) (λ r, col_keeps c (fst r)).
Proof. intros Hc. apply (col_move_runs c _ Hc). pose proof (co_active_ok c Hc). lia. Qed.

Lemma col_move_down_runs c : column_ok c → runs (col_move_down c) (λ r, col_keeps c (fst r)).
Proof.
  intros Hc. unfold col_move_down. rewrite (last_idx_ok c Hc). simpl. apply (col_move_runs c _ Hc).
  pose proof (co_active_ok c Hc). lia.
Qed.

Lemma focus_or_runs f g s :
  scrolling_ok s →
  runs (f s) (λ r, keeps s (fst r)) → (∀ s, scrolling_ok s → runs (g s) (λ r, keeps s (fst r))) →
  runs (focus_or f g s) (keeps s).
Proof.
  intros Hs Hf Hg. unfold focus_or. destruct (sc_is_empty s); [by apply runs_ret, keeps_refl|].
  eapply runs_bind; [exact Hf|]. intros [s' b] Hk. simpl in Hk. destruct b; [by apply runs_ret|].
  eapply runs_fmap; [apply Hg, Hk|]. intros r Hr. by eapply keeps_trans.
Qed.

(** ** Moving columns *)
Definition arr_move (i j : nat) (A : list (list N)) : list (list N) :=
  match A !! i with
  | Some l => let A' := take i A ++ drop (S i) A in take j A' ++ l :: drop j A'
  | None => A
  end.

Lemma move_column_to_runs s new_idx :
  scrolling_ok s → new_idx < length s.(sc_columns) ∨ new_idx = s.(sc_active) →
  runs (move_column_to s new_idx) (λ s',
    keeps s s' ∧ s'.(sc_active) = new_idx ∧
    arrangement s' = arr_move s.(sc_active) new_idx (arrangement s) ∨
    s' = s ∧ s.(sc_active) = new_idx).
Proof.
  intros Hs Hn. unfold move_column_to.
  destruct (decide (sc_active s = new_idx)) as [E|E]; [apply runs_ret; auto|].
  destruct Hn as [Hn|?]; [|by subst].
  assert (Ha : sc_active s < length (sc_columns s)).
  { destruct (sc_active_ok s Hs) as [?|[H _]]; [done|]. by rewrite H in Hn; simpl in Hn; lia. }
  destruct (lookup_lt_is_Some_2 _ _ Ha) as [c Hc]. rewrite (vec_remove_ok _ _ _ Hc). simpl.
  pose proof (length_vec_remove _ _ _ Hc) as Hl.
  rewrite vec_insert_ok by lia. simpl.
  set (cols := take new_idx _ ++ c :: _).
  assert (Hperm : cols ≡ₚ sc_columns s).
  { unfold cols. rewrite (vec_insert_perm new_idx). by rewrite <-(vec_remove_perm _ _ _ Hc). }
  unfold activate_column. simpl. rewrite decide_False by done.
  destruct (lookup_lt_is_Some_2 cols new_idx) as [c' ->]; [by rewrite Hperm|]. simpl.
  apply runs_ret. left. unfold keeps. split; [|split; [done|]].
  - assert (Hw : mjoin (col_windows <$> cols) ≡ₚ windows s)
      by (unfold windows, arrangement; by rewrite Hperm).
    split; [|done]. split; simpl; [by rewrite Hperm; apply Hs| | |done].
    + left. by rewrite Hperm.
    + unfold windows, arrangement. simpl. rewrite Hw. apply Hs.
  - unfold arr_move. rewrite (arrangement_lookup s _ c Hc). unfold arrangement. simpl.
    unfold cols. by rewrite arrangement_insert_at, arrangement_remove_at.
Qed.

Lemma move_column_to_keeps s new_idx :
  scrolling_ok s → new_idx < length s.(sc_columns) ∨ new_idx = s.(sc_active) →
  runs (move_column_to s new_idx) (keeps s).
Proof.
  intros Hs Hn. eapply runs_weaken; [by apply move_column_to_runs|].
  intros s' [(? & _)|[-> _]]; [done|by apply keeps_refl].
Qed.

(** ** Finding windows *)
Lemma position_col_runs s w :
  w ∈ windows s →
  runs (position_col s w) (λ i, ∃ c j t, s.(sc_columns) !! i = Some c ∧
    col_position c w = Some j ∧ c.(co_tiles) !! j = Some t ∧ tl_window t = w).
Proof.
  unfold windows. rewrite list_elem_of_join. intros (l & Hw & Hl).
  unfold arrangement in Hl. apply list_elem_of_fmap in Hl as (c & -> & Hc).
  destruct (vec_position_is_Some (λ c, col_contains c w) (sc_columns s) c) as [i Hi];
    [done|by apply col_contains_spec|].
  exists i. split; [exact Hi|]. apply vec_position_Some in Hi as (c' & Hi & Hw').
  apply col_contains_spec in Hw'. unfold col_windows in Hw'.
  apply list_elem_of_fmap in Hw' as (t & -> & Ht).
  destruct (vec_position_is_Some (tile_is (tl_window t)) (co_tiles c') t) as [j Hj];
    [done|by unfold tile_is; rewrite N.eqb_refl|].
  destruct (vec_position_Some _ _ _ Hj) as (t' & Hj' & Heq). apply N.eqb_eq in Heq.
  by exists c', j, t'.
Qed.

Lemma position_col_None s w : position_col s w = None → w ∉ windows s.
Proof. intros Hn (i & Hi & _)%position_col_runs. congruence. Qed.

(** The tile an operation on a window, or on the active one, takes. *)
Definition is_source (s : ScrollingSpace) (window : option N) (src : nat * nat) : Prop :=
  ∃ c t, s.(sc_columns) !! fst src = Some c ∧ c.(co_tiles) !! snd src = Some t ∧
    match window with
    | Some w => tl_window t = w
    | None => fst src = s.(sc_active) ∧ snd src = c.(co_active)
    end.

Lemma source_tile_runs s window :
  scrolling_ok s → sc_is_empty s = false → (∀ w, window = Some w → w ∈ windows s) →
  runs (source_tile s window) (is_source s window).
Proof.
  intros Hs He Hw. unfold source_tile. destruct window as [w|].
  - eapply runs_bind; [by apply position_col_runs, Hw|].
    intros i (c & j & t & Hi & Hp & Hj & Ht). rewrite Hi. simpl. rewrite Hp. apply runs_ret.
    by exists c, t.
  - destruct (lookup_lt_is_Some_2 _ _ (sc_nonempty s Hs He)) as [c Hc]. rewrite Hc.
    destruct (lookup_lt_is_Some_2 _ _ (co_active_ok c (column_lookup_ok s _ c Hs Hc))) as [t Ht].
    apply runs_ret. by exists c, t.
Qed.

Lemma set_sc_activate_prev_ok b s : scrolling_ok s → scrolling_ok (set_sc_activate_prev b s).
Proof. intros []. by split. Qed.

Lemma removed_fresh s s' w : scrolling_ok s → windows s ≡ₚ w :: windows s' → w ∉ windows s'.
Proof. intros Hs Hp. pose proof (sc_windows_ok s Hs) as H. rewrite Hp in H. by apply NoDup_cons in H as []. Qed.

Lemma arrangement_length s : length (arrangement s) = length s.(sc_columns).
Proof. apply length_fmap. Qed.

(** ** Consuming and expelling *)

(** A tile that is alone in its column joins another column. *)
Lemma consume_single_runs s i k c t activate :
  scrolling_ok s → s.(sc_columns) !! i = Some c → c.(co_tiles) !! 0 = Some t →
  length c.(co_tiles) = 1 → k < length s.(sc_columns) - 1 →
  runs (r ← remove_tile_by_idx s i 0; add_tile_to_column (snd r) k None (rt_tile (fst r)) activate)
    (λ s', keeps s s' ∧
      ∃ l, arr_remove_tile i 0 (arrangement s) !! k = Some l ∧
      arrangement s' = arr_add_tile k (length l) (tl_window t) (arr_remove_tile i 0 (arrangement s)) ∧
      sc_active s' = if activate then k else removed_active s i).
Proof.
  intros Hs Hi Hj Hl Hk. eapply runs_bind; [exact (remove_tile_runs s i 0 c t Hs Hi Hj)|].
  intros [r s1] (Hrt & _ & Hs1 & Hw1 & Harr & Ha & Ho). simpl in *.
  rewrite (proj2 (Nat.eqb_eq _ _) Hl) in Ha.
  assert (Hlen : length (sc_columns s1) = length (sc_columns s) - 1).
  { rewrite <-(arrangement_length s1), Harr, (arr_remove_tile_single s i 0 c Hi Hl).
    pose proof (length_vec_remove i _ _ (arrangement_lookup s i c Hi)) as HL.
    rewrite arrangement_length in HL. lia. }
  destruct (lookup_lt_is_Some_2 (sc_columns s1) k) as [c1 Hc1]; [lia|].
  eapply runs_weaken; [apply (add_tile_to_column_runs s1 k None _ activate c1 Hs1 Hc1)|].
  - done.
  - rewrite Hrt. by apply (removed_fresh s).
  - rewrite Hrt. intros s2 (Hs2 & Hw2 & Harr2 & Ha2 & Ho2). unfold keeps.
    split; [split_and!; [done|by rewrite Hw2, Hw1|congruence]|].
    exists (col_windows c1). rewrite <-Harr. split; [by apply arrangement_lookup|].
    rewrite Harr2, Ha2, Ha. by rewrite col_windows_length.
Qed.

(** A tile leaves a column of several for one of its own. *)
Lemma expel_runs s i j k c t activate :
  scrolling_ok s → s.(sc_columns) !! i = Some c → c.(co_tiles) !! j = Some t →
  length c.(co_tiles) ≠ 1 → k ≤ length s.(sc_columns) →
  runs (r ← remove_tile_by_idx s i j;
        sc_add_tile (snd r) (Some k) (rt_tile (fst r)) activate (rt_width (fst r))
          (rt_full_width (fst r)))
    (λ s', keeps s s' ∧
      arrangement s' = arr_add_column k [tl_window t] (arr_remove_tile i j (arrangement s)) ∧
      sc_active s' = (if activate then k
                      else if k <=? s.(sc_active) then s.(sc_active) + 1 else s.(sc_active))).
Proof.
  intros Hs Hi Hj Hl Hk. eapply runs_bind; [exact (remove_tile_runs s i j c t Hs Hi Hj)|].
  intros [r s1] (Hrt & _ & Hs1 & Hw1 & Harr & Ha & Ho). simpl in *.
  rewrite (proj2 (Nat.eqb_neq _ _) Hl) in Ha.
  assert (Hlen : length (sc_columns s1) = length (sc_columns s)).
  { by rewrite <-(arrangement_length s1), Harr, (arr_remove_tile_many s i j c Hi Hl), length_insert,
      arrangement_length. }
  eapply runs_weaken; [apply (sc_add_tile_runs s1 (Some k) (rt_tile r) activate _ _ Hs1)|].
  - rewrite Hrt. by apply (removed_fresh s).
  - intros ? [= <-]. lia.
  - rewrite Hrt. intros s2 (Hs2 & Harr2 & Hw2 & Ha2 & Ho2 & _). unfold keeps.
    split; [split_and!; [done|by rewrite Hw2, Hw1|congruence]|].
    split; [by rewrite Harr2, Harr|]. rewrite Ha2. unfold shifted_active. simpl. rewrite Ha.
    assert (sc_is_empty s1 = false) as ->; [|done].
    rewrite sc_is_empty_spec. apply bool_decide_eq_false. intros E. rewrite E in Hlen.
    pose proof (lookup_lt_Some _ _ _ Hi). simpl in Hlen. lia.
Qed.

Lemma keeps_activate_prev b s s' : keeps s s' → keeps s (set_sc_activate_prev b s').
Proof. intros (Hs & Hw & Ho). unfold keeps. split_and!; [by apply set_sc_activate_prev_ok|done|done]. Qed.

Lemma single_tile c j t : c.(co_tiles) !! j = Some t → length c.(co_tiles) = 1 → c.(co_tiles) !! 0 = Some t.
Proof. intros Hj Hl. pose proof (lookup_lt_Some _ _ _ Hj). by replace j with 0 in Hj by lia. Qed.

(** What consuming or expelling to the left does: a tile alone in its column joins the column
    on its left, at the bottom; one of several becomes the column on the left. *)
Lemma consume_or_expel_window_left_runs s window :
  scrolling_ok s → (∀ w, window = Some w → w ∈ windows s) →
  runs (consume_or_expel_window_left s window) (keeps s).
Proof.
  intros Hs Hw. unfold consume_or_expel_window_left.
  destruct (sc_is_empty s) eqn:E; [by apply runs_ret, keeps_refl|].
  eapply runs_bind; [by apply source_tile_runs|]. intros [i j] (c & t & Hi & Hj & _). simpl in *.
  rewrite Hi. simpl. set (act := (_ && _)). pose proof (lookup_lt_Some _ _ _ Hi).
  destruct (Nat.eqb_spec (length (co_tiles c)) 1) as [Hl|Hl].
  - destruct (Nat.eqb_spec i 0); [by apply runs_ret, keeps_refl|].
    set (s0 := if act then _ else _).
    assert (Hs0 : scrolling_ok s0 ∧ sc_columns s0 = sc_columns s ∧ sc_options s0 = sc_options s)
      by (unfold s0; destruct act; split_and!; auto using set_sc_activate_prev_ok).
    destruct Hs0 as (Hs0 & Hc0 & Ho0). rewrite <-Hc0 in Hi.
    eapply runs_weaken; [apply (consume_single_runs s0 i (i - 1) c t act Hs0 Hi)|];
      [by eapply single_tile|done|rewrite Hc0; lia|].
    intros s' [(? & Hw' & ?) _]. unfold keeps.
    split_and!; [done|by rewrite Hw', (windows_columns s s0 Hc0)|congruence].
  - pose proof (expel_runs s i j i c t act Hs Hi Hj Hl ltac:(lia)) as (s' & He & Hk & _).
    destruct (remove_tile_by_idx s i j) as [[r s1]|]; [|done]. simpl in *. rewrite He. simpl.
    apply runs_ret. destruct act; [by apply keeps_activate_prev|done].
Qed.

Lemma consume_or_expel_window_right_runs s window :
  scrolling_ok s → (∀ w, window = Some w → w ∈ windows s) →
  runs (consume_or_expel_window_right s window) (keeps s).
Proof.
  intros Hs Hw. unfold consume_or_expel_window_right.
  destruct (sc_is_empty s) eqn:E; [by apply runs_ret, keeps_refl|].
  eapply runs_bind; [by apply source_tile_runs|]. intros [i j] (c & t & Hi & Hj & _). simpl in *.
  rewrite Hi. simpl. set (act := (_ && _)). pose proof (lookup_lt_Some _ _ _ Hi).
  destruct (Nat.eqb_spec (length (co_tiles c)) 1) as [Hl|Hl].
  - destruct (Nat.eqb_spec (i + 1) (length (sc_columns s))); [by apply runs_ret, keeps_refl|].
    set (s0 := if act then _ else _).
    assert (Hs0 : scrolling_ok s0 ∧ sc_columns s0 = sc_columns s ∧ sc_options s0 = sc_options s)
      by (unfold s0; destruct act; split_and!; auto using set_sc_activate_prev_ok).
    destruct Hs0 as (Hs0 & Hc0 & Ho0). rewrite <-Hc0 in Hi.
    eapply runs_weaken; [apply (consume_single_runs s0 i i c t act Hs0 Hi)|];
      [by eapply single_tile|done|rewrite Hc0; lia|].
    intros s' [(? & Hw' & ?) _]. unfold keeps.
    split_and!; [done|by rewrite Hw', (windows_columns s s0 Hc0)|congruence].
  - pose proof (expel_runs s i j (i + 1) c t act Hs Hi Hj Hl ltac:(lia)) as (s' & He & Hk & _).
    destruct (remove_tile_by_idx s i j) as [[r s1]|]; [|done]. simpl in *. by exists s'.
Qed.

(** A window of a column of several moves to the column of its own on the right. *)
Lemma expel_right_runs s i j c t :
  scrolling_ok s → position_col s (tl_window t) = Some i → s.(sc_columns) !! i = Some c →
  col_position c (tl_window t) = Some j → c.(co_tiles) !! j = Some t → length c.(co_tiles) ≠ 1 →
  runs (consume_or_expel_window_right s (Some (tl_window t))) (λ s',
    keeps s s' ∧
    arrangement s' = arr_add_column (i + 1) [tl_window t] (arr_remove_tile i j (arrangement s))).
Proof.
  intros Hs Hpos Hi Hp Hj Hl. pose proof (lookup_lt_Some _ _ _ Hi).
  unfold consume_or_expel_window_right, source_tile.
  assert (sc_is_empty s = false) as ->.
  { unfold sc_is_empty. destruct (sc_columns s); [simpl in *; lia|done]. }
  rewrite Hpos. simpl. rewrite Hi. simpl. rewrite Hp. simpl. rewrite Hi. simpl.
  rewrite (proj2 (Nat.eqb_neq _ _) Hl). set (act := (_ && _)).
  pose proof (expel_runs s i j (i + 1) c t act Hs Hi Hj Hl ltac:(lia)) as (s' & He & Hk & Ha & _).
  destruct (remove_tile_by_idx s i j) as [[r s1]|]; [|done]. simpl in *. by exists s'.
Qed.

Lemma consume_into_column_runs s :
  scrolling_ok s →
  runs (consume_into_column s) (λ s', keeps s s' ∧ s'.(sc_active) = s.(sc_active) ∧
    ∀ l w ws, arrangement s !! s.(sc_active) = Some l →
      arrangement s !! (s.(sc_active) + 1) = Some (w :: ws) →
      arrangement s' = arr_add_tile s.(sc_active) (length l) w
        (arr_remove_tile (s.(sc_active) + 1) 0 (arrangement s))).
Proof.
  intros Hs. unfold consume_into_column. set (a := sc_active s).
  assert (Hno : length (sc_columns s) ≤ a + 1 →
    keeps s s ∧ sc_active s = a ∧ ∀ l w ws, arrangement s !! a = Some l →
      arrangement s !! (a + 1) = Some (w :: ws) →
      arrangement s = arr_add_tile a (length l) w (arr_remove_tile (a + 1) 0 (arrangement s))).
  { intros Hle. split_and!; [by apply keeps_refl|done|]. intros l w ws _ H%lookup_lt_Some.
    rewrite arrangement_length in H. lia. }
  destruct (Nat.ltb_spec (length (sc_columns s)) 2); [apply runs_ret, Hno; destruct (sc_active_ok s Hs); lia|].
  destruct (Nat.eqb_spec a (length (sc_columns s) - 1)); [apply runs_ret, Hno; lia|].
  assert (Ha : a + 1 < length (sc_columns s)) by (destruct (sc_active_ok s Hs) as [?|[E _]]; [lia|rewrite E in *; simpl in *; lia]).
  destruct (lookup_lt_is_Some_2 _ _ Ha) as [c Hc].
  destruct (lookup_lt_is_Some_2 (co_tiles c) 0) as [t Ht].
  { pose proof (co_active_ok c (column_lookup_ok s _ c Hs Hc)). lia. }
  eapply runs_bind; [exact (remove_tile_runs s (a + 1) 0 c t Hs Hc Ht)|].
  intros [r s1] (Hrt & _ & Hs1 & Hw1 & Harr & Ha1 & Ho). simpl in *.
  destruct (lookup_lt_is_Some_2 (sc_columns s) a) as [ca Hca]; [lia|].
  assert (Hla : arrangement s1 !! a = Some (col_windows ca)).
  { rewrite Harr. unfold arr_remove_tile. rewrite (arrangement_lookup s _ c Hc).
    pose proof (arrangement_lookup s _ ca Hca).
    destruct (col_windows c) as [|x [|y l]]; [by rewrite list_lookup_insert_ne by lia| |
      by rewrite list_lookup_insert_ne by lia]. by rewrite vec_remove_lookup_lt by lia. }
  destruct (lookup_lt_is_Some_2 (sc_columns s1) a) as [c1 Hc1].
  { rewrite <-(arrangement_length s1). by apply lookup_lt_Some in Hla. }
  assert (Hcw : col_windows c1 = col_windows ca).
  { apply arrangement_lookup in Hc1. congruence. }
  eapply runs_weaken; [apply (add_tile_to_column_runs s1 a None _ false c1 Hs1 Hc1); [done|]|].
  - rewrite Hrt. by apply (removed_fresh s).
  - rewrite Hrt. intros s2 (Hs2 & Hw2 & Harr2 & Ha2 & Ho2). split_and!.
    + unfold keeps. split_and!; [done|by rewrite Hw2, Hw1|congruence].
    + rewrite Ha2, Ha1. case_match; [|done]. unfold removed_active. fold a.
      rewrite (proj2 (Nat.ltb_ge _ _)), (proj2 (Nat.eqb_neq _ _)) by lia. simpl. lia.
    + intros l w ws Hl Hw. rewrite Harr2, Harr. simpl. f_equal.
      * rewrite <-col_windows_length, Hcw. apply arrangement_lookup in Hca. congruence.
      * apply arrangement_lookup in Hc. rewrite Hc in Hw. injection Hw as Hw.
        apply col_windows_lookup in Ht. rewrite Hw in Ht. by injection Ht.
Qed.

Lemma expel_from_column_runs s :
  scrolling_ok s →
  runs (expel_from_column s) (λ s', keeps s s' ∧ s'.(sc_active) = s.(sc_active) ∧
    ∀ l w, arrangement s !! s.(sc_active) = Some (l ++ [w]) → l ≠ [] →
      arrangement s' = arr_add_column (s.(sc_active) + 1) [w] (<[s.(sc_active):=l]> (arrangement s))).
Proof.
  intros Hs. unfold expel_from_column. destruct (sc_is_empty s) eqn:E.
  { apply runs_ret. split_and!; [by apply keeps_refl|done|]. intros l w H%lookup_lt_Some.
    rewrite arrangement_length in H. rewrite sc_is_empty_spec, bool_decide_eq_true in E.
    rewrite E in H. simpl in H. lia. }
  pose proof (sc_nonempty s Hs E) as Ha.
  destruct (lookup_lt_is_Some_2 _ _ Ha) as [c Hc]. rewrite Hc. simpl.
  pose proof (column_lookup_ok s _ c Hs Hc) as Hok. pose proof (arrangement_lookup s _ c Hc) as Hac.
  destruct (Nat.eqb_spec (length (co_tiles c)) 1) as [Hl|Hl].
  { apply runs_ret. split_and!; [by apply keeps_refl|done|]. intros l w H Hne.
    rewrite Hac in H. injection H as H. rewrite <-col_windows_length, H, length_app in Hl.
    destruct l; [done|]. simpl in Hl. lia. }
  rewrite (last_idx_ok c Hok). simpl. pose proof (co_active_ok c Hok) as Hca.
  destruct (lookup_lt_is_Some_2 (co_tiles c) (length (co_tiles c) - 1)) as [t Ht]; [lia|].
  pose proof (expel_runs s (sc_active s) (length (co_tiles c) - 1) (sc_active s + 1) c t false
    Hs Hc Ht Hl ltac:(lia)) as (s' & He & Hk & Harr & Hact).
  destruct (remove_tile_by_idx _ _ _) as [[r s1]|]; [|done]. simpl in *. exists s'.
  split; [done|]. split; [done|]. rewrite (proj2 (Nat.leb_gt _ _)) in Hact by lia. split; [done|].
  intros l w H Hne. rewrite Hac in H. injection H as H. rewrite Harr, (arr_remove_tile_many s _ _ c Hc Hl).
  apply col_windows_lookup in Ht. rewrite <-col_windows_length, H, length_app in *. simpl in *.
  replace (length l + 1 - 1) with (length l) in * by lia.
  rewrite lookup_app_r, Nat.sub_diag in Ht by lia. injection Ht as <-.
  rewrite take_app_length, drop_ge, app_nil_r by (rewrite length_app; simpl; lia). done.
Qed.

(** ** Fullscreen, maximize and the display mode *)
Lemma col_set_fullscreen_runs c b :
  column_ok c → (b = true → length c.(co_tiles) = 1 ∨ c.(co_display) = DisplayTabbed) →
  runs (col_set_fullscreen c b) (col_keeps c).
Proof.
  intros Hc Hb. unfold col_set_fullscreen, col_keeps.
  destruct (Bool.eqb_spec (co_fullscreen c) b) as [E|E]; [by apply runs_ret|].
  assert (Hone : length (co_tiles c) = 1 ∨ co_display c = DisplayTabbed).
  { destruct b; [by apply Hb|]. apply (co_sizing_ok c Hc). unfold pending_sizing_mode.
    by destruct (co_fullscreen c). }
  assert (b && negb ((length (co_tiles c) =? 1) || bool_decide (co_display c = DisplayTabbed)) = false) as ->.
  { destruct b; [|done]. simpl. rewrite negb_false_iff, orb_true_iff, Nat.eqb_eq, bool_decide_eq_true.
    done. }
  apply runs_ret. rewrite update_tile_sizes_windows. split; [|done].
  apply update_tile_sizes_ok; simpl; [apply Hc|done].
Qed.

Lemma col_set_maximized_runs c b :
  column_ok c → (b = true → length c.(co_tiles) = 1 ∨ c.(co_display) = DisplayTabbed) →
  runs (col_set_maximized c b) (col_keeps c).
Proof.
  intros Hc Hb. unfold col_set_maximized, col_keeps.
  destruct (Bool.eqb_spec (co_maximized c) b) as [E|E]; [by apply runs_ret|].
  assert (Hone : length (co_tiles c) = 1 ∨ co_display c = DisplayTabbed).
  { destruct b; [by apply Hb|]. apply (co_sizing_ok c Hc). unfold pending_sizing_mode.
    by destruct (co_fullscreen c), (co_maximized c). }
  assert (b && negb ((length (co_tiles c) =? 1) || bool_decide (co_display c = DisplayTabbed)) = false) as ->.
  { destruct b; [|done]. simpl. rewrite negb_false_iff, orb_true_iff, Nat.eqb_eq, bool_decide_eq_true.
    done. }
  apply runs_ret. rewrite update_tile_sizes_windows. split; [|done].
  apply update_tile_sizes_ok; simpl; [apply Hc|done].
Qed.

(** Only the resize can end. *)
Lemma stop_resize_keeps p s :
  scrolling_ok s → keeps s (set_sc_resize (stop_resize p s.(sc_resize)) s).
Proof.
  intros [H1 H2 H3 H4]. unfold keeps. split; [split; try done|done].
  simpl. by eapply stop_resize_ok; [exact H4|].
Qed.

Lemma set_column_keeps s i c c' :
  scrolling_ok s → s.(sc_columns) !! i = Some c → col_keeps c c' → keeps s (set_column i c' s).
Proof.
  intros Hs Hi [Hc Hw]. unfold keeps. split_and!; [by eapply set_column_ok| |done].
  apply (Permutation_app_inv_l (col_windows c)). by rewrite (windows_set_column _ c c' s Hi), Hw.
Qed.

(** The extraction of a window into a column of its own, where it is needed. *)
Lemma extract_runs s w i c j t (b : bool) :
  scrolling_ok s → position_col s w = Some i → s.(sc_columns) !! i = Some c →
  col_position c w = Some j → c.(co_tiles) !! j = Some t → tl_window t = w →
  let s0 := set_sc_resize (stop_resize (col_contains c) s.(sc_resize)) s in
  runs (if b && ((1 <? length c.(co_tiles)) && negb (bool_decide (c.(co_display) = DisplayTabbed)))
        then s1 ← consume_or_expel_window_right s0 (Some w); Some (s1, i + 1)
        else Some (s0, i)) (λ r,
    keeps s (fst r) ∧ ∃ c', sc_columns (fst r) !! snd r = Some c' ∧
      (b = true → length c'.(co_tiles) = 1 ∨ c'.(co_display) = DisplayTabbed)).
Proof.
  intros Hs Hpos Hi Hp Hj <- s0. pose proof (stop_resize_keeps (col_contains c) s Hs) as Hk0.
  fold s0 in Hk0. pose proof (co_active_ok c (column_lookup_ok s i c Hs Hi)) as Ha.
  destruct b; simpl; [|apply runs_ret; split; [done|]; by exists c].
  destruct (Nat.ltb_spec 1 (length (co_tiles c))) as [Hl|Hl]; simpl.
  2: { apply runs_ret. split; [done|]. exists c. split; [done|]. left. lia. }
  destruct (decide (co_display c = DisplayTabbed)) as [Hd|Hd].
  { rewrite bool_decide_eq_true_2 by done. apply runs_ret. split; [done|]. exists c. auto. }
  rewrite bool_decide_eq_false_2 by done. simpl.
  eapply runs_bind; [apply (expel_right_runs s0 i j c t); auto; [apply Hk0|lia]|].
  intros s1 [Hk1 Harr]. apply runs_ret. simpl. split; [exact (keeps_trans _ _ _ Hk0 Hk1)|].
  assert (Hlk : arrangement s1 !! (i + 1) = Some [tl_window t]).
  { rewrite Harr. apply vec_insert_lookup_eq. rewrite (arr_remove_tile_many s0 i j c); [|done|lia].
    rewrite length_insert, arrangement_length. apply lookup_lt_Some in Hi. simpl. lia. }
  unfold arrangement in Hlk. apply list_lookup_fmap_Some in Hlk as (c' & Hw & Hc').
  exists c'. split; [done|]. intros _. left. by rewrite <-col_windows_length, <-Hw.
Qed.

Lemma sc_set_fullscreen_runs s w b :
  scrolling_ok s → w ∈ windows s → runs (sc_set_fullscreen s w b) (λ r, keeps s (fst r)).
Proof.
  intros Hs Hw. destruct (position_col_runs s w Hw) as (i & Hpos & c & j & t & Hi & Hp & Hj & Ht).
  unfold sc_set_fullscreen. rewrite Hpos. simpl. rewrite Hi. simpl.
  destruct (Bool.eqb b (co_fullscreen c)); [by apply runs_ret, keeps_refl|].
  eapply runs_bind; [by apply (extract_runs s w i c j t)|].
  intros [s1 k] (Hk & c' & Hc' & Hone). simpl in *. rewrite Hc'. simpl.
  eapply runs_bind; [apply col_set_fullscreen_runs; [by eapply column_lookup_ok; [apply Hk|]|done]|].
  intros c'' Hkc. apply runs_ret. simpl. eapply keeps_trans; [done|].
  eapply set_column_keeps; [apply Hk|done|done].
Qed.

Lemma sc_set_maximized_runs s w b :
  scrolling_ok s → w ∈ windows s → runs (sc_set_maximized s w b) (λ r, keeps s (fst r)).
Proof.
  intros Hs Hw. destruct (position_col_runs s w Hw) as (i & Hpos & c & j & t & Hi & Hp & Hj & Ht).
  unfold sc_set_maximized. rewrite Hpos. simpl. rewrite Hi. simpl.
  destruct (Bool.eqb b (co_maximized c)); [by apply runs_ret, keeps_refl|].
  eapply runs_bind; [by apply (extract_runs s w i c j t)|].
  intros [s1 k] (Hk & c' & Hc' & Hone). simpl in *. rewrite Hc'. simpl.
  eapply runs_bind; [apply col_set_maximized_runs; [by eapply column_lookup_ok; [apply Hk|]|done]|].
  intros c'' Hkc. apply runs_ret. simpl. eapply keeps_trans; [done|].
  eapply set_column_keeps; [apply Hk|done|done].
Qed.

(** A window is in one column only. *)
Lemma window_column_unique (A : list (list N)) i j l l' w :
  NoDup (mjoin A) → A !! i = Some l → A !! j = Some l' → w ∈ l → w ∈ l' → i = j.
Proof.
  intros Hn Hi Hj Hw Hw'. destruct (decide (i = j)) as [|Hne]; [done|exfalso].
  rewrite (mjoin_remove_at A i l Hi), NoDup_app in Hn. destruct Hn as (_ & Hn & _).
  apply (Hn w Hw). apply list_elem_of_join. exists l'. split; [done|].
  destruct (Nat.lt_gt_cases i j) as [[Hlt|Hgt] _]; [done|..].
  - apply list_elem_of_lookup. exists (j - 1).
    rewrite vec_remove_lookup_ge by (apply lookup_lt_Some in Hi; lia). by replace (S (j - 1)) with j by lia.
  - apply list_elem_of_lookup. exists j. by rewrite vec_remove_lookup_lt.
Qed.

Lemma position_col_at s i c w :
  NoDup (windows s) → s.(sc_columns) !! i = Some c → w ∈ col_windows c → position_col s w = Some i.
Proof.
  intros Hn Hi Hw.
  destruct (position_col_runs s w) as (k & Hk & c' & j & t & Hc' & _ & Hj & <-).
  { unfold windows. apply list_elem_of_join. exists (col_windows c). split; [done|].
    apply list_elem_of_lookup. exists i. by apply arrangement_lookup. }
  rewrite Hk. f_equal. eapply (window_column_unique (arrangement s)); [done|..].
  - by apply arrangement_lookup.
  - by apply arrangement_lookup.
  - eapply list_elem_of_lookup. exists j. by apply col_windows_lookup.
  - done.
Qed.

(** A space that differs in one column, which has the same windows and the given pending
    states; its windows have been asked for the sizing mode of the column. *)
Definition column_repended (s s' : ScrollingSpace) (i : nat) (c : Column) (fs mx : bool) : Prop :=
  ∃ c', sc_columns s' = <[i:=c']> (sc_columns s) ∧ sc_active s' = sc_active s ∧
    sc_options s' = sc_options s ∧ (∀ v, sc_resize s' = Some v → sc_resize s = Some v) ∧
    col_windows c' = col_windows c ∧ co_active c' = co_active c ∧ co_fullscreen c' = fs ∧
    co_maximized c' = mx ∧ Forall (λ t, t.(tl_pending) = pending_sizing_mode c') c'.(co_tiles).

Lemma stop_resize_sub p r v : stop_resize p r = Some v → r = Some v.
Proof. destruct r as [w|]; simpl; [|done]. destruct (p w); naive_solver. Qed.

Lemma unset_fullscreen_runs s i c w :
  NoDup (windows s) → s.(sc_columns) !! i = Some c → w ∈ col_windows c →
  Forall (λ t, t.(tl_pending) = pending_sizing_mode c) c.(co_tiles) →
  runs (sc_set_fullscreen s w false)
    (λ r, column_repended s (fst r) i c false c.(co_maximized)).
Proof.
  intros Hn Hi Hw Hp. unfold sc_set_fullscreen.
  rewrite (position_col_at s i c w Hn Hi Hw). simpl. rewrite Hi. simpl.
  destruct (co_fullscreen c) eqn:E; simpl.
  - unfold col_set_fullscreen. rewrite ?Hi. simpl. rewrite E. simpl. apply runs_ret.
    exists (update_tile_sizes (set_co_pending false (co_maximized c) c)).
    rewrite update_tile_sizes_windows.
    split_and!; try done; [by intros v ?%stop_resize_sub|apply update_tile_sizes_pending].
  - apply runs_ret. exists c. simpl. rewrite list_insert_id by done. by split_and!.
Qed.

Lemma unset_maximized_runs s i c w :
  NoDup (windows s) → s.(sc_columns) !! i = Some c → w ∈ col_windows c →
  Forall (λ t, t.(tl_pending) = pending_sizing_mode c) c.(co_tiles) →
  runs (sc_set_maximized s w false)
    (λ r, column_repended s (fst r) i c c.(co_fullscreen) false).
Proof.
  intros Hn Hi Hw Hp. unfold sc_set_maximized.
  rewrite (position_col_at s i c w Hn Hi Hw). simpl. rewrite Hi. simpl.
  destruct (co_maximized c) eqn:E; simpl.
  - unfold col_set_maximized. rewrite ?Hi. simpl. rewrite E. simpl. apply runs_ret.
    exists (update_tile_sizes (set_co_pending (co_fullscreen c) false c)).
    rewrite update_tile_sizes_windows.
    split_and!; try done; [by intros v ?%stop_resize_sub|apply update_tile_sizes_pending].
  - apply runs_ret. exists c. simpl. rewrite list_insert_id by done. by split_and!.
Qed.

(** The column with both states unset is well formed, whatever its display mode. *)
Lemma unset_column_ok c c' :
  co_active c < length (co_tiles c) → col_windows c' = col_windows c → co_active c' = co_active c →
  co_fullscreen c' = false → co_maximized c' = false →
  Forall (λ t, t.(tl_pending) = pending_sizing_mode c') c'.(co_tiles) → column_ok c'.
Proof.
  intros Ha Hw Hact Hf Hm Hp. split; [|unfold pending_sizing_mode; by rewrite Hf, Hm|done].
  by rewrite Hact, <-(col_windows_length c'), Hw, col_windows_length.
Qed.

(** [NoDup] and the windows survive the replacement of a column by one with the same windows. *)
Lemma windows_same_column s s' i c c' :
  s.(sc_columns) !! i = Some c → sc_columns s' = <[i:=c']> (sc_columns s) →
  col_windows c' = col_windows c → windows s' = windows s.
Proof.
  intros Hi Hc Hw. unfold windows, arrangement. rewrite Hc, list_fmap_insert, Hw.
  by rewrite list_insert_id by (by rewrite list_lookup_fmap, Hi).
Qed.

Lemma unset_both_runs s i c w :
  NoDup (windows s) → s.(sc_columns) !! i = Some c → w ∈ col_windows c →
  co_active c < length (co_tiles c) →
  (∀ k c', k ≠ i → s.(sc_columns) !! k = Some c' → column_ok c') →
  s.(sc_active) < length s.(sc_columns) →
  (∀ v, s.(sc_resize) = Some v → v ∈ windows s) →
  Forall (λ t, t.(tl_pending) = pending_sizing_mode c) c.(co_tiles) →
  runs (r ← sc_set_fullscreen s w false; r ← sc_set_maximized (fst r) w false; Some (fst r)) (keeps s).
Proof.
  intros Hn Hi Hw Hact Hothers Ha Hr Hp. pose proof (lookup_lt_Some _ _ _ Hi) as Hlt.
  eapply runs_bind; [by apply (unset_fullscreen_runs s i c)|].
  intros [s1 b1] (c1 & Hc1 & Ha1 & Ho1 & Hr1 & Hw1 & Hact1 & Hf1 & _ & Hp1). simpl in *.
  pose proof (windows_same_column s s1 i c c1 Hi Hc1 Hw1) as HW1.
  assert (Hi1 : sc_columns s1 !! i = Some c1) by (by rewrite Hc1, list_lookup_insert_eq).
  eapply runs_bind; [apply (unset_maximized_runs s1 i c1); [by rewrite HW1|done|by rewrite Hw1|done]|].
  intros [s2 b2] (c2 & Hc2 & Ha2 & Ho2 & Hr2 & Hw2 & Hact2 & Hf2 & Hm2 & Hp2). simpl in *.
  pose proof (windows_same_column s1 s2 i c1 c2 Hi1 Hc2 Hw2) as HW2.
  rewrite Hc1, list_insert_insert_eq in Hc2. apply runs_ret. unfold keeps.
  rewrite HW2, HW1. split; [|split; [done|congruence]]. split.
  - rewrite Hc2. apply Forall_lookup. intros k ck Hk.
    apply list_lookup_insert_Some in Hk as [(-> & <- & _)|(Hne & Hk)]; [|by apply (Hothers k)].
    apply (unset_column_ok c); congruence.
  - left. rewrite Ha2, Ha1, Hc2, length_insert. done.
  - by rewrite HW2, HW1.
  - intros v Hv. rewrite HW2, HW1. auto.
Qed.

Lemma set_column_display_runs s d : scrolling_ok s → runs (set_column_display s d) (keeps s).
Proof.
  intros Hs. unfold set_column_display. destruct (sc_is_empty s) eqn:E; [by apply runs_ret, keeps_refl|].
  pose proof (sc_nonempty s Hs E) as Ha. destruct (lookup_lt_is_Some_2 _ _ Ha) as [c Hc].
  rewrite Hc. cbn [mbind option_bind]. destruct (decide (co_display c = d)) as [|Hne]; [by apply runs_ret, keeps_refl|].
  pose proof (column_lookup_ok s _ c Hs Hc) as Hok.
  unfold col_set_column_display. rewrite decide_False by done.
  set (s0 := set_sc_resize _ s). set (c1 := update_tile_sizes (update_tile_sizes _)).
  pose proof (stop_resize_keeps (col_contains c) s Hs) as Hk0. fold s0 in Hk0.
  assert (Hw1 : col_windows c1 = col_windows c) by (unfold c1; by rewrite !update_tile_sizes_windows).
  assert (Hl1 : length (co_tiles c1) = length (co_tiles c)) by (by rewrite <-!col_windows_length, Hw1).
  assert (Hp1 := update_tile_sizes_pending (update_tile_sizes (set_co_display d c))). fold c1 in Hp1.
  change (co_display c1) with d.
  destruct (negb (bool_decide (d = DisplayTabbed)) && (1 <? length (co_tiles c1))) eqn:Eb.
  - destruct (lookup_lt_is_Some_2 (co_tiles c1) (co_active c1)) as [t Ht].
    { rewrite Hl1. apply Hok. }
    rewrite Ht. cbn [mbind option_bind].
    assert (HW : windows (set_column (sc_active s) c1 s0) = windows s)
      by by apply (windows_same_column s _ (sc_active s) c c1).
    eapply runs_weaken; [apply (unset_both_runs (set_column (sc_active s) c1 s0) (sc_active s) c1)|].
    + rewrite HW. apply Hs.
    + simpl. by rewrite list_lookup_insert_eq.
    + apply list_elem_of_lookup. exists (co_active c1). by apply col_windows_lookup.
    + rewrite Hl1. apply Hok.
    + simpl. intros k c' Hk Hc'. rewrite list_lookup_insert_ne in Hc' by done.
      by eapply column_lookup_ok.
    + simpl. by rewrite length_insert.
    + rewrite HW. apply (sc_resize_ok s0). apply Hk0.
    + done.
    + intros s' Hk'. unfold keeps in *. rewrite HW in Hk'. exact Hk'.
  - apply runs_ret. eapply keeps_trans; [exact Hk0|]. eapply set_column_keeps; [apply Hk0|exact Hc|].
    split; [|by rewrite Hw1]. split; [rewrite Hl1; apply Hok| |done].
    intros _. change (co_display c1) with d. rewrite Hl1 in *.
    apply andb_false_iff in Eb as [Eb|Eb].
    + right. by apply negb_false_iff, bool_decide_eq_true in Eb.
    + left. apply Nat.ltb_ge in Eb. pose proof (co_active_ok c Hok). lia.
Qed.
