(* ===== verification/LayoutSwap.v ===== *)
(** * Swapping windows between columns

    [swap_window_in_direction] of [LayoutScrolling] exchanges the active windows of two adjacent
    columns, although it is written as removals and insertions of tiles and columns. *)
From S2P Require Import Prelude LayoutScrolling LayoutScrollingOps.

(** ** Lists *)
Lemma replace_by_insert_remove {A} (l : list A) b w :
  b < length l →
  take (S b) (take b l ++ w :: drop b l) ++ drop (S (S b)) (take b l ++ w :: drop b l) = <[b:=w]> l.
Proof.
  intros Hb. rewrite (insert_take_drop l b w Hb).
  rewrite (take_app_ge (take b l)), (drop_app_ge (take b l)) by (rewrite length_take_le; lia).
  rewrite length_take_le by lia. replace (S b - b) with 1 by lia. replace (S (S b) - b) with 2 by lia.
  simpl. rewrite firstn_O, <-app_assoc. simpl. f_equal. f_equal. rewrite drop_drop. f_equal. lia.
Qed.

Lemma replace_by_remove_insert {A} (l : list A) a w :
  a < length l →
  take a (take a l ++ drop (S a) l) ++ w :: drop a (take a l ++ drop (S a) l) = <[a:=w]> l.
Proof.
  intros Ha. rewrite (insert_take_drop l a w Ha).
  rewrite take_app_length', drop_app_length' by (rewrite length_take_le; lia). done.
Qed.

(** The exchange of the [a]-th window of column [i] with the [b]-th of column [k]. *)
Definition arr_swap (i a k b : nat) (A : list (list N)) : list (list N) :=
  match A !! i, A !! k with
  | Some li, Some lk =>
      match li !! a, lk !! b with
      | Some wi, Some wk => <[i:=<[a:=wk]> li]> (<[k:=<[b:=wi]> lk]> A)
      | _, _ => A
      end
  | _, _ => A
  end.

Lemma arr_remove_tile_at A i j l :
  A !! i = Some l → length l ≠ 1 → arr_remove_tile i j A = <[i:=take j l ++ drop (S j) l]> A.
Proof. intros H Hl. unfold arr_remove_tile. rewrite H. by destruct l as [|? [|??]]. Qed.

(** Through the source column that shrinks and grows again. *)
Lemma arr_swap_many A i a k b li lk wi wk :
  i ≠ k → A !! i = Some li → A !! k = Some lk → li !! a = Some wi → lk !! b = Some wk →
  length li ≠ 1 →
  arr_add_tile i a wk (<[k:=<[b:=wi]> lk]> (arr_remove_tile i a A)) = arr_swap i a k b A.
Proof.
  intros Hne Hi Hk Ha Hb Hl. unfold arr_swap. rewrite Hi, Hk, Ha, Hb.
  pose proof (lookup_lt_Some _ _ _ Hi) as Hil. pose proof (lookup_lt_Some _ _ _ Ha) as Hal.
  rewrite (arr_remove_tile_at A i a li Hi Hl). unfold arr_add_tile.
  rewrite list_lookup_insert_ne, list_lookup_insert_eq by done.
  rewrite replace_by_remove_insert by done.
  rewrite (list_insert_insert_ne (<[i:=_]> A)), list_insert_insert_eq by done.
  by rewrite list_insert_insert_ne by done.
Qed.

(** Through a source column that disappears and comes back. *)
Lemma arr_swap_drained A i k k' b lk wi wk :
  A !! i = Some [wi] → A !! k = Some lk → lk !! b = Some wk →
  (k < i ∧ k' = k ∨ k = i + 1 ∧ k' = i) →
  arr_add_column i [wk] (<[k':=<[b:=wi]> lk]> (take i A ++ drop (S i) A)) = arr_swap i 0 k b A.
Proof.
  intros Hi Hk Hb Hcase. unfold arr_swap. rewrite Hi, Hk, Hb. simpl.
  pose proof (lookup_lt_Some _ _ _ Hi) as Hil. pose proof (lookup_lt_Some _ _ _ Hk) as Hkl.
  pose proof (length_vec_remove i _ _ Hi) as Hlen.
  set (A1 := take i A ++ drop (S i) A) in *.
  unfold arr_add_column. apply list_eq. intros n.
  assert (Hi1 : i ≤ length (<[k':=<[b:=wi]> lk]> A1)) by (rewrite length_insert; lia).
  destruct (Nat.lt_trichotomy n i) as [Hn|[->|Hn]].
  - rewrite vec_insert_lookup_lt, (list_lookup_insert_ne _ i) by lia.
    destruct (decide (n = k)) as [->|Hnk].
    + destruct Hcase as [[? ->]|[? ?]]; [|lia].
      by rewrite !list_lookup_insert_eq by (rewrite ?length_insert; lia).
    + rewrite !list_lookup_insert_ne by lia. unfold A1. by rewrite vec_remove_lookup_lt.
  - rewrite vec_insert_lookup_eq by done.
    by rewrite list_lookup_insert_eq by (rewrite length_insert; lia).
  - destruct n as [|n]; [lia|]. rewrite vec_insert_lookup_ge, (list_lookup_insert_ne _ i) by lia.
    destruct (decide (S n = k)) as [<-|Hnk].
    + destruct Hcase as [[? ?]|[? ->]]; [lia|]. replace n with i in * by lia.
      by rewrite !list_lookup_insert_eq by (rewrite ?length_insert; lia).
    + rewrite !list_lookup_insert_ne by lia. unfold A1. by rewrite vec_remove_lookup_ge by lia.
Qed.

(** ** The primitive operations on arrangements *)
Lemma column_of_arrangement s i l :
  arrangement s !! i = Some l → ∃ c, s.(sc_columns) !! i = Some c ∧ col_windows c = l.
Proof. intros H. apply list_lookup_fmap_Some in H as (c & -> & Hc). eauto. Qed.

Lemma tile_of_column c j w :
  col_windows c !! j = Some w → ∃ t, c.(co_tiles) !! j = Some t ∧ tl_window t = w.
Proof. intros H. apply list_lookup_fmap_Some in H as (t & -> & Ht). eauto. Qed.

Lemma remove_tile_arr s i j l w :
  scrolling_ok s → arrangement s !! i = Some l → l !! j = Some w →
  runs (remove_tile_by_idx s i j) (λ r,
    tl_window (rt_tile (fst r)) = w ∧ scrolling_ok (snd r) ∧
    windows s ≡ₚ w :: windows (snd r) ∧
    arrangement (snd r) = arr_remove_tile i j (arrangement s) ∧ sc_options (snd r) = sc_options s).
Proof.
  intros Hs Hi Hj. apply column_of_arrangement in Hi as (c & Hi & <-).
  apply tile_of_column in Hj as (t & Hj & <-).
  eapply runs_weaken; [exact (remove_tile_runs s i j c t Hs Hi Hj)|].
  intros r (-> & _ & ? & ? & ? & _ & ?). by split_and!.
Qed.

Lemma add_tile_arr s i j t l :
  scrolling_ok s → arrangement s !! i = Some l → j ≤ length l → tl_window t ∉ windows s →
  runs (add_tile_to_column s i (Some j) t false) (λ s',
    scrolling_ok s' ∧ windows s' ≡ₚ tl_window t :: windows s ∧
    arrangement s' = arr_add_tile i j (tl_window t) (arrangement s) ∧ sc_options s' = sc_options s).
Proof.
  intros Hs Hi Hj Hf. apply column_of_arrangement in Hi as (c & Hi & <-).
  rewrite col_windows_length in Hj.
  eapply runs_weaken; [exact (add_tile_to_column_runs s i (Some j) t false c Hs Hi Hj Hf)|].
  intros s' (? & ? & ? & _ & ?). by split_and!.
Qed.

(** The active tile of the [i]-th column. *)
Definition active_at (s : ScrollingSpace) (i : nat) : option nat := co_active <$> s.(sc_columns) !! i.

Lemma active_window_at s :
  active_window s = (l ← arrangement s !! s.(sc_active); j ← active_at s s.(sc_active); l !! j).
Proof.
  unfold active_window, active_at, arrangement. rewrite list_lookup_fmap.
  destruct (sc_columns s !! sc_active s) as [c|]; [|done]. cbn. unfold col_windows.
  rewrite list_lookup_fmap. by destruct (co_tiles c !! co_active c).
Qed.

(** Setting the active tiles of two columns. *)
Lemma set_actives_runs s i a k b li lk :
  scrolling_ok s → i ≠ k → arrangement s !! i = Some li → arrangement s !! k = Some lk →
  a < length li → b < length lk →
  runs (source ← s.(sc_columns) !! i;
        target ← sc_columns (set_column i (set_co_active a source) s) !! k;
        _ ← target.(co_tiles) !! b; _ ← source.(co_tiles) !! a;
        activate_column (set_column k (set_co_active b target)
          (set_column i (set_co_active a source) s)) k)
    (λ s', scrolling_ok s' ∧ arrangement s' = arrangement s ∧ sc_active s' = k ∧
      sc_options s' = sc_options s ∧ active_at s' i = Some a ∧ active_at s' k = Some b).
Proof.
  intros Hs Hne Hi Hk Ha Hb.
  apply column_of_arrangement in Hi as (ci & Hi & <-), Hk as (ck & Hk & <-).
  rewrite col_windows_length in Ha, Hb. rewrite Hi. cbn [mbind option_bind].
  assert (Hk1 : sc_columns (set_column i (set_co_active a ci) s) !! k = Some ck)
    by (simpl; by rewrite list_lookup_insert_ne).
  rewrite Hk1. cbn [mbind option_bind].
  destruct (lookup_lt_is_Some_2 _ _ Hb) as [tb ->], (lookup_lt_is_Some_2 _ _ Ha) as [ta ->].
  cbn [mbind option_bind].
  assert (Hs1 : scrolling_ok (set_column i (set_co_active a ci) s)).
  { eapply set_column_ok; [done|done| |done]. apply set_co_active_ok; [|done].
    by eapply column_lookup_ok. }
  assert (Hs2 : scrolling_ok (set_column k (set_co_active b ck) (set_column i (set_co_active a ci) s))).
  { eapply set_column_ok; [done|done| |done]. apply set_co_active_ok; [|done].
    by apply (column_lookup_ok s k). }
  eapply runs_weaken; [apply (activate_column_runs _ k Hs2); left; simpl;
    rewrite !length_insert; by apply lookup_lt_Some in Hk|].
  apply lookup_lt_Some in Hi as Hil, Hk as Hkl.
  intros s' (? & Hc & ? & Ho). split_and!; [done| |done|done| |].
  2, 3: unfold active_at; rewrite Hc; simpl.
  2: by rewrite list_lookup_insert_ne, list_lookup_insert_eq.
  2: by rewrite list_lookup_insert_eq by (by rewrite length_insert).
  unfold arrangement at 1. rewrite Hc. simpl. rewrite !list_fmap_insert.
  change (col_windows <$> sc_columns s) with (arrangement s).
  rewrite (list_insert_id (arrangement s) i) by exact (arrangement_lookup s i ci Hi).
  apply list_insert_id. exact (arrangement_lookup s k ck Hk).
Qed.

Lemma arr_swap_lookups A i a k b li lk wi wk :
  i ≠ k → A !! i = Some li → A !! k = Some lk → li !! a = Some wi → lk !! b = Some wk →
  arr_swap i a k b A !! i = Some (<[a:=wk]> li) ∧ arr_swap i a k b A !! k = Some (<[b:=wi]> lk).
Proof.
  intros Hne Hi Hk Ha Hb. unfold arr_swap. rewrite Hi, Hk, Ha, Hb.
  apply lookup_lt_Some in Hi, Hk.
  rewrite list_lookup_insert_eq by (by rewrite length_insert).
  rewrite list_lookup_insert_ne by done. by rewrite list_lookup_insert_eq.
Qed.

(** Moving a column of one window past another is the exchange of their windows. *)
Lemma arr_move_adjacent A i k wi wk :
  A !! i = Some [wi] → A !! k = Some [wk] → (k + 1 = i ∨ k = i + 1) →
  arr_move i k A = arr_swap i 0 k 0 A.
Proof.
  intros Hi Hk Hadj. unfold arr_move, arr_swap. rewrite Hi, Hk. simpl.
  pose proof (lookup_lt_Some _ _ _ Hi). pose proof (lookup_lt_Some _ _ _ Hk).
  pose proof (length_vec_remove i _ _ Hi) as Hl. apply list_eq. intros n.
  destruct (Nat.lt_trichotomy n k) as [Hn|[->|Hn]].
  - rewrite vec_insert_lookup_lt by lia. destruct (decide (n = i)) as [->|Hne].
    + rewrite vec_remove_lookup_ge, list_lookup_insert_eq by (rewrite ?length_insert; lia).
      by replace (S i) with k by lia.
    + rewrite !list_lookup_insert_ne by lia. by rewrite vec_remove_lookup_lt by lia.
  - rewrite vec_insert_lookup_eq by lia.
    by rewrite list_lookup_insert_ne, list_lookup_insert_eq by lia.
  - destruct n as [|n]; [lia|]. rewrite vec_insert_lookup_ge by lia.
    destruct (decide (S n = i)) as [<-|Hne].
    + rewrite vec_remove_lookup_lt, list_lookup_insert_eq by (rewrite ?length_insert; lia).
      by replace n with k by lia.
    + rewrite !list_lookup_insert_ne by lia. by rewrite vec_remove_lookup_ge by lia.
Qed.

(** ** The operation *)

(** The column next to the active one. *)
Definition neighbour (s : ScrollingSpace) (direction : ScrollDirection) : option nat :=
  match direction with
  | ScrollLeft => if s.(sc_active) =? 0 then None else Some (s.(sc_active) - 1)
  | ScrollRight =>
      if length s.(sc_columns) <=? s.(sc_active) + 1 then None else Some (s.(sc_active) + 1)
  end.

(** Adding a tile in front of another one of a column and removing that one. *)
Lemma exchange_runs s k b t lk wk :
  scrolling_ok s → arrangement s !! k = Some lk → lk !! b = Some wk → tl_window t ∉ windows s →
  runs (s' ← add_tile_to_column s k (Some b) t false; remove_tile_by_idx s' k (b + 1)) (λ r,
    tl_window (rt_tile (fst r)) = wk ∧ scrolling_ok (snd r) ∧
    (wk ∉ windows (snd r)) ∧ (wk :: windows (snd r)) ≡ₚ (tl_window t :: windows s) ∧
    arrangement (snd r) = <[k:=<[b:=tl_window t]> lk]> (arrangement s) ∧
    sc_options (snd r) = sc_options s).
Proof.
  intros Hs Hk Hb Hf. pose proof (lookup_lt_Some _ _ _ Hb) as Hbl.
  pose proof (lookup_lt_Some _ _ _ Hk) as Hkl.
  eapply runs_bind; [apply (add_tile_arr s k b t lk Hs Hk); [lia|done]|].
  intros s2 (Hs2 & Hp2 & Harr2 & Ho2).
  assert (Hk2 : arrangement s2 !! k = Some (take b lk ++ tl_window t :: drop b lk)).
  { rewrite Harr2. unfold arr_add_tile. rewrite Hk. by apply list_lookup_insert_eq. }
  eapply runs_weaken; [apply (remove_tile_arr s2 k (b + 1) _ wk Hs2 Hk2)|].
  { rewrite Nat.add_1_r, vec_insert_lookup_ge by lia. done. }
  intros [r3 s3] (Hw3 & Hs3 & Hp3 & Harr3 & Ho3). simpl in *.
  split_and!; [done|done|by apply (removed_fresh s2)|by rewrite <-Hp3, Hp2| |congruence].
  erewrite Harr3, (arr_remove_tile_at _ k) by (exact Hk2 || rewrite length_vec_insert; lia).
  rewrite Harr2. unfold arr_add_tile. rewrite Hk, list_insert_insert_eq.
  by rewrite Nat.add_1_r, replace_by_insert_remove.
Qed.

(** The swap out of a column of several windows. *)
Lemma swap_many_runs s i a k b li lk wi wk :
  scrolling_ok s → i ≠ k → arrangement s !! i = Some li → arrangement s !! k = Some lk →
  li !! a = Some wi → lk !! b = Some wk → length li ≠ 1 →
  runs (r ← remove_tile_by_idx s i a;
        s2 ← add_tile_to_column (snd r) k (Some b) (rt_tile (fst r)) false;
        r3 ← remove_tile_by_idx s2 k (b + 1);
        add_tile_to_column (snd r3) i (Some a) (rt_tile (fst r3)) false)
    (λ s', keeps s s' ∧ arrangement s' = arr_swap i a k b (arrangement s)).
Proof.
  intros Hs Hne Hi Hk Ha Hb Hl. pose proof (lookup_lt_Some _ _ _ Hi) as Hil.
  eapply runs_bind; [exact (remove_tile_arr s i a li wi Hs Hi Ha)|].
  intros [r1 s1] (Hw1 & Hs1 & Hp1 & Harr1 & Ho1). simpl in *.
  assert (Hf1 : wi ∉ windows s1) by by apply (removed_fresh s).
  assert (Hk1 : arrangement s1 !! k = Some lk)
    by (by rewrite Harr1, (arr_remove_tile_at _ _ _ _ Hi Hl), list_lookup_insert_ne).
  destruct (exchange_runs s1 k b (rt_tile r1) lk wk Hs1 Hk1 Hb) as ([r3 s3] & He & Hex); [by rewrite Hw1|].
  destruct (add_tile_to_column s1 k (Some b) (rt_tile r1) false) as [s2|]; [|done]. simpl in *.
  rewrite He. simpl. rewrite Hw1 in Hex. destruct Hex as (Hw3 & Hs3 & Hf3 & Hp3 & Harr3 & Ho3).
  assert (Hi3 : arrangement s3 !! i = Some (take a li ++ drop (S a) li)).
  { rewrite Harr3, list_lookup_insert_ne, Harr1, (arr_remove_tile_at _ _ _ _ Hi Hl) by done.
    by apply list_lookup_insert_eq. }
  eapply runs_weaken; [apply (add_tile_arr s3 i a (rt_tile r3) _ Hs3 Hi3)|].
  - pose proof (length_vec_remove a _ _ Ha). apply lookup_lt_Some in Ha. lia.
  - by rewrite Hw3.
  - rewrite Hw3. intros s4 (Hs4 & Hp4 & Harr4 & Ho4). unfold keeps.
    split; [split_and!; [done|by rewrite Hp4, Hp3, Hp1|congruence]|].
    rewrite Harr4, Harr3, Harr1. by eapply arr_swap_many.
Qed.

(** The swap out of a column of one window; [k'] is where the target column is while the source
    column is away. *)
Lemma swap_drained_runs s i k k' b lk wi wk :
  scrolling_ok s → arrangement s !! i = Some [wi] → arrangement s !! k = Some lk →
  lk !! b = Some wk → (k < i ∧ k' = k ∨ k = i + 1 ∧ k' = i) →
  runs (r ← remove_tile_by_idx s i 0;
        s2 ← add_tile_to_column (snd r) k' (Some b) (rt_tile (fst r)) false;
        r3 ← remove_tile_by_idx s2 k' (b + 1);
        sc_add_tile (snd r3) (Some i) (rt_tile (fst r3)) true (rt_width (fst r))
          (rt_full_width (fst r)))
    (λ s', keeps s s' ∧ arrangement s' = arr_swap i 0 k b (arrangement s)).
Proof.
  intros Hs Hi Hk Hb Hcase. pose proof (lookup_lt_Some _ _ _ Hi) as Hil.
  pose proof (lookup_lt_Some _ _ _ Hk) as Hkl.
  eapply runs_bind; [exact (remove_tile_arr s i 0 [wi] wi Hs Hi eq_refl)|].
  intros [r1 s1] (Hw1 & Hs1 & Hp1 & Harr1 & Ho1). simpl in *.
  unfold arr_remove_tile in Harr1. rewrite Hi in Harr1.
  assert (Hf1 : wi ∉ windows s1) by by apply (removed_fresh s).
  assert (Hk1 : arrangement s1 !! k' = Some lk).
  { rewrite Harr1. destruct Hcase as [[? ->]|[-> ->]]; [by rewrite vec_remove_lookup_lt|].
    rewrite vec_remove_lookup_ge by lia. by rewrite <-Nat.add_1_r. }
  destruct (exchange_runs s1 k' b (rt_tile r1) lk wk Hs1 Hk1 Hb) as ([r3 s3] & He & Hex); [by rewrite Hw1|].
  destruct (add_tile_to_column s1 k' (Some b) (rt_tile r1) false) as [s2|]; [|done]. simpl in *.
  rewrite He. simpl. rewrite Hw1 in Hex. destruct Hex as (Hw3 & Hs3 & Hf3 & Hp3 & Harr3 & Ho3).
  eapply runs_weaken; [apply (sc_add_tile_runs s3 (Some i) (rt_tile r3) true _ _ Hs3)|].
  - by rewrite Hw3.
  - intros ? [= <-]. rewrite <-(arrangement_length s3), Harr3, length_insert, Harr1.
    pose proof (length_vec_remove i _ _ Hi). lia.
  - rewrite Hw3. intros s4 (Hs4 & Harr4 & Hp4 & _ & Ho4 & _). unfold keeps.
    split; [split_and!; [done|by rewrite Hp4, Hp3, Hp1|congruence]|].
    rewrite Harr4. simpl. rewrite Harr3, Harr1. by eapply arr_swap_drained.
Qed.

(** The outcome of the swap: the two windows change places, the column next to the active one
    becomes active, and in each of the two columns the same place as before is the active one. *)
Definition swapped (s s' : ScrollingSpace) (direction : ScrollDirection) : Prop :=
  match neighbour s direction with
  | None => s' = s
  | Some k => ∃ ci ck,
      s.(sc_columns) !! s.(sc_active) = Some ci ∧ s.(sc_columns) !! k = Some ck ∧
      arrangement s' = arr_swap s.(sc_active) ci.(co_active) k ck.(co_active) (arrangement s) ∧
      s'.(sc_active) = k ∧
      active_at s' s.(sc_active) = Some ci.(co_active) ∧ active_at s' k = Some ck.(co_active)
  end.

Lemma active_tile_window s i c :
  scrolling_ok s → s.(sc_columns) !! i = Some c → ∃ w, col_windows c !! co_active c = Some w.
Proof.
  intros Hs Hi. apply lookup_lt_is_Some_2. rewrite col_windows_length.
  apply (co_active_ok c). by eapply column_lookup_ok.
Qed.

Lemma neighbour_adjacent s direction k :
  scrolling_ok s → neighbour s direction = Some k →
  s.(sc_active) < length s.(sc_columns) ∧ k < length s.(sc_columns) ∧
  (k + 1 = s.(sc_active) ∧ direction = ScrollLeft ∨ k = s.(sc_active) + 1 ∧ direction = ScrollRight).
Proof.
  intros Hs. unfold neighbour. destruct direction.
  - destruct (Nat.eqb_spec (sc_active s) 0); [done|]. intros [= <-].
    destruct (sc_active_ok s Hs); [|lia]. split_and!; [lia..|]. left. split; [lia|done].
  - destruct (Nat.leb_spec (length (sc_columns s)) (sc_active s + 1)); [done|]. intros [= <-].
    split_and!; [lia..|]. by right.
Qed.

(** The guards of the operation are the test for a neighbour. *)
Lemma swap_guard s direction :
  scrolling_ok s →
  sc_is_empty s || match direction with
                   | ScrollLeft => s.(sc_active) =? 0
                   | ScrollRight => s.(sc_active) =? length s.(sc_columns) - 1
                   end = bool_decide (neighbour s direction = None).
Proof.
  intros Hs. unfold neighbour. destruct (sc_is_empty s) eqn:E; simpl.
  - rewrite sc_is_empty_spec, bool_decide_eq_true in E. destruct (sc_active_ok s Hs) as [H|[_ ->]].
    + rewrite E in H. simpl in H. lia.
    + rewrite E. by destruct direction.
  - pose proof (sc_nonempty s Hs E). destruct direction.
    + by destruct (Nat.eqb_spec (sc_active s) 0).
    + destruct (Nat.leb_spec (length (sc_columns s)) (sc_active s + 1)).
      * by apply Nat.eqb_eq; lia.
      * apply Nat.eqb_neq. lia.
Qed.

(** The last part of the operation. *)
Lemma swap_finish s s4 i a k b li lk wi wk :
  i ≠ k → keeps s s4 → arrangement s4 = arr_swap i a k b (arrangement s) →
  arrangement s !! i = Some li → arrangement s !! k = Some lk →
  li !! a = Some wi → lk !! b = Some wk →
  runs (source ← s4.(sc_columns) !! i;
        target ← sc_columns (set_column i (set_co_active a source) s4) !! k;
        _ ← target.(co_tiles) !! b; _ ← source.(co_tiles) !! a;
        activate_column (set_column k (set_co_active b target)
          (set_column i (set_co_active a source) s4)) k)
    (λ s', keeps s s' ∧ arrangement s' = arr_swap i a k b (arrangement s) ∧ sc_active s' = k ∧
      active_at s' i = Some a ∧ active_at s' k = Some b).
Proof.
  intros Hne (Hs4 & Hw4 & Ho4) Harr Hi Hk Ha Hb.
  destruct (arr_swap_lookups (arrangement s) i a k b li lk wi wk Hne Hi Hk Ha Hb) as [Hi4 Hk4].
  rewrite <-Harr in Hi4, Hk4.
  eapply runs_weaken; [apply (set_actives_runs s4 i a k b _ _ Hs4 Hne Hi4 Hk4)|].
  - rewrite length_insert. by apply lookup_lt_Some in Ha.
  - rewrite length_insert. by apply lookup_lt_Some in Hb.
  - intros s' (Hs' & Harr' & Hact & Ho' & Hat & Hbt). unfold keeps, windows. rewrite Harr'.
    split_and!; [done|exact Hw4|congruence|done..].
Qed.

(** In a column of one window that one is active. *)
Lemma active_at_single s i w : scrolling_ok s → arrangement s !! i = Some [w] → active_at s i = Some 0.
Proof.
  intros Hs Hi. apply column_of_arrangement in Hi as (c & Hc & Hw). unfold active_at. rewrite Hc. cbn. f_equal.
  pose proof (co_active_ok c (column_lookup_ok s i c Hs Hc)) as Ha.
  rewrite <-col_windows_length, Hw in Ha. cbn in Ha. lia.
Qed.

(** The focused window is the one that moved, and it is still focused. *)
Lemma swapped_focus s s' direction :
  scrolling_ok s → swapped s s' direction → active_window s' = active_window s.
Proof.
  intros Hs. unfold swapped. destruct (neighbour s direction) as [k|] eqn:En; [|by intros ->].
  intros (ci & ck & Hci & Hck & Harr & Hact & _ & Hb).
  destruct (neighbour_adjacent s direction k Hs En) as (_ & _ & Hadj).
  destruct (active_tile_window s _ ci Hs Hci) as [wi Hwi]. destruct (active_tile_window s _ ck Hs Hck) as [wk Hwk].
  assert (Hne : sc_active s ≠ k) by (destruct Hadj as [[]|[]]; lia).
  destruct (arr_swap_lookups (arrangement s) _ _ _ _ _ _ wi wk Hne (arrangement_lookup s _ ci Hci)
    (arrangement_lookup s _ ck Hck) Hwi Hwk) as [_ Hk].
  rewrite !active_window_at, Hact, Harr, Hk, Hb, (arrangement_lookup s _ ci Hci). unfold active_at. rewrite Hci.
  cbn. rewrite Hwi. apply list_lookup_insert_eq. by apply lookup_lt_Some in Hwk.
Qed.

Lemma swap_window_runs s direction :
  scrolling_ok s →
  runs (swap_window_in_direction s direction) (λ s', keeps s s' ∧ swapped s s' direction).
Proof.
  intros Hs. pose proof (swap_guard s direction Hs) as Hg. unfold swap_window_in_direction, swapped.
  destruct (neighbour s direction) as [k|] eqn:En.
  2: { rewrite bool_decide_eq_true_2, orb_true_iff in Hg by done.
       destruct (sc_is_empty s); [by apply runs_ret; split; [apply keeps_refl|]|].
       destruct Hg as [|Hg]; [done|]. rewrite Hg. apply runs_ret. split; [by apply keeps_refl|done]. }
  rewrite bool_decide_eq_false_2, orb_false_iff in Hg by done. destruct Hg as [-> ->].
  destruct (neighbour_adjacent s direction k Hs En) as (Hal & Hkl & Hadj).
  destruct (lookup_lt_is_Some_2 _ _ Hal) as [ci Hci]. destruct (lookup_lt_is_Some_2 _ _ Hkl) as [ck Hck].
  destruct (active_tile_window s _ ci Hs Hci) as [wi Hwi].
  destruct (active_tile_window s _ ck Hs Hck) as [wk Hwk].
  pose proof (arrangement_lookup s _ ci Hci) as Hi. pose proof (arrangement_lookup s _ ck Hck) as Hk.
  set (i := sc_active s) in *. assert (Hne : i ≠ k) by lia.
  assert (match direction with ScrollLeft => i - 1 | ScrollRight => i + 1 end = k) as ->
    by (destruct Hadj as [[? ->]|[? ->]]; lia).
  rewrite Hci. cbn [mbind option_bind]. rewrite Hck. cbn [mbind option_bind].
  rewrite <-(col_windows_length ci), <-(col_windows_length ck).
  destruct (Nat.eqb_spec (length (col_windows ci)) 1) as [Hli|Hli]; simpl.
  - assert (col_windows ci = [wi] ∧ co_active ci = 0) as [Eci Ea0].
    { destruct (col_windows ci) as [|x [|y l]]; [done| |done].
      destruct (co_active ci); [|done]. by injection Hwi as ->. }
    rewrite Eci in Hi, Hwi. rewrite Ea0 in *.
    destruct (Nat.eqb_spec (length (col_windows ck)) 1) as [Hlk|Hlk].
    + (* two columns of one window *)
      assert (col_windows ck = [wk] ∧ co_active ck = 0) as [Eck Eb0].
      { destruct (col_windows ck) as [|x [|y l]]; [done| |done].
        destruct (co_active ck); [|done]. by injection Hwk as ->. }
      rewrite Eck in Hk. eapply runs_weaken; [apply (move_column_to_runs s k Hs); left; lia|].
      intros s' [(Hkp & Hact & Harr)|[_ ?]]; [|lia]. split; [done|].
      exists ci, ck. rewrite Ea0, Eb0.
      assert (Harr' : arrangement s' = arr_swap i 0 k 0 (arrangement s))
        by (rewrite Harr; apply (arr_move_adjacent _ _ _ wi wk); [done|done|lia]).
      destruct (arr_swap_lookups _ i 0 k 0 _ _ wi wk Hne Hi Hk eq_refl eq_refl) as [Hi' Hk'].
      rewrite <-Harr' in Hi', Hk'. destruct Hkp as (Hs' & _ & _).
      split_and!; [done..|by eapply active_at_single|by eapply active_at_single].
    + set (k' := match direction with ScrollLeft => k | ScrollRight => k - 1 end).
      assert (Hk' : k < i ∧ k' = k ∨ k = i + 1 ∧ k' = i)
        by (unfold k'; destruct Hadj as [[? ->]|[? ->]]; [left|right]; lia).
      destruct (swap_drained_runs s i k k' _ _ wi wk Hs Hi Hk Hwk Hk') as (s4 & He & Hk4 & Harr4).
      destruct (remove_tile_by_idx s i 0) as [[r1 s1]|]; [|done]. simpl in *.
      destruct (add_tile_to_column s1 k' _ _ _) as [s2|] eqn:E2; [|done]. simpl in *.
      destruct (remove_tile_by_idx s2 k' _) as [[r3 s3]|] eqn:E3; [|done]. simpl in *.
      rewrite He. cbn [mbind option_bind].
      eapply runs_weaken; [exact (swap_finish s s4 i 0 k _ _ _ wi wk Hne Hk4 Harr4 Hi Hk Hwi Hwk)|].
      intros s' (? & ? & ? & ? & ?). split; [done|]. exists ci, ck. by rewrite Ea0.
  - assert (match direction with ScrollLeft | _ => k end = k) as -> by (by destruct direction).
    destruct (swap_many_runs s i _ k _ _ _ wi wk Hs Hne Hi Hk Hwi Hwk Hli) as (s4 & He & Hk4 & Harr4).
    destruct (remove_tile_by_idx s i _) as [[r1 s1]|]; [|done]. simpl in *.
    destruct (add_tile_to_column s1 k _ _ _) as [s2|] eqn:E2; [|done]. simpl in *.
    destruct (remove_tile_by_idx s2 k _) as [[r3 s3]|] eqn:E3; [|done]. simpl in *.
    rewrite He. cbn [mbind option_bind].
    eapply runs_weaken; [exact (swap_finish s s4 i _ k _ _ _ wi wk Hne Hk4 Harr4 Hi Hk Hwi Hwk)|].
    intros s' (? & ? & ? & ? & ?). split; [done|]. by exists ci, ck.
Qed.
