(* ===== verification/LayoutScrollingProps.v ===== *)
(** * Theorems on the scrolling layout

    All the operations of [LayoutScrolling] together: none panics, all keep the invariant that
    the code checks in its tests ([verify_invariants]), and no window is lost or duplicated;
    round trips of the operations that undo each other. *)
From S2P Require Import Prelude Float64 LayoutScrolling LayoutScrollingOps LayoutSwap.

(** ** All operations *)
Inductive ScrollOp :=
  | OpAddTile (col_idx : option nat) (t : Tile) (activate : bool) (w : ColumnWidth) (full : bool)
  | OpAddTileToColumn (col_idx : nat) (tile_idx : option nat) (t : Tile) (activate : bool)
  | OpAddTileRightOf (right_of : N) (t : Tile) (activate : bool) (w : ColumnWidth) (full : bool)
  | OpAddColumn (idx : option nat) (c : Column) (activate : bool)
  | OpRemoveActiveTile | OpRemoveTile (window : N) | OpRemoveActiveColumn
  | OpActivateWindow (window : N)
  | OpFocusLeft | OpFocusRight | OpFocusColumnFirst | OpFocusColumnLast | OpFocusColumn (index : nat)
  | OpFocusWindowInColumn (index : nat) | OpFocusDown | OpFocusUp | OpFocusDownOrLeft
  | OpFocusDownOrRight | OpFocusUpOrLeft | OpFocusUpOrRight | OpFocusTop | OpFocusBottom
  | OpMoveColumnToIndex (index : nat) | OpMoveLeft | OpMoveRight | OpMoveColumnToFirst
  | OpMoveColumnToLast | OpMoveDown | OpMoveUp
  | OpConsumeOrExpelLeft (window : option N) | OpConsumeOrExpelRight (window : option N)
  | OpConsumeIntoColumn | OpExpelFromColumn | OpSwap (direction : ScrollDirection)
  | OpSetFullscreen (window : N) (b : bool) | OpSetMaximized (window : N) (b : bool)
  | OpSetColumnDisplay (d : ColumnDisplay) | OpToggleTabbed
  | OpResizeBegin (window : N) | OpResizeEnd (window : option N).

(** The space after an operation and the windows it removed. *)
Definition run_op (s : ScrollingSpace) (op : ScrollOp) : option (ScrollingSpace * list N) :=
  let keep (o : option ScrollingSpace) := (λ s, (s, [])) <$> o in
  let keep_b (o : option (ScrollingSpace * bool)) := (λ r, (fst r, [])) <$> o in
  match op with
  | OpAddTile i t a w f => keep (sc_add_tile s i t a w f)
  | OpAddTileToColumn i j t a => keep (add_tile_to_column s i j t a)
  | OpAddTileRightOf r t a w f => keep (add_tile_right_of s r t a w f)
  | OpAddColumn i c a => keep (add_column s i c a)
  | OpRemoveActiveTile =>
      (λ r, (snd r, match fst r with Some rt => [tl_window (rt_tile rt)] | None => [] end)) <$>
        sc_remove_active_tile s
  | OpRemoveTile w => (λ r, (snd r, [tl_window (rt_tile (fst r))])) <$> sc_remove_tile s w
  | OpRemoveActiveColumn =>
      (λ r, (snd r, match fst r with Some c => col_windows c | None => [] end)) <$>
        sc_remove_active_column s
  | OpActivateWindow w => keep_b (sc_activate_window s w)
  | OpFocusLeft => keep_b (focus_left s)
  | OpFocusRight => keep_b (focus_right s)
  | OpFocusColumnFirst => keep (focus_column_first s)
  | OpFocusColumnLast => keep (focus_column_last s)
  | OpFocusColumn i => keep (focus_column s i)
  | OpFocusWindowInColumn i => keep (focus_window_in_column s i)
  | OpFocusDown => keep_b (focus_down s)
  | OpFocusUp => keep_b (focus_up s)
  | OpFocusDownOrLeft => keep (focus_down_or_left s)
  | OpFocusDownOrRight => keep (focus_down_or_right s)
  | OpFocusUpOrLeft => keep (focus_up_or_left s)
  | OpFocusUpOrRight => keep (focus_up_or_right s)
  | OpFocusTop => keep (focus_top s)
  | OpFocusBottom => keep (focus_bottom s)
  | OpMoveColumnToIndex i => keep (move_column_to_index s i)
  | OpMoveLeft => keep_b (move_left s)
  | OpMoveRight => keep_b (move_right s)
  | OpMoveColumnToFirst => keep (move_column_to_first s)
  | OpMoveColumnToLast => keep (move_column_to_last s)
  | OpMoveDown => keep_b (move_down s)
  | OpMoveUp => keep_b (move_up s)
  | OpConsumeOrExpelLeft w => keep (consume_or_expel_window_left s w)
  | OpConsumeOrExpelRight w => keep (consume_or_expel_window_right s w)
  | OpConsumeIntoColumn => keep (consume_into_column s)
  | OpExpelFromColumn => keep (expel_from_column s)
  | OpSwap d => keep (swap_window_in_direction s d)
  | OpSetFullscreen w b => keep_b (sc_set_fullscreen s w b)
  | OpSetMaximized w b => keep_b (sc_set_maximized s w b)
  | OpSetColumnDisplay d => keep (set_column_display s d)
  | OpToggleTabbed => keep (toggle_column_tabbed_display s)
  | OpResizeBegin w => keep_b (interactive_resize_begin s w)
  | OpResizeEnd w => keep (interactive_resize_end s w)
  end.

Definition op_added (op : ScrollOp) : list N :=
  match op with
  | OpAddTile _ t _ _ _ | OpAddTileToColumn _ _ t _ | OpAddTileRightOf _ t _ _ _ => [tl_window t]
  | OpAddColumn _ c _ => col_windows c
  | _ => []
  end.

(** What the callers provide: new windows are new, named windows are there, indices are in
    range. *)
Definition op_pre (s : ScrollingSpace) (op : ScrollOp) : Prop :=
  NoDup (op_added op ++ windows s) ∧
  match op with
  | OpAddTile (Some i) _ _ _ _ => i ≤ length s.(sc_columns)
  | OpAddTileToColumn i j _ _ =>
      ∃ c, s.(sc_columns) !! i = Some c ∧ default (length c.(co_tiles)) j ≤ length c.(co_tiles)
  | OpAddTileRightOf r _ _ _ _ => r ∈ windows s
  | OpAddColumn idx c _ => column_ok c ∧ match idx with Some i => i ≤ length s.(sc_columns) | None => True end
  | OpRemoveTile w | OpSetFullscreen w _ | OpSetMaximized w _ | OpResizeBegin w => w ∈ windows s
  | OpConsumeOrExpelLeft (Some w) | OpConsumeOrExpelRight (Some w) => w ∈ windows s
  | _ => True
  end.

(** ** Every operation *)
Definition op_ok (s : ScrollingSpace) (op : ScrollOp) (r : ScrollingSpace * list N) : Prop :=
  scrolling_ok (fst r) ∧ op_added op ++ windows s ≡ₚ snd r ++ windows (fst r).

Lemma keep_runs s op o :
  op_added op = [] → runs o (keeps s) → runs ((λ s', (s', [])) <$> o) (op_ok s op).
Proof.
  intros Ha Ho. eapply runs_fmap; [exact Ho|]. intros s' (? & Hw & _). split; [done|].
  rewrite Ha. simpl. by rewrite Hw.
Qed.

Lemma keep_b_runs s op (o : option (ScrollingSpace * bool)) :
  op_added op = [] → runs o (λ r, keeps s (fst r)) → runs ((λ r, (fst r, [])) <$> o) (op_ok s op).
Proof.
  intros Ha Ho. eapply runs_fmap; [exact Ho|]. intros s' (? & Hw & _). split; [done|].
  rewrite Ha. simpl. by rewrite Hw.
Qed.

Lemma keep_fst_runs {B} s (o : option (ScrollingSpace * B)) :
  runs o (λ r, keeps s (fst r)) → runs (fst <$> o) (keeps s).
Proof. intros Ho. eapply runs_fmap; [exact Ho|done]. Qed.

Lemma add_tile_op_runs s i t a w f :
  scrolling_ok s → op_pre s (OpAddTile i t a w f) →
  runs (run_op s (OpAddTile i t a w f)) (op_ok s (OpAddTile i t a w f)).
Proof.
  intros Hs [Hn Hi]. simpl in *. apply NoDup_cons in Hn as [Hn _].
  eapply runs_fmap; [apply sc_add_tile_runs; [done|done|intros ? ->; done]|].
  intros s' (? & _ & Hw & _). split; [done|]. simpl. by rewrite Hw.
Qed.

Lemma add_tile_to_column_op_runs s i j t a :
  scrolling_ok s → op_pre s (OpAddTileToColumn i j t a) →
  runs (run_op s (OpAddTileToColumn i j t a)) (op_ok s (OpAddTileToColumn i j t a)).
Proof.
  intros Hs [Hn (c & Hc & Hj)]. simpl in *. apply NoDup_cons in Hn as [Hn _].
  eapply runs_fmap; [by apply (add_tile_to_column_runs s i j t a c)|].
  intros s' (? & Hw & _). split; [done|]. simpl. by rewrite Hw.
Qed.

Lemma add_tile_right_of_op_runs s r t a w f :
  scrolling_ok s → op_pre s (OpAddTileRightOf r t a w f) →
  runs (run_op s (OpAddTileRightOf r t a w f)) (op_ok s (OpAddTileRightOf r t a w f)).
Proof.
  intros Hs [Hn Hr]. simpl in *. apply NoDup_cons in Hn as [Hn _]. unfold add_tile_right_of.
  destruct (position_col_runs s r Hr) as (i & Hpos & c & _ & _ & Hi & _). rewrite Hpos. simpl.
  apply lookup_lt_Some in Hi.
  eapply runs_fmap; [apply sc_add_tile_runs; [done|done|intros ? [= <-]; lia]|].
  intros s' (? & _ & Hw & _). split; [done|]. simpl. by rewrite Hw.
Qed.

Lemma add_column_op_runs s i c a :
  scrolling_ok s → op_pre s (OpAddColumn i c a) →
  runs (run_op s (OpAddColumn i c a)) (op_ok s (OpAddColumn i c a)).
Proof.
  intros Hs [Hn [Hc Hi]]. simpl in *.
  eapply runs_fmap; [apply add_column_runs; [done|done|done|intros ? ->; done]|].
  intros s' (? & _ & _ & Hw & _). split; [done|]. simpl. by rewrite Hw.
Qed.

Lemma active_source s :
  scrolling_ok s → sc_is_empty s = false →
  ∃ c t, s.(sc_columns) !! s.(sc_active) = Some c ∧ c.(co_tiles) !! c.(co_active) = Some t.
Proof.
  intros Hs He. destruct (source_tile_runs s None Hs He) as ([i j] & _ & c & t & ? & ? & ? & ?);
    [done|]. simpl in *. subst. eauto.
Qed.

Lemma remove_active_tile_op_runs s :
  scrolling_ok s → runs (run_op s OpRemoveActiveTile) (op_ok s OpRemoveActiveTile).
Proof.
  intros Hs. simpl. unfold sc_remove_active_tile. destruct (sc_is_empty s) eqn:E.
  { apply runs_ret. by split. }
  destruct (active_source s Hs E) as (c & t & Hc & Ht). rewrite Hc. cbn [mbind option_bind].
  destruct (remove_tile_runs s _ _ c t Hs Hc Ht) as ([r s'] & -> & Hrt & _ & Hs' & Hw & _).
  apply runs_ret. simpl in *. split; [done|]. simpl. by rewrite Hw, Hrt.
Qed.

Lemma remove_tile_op_runs s w :
  scrolling_ok s → w ∈ windows s → runs (run_op s (OpRemoveTile w)) (op_ok s (OpRemoveTile w)).
Proof.
  intros Hs Hw. simpl. unfold sc_remove_tile.
  destruct (position_col_runs s w Hw) as (i & -> & c & j & t & Hi & Hp & Hj & Ht). simpl.
  rewrite Hi. simpl. rewrite Hp. simpl.
  eapply runs_fmap; [exact (remove_tile_runs s i j c t Hs Hi Hj)|].
  intros [r s'] (Hrt & _ & Hs' & Hw' & _). simpl in *. split; [done|]. simpl. by rewrite Hw', Hrt.
Qed.

Lemma remove_active_column_op_runs s :
  scrolling_ok s → runs (run_op s OpRemoveActiveColumn) (op_ok s OpRemoveActiveColumn).
Proof.
  intros Hs. simpl. unfold sc_remove_active_column. destruct (sc_is_empty s) eqn:E.
  { apply runs_ret. by split. }
  destruct (active_source s Hs E) as (c & t & Hc & _).
  destruct (remove_column_runs s _ c Hs Hc) as ([c' s'] & -> & Hfst & Hs' & Hcols & _). simpl in *.
  subst c'. apply runs_ret. split; [done|]. simpl. unfold windows, arrangement. rewrite Hcols.
  rewrite arrangement_remove_at. apply mjoin_remove_at. by apply arrangement_lookup.
Qed.

Lemma activate_window_runs s w :
  scrolling_ok s → runs (sc_activate_window s w) (λ r, keeps s (fst r)).
Proof.
  intros Hs. unfold sc_activate_window. destruct (position_col s w) as [i|] eqn:E.
  - destruct (position_col_runs s w) as (i' & Hp & c & j & t & Hi & Hpos & Hj & Ht).
    { apply vec_position_Some in E as (c & Hc & Hw%col_contains_spec).
      apply list_elem_of_join. exists (col_windows c). split; [done|].
      apply list_elem_of_lookup. exists i. by apply arrangement_lookup. }
    assert (i' = i) as -> by congruence. rewrite Hi. cbn [mbind option_bind].
    unfold col_activate_window. rewrite Hpos. cbn [mbind option_bind].
    destruct (activate_idx_keeps c j) as ([c' b] & -> & Hkc); [by eapply column_lookup_ok|
      by apply lookup_lt_Some in Hj|]. simpl in *.
    pose proof (set_column_keeps s i c c' Hs Hi Hkc) as Hk.
    eapply runs_bind; [apply (activate_column_keeps (set_column i c' s)); [apply Hk|]|].
    + left. simpl. rewrite length_insert. by apply lookup_lt_Some in Hi.
    + intros s' Hk'. apply runs_ret. simpl. by eapply keeps_trans.
  - by apply runs_ret, keeps_refl.
Qed.

Lemma resize_begin_runs s w :
  scrolling_ok s → w ∈ windows s → runs (interactive_resize_begin s w) (λ r, keeps s (fst r)).
Proof.
  intros Hs Hw. unfold interactive_resize_begin.
  destruct (sc_resize s); [by apply runs_ret, keeps_refl|].
  destruct (position_col_runs s w Hw) as (i & -> & c & _ & _ & Hi & _). cbn [mbind option_bind].
  rewrite Hi. cbn [mbind option_bind]. case_decide; [|by apply runs_ret, keeps_refl].
  apply runs_ret. unfold keeps. split; [|done]. destruct Hs as [H1 H2 H3 H4]. split; try done.
  by intros ? [= <-].
Qed.

Lemma resize_end_runs s w : scrolling_ok s → runs (interactive_resize_end s w) (keeps s).
Proof.
  intros Hs. unfold interactive_resize_end.
  destruct (sc_resize s) as [v|] eqn:Ev; [|by apply runs_ret, keeps_refl].
  assert (Hk : keeps s (set_sc_resize None s)).
  { unfold keeps. split; [|done]. destruct Hs as [H1 H2 H3 H4]. split; done. }
  destruct w as [w|]; [|by apply runs_ret].
  destruct (N.eqb w v); [|by apply runs_ret, keeps_refl].
  destruct (lookup_lt_is_Some_2 (sc_columns s) (sc_active s)) as [c ->]; [|by apply runs_ret].
  apply (sc_nonempty s Hs). rewrite sc_is_empty_spec, bool_decide_eq_false. intros E.
  pose proof (sc_resize_ok s Hs v Ev) as H. unfold windows, arrangement in H. rewrite E in H.
  by apply not_elem_of_nil in H.
Qed.

Lemma toggle_tabbed_runs s : scrolling_ok s → runs (toggle_column_tabbed_display s) (keeps s).
Proof.
  intros Hs. unfold toggle_column_tabbed_display.
  destruct (sc_is_empty s) eqn:E; [by apply runs_ret, keeps_refl|].
  destruct (active_source s Hs E) as (c & _ & Hc & _). rewrite Hc. cbn [mbind option_bind].
  by apply set_column_display_runs.
Qed.

(** The index an operation clamps to the columns. *)
Lemma clamped_runs s (f : ScrollingSpace → nat → option ScrollingSpace) i :
  scrolling_ok s →
  (∀ k, k < length s.(sc_columns) ∨ k = s.(sc_active) → runs (f s k) (keeps s)) →
  runs (if sc_is_empty s then Some s else f s (Nat.min i (length s.(sc_columns) - 1))) (keeps s).
Proof.
  intros Hs Hf. destruct (sc_is_empty s) eqn:E; [by apply runs_ret, keeps_refl|].
  apply Hf. left. pose proof (sc_nonempty s Hs E). lia.
Qed.

Lemma last_runs s (f : ScrollingSpace → nat → option ScrollingSpace) :
  scrolling_ok s →
  (∀ k, k < length s.(sc_columns) ∨ k = s.(sc_active) → runs (f s k) (keeps s)) →
  runs (if sc_is_empty s then Some s else f s (length s.(sc_columns) - 1)) (keeps s).
Proof.
  intros Hs Hf. destruct (sc_is_empty s) eqn:E; [by apply runs_ret, keeps_refl|].
  apply Hf. left. pose proof (sc_nonempty s Hs E). lia.
Qed.

Lemma first_in_range s : scrolling_ok s → 0 < length s.(sc_columns) ∨ 0 = s.(sc_active).
Proof. intros Hs. destruct (sc_active_ok s Hs) as [?|[_ ?]]; [left; lia|by right]. Qed.

Lemma move_left_runs s : scrolling_ok s → runs (move_left s) (λ r, keeps s (fst r)).
Proof.
  intros Hs. unfold move_left. destruct (Nat.eqb_spec (sc_active s) 0); [by apply runs_ret, keeps_refl|].
  eapply runs_bind; [apply (move_column_to_keeps s _ Hs)|intros s' ?; by apply runs_ret].
  left. destruct (sc_active_ok s Hs); lia.
Qed.

Lemma move_right_runs s : scrolling_ok s → runs (move_right s) (λ r, keeps s (fst r)).
Proof.
  intros Hs. unfold move_right.
  destruct (Nat.leb_spec (length (sc_columns s)) (sc_active s + 1)); [by apply runs_ret, keeps_refl|].
  eapply runs_bind; [apply (move_column_to_keeps s _ Hs); left; lia|intros s' ?; by apply runs_ret].
Qed.

Create HintDb scrolling.
#[export] Hint Resolve activate_column_keeps move_column_to_keeps focus_left_runs focus_right_runs
  col_focus_index_runs col_focus_up_runs col_focus_down_runs col_focus_top_runs col_focus_bottom_runs
  col_move_up_runs col_move_down_runs move_left_runs move_right_runs first_in_range
  consume_or_expel_window_left_runs consume_or_expel_window_right_runs sc_set_fullscreen_runs
  sc_set_maximized_runs set_column_display_runs toggle_tabbed_runs resize_begin_runs
  resize_end_runs activate_window_runs with_unit_runs : scrolling.

Lemma focus_down_runs s : scrolling_ok s → runs (focus_down s) (λ r, keeps s (fst r)).
Proof. intros Hs. apply on_active_column_runs; auto with scrolling. Qed.
Lemma focus_up_runs s : scrolling_ok s → runs (focus_up s) (λ r, keeps s (fst r)).
Proof. intros Hs. apply on_active_column_runs; auto with scrolling. Qed.
#[export] Hint Resolve focus_down_runs focus_up_runs : scrolling.

Lemma run_op_runs s op : scrolling_ok s → op_pre s op → runs (run_op s op) (op_ok s op).
Proof.
  intros Hs Hpre. pose proof Hpre as [_ Hop]. destruct op.
  all: try (apply keep_runs; [done|]; auto with scrolling; fail).
  all: try (apply keep_b_runs; [done|]; auto with scrolling; fail).
  - by apply add_tile_op_runs.
  - by apply add_tile_to_column_op_runs.
  - by apply add_tile_right_of_op_runs.
  - by apply add_column_op_runs.
  - by apply remove_active_tile_op_runs.
  - by apply remove_tile_op_runs.
  - by apply remove_active_column_op_runs.
  - apply keep_runs; [done|]. apply activate_column_keeps; auto with scrolling.
  - apply keep_runs; [done|]. apply (last_runs s activate_column Hs). auto with scrolling.
  - apply keep_runs; [done|]. apply (clamped_runs s activate_column _ Hs). auto with scrolling.
  - apply keep_runs; [done|]. apply keep_fst_runs, on_active_column_runs; auto with scrolling.
  - apply keep_runs; [done|]. apply focus_or_runs; auto with scrolling.
  - apply keep_runs; [done|]. apply focus_or_runs; auto with scrolling.
  - apply keep_runs; [done|]. apply focus_or_runs; auto with scrolling.
  - apply keep_runs; [done|]. apply focus_or_runs; auto with scrolling.
  - apply keep_runs; [done|]. apply keep_fst_runs, on_active_column_runs; auto with scrolling.
  - apply keep_runs; [done|]. apply keep_fst_runs, on_active_column_runs; auto with scrolling.
  - apply keep_runs; [done|]. apply (clamped_runs s move_column_to _ Hs). auto with scrolling.
  - apply keep_runs; [done|]. apply move_column_to_keeps; auto with scrolling.
  - apply keep_runs; [done|]. apply (last_runs s move_column_to Hs). auto with scrolling.
  - apply keep_b_runs; [done|]. apply on_active_column_runs; auto with scrolling.
  - apply keep_b_runs; [done|]. apply on_active_column_runs; auto with scrolling.
  - apply keep_runs; [done|]. apply consume_or_expel_window_left_runs; [done|]. by intros ? ->.
  - apply keep_runs; [done|]. apply consume_or_expel_window_right_runs; [done|]. by intros ? ->.
  - apply keep_runs; [done|]. eapply runs_weaken; [by apply consume_into_column_runs|]. by intros ? [].
  - apply keep_runs; [done|]. eapply runs_weaken; [by apply expel_from_column_runs|]. by intros ? [].
  - apply keep_runs; [done|]. eapply runs_weaken; [by apply swap_window_runs|]. by intros ? [].
Qed.

(** ** Properties *)

(** A step of the space: an operation whose caller keeps its side. *)
Definition scroll_step (s s' : ScrollingSpace) : Prop :=
  ∃ op removed, op_pre s op ∧ run_op s op = Some (s', removed).

Lemma scrolling_new_ok o : scrolling_ok (Scrolling_new o).
Proof. split; [done|by right|constructor|done]. Qed.

Lemma scroll_steps_ok s s' : rtc scroll_step s s' → scrolling_ok s → scrolling_ok s'.
Proof.
  induction 1 as [|s1 s2 s3 (op & removed & Hpre & Hrun) _ IH]; intros Hs; [done|].
  apply IH. destruct (run_op_runs s1 op Hs Hpre) as (r & Hr & Hok & _). by simplify_eq.
Qed.

(** C19: no operation of the scrolling layout panics. In every space reached from an empty
    one the active column and tiles are in range, fullscreen and maximized columns have one tile
    or are tabbed, windows are distinct and an interactive resize is of a window that is there;
    and every operation whose caller keeps its side (new windows are new, named windows are
    there) runs and neither loses nor duplicates a window. *)
Theorem scrolling_never_panics o s :
  rtc scroll_step (Scrolling_new o) s →
  scrolling_ok s ∧
  ∀ op, op_pre s op → ∃ s' removed, run_op s op = Some (s', removed) ∧
    op_added op ++ windows s ≡ₚ removed ++ windows s'.
Proof.
  intros Hr. assert (Hs : scrolling_ok s) by (eapply scroll_steps_ok, scrolling_new_ok; exact Hr).
  split; [done|]. intros op Hpre. destruct (run_op_runs s op Hs Hpre) as ([s' r] & ? & _ & ?). eauto.
Qed.

Definition sample_options : Options := MkOptions DisplayNormal false.

Definition sample_tile (w : N) : Tile := MkTile w SizeNormal None sample_options false.

Definition half : ColumnWidth := WidthFixed f64_one.

Definition run_ops (s : ScrollingSpace) (ops : list ScrollOp) : option ScrollingSpace :=
  foldl (λ o op, s ← o; fst <$> run_op s op) (Some s) ops.

(** Two columns, the active one of two windows. *)
Definition sample_space : ScrollingSpace := Eval vm_compute in
  default (Scrolling_new sample_options)
    (run_ops (Scrolling_new sample_options)
       [OpAddTile None (sample_tile 1) true half false; OpAddTile None (sample_tile 2) true half false;
        OpAddTileToColumn 1 None (sample_tile 3) true]).

Lemma sample_space_reached : rtc scroll_step (Scrolling_new sample_options) sample_space.
Proof.
  eapply rtc_l.
  { exists (OpAddTile None (sample_tile 1) true half false), []. split; [|reflexivity].
    split; [|exact I]. apply (bool_decide_unpack _); vm_compute; exact I. }
  eapply rtc_l.
  { exists (OpAddTile None (sample_tile 2) true half false), []. split; [|reflexivity].
    split; [|exact I]. apply (bool_decide_unpack _); vm_compute; exact I. }
  eapply rtc_l; [|apply rtc_refl].
  exists (OpAddTileToColumn 1 None (sample_tile 3) true), []. split; [|reflexivity].
  split; [apply (bool_decide_unpack _); vm_compute; exact I|]. eexists. split; [reflexivity|]. simpl. lia.
Qed.

Lemma scrolling_never_panics_witness :
  arrangement sample_space = [[1]; [2; 3]]%N ∧
  ∃ s' removed, run_op sample_space (OpSetFullscreen 2 true) = Some (s', removed) ∧
    op_added (OpSetFullscreen 2 true) ++ windows sample_space ≡ₚ removed ++ windows s'.
Proof.
  split; [reflexivity|].
  apply (proj2 (scrolling_never_panics sample_options sample_space sample_space_reached)).
  split; apply (bool_decide_unpack _); vm_compute; exact I.
Defined.



(** Opening a window and closing it goes back. A window added in a new active
    column and removed again leaves the columns and the active column as they were. *)
Theorem open_close_roundtrip s t w f :
  scrolling_ok s → tl_window t ∉ windows s →
  ∃ s1 r s2, sc_add_tile s None t true w f = Some s1 ∧
    sc_remove_active_tile s1 = Some (Some r, s2) ∧ tl_window (rt_tile r) = tl_window t ∧
    sc_columns s2 = sc_columns s ∧ sc_active s2 = sc_active s.
Proof.
  intros Hs Hn. set (i := column_place s None).
  destruct (sc_add_tile_runs s None t true w f Hs Hn) as
    (s1 & Hr & Hs1 & _ & _ & Ha & _ & Hprev & c & Hcols & Hw & Hca); [done|]. fold i in Ha, Hprev, Hcols.
  assert (Hi : i ≤ length (sc_columns s)) by by apply column_place_le.
  rewrite (proj1 (with_column_fields s i c)) in Hcols.
  set (c' := col_update_config (sc_options s) c) in *.
  assert (Hc' : sc_columns s1 !! i = Some c') by (rewrite Hcols; by apply vec_insert_lookup_eq).
  assert (Hl : length (co_tiles c') = 1).
  { rewrite <-col_windows_length. unfold c'. by rewrite col_update_config_windows, Hw. }
  destruct (lookup_lt_is_Some_2 (co_tiles c') 0) as [t' Ht']; [lia|].
  assert (Htw : tl_window t' = tl_window t).
  { apply col_windows_lookup in Ht'. unfold c' in Ht'. rewrite col_update_config_windows, Hw in Ht'.
    by injection Ht'. }
  exists s1. unfold sc_remove_active_tile, remove_tile_by_idx.
  assert (sc_is_empty s1 = false) as ->.
  { rewrite sc_is_empty_spec, bool_decide_eq_false. intros E. by rewrite E in Hc'. }
  rewrite Ha, Hc'. cbn [mbind option_bind].
  rewrite (proj2 (Nat.eqb_eq _ _) Hl).
  destruct (remove_column_runs s1 i c' Hs1 Hc') as ([c'' s2] & -> & Hf & Hs2 & Hc2 & Ha2 & _).
  cbn [fst snd] in *. subst c''. assert (Hca' : co_active c' = 0) by done. clearbody c'.
  cbn [mbind option_bind]. rewrite Hca', (vec_remove_ok _ _ _ Ht'). simpl. eexists _, s2. split_and!; [done|reflexivity|done| |].
  - rewrite Hc2, Hcols. pose proof (vec_remove_insert i c' (sc_columns s) Hi) as Hv.
    rewrite (vec_remove_ok _ c') in Hv by (by apply vec_insert_lookup_eq). by injection Hv.
  - rewrite Ha2. unfold removed_active. rewrite Ha, Nat.ltb_irrefl, Nat.eqb_refl. simpl.
    unfold i, column_place in *. simpl in *. destruct (sc_is_empty s) eqn:E; simpl in *.
    + rewrite sc_is_empty_spec, bool_decide_eq_true in E.
      destruct (sc_active_ok s Hs) as [H|[_ ->]]; [rewrite E in H; simpl in H; lia|].
      destruct (sc_activate_prev s1); lia.
    + rewrite Hprev by (done || lia). lia.
Qed.

Lemma open_close_roundtrip_witness :
  ∃ s1 r s2, sc_add_tile sample_space None (sample_tile 9) true half false = Some s1 ∧
    sc_remove_active_tile s1 = Some (Some r, s2) ∧
    tl_window (rt_tile r) = tl_window (sample_tile 9) ∧
    sc_columns s2 = sc_columns sample_space ∧ sc_active s2 = sc_active sample_space.
Proof.
  apply (open_close_roundtrip sample_space (sample_tile 9) half false).
  - exact (scroll_steps_ok _ _ sample_space_reached (scrolling_new_ok sample_options)).
  - simpl. set_solver.
Defined.

(** Expelling undoes consuming. When the column after the active one has a
    single window, consuming it into the active column and expelling the last window again
    gives back the same arrangement with the same active column. *)
Theorem consume_expel_roundtrip s w :
  scrolling_ok s → arrangement s !! (s.(sc_active) + 1) = Some [w] →
  ∃ s1 s2, consume_into_column s = Some s1 ∧ expel_from_column s1 = Some s2 ∧
    windows s1 ≡ₚ windows s ∧ length (arrangement s1) < length (arrangement s) ∧
    arrangement s2 = arrangement s ∧ s2.(sc_active) = s.(sc_active).
Proof.
  intros Hs Hw. set (a := sc_active s) in *. pose proof (lookup_lt_Some _ _ _ Hw) as Hlt.
  destruct (lookup_lt_is_Some_2 (arrangement s) a) as [l Hl]; [lia|].
  assert (Hne : l ≠ []).
  { intros ->. apply column_of_arrangement in Hl as (c & Hc & Hcw).
    pose proof (co_active_ok c (column_lookup_ok s a c Hs Hc)).
    rewrite <-col_windows_length, Hcw in H. simpl in H. lia. }
  destruct (consume_into_column_runs s Hs) as (s1 & Hr1 & (Hs1 & Hw1 & _) & Ha1 & Harr1).
  fold a in Ha1, Harr1. specialize (Harr1 l w [] Hl Hw).
  assert (Hrem : arr_remove_tile (a + 1) 0 (arrangement s) =
    take (a + 1) (arrangement s) ++ drop (S (a + 1)) (arrangement s)).
  { unfold arr_remove_tile. by rewrite Hw. }
  rewrite Hrem in Harr1. set (A1 := take (a + 1) _ ++ _) in Harr1.
  assert (Hla : A1 !! a = Some l) by (unfold A1; by rewrite vec_remove_lookup_lt by lia).
  unfold arr_add_tile in Harr1. rewrite Hla, firstn_all, drop_all in Harr1.
  destruct (expel_from_column_runs s1 Hs1) as (s2 & Hr2 & _ & Ha2 & Harr2).
  rewrite Ha1 in *. specialize (Harr2 l w). rewrite Harr1 in Harr2.
  rewrite list_lookup_insert_eq in Harr2 by (by apply lookup_lt_Some in Hla).
  specialize (Harr2 eq_refl Hne). rewrite list_insert_insert_eq, list_insert_id in Harr2 by done.
  exists s1, s2. split_and!; [done|done|done| | |done].
  - rewrite Harr1, length_insert. unfold A1. pose proof (length_vec_remove _ _ _ Hw). lia.
  - rewrite Harr2. unfold arr_add_column, A1. pose proof (vec_insert_remove _ _ _ Hw) as Hv.
    apply vec_insert_Some in Hv as [_ <-]. done.
Qed.

Definition sample_consume : ScrollingSpace := Eval vm_compute in
  default sample_space (run_ops sample_space [OpExpelFromColumn]).

Lemma sample_consume_ok : scrolling_ok sample_consume.
Proof.
  destruct (run_op_runs sample_space OpExpelFromColumn
    (scroll_steps_ok _ _ sample_space_reached (scrolling_new_ok sample_options)))
    as ([s' r] & Hr & Hok & _).
  - split; [apply (bool_decide_unpack _); vm_compute; exact I|exact I].
  - vm_compute in Hr. injection Hr as <- <-. exact Hok.
Qed.

Lemma consume_expel_roundtrip_witness :
  arrangement sample_consume = [[1]; [2]; [3]]%N ∧
  ∃ s1 s2, consume_into_column sample_consume = Some s1 ∧ expel_from_column s1 = Some s2 ∧
    windows s1 ≡ₚ windows sample_consume ∧
    length (arrangement s1) < length (arrangement sample_consume) ∧
    arrangement s2 = arrangement sample_consume ∧ s2.(sc_active) = sample_consume.(sc_active).
Proof.
  split; [reflexivity|].
  exact (consume_expel_roundtrip sample_consume 3 sample_consume_ok eq_refl).
Defined.

(** Moving the active column to any place and back restores the columns and the
    active column exactly. *)
Theorem move_column_roundtrip s k :
  scrolling_ok s → k < length s.(sc_columns) →
  ∃ s1 s2, move_column_to s k = Some s1 ∧ s1.(sc_active) = k ∧
    move_column_to s1 s.(sc_active) = Some s2 ∧
    s2.(sc_columns) = s.(sc_columns) ∧ s2.(sc_active) = s.(sc_active).
Proof.
  intros Hs Hk. assert (Ha : sc_active s < length (sc_columns s)).
  { destruct (sc_active_ok s Hs) as [?|[E _]]; [done|]. rewrite E in Hk. simpl in Hk. lia. }
  destruct (decide (sc_active s = k)) as [Heq|Hne].
  { exists s, s. unfold move_column_to. rewrite !decide_True by done. by split_and!. }
  destruct (lookup_lt_is_Some_2 _ _ Ha) as [c Hc]. pose proof (length_vec_remove _ _ _ Hc) as Hl.
  unfold move_column_to at 1. rewrite decide_False, (vec_remove_ok _ _ _ Hc) by done.
  set (rest := take (sc_active s) (sc_columns s) ++ drop (S (sc_active s)) (sc_columns s)) in *.
  cbn [mbind option_bind]. rewrite vec_insert_ok by lia. cbn [mbind option_bind].
  unfold activate_column at 1. cbn [sc_active sc_columns set_sc_columns set_sc_resize].
  rewrite decide_False, vec_insert_lookup_eq by (done || lia). cbn [mbind option_bind].
  eexists _, (MkScrolling (sc_columns s) (sc_active s) None false (sc_options s)).
  do 2 (split; [reflexivity|]). split; [|by split].
  unfold move_column_to. cbn [sc_active sc_columns]. rewrite decide_False by done.
  rewrite vec_remove_insert by lia. cbn [mbind option_bind sc_columns sc_resize].
  unfold rest. rewrite (vec_insert_remove _ _ _ Hc). cbn [mbind option_bind].
  unfold activate_column. cbn [sc_active sc_columns set_sc_columns set_sc_resize].
  rewrite decide_False, Hc by done. reflexivity.
Qed.

Lemma move_column_roundtrip_witness :
  ∃ s1 s2, move_column_to sample_consume 2 = Some s1 ∧ s1.(sc_active) = 2 ∧
    move_column_to s1 sample_consume.(sc_active) = Some s2 ∧
    s2.(sc_columns) = sample_consume.(sc_columns) ∧ s2.(sc_active) = sample_consume.(sc_active).
Proof. apply (move_column_roundtrip sample_consume 2 sample_consume_ok). simpl. lia. Defined.
