(* ===== verification/LayoutFloating.v ===== *)
(** * The floating layout (src/layout/floating.rs)

    The stacking order, the active window and the interactive resize of a [FloatingSpace].
    Tiles are listed from the top of the stack to the bottom.  The parent of a window is a
    property of its Wayland toplevel, kept outside the layout: it is the parameter [parent_of].
    What the code does with positions and sizes is left out, except where it picks a window:
    there the measures the code compares are arguments ([distance], [coordinate]).
    [None] is a panic. *)
From S2P Require Import Prelude Float64 LayoutScrolling.

(** ** Data *)
Record FloatingSpace := MkFloating {
  fl_tiles : list Tile;
  fl_active : option N;
  fl_resize : option N;
  fl_options : Options
}.

Definition set_fl_tiles (l : list Tile) (f : FloatingSpace) : FloatingSpace :=
  MkFloating l f.(fl_active) f.(fl_resize) f.(fl_options).
Definition set_fl_active (a : option N) (f : FloatingSpace) : FloatingSpace :=
  MkFloating f.(fl_tiles) a f.(fl_resize) f.(fl_options).
Definition set_fl_resize (r : option N) (f : FloatingSpace) : FloatingSpace :=
  MkFloating f.(fl_tiles) f.(fl_active) r f.(fl_options).

Definition Floating_new (options : Options) : FloatingSpace := MkFloating [] None None options.

Definition fl_update_config (options : Options) (f : FloatingSpace) : FloatingSpace :=
  MkFloating (set_tl_options options <$> f.(fl_tiles)) f.(fl_active) f.(fl_resize) options.

Definition idx_of (f : FloatingSpace) (id : N) : option nat :=
  vec_position (tile_is id) f.(fl_tiles).

Definition fl_contains (f : FloatingSpace) (id : N) : bool :=
  match idx_of f id with Some _ => true | None => false end.

Definition fl_has_window (f : FloatingSpace) (id : N) : bool := existsb (tile_is id) f.(fl_tiles).

Definition fl_is_empty (f : FloatingSpace) : bool :=
  match f.(fl_tiles) with [] => true | _ => false end.

Definition fl_active_window (f : FloatingSpace) : option N :=
  match f.(fl_active) with
  | Some id => tl_window <$> List.find (tile_is id) f.(fl_tiles)
  | None => None
  end.

(** Where the tiles are, as far as the focus operations look at it: their centres, their
    positions, and the widths windows expect. *)
Record Placement := MkPlacement {
  pl_center : N → f64 * f64;
  pl_pos : N → f64 * f64;
  pl_width : N → f64
}.

(** ** Stacking *)
Definition raise_window (l : list Tile) (from_idx to_idx : nat) : option (list Tile) :=
  if to_idx <=? from_idx then
    r ← vec_remove from_idx l;
    vec_insert to_idx (fst r) (snd r)
  else None.

(** [.min_by(f64::total_cmp)]: the first least element; [.max_by(..)]: the last greatest. *)
Definition min_by_total {A} (l : list (A * f64)) : option (A * f64) :=
  foldl (λ acc x, match acc with
                  | None => Some x
                  | Some y => if f64_total_leb (snd y) (snd x) then Some y else Some x
                  end) None l.

Definition max_by_total {A} (l : list (A * f64)) : option (A * f64) :=
  foldl (λ acc x, match acc with
                  | None => Some x
                  | Some y => if f64_total_leb (snd y) (snd x) then Some x else Some y
                  end) None l.

Section floating.
  Context (parent_of : N → option N).

(** [self.toplevel().parent() == Some(parent)]. *)
Definition is_child_of (w parent : N) : bool := bool_decide (parent_of w = Some parent).

Definition tile_child_of (t parent : Tile) : bool := is_child_of t.(tl_window) parent.(tl_window).

(** The indices below [idx] that descend from the tile there, back to front. *)
Definition descendants_of (l : list Tile) (idx : nat) (win : Tile) : list nat :=
  foldl (λ descendants i,
           match l !! i with
           | Some below =>
               if tile_child_of below win
                  || existsb (λ d, match l !! d with
                                   | Some t => tile_child_of below t
                                   | None => false
                                   end) descendants
               then descendants ++ [i] else descendants
           | None => descendants
           end) [] (rev (seq (S idx) (length l - S idx))).

Fixpoint raise_all (l : list Tile) (descendants : list nat) (idx : nat) : option (list Tile) :=
  match descendants with
  | [] => Some l
  | d :: ds => l ← raise_window l d idx; raise_all l ds (S idx)
  end.

Definition bring_up_descendants_of (l : list Tile) (idx : nat) : option (list Tile) :=
  win ← l !! idx;
  raise_all l (rev (descendants_of l idx win)) idx.

(** Where a tile asked for at [idx] goes: not below its parent. *)
Definition above_parent (l : list Tile) (tile : Tile) (idx : nat) : nat :=
  default idx (vec_position (tile_child_of tile) (take idx l)).

(** ** Operations *)
Definition fl_add_tile_at (f : FloatingSpace) (idx : nat) (tile : Tile) (activate : bool) :
    option FloatingSpace :=
  let tile := set_tl_pending SizeNormal (set_tl_options f.(fl_options) tile) in
  let f := if activate || fl_is_empty f then set_fl_active (Some tile.(tl_window)) f else f in
  let idx := above_parent f.(fl_tiles) tile idx in
  tiles ← vec_insert idx tile f.(fl_tiles);
  tiles ← bring_up_descendants_of tiles idx;
  Some (set_fl_tiles tiles f).

Definition fl_add_tile (f : FloatingSpace) (tile : Tile) (activate : bool) : option FloatingSpace :=
  fl_add_tile_at f 0 tile activate.

Definition add_tile_above (f : FloatingSpace) (above : N) (tile : Tile) (activate : bool) :
    option FloatingSpace :=
  idx ← idx_of f above; fl_add_tile_at f idx tile activate.

Definition activate_window_without_raising (f : FloatingSpace) (id : N) : FloatingSpace * bool :=
  if fl_contains f id then (set_fl_active (Some id) f, true) else (f, false).

Definition fl_activate_window (f : FloatingSpace) (id : N) : option (FloatingSpace * bool) :=
  match idx_of f id with
  | None => Some (f, false)
  | Some idx =>
      tiles ← raise_window f.(fl_tiles) idx 0;
      tiles ← bring_up_descendants_of tiles 0;
      Some (set_fl_active (Some id) (set_fl_tiles tiles f), true)
  end.

Definition descendants_added (f : FloatingSpace) (id : N) : option (FloatingSpace * bool) :=
  match idx_of f id with
  | None => Some (f, false)
  | Some idx =>
      tiles ← bring_up_descendants_of f.(fl_tiles) idx;
      Some (set_fl_tiles tiles f, true)
  end.

(** [distance a b] is the distance from the centre of [a]'s tile to that of [b]'s in the
    direction of the focus change. *)
Definition focus_directional (f : FloatingSpace) (distance : N → N → f64) :
    option (FloatingSpace * bool) :=
  match f.(fl_active) with
  | None => Some (f, false)
  | Some active_id =>
      _ ← idx_of f active_id;
      match min_by_total
              (List.filter (λ x, f64_ltb f64_zero (snd x))
                 ((λ t, (t.(tl_window), distance active_id t.(tl_window))) <$>
                    List.filter (λ t, negb (tile_is active_id t)) f.(fl_tiles))) with
      | Some (id, _) => r ← fl_activate_window f id; Some (fst r, true)
      | None => Some (f, false)
      end
  end.

(** [focus_leftmost] and [focus_topmost]: the least coordinate; [focus_rightmost] and
    [focus_bottommost]: the greatest. *)
Definition focus_least (f : FloatingSpace) (coordinate : N → f64) : option FloatingSpace :=
  match min_by_total ((λ t, (t.(tl_window), coordinate t.(tl_window))) <$> f.(fl_tiles)) with
  | Some (id, _) => fst <$> fl_activate_window f id
  | None => Some f
  end.

Definition focus_greatest (f : FloatingSpace) (coordinate : N → f64) : option FloatingSpace :=
  match max_by_total ((λ t, (t.(tl_window), coordinate t.(tl_window))) <$> f.(fl_tiles)) with
  | Some (id, _) => fst <$> fl_activate_window f id
  | None => Some f
  end.

Section directions.
  Context (g : Placement) (f : FloatingSpace).

Definition fl_focus_left := focus_directional f (λ focus other, f64_sub (fst (pl_center g focus)) (fst (pl_center g other))).
Definition fl_focus_right := focus_directional f (λ focus other, f64_sub (fst (pl_center g other)) (fst (pl_center g focus))).
Definition fl_focus_up := focus_directional f (λ focus other, f64_sub (snd (pl_center g focus)) (snd (pl_center g other))).
Definition fl_focus_down := focus_directional f (λ focus other, f64_sub (snd (pl_center g other)) (snd (pl_center g focus))).
Definition focus_leftmost := focus_least f (λ w, fst (pl_pos g w)).
Definition focus_rightmost := focus_greatest f (λ w, fst (pl_pos g w)).
Definition focus_topmost := focus_least f (λ w, snd (pl_pos g w)).
Definition focus_bottommost := focus_greatest f (λ w, snd (pl_pos g w)).
End directions.

End floating.

(** [width] is the tile's expected or current width, which the window decides. *)
Definition fl_remove_tile_by_idx (width : N → f64) (f : FloatingSpace) (idx : nat) :
    option (RemovedTile * FloatingSpace) :=
  r ← vec_remove idx f.(fl_tiles);
  let '(tile, tiles) := r in
  let active :=
    match tiles with
    | [] => None
    | top :: _ =>
        if bool_decide (Some tile.(tl_window) = f.(fl_active)) then Some top.(tl_window)
        else f.(fl_active)
    end in
  let resize := stop_resize (N.eqb tile.(tl_window)) f.(fl_resize) in
  Some (MkRemovedTile tile (WidthFixed (width tile.(tl_window))) false true,
        MkFloating tiles active resize f.(fl_options)).

Definition fl_remove_tile (width : N → f64) (f : FloatingSpace) (id : N) :
    option (RemovedTile * FloatingSpace) :=
  idx ← idx_of f id; fl_remove_tile_by_idx width f idx.

Definition fl_remove_active_tile (width : N → f64) (f : FloatingSpace) :
    option (option RemovedTile * FloatingSpace) :=
  match f.(fl_active) with
  | None => Some (None, f)
  | Some id => r ← fl_remove_tile width f id; Some (Some (fst r), snd r)
  end.

Definition fl_interactive_resize_begin (f : FloatingSpace) (window : N) :
    option (FloatingSpace * bool) :=
  match f.(fl_resize) with
  | Some _ => Some (f, false)
  | None =>
      _ ← List.find (tile_is window) f.(fl_tiles);
      Some (set_fl_resize (Some window) f, true)
  end.

Definition fl_interactive_resize_end (f : FloatingSpace) (window : option N) : FloatingSpace :=
  match f.(fl_resize), window with
  | None, _ => f
  | Some w, Some window => if N.eqb window w then set_fl_resize None f else f
  | Some _, None => set_fl_resize None f
  end.

(** [move_by], which [move_left], [move_right], [move_up] and [move_down] call with an amount:
    the active tile is moved, which ends the resize. *)
Definition move_by (f : FloatingSpace) : option FloatingSpace :=
  match f.(fl_active) with
  | None => Some f
  | Some active_id => _ ← idx_of f active_id; Some (fl_interactive_resize_end f None)
  end.

(** ** Theory of the stack *)

(** The tiles a mask selects. *)
Fixpoint select {A} (m : list bool) (l : list A) : list A :=
  match m, l with
  | b :: m, x :: l => if (b : bool) then x :: select m l else select m l
  | _, _ => []
  end.

(** The positions of the set bits of a mask, counted from [off]. *)
Fixpoint positions (off : nat) (m : list bool) : list nat :=
  match m with
  | [] => []
  | b :: m => if (b : bool) then off :: positions (S off) m else positions (S off) m
  end.

Lemma fmap_select {A B} (f : A → B) m l : f <$> select m l = select m (f <$> l).
Proof. revert l. induction m as [|[] m IH]; intros [|x l]; csimpl; by rewrite ?IH. Qed.

Lemma select_perm {A} m (l : list A) :
  length m = length l → select m l ++ select (negb <$> m) l ≡ₚ l.
Proof.
  revert l. induction m as [|b m IH]; intros [|x l]; [done..|]. csimpl. intros [= Hl].
  destruct b; simpl; rewrite <-?Permutation_middle; by rewrite IH.
Qed.

Lemma elem_of_select {A} m (l : list A) x : x ∈ select m l → x ∈ l.
Proof.
  revert l. induction m as [|[] m IH]; intros [|y l]; simpl; try set_solver.
Qed.

Lemma foldl_rev {A B} (f : B → A → B) b l : foldl f b (rev l) = foldr (λ x y, f y x) b l.
Proof.
  induction l as [|x l IH]; [done|]. cbn [rev foldr]. by rewrite foldl_app, IH.
Qed.

Lemma raise_all_select (m : list bool) X Y (p : Tile) B :
  length m = length B →
  raise_all (X ++ p :: Y ++ B) (positions (length X + S (length Y)) m) (length X) =
  Some (X ++ select m B ++ p :: Y ++ select (negb <$> m) B).
Proof.
  revert X Y B. induction m as [|b m IH]; intros X Y [|x B]; [done..|]. intros [= Hl].
  destruct b; csimpl.
  - unfold raise_window. rewrite (proj2 (Nat.leb_le _ _)) by lia.
    rewrite (vec_remove_ok _ x).
    2:{ rewrite lookup_app_r, Nat.add_comm, Nat.add_sub by lia. simpl.
        by rewrite lookup_app_r, Nat.sub_diag by lia. }
    cbn [mbind option_bind fst snd].
    assert (take (length X + S (length Y)) (X ++ p :: Y ++ x :: B) = X ++ p :: Y) as ->.
    { rewrite take_app_add. simpl. by rewrite take_app_length. }
    assert (drop (S (length X + S (length Y))) (X ++ p :: Y ++ x :: B) = B) as ->.
    { rewrite <-Nat.add_succ_r, drop_app_add. cbn [drop].
      by rewrite <-Nat.add_1_r, drop_app_add. }
    rewrite vec_insert_ok by (rewrite !length_app; lia).
    rewrite <-(app_assoc X), take_app_length, drop_app_length. cbn [mbind option_bind].
    replace (S (length X + S (length Y))) with (length (X ++ [x]) + S (length Y))
      by (rewrite length_app; simpl; lia).
    replace (S (length X)) with (length (X ++ [x])) by (rewrite length_app; simpl; lia).
    pose proof (IH (X ++ [x]) Y B Hl) as H. by rewrite <-!app_assoc in H.
  - replace (S (length X + S (length Y))) with (length X + S (length (Y ++ [x])))
      by (rewrite length_app; simpl; lia).
    pose proof (IH X (Y ++ [x]) B Hl) as H. by rewrite <-!app_assoc in H.
Qed.

Section stack.
  Context (parent_of : N → option N).
  Local Abbreviation child := (is_child_of parent_of).

Lemma is_child_of_true w p : child w p = true ↔ parent_of w = Some p.
Proof. apply bool_decide_eq_true. Qed.

(** Which of the windows below [p] descend from it, each decided after those below it. *)
Fixpoint descend_mask (p : N) (l : list N) : list bool :=
  match l with
  | [] => []
  | w :: l => let m := descend_mask p l in (child w p || existsb (child w) (select m l)) :: m
  end.

Lemma length_descend_mask p l : length (descend_mask p l) = length l.
Proof. induction l; simpl; congruence. Qed.

(** The walk of [bring_up_descendants_of] computes the mask. *)
Lemma descendants_of_mask A p B :
  descendants_of parent_of (A ++ p :: B) (length A) p =
  rev (positions (S (length A)) (descend_mask (tl_window p) (tl_window <$> B))).
Proof.
  unfold descendants_of. rewrite foldl_rev.
  replace (length (A ++ p :: B) - S (length A)) with (length B)
    by (rewrite length_app; simpl; lia).
  assert (∀ off C, off = length C → C ++ B = A ++ p :: B →
    foldr (λ i descendants, match (A ++ p :: B) !! i with
           | Some below =>
               if tile_child_of parent_of below p
                  || existsb (λ d, match (A ++ p :: B) !! d with
                                   | Some t => tile_child_of parent_of below t
                                   | None => false
                                   end) descendants
               then descendants ++ [i] else descendants
           | None => descendants
           end) [] (seq off (length B)) =
    rev (positions off (descend_mask (tl_window p) (tl_window <$> B)))) as H.
  2:{ rewrite <-(H (S (length A)) (A ++ [p])); [done| |by rewrite <-app_assoc].
      rewrite length_app; simpl; lia. }
  generalize (A ++ p :: B). intros l.
  induction B as [|t B IH]; intros off C -> Hl; [done|]. csimpl.
  assert (l !! length C = Some t) as ->.
  { by rewrite <-Hl, lookup_app_r, Nat.sub_diag. }
  rewrite (IH _ (C ++ [t])); [|rewrite length_app; simpl; lia|by rewrite <-app_assoc].
  replace (existsb _ (rev _)) with
    (existsb (child (tl_window t)) (select (descend_mask (tl_window p) (tl_window <$> B))
                                      (tl_window <$> B))); [by destruct (_ || _)|].
  clear IH. assert (length (descend_mask (tl_window p) (tl_window <$> B)) = length B) as Hm
    by (by rewrite length_descend_mask, length_fmap).
  revert Hm Hl. generalize (descend_mask (tl_window p) (tl_window <$> B)) as m.
  change (t :: B) with ([t] ++ B). rewrite app_assoc.
  replace (S (length C)) with (length (C ++ [t])) by (rewrite length_app; simpl; lia).
  generalize (C ++ [t]) as E. clear C.
  induction B as [|u B IH]; intros E [|b m]; try done. csimpl. intros [= Hm] Hl.
  specialize (IH (E ++ [u]) m Hm). rewrite <-app_assoc in IH. specialize (IH Hl).
  rewrite length_app, Nat.add_1_r in IH. destruct b; simpl.
  - rewrite existsb_app. simpl. rewrite IH, orb_false_r, orb_comm. f_equal.
    by rewrite <-Hl, lookup_app_r, Nat.sub_diag.
  - by rewrite IH.
Qed.

Lemma bring_up_eq A p B :
  let m := descend_mask (tl_window p) (tl_window <$> B) in
  bring_up_descendants_of parent_of (A ++ p :: B) (length A) =
  Some (A ++ select m B ++ p :: select (negb <$> m) B).
Proof.
  intros m. unfold bring_up_descendants_of.
  rewrite lookup_app_r, Nat.sub_diag by lia. cbn [mbind option_bind lookup list_lookup].
  rewrite descendants_of_mask, rev_involutive.
  pose proof (raise_all_select m A [] p B) as H. cbn [length app] in H.
  rewrite Nat.add_1_r in H. apply H. unfold m. by rewrite length_descend_mask, length_fmap.
Qed.

(** Children are stacked above their parents: no window is a child of one above it. *)
Fixpoint stacked (l : list N) : Prop :=
  match l with
  | [] => True
  | w :: l => (∀ x, x ∈ l → child x w = false) ∧ stacked l
  end.

Lemma stacked_app l k :
  stacked (l ++ k) ↔ stacked l ∧ stacked k ∧ ∀ x y, x ∈ l → y ∈ k → child y x = false.
Proof.
  induction l as [|w l IH]; simpl; [set_solver|]. rewrite IH. setoid_rewrite elem_of_app.
  setoid_rewrite elem_of_cons. naive_solver.
Qed.

Lemma stacked_select m l : stacked l → stacked (select m l).
Proof.
  revert l. induction m as [|b m IH]; intros [|w l]; simpl; try done. intros [H Hl].
  destruct b; simpl; [|by apply IH]. split; [|by apply IH].
  intros x Hx%elem_of_select. auto.
Qed.

(** Descent through windows of the list. *)
Definition descends (l : list N) : N → N → Prop := tc (λ x y, child x y = true ∧ x ∈ l).

Lemma descends_mono l k x y : (∀ w, w ∈ l → w ∈ k) → descends l x y → descends k x y.
Proof.
  intros Hlk. induction 1 as [x y [? ?]|x y z [? ?] _ IH]; [by apply tc_once; auto|].
  eapply tc_l; [|done]. auto.
Qed.

Lemma select_mask_descends p l x :
  x ∈ select (descend_mask p l) l → descends l x p.
Proof.
  revert x. induction l as [|w l IH]; intros x; simpl; [set_solver|].
  destruct (child w p || existsb (child w) (select (descend_mask p l) l)) eqn:Hw.
  2:{ intros Hx. apply (descends_mono l); [set_solver|by apply IH]. }
  rewrite elem_of_cons. intros [->|Hx].
  2:{ apply (descends_mono l); [set_solver|by apply IH]. }
  apply orb_true_iff in Hw as [Hw|(d & Hd%list_elem_of_In & Hw)%existsb_exists].
  - apply tc_once. split; [done|set_solver].
  - eapply tc_l; [split; [exact Hw|set_solver]|].
    apply (descends_mono l); [set_solver|by apply IH].
Qed.

(** No window is its own ancestor (xdg-shell makes such a parent a protocol error). *)
Definition no_cycle : Prop := ∀ w, ¬ tc (λ x y, parent_of x = Some y) w w.

Lemma descends_tc l x y : descends l x y → tc (λ x y, parent_of x = Some y) x y.
Proof.
  induction 1 as [x y [?%is_child_of_true _]|x y z [?%is_child_of_true _] _ IH];
    [by apply tc_once|by eapply tc_l].
Qed.

Context (Hcycle : no_cycle).

Lemma not_own_child w : child w w = false.
Proof.
  apply not_true_is_false. intros Hw%is_child_of_true. apply (Hcycle w). by apply tc_once.
Qed.

(** In a proper stack the walk misses no descendant. *)
Lemma mask_closed p l x :
  stacked l → x ∈ l → (child x p = true ∨ ∃ d, d ∈ select (descend_mask p l) l ∧ child x d = true) →
  x ∈ select (descend_mask p l) l.
Proof.
  induction l as [|w l IH]; simpl; [set_solver|]. intros [Hw Hl] Hx Hc.
  apply elem_of_cons in Hx as [->|Hx].
  - replace (child w p || existsb (child w) (select (descend_mask p l) l)) with true; [set_solver|].
    symmetry. apply orb_true_iff. destruct Hc as [Hc|(d & Hd & Hc)]; [by left|right].
    apply existsb_exists. exists d. split; [|done]. apply list_elem_of_In.
    destruct (_ || _) in Hd; [|done]. apply elem_of_cons in Hd as [->|Hd]; [|done].
    by rewrite not_own_child in Hc.
  - assert (x ∈ select (descend_mask p l) l) as Hin.
    { apply IH; [done..|]. destruct Hc as [Hc|(d & Hd & Hc)]; [by left|right].
      exists d. split; [|done]. destruct (_ || _) in Hd; [|done].
      apply elem_of_cons in Hd as [->|Hd]; [|done]. rewrite (Hw x Hx) in Hc. done. }
    destruct (_ || _); [set_solver|done].
Qed.

Lemma select_negb_disjoint {A} m (l : list A) x :
  NoDup l → x ∈ select m l → x ∉ select (negb <$> m) l.
Proof.
  revert l. induction m as [|b m IH]; intros [|y l]; csimpl; try set_solver.
  rewrite NoDup_cons. intros [Hy Hl] Hx.
  destruct b; simpl in *.
  - apply elem_of_cons in Hx as [->|Hx]; [by intros ?%elem_of_select|by apply IH].
  - apply not_elem_of_cons. split; [|by apply IH]. intros ->. by apply elem_of_select in Hx.
Qed.

(** Bringing up the descendants of [p] repairs a stack in which only [p] may be above its
    children. *)
Lemma bring_up_stacked A p B :
  NoDup B → stacked A → stacked B → (∀ a b, a ∈ A → b ∈ p :: B → child b a = false) →
  let m := descend_mask p B in
  stacked (A ++ select m B ++ p :: select (negb <$> m) B).
Proof.
  intros Hnd HA HB HAB m.
  assert (∀ d, d ∈ select m B → child p d = false) as Hpd.
  { intros d Hd%select_mask_descends. apply not_true_is_false. intros Hc%is_child_of_true.
    apply (Hcycle d). eapply tc_r; [by eapply descends_tc|done]. }
  assert (∀ r, r ∈ select (negb <$> m) B →
    child r p = false ∧ ∀ d, d ∈ select m B → child r d = false) as Hr.
  { intros r Hr. assert (r ∉ select m B) as Hn.
    { intros Hin. by apply (select_negb_disjoint m B r Hnd). }
    apply elem_of_select in Hr. split; [|intros d Hd]; apply not_true_is_false; intros Hc;
      apply Hn; unfold m in *; apply mask_closed; eauto. }
  rewrite !stacked_app. simpl.
  split; [done|]. split; [split; [by apply stacked_select|split]|].
  - split; [|by apply stacked_select]. intros x Hx. by destruct (Hr x Hx).
  - intros d y Hd Hy. apply elem_of_cons in Hy as [->|Hy]; [by apply Hpd|].
    by apply (proj2 (Hr y Hy)).
  - intros a b Ha Hb. apply HAB; [done|].
    apply elem_of_app in Hb as [Hb%elem_of_select|[->|Hb%elem_of_select]%elem_of_cons]; set_solver.
Qed.

(** In a proper stack with [p] on top of it, what comes up are the descendants of [p]. *)
Lemma descends_select p B x :
  stacked B → p ∉ B → descends B x p → x ∈ select (descend_mask p B) B.
Proof.
  intros HB Hp Hd. unfold descends in Hd. remember p as q eqn:Hq.
  induction Hd as [x y [Hc Hx]|x y z [Hc Hx] _ IH]; subst.
  - apply mask_closed; auto.
  - apply mask_closed; [done..|]. right. eexists. split; [by apply IH|done].
Qed.

End stack.

(** ** The invariant *)
Definition fl_windows (f : FloatingSpace) : list N := tl_window <$> f.(fl_tiles).

(** [FloatingSpace::verify_invariants], and that windows are distinct. *)
Record floating_ok (parent_of : N → option N) (f : FloatingSpace) : Prop := {
  fl_stacked : stacked parent_of (fl_windows f);
  fl_distinct : NoDup (fl_windows f);
  fl_active_in : ∀ w, f.(fl_active) = Some w → w ∈ fl_windows f;
  fl_active_none : f.(fl_active) = None → f.(fl_tiles) = [];
  fl_resize_in : ∀ w, f.(fl_resize) = Some w → w ∈ fl_windows f;
  fl_pending_ok : Forall (λ t, t.(tl_pending) = SizeNormal) f.(fl_tiles)
}.

Lemma Floating_new_ok parent_of o : floating_ok parent_of (Floating_new o).
Proof. split; try done; constructor. Qed.

Lemma fl_tile_split l w :
  w ∈ tl_window <$> l →
  ∃ A t B, l = A ++ t :: B ∧ tl_window t = w ∧ vec_position (tile_is w) l = Some (length A).
Proof.
  intros (t & -> & Ht)%list_elem_of_fmap.
  destruct (vec_position_is_Some (tile_is (tl_window t)) l t Ht) as [i Hi].
  { by apply N.eqb_eq. }
  pose proof (vec_position_Some _ _ _ Hi) as (u & Hu & Hp).
  exists (take i l), u, (drop (S i) l). apply N.eqb_eq in Hp.
  split_and!; [by rewrite take_drop_middle|done|].
  rewrite length_take_le; [done|]. apply lookup_lt_Some in Hu. lia.
Qed.

Lemma idx_of_split f w :
  w ∈ fl_windows f →
  ∃ A t B, f.(fl_tiles) = A ++ t :: B ∧ tl_window t = w ∧ idx_of f w = Some (length A).
Proof. apply fl_tile_split. Qed.

Lemma tile_is_existsb l w : existsb (tile_is w) l = true ↔ w ∈ tl_window <$> l.
Proof.
  rewrite existsb_exists, list_elem_of_fmap.
  split; [intros (t & Ht%list_elem_of_In & Hw%N.eqb_eq)|intros (t & -> & Ht)]; exists t.
  - done.
  - split; [by apply list_elem_of_In|by apply N.eqb_eq].
Qed.

Lemma idx_of_None f w : w ∉ fl_windows f → idx_of f w = None.
Proof.
  intros Hw. destruct (idx_of f w) as [i|] eqn:Hi; [|done].
  apply vec_position_Some in Hi as (t & Ht & Hp%N.eqb_eq). destruct Hw. rewrite <-Hp.
  apply list_elem_of_fmap. exists t. split; [done|]. by eapply list_elem_of_lookup_2.
Qed.

Lemma fl_has_window_spec f w : fl_has_window f w = true ↔ w ∈ fl_windows f.
Proof. apply tile_is_existsb. Qed.

Lemma fl_contains_spec f w : fl_contains f w = true ↔ w ∈ fl_windows f.
Proof.
  unfold fl_contains. split.
  - destruct (decide (w ∈ fl_windows f)) as [|Hn]; [done|]. by rewrite idx_of_None.
  - intros (A & t & B & _ & _ & ->)%idx_of_split. done.
Qed.

Lemma find_tile l w :
  w ∈ tl_window <$> l → ∃ t, List.find (tile_is w) l = Some t ∧ t ∈ l ∧ tl_window t = w.
Proof.
  intros (t & -> & Ht)%list_elem_of_fmap.
  destruct (List.find (tile_is (tl_window t)) l) as [u|] eqn:Hf.
  - apply List.find_some in Hf as [Hu Hp%N.eqb_eq]. exists u. by rewrite list_elem_of_In.
  - apply list_elem_of_In, (List.find_none _ _ Hf), N.eqb_neq in Ht. done.
Qed.

Lemma fl_active_window_eq parent_of f :
  floating_ok parent_of f → fl_active_window f = f.(fl_active).
Proof.
  intros [_ _ Hin _ _ _]. unfold fl_active_window. destruct (fl_active f) as [w|]; [|done].
  destruct (find_tile (fl_tiles f) w (Hin w eq_refl)) as (t & -> & _ & <-). done.
Qed.

Section operations.
  Context (parent_of : N → option N) (Hcycle : no_cycle parent_of).

(** Bringing up the descendants of a tile keeps the tiles and restores the stacking. *)
Lemma bring_up_runs A p B :
  NoDup (tl_window <$> A ++ p :: B) →
  stacked parent_of (tl_window <$> A) → stacked parent_of (tl_window <$> B) →
  (∀ a b, a ∈ tl_window <$> A → b ∈ tl_window p :: (tl_window <$> B) →
          is_child_of parent_of b a = false) →
  runs (bring_up_descendants_of parent_of (A ++ p :: B) (length A)) (λ l',
    l' ≡ₚ A ++ p :: B ∧ stacked parent_of (tl_window <$> l')).
Proof.
  intros Hnd HA HB HAB. rewrite bring_up_eq. apply runs_ret. split.
  - apply Permutation_app_head. rewrite <-Permutation_middle. constructor.
    apply select_perm. by rewrite length_descend_mask, length_fmap.
  - rewrite !fmap_app, fmap_cons, !fmap_select. apply bring_up_stacked; try done.
    rewrite fmap_app, fmap_cons in Hnd.
    apply NoDup_app in Hnd as (_ & _ & [_ ?]%NoDup_cons). done.
Qed.

Lemma runs_perm_windows (l l' : list Tile) : l' ≡ₚ l → tl_window <$> l' ≡ₚ tl_window <$> l.
Proof. by intros ->. Qed.

Lemma fl_activate_window_runs f w :
  floating_ok parent_of f → w ∈ fl_windows f →
  runs (fl_activate_window parent_of f w) (λ r,
    floating_ok parent_of (fst r) ∧ fl_tiles (fst r) ≡ₚ f.(fl_tiles) ∧
    fl_active (fst r) = Some w ∧ snd r = true).
Proof.
  intros Hok Hw. unfold fl_activate_window.
  destruct (idx_of_split f w Hw) as (A & t & B & Hl & Ht & ->).
  pose proof Hok as [Hst Hnd Hain _ Hrin Hpe]. unfold fl_windows in *. rewrite Hl in *.
  unfold raise_window. rewrite (proj2 (Nat.leb_le _ _)) by lia.
  rewrite (vec_remove_ok _ t) by (by rewrite lookup_app_r, Nat.sub_diag).
  cbn [mbind option_bind fst snd]. rewrite vec_insert_ok by lia.
  rewrite take_app_length, take_0, drop_0. cbn [app mbind option_bind].
  assert (drop (S (length A)) (A ++ t :: B) = B) as ->.
  { rewrite <-Nat.add_1_r, drop_app_add. done. }
  assert (t :: A ++ B ≡ₚ A ++ t :: B) as Hperm by (by rewrite Permutation_middle).
  eapply runs_bind.
  { apply (bring_up_runs [] t (A ++ B)).
    - simpl. by rewrite (runs_perm_windows _ _ Hperm).
    - done.
    - rewrite fmap_app. rewrite fmap_app, fmap_cons in Hst.
      apply stacked_app in Hst as (HA & [_ HB] & Hab).
      apply stacked_app. split_and!; [done..|]. intros x y Hx Hy. apply Hab; [done|].
      apply elem_of_cons; by right.
    - by intros a b ?%not_elem_of_nil. }
  intros l' [Hp Hs]. apply runs_ret. rewrite Hperm in Hp.
  pose proof (runs_perm_windows _ _ Hp) as Hpw.
  split; [|done]. split; simpl; unfold fl_windows; simpl; try done.
  - by rewrite Hpw.
  - intros w' [= <-]. by rewrite Hpw.
  - intros w' Hr. rewrite Hpw. auto.
  - by rewrite Hp.
Qed.

Lemma fl_activate_window_absent f w :
  w ∉ fl_windows f → fl_activate_window parent_of f w = Some (f, false).
Proof. intros H. unfold fl_activate_window. by rewrite idx_of_None. Qed.

Lemma above_parent_spec l t idx :
  idx ≤ length l →
  above_parent parent_of l t idx ≤ length l ∧
  ∀ a, a ∈ take (above_parent parent_of l t idx) l → tile_child_of parent_of t a = false.
Proof.
  intros Hidx. unfold above_parent.
  destruct (vec_position _ _) as [i|] eqn:Hi; simpl.
  - destruct (vec_position_Some _ _ _ Hi) as (x & Hx & _).
    apply lookup_lt_Some in Hx. rewrite length_take in Hx. split; [lia|].
    intros a Ha. eapply (vec_position_first _ _ _ _ Hi). by rewrite take_take, Nat.min_l by lia.
  - split; [done|]. intros a Ha. by eapply vec_position_None.
Qed.

(** The tile as it is stored in the floating layout. *)
Definition floating_tile (f : FloatingSpace) (t : Tile) : Tile :=
  set_tl_pending SizeNormal (set_tl_options f.(fl_options) t).

Lemma fl_add_tile_at_runs f idx t activate :
  floating_ok parent_of f → idx ≤ length f.(fl_tiles) → tl_window t ∉ fl_windows f →
  runs (fl_add_tile_at parent_of f idx t activate) (λ f',
    floating_ok parent_of f' ∧ fl_tiles f' ≡ₚ floating_tile f t :: f.(fl_tiles) ∧
    fl_active f' = (if activate || fl_is_empty f then Some (tl_window t) else f.(fl_active)) ∧
    fl_options f' = f.(fl_options)).
Proof.
  intros Hok Hidx Hw. unfold fl_add_tile_at. fold (floating_tile f t).
  set (u := floating_tile f t).
  set (f1 := if activate || fl_is_empty f then set_fl_active (Some (tl_window u)) f else f).
  assert (fl_tiles f1 = fl_tiles f ∧ fl_resize f1 = fl_resize f ∧ fl_options f1 = fl_options f ∧
          fl_active f1 = if activate || fl_is_empty f then Some (tl_window t) else fl_active f)
    as (Hf1 & Hr1 & Ho1 & Ha1) by (subst f1; by destruct (_ || _)).
  rewrite Hf1. clearbody f1. destruct Hok as [Hst Hnd Hain Hanone Hrin Hpe].
  unfold fl_windows in *. set (l := fl_tiles f) in *.
  destruct (above_parent_spec l u idx Hidx) as [Hle Hab]. set (i := above_parent _ l u idx) in *.
  rewrite <-(take_drop i l), fmap_app in Hst. apply stacked_app in Hst as (HA & HB & HAB).
  rewrite vec_insert_ok by done. cbn [mbind option_bind].
  assert (take i l ++ u :: drop i l ≡ₚ u :: l) as Hperm by apply vec_insert_perm.
  assert (i = length (take i l)) as Hi by (by rewrite length_take_le).
  rewrite Hi at 3. eapply runs_bind.
  { apply bring_up_runs.
    - rewrite (runs_perm_windows _ _ Hperm). csimpl. by apply NoDup_cons.
    - done.
    - done.
    - intros a b Ha Hb. apply elem_of_cons in Hb as [->|Hb].
      + apply list_elem_of_fmap in Ha as (x & -> & Hx). by apply (Hab x Hx).
      + by apply HAB. }
  intros l' [Hp Hs]. apply runs_ret. rewrite Hperm in Hp.
  pose proof (runs_perm_windows _ _ Hp) as Hpw. rewrite fmap_cons in Hpw.
  split; [|done]. split; simpl; unfold fl_windows; simpl; try done.
  - rewrite Hpw. by apply NoDup_cons.
  - intros w. rewrite Hpw, Ha1. destruct (_ || _); [intros [= <-]|]; rewrite elem_of_cons; auto.
  - rewrite Ha1. destruct activate; [done|]. unfold fl_is_empty. simpl. fold l.
    destruct l eqn:El; [done|]. intros Hn. by apply Hanone in Hn.
  - intros w. rewrite Hpw, Hr1, elem_of_cons. auto.
  - rewrite Hp. by constructor.
Qed.

(** A window that changes its parent may end up below it; [descendants_added] on the parent,
    which [parent_changed] calls, restores the stacking. *)
Lemma descendants_added_runs f p :
  floating_ok (λ w, if decide (parent_of w = Some p) then None else parent_of w) f →
  runs (descendants_added parent_of f p) (λ r,
    floating_ok parent_of (fst r) ∧ fl_tiles (fst r) ≡ₚ f.(fl_tiles) ∧
    fl_active (fst r) = f.(fl_active)).
Proof.
  intros [Hst Hnd Hain Hanone Hrin Hpe].
  assert (∀ w q, q ≠ p → is_child_of (λ w, if decide (parent_of w = Some p) then None
                                         else parent_of w) w q = is_child_of parent_of w q) as Heq.
  { intros w q Hq. unfold is_child_of. apply bool_decide_ext.
    destruct (decide (parent_of w = Some p)) as [E|]; [|done]. rewrite E. naive_solver. }
  assert (∀ l, p ∉ l → stacked (λ w, if decide (parent_of w = Some p) then None
                                     else parent_of w) l → stacked parent_of l) as Hstacked.
  { induction l as [|w l IH]; [done|]. intros [Hpw Hpl]%not_elem_of_cons [H1 H2].
    split; [|by apply IH]. intros x Hx. rewrite <-Heq by congruence. auto. }
  unfold descendants_added. destruct (decide (p ∈ fl_windows f)) as [Hp|Hp].
  2:{ rewrite idx_of_None by done. apply runs_ret. split; [|done]. split; try done.
      by apply Hstacked. }
  destruct (idx_of_split f p Hp) as (A & t & B & Hl & Ht & ->).
  unfold fl_windows in *. rewrite Hl in *.
  assert ((p ∉ tl_window <$> A) ∧ (p ∉ tl_window <$> B)) as [HpA HpB].
  { rewrite fmap_app, fmap_cons, Ht in Hnd.
    apply NoDup_app in Hnd as (_ & HA & [HB _]%NoDup_cons). split; [|done].
    intros H. apply (HA p H). apply elem_of_cons; by left. }
  pose proof Hst as Hst2. rewrite fmap_app, fmap_cons in Hst2.
  apply stacked_app in Hst2 as (HA & [_ HB] & HAB).
  eapply runs_bind.
  { apply bring_up_runs; [done|by apply Hstacked..|].
    intros a b Ha Hb. rewrite <-Heq by (by intros ->). by apply HAB. }
  intros l' [Hperm Hs]. apply runs_ret. pose proof (runs_perm_windows _ _ Hperm) as Hpw.
  split; [|done]. split; simpl; unfold fl_windows; simpl; try done.
  - by rewrite Hpw.
  - intros w Hw. rewrite Hpw. auto.
  - intros Hn. specialize (Hanone Hn). by destruct A.
  - intros w Hw. rewrite Hpw. auto.
  - by rewrite Hperm.
Qed.

(** *** Choosing a window by a measure *)
Lemma min_by_total_in {A} (l : list (A * f64)) x : min_by_total l = Some x → x ∈ l.
Proof.
  unfold min_by_total. intros H.
  assert (∀ acc y, foldl (λ acc x, match acc with
                  | None => Some x
                  | Some y => if f64_total_leb (snd y) (snd x) then Some y else Some x
                  end) acc l = Some y → y ∈ l ∨ acc = Some y) as Hgen.
  { clear. induction l as [|z l IH]; intros acc y; simpl; [auto|]. intros H.
    apply IH in H as [?|H]; rewrite elem_of_cons; [auto|].
    destruct acc as [a|]; [destruct (f64_total_leb _ _)|]; naive_solver. }
  destruct (Hgen None x H); [done|congruence].
Qed.

Lemma max_by_total_in {A} (l : list (A * f64)) x : max_by_total l = Some x → x ∈ l.
Proof.
  unfold max_by_total. intros H.
  assert (∀ acc y, foldl (λ acc x, match acc with
                  | None => Some x
                  | Some y => if f64_total_leb (snd y) (snd x) then Some x else Some y
                  end) acc l = Some y → y ∈ l ∨ acc = Some y) as Hgen.
  { clear. induction l as [|z l IH]; intros acc y; simpl; [auto|]. intros H.
    apply IH in H as [?|H]; rewrite elem_of_cons; [auto|].
    destruct acc as [a|]; [destruct (f64_total_leb _ _)|]; naive_solver. }
  destruct (Hgen None x H); [done|congruence].
Qed.

(** What the focus operations promise: the same tiles in a proper stack. *)
Definition refocused (f f' : FloatingSpace) : Prop :=
  floating_ok parent_of f' ∧ f'.(fl_tiles) ≡ₚ f.(fl_tiles).

Lemma refocused_refl f : floating_ok parent_of f → refocused f f.
Proof. by split. Qed.

Lemma fl_activate_refocuses f w :
  floating_ok parent_of f → w ∈ fl_windows f →
  runs (fl_activate_window parent_of f w) (λ r, refocused f (fst r)).
Proof.
  intros Hok Hw. eapply runs_weaken; [by apply fl_activate_window_runs|]. intros r (? & ? & _).
  by split.
Qed.

Lemma focus_directional_runs f distance :
  floating_ok parent_of f →
  runs (focus_directional parent_of f distance) (λ r, refocused f (fst r)).
Proof.
  intros Hok. unfold focus_directional.
  destruct (fl_active f) as [a|] eqn:Ha; [|apply runs_ret; by apply refocused_refl].
  pose proof (fl_active_in _ _ Hok a Ha) as Hin.
  destruct (idx_of_split f a Hin) as (A & t & B & _ & _ & ->). cbn [mbind option_bind].
  destruct (min_by_total _) as [[w d]|] eqn:Hm; [|apply runs_ret; by apply refocused_refl].
  apply min_by_total_in, list_elem_of_In, List.filter_In in Hm as [Hm _].
  apply list_elem_of_In, list_elem_of_fmap in Hm as (u & [= -> ->] & Hu).
  apply list_elem_of_In, List.filter_In in Hu as [Hu _].
  eapply runs_bind; [apply fl_activate_refocuses; [done|]|intros r Hr; by apply runs_ret].
  apply list_elem_of_fmap. exists u. by rewrite list_elem_of_In.
Qed.

Lemma focus_least_runs f coordinate :
  floating_ok parent_of f → runs (focus_least parent_of f coordinate) (refocused f).
Proof.
  intros Hok. unfold focus_least.
  destruct (min_by_total _) as [[w d]|] eqn:Hm; [|apply runs_ret; by apply refocused_refl].
  apply min_by_total_in, list_elem_of_fmap in Hm as (u & [= -> ->] & Hu).
  eapply runs_fmap; [apply fl_activate_refocuses; [done|]|done].
  apply list_elem_of_fmap. by exists u.
Qed.

Lemma focus_greatest_runs f coordinate :
  floating_ok parent_of f → runs (focus_greatest parent_of f coordinate) (refocused f).
Proof.
  intros Hok. unfold focus_greatest.
  destruct (max_by_total _) as [[w d]|] eqn:Hm; [|apply runs_ret; by apply refocused_refl].
  apply max_by_total_in, list_elem_of_fmap in Hm as (u & [= -> ->] & Hu).
  eapply runs_fmap; [apply fl_activate_refocuses; [done|]|done].
  apply list_elem_of_fmap. by exists u.
Qed.

Lemma activate_without_raising_ok f w :
  floating_ok parent_of f → floating_ok parent_of (fst (activate_window_without_raising f w)).
Proof.
  intros Hok. unfold activate_window_without_raising.
  destruct (fl_contains f w) eqn:Hc; [|done]. apply fl_contains_spec in Hc.
  destruct Hok. split; try done. simpl. by intros w' [= <-].
Qed.

(** *** Removing, resizing, moving *)
Lemma fl_remove_tile_runs width f w :
  floating_ok parent_of f → w ∈ fl_windows f →
  runs (fl_remove_tile width f w) (λ r,
    floating_ok parent_of (snd r) ∧ tl_window (rt_tile (fst r)) = w ∧
    f.(fl_tiles) ≡ₚ rt_tile (fst r) :: fl_tiles (snd r) ∧
    tl_pending (rt_tile (fst r)) = SizeNormal ∧
    (∀ a, f.(fl_active) = Some a → a ≠ w → fl_active (snd r) = Some a)).
Proof.
  intros [Hst Hnd Hain Hanone Hrin Hpe] Hw. unfold fl_remove_tile.
  destruct (idx_of_split f w Hw) as (A & t & B & Hl & Ht & ->). cbn [mbind option_bind].
  unfold fl_remove_tile_by_idx, fl_windows in *. rewrite Hl in *.
  rewrite (vec_remove_ok _ t) by (by rewrite lookup_app_r, Nat.sub_diag).
  cbn [mbind option_bind]. rewrite take_app_length.
  assert (drop (S (length A)) (A ++ t :: B) = B) as ->.
  { by rewrite <-Nat.add_1_r, drop_app_add. }
  rewrite fmap_app, fmap_cons in *. rewrite <-Permutation_middle in Hnd.
  apply NoDup_cons in Hnd as [Hn Hnd]. rewrite <-fmap_app in *.
  assert (∀ x, x ≠ w → x ∈ (tl_window <$> A) ++ tl_window t :: (tl_window <$> B) →
               x ∈ tl_window <$> A ++ B) as Hkeep.
  { rewrite fmap_app, Ht. intros x Hx. rewrite !elem_of_app, elem_of_cons. naive_solver. }
  apply runs_ret. cbn [fst snd rt_tile fl_tiles fl_active].
  assert (tl_pending t = SizeNormal) as Hpt.
  { rewrite Forall_app, Forall_cons in Hpe. by destruct Hpe as (_ & ? & _). }
  split; [|split; [done|split; [by rewrite Permutation_middle|split; [done|]]]].
  - rewrite <-Permutation_middle, Forall_cons in Hpe. destruct Hpe as [_ Hpe].
    split; unfold fl_windows; cbn [fl_tiles fl_active fl_resize]; try done.
    + rewrite fmap_app. apply stacked_app in Hst as (HA & [_ HB] & HAB). apply stacked_app.
      split_and!; [done..|]. intros x y Hx Hy. apply HAB; [done|]. apply elem_of_cons; by right.
    + intros a. destruct (A ++ B) as [|top rest]; [done|].
      case_bool_decide as E; [intros [= <-]; csimpl; apply elem_of_cons; by left|].
      intros Ha. apply Hkeep; [congruence|]. auto.
    + destruct (A ++ B); [done|]. case_bool_decide; [done|]. intros Hn'.
      by apply Hanone, app_nil in Hn' as [_ ?].
    + intros x. unfold stop_resize. destruct (fl_resize f) as [r|] eqn:Hr; [|done].
      destruct (N.eqb_spec (tl_window t) r) as [|Hne]; [done|]. intros [= <-].
      apply Hkeep; [congruence|]. by apply Hrin.
  - intros a Ha Hne. pose proof (Hkeep a Hne (Hain a Ha)) as Hin.
    destruct (A ++ B); [by apply not_elem_of_nil in Hin|].
    rewrite bool_decide_false; [done|]. congruence.
Qed.

Lemma fl_remove_active_runs width f :
  floating_ok parent_of f →
  runs (fl_remove_active_tile width f) (λ r,
    floating_ok parent_of (snd r) ∧
    match fst r with
    | Some t => f.(fl_active) = Some (tl_window (rt_tile t)) ∧
        f.(fl_tiles) ≡ₚ rt_tile t :: fl_tiles (snd r) ∧ tl_pending (rt_tile t) = SizeNormal
    | None => snd r = f ∧ f.(fl_tiles) = []
    end).
Proof.
  intros Hok. unfold fl_remove_active_tile. destruct (fl_active f) as [w|] eqn:Ha.
  - eapply runs_bind; [apply fl_remove_tile_runs; [done|by apply Hok]|].
    intros r (? & <- & ? & ? & _). by apply runs_ret.
  - apply runs_ret. split; [done|]. split; [done|by apply Hok].
Qed.

Lemma fl_resize_begin_runs f w :
  floating_ok parent_of f → w ∈ fl_windows f →
  runs (fl_interactive_resize_begin f w) (λ r,
    floating_ok parent_of (fst r) ∧ fl_tiles (fst r) = f.(fl_tiles)).
Proof.
  intros Hok Hw. unfold fl_interactive_resize_begin.
  destruct (fl_resize f) as [r|] eqn:Hr; [by apply runs_ret|].
  destruct (find_tile _ _ Hw) as (t & -> & _). cbn [mbind option_bind]. apply runs_ret.
  split; [|done]. destruct Hok. split; try done. simpl. by intros x [= <-].
Qed.

Lemma set_fl_resize_none_ok f : floating_ok parent_of f → floating_ok parent_of (set_fl_resize None f).
Proof. intros []. by split. Qed.

Lemma fl_resize_end_ok f w :
  floating_ok parent_of f →
  floating_ok parent_of (fl_interactive_resize_end f w) ∧
  fl_tiles (fl_interactive_resize_end f w) = f.(fl_tiles).
Proof.
  intros Hok. pose proof (set_fl_resize_none_ok f Hok). unfold fl_interactive_resize_end.
  destruct (fl_resize f), w; try destruct (N.eqb _ _); done.
Qed.

Lemma move_by_runs f :
  floating_ok parent_of f →
  runs (move_by f) (λ f', floating_ok parent_of f' ∧ fl_tiles f' = f.(fl_tiles)).
Proof.
  intros Hok. unfold move_by. destruct (fl_active f) as [a|] eqn:Ha; [|by apply runs_ret].
  destruct (idx_of_split f a (fl_active_in _ _ Hok a Ha)) as (A & t & B & _ & _ & ->).
  apply runs_ret. by apply fl_resize_end_ok.
Qed.

Lemma fl_update_config_ok f o : floating_ok parent_of f → floating_ok parent_of (fl_update_config o f).
Proof.
  assert (tl_window <$> (set_tl_options o <$> fl_tiles f) = tl_window <$> fl_tiles f) as Hw.
  { rewrite <-list_fmap_compose. done. }
  intros [Hst Hnd Hain Hanone Hrin Hpe]. unfold fl_windows in *.
  split; unfold fl_windows; cbn [fl_update_config fl_tiles fl_active fl_resize];
    rewrite ?Hw; try done.
  - intros Hn. by rewrite (Hanone Hn).
  - by rewrite Forall_fmap.
Qed.

End operations.
