(* ===== verification/LayoutFloatingProps.v ===== *)
(** * Properties of the floating layout

    Children stay stacked above their parents through every operation, reparenting included, and
    raising a window brings exactly its descendants up with it. *)
From S2P Require Import Prelude Float64 LayoutScrolling LayoutFloating.

(** ** Operations as data *)
Inductive FloatOp :=
| FlAddTile (tile : Tile) (activate : bool)
| FlAddTileAbove (above : N) (tile : Tile) (activate : bool)
| FlRemoveTile (window : N)
| FlRemoveActiveTile
| FlActivateWindow (window : N)
| FlActivateWithoutRaising (window : N)
| FlFocusDirectional (distance : N → N → f64)
| FlFocusLeast (coordinate : N → f64)
| FlFocusGreatest (coordinate : N → f64)
| FlResizeBegin (window : N)
| FlResizeEnd (window : option N)
| FlMoveBy
| FlUpdateConfig (options : Options).

Section properties.
  Context (width : N → f64).

(** The new space and the windows that left it. *)
Definition run_float_op (parent_of : N → option N) (f : FloatingSpace) (op : FloatOp) :
    option (FloatingSpace * list N) :=
  match op with
  | FlAddTile t a => f ← fl_add_tile parent_of f t a; Some (f, [])
  | FlAddTileAbove w t a => f ← add_tile_above parent_of f w t a; Some (f, [])
  | FlRemoveTile w => r ← fl_remove_tile width f w; Some (snd r, [tl_window (rt_tile (fst r))])
  | FlRemoveActiveTile =>
      r ← fl_remove_active_tile width f;
      Some (snd r, match fst r with Some t => [tl_window (rt_tile t)] | None => [] end)
  | FlActivateWindow w => r ← fl_activate_window parent_of f w; Some (fst r, [])
  | FlActivateWithoutRaising w => Some (fst (activate_window_without_raising f w), [])
  | FlFocusDirectional d => r ← focus_directional parent_of f d; Some (fst r, [])
  | FlFocusLeast c => f ← focus_least parent_of f c; Some (f, [])
  | FlFocusGreatest c => f ← focus_greatest parent_of f c; Some (f, [])
  | FlResizeBegin w => r ← fl_interactive_resize_begin f w; Some (fst r, [])
  | FlResizeEnd w => Some (fl_interactive_resize_end f w, [])
  | FlMoveBy => f ← move_by f; Some (f, [])
  | FlUpdateConfig o => Some (fl_update_config o f, [])
  end.

Definition float_added (op : FloatOp) : list N :=
  match op with
  | FlAddTile t _ | FlAddTileAbove _ t _ => [tl_window t]
  | _ => []
  end.

(** New windows are new, and the window next to which one opens, that is removed or resized, is
    there. *)
Definition float_pre (f : FloatingSpace) (op : FloatOp) : Prop :=
  match op with
  | FlAddTile t _ => tl_window t ∉ fl_windows f
  | FlAddTileAbove w t _ => (tl_window t ∉ fl_windows f) ∧ w ∈ fl_windows f
  | FlRemoveTile w | FlResizeBegin w => w ∈ fl_windows f
  | _ => True
  end.

(** A window changes its parent: the protocol state changes, then [parent_changed] runs. *)
Definition set_parent (parent_of : N → option N) (w : N) (p : option N) : N → option N :=
  λ x, if decide (x = w) then p else parent_of x.

Definition parent_changed (parent_of : N → option N) (f : FloatingSpace) (w : N) (p : option N) :
    option ((N → option N) * FloatingSpace) :=
  let parent_of := set_parent parent_of w p in
  match parent_of w with
  | None => Some (parent_of, f)
  | Some parent => r ← descendants_added parent_of f parent; Some (parent_of, fst r)
  end.

Inductive float_step : (N → option N) * FloatingSpace → (N → option N) * FloatingSpace → Prop :=
| float_op_step par f op f' removed :
    float_pre f op → run_float_op par f op = Some (f', removed) → float_step (par, f) (par, f')
| float_parent_step par f w p par' f' :
    no_cycle (set_parent par w p) → parent_changed par f w p = Some (par', f') →
    float_step (par, f) (par', f').

(** ** Every operation keeps the invariant *)
Definition float_ok (par : N → option N) (f : FloatingSpace) (op : FloatOp)
    (r : FloatingSpace * list N) : Prop :=
  floating_ok par (fst r) ∧ float_added op ++ fl_windows f ≡ₚ snd r ++ fl_windows (fst r).

Lemma fl_windows_perm f f' : f'.(fl_tiles) ≡ₚ f.(fl_tiles) → fl_windows f ≡ₚ fl_windows f'.
Proof. unfold fl_windows. by intros ->. Qed.

Lemma idx_of_le f w i : idx_of f w = Some i → i ≤ length f.(fl_tiles).
Proof. intros (t & Ht & _)%vec_position_Some. apply lookup_lt_Some in Ht. lia. Qed.

Lemma float_add_runs par f idx t a op :
  no_cycle par → floating_ok par f → idx ≤ length f.(fl_tiles) → tl_window t ∉ fl_windows f →
  float_added op = [tl_window t] →
  runs (f ← fl_add_tile_at par f idx t a; Some (f, [])) (float_ok par f op).
Proof.
  intros Hc Hok Hi Hw Hop. eapply runs_bind; [by apply fl_add_tile_at_runs|].
  intros f' (? & Hp & _). apply runs_ret. split; [done|]. rewrite Hop. unfold fl_windows. simpl.
  by rewrite Hp.
Qed.

Lemma refocused_runs par (o : option (FloatingSpace)) f op :
  runs o (refocused par f) → float_added op = [] →
  runs (f ← o; Some (f, [])) (float_ok par f op).
Proof.
  intros Ho Hop. eapply runs_bind; [exact Ho|]. intros f' [? ?]. apply runs_ret.
  split; [done|]. rewrite Hop. by apply fl_windows_perm.
Qed.

Lemma refocused_fst_runs {B} par (o : option (FloatingSpace * B)) f op :
  runs o (λ r, refocused par f (fst r)) → float_added op = [] →
  runs (r ← o; Some (fst r, [])) (float_ok par f op).
Proof.
  intros Ho Hop. eapply runs_bind; [exact Ho|]. intros f' [? ?]. apply runs_ret.
  split; [done|]. rewrite Hop. by apply fl_windows_perm.
Qed.

Lemma removed_runs par f op w :
  floating_ok par f → w ∈ fl_windows f → float_added op = [] →
  runs (r ← fl_remove_tile width f w; Some (snd r, [tl_window (rt_tile (fst r))])) (float_ok par f op).
Proof.
  intros Hok Hw Hop. eapply runs_bind; [by apply fl_remove_tile_runs|].
  intros r (? & _ & Hp & _). apply runs_ret. split; [done|]. rewrite Hop. unfold fl_windows.
  by rewrite Hp.
Qed.

Lemma run_float_op_runs par f op :
  no_cycle par → floating_ok par f → float_pre f op → runs (run_float_op par f op) (float_ok par f op).
Proof.
  intros Hc Hok Hpre. destruct op; cbn [run_float_op float_pre] in *.
  - apply float_add_runs; auto; lia.
  - destruct Hpre as [Hn Hw]. unfold add_tile_above.
    destruct (idx_of_split f above Hw) as (A & t & B & _ & _ & Hi). rewrite Hi.
    cbn [mbind option_bind]. apply float_add_runs; auto. by eapply idx_of_le.
  - by apply removed_runs.
  - eapply runs_bind; [by apply fl_remove_active_runs|]. intros [[t|] f'] [Hok' Hr]; apply runs_ret.
    + split; [done|]. simpl in *. unfold fl_windows. by destruct Hr as (_ & -> & _).
    + destruct Hr as [-> _]. by split.
  - destruct (decide (window ∈ fl_windows f)) as [Hw|Hw].
    + apply refocused_fst_runs; [|done]. by apply fl_activate_refocuses.
    + rewrite fl_activate_window_absent by done. apply runs_ret. by split.
  - apply runs_ret. split; [by apply activate_without_raising_ok|]. simpl.
    unfold activate_window_without_raising. by destruct (fl_contains f window).
  - apply refocused_fst_runs; [|done]. by apply focus_directional_runs.
  - apply refocused_runs; [|done]. by apply focus_least_runs.
  - apply refocused_runs; [|done]. by apply focus_greatest_runs.
  - apply refocused_fst_runs; [|done]. eapply runs_weaken; [by apply fl_resize_begin_runs|].
    intros r [? Hr]. split; [done|by rewrite Hr].
  - apply runs_ret. destruct (fl_resize_end_ok par f window Hok) as [? Ht]. split; [done|].
    simpl. unfold fl_windows. by rewrite Ht.
  - apply refocused_runs; [|done]. eapply runs_weaken; [by apply move_by_runs|].
    intros r [? Hr]. split; [done|by rewrite Hr].
  - apply runs_ret. split; [by apply fl_update_config_ok|]. simpl. unfold fl_windows. simpl.
    by rewrite <-list_fmap_compose.
Qed.

Lemma stacked_mono par par' l :
  (∀ x y, is_child_of par' x y = true → is_child_of par x y = true) → stacked par l → stacked par' l.
Proof.
  intros H. induction l as [|w l IH]; [done|]. intros [H1 H2]. split; [|auto].
  intros x Hx. apply not_true_is_false. intros Hc%H. by rewrite H1 in Hc.
Qed.

Lemma floating_ok_mono par par' f :
  (∀ x y, is_child_of par' x y = true → is_child_of par x y = true) →
  floating_ok par f → floating_ok par' f.
Proof. intros H []. split; try done. by eapply stacked_mono. Qed.

Lemma parent_changed_runs par f w p :
  no_cycle (set_parent par w p) → floating_ok par f →
  runs (parent_changed par f w p) (λ r,
    fst r = set_parent par w p ∧ floating_ok (fst r) (snd r) ∧ fl_windows f ≡ₚ fl_windows (snd r)).
Proof.
  intros Hc Hok. unfold parent_changed.
  assert (set_parent par w p w = p) as Hp by (unfold set_parent; by rewrite decide_True).
  rewrite Hp. destruct p as [p|].
  - eapply runs_bind; [apply descendants_added_runs; [done|]|].
    { eapply floating_ok_mono; [|exact Hok]. intros x y Hxy%is_child_of_true.
      apply is_child_of_true. destruct (decide (set_parent par w (Some p) x = Some p)); [done|].
      unfold set_parent in *. destruct (decide (x = w)); [congruence|done]. }
    intros r (? & Hperm & _). apply runs_ret. simpl. split; [done|]. split; [done|].
    by apply fl_windows_perm.
  - apply runs_ret. simpl. split; [done|]. split; [|done].
    eapply floating_ok_mono; [|exact Hok]. intros x y Hxy%is_child_of_true.
    apply is_child_of_true. unfold set_parent in *. destruct (decide (x = w)); [congruence|done].
Qed.

Lemma float_step_ok st st' :
  float_step st st' → no_cycle st.1 ∧ floating_ok st.1 st.2 → no_cycle st'.1 ∧ floating_ok st'.1 st'.2.
Proof.
  intros Hstep [Hc Hok]. destruct Hstep as [par f op f' rem Hpre Hrun|par f w p par' f' Hc' Hrun].
  - split; [done|]. destruct (run_float_op_runs par f op Hc Hok Hpre) as (r & Hr & ? & _).
    by simplify_eq.
  - destruct (parent_changed_runs par f w p Hc' Hok) as (r & Hr & Hpar & ? & _). simplify_eq/=.
    by subst.
Qed.

Lemma float_steps_ok st st' :
  rtc float_step st st' → no_cycle st.1 ∧ floating_ok st.1 st.2 → no_cycle st'.1 ∧ floating_ok st'.1 st'.2.
Proof. induction 1 as [|???? _ IH]; [done|]. eauto using float_step_ok. Qed.
(** ** Properties *)

(** C20: children stay stacked above their parents. In every floating space reached from an
    empty one by its operations and by windows changing their parents, no window is below its
    parent, windows are distinct, a window is active exactly when there is one and the resized
    window is there; and every operation whose windows are there, and every change of parent
    that makes no cycle, runs without panic and neither loses nor duplicates a window. *)
Theorem children_stay_above_parents par o st :
  no_cycle par → rtc float_step (par, Floating_new o) st →
  floating_ok st.1 st.2 ∧
  (∀ op, float_pre st.2 op → ∃ f' removed, run_float_op st.1 st.2 op = Some (f', removed) ∧
     float_added op ++ fl_windows st.2 ≡ₚ removed ++ fl_windows f') ∧
  (∀ w p, no_cycle (set_parent st.1 w p) → ∃ f',
     parent_changed st.1 st.2 w p = Some (set_parent st.1 w p, f') ∧
     fl_windows st.2 ≡ₚ fl_windows f').
Proof.
  intros Hc Hr. destruct (float_steps_ok _ _ Hr) as [Hc' Hok].
  { split; [done|]. apply Floating_new_ok. }
  split; [done|]. split.
  - intros op Hpre. destruct (run_float_op_runs _ _ op Hc' Hok Hpre) as ([f' r] & ? & _ & ?). eauto.
  - intros w p Hcp. destruct (parent_changed_runs _ _ w p Hcp Hok) as ([par' f'] & Hrun & Hp & _ & ?).
    simpl in *. subst par'. eauto.
Qed.

End properties.

Section raise.
  Context (parent_of : N → option N) (Hcycle : no_cycle parent_of).

Lemma filter_select m (l D : list N) :
  length m = length l → (∀ x, x ∈ select m l → x ∈ D) →
  (∀ x, x ∈ select (negb <$> m) l → x ∉ D) →
  filter (.∈ D) l = select m l ∧ filter (.∉ D) l = select (negb <$> m) l.
Proof.
  revert l. induction m as [|b m IH]; intros [|x l]; [done..|]. csimpl. intros [= Hl] H1 H2.
  destruct b; csimpl in *.
  - assert (x ∈ D) as Hx by (apply H1, elem_of_cons; by left).
    destruct (IH l Hl) as [IH1 IH2]; [intros y Hy; apply H1, elem_of_cons; by right|done|].
    rewrite filter_cons_True, filter_cons_False by auto. by rewrite IH1, IH2.
  - assert (x ∉ D) as Hx by (apply H2, elem_of_cons; by left).
    destruct (IH l Hl) as [IH1 IH2]; [done|intros y Hy; apply H2, elem_of_cons; by right|].
    rewrite filter_cons_False, filter_cons_True by auto. by rewrite IH1, IH2.
Qed.

Lemma filter_others (A B : list N) w :
  NoDup (A ++ w :: B) → filter (λ x, x ≠ w) (A ++ w :: B) = A ++ B.
Proof.
  intros Hnd. apply NoDup_app in Hnd as (_ & HA & [HB _]%NoDup_cons).
  assert (∀ l : list N, w ∉ l → filter (λ x, x ≠ w) l = l) as Hid.
  { induction l as [|y l IH]; [done|]. intros [Hy Hl]%not_elem_of_cons.
    rewrite filter_cons_True by done. by rewrite IH. }
  rewrite filter_app, filter_cons_False by naive_solver. rewrite !Hid; [done..|].
  intros H. apply (HA w H), elem_of_cons. by left.
Qed.

(** The list [activate_window] leaves: descendants, the window, the others. *)
Lemma fl_activate_window_eq f A t B :
  f.(fl_tiles) = A ++ t :: B → idx_of f (tl_window t) = Some (length A) →
  let m := descend_mask parent_of (tl_window t) (tl_window <$> A ++ B) in
  fl_activate_window parent_of f (tl_window t) =
  Some (set_fl_active (Some (tl_window t))
          (set_fl_tiles (select m (A ++ B) ++ t :: select (negb <$> m) (A ++ B)) f), true).
Proof.
  intros Hl Hi m. unfold fl_activate_window. rewrite Hi, Hl. unfold raise_window.
  rewrite (proj2 (Nat.leb_le _ _)) by lia.
  rewrite (vec_remove_ok _ t) by (by rewrite lookup_app_r, Nat.sub_diag).
  cbn [mbind option_bind fst snd]. rewrite vec_insert_ok by lia.
  rewrite take_app_length, take_0, drop_0. cbn [app mbind option_bind].
  assert (drop (S (length A)) (A ++ t :: B) = B) as ->.
  { rewrite <-Nat.add_1_r, drop_app_add. done. }
  pose proof (bring_up_eq parent_of [] t (A ++ B)) as H. cbn [length app] in H. by rewrite H.
Qed.

(** Activating a floating window raises exactly its family. Of the other windows, those
    that descend from it through windows of the space come to the top in their order, then the
    window, then the rest in their order, and the window becomes active. *)
Theorem activate_raises_descendants f w :
  floating_ok parent_of f → w ∈ fl_windows f →
  let others := filter (λ x, x ≠ w) (fl_windows f) in
  ∃ f' (D : list N), fl_activate_window parent_of f w = Some (f', true) ∧ f'.(fl_active) = Some w ∧
    (∀ x, x ∈ D ↔ x ∈ others ∧ descends parent_of others x w) ∧
    fl_windows f' = filter (.∈ D) others ++ w :: filter (.∉ D) others.
Proof.
  intros [Hst Hnd _ _ _ _] Hw others.
  destruct (idx_of_split f w Hw) as (A & t & B & Hl & Ht & Hi). subst w.
  pose proof (fl_activate_window_eq f A t B Hl Hi) as Heq. cbv zeta in Heq.
  assert (others = tl_window <$> A ++ B) as Ho.
  { subst others. unfold fl_windows in *. rewrite Hl, fmap_app, fmap_cons in Hnd |- *.
    rewrite fmap_app. by apply filter_others. }
  unfold fl_windows in Hst, Hnd. rewrite Hl, fmap_app, fmap_cons in Hst, Hnd.
  assert (stacked parent_of others) as Hso.
  { apply stacked_app in Hst as (HA & [_ HB] & HAB). rewrite Ho, fmap_app. apply stacked_app.
    split_and!; [done..|]. intros x y Hx Hy. apply HAB; [done|]. apply elem_of_cons; by right. }
  rewrite <-Permutation_middle in Hnd. apply NoDup_cons in Hnd as [Hn Hnd].
  rewrite <-fmap_app, <-Ho in Hn, Hnd. rewrite <-Ho in Heq.
  set (m := descend_mask parent_of (tl_window t) others) in *.
  eexists _, (select m others). split; [exact Heq|]. split; [done|]. split.
  - intros x. split; [intros Hx|intros [? ?]; by apply descends_select].
    split; [by eapply elem_of_select|by apply select_mask_descends].
  - destruct (filter_select m others (select m others)) as [-> ->]; [apply length_descend_mask|done| |].
    { intros x Hx Hx'. by eapply select_negb_disjoint. }
    unfold fl_windows. simpl. by rewrite fmap_app, fmap_cons, !fmap_select, <-Ho.
Qed.

End raise.

(** ** Witnesses *)
Definition float_options : Options := MkOptions DisplayNormal false.

Definition float_tile (w : N) : Tile := MkTile w SizeNormal None float_options false.

(** Window 2 is a dialog of window 1, and 4 of 2. *)
Definition dialogs (w : N) : option N :=
  match w with 2%N => Some 1%N | 4%N => Some 2%N | _ => None end.

Lemma dialogs_rank x y : tc (λ x y, dialogs x = Some y) x y → (y < x)%N.
Proof.
  assert (∀ a b, dialogs a = Some b → (b < a)%N) as H.
  { intros a b. unfold dialogs. repeat case_match; intros; simplify_eq; lia. }
  induction 1 as [x y Hxy|x y z Hxy _ IH]; apply H in Hxy; lia.
Qed.

Lemma dialogs_no_cycle : no_cycle dialogs.
Proof. intros w Hw%dialogs_rank. lia. Qed.

Definition unparented (w : N) : option N := None.

Lemma unparented_no_cycle : no_cycle unparented.
Proof. intros w Hw. by induction Hw. Qed.

Lemma set_parent_no_cycle : no_cycle (set_parent unparented 1 (Some 2%N)).
Proof.
  assert (∀ x y, tc (λ x y, set_parent unparented 1 (Some 2%N) x = Some y) x y → x = 1%N ∧ y = 2%N)
    as H.
  { induction 1 as [x y Hxy|x y z Hxy _ IH]; unfold set_parent, unparented in Hxy;
      destruct (decide (x = 1%N)); naive_solver. }
  intros w Hw%H. naive_solver.
Qed.

(** Two windows, the second above the first. *)
Definition two_floating : FloatingSpace :=
  MkFloating [float_tile 2; float_tile 1] (Some 2%N) None float_options.

Lemma two_floating_reached :
  rtc (float_step (λ _, f64_one)) (unparented, Floating_new float_options) (unparented, two_floating).
Proof.
  apply rtc_l with (unparented, MkFloating [float_tile 1] (Some 1%N) None float_options).
  { apply (float_op_step _ _ _ (FlAddTile (float_tile 1) true) _ []); [|reflexivity].
    apply not_elem_of_nil. }
  apply rtc_once, (float_op_step _ _ _ (FlAddTile (float_tile 2) true) _ []); [|reflexivity].
  apply (bool_decide_unpack _); vm_compute; exact I.
Qed.

(** The window at the bottom becomes a child of the one at the top and is raised above it. *)
Lemma children_stay_above_parents_witness :
  ∃ f', parent_changed unparented two_floating 1 (Some 2%N) =
          Some (set_parent unparented 1 (Some 2%N), f') ∧ fl_windows f' = [1; 2]%N.
Proof.
  destruct (children_stay_above_parents (λ _, f64_one) unparented float_options _
              unparented_no_cycle two_floating_reached) as (_ & _ & H).
  destruct (H 1%N (Some 2%N) set_parent_no_cycle) as (f' & Hrun & _).
  exists f'. split; [exact Hrun|]. vm_compute in Hrun. injection Hrun as <-. reflexivity.
Defined.

(** A window with a dialog, which has one itself, below an unrelated window. *)
Definition dialog_space : FloatingSpace :=
  MkFloating [float_tile 3; float_tile 4; float_tile 2; float_tile 5; float_tile 1] (Some 3%N) None
    float_options.

Lemma dialog_space_ok : floating_ok dialogs dialog_space.
Proof.
  split.
  - repeat (split; [apply Forall_forall; repeat (constructor; [reflexivity|]); constructor|]). done.
  - apply (bool_decide_unpack _); vm_compute; exact I.
  - intros w [= <-]. apply (bool_decide_unpack _); vm_compute; exact I.
  - done.
  - done.
  - repeat constructor.
Qed.

Lemma activate_raises_descendants_witness :
  ∃ f' (D : list N), fl_activate_window dialogs dialog_space 1 = Some (f', true) ∧
    (4%N ∈ D ↔ 4%N ∈ [3; 4; 2; 5]%N ∧ descends dialogs [3; 4; 2; 5]%N 4 1) ∧
    fl_windows f' = [4; 2; 1; 3; 5]%N.
Proof.
  destruct (activate_raises_descendants dialogs dialogs_no_cycle dialog_space 1 dialog_space_ok)
    as (f' & D & Hrun & _ & HD & _).
  { apply (bool_decide_unpack _); vm_compute; exact I. }
  exists f', D. split; [exact Hrun|]. split; [exact (HD 4%N)|].
  vm_compute in Hrun. injection Hrun as <-. reflexivity.
Defined.
