(* ===== verification/LayoutOutput.v ===== *)
(** * Output names (crates/niri-config/src/output.rs, [OutputId] of src/layout/workspace.rs)

    How a workspace remembers the output it belongs to: by make, model and serial where the
    output has them, by connector otherwise.  Strings are UTF-8 byte strings; slicing at a place
    that is not a character boundary fails, as [str::get] does. *)
From S2P Require Import Prelude.
From Stdlib Require Import Ascii.

(** ** Strings *)
Definition is_continuation (c : ascii) : bool :=
  let n := N_of_ascii c in (128 <=? n)%N && (n <? 192)%N.

Fixpoint str_take (n : nat) (s : string) : string :=
  match n, s with
  | S n, String c s => String c (str_take n s)
  | _, _ => EmptyString
  end.

Fixpoint str_drop (n : nat) (s : string) : string :=
  match n, s with
  | S n, String _ s => str_drop n s
  | _, _ => s
  end.

(** [s.get(..n)]. *)
Definition str_get_to (n : nat) (s : string) : option string :=
  if String.length s <? n then None
  else match str_drop n s with
       | EmptyString => Some (str_take n s)
       | String c _ => if (n =? 0) || negb (is_continuation c) then Some (str_take n s) else None
       end.

Definition to_ascii_lowercase (c : ascii) : ascii :=
  let n := N_of_ascii c in
  if (65 <=? n)%N && (n <=? 90)%N then ascii_of_N (n + 32)%N else c.

Fixpoint eq_ignore_ascii_case (a b : string) : bool :=
  match a, b with
  | EmptyString, EmptyString => true
  | String x a, String y b =>
      Ascii.eqb (to_ascii_lowercase x) (to_ascii_lowercase y) && eq_ignore_ascii_case a b
  | _, _ => false
  end.

Definition starts_with_space (s : string) : bool :=
  match s with String c _ => Ascii.eqb c " "%char | EmptyString => false end.

(** ** Output names *)
Record OutputName := MkOutputName {
  on_connector : string;
  on_make : option string;
  on_model : option string;
  on_serial : option string
}.

#[export] Instance OutputName_eq_dec : EqDecision OutputName.
Proof. solve_decision. Defined.

Definition missing_mms (o : OutputName) : bool :=
  match o.(on_make), o.(on_model), o.(on_serial) with None, None, None => true | _, _, _ => false end.

Definition unknown (s : option string) : string := default "Unknown" s.

Definition format_make_model_serial (o : OutputName) : string :=
  unknown o.(on_make) +:+ " " +:+ unknown o.(on_model) +:+ " " +:+ unknown o.(on_serial).

Definition format_make_model_serial_or_connector (o : OutputName) : string :=
  if missing_mms o then o.(on_connector) else format_make_model_serial o.

(** [Self::matches]: by connector, or field by field against the target. *)
Definition output_matches (o : OutputName) (target : string) : bool :=
  if eq_ignore_ascii_case target o.(on_connector) then true
  else if missing_mms o then false
  else
    let make := unknown o.(on_make) in
    let model := unknown o.(on_model) in
    let serial := unknown o.(on_serial) in
    match str_get_to (String.length make) target with
    | None => false
    | Some target_make =>
        let rest := str_drop (String.length make) target in
        if negb (eq_ignore_ascii_case target_make make) then false
        else if negb (starts_with_space rest) then false
        else
          let rest := str_drop 1 rest in
          match str_get_to (String.length model) rest with
          | None => false
          | Some target_model =>
              let rest := str_drop (String.length model) rest in
              if negb (eq_ignore_ascii_case target_model model) then false
              else if negb (starts_with_space rest) then false
              else eq_ignore_ascii_case (str_drop 1 rest) serial
          end
    end.

(** [OutputId::new]. *)
Definition OutputId_new (o : OutputName) : string := format_make_model_serial_or_connector o.

(** ** New connectors (src/backend/tty.rs)

    Outputs with the same make, model and serial as a known one are named by their connector. *)
Definition unname_duplicate (known : list OutputName) (name : OutputName) : OutputName :=
  let formatted := format_make_model_serial_or_connector name in
  if existsb (λ k, output_matches k formatted) known
  then MkOutputName name.(on_connector) None None None else name.

(** Each of them is known to the next one. *)
Fixpoint name_connectors (known added : list OutputName) : list OutputName :=
  match added with
  | [] => known
  | name :: added => name_connectors (known ++ [unname_duplicate known name]) added
  end.

(** ** Theory *)
Lemma eq_ignore_ascii_case_refl s : eq_ignore_ascii_case s s = true.
Proof. induction s as [|c s IH]; simpl; [done|]. by rewrite Ascii.eqb_refl. Qed.

Lemma str_take_app a b : str_take (String.length a) (a +:+ b) = a.
Proof. induction a as [|c a IH]; simpl; [by destruct b|by rewrite IH]. Qed.

Lemma str_drop_app a b : str_drop (String.length a) (a +:+ b) = b.
Proof. induction a as [|c a IH]; simpl; [by destruct b|done]. Qed.

Lemma str_length_app a b : String.length (a +:+ b) = String.length a + String.length b.
Proof. induction a as [|c a IH]; simpl; [done|by rewrite IH]. Qed.

(** Cutting a field off before a space. *)
Lemma str_get_to_field a b : str_get_to (String.length a) (a +:+ " " +:+ b) = Some a.
Proof.
  unfold str_get_to. rewrite str_length_app, str_take_app, str_drop_app.
  rewrite (proj2 (Nat.ltb_ge _ _)) by lia. change (" " +:+ b) with (String " " b).
  cbv beta iota. replace (is_continuation " ") with false by reflexivity. by rewrite orb_true_r.
Qed.

Lemma space_field b : starts_with_space (" " +:+ b) = true ∧ str_drop 1 (" " +:+ b) = b.
Proof. split; [done|by destruct b]. Qed.

(** ** Matching is equality with one of two strings *)
Lemma eq_ignore_ascii_case_sym a b : eq_ignore_ascii_case a b = eq_ignore_ascii_case b a.
Proof.
  revert b. induction a as [|x a IH]; intros [|y b]; simpl; try done. rewrite IH. f_equal.
  apply Bool.eq_iff_eq_true. by rewrite !Ascii.eqb_eq.
Qed.

Lemma eq_ignore_ascii_case_app a b c d :
  String.length a = String.length c →
  eq_ignore_ascii_case (a +:+ b) (c +:+ d) = eq_ignore_ascii_case a c && eq_ignore_ascii_case b d.
Proof.
  revert c. induction a as [|x a IH]; intros [|y c]; simpl; try done. intros [= H].
  rewrite IH by done. by rewrite andb_assoc.
Qed.

Lemma eq_ignore_ascii_case_length a b : eq_ignore_ascii_case a b = true → String.length a = String.length b.
Proof.
  revert b. induction a as [|x a IH]; intros [|y b]; simpl; try done. intros [_ H]%andb_true_iff. by rewrite (IH b).
Qed.

Lemma str_split n s : n ≤ String.length s → s = str_take n s +:+ str_drop n s ∧ String.length (str_take n s) = n.
Proof.
  revert s. induction n as [|n IH]; intros [|c s]; simpl; try (intros; lia || done).
  intros H. destruct (IH s) as [E1 E2]; [lia|]. split; [by rewrite E1 at 1|by rewrite E2].
Qed.

Lemma lower_space c : Ascii.eqb (to_ascii_lowercase c) " "%char = Ascii.eqb c " "%char.
Proof. by destruct c as [[] [] [] [] [] [] [] []]. Qed.

Lemma space_head c s b : eq_ignore_ascii_case (String c s) (" " +:+ b) = Ascii.eqb c " " && eq_ignore_ascii_case s b.
Proof.
  change (" " +:+ b) with (String " " b). simpl. by rewrite <- (lower_space c).
Qed.

(** One field of a formatted name. *)
Definition match_field (field target : string) (rest : string → bool) : bool :=
  match str_get_to (String.length field) target with
  | None => false
  | Some head =>
      let tail := str_drop (String.length field) target in
      if negb (eq_ignore_ascii_case head field) then false
      else if negb (starts_with_space tail) then false else rest (str_drop 1 tail)
  end.

Lemma match_field_eq field target rest tail :
  (∀ s, rest s = eq_ignore_ascii_case s tail) →
  match_field field target rest = eq_ignore_ascii_case target (field +:+ " " +:+ tail).
Proof.
  intros Hrest. unfold match_field, str_get_to. set (n := String.length field).
  destruct (Nat.ltb_spec (String.length target) n) as [Hlt|Hge].
  { symmetry. apply not_true_is_false. intros H%eq_ignore_ascii_case_length.
    rewrite !str_length_app in H. fold n in H. lia. }
  destruct (str_split n target Hge) as [Hs Hn].
  set (head := str_take n target) in *. set (tl := str_drop n target) in *.
  rewrite Hs, eq_ignore_ascii_case_app by done.
  destruct tl as [|c s]; [by rewrite andb_false_r; destruct (eq_ignore_ascii_case head field)|].
  rewrite space_head, Hrest. cbn [starts_with_space str_drop].
  destruct (Ascii.eqb_spec c " ") as [->|Hc]; cbn [negb andb].
  - change (is_continuation " ") with false. rewrite orb_true_r.
    by destruct (eq_ignore_ascii_case head field).
  - rewrite andb_false_r. destruct ((n =? 0) || _); [|done]. by destruct (eq_ignore_ascii_case head field).
Qed.

Lemma output_matches_eq o target :
  output_matches o target =
    eq_ignore_ascii_case target o.(on_connector) ||
    negb (missing_mms o) && eq_ignore_ascii_case target (format_make_model_serial o).
Proof.
  unfold output_matches, format_make_model_serial.
  destruct (eq_ignore_ascii_case target (on_connector o)); [done|].
  destruct (missing_mms o); [done|]. cbn [negb andb orb].
  change (match_field (unknown o.(on_make)) target (λ s, match_field (unknown o.(on_model)) s
            (λ s, eq_ignore_ascii_case s (unknown o.(on_serial)))) =
          eq_ignore_ascii_case target
            (unknown o.(on_make) +:+ " " +:+ (unknown o.(on_model) +:+ " " +:+ unknown o.(on_serial)))).
  apply match_field_eq. intros s. by apply match_field_eq.
Qed.

(** ** Names of connected outputs *)
Fixpoint has_space (s : string) : bool :=
  match s with EmptyString => false | String c s => Ascii.eqb c " " || has_space s end.

Lemma has_space_app a b : has_space (a +:+ b) = has_space a || has_space b.
Proof. induction a as [|c a IH]; simpl; [done|]. by rewrite IH, orb_assoc. Qed.

Lemma has_space_eq a b : eq_ignore_ascii_case a b = true → has_space a = has_space b.
Proof.
  revert b. induction a as [|x a IH]; intros [|y b]; simpl; try done. intros [Hc%Ascii.eqb_eq H]%andb_true_iff.
  rewrite (IH b H). f_equal. by rewrite <- (lower_space x), <- (lower_space y), Hc.
Qed.

Lemma format_has_space o : has_space (format_make_model_serial o) = true.
Proof. unfold format_make_model_serial. rewrite has_space_app. apply orb_true_iff. by right. Qed.

(** A connector is no formatted name. *)
Lemma connector_not_formatted s o : has_space s = false → eq_ignore_ascii_case s (format_make_model_serial o) = false.
Proof.
  intros Hs. apply not_true_is_false. intros H%has_space_eq. rewrite format_has_space in H. congruence.
Qed.

(** Neither output answers to what the other one is remembered as. *)
Definition apart (o o' : OutputName) : Prop :=
  output_matches o (OutputId_new o') = false ∧ output_matches o' (OutputId_new o) = false.

(** Connectors as the kernel names them. *)
Definition connectors_differ (o o' : OutputName) : Prop :=
  eq_ignore_ascii_case o.(on_connector) o'.(on_connector) = false ∧
  has_space o.(on_connector) = false ∧ has_space o'.(on_connector) = false.

Lemma ordpairs_app {A} (R : A → A → Prop) (l k : list A) :
  ForallOrdPairs R (l ++ k) ↔ ForallOrdPairs R l ∧ ForallOrdPairs R k ∧ ∀ x y, x ∈ l → y ∈ k → R x y.
Proof.
  induction l as [|x l IH]; cbn.
  { split; [intros; split_and!; [constructor|done|]|tauto]. by intros x y ?%not_elem_of_nil. }
  split.
  - inversion 1 as [|? ? H1 H2]; subst. apply IH in H2 as (H2 & H3 & H4). apply Forall_app in H1 as [H1 H1'].
    split_and!; [by constructor|done|]. intros y z [->|Hy]%elem_of_cons Hz; [|by apply H4].
    rewrite Forall_forall in H1'. by apply H1'.
  - intros (H1 & H2 & H3). inversion H1 as [|? ? H4 H5]; subst. constructor.
    + apply Forall_app. split; [done|]. apply Forall_forall. intros y Hy. apply H3; [left|done].
    + apply IH. split_and!; [done|done|]. intros y z Hy Hz. apply H3; [by right|done].
Qed.

Lemma unnamed_apart known name k :
  k ∈ known → connectors_differ k name → apart k (unname_duplicate known name).
Proof.
  intros Hk (Hne & Hs & Hs'). assert (Hne' : eq_ignore_ascii_case name.(on_connector) k.(on_connector) = false).
  { by rewrite eq_ignore_ascii_case_sym. }
  unfold unname_duplicate. destruct (existsb _ known) eqn:Ed.
  - split; rewrite output_matches_eq; unfold OutputId_new, format_make_model_serial_or_connector; cbn.
    + by rewrite Hne', connector_not_formatted, andb_false_r by done.
    + rewrite orb_false_r. destruct (missing_mms k); [done|].
      rewrite eq_ignore_ascii_case_sym. by apply connector_not_formatted.
  - assert (Hno : output_matches k (OutputId_new name) = false).
    { apply not_true_is_false. intros H. apply not_true_iff_false in Ed. apply Ed, List.existsb_exists.
      exists k. split; [by apply list_elem_of_In|done]. }
    split; [done|]. rewrite output_matches_eq in Hno |- *. apply orb_false_iff in Hno as [_ Hno].
    unfold OutputId_new, format_make_model_serial_or_connector in *.
    destruct (missing_mms k) eqn:Ek, (missing_mms name) eqn:En; cbn [negb andb] in *;
      rewrite ?orb_false_r, ?Hne, ?(connector_not_formatted k.(on_connector)) by done; try done.
    all: try (apply orb_false_iff; split); rewrite eq_ignore_ascii_case_sym;
      (done || by apply connector_not_formatted).
Qed.

Lemma apart_sym o o' : apart o o' → apart o' o.
Proof. by intros []. Qed.

(** Monitors with the same make, model and serial get names under which the layout tells
    them apart. However many connectors are added, if the connectors are distinct and without
    spaces, then of the resulting names no output matches what the layout remembers of another
    one; the layout, which panics on such duplicates, never sees them. *)
Theorem name_connectors_apart known added :
  ForallOrdPairs connectors_differ (known ++ added) → ForallOrdPairs apart known →
  ForallOrdPairs apart (name_connectors known added) ∧
  on_connector <$> name_connectors known added = on_connector <$> known ++ added.
Proof.
  revert known. induction added as [|name added IH]; intros known Hd Ha; cbn [name_connectors].
  { by rewrite app_nil_r. }
  set (new := unname_duplicate known name).
  assert (Hc : new.(on_connector) = name.(on_connector)).
  { unfold new, unname_duplicate. by destruct (existsb _ known). }
  destruct (IH (known ++ [new])) as [H1 H2].
  - rewrite <- app_assoc. apply ordpairs_app in Hd as (D1 & D2 & D3). apply ordpairs_app. split_and!; [done| |].
    + inversion D2 as [|? ? D4 D5]; subst. constructor; [|done]. eapply Forall_impl; [exact D4|].
      intros o. unfold connectors_differ. by rewrite Hc.
    + intros o o' Ho [->|Ho']%elem_of_cons; [|by apply D3; [|right]].
      unfold connectors_differ. rewrite Hc. by apply D3; [|left].
  - apply ordpairs_app. split_and!; [done|by repeat constructor|].
    intros o o' Ho ->%list_elem_of_singleton. apply unnamed_apart; [done|].
    apply ordpairs_app in Hd as (_ & _ & D3). by apply D3; [|left].
  - split; [done|]. rewrite H2, !fmap_app. cbn. by rewrite Hc, <- app_assoc.
Qed.

(** The name a workspace remembers for an output matches that output, whatever
    characters its make, model and serial contain, so that workspaces come back to it. *)
Theorem output_id_matches o : output_matches o (OutputId_new o) = true.
Proof.
  unfold output_matches, OutputId_new, format_make_model_serial_or_connector.
  destruct (missing_mms o) eqn:E; [by rewrite eq_ignore_ascii_case_refl|].
  destruct (eq_ignore_ascii_case _ (on_connector o)); [done|].
  unfold format_make_model_serial.
  rewrite str_get_to_field, eq_ignore_ascii_case_refl, str_drop_app.
  match goal with |- context [starts_with_space (" " +:+ ?b)] => destruct (space_field b) as [-> ->] end.
  cbn [negb]. rewrite str_get_to_field, eq_ignore_ascii_case_refl, str_drop_app.
  match goal with |- context [starts_with_space (" " +:+ ?b)] => destruct (space_field b) as [-> ->] end.
  apply eq_ignore_ascii_case_refl.
Qed.

Definition sample_connector (name : string) : OutputName :=
  MkOutputName name (Some "Acme") (Some "Wide") None.

(** Three outputs of one model without serials. *)
Lemma name_connectors_apart_witness :
  name_connectors [sample_connector "DP-1"] [sample_connector "DP-2"; sample_connector "DP-3"] =
    [sample_connector "DP-1"; MkOutputName "DP-2" None None None; MkOutputName "DP-3" None None None] ∧
  ForallOrdPairs apart
    (name_connectors [sample_connector "DP-1"] [sample_connector "DP-2"; sample_connector "DP-3"]).
Proof.
  split; [reflexivity|].
  destruct (name_connectors_apart [sample_connector "DP-1"] [sample_connector "DP-2"; sample_connector "DP-3"])
    as [H _]; [|repeat constructor|exact H].
  repeat constructor.
Defined.
