(* ===== verification/LayoutWorkspace.v ===== *)
(** * Workspaces (src/layout/workspace.rs)

    A workspace joins a scrolling and a floating space.  The operations dispatch on which of the
    two is active or holds the window; adding, removing, floating and fullscreening windows keep
    track of which one that is.  [None] is a panic. *)
From S2P Require Import Prelude Float64 LayoutScrolling LayoutFloating LayoutOutput.

(** ** Data *)
Inductive FloatingActive := FloatingNo | FloatingNoButRaised | FloatingYes.

#[export] Instance FloatingActive_eq_dec : EqDecision FloatingActive.
Proof. solve_decision. Defined.

(** [FloatingActive::get]. *)
Definition fa_get (a : FloatingActive) : bool :=
  match a with FloatingYes => true | _ => false end.

Inductive ActivateWindow := ActivateYes | ActivateSmart | ActivateNo.

(** [map_smart] with a closure that may panic. *)
Definition map_smart (a : ActivateWindow) (f : option bool) : option bool :=
  match a with ActivateYes => Some true | ActivateSmart => f | ActivateNo => Some false end.

Inductive WorkspaceAddWindowTarget :=
| WsAuto
| WsNewColumnAt (idx : nat)
| WsNextTo (window : N).

(** The settings of a layout section that the structure depends on. *)
Record LayoutPart := MkLayoutPart {
  lp_default_column_display : option ColumnDisplay;
  lp_empty_workspace_above_first : option bool
}.

#[export] Instance LayoutPart_eq_dec : EqDecision LayoutPart.
Proof. solve_decision. Defined.

Definition with_merged_layout (o : Options) (part : option LayoutPart) : Options :=
  match part with
  | None => o
  | Some p =>
      MkOptions (default o.(opt_default_column_display) p.(lp_default_column_display))
        (default o.(opt_empty_workspace_above_first) p.(lp_empty_workspace_above_first))
  end.

Record Workspace := MkWorkspace {
  ws_id : N;
  ws_name : option string;
  ws_scrolling : ScrollingSpace;
  ws_floating : FloatingSpace;
  ws_floating_is_active : FloatingActive;
  ws_original_output : string;
  ws_output : option OutputName;
  ws_base_options : Options;
  ws_options : Options;
  ws_layout_config : option LayoutPart
}.

Definition set_ws_name n (ws : Workspace) : Workspace :=
  MkWorkspace ws.(ws_id) n ws.(ws_scrolling) ws.(ws_floating) ws.(ws_floating_is_active)
    ws.(ws_original_output) ws.(ws_output) ws.(ws_base_options) ws.(ws_options) ws.(ws_layout_config).
Definition set_ws_scrolling s (ws : Workspace) : Workspace :=
  MkWorkspace ws.(ws_id) ws.(ws_name) s ws.(ws_floating) ws.(ws_floating_is_active)
    ws.(ws_original_output) ws.(ws_output) ws.(ws_base_options) ws.(ws_options) ws.(ws_layout_config).
Definition set_ws_floating f (ws : Workspace) : Workspace :=
  MkWorkspace ws.(ws_id) ws.(ws_name) ws.(ws_scrolling) f ws.(ws_floating_is_active)
    ws.(ws_original_output) ws.(ws_output) ws.(ws_base_options) ws.(ws_options) ws.(ws_layout_config).
Definition set_ws_active a (ws : Workspace) : Workspace :=
  MkWorkspace ws.(ws_id) ws.(ws_name) ws.(ws_scrolling) ws.(ws_floating) a
    ws.(ws_original_output) ws.(ws_output) ws.(ws_base_options) ws.(ws_options) ws.(ws_layout_config).
Definition set_ws_original_output o (ws : Workspace) : Workspace :=
  MkWorkspace ws.(ws_id) ws.(ws_name) ws.(ws_scrolling) ws.(ws_floating) ws.(ws_floating_is_active)
    o ws.(ws_output) ws.(ws_base_options) ws.(ws_options) ws.(ws_layout_config).
Definition set_ws_output o (ws : Workspace) : Workspace :=
  MkWorkspace ws.(ws_id) ws.(ws_name) ws.(ws_scrolling) ws.(ws_floating) ws.(ws_floating_is_active)
    ws.(ws_original_output) o ws.(ws_base_options) ws.(ws_options) ws.(ws_layout_config).
Definition set_ws_layout_config c (ws : Workspace) : Workspace :=
  MkWorkspace ws.(ws_id) ws.(ws_name) ws.(ws_scrolling) ws.(ws_floating) ws.(ws_floating_is_active)
    ws.(ws_original_output) ws.(ws_output) ws.(ws_base_options) ws.(ws_options) c.

(** The configuration of a named workspace. *)
Record WorkspaceConfig := MkWorkspaceConfig {
  wc_name : string;
  wc_open_on_output : option string;
  wc_layout : option LayoutPart
}.

(** ** Creation; [id] is the next value of the id counter. *)
Definition new_with_config (id : N) (output : OutputName) (config : option WorkspaceConfig)
    (base_options : Options) : Workspace :=
  let original_output :=
    default (OutputId_new output) (config ≫= wc_open_on_output) in
  let layout_config := config ≫= wc_layout in
  let options := with_merged_layout base_options layout_config in
  MkWorkspace id (wc_name <$> config) (Scrolling_new options) (Floating_new options) FloatingNo
    original_output (Some output) base_options options layout_config.

Definition Workspace_new (id : N) (output : OutputName) (options : Options) : Workspace :=
  new_with_config id output None options.

Definition new_with_config_no_outputs (id : N) (config : option WorkspaceConfig)
    (base_options : Options) : Workspace :=
  let original_output := default "" (config ≫= wc_open_on_output) in
  let layout_config := config ≫= wc_layout in
  let options := with_merged_layout base_options layout_config in
  MkWorkspace id (wc_name <$> config) (Scrolling_new options) (Floating_new options) FloatingNo
    original_output None base_options options layout_config.

(** ** Configuration *)
Definition sc_update_config (options : Options) (s : ScrollingSpace) : ScrollingSpace :=
  MkScrolling (col_update_config options <$> s.(sc_columns)) s.(sc_active) s.(sc_resize)
    s.(sc_activate_prev) options.

Definition ws_update_config (base_options : Options) (ws : Workspace) : Workspace :=
  let options := with_merged_layout base_options ws.(ws_layout_config) in
  MkWorkspace ws.(ws_id) ws.(ws_name) (sc_update_config options ws.(ws_scrolling))
    (fl_update_config options ws.(ws_floating)) ws.(ws_floating_is_active)
    ws.(ws_original_output) ws.(ws_output) base_options options ws.(ws_layout_config).

Definition ws_update_layout_config (layout_config : option LayoutPart) (ws : Workspace) : Workspace :=
  if decide (ws.(ws_layout_config) = layout_config) then ws
  else ws_update_config ws.(ws_base_options) (set_ws_layout_config layout_config ws).

Definition unname (ws : Workspace) : Workspace := set_ws_name None ws.

(** Smithay compares outputs by identity: an output is its name here. *)
Definition set_output (output : option OutputName) (ws : Workspace) : Workspace :=
  if decide (ws.(ws_output) = output) then ws
  else
    let ws := set_ws_output output ws in
    match output with
    | Some o => if output_matches o ws.(ws_original_output)
                then set_ws_original_output (OutputId_new o) ws else ws
    | None => ws
    end.

(** ** Queries *)
Definition sc_tiles (s : ScrollingSpace) : list Tile := s.(sc_columns) ≫= co_tiles.

Definition ws_tiles (ws : Workspace) : list Tile :=
  sc_tiles ws.(ws_scrolling) ++ ws.(ws_floating).(fl_tiles).

Definition has_windows (ws : Workspace) : bool :=
  match ws_tiles ws with [] => false | _ => true end.

Definition has_windows_or_name (ws : Workspace) : bool :=
  has_windows ws || match ws.(ws_name) with Some _ => true | None => false end.

Definition has_window (ws : Workspace) (window : N) : bool := existsb (tile_is window) (ws_tiles ws).

Definition floating_active (ws : Workspace) : bool := fa_get ws.(ws_floating_is_active).

Definition ws_active_window (ws : Workspace) : option N :=
  if floating_active ws then fl_active_window ws.(ws_floating) else active_window ws.(ws_scrolling).

Definition is_active_pending_fullscreen (s : ScrollingSpace) : option bool :=
  if sc_is_empty s then Some false
  else col ← s.(sc_columns) !! s.(sc_active);
       Some (bool_decide (pending_sizing_mode col = SizeFullscreen)).

Definition sc_find_tile (s : ScrollingSpace) (window : N) : option Tile :=
  List.find (tile_is window) (sc_tiles s).

(** Changes the first tile of a window, as through [tiles_mut().find(..).unwrap()]. *)
Definition sc_update_tile (s : ScrollingSpace) (window : N) (f : Tile → Tile) :
    option ScrollingSpace :=
  i ← position_col s window;
  col ← s.(sc_columns) !! i;
  j ← col_position col window;
  tile ← col.(co_tiles) !! j;
  Some (set_column i (set_co_tiles (<[j:=f tile]> col.(co_tiles)) col) s).

Definition set_tl_restore (b : bool) (t : Tile) : Tile :=
  MkTile t.(tl_window) t.(tl_pending) t.(tl_rule_display) t.(tl_options) b.

(** ** Operations *)

(** Running an operation of one of the two spaces. *)
Definition on_scrolling (ws : Workspace) (o : option ScrollingSpace) : option Workspace :=
  s ← o; Some (set_ws_scrolling s ws).
Definition on_scrolling' {B} (ws : Workspace) (o : option (ScrollingSpace * B)) : option (Workspace * B) :=
  r ← o; Some (set_ws_scrolling (fst r) ws, snd r).
Definition on_floating (ws : Workspace) (o : option FloatingSpace) : option Workspace :=
  f ← o; Some (set_ws_floating f ws).
Definition on_floating' {B} (ws : Workspace) (o : option (FloatingSpace * B)) : option (Workspace * B) :=
  r ← o; Some (set_ws_floating (fst r) ws, snd r).

Section workspace.
  Context (parent_of : N → option N) (g : Placement).

Definition activate_if (b : bool) (a : FloatingActive) (ws : Workspace) : Workspace :=
  if b then set_ws_active a ws else ws.

Definition ws_add_tile (ws : Workspace) (tile : Tile) (target : WorkspaceAddWindowTarget)
    (activate : ActivateWindow) (width : ColumnWidth) (is_full_width is_floating : bool) :
    option Workspace :=
  let tile := set_tl_restore is_floating tile in
  let floats := is_floating && bool_decide (tile.(tl_pending) = SizeNormal) in
  match target with
  | WsAuto =>
      activate ← map_smart activate (negb <$> is_active_pending_fullscreen ws.(ws_scrolling));
      if floats then
        ws ← on_floating ws (fl_add_tile parent_of ws.(ws_floating) tile activate);
        Some (activate_if (activate || sc_is_empty ws.(ws_scrolling)) FloatingYes ws)
      else
        ws ← on_scrolling ws (sc_add_tile ws.(ws_scrolling) None tile activate width is_full_width);
        Some (activate_if activate FloatingNo ws)
  | WsNewColumnAt col_idx =>
      activate ← map_smart activate (Some false);
      ws ← on_scrolling ws
             (sc_add_tile ws.(ws_scrolling) (Some col_idx) tile activate width is_full_width);
      Some (activate_if activate FloatingNo ws)
  | WsNextTo next_to =>
      activate ← map_smart activate ((λ w, N.eqb w next_to) <$> ws_active_window ws);
      let floating_has_window := fl_has_window ws.(ws_floating) next_to in
      if floats then
        ws ← on_floating ws
               (if floating_has_window
                then add_tile_above parent_of ws.(ws_floating) next_to tile activate
                else _ ← sc_find_tile ws.(ws_scrolling) next_to;
                     fl_add_tile parent_of ws.(ws_floating) tile activate);
        Some (activate_if (activate || sc_is_empty ws.(ws_scrolling)) FloatingYes ws)
      else if floating_has_window then
        ws ← on_scrolling ws (sc_add_tile ws.(ws_scrolling) None tile activate width is_full_width);
        Some (activate_if activate FloatingNo ws)
      else
        ws ← on_scrolling ws
               (add_tile_right_of ws.(ws_scrolling) next_to tile activate width is_full_width);
        Some (activate_if activate FloatingNo ws)
  end.

Definition ws_add_tile_to_column (ws : Workspace) (col_idx : nat) (tile_idx : option nat)
    (tile : Tile) (activate : bool) : option Workspace :=
  ws ← on_scrolling ws (add_tile_to_column ws.(ws_scrolling) col_idx tile_idx tile activate);
  Some (activate_if activate FloatingNo ws).

Definition ws_add_column (ws : Workspace) (column : Column) (activate : bool) : option Workspace :=
  ws ← on_scrolling ws (add_column ws.(ws_scrolling) None column activate);
  Some (activate_if activate FloatingNo ws).

Definition update_focus_floating_tiling_after_removing (removed_from_floating : bool)
    (ws : Workspace) : Workspace :=
  if removed_from_floating then
    if fl_is_empty ws.(ws_floating) then set_ws_active FloatingNo ws else ws
  else
    if sc_is_empty ws.(ws_scrolling) && negb (fl_is_empty ws.(ws_floating))
    then set_ws_active FloatingYes ws else ws.

Definition ws_remove_tile (ws : Workspace) (id : N) : option (RemovedTile * Workspace) :=
  let from_floating := fl_has_window ws.(ws_floating) id in
  '(removed, ws) ←
    (if from_floating then
       r ← fl_remove_tile (pl_width g) ws.(ws_floating) id;
       Some (fst r, set_ws_floating (snd r) ws)
     else
       r ← sc_remove_tile ws.(ws_scrolling) id;
       Some (fst r, set_ws_scrolling (snd r) ws));
  Some (removed, update_focus_floating_tiling_after_removing from_floating ws).

Definition ws_remove_active_tile (ws : Workspace) : option (option RemovedTile * Workspace) :=
  let from_floating := floating_active ws in
  '(removed, ws) ←
    (if from_floating then
       r ← fl_remove_active_tile (pl_width g) ws.(ws_floating);
       Some (fst r, set_ws_floating (snd r) ws)
     else
       r ← sc_remove_active_tile ws.(ws_scrolling);
       Some (fst r, set_ws_scrolling (snd r) ws));
  match removed with
  | None => Some (None, ws)
  | Some removed =>
      Some (Some removed, update_focus_floating_tiling_after_removing from_floating ws)
  end.

Definition ws_remove_active_column (ws : Workspace) : option (option Column * Workspace) :=
  if floating_active ws then Some (None, ws)
  else
    r ← sc_remove_active_column ws.(ws_scrolling);
    let ws := set_ws_scrolling (snd r) ws in
    match fst r with
    | None => Some (None, ws)
    | Some column => Some (Some column, update_focus_floating_tiling_after_removing false ws)
    end.

(** *** Floating *)
Definition toggle_window_floating (ws : Workspace) (id : option N) : option Workspace :=
  let active_id := ws_active_window ws in
  let target_is_active :=
    match id with None => true | Some id => bool_decide (Some id = active_id) end in
  match (match id with Some id => Some id | None => active_id end) with
  | None => Some ws
  | Some id =>
      _ ← List.find (tile_is id) (ws_tiles ws);
      ws ←
        (if fl_has_window ws.(ws_floating) id then
           r ← fl_remove_tile (pl_width g) ws.(ws_floating) id;
           let ws := set_ws_floating (snd r) ws in
           ws ← on_scrolling ws
                  (sc_add_tile ws.(ws_scrolling) None (rt_tile (fst r)) target_is_active
                     (rt_width (fst r)) (rt_full_width (fst r)));
           Some (activate_if target_is_active FloatingNo ws)
         else
           r ← sc_remove_tile ws.(ws_scrolling) id;
           let ws := set_ws_scrolling (snd r) ws in
           ws ← on_floating ws (fl_add_tile parent_of ws.(ws_floating) (rt_tile (fst r)) target_is_active);
           Some (activate_if target_is_active FloatingYes ws));
      _ ← List.find (tile_is id) (ws_tiles ws);
      Some ws
  end.

(** [id.map_or(self.floating_is_active.get(), |id| self.floating.has_window(id))]. *)
Definition target_floating (ws : Workspace) (id : option N) : bool :=
  match id with None => floating_active ws | Some id => fl_has_window ws.(ws_floating) id end.

Definition set_window_floating (ws : Workspace) (id : option N) (floating : bool) : option Workspace :=
  if Bool.eqb (target_floating ws id) floating then Some ws else toggle_window_floating ws id.

Definition switch_focus_floating_tiling (ws : Workspace) : Workspace :=
  if fl_is_empty ws.(ws_floating) then ws
  else if sc_is_empty ws.(ws_scrolling) then ws
  else set_ws_active (if floating_active ws then FloatingNo else FloatingYes) ws.

Definition focus_floating (ws : Workspace) : Workspace :=
  if negb (floating_active ws) then switch_focus_floating_tiling ws else ws.

Definition focus_tiling (ws : Workspace) : Workspace :=
  if floating_active ws then switch_focus_floating_tiling ws else ws.

(** *** Fullscreen and maximize *)

(** What [set_fullscreen] and [set_maximized] do once the window is in the scrolling layout: apply
    the change, and remember where to restore the window when it leaves the normal size. *)
Definition resize_in_scrolling (ws : Workspace) (window : N) (restore_to_floating : bool)
    (apply : ScrollingSpace → option (ScrollingSpace * bool)) : option Workspace :=
  tile ← sc_find_tile ws.(ws_scrolling) window;
  let was_normal := bool_decide (tile.(tl_pending) = SizeNormal) in
  r ← apply ws.(ws_scrolling);
  let s := fst r in
  tile ← sc_find_tile s window;
  s ← (if was_normal && negb (bool_decide (tile.(tl_pending) = SizeNormal))
       then sc_update_tile s window (set_tl_restore restore_to_floating) else Some s);
  Some (set_ws_scrolling s ws).

Definition ws_set_fullscreen (ws : Workspace) (window : N) (is_fullscreen : bool) : option Workspace :=
  if fl_has_window ws.(ws_floating) window then
    if is_fullscreen then
      ws ← toggle_window_floating ws (Some window);
      resize_in_scrolling ws window true (λ s, sc_set_fullscreen s window is_fullscreen)
    else Some ws
  else
    restore ←
      (if is_fullscreen then Some false
       else
         col ← List.find (λ c, col_contains c window) (sc_columns ws.(ws_scrolling));
         if col.(co_fullscreen) && negb col.(co_maximized) then
           tile ← List.find (tile_is window) col.(co_tiles);
           Some tile.(tl_restore_to_floating)
         else Some false);
    if (restore : bool) then toggle_window_floating ws (Some window)
    else resize_in_scrolling ws window false (λ s, sc_set_fullscreen s window is_fullscreen).

Definition toggle_fullscreen (ws : Workspace) (window : N) : option Workspace :=
  tile ← List.find (tile_is window) (ws_tiles ws);
  ws_set_fullscreen ws window (negb (bool_decide (tile.(tl_pending) = SizeFullscreen))).

Definition ws_set_maximized (ws : Workspace) (window : N) (maximize : bool) : option Workspace :=
  if fl_has_window ws.(ws_floating) window then
    if maximize then
      ws ← toggle_window_floating ws (Some window);
      resize_in_scrolling ws window true (λ s, sc_set_maximized s window maximize)
    else Some ws
  else
    restore ←
      (if maximize then Some false
       else
         tile ← sc_find_tile ws.(ws_scrolling) window;
         Some (bool_decide (tile.(tl_pending) = SizeMaximized) && tile.(tl_restore_to_floating)));
    if (restore : bool) then toggle_window_floating ws (Some window)
    else resize_in_scrolling ws window false (λ s, sc_set_maximized s window maximize).

Definition toggle_maximized (ws : Workspace) (window : N) : option Workspace :=
  let current :=
    match List.find (λ c, col_contains c window) (sc_columns ws.(ws_scrolling)) with
    | Some col => col.(co_maximized)
    | None => false
    end in
  ws_set_maximized ws window (negb current).

(** *** Activation *)
Definition ws_activate_window (ws : Workspace) (window : N) : option (Workspace * bool) :=
  '(f, done) ← fl_activate_window parent_of ws.(ws_floating) window;
  if (done : bool) then Some (set_ws_active FloatingYes (set_ws_floating f ws), true)
  else
    '(s, done) ← sc_activate_window ws.(ws_scrolling) window;
    if (done : bool) then Some (set_ws_active FloatingNo (set_ws_scrolling s ws), true)
    else Some (ws, false).

Definition ws_activate_window_without_raising (ws : Workspace) (window : N) :
    option (Workspace * bool) :=
  let '(f, done) := activate_window_without_raising ws.(ws_floating) window in
  if (done : bool) then Some (set_ws_active FloatingYes (set_ws_floating f ws), true)
  else
    '(s, done) ← sc_activate_window ws.(ws_scrolling) window;
    if (done : bool) then
      Some (set_ws_active (match ws.(ws_floating_is_active) with
                           | FloatingNo => FloatingNo
                           | FloatingNoButRaised => FloatingNoButRaised
                           | FloatingYes => FloatingNoButRaised
                           end) (set_ws_scrolling s ws), true)
    else Some (ws, false).

Definition ws_descendants_added (ws : Workspace) (id : N) : option (Workspace * bool) :=
  on_floating' ws (descendants_added parent_of ws.(ws_floating) id).

(** *** Focus *)
Definition ws_focus_left (ws : Workspace) : option (Workspace * bool) :=
  if floating_active ws then on_floating' ws (fl_focus_left parent_of g ws.(ws_floating))
  else on_scrolling' ws (focus_left ws.(ws_scrolling)).

Definition ws_focus_right (ws : Workspace) : option (Workspace * bool) :=
  if floating_active ws then on_floating' ws (fl_focus_right parent_of g ws.(ws_floating))
  else on_scrolling' ws (focus_right ws.(ws_scrolling)).

Definition ws_focus_column_first (ws : Workspace) : option Workspace :=
  if floating_active ws then on_floating ws (focus_leftmost parent_of g ws.(ws_floating))
  else on_scrolling ws (focus_column_first ws.(ws_scrolling)).

Definition ws_focus_column_last (ws : Workspace) : option Workspace :=
  if floating_active ws then on_floating ws (focus_rightmost parent_of g ws.(ws_floating))
  else on_scrolling ws (focus_column_last ws.(ws_scrolling)).

Definition focus_column_right_or_first (ws : Workspace) : option Workspace :=
  '(ws, done) ← ws_focus_right ws; if (done : bool) then Some ws else ws_focus_column_first ws.

Definition focus_column_left_or_last (ws : Workspace) : option Workspace :=
  '(ws, done) ← ws_focus_left ws; if (done : bool) then Some ws else ws_focus_column_last ws.

Definition ws_focus_column (ws : Workspace) (index : nat) : option Workspace :=
  let ws := if floating_active ws then focus_tiling ws else ws in
  on_scrolling ws (focus_column ws.(ws_scrolling) index).

(** Operations that do nothing while the floating layout is active. *)
Definition tiling_only (ws : Workspace) (o : option ScrollingSpace) : option Workspace :=
  if floating_active ws then Some ws else on_scrolling ws o.

Definition ws_focus_window_in_column (ws : Workspace) (index : nat) : option Workspace :=
  tiling_only ws (focus_window_in_column ws.(ws_scrolling) index).

Definition ws_focus_down (ws : Workspace) : option (Workspace * bool) :=
  if floating_active ws then on_floating' ws (fl_focus_down parent_of g ws.(ws_floating))
  else on_scrolling' ws (focus_down ws.(ws_scrolling)).

Definition ws_focus_up (ws : Workspace) : option (Workspace * bool) :=
  if floating_active ws then on_floating' ws (fl_focus_up parent_of g ws.(ws_floating))
  else on_scrolling' ws (focus_up ws.(ws_scrolling)).

Definition ws_focus_down_or_left (ws : Workspace) : option Workspace :=
  if floating_active ws then fst <$> on_floating' ws (fl_focus_down parent_of g ws.(ws_floating))
  else on_scrolling ws (focus_down_or_left ws.(ws_scrolling)).

Definition ws_focus_down_or_right (ws : Workspace) : option Workspace :=
  if floating_active ws then fst <$> on_floating' ws (fl_focus_down parent_of g ws.(ws_floating))
  else on_scrolling ws (focus_down_or_right ws.(ws_scrolling)).

Definition ws_focus_up_or_left (ws : Workspace) : option Workspace :=
  if floating_active ws then fst <$> on_floating' ws (fl_focus_up parent_of g ws.(ws_floating))
  else on_scrolling ws (focus_up_or_left ws.(ws_scrolling)).

Definition ws_focus_up_or_right (ws : Workspace) : option Workspace :=
  if floating_active ws then fst <$> on_floating' ws (fl_focus_up parent_of g ws.(ws_floating))
  else on_scrolling ws (focus_up_or_right ws.(ws_scrolling)).

Definition focus_window_top (ws : Workspace) : option Workspace :=
  if floating_active ws then on_floating ws (focus_topmost parent_of g ws.(ws_floating))
  else on_scrolling ws (focus_top ws.(ws_scrolling)).

Definition focus_window_bottom (ws : Workspace) : option Workspace :=
  if floating_active ws then on_floating ws (focus_bottommost parent_of g ws.(ws_floating))
  else on_scrolling ws (focus_bottom ws.(ws_scrolling)).

Definition focus_window_down_or_top (ws : Workspace) : option Workspace :=
  '(ws, done) ← ws_focus_down ws; if (done : bool) then Some ws else focus_window_top ws.

Definition focus_window_up_or_bottom (ws : Workspace) : option Workspace :=
  '(ws, done) ← ws_focus_up ws; if (done : bool) then Some ws else focus_window_bottom ws.

(** *** Moving *)
Definition move_or_float (ws : Workspace) (o : option (ScrollingSpace * bool)) :
    option (Workspace * bool) :=
  if floating_active ws then ws ← on_floating ws (move_by ws.(ws_floating)); Some (ws, true)
  else on_scrolling' ws o.

Definition ws_move_left (ws : Workspace) := move_or_float ws (move_left ws.(ws_scrolling)).
Definition ws_move_right (ws : Workspace) := move_or_float ws (move_right ws.(ws_scrolling)).
Definition ws_move_down (ws : Workspace) := move_or_float ws (move_down ws.(ws_scrolling)).
Definition ws_move_up (ws : Workspace) := move_or_float ws (move_up ws.(ws_scrolling)).

Definition ws_move_column_to_first (ws : Workspace) : option Workspace :=
  tiling_only ws (move_column_to_first ws.(ws_scrolling)).
Definition ws_move_column_to_last (ws : Workspace) : option Workspace :=
  tiling_only ws (move_column_to_last ws.(ws_scrolling)).
Definition ws_move_column_to_index (ws : Workspace) (index : nat) : option Workspace :=
  tiling_only ws (move_column_to_index ws.(ws_scrolling) index).

Definition ws_consume_or_expel_window_left (ws : Workspace) (window : option N) : option Workspace :=
  if target_floating ws window then Some ws
  else on_scrolling ws (consume_or_expel_window_left ws.(ws_scrolling) window).

Definition ws_consume_or_expel_window_right (ws : Workspace) (window : option N) : option Workspace :=
  if target_floating ws window then Some ws
  else on_scrolling ws (consume_or_expel_window_right ws.(ws_scrolling) window).

Definition ws_consume_into_column (ws : Workspace) : option Workspace :=
  tiling_only ws (consume_into_column ws.(ws_scrolling)).
Definition ws_expel_from_column (ws : Workspace) : option Workspace :=
  tiling_only ws (expel_from_column ws.(ws_scrolling)).
Definition ws_swap_window_in_direction (ws : Workspace) (direction : ScrollDirection) :
    option Workspace :=
  tiling_only ws (swap_window_in_direction ws.(ws_scrolling) direction).
Definition ws_toggle_column_tabbed_display (ws : Workspace) : option Workspace :=
  tiling_only ws (toggle_column_tabbed_display ws.(ws_scrolling)).
Definition ws_set_column_display (ws : Workspace) (display : ColumnDisplay) : option Workspace :=
  tiling_only ws (set_column_display ws.(ws_scrolling) display).

(** *** Interactive resize *)
Definition ws_interactive_resize_begin (ws : Workspace) (window : N) : option (Workspace * bool) :=
  if fl_has_window ws.(ws_floating) window
  then on_floating' ws (fl_interactive_resize_begin ws.(ws_floating) window)
  else on_scrolling' ws (interactive_resize_begin ws.(ws_scrolling) window).

Definition ws_interactive_resize_end (ws : Workspace) (window : option N) : option Workspace :=
  match window with
  | Some w =>
      if fl_has_window ws.(ws_floating) w
      then Some (set_ws_floating (fl_interactive_resize_end ws.(ws_floating) (Some w)) ws)
      else on_scrolling ws (interactive_resize_end ws.(ws_scrolling) (Some w))
  | None =>
      let ws := set_ws_floating (fl_interactive_resize_end ws.(ws_floating) None) ws in
      on_scrolling ws (interactive_resize_end ws.(ws_scrolling) None)
  end.

End workspace.
