(* ===== verification/LayoutWorkspaceOps.v ===== *)
(** * Workspaces: the invariant and the operations that keep it *)
From S2P Require Import Prelude Float64 LayoutScrolling LayoutScrollingOps LayoutSwap LayoutScrollingProps LayoutFloating LayoutOutput LayoutWorkspace.

(** ** The invariant *)
Definition ws_windows (ws : Workspace) : list N :=
  windows ws.(ws_scrolling) ++ fl_windows ws.(ws_floating).

(** [Workspace::verify_invariants]: both spaces are well formed and share no window, an empty
    floating space is not active, and it is active when only it has windows. *)
Record workspace_ok (parent_of : N → option N) (ws : Workspace) : Prop := {
  wo_scrolling : scrolling_ok ws.(ws_scrolling);
  wo_floating : floating_ok parent_of ws.(ws_floating);
  wo_distinct : NoDup (ws_windows ws);
  wo_floating_empty : ws.(ws_floating).(fl_tiles) = [] → floating_active ws = false;
  wo_scrolling_empty : ws.(ws_scrolling).(sc_columns) = [] → ws.(ws_floating).(fl_tiles) ≠ [] →
    floating_active ws = true
}.

(** What the operations on windows leave alone. *)
Definition ws_meta (ws : Workspace) :=
  (ws.(ws_id), ws.(ws_name), ws.(ws_original_output), ws.(ws_output), ws.(ws_base_options),
   ws.(ws_options), ws.(ws_layout_config)).

(** ** Emptiness *)
Lemma windows_nil s : scrolling_ok s → windows s = [] ↔ s.(sc_columns) = [].
Proof.
  intros Hs. split; [|intros H; unfold windows, arrangement; by rewrite H].
  destruct (sc_columns s) as [|c l] eqn:E; [done|]. unfold windows, arrangement. rewrite E. csimpl.
  assert (column_ok c) as Hc by (apply (column_lookup_ok s 0 c Hs); by rewrite E).
  destruct Hc as [Ha _ _]. unfold col_windows. by destruct (co_tiles c); simpl in *; [lia|].
Qed.

Lemma fl_windows_nil f : fl_windows f = [] ↔ f.(fl_tiles) = [].
Proof. unfold fl_windows. split; [apply fmap_nil_inv|by intros ->]. Qed.

Lemma fl_is_empty_spec f : fl_is_empty f = true ↔ f.(fl_tiles) = [].
Proof. unfold fl_is_empty. by destruct (fl_tiles f). Qed.

Lemma sc_is_empty_true s : sc_is_empty s = true ↔ s.(sc_columns) = [].
Proof. rewrite sc_is_empty_spec. apply bool_decide_eq_true. Qed.

Lemma sc_tiles_windows s : tl_window <$> sc_tiles s = windows s.
Proof.
  unfold sc_tiles, windows, arrangement. induction (sc_columns s) as [|c l IH]; [done|].
  csimpl. by rewrite fmap_app, IH.
Qed.

Lemma ws_tiles_windows ws : tl_window <$> ws_tiles ws = ws_windows ws.
Proof. unfold ws_tiles, ws_windows. by rewrite fmap_app, sc_tiles_windows. Qed.

Lemma has_window_spec ws w : has_window ws w = true ↔ w ∈ ws_windows ws.
Proof. unfold has_window. by rewrite tile_is_existsb, ws_tiles_windows. Qed.

Lemma has_windows_spec ws : has_windows ws = true ↔ ws_windows ws ≠ [].
Proof. unfold has_windows. rewrite <-ws_tiles_windows. by destruct (ws_tiles ws). Qed.

Section workspace_ops.
  Context (parent_of : N → option N) (Hcycle : no_cycle parent_of) (g : Placement).
  Local Abbreviation ok := (workspace_ok parent_of).

(** The same windows in a well-formed workspace. *)
Definition ws_keeps (ws ws' : Workspace) : Prop :=
  ok ws' ∧ ws_windows ws' ≡ₚ ws_windows ws ∧ ws_meta ws' = ws_meta ws.

Lemma ws_keeps_refl ws : ok ws → ws_keeps ws ws.
Proof. by split. Qed.

Lemma ws_keeps_trans ws1 ws2 ws3 : ws_keeps ws1 ws2 → ws_keeps ws2 ws3 → ws_keeps ws1 ws3.
Proof. intros (? & H1 & ?) (? & H2 & ?). split; [done|]. split; [by rewrite H2|congruence]. Qed.

(** The same windows in a scrolling space. *)
Definition sc_keeps (s s' : ScrollingSpace) : Prop := scrolling_ok s' ∧ windows s' ≡ₚ windows s.

Lemma keeps_sc_keeps s s' : keeps s s' → sc_keeps s s'.
Proof. by intros (? & ? & _). Qed.

Lemma perm_nil {A} (l k : list A) : l ≡ₚ k → l = [] ↔ k = [].
Proof. intros H. split; intros ->; [by apply Permutation_nil_l in H|by apply Permutation_nil_r in H]. Qed.

Lemma set_scrolling_keeps ws s :
  ok ws → sc_keeps ws.(ws_scrolling) s → ws_keeps ws (set_ws_scrolling s ws).
Proof.
  intros [Hs Hf Hd He1 He2] [Hs' Hw]. assert (ws_windows (set_ws_scrolling s ws) ≡ₚ ws_windows ws) as Hp.
  { unfold ws_windows. simpl. by rewrite Hw. }
  split; [|done]. split; try done; [by rewrite Hp|]. simpl. intros H%windows_nil; [|done].
  apply (perm_nil _ _ Hw), windows_nil in H; [|done]. by apply He2.
Qed.

Lemma set_floating_keeps ws f :
  ok ws → refocused parent_of ws.(ws_floating) f → ws_keeps ws (set_ws_floating f ws).
Proof.
  intros [Hs Hf Hd He1 He2] [Hf' Ht].
  assert (ws_windows (set_ws_floating f ws) ≡ₚ ws_windows ws) as Hp.
  { unfold ws_windows, fl_windows. simpl. by rewrite Ht. }
  pose proof (perm_nil _ _ Ht) as Hn.
  split; [|done]. split; try done; [by rewrite Hp|..]; simpl; rewrite Hn; auto.
Qed.

(** Which space is active, when both have windows or the choice fits. *)
Lemma set_active_ok ws a :
  scrolling_ok ws.(ws_scrolling) → floating_ok parent_of ws.(ws_floating) → NoDup (ws_windows ws) →
  (fa_get a = true → ws.(ws_floating).(fl_tiles) ≠ []) →
  (fa_get a = false → ws.(ws_scrolling).(sc_columns) ≠ [] ∨ ws.(ws_floating).(fl_tiles) = []) →
  ok (set_ws_active a ws).
Proof.
  intros Hs Hf Hd H1 H2. split; try done; unfold floating_active; simpl; destruct (fa_get a) eqn:E;
    naive_solver.
Qed.

(** ** Runs of operations of one space *)
Lemma on_scrolling_runs ws o :
  ok ws → runs o (sc_keeps ws.(ws_scrolling)) → runs (on_scrolling ws o) (ws_keeps ws).
Proof.
  intros Hok Ho. eapply runs_bind; [exact Ho|]. intros s Hk. by apply runs_ret, set_scrolling_keeps.
Qed.

Lemma on_scrolling'_runs {B} ws (o : option (ScrollingSpace * B)) :
  ok ws → runs o (λ r, sc_keeps ws.(ws_scrolling) (fst r)) →
  runs (on_scrolling' ws o) (λ r, ws_keeps ws (fst r)).
Proof.
  intros Hok Ho. eapply runs_bind; [exact Ho|]. intros s Hk. by apply runs_ret, set_scrolling_keeps.
Qed.

Lemma on_floating_runs ws o :
  ok ws → runs o (refocused parent_of ws.(ws_floating)) → runs (on_floating ws o) (ws_keeps ws).
Proof.
  intros Hok Ho. eapply runs_bind; [exact Ho|]. intros f Hk. by apply runs_ret, set_floating_keeps.
Qed.

Lemma on_floating'_runs {B} ws (o : option (FloatingSpace * B)) :
  ok ws → runs o (λ r, refocused parent_of ws.(ws_floating) (fst r)) →
  runs (on_floating' ws o) (λ r, ws_keeps ws (fst r)).
Proof.
  intros Hok Ho. eapply runs_bind; [exact Ho|]. intros f Hk. by apply runs_ret, set_floating_keeps.
Qed.

Lemma ws_fst_runs {B} ws (o : option (Workspace * B)) :
  runs o (λ r, ws_keeps ws (fst r)) → runs (fst <$> o) (ws_keeps ws).
Proof. intros Ho. eapply runs_fmap; [exact Ho|done]. Qed.

(** Operations of the scrolling space that keep its windows, from their common theorem. *)
Lemma runs_of_fmap {A B} (o : option A) (f : A → B) P : runs (f <$> o) P → runs o (λ a, P (f a)).
Proof. intros (b & (a & -> & ->)%fmap_Some & H). by exists a. Qed.

Lemma op_keeps s op o :
  scrolling_ok s → op_pre s op → op_added op = [] →
  run_op s op = (λ s', (s', [])) <$> o → runs o (sc_keeps s).
Proof.
  intros Hs Hpre Ha Heq. pose proof (run_op_runs s op Hs Hpre) as Hr. rewrite Heq in Hr.
  apply runs_of_fmap in Hr. eapply runs_weaken; [exact Hr|].
  intros s' [? Hw]. split; [done|]. rewrite Ha in Hw. by rewrite Hw.
Qed.

Lemma op_keeps' s op (o : option (ScrollingSpace * bool)) :
  scrolling_ok s → op_pre s op → op_added op = [] →
  run_op s op = (λ r, (fst r, [])) <$> o → runs o (λ r, sc_keeps s (fst r)).
Proof.
  intros Hs Hpre Ha Heq. pose proof (run_op_runs s op Hs Hpre) as Hr. rewrite Heq in Hr.
  apply runs_of_fmap in Hr. eapply runs_weaken; [exact Hr|].
  intros s' [? Hw]. split; [done|]. rewrite Ha in Hw. by rewrite Hw.
Qed.

Lemma op_pre_plain s op :
  scrolling_ok s → op_added op = [] →
  match op with
  | OpAddTile (Some _) _ _ _ _ | OpAddTileToColumn _ _ _ _ | OpAddTileRightOf _ _ _ _ _
  | OpAddColumn _ _ _ | OpRemoveTile _ | OpSetFullscreen _ _ | OpSetMaximized _ _ | OpResizeBegin _
  | OpConsumeOrExpelLeft (Some _) | OpConsumeOrExpelRight (Some _) => False
  | _ => True
  end → op_pre s op.
Proof.
  intros Hs Ha Hop. split; [rewrite Ha; apply Hs|]. by destruct op as [[]| | | | | | | | | | | | | | | | | | | | | | | | | | | | |[]|[]| | | | | | | | |].
Qed.
(** ** Adding *)
Definition added_tile (w : N) (ws ws' : Workspace) : Prop :=
  ok ws' ∧ ws_windows ws' ≡ₚ w :: ws_windows ws ∧ ws_meta ws' = ws_meta ws.

Lemma scrolling_added ws s w a :
  ok ws → scrolling_ok s → windows s ≡ₚ w :: windows ws.(ws_scrolling) → w ∉ ws_windows ws →
  added_tile w ws (activate_if a FloatingNo (set_ws_scrolling s ws)).
Proof.
  intros [Hs Hf Hd He1 He2] Hs' Hw Hn.
  assert (ws_windows (set_ws_scrolling s ws) ≡ₚ w :: ws_windows ws) as Hp.
  { unfold ws_windows. simpl. by rewrite Hw. }
  assert (NoDup (ws_windows (set_ws_scrolling s ws))) as Hd' by (rewrite Hp; by constructor).
  assert (sc_columns s ≠ []) as Hne.
  { intros H%windows_nil; [|done]. rewrite H in Hw. by apply Permutation_nil_l in Hw. }
  assert (ok (set_ws_scrolling s ws)) as Hok' by (split; try done).
  destruct a; [|done]. split; [|done]. apply set_active_ok; try done. simpl. auto.
Qed.

Lemma floating_added ws f w t a :
  ok ws → floating_ok parent_of f → fl_tiles f ≡ₚ t :: ws.(ws_floating).(fl_tiles) →
  tl_window t = w → w ∉ ws_windows ws → (a = false → sc_columns ws.(ws_scrolling) ≠ []) →
  added_tile w ws (activate_if a FloatingYes (set_ws_floating f ws)).
Proof.
  intros [Hs Hf Hd He1 He2] Hf' Ht <- Hn Ha.
  assert (ws_windows (set_ws_floating f ws) ≡ₚ tl_window t :: ws_windows ws) as Hp.
  { unfold ws_windows, fl_windows. simpl. rewrite Ht. csimpl. by rewrite Permutation_middle. }
  assert (NoDup (ws_windows (set_ws_floating f ws))) as Hd' by (rewrite Hp; by constructor).
  assert (fl_tiles f ≠ []) as Hne by (intros H; rewrite H in Ht; by apply Permutation_nil_l in Ht).
  destruct a.
  - split; [|done]. by apply set_active_ok.
  - specialize (Ha eq_refl). split; [|done]. by split.
Qed.

Lemma sc_add_runs ws idx t a w full :
  ok ws → tl_window t ∉ ws_windows ws →
  (∀ i, idx = Some i → i ≤ length (sc_columns ws.(ws_scrolling))) →
  runs (ws' ← on_scrolling ws (sc_add_tile ws.(ws_scrolling) idx t a w full);
        Some (activate_if a FloatingNo ws')) (added_tile (tl_window t) ws).
Proof.
  intros Hok Hn Hi.
  destruct (sc_add_tile_runs ws.(ws_scrolling) idx t a w full) as (s & -> & Hs & _ & Hw & _);
    [apply Hok|set_solver|done|].
  cbn [on_scrolling mbind option_bind]. apply runs_ret. by apply scrolling_added.
Qed.

Lemma fl_add_runs ws o t w a :
  ok ws → tl_window t ∉ ws_windows ws → tl_window t = w →
  runs o (λ f', floating_ok parent_of f' ∧
    fl_tiles f' ≡ₚ floating_tile ws.(ws_floating) t :: fl_tiles ws.(ws_floating)) →
  runs (ws' ← on_floating ws o;
        Some (activate_if (a || sc_is_empty (ws_scrolling ws')) FloatingYes ws'))
    (added_tile w ws).
Proof.
  intros Hok Hn <- (f & -> & Hf & Ht). cbn [on_floating mbind option_bind]. apply runs_ret.
  eapply floating_added; [done|done|exact Ht|done|done|].
  intros [_ He]%orb_false_iff. intros H%sc_is_empty_true. cbn in He. congruence.
Qed.

(** What the caller of [add_tile] provides. *)
Definition target_ok (ws : Workspace) (target : WorkspaceAddWindowTarget) : Prop :=
  match target with
  | WsAuto => True
  | WsNewColumnAt i => i ≤ length (sc_columns ws.(ws_scrolling))
  | WsNextTo w => w ∈ ws_windows ws
  end.

Lemma active_pending_fullscreen_runs s :
  scrolling_ok s → runs (is_active_pending_fullscreen s) (λ _, True).
Proof.
  intros Hs. unfold is_active_pending_fullscreen. destruct (sc_is_empty s) eqn:E; [by apply runs_ret|].
  destruct (active_source s Hs E) as (c & _ & -> & _). by apply runs_ret.
Qed.

Lemma sc_active_window s : scrolling_ok s → sc_is_empty s = false →
  ∃ w, active_window s = Some w ∧ w ∈ windows s.
Proof.
  intros Hs E. destruct (active_source s Hs E) as (c & t & Hc & Ht). exists (tl_window t).
  unfold active_window. rewrite Hc, Ht. split; [done|]. apply list_elem_of_join.
  exists (col_windows c). split.
  - apply list_elem_of_fmap. exists t. split; [done|]. by eapply list_elem_of_lookup_2.
  - eapply list_elem_of_lookup_2. by apply arrangement_lookup.
Qed.

(** A workspace with windows has an active one. *)
Lemma ws_active_window_some ws :
  ok ws → ws_windows ws ≠ [] → ∃ w, ws_active_window ws = Some w ∧ w ∈ ws_windows ws.
Proof.
  intros Hok Hne. unfold ws_active_window. destruct (floating_active ws) eqn:Ha.
  - rewrite (fl_active_window_eq _ _ (wo_floating _ _ Hok)).
    destruct (fl_active (ws_floating ws)) as [w|] eqn:Hw.
    + exists w. split; [done|]. apply elem_of_app. right. by apply (fl_active_in _ _ (wo_floating _ _ Hok)).
    + apply (fl_active_none _ _ (wo_floating _ _ Hok)), (wo_floating_empty _ _ Hok) in Hw. congruence.
  - destruct (sc_is_empty (ws_scrolling ws)) eqn:E.
    + apply sc_is_empty_true in E. destruct (fl_tiles (ws_floating ws)) as [|t l] eqn:Hf.
      * destruct Hne. unfold ws_windows. rewrite (proj2 (windows_nil _ (wo_scrolling _ _ Hok)) E).
        by rewrite (proj2 (fl_windows_nil _) Hf).
      * rewrite (wo_scrolling_empty _ _ Hok) in Ha; [done|done|]. by rewrite Hf.
    + destruct (sc_active_window _ (wo_scrolling _ _ Hok) E) as (w & -> & Hw). exists w.
      split; [done|]. apply elem_of_app. by left.
Qed.

Lemma map_smart_runs a o : (∃ b, o = Some b) → ∃ b, map_smart a o = Some b.
Proof. intros [b ->]. destruct a; eauto. Qed.

Lemma ws_add_tile_runs ws t target activate w full floating :
  ok ws → tl_window t ∉ ws_windows ws → target_ok ws target →
  runs (ws_add_tile parent_of ws t target activate w full floating) (added_tile (tl_window t) ws).
Proof.
  intros Hok Hn Ht. unfold ws_add_tile. set (u := set_tl_restore floating t).
  assert (tl_window u = tl_window t) as Hu by done.
  assert (tl_window u ∉ fl_windows ws.(ws_floating)) as Hnf by (unfold ws_windows in Hn; set_solver).
  destruct target as [|i|w'].
  - destruct (map_smart_runs activate (negb <$> is_active_pending_fullscreen ws.(ws_scrolling)))
      as [a ->]; [|cbn [mbind option_bind]].
    { destruct (active_pending_fullscreen_runs _ (wo_scrolling _ _ Hok)) as (b & -> & _). eauto. }
    destruct (_ && _).
    + apply (fl_add_runs ws _ u); [done|done|done|].
      eapply runs_weaken; [apply fl_add_tile_at_runs; [done|apply Hok|lia|done]|].
      intros f' (? & ? & _). by split.
    + by apply (sc_add_runs ws _ u).
  - destruct (map_smart_runs activate (Some false)) as [a ->]; [eauto|cbn [mbind option_bind]].
    apply (sc_add_runs ws _ u); [done..|]. by intros ? [= <-].
  - destruct (map_smart_runs activate ((λ w, N.eqb w w') <$> ws_active_window ws)) as [a ->];
      [|cbn [mbind option_bind]].
    { destruct (ws_active_window_some ws Hok) as (v & -> & _); [|eauto].
      intros E. simpl in Ht. rewrite E in Ht. by apply not_elem_of_nil in Ht. }
    assert (fl_has_window (ws_floating ws) w' = false → w' ∈ windows (ws_scrolling ws)) as Hw'.
    { intros H. apply elem_of_app in Ht as [?|Hf%fl_has_window_spec]; [done|congruence]. }
    destruct (_ && _); [|destruct (fl_has_window (ws_floating ws) w') eqn:Hf].
    + apply (fl_add_runs ws _ u); [done|done|done|]. destruct (fl_has_window (ws_floating ws) w') eqn:Hf.
      * apply fl_has_window_spec in Hf. unfold add_tile_above.
        destruct (idx_of_split _ _ Hf) as (A & x & B & Hl & _ & ->). cbn [mbind option_bind].
        eapply runs_weaken; [apply fl_add_tile_at_runs; [done|apply Hok| |done]|by intros f' (? & ? & _)].
        rewrite Hl, length_app. lia.
      * unfold sc_find_tile. destruct (find_tile (sc_tiles (ws_scrolling ws)) w') as (x & -> & _).
        { rewrite sc_tiles_windows. auto. }
        cbn [mbind option_bind].
        eapply runs_weaken; [apply fl_add_tile_at_runs; [done|apply Hok|lia|done]|].
      intros f' (? & ? & _). by split.
    + by apply (sc_add_runs ws _ u).
    + unfold add_tile_right_of.
      destruct (position_col_runs _ _ (Hw' eq_refl)) as (k & -> & c & _ & _ & Hk & _).
      cbn [mbind option_bind]. apply (sc_add_runs ws _ u); [done|done|].
      intros ? [= <-]. apply lookup_lt_Some in Hk. lia.
Qed.

Lemma ws_add_tile_to_column_runs ws i j t a c :
  ok ws → tl_window t ∉ ws_windows ws → sc_columns ws.(ws_scrolling) !! i = Some c →
  default (length c.(co_tiles)) j ≤ length c.(co_tiles) →
  runs (ws_add_tile_to_column ws i j t a) (added_tile (tl_window t) ws).
Proof.
  intros Hok Hn Hi Hj. unfold ws_add_tile_to_column.
  destruct (add_tile_to_column_runs ws.(ws_scrolling) i j t a c) as (s & -> & Hs & Hw & _);
    [apply Hok|done|done|unfold ws_windows in Hn; set_solver|].
  cbn [on_scrolling mbind option_bind]. apply runs_ret. by apply scrolling_added.
Qed.

(** ** Columns *)
Definition added_windows (l : list N) (ws ws' : Workspace) : Prop :=
  ok ws' ∧ ws_windows ws' ≡ₚ l ++ ws_windows ws ∧ ws_meta ws' = ws_meta ws.

Lemma ws_add_column_runs ws c a :
  ok ws → column_ok c → NoDup (col_windows c ++ ws_windows ws) →
  runs (ws_add_column ws c a) (added_windows (col_windows c) ws).
Proof.
  intros Hok Hc Hn. unfold ws_add_column. pose proof Hn as Hn'. unfold ws_windows in Hn'.
  rewrite app_assoc in Hn'. apply NoDup_app in Hn' as (Hn' & _ & _).
  destruct (add_column_runs ws.(ws_scrolling) None c a) as (s & -> & Hs & Hcols & _ & Hw & _);
    [apply Hok|done|done|done|].
  cbn [on_scrolling mbind option_bind]. apply runs_ret. destruct Hok as [_ Hf Hd He1 He2].
  assert (ws_windows (set_ws_scrolling s ws) ≡ₚ col_windows c ++ ws_windows ws) as Hp.
  { unfold ws_windows. simpl. by rewrite Hw, <-app_assoc. }
  assert (NoDup (ws_windows (set_ws_scrolling s ws))) as Hd' by (by rewrite Hp).
  assert (sc_columns s ≠ []) as Hne.
  { intros H%windows_nil; [|done]. rewrite H in Hw. apply Permutation_nil_l, symmetry, app_nil in Hw as [Hw _].
    destruct Hc as [Ha _ _]. unfold col_windows in Hw. apply fmap_nil_inv in Hw. rewrite Hw in Ha.
    simpl in Ha. lia. }
  assert (ok (set_ws_scrolling s ws)) as Hok' by (split; try done).
  destruct a; [|done]. split; [|done]. apply set_active_ok; try done. simpl. auto.
Qed.

(** ** Removing *)
Definition removed_windows (l : list N) (ws ws' : Workspace) : Prop :=
  ok ws' ∧ ws_windows ws ≡ₚ l ++ ws_windows ws' ∧ ws_meta ws' = ws_meta ws.

Lemma scrolling_removed ws s l :
  ok ws → scrolling_ok s → windows ws.(ws_scrolling) ≡ₚ l ++ windows s →
  removed_windows l ws
    (update_focus_floating_tiling_after_removing false (set_ws_scrolling s ws)).
Proof.
  intros [Hs Hf Hd He1 He2] Hs' Hw.
  assert (ws_windows ws ≡ₚ l ++ ws_windows (set_ws_scrolling s ws)) as Hp.
  { unfold ws_windows. simpl. by rewrite Hw, app_assoc. }
  assert (NoDup (ws_windows (set_ws_scrolling s ws))) as Hd'.
  { rewrite Hp in Hd. by apply NoDup_app in Hd as (_ & _ & ?). }
  unfold update_focus_floating_tiling_after_removing. simpl.
  destruct (sc_is_empty s && negb (fl_is_empty (ws_floating ws))) eqn:E.
  - apply andb_true_iff in E as [E1 E2%negb_true_iff].
    assert (fl_tiles (ws_floating ws) ≠ []) as Hne.
    { intros H%fl_is_empty_spec. congruence. }
    split; [|done]. apply set_active_ok; simpl; done.
  - split; [|done]. split; try done. simpl. intros H1%sc_is_empty_true H2.
    rewrite H1 in E. simpl in E. apply negb_false_iff, fl_is_empty_spec in E. done.
Qed.

Lemma floating_removed ws f t :
  ok ws → floating_ok parent_of f → ws.(ws_floating).(fl_tiles) ≡ₚ t :: fl_tiles f →
  removed_windows [tl_window t] ws
    (update_focus_floating_tiling_after_removing true (set_ws_floating f ws)).
Proof.
  intros [Hs Hf Hd He1 He2] Hf' Ht.
  assert (ws_windows ws ≡ₚ [tl_window t] ++ ws_windows (set_ws_floating f ws)) as Hp.
  { unfold ws_windows, fl_windows. simpl. rewrite Ht. csimpl. by rewrite Permutation_middle. }
  assert (NoDup (ws_windows (set_ws_floating f ws))) as Hd'.
  { rewrite Hp in Hd. by apply NoDup_app in Hd as (_ & _ & ?). }
  assert (fl_tiles (ws_floating ws) ≠ []) as Hne.
  { intros H. rewrite H in Ht. by apply Permutation_nil_l in Ht. }
  unfold update_focus_floating_tiling_after_removing. simpl.
  destruct (fl_is_empty f) eqn:E.
  - apply fl_is_empty_spec in E. split; [|done]. apply set_active_ok; simpl; try done. auto.
  - split; [|done]. split; try done; simpl.
    + intros H%fl_is_empty_spec. congruence.
    + intros H _. by apply He2.
Qed.

Lemma sc_remove_tile_runs s w :
  scrolling_ok s → w ∈ windows s →
  runs (sc_remove_tile s w) (λ r, tl_window (rt_tile (fst r)) = w ∧ scrolling_ok (snd r) ∧
    windows s ≡ₚ w :: windows (snd r) ∧ rt_floating (fst r) = false).
Proof.
  intros Hs Hw. unfold sc_remove_tile.
  destruct (position_col_runs s w Hw) as (i & -> & c & j & t & Hi & Hp & Hj & Ht). cbn [mbind option_bind].
  rewrite Hi. cbn [mbind option_bind]. rewrite Hp. cbn [mbind option_bind].
  eapply runs_weaken; [exact (remove_tile_runs s i j c t Hs Hi Hj)|].
  intros [r s'] (Hrt & ? & Hs' & Hw' & _). simpl in *. subst. done.
Qed.

Lemma ws_remove_tile_runs ws w :
  ok ws → w ∈ ws_windows ws →
  runs (ws_remove_tile g ws w) (λ r, tl_window (rt_tile (fst r)) = w ∧ removed_windows [w] ws (snd r)).
Proof.
  intros Hok Hw. unfold ws_remove_tile. destruct (fl_has_window (ws_floating ws) w) eqn:Hf.
  - apply fl_has_window_spec in Hf.
    destruct (fl_remove_tile_runs parent_of (pl_width g) _ _ (wo_floating _ _ Hok) Hf)
      as ([r f] & -> & Hf' & Hr & Ht & _).
    cbn [mbind option_bind fst snd] in *. apply runs_ret. simpl. split; [done|]. subst w.
    by apply floating_removed.
  - assert (w ∈ windows (ws_scrolling ws)) as Hws.
    { apply elem_of_app in Hw as [?|?%fl_has_window_spec]; [done|congruence]. }
    destruct (sc_remove_tile_runs _ _ (wo_scrolling _ _ Hok) Hws) as ([r s] & -> & Hr & Hs & Hp & _).
    cbn [mbind option_bind fst snd] in *. apply runs_ret. simpl. split; [done|]. by apply scrolling_removed.
Qed.

Lemma sc_remove_active_tile_runs s :
  scrolling_ok s →
  runs (sc_remove_active_tile s) (λ r, scrolling_ok (snd r) ∧
    match fst r with
    | Some t => windows s ≡ₚ tl_window (rt_tile t) :: windows (snd r)
    | None => snd r = s ∧ sc_columns s = []
    end).
Proof.
  intros Hs. unfold sc_remove_active_tile. destruct (sc_is_empty s) eqn:E.
  { apply runs_ret. split; [done|]. split; [done|]. by apply sc_is_empty_true. }
  destruct (active_source s Hs E) as (c & t & Hc & Ht). rewrite Hc. cbn [mbind option_bind].
  destruct (remove_tile_runs s _ _ c t Hs Hc Ht) as ([r s'] & -> & Hrt & _ & Hs' & Hw & _).
  apply runs_ret. simpl in *. by subst.
Qed.

Lemma ws_remove_active_tile_runs ws :
  ok ws →
  runs (ws_remove_active_tile g ws) (λ r,
    match fst r with
    | Some t => removed_windows [tl_window (rt_tile t)] ws (snd r)
    | None => snd r = ws ∧ ws_windows ws = []
    end).
Proof.
  intros Hok. unfold ws_remove_active_tile. destruct (floating_active ws) eqn:Ha.
  - destruct (fl_remove_active_runs parent_of (pl_width g) _ (wo_floating _ _ Hok))
      as ([[r|] f] & -> & Hf & Hr); cbn [mbind option_bind fst snd] in *; apply runs_ret; simpl.
    + destruct Hr as (_ & Ht & _). by apply floating_removed.
    + destruct Hr as [-> Hn]. apply (wo_floating_empty _ _ Hok) in Hn. congruence.
  - destruct (sc_remove_active_tile_runs _ (wo_scrolling _ _ Hok)) as ([[r|] s] & -> & Hs & Hr);
      cbn [mbind option_bind fst snd] in *; apply runs_ret; simpl.
    + by apply scrolling_removed.
    + destruct Hr as [-> Hn]. split; [by destruct ws|].
      destruct (fl_tiles (ws_floating ws)) eqn:E.
      * unfold ws_windows. rewrite (proj2 (windows_nil _ Hs) Hn). by apply fl_windows_nil.
      * rewrite (wo_scrolling_empty _ _ Hok Hn) in Ha; [done|]. by rewrite E.
Qed.

Lemma ws_remove_active_column_runs ws :
  ok ws →
  runs (ws_remove_active_column ws) (λ r,
    match fst r with
    | Some c => column_ok c ∧ removed_windows (col_windows c) ws (snd r)
    | None => snd r = ws
    end).
Proof.
  intros Hok. unfold ws_remove_active_column. destruct (floating_active ws); [by apply runs_ret|].
  pose proof (wo_scrolling _ _ Hok) as Hs.
  unfold sc_remove_active_column. destruct (sc_is_empty (ws_scrolling ws)) eqn:E.
  { apply runs_ret. by destruct ws. }
  destruct (active_source _ Hs E) as (c & t & Hc & _).
  destruct (remove_column_runs _ _ c Hs Hc) as ([c' s'] & -> & Hfst & Hs' & Hcols & _). simpl in *.
  subst c'. apply runs_ret. simpl. split; [exact (column_lookup_ok _ _ _ Hs Hc)|].
  apply scrolling_removed; [done|done|]. unfold windows, arrangement. rewrite Hcols.
  rewrite arrangement_remove_at. apply mjoin_remove_at. by apply arrangement_lookup.
Qed.

End workspace_ops.
