(* ===== verification/LayoutWorkspaceProps.v ===== *)
(** * Theorems on workspaces

    No operation of a workspace panics, all keep its invariant and its windows; floating windows
    that go fullscreen come back to floating. *)
From S2P Require Import Prelude Float64 LayoutScrolling LayoutScrollingOps LayoutSwap LayoutScrollingProps LayoutFloating LayoutFloatingProps LayoutOutput LayoutWorkspace LayoutWorkspaceOps.

(** ** All operations *)
Inductive WsOp :=
| WopAddTile (t : Tile) (target : WorkspaceAddWindowTarget) (activate : ActivateWindow)
    (width : ColumnWidth) (is_full_width is_floating : bool)
| WopAddTileToColumn (col_idx : nat) (tile_idx : option nat) (t : Tile) (activate : bool)
| WopAddColumn (c : Column) (activate : bool)
| WopRemoveTile (window : N) | WopRemoveActiveTile | WopRemoveActiveColumn
| WopToggleFloating (id : option N) | WopSetFloating (id : option N) (floating : bool)
| WopFocusFloating | WopFocusTiling | WopSwitchFocus
| WopSetFullscreen (window : N) (b : bool) | WopToggleFullscreen (window : N)
| WopSetMaximized (window : N) (b : bool) | WopToggleMaximized (window : N)
| WopActivateWindow (window : N) | WopActivateWithoutRaising (window : N)
| WopFocusLeft | WopFocusRight | WopFocusColumnFirst | WopFocusColumnLast
| WopFocusColumnRightOrFirst | WopFocusColumnLeftOrLast | WopFocusColumn (index : nat)
| WopFocusWindowInColumn (index : nat) | WopFocusDown | WopFocusUp | WopFocusDownOrLeft
| WopFocusDownOrRight | WopFocusUpOrLeft | WopFocusUpOrRight | WopFocusWindowTop
| WopFocusWindowBottom | WopFocusWindowDownOrTop | WopFocusWindowUpOrBottom
| WopMoveLeft | WopMoveRight | WopMoveDown | WopMoveUp | WopMoveColumnToFirst
| WopMoveColumnToLast | WopMoveColumnToIndex (index : nat)
| WopConsumeOrExpelLeft (window : option N) | WopConsumeOrExpelRight (window : option N)
| WopConsumeIntoColumn | WopExpelFromColumn | WopSwap (direction : ScrollDirection)
| WopToggleTabbed | WopSetColumnDisplay (d : ColumnDisplay)
| WopResizeBegin (window : N) | WopResizeEnd (window : option N).

(** The workspace after an operation and the windows it removed. *)
Definition run_ws_op (parent_of : N → option N) (g : Placement) (ws : Workspace) (op : WsOp) :
    option (Workspace * list N) :=
  let keep (o : option Workspace) := (λ ws, (ws, [])) <$> o in
  let keep_b (o : option (Workspace * bool)) := (λ r, (fst r, [])) <$> o in
  match op with
  | WopAddTile t tg a w full fl => keep (ws_add_tile parent_of ws t tg a w full fl)
  | WopAddTileToColumn i j t a => keep (ws_add_tile_to_column ws i j t a)
  | WopAddColumn c a => keep (ws_add_column ws c a)
  | WopRemoveTile w => (λ r, (snd r, [tl_window (rt_tile (fst r))])) <$> ws_remove_tile g ws w
  | WopRemoveActiveTile =>
      (λ r, (snd r, match fst r with Some t => [tl_window (rt_tile t)] | None => [] end)) <$>
        ws_remove_active_tile g ws
  | WopRemoveActiveColumn =>
      (λ r, (snd r, match fst r with Some c => col_windows c | None => [] end)) <$>
        ws_remove_active_column ws
  | WopToggleFloating id => keep (toggle_window_floating parent_of g ws id)
  | WopSetFloating id b => keep (set_window_floating parent_of g ws id b)
  | WopFocusFloating => keep (Some (focus_floating ws))
  | WopFocusTiling => keep (Some (focus_tiling ws))
  | WopSwitchFocus => keep (Some (switch_focus_floating_tiling ws))
  | WopSetFullscreen w b => keep (ws_set_fullscreen parent_of g ws w b)
  | WopToggleFullscreen w => keep (toggle_fullscreen parent_of g ws w)
  | WopSetMaximized w b => keep (ws_set_maximized parent_of g ws w b)
  | WopToggleMaximized w => keep (toggle_maximized parent_of g ws w)
  | WopActivateWindow w => keep_b (ws_activate_window parent_of ws w)
  | WopActivateWithoutRaising w => keep_b (ws_activate_window_without_raising ws w)
  | WopFocusLeft => keep_b (ws_focus_left parent_of g ws)
  | WopFocusRight => keep_b (ws_focus_right parent_of g ws)
  | WopFocusColumnFirst => keep (ws_focus_column_first parent_of g ws)
  | WopFocusColumnLast => keep (ws_focus_column_last parent_of g ws)
  | WopFocusColumnRightOrFirst => keep (focus_column_right_or_first parent_of g ws)
  | WopFocusColumnLeftOrLast => keep (focus_column_left_or_last parent_of g ws)
  | WopFocusColumn i => keep (ws_focus_column ws i)
  | WopFocusWindowInColumn i => keep (ws_focus_window_in_column ws i)
  | WopFocusDown => keep_b (ws_focus_down parent_of g ws)
  | WopFocusUp => keep_b (ws_focus_up parent_of g ws)
  | WopFocusDownOrLeft => keep (ws_focus_down_or_left parent_of g ws)
  | WopFocusDownOrRight => keep (ws_focus_down_or_right parent_of g ws)
  | WopFocusUpOrLeft => keep (ws_focus_up_or_left parent_of g ws)
  | WopFocusUpOrRight => keep (ws_focus_up_or_right parent_of g ws)
  | WopFocusWindowTop => keep (focus_window_top parent_of g ws)
  | WopFocusWindowBottom => keep (focus_window_bottom parent_of g ws)
  | WopFocusWindowDownOrTop => keep (focus_window_down_or_top parent_of g ws)
  | WopFocusWindowUpOrBottom => keep (focus_window_up_or_bottom parent_of g ws)
  | WopMoveLeft => keep_b (ws_move_left ws)
  | WopMoveRight => keep_b (ws_move_right ws)
  | WopMoveDown => keep_b (ws_move_down ws)
  | WopMoveUp => keep_b (ws_move_up ws)
  | WopMoveColumnToFirst => keep (ws_move_column_to_first ws)
  | WopMoveColumnToLast => keep (ws_move_column_to_last ws)
  | WopMoveColumnToIndex i => keep (ws_move_column_to_index ws i)
  | WopConsumeOrExpelLeft w => keep (ws_consume_or_expel_window_left ws w)
  | WopConsumeOrExpelRight w => keep (ws_consume_or_expel_window_right ws w)
  | WopConsumeIntoColumn => keep (ws_consume_into_column ws)
  | WopExpelFromColumn => keep (ws_expel_from_column ws)
  | WopSwap d => keep (ws_swap_window_in_direction ws d)
  | WopToggleTabbed => keep (ws_toggle_column_tabbed_display ws)
  | WopSetColumnDisplay d => keep (ws_set_column_display ws d)
  | WopResizeBegin w => keep_b (ws_interactive_resize_begin ws w)
  | WopResizeEnd w => keep (ws_interactive_resize_end ws w)
  end.

Definition ws_added (op : WsOp) : list N :=
  match op with
  | WopAddTile t _ _ _ _ _ | WopAddTileToColumn _ _ t _ => [tl_window t]
  | WopAddColumn c _ => col_windows c
  | _ => []
  end.

(** What the callers provide: new windows are new, named windows are there, indices are in
    range. *)
Definition ws_op_pre (ws : Workspace) (op : WsOp) : Prop :=
  NoDup (ws_added op ++ ws_windows ws) ∧
  match op with
  | WopAddTile _ target _ _ _ _ => target_ok ws target
  | WopAddTileToColumn i j _ _ =>
      ∃ c, sc_columns ws.(ws_scrolling) !! i = Some c ∧
        default (length c.(co_tiles)) j ≤ length c.(co_tiles)
  | WopAddColumn c _ => column_ok c
  | WopRemoveTile w | WopSetFullscreen w _ | WopToggleFullscreen w | WopSetMaximized w _
  | WopToggleMaximized w | WopResizeBegin w => w ∈ ws_windows ws
  | WopToggleFloating (Some w) | WopSetFloating (Some w) _ | WopConsumeOrExpelLeft (Some w)
  | WopConsumeOrExpelRight (Some w) => w ∈ ws_windows ws
  | _ => True
  end.

Section workspace_theory.
  Context (parent_of : N → option N) (Hcycle : no_cycle parent_of) (g : Placement).
  Local Abbreviation ok := (workspace_ok parent_of).
  Local Abbreviation keeps_ws := (ws_keeps parent_of).

(** ** Floating and tiling *)
Lemma ws_find_tile ws w : w ∈ ws_windows ws → ∃ t, List.find (tile_is w) (ws_tiles ws) = Some t.
Proof.
  intros Hw. destruct (find_tile (ws_tiles ws) w) as (t & Ht & _); [|eauto].
  by rewrite ws_tiles_windows.
Qed.

(** The window an operation on [id] acts on, and whether it is the active one. *)
Definition toggle_target (ws : Workspace) (id : option N) : option N :=
  match id with Some id => Some id | None => ws_active_window ws end.

Lemma only_window_active_floating ws w :
  ok ws → fl_windows ws.(ws_floating) ≡ₚ [w] → floating_active ws = true →
  ws_active_window ws = Some w.
Proof.
  intros Hok Hp Ha. unfold ws_active_window. rewrite Ha.
  pose proof (wo_floating _ _ Hok) as Hf. rewrite (fl_active_window_eq _ _ Hf).
  destruct (fl_active (ws_floating ws)) as [v|] eqn:Hv.
  - pose proof (fl_active_in _ _ Hf v Hv) as Hin. rewrite Hp in Hin.
    apply list_elem_of_singleton in Hin. by subst.
  - apply (fl_active_none _ _ Hf), fl_windows_nil in Hv. rewrite Hv in Hp. by apply Permutation_nil_l in Hp.
Qed.

Lemma only_window_active_scrolling ws w :
  ok ws → windows ws.(ws_scrolling) ≡ₚ [w] → floating_active ws = false →
  ws_active_window ws = Some w.
Proof.
  intros Hok Hp Ha. unfold ws_active_window. rewrite Ha. pose proof (wo_scrolling _ _ Hok) as Hs.
  destruct (sc_is_empty (ws_scrolling ws)) eqn:E.
  { apply sc_is_empty_true, (windows_nil _ Hs) in E. rewrite E in Hp. by apply Permutation_nil_l in Hp. }
  destruct (sc_active_window _ Hs E) as (v & -> & Hv). rewrite Hp in Hv.
  apply list_elem_of_singleton in Hv. by subst.
Qed.

(** A column of one normal window. *)
Definition single_normal (s : ScrollingSpace) (w : N) : Prop :=
  ∃ i c t, s.(sc_columns) !! i = Some c ∧ c.(co_tiles) = [t] ∧ tl_window t = w ∧
    c.(co_fullscreen) = false ∧ c.(co_maximized) = false.

Lemma new_with_normal_tile t w full :
  tl_pending t = SizeNormal →
  ∃ c u, new_with_tile t w full = Some c ∧ c.(co_tiles) = [u] ∧ tl_window u = tl_window t ∧
    c.(co_fullscreen) = false ∧ c.(co_maximized) = false.
Proof.
  intros Hp. unfold new_with_tile. rewrite Hp. unfold add_tile_at. simpl.
  destruct (decide _); cbn [mbind option_bind]; eexists _, _; split; done.
Qed.

Lemma sc_add_normal_tile_runs s t a w full :
  scrolling_ok s → tl_window t ∉ windows s → tl_pending t = SizeNormal →
  runs (sc_add_tile s None t a w full) (λ s',
    scrolling_ok s' ∧ windows s' ≡ₚ tl_window t :: windows s ∧ single_normal s' (tl_window t)).
Proof.
  intros Hs Hn Hp. destruct (sc_add_tile_runs s None t a w full Hs Hn) as (s' & Hr & Hs' & _ & Hw & _);
    [done|]. exists s'. split; [done|]. split; [done|]. split; [done|].
  unfold sc_add_tile in Hr. destruct (new_with_normal_tile t w full Hp) as (c & u & Hc & Hu & Hwu & Hfl).
  rewrite Hc in Hr. cbn [mbind option_bind] in Hr.
  destruct (new_with_tile_runs t w full) as (c' & Hc' & Hok & Hcw & _).
  rewrite Hc in Hc'. injection Hc' as <-.
  destruct (add_column_runs s None c a Hs Hok) as (s2 & Hr2 & _ & Hcols & _); [|done|].
  { rewrite Hcw. constructor; [done|apply Hs]. }
  rewrite Hr in Hr2. injection Hr2 as <-. set (i := column_place s None) in *.
  assert (i ≤ length (sc_columns s)) as Hi by (by apply column_place_le).
  destruct (with_column_fields s i c) as (Hwc & _). rewrite Hwc in Hcols.
  exists i, (col_update_config (sc_options s) c), (set_tl_options (sc_options s) u).
  rewrite Hcols. split; [by apply vec_insert_lookup_eq|]. unfold col_update_config. simpl. rewrite Hu.
  done.
Qed.

(** A floating window joins the scrolling space. *)
Lemma unfloat_ok ws r f s w (b : bool) :
  ok ws → floating_ok parent_of f → ws.(ws_floating).(fl_tiles) ≡ₚ rt_tile r :: fl_tiles f →
  tl_window (rt_tile r) = w → scrolling_ok s → windows s ≡ₚ w :: windows ws.(ws_scrolling) →
  (b = false → ws_active_window ws ≠ Some w) →
  keeps_ws ws (activate_if b FloatingNo (set_ws_scrolling s (set_ws_floating f ws))).
Proof.
  intros Hok Hf Ht <- Hs Hw Hb. set (w := tl_window (rt_tile r)) in *.
  assert (ws_windows (set_ws_scrolling s (set_ws_floating f ws)) ≡ₚ ws_windows ws) as Hp.
  { unfold ws_windows, fl_windows. simpl. rewrite Hw, Ht. csimpl. apply Permutation_middle. }
  assert (NoDup (ws_windows (set_ws_scrolling s (set_ws_floating f ws)))) as Hd.
  { rewrite Hp. apply Hok. }
  assert (sc_columns s ≠ []) as Hne.
  { intros H%windows_nil; [|done]. rewrite H in Hw. by apply Permutation_nil_l in Hw. }
  destruct b.
  - split; [|done]. apply set_active_ok; try done. simpl. auto.
  - split; [|done]. split; try done. simpl. intros E.
    destruct (floating_active ws) eqn:Ha; [|done]. destruct Hb; [done|].
    apply only_window_active_floating; [done| |done]. unfold fl_windows. by rewrite Ht, E.
Qed.

(** A tiled window joins the floating space. *)
Lemma float_ok' ws t f s w (b : bool) :
  ok ws → scrolling_ok s → windows ws.(ws_scrolling) ≡ₚ w :: windows s →
  floating_ok parent_of f → fl_tiles f ≡ₚ t :: ws.(ws_floating).(fl_tiles) → tl_window t = w →
  (b = false → ws_active_window ws ≠ Some w) →
  keeps_ws ws (activate_if b FloatingYes (set_ws_floating f (set_ws_scrolling s ws))).
Proof.
  intros Hok Hs Hw Hf Ht <- Hb. set (w := tl_window t) in *.
  assert (ws_windows (set_ws_floating f (set_ws_scrolling s ws)) ≡ₚ ws_windows ws) as Hp.
  { unfold ws_windows, fl_windows. simpl. rewrite Hw, Ht. csimpl. by rewrite Permutation_middle. }
  assert (NoDup (ws_windows (set_ws_floating f (set_ws_scrolling s ws)))) as Hd.
  { rewrite Hp. apply Hok. }
  assert (fl_tiles f ≠ []) as Hne by (intros H; rewrite H in Ht; by apply Permutation_nil_l in Ht).
  destruct b.
  - split; [|done]. by apply set_active_ok.
  - split; [|done]. split; try done. simpl. intros E%windows_nil _; [|done].
    destruct (floating_active ws) eqn:Ha; [done|]. destruct Hb; [done|].
    apply only_window_active_scrolling; [done| |done]. by rewrite Hw, E.
Qed.

Lemma toggle_window_floating_runs ws id :
  ok ws → (∀ w, id = Some w → w ∈ ws_windows ws) →
  runs (toggle_window_floating parent_of g ws id) (λ ws', keeps_ws ws ws' ∧
    ∀ w, toggle_target ws id = Some w →
      fl_has_window ws'.(ws_floating) w = negb (fl_has_window ws.(ws_floating) w) ∧
      (fl_has_window ws.(ws_floating) w = true → single_normal ws'.(ws_scrolling) w)).
Proof.
  intros Hok Hid. unfold toggle_window_floating. fold (toggle_target ws id).
  set (b := match id with None => true | Some id => bool_decide (Some id = ws_active_window ws) end).
  destruct (toggle_target ws id) as [w|] eqn:Htg; [|apply runs_ret; split; [by apply ws_keeps_refl|done]].
  assert (w ∈ ws_windows ws) as Hw.
  { destruct id as [i|]; simpl in Htg; [injection Htg as <-; auto|].
    destruct (ws_active_window_some parent_of ws Hok) as (v & Hv & Hin); [|congruence].
    intros E. unfold ws_windows in E. apply app_nil in E as [E1 E2].
    unfold ws_active_window in Htg. apply fl_windows_nil in E2. apply windows_nil in E1; [|apply Hok].
    rewrite (wo_floating_empty _ _ Hok E2) in Htg. unfold active_window in Htg. by rewrite E1 in Htg. }
  assert (b = false → ws_active_window ws ≠ Some w) as Hb.
  { subst b. destruct id as [i|]; [|done]. simpl in Htg. injection Htg as ->.
    intros H%bool_decide_eq_false. congruence. }
  destruct (ws_find_tile ws w Hw) as [t0 ->]. cbn [mbind option_bind].
  assert (∀ o (P : Workspace → N → Prop), runs o (λ ws', keeps_ws ws ws' ∧ P ws' w) →
    runs (ws0 ← o; _ ← List.find (tile_is w) (ws_tiles ws0); Some ws0) (λ ws', keeps_ws ws ws' ∧
      ∀ w', Some w = Some w' → P ws' w')) as Hfin.
  { intros o P (ws' & -> & Hk & Hfl). cbn [mbind option_bind].
    destruct (ws_find_tile ws' w) as [t1 ->]; [destruct Hk as (_ & -> & _); done|].
    apply runs_ret. split; [done|]. by intros ? [= <-]. }
  apply (Hfin _ (λ ws' w,
      fl_has_window ws'.(ws_floating) w = negb (fl_has_window ws.(ws_floating) w) ∧
      (fl_has_window ws.(ws_floating) w = true → single_normal ws'.(ws_scrolling) w))).
  destruct (fl_has_window (ws_floating ws) w) eqn:Hfl.
  - apply fl_has_window_spec in Hfl.
    destruct (fl_remove_tile_runs parent_of (pl_width g) _ _ (wo_floating _ _ Hok) Hfl)
      as ([r f] & -> & Hf & Hr & Ht & Hpe & _). cbn [mbind option_bind fst snd] in *.
    assert (w ∉ windows (ws_scrolling ws)) as Hn.
    { intros Hin. pose proof (wo_distinct _ _ Hok) as Hd. unfold ws_windows in Hd.
      apply NoDup_app in Hd as (_ & Hd & _). by apply (Hd w). }
    destruct (sc_add_normal_tile_runs (ws_scrolling (set_ws_floating f ws)) (rt_tile r) b (rt_width r)
                (rt_full_width r)) as (s & -> & Hs & Hw' & Hsn);
      [apply Hok|by rewrite Hr|done|].
    cbn [on_scrolling mbind option_bind]. apply runs_ret. rewrite Hr in Hw', Hsn. split_and!.
    + by eapply unfloat_ok.
    + replace (ws_floating _) with f by (by destruct b). apply not_true_is_false.
      intros Hin%fl_has_window_spec. pose proof (fl_distinct _ _ (wo_floating _ _ Hok)) as Hd.
      unfold fl_windows in Hd. rewrite Ht in Hd. csimpl in Hd. apply NoDup_cons in Hd as [Hd _].
      rewrite Hr in Hd. done.
    + intros _. by replace (ws_scrolling _) with s by (by destruct b).
  - assert (w ∈ windows (ws_scrolling ws)) as Hws.
    { apply elem_of_app in Hw as [?|?%fl_has_window_spec]; [done|congruence]. }
    destruct (sc_remove_tile_runs _ _ (wo_scrolling _ _ Hok) Hws) as ([r s] & -> & Hr & Hs & Hp & _).
    cbn [mbind option_bind fst snd] in *.
    destruct (fl_add_tile_at_runs parent_of Hcycle (ws_floating ws) 0 (rt_tile r) b)
      as (f & Hrun & Hf & Ht & _); [apply Hok|lia| |].
    { rewrite Hr. intros ?%fl_has_window_spec. congruence. }
    unfold fl_add_tile. simpl ws_floating. rewrite Hrun. cbn [on_floating mbind option_bind].
    apply runs_ret. split_and!; [| |done].
    + by eapply float_ok'.
    + replace (ws_floating _) with f by (by destruct b). simpl. apply fl_has_window_spec.
      unfold fl_windows. rewrite Ht. csimpl. apply elem_of_cons. by left.
Qed.

(** ** Fullscreen and maximize *)
Lemma sc_update_tile_runs s w f :
  scrolling_ok s → w ∈ windows s →
  (∀ t, tl_window (f t) = tl_window t ∧ tl_pending (f t) = tl_pending t) →
  runs (sc_update_tile s w f) (λ s', sc_keeps s s' ∧ ∃ i j c t,
    s.(sc_columns) !! i = Some c ∧ c.(co_tiles) !! j = Some t ∧ tl_window t = w ∧
    s' = set_column i (set_co_tiles (<[j:=f t]> c.(co_tiles)) c) s).
Proof.
  intros Hs Hw Hf. unfold sc_update_tile.
  destruct (position_col_runs s w Hw) as (i & -> & c & j & t & Hi & Hp & Hj & Ht).
  cbn [mbind option_bind]. rewrite Hi. cbn [mbind option_bind]. rewrite Hp. cbn [mbind option_bind].
  rewrite Hj. cbn [mbind option_bind]. apply runs_ret. destruct (Hf t) as [Hfw Hfp].
  split; [|by exists i, j, c, t]. apply keeps_sc_keeps. apply (set_column_keeps s i c); [done|done|].
  pose proof (column_lookup_ok s i c Hs Hi) as [Ha Hsz Hpe]. split; [split; simpl|].
  - by rewrite length_insert.
  - by rewrite length_insert.
  - apply Forall_insert; [done|]. rewrite Hfp. by apply (Forall_lookup_1 _ _ _ _ Hpe Hj).
  - unfold col_windows. simpl. rewrite list_fmap_insert, Hfw, list_insert_id; [done|].
    by rewrite list_lookup_fmap, Hj.
Qed.

Lemma sc_find_tile_some s w : w ∈ windows s → ∃ t, sc_find_tile s w = Some t.
Proof.
  intros Hw. unfold sc_find_tile. destruct (find_tile (sc_tiles s) w) as (t & -> & _); [|eauto].
  by rewrite sc_tiles_windows.
Qed.

Lemma resize_in_scrolling_runs ws w restore apply :
  ok ws → w ∈ windows ws.(ws_scrolling) →
  (∀ s, scrolling_ok s → w ∈ windows s → runs (apply s) (λ r, keeps s (fst r))) →
  runs (resize_in_scrolling ws w restore apply) (keeps_ws ws).
Proof.
  intros Hok Hw Hap. unfold resize_in_scrolling.
  destruct (sc_find_tile_some _ _ Hw) as [t ->]. cbn [mbind option_bind].
  destruct (Hap _ (wo_scrolling _ _ Hok) Hw) as ([s b] & -> & Hk). cbn [mbind option_bind fst] in *.
  apply keeps_sc_keeps in Hk. assert (w ∈ windows s) as Hw' by (by rewrite (proj2 Hk)).
  destruct (sc_find_tile_some _ _ Hw') as [t' ->]. cbn [mbind option_bind].
  destruct (_ && _).
  - destruct (sc_update_tile_runs s w (set_tl_restore restore)) as (s' & -> & Hk' & _);
      [apply Hk|done|done|]. cbn [mbind option_bind]. apply runs_ret. apply set_scrolling_keeps; [done|].
    split; [apply Hk'|]. by rewrite (proj2 Hk'), (proj2 Hk).
  - apply runs_ret. by apply set_scrolling_keeps.
Qed.

Lemma find_column ws w :
  w ∈ windows ws.(ws_scrolling) →
  ∃ c t, List.find (λ c, col_contains c w) (sc_columns ws.(ws_scrolling)) = Some c ∧
    List.find (tile_is w) c.(co_tiles) = Some t.
Proof.
  intros Hw. apply list_elem_of_join in Hw as (l & Hwl & Hl).
  apply list_elem_of_fmap in Hl as (c & -> & Hc).
  destruct (List.find (λ c, col_contains c w) (sc_columns ws.(ws_scrolling))) as [d|] eqn:Hd.
  - apply List.find_some in Hd as [_ Hd%col_contains_spec].
    destruct (find_tile (co_tiles d) w Hd) as (t & Ht & _). by exists d, t.
  - apply list_elem_of_In, (List.find_none _ _ Hd) in Hc.
    apply col_contains_spec in Hwl. congruence.
Qed.

Lemma in_scrolling ws w :
  w ∈ ws_windows ws → fl_has_window ws.(ws_floating) w = false → w ∈ windows ws.(ws_scrolling).
Proof. intros Hw Hf. apply elem_of_app in Hw as [?|?%fl_has_window_spec]; [done|congruence]. Qed.

(** The common part of [set_fullscreen] and [set_maximized]. *)
Lemma resize_window_runs ws w apply :
  ok ws → w ∈ ws_windows ws → fl_has_window ws.(ws_floating) w = true →
  (∀ s, scrolling_ok s → w ∈ windows s → runs (apply s) (λ r, keeps s (fst r))) →
  runs (ws ← toggle_window_floating parent_of g ws (Some w); resize_in_scrolling ws w true apply)
    (keeps_ws ws).
Proof.
  intros Hok Hw Hf Hap.
  destruct (toggle_window_floating_runs ws (Some w) Hok) as (ws' & -> & Hk & Hfl).
  { by intros ? [= <-]. }
  cbn [mbind option_bind]. destruct (Hfl w eq_refl) as [Hfl' _]. rewrite Hf in Hfl'. simpl in Hfl'.
  eapply runs_weaken; [apply resize_in_scrolling_runs; [apply Hk| |done]|].
  - apply in_scrolling; [|done]. by rewrite (proj1 (proj2 Hk)).
  - intros ws'' Hk'. by eapply ws_keeps_trans.
Qed.

Lemma toggle_some_runs ws w :
  ok ws → w ∈ ws_windows ws → runs (toggle_window_floating parent_of g ws (Some w)) (keeps_ws ws).
Proof.
  intros Hok Hw. eapply runs_weaken; [apply toggle_window_floating_runs; [done|]|by intros ? []].
  by intros ? [= <-].
Qed.

Lemma ws_set_fullscreen_runs ws w b :
  ok ws → w ∈ ws_windows ws → runs (ws_set_fullscreen parent_of g ws w b) (keeps_ws ws).
Proof.
  intros Hok Hw. unfold ws_set_fullscreen.
  destruct (fl_has_window (ws_floating ws) w) eqn:Hf.
  { destruct b; [|by apply runs_ret, ws_keeps_refl]. apply resize_window_runs; [done..|].
    intros s Hs Hin. by apply sc_set_fullscreen_runs. }
  pose proof (in_scrolling ws w Hw Hf) as Hws.
  assert (∀ restore : bool, runs (if restore then toggle_window_floating parent_of g ws (Some w)
    else resize_in_scrolling ws w false (λ s, sc_set_fullscreen s w b)) (keeps_ws ws)) as Hr.
  { intros [|]; [by apply toggle_some_runs|]. apply resize_in_scrolling_runs; [done..|].
    intros s Hs Hin. by apply sc_set_fullscreen_runs. }
  destruct b; [apply (Hr false)|].
  destruct (find_column ws w Hws) as (c & t & -> & Ht). cbn [mbind option_bind].
  destruct (co_fullscreen c && negb (co_maximized c)); [rewrite Ht|]; cbn [mbind option_bind].
  - apply Hr.
  - apply (Hr false).
Qed.

Lemma ws_set_maximized_runs ws w b :
  ok ws → w ∈ ws_windows ws → runs (ws_set_maximized parent_of g ws w b) (keeps_ws ws).
Proof.
  intros Hok Hw. unfold ws_set_maximized.
  destruct (fl_has_window (ws_floating ws) w) eqn:Hf.
  { destruct b; [|by apply runs_ret, ws_keeps_refl]. apply resize_window_runs; [done..|].
    intros s Hs Hin. by apply sc_set_maximized_runs. }
  pose proof (in_scrolling ws w Hw Hf) as Hws.
  assert (∀ restore : bool, runs (if restore then toggle_window_floating parent_of g ws (Some w)
    else resize_in_scrolling ws w false (λ s, sc_set_maximized s w b)) (keeps_ws ws)) as Hr.
  { intros [|]; [by apply toggle_some_runs|]. apply resize_in_scrolling_runs; [done..|].
    intros s Hs Hin. by apply sc_set_maximized_runs. }
  destruct b; [apply (Hr false)|].
  destruct (sc_find_tile_some _ _ Hws) as [t ->]. cbn [mbind option_bind]. apply Hr.
Qed.

(** ** Activation *)
Lemma set_active_keeps ws ws' a :
  keeps_ws ws ws' → (fa_get a = true → ws'.(ws_floating).(fl_tiles) ≠ []) →
  (fa_get a = false → ws'.(ws_scrolling).(sc_columns) ≠ [] ∨ ws'.(ws_floating).(fl_tiles) = []) →
  keeps_ws ws (set_ws_active a ws').
Proof. intros ([] & Hp & Hm) H1 H2. split; [by apply set_active_ok|done]. Qed.

Lemma in_floating_nonempty f w : w ∈ fl_windows f → fl_tiles f ≠ [].
Proof. intros Hw E%fl_windows_nil. rewrite E in Hw. by apply not_elem_of_nil in Hw. Qed.

Lemma in_scrolling_nonempty s w : w ∈ windows s → sc_columns s ≠ [].
Proof. intros Hw E. unfold windows, arrangement in Hw. rewrite E in Hw. by apply not_elem_of_nil in Hw. Qed.

(** [sc_activate_window] reports whether the window is there. *)
Lemma sc_activate_window_done s w :
  scrolling_ok s → runs (sc_activate_window s w) (λ r, keeps s (fst r) ∧
    (snd r = true → w ∈ windows s) ∧ (snd r = false → fst r = s)).
Proof.
  intros Hs. destruct (activate_window_runs s w Hs) as (r & Hr & Hk). exists r.
  split; [done|]. split; [done|]. unfold sc_activate_window in Hr.
  destruct (position_col s w) as [i|] eqn:E; [|by injection Hr as <-].
  assert (w ∈ windows s) as Hw.
  { destruct (decide (w ∈ windows s)) as [|Hn]; [done|]. apply vec_position_Some in E as (c & Hc & Hcw).
    apply col_contains_spec in Hcw. destruct Hn. apply list_elem_of_join. exists (col_windows c).
    split; [done|]. eapply list_elem_of_lookup_2. by apply arrangement_lookup. }
  split; [done|]. destruct (sc_columns s !! i); [|done]. cbn [mbind option_bind] in Hr.
  destruct (col_activate_window _ _); [|done]. cbn [mbind option_bind] in Hr.
  destruct (activate_column _ _); [|done]. cbn [mbind option_bind] in Hr. by injection Hr as <-.
Qed.

Lemma ws_activate_scrolling_runs ws w a :
  ok ws → fa_get a = false →
  runs ('(s, done) ← sc_activate_window ws.(ws_scrolling) w;
        if (done : bool) then Some (set_ws_active a (set_ws_scrolling s ws), true)
        else Some (ws, false)) (λ r, keeps_ws ws (fst r)).
Proof.
  intros Hok Ha. destruct (sc_activate_window_done _ w (wo_scrolling _ _ Hok))
    as ([s d] & -> & Hk & Hd & _). cbn [mbind option_bind fst snd] in *.
  destruct d; [|by apply runs_ret, ws_keeps_refl]. apply runs_ret. simpl.
  apply set_active_keeps; [apply set_scrolling_keeps; [done|by apply keeps_sc_keeps]|congruence|].
  intros _. left. simpl. apply (in_scrolling_nonempty s w).
  destruct Hk as (_ & -> & _). by apply Hd.
Qed.

Lemma ws_activate_window_runs ws w :
  ok ws → runs (ws_activate_window parent_of ws w) (λ r, keeps_ws ws (fst r)).
Proof.
  intros Hok. unfold ws_activate_window.
  destruct (decide (w ∈ fl_windows ws.(ws_floating))) as [Hw|Hw].
  - destruct (fl_activate_window_runs parent_of Hcycle _ w (wo_floating _ _ Hok) Hw)
      as ([f d] & -> & Hf & Ht & _ & Hd). simpl in Hd, Hf, Ht. subst d. cbn [mbind option_bind].
    apply runs_ret. simpl.
    apply set_active_keeps; [by apply set_floating_keeps|intros _; simpl|done].
    rewrite (perm_nil _ _ Ht). by eapply in_floating_nonempty.
  - rewrite fl_activate_window_absent by done. cbn [mbind option_bind].
    by apply ws_activate_scrolling_runs.
Qed.

Lemma ws_activate_without_raising_runs ws w :
  ok ws → runs (ws_activate_window_without_raising ws w) (λ r, keeps_ws ws (fst r)).
Proof.
  intros Hok. unfold ws_activate_window_without_raising.
  pose proof (activate_without_raising_ok parent_of _ w (wo_floating _ _ Hok)) as Hf.
  unfold activate_window_without_raising in *.
  destruct (fl_contains (ws_floating ws) w) eqn:Hc.
  - apply fl_contains_spec in Hc. apply runs_ret. simpl in *.
    apply set_active_keeps; [apply set_floating_keeps; [done|by split]|intros _; simpl|done].
    by eapply in_floating_nonempty.
  - apply ws_activate_scrolling_runs; [done|]. by destruct (ws_floating_is_active ws).
Qed.

Lemma switch_focus_keeps ws : ok ws → keeps_ws ws (switch_focus_floating_tiling ws).
Proof.
  intros Hok. unfold switch_focus_floating_tiling.
  destruct (fl_is_empty (ws_floating ws)) eqn:E1; [by apply ws_keeps_refl|].
  destruct (sc_is_empty (ws_scrolling ws)) eqn:E2; [by apply ws_keeps_refl|].
  apply set_active_keeps; [by apply ws_keeps_refl|..].
  - intros _ H%fl_is_empty_spec. congruence.
  - intros _. left. intros H%sc_is_empty_true. congruence.
Qed.

(** ** Every operation *)
Definition ws_op_ok (ws : Workspace) (op : WsOp) (r : Workspace * list N) : Prop :=
  ok (fst r) ∧ ws_added op ++ ws_windows ws ≡ₚ snd r ++ ws_windows (fst r) ∧
  ws_meta (fst r) = ws_meta ws.

Lemma kept_runs ws op o :
  ws_added op = [] → runs o (keeps_ws ws) → runs ((λ ws', (ws', [])) <$> o) (ws_op_ok ws op).
Proof.
  intros Ha Ho. eapply runs_fmap; [exact Ho|]. intros ws' (? & Hw & ?).
  split; [done|]. rewrite Ha. simpl. by rewrite Hw.
Qed.

Lemma kept_b_runs ws op (o : option (Workspace * bool)) :
  ws_added op = [] → runs o (λ r, keeps_ws ws (fst r)) →
  runs ((λ r, (fst r, [])) <$> o) (ws_op_ok ws op).
Proof.
  intros Ha Ho. eapply runs_fmap; [exact Ho|]. intros ws' (? & Hw & ?).
  split; [done|]. rewrite Ha. simpl. by rewrite Hw.
Qed.

(** Scrolling operations without windows as arguments. *)
Ltac plain op :=
  first [eapply (op_keeps _ op) | eapply (op_keeps' _ op)];
  [assumption|by apply op_pre_plain|reflexivity|reflexivity].

(** An operation that goes to the active one of the two spaces. *)
Lemma either_runs ws o1 o2 :
  ok ws → runs o1 (refocused parent_of ws.(ws_floating)) → runs o2 (sc_keeps ws.(ws_scrolling)) →
  runs (if floating_active ws then on_floating ws o1 else on_scrolling ws o2) (keeps_ws ws).
Proof.
  intros. destruct (floating_active ws); [by apply on_floating_runs|by apply on_scrolling_runs].
Qed.

Lemma either'_runs {B} ws o1 (o2 : option (ScrollingSpace * B)) :
  ok ws → runs o1 (λ r, refocused parent_of ws.(ws_floating) (fst r)) →
  runs o2 (λ r, sc_keeps ws.(ws_scrolling) (fst r)) →
  runs (if floating_active ws then on_floating' ws o1 else on_scrolling' ws o2)
    (λ r, keeps_ws ws (fst r)).
Proof.
  intros. destruct (floating_active ws); [by apply on_floating'_runs|by apply on_scrolling'_runs].
Qed.

Lemma mixed_runs ws o1 o2 :
  ok ws → runs o1 (λ r, refocused parent_of ws.(ws_floating) (fst r)) →
  runs o2 (sc_keeps ws.(ws_scrolling)) →
  runs (if floating_active ws then fst <$> on_floating' (B:=bool) ws o1 else on_scrolling ws o2)
    (keeps_ws ws).
Proof.
  intros. destruct (floating_active ws); [by apply ws_fst_runs, on_floating'_runs|by apply on_scrolling_runs].
Qed.

Lemma tiling_only_runs ws o :
  ok ws → runs o (sc_keeps ws.(ws_scrolling)) → runs (tiling_only ws o) (keeps_ws ws).
Proof.
  intros Hok Ho. unfold tiling_only.
  destruct (floating_active ws); [by apply runs_ret, ws_keeps_refl|by apply on_scrolling_runs].
Qed.

Lemma move_or_float_runs ws o :
  ok ws → runs o (λ r, sc_keeps ws.(ws_scrolling) (fst r)) →
  runs (move_or_float ws o) (λ r, keeps_ws ws (fst r)).
Proof.
  intros Hok Ho. unfold move_or_float. destruct (floating_active ws); [|by apply on_scrolling'_runs].
  eapply runs_bind; [apply (on_floating_runs parent_of); [done|]|intros ws' ?; by apply runs_ret].
  eapply runs_weaken; [apply move_by_runs, Hok|]. intros f [? Hf]. split; [done|by rewrite Hf].
Qed.

(** An operation, and another one when it reports that it did nothing. *)
Lemma or_else_runs ws o f :
  runs o (λ r, keeps_ws ws (fst r)) → (∀ ws', ok ws' → runs (f ws') (keeps_ws ws')) →
  runs ('(ws, done) ← o; if (done : bool) then Some ws else f ws) (keeps_ws ws).
Proof.
  intros ([ws' b] & -> & Hk) Hf. cbn [mbind option_bind fst] in *.
  destruct b; [by apply runs_ret|]. eapply runs_weaken; [apply Hf, Hk|].
  intros ws'' Hk'. by eapply ws_keeps_trans.
Qed.

Lemma ws_focus_left_runs ws : ok ws → runs (ws_focus_left parent_of g ws) (λ r, keeps_ws ws (fst r)).
Proof.
  intros Hok. pose proof (wo_scrolling _ _ Hok). apply either'_runs; [done| |plain OpFocusLeft].
  apply focus_directional_runs; [done|apply Hok].
Qed.

Lemma ws_focus_right_runs ws : ok ws → runs (ws_focus_right parent_of g ws) (λ r, keeps_ws ws (fst r)).
Proof.
  intros Hok. pose proof (wo_scrolling _ _ Hok). apply either'_runs; [done| |plain OpFocusRight].
  apply focus_directional_runs; [done|apply Hok].
Qed.

Lemma ws_focus_down_runs ws : ok ws → runs (ws_focus_down parent_of g ws) (λ r, keeps_ws ws (fst r)).
Proof.
  intros Hok. pose proof (wo_scrolling _ _ Hok). apply either'_runs; [done| |plain OpFocusDown].
  apply focus_directional_runs; [done|apply Hok].
Qed.

Lemma ws_focus_up_runs ws : ok ws → runs (ws_focus_up parent_of g ws) (λ r, keeps_ws ws (fst r)).
Proof.
  intros Hok. pose proof (wo_scrolling _ _ Hok). apply either'_runs; [done| |plain OpFocusUp].
  apply focus_directional_runs; [done|apply Hok].
Qed.

Lemma ws_focus_column_first_runs ws : ok ws → runs (ws_focus_column_first parent_of g ws) (keeps_ws ws).
Proof.
  intros Hok. pose proof (wo_scrolling _ _ Hok). apply either_runs; [done| |plain OpFocusColumnFirst].
  apply focus_least_runs; [done|apply Hok].
Qed.

Lemma ws_focus_column_last_runs ws : ok ws → runs (ws_focus_column_last parent_of g ws) (keeps_ws ws).
Proof.
  intros Hok. pose proof (wo_scrolling _ _ Hok). apply either_runs; [done| |plain OpFocusColumnLast].
  apply focus_greatest_runs; [done|apply Hok].
Qed.

Lemma focus_window_top_runs ws : ok ws → runs (focus_window_top parent_of g ws) (keeps_ws ws).
Proof.
  intros Hok. pose proof (wo_scrolling _ _ Hok). apply either_runs; [done| |plain OpFocusTop].
  apply focus_least_runs; [done|apply Hok].
Qed.

Lemma focus_window_bottom_runs ws : ok ws → runs (focus_window_bottom parent_of g ws) (keeps_ws ws).
Proof.
  intros Hok. pose proof (wo_scrolling _ _ Hok). apply either_runs; [done| |plain OpFocusBottom].
  apply focus_greatest_runs; [done|apply Hok].
Qed.

Lemma ws_focus_column_runs ws i : ok ws → runs (ws_focus_column ws i) (keeps_ws ws).
Proof.
  intros Hok. unfold ws_focus_column. unfold focus_tiling.
  destruct (floating_active ws).
  - pose proof (switch_focus_keeps ws Hok) as Hk. pose proof (wo_scrolling _ _ (proj1 Hk)).
    eapply runs_weaken; [apply (on_scrolling_runs parent_of); [apply Hk|plain (OpFocusColumn i)]|].
    intros ws' Hk'. by eapply ws_keeps_trans.
  - pose proof (wo_scrolling _ _ Hok). apply on_scrolling_runs; [done|plain (OpFocusColumn i)].
Qed.

Lemma consume_target ws window :
  ok ws → target_floating ws window = false → (∀ w, window = Some w → w ∈ ws_windows ws) →
  ∀ w, window = Some w → w ∈ windows ws.(ws_scrolling).
Proof. intros Hok Hf Hw w ->. apply in_scrolling; [auto|done]. Qed.

Lemma ws_consume_left_runs ws window :
  ok ws → (∀ w, window = Some w → w ∈ ws_windows ws) →
  runs (ws_consume_or_expel_window_left ws window) (keeps_ws ws).
Proof.
  intros Hok Hw. unfold ws_consume_or_expel_window_left.
  destruct (target_floating ws window) eqn:Hf; [by apply runs_ret, ws_keeps_refl|].
  apply on_scrolling_runs; [done|].
  eapply runs_weaken; [apply consume_or_expel_window_left_runs; [apply Hok|]|apply keeps_sc_keeps].
  by apply consume_target.
Qed.

Lemma ws_consume_right_runs ws window :
  ok ws → (∀ w, window = Some w → w ∈ ws_windows ws) →
  runs (ws_consume_or_expel_window_right ws window) (keeps_ws ws).
Proof.
  intros Hok Hw. unfold ws_consume_or_expel_window_right.
  destruct (target_floating ws window) eqn:Hf; [by apply runs_ret, ws_keeps_refl|].
  apply on_scrolling_runs; [done|].
  eapply runs_weaken; [apply consume_or_expel_window_right_runs; [apply Hok|]|apply keeps_sc_keeps].
  by apply consume_target.
Qed.

Lemma ws_resize_begin_runs ws w :
  ok ws → w ∈ ws_windows ws → runs (ws_interactive_resize_begin ws w) (λ r, keeps_ws ws (fst r)).
Proof.
  intros Hok Hw. unfold ws_interactive_resize_begin.
  destruct (fl_has_window (ws_floating ws) w) eqn:Hf.
  - apply on_floating'_runs; [done|]. eapply runs_weaken; [apply fl_resize_begin_runs; [apply Hok|]|].
    + by apply fl_has_window_spec.
    + intros r [? Hr]. split; [done|by rewrite Hr].
  - apply on_scrolling'_runs; [done|]. eapply runs_weaken; [apply resize_begin_runs; [apply Hok|]|].
    + by apply in_scrolling.
    + intros r. apply keeps_sc_keeps.
Qed.

Lemma ws_resize_end_runs ws w : ok ws → runs (ws_interactive_resize_end ws w) (keeps_ws ws).
Proof.
  intros Hok. unfold ws_interactive_resize_end.
  assert (∀ w, keeps_ws ws (set_ws_floating (fl_interactive_resize_end (ws_floating ws) w) ws)) as Hfl.
  { intros v. apply set_floating_keeps; [done|].
    destruct (fl_resize_end_ok parent_of _ v (wo_floating _ _ Hok)) as [? Ht].
    split; [done|by rewrite Ht]. }
  destruct w as [w|].
  - destruct (fl_has_window (ws_floating ws) w); [by apply runs_ret|].
    pose proof (wo_scrolling _ _ Hok). apply on_scrolling_runs; [done|plain (OpResizeEnd (Some w))].
  - pose proof (wo_scrolling _ _ (proj1 (Hfl None))).
    eapply runs_weaken; [apply (on_scrolling_runs parent_of);
      [apply (proj1 (Hfl None))|plain (OpResizeEnd None)]|].
    intros ws' Hk. eapply ws_keeps_trans; [apply (Hfl None)|exact Hk].
Qed.

Lemma added_tile_runs ws op o t :
  ws_added op = [tl_window t] → runs o (added_tile parent_of (tl_window t) ws) →
  runs ((λ ws', (ws', [])) <$> o) (ws_op_ok ws op).
Proof.
  intros Ha Ho. eapply runs_fmap; [exact Ho|]. intros ws' (? & Hw & ?). split; [done|].
  rewrite Ha. simpl. by rewrite Hw.
Qed.

Lemma run_ws_remove_runs ws op :
  ok ws → ws_op_pre ws op →
  match op with WopRemoveTile _ | WopRemoveActiveTile | WopRemoveActiveColumn => True | _ => False end →
  runs (run_ws_op parent_of g ws op) (ws_op_ok ws op).
Proof.
  intros Hok [_ Hop] Hr. destruct op; try done; cbn [run_ws_op].
  - eapply runs_fmap; [apply ws_remove_tile_runs; [done|exact Hop]|].
    intros r (Hw & ? & Hp & ?). split; [done|]. simpl. by rewrite Hw.
  - eapply runs_fmap; [by apply ws_remove_active_tile_runs|]. intros [[r|] ws'] Hr'; simpl in *.
    + destruct Hr' as (? & Hp & ?). by split.
    + destruct Hr' as [-> _]. by split.
  - eapply runs_fmap; [by apply ws_remove_active_column_runs|]. intros [[c|] ws'] Hr'; simpl in *.
    + destruct Hr' as (_ & ? & Hp & ?). by split.
    + subst ws'. by split.
Qed.

Lemma run_ws_op_runs ws op :
  ok ws → ws_op_pre ws op → runs (run_ws_op parent_of g ws op) (ws_op_ok ws op).
Proof.
  intros Hok Hpre. pose proof Hpre as [Hn Hop]. pose proof (wo_scrolling _ _ Hok) as Hs.
  pose proof (wo_floating _ _ Hok) as Hf.
  destruct op; try (by apply run_ws_remove_runs); cbn [run_ws_op ws_op_pre ws_added] in *.
  - eapply added_tile_runs; [done|]. apply ws_add_tile_runs; [done|done|by apply NoDup_cons in Hn as []|done].
  - destruct Hop as (c & Hi & Hj). eapply added_tile_runs; [done|].
    apply (ws_add_tile_to_column_runs parent_of Hcycle ws col_idx tile_idx t activate c); [done|by apply NoDup_cons in Hn as []|done|done].
  - eapply runs_fmap; [by apply ws_add_column_runs|]. intros ws' (? & Hp & ?). split; [done|].
    simpl. by rewrite Hp.
  - apply kept_runs; [done|]. eapply runs_weaken; [apply toggle_window_floating_runs; [done|]|by intros ? []].
    intros w ->. done.
  - apply kept_runs; [done|]. unfold set_window_floating.
    destruct (Bool.eqb _ _); [by apply runs_ret, ws_keeps_refl|].
    eapply runs_weaken; [apply toggle_window_floating_runs; [done|]|by intros ? []]. intros w ->. done.
  - apply kept_runs, runs_ret; [done|]. unfold focus_floating.
    destruct (negb _); [by apply switch_focus_keeps|by apply ws_keeps_refl].
  - apply kept_runs, runs_ret; [done|]. unfold focus_tiling.
    destruct (floating_active ws); [by apply switch_focus_keeps|by apply ws_keeps_refl].
  - apply kept_runs, runs_ret; [done|]. by apply switch_focus_keeps.
  - apply kept_runs; [done|]. by apply ws_set_fullscreen_runs.
  - apply kept_runs; [done|]. unfold toggle_fullscreen. destruct (ws_find_tile ws window Hop) as [t ->].
    by apply ws_set_fullscreen_runs.
  - apply kept_runs; [done|]. by apply ws_set_maximized_runs.
  - apply kept_runs; [done|]. by apply ws_set_maximized_runs.
  - apply kept_b_runs; [done|]. by apply ws_activate_window_runs.
  - apply kept_b_runs; [done|]. by apply ws_activate_without_raising_runs.
  - apply kept_b_runs; [done|]. by apply ws_focus_left_runs.
  - apply kept_b_runs; [done|]. by apply ws_focus_right_runs.
  - apply kept_runs; [done|]. by apply ws_focus_column_first_runs.
  - apply kept_runs; [done|]. by apply ws_focus_column_last_runs.
  - apply kept_runs; [done|]. apply or_else_runs; [by apply ws_focus_right_runs|apply ws_focus_column_first_runs].
  - apply kept_runs; [done|]. apply or_else_runs; [by apply ws_focus_left_runs|apply ws_focus_column_last_runs].
  - apply kept_runs; [done|]. by apply ws_focus_column_runs.
  - apply kept_runs; [done|]. apply tiling_only_runs; [done|plain (OpFocusWindowInColumn index)].
  - apply kept_b_runs; [done|]. by apply ws_focus_down_runs.
  - apply kept_b_runs; [done|]. by apply ws_focus_up_runs.
  - apply kept_runs; [done|]. apply mixed_runs; [done|by apply focus_directional_runs|plain OpFocusDownOrLeft].
  - apply kept_runs; [done|]. apply mixed_runs; [done|by apply focus_directional_runs|plain OpFocusDownOrRight].
  - apply kept_runs; [done|]. apply mixed_runs; [done|by apply focus_directional_runs|plain OpFocusUpOrLeft].
  - apply kept_runs; [done|]. apply mixed_runs; [done|by apply focus_directional_runs|plain OpFocusUpOrRight].
  - apply kept_runs; [done|]. by apply focus_window_top_runs.
  - apply kept_runs; [done|]. by apply focus_window_bottom_runs.
  - apply kept_runs; [done|]. apply or_else_runs; [by apply ws_focus_down_runs|apply focus_window_top_runs].
  - apply kept_runs; [done|]. apply or_else_runs; [by apply ws_focus_up_runs|apply focus_window_bottom_runs].
  - apply kept_b_runs; [done|]. apply move_or_float_runs; [done|plain OpMoveLeft].
  - apply kept_b_runs; [done|]. apply move_or_float_runs; [done|plain OpMoveRight].
  - apply kept_b_runs; [done|]. apply move_or_float_runs; [done|plain OpMoveDown].
  - apply kept_b_runs; [done|]. apply move_or_float_runs; [done|plain OpMoveUp].
  - apply kept_runs; [done|]. apply tiling_only_runs; [done|plain OpMoveColumnToFirst].
  - apply kept_runs; [done|]. apply tiling_only_runs; [done|plain OpMoveColumnToLast].
  - apply kept_runs; [done|]. apply tiling_only_runs; [done|plain (OpMoveColumnToIndex index)].
  - apply kept_runs; [done|]. apply ws_consume_left_runs; [done|]. by intros w ->.
  - apply kept_runs; [done|]. apply ws_consume_right_runs; [done|]. by intros w ->.
  - apply kept_runs; [done|]. apply tiling_only_runs; [done|plain OpConsumeIntoColumn].
  - apply kept_runs; [done|]. apply tiling_only_runs; [done|plain OpExpelFromColumn].
  - apply kept_runs; [done|]. apply tiling_only_runs; [done|plain (OpSwap direction)].
  - apply kept_runs; [done|]. apply tiling_only_runs; [done|plain OpToggleTabbed].
  - apply kept_runs; [done|]. apply tiling_only_runs; [done|plain (OpSetColumnDisplay d)].
  - apply kept_b_runs; [done|]. by apply ws_resize_begin_runs.
  - apply kept_runs; [done|]. by apply ws_resize_end_runs.
Qed.

(** ** Restoring a floating window *)
Lemma NoDup_join_unique (A : list (list N)) i j l k w :
  NoDup (mjoin A) → A !! i = Some l → A !! j = Some k → w ∈ l → w ∈ k → i = j.
Proof.
  revert i j. induction A as [|x A IH]; intros [|i] [|j]; csimpl; try done.
  all: intros (_ & Hd & HA)%NoDup_app Hi Hj Hl Hk.
  - injection Hi as ->. destruct (Hd w Hl). apply list_elem_of_join. exists k.
    split; [done|]. by eapply list_elem_of_lookup_2.
  - injection Hj as ->. destruct (Hd w Hk). apply list_elem_of_join. exists l.
    split; [done|]. by eapply list_elem_of_lookup_2.
  - f_equal. by eapply IH.
Qed.

Lemma position_col_unique s i c w :
  scrolling_ok s → s.(sc_columns) !! i = Some c → w ∈ col_windows c → position_col s w = Some i.
Proof.
  intros Hs Hi Hw. destruct (position_col_runs s w) as (k & Hk & d & j & t & Hd & _ & Hj & Ht).
  { apply list_elem_of_join. exists (col_windows c). split; [done|].
    eapply list_elem_of_lookup_2. by apply arrangement_lookup. }
  rewrite Hk. f_equal. apply (NoDup_join_unique (arrangement s) k i (col_windows d) (col_windows c) w);
    [apply Hs|by apply arrangement_lookup|by apply arrangement_lookup| |done].
  rewrite <-Ht. apply list_elem_of_fmap. exists t. split; [done|]. by eapply list_elem_of_lookup_2.
Qed.

Lemma find_position {A} (p : A → bool) l i x :
  vec_position p l = Some i → l !! i = Some x → List.find p l = Some x.
Proof.
  revert i. induction l as [|y l IH]; intros i; simpl; [done|].
  destruct (p y); [by intros [= <-] [= ->]|]. intros (k & Hk & ->)%fmap_Some. by apply IH.
Qed.

Lemma find_single_tile s w i c t :
  scrolling_ok s → s.(sc_columns) !! i = Some c → c.(co_tiles) = [t] → tl_window t = w →
  sc_find_tile s w = Some t ∧ List.find (λ c, col_contains c w) s.(sc_columns) = Some c ∧
  position_col s w = Some i ∧ col_position c w = Some 0.
Proof.
  intros Hs Hi Ht Hw. assert (w ∈ col_windows c) as Hwc.
  { unfold col_windows. rewrite Ht, <-Hw. by apply list_elem_of_singleton. }
  pose proof (position_col_unique s i c w Hs Hi Hwc) as Hpos.
  assert (w ∈ windows s) as Hws.
  { apply list_elem_of_join. exists (col_windows c). split; [done|].
    eapply list_elem_of_lookup_2. by apply arrangement_lookup. }
  split_and!; [|by eapply find_position|done|].
  - unfold sc_find_tile. destruct (find_tile (sc_tiles s) w) as (u & -> & Hu & Huw).
    { by rewrite sc_tiles_windows. }
    unfold sc_tiles in Hu. apply list_elem_of_bind in Hu as (d & Hud & Hd).
    apply list_elem_of_lookup in Hd as [k Hk].
    assert (w ∈ col_windows d) as Hwd.
    { rewrite <-Huw. apply list_elem_of_fmap. by exists u. }
    pose proof (position_col_unique s k d w Hs Hk Hwd) as Hpk. rewrite Hpos in Hpk.
    injection Hpk as <-. rewrite Hi in Hk. injection Hk as <-. rewrite Ht in Hud.
    apply list_elem_of_singleton in Hud. by subst.
  - unfold col_position. rewrite Ht. simpl. unfold tile_is. by rewrite Hw, N.eqb_refl.
Qed.

Lemma sc_set_fullscreen_single s w i c t r :
  position_col s w = Some i → s.(sc_columns) !! i = Some c → c.(co_tiles) = [t] → tl_window t = w →
  c.(co_fullscreen) = false → c.(co_maximized) = false → sc_set_fullscreen s w true = Some r →
  ∃ c1 t1, sc_columns (fst r) !! i = Some c1 ∧ c1.(co_tiles) = [t1] ∧ tl_window t1 = w ∧
    c1.(co_fullscreen) = true ∧ c1.(co_maximized) = false ∧ tl_pending t1 = SizeFullscreen.
Proof.
  intros Hpos Hi Ht Hw Hfs Hmx Hsf.
  unfold sc_set_fullscreen in Hsf. rewrite Hpos in Hsf. cbn [mbind option_bind] in Hsf.
  rewrite Hi in Hsf. cbn [mbind option_bind] in Hsf. rewrite Hfs, Ht in Hsf. cbn [Bool.eqb] in Hsf.
  cbn [length Nat.ltb Nat.leb andb mbind option_bind] in Hsf. cbn [set_sc_resize sc_columns] in Hsf.
  rewrite Hi in Hsf. cbn [mbind option_bind] in Hsf. unfold col_set_fullscreen in Hsf.
  rewrite Hfs, Ht in Hsf. cbn [Bool.eqb length Nat.eqb orb negb andb mbind option_bind] in Hsf.
  injection Hsf as <-. simpl. rewrite list_lookup_insert_eq by (by apply lookup_lt_Some in Hi).
  eexists _, _. split; [done|]. unfold update_tile_sizes. simpl. rewrite Ht. done.
Qed.

(** Fullscreening the one window of a normal column. *)
Lemma fullscreen_single ws w :
  ok ws → single_normal ws.(ws_scrolling) w →
  ∃ ws', resize_in_scrolling ws w true (λ s, sc_set_fullscreen s w true) = Some ws' ∧
    ws'.(ws_floating) = ws.(ws_floating) ∧ keeps_ws ws ws' ∧
    ∃ i c t, sc_columns ws'.(ws_scrolling) !! i = Some c ∧ c.(co_tiles) = [t] ∧ tl_window t = w ∧
      c.(co_fullscreen) = true ∧ c.(co_maximized) = false ∧ tl_restore_to_floating t = true ∧
      tl_pending t = SizeFullscreen.
Proof.
  intros Hok (i & c & t & Hi & Ht & Hw & Hfs & Hmx). pose proof (wo_scrolling _ _ Hok) as Hs.
  set (s := ws_scrolling ws) in *.
  destruct (find_single_tile s w i c t Hs Hi Ht Hw) as (Hfind & _ & Hpos & Hcp).
  assert (w ∈ windows s) as Hws.
  { apply list_elem_of_join. exists (col_windows c). split.
    - unfold col_windows. rewrite Ht, <-Hw. by apply list_elem_of_singleton.
    - eapply list_elem_of_lookup_2. by apply arrangement_lookup. }
  destruct (resize_in_scrolling_runs ws w true (λ s, sc_set_fullscreen s w true) Hok Hws)
    as (ws' & Hr & Hk); [intros; by apply sc_set_fullscreen_runs|].
  assert (tl_pending t = SizeNormal) as Hpt.
  { pose proof (column_lookup_ok s i c Hs Hi) as [_ _ Hpe]. rewrite Ht in Hpe.
    apply Forall_cons in Hpe as [-> _]. unfold pending_sizing_mode. by rewrite Hfs, Hmx. }
  exists ws'. split; [done|].
  pose proof Hr as Hr'. unfold resize_in_scrolling in Hr'. fold s in Hr'. rewrite Hfind in Hr'.
  cbn [mbind option_bind] in Hr'. rewrite Hpt in Hr'.
  destruct (sc_set_fullscreen_runs s w true Hs Hws) as (r & Hsf & Hk1 & _).
  rewrite Hsf in Hr'. cbn [mbind option_bind] in Hr'.
  destruct (sc_set_fullscreen_single s w i c t r Hpos Hi Ht Hw Hfs Hmx Hsf)
    as (c1 & t1 & Hi1 & Ht1 & Hw1 & Hf1 & Hm1 & Hp1).
  destruct (find_single_tile (fst r) w i c1 t1 Hk1 Hi1 Ht1 Hw1) as (Hfind1 & _ & Hpos1 & Hcp1).
  rewrite Hfind1 in Hr'. cbn [mbind option_bind] in Hr'. rewrite Hp1 in Hr'.
  rewrite bool_decide_true, bool_decide_false in Hr' by done. cbn [andb negb] in Hr'.
  unfold sc_update_tile in Hr'. rewrite Hpos1 in Hr'. cbn [mbind option_bind] in Hr'.
  rewrite Hi1 in Hr'. cbn [mbind option_bind] in Hr'. rewrite Hcp1, Ht1 in Hr'.
  cbn [mbind option_bind lookup list_lookup insert list_insert] in Hr'. injection Hr' as <-.
  split; [done|]. split; [done|].
  eexists i, _, _. split; [apply list_lookup_insert_eq; by apply lookup_lt_Some in Hi1|done].
Qed.

Lemma fullscreen_roundtrip ws w :
  ok ws → fl_has_window ws.(ws_floating) w = true →
  ∃ ws1 ws2 t, ws_set_fullscreen parent_of g ws w true = Some ws1 ∧
    ws_set_fullscreen parent_of g ws1 w false = Some ws2 ∧
    sc_find_tile ws1.(ws_scrolling) w = Some t ∧ tl_pending t = SizeFullscreen ∧
    fl_has_window ws1.(ws_floating) w = false ∧
    fl_has_window ws2.(ws_floating) w = true ∧ keeps_ws ws ws2.
Proof.
  intros Hok Hf. assert (w ∈ ws_windows ws) as Hw.
  { apply elem_of_app. right. by apply fl_has_window_spec. }
  destruct (toggle_window_floating_runs ws (Some w) Hok) as (ws0 & Hr0 & Hk0 & Hfl0).
  { by intros ? [= <-]. }
  destruct (Hfl0 w eq_refl) as [Hnf Hsn]. specialize (Hsn Hf). rewrite Hf in Hnf. simpl in Hnf.
  destruct (fullscreen_single ws0 w (proj1 Hk0) Hsn)
    as (ws1 & Hr1 & Hflo & Hk1 & i & c & t & Hi & Ht & Htw & Hfs & Hmx & Hre & Hpe).
  destruct (find_single_tile ws1.(ws_scrolling) w i c t) as (Hfind & Hcol & _);
    [apply Hk1|done|done|done|].
  destruct (toggle_window_floating_runs ws1 (Some w) (proj1 Hk1)) as (ws2 & Hr2 & Hk2 & Hfl2).
  { intros ? [= <-]. rewrite (proj1 (proj2 Hk1)), (proj1 (proj2 Hk0)). done. }
  exists ws1, ws2, t. split_and!; [| |done|done| | |].
  - unfold ws_set_fullscreen. rewrite Hf, Hr0. done.
  - unfold ws_set_fullscreen. rewrite Hflo, Hnf, Hcol. cbn [mbind option_bind].
    rewrite Hfs, Hmx. cbn [andb negb]. rewrite Ht. cbn [List.find]. unfold tile_is.
    rewrite Htw, N.eqb_refl. cbn [mbind option_bind]. by rewrite Hre.
  - by rewrite Hflo.
  - destruct (Hfl2 w eq_refl) as [-> _]. by rewrite Hflo, Hnf.
  - eapply ws_keeps_trans; [|exact Hk2]. by eapply ws_keeps_trans.
Qed.

End workspace_theory.

(** ** Properties *)

(** Changes of a workspace other than by its window operations. *)
Lemma sc_update_config_ok o s : scrolling_ok s → sc_keeps s (sc_update_config o s).
Proof.
  intros [Hc Ha Hd Hr].
  assert (∀ c, col_windows (col_update_config o c) = col_windows c) as Hcw.
  { intros c. unfold col_windows. simpl. rewrite <-list_fmap_compose. done. }
  assert (arrangement (sc_update_config o s) = arrangement s) as Harr.
  { unfold arrangement. simpl. rewrite <-list_fmap_compose. apply list_fmap_ext. intros i c _. apply Hcw. }
  assert (windows (sc_update_config o s) = windows s) as Hw by (unfold windows; by rewrite Harr).
  split; [|by rewrite Hw]. split; rewrite ?Hw; try done.
  - simpl. apply Forall_fmap. eapply Forall_impl; [exact Hc|]. intros c [H1 H2 H3].
    split; simpl; rewrite ?length_fmap; try done. by apply Forall_fmap.
  - simpl. rewrite length_fmap. destruct Ha as [?|[-> ?]]; auto.
Qed.

Lemma ws_update_config_ok par o ws : workspace_ok par ws →
  workspace_ok par (ws_update_config o ws) ∧ ws_windows (ws_update_config o ws) ≡ₚ ws_windows ws.
Proof.
  intros [Hs Hf Hd He1 He2]. set (o' := with_merged_layout o ws.(ws_layout_config)).
  destruct (sc_update_config_ok o' _ Hs) as [Hs' Hw].
  pose proof (fl_update_config_ok par _ o' Hf) as Hf'.
  assert (fl_windows (fl_update_config o' ws.(ws_floating)) = fl_windows ws.(ws_floating)) as Hfw.
  { unfold fl_windows. simpl. by rewrite <-list_fmap_compose. }
  assert (ws_windows (ws_update_config o ws) ≡ₚ ws_windows ws) as Hp.
  { unfold ws_windows. simpl. fold o'. by rewrite Hw, Hfw. }
  split; [|done]. split; try done.
  - by rewrite Hp.
  - simpl. intros H%fmap_nil_inv. by apply He1.
  - simpl. intros H%fmap_nil_inv Hn. apply He2; [done|]. intros E. by rewrite E in Hn.
Qed.

Definition ws_parent_changed (par : N → option N) (ws : Workspace) (w : N) (p : option N) :
    option ((N → option N) * Workspace) :=
  let par := set_parent par w p in
  match par w with
  | None => Some (par, ws)
  | Some parent => r ← ws_descendants_added par ws parent; Some (par, fst r)
  end.

Inductive ws_step (g : Placement) :
  (N → option N) * Workspace → (N → option N) * Workspace → Prop :=
| ws_op_step par ws op ws' removed :
    ws_op_pre ws op → run_ws_op par g ws op = Some (ws', removed) → ws_step g (par, ws) (par, ws')
| ws_config_step par ws o : ws_step g (par, ws) (par, ws_update_config o ws)
| ws_layout_step par ws c : ws_step g (par, ws) (par, ws_update_layout_config c ws)
| ws_unname_step par ws : ws_step g (par, ws) (par, unname ws)
| ws_output_step par ws o : ws_step g (par, ws) (par, set_output o ws)
| ws_parent_step par ws w p par' ws' :
    no_cycle (set_parent par w p) → ws_parent_changed par ws w p = Some (par', ws') →
    ws_step g (par, ws) (par', ws').

Lemma ws_parent_changed_runs par ws w p :
  no_cycle (set_parent par w p) → workspace_ok par ws →
  runs (ws_parent_changed par ws w p) (λ r, fst r = set_parent par w p ∧ workspace_ok (fst r) (snd r)).
Proof.
  intros Hc [Hs Hf Hd He1 He2]. destruct (parent_changed_runs par _ w p Hc Hf) as ([par' f] & Hr & Hp & Hf' & Hw).
  simpl in *. subst par'. unfold parent_changed in Hr. unfold ws_parent_changed.
  destruct (set_parent par w p w) as [q|].
  - unfold ws_descendants_added, on_floating'.
    destruct (descendants_added _ (ws_floating ws) q) as [[f' b]|]; [|done].
    cbn [mbind option_bind fst snd] in *. injection Hr as <-. apply runs_ret. simpl.
    split; [done|]. pose proof (perm_nil _ _ Hw) as Hn. rewrite !fl_windows_nil in Hn.
    split; try done; simpl.
    + unfold ws_windows in *. simpl. by rewrite <-Hw.
    + rewrite <-Hn. done.
    + rewrite <-Hn. done.
  - injection Hr as <-. apply runs_ret. by split.
Qed.

Lemma ws_step_ok g st st' :
  ws_step g st st' → no_cycle st.1 ∧ workspace_ok st.1 st.2 → no_cycle st'.1 ∧ workspace_ok st'.1 st'.2.
Proof.
  intros Hstep [Hc Hok].
  destruct Hstep as [par ws op ws' rem Hpre Hrun|par ws o|par ws c|par ws|par ws o|par ws w p par' ws' Hc' Hrun];
    simpl in *.
  - split; [done|]. destruct (run_ws_op_runs par Hc g ws op Hok Hpre) as (r & Hr & ? & _). by simplify_eq.
  - split; [done|]. by apply ws_update_config_ok.
  - split; [done|]. unfold ws_update_layout_config. destruct (decide _); [done|].
    apply ws_update_config_ok. by destruct Hok.
  - split; [done|]. by destruct Hok.
  - split; [done|]. unfold set_output. destruct (decide _); [done|].
    destruct o as [o|]; [destruct (output_matches _ _)|]; by destruct Hok.
  - destruct (ws_parent_changed_runs par ws w p Hc' Hok) as (r & Hr & Hp & ?). simplify_eq/=. by subst.
Qed.

Lemma ws_steps_ok g st st' :
  rtc (ws_step g) st st' → no_cycle st.1 ∧ workspace_ok st.1 st.2 → no_cycle st'.1 ∧ workspace_ok st'.1 st'.2.
Proof. induction 1 as [|???? _ IH]; [done|]. eauto using ws_step_ok. Qed.

Lemma Workspace_new_ok par id o c opts : workspace_ok par (new_with_config id o c opts).
Proof. split; [apply scrolling_new_ok|apply Floating_new_ok|constructor|done|done]. Qed.

(** C11: no operation of a workspace panics. In every workspace reached from a new one by
    its operations, by configuration and output changes and by windows changing their parents,
    the scrolling and the floating space are well formed and share no window, the floating space
    is active only if it has windows and always if only it has some, and there is an active
    window whenever there is a window; every operation whose windows are there runs and neither
    loses nor duplicates a window. *)
Theorem workspace_never_panics g par id output config o st :
  no_cycle par → rtc (ws_step g) (par, new_with_config id output config o) st →
  workspace_ok st.1 st.2 ∧
  (ws_windows st.2 ≠ [] → ∃ w, ws_active_window st.2 = Some w ∧ w ∈ ws_windows st.2) ∧
  ∀ op, ws_op_pre st.2 op → ∃ ws' removed, run_ws_op st.1 g st.2 op = Some (ws', removed) ∧
    ws_added op ++ ws_windows st.2 ≡ₚ removed ++ ws_windows ws'.
Proof.
  intros Hc Hr. destruct (ws_steps_ok g _ _ Hr) as [Hc' Hok].
  { split; [done|]. apply Workspace_new_ok. }
  split; [done|]. split; [by apply (ws_active_window_some st.1)|].
  intros op Hpre. destruct (run_ws_op_runs _ Hc' g _ op Hok Hpre) as ([ws' r] & ? & _ & ? & _). eauto.
Qed.

(** C35: a floating window that goes fullscreen comes back to floating. Fullscreening it
    puts it into the scrolling layout with the fullscreen size requested, and leaving fullscreen
    puts it back into the floating layout, with all windows of the workspace still there. *)
Theorem fullscreen_restores_floating par g ws w :
  no_cycle par → workspace_ok par ws → fl_has_window ws.(ws_floating) w = true →
  ∃ ws1 ws2 t, ws_set_fullscreen par g ws w true = Some ws1 ∧
    ws_set_fullscreen par g ws1 w false = Some ws2 ∧
    sc_find_tile ws1.(ws_scrolling) w = Some t ∧ tl_pending t = SizeFullscreen ∧
    fl_has_window ws1.(ws_floating) w = false ∧ fl_has_window ws2.(ws_floating) w = true ∧
    ws_windows ws2 ≡ₚ ws_windows ws ∧ workspace_ok par ws2.
Proof.
  intros Hc Hok Hf. destruct (fullscreen_roundtrip par Hc g ws w Hok Hf)
    as (ws1 & ws2 & t & H1 & H2 & H3 & H4 & H5 & H6 & Hk & Hp & _).
  exists ws1, ws2, t. split_and!; done.
Qed.

(** ** Witnesses *)
Definition sample_output : OutputName := MkOutputName "DP-1" (Some "Acme") None None.

Definition sample_placement : Placement :=
  MkPlacement (λ _, (f64_zero, f64_zero)) (λ _, (f64_zero, f64_zero)) (λ _, f64_one).

Definition sample_ws0 : Workspace := Eval vm_compute in new_with_config 1 sample_output None float_options.

Definition add_sample (w : N) (floating : bool) : WsOp :=
  WopAddTile (float_tile w) WsAuto ActivateSmart (WidthFixed f64_one) false floating.

Definition sample_ws1 : Workspace := Eval vm_compute in
  fst (default (sample_ws0, []) (run_ws_op unparented sample_placement sample_ws0 (add_sample 1 false))).

(** A tiled and a floating window. *)
Definition sample_ws : Workspace := Eval vm_compute in
  fst (default (sample_ws0, []) (run_ws_op unparented sample_placement sample_ws1 (add_sample 2 true))).

Lemma sample_ws_reached :
  rtc (ws_step sample_placement) (unparented, new_with_config 1 sample_output None float_options)
    (unparented, sample_ws).
Proof.
  apply rtc_l with (unparented, sample_ws1).
  { apply (ws_op_step _ _ _ (add_sample 1 false) _ []); [|vm_compute; reflexivity].
    split; [apply (bool_decide_unpack _); vm_compute; exact I|exact I]. }
  apply rtc_once, (ws_op_step _ _ _ (add_sample 2 true) _ []); [|vm_compute; reflexivity].
  split; [apply (bool_decide_unpack _); vm_compute; exact I|exact I].
Qed.

Lemma workspace_never_panics_witness :
  ws_active_window sample_ws = Some 2%N ∧
  ∃ ws' removed, run_ws_op unparented sample_placement sample_ws (WopRemoveTile 2) = Some (ws', removed) ∧
    ws_windows sample_ws ≡ₚ removed ++ ws_windows ws' ∧ ws_active_window ws' = Some 1%N.
Proof.
  split; [reflexivity|].
  destruct (workspace_never_panics sample_placement unparented 1 sample_output None float_options _
              unparented_no_cycle sample_ws_reached) as (_ & _ & H).
  destruct (H (WopRemoveTile 2)) as (ws' & removed & Hr & Hp).
  { split; apply (bool_decide_unpack _); vm_compute; exact I. }
  exists ws', removed. split; [exact Hr|]. split; [exact Hp|].
  vm_compute in Hr. injection Hr as <- _. reflexivity.
Defined.

Lemma fullscreen_restores_floating_witness :
  ∃ ws1 ws2, ws_set_fullscreen unparented sample_placement sample_ws 2 true = Some ws1 ∧
    ws_set_fullscreen unparented sample_placement ws1 2 false = Some ws2 ∧
    arrangement ws1.(ws_scrolling) = [[1]; [2]]%N ∧ ws2.(ws_floating).(fl_active) = Some 2%N.
Proof.
  destruct (fullscreen_restores_floating unparented sample_placement sample_ws 2) as (ws1 & ws2 & t & H1 & H2 & _).
  - exact unparented_no_cycle.
  - exact (proj2 (ws_steps_ok _ _ _ sample_ws_reached
      (conj unparented_no_cycle (Workspace_new_ok unparented 1 sample_output None float_options)))).
  - vm_compute; reflexivity.
  - exists ws1, ws2. split; [exact H1|]. split; [exact H2|].
    vm_compute in H1. injection H1 as <-. vm_compute in H2. injection H2 as <-. split; reflexivity.
Defined.
