(* ===== verification/LayoutMonitor.v ===== *)
(** * Monitors (src/layout/monitor.rs)

    A monitor stacks workspaces: the last one is always empty, with [empty_workspace_above_first]
    also the first one, and empty workspaces in between disappear once no switch is going on.  The
    operations draw new workspace ids from the global counter, so they run in a monad that threads
    the counter; [None] is a panic.

    The position of the view while an animation runs is rendering state and is a parameter of the
    gestures that start from it; so is what the swipe tracker answers. *)
From S2P Require Import Prelude Float64 FloatRound LayoutScrolling LayoutFloating LayoutOutput LayoutWorkspace.

(** ** Computations that draw ids *)
Definition Fresh (A : Type) : Type := N → option (A * N).

#[export] Instance Fresh_ret : MRet Fresh := λ A a c, Some (a, c).
#[export] Instance Fresh_bind : MBind Fresh := λ A B f m c, '(a, c) ← m c; f a c.

(** [IdCounter::next]: an atomic [fetch_add], which wraps. *)
Definition next_id : Fresh N := λ c, Some (c, wrapping_add_u64 c 1).

Definition lift {A} (o : option A) : Fresh A := λ c, a ← o; Some (a, c).

Definition assert (b : bool) : option unit := if b then Some tt else None.

(** ** Data *)
Record WorkspaceSwitchGesture := MkGesture {
  wg_center : nat;
  wg_start : f64;
  wg_current : f64;
  wg_touchpad : bool;
  wg_clamped : bool;
  wg_dnd : bool
}.

(** The animation counts by where it goes. *)
Inductive WorkspaceSwitch :=
| SwitchAnimation (to : nat)
| SwitchGesture (gesture : WorkspaceSwitchGesture).

Inductive MonitorAddWindowTarget :=
| MonAuto
| MonWorkspace (id : N) (column_idx : option nat)
| MonNextTo (window : N).

Record Monitor := MkMonitor {
  mo_output : OutputName;
  mo_workspaces : list Workspace;
  mo_active : nat;
  mo_previous : option N;
  mo_switch : option WorkspaceSwitch;
  mo_overview_open : bool;
  mo_base_options : Options;
  mo_options : Options;
  mo_layout_config : option LayoutPart
}.

Definition set_mo_workspaces l (m : Monitor) : Monitor :=
  MkMonitor m.(mo_output) l m.(mo_active) m.(mo_previous) m.(mo_switch) m.(mo_overview_open)
    m.(mo_base_options) m.(mo_options) m.(mo_layout_config).
Definition set_mo_active i (m : Monitor) : Monitor :=
  MkMonitor m.(mo_output) m.(mo_workspaces) i m.(mo_previous) m.(mo_switch) m.(mo_overview_open)
    m.(mo_base_options) m.(mo_options) m.(mo_layout_config).
Definition set_mo_previous p (m : Monitor) : Monitor :=
  MkMonitor m.(mo_output) m.(mo_workspaces) m.(mo_active) p m.(mo_switch) m.(mo_overview_open)
    m.(mo_base_options) m.(mo_options) m.(mo_layout_config).
Definition set_mo_switch s (m : Monitor) : Monitor :=
  MkMonitor m.(mo_output) m.(mo_workspaces) m.(mo_active) m.(mo_previous) s m.(mo_overview_open)
    m.(mo_base_options) m.(mo_options) m.(mo_layout_config).
Definition set_mo_overview_open b (m : Monitor) : Monitor :=
  MkMonitor m.(mo_output) m.(mo_workspaces) m.(mo_active) m.(mo_previous) m.(mo_switch) b
    m.(mo_base_options) m.(mo_options) m.(mo_layout_config).
Definition set_mo_layout_config c (m : Monitor) : Monitor :=
  MkMonitor m.(mo_output) m.(mo_workspaces) m.(mo_active) m.(mo_previous) m.(mo_switch)
    m.(mo_overview_open) m.(mo_base_options) m.(mo_options) c.
Definition set_mo_options base o (m : Monitor) : Monitor :=
  MkMonitor m.(mo_output) m.(mo_workspaces) m.(mo_active) m.(mo_previous) m.(mo_switch)
    m.(mo_overview_open) base o m.(mo_layout_config).

Definition mo_count (m : Monitor) : nat := length m.(mo_workspaces).

(** The setting [empty_workspace_above_first] of the monitor. *)
Definition mo_above_first (m : Monitor) : bool := m.(mo_options).(opt_empty_workspace_above_first).

(** [workspace_switch.is_none()]. *)
Definition settled (m : Monitor) : bool :=
  match m.(mo_switch) with None => true | Some _ => false end.

(** [self.workspaces.len() - 1]; the subtraction is checked. *)
Definition last_idx (m : Monitor) : option nat :=
  match mo_count m with 0 => None | S n => Some n end.

(** ** The switch *)

(** [idx as f64 <= switch.target_idx()]. *)
Definition at_or_before_target (idx : nat) (s : WorkspaceSwitch) : bool :=
  match s with
  | SwitchAnimation to => idx <=? to
  | SwitchGesture gesture => f64_leb (f64_of_nat idx) gesture.(wg_current)
  end.

(** [offset(1)]. *)
Definition switch_offset_1 (s : WorkspaceSwitch) : WorkspaceSwitch :=
  match s with
  | SwitchAnimation to => SwitchAnimation (to + 1)
  | SwitchGesture gesture =>
      SwitchGesture (MkGesture (gesture.(wg_center) + 1) (f64_add gesture.(wg_start) f64_one)
        (f64_add gesture.(wg_current) f64_one) gesture.(wg_touchpad) gesture.(wg_clamped)
        gesture.(wg_dnd))
  end.

Definition min_max (gesture : WorkspaceSwitchGesture) (workspace_count : nat) : f64 * f64 :=
  if gesture.(wg_clamped) then
    (f64_of_nat (gesture.(wg_center) - 1),
     f64_of_nat (Nat.min (gesture.(wg_center) + 1) (workspace_count - 1)))
  else (f64_zero, f64_of_nat (workspace_count - 1)).

(** ** Creation *)
Definition new_workspace (output : OutputName) (options : Options) : Fresh Workspace :=
  id ← next_id; mret (Workspace_new id output options).

Definition prepare_workspace (output : OutputName) (options : Options) (ws : Workspace) : Workspace :=
  ws_update_config options (set_output (Some output) ws).

(** The last workspace of that id, or the first workspace. *)
Definition idx_to_activate (l : list Workspace) (id : option N) : nat :=
  match id with
  | None => 0
  | Some id =>
      foldl (λ r iw, if N.eqb (ws_id (snd iw)) id then fst iw else r) 0 (imap pair l)
  end.

Definition Monitor_new (output : OutputName) (workspaces : list Workspace)
    (ws_id_to_activate : option N) (base_options : Options) (layout_config : option LayoutPart) :
    Fresh Monitor :=
  let options := with_merged_layout base_options layout_config in
  _ ← lift (assert (forallb has_windows_or_name workspaces));
  let workspaces := prepare_workspace output options <$> workspaces in
  let active := idx_to_activate workspaces ws_id_to_activate in
  r ← (if options.(opt_empty_workspace_above_first) && negb (length workspaces =? 0)
       then ws ← new_workspace output options; mret (ws :: workspaces, active + 1)
       else mret (workspaces, active));
  ws ← new_workspace output options;
  mret (MkMonitor output (fst r ++ [ws]) (snd r) None None false base_options options layout_config).

Definition into_workspaces (m : Monitor) : list Workspace :=
  set_output None <$> List.filter has_windows_or_name m.(mo_workspaces).

(** ** Workspaces *)
Definition add_workspace_at (m : Monitor) (idx : nat) : Fresh Monitor :=
  ws ← new_workspace m.(mo_output) m.(mo_options);
  workspaces ← lift (vec_insert idx ws m.(mo_workspaces));
  let m := set_mo_workspaces workspaces m in
  let m := if idx <=? m.(mo_active) then set_mo_active (m.(mo_active) + 1) m else m in
  mret match m.(mo_switch) with
       | Some s => if at_or_before_target idx s then set_mo_switch (Some (switch_offset_1 s)) m else m
       | None => m
       end.

Definition add_workspace_top (m : Monitor) : Fresh Monitor := add_workspace_at m 0.
Definition add_workspace_bottom (m : Monitor) : Fresh Monitor := add_workspace_at m (mo_count m).

(** Before the active workspace changes to [idx]. *)
Definition remember_previous (m : Monitor) (idx : nat) : option Monitor :=
  if m.(mo_active) =? idx then Some m
  else ws ← m.(mo_workspaces) !! m.(mo_active); Some (set_mo_previous (Some ws.(ws_id)) m).

Definition activate_workspace (m : Monitor) (idx : nat) : option Monitor :=
  m' ← remember_previous m idx;
  let prev_active_idx := m'.(mo_active) in
  let m' := set_mo_active idx m' in
  Some match m'.(mo_switch) with
       | Some (SwitchGesture (MkGesture _ start current touchpad clamped true)) =>
           let current_pos := f64_sub current start in
           set_mo_switch (Some (SwitchGesture
             (MkGesture idx (f64_sub (f64_of_nat idx) current_pos) (f64_of_nat idx) touchpad clamped
                true))) m'
       | _ => if prev_active_idx =? idx then m' else set_mo_switch (Some (SwitchAnimation idx)) m'
       end.

Definition ws_position (m : Monitor) (p : Workspace → bool) : option nat :=
  vec_position p m.(mo_workspaces).

Definition resolve_add_window_target (m : Monitor) (target : MonitorAddWindowTarget) :
    option (nat * WorkspaceAddWindowTarget) :=
  match target with
  | MonAuto => Some (m.(mo_active), WsAuto)
  | MonWorkspace id column_idx =>
      idx ← ws_position m (λ ws, N.eqb ws.(ws_id) id);
      Some (idx, match column_idx with Some i => WsNewColumnAt i | None => WsAuto end)
  | MonNextTo win_id =>
      idx ← ws_position m (λ ws, has_window ws win_id); Some (idx, WsNextTo win_id)
  end.

(** A workspace without a name becomes the output's own when a window is added. *)
Definition own_workspace (output : OutputName) (ws : Workspace) : Workspace :=
  match ws.(ws_name) with
  | None => set_ws_original_output (OutputId_new output) ws
  | Some _ => ws
  end.

(** Runs an operation of one workspace. *)
Definition on_workspace {B} (m : Monitor) (idx : nat) (f : Workspace → option (B * Workspace)) :
    option (B * Monitor) :=
  ws ← m.(mo_workspaces) !! idx;
  r ← f ws;
  Some (fst r, set_mo_workspaces (<[idx := snd r]> m.(mo_workspaces)) m).

Definition add_to_workspace (m : Monitor) (idx : nat) (f : Workspace → option Workspace) :
    option Monitor :=
  ws ← m.(mo_workspaces) !! idx;
  ws ← f ws;
  Some (set_mo_workspaces (<[idx := own_workspace m.(mo_output) ws]> m.(mo_workspaces)) m).

(** Adds an empty workspace at the bottom if asked to, and one at the top if [above] asks for it and
    the first workspace is to be empty; then the index [idx] moves. *)
Definition pad (m : Monitor) (bottom : bool) (above : Monitor → bool) (idx : nat) :
    Fresh (Monitor * nat) :=
  m ← (if bottom then add_workspace_bottom m else mret m);
  if mo_above_first m && above m
  then m ← add_workspace_top m; mret (m, idx + 1)
  else mret (m, idx).

(** The empty workspaces at both ends after the workspace at [idx] got a window; the result has
    the new index of that workspace. *)
Definition pad_workspaces (m : Monitor) (idx : nat) : Fresh (Monitor * nat) :=
  last ← lift (last_idx m); pad m (idx =? last) (λ _, idx =? 0) idx.

Definition mon_add_column (m : Monitor) (workspace_idx : nat) (column : Column) (activate : bool) :
    Fresh Monitor :=
  m ← lift (add_to_workspace m workspace_idx (λ ws, ws_add_column ws column activate));
  r ← pad_workspaces m workspace_idx;
  if activate then lift (activate_workspace (fst r) (snd r)) else mret (fst r).

(** The loop of [clean_up_workspaces] over the given indices. *)
Fixpoint clean_up_loop (indices : list nat) (l : list Workspace) (active : nat) :
    option (list Workspace * nat) :=
  match indices with
  | [] => Some (l, active)
  | idx :: indices =>
      if active =? idx then clean_up_loop indices l active
      else
        ws ← l !! idx;
        if has_windows_or_name ws then clean_up_loop indices l active
        else
          r ← vec_remove idx l;
          clean_up_loop indices (snd r) (if idx <? active then active - 1 else active)
  end.

(** What is left when all workspaces are empty and the first one stays empty. *)
Definition collapse_empty (m : Monitor) : option Monitor :=
  if mo_above_first m && (mo_count m =? 2) then
    first ← m.(mo_workspaces) !! 0;
    _ ← assert (negb (has_windows_or_name first));
    second ← m.(mo_workspaces) !! 1;
    _ ← assert (negb (has_windows_or_name second));
    r ← vec_remove 1 m.(mo_workspaces);
    Some (set_mo_active 0 (set_mo_workspaces (snd r) m))
  else Some m.

Definition clean_up_workspaces (m : Monitor) : option Monitor :=
  _ ← assert (settled m);
  let range_start := if mo_above_first m then 1 else 0 in
  last ← last_idx m;
  r ← clean_up_loop (rev (seq range_start (last - range_start))) m.(mo_workspaces) m.(mo_active);
  collapse_empty (set_mo_active (snd r) (set_mo_workspaces (fst r) m)).

(** [if self.workspace_switch.is_none() { self.clean_up_workspaces() }]. *)
Definition clean_up_if_settled (m : Monitor) : option Monitor :=
  if settled m then clean_up_workspaces m else Some m.

Definition unname_workspace (m : Monitor) (id : N) : option (Monitor * bool) :=
  match update_first (λ ws, N.eqb ws.(ws_id) id) unname m.(mo_workspaces) with
  | None => Some (m, false)
  | Some workspaces => m ← clean_up_if_settled (set_mo_workspaces workspaces m); Some (m, true)
  end.

Definition remove_workspace_by_idx (m : Monitor) (idx : nat) : Fresh (Workspace * Monitor) :=
  r ← pad_workspaces m idx;
  let '(m, idx) := r in
  removed ← lift (vec_remove idx m.(mo_workspaces));
  let ws := set_output None (fst removed) in
  let m := set_mo_workspaces (snd removed) m in
  let m := if (idx <=? m.(mo_active)) && (0 <? m.(mo_active))
           then set_mo_active (m.(mo_active) - 1) m else m in
  m ← lift (clean_up_workspaces (set_mo_switch None m));
  mret (ws, m).

Definition insert_workspace (m : Monitor) (ws : Workspace) (idx : nat) (activate : bool) :
    Fresh Monitor :=
  let ws := prepare_workspace m.(mo_output) m.(mo_options) ws in
  idx ← lift (if idx =? mo_count m then (if idx =? 0 then None else Some (idx - 1)) else Some idx);
  r ← pad m false (λ _, idx =? 0) idx;
  let '(m, idx) := r in
  workspaces ← lift (vec_insert idx ws m.(mo_workspaces));
  let m := set_mo_workspaces workspaces m in
  let m := if idx <=? m.(mo_active) then set_mo_active (m.(mo_active) + 1) m else m in
  m ← lift (if activate then activate_workspace (set_mo_switch None m) idx else Some m);
  lift (clean_up_workspaces (set_mo_switch None m)).

Definition append_workspaces (m : Monitor) (workspaces : list Workspace) : Fresh Monitor :=
  match workspaces with
  | [] => mret m
  | _ =>
      let workspaces := prepare_workspace m.(mo_output) m.(mo_options) <$> workspaces in
      last ← lift (last_idx m);
      let empty_was_focused := m.(mo_active) =? last in
      r ← lift (vec_remove last m.(mo_workspaces));
      let m := set_mo_workspaces (snd r ++ workspaces ++ [fst r]) m in
      first ← lift (m.(mo_workspaces) !! 0);
      m ← (if mo_above_first m && has_windows_or_name first then add_workspace_top m else mret m);
      let m := if empty_was_focused then set_mo_active (mo_count m - 1) m else m in
      lift (clean_up_workspaces (set_mo_switch None m))
  end.

(** ** Windows *)
Section windows.
  Context (parent_of : N → option N) (g : Placement).

Definition mon_add_tile (m : Monitor) (tile : Tile) (target : MonitorAddWindowTarget)
    (activate : ActivateWindow) (allow_to_activate_workspace : bool) (width : ColumnWidth)
    (is_full_width is_floating : bool) : Fresh Monitor :=
  r ← lift (resolve_add_window_target m target);
  let '(workspace_idx, target) := r in
  m ← lift (add_to_workspace m workspace_idx
              (λ ws, ws_add_tile parent_of ws tile target activate width is_full_width is_floating));
  r ← pad_workspaces m workspace_idx;
  activate ← lift (map_smart activate (Some false));
  if allow_to_activate_workspace && activate
  then lift (activate_workspace (fst r) (snd r)) else mret (fst r).

(** A tile as [make_tile] creates it for a window. *)
Definition make_tile (ws : Workspace) (window : N) (pending : SizingMode)
    (rule_display : option ColumnDisplay) : Tile :=
  MkTile window pending rule_display ws.(ws_options) false.

Definition mon_add_window (m : Monitor) (window : N) (pending : SizingMode)
    (rule_display : option ColumnDisplay) (target : MonitorAddWindowTarget)
    (activate : ActivateWindow) (width : ColumnWidth) (is_full_width is_floating : bool) :
    Fresh Monitor :=
  first ← lift (m.(mo_workspaces) !! 0);
  mon_add_tile m (make_tile first window pending rule_display) target activate true width
    is_full_width is_floating.

Definition mon_add_tile_to_column (m : Monitor) (workspace_idx column_idx : nat)
    (tile_idx : option nat) (tile : Tile) (activate allow_to_activate_workspace : bool) :
    option Monitor :=
  m ← add_to_workspace m workspace_idx
        (λ ws, ws_add_tile_to_column ws column_idx tile_idx tile activate);
  if allow_to_activate_workspace && activate then activate_workspace m workspace_idx else Some m.

(** Adds what was removed from another workspace to the workspace [id]. *)
Definition add_removed (m : Monitor) (removed : RemovedTile) (id : N) (activate : ActivateWindow) :
    Fresh Monitor :=
  mon_add_tile m (rt_tile removed) (MonWorkspace id None) activate true (rt_width removed)
    (rt_full_width removed) (rt_floating removed).

(** [move_to_workspace_up] and [move_to_workspace_down], which differ in [new_idx]. *)
Definition move_active_tile_to (m : Monitor) (new_idx : nat) (focus : bool) : Fresh Monitor :=
  let source_workspace_idx := m.(mo_active) in
  if new_idx =? source_workspace_idx then mret m
  else
    target ← lift (m.(mo_workspaces) !! new_idx);
    r ← lift (on_workspace m source_workspace_idx (ws_remove_active_tile g));
    match fst r with
    | None => mret (snd r)
    | Some removed =>
        add_removed (snd r) removed target.(ws_id) (if focus then ActivateYes else ActivateSmart)
    end.

Definition move_to_workspace_up (m : Monitor) (focus : bool) : Fresh Monitor :=
  move_active_tile_to m (m.(mo_active) - 1) focus.

Definition move_to_workspace_down (m : Monitor) (focus : bool) : Fresh Monitor :=
  last ← lift (last_idx m);
  move_active_tile_to m (Nat.min (m.(mo_active) + 1) last) focus.

Definition mon_active_window (m : Monitor) : option (option N) :=
  ws ← m.(mo_workspaces) !! m.(mo_active); Some (ws_active_window ws).

Definition move_to_workspace (m : Monitor) (window : option N) (idx : nat)
    (activate : ActivateWindow) : Fresh Monitor :=
  source_workspace_idx ←
    lift match window with
         | Some window => ws_position m (λ ws, has_window ws window)
         | None => Some m.(mo_active)
         end;
  last ← lift (last_idx m);
  let new_idx := Nat.min idx last in
  if new_idx =? source_workspace_idx then mret m
  else
    target ← lift (m.(mo_workspaces) !! new_idx);
    activate ←
      lift (map_smart activate
              match window with
              | None => Some true
              | Some win => (λ active, bool_decide (active = Some win)) <$> mon_active_window m
              end);
    r ← lift (on_workspace m source_workspace_idx
                (λ ws, match window with
                       | Some window => r ← ws_remove_tile g ws window; Some (Some (fst r), snd r)
                       | None => ws_remove_active_tile g ws
                       end));
    match fst r with
    | None => mret (snd r)
    | Some removed =>
        m ← add_removed (snd r) removed target.(ws_id) (if activate : bool then ActivateYes else ActivateNo);
        lift (clean_up_if_settled m)
    end.

(** Moves the active column, or the active floating window by [float]. *)
Definition move_active_column_to (m : Monitor) (new_idx : nat) (activate : bool)
    (float : Fresh Monitor) : Fresh Monitor :=
  let source_workspace_idx := m.(mo_active) in
  if new_idx =? source_workspace_idx then mret m
  else
    source ← lift (m.(mo_workspaces) !! source_workspace_idx);
    if floating_active source then float
    else
      r ← lift (on_workspace m source_workspace_idx ws_remove_active_column);
      match fst r with
      | None => mret (snd r)
      | Some column => mon_add_column (snd r) new_idx column activate
      end.

Definition move_column_to_workspace_up (m : Monitor) (activate : bool) : Fresh Monitor :=
  move_active_column_to m (m.(mo_active) - 1) activate (move_to_workspace_up m activate).

Definition move_column_to_workspace_down (m : Monitor) (activate : bool) : Fresh Monitor :=
  last ← lift (last_idx m);
  move_active_column_to m (Nat.min (m.(mo_active) + 1) last) activate
    (move_to_workspace_down m activate).

Definition move_column_to_workspace (m : Monitor) (idx : nat) (activate : bool) : Fresh Monitor :=
  last ← lift (last_idx m);
  move_active_column_to m (Nat.min idx last) activate
    (move_to_workspace m None idx (if activate then ActivateSmart else ActivateNo)).

(** The part of [Layout::remove_window] that concerns the monitor of the window. *)
Definition mon_remove_window (m : Monitor) (window : N) : option (option (RemovedTile * Monitor)) :=
  match ws_position m (λ ws, has_window ws window) with
  | None => Some None
  | Some idx =>
      r ← on_workspace m idx (λ ws, ws_remove_tile g ws window);
      let '(removed, m) := r in
      ws ← m.(mo_workspaces) !! idx;
      last ← last_idx m;
      m ← (if negb (has_windows_or_name ws) && negb (idx =? m.(mo_active)) && negb (idx =? last)
              && settled m
           then r ← vec_remove idx m.(mo_workspaces);
                let m := set_mo_workspaces (snd r) m in
                Some (if idx <? m.(mo_active) then set_mo_active (m.(mo_active) - 1) m else m)
           else Some m);
      m ← (if settled m then collapse_empty m else Some m);
      Some (Some (removed, m))
  end.

End windows.

(** ** Switching *)

(** During a drag-and-drop scroll the apparent workspace counts. *)
Definition dnd_current (m : Monitor) : option f64 :=
  match m.(mo_switch) with
  | Some (SwitchGesture gesture) => if gesture.(wg_dnd) then Some gesture.(wg_current) else None
  | _ => None
  end.

Definition clamped_index (new : f64) (last : nat) : option nat :=
  x ← f64_clamp new f64_zero (f64_of_nat last); Some (f64_as_usize x).

Definition switch_workspace_up (m : Monitor) : option Monitor :=
  new_idx ← match dnd_current m with
            | Some current =>
                last ← last_idx m; clamped_index (f64_sub (f64_ceil current) f64_one) last
            | None => Some (m.(mo_active) - 1)
            end;
  activate_workspace m new_idx.

Definition switch_workspace_down (m : Monitor) : option Monitor :=
  last ← last_idx m;
  new_idx ← match dnd_current m with
            | Some current => clamped_index (f64_add (f64_floor current) f64_one) last
            | None => Some (Nat.min (m.(mo_active) + 1) last)
            end;
  activate_workspace m new_idx.

Definition previous_workspace_idx (m : Monitor) : option nat :=
  id ← m.(mo_previous); ws_position m (λ ws, N.eqb ws.(ws_id) id).

Definition switch_workspace (m : Monitor) (idx : nat) : option Monitor :=
  last ← last_idx m; activate_workspace m (Nat.min idx last).

Definition switch_workspace_auto_back_and_forth (m : Monitor) (idx : nat) : option Monitor :=
  last ← last_idx m;
  let idx := Nat.min idx last in
  if idx =? m.(mo_active) then
    match previous_workspace_idx m with
    | Some prev_idx => switch_workspace m prev_idx
    | None => Some m
    end
  else switch_workspace m idx.

Definition switch_workspace_previous (m : Monitor) : option Monitor :=
  match previous_workspace_idx m with Some idx => switch_workspace m idx | None => Some m end.

(** An operation of the active workspace, then of the monitor when it did not apply. *)
Definition active_or {A} (m : Monitor) (f : Workspace → option (Workspace * bool))
    (ret : Monitor → A) (otherwise : Monitor → A) : option A :=
  r ← on_workspace m m.(mo_active) (λ ws, r ← f ws; Some (snd r, fst r));
  Some (if fst r : bool then ret (snd r) else otherwise (snd r)).

Definition move_down_or_to_workspace_down parent_of g (m : Monitor) : Fresh Monitor :=
  k ← lift (active_or m ws_move_down mret (λ m, move_to_workspace_down parent_of g m true)); k.
Definition move_up_or_to_workspace_up parent_of g (m : Monitor) : Fresh Monitor :=
  k ← lift (active_or m ws_move_up mret (λ m, move_to_workspace_up parent_of g m true)); k.
Definition focus_window_or_workspace_down parent_of g (m : Monitor) : option Monitor :=
  k ← active_or m (ws_focus_down parent_of g) Some switch_workspace_down; k.
Definition focus_window_or_workspace_up parent_of g (m : Monitor) : option Monitor :=
  k ← active_or m (ws_focus_up parent_of g) Some switch_workspace_up; k.

(** [done] tells whether the animation of the switch has ended. *)
Definition mon_advance_animations (m : Monitor) (done : bool) : option Monitor :=
  match m.(mo_switch) with
  | Some (SwitchAnimation _) => if done then clean_up_workspaces (set_mo_switch None m) else Some m
  | _ => Some m
  end.

(** ** Configuration *)
Definition mon_update_config (m : Monitor) (base_options : Options) : Fresh Monitor :=
  let options := with_merged_layout base_options m.(mo_layout_config) in
  let above_first := options.(opt_empty_workspace_above_first) in
  m ← (if negb (Bool.eqb (mo_above_first m) above_first) && (1 <? mo_count m) then
         if above_first then add_workspace_top m
         else if settled m && negb (m.(mo_active) =? 0) then
           r ← lift (vec_remove 0 m.(mo_workspaces));
           mret (set_mo_active (m.(mo_active) - 1) (set_mo_workspaces (snd r) m))
         else mret m
       else mret m);
  let m := set_mo_workspaces (ws_update_config options <$> m.(mo_workspaces)) m in
  mret (set_mo_options base_options options m).

Definition mon_update_layout_config (m : Monitor) (layout_config : option LayoutPart) :
    Fresh (Monitor * bool) :=
  if decide (m.(mo_layout_config) = layout_config) then mret (m, false)
  else
    m ← mon_update_config (set_mo_layout_config layout_config m) m.(mo_base_options);
    mret (m, true).

(** ** Reordering *)

(** The end of [move_workspace_down] and [move_workspace_up]. *)
Definition settle_moved (m : Monitor) (new_idx : nat) : option Monitor :=
  let previous_workspace_id := m.(mo_previous) in
  m ← activate_workspace m new_idx;
  clean_up_workspaces (set_mo_previous previous_workspace_id (set_mo_switch None m)).

Definition move_workspace_down (m : Monitor) : Fresh Monitor :=
  last ← lift (last_idx m);
  let new_idx := Nat.min (m.(mo_active) + 1) last in
  if new_idx =? m.(mo_active) then mret m
  else
    workspaces ← lift (vec_swap m.(mo_active) new_idx m.(mo_workspaces));
    let m := set_mo_workspaces workspaces m in
    r ← pad m (new_idx =? last) (λ m, m.(mo_active) =? 0) new_idx;
    lift (settle_moved (fst r) (snd r)).

Definition move_workspace_up (m : Monitor) : Fresh Monitor :=
  let new_idx := m.(mo_active) - 1 in
  if new_idx =? m.(mo_active) then mret m
  else
    workspaces ← lift (vec_swap m.(mo_active) new_idx m.(mo_workspaces));
    let m := set_mo_workspaces workspaces m in
    last ← lift (last_idx m);
    r ← pad m (m.(mo_active) =? last) (λ _, new_idx =? 0) new_idx;
    lift (settle_moved (fst r) (snd r)).

(** The active index after the workspace at [old_idx] went to [new_idx]. *)
Definition active_after_move (active old_idx new_idx : nat) : nat :=
  if active =? old_idx then new_idx
  else if (new_idx <=? active) && (active <? old_idx) then active + 1
  else if (active <=? new_idx) && (old_idx <? active) then active - 1
  else active.

Definition move_workspace_to_idx (m : Monitor) (old_idx new_idx : nat) : Fresh Monitor :=
  if mo_count m <=? old_idx then mret m
  else
    last ← lift (last_idx m);
    let new_idx := Nat.min new_idx last in
    if old_idx =? new_idx then mret m
    else
      removed ← lift (vec_remove old_idx m.(mo_workspaces));
      workspaces ← lift (vec_insert new_idx (fst removed) (snd removed));
      let m := set_mo_workspaces workspaces m in
      r ← (if old_idx <? new_idx
           then pad m (new_idx =? last) (λ _, old_idx =? 0) new_idx
           else pad m (old_idx =? last) (λ _, new_idx =? 0) new_idx);
      let '(m, new_idx) := r in
      let m := set_mo_active (active_after_move m.(mo_active) old_idx new_idx) m in
      lift (clean_up_workspaces (set_mo_switch None m)).

(** ** Gestures *)

(** [render_idx] is where the view is now. *)
Definition workspace_switch_gesture_begin (m : Monitor) (render_idx : f64) (is_touchpad : bool) :
    Monitor :=
  set_mo_switch (Some (SwitchGesture
    (MkGesture m.(mo_active) render_idx render_idx is_touchpad (negb m.(mo_overview_open)) false))) m.

Definition mon_dnd_scroll_gesture_begin (m : Monitor) (render_idx : f64) : Monitor :=
  match dnd_current m with
  | Some _ => m
  | None =>
      if m.(mo_overview_open) then
        set_mo_switch (Some (SwitchGesture
          (MkGesture m.(mo_active) render_idx render_idx false false true))) m
      else m
  end.

(** [RubberBand]. *)
Record RubberBand := MkRubberBand { rb_stiffness : f64; rb_limit : f64 }.

Definition band (r : RubberBand) (x : f64) : f64 :=
  let c := r.(rb_stiffness) in
  let d := r.(rb_limit) in
  f64_mul (f64_sub f64_one (f64_div f64_one (f64_add (f64_div (f64_mul x c) d) f64_one))) d.

Definition band_clamp (r : RubberBand) (min max x : f64) : option f64 :=
  clamped ← f64_clamp x min max;
  let sign := if f64_ltb x clamped then f64_of_Z (-1) else f64_one in
  let diff := f64_abs (f64_sub x clamped) in
  Some (f64_add clamped (f64_mul sign (band r diff))).

Definition WORKSPACE_GESTURE_RUBBER_BAND : RubberBand :=
  MkRubberBand (f64_div (f64_of_Z 1) (f64_of_Z 2)) (f64_div (f64_of_Z 5) (f64_of_Z 100)).

Definition set_wg_current x (gesture : WorkspaceSwitchGesture) : WorkspaceSwitchGesture :=
  MkGesture gesture.(wg_center) gesture.(wg_start) x gesture.(wg_touchpad) gesture.(wg_clamped)
    gesture.(wg_dnd).

(** [pos] is the position of the tracker over the height of a workspace, after the movement. *)
Definition workspace_switch_gesture_update (m : Monitor) (zoom pos : f64) (is_touchpad : bool) :
    option (Monitor * option bool) :=
  match m.(mo_switch) with
  | Some (SwitchGesture gesture) =>
      if negb (Bool.eqb gesture.(wg_touchpad) is_touchpad) || gesture.(wg_dnd) then Some (m, None)
      else
        let rubber_band :=
          MkRubberBand WORKSPACE_GESTURE_RUBBER_BAND.(rb_stiffness)
            (f64_div WORKSPACE_GESTURE_RUBBER_BAND.(rb_limit) zoom) in
        let '(min, max) := min_max gesture (mo_count m) in
        new_idx ← band_clamp rubber_band min max (f64_add gesture.(wg_start) pos);
        if f64_eqb gesture.(wg_current) new_idx then Some (m, Some false)
        else Some (set_mo_switch (Some (SwitchGesture (set_wg_current new_idx gesture))) m, Some true)
  | _ => Some (m, None)
  end.

(** The end of [dnd_scroll_gesture_scroll], once the scroll is due: [pos] as above. *)
Definition dnd_scroll_to (m : Monitor) (pos : f64) : option Monitor :=
  match m.(mo_switch) with
  | Some (SwitchGesture gesture) =>
      if gesture.(wg_dnd) then
        let unclamped := f64_add gesture.(wg_start) pos in
        let '(min, max) := min_max gesture (mo_count m) in
        clamped ← f64_clamp unclamped min max;
        Some (set_mo_switch (Some (SwitchGesture
          (MkGesture gesture.(wg_center) (f64_add gesture.(wg_start) (f64_sub clamped unclamped))
             clamped gesture.(wg_touchpad) gesture.(wg_clamped) true))) m)
      else Some m
  | _ => Some m
  end.

(** [pos] is the projected end position of the tracker over the height of a workspace. *)
Definition workspace_switch_gesture_end (m : Monitor) (pos : f64) (is_touchpad : option bool) :
    option (Monitor * bool) :=
  match m.(mo_switch) with
  | Some (SwitchGesture gesture) =>
      if match is_touchpad with Some x => negb (Bool.eqb gesture.(wg_touchpad) x) | None => false end
      then Some (m, false)
      else
        let '(min, max) := min_max gesture (mo_count m) in
        new_idx ← f64_clamp (f64_add gesture.(wg_start) pos) min max;
        let new_idx := f64_as_usize (f64_round new_idx) in
        m ← remember_previous m new_idx;
        Some (set_mo_switch (Some (SwitchAnimation new_idx)) (set_mo_active new_idx m), true)
  | _ => Some (m, false)
  end.

Definition mon_dnd_scroll_gesture_end (m : Monitor) (pos : f64) : option Monitor :=
  match dnd_current m with
  | None => Some m
  | Some _ => r ← workspace_switch_gesture_end m pos None; Some (fst r)
  end.
