(* ===== verification/LayoutMonitorOps.v ===== *)
(** * Monitors: the invariant and the building blocks

    What [Monitor::verify_invariants] checks, split into the contents of the stack of workspaces
    ([stack_ok]) and its shape: the weak shape that holds in the middle of operations and the full
    shape that cleaning up establishes. *)
From S2P Require Import Prelude Float64 FloatRound LayoutScrolling LayoutFloating LayoutOutput LayoutWorkspace LayoutWorkspaceOps LayoutWorkspaceProps LayoutMonitor.

(** ** Reasoning in the monad *)
Definition wp {A} (o : Fresh A) (Q : A → N → Prop) (c : N) : Prop :=
  ∃ a c', o c = Some (a, c') ∧ Q a c'.

Lemma wp_ret {A} (a : A) Q c : Q a c → wp (mret a) Q c.
Proof. intros H. by exists a, c. Qed.

Lemma wp_bind {A B} (o : Fresh A) (f : A → Fresh B) Q c :
  wp o (λ a c', wp (f a) Q c') c → wp (o ≫= f) Q c.
Proof.
  intros (a & c1 & E & b & c2 & E2 & HQ). exists b, c2. split; [|done].
  unfold mbind, Fresh_bind. by rewrite E.
Qed.

Lemma wp_lift {A} (o : option A) Q c : runs o (λ a, Q a c) → wp (lift o) Q c.
Proof. intros (a & -> & HQ). by exists a, c. Qed.

Lemma wp_weaken {A} (o : Fresh A) P Q c :
  wp o P c → (∀ a c', P a c' → Q a c') → wp o Q c.
Proof. intros (a & c' & E & HP) HPQ. exists a, c'. auto. Qed.

(** The counter is far from its bound; workspace indices are then exact doubles. *)
Definition room (k c : N) : Prop := (c + k < 2 ^ 53)%N.

Lemma wp_next_id k Q c : room (N.succ k) c → Q c (c + 1)%N → wp next_id Q c.
Proof.
  intros Hr HQ. exists c, (c + 1)%N. split; [|done]. unfold next_id, room in *.
  by rewrite wrapping_add_u64_below by (unfold u64_max; lia).
Qed.

(** ** Contents *)
Definition vacant (ws : Workspace) : Prop := has_windows_or_name ws = false.
Definition occupied (ws : Workspace) : Prop := has_windows_or_name ws = true.

Record ws_on par (out : OutputName) (opts : Options) (ws : Workspace) : Prop := {
  won_ok : workspace_ok par ws;
  won_options : ws.(ws_base_options) = opts;
  won_output : ws.(ws_output) = Some out
}.

Definition wss_windows (l : list Workspace) : list N := l ≫= ws_windows.

Record stack_ok par (out : OutputName) (opts : Options) (c : N) (l : list Workspace) : Prop := {
  so_on : Forall (ws_on par out opts) l;
  so_ids : NoDup (ws_id <$> l);
  so_fresh : Forall (λ ws, (ws.(ws_id) < c)%N) l;
  so_windows : NoDup (wss_windows l)
}.

Lemma vacant_windows ws : vacant ws → ws_windows ws = [].
Proof.
  unfold vacant, has_windows_or_name. intros [Hw _]%orb_false_iff.
  destruct (ws_windows ws) eqn:E; [done|]. rewrite (proj2 (has_windows_spec ws)) in Hw; [done|].
  by rewrite E.
Qed.

Lemma occupied_by_window ws : ws_windows ws ≠ [] → occupied ws.
Proof. intros H. unfold occupied, has_windows_or_name. by rewrite (proj2 (has_windows_spec ws)). Qed.

(** The empty workspaces that a monitor keeps at its ends are the output's own. *)
Definition blank (out : OutputName) (ws : Workspace) : Prop :=
  vacant ws ∧ ws.(ws_original_output) = OutputId_new out.

Lemma blank_vacant out ws : blank out ws → vacant ws.
Proof. by intros []. Qed.

Lemma occupied_or_vacant ws : occupied ws ∨ vacant ws.
Proof. unfold occupied, vacant. destruct (has_windows_or_name ws); auto. Qed.

Lemma occupied_not_vacant ws : occupied ws → vacant ws → False.
Proof. unfold occupied, vacant. congruence. Qed.

(** Whether a workspace counts as empty depends on its windows and its name. *)
Lemma occupied_proper ws ws' :
  ws_windows ws' ≡ₚ ws_windows ws → ws'.(ws_name) = ws.(ws_name) →
  has_windows_or_name ws' = has_windows_or_name ws.
Proof.
  intros Hw Hn. unfold has_windows_or_name. rewrite Hn. f_equal.
  apply Bool.eq_iff_eq_true. rewrite !has_windows_spec. by rewrite (perm_nil _ _ Hw).
Qed.

Section stack.
  Context (par : N → option N) (out : OutputName) (opts : Options).
Local Abbreviation stack := (stack_ok par out opts).

#[export] Instance wss_windows_Permutation : Proper ((≡ₚ) ==> (≡ₚ)) wss_windows.
Proof. intros l k H. unfold wss_windows. by rewrite H. Qed.

Lemma wss_windows_app l k : wss_windows (l ++ k) = wss_windows l ++ wss_windows k.
Proof. apply bind_app. Qed.

Lemma stack_permutation c l l' : l ≡ₚ l' → stack c l → stack c l'.
Proof.
  intros H [Hon Hids Hf Hw]. split.
  - by rewrite <- H.
  - by rewrite <- H.
  - by rewrite <- H.
  - by rewrite <- H.
Qed.

Lemma stack_shrink c l k l' : l ≡ₚ k ++ l' → stack c l → stack c l'.
Proof.
  intros H Hs%(stack_permutation _ _ _ H). destruct Hs as [Hon Hids Hf Hw].
  rewrite Forall_app in Hon, Hf. rewrite fmap_app in Hids. rewrite wss_windows_app in Hw.
  apply NoDup_app in Hids as (_ & _ & Hids). apply NoDup_app in Hw as (_ & _ & Hw).
  split; naive_solver.
Qed.

Lemma stack_cons c l ws :
  stack c l → ws_on par out opts ws → (ws.(ws_id) < c)%N → ws.(ws_id) ∉ ws_id <$> l →
  NoDup (ws_windows ws ++ wss_windows l) → stack c (ws :: l).
Proof.
  intros [Hon Hids Hf Hw] Hws Hc Hid Hnd. split; [by constructor|by constructor|by constructor|done].
Qed.

Lemma stack_mono c c' l : (c ≤ c')%N → stack c l → stack c' l.
Proof.
  intros Hc [Hon Hids Hf Hw]. split; [done..| |done]. eapply Forall_impl; [done|]. simpl. lia.
Qed.

(** A workspace made for this output. *)
Lemma stack_new c l idx :
  idx ≤ length l → stack c l →
  stack (c + 1) (take idx l ++ Workspace_new c out opts :: drop idx l).
Proof.
  intros Hidx Hs. eapply stack_permutation; [by rewrite vec_insert_perm|].
  apply stack_cons; [by apply (stack_mono c); [lia|]| |simpl; lia| |by destruct Hs].
  - split; [apply Workspace_new_ok|done|done].
  - destruct Hs as [_ _ Hf _]. intros ([id] & E & Hid)%list_elem_of_fmap. simpl in E.
    rewrite Forall_forall in Hf. apply Hf in Hid. simpl in *. lia.
Qed.

Lemma wss_windows_new c l idx :
  wss_windows (take idx l ++ Workspace_new c out opts :: drop idx l) = wss_windows l.
Proof.
  rewrite wss_windows_app. change (wss_windows (?x :: ?k)) with (ws_windows x ++ wss_windows k).
  cbn. by rewrite <- wss_windows_app, take_drop.
Qed.

Lemma Workspace_new_blank c : blank out (Workspace_new c out opts).
Proof. done. Qed.

(** The number of workspaces is below the counter. *)
Lemma stack_length c l : stack c l → (N.of_nat (length l) ≤ c)%N.
Proof.
  intros [_ Hids Hf _].
  assert (Hl : length (N.to_nat <$> (ws_id <$> l)) ≤ length (seq 0 (N.to_nat c))).
  { apply submseteq_length, NoDup_submseteq.
    - apply NoDup_fmap_2; [apply _|done].
    - intros i (id & -> & (ws & -> & Hws)%list_elem_of_fmap)%list_elem_of_fmap.
      rewrite Forall_forall in Hf. apply Hf in Hws. apply elem_of_seq. lia. }
  rewrite !length_fmap, length_seq in Hl. lia.
Qed.

(** Changing one workspace. *)
Lemma insert_split (l : list Workspace) i ws ws' :
  l !! i = Some ws → ∃ rest, l ≡ₚ ws :: rest ∧ <[i:=ws']> l ≡ₚ ws' :: rest.
Proof.
  intros Hi. exists (take i l ++ drop (S i) l). split; [by apply vec_remove_perm|].
  apply lookup_lt_Some in Hi as Hlt. rewrite insert_take_drop by done. by rewrite Permutation_middle.
Qed.

Lemma stack_update c l i ws ws' :
  stack c l → l !! i = Some ws → ws_on par out opts ws' → ws'.(ws_id) = ws.(ws_id) →
  (∀ rest, l ≡ₚ ws :: rest → NoDup (ws_windows ws' ++ wss_windows rest)) →
  stack c (<[i:=ws']> l).
Proof.
  intros Hs Hi Hon Hid Hnd. destruct (insert_split l i ws ws' Hi) as (rest & Hl & Hl').
  apply (stack_permutation c (ws' :: rest)); [by symmetry|].
  pose proof (stack_permutation _ _ _ Hl Hs) as [Hon' Hids Hf Hw].
  apply Forall_cons in Hf as [Hf1 Hf2]. rewrite fmap_cons in Hids.
  apply NoDup_cons in Hids as [Hids1 Hids2].
  apply stack_cons; [by apply (stack_shrink c l [ws])|done|lia|by rewrite Hid|by apply Hnd].
Qed.

(** A workspace that lost windows. *)
Lemma stack_removed c l i ws ws' k :
  stack c l → l !! i = Some ws → removed_windows par k ws ws' →
  stack c (<[i:=ws']> l) ∧ wss_windows l ≡ₚ k ++ wss_windows (<[i:=ws']> l).
Proof.
  intros Hs Hi (Hok & Hw & Hm). destruct (insert_split l i ws ws' Hi) as (rest & Hl & Hl').
  assert (HW : wss_windows l ≡ₚ k ++ wss_windows (<[i:=ws']> l)).
  { rewrite Hl', Hl. cbn. by rewrite Hw, app_assoc. }
  split; [|done]. injection Hm as Hid Hname Horig Ho Hb _ _.
  eapply (stack_update _ _ _ ws); [done..| |done|].
  - pose proof (so_on _ _ _ _ _ Hs) as Hon. rewrite Forall_lookup in Hon.
    destruct (Hon _ _ Hi) as [_ H1 H2]. split; [done|by rewrite Hb|by rewrite Ho].
  - intros rest' Hr. pose proof (so_windows _ _ _ _ _ Hs) as Hnd. rewrite Hr in Hnd. cbn in Hnd.
    rewrite Hw, <- app_assoc in Hnd. by apply NoDup_app in Hnd as (_ & _ & ?).
Qed.

(** A workspace that got windows and became the output's own. *)
Lemma stack_added c l i ws ws' k :
  stack c l → l !! i = Some ws → added_windows par k ws ws' → NoDup (k ++ wss_windows l) →
  stack c (<[i:=own_workspace out ws']> l) ∧
  wss_windows (<[i:=own_workspace out ws']> l) ≡ₚ k ++ wss_windows l.
Proof.
  intros Hs Hi (Hok & Hw & Hm) Hnd.
  destruct (insert_split l i ws (own_workspace out ws') Hi) as (rest & Hl & Hl').
  assert (Hwin : ws_windows (own_workspace out ws') = ws_windows ws')
    by (unfold own_workspace; by destruct (ws_name ws')).
  assert (HW : wss_windows (<[i:=own_workspace out ws']> l) ≡ₚ k ++ wss_windows l).
  { rewrite Hl', Hl. cbn. by rewrite Hwin, Hw, app_assoc. }
  split; [|done]. injection Hm as Hid Hname Horig Ho Hb _ _.
  eapply (stack_update _ _ _ ws); [done..| | |].
  - pose proof (so_on _ _ _ _ _ Hs) as Hon. rewrite Forall_lookup in Hon.
    destruct (Hon _ _ Hi) as [_ H1 H2]. unfold own_workspace. destruct (ws_name ws').
    + split; [done|by rewrite Hb|by rewrite Ho].
    + split; [by destruct Hok|by rewrite <- Hb in H1|by rewrite <- Ho in H2].
  - unfold own_workspace. by destruct (ws_name ws').
  - intros rest' Hr. rewrite Hwin, Hw, <- app_assoc. rewrite Hr in Hnd. by cbn in Hnd.
Qed.

End stack.

(** What a workspace is known by. Its monitor may take the name away or make the workspace its own. *)
Record descends (out : OutputName) (ws ws' : Workspace) : Prop := {
  de_id : ws'.(ws_id) = ws.(ws_id);
  de_name : ws'.(ws_name) = ws.(ws_name) ∨ ws'.(ws_name) = None;
  de_original : ws'.(ws_original_output) = ws.(ws_original_output) ∨
                ws'.(ws_original_output) = OutputId_new out
}.

Lemma descends_refl out ws : descends out ws ws.
Proof. split; auto. Qed.

Lemma descends_trans out ws1 ws2 ws3 :
  descends out ws1 ws2 → descends out ws2 ws3 → descends out ws1 ws3.
Proof. intros [I1 N1 O1] [I2 N2 O2]. split; [congruence|intuition congruence..]. Qed.

Lemma meta_descends out ws ws' : ws_meta ws' = ws_meta ws → descends out ws ws'.
Proof. intros [= E1 E2 E3 _ _ _ _]. split; auto. Qed.

Lemma own_descends out ws ws' : descends out ws ws' → descends out ws (own_workspace out ws').
Proof.
  intros [I N O]. unfold own_workspace. destruct (ws_name ws') eqn:E; split; cbn; rewrite ?E; auto.
Qed.

(** The workspaces of [l'] descend from those of [l], or are blank with ids drawn since the counter
    was [c]. *)
Definition new_ids (out : OutputName) (c : N) (l : list Workspace) (c' : N) (l' : list Workspace) : Prop :=
  ∀ ws', ws' ∈ l' → (∃ ws, ws ∈ l ∧ descends out ws ws') ∨
    (c ≤ ws'.(ws_id) < c')%N ∧ ws'.(ws_name) = None ∧ ws'.(ws_original_output) = OutputId_new out.

Lemma new_ids_id out c l c' l' id :
  new_ids out c l c' l' → id ∈ ws_id <$> l' → id ∈ ws_id <$> l ∨ (c ≤ id < c')%N.
Proof.
  intros H (ws' & -> & [(ws & Hws & [-> _ _])|[Hc _]]%H)%list_elem_of_fmap; [left|by right].
  by apply list_elem_of_fmap_2.
Qed.

Lemma new_ids_fmap out c l c' f :
  (∀ ws, ws ∈ l → descends out ws (f ws)) → new_ids out c l c' (f <$> l).
Proof. intros Hf ws' (ws & -> & Hws)%list_elem_of_fmap. left. eauto. Qed.

Lemma new_ids_gone out c l c' k l' : l ≡ₚ k ++ l' → new_ids out c l c' l'.
Proof.
  intros H ws Hws. left. exists ws. split; [|apply descends_refl]. rewrite H. apply elem_of_app. by right.
Qed.

Lemma new_ids_perm out c l c' l' : l' ≡ₚ l → new_ids out c l c' l'.
Proof. intros H. by apply (new_ids_gone out c l c' []). Qed.

(** Id, name and output of a workspace. *)
Definition ws_tag (ws : Workspace) := (ws.(ws_id), ws.(ws_name), ws.(ws_original_output)).

Lemma meta_tag ws ws' : ws_meta ws' = ws_meta ws → ws_tag ws' = ws_tag ws.
Proof. unfold ws_tag. by intros [= -> -> -> _ _ _ _]. Qed.

Lemma tag_descends out ws ws' : ws_tag ws' = ws_tag ws → descends out ws ws'.
Proof. intros [= E1 E2 E3]. split; auto. Qed.

Lemma tags_ids (l l' : list Workspace) : ws_tag <$> l' = ws_tag <$> l → ws_id <$> l' = ws_id <$> l.
Proof.
  intros E. assert (H : ∀ k : list Workspace, ws_id <$> k = (λ t, t.1.1) <$> (ws_tag <$> k)).
  { intros k. by rewrite <- list_fmap_compose. }
  by rewrite !H, E.
Qed.

Lemma tags_lookup (l l' : list Workspace) ws :
  ws_tag <$> l' = ws_tag <$> l → ws ∈ l' → ∃ w, w ∈ l ∧ ws_tag ws = ws_tag w.
Proof.
  intros E Hws. apply (list_elem_of_fmap_2 ws_tag) in Hws. rewrite E in Hws.
  apply list_elem_of_fmap in Hws as (w & Hw & Hin). eauto.
Qed.

Lemma tags_insert (l : list Workspace) i ws ws' :
  l !! i = Some ws → ws_tag ws' = ws_tag ws → ws_tag <$> <[i:=ws']> l = ws_tag <$> l.
Proof. intros Hi E. rewrite list_fmap_insert, E. apply list_insert_id. by rewrite list_lookup_fmap, Hi. Qed.

Lemma new_ids_same out c l c' l' : ws_tag <$> l' = ws_tag <$> l → new_ids out c l c' l'.
Proof.
  intros E ws' Hws. destruct (tags_lookup _ _ _ E Hws) as (w & Hw & Et). left. exists w.
  split; [done|]. by apply tag_descends.
Qed.

Lemma new_ids_refl out c l c' : new_ids out c l c' l.
Proof. by apply new_ids_perm. Qed.

Lemma new_ids_trans out c l c1 l1 c2 l2 :
  (c ≤ c1 ≤ c2)%N → new_ids out c l c1 l1 → new_ids out c1 l1 c2 l2 → new_ids out c l c2 l2.
Proof.
  intros Hc H1 H2 ws' [(ws & Hws & D)|(? & ? & ?)]%H2; [|right; split_and!; (done || lia)].
  apply H1 in Hws as [(ws0 & Hws0 & D0)|(? & Hn & Ho)].
  - left. exists ws0. split; [done|]. by eapply descends_trans.
  - right. destruct D as [-> Hn' Ho']. rewrite Hn in Hn'. rewrite Ho in Ho'. split_and!; [lia|lia|naive_solver..].
Qed.

Lemma new_ids_app out c l k c' l' k' :
  new_ids out c l c' l' → new_ids out c k c' k' → new_ids out c (l ++ k) c' (l' ++ k').
Proof.
  intros H1 H2 x [Hx|Hx]%elem_of_app; [apply H1 in Hx|apply H2 in Hx];
    (destruct Hx as [(ws & Hws & D)|Hx]; [left; exists ws; split; [set_solver|done]|by right]).
Qed.

Lemma new_ids_one out c c' ws ws' : descends out ws ws' → new_ids out c [ws] c' [ws'].
Proof. intros H x ->%list_elem_of_singleton. left. exists ws. split; [left|done]. Qed.

(** The order of the workspaces does not matter. *)
#[export] Instance new_ids_Permutation out c : Proper ((≡ₚ) ==> eq ==> (≡ₚ) ==> iff) (new_ids out c).
Proof.
  intros l1 l2 Hl c1 c2 -> k1 k2 Hk. unfold new_ids.
  setoid_rewrite Hl. by setoid_rewrite Hk.
Qed.

(** One workspace is replaced. *)
Lemma new_ids_update out c l c' i ws ws' :
  l !! i = Some ws → descends out ws ws' → new_ids out c l c' (<[i:=ws']> l).
Proof.
  intros Hi Hd x [j Hj]%list_elem_of_lookup. left.
  apply list_lookup_insert_Some in Hj as [(-> & -> & _)|[_ Hj]].
  - exists ws. split; [by eapply list_elem_of_lookup_2|done].
  - exists x. split; [by eapply list_elem_of_lookup_2|apply descends_refl].
Qed.

Lemma new_ids_from_same out c l k c' l' :
  ws_tag <$> l = ws_tag <$> k → new_ids out c l c' l' → new_ids out c k c' l'.
Proof.
  intros E H ws' [(ws & Hws & D)|Hn]%H; [left|by right].
  destruct (tags_lookup _ _ _ E Hws) as (w & Hw & Et). exists w. split; [done|].
  eapply descends_trans; [by apply tag_descends|done].
Qed.

(** A workspace replaced by one with the same id. *)
Lemma ids_insert (l : list Workspace) i ws ws' :
  l !! i = Some ws → ws'.(ws_id) = ws.(ws_id) → ws_id <$> <[i:=ws']> l = ws_id <$> l.
Proof. intros Hi E. rewrite list_fmap_insert, E. apply list_insert_id. by rewrite list_lookup_fmap, Hi. Qed.

Lemma meta_id ws ws' : ws_meta ws' = ws_meta ws → ws'.(ws_id) = ws.(ws_id).
Proof. by intros [=]. Qed.

Lemma new_ids_insert c l idx out opts :
  new_ids out c l (c + 1) (take idx l ++ Workspace_new c out opts :: drop idx l).
Proof.
  intros ws. rewrite vec_insert_perm, elem_of_cons. intros [->|H].
  - right. cbn. split_and!; [lia|lia|done|done].
  - left. exists ws. split; [done|apply descends_refl].
Qed.

(** ** Shape *)
Definition range_start (m : Monitor) : nat := if mo_above_first m then 1 else 0.

Definition switch_ok (m : Monitor) : Prop :=
  match m.(mo_switch) with
  | None => True
  | Some (SwitchAnimation to) => to = m.(mo_active)
  | Some (SwitchGesture gesture) =>
      gesture.(wg_center) < mo_count m ∧ f64_ok gesture.(wg_start) ∧ f64_ok gesture.(wg_current)
  end.

(** The workspaces at the ends are empty, except that the one at [skip] may have been filled. *)
Record ends_ok (skip : option nat) (m : Monitor) : Prop := {
  eo_active : m.(mo_active) < mo_count m;
  eo_last ws : m.(mo_workspaces) !! (mo_count m - 1) = Some ws → skip ≠ Some (mo_count m - 1) →
    blank m.(mo_output) ws;
  eo_first ws : mo_above_first m = true → m.(mo_workspaces) !! 0 = Some ws → skip ≠ Some 0 → blank m.(mo_output) ws;
  eo_count : mo_above_first m = true → mo_count m ≠ 2
}.

(** Between the ends only the active workspace, and the one at [skip], may be empty. *)
Definition middle_ok (skip : option nat) (m : Monitor) : Prop :=
  ∀ i ws, range_start m ≤ i → S i < mo_count m → i ≠ m.(mo_active) → skip ≠ Some i →
    m.(mo_workspaces) !! i = Some ws → occupied ws.

Record mon_shape (m : Monitor) : Prop := {
  sh_ends : ends_ok None m;
  sh_middle : m.(mo_switch) = None → middle_ok None m;
  sh_switch : switch_ok m
}.

Record weak_shape (m : Monitor) : Prop := {
  wk_active : m.(mo_active) < mo_count m;
  wk_last ws : m.(mo_workspaces) !! (mo_count m - 1) = Some ws → blank m.(mo_output) ws;
  wk_first ws : mo_above_first m = true → m.(mo_workspaces) !! 0 = Some ws → blank m.(mo_output) ws
}.

(** The fields that no operation on workspaces changes. *)
Definition mo_meta (m : Monitor) :=
  (m.(mo_output), m.(mo_base_options), m.(mo_options), m.(mo_layout_config), m.(mo_overview_open)).

Lemma last_idx_some m : 0 < mo_count m → last_idx m = Some (mo_count m - 1).
Proof. unfold last_idx. destruct (mo_count m); intros; [lia|]. f_equal. lia. Qed.

Lemma lookup_workspace m i : i < mo_count m → ∃ ws, m.(mo_workspaces) !! i = Some ws.
Proof. apply lookup_lt_is_Some_2. Qed.

(** ** Cleaning up *)

(** Between the first [s] and the last workspace, from [k] on, only the active one is empty. *)
Definition occupied_from (k : nat) (l : list Workspace) (active : nat) : Prop :=
  ∀ i ws, k ≤ i → S i < length l → i ≠ active → l !! i = Some ws → occupied ws.

(** How cleaning up changed the stack [l]: some empty workspaces are gone. *)
Record cleaned (s : nat) (l : list Workspace) (active : nat) (l' : list Workspace) (active' : nat) : Prop := {
  cl_gone : ∃ k, l ≡ₚ k ++ l';
  cl_windows : wss_windows l' = wss_windows l;
  cl_active : l' !! active' = l !! active;
  cl_first i : i < s → l' !! i = l !! i;
  cl_length : s < length l';
  cl_last : l' !! (length l' - 1) = l !! (length l - 1)
}.

Lemma cleaned_refl s l active : s < length l → cleaned s l active l active.
Proof. intros. split; try done. by exists []. Qed.

Lemma cleaned_trans s l1 a1 l2 a2 l3 a3 :
  cleaned s l1 a1 l2 a2 → cleaned s l2 a2 l3 a3 → cleaned s l1 a1 l3 a3.
Proof.
  intros [[k1 G1] W1 A1 F1 L1 E1] [[k2 G2] W2 A2 F2 L2 E2]. split.
  - exists (k1 ++ k2). by rewrite G1, G2, app_assoc.
  - by rewrite W2.
  - by rewrite A2.
  - intros. by rewrite F2, F1.
  - done.
  - by rewrite E2.
Qed.

Lemma wss_windows_remove l idx ws :
  l !! idx = Some ws → vacant ws → wss_windows (take idx l ++ drop (S idx) l) = wss_windows l.
Proof.
  intros Hi Hv. rewrite <- (take_drop_middle l idx ws Hi) at 3. rewrite !wss_windows_app.
  f_equal. unfold wss_windows. cbn. by rewrite (vacant_windows ws).
Qed.

(** Removing one empty workspace that is neither active nor last. *)
Lemma remove_cleaned s l active idx ws :
  l !! idx = Some ws → vacant ws → idx ≠ active → s ≤ idx → S idx < length l →
  cleaned s l active (take idx l ++ drop (S idx) l) (if idx <? active then active - 1 else active).
Proof.
  intros Hi Hv Ha Hs Hlt. pose proof (length_vec_remove idx ws l Hi) as Hlen. split.
  - exists [ws]. by apply vec_remove_perm.
  - by eapply wss_windows_remove.
  - destruct (Nat.ltb_spec idx active).
    + rewrite vec_remove_lookup_ge by lia. f_equal. lia.
    + by rewrite vec_remove_lookup_lt by lia.
  - intros i Hlt'. by rewrite vec_remove_lookup_lt by lia.
  - lia.
  - rewrite vec_remove_lookup_ge by lia. f_equal. lia.
Qed.

Lemma clean_up_loop_runs s n l active :
  s + n < length l → occupied_from (s + n) l active →
  runs (clean_up_loop (rev (seq s n)) l active) (λ r,
    cleaned s l active (fst r) (snd r) ∧ occupied_from s (fst r) (snd r)).
Proof.
  revert l active. induction n as [|n IH]; intros l active Hn Hocc.
  { apply runs_ret. rewrite Nat.add_0_r in *. split; [by apply cleaned_refl|done]. }
  rewrite seq_S, rev_app_distr. cbn [rev app clean_up_loop].
  assert (Hkeep : (∀ ws, l !! (s + n) = Some ws → s + n ≠ active → occupied ws) →
            occupied_from (s + n) l active).
  { intros Hk i ws Hi Hl Ha Hws. destruct (decide (i = s + n)) as [->|]; [by eapply Hk|].
    eapply Hocc; [|done..]. lia. }
  destruct (Nat.eqb_spec active (s + n)) as [Ha|Ha]; [apply IH; [lia|]; by apply Hkeep|].
  destruct (lookup_lt_is_Some_2 l (s + n)) as [ws Hws]; [lia|]. rewrite Hws. cbn [mbind option_bind].
  destruct (has_windows_or_name ws) eqn:Ho.
  { apply IH; [lia|]. apply Hkeep. congruence. }
  rewrite (vec_remove_ok _ ws) by done. cbn [mbind option_bind snd].
  pose proof (length_vec_remove (s + n) ws l Hws) as Hlen.
  eapply runs_weaken; [apply IH|].
  - lia.
  - intros i w Hi Hl Hia Hw. rewrite vec_remove_lookup_ge in Hw by lia.
    eapply Hocc; [| |  |exact Hw]; [lia|lia|]. destruct (Nat.ltb_spec (s + n) active); lia.
  - intros [l' a'] [Hc Ho']. split; [|done]. eapply cleaned_trans; [|done].
    apply (remove_cleaned s l active (s + n) ws); [done..|lia|lia|lia].
Qed.

(** What cleaning up does to a monitor: the full shape, no window lost, the same workspace active
    unless that was one of two empty ones. *)
Record tidied (m m' : Monitor) : Prop := {
  td_shape : mon_shape m';
  td_gone : ∃ k, m.(mo_workspaces) ≡ₚ k ++ m'.(mo_workspaces);
  td_windows : wss_windows m'.(mo_workspaces) = wss_windows m.(mo_workspaces);
  td_meta : mo_meta m' = mo_meta m;
  td_settled : m'.(mo_switch) = None;
  td_previous : m'.(mo_previous) = m.(mo_previous);
  td_active ws : m.(mo_workspaces) !! m.(mo_active) = Some ws →
    m'.(mo_workspaces) !! m'.(mo_active) = Some ws ∨ vacant ws
}.

Lemma above_first_meta m m' : mo_meta m' = mo_meta m → mo_above_first m' = mo_above_first m.
Proof. intros [=]. unfold mo_above_first. congruence. Qed.

Lemma output_meta m m' : mo_meta m' = mo_meta m → m'.(mo_output) = m.(mo_output).
Proof. by intros [=]. Qed.

(** What a monitor takes over from the layout. *)
Definition mo_kept (m : Monitor) := (m.(mo_output), m.(mo_base_options), m.(mo_overview_open)).

Lemma kept_meta m m' : mo_meta m' = mo_meta m → mo_kept m' = mo_kept m.
Proof. unfold mo_kept. by intros [=-> -> _ _ ->]. Qed.

Lemma kept_output m m' : mo_kept m' = mo_kept m → m'.(mo_output) = m.(mo_output).
Proof. by intros [=]. Qed.

Lemma options_meta m m' : mo_meta m' = mo_meta m → m'.(mo_options) = m.(mo_options).
Proof. by intros [=]. Qed.

(** The two workspaces that are left are both empty. *)
Lemma collapse_empty_runs m :
  weak_shape m → m.(mo_switch) = None → middle_ok None m →
  runs (collapse_empty m) (tidied m).
Proof.
  intros [Ha Hl Hf] Hsw Hm. unfold collapse_empty.
  destruct (mo_above_first m) eqn:Eaf; cbn [andb].
  2:{ apply runs_ret. split; try done; [|by exists []|by left].
      split; [split|..]; try done; [by intros ws ? ?; apply Hl|congruence..| by unfold switch_ok; rewrite Hsw]. }
  destruct (Nat.eqb_spec (mo_count m) 2) as [E2|E2].
  2:{ apply runs_ret. split; try done; [|by exists []|by left].
      split; [split|..]; try done; [by intros ws ? ?; apply Hl|by intros ws ? ? ?; apply Hf| by unfold switch_ok; rewrite Hsw]. }
  destruct m as [o l a p sw ov b op lc]. unfold mo_count in *. cbn in *.
  destruct l as [|x [|y [|]]]; try discriminate E2. cbn in *.
  pose proof (Hf x eq_refl eq_refl) as Bx. pose proof (blank_vacant _ _ Bx) as Hx.
  pose proof (blank_vacant _ _ (Hl y eq_refl)) as Hy. unfold vacant in Hx, Hy. rewrite Hx, Hy. cbn. apply runs_ret.
  split; cbn; try done.
  - split; [split|..]; cbn; try done.
    + lia.
    + by intros ws [= <-].
    + by intros ws _ [= <-].
    + intros _ i ws Hi Hlt. unfold mo_count in Hlt. cbn in Hlt. lia.
    + unfold switch_ok. cbn. by rewrite Hsw.
  - exists [y]. by rewrite Permutation_app_comm.
  - unfold wss_windows. cbn. by rewrite (vacant_windows y).
  - intros ws Hws. right. destruct a as [|[|]]; cbn in Hws; by simplify_eq.
Qed.

Lemma tidied_trans m1 m2 m3 :
  (∃ k, m1.(mo_workspaces) ≡ₚ k ++ m2.(mo_workspaces)) →
  wss_windows m2.(mo_workspaces) = wss_windows m1.(mo_workspaces) →
  mo_meta m2 = mo_meta m1 → m2.(mo_previous) = m1.(mo_previous) →
  m2.(mo_workspaces) !! m2.(mo_active) = m1.(mo_workspaces) !! m1.(mo_active) →
  tidied m2 m3 → tidied m1 m3.
Proof.
  intros [k1 G1] W1 M1 P1 A1 [S [k G] W M N P A]. split; try done; try congruence.
  - exists (k1 ++ k). by rewrite G1, G, app_assoc.
  - intros ws Hws. apply A. congruence.
Qed.

Lemma clean_up_workspaces_runs m :
  weak_shape m → m.(mo_switch) = None → runs (clean_up_workspaces m) (tidied m).
Proof.
  intros Hweak Hsw. pose proof Hweak as [Ha Hl Hf]. unfold clean_up_workspaces, settled.
  rewrite Hsw. cbn [assert mbind option_bind]. rewrite last_idx_some by lia. cbn [mbind option_bind].
  fold (range_start m). set (s := range_start m).
  destruct (decide (s < mo_count m)) as [Hs|Hs].
  - destruct (clean_up_loop_runs s (mo_count m - 1 - s) m.(mo_workspaces) m.(mo_active))
      as ([l' a'] & -> & Hc & Ho).
    { unfold mo_count in *. lia. }
    { intros i ws Hi Hlt. unfold mo_count in *. lia. }
    cbn [mbind option_bind fst snd] in *. destruct Hc as [Hgone Hwin Hact Hfirst Hlen Hlast].
    assert (Ha' : a' < length l').
    { apply lookup_lt_is_Some_1. rewrite Hact. by apply lookup_lt_is_Some_2. }
    eapply runs_weaken; [apply collapse_empty_runs|intros m'; by apply tidied_trans].
    + split; unfold mo_count; cbn; [done| |].
      * intros ws Hws. rewrite Hlast in Hws. by apply Hl.
      * intros ws Haf Hws. rewrite Hfirst in Hws; [by apply Hf|].
        unfold s, range_start. change (mo_above_first m = true) in Haf. rewrite Haf. lia.
    + done.
    + intros i ws Hi Hlt Hne _ Hws. unfold mo_count in Hlt. cbn in *. by eapply (Ho i).
  - assert (Es : s = 1 ∧ mo_count m = 1) by (unfold s, range_start in *; case_match; lia).
    destruct Es as [-> ->]. cbn [rev seq clean_up_loop Nat.sub mbind option_bind fst snd].
    eapply runs_weaken; [apply (collapse_empty_runs)|intros m'; apply tidied_trans; try done; by exists []].
    + by split.
    + done.
    + intros i ws Hi Hlt. unfold mo_count in *. cbn in *. lia.
Qed.

(** ** New workspaces *)

(** [add_workspace_at] once the id is drawn. *)
Definition insert_new (m : Monitor) (idx : nat) (c : N) : Monitor :=
  let ws := Workspace_new c m.(mo_output) m.(mo_options) in
  let switch :=
    match m.(mo_switch) with
    | Some s => Some (if at_or_before_target idx s then switch_offset_1 s else s)
    | None => None
    end in
  MkMonitor m.(mo_output) (take idx m.(mo_workspaces) ++ ws :: drop idx m.(mo_workspaces))
    (if idx <=? m.(mo_active) then m.(mo_active) + 1 else m.(mo_active)) m.(mo_previous) switch
    m.(mo_overview_open) m.(mo_base_options) m.(mo_options) m.(mo_layout_config).

Lemma add_workspace_at_wp m idx Q c :
  idx ≤ mo_count m → room 1 c → Q (insert_new m idx c) (c + 1)%N → wp (add_workspace_at m idx) Q c.
Proof.
  intros Hi Hr HQ. unfold add_workspace_at. apply wp_bind. unfold new_workspace. apply wp_bind.
  apply (wp_next_id 0); [done|]. apply wp_ret, wp_bind, wp_lift.
  rewrite vec_insert_ok by done. apply runs_ret, wp_ret.
  destruct m as [o l a p sw ov b op lc]. unfold insert_new in HQ. cbn in *.
  destruct (idx <=? a); cbn; destruct sw as [s|]; cbn; try done;
    destruct (at_or_before_target idx s); done.
Qed.

Lemma insert_new_count m idx c : idx ≤ mo_count m → mo_count (insert_new m idx c) = S (mo_count m).
Proof. intros. apply length_vec_insert. Qed.

Lemma insert_new_settled m idx c : (insert_new m idx c).(mo_switch) = None ↔ m.(mo_switch) = None.
Proof. unfold insert_new. cbn. by destruct (mo_switch m). Qed.

Lemma f64_one_ok : f64_ok f64_one.
Proof. apply (f64_of_nat_ok 1). Qed.

Lemma insert_new_switch m idx c : idx ≤ mo_count m → switch_ok m → switch_ok (insert_new m idx c).
Proof.
  intros Hi Hs. unfold switch_ok in *. rewrite insert_new_count by done. unfold insert_new. cbn.
  destruct (mo_switch m) as [[to|[center start current t cl dnd]]|]; [| |done]; cbn in *.
  - subst to. by destruct (idx <=? mo_active m).
  - destruct Hs as (Hc & H1 & H2). pose proof f64_one_ok.
    destruct (f64_leb _ current); cbn; auto with cidre lia.
Qed.

(** How padding changes the monitor: [pre] and [post] are the new workspaces. *)
Record padded (m : Monitor) (bottom top : bool) (pre post : list Workspace) (m' : Monitor) : Prop := {
  pd_workspaces : m'.(mo_workspaces) = pre ++ m.(mo_workspaces) ++ post;
  pd_vacant : Forall (blank m.(mo_output)) (pre ++ post);
  pd_pre : length pre = if top then 1 else 0;
  pd_post : length post = if bottom then 1 else 0;
  pd_active : m'.(mo_active) = length pre + m.(mo_active);
  pd_meta : mo_meta m' = mo_meta m;
  pd_previous : m'.(mo_previous) = m.(mo_previous);
  pd_settled : m'.(mo_switch) = None ↔ m.(mo_switch) = None;
  pd_switch : switch_ok m'
}.

Lemma padded_count m bottom top pre post m' :
  padded m bottom top pre post m' → mo_count m' = length pre + mo_count m + length post.
Proof. intros [HW _ _ _ _ _ _ _ _]. unfold mo_count. rewrite HW, !length_app. lia. Qed.

Lemma insert_new_bottom m c : m.(mo_active) < mo_count m →
  (insert_new m (mo_count m) c).(mo_workspaces) =
    m.(mo_workspaces) ++ [Workspace_new c m.(mo_output) m.(mo_options)] ∧
  (insert_new m (mo_count m) c).(mo_active) = m.(mo_active).
Proof.
  intros Ha. unfold insert_new, mo_count in *. cbn. rewrite take_ge, drop_ge by lia. split; [done|].
  destruct (Nat.leb_spec (length (mo_workspaces m)) (mo_active m)); lia.
Qed.

Lemma insert_new_stack par m idx c :
  idx ≤ mo_count m → stack_ok par m.(mo_output) m.(mo_options) c m.(mo_workspaces) →
  stack_ok par m.(mo_output) m.(mo_options) (c + 1) (insert_new m idx c).(mo_workspaces) ∧
  wss_windows (insert_new m idx c).(mo_workspaces) = wss_windows m.(mo_workspaces) ∧
  new_ids m.(mo_output) c m.(mo_workspaces) (c + 1) (insert_new m idx c).(mo_workspaces).
Proof. intros Hi Hs. split_and!; [by apply stack_new|apply wss_windows_new|apply new_ids_insert]. Qed.

Section pad.
  Context (par : N → option N) (m : Monitor) (bottom : bool) (above : Monitor → bool) (idx : nat)
    (Q : Monitor * nat → N → Prop) (c : N).
  Hypothesis Ha : m.(mo_active) < mo_count m.
  Hypothesis Hs : switch_ok m.
  Hypothesis Hr : room 2 c.
  Hypothesis Hst : stack_ok par m.(mo_output) m.(mo_options) c m.(mo_workspaces).
  Hypothesis Habove : above (insert_new m (mo_count m) c) = above m.
Local Abbreviation top := (mo_above_first m && above m).
Local Abbreviation new c := (Workspace_new c m.(mo_output) m.(mo_options)).

(** What the caller shows about the padded monitor. *)
Definition pad_post : Prop := ∀ pre post m' c',
  padded m bottom top pre post m' → (c ≤ c' ≤ c + 2)%N →
  stack_ok par m.(mo_output) m.(mo_options) c' m'.(mo_workspaces) →
  wss_windows m'.(mo_workspaces) = wss_windows m.(mo_workspaces) →
  new_ids m.(mo_output) c m.(mo_workspaces) c' m'.(mo_workspaces) → Q (m', length pre + idx) c'.

Lemma pad_bottom_wp : bottom = true → pad_post → wp (pad m bottom above idx) Q c.
Proof using All.
  intros Eb HQ. unfold pad, pad_post, room in *. rewrite Eb in *. apply wp_bind.
  apply add_workspace_at_wp; [done|unfold room; lia|].
  destruct (insert_new_bottom m c Ha) as [HW1 Ha1].
  destruct (insert_new_stack par m (mo_count m) c) as (Hst1 & Hw1 & Hid1); [done..|].
  pose proof (insert_new_switch m (mo_count m) c (le_n _) Hs) as Hs1.
  pose proof (insert_new_settled m (mo_count m) c) as Hn1.
  pose proof (insert_new_count m (mo_count m) c (le_n _)) as Hc1.
  change (mo_above_first (insert_new m (mo_count m) c)) with (mo_above_first m). rewrite Habove.
  set (m1 := insert_new m (mo_count m) c) in *.
  destruct top eqn:Et.
  - apply wp_bind, add_workspace_at_wp; [lia|unfold room; lia|].
    destruct (insert_new_stack par m1 0 (c + 1)) as (Hst2 & Hw2 & Hid2); [lia|done|].
    apply wp_ret. rewrite Nat.add_comm. apply (HQ [new (c + 1)%N] [new c]);
      [|lia|done|congruence|by eapply new_ids_trans; [|exact Hid1|exact Hid2]; lia].
    split; try done.
    + cbn [insert_new mo_workspaces take drop app]. by rewrite HW1.
    + by repeat constructor.
    + change (mo_active m1 + 1 = 1 + mo_active m). lia.
    + rewrite insert_new_settled. done.
    + apply insert_new_switch; [lia|done].
  - apply wp_ret, (HQ [] [new c]); [|lia|done|done|done]. split; try done. by repeat constructor.
Qed.

Lemma pad_wp : pad_post → wp (pad m bottom above idx) Q c.
Proof using All.
  intros HQ. destruct bottom eqn:Eb; [by rewrite <- Eb in *; apply pad_bottom_wp|].
  unfold pad, pad_post, room in *. apply wp_bind, wp_ret. destruct top eqn:Et.
  - apply wp_bind, add_workspace_at_wp; [lia|unfold room; lia|].
    destruct (insert_new_stack par m 0 c) as (Hst2 & Hw2 & Hid2); [lia|done|].
    apply wp_ret. rewrite Nat.add_comm. apply (HQ [new c] []); [|lia|done|done|done].
    split; rewrite ?Eb; try done.
    + cbn [insert_new mo_workspaces take drop app]. by rewrite app_nil_r.
    + by repeat constructor.
    + change (mo_active m + 1 = 1 + mo_active m). lia.
    + by rewrite insert_new_settled.
    + apply insert_new_switch; [lia|done].
  - apply wp_ret, (HQ [] []); [|lia|done|done|apply new_ids_refl]. split; rewrite ?Eb; try done. cbn. by rewrite app_nil_r.
Qed.

End pad.

(** The padding after the workspace at [idx] was filled. *)
Definition padded_at (m : Monitor) (idx : nat) : list Workspace → list Workspace → Monitor → Prop :=
  padded m (idx =? mo_count m - 1) (mo_above_first m && (idx =? 0)).

Lemma pad_workspaces_wp par m idx Q c :
  idx < mo_count m → m.(mo_active) < mo_count m → switch_ok m → room 2 c →
  stack_ok par m.(mo_output) m.(mo_options) c m.(mo_workspaces) →
  (∀ pre post m' c', padded_at m idx pre post m' → (c ≤ c' ≤ c + 2)%N →
     stack_ok par m.(mo_output) m.(mo_options) c' m'.(mo_workspaces) →
     wss_windows m'.(mo_workspaces) = wss_windows m.(mo_workspaces) →
     new_ids m.(mo_output) c m.(mo_workspaces) c' m'.(mo_workspaces) →
     Q (m', length pre + idx) c') →
  wp (pad_workspaces m idx) Q c.
Proof.
  intros Hi Ha Hs Hr Hst HQ. unfold pad_workspaces. rewrite last_idx_some by lia.
  apply wp_bind, wp_lift, runs_ret. by apply (pad_wp par).
Qed.

Section padding.
  Context (m : Monitor) (idx : nat) (pre post : list Workspace) (m' : Monitor).
  Hypothesis Hp : padded_at m idx pre post m'.
  Hypothesis Hi : idx < mo_count m.

Lemma padded_lookup i : i < mo_count m → m'.(mo_workspaces) !! (length pre + i) = m.(mo_workspaces) !! i.
Proof.
  intros. rewrite (pd_workspaces _ _ _ _ _ _ Hp), lookup_app_r by lia.
  rewrite lookup_app_l by (unfold mo_count in *; lia). f_equal. lia.
Qed.

(** An index of the padded stack is in one of the three parts. *)
Lemma padded_cases i ws :
  m'.(mo_workspaces) !! i = Some ws →
  (i < length pre ∧ blank m.(mo_output) ws) ∨
  (length pre ≤ i < length pre + mo_count m ∧ m.(mo_workspaces) !! (i - length pre) = Some ws) ∨
  (length pre + mo_count m ≤ i ∧ blank m.(mo_output) ws).
Proof.
  rewrite (pd_workspaces _ _ _ _ _ _ Hp). pose proof (pd_vacant _ _ _ _ _ _ Hp) as Hv.
  apply Forall_app in Hv as [Hv1 Hv2]. rewrite Forall_forall in Hv1, Hv2. unfold mo_count.
  intros [Hl|[Hge Hl]]%lookup_app_Some.
  - left. split; [by eapply lookup_lt_Some|]. by eapply Hv1, list_elem_of_lookup_2.
  - right. apply lookup_app_Some in Hl as [Hl|[Hge2 Hl]].
    + left. apply lookup_lt_Some in Hl as ?. split; [lia|done].
    + right. split; [lia|]. by eapply Hv2, list_elem_of_lookup_2.
Qed.

Lemma padded_ends : ends_ok (Some idx) m → ends_ok None m'.
Proof.
  intros [Ha Hl Hf Hc]. pose proof (padded_count _ _ _ _ _ _ Hp) as Hcount.
  pose proof (above_first_meta _ _ (pd_meta _ _ _ _ _ _ Hp)) as Haf.
  pose proof (output_meta _ _ (pd_meta _ _ _ _ _ _ Hp)) as Hout.
  pose proof (pd_pre _ _ _ _ _ _ Hp) as Hpre. pose proof (pd_post _ _ _ _ _ _ Hp) as Hpost.
  split; rewrite ?Hout.
  - rewrite (pd_active _ _ _ _ _ _ Hp). lia.
  - intros ws Hws _. apply padded_cases in Hws as [[_ ?]|[[Hr Hws]|[_ ?]]]; [done| |done].
    destruct (Nat.eqb_spec idx (mo_count m - 1)); [lia|].
    apply Hl; [|congruence]. rewrite <- Hws. f_equal. lia.
  - intros ws Haf' Hws _. apply padded_cases in Hws as [[_ ?]|[[Hr Hws]|[_ ?]]]; [done| |done].
    rewrite Haf in Haf'. rewrite Haf' in Hpre. cbn in Hpre.
    destruct (Nat.eqb_spec idx 0); [lia|]. apply Hf; [done| |congruence]. rewrite <- Hws. f_equal.
  - rewrite Haf. intros Haf'. specialize (Hc Haf'). rewrite Haf' in Hpre. cbn in Hpre.
    destruct (Nat.eqb_spec idx 0), (Nat.eqb_spec idx (mo_count m - 1)); lia.
Qed.

Lemma padded_middle : middle_ok (Some idx) m → middle_ok (Some (length pre + idx)) m'.
Proof.
  intros Hm i ws Hs Hlt Ha Hne Hws. pose proof (padded_count _ _ _ _ _ _ Hp) as Hcount.
  pose proof (above_first_meta _ _ (pd_meta _ _ _ _ _ _ Hp)) as Haf.
  pose proof (pd_pre _ _ _ _ _ _ Hp) as Hpre. pose proof (pd_post _ _ _ _ _ _ Hp) as Hpost.
  rewrite (pd_active _ _ _ _ _ _ Hp) in Ha. unfold range_start in Hs. rewrite Haf in Hs.
  assert (Hne' : i ≠ length pre + idx) by congruence.
  apply padded_cases in Hws as [[? _]|[[Hr Hws]|[? _]]].
  - destruct (mo_above_first m); cbn in Hpre; [|lia]. destruct (idx =? 0); lia.
  - apply (Hm (i - length pre) ws);
      [|destruct (Nat.eqb_spec idx (mo_count m - 1)); lia|lia|intros [= ?]; lia|done].
    unfold range_start. destruct (mo_above_first m); cbn in Hpre; [|lia].
    destruct (Nat.eqb_spec idx 0); lia.
  - destruct (Nat.eqb_spec idx (mo_count m - 1)); lia.
Qed.

End padding.

(** Padding gives both ends an empty workspace where they lacked one. *)
Lemma padded_weak m bottom top pre post m' :
  padded m bottom top pre post m' → m.(mo_active) < mo_count m →
  (bottom = false → ∀ ws, m.(mo_workspaces) !! (mo_count m - 1) = Some ws → blank m.(mo_output) ws) →
  (mo_above_first m = true → top = false → ∀ ws, m.(mo_workspaces) !! 0 = Some ws → blank m.(mo_output) ws) →
  weak_shape m'.
Proof.
  intros Hp Ha Hl Hf. pose proof (padded_count _ _ _ _ _ _ Hp) as Hc.
  pose proof (above_first_meta _ _ (pd_meta _ _ _ _ _ _ Hp)) as Haf.
  pose proof (output_meta _ _ (pd_meta _ _ _ _ _ _ Hp)) as Hout.
  destruct Hp as [HW Hv Hpre Hpost Hact _ _ _ _]. rewrite Forall_forall in Hv. split; rewrite ?Hout.
  - lia.
  - intros ws Hws. rewrite HW in Hws. destruct bottom.
    + apply Hv, elem_of_app. right. rewrite !lookup_app_r in Hws by (unfold mo_count in *; lia).
      by eapply list_elem_of_lookup_2.
    + destruct post; [|done]. rewrite app_nil_r in Hws. cbn in Hc.
      rewrite lookup_app_r in Hws by lia. apply Hl; [done|]. rewrite <- Hws. f_equal. lia.
  - intros ws Haf' Hws. rewrite Haf in Haf'. rewrite HW in Hws. destruct top.
    + apply Hv, elem_of_app. left. destruct pre; [done|]. cbn in Hws. simplify_eq. left.
    + destruct pre; [|done]. apply Hf; [done..|]. cbn in Hws.
      rewrite lookup_app_l in Hws by (unfold mo_count in *; lia). done.
Qed.
