(* ===== verification/LayoutMonitorMoves.v ===== *)
(** * Monitors: every operation keeps the invariant

    For each operation of LayoutMonitor.v: it does not panic on a monitor that satisfies the
    invariant, re-establishes the invariant and accounts for every window. *)
From S2P Require Import Prelude Float64 FloatRound LayoutScrolling LayoutFloating LayoutOutput LayoutWorkspace LayoutWorkspaceOps LayoutWorkspaceProps LayoutMonitor LayoutMonitorOps.

Definition mon_windows (m : Monitor) : list N := wss_windows m.(mo_workspaces).

Record monitor_ok par (c : N) (m : Monitor) : Prop := {
  mok_stack : stack_ok par m.(mo_output) m.(mo_options) c m.(mo_workspaces);
  mok_shape : mon_shape m;
  mok_options : m.(mo_options) = with_merged_layout m.(mo_base_options) m.(mo_layout_config)
}.

(** The outcome of an operation that adds and removes the given windows. *)
Record mon_outcome par (c : N) (m : Monitor) (added removed : list N) (m' : Monitor) (c' : N) : Prop := {
  oc_ok : monitor_ok par c' m';
  oc_windows : removed ++ mon_windows m' ≡ₚ added ++ mon_windows m;
  oc_counter : (c ≤ c' ≤ c + 2)%N;
  oc_kept : mo_kept m' = mo_kept m;
  oc_ids : new_ids m.(mo_output) c m.(mo_workspaces) c' m'.(mo_workspaces)
}.

(** ** Activation *)

(** What activating a workspace leaves alone. *)
Record activated (m : Monitor) (idx : nat) (m' : Monitor) : Prop := {
  ac_workspaces : m'.(mo_workspaces) = m.(mo_workspaces);
  ac_active : m'.(mo_active) = idx;
  ac_meta : mo_meta m' = mo_meta m;
  ac_switch : switch_ok m → switch_ok m';
  ac_settled : m'.(mo_switch) = None → m.(mo_switch) = None ∧ m.(mo_active) = idx
}.

Lemma remember_previous_runs m idx :
  m.(mo_active) < mo_count m → ∃ p, remember_previous m idx = Some (set_mo_previous p m).
Proof.
  intros Ha. unfold remember_previous. destruct (lookup_workspace m _ Ha) as [ws Hws].
  destruct (m.(mo_active) =? idx); [|rewrite Hws; by eexists].
  exists (mo_previous m). by destruct m.
Qed.

Lemma activate_workspace_runs m idx :
  m.(mo_active) < mo_count m → idx < mo_count m →
  runs (activate_workspace m idx) (activated m idx).
Proof.
  intros Ha Hi. unfold activate_workspace. destruct (remember_previous_runs m idx Ha) as [p ->].
  cbn [mbind option_bind]. apply runs_ret.
  destruct m as [o l a q sw ov b op lc]. cbn in *.
  destruct sw as [[to|[center start current t cl dnd]]|].
  - destruct (Nat.eqb_spec a idx); subst; by split.
  - destruct dnd.
    + split; try done. cbn. intros (Hc & H1 & H2). cbn in *. auto with cidre.
    + destruct (Nat.eqb_spec a idx); subst; by split.
  - destruct (Nat.eqb_spec a idx); subst; by split.
Qed.

(** ** Adding windows *)

(** The invariant without the condition on the workspaces in the middle. *)
Record mon_loose par (c : N) (m : Monitor) : Prop := {
  ml_stack : stack_ok par m.(mo_output) m.(mo_options) c m.(mo_workspaces);
  ml_ends : ends_ok None m;
  ml_switch : switch_ok m;
  ml_options : m.(mo_options) = with_merged_layout m.(mo_base_options) m.(mo_layout_config)
}.

Definition middle_settled (m : Monitor) : Prop := m.(mo_switch) = None → middle_ok None m.

Lemma monitor_ok_loose par c m : monitor_ok par c m ↔ mon_loose par c m ∧ middle_settled m.
Proof.
  split.
  - intros [Hst [He Hm Hs] Ho]. by split.
  - intros [[Hst He Hs Ho] Hm]. by split.
Qed.

Lemma loose_weak par c m : mon_loose par c m → weak_shape m.
Proof. intros [_ [H1 H2 H3 _] _ _]. split; auto. Qed.

Section activation.
  Context (m : Monitor) (idx : nat) (m' : Monitor).
  Hypothesis Hi : idx < mo_count m.
  Hypothesis Hact : activated m idx m'.

Lemma activated_loose par c : mon_loose par c m → mon_loose par c m'.
Proof.
  intros [Hst [H1 H2 H3 H4] Hsw Hop]. destruct Hact as [HW Ha HM Hsw' _].
  pose proof (above_first_meta _ _ HM) as Haf. injection HM as HO HB HP HL _.
  assert (Hc : mo_count m' = mo_count m) by (unfold mo_count; by rewrite HW). split.
  - by rewrite HO, HP, HW.
  - split; rewrite ?Hc, ?HW, ?Haf, ?Ha, ?HO; auto.
  - auto.
  - by rewrite HP, HB, HL.
Qed.

Lemma activated_middle : middle_settled m → middle_settled m'.
Proof.
  intros Hmid (Hn & Ha')%(ac_settled _ _ _ Hact). destruct Hact as [HW Ha HM _ _].
  pose proof (above_first_meta _ _ HM) as Haf.
  intros i ws. unfold range_start, mo_count. rewrite HW, Haf, Ha, <- Ha'. by apply Hmid.
Qed.

End activation.

Lemma activate_outcome par c m idx :
  monitor_ok par c m → idx < mo_count m →
  runs (activate_workspace m idx) (λ m', mon_outcome par c m [] [] m' c).
Proof.
  intros [Hl Hm]%monitor_ok_loose Hi.
  eapply runs_weaken; [apply activate_workspace_runs; [apply Hl|done]|]. intros m' Hact. split.
  - apply monitor_ok_loose. split; [by eapply activated_loose|by eapply activated_middle].
  - unfold mon_windows. by rewrite (ac_workspaces _ _ _ Hact).
  - lia.
  - apply kept_meta, (ac_meta _ _ _ Hact).
  - rewrite (ac_workspaces _ _ _ Hact). apply new_ids_refl.
Qed.

Lemma switch_ok_update m l :
  length l = mo_count m → switch_ok m → switch_ok (set_mo_workspaces l m).
Proof. intros Hl. unfold switch_ok, mo_count in *. cbn. by rewrite Hl. Qed.

Section update.
  Context (m : Monitor) (idx : nat) (ws' : Workspace).
Local Abbreviation m1 := (set_mo_workspaces (<[idx:=ws']> m.(mo_workspaces)) m).

Lemma update_count : mo_count m1 = mo_count m.
Proof. apply length_insert. Qed.

Lemma update_lookup i ws :
  m1.(mo_workspaces) !! i = Some ws → i ≠ idx → m.(mo_workspaces) !! i = Some ws.
Proof. cbn. intros H ?. by rewrite list_lookup_insert_ne in H. Qed.

Lemma update_ends : ends_ok None m → ends_ok (Some idx) m1.
Proof.
  intros [H1 H2 H3 H4]. split; rewrite ?update_count; try done.
  - intros ws Hws Hne. apply update_lookup in Hws; [by apply H2|congruence].
  - intros ws Haf Hws Hne. apply update_lookup in Hws; [by apply H3|congruence].
Qed.

Lemma update_middle : middle_ok None m → middle_ok (Some idx) m1.
Proof.
  intros H i ws Hs Hlt Ha Hne Hws. rewrite update_count in Hlt.
  eapply (H i ws); try done. apply update_lookup; [done|congruence].
Qed.

(** When the changed workspace is as empty as before, the ends stay as they are. *)
Lemma update_ends_vacant ws :
  m.(mo_workspaces) !! idx = Some ws → (blank m.(mo_output) ws → blank m.(mo_output) ws') → ends_ok None m → ends_ok None m1.
Proof.
  intros Hi Hv Hends. pose proof (update_ends Hends) as [U1 U2 U3 U4].
  destruct Hends as [H1 H2 H3 H4]. apply lookup_lt_Some in Hi as Hlt. split; try done.
  - intros x Hx _. destruct (decide (idx = mo_count m1 - 1)) as [E|E]; [|apply U2; congruence].
    rewrite <- E in Hx. cbn in Hx. rewrite list_lookup_insert_eq in Hx by done. injection Hx as <-.
    apply Hv, H2; [|done]. rewrite update_count in E. by rewrite <- E.
  - intros x Haf Hx _. destruct (decide (idx = 0)) as [E|E]; [|apply U3; congruence].
    subst idx. cbn in Hx. rewrite list_lookup_insert_eq in Hx by done. injection Hx as <-.
    by apply Hv, H3.
Qed.

End update.

(** The state after adding windows and padding; the workspaces descend from those of [src]. *)
Record grown par (c : N) (m : Monitor) (src : list Workspace) (k : list N) (m' : Monitor) (idx' : nat) (c' : N) : Prop := {
  gr_loose : mon_loose par c' m';
  gr_middle : middle_settled m → middle_settled m';
  gr_windows : mon_windows m' ≡ₚ k ++ mon_windows m;
  gr_idx : idx' < mo_count m';
  gr_counter : (c ≤ c' ≤ c + 2)%N;
  gr_kept : mo_kept m' = mo_kept m;
  gr_settled : m'.(mo_switch) = None ↔ m.(mo_switch) = None;
  gr_ids : new_ids m.(mo_output) c src c' m'.(mo_workspaces)
}.

Lemma own_workspace_occupied out ws : occupied (own_workspace out ws) ↔ occupied ws.
Proof. unfold own_workspace, occupied, has_windows_or_name. by destruct (ws_name ws) eqn:E; cbn; rewrite ?E. Qed.

(** A workspace is filled, then the ends are padded. *)
Section fill.
  Context (par : N → option N) (c : N) (m : Monitor) (idx : nat) (ws ws1 : Workspace) (src : list Workspace)
    (k : list N).
  Hypothesis Hl : mon_loose par c m.
  Hypothesis Hroom : room 2 c.
  Hypothesis Hidx : m.(mo_workspaces) !! idx = Some ws.
Local Abbreviation m1 := (set_mo_workspaces (<[idx:=ws1]> m.(mo_workspaces)) m).
  Hypothesis Hst1 : stack_ok par m.(mo_output) m.(mo_options) c m1.(mo_workspaces).
  Hypothesis Hw1 : mon_windows m1 ≡ₚ k ++ mon_windows m.
  Hypothesis Hsrc : new_ids m.(mo_output) c src c m1.(mo_workspaces).
  Hypothesis Hocc : occupied ws1.

Lemma padded_grown pre post m' c' :
  padded_at m1 idx pre post m' → (c ≤ c' ≤ c + 2)%N →
  stack_ok par m1.(mo_output) m1.(mo_options) c' m'.(mo_workspaces) →
  wss_windows m'.(mo_workspaces) = wss_windows m1.(mo_workspaces) →
  new_ids m.(mo_output) c m1.(mo_workspaces) c' m'.(mo_workspaces) →
  grown par c m src k m' (length pre + idx) c'.
Proof using Hidx Hsrc Hocc Hl Hst1 Hw1.
  intros Hp Hc Hst' Hw' Hids. destruct Hl as [Hst Hends Hsw Hop]. pose proof (update_count m idx ws1) as Hcount.
  apply lookup_lt_Some in Hidx as Hlt. pose proof (pd_meta _ _ _ _ _ _ Hp) as HM.
  assert (Hout : mo_output m' = mo_output m) by apply (output_meta _ _ HM).
  assert (Hopt : mo_options m' = mo_options m) by apply (options_meta _ _ HM).
  split.
  - split; [by rewrite Hout, Hopt| | |].
    + eapply padded_ends; [exact Hp|by rewrite Hcount|by apply update_ends].
    + apply (pd_switch _ _ _ _ _ _ Hp).
    + rewrite Hopt, Hop. by injection HM as _ -> _ -> _.
  - intros Hmid Hn i x Hs Hlast Ha _ Hx.
    destruct (decide (i = length pre + idx)) as [->|Hne].
    + rewrite (padded_lookup _ _ _ _ _ Hp) in Hx by (rewrite Hcount; done).
      cbn in Hx. rewrite list_lookup_insert_eq in Hx by done. by simplify_eq.
    + eapply (padded_middle _ _ _ _ _ Hp); [| |done..|congruence|done]; [by rewrite Hcount|].
      apply update_middle, Hmid. by apply (pd_settled _ _ _ _ _ _ Hp).
  - unfold mon_windows. rewrite Hw'. exact Hw1.
  - rewrite (padded_count _ _ _ _ _ _ Hp), Hcount. unfold mo_count. lia.
  - lia.
  - exact (kept_meta _ _ HM).
  - apply (pd_settled _ _ _ _ _ _ Hp).
  - eapply (new_ids_trans _ c _ c); [lia|exact Hsrc|exact Hids].
Qed.

Lemma fill_pad_wp : wp (pad_workspaces m1 idx) (λ r c', grown par c m src k (fst r) (snd r) c') c.
Proof using All.
  pose proof (update_count m idx ws1) as Hcount. apply lookup_lt_Some in Hidx as Hlt.
  apply (pad_workspaces_wp par).
  - by rewrite Hcount.
  - rewrite Hcount. apply Hl.
  - apply switch_ok_update; [apply length_insert|apply Hl].
  - done.
  - done.
  - intros pre post m' c' Hp Hc Hst' Hw' Hids. by apply padded_grown with post.
Qed.

End fill.

Lemma add_and_pad_wp par c m idx ws f k :
  mon_loose par c m → room 2 c → m.(mo_workspaces) !! idx = Some ws →
  runs (f ws) (added_windows par k ws) → k ≠ [] → NoDup (k ++ mon_windows m) →
  wp (lift (add_to_workspace m idx f)) (λ m1 c1,
    wp (pad_workspaces m1 idx) (λ r c', grown par c m m.(mo_workspaces) k (fst r) (snd r) c') c1) c.
Proof.
  intros Hl Hroom Hidx (ws' & Hf & Hadd) Hk Hnd. apply wp_lift.
  unfold add_to_workspace. rewrite Hidx. cbn [mbind option_bind]. rewrite Hf. cbn [mbind option_bind].
  apply runs_ret.
  destruct (stack_added par _ _ c _ idx ws ws' k (ml_stack _ _ _ Hl) Hidx Hadd Hnd) as [Hst1 Hw1].
  destruct Hadd as (_ & Hw & Hm). apply (fill_pad_wp par c m idx ws); [done..| |].
  - eapply new_ids_update; [done|]. by apply own_descends, meta_descends.
  - apply own_workspace_occupied, occupied_by_window. rewrite (perm_nil _ _ Hw). by destruct k.
Qed.

(** The state after windows were added and their workspace possibly activated. *)
Record joined par (c : N) (m : Monitor) (k : list N) (m' : Monitor) (c' : N) : Prop := {
  jo_loose : mon_loose par c' m';
  jo_middle : middle_settled m → middle_settled m';
  jo_windows : mon_windows m' ≡ₚ k ++ mon_windows m;
  jo_counter : (c ≤ c' ≤ c + 2)%N;
  jo_kept : mo_kept m' = mo_kept m;
  jo_ids : new_ids m.(mo_output) c m.(mo_workspaces) c' m'.(mo_workspaces)
}.

Lemma grown_activate par c m k m' idx' c' (b : bool) :
  grown par c m m.(mo_workspaces) k m' idx' c' →
  wp (if b then lift (activate_workspace m' idx') else mret m') (joined par c m k) c'.
Proof.
  intros [Hl Hm Hw Hi Hc Ho Hs Hids]. destruct b; [|by apply wp_ret].
  apply wp_lift. eapply runs_weaken; [apply activate_workspace_runs; [apply Hl|done]|].
  intros m'' Hact. split; try done.
  - by eapply activated_loose.
  - intros Hm'. eapply activated_middle; eauto.
  - unfold mon_windows. by rewrite (ac_workspaces _ _ _ Hact).
  - rewrite <- Ho. apply kept_meta, (ac_meta _ _ _ Hact).
  - by rewrite (ac_workspaces _ _ _ Hact).
Qed.

Lemma NoDup_one_workspace k l i ws :
  l !! i = Some ws → NoDup (k ++ wss_windows l) → NoDup (k ++ ws_windows ws).
Proof.
  intros Hi. rewrite (vec_remove_perm i ws l Hi). unfold wss_windows. cbn. rewrite app_assoc.
  by intros (? & _ & _)%NoDup_app.
Qed.

Lemma loose_workspace par c m i ws :
  mon_loose par c m → m.(mo_workspaces) !! i = Some ws → workspace_ok par ws.
Proof.
  intros Hl Hi. pose proof (so_on _ _ _ _ _ (ml_stack _ _ _ Hl)) as Hon.
  rewrite Forall_lookup in Hon. by apply (Hon _ _ Hi).
Qed.

Lemma mon_add_column_wp par c m idx col activate :
  mon_loose par c m → room 2 c → idx < mo_count m → column_ok col →
  NoDup (col_windows col ++ mon_windows m) →
  wp (mon_add_column m idx col activate) (joined par c m (col_windows col)) c.
Proof.
  intros Hl Hr Hi Hcol Hnd. destruct (lookup_workspace m idx Hi) as [ws Hws].
  unfold mon_add_column. apply wp_bind.
  eapply wp_weaken;
    [apply (add_and_pad_wp par c m idx ws (λ ws, ws_add_column ws col activate) (col_windows col));
     try done|].
  - apply ws_add_column_runs; [by eapply loose_workspace|done|].
    exact (NoDup_one_workspace _ _ _ _ Hws Hnd).
  - intros E. apply co_active_ok in Hcol. apply fmap_nil_inv in E. rewrite E in Hcol. simpl in Hcol. lia.
  - intros m1 c1 Hp. apply wp_bind. eapply wp_weaken; [exact Hp|]. intros [m' idx'] c'. apply grown_activate.
Qed.

(** ** Adding a window *)
Definition mon_target_ok (m : Monitor) (target : MonitorAddWindowTarget) : Prop :=
  match target with
  | MonAuto => True
  | MonWorkspace id column_idx =>
      ∃ i ws, m.(mo_workspaces) !! i = Some ws ∧ ws.(ws_id) = id ∧
        (∀ j, column_idx = Some j → j ≤ length ws.(ws_scrolling).(sc_columns))
  | MonNextTo w => w ∈ mon_windows m
  end.

Lemma find_by_id par out opts c l i ws :
  stack_ok par out opts c l → l !! i = Some ws →
  vec_position (λ w, N.eqb w.(ws_id) ws.(ws_id)) l = Some i.
Proof.
  intros [_ Hids _ _] Hi.
  destruct (vec_position_is_Some (λ w, N.eqb w.(ws_id) ws.(ws_id)) l ws) as [j Hj];
    [by eapply list_elem_of_lookup_2|apply N.eqb_refl|].
  rewrite Hj. f_equal. apply vec_position_Some in Hj as (w & Hw & He%N.eqb_eq).
  eapply (NoDup_lookup (ws_id <$> l)); [done| |]; rewrite list_lookup_fmap_Some; eauto.
Qed.

Lemma find_by_window l w :
  w ∈ wss_windows l →
  ∃ i ws, vec_position (λ ws, has_window ws w) l = Some i ∧ l !! i = Some ws ∧ w ∈ ws_windows ws.
Proof.
  intros (ws & Hw & Hws)%list_elem_of_bind.
  destruct (vec_position_is_Some (λ ws, has_window ws w) l ws) as [i Hi]; [done|by apply has_window_spec|].
  apply vec_position_Some in Hi as Hi'. destruct Hi' as (ws' & Hl & Hh%has_window_spec). eauto.
Qed.

Lemma resolve_target_runs par c m target :
  mon_loose par c m → mon_target_ok m target →
  runs (resolve_add_window_target m target) (λ r,
    ∃ ws, m.(mo_workspaces) !! (fst r) = Some ws ∧ target_ok ws (snd r)).
Proof.
  intros Hl Ht. destruct target as [|id column_idx|w]; simpl in Ht |- *.
  - apply runs_ret. destruct (lookup_workspace m m.(mo_active)) as [ws Hws]; [apply Hl|].
    exists ws. done.
  - destruct Ht as (i & ws & Hi & <- & Hcol). unfold ws_position.
    rewrite (find_by_id _ _ _ _ _ _ _ (ml_stack _ _ _ Hl) Hi). cbn. apply runs_ret.
    exists ws. split; [done|]. destruct column_idx; [by apply Hcol|done].
  - destruct (find_by_window _ _ Ht) as (i & ws & Hp & Hi & Hw). unfold ws_position.
    rewrite Hp. cbn. apply runs_ret. by exists ws.
Qed.

Section windows.
  Context (par : N → option N) (Hcycle : no_cycle par) (g : Placement).

Lemma mon_add_tile_wp c m t target activate allow w full floating :
  mon_loose par c m → room 2 c → mon_target_ok m target → tl_window t ∉ mon_windows m →
  wp (mon_add_tile par m t target activate allow w full floating) (joined par c m [tl_window t]) c.
Proof.
  intros Hl Hr Ht Hnew. unfold mon_add_tile. apply wp_bind, wp_lift.
  eapply runs_weaken; [by eapply resolve_target_runs|]. intros [idx tgt] (ws & Hws & Htgt).
  cbn [fst snd] in *. apply wp_bind.
  assert (Hnd : NoDup ([tl_window t] ++ mon_windows m)).
  { apply NoDup_cons. split; [done|]. apply Hl. }
  eapply wp_weaken;
    [apply (add_and_pad_wp par c m idx ws
              (λ ws, ws_add_tile par ws t tgt activate w full floating) [tl_window t]); try done|].
  - eapply ws_add_tile_runs; [done|by eapply loose_workspace| |done].
    by apply (NoDup_one_workspace [tl_window t] _ _ _ Hws), NoDup_cons in Hnd as [? _].
  - intros m1 c1 Hp. apply wp_bind. eapply wp_weaken; [exact Hp|]. intros [m' idx'] c' Hg.
    apply wp_bind, wp_lift. destruct (map_smart_runs activate (Some false)) as [b ->]; [by eexists|].
    apply runs_ret. by apply (grown_activate _ _ _ _ _ _ _ (allow && b)).
Qed.

(** ** Removing windows *)
Lemma removed_vacant k ws ws' : removed_windows par k ws ws' → vacant ws → vacant ws'.
Proof.
  intros (_ & Hw & Hm) Hv. injection Hm as _ Hn _ _ _ _ _. unfold vacant. rewrite <- Hv.
  apply occupied_proper; [|done]. rewrite (vacant_windows ws Hv) in Hw |- *.
  symmetry in Hw. apply Permutation_nil_r, app_eq_nil in Hw as [_ ->]. done.
Qed.

Lemma removed_blank k out ws ws' : removed_windows par k ws ws' → blank out ws → blank out ws'.
Proof.
  intros Hr [Hv Ho]. split; [by eapply removed_vacant|]. destruct Hr as (_ & _ & Hm).
  injection Hm as _ _ -> _ _ _ _. done.
Qed.

(** The monitor after the workspace at [src] lost windows. *)
Lemma removed_loose c m src ws ws' k :
  mon_loose par c m → m.(mo_workspaces) !! src = Some ws → removed_windows par k ws ws' →
  let m1 := set_mo_workspaces (<[src:=ws']> m.(mo_workspaces)) m in
  mon_loose par c m1 ∧ mon_windows m ≡ₚ k ++ mon_windows m1 ∧
  (src = m.(mo_active) → middle_settled m → middle_settled m1).
Proof.
  intros [Hst Hends Hsw Hop] Hsrc Hrem m1.
  destruct (stack_removed _ _ _ _ _ _ _ _ _ Hst Hsrc Hrem) as [Hst1 Hw1]. split_and!.
  - split; [done| | |done].
    + eapply update_ends_vacant; [done| |done]. by eapply removed_blank.
    + apply switch_ok_update; [apply length_insert|done].
  - done.
  - intros -> Hmid Hn i x Hs Hl Ha _ Hx. unfold m1 in Hl. rewrite update_count in Hl.
    eapply (Hmid Hn i x); try done. by apply update_lookup in Hx.
Qed.

(** The outcome of taking something out of a workspace. *)
Definition taken {B} (c : N) (m : Monitor) (src : nat) (k : B → list N) (P : B → Prop)
    (r : option B * Monitor) : Prop :=
  match fst r with
  | None => snd r = m
  | Some b =>
      P b ∧ mon_loose par c (snd r) ∧ mon_windows m ≡ₚ k b ++ mon_windows (snd r) ∧
      (src = m.(mo_active) → middle_settled m → middle_settled (snd r)) ∧
      mo_meta (snd r) = mo_meta m ∧
      ws_tag <$> (snd r).(mo_workspaces) = ws_tag <$> m.(mo_workspaces)
  end.

Lemma on_workspace_taken {B} c m src (f : Workspace → option (option B * Workspace))
    (k : B → list N) (P : B → Prop) ws :
  mon_loose par c m → m.(mo_workspaces) !! src = Some ws →
  runs (f ws) (λ r, match fst r with
                    | None => snd r = ws
                    | Some b => P b ∧ removed_windows par (k b) ws (snd r)
                    end) →
  runs (on_workspace m src f) (taken c m src k P).
Proof.
  intros Hl Hsrc Hrun. unfold on_workspace. rewrite Hsrc. cbn [mbind option_bind].
  eapply runs_bind; [exact Hrun|]. intros [[b|] ws'] Hr; cbn [fst snd] in *; apply runs_ret;
    unfold taken; cbn [fst snd].
  - destruct Hr as [Hk Hr]. destruct (removed_loose _ _ _ _ _ _ Hl Hsrc Hr) as (H1 & H2 & H3).
    split_and!; try done. eapply tags_insert; [done|]. by apply meta_tag, Hr.
  - subst ws'. rewrite list_insert_id by done. by destruct m.
Qed.

Lemma taken_same_count c m src (B : Type) (k : B → list N) P b m' :
  taken c m src k P (Some b, m') → mo_count m' = mo_count m.
Proof.
  intros (_ & _ & _ & _ & _ & H). cbn in H. apply (f_equal length) in H.
  by rewrite !length_fmap in H.
Qed.

(** ** Moving windows between workspaces *)

(** Every window is still there. *)
Definition mon_keeps (c : N) (m : Monitor) : Monitor → N → Prop := mon_outcome par c m [] [].

Lemma outcome_refl c m : monitor_ok par c m → mon_keeps c m m c.
Proof. intros H. split; [done|done|lia|done|apply new_ids_refl]. Qed.

(** Windows [k] that left [m] to give [m1] are added again. *)
Lemma rejoined c m m1 k m' c' :
  mon_windows m ≡ₚ k ++ mon_windows m1 → mo_kept m1 = mo_kept m →
  ws_tag <$> m1.(mo_workspaces) = ws_tag <$> m.(mo_workspaces) →
  joined par c m1 k m' c' → middle_settled m1 → mon_keeps c m m' c'.
Proof.
  intros Hw Ho Hids [Hl Hm Hw' Hc Ho' Hids'] Hmid. split.
  - apply monitor_ok_loose. auto.
  - cbn. by rewrite Hw', <- Hw.
  - done.
  - by rewrite Ho', Ho.
  - rewrite <- (kept_output _ _ Ho). by eapply new_ids_from_same.
Qed.

Lemma add_removed_wp c m m1 removed id activate :
  mon_loose par c m1 → room 2 c → (∃ i ws, m.(mo_workspaces) !! i = Some ws ∧ ws.(ws_id) = id) →
  ws_tag <$> m1.(mo_workspaces) = ws_tag <$> m.(mo_workspaces) →
  tl_window (rt_tile removed) ∉ mon_windows m1 →
  wp (add_removed par m1 removed id activate) (joined par c m1 [tl_window (rt_tile removed)]) c.
Proof.
  intros Hl Hr (i & ws & Hi & Hid) Hids%tags_ids Hnew. apply mon_add_tile_wp; [done..| |done].
  assert (H : (ws_id <$> m1.(mo_workspaces)) !! i = Some id)
    by (rewrite Hids, list_lookup_fmap, Hi; cbn; congruence).
  apply list_lookup_fmap_Some in H as (ws1 & -> & Hi1). exists i, ws1. done.
Qed.

Lemma taken_fresh k m m1 (w : N) :
  NoDup (mon_windows m) → mon_windows m ≡ₚ (w :: k) ++ mon_windows m1 → w ∉ mon_windows m1.
Proof. intros Hnd Hw. rewrite Hw in Hnd. cbn in Hnd. apply NoDup_cons in Hnd as [H _]. set_solver. Qed.

Lemma move_active_tile_to_wp c m new_idx focus :
  monitor_ok par c m → room 2 c → new_idx < mo_count m →
  wp (move_active_tile_to par g m new_idx focus) (mon_keeps c m) c.
Proof.
  intros Hok Hr Hi. pose proof Hok as [Hl Hmid]%monitor_ok_loose. unfold move_active_tile_to.
  destruct (Nat.eqb_spec new_idx m.(mo_active)); [by apply wp_ret, outcome_refl|].
  destruct (lookup_workspace m new_idx Hi) as [tgt Htgt]. rewrite Htgt.
  apply wp_bind, wp_lift, runs_ret, wp_bind, wp_lift.
  destruct (lookup_workspace m m.(mo_active)) as [ws Hws]; [apply Hl|].
  eapply runs_weaken; [eapply (on_workspace_taken c m _ _ (λ t, [tl_window (rt_tile t)]) (λ _, True)
                                 ws Hl Hws)|].
  { eapply runs_weaken; [apply ws_remove_active_tile_runs; by eapply loose_workspace|].
    intros [[t|] ws']; cbn; naive_solver. }
  intros [[t|] m1] Ht; cbn in Ht |- *; [|subst m1; by apply wp_ret, outcome_refl].
  destruct Ht as (_ & Hl1 & Hw1 & Hm1 & HM & Hids).
  eapply wp_weaken; [eapply (add_removed_wp c m m1)|]; try done.
  - eauto.
  - eapply (taken_fresh []); [apply Hl|done].
  - intros m' c' Hj.
    exact (rejoined c m m1 [tl_window (rt_tile t)] m' c' Hw1 (kept_meta _ _ HM) Hids Hj (Hm1 eq_refl Hmid)).
Qed.

Lemma ok_active c m : monitor_ok par c m → m.(mo_active) < mo_count m.
Proof. intros [_ [[H _ _ _] _ _] _]. done. Qed.

Lemma move_to_workspace_up_wp c m focus :
  monitor_ok par c m → room 2 c → wp (move_to_workspace_up par g m focus) (mon_keeps c m) c.
Proof.
  intros Hok Hr. pose proof (ok_active _ _ Hok). apply move_active_tile_to_wp; [done..|lia].
Qed.

Lemma move_to_workspace_down_wp c m focus :
  monitor_ok par c m → room 2 c → wp (move_to_workspace_down par g m focus) (mon_keeps c m) c.
Proof.
  intros Hok Hr. pose proof (ok_active _ _ Hok). unfold move_to_workspace_down.
  rewrite last_idx_some by lia. apply wp_bind, wp_lift, runs_ret.
  apply move_active_tile_to_wp; [done..|lia].
Qed.

(** Cleaning up after an operation. *)
Lemma tidied_ok c m m' :
  stack_ok par m.(mo_output) m.(mo_options) c m.(mo_workspaces) →
  m.(mo_options) = with_merged_layout m.(mo_base_options) m.(mo_layout_config) →
  tidied m m' →
  monitor_ok par c m' ∧ mon_windows m' = mon_windows m ∧ mo_kept m' = mo_kept m ∧ tidied m m'.
Proof.
  intros Hst Hop Ht. pose proof Ht as [Hsh [k Hk] Hw HM _ _ _].
  split_and!; [|done|by apply kept_meta|done].
  injection HM as HO HB HP HL _. split; [|done|by rewrite HP, HB, HL].
  rewrite HO, HP. by eapply stack_shrink.
Qed.

Lemma clean_up_outcome c m :
  stack_ok par m.(mo_output) m.(mo_options) c m.(mo_workspaces) →
  m.(mo_options) = with_merged_layout m.(mo_base_options) m.(mo_layout_config) →
  weak_shape m → m.(mo_switch) = None →
  runs (clean_up_workspaces m) (λ m',
    monitor_ok par c m' ∧ mon_windows m' = mon_windows m ∧ mo_kept m' = mo_kept m ∧ tidied m m').
Proof.
  intros Hst Hop Hweak Hn. eapply runs_weaken; [by apply clean_up_workspaces_runs|].
  intros m'. by apply tidied_ok.
Qed.

Lemma clean_up_if_settled_outcome c m :
  mon_loose par c m →
  runs (clean_up_if_settled m) (λ m',
    monitor_ok par c m' ∧ mon_windows m' = mon_windows m ∧ mo_kept m' = mo_kept m ∧
    ∃ gone, m.(mo_workspaces) ≡ₚ gone ++ m'.(mo_workspaces)).
Proof.
  intros Hl. unfold clean_up_if_settled, settled. destruct (mo_switch m) eqn:E.
  - apply runs_ret. split_and!; [|done|done|by exists []].
    apply monitor_ok_loose. split; [done|]. intros ?. congruence.
  - eapply runs_weaken; [apply clean_up_outcome; [apply Hl..|by eapply loose_weak|done]|].
    intros m' (H1 & H2 & H3 & []). done.
Qed.

Lemma joined_settled c m m1 k m' c' :
  mon_windows m ≡ₚ k ++ mon_windows m1 → mo_kept m1 = mo_kept m →
  ws_tag <$> m1.(mo_workspaces) = ws_tag <$> m.(mo_workspaces) →
  joined par c m1 k m' c' → wp (lift (clean_up_if_settled m')) (mon_keeps c m) c'.
Proof.
  intros Hw Ho Hids [Hl Hm Hw' Hc Ho' Hids']. apply wp_lift.
  eapply runs_weaken; [by apply clean_up_if_settled_outcome|]. intros m2 (Hok & Hw2 & Ho2 & gone & Hgone).
  split; [done| |done|congruence|].
  - cbn. by rewrite Hw2, Hw', <- Hw.
  - eapply (new_ids_trans _ _ _ c'); [lia| |by apply (new_ids_gone _ c' _ c' gone)].
    rewrite <- (kept_output _ _ Ho). by eapply new_ids_from_same.
Qed.

Lemma move_to_workspace_wp c m window idx activate :
  monitor_ok par c m → room 2 c → (∀ w, window = Some w → w ∈ mon_windows m) →
  wp (move_to_workspace par g m window idx activate) (mon_keeps c m) c.
Proof.
  intros Hok Hr Hwin. pose proof (ok_active _ _ Hok) as Ha. pose proof Hok as [Hl Hmid]%monitor_ok_loose.
  destruct (lookup_workspace m _ Ha) as [aws Haws].
  unfold move_to_workspace. apply wp_bind, wp_lift.
  assert (Hsrc : runs (match window with
           | Some window => ws_position m (λ ws, has_window ws window)
           | None => Some m.(mo_active) end)
         (λ src, ∃ ws, m.(mo_workspaces) !! src = Some ws ∧ (∀ w, window = Some w → w ∈ ws_windows ws))).
  { destruct window as [w|]; [|apply runs_ret; by exists aws].
    destruct (find_by_window _ _ (Hwin w eq_refl)) as (i & ws & Hp & Hi & Hw).
    unfold ws_position. rewrite Hp. apply runs_ret. exists ws. split; [done|]. intros ? [= <-]. done. }
  eapply runs_weaken; [exact Hsrc|]. intros src (ws & Hws & Hin).
  rewrite last_idx_some by lia. apply wp_bind, wp_lift, runs_ret.
  destruct (Nat.eqb_spec (Nat.min idx (mo_count m - 1)) src); [by apply wp_ret, outcome_refl|].
  destruct (lookup_workspace m (Nat.min idx (mo_count m - 1))) as [tgt Htgt]; [lia|]. rewrite Htgt.
  apply wp_bind, wp_lift, runs_ret, wp_bind, wp_lift.
  match goal with |- runs (map_smart _ ?o) _ => destruct (map_smart_runs activate o) as [b ->] end.
  { destruct window; [|by eexists]. unfold mon_active_window. rewrite Haws. by eexists. }
  apply runs_ret, wp_bind, wp_lift.
  eapply runs_weaken; [eapply (on_workspace_taken c m src _ (λ t, [tl_window (rt_tile t)]) (λ _, True)
                                 ws Hl Hws)|].
  { destruct window as [w|].
    - destruct (ws_remove_tile_runs par g ws w) as ([t ws'] & -> & Ht & Hrem);
        [by eapply loose_workspace|by apply Hin|]. cbn in *. apply runs_ret. cbn. by rewrite Ht.
    - eapply runs_weaken; [apply ws_remove_active_tile_runs; by eapply loose_workspace|].
      intros [[t|] ws']; cbn; naive_solver. }
  intros [[t|] m1] Ht; cbn in Ht |- *; [|subst m1; by apply wp_ret, outcome_refl].
  destruct Ht as (_ & Hl1 & Hw1 & _ & HM & Hids). apply wp_bind.
  eapply wp_weaken; [eapply (add_removed_wp c m m1)|]; try done.
  - eauto.
  - eapply (taken_fresh []); [apply Hl|done].
  - intros m' c' Hj. exact (joined_settled c m m1 [tl_window (rt_tile t)] m' c' Hw1 (kept_meta _ _ HM) Hids Hj).
Qed.

Lemma move_active_column_to_wp c m new_idx activate float :
  monitor_ok par c m → room 2 c → new_idx < mo_count m → wp float (mon_keeps c m) c →
  wp (move_active_column_to m new_idx activate float) (mon_keeps c m) c.
Proof.
  intros Hok Hr Hi Hfloat. pose proof Hok as [Hl Hmid]%monitor_ok_loose. unfold move_active_column_to.
  destruct (Nat.eqb_spec new_idx m.(mo_active)); [by apply wp_ret, outcome_refl|].
  destruct (lookup_workspace m m.(mo_active)) as [ws Hws]; [apply Hl|]. rewrite Hws.
  apply wp_bind, wp_lift, runs_ret. destruct (floating_active ws); [done|]. apply wp_bind, wp_lift.
  eapply runs_weaken; [eapply (on_workspace_taken c m _ _ col_windows column_ok ws Hl Hws)|].
  { eapply runs_weaken; [apply (ws_remove_active_column_runs par); by eapply loose_workspace|].
    intros [[t|] ws']; cbn; naive_solver. }
  intros [[col|] m1] Ht; cbn in Ht |- *; [|subst m1; by apply wp_ret, outcome_refl].
  pose proof (taken_same_count c m m.(mo_active) _ col_windows column_ok col m1 Ht) as Hc1.
  destruct Ht as (Hcol & Hl1 & Hw1 & Hm1 & HM & Hids).
  eapply wp_weaken; [eapply (mon_add_column_wp par c m1)|]; try done.
  - by rewrite Hc1.
  - rewrite <- Hw1. apply Hl.
  - intros m' c' Hj.
    exact (rejoined c m m1 _ m' c' Hw1 (kept_meta _ _ HM) Hids Hj (Hm1 eq_refl Hmid)).
Qed.

Lemma move_column_to_workspace_up_wp c m activate :
  monitor_ok par c m → room 2 c → wp (move_column_to_workspace_up par g m activate) (mon_keeps c m) c.
Proof.
  intros Hok Hr. pose proof (ok_active _ _ Hok).
  apply move_active_column_to_wp; [done..|lia|by apply move_to_workspace_up_wp].
Qed.

Lemma move_column_to_workspace_down_wp c m activate :
  monitor_ok par c m → room 2 c → wp (move_column_to_workspace_down par g m activate) (mon_keeps c m) c.
Proof.
  intros Hok Hr. pose proof (ok_active _ _ Hok). unfold move_column_to_workspace_down.
  rewrite last_idx_some by lia. apply wp_bind, wp_lift, runs_ret.
  apply move_active_column_to_wp; [done..|lia|by apply move_to_workspace_down_wp].
Qed.

Lemma move_column_to_workspace_wp c m idx activate :
  monitor_ok par c m → room 2 c → wp (move_column_to_workspace par g m idx activate) (mon_keeps c m) c.
Proof.
  intros Hok Hr. pose proof (ok_active _ _ Hok). unfold move_column_to_workspace.
  rewrite last_idx_some by lia. apply wp_bind, wp_lift, runs_ret.
  apply move_active_column_to_wp; [done..|lia|by apply move_to_workspace_wp].
Qed.

(** ** Operations inside a workspace *)
Lemma keeps_removed ws ws' : ws_keeps par ws ws' → removed_windows par [] ws ws'.
Proof. intros (? & Hw & ?). split_and!; [done|by rewrite Hw|done]. Qed.

Lemma kept_workspace c m i ws ws' :
  monitor_ok par c m → m.(mo_workspaces) !! i = Some ws → ws_keeps par ws ws' →
  mon_keeps c m (set_mo_workspaces (<[i:=ws']> m.(mo_workspaces)) m) c.
Proof.
  intros [Hl Hmid]%monitor_ok_loose Hi Hk.
  destruct (removed_loose c m i ws ws' [] Hl Hi (keeps_removed _ _ Hk)) as (Hl1 & Hw1 & _).
  split; [|by cbn; rewrite <- Hw1|lia|done|].
  2:{ eapply new_ids_update; [done|]. by apply meta_descends, Hk. }
  apply monitor_ok_loose. split; [done|].
  intros Hn j x Hs Hlt Ha _ Hx. rewrite update_count in Hlt. apply lookup_lt_Some in Hi as Hil.
  destruct (decide (j = i)) as [->|Hne].
  - cbn in Hx. rewrite list_lookup_insert_eq in Hx by done. injection Hx as <-.
    destruct Hk as (_ & Hw & Hm). injection Hm as _ Hname _ _ _ _ _.
    unfold occupied. rewrite (occupied_proper ws ws' Hw Hname). by eapply (Hmid Hn i).
  - apply update_lookup in Hx; [|done]. by eapply (Hmid Hn j).
Qed.

Lemma ws_op_keeps ws op (o : option (Workspace * bool)) :
  workspace_ok par ws → ws_op_pre ws op → ws_added op = [] →
  run_ws_op par g ws op = (λ r, (fst r, [])) <$> o → runs o (λ r, ws_keeps par ws (fst r)).
Proof.
  intros Hok Hpre Ha E. pose proof (run_ws_op_runs par Hcycle g ws op Hok Hpre) as H.
  rewrite E in H. apply runs_of_fmap in H. eapply runs_weaken; [exact H|].
  intros r (H1 & H2 & H3). rewrite Ha in H2. by split_and!.
Qed.

Lemma active_or_runs {A} c m f op (ret otherwise : Monitor → A) (P : A → Prop) :
  monitor_ok par c m →
  (∀ ws, run_ws_op par g ws op = (λ r, (fst r, [])) <$> f ws) → ws_added op = [] →
  (∀ ws, workspace_ok par ws → ws_op_pre ws op) →
  (∀ m1, mon_keeps c m m1 c → P (ret m1)) → (∀ m1, mon_keeps c m m1 c → P (otherwise m1)) →
  runs (active_or m f ret otherwise) P.
Proof.
  intros Hok Hf Ha Hpre Hret Hother. pose proof (ok_active _ _ Hok) as Hact.
  destruct (lookup_workspace m _ Hact) as [ws Hws]. unfold active_or, on_workspace.
  rewrite Hws. cbn [mbind option_bind].
  assert (Hwok : workspace_ok par ws).
  { apply monitor_ok_loose in Hok as [Hl _]. by eapply loose_workspace. }
  destruct (ws_op_keeps ws op (f ws)) as ([ws' b] & -> & Hk); [by auto..|].
  cbn [mbind option_bind fst snd] in *. apply runs_ret.
  pose proof (kept_workspace c m _ ws ws' Hok Hws Hk). destruct b; auto.
Qed.

Lemma outcome_trans c m m1 m2 c' :
  mon_keeps c m m1 c → mon_keeps c m1 m2 c' → mon_keeps c m m2 c'.
Proof.
  intros [_ W1 C1 O1 I1] [H2 W2 C2 O2 I2]. split; [done| |done|congruence|].
  - cbn in *. by rewrite W2, W1.
  - rewrite (kept_output _ _ O1) in I2. eapply new_ids_trans; [|exact I1|exact I2]. lia.
Qed.

Lemma plain_pre ws op :
  match op with WopMoveDown | WopMoveUp | WopFocusDown | WopFocusUp => True | _ => False end →
  workspace_ok par ws → ws_op_pre ws op.
Proof. intros Hop Hok. split; [destruct op; try done; apply Hok|by destruct op]. Qed.

Lemma move_down_or_to_workspace_down_wp c m :
  monitor_ok par c m → room 2 c → wp (move_down_or_to_workspace_down par g m) (mon_keeps c m) c.
Proof.
  intros Hok Hr. apply wp_bind, wp_lift. apply (active_or_runs c m _ WopMoveDown); [done..| | |].
  - intros ws. by apply plain_pre.
  - intros m1 H1. by apply wp_ret.
  - intros m1 H1. eapply wp_weaken; [apply move_to_workspace_down_wp; [apply H1|done]|].
    intros m2 c2. by apply outcome_trans.
Qed.

Lemma move_up_or_to_workspace_up_wp c m :
  monitor_ok par c m → room 2 c → wp (move_up_or_to_workspace_up par g m) (mon_keeps c m) c.
Proof.
  intros Hok Hr. apply wp_bind, wp_lift. apply (active_or_runs c m _ WopMoveUp); [done..| | |].
  - intros ws. by apply plain_pre.
  - intros m1 H1. by apply wp_ret.
  - intros m1 H1. eapply wp_weaken; [apply move_to_workspace_up_wp; [apply H1|done]|].
    intros m2 c2. by apply outcome_trans.
Qed.

(** ** Closing a window *)

(** The end of [remove_window]: an empty workspace in the middle, if there is one, is at [idx]. *)
Lemma collapse_if_settled c m :
  mon_loose par c m → middle_settled m →
  runs (if settled m then collapse_empty m else Some m) (λ m',
    monitor_ok par c m' ∧ mon_windows m' = mon_windows m ∧ mo_kept m' = mo_kept m ∧
    ∃ gone, m.(mo_workspaces) ≡ₚ gone ++ m'.(mo_workspaces)).
Proof.
  intros Hl Hmid. unfold settled. destruct (mo_switch m) eqn:E.
  - apply runs_ret. split_and!; [|done|done|by exists []]. by apply monitor_ok_loose.
  - eapply runs_weaken; [apply collapse_empty_runs; [by eapply loose_weak|done|by apply Hmid]|].
    intros m' Ht. apply (tidied_ok c) in Ht as (? & ? & ? & []); [done|apply Hl..].
Qed.

Section closing.
  Context (c : N) (m : Monitor) (idx : nat) (ws : Workspace) (k : list N).
  Hypothesis Hl : mon_loose par c m.
  Hypothesis Hidx : m.(mo_workspaces) !! idx = Some ws.
  Hypothesis Hmid : m.(mo_switch) = None → middle_ok (Some idx) m.

(** The workspace is empty now and goes away. *)
Lemma close_workspace_runs :
  vacant ws → range_start m ≤ idx → idx ≠ m.(mo_active) → idx ≠ mo_count m - 1 → m.(mo_switch) = None →
  let m2 := set_mo_workspaces (take idx m.(mo_workspaces) ++ drop (S idx) m.(mo_workspaces)) m in
  let m2 := if idx <? m.(mo_active) then set_mo_active (m.(mo_active) - 1) m2 else m2 in
  runs (collapse_empty m2) (λ m',
    monitor_ok par c m' ∧ mon_windows m' = mon_windows m ∧ mo_kept m' = mo_kept m ∧
    ∃ gone, m.(mo_workspaces) ≡ₚ gone ++ m'.(mo_workspaces)).
Proof.
  intros Hv Hs Ha Hlast Hn m1 m2. apply lookup_lt_Some in Hidx as Hlt.
  destruct (remove_cleaned (range_start m) m.(mo_workspaces) m.(mo_active) idx ws)
    as [[gone Hgone] Hw Hact Hfirst Hlen Hlst]; [done..|unfold mo_count in *; lia|].
  pose proof (length_vec_remove idx ws m.(mo_workspaces) Hidx) as Hlen2.
  set (l := take idx m.(mo_workspaces) ++ drop (S idx) m.(mo_workspaces)) in *.
  set (a := if idx <? m.(mo_active) then m.(mo_active) - 1 else m.(mo_active)) in *.
  assert (E : m2 = set_mo_active a (set_mo_workspaces l m))
    by (unfold m2, m1, a; by destruct (idx <? m.(mo_active))).
  assert (Hcase : idx < m.(mo_active) ∧ a = m.(mo_active) - 1 ∨ m.(mo_active) ≤ idx ∧ a = m.(mo_active))
    by (unfold a; destruct (Nat.ltb_spec idx m.(mo_active)); lia).
  clearbody a. rewrite E. clear m1 m2 E. destruct Hl as [Hst [H1 H2 H3 H4] Hsw Hop].
  eapply runs_weaken; [apply collapse_empty_runs|].
  - split; unfold mo_count in *; cbn.
    + apply lookup_lt_is_Some_1. rewrite Hact. by apply lookup_lt_is_Some_2.
    + intros x Hx. rewrite Hlst in Hx. by apply H2.
    + intros x Haf Hx. rewrite Hfirst in Hx; [by apply H3|].
      unfold range_start. change (mo_above_first m = true) in Haf. rewrite Haf. lia.
  - done.
  - intros i x Hi Hil Hia _ Hx. unfold mo_count in *. cbn in *.
    change (range_start m ≤ i) in Hi. destruct (decide (i < idx)).
    + unfold l in Hx. rewrite vec_remove_lookup_lt in Hx by done.
      eapply (Hmid Hn i); [done|unfold mo_count; lia| |intros [= ?]; lia|done].
      lia.
    + unfold l in Hx. rewrite vec_remove_lookup_ge in Hx by lia.
      eapply (Hmid Hn (S i)); [lia|unfold mo_count; lia| |intros [= ?]; lia|done].
      lia.
  - intros m' Ht. apply (tidied_ok c) in Ht as (Hok & Hw' & Ho & [_ [gone' Hg'] _ _ _ _ _]); [| |done].
    + split_and!; [done| |done|].
      * rewrite Hw'. exact Hw.
      * exists (gone ++ gone'). cbn in Hg'. by rewrite Hgone, Hg', app_assoc.
    + by eapply stack_shrink.
Qed.

End closing.

Lemma range_start_le m idx : (idx = 0 → mo_above_first m = true → False) → range_start m ≤ idx.
Proof. intros H. unfold range_start. destruct (mo_above_first m); [|lia]. destruct idx; [|lia]. by destruct H. Qed.

Lemma mon_remove_window_runs c m w :
  monitor_ok par c m → w ∈ mon_windows m →
  runs (mon_remove_window g m w) (λ r, ∃ t m', r = Some (t, m') ∧ tl_window (rt_tile t) = w ∧
    mon_outcome par c m [] [w] m' c).
Proof.
  intros Hok Hw. pose proof (ok_active _ _ Hok) as Ha. pose proof Hok as [Hl Hmid]%monitor_ok_loose.
  destruct (find_by_window _ _ Hw) as (idx & ws & Hp & Hidx & Hin).
  unfold mon_remove_window, ws_position. rewrite Hp. unfold on_workspace. rewrite Hidx.
  cbn [mbind option_bind].
  destruct (ws_remove_tile_runs par g ws w) as ([t ws'] & -> & Ht & Hrem);
    [by eapply loose_workspace|done|].
  cbn [mbind option_bind fst snd] in *.
  destruct (removed_loose c m idx ws ws' [w] Hl Hidx Hrem) as (Hl1 & Hw1 & _).
  apply lookup_lt_Some in Hidx as Hilt.
  pose proof (update_count m idx ws') as Hc1.
  assert (Hmid1 : m.(mo_switch) = None →
            middle_ok (Some idx) (set_mo_workspaces (<[idx:=ws']> m.(mo_workspaces)) m))
    by (intros Hn; by apply update_middle, Hmid).
  set (m1 := set_mo_workspaces (<[idx:=ws']> m.(mo_workspaces)) m) in *.
  assert (Hi1 : m1.(mo_workspaces) !! idx = Some ws') by (by apply list_lookup_insert_eq).
  rewrite Hi1. cbn [mbind option_bind]. rewrite last_idx_some by lia. cbn [mbind option_bind].
  assert (Hdone : ∀ m', monitor_ok par c m' ∧ mon_windows m' = mon_windows m1 ∧
            mo_kept m' = mo_kept m1 ∧ (∃ gone, m1.(mo_workspaces) ≡ₚ gone ++ m'.(mo_workspaces)) →
            mon_outcome par c m [] [w] m' c).
  { intros m' (H1 & H2 & H3 & gone & H4). split; [done| |lia|done|].
    - rewrite H2. cbn. by rewrite Hw1.
    - eapply (new_ids_trans _ _ _ c); [lia| |by apply (new_ids_gone _ c _ c gone)].
      eapply new_ids_update; [done|]. by apply meta_descends, Hrem. }
  destruct (negb (has_windows_or_name ws') && _ && _ && _) eqn:E; reflect_bools.
  - assert (Hn : m1.(mo_switch) = None) by (unfold settled in *; by destruct (mo_switch m1)).
    rewrite (vec_remove_ok _ ws' _ Hi1). cbn [mbind option_bind snd].
    destruct (close_workspace_runs c m1 idx ws') as (m' & Hm' & Hr); try done.
    { apply range_start_le. intros -> Haf.
      assert (Hv : blank m.(mo_output) ws) by (by apply (eo_first _ _ (ml_ends _ _ _ Hl))).
      rewrite (vacant_windows ws (blank_vacant _ _ Hv)) in Hin. by apply not_elem_of_nil in Hin. }
    change (mo_active (set_mo_workspaces ?l m1)) with (mo_active m1).
    set (m2 := if idx <? mo_active m1 then _ else _) in *.
    assert (Hs2 : settled m2 = true)
      by (unfold m2, settled; destruct (idx <? mo_active m1); cbn; by rewrite (Hn : mo_switch m = None)).
    rewrite Hs2, Hm'. cbn. apply runs_ret. eauto 10.
  - cbn [mbind option_bind].
    destruct (collapse_if_settled c m1 Hl1) as (m' & -> & Hm'); [|cbn; apply runs_ret; eauto 10].
    intros Hn i x Hs Hlt Hne _ Hx. destruct (decide (idx = i)) as [<-|]; [|eapply (Hmid1 Hn i); try done; congruence].
    rewrite Hi1 in Hx. injection Hx as <-. unfold occupied.
    destruct (has_windows_or_name ws'); [done|]. exfalso. revert E. unfold settled. rewrite Hn. cbn [negb andb].
    rewrite (proj2 (Nat.eqb_neq idx (mo_active m1))), (proj2 (Nat.eqb_neq idx (mo_count m1 - 1))) by lia.
    done.
Qed.

End windows.
