(* ===== verification/LayoutMonitorSwitch.v ===== *)
(** * Monitors: switching, gestures, reordering and configuration

    The operations of LayoutMonitor.v that move workspaces instead of windows keep the invariant
    too.  The indices computed from the position of a gesture stay in range for every double. *)
From S2P Require Import Prelude Float64 FloatRound LayoutScrolling LayoutFloating LayoutOutput LayoutWorkspace LayoutWorkspaceOps LayoutWorkspaceProps LayoutMonitor LayoutMonitorOps LayoutMonitorMoves.

Section switching.
  Context (par : N → option N).
Local Abbreviation keeps := (mon_keeps par).
Local Abbreviation ok := (monitor_ok par).

Lemma count_exact k c m : ok c m → room k c → exact_nat (mo_count m).
Proof.
  intros [Hst _ _] Hr. apply stack_length in Hst. unfold room, exact_nat, mo_count in *. lia.
Qed.

Lemma clamped_index_runs x last :
  f64_ok x → exact_nat last → runs (clamped_index x last) (λ i, i ≤ last).
Proof.
  intros Hx Hl. destruct (f64_clamp_index x 0 last) as (y & Hy & _ & Hi & _); [done|lia|done|].
  unfold clamped_index. change f64_zero with (f64_of_nat 0). rewrite Hy. by apply runs_ret.
Qed.

Lemma dnd_current_ok m x : switch_ok m → dnd_current m = Some x → f64_ok x.
Proof.
  unfold dnd_current, switch_ok. intros Hs. destruct (mo_switch m) as [[|gst]|]; try done.
  destruct (wg_dnd gst); [|done]. intros [= <-]. apply Hs.
Qed.

Lemma switch_workspace_up_runs k c m :
  ok c m → room k c → runs (switch_workspace_up m) (λ m', keeps c m m' c).
Proof.
  intros Hok Hr. pose proof (ok_active _ _ _ Hok) as Ha. pose proof (count_exact _ _ _ Hok Hr) as He.
  unfold switch_workspace_up. eapply (runs_bind _ _ (λ i, i < mo_count m)).
  - destruct (dnd_current m) as [x|] eqn:E; [|apply runs_ret; lia].
    rewrite last_idx_some by lia. cbn [mbind option_bind].
    eapply runs_weaken; [apply clamped_index_runs|intros i Hi; cbn in Hi; lia].
    + apply f64_sub_ok; [|apply f64_one_ok]. apply round_with_ok. eapply dnd_current_ok; [apply Hok|done].
    + unfold exact_nat in *. lia.
  - intros i Hi. by apply activate_outcome.
Qed.

Lemma switch_workspace_down_runs k c m :
  ok c m → room k c → runs (switch_workspace_down m) (λ m', keeps c m m' c).
Proof.
  intros Hok Hr. pose proof (ok_active _ _ _ Hok) as Ha. pose proof (count_exact _ _ _ Hok Hr) as He.
  unfold switch_workspace_down. rewrite last_idx_some by lia. cbn [mbind option_bind].
  eapply (runs_bind _ _ (λ i, i < mo_count m)).
  - destruct (dnd_current m) as [x|] eqn:E; [|apply runs_ret; lia].
    eapply runs_weaken; [apply clamped_index_runs|intros i Hi; cbn in Hi; lia].
    + apply f64_add_ok; [|apply f64_one_ok]. apply round_with_ok. eapply dnd_current_ok; [apply Hok|done].
    + unfold exact_nat in *. lia.
  - intros i Hi. by apply activate_outcome.
Qed.

Lemma switch_workspace_runs c m idx :
  ok c m → runs (switch_workspace m idx) (λ m', keeps c m m' c).
Proof.
  intros Hok. pose proof (ok_active _ _ _ Hok). unfold switch_workspace.
  rewrite last_idx_some by lia. cbn [mbind option_bind]. apply activate_outcome; [done|lia].
Qed.

Lemma switch_workspace_previous_runs c m :
  ok c m → runs (switch_workspace_previous m) (λ m', keeps c m m' c).
Proof.
  intros Hok. unfold switch_workspace_previous. destruct (previous_workspace_idx m).
  - by apply switch_workspace_runs.
  - by apply runs_ret, outcome_refl.
Qed.

Lemma switch_workspace_auto_back_and_forth_runs c m idx :
  ok c m → runs (switch_workspace_auto_back_and_forth m idx) (λ m', keeps c m m' c).
Proof.
  intros Hok. pose proof (ok_active _ _ _ Hok). unfold switch_workspace_auto_back_and_forth.
  rewrite last_idx_some by lia. cbn [mbind option_bind].
  case_match; [by apply switch_workspace_previous_runs|by apply switch_workspace_runs].
Qed.

(** ** The switch itself *)
Lemma set_switch_keeps c m s :
  ok c m → switch_ok (set_mo_switch (Some s) m) → keeps c m (set_mo_switch (Some s) m) c.
Proof.
  intros [Hst [[H1 H2 H3 H4] Hm Hs] Ho] Hs'. split; [|done|lia|done|apply new_ids_refl]. by split; [|split|].
Qed.

(** Ending the switch leaves a monitor to clean up. *)
Lemma settle_outcome c m :
  mon_loose par c m → runs (clean_up_workspaces (set_mo_switch None m)) (λ m',
    ok c m' ∧ mon_windows m' = mon_windows m ∧ mo_kept m' = mo_kept m ∧
    tidied (set_mo_switch None m) m').
Proof.
  intros Hl. pose proof (loose_weak _ _ _ Hl) as [H1 H2 H3]. destruct Hl as [Hst _ _ Hop].
  by apply (clean_up_outcome par c (set_mo_switch None m)).
Qed.

Lemma mon_advance_animations_runs c m b :
  ok c m → runs (mon_advance_animations m b) (λ m', keeps c m m' c).
Proof.
  intros Hok. unfold mon_advance_animations.
  destruct (mo_switch m) as [[]|]; try (by apply runs_ret, outcome_refl).
  destruct b; [|by apply runs_ret, outcome_refl]. apply monitor_ok_loose in Hok as [Hl _].
  eapply runs_weaken; [by apply settle_outcome|].
  intros m' (H1 & H2 & H3 & [_ [gone H4] _ _ _ _ _]).
  split; [done|by cbn; rewrite H2|lia|done|exact (new_ids_gone _ _ _ _ _ _ H4)].
Qed.

(** ** Gestures *)
Lemma gesture_begin_keeps c m x t :
  ok c m → f64_ok x → keeps c m (workspace_switch_gesture_begin m x t) c.
Proof. intros Hok Hx. apply set_switch_keeps; [done|]. pose proof (ok_active _ _ _ Hok). done. Qed.

Lemma dnd_begin_keeps c m x : ok c m → f64_ok x → keeps c m (mon_dnd_scroll_gesture_begin m x) c.
Proof.
  intros Hok Hx. pose proof (ok_active _ _ _ Hok). unfold mon_dnd_scroll_gesture_begin.
  destruct (dnd_current m); [by apply outcome_refl|].
  destruct (mo_overview_open m); [|by apply outcome_refl]. by apply set_switch_keeps.
Qed.

Lemma min_max_nat gst n :
  gst.(wg_center) < n →
  ∃ lo hi, min_max gst n = (f64_of_nat lo, f64_of_nat hi) ∧ lo ≤ hi ∧ hi < n.
Proof.
  intros H. unfold min_max. destruct (wg_clamped gst).
  - eexists _, _. split; [done|]. lia.
  - exists 0, (n - 1). split; [done|]. lia.
Qed.

Lemma band_clamp_runs r x lo hi :
  f64_ok x → lo ≤ hi → exact_nat hi →
  runs (band_clamp r (f64_of_nat lo) (f64_of_nat hi) x) f64_ok.
Proof.
  intros Hx Hle He. destruct (f64_clamp_index x lo hi) as (y & Hy & Hok & _); [done..|].
  unfold band_clamp. rewrite Hy. apply runs_ret. apply f64_add_ok; [done|]. apply f64_mul_ok.
Qed.

Lemma gesture_update_runs k c m zoom pos t :
  ok c m → room k c → f64_ok pos →
  runs (workspace_switch_gesture_update m zoom pos t) (λ r, keeps c m (fst r) c).
Proof.
  intros Hok Hr Hpos. pose proof (count_exact _ _ _ Hok Hr) as He.
  pose proof (sh_switch _ (mok_shape _ _ _ Hok)) as Hs. unfold workspace_switch_gesture_update.
  destruct (mo_switch m) as [[|gst]|] eqn:E; try (by apply runs_ret, outcome_refl).
  unfold switch_ok in Hs. rewrite E in Hs. destruct Hs as (Hc & H1 & H2).
  destruct (_ || _); [by apply runs_ret, outcome_refl|].
  destruct (min_max_nat gst (mo_count m) Hc) as (lo & hi & -> & Hle & Hlt).
  eapply runs_bind; [apply band_clamp_runs; [by auto with cidre|done|unfold exact_nat in *; lia]|].
  intros x Hx. destruct (f64_eqb _ x); [by apply runs_ret, outcome_refl|].
  apply runs_ret. by apply set_switch_keeps.
Qed.

Lemma dnd_scroll_to_runs k c m pos :
  ok c m → room k c → f64_ok pos → runs (dnd_scroll_to m pos) (λ m', keeps c m m' c).
Proof.
  intros Hok Hr Hpos. pose proof (count_exact _ _ _ Hok Hr) as He.
  pose proof (sh_switch _ (mok_shape _ _ _ Hok)) as Hs. unfold dnd_scroll_to.
  destruct (mo_switch m) as [[|gst]|] eqn:E; try (by apply runs_ret, outcome_refl).
  unfold switch_ok in Hs. rewrite E in Hs. destruct Hs as (Hc & H1 & H2).
  destruct (wg_dnd gst); [|by apply runs_ret, outcome_refl].
  destruct (min_max_nat gst (mo_count m) Hc) as (lo & hi & -> & Hle & Hlt).
  destruct (f64_clamp_index (f64_add (wg_start gst) pos) lo hi) as (y & -> & Hy & _);
    [by auto with cidre|done|unfold exact_nat in *; lia|].
  cbn [mbind option_bind]. apply runs_ret. apply set_switch_keeps; [done|].
  split_and!; cbn; [done|by auto with cidre|done].
Qed.

(** The end of a gesture activates a workspace that exists. *)
Lemma gesture_end_runs k c m pos t :
  ok c m → room k c → f64_ok pos →
  runs (workspace_switch_gesture_end m pos t) (λ r, keeps c m (fst r) c).
Proof.
  intros Hok Hr Hpos. pose proof (count_exact _ _ _ Hok Hr) as He.
  pose proof (ok_active _ _ _ Hok) as Ha.
  pose proof (sh_switch _ (mok_shape _ _ _ Hok)) as Hs. unfold workspace_switch_gesture_end.
  destruct (mo_switch m) as [[|gst]|] eqn:E; try (by apply runs_ret, outcome_refl).
  unfold switch_ok in Hs. rewrite E in Hs. destruct Hs as (Hc & H1 & H2).
  destruct (match t with Some _ => _ | None => _ end); [by apply runs_ret, outcome_refl|].
  destruct (min_max_nat gst (mo_count m) Hc) as (lo & hi & -> & Hle & Hlt).
  destruct (f64_clamp_index (f64_add (wg_start gst) pos) lo hi) as (y & -> & Hy & _ & Hi);
    [by auto with cidre|done|unfold exact_nat in *; lia|].
  cbn [mbind option_bind]. set (i := f64_as_usize (f64_round y)) in *. clearbody i.
  destruct (remember_previous_runs m i Ha) as [p ->].
  cbn [mbind option_bind]. apply runs_ret. cbn [fst].
  destruct Hok as [Hst [[G1 G2 G3 G4] Gm Gs] Go]. split; [|done|lia|done|apply new_ids_refl].
  split; [done| |done]. split; [|done|done]. split; [unfold mo_count in *; cbn; lia|done..].
Qed.

Lemma dnd_end_runs k c m pos :
  ok c m → room k c → f64_ok pos → runs (mon_dnd_scroll_gesture_end m pos) (λ m', keeps c m m' c).
Proof.
  intros Hok Hr Hpos. unfold mon_dnd_scroll_gesture_end.
  destruct (dnd_current m); [|by apply runs_ret, outcome_refl].
  eapply runs_bind; [by eapply gesture_end_runs|]. intros r Hk. by apply runs_ret.
Qed.

End switching.

(** ** Workspaces that come, go and change places

    Reordering workspaces, moving them to and from other monitors, naming, configuration changes
    and the creation of a monitor. *)

Section reorder.
  Context (par : N → option N).
Local Abbreviation keeps := (mon_keeps par).
Local Abbreviation ok := (monitor_ok par).

(** ** Settling *)
Record mon_weak (c : N) (m : Monitor) : Prop := {
  mw_stack : stack_ok par m.(mo_output) m.(mo_options) c m.(mo_workspaces);
  mw_shape : weak_shape m;
  mw_options : m.(mo_options) = with_merged_layout m.(mo_base_options) m.(mo_layout_config)
}.

Lemma ok_weak c m : ok c m → mon_weak c m.
Proof.
  intros [Hl _]%monitor_ok_loose. pose proof (loose_weak _ _ _ Hl). by destruct Hl; split.
Qed.

(** What an operation has produced before it cleans up. *)
Record mon_pending (c : N) (m : Monitor) (added removed : list N) (m' : Monitor) (c' : N) : Prop := {
  mp_weak : mon_weak c' m';
  mp_windows : removed ++ mon_windows m' ≡ₚ added ++ mon_windows m;
  mp_counter : (c ≤ c' ≤ c + 2)%N;
  mp_kept : mo_kept m' = mo_kept m;
  mp_ids : new_ids m.(mo_output) c m.(mo_workspaces) c' m'.(mo_workspaces)
}.

Lemma settle_at c m added removed m' c' a :
  mon_pending c m added removed m' c' → a < mo_count m' →
  runs (clean_up_workspaces (set_mo_switch None (set_mo_active a m'))) (λ m2,
    mon_outcome par c m added removed m2 c' ∧ tidied (set_mo_switch None (set_mo_active a m')) m2).
Proof.
  intros [[Hst [H1 H2 H3] Hop] Hw Hc Ho Hids] Ha.
  eapply runs_weaken; [by apply (clean_up_outcome par c' (set_mo_switch None (set_mo_active a m')))|].
  intros m2 (G1 & G2 & G3 & G4). split; [|done]. split; [done| |done| |].
  - rewrite G2. exact Hw.
  - rewrite G3. exact Ho.
  - destruct G4 as [_ [gone Hg] _ _ _ _ _].
    eapply (new_ids_trans _ _ _ c'); [lia|exact Hids|exact (new_ids_gone _ _ _ _ _ _ Hg)].
Qed.

Lemma settle_moved_runs c m added removed m' c' idx :
  mon_pending c m added removed m' c' → idx < mo_count m' →
  runs (settle_moved m' idx) (λ m2,
    mon_outcome par c m added removed m2 c' ∧ tidied (set_mo_switch None (set_mo_active idx m')) m2).
Proof.
  intros Hp Hi. unfold settle_moved.
  eapply runs_bind; [apply activate_workspace_runs; [apply Hp|done]|]. intros m1 [HW Ha HM _ _].
  assert (E : set_mo_previous (mo_previous m') (set_mo_switch None m1) =
              set_mo_switch None (set_mo_active idx m')).
  { destruct m1, m'. cbn in *. injection HM as -> -> -> -> ->. by subst. }
  rewrite E. by apply settle_at.
Qed.

(** ** Reordering *)

(** A permutation of the workspaces, padded where the ends are not empty any more. *)
Lemma permuted_pad_wp c m l bottom above idx :
  ok c m → room 2 c → l ≡ₚ m.(mo_workspaces) → let m1 := set_mo_workspaces l m in
  above (insert_new m1 (mo_count m1) c) = above m1 →
  (bottom = false → ∀ ws, l !! (length l - 1) = Some ws → blank m.(mo_output) ws) →
  (mo_above_first m = true → above m1 = false → ∀ ws, l !! 0 = Some ws → blank m.(mo_output) ws) →
  wp (pad m1 bottom above idx) (λ r c', mon_pending c m [] [] (fst r) c' ∧
    ∃ pre post, padded m1 bottom (mo_above_first m && above m1) pre post (fst r) ∧
      snd r = length pre + idx) c.
Proof.
  intros Hok Hr Hl m1 Habove Hb Ht. pose proof (ok_active _ _ _ Hok) as Ha.
  pose proof Hok as [Hst Hsh Hop].
  assert (Hc : mo_count m1 = mo_count m) by (unfold mo_count; cbn; by rewrite Hl).
  assert (Ha1 : mo_active m1 < mo_count m1) by (by rewrite Hc).
  apply (pad_wp par); [done| |done| |done|].
  - apply switch_ok_update; [by unfold mo_count; rewrite Hl|apply Hsh].
  - eapply stack_permutation; [by symmetry|done].
  - intros pre post m2 c' Hp Hcc Hst2 Hw2 Hids. cbn [fst snd]. split; [|by exists pre, post].
    pose proof (pd_meta _ _ _ _ _ _ Hp) as HM. split.
    + split.
      * rewrite (output_meta _ _ HM), (options_meta _ _ HM). done.
      * eapply padded_weak; [done|done|done|].
        intros Haf Htop. apply Ht; [done|]. rewrite Haf in Htop. done.
      * injection HM as HO HB HP HL _. by rewrite HP, HB, HL.
    + cbn. unfold mon_windows. rewrite Hw2. cbn. by rewrite Hl.
    + done.
    + by rewrite (kept_meta _ _ HM).
    + eapply (new_ids_trans _ _ _ c); [lia| |exact Hids]. by apply new_ids_perm.
Qed.

Lemma padded_idx m1 bottom top pre post m2 idx :
  padded m1 bottom top pre post m2 → idx < mo_count m1 → length pre + idx < mo_count m2.
Proof. intros Hp Hi. rewrite (padded_count _ _ _ _ _ _ Hp). lia. Qed.

Lemma ok_last c m ws :
  ok c m → m.(mo_workspaces) !! (mo_count m - 1) = Some ws → blank m.(mo_output) ws.
Proof. intros [_ [[_ H _ _] _ _] _] ?. by apply H. Qed.

Lemma ok_first c m ws :
  ok c m → mo_above_first m = true → m.(mo_workspaces) !! 0 = Some ws → blank m.(mo_output) ws.
Proof. intros [_ [[_ _ H _] _ _] _] ? ?. by apply H. Qed.

(** Swapping leaves the other places alone. *)
Lemma vec_swap_lookup_ne i j k (l l' : list Workspace) :
  vec_swap i j l = Some l' → k ≠ i → k ≠ j → l' !! k = l !! k.
Proof.
  intros H Hi Hj. unfold vec_swap in H. destruct (l !! i), (l !! j); cbn in H; try done.
  injection H as <-. by rewrite !list_lookup_insert_ne.
Qed.

(** The common part of [move_workspace_down] and [move_workspace_up]: the active workspace changes
    places with the one at [new]. *)
Lemma swap_active_wp c m new bottom above :
  ok c m → room 2 c → new < mo_count m →
  (∀ l l', above (set_mo_workspaces l m) = above (set_mo_workspaces l' m)) →
  (∀ l, length l = mo_count m → above (insert_new (set_mo_workspaces l m) (length l) c) = above m) →
  above m = (m.(mo_active) =? 0) || (new =? 0) →
  bottom = (m.(mo_active) =? mo_count m - 1) || (new =? mo_count m - 1) →
  ∃ l, vec_swap m.(mo_active) new m.(mo_workspaces) = Some l ∧ length l = mo_count m ∧
    wp (r ← pad (set_mo_workspaces l m) bottom above new;
        lift (settle_moved (fst r) (snd r))) (keeps c m) c.
Proof.
  intros Hok Hr Hn Hab1 Hab2 Habove Hbottom. pose proof (ok_active _ _ _ Hok) as Ha.
  destruct (lookup_workspace m _ Ha) as [x Hx]. destruct (lookup_workspace m _ Hn) as [y Hy].
  rewrite (vec_swap_ok _ _ x y) by done.
  set (l := <[new:=x]> (<[m.(mo_active):=y]> m.(mo_workspaces))).
  assert (Hl : l ≡ₚ m.(mo_workspaces)) by (by apply vec_swap_perm).
  assert (Hlen : length l = mo_count m) by (by rewrite Hl).
  assert (Hne : ∀ k, k ≠ m.(mo_active) → k ≠ new → l !! k = m.(mo_workspaces) !! k).
  { intros k H1 H2. eapply vec_swap_lookup_ne; [by apply vec_swap_ok|done..]. }
  assert (Hab : above (set_mo_workspaces l m) = above m).
  { rewrite (Hab1 l m.(mo_workspaces)). by destruct m. }
  exists l. split_and!; [done..|]. apply wp_bind.
  eapply wp_weaken; [apply (permuted_pad_wp c m l bottom above new)|]; try done.
  - rewrite Hab. change (mo_count (set_mo_workspaces l m)) with (length l). by apply Hab2.
  - rewrite Hbottom, Hlen. intros [?%Nat.eqb_neq ?%Nat.eqb_neq]%orb_false_iff ws Hws.
    rewrite Hne in Hws by lia. by eapply ok_last.
  - rewrite Hab, Habove. intros Haf [?%Nat.eqb_neq ?%Nat.eqb_neq]%orb_false_iff ws Hws.
    rewrite Hne in Hws by lia. by eapply ok_first.
  - intros [m2 idx2] c2 (Hp & pre & post & Hpad & ->). cbn [fst snd] in *. apply wp_lift.
    eapply runs_weaken; [apply (settle_moved_runs c m [] []); [done|]|].
    + eapply padded_idx; [done|]. change (new < length l). lia.
    + by intros m3 [H3 _].
Qed.

Lemma move_workspace_down_wp c m :
  ok c m → room 2 c → wp (move_workspace_down m) (keeps c m) c.
Proof.
  intros Hok Hr. pose proof (ok_active _ _ _ Hok) as Ha. unfold move_workspace_down.
  rewrite last_idx_some by lia. apply wp_bind, wp_lift, runs_ret.
  destruct (Nat.eqb_spec (Nat.min (m.(mo_active) + 1) (mo_count m - 1)) m.(mo_active));
    [by apply wp_ret, outcome_refl|].
  edestruct (swap_active_wp c m) as (l & El & Hlen & Hwp);
    [exact Hok|exact Hr| | | | | |rewrite El; apply wp_bind, wp_lift, runs_ret, Hwp]; try done; [lia|..].
  - intros l Hl. cbn [insert_new mo_active set_mo_workspaces].
    rewrite (proj2 (Nat.leb_gt (length l) m.(mo_active))) by lia. done.
  - cbn. rewrite (proj2 (Nat.eqb_neq (Nat.min _ _) 0)) by lia. by rewrite orb_false_r.
  - by rewrite (proj2 (Nat.eqb_neq m.(mo_active) (mo_count m - 1))) by lia.
Qed.

Lemma move_workspace_up_wp c m :
  ok c m → room 2 c → wp (move_workspace_up m) (keeps c m) c.
Proof.
  intros Hok Hr. pose proof (ok_active _ _ _ Hok) as Ha. unfold move_workspace_up.
  destruct (Nat.eqb_spec (m.(mo_active) - 1) m.(mo_active)); [by apply wp_ret, outcome_refl|].
  destruct (swap_active_wp c m (m.(mo_active) - 1) (m.(mo_active) =? mo_count m - 1)
              (λ _, m.(mo_active) - 1 =? 0)) as (l & El & Hlen & Hwp); try done; [lia|..].
  - by rewrite (proj2 (Nat.eqb_neq m.(mo_active) 0)) by lia.
  - rewrite (proj2 (Nat.eqb_neq (m.(mo_active) - 1) (mo_count m - 1))) by lia. by rewrite orb_false_r.
  - rewrite El. apply wp_bind, wp_lift, runs_ret, wp_bind, wp_lift.
    rewrite last_idx_some by (unfold mo_count in *; cbn; lia). apply runs_ret.
    change (mo_count (set_mo_workspaces l m)) with (length l). rewrite Hlen. exact Hwp.
Qed.

(** A workspace taken out at [old] and put back at [new] leaves the ends beyond both alone. *)
Lemma moved_lookup_after (l : list Workspace) old new ws k :
  l !! old = Some ws → new < length l → old < k → new < k →
  let l0 := take old l ++ drop (S old) l in (take new l0 ++ ws :: drop new l0) !! k = l !! k.
Proof.
  intros Hi Hn H1 H2 l0. apply lookup_lt_Some in Hi as Hlt.
  assert (Hl0 : S (length l0) = length l) by (by eapply length_vec_remove).
  destruct k as [|k]; [lia|]. rewrite vec_insert_lookup_ge by lia. unfold l0.
  by rewrite vec_remove_lookup_ge by lia.
Qed.

Lemma moved_lookup_first (l : list Workspace) old new ws :
  l !! old = Some ws → new < length l → 0 < old → 0 < new →
  let l0 := take old l ++ drop (S old) l in (take new l0 ++ ws :: drop new l0) !! 0 = l !! 0.
Proof.
  intros Hi Hn H1 H2 l0. assert (Hl0 : S (length l0) = length l) by (by eapply length_vec_remove).
  rewrite vec_insert_lookup_lt by lia. unfold l0. by rewrite vec_remove_lookup_lt by lia.
Qed.

Lemma active_after_move_lt n active old new :
  active < n → old < n → new < n → active_after_move active old new < n.
Proof.
  intros. unfold active_after_move. destruct (Nat.eqb_spec active old); [done|].
  destruct (Nat.leb_spec new active), (Nat.ltb_spec active old), (Nat.leb_spec active new),
    (Nat.ltb_spec old active); cbn; lia.
Qed.

(** The state of [move_workspace_to_idx] before it cleans up. *)
Lemma move_to_idx_pad_wp c m old new ws :
  ok c m → room 2 c → m.(mo_workspaces) !! old = Some ws → new < mo_count m → old ≠ new →
  let l0 := take old m.(mo_workspaces) ++ drop (S old) m.(mo_workspaces) in
  let l := take new l0 ++ ws :: drop new l0 in
  let m1 := set_mo_workspaces l m in
  wp (if old <? new
      then pad m1 (new =? mo_count m - 1) (λ _, old =? 0) new
      else pad m1 (old =? mo_count m - 1) (λ _, new =? 0) new)
    (λ r c', mon_pending c m [] [] (fst r) c' ∧ ∃ bottom top pre post,
       padded m1 bottom top pre post (fst r) ∧ top = mo_above_first m && (Nat.min old new =? 0) ∧
       snd r = length pre + new) c.
Proof.
  intros Hok Hr Hold Hnew Hne l0 l m1. apply lookup_lt_Some in Hold as Hlt. unfold mo_count in *.
  assert (Hl0 : S (length l0) = length m.(mo_workspaces)) by (by eapply length_vec_remove).
  assert (Hl : l ≡ₚ m.(mo_workspaces)).
  { unfold l. rewrite vec_insert_perm. symmetry. by apply vec_remove_perm. }
  assert (Hlen : length l = mo_count m) by (by rewrite Hl). unfold mo_count in Hlen.
  assert (Hlast : (old = length l - 1 → False) → (new = length l - 1 → False) →
            ∀ ws, l !! (length l - 1) = Some ws → blank m.(mo_output) ws).
  { intros H1 H2 w Hw.
    assert (E : l !! (length l - 1) = m.(mo_workspaces) !! (length l - 1))
      by (apply moved_lookup_after; done || lia).
    eapply ok_last; [done|]. unfold mo_count. by rewrite <- Hlen, <- E. }
  assert (Hfirst : mo_above_first m = true → 0 < old → 0 < new → ∀ ws, l !! 0 = Some ws → blank m.(mo_output) ws).
  { intros Haf H1 H2 w Hw.
    assert (E : l !! 0 = m.(mo_workspaces) !! 0) by (by apply moved_lookup_first).
    eapply ok_first; [done..|]. by rewrite <- E. }
  destruct (Nat.ltb_spec old new).
  - eapply wp_weaken; [apply (permuted_pad_wp c m l _ (λ _, old =? 0) new)|]; try done.
    + intros ?%Nat.eqb_neq. apply Hlast; lia.
    + intros Haf ?%Nat.eqb_neq. apply Hfirst; [done|lia..].
    + intros [m2 i2] c2 (Hp & pre & post & Hpad & Hi). split; [done|].
      exists (new =? length m.(mo_workspaces) - 1), (mo_above_first m && (old =? 0)), pre, post. split_and!; [done| |done].
      by rewrite Nat.min_l by lia.
  - eapply wp_weaken; [apply (permuted_pad_wp c m l _ (λ _, new =? 0) new)|]; try done.
    + intros ?%Nat.eqb_neq. apply Hlast; lia.
    + intros Haf ?%Nat.eqb_neq. apply Hfirst; [done|lia..].
    + intros [m2 i2] c2 (Hp & pre & post & Hpad & Hi). split; [done|].
      exists (old =? length m.(mo_workspaces) - 1), (mo_above_first m && (new =? 0)), pre, post. split_and!; [done| |done].
      by rewrite Nat.min_r by lia.
Qed.

Lemma move_workspace_to_idx_wp c m old new :
  ok c m → room 2 c → wp (move_workspace_to_idx m old new) (keeps c m) c.
Proof.
  intros Hok Hr. pose proof (ok_active _ _ _ Hok) as Ha. unfold move_workspace_to_idx.
  destruct (Nat.leb_spec (mo_count m) old); [by apply wp_ret, outcome_refl|].
  rewrite last_idx_some by lia. apply wp_bind, wp_lift, runs_ret.
  assert (Hn : Nat.min new (mo_count m - 1) ≤ mo_count m - 1) by lia.
  set (n := Nat.min new (mo_count m - 1)) in *. clearbody n.
  destruct (Nat.eqb_spec old n); [by apply wp_ret, outcome_refl|].
  destruct (lookup_workspace m old) as [ws Hws]; [done|].
  rewrite (vec_remove_ok _ ws) by done. apply wp_bind, wp_lift, runs_ret.
  pose proof (length_vec_remove old ws m.(mo_workspaces) Hws) as Hlen. cbn [fst snd].
  rewrite vec_insert_ok by (unfold mo_count in *; lia). apply wp_bind, wp_lift, runs_ret, wp_bind.
  eapply wp_weaken; [apply (move_to_idx_pad_wp c m old n ws); try done; lia|].
  intros [m2 i2] c2 (Hp & bottom & top & pre & post & Hpad & _ & Hi2). cbn [fst snd] in *. subst i2.
  apply wp_lift. eapply runs_weaken; [apply (settle_at c m [] []); [done|]|by intros m3 [H3 _]].
  pose proof (padded_count _ _ _ _ _ _ Hpad) as Hc2.
  assert (Hc1 : mo_count (set_mo_workspaces
     (take n (take old (mo_workspaces m) ++ drop (S old) (mo_workspaces m)) ++
      ws :: drop n (take old (mo_workspaces m) ++ drop (S old) (mo_workspaces m))) m) = mo_count m).
  { unfold mo_count. cbn. rewrite length_vec_insert. done. }
  apply active_after_move_lt.
  - apply (mw_shape _ _ (mp_weak _ _ _ _ _ _ Hp)).
  - lia.
  - lia.
Qed.

(** ** Naming *)
Lemma unname_ok ws : workspace_ok par ws → workspace_ok par (unname ws).
Proof. intros [H1 H2 H3 H4 H5]. by split. Qed.

Lemma unname_vacant ws : vacant ws → vacant (unname ws).
Proof.
  unfold vacant, has_windows_or_name. intros [H _]%orb_false_iff. change (has_windows ws || false = false).
  by rewrite H.
Qed.

Lemma update_first_lookup {A} (p : A → bool) f l l' :
  update_first p f l = Some l' → ∃ i x, l !! i = Some x ∧ p x = true ∧ l' = <[i:=f x]> l.
Proof.
  revert l'. induction l as [|y l IH]; intros l'; cbn; [done|].
  destruct (p y) eqn:E; [intros [= <-]; by exists 0, y|].
  destruct (update_first p f l) as [l1|]; [|done]. intros [= <-].
  destruct (IH l1 eq_refl) as (i & x & Hi & Hp & ->). by exists (S i), x.
Qed.

Lemma unname_blank out ws : blank out ws → blank out (unname ws).
Proof. intros [Hv Ho]. split; [by apply unname_vacant|done]. Qed.

(** A workspace that changed but has the same windows and is not less empty. *)
Lemma replaced_loose c m i ws ws' :
  mon_loose par c m → m.(mo_workspaces) !! i = Some ws →
  ws_on par m.(mo_output) m.(mo_options) ws' → ws'.(ws_id) = ws.(ws_id) →
  ws_windows ws' = ws_windows ws →
  (blank m.(mo_output) ws → blank m.(mo_output) ws') →
  let m1 := set_mo_workspaces (<[i:=ws']> m.(mo_workspaces)) m in
  mon_loose par c m1 ∧ mon_windows m1 ≡ₚ mon_windows m.
Proof.
  intros [Hst Hends Hsw Hop] Hi Hon Hid Hw Hv m1.
  destruct (insert_split m.(mo_workspaces) i ws ws' Hi) as (rest & Hl & Hl').
  assert (HW : mon_windows m1 ≡ₚ mon_windows m).
  { unfold mon_windows, m1. cbn. rewrite Hl', Hl. cbn. by rewrite Hw. }
  split; [|done]. split; [| | |done].
  - eapply (stack_update _ _ _ _ _ _ ws); [done..|]. intros rest' Hr. rewrite Hw.
    pose proof (so_windows _ _ _ _ _ Hst) as Hnd. by rewrite Hr in Hnd.
  - by eapply update_ends_vacant.
  - apply switch_ok_update; [apply length_insert|done].
Qed.

Lemma unname_workspace_runs c m id :
  ok c m → runs (unname_workspace m id) (λ r, keeps c m (fst r) c).
Proof.
  intros Hok. unfold unname_workspace. destruct (update_first _ _ _) as [l|] eqn:E.
  2:{ apply runs_ret. by apply outcome_refl. }
  apply update_first_lookup in E as (i & ws & Hi & _ & ->).
  apply monitor_ok_loose in Hok as [Hl _].
  pose proof (so_on _ _ _ _ _ (ml_stack _ _ _ Hl)) as Hon. rewrite Forall_lookup in Hon.
  destruct (Hon _ _ Hi) as [O1 O2 O3].
  destruct (replaced_loose c m i ws (unname ws)) as [Hl1 Hw1]; [done..|split| | | |];
    [by apply unname_ok|done..|by apply unname_blank|].
  eapply runs_bind; [by apply clean_up_if_settled_outcome|].
  intros m' (H1 & H2 & H3 & gone & H4). apply runs_ret. split; [done| |lia|done|].
  - cbn. rewrite H2. exact Hw1.
  - eapply (new_ids_trans _ _ _ c); [lia| |exact (new_ids_gone _ _ _ _ _ _ H4)].
    eapply new_ids_update; [done|]. split; cbn; auto.
Qed.

(** ** Workspaces that leave *)
Lemma ok_padded_weak c m idx pre post m' :
  ok c m → padded_at m idx pre post m' → weak_shape m'.
Proof.
  intros Hok Hp. pose proof (ok_active _ _ _ Hok). eapply padded_weak; [done|done| |].
  - intros _ ws. by eapply ok_last.
  - intros Haf _ ws. by eapply ok_first.
Qed.

(** Taking out a workspace that is not at the ends. *)
Lemma take_out_weak m idx ws :
  weak_shape m → m.(mo_workspaces) !! idx = Some ws → S idx < mo_count m →
  (mo_above_first m = true → 0 < idx) →
  let m1 := set_mo_workspaces (take idx m.(mo_workspaces) ++ drop (S idx) m.(mo_workspaces)) m in
  let a := if (idx <=? m.(mo_active)) && (0 <? m.(mo_active)) then m.(mo_active) - 1
           else m.(mo_active) in
  weak_shape (set_mo_active a m1).
Proof.
  intros [Ha Hl Hf] Hi Hlt Hpos m1 a. unfold mo_count in *.
  pose proof (length_vec_remove idx ws m.(mo_workspaces) Hi) as Hlen.
  split; unfold mo_count; cbn.
  - unfold a. destruct (Nat.leb_spec idx m.(mo_active)), (Nat.ltb_spec 0 m.(mo_active)); cbn; lia.
  - intros x Hx. apply Hl. rewrite vec_remove_lookup_ge in Hx by lia. rewrite <- Hx. f_equal. lia.
  - intros x Haf Hx. change (mo_above_first m = true) in Haf.
    rewrite vec_remove_lookup_lt in Hx by auto. by apply Hf.
Qed.

Lemma remove_workspace_by_idx_wp c m idx ws :
  ok c m → room 2 c → m.(mo_workspaces) !! idx = Some ws →
  wp (remove_workspace_by_idx m idx) (λ r c',
    fst r = set_output None ws ∧ mon_outcome par c m [] (ws_windows ws) (snd r) c' ∧
    stack_ok par m.(mo_output) m.(mo_options) c' (ws :: (snd r).(mo_workspaces))) c.
Proof.
  intros Hok Hr Hws. pose proof (ok_active _ _ _ Hok) as Ha. apply lookup_lt_Some in Hws as Hlt.
  pose proof Hok as [Hst Hsh Hop]. unfold remove_workspace_by_idx. apply wp_bind.
  apply (pad_workspaces_wp par); [done|done|apply Hsh|done|done|].
  intros pre post m1 c1 Hp Hc1 Hst1 Hw1 Hids. pose proof (ok_padded_weak _ _ _ _ _ _ Hok Hp) as Hweak.
  pose proof (padded_lookup _ _ _ _ _ Hp Hlt idx Hlt) as Hi1. rewrite Hws in Hi1.
  pose proof (padded_count _ _ _ _ _ _ Hp) as Hcount. pose proof (pd_post _ _ _ _ _ _ Hp) as Hpost.
  pose proof (pd_pre _ _ _ _ _ _ Hp) as Hpre. pose proof (pd_meta _ _ _ _ _ _ Hp) as HM.
  pose proof (above_first_meta _ _ HM) as Haf.
  set (i := length pre + idx) in *. rewrite (vec_remove_ok _ ws) by done.
  apply wp_bind, wp_lift, runs_ret, wp_bind, wp_lift. cbn [fst snd].
  pose proof (vec_remove_perm i ws m1.(mo_workspaces) Hi1) as Hout.
  set (m2 := set_mo_workspaces _ m1).
  change (mo_active m2) with (mo_active m1).
  assert (Hlast : S i < mo_count m1).
  { unfold i. rewrite Hcount. destruct (Nat.eqb_spec idx (mo_count m - 1)); unfold mo_count in *; lia. }
  assert (Hfirst : mo_above_first m1 = true → 0 < i).
  { rewrite Haf. intros E. rewrite E in Hpre. cbn in Hpre. unfold i.
    destruct (Nat.eqb_spec idx 0); lia. }
  pose proof (take_out_weak m1 i ws Hweak Hi1 Hlast Hfirst) as Hweak2.
  set (a := if (i <=? mo_active m1) && (0 <? mo_active m1) then mo_active m1 - 1 else mo_active m1) in *.
  assert (E : (if (i <=? mo_active m1) && (0 <? mo_active m1) then set_mo_active (mo_active m1 - 1) m2 else m2)
              = set_mo_active a m2).
  { unfold a. destruct ((i <=? mo_active m1) && (0 <? mo_active m1)); [done|]. by destruct m1. }
  rewrite E. pose proof (kept_meta _ _ HM) as HK. injection HM as HO HB HP HL HV.
  destruct Hweak2 as [W1 W2 W3].
  eapply runs_weaken; [apply (clean_up_outcome par c1 (set_mo_switch None (set_mo_active a m2)))|].
  - cbn. rewrite HO, HP. eapply (stack_shrink _ _ _ _ _ [ws]); [|done]. by apply vec_remove_perm.
  - cbn. by rewrite HP, HB, HL.
  - by split.
  - done.
  - intros m3 (G1 & G2 & G3 & [_ [gone Hgone] _ _ _ _ _]). apply wp_ret. cbn [fst snd]. split_and!; [done| |].
    + split; [done| |lia|rewrite G3; exact HK|].
      * cbn [app]. rewrite G2. unfold mon_windows. rewrite <- Hw1. symmetry.
        exact (wss_windows_Permutation _ _ Hout).
      * eapply (new_ids_trans _ _ _ c1); [lia|exact Hids|].
        eapply (new_ids_trans _ _ _ c1); [lia|exact (new_ids_gone _ _ _ _ [ws] _ Hout)|].
        exact (new_ids_gone _ _ _ _ _ _ Hgone).
    + eapply (stack_shrink _ _ _ _ _ gone); [|exact Hst1].
      etrans; [exact Hout|]. etrans; [apply perm_skip; exact Hgone|]. by rewrite Permutation_middle.
Qed.

End reorder.
