(* ===== verification/LayoutMonitorJoin.v ===== *)
(** * Monitors: workspaces that arrive, configuration, creation

    Workspaces of other monitors join a monitor when it is connected, when another one is
    disconnected or on request; a configuration change can add or remove the first empty
    workspace. *)
From S2P Require Import Prelude Float64 FloatRound LayoutScrolling LayoutFloating LayoutOutput LayoutWorkspace LayoutWorkspaceOps LayoutWorkspaceProps LayoutMonitor LayoutMonitorOps LayoutMonitorMoves LayoutMonitorSwitch.

Section join.
  Context (par : N → option N).
Local Abbreviation keeps := (mon_keeps par).
Local Abbreviation ok := (monitor_ok par).

(** ** Preparing workspaces for an output *)
Lemma set_output_ok o ws : workspace_ok par ws → workspace_ok par (set_output o ws).
Proof.
  intros [H1 H2 H3 H4 H5]. unfold set_output. case_match; [done|].
  destruct o as [o|]; [destruct (output_matches o _)|]; by split.
Qed.

Lemma set_output_same o ws :
  ws_windows (set_output o ws) = ws_windows ws ∧ (set_output o ws).(ws_id) = ws.(ws_id) ∧
  (set_output o ws).(ws_name) = ws.(ws_name) ∧ (set_output o ws).(ws_output) = o.
Proof.
  unfold set_output. case_match; [by subst|].
  destruct o as [o|]; [destruct (output_matches o _)|]; done.
Qed.

Lemma prepare_on out opts ws : workspace_ok par ws → ws_on par out opts (prepare_workspace out opts ws).
Proof.
  intros Hok. unfold prepare_workspace. split; [by apply ws_update_config_ok, set_output_ok|done|].
  apply set_output_same.
Qed.

(** Windows, id and name of a workspace; what decides whether it is empty. *)
Record same_workspace (ws ws' : Workspace) : Prop := {
  sw_windows : ws_windows ws' ≡ₚ ws_windows ws;
  sw_id : ws'.(ws_id) = ws.(ws_id);
  sw_name : ws'.(ws_name) = ws.(ws_name)
}.

Lemma same_workspace_occupied ws ws' :
  same_workspace ws ws' → has_windows_or_name ws' = has_windows_or_name ws.
Proof. intros [H1 _ H3]. by apply occupied_proper. Qed.

Lemma same_trans ws1 ws2 ws3 :
  same_workspace ws1 ws2 → same_workspace ws2 ws3 → same_workspace ws1 ws3.
Proof. intros [] []. split; [by etrans|congruence..]. Qed.

Lemma update_config_same o ws : workspace_ok par ws → same_workspace ws (ws_update_config o ws).
Proof. intros Hok. split; [by apply (ws_update_config_ok par)|done|done]. Qed.

Lemma prepare_same out opts ws :
  workspace_ok par ws → same_workspace ws (prepare_workspace out opts ws).
Proof.
  intros Hok. destruct (set_output_same (Some out) ws) as (H1 & H2 & H3 & _).
  eapply same_trans; [|by apply update_config_same, set_output_ok]. split; [by rewrite H1|done|done].
Qed.

Lemma prepare_descends out opts ws : descends out ws (prepare_workspace out opts ws).
Proof.
  unfold prepare_workspace, set_output. destruct (decide _); [split; auto|]. cbn.
  destruct (output_matches out (ws_original_output ws)); split; cbn; auto.
Qed.

Lemma prepared_ids out opts c l : new_ids out c l c (prepare_workspace out opts <$> l).
Proof. apply new_ids_fmap. intros ws _. apply prepare_descends. Qed.

(** ** Workspaces without an output *)
Record base_stack (c : N) (l : list Workspace) : Prop := {
  bs_ok : Forall (workspace_ok par) l;
  bs_ids : NoDup (ws_id <$> l);
  bs_fresh : Forall (λ ws, (ws.(ws_id) < c)%N) l;
  bs_windows : NoDup (wss_windows l)
}.

Lemma stack_base out opts c l : stack_ok par out opts c l → base_stack c l.
Proof. intros [Hon H2 H3 H4]. split; try done. eapply Forall_impl; [exact Hon|]. intros ws [H _ _]. exact H. Qed.

Lemma base_permutation c l l' : l ≡ₚ l' → base_stack c l → base_stack c l'.
Proof. intros H [H1 H2 H3 H4]. rewrite H in H1, H2, H3, H4. by split. Qed.

Lemma base_mono c c' l : (c ≤ c')%N → base_stack c l → base_stack c' l.
Proof. intros Hc [H1 H2 H3 H4]. split; try done. eapply Forall_impl; [exact H3|]. cbn. lia. Qed.

Lemma base_app c l k :
  base_stack c (l ++ k) ↔ base_stack c l ∧ base_stack c k ∧
    (ws_id <$> l) ## (ws_id <$> k) ∧ wss_windows l ## wss_windows k.
Proof.
  split.
  - intros [H1 H2 H3 H4]. rewrite fmap_app in H2. rewrite wss_windows_app in H4.
    apply Forall_app in H1 as [], H3 as []. apply NoDup_app in H2 as (?&?&?), H4 as (?&?&?).
    split_and!; [by split|by split|set_solver|set_solver].
  - intros ([] & [] & Hi & Hw). split.
    + by apply Forall_app.
    + rewrite fmap_app. apply NoDup_app. set_solver.
    + by apply Forall_app.
    + rewrite wss_windows_app. apply NoDup_app. set_solver.
Qed.

Lemma wss_windows_fmap f l :
  Forall (λ ws, same_workspace ws (f ws)) l → wss_windows (f <$> l) ≡ₚ wss_windows l.
Proof. induction 1 as [|ws l [Hw _ _] _ IH]; [done|]. cbn. by rewrite Hw, IH. Qed.

Lemma ids_fmap f l : Forall (λ ws, same_workspace ws (f ws)) l → ws_id <$> (f <$> l) = ws_id <$> l.
Proof. induction 1 as [|ws l [_ Hi _] _ IH]; [done|]. cbn. by rewrite Hi, IH. Qed.

(** Every workspace changes, but neither its windows nor its identity. *)
Lemma stack_fmap out opts c l f :
  base_stack c l → Forall (λ ws, ws_on par out opts (f ws) ∧ same_workspace ws (f ws)) l →
  stack_ok par out opts c (f <$> l) ∧ wss_windows (f <$> l) ≡ₚ wss_windows l.
Proof.
  intros [H1 H2 H3 H4] [Hon Hs]%Forall_and.
  pose proof (wss_windows_fmap f l Hs) as Hw. split; [|done]. split.
  - by apply Forall_fmap.
  - by rewrite ids_fmap.
  - apply Forall_fmap. rewrite Forall_lookup in *. intros i ws Hi. cbn.
    rewrite (sw_id _ _ (Hs _ _ Hi)). by eapply H3.
  - by rewrite Hw.
Qed.

Lemma stack_prepared out opts c l :
  base_stack c l → stack_ok par out opts c (prepare_workspace out opts <$> l) ∧
  wss_windows (prepare_workspace out opts <$> l) ≡ₚ wss_windows l.
Proof.
  intros H. apply stack_fmap; [done|]. eapply Forall_impl; [apply (bs_ok _ _ H)|].
  intros ws Hws. split; [by apply prepare_on|by apply prepare_same].
Qed.

Lemma stack_append out opts c l k :
  stack_ok par out opts c l → stack_ok par out opts c k →
  (ws_id <$> l) ## (ws_id <$> k) → wss_windows l ## wss_windows k → stack_ok par out opts c (l ++ k).
Proof.
  intros Hl Hk Hi Hw. assert (H : base_stack c (l ++ k)).
  { apply base_app. split_and!; [by eapply stack_base..|done|done]. }
  destruct H. split; try done. apply Forall_app. split; [by destruct Hl|by destruct Hk].
Qed.

(** ** Arrival of one workspace *)

(** The outcome when the workspaces [l] came to the monitor. *)
Record mon_arrival (c : N) (m : Monitor) (l : list Workspace) (m' : Monitor) (c' : N) : Prop := {
  ar_ok : ok c' m';
  ar_windows : mon_windows m' ≡ₚ wss_windows l ++ mon_windows m;
  ar_counter : (c ≤ c' ≤ c + 2)%N;
  ar_kept : mo_kept m' = mo_kept m;
  ar_ids : new_ids m.(mo_output) c (l ++ m.(mo_workspaces)) c' m'.(mo_workspaces)
}.

Lemma weak_shape_ext m m' :
  weak_shape m → m'.(mo_workspaces) = m.(mo_workspaces) → mo_meta m' = mo_meta m →
  m'.(mo_active) < mo_count m → weak_shape m'.
Proof.
  intros [H1 H2 H3] HW HM Ha. pose proof (above_first_meta _ _ HM) as Haf.
  pose proof (output_meta _ _ HM) as Ho. unfold mo_count in *.
  split; unfold mo_count; rewrite ?HW, ?Haf, ?Ho; auto.
Qed.

(** The end of an arrival. *)
Lemma arrival_settle c m new l c1 m1 :
  ok c m → stack_ok par m.(mo_output) m.(mo_options) c1 l →
  wss_windows l ≡ₚ wss_windows new ++ mon_windows m → new_ids m.(mo_output) c (new ++ m.(mo_workspaces)) c1 l →
  (c ≤ c1 ≤ c + 2)%N → mo_meta m1 = mo_meta m → m1.(mo_workspaces) = l → weak_shape m1 →
  runs (clean_up_workspaces (set_mo_switch None m1)) (λ m', mon_arrival c m new m' c1).
Proof.
  intros Hok Hst Hw Hids Hc HM HW [H1 H2 H3]. pose proof (kept_meta _ _ HM) as HK. injection HM as HO HB HP HL _.
  eapply runs_weaken; [apply (clean_up_outcome par c1 (set_mo_switch None m1))|].
  - cbn. by rewrite HO, HP, HW.
  - cbn. rewrite HP, HB, HL. apply Hok.
  - by split.
  - done.
  - intros m2 (G1 & G2 & G3 & [_ [gone Hg] _ _ _ _ _]). split; [done| |done|rewrite G3; exact HK|].
    + rewrite G2. unfold mon_windows at 1. cbn. by rewrite HW.
    + eapply (new_ids_trans _ _ _ c1); [lia|exact Hids|]. rewrite <- HW. exact (new_ids_gone _ _ _ _ _ _ Hg).
Qed.

Lemma insert_prepared c m idx ws :
  stack_ok par m.(mo_output) m.(mo_options) c m.(mo_workspaces) →
  base_stack c (ws :: m.(mo_workspaces)) →
  let ws' := prepare_workspace m.(mo_output) m.(mo_options) ws in
  let l := take idx m.(mo_workspaces) ++ ws' :: drop idx m.(mo_workspaces) in
  stack_ok par m.(mo_output) m.(mo_options) c l ∧
  wss_windows l ≡ₚ ws_windows ws ++ mon_windows m ∧ new_ids m.(mo_output) c (ws :: m.(mo_workspaces)) c l.
Proof.
  intros Hst [[B1 _]%Forall_cons B2 [B3 _]%Forall_cons B4] ws' l.
  destruct (prepare_same m.(mo_output) m.(mo_options) ws B1) as [Hw Hid _].
  assert (Hl : l ≡ₚ ws' :: m.(mo_workspaces)) by apply vec_insert_perm.
  rewrite fmap_cons in B2. apply NoDup_cons in B2 as [B2 _]. split_and!.
  - eapply stack_permutation; [by symmetry|]. apply stack_cons; [done|by apply prepare_on|..].
    + unfold ws'. by rewrite Hid.
    + unfold ws'. by rewrite Hid.
    + unfold ws'. by rewrite Hw.
  - rewrite Hl. cbn. unfold ws'. by rewrite Hw.
  - rewrite Hl. apply (new_ids_app _ _ [ws] _ _ [ws']); [|apply new_ids_refl].
    apply new_ids_one, prepare_descends.
Qed.

(** An empty end stays an end when a workspace is put between. *)
Lemma put_between_weak m idx ws a :
  weak_shape m → idx < mo_count m → (mo_above_first m = true → 0 < idx) → a < S (mo_count m) →
  weak_shape (set_mo_active a
    (set_mo_workspaces (take idx m.(mo_workspaces) ++ ws :: drop idx m.(mo_workspaces)) m)).
Proof.
  intros [Ha Hl Hf] Hi Hpos Ha'. unfold mo_count in *. split; unfold mo_count; cbn;
    rewrite ?length_vec_insert; [done| |].
  - intros x Hx. apply Hl. rewrite <- Hx. destruct (length m.(mo_workspaces)) as [|n] eqn:E; [lia|].
    replace (S (S n) - 1) with (S n) by lia. rewrite vec_insert_lookup_ge by lia. f_equal. lia.
  - intros x Haf Hx. change (mo_above_first m = true) in Haf.
    rewrite vec_insert_lookup_lt in Hx by (auto || lia). by apply Hf.
Qed.

Lemma base_drawn out c l c1 l1 ws :
  base_stack c (ws :: l) → base_stack c1 l1 → wss_windows l1 = wss_windows l →
  new_ids out c l c1 l1 → (c ≤ c1)%N → base_stack c1 (ws :: l1).
Proof.
  intros Hb Hb1 Hw Hids Hc. apply (base_app c1 [ws]).
  apply (base_app c [ws]) in Hb as (B1 & B2 & B3 & B4).
  split_and!; [by eapply base_mono|done| |by rewrite Hw].
  destruct B1 as [_ _ [Bf _]%Forall_cons _]. intros id Hid1 [Hid|Hid]%(new_ids_id _ _ _ _ _ _ Hids); [by eapply B3|].
  apply list_elem_of_singleton in Hid1. cbn in Hid1. lia.
Qed.

(** The rest of [insert_workspace] after padding. *)
Lemma insert_between_wp c m ws m1 c1 i (activate : bool) :
  ok c m → mo_meta m1 = mo_meta m → weak_shape m1 → i < mo_count m1 →
  (mo_above_first m1 = true → 0 < i) → base_stack c (ws :: m.(mo_workspaces)) →
  stack_ok par m.(mo_output) m.(mo_options) c1 m1.(mo_workspaces) →
  wss_windows m1.(mo_workspaces) = mon_windows m →
  new_ids m.(mo_output) c m.(mo_workspaces) c1 m1.(mo_workspaces) → (c ≤ c1 ≤ c + 2)%N →
  let ws' := prepare_workspace m.(mo_output) m.(mo_options) ws in
  let m2 := set_mo_workspaces (take i m1.(mo_workspaces) ++ ws' :: drop i m1.(mo_workspaces)) m1 in
  let m3 := if i <=? m2.(mo_active) then set_mo_active (m2.(mo_active) + 1) m2 else m2 in
  runs (m4 ← (if activate then activate_workspace (set_mo_switch None m3) i else Some m3);
        clean_up_workspaces (set_mo_switch None m4)) (λ m', mon_arrival c m [ws] m' c1).
Proof.
  intros Hok HM Hweak Hi Hpos Hb Hst1 Hw1 Hids1 Hc ws' m2 m3.
  assert (HO := output_meta _ _ HM). assert (HP := options_meta _ _ HM).
  assert (Hb1 : base_stack c1 (ws :: m1.(mo_workspaces))).
  { eapply base_drawn; [done|by eapply stack_base|done|done|lia]. }
  rewrite <- HO, <- HP in Hst1.
  destruct (insert_prepared c1 m1 i ws Hst1 Hb1) as (Hst2 & Hw2 & Hids2).
  rewrite HO, HP in Hst2, Hw2, Hids2. fold ws' in Hst2, Hw2, Hids2.
  set (l := take i m1.(mo_workspaces) ++ ws' :: drop i m1.(mo_workspaces)) in *.
  assert (Hlen : length l = S (mo_count m1)) by apply length_vec_insert.
  assert (Hfinal : ∀ m4, m4.(mo_workspaces) = l → mo_meta m4 = mo_meta m → m4.(mo_active) < length l →
            runs (clean_up_workspaces (set_mo_switch None m4)) (λ m', mon_arrival c m [ws] m' c1)).
  { intros m4 HW4 HM4 Ha4. eapply arrival_settle; try done.
    - rewrite Hw2. unfold mon_windows at 1. rewrite Hw1.
      change (wss_windows [ws]) with (ws_windows ws ++ []). by rewrite app_nil_r.
    - eapply (new_ids_trans _ _ _ c1); [lia| |exact Hids2].
      apply (new_ids_app _ _ [ws] _ _ [ws]); [apply new_ids_refl|done].
    - eapply (weak_shape_ext (set_mo_active m4.(mo_active) m2)); [|done| |done].
      + apply put_between_weak; [done|lia|done|lia].
      + rewrite HM4. by symmetry. }
  assert (H3 : m3.(mo_workspaces) = l ∧ mo_meta m3 = mo_meta m ∧ m3.(mo_active) < length l).
  { pose proof (wk_active _ Hweak). unfold m3. rewrite Hlen.
    destruct (_ <=? _); cbn; split_and!; done || lia. }
  destruct H3 as (HW3 & HM3 & Ha3). clearbody m3. destruct activate; [|by apply Hfinal].
  eapply runs_bind; [apply activate_workspace_runs; unfold mo_count; cbn; rewrite HW3; lia|].
  intros m4 [HW4 Ha4 HM4 _ _]. apply Hfinal; [by rewrite HW4|by rewrite HM4|rewrite Ha4; lia].
Qed.

Lemma wp_lift_bind {A B} (o : option A) (f : A → option B) Q c :
  runs (o ≫= f) (λ b, Q b c) → wp (a ← lift o; lift (f a)) Q c.
Proof.
  intros (b & E & HQ). destruct o as [a|]; [|done]. cbn in E. exists b, c. split; [|done].
  unfold mbind, Fresh_bind, lift. cbn. by rewrite E.
Qed.

Lemma insert_workspace_wp c m ws idx activate :
  ok c m → room 2 c → idx ≤ mo_count m → base_stack c (ws :: m.(mo_workspaces)) →
  wp (insert_workspace m ws idx activate) (mon_arrival c m [ws]) c.
Proof.
  intros Hok Hr Hi Hb. pose proof (ok_active _ _ _ Hok) as Ha. pose proof Hok as [Hst Hsh Hop].
  unfold insert_workspace. set (i := if idx =? mo_count m then idx - 1 else idx).
  assert (Hidx : (if idx =? mo_count m then if idx =? 0 then None else Some (idx - 1) else Some idx)
                 = Some i ∧ i < mo_count m).
  { unfold i. destruct (Nat.eqb_spec idx (mo_count m)); [destruct (Nat.eqb_spec idx 0)|]; split; lia || done. }
  destruct Hidx as [-> Hil]. apply wp_bind, wp_lift, runs_ret, wp_bind.
  apply (pad_wp par); [done|apply Hsh|done|done|done|]. clearbody i.
  intros pre post m1 c1 Hp Hc1 Hst1 Hw1 Hids1.
  pose proof (pd_meta _ _ _ _ _ _ Hp) as HM. pose proof (above_first_meta _ _ HM) as Haf.
  pose proof (padded_count _ _ _ _ _ _ Hp) as Hcount. pose proof (pd_pre _ _ _ _ _ _ Hp) as Hpre.
  rewrite vec_insert_ok by (unfold mo_count in *; lia).
  apply wp_bind, wp_lift, runs_ret, wp_lift_bind.
  apply insert_between_wp; try done; [|lia|].
  - eapply padded_weak; [done|done| |]; [intros _ w; by eapply ok_last|intros E _ w; by eapply ok_first].
  - rewrite Haf. intros E. rewrite E in Hpre. cbn in Hpre. destruct (Nat.eqb_spec i 0); lia.
Qed.

(** ** Arrival of the workspaces of another monitor *)
Lemma append_stack c m l init empty :
  stack_ok par m.(mo_output) m.(mo_options) c m.(mo_workspaces) →
  base_stack c (l ++ m.(mo_workspaces)) → m.(mo_workspaces) = init ++ [empty] →
  let l' := prepare_workspace m.(mo_output) m.(mo_options) <$> l in
  stack_ok par m.(mo_output) m.(mo_options) c (init ++ l' ++ [empty]) ∧
  wss_windows (init ++ l' ++ [empty]) ≡ₚ wss_windows l ++ mon_windows m ∧
  new_ids m.(mo_output) c (l ++ m.(mo_workspaces)) c (init ++ l' ++ [empty]).
Proof.
  intros Hst (Hb & _ & Hi & Hw)%base_app HW l'.
  destruct (stack_prepared m.(mo_output) m.(mo_options) c l Hb) as [Hst' Hw']. fold l' in Hst', Hw'.
  assert (Hids : ws_id <$> l' = ws_id <$> l).
  { apply ids_fmap. eapply Forall_impl; [apply (bs_ok _ _ Hb)|]. intros ws. apply prepare_same. }
  assert (Hperm : init ++ l' ++ [empty] ≡ₚ l' ++ m.(mo_workspaces)).
  { rewrite HW, !app_assoc. by rewrite (Permutation_app_comm init l'). }
  split_and!.
  - eapply stack_permutation; [by symmetry|]. apply stack_append; [done|done| |].
    + by rewrite Hids.
    + intros w H1. apply Hw. by rewrite <- Hw'.
  - rewrite Hperm, wss_windows_app, Hw'. done.
  - rewrite Hperm. apply new_ids_app; [apply prepared_ids|apply new_ids_refl].
Qed.

(** The appended monitor before it is cleaned up. *)
Lemma append_weak m init l' empty a :
  blank m.(mo_output) empty → m.(mo_workspaces) = init ++ l' ++ [empty] → a < mo_count m →
  (mo_above_first m = true → ∀ ws, m.(mo_workspaces) !! 0 = Some ws → blank m.(mo_output) ws) →
  weak_shape (set_mo_active a m).
Proof.
  intros Hv HW Ha Hf. split; [done| |intros ws Haf; by apply Hf]. intros ws Hws. cbn in Hws.
  change (mo_count (set_mo_active a m)) with (mo_count m) in Hws.
  assert (Hl : last m.(mo_workspaces) = Some empty).
  { rewrite HW, app_assoc. apply last_snoc. }
  rewrite last_lookup in Hl. unfold mo_count in Hws. rewrite <- Nat.sub_1_r in Hl.
  rewrite Hl in Hws. by injection Hws as <-.
Qed.

(** The rest of [append_workspaces], once the workspaces [W] are in place. *)
Lemma append_settle_wp c m l init l' empty (focused : bool) :
  ok c m → room 2 c → let W := init ++ l' ++ [empty] in
  stack_ok par m.(mo_output) m.(mo_options) c W →
  wss_windows W ≡ₚ wss_windows l ++ mon_windows m → new_ids m.(mo_output) c (l ++ m.(mo_workspaces)) c W →
  blank m.(mo_output) empty → mo_count m ≤ length W →
  (mo_above_first m = true → ∀ ws, W !! 0 = Some ws → vacant ws → blank m.(mo_output) ws) →
  let m1 := set_mo_workspaces W m in
  wp (first ← lift (W !! 0);
      m2 ← (if mo_above_first m1 && has_windows_or_name first then add_workspace_top m1 else mret m1);
      lift (clean_up_workspaces (set_mo_switch None
        (if focused then set_mo_active (mo_count m2 - 1) m2 else m2)))) (mon_arrival c m l) c.
Proof.
  intros Hok Hr W Hst Hw Hids Hv Hlen Hhead m1. pose proof (ok_active _ _ _ Hok) as Ha.
  destruct (lookup_lt_is_Some_2 W 0) as [first Hfirst]; [lia|]. rewrite Hfirst.
  apply wp_bind, wp_lift, runs_ret, wp_bind.
  assert (Hfinal : ∀ m2 c2 init', mo_meta m2 = mo_meta m → m2.(mo_workspaces) = init' ++ l' ++ [empty] →
    m2.(mo_active) < mo_count m2 →
    (mo_above_first m = true → ∀ ws, m2.(mo_workspaces) !! 0 = Some ws → blank m.(mo_output) ws) →
    stack_ok par m.(mo_output) m.(mo_options) c2 m2.(mo_workspaces) →
    wss_windows m2.(mo_workspaces) = wss_windows W → new_ids m.(mo_output) c W c2 m2.(mo_workspaces) →
    (c ≤ c2 ≤ c + 2)%N →
    wp (lift (clean_up_workspaces (set_mo_switch None
        (if focused then set_mo_active (mo_count m2 - 1) m2 else m2)))) (mon_arrival c m l) c2).
  { intros m2 c2 init' HM2 HW2 Ha2 Hf2 Hst2 Hw2 Hids2 Hc2. apply wp_lift.
    eapply (arrival_settle c m l m2.(mo_workspaces)); try done.
    - by rewrite Hw2.
    - by eapply (new_ids_trans _ _ _ c); [|exact Hids|exact Hids2]; lia.
    - by destruct focused.
    - by destruct focused.
    - rewrite <- (above_first_meta _ _ HM2), <- (output_meta _ _ HM2) in Hf2.
      rewrite <- (output_meta _ _ HM2) in Hv. destruct focused.
      + eapply append_weak; [done|done|lia|done].
      + pose proof (append_weak m2 init' l' empty m2.(mo_active) Hv HW2 Ha2 Hf2) as H. by destruct m2. }
  assert (Haf1 : mo_above_first m1 = mo_above_first m) by done.
  destruct (mo_above_first m1 && has_windows_or_name first) eqn:E.
  - apply add_workspace_at_wp; [lia|unfold room in *; lia|].
    destruct (insert_new_stack par m1 0 c) as (Hst2 & Hw2 & Hids2); [lia|done|].
    apply (Hfinal _ _ (Workspace_new c m.(mo_output) m.(mo_options) :: init)); try done.
    + rewrite insert_new_count by lia. change (mo_active m + 1 < S (length W)). lia.
    + intros _ ws. cbn. by intros [= <-].
    + lia.
  - apply wp_ret, (Hfinal _ _ init); try done.
    + change (mo_active m < length W). lia.
    + intros Haf ws. change (mo_workspaces m1) with W. rewrite Hfirst. intros [= <-].
      apply Hhead; [done..|]. rewrite Haf1, Haf in E. exact E.
    + apply new_ids_refl.
    + lia.
Qed.

(** The first of the appended stack is empty only if it was the first before. *)
Lemma append_head c m l init empty :
  ok c m → base_stack c l → Forall occupied l → m.(mo_workspaces) = init ++ [empty] →
  mo_above_first m = true →
  ∀ ws, (init ++ (prepare_workspace m.(mo_output) m.(mo_options) <$> l) ++ [empty]) !! 0 = Some ws →
    vacant ws → blank m.(mo_output) ws.
Proof.
  intros Hok Hb Hocc HW Haf ws Hws Hv. destruct init as [|x init].
  - destruct l as [|y l]; [by eapply ok_first; [..|rewrite HW]|]. cbn in Hws. injection Hws as <-.
    pose proof (bs_ok _ _ Hb) as Hbo. rewrite Forall_cons in Hbo, Hocc. destruct Hbo, Hocc.
    exfalso. apply (occupied_not_vacant y); [done|]. unfold vacant.
    by rewrite <- (same_workspace_occupied y _ (prepare_same m.(mo_output) m.(mo_options) y ltac:(done))).
  - cbn in Hws. injection Hws as <-. eapply ok_first; [done..|]. by rewrite HW.
Qed.

Lemma append_workspaces_wp c m l :
  ok c m → room 2 c → base_stack c (l ++ m.(mo_workspaces)) → Forall occupied l →
  wp (append_workspaces m l) (mon_arrival c m l) c.
Proof.
  intros Hok Hr Hb Hocc. pose proof (ok_active _ _ _ Hok) as Ha. pose proof Hok as [Hst Hsh Hop].
  unfold append_workspaces. destruct l as [|x l0].
  { apply wp_ret. split; [done|done|lia|done|apply new_ids_refl]. }
  lazy beta iota. set (l := x :: l0) in *. clearbody l. clear x l0.
  destruct (lookup_workspace m (mo_count m - 1)) as [empty Hempty]; [lia|].
  assert (Hv : blank m.(mo_output) empty) by (by eapply ok_last).
  pose proof (take_drop_middle _ _ _ Hempty) as Hsplit.
  rewrite (drop_ge _ (S _)) in Hsplit by (unfold mo_count; lia).
  set (init := take (mo_count m - 1) m.(mo_workspaces)) in *.
  destruct (append_stack c m l init empty Hst Hb (eq_sym Hsplit)) as (Hst1 & Hw1 & Hids1).
  set (l' := prepare_workspace m.(mo_output) m.(mo_options) <$> l) in *.
  rewrite last_idx_some by lia. apply wp_bind, wp_lift, runs_ret.
  rewrite (vec_remove_ok _ empty) by done. apply wp_bind, wp_lift, runs_ret. cbn [fst snd].
  rewrite (drop_ge _ (S _)) by (unfold mo_count; lia). rewrite app_nil_r. fold init.
  apply append_settle_wp; try done.
  - rewrite !length_app. unfold mo_count. rewrite <- Hsplit, length_app. lia.
  - eapply append_head; try done. by apply base_app in Hb as (? & _).
Qed.

(** ** Configuration *)

(** The setting changed; [m1] has the workspaces for the new one. *)
Definition reshaped (m : Monitor) (above_first : bool) (m1 : Monitor) : Prop :=
  let start := if above_first then 1 else 0 in
  m1.(mo_active) < mo_count m1 ∧
  (∀ ws, m1.(mo_workspaces) !! (mo_count m1 - 1) = Some ws → blank m.(mo_output) ws) ∧
  (above_first = true → mo_count m1 ≠ 2 ∧ ∀ ws, m1.(mo_workspaces) !! 0 = Some ws → blank m.(mo_output) ws) ∧
  (m1.(mo_switch) = None → ∀ i ws, start ≤ i → S i < mo_count m1 → i ≠ m1.(mo_active) →
     m1.(mo_workspaces) !! i = Some ws → occupied ws) ∧
  switch_ok m1 ∧ mo_meta m1 = mo_meta m.

Lemma reshaped_same m : mon_shape m → reshaped m (mo_above_first m) m.
Proof.
  intros [[H1 H2 H3 H4] Hm Hs]. split_and!; try done.
  - intros ws ?. by apply H2.
  - intros E. split; [by apply H4|]. intros ws ?. by apply H3.
  - intros Hn i ws Hi Hl Ha. by apply (Hm Hn).
Qed.

Lemma reshaped_one m b : mon_shape m → mo_count m ≤ 1 → reshaped m b m.
Proof.
  intros [[H1 H2 H3 H4] Hm Hs] Hc. split_and!; try done.
  - intros ws ?. by apply H2.
  - intros _. split; [lia|]. intros ws ?. apply H2; [|done]. by replace (mo_count m - 1) with 0 by lia.
  - intros _ i ws Hi Hl. lia.
Qed.

(** Switched on: an empty workspace comes first. *)
Lemma reshaped_on c m :
  mon_shape m → mo_above_first m = false → 1 < mo_count m → reshaped m true (insert_new m 0 c).
Proof.
  intros [[H1 H2 H3 H4] Hm Hs] Haf Hc.
  assert (Hcount : mo_count (insert_new m 0 c) = S (mo_count m)) by (apply insert_new_count; lia).
  unfold reshaped. rewrite Hcount. split_and!.
  - change (mo_active m + 1 < S (mo_count m)). lia.
  - intros ws Hws. apply H2; [|done].
    replace (S (mo_count m) - 1) with (S (mo_count m - 1)) in Hws by lia. exact Hws.
  - intros _. split; [lia|]. intros ws. cbn. by intros [= <-].
  - intros Hn%insert_new_settled i ws Hi Hl Ha Hws. destruct i as [|i]; [lia|].
    change (S i ≠ mo_active m + 1) in Ha. cbn in Hws. rewrite drop_0 in Hws.
    eapply (Hm Hn i); [unfold range_start; rewrite Haf; lia|lia|lia|done|done].
  - apply insert_new_switch; [lia|done].
  - done.
Qed.

(** Switched off: the first workspace goes, unless it is active or visible in a switch. *)
Lemma reshaped_off m ws :
  mon_shape m → mo_above_first m = true → 1 < mo_count m → m.(mo_switch) = None → m.(mo_active) ≠ 0 →
  m.(mo_workspaces) !! 0 = Some ws →
  reshaped m false (set_mo_active (m.(mo_active) - 1) (set_mo_workspaces (drop 1 m.(mo_workspaces)) m)).
Proof.
  intros [[H1 H2 H3 H4] Hm Hs] Haf Hc Hn Ha Hws. unfold reshaped, mo_count in *. cbn.
  rewrite length_drop. split_and!; try done.
  - lia.
  - intros x Hx. apply H2; [|done]. rewrite lookup_drop in Hx. rewrite <- Hx. f_equal. lia.
  - intros _ i x _ Hl Hi Hx. rewrite lookup_drop in Hx.
    eapply (Hm Hn (1 + i)); [unfold range_start; rewrite Haf; lia|unfold mo_count; lia|lia|done|done].
  - unfold switch_ok. cbn. by rewrite Hn.
Qed.

Lemma reshaped_keep m :
  mon_shape m → mo_above_first m = true → (m.(mo_switch) = None → m.(mo_active) = 0) → reshaped m false m.
Proof.
  intros [[H1 H2 H3 H4] Hm Hs] Haf Hact. split_and!; try done.
  - intros ws ?. by apply H2.
  - intros Hn i ws Hi Hl Ha. apply (Hm Hn); [|done..]. unfold range_start. rewrite Haf.
    specialize (Hact Hn). lia.
Qed.

(** The monitor after its workspaces took over the new options; its base options are new. *)
Lemma reshaped_ok c c' m m1 base lc :
  let opts := with_merged_layout base lc in
  (c ≤ c' ≤ c + 2)%N → reshaped m opts.(opt_empty_workspace_above_first) m1 → mo_layout_config m = lc →
  stack_ok par m.(mo_output) m.(mo_options) c' m1.(mo_workspaces) →
  wss_windows m1.(mo_workspaces) = mon_windows m → new_ids m.(mo_output) c m.(mo_workspaces) c' m1.(mo_workspaces) →
  keeps c (set_mo_options base m.(mo_options) m) (set_mo_options base opts
    (set_mo_workspaces (ws_update_config opts <$> m1.(mo_workspaces)) m1)) c'.
Proof.
  intros opts Hc (H1 & H2 & H3 & H4 & H5 & HM) Hlc Hst Hw Hids. injection HM as HO HB HP HL HV.
  destruct (stack_fmap m.(mo_output) opts c' m1.(mo_workspaces) (ws_update_config opts)) as [Hst' Hw'].
  { by eapply stack_base. }
  { eapply Forall_impl; [apply (so_on _ _ _ _ _ Hst)|]. intros ws [O1 _ O3].
    split; [split; [by apply ws_update_config_ok|done|done]|by apply update_config_same]. }
  assert (Hlook : ∀ i ws, (ws_update_config opts <$> m1.(mo_workspaces)) !! i = Some ws →
            ∃ ws0, m1.(mo_workspaces) !! i = Some ws0 ∧ has_windows_or_name ws = has_windows_or_name ws0 ∧
              ws.(ws_original_output) = ws0.(ws_original_output)).
  { intros i ws (ws0 & -> & Hi)%list_lookup_fmap_Some. exists ws0. split_and!; [done| |done].
    apply same_workspace_occupied, update_config_same.
    pose proof (so_on _ _ _ _ _ Hst) as Hon. rewrite Forall_lookup in Hon. by apply (Hon i). }
  split; [split| |done|unfold mo_kept; cbn; by rewrite HO, HV|].
  - by rewrite <- HO in Hst'.
  - split; [split|..]; unfold mo_count; cbn; rewrite ?length_fmap.
    + done.
    + intros ws (ws0 & Hws & E & Eo)%Hlook _. unfold blank, vacant. rewrite E, Eo, HO. by apply H2.
    + intros ws Haf (ws0 & Hws & E & Eo)%Hlook _. unfold blank, vacant. rewrite E, Eo, HO. by apply H3.
    + intros Haf. by apply H3.
    + intros Hn i ws Hi Hl Ha _ (ws0 & Hws & E & _)%Hlook. unfold occupied. rewrite E.
      unfold mo_count in Hl. cbn in Hl. rewrite length_fmap in Hl. by apply (H4 Hn i).
    + unfold switch_ok, mo_count in *. cbn. by rewrite length_fmap.
  - cbn. by rewrite HL, Hlc.
  - unfold mon_windows in *. cbn. rewrite Hw', Hw. done.
  - cbn. eapply (new_ids_trans _ _ _ c'); [lia|exact Hids|]. apply new_ids_fmap. intros ws _. split; auto.
Qed.

Lemma mon_update_config_wp c m base :
  stack_ok par m.(mo_output) m.(mo_options) c m.(mo_workspaces) → mon_shape m → room 2 c →
  wp (mon_update_config m base) (keeps c (set_mo_options base m.(mo_options) m)) c.
Proof.
  intros Hst Hsh Hr. pose proof (eo_active _ _ (sh_ends _ Hsh)) as Ha.
  unfold mon_update_config. set (opts := with_merged_layout base m.(mo_layout_config)).
  apply wp_bind.
  assert (Hstay : reshaped m opts.(opt_empty_workspace_above_first) m →
    keeps c (set_mo_options base m.(mo_options) m) (set_mo_options base opts
      (set_mo_workspaces (ws_update_config opts <$> m.(mo_workspaces)) m)) c).
  { intros Hre. apply (reshaped_ok c c m m); try done; [lia|apply new_ids_refl]. }
  destruct (Bool.eqb_spec (mo_above_first m) opts.(opt_empty_workspace_above_first)) as [E|E]; cbn [negb andb].
  { apply wp_ret, wp_ret, Hstay. rewrite <- E. by apply reshaped_same. }
  destruct (Nat.ltb_spec 1 (mo_count m)).
  2:{ apply wp_ret, wp_ret, Hstay. by apply reshaped_one. }
  destruct (opt_empty_workspace_above_first opts) eqn:Eo.
  - assert (Haf : mo_above_first m = false) by (by destruct (mo_above_first m)).
    apply add_workspace_at_wp; [lia|unfold room in *; lia|]. apply wp_ret.
    destruct (insert_new_stack par m 0 c) as (Hst1 & Hw1 & Hids1); [lia|done|].
    apply reshaped_ok; try done; [lia|]. fold opts. rewrite Eo. by apply reshaped_on.
  - assert (Haf : mo_above_first m = true) by (by destruct (mo_above_first m)).
    unfold settled. destruct (mo_switch m) eqn:Es; cbn [andb].
    { apply wp_ret, wp_ret, Hstay. apply reshaped_keep; [done..|]. congruence. }
    destruct (Nat.eqb_spec m.(mo_active) 0); cbn [negb].
    { apply wp_ret, wp_ret, Hstay. by apply reshaped_keep. }
    destruct (lookup_workspace m 0) as [ws Hws]; [lia|]. rewrite (vec_remove_ok _ ws) by done.
    apply wp_bind, wp_lift, runs_ret, wp_ret, wp_ret. cbn [snd take app].
    assert (Hgone : m.(mo_workspaces) ≡ₚ [ws] ++ drop 1 m.(mo_workspaces)) by (by apply (vec_remove_perm 0)).
    apply (reshaped_ok c c m _ base m.(mo_layout_config)); try done; [lia| | | |].
    + fold opts. rewrite Eo. by eapply reshaped_off.
    + by eapply stack_shrink.
    + change (wss_windows (take 0 m.(mo_workspaces) ++ drop 1 m.(mo_workspaces)) = mon_windows m).
      eapply wss_windows_remove; [done|]. by apply (eo_first _ _ (sh_ends _ Hsh)).
    + by eapply new_ids_gone.
Qed.

Lemma mon_update_layout_config_wp c m lc :
  ok c m → room 2 c → wp (mon_update_layout_config m lc) (λ r, keeps c m (fst r)) c.
Proof.
  intros Hok Hr. unfold mon_update_layout_config. case_decide; [by apply wp_ret, outcome_refl|].
  destruct Hok as [Hst [[H1 H2 H3 H4] Hm Hs] Hop]. apply wp_bind.
  eapply wp_weaken; [apply (mon_update_config_wp c (set_mo_layout_config lc m)); [done|by split; [split|..]|done]|].
  intros m' c' [G1 G2 G3 G4 G5]. apply wp_ret. by split.
Qed.

(** ** Creation *)
Lemma idx_to_activate_lt l id : idx_to_activate l id < length l ∨ idx_to_activate l id = 0.
Proof.
  destruct id as [id|]; [|by right]. unfold idx_to_activate.
  assert (H : ∀ k r, (∀ p, p ∈ k → fst p < length l) → r < length l ∨ r = 0 →
    foldl (λ r iw, if N.eqb (ws_id (snd iw)) id then fst iw else r) r k < length l ∨
    foldl (λ r iw, if N.eqb (ws_id (snd iw)) id then fst iw else r) r k = 0).
  { induction k as [|[j w] k IH]; intros r Hk Hr; [done|]. cbn. apply IH.
    - intros p Hp. apply Hk. by right.
    - destruct (N.eqb (ws_id w) id); [|done]. left. apply (Hk (j, w)). left. }
  apply H; [|by right]. intros [j w] (i & Hi)%list_elem_of_lookup. cbn.
  apply list_lookup_imap_Some in Hi as (x & Hx & [= <- <-]). by eapply lookup_lt_Some.
Qed.

(** The workspaces of a new monitor. *)
Lemma new_shape out base lc pre l ws a p :
  Forall occupied l → blank out ws → Forall (blank out) pre →
  length pre = (if (with_merged_layout base lc).(opt_empty_workspace_above_first) && negb (length l =? 0)
                then 1 else 0) →
  a < length pre + length l ∨ a = 0 ∧ l = [] →
  mon_shape (MkMonitor out (pre ++ l ++ [ws]) a p None false base (with_merged_layout base lc) lc).
Proof.
  intros Hl Hws Hpre Hlen Ha. set (opts := with_merged_layout base lc) in *.
  rewrite Forall_forall in Hl, Hpre. split; [split|..]; unfold mo_count; cbn; rewrite ?length_app; cbn.
  - destruct Ha as [Ha|[-> ->]]; cbn; lia.
  - intros x Hx _. rewrite app_assoc, lookup_app_r in Hx by (rewrite length_app; lia).
    rewrite length_app in Hx. replace (_ - _ - _) with 0 in Hx by lia. by injection Hx as <-.
  - intros x Haf Hx _. change (opt_empty_workspace_above_first opts = true) in Haf.
    rewrite Haf in Hlen. cbn in Hlen. destruct (Nat.eqb_spec (length l) 0) as [E|E]; cbn in Hlen.
    + apply nil_length_inv in E. subst l. destruct pre; [|done]. cbn in Hx. by injection Hx as <-.
    + destruct pre as [|y pre]; [done|]. cbn in Hx. injection Hx as <-. apply Hpre. left.
  - intros Haf. change (opt_empty_workspace_above_first opts = true) in Haf.
    rewrite Haf in Hlen. cbn in Hlen. destruct (Nat.eqb_spec (length l) 0); cbn in Hlen; lia.
  - intros _ i x Hi Hlt _ _ Hx. unfold mo_count in Hlt. cbn in *. rewrite !length_app in Hlt. cbn in Hlt.
    unfold range_start in Hi. change (mo_above_first _) with (opt_empty_workspace_above_first opts) in Hi.
    assert (Hge : length pre ≤ i).
    { destruct (opt_empty_workspace_above_first opts); cbn in Hlen; [|lia].
      destruct (length l =? 0); cbn in Hlen; lia. }
    rewrite lookup_app_r, lookup_app_l in Hx by lia. by eapply Hl, list_elem_of_lookup_2.
  - done.
Qed.

Lemma prepared_occupied out opts l :
  Forall (workspace_ok par) l → forallb has_windows_or_name l = true →
  Forall occupied (prepare_workspace out opts <$> l).
Proof.
  intros Hok Hf. rewrite List.forallb_forall in Hf. apply Forall_fmap. rewrite Forall_lookup in *.
  intros i ws Hi. unfold occupied, compose.
  rewrite (same_workspace_occupied ws) by (by apply prepare_same, (Hok i)).
  apply Hf, list_elem_of_In. by eapply list_elem_of_lookup_2.
Qed.

Lemma new_workspace_wp out opts Q c :
  room 1 c → Q (Workspace_new c out opts) (c + 1)%N → wp (new_workspace out opts) Q c.
Proof. intros Hr HQ. apply wp_bind, (wp_next_id 0); [done|]. by apply wp_ret. Qed.

Lemma Monitor_new_wp c out l id base lc :
  base_stack c l → room 2 c → forallb has_windows_or_name l = true →
  wp (Monitor_new out l id base lc) (λ m c',
    ok c' m ∧ mon_windows m ≡ₚ wss_windows l ∧ (c ≤ c' ≤ c + 2)%N ∧ mo_kept m = (out, base, false) ∧
    new_ids out c l c' m.(mo_workspaces)) c.
Proof.
  intros Hb Hr Hocc. unfold Monitor_new. set (opts := with_merged_layout base lc).
  apply wp_bind, wp_lift. rewrite Hocc. apply runs_ret.
  pose proof (prepared_occupied out opts l (bs_ok _ _ Hb) Hocc) as Hocc'.
  destruct (stack_prepared out opts c l Hb) as [Hst Hw].
  pose proof (prepared_ids out opts c l) as Hids.
  set (l' := prepare_workspace out opts <$> l) in *.
  assert (Hfinal : ∀ pre c1 a, Forall (blank out) pre →
    length pre = (if opts.(opt_empty_workspace_above_first) && negb (length l' =? 0) then 1 else 0) →
    a < length pre + length l' ∨ a = 0 ∧ l' = [] →
    stack_ok par out opts c1 (pre ++ l') → wss_windows (pre ++ l') = wss_windows l' →
    new_ids out c l c1 (pre ++ l') → (c ≤ c1 ≤ c + 1)%N →
    wp (ws ← new_workspace out opts;
        mret (MkMonitor out ((pre ++ l') ++ [ws]) a None None false base opts lc)) (λ m c',
      ok c' m ∧ mon_windows m ≡ₚ wss_windows l ∧ (c ≤ c' ≤ c + 2)%N ∧ mo_kept m = (out, base, false) ∧
      new_ids out c l c' m.(mo_workspaces)) c1).
  { intros pre c1 a Hpre Hlen Ha Hst1 Hw1 Hids1 Hc1. apply wp_bind, new_workspace_wp; [unfold room in *; lia|].
    apply wp_ret. pose proof (stack_new par out opts c1 (pre ++ l') (length (pre ++ l')) (le_n _) Hst1) as Hst2.
    pose proof (wss_windows_new out opts c1 (pre ++ l') (length (pre ++ l'))) as Hw2.
    pose proof (new_ids_insert c1 (pre ++ l') (length (pre ++ l')) out opts) as Hids2.
    rewrite take_ge, drop_ge in Hst2, Hw2, Hids2 by lia. split_and!; try done; try lia.
    - split; [done| |done]. rewrite <- app_assoc. by apply new_shape.
    - unfold mon_windows. cbn [mo_workspaces]. rewrite Hw2, Hw1. done.
    - eapply new_ids_trans; [|exact Hids1|exact Hids2]. lia. }
  apply wp_bind. pose proof (idx_to_activate_lt l' id) as Ha.
  destruct (opts.(opt_empty_workspace_above_first) && negb (length l' =? 0)) eqn:E.
  - apply andb_true_iff in E as [_ E%negb_true_iff%Nat.eqb_neq].
    apply wp_bind, new_workspace_wp; [unfold room in *; lia|]. apply wp_ret. cbn [fst snd].
    apply (Hfinal [Workspace_new c out opts]).
    + by repeat constructor.
    + done.
    + cbn. lia.
    + apply (stack_new par out opts c l' 0); [lia|done].
    + done.
    + eapply (new_ids_trans _ _ _ c); [lia|exact Hids|]. by apply (new_ids_insert c l' 0).
    + lia.
  - apply wp_ret. cbn [fst snd]. apply (Hfinal []); try done; [|lia].
    cbn. destruct Ha as [?|Ha]; [by left|]. destruct l'; [by right|]. left. rewrite Ha. cbn. lia.
Qed.

(** ** Taking a monitor apart *)
Lemma filter_occupied_perm l : ∃ k, l ≡ₚ k ++ List.filter has_windows_or_name l.
Proof.
  induction l as [|ws l [k IH]]; [by exists []|]. cbn. destruct (has_windows_or_name ws).
  - exists k. rewrite <- Permutation_middle. by rewrite <- IH.
  - exists (ws :: k). cbn. by rewrite <- IH.
Qed.

Lemma filter_occupied_windows l : wss_windows (List.filter has_windows_or_name l) = wss_windows l.
Proof.
  induction l as [|ws l IH]; [done|]. cbn. destruct (has_windows_or_name ws) eqn:E.
  - cbn. by f_equal.
  - by rewrite (vacant_windows ws E).
Qed.

Lemma wss_windows_fmap_eq f l :
  (∀ ws, ws_windows (f ws) = ws_windows ws) → wss_windows (f <$> l) = wss_windows l.
Proof.
  intros Hf. induction l as [|ws l IH]; [done|].
  change (ws_windows (f ws) ++ wss_windows (f <$> l) = ws_windows ws ++ wss_windows l). by rewrite Hf, IH.
Qed.

Lemma into_workspaces_ok c m :
  ok c m → base_stack c (into_workspaces m) ∧ wss_windows (into_workspaces m) = mon_windows m ∧
  forallb has_windows_or_name (into_workspaces m) = true ∧
  new_ids m.(mo_output) c m.(mo_workspaces) c (into_workspaces m).
Proof.
  intros [Hst _ _]. unfold into_workspaces. set (l := List.filter has_windows_or_name m.(mo_workspaces)).
  destruct (filter_occupied_perm m.(mo_workspaces)) as [k Hk]. fold l in Hk.
  assert (Hl : base_stack c l) by (eapply stack_base, stack_shrink; done).
  assert (Hw : wss_windows (set_output None <$> l) = wss_windows l).
  { apply wss_windows_fmap_eq. intros ws. apply set_output_same. }
  assert (Hids : ws_id <$> (set_output None <$> l) = ws_id <$> l).
  { rewrite <- list_fmap_compose. apply list_fmap_ext. intros i ws _. apply set_output_same. }
  split_and!.
  - destruct Hl as [L1 L2 L3 L4]. split; [|by rewrite Hids| |by rewrite Hw].
    + apply Forall_fmap. eapply Forall_impl; [exact L1|]. intros ws. apply set_output_ok.
    + apply Forall_fmap. eapply Forall_impl; [exact L3|]. intros ws. unfold compose.
      by rewrite (proj1 (proj2 (set_output_same None ws))).
  - rewrite Hw. apply filter_occupied_windows.
  - apply List.forallb_forall. intros ws (w & <- & [_ Hw']%List.filter_In)%List.in_map_iff.
    rewrite <- Hw'. destruct (set_output_same None w) as (E1 & _ & E3 & _).
    apply occupied_proper; [by rewrite E1|done].
  - eapply (new_ids_trans _ _ _ c); [lia|by apply (new_ids_gone _ c _ c k)|].
    apply new_ids_same. rewrite <- list_fmap_compose. apply list_fmap_ext. intros i ws _. cbn.
    unfold set_output, ws_tag. by destruct (decide _).
Qed.

End join.
