(* ===== verification/LayoutMonitorProps.v ===== *)
(** * Monitors: properties

    The operations of a monitor as one type, their preconditions, and the states they reach. *)
From S2P Require Import Prelude Float64 FloatRound LayoutScrolling LayoutFloating LayoutFloatingProps LayoutOutput LayoutWorkspace LayoutWorkspaceOps LayoutWorkspaceProps LayoutMonitor LayoutMonitorOps LayoutMonitorMoves LayoutMonitorSwitch LayoutMonitorJoin.

(** ** The operations *)
Inductive MonOp :=
| MopAddTile (t : Tile) (target : MonitorAddWindowTarget) (activate : ActivateWindow)
    (allow_to_activate_workspace : bool) (width : ColumnWidth) (is_full_width is_floating : bool)
| MopAddTileToColumn (workspace_idx column_idx : nat) (tile_idx : option nat) (t : Tile)
    (activate allow_to_activate_workspace : bool)
| MopAddColumn (workspace_idx : nat) (column : Column) (activate : bool)
| MopRemoveWindow (window : N)
| MopWorkspace (idx : nat) (op : WsOp)
| MopMoveToUp (focus : bool)
| MopMoveToDown (focus : bool)
| MopMoveTo (window : option N) (idx : nat) (activate : ActivateWindow)
| MopMoveColumnUp (activate : bool)
| MopMoveColumnDown (activate : bool)
| MopMoveColumnTo (idx : nat) (activate : bool)
| MopMoveDownOrTo
| MopMoveUpOrTo
| MopFocusDownOrTo
| MopFocusUpOrTo
| MopSwitchUp
| MopSwitchDown
| MopSwitch (idx : nat)
| MopSwitchBackAndForth (idx : nat)
| MopSwitchPrevious
| MopAdvanceAnimations (done : bool)
| MopMoveWorkspaceDown
| MopMoveWorkspaceUp
| MopMoveWorkspaceToIdx (old_idx new_idx : nat)
| MopUnname (id : N)
| MopUpdateConfig (base_options : Options)
| MopUpdateLayoutConfig (layout_config : option LayoutPart)
| MopOverview (open : bool)
| MopGestureBegin (render_idx : f64) (is_touchpad : bool)
| MopGestureUpdate (zoom pos : f64) (is_touchpad : bool)
| MopGestureEnd (pos : f64) (is_touchpad : option bool)
| MopDndBegin (render_idx : f64)
| MopDndScroll (pos : f64)
| MopDndEnd (pos : f64)
| MopRemoveWorkspace (idx : nat)
| MopInsertWorkspace (ws : Workspace) (idx : nat) (activate : bool)
| MopAppendWorkspaces (l : list Workspace).

(** The windows that leave with a removed workspace. *)
Definition run_mon_op (parent_of : N → option N) (g : Placement) (m : Monitor) (op : MonOp) :
    Fresh (Monitor * list N) :=
  let keep (o : Fresh Monitor) : Fresh (Monitor * list N) := m ← o; mret (m, []) in
  let keep_o (o : option Monitor) : Fresh (Monitor * list N) := keep (lift o) in
  match op with
  | MopAddTile t tg a allow w full fl => keep (mon_add_tile parent_of m t tg a allow w full fl)
  | MopAddTileToColumn i j k t a allow => keep_o (mon_add_tile_to_column m i j k t a allow)
  | MopAddColumn i col a => keep (mon_add_column m i col a)
  | MopRemoveWindow w =>
      r ← lift (mon_remove_window g m w);
      mret match r with Some (t, m) => (m, [tl_window (rt_tile t)]) | None => (m, []) end
  | MopWorkspace i op =>
      r ← lift (on_workspace m i (λ ws, r ← run_ws_op parent_of g ws op; Some (snd r, fst r)));
      mret (snd r, fst r)
  | MopMoveToUp f => keep (move_to_workspace_up parent_of g m f)
  | MopMoveToDown f => keep (move_to_workspace_down parent_of g m f)
  | MopMoveTo w i a => keep (move_to_workspace parent_of g m w i a)
  | MopMoveColumnUp a => keep (move_column_to_workspace_up parent_of g m a)
  | MopMoveColumnDown a => keep (move_column_to_workspace_down parent_of g m a)
  | MopMoveColumnTo i a => keep (move_column_to_workspace parent_of g m i a)
  | MopMoveDownOrTo => keep (move_down_or_to_workspace_down parent_of g m)
  | MopMoveUpOrTo => keep (move_up_or_to_workspace_up parent_of g m)
  | MopFocusDownOrTo => keep_o (focus_window_or_workspace_down parent_of g m)
  | MopFocusUpOrTo => keep_o (focus_window_or_workspace_up parent_of g m)
  | MopSwitchUp => keep_o (switch_workspace_up m)
  | MopSwitchDown => keep_o (switch_workspace_down m)
  | MopSwitch i => keep_o (switch_workspace m i)
  | MopSwitchBackAndForth i => keep_o (switch_workspace_auto_back_and_forth m i)
  | MopSwitchPrevious => keep_o (switch_workspace_previous m)
  | MopAdvanceAnimations b => keep_o (mon_advance_animations m b)
  | MopMoveWorkspaceDown => keep (move_workspace_down m)
  | MopMoveWorkspaceUp => keep (move_workspace_up m)
  | MopMoveWorkspaceToIdx i j => keep (move_workspace_to_idx m i j)
  | MopUnname id => keep_o (r ← unname_workspace m id; Some (fst r))
  | MopUpdateConfig o => keep (mon_update_config m o)
  | MopUpdateLayoutConfig lc => keep (r ← mon_update_layout_config m lc; mret (fst r))
  | MopOverview b => keep (mret (set_mo_overview_open b m))
  | MopGestureBegin x t => keep (mret (workspace_switch_gesture_begin m x t))
  | MopGestureUpdate z p t => keep_o (r ← workspace_switch_gesture_update m z p t; Some (fst r))
  | MopGestureEnd p t => keep_o (r ← workspace_switch_gesture_end m p t; Some (fst r))
  | MopDndBegin x => keep (mret (mon_dnd_scroll_gesture_begin m x))
  | MopDndScroll p => keep_o (dnd_scroll_to m p)
  | MopDndEnd p => keep_o (mon_dnd_scroll_gesture_end m p)
  | MopRemoveWorkspace i => r ← remove_workspace_by_idx m i; mret (snd r, ws_windows (fst r))
  | MopInsertWorkspace ws i a => keep (insert_workspace m ws i a)
  | MopAppendWorkspaces l => keep (append_workspaces m l)
  end.

Definition mon_added (op : MonOp) : list N :=
  match op with
  | MopAddTile t _ _ _ _ _ _ | MopAddTileToColumn _ _ _ t _ _ => [tl_window t]
  | MopAddColumn _ col _ => col_windows col
  | MopInsertWorkspace ws _ _ => ws_windows ws
  | MopAppendWorkspaces l => wss_windows l
  | _ => []
  end.

(** The operations of a workspace that neither add nor remove windows. *)
Definition ws_op_inside (op : WsOp) : Prop :=
  match op with
  | WopAddTile _ _ _ _ _ _ | WopAddTileToColumn _ _ _ _ | WopAddColumn _ _ | WopRemoveTile _
  | WopRemoveActiveTile | WopRemoveActiveColumn => False
  | _ => True
  end.

(** What the callers provide. *)
Definition mon_op_pre par (c : N) (m : Monitor) (op : MonOp) : Prop :=
  NoDup (mon_added op ++ mon_windows m) ∧
  match op with
  | MopAddTile _ target _ _ _ _ _ => mon_target_ok m target
  | MopAddTileToColumn i j k _ _ _ =>
      ∃ ws col, m.(mo_workspaces) !! i = Some ws ∧ ws.(ws_scrolling).(sc_columns) !! j = Some col ∧
        default (length col.(co_tiles)) k ≤ length col.(co_tiles)
  | MopAddColumn i col _ => i < mo_count m ∧ column_ok col
  | MopRemoveWindow w | MopMoveTo (Some w) _ _ => w ∈ mon_windows m
  | MopWorkspace i op =>
      ws_op_inside op ∧ ∃ ws, m.(mo_workspaces) !! i = Some ws ∧ ws_op_pre ws op
  | MopGestureBegin x _ | MopDndBegin x => f64_ok x
  | MopGestureUpdate _ x _ | MopGestureEnd x _ | MopDndScroll x | MopDndEnd x => f64_ok x
  | MopRemoveWorkspace i => i < mo_count m
  | MopInsertWorkspace ws i _ => i ≤ mo_count m ∧ base_stack par c (ws :: m.(mo_workspaces))
  | MopAppendWorkspaces l => base_stack par c (l ++ m.(mo_workspaces)) ∧ Forall occupied l
  | _ => True
  end.

Definition mon_arrived (op : MonOp) : list Workspace :=
  match op with MopInsertWorkspace ws _ _ => [ws] | MopAppendWorkspaces l => l | _ => [] end.

(** The two operations that hand down a setting of the layout. *)
Definition mon_base (op : MonOp) (m : Monitor) : Monitor :=
  match op with
  | MopUpdateConfig base_options => set_mo_options base_options m.(mo_options) m
  | MopOverview open => set_mo_overview_open open m
  | _ => m
  end.

(** The result of an operation: the invariant holds, no window is lost or duplicated, and the
    ids are old, new or of the workspaces that arrived. *)
Record mon_op_ok par (c : N) (m : Monitor) (op : MonOp) (r : Monitor * list N) (c' : N) : Prop := {
  mr_ok : monitor_ok par c' (fst r);
  mr_windows : snd r ++ mon_windows (fst r) ≡ₚ mon_added op ++ mon_windows m;
  mr_counter : (c ≤ c' ≤ c + 2)%N;
  mr_kept : mo_kept (fst r) = mo_kept (mon_base op m);
  mr_ids : new_ids m.(mo_output) c (mon_arrived op ++ m.(mo_workspaces)) c' (fst r).(mo_workspaces)
}.

Section ops.
  Context (par : N → option N) (Hcycle : no_cycle par) (g : Placement).

Lemma base_windows op m :
  mon_windows (mon_base op m) = mon_windows m ∧ (mon_base op m).(mo_workspaces) = m.(mo_workspaces) ∧
  (mon_base op m).(mo_output) = m.(mo_output).
Proof. by destruct op. Qed.

Lemma keeps_op_wp c m op (o : Fresh Monitor) :
  mon_added op = [] ∧ mon_arrived op = [] → wp o (mon_keeps par c (mon_base op m)) c →
  wp (m' ← o; mret (m', [])) (mon_op_ok par c m op) c.
Proof.
  intros [Ha Hr] Ho. apply wp_bind. eapply wp_weaken; [exact Ho|]. intros m' c' [H1 H2 H3 H4 H5].
  destruct (base_windows op m) as (E1 & E2 & E3). rewrite E1 in H2. rewrite E2, E3 in H5.
  apply wp_ret. split; [done|by rewrite Ha|done|done|by rewrite Hr].
Qed.

Lemma keeps_op_runs c m op (o : option Monitor) :
  mon_added op = [] ∧ mon_arrived op = [] → runs o (λ m', mon_keeps par c (mon_base op m) m' c) →
  wp (m' ← lift o; mret (m', [])) (mon_op_ok par c m op) c.
Proof. intros Ha Ho. apply keeps_op_wp; [done|]. by apply wp_lift. Qed.

Lemma keeps_op_fst {B} c m op (o : option (Monitor * B)) :
  mon_added op = [] ∧ mon_arrived op = [] → runs o (λ r, mon_keeps par c (mon_base op m) (fst r) c) →
  wp (m' ← lift (r ← o; Some (fst r)); mret (m', [])) (mon_op_ok par c m op) c.
Proof.
  intros Ha Ho. apply keeps_op_runs; [done|]. eapply runs_bind; [exact Ho|].
  intros r Hr. by apply runs_ret.
Qed.

Lemma joined_op_wp c m op k (o : Fresh Monitor) :
  mon_added op = k ∧ mon_arrived op = [] ∧ mon_base op m = m → monitor_ok par c m →
  wp o (joined par c m k) c → wp (m' ← o; mret (m', [])) (mon_op_ok par c m op) c.
Proof.
  intros (Ha & Hr & Hb) [_ Hm]%monitor_ok_loose Ho. apply wp_bind. eapply wp_weaken; [exact Ho|].
  intros m' c' [H1 H2 H3 H4 H5 H6]. apply wp_ret.
  split; [|by rewrite Ha|done|by rewrite Hb|by rewrite Hr]. apply monitor_ok_loose. auto.
Qed.

Lemma arrival_op_wp c m op l (o : Fresh Monitor) :
  mon_added op = wss_windows l ∧ mon_arrived op = l ∧ mon_base op m = m → wp o (mon_arrival par c m l) c →
  wp (m' ← o; mret (m', [])) (mon_op_ok par c m op) c.
Proof.
  intros (Ha & Hr & Hb) Ho. apply wp_bind. eapply wp_weaken; [exact Ho|]. intros m' c' [H1 H2 H3 H4 H5].
  apply wp_ret. split; [done|by rewrite Ha|done|by rewrite Hb|by rewrite Hr].
Qed.

(** A workspace with windows is not one of the empty ones at the ends. *)
Lemma filled_ok c m i ws ws' k :
  monitor_ok par c m → m.(mo_workspaces) !! i = Some ws → ws_windows ws ≠ [] →
  added_windows par k ws ws' → NoDup (k ++ mon_windows m) →
  let m1 := set_mo_workspaces (<[i:=own_workspace m.(mo_output) ws']> m.(mo_workspaces)) m in
  monitor_ok par c m1 ∧ mon_windows m1 ≡ₚ k ++ mon_windows m ∧
  new_ids m.(mo_output) c m.(mo_workspaces) c m1.(mo_workspaces).
Proof.
  intros [[Hst Hends Hsw Hop] Hmid]%monitor_ok_loose Hi Hne Hadd Hnd m1.
  destruct (stack_added par _ _ c _ i ws ws' k Hst Hi Hadd Hnd) as [Hst1 Hw1]. split_and!; [|done|].
  2:{ eapply new_ids_update; [done|]. apply own_descends, meta_descends, Hadd. }
  assert (Hocc : occupied (own_workspace m.(mo_output) ws')).
  { apply own_workspace_occupied, occupied_by_window. destruct Hadd as (_ & Hw & _).
    rewrite (perm_nil _ _ Hw). intros [_ E]%app_eq_nil. done. }
  apply lookup_lt_Some in Hi as Hlt. apply monitor_ok_loose. split; [split; [done| | |done]|].
  - eapply update_ends_vacant; [done| |done]. intros [Hv _]. by rewrite (vacant_windows _ Hv) in Hne.
  - apply switch_ok_update; [apply length_insert|done].
  - intros Hn j x Hs Hjl Ha _ Hx. destruct (decide (j = i)) as [->|Hji].
    + cbn in Hx. rewrite list_lookup_insert_eq in Hx by done. by injection Hx as <-.
    + eapply (update_middle m i _ (Hmid Hn) j); try done. congruence.
Qed.

Lemma add_tile_to_column_op_wp c m i j k t a allow :
  monitor_ok par c m → mon_op_pre par c m (MopAddTileToColumn i j k t a allow) →
  wp (m' ← lift (mon_add_tile_to_column m i j k t a allow); mret (m', []))
    (mon_op_ok par c m (MopAddTileToColumn i j k t a allow)) c.
Proof.
  intros Hok [Hnd (ws & col & Hws & Hcol & Hk)]. cbn [mon_added] in Hnd.
  pose proof Hok as [Hl _]%monitor_ok_loose. pose proof (loose_workspace _ _ _ _ _ Hl Hws) as Hwok.
  apply wp_bind, wp_lift. unfold mon_add_tile_to_column, add_to_workspace. rewrite Hws.
  destruct (ws_add_tile_to_column_runs par Hcycle ws j k t a col) as (ws' & E & Hadd); try done.
  { pose proof (NoDup_one_workspace [tl_window t] _ _ _ Hws Hnd) as [H _]%NoDup_cons. done. }
  cbn [mbind option_bind]. rewrite E. cbn [mbind option_bind].
  destruct (filled_ok c m i ws ws' [tl_window t]) as (Hok1 & Hw1 & Hid1); try done.
  { unfold ws_windows. intros [Ew _]%app_eq_nil. apply windows_nil in Ew; [|apply Hwok].
    by rewrite Ew in Hcol. }
  set (m1 := set_mo_workspaces _ m) in *. destruct (allow && a).
  - eapply runs_weaken; [apply (activate_outcome par c m1 i Hok1)|].
    + unfold m1. rewrite update_count. by apply lookup_lt_Some in Hws.
    + intros m2 [H1 H2 H3 H4 H5]. apply wp_ret. split; [done| |done|done|].
      * cbn in *. by rewrite H2, Hw1.
      * by eapply (new_ids_trans _ _ _ c); [lia|exact Hid1|].
  - apply runs_ret, wp_ret. split; [done|exact Hw1|cbn; lia|done|done].
Qed.

Lemma workspace_op_wp c m i op :
  monitor_ok par c m → mon_op_pre par c m (MopWorkspace i op) →
  wp (run_mon_op par g m (MopWorkspace i op)) (mon_op_ok par c m (MopWorkspace i op)) c.
Proof.
  intros Hok [_ (Hin & ws & Hws & Hpre)]. cbn [run_mon_op]. unfold on_workspace. rewrite Hws.
  pose proof Hok as [Hl _]%monitor_ok_loose. pose proof (loose_workspace _ _ _ _ _ Hl Hws) as Hwok.
  destruct (run_ws_op_runs par Hcycle g ws op Hwok Hpre) as ([ws' removed] & E & H1 & H2 & H3).
  assert (Hnone : ws_added op = [] ∧ removed = []).
  { destruct op; try done; split; try done; cbn [run_ws_op] in E;
      apply fmap_Some in E as (? & _ & E); by injection E. }
  destruct Hnone as [Ha ->]. rewrite Ha in H2. cbn in *. rewrite E. cbn.
  apply wp_bind, wp_lift, runs_ret, wp_ret. cbn.
  destruct (kept_workspace par c m i ws ws' Hok Hws) as [G1 G2 G3 G4 G5]; [by split_and!|].
  by split.
Qed.

Lemma overview_keeps c m b :
  monitor_ok par c m → mon_keeps par c (set_mo_overview_open b m) (set_mo_overview_open b m) c.
Proof.
  intros [Hst [[H1 H2 H3 H4] Hm Hs] Ho]. split; [|done|lia|done|apply new_ids_refl].
  by split; [|split; [split|..]|].
Qed.

Lemma run_mon_op_wp c m op :
  monitor_ok par c m → mon_op_pre par c m op → room 2 c →
  wp (run_mon_op par g m op) (mon_op_ok par c m op) c.
Proof.
  intros Hok Hpre Hr. pose proof Hpre as [Hnd Hop]. pose proof Hok as [Hl _]%monitor_ok_loose.
  destruct op; cbn [run_mon_op mon_added] in *.
  - eapply joined_op_wp; [done|done|]. apply mon_add_tile_wp; [done..|]. by apply NoDup_cons in Hnd as [].
  - by apply add_tile_to_column_op_wp.
  - destruct Hop. eapply joined_op_wp; [done|done|]. by apply mon_add_column_wp.
  - apply wp_bind, wp_lift. eapply runs_weaken; [by apply mon_remove_window_runs|].
    intros r (t & m' & -> & Ht & [H1 H2 H3 H4 H5]). apply wp_ret. cbn. rewrite Ht. by split.
  - by apply workspace_op_wp.
  - apply keeps_op_wp; [done|]. by apply move_to_workspace_up_wp.
  - apply keeps_op_wp; [done|]. by apply move_to_workspace_down_wp.
  - apply keeps_op_wp; [done|]. apply move_to_workspace_wp; [done..|]. intros w ->. done.
  - apply keeps_op_wp; [done|]. by apply move_column_to_workspace_up_wp.
  - apply keeps_op_wp; [done|]. by apply move_column_to_workspace_down_wp.
  - apply keeps_op_wp; [done|]. by apply move_column_to_workspace_wp.
  - apply keeps_op_wp; [done|]. by apply move_down_or_to_workspace_down_wp.
  - apply keeps_op_wp; [done|]. by apply move_up_or_to_workspace_up_wp.
  - apply keeps_op_runs; [done|].
    eapply (runs_bind _ _ (λ k, runs k (λ m', mon_keeps par c m m' c))); [|done].
    apply (active_or_runs par Hcycle g c m _ WopFocusDown); [done..|intros ws; by apply plain_pre| |].
    + intros m1 H1. by apply runs_ret.
    + intros m1 H1. eapply runs_weaken; [eapply switch_workspace_down_runs; [apply H1|done]|].
      intros m2 H2. by eapply outcome_trans.
  - apply keeps_op_runs; [done|].
    eapply (runs_bind _ _ (λ k, runs k (λ m', mon_keeps par c m m' c))); [|done].
    apply (active_or_runs par Hcycle g c m _ WopFocusUp); [done..|intros ws; by apply plain_pre| |].
    + intros m1 H1. by apply runs_ret.
    + intros m1 H1. eapply runs_weaken; [eapply switch_workspace_up_runs; [apply H1|done]|].
      intros m2 H2. by eapply outcome_trans.
  - apply keeps_op_runs; [done|]. by eapply switch_workspace_up_runs.
  - apply keeps_op_runs; [done|]. by eapply switch_workspace_down_runs.
  - apply keeps_op_runs; [done|]. by apply switch_workspace_runs.
  - apply keeps_op_runs; [done|]. by apply switch_workspace_auto_back_and_forth_runs.
  - apply keeps_op_runs; [done|]. by apply switch_workspace_previous_runs.
  - apply keeps_op_runs; [done|]. by apply mon_advance_animations_runs.
  - apply keeps_op_wp; [done|]. by apply move_workspace_down_wp.
  - apply keeps_op_wp; [done|]. by apply move_workspace_up_wp.
  - apply keeps_op_wp; [done|]. by apply move_workspace_to_idx_wp.
  - apply keeps_op_fst; [done|]. by apply unname_workspace_runs.
  - apply keeps_op_wp; [done|]. by apply mon_update_config_wp; [apply Hok..|].
  - apply keeps_op_wp; [done|]. apply wp_bind.
    eapply wp_weaken; [by apply mon_update_layout_config_wp|]. intros r c' H. by apply wp_ret.
  - apply keeps_op_wp; [done|]. apply wp_ret. by apply overview_keeps.
  - apply keeps_op_wp; [done|]. apply wp_ret. by apply gesture_begin_keeps.
  - apply keeps_op_fst; [done|]. by eapply gesture_update_runs.
  - apply keeps_op_fst; [done|]. by eapply gesture_end_runs.
  - apply keeps_op_wp; [done|]. apply wp_ret. by apply dnd_begin_keeps.
  - apply keeps_op_runs; [done|]. by eapply dnd_scroll_to_runs.
  - apply keeps_op_runs; [done|]. by eapply dnd_end_runs.
  - destruct (lookup_workspace m idx Hop) as [ws Hws]. apply wp_bind.
    eapply wp_weaken; [by apply remove_workspace_by_idx_wp|]. intros [ws' m'] c' (E & [H1 H2 H3 H4 H5] & _).
    cbn in *. apply wp_ret. subst ws'. cbn.
    split; [done|by cbn; rewrite (proj1 (set_output_same None ws))|done|done|done].
  - destruct Hop. apply (arrival_op_wp c m _ [ws]); [by split; [cbn; rewrite app_nil_r|]|].
    by apply insert_workspace_wp.
  - destruct Hop. by apply (arrival_op_wp c m _ l), append_workspaces_wp.
Qed.

End ops.

(** ** Reachable monitors *)

(** One operation; the counter is far from its bound. *)
Inductive mon_step (par : N → option N) (g : Placement) : N * Monitor → N * Monitor → Prop :=
| mon_op_step c m op m' removed c' :
    mon_op_pre par c m op → room 2 c → run_mon_op par g m op c = Some ((m', removed), c') →
    mon_step par g (c, m) (c', m').

(** A monitor as it is when its output is connected and no workspace is left to show. *)
Inductive fresh_monitor : N * Monitor → Prop :=
| fresh_monitor_intro c output base layout_config m c' :
    room 2 c → Monitor_new output [] None base layout_config c = Some (m, c') →
    fresh_monitor (c', m).

Section reachable.
  Context (par : N → option N) (Hcycle : no_cycle par) (g : Placement).

Lemma mon_step_ok s s' : mon_step par g s s' → monitor_ok par s.1 s.2 → monitor_ok par s'.1 s'.2.
Proof.
  intros [c m op m' removed c' Hpre Hr E] Hok. cbn in *.
  destruct (run_mon_op_wp par Hcycle g c m op Hok Hpre Hr) as (r & c2 & E2 & [H _ _ _ _]).
  rewrite E in E2. by injection E2 as <- <-.
Qed.

Lemma fresh_monitor_ok s : fresh_monitor s → monitor_ok par s.1 s.2.
Proof.
  intros [c out base lc m c' Hr E].
  destruct (Monitor_new_wp par c out [] None base lc) as (m2 & c2 & E2 & H & _);
    [by split; constructor|done|done|].
  rewrite E in E2. by injection E2 as <- <-.
Qed.

Lemma mon_steps_ok s s' : rtc (mon_step par g) s s' → monitor_ok par s.1 s.2 → monitor_ok par s'.1 s'.2.
Proof. induction 1; eauto using mon_step_ok. Qed.

End reachable.

(** C10: no operation of a monitor panics. In every monitor reached from a new one by adding,
    closing and moving windows, columns and workspaces, by switching, gestures and configuration
    changes, the workspaces are well formed and distinct, the active index is in range, the last
    workspace is empty (with [empty-workspace-above-first] also the first, and there are not two),
    an animation goes to the active workspace, and without a switch no other workspace in between
    is empty. Every operation whose arguments are in range runs, whatever the position of a
    gesture, and neither loses nor duplicates a window. *)
Theorem monitor_never_panics par g s0 c m :
  no_cycle par → fresh_monitor s0 → rtc (mon_step par g) s0 (c, m) →
  monitor_ok par c m ∧
  ∀ op, mon_op_pre par c m op → room 2 c →
    ∃ m' removed c', run_mon_op par g m op c = Some ((m', removed), c') ∧ monitor_ok par c' m' ∧
      removed ++ mon_windows m' ≡ₚ mon_added op ++ mon_windows m.
Proof.
  intros Hc Hf Hs. pose proof (mon_steps_ok par Hc g _ _ Hs (fresh_monitor_ok par _ Hf)) as Hok.
  split; [done|]. intros op Hpre Hr.
  destruct (run_mon_op_wp par Hc g c m op Hok Hpre Hr) as ([m' removed] & c' & E & [H1 H2 _ _ _]). eauto 10.
Qed.

(** ** Focus follows the workspace *)

(** Where a workspace is after the one at [old] went to [new]. *)
Lemma moved_lookup (l : list Workspace) old new ws a x :
  l !! old = Some ws → new < length l → l !! a = Some x →
  let l0 := take old l ++ drop (S old) l in
  (take new l0 ++ ws :: drop new l0) !! (active_after_move a old new) = Some x.
Proof.
  intros Hold Hnew Ha l0. apply lookup_lt_Some in Hold as Hol. apply lookup_lt_Some in Ha as Hal.
  assert (Hl0 : S (length l0) = length l) by (by eapply length_vec_remove).
  unfold active_after_move. destruct (Nat.eqb_spec a old) as [->|Hne].
  { rewrite vec_insert_lookup_eq by lia. congruence. }
  assert (Hlow : a < old → l0 !! a = Some x) by (intros; unfold l0; by rewrite vec_remove_lookup_lt).
  assert (Hhigh : old < a → l0 !! (a - 1) = Some x).
  { intros. unfold l0. rewrite vec_remove_lookup_ge by lia. by replace (S (a - 1)) with a by lia. }
  destruct (Nat.leb_spec new a), (Nat.ltb_spec a old); cbn [andb].
  - replace (a + 1) with (S a) by lia. rewrite vec_insert_lookup_ge by lia. by apply Hlow.
  - destruct (Nat.leb_spec a new), (Nat.ltb_spec old a); cbn [andb]; try lia.
    + rewrite vec_insert_lookup_lt by lia. by apply Hhigh.
    + destruct a as [|a]; [lia|]. rewrite vec_insert_lookup_ge by lia.
      rewrite <- Hhigh by lia. f_equal. lia.
  - destruct (Nat.leb_spec a new), (Nat.ltb_spec old a); cbn [andb]; try lia.
    rewrite vec_insert_lookup_lt by lia. by apply Hlow.
  - destruct (Nat.leb_spec a new), (Nat.ltb_spec old a); cbn [andb]; try lia.
    rewrite vec_insert_lookup_lt by lia. by apply Hhigh.
Qed.

Lemma move_workspace_focus_wp par c m old new x :
  monitor_ok par c m → room 2 c → old < mo_count m →
  mo_above_first m = false ∨ 0 < old ∧ 0 < new → m.(mo_workspaces) !! m.(mo_active) = Some x →
  wp (move_workspace_to_idx m old new) (λ m' _,
    m'.(mo_workspaces) !! m'.(mo_active) = Some x ∨ vacant x) c.
Proof.
  intros Hok Hr Hold Hflag Hx. pose proof (ok_active _ _ _ Hok) as Ha. unfold move_workspace_to_idx.
  destruct (Nat.leb_spec (mo_count m) old); [lia|].
  rewrite last_idx_some by lia. apply wp_bind, wp_lift, runs_ret.
  set (n := Nat.min new (mo_count m - 1)).
  assert (Hn : n ≤ mo_count m - 1) by (unfold n; lia).
  assert (Hflag' : mo_above_first m = false ∨ 0 < old ∧ 0 < n)
    by (destruct Hflag as [|[]]; [by left|right; unfold n; lia]).
  clearbody n. destruct (Nat.eqb_spec old n); [by apply wp_ret; left|].
  destruct (lookup_workspace m old) as [ws Hws]; [done|].
  rewrite (vec_remove_ok _ ws) by done. apply wp_bind, wp_lift, runs_ret.
  pose proof (length_vec_remove old ws m.(mo_workspaces) Hws) as Hlen. cbn [fst snd].
  rewrite vec_insert_ok by (unfold mo_count in *; lia). apply wp_bind, wp_lift, runs_ret, wp_bind.
  eapply wp_weaken; [apply (move_to_idx_pad_wp par c m old n ws); try done; lia|].
  intros [m2 i2] c2 (Hp & bottom & top & pre & post & Hpad & Htop & Hi2). cbn [fst snd] in *. subst i2.
  assert (Hpre : pre = []).
  { pose proof (pd_pre _ _ _ _ _ _ Hpad) as Hl.
    assert (Et : top = false).
    { rewrite Htop. destruct Hflag' as [->|[]]; [done|].
      rewrite (proj2 (Nat.eqb_neq _ _)) by lia. apply andb_false_r. }
    rewrite Et in Hl. by apply nil_length_inv. }
  subst pre. pose proof (padded_count _ _ _ _ _ _ Hpad) as Hc2. cbn [length Nat.add] in *.
  pose proof (moved_lookup m.(mo_workspaces) old n ws m.(mo_active) x) as Hl. cbn zeta in Hl.
  set (l := take n _ ++ ws :: _) in *.
  assert (Hl' : l !! active_after_move m.(mo_active) old n = Some x) by (apply Hl; [done|unfold mo_count in *; lia|done]).
  assert (Hl2 : m2.(mo_workspaces) !! active_after_move m2.(mo_active) old n = Some x).
  { rewrite (pd_workspaces _ _ _ _ _ _ Hpad), (pd_active _ _ _ _ _ _ Hpad). cbn.
    rewrite lookup_app_l; [done|]. by eapply lookup_lt_Some. }
  apply wp_lift. eapply runs_weaken; [apply (settle_at par c m [] []); [done|by eapply lookup_lt_Some]|].
  intros m3 [_ [_ _ _ _ _ _ H3]]. by apply H3.
Qed.

(** C32: moving a workspace to another place does not change which workspace is active. It
    may be the active workspace that moves, or the others may shift around it; only an empty and
    unnamed active workspace can be replaced by another empty one. With
    [empty-workspace-above-first] this needs the first place to stay out of the move. *)
Theorem move_workspace_keeps_focus par c m old new x :
  monitor_ok par c m → room 2 c → old < mo_count m →
  mo_above_first m = false ∨ 0 < old ∧ 0 < new →
  m.(mo_workspaces) !! m.(mo_active) = Some x → occupied x →
  ∃ m' c', move_workspace_to_idx m old new c = Some (m', c') ∧ monitor_ok par c' m' ∧
    m'.(mo_workspaces) !! m'.(mo_active) = Some x ∧ mon_windows m' ≡ₚ mon_windows m.
Proof.
  intros Hok Hr Hold Hflag Hx Hocc.
  destruct (move_workspace_focus_wp par c m old new x) as (m' & c' & E & H); [done..|].
  destruct (move_workspace_to_idx_wp par c m old new) as (m2 & c2 & E2 & [H1 H2 _ _ _]); [done..|].
  rewrite E in E2. injection E2 as <- <-. exists m', c'. split_and!; [done|done| |done].
  destruct H as [H|H]; [done|]. exfalso. by eapply occupied_not_vacant.
Qed.

(** ** Witnesses *)
Fixpoint run_mon_ops (m : Monitor) (ops : list MonOp) : Fresh Monitor :=
  match ops with
  | [] => mret m
  | op :: ops => r ← run_mon_op unparented sample_placement m op; run_mon_ops (fst r) ops
  end.

Definition mop_add (w : N) : MonOp :=
  MopAddTile (float_tile w) MonAuto ActivateYes true (WidthFixed f64_one) false false.

(** Two windows on workspaces of their own, the second one active. *)
Definition sample_mon_ops : list MonOp :=
  [mop_add 1; MopSwitchDown; mop_add 2; MopAdvanceAnimations true].

Definition sample_mon (above_first : bool) : option (Monitor * N) :=
  (m ← Monitor_new sample_output [] None (MkOptions DisplayNormal above_first) None;
   run_mon_ops m sample_mon_ops) 1%N.

Definition mon_state (o : option (Monitor * N)) : option (list (list N) * nat) :=
  (λ r, (ws_windows <$> (fst r).(mo_workspaces), (fst r).(mo_active))) <$> o.

Example sample_mon_below : mon_state (sample_mon false) = Some ([[1]; [2]; []]%N, 1).
Proof. vm_compute. reflexivity. Qed.

Example sample_mon_above : mon_state (sample_mon true) = Some ([[]; [1]; [2]; []]%N, 2).
Proof. vm_compute. reflexivity. Qed.

(** With an empty workspace above the first one, moving the active workspace to the front makes
    another workspace active: the new empty workspace shifts the active index, which is then
    compared with the index before the shift. *)
Theorem move_to_front_loses_focus :
  ∃ m c, sample_mon true = Some (m, c) ∧
    mon_state (Some (m, c)) = Some ([[]; [1]; [2]; []]%N, 2) ∧
    mon_state (move_workspace_to_idx m 2 0 c) = Some ([[]; [2]; [1]; []]%N, 2).
Proof. eexists _, _. split_and!; [vm_compute; reflexivity|vm_compute; reflexivity|vm_compute; reflexivity]. Qed.

Definition no_monitor : Monitor := MkMonitor sample_output [] 0 None None false float_options float_options None.

Definition after_ops (n : nat) : N * Monitor :=
  match (m ← Monitor_new sample_output [] None float_options None;
         run_mon_ops m (take n sample_mon_ops)) 1%N with
  | Some (m, c) => (c, m)
  | None => (0%N, no_monitor)
  end.

Definition mon0 : N * Monitor := Eval vm_compute in after_ops 0.
Definition mon1 : N * Monitor := Eval vm_compute in after_ops 1.
Definition mon2 : N * Monitor := Eval vm_compute in after_ops 2.
Definition mon3 : N * Monitor := Eval vm_compute in after_ops 3.
Definition mon4 : N * Monitor := Eval vm_compute in after_ops 4.

Lemma mon0_fresh : fresh_monitor mon0.
Proof. apply (fresh_monitor_intro 1 sample_output float_options None); [|vm_compute]; reflexivity. Qed.

(** Runs one of the sample operations. *)
Ltac sample_step op :=
  apply (mon_op_step _ _ _ _ op _ []);
  [split; [apply (bool_decide_unpack _); vm_compute; exact I|exact I]|reflexivity|vm_compute; reflexivity].

Lemma mon4_reached : rtc (mon_step unparented sample_placement) mon0 mon4.
Proof.
  apply rtc_l with mon1; [sample_step (mop_add 1)|].
  apply rtc_l with mon2; [sample_step MopSwitchDown|].
  apply rtc_l with mon3; [sample_step (mop_add 2)|].
  apply rtc_l with mon4; [sample_step (MopAdvanceAnimations true)|]. apply rtc_refl.
Qed.

Lemma monitor_never_panics_witness :
  (mo_active mon4.2 = 1 ∧ ws_windows <$> mo_workspaces mon4.2 = [[1]; [2]; []]%N) ∧
  ∃ m' removed c', run_mon_op unparented sample_placement mon4.2 (MopRemoveWindow 1) mon4.1 =
      Some ((m', removed), c') ∧ monitor_ok unparented c' m' ∧
    removed ++ mon_windows m' ≡ₚ mon_windows mon4.2.
Proof.
  split; [split; reflexivity|].
  destruct (monitor_never_panics unparented sample_placement mon0 mon4.1 mon4.2) as [_ H].
  - apply unparented_no_cycle.
  - exact mon0_fresh.
  - exact mon4_reached.
  - apply (H (MopRemoveWindow 1)); [|reflexivity].
    split; apply (bool_decide_unpack _); vm_compute; exact I.
Defined.

Lemma move_workspace_keeps_focus_witness :
  ∃ m' c', move_workspace_to_idx mon4.2 1 0 mon4.1 = Some (m', c') ∧ monitor_ok unparented c' m' ∧
    (∃ x, m'.(mo_workspaces) !! m'.(mo_active) = Some x ∧ ws_windows x = [2%N]) ∧
    mon_windows m' ≡ₚ mon_windows mon4.2.
Proof.
  destruct (lookup_workspace mon4.2 1) as [x Hx]; [vm_compute; lia|].
  destruct (move_workspace_keeps_focus unparented mon4.1 mon4.2 1 0 x) as (m' & c' & H1 & H2 & H3 & H4).
  - apply (mon_steps_ok unparented unparented_no_cycle sample_placement _ _ mon4_reached).
    exact (fresh_monitor_ok unparented _ mon0_fresh).
  - reflexivity.
  - vm_compute; lia.
  - left. reflexivity.
  - exact Hx.
  - vm_compute in Hx. injection Hx as <-. reflexivity.
  - exists m', c'. split_and!; [done|done| |done]. exists x. split; [done|].
    vm_compute in Hx. injection Hx as <-. reflexivity.
Defined.
