(* ===== verification/LayoutSet.v ===== *)
(** * The layout of all monitors (src/layout/mod.rs)

    [Layout] owns the monitors, or the workspaces that are left when no output is connected, and
    moves workspaces, columns and windows between monitors as outputs come and go.  An output is
    its name, as in LayoutOutput.v.  Windows that are being moved interactively and the height a
    new window asks for are left out; the width it asks for is an argument. *)
From stdpp Require Import gmap strings.
From S2P Require Import Prelude Float64 FloatRound LayoutScrolling LayoutFloating LayoutOutput LayoutWorkspace LayoutMonitor.

(** ** Data *)
Inductive MonitorSet :=
| SetNormal (monitors : list Monitor) (primary_idx active_monitor_idx : nat)
| SetNoOutputs (workspaces : list Workspace).

Record Layout := MkLayout {
  ly_set : MonitorSet;
  ly_last_active : gmap string N;
  ly_overview_open : bool;
  ly_options : Options
}.

Definition set_ly_set s (ly : Layout) : Layout :=
  MkLayout s ly.(ly_last_active) ly.(ly_overview_open) ly.(ly_options).
Definition set_ly_last_active l (ly : Layout) : Layout :=
  MkLayout ly.(ly_set) l ly.(ly_overview_open) ly.(ly_options).

Inductive AddWindowTarget :=
| AddAuto
| AddOutput (output : OutputName)
| AddWorkspace (id : N)
| AddNextTo (window : N).

Inductive WorkspaceReference :=
| RefId (id : N)
| RefIndex (index : nat)
| RefName (name : string).

(** ** Finding things *)

(** Runs [f] on one element after the other until it returns something. *)
Fixpoint first_that {A B} (f : A → option (A * option B)) (l : list A) : option (list A * option (nat * B)) :=
  match l with
  | [] => Some ([], None)
  | x :: l =>
      r ← f x;
      match snd r with
      | Some b => Some (fst r :: l, Some (0, b))
      | None =>
          r' ← first_that f l;
          Some (fst r :: fst r', match snd r' with Some (i, b) => Some (S i, b) | None => None end)
      end
  end.

Definition monitor_position (monitors : list Monitor) (output : OutputName) : option nat :=
  vec_position (λ m, bool_decide (m.(mo_output) = output)) monitors.

(** The first place in a list of stacks that satisfies [p]. *)
Fixpoint find_place (p : Workspace → bool) (stacks : list (list Workspace)) : option (nat * nat) :=
  match stacks with
  | [] => None
  | l :: stacks =>
      match vec_position p l with
      | Some j => Some (0, j)
      | None => '(i, j) ← find_place p stacks; Some (S i, j)
      end
  end.

Definition window_location (monitors : list Monitor) (window : N) : option (nat * nat) :=
  find_place (λ ws, has_window ws window) (mo_workspaces <$> monitors).

(** The workspaces in the order of [workspaces_mut], by monitor. *)
Definition ly_stacks (ly : Layout) : list (list Workspace) :=
  match ly.(ly_set) with
  | SetNormal monitors _ _ => mo_workspaces <$> monitors
  | SetNoOutputs workspaces => [workspaces]
  end.

Definition is_named (name : string) (ws : Workspace) : bool :=
  match ws.(ws_name) with Some n => eq_ignore_ascii_case n name | None => false end.

Definition find_workspace_by_name (ly : Layout) (name : string) : option (nat * nat) :=
  find_place (is_named name) (ly_stacks ly).

Definition find_workspace_by_id (ly : Layout) (id : N) : option (nat * nat) :=
  find_place (λ ws, N.eqb ws.(ws_id) id) (ly_stacks ly).

Definition find_named_workspace_index (m : Monitor) (name : string) : option nat :=
  vec_position (is_named name) m.(mo_workspaces).

(** The active monitor and its index, when there are outputs. *)
Definition active_monitor (ly : Layout) : option (option (nat * Monitor)) :=
  match ly.(ly_set) with
  | SetNormal monitors _ active => m ← monitors !! active; Some (Some (active, m))
  | SetNoOutputs _ => Some None
  end.

(** [RefIndex] counts the workspaces of the active monitor from one. *)
Definition find_workspace_by_ref (ly : Layout) (reference : WorkspaceReference) :
    option (option (nat * nat)) :=
  match reference with
  | RefIndex index =>
      a ← active_monitor ly;
      Some match a with
           | Some (i, m) => if index - 1 <? mo_count m then Some (i, index - 1) else None
           | None => None
           end
  | RefName name => Some (find_workspace_by_name ly name)
  | RefId id => Some (find_workspace_by_id ly id)
  end.

(** Where the active workspace is. *)
Definition active_place (ly : Layout) : option (option (nat * nat)) :=
  a ← active_monitor ly;
  Some match a with Some (i, m) => Some (i, m.(mo_active)) | None => None end.

Definition place_of (ly : Layout) (reference : option WorkspaceReference) : option (option (nat * nat)) :=
  match reference with Some r => find_workspace_by_ref ly r | None => active_place ly end.

(** ** Running operations of the parts *)
Definition with_monitor (ly : Layout) (i : nat) (f : Monitor → Fresh Monitor) : Fresh Layout :=
  match ly.(ly_set) with
  | SetNormal monitors primary active =>
      m ← lift (monitors !! i);
      m ← f m;
      mret (set_ly_set (SetNormal (<[i := m]> monitors) primary active) ly)
  | SetNoOutputs _ => mret ly
  end.

(** The methods that start with [let Some(monitor) = self.active_monitor() else { return }]. *)
Definition with_active_monitor (ly : Layout) (f : Monitor → Fresh Monitor) : Fresh Layout :=
  match ly.(ly_set) with
  | SetNormal _ _ active => with_monitor ly active f
  | SetNoOutputs _ => mret ly
  end.

(** Runs an operation of the workspace at a place. *)
Definition with_workspace {B} (ly : Layout) (place : nat * nat) (f : Workspace → option (B * Workspace)) :
    option (B * Layout) :=
  match ly.(ly_set) with
  | SetNormal monitors primary active =>
      m ← monitors !! fst place;
      r ← on_workspace m (snd place) f;
      Some (fst r, set_ly_set (SetNormal (<[fst place := snd r]> monitors) primary active) ly)
  | SetNoOutputs workspaces =>
      ws ← workspaces !! snd place;
      r ← f ws;
      Some (fst r, set_ly_set (SetNoOutputs (<[snd place := snd r]> workspaces)) ly)
  end.

(** The methods that start with [let Some(workspace) = self.active_workspace_mut() else { return }]. *)
Definition with_active_workspace {B} (ly : Layout) (default : B)
    (f : Workspace → option (B * Workspace)) : option (B * Layout) :=
  place ← active_place ly;
  match place with Some place => with_workspace ly place f | None => Some (default, ly) end.

(** The methods that look a window up, or take the active workspace. *)
Definition with_window_workspace {B} (ly : Layout) (window : option N) (default : B)
    (f : Workspace → option (B * Workspace)) : option (B * Layout) :=
  match window with
  | Some window =>
      place ← find_place (λ ws, has_window ws window) (ly_stacks ly); with_workspace ly place f
  | None => with_active_workspace ly default f
  end.

(** ** Creation *)
Definition with_options (options : Options) : Layout :=
  MkLayout (SetNoOutputs []) ∅ false options.

Definition with_options_and_workspaces (configs : list WorkspaceConfig) (options : Options) :
    Fresh Layout :=
  workspaces ← mapM (λ config, id ← next_id;
                               mret (new_with_config_no_outputs id (Some config) options)) configs;
  mret (MkLayout (SetNoOutputs workspaces) ∅ false options).

(** ** Outputs *)

(** The workspaces of the primary monitor that belong to a new output leave it, from the last one
    on; the result has whether a switch was stopped. *)
Fixpoint reclaim (output : OutputName) (indices : list nat) (primary : Monitor)
    (workspaces : list Workspace) (stopped : bool) : option (Monitor * list Workspace * bool) :=
  match indices with
  | [] => Some (primary, workspaces, stopped)
  | i :: indices =>
      ws ← primary.(mo_workspaces) !! i;
      if output_matches output ws.(ws_original_output) then
        r ← vec_remove i primary.(mo_workspaces);
        let active := primary.(mo_active) in
        let active' := if (i <=? active) && negb (mo_above_first primary && (active =? 1))
                       then active - 1 else active in
        reclaim output indices
          (set_mo_active active' (set_mo_switch None (set_mo_workspaces (snd r) primary)))
          (if has_windows_or_name ws then workspaces ++ [ws] else workspaces)
          (stopped || negb (settled primary))
      else reclaim output indices primary workspaces stopped
  end.

Definition reclaim_workspaces (output : OutputName) (primary : Monitor) : option (Monitor * list Workspace) :=
  r ← reclaim output (rev (seq 0 (mo_count primary))) primary [] false;
  let '(primary, workspaces, stopped) := r in
  primary ← (if stopped || (mo_above_first primary && (mo_count primary =? 2))
             then clean_up_workspaces primary else Some primary);
  Some (primary, rev workspaces).

(** [Monitor::new] with the last active workspace and the state of the overview. *)
Definition connect (ly : Layout) (output : OutputName) (workspaces : list Workspace)
    (layout_config : option LayoutPart) : Fresh Monitor :=
  m ← Monitor_new output workspaces (ly.(ly_last_active) !! output.(on_connector)) ly.(ly_options)
        layout_config;
  mret (set_mo_overview_open ly.(ly_overview_open) m).

Definition add_output (ly : Layout) (output : OutputName) (layout_config : option LayoutPart) :
    Fresh Layout :=
  let ly' := set_ly_last_active (delete output.(on_connector) ly.(ly_last_active)) ly in
  match ly.(ly_set) with
  | SetNormal monitors primary_idx active_monitor_idx =>
      primary ← lift (monitors !! primary_idx);
      r ← lift (reclaim_workspaces output primary);
      monitor ← connect ly output (snd r) layout_config;
      mret (set_ly_set (SetNormal (<[primary_idx := fst r]> monitors ++ [monitor])
                          primary_idx active_monitor_idx) ly')
  | SetNoOutputs workspaces =>
      monitor ← connect ly output workspaces layout_config;
      mret (set_ly_set (SetNormal [monitor] 0 0) ly')
  end.

Definition remove_output (ly : Layout) (output : OutputName) : Fresh Layout :=
  match ly.(ly_set) with
  | SetNormal monitors primary_idx active_monitor_idx =>
      idx ← lift (monitor_position monitors output);
      r ← lift (vec_remove idx monitors);
      let '(monitor, monitors) := r in
      ws ← lift (monitor.(mo_workspaces) !! monitor.(mo_active));
      let ly := set_ly_last_active (<[monitor.(mo_output).(on_connector) := ws.(ws_id)]>
                                      ly.(ly_last_active)) ly in
      let workspaces := into_workspaces monitor in
      match monitors with
      | [] => mret (set_ly_set (SetNoOutputs (ws_update_config ly.(ly_options) <$> workspaces)) ly)
      | _ =>
          let primary_idx := if idx <=? primary_idx then primary_idx - 1 else primary_idx in
          let active_monitor_idx :=
            if idx <=? active_monitor_idx then active_monitor_idx - 1 else active_monitor_idx in
          primary ← lift (monitors !! primary_idx);
          primary ← append_workspaces primary workspaces;
          mret (set_ly_set (SetNormal (<[primary_idx := primary]> monitors) primary_idx
                              active_monitor_idx) ly)
      end
  | SetNoOutputs _ => lift None
  end.

Definition focus_output (ly : Layout) (output : OutputName) : Layout :=
  match ly.(ly_set) with
  | SetNormal monitors primary _ =>
      match monitor_position monitors output with
      | Some idx => set_ly_set (SetNormal monitors primary idx) ly
      | None => ly
      end
  | SetNoOutputs _ => ly
  end.

(** ** Configuration *)
Definition update_options (ly : Layout) (options : Options) : Fresh Layout :=
  s ← match ly.(ly_set) with
      | SetNormal monitors primary active =>
          monitors ← mapM (λ m, mon_update_config m options) monitors;
          mret (SetNormal monitors primary active)
      | SetNoOutputs workspaces => mret (SetNoOutputs (ws_update_config options <$> workspaces))
      end;
  mret (MkLayout s ly.(ly_last_active) ly.(ly_overview_open) options).

Definition update_named (configs : list WorkspaceConfig) (ws : Workspace) : Workspace :=
  match ws.(ws_name) with
  | None => ws
  | Some name =>
      match List.find (λ config, String.eqb config.(wc_name) name) configs with
      | Some config => ws_update_layout_config config.(wc_layout) ws
      | None => ws
      end
  end.

Definition update_config (ly : Layout) (configs : list WorkspaceConfig) (options : Options) :
    Fresh Layout :=
  let s := match ly.(ly_set) with
           | SetNormal monitors primary active =>
               SetNormal ((λ m, set_mo_workspaces (update_named configs <$> m.(mo_workspaces)) m) <$> monitors)
                 primary active
           | SetNoOutputs workspaces => SetNoOutputs (update_named configs <$> workspaces)
           end in
  update_options (set_ly_set s ly) options.

(** [set_monitors_overview_state]. *)
Definition set_overview (b : bool) (ly : Layout) : Layout :=
  let s := match ly.(ly_set) with
           | SetNormal monitors primary active =>
               SetNormal (set_mo_overview_open b <$> monitors) primary active
           | SetNoOutputs _ => ly.(ly_set)
           end in
  MkLayout s ly.(ly_last_active) b ly.(ly_options).

Definition toggle_overview (ly : Layout) : Layout := set_overview (negb ly.(ly_overview_open)) ly.

Definition open_overview (ly : Layout) : Layout * bool :=
  if ly.(ly_overview_open) then (ly, false) else (toggle_overview ly, true).

Definition close_overview (ly : Layout) : Layout * bool :=
  if ly.(ly_overview_open) then (toggle_overview ly, true) else (ly, false).

Definition toggle_overview_to_workspace (ly : Layout) (ws_idx : nat) : Fresh Layout :=
  ly ← with_active_monitor ly (λ m, lift (activate_workspace m ws_idx));
  mret (toggle_overview ly).

(** ** Named workspaces *)
Definition set_name (m : Monitor) (idx : nat) (name : string) : option Monitor :=
  r ← on_workspace m idx (λ ws, Some (tt, set_ws_name (Some name) ws)); Some (snd r).

(** Names the last workspace; the new index of that workspace. *)
Definition name_last (m : Monitor) (name : string) : Fresh (Monitor * option nat) :=
  match last_idx m with
  | None => mret (m, None)
  | Some idx =>
      ws ← lift (m.(mo_workspaces) !! idx);
      m ← (if has_windows_or_name ws then add_workspace_bottom m else mret m);
      match last_idx m with
      | None => mret (m, None)
      | Some idx =>
          m ← lift (set_name m idx name);
          r ← pad_workspaces m idx;
          mret (fst r, Some (snd r))
      end
  end.

Definition name_last_of (ly : Layout) (monitor_idx : nat) (name : string) : Fresh (Layout * option nat) :=
  match ly.(ly_set) with
  | SetNormal monitors primary active =>
      m ← lift (monitors !! monitor_idx);
      r ← name_last m name;
      mret (set_ly_set (SetNormal (<[monitor_idx := fst r]> monitors) primary active) ly, snd r)
  | SetNoOutputs _ => mret (ly, None)
  end.

Definition ensure_named_workspace_on_active_monitor (ly : Layout) (name : string) :
    Fresh (Layout * option nat) :=
  a ← lift (active_monitor ly);
  match a with
  | None => mret (ly, None)
  | Some (i, m) =>
      match find_named_workspace_index m name with
      | Some idx => mret (ly, Some idx)
      | None => name_last_of ly i name
      end
  end.

Definition ensure_named_workspace_on_monitor (ly : Layout) (name : string) (output_name : option string) :
    Fresh (Layout * option nat) :=
  match find_workspace_by_name ly name with
  | Some place => mret (ly, Some (snd place))
  | None =>
      match ly.(ly_set) with
      | SetNoOutputs _ => mret (ly, None)
      | SetNormal monitors _ active =>
          let target := output_name ≫= λ name,
            vec_position (λ m, String.eqb m.(mo_output).(on_connector) name) monitors in
          name_last_of ly (default active target) name
      end
  end.

Definition ensure_named_workspace (ly : Layout) (config : WorkspaceConfig) : Fresh Layout :=
  match find_workspace_by_name ly config.(wc_name) with
  | Some _ => mret ly
  | None =>
      match ly.(ly_set) with
      | SetNormal monitors primary active =>
          let mon_idx :=
            match config.(wc_open_on_output) with
            | Some name =>
                default primary (vec_position (λ m, output_matches m.(mo_output) name) monitors)
            | None => active
            end in
          m ← lift (monitors !! mon_idx);
          id ← next_id;
          m ← insert_workspace m (new_with_config id m.(mo_output) (Some config) ly.(ly_options)) 0 false;
          mret (set_ly_set (SetNormal (<[mon_idx := m]> monitors) primary active) ly)
      | SetNoOutputs workspaces =>
          id ← next_id;
          let ws := new_with_config_no_outputs id (Some config) ly.(ly_options) in
          mret (set_ly_set (SetNoOutputs (ws :: workspaces)) ly)
      end
  end.

Definition unname_workspace_by_id (ly : Layout) (id : N) : option Layout :=
  match ly.(ly_set) with
  | SetNormal monitors primary active =>
      r ← first_that (λ m, r ← unname_workspace m id; Some (fst r, if snd r : bool then Some tt else None))
            monitors;
      Some (set_ly_set (SetNormal (fst r) primary active) ly)
  | SetNoOutputs workspaces =>
      match vec_position (λ ws, N.eqb ws.(ws_id) id) workspaces with
      | None => Some ly
      | Some idx =>
          ws ← workspaces !! idx;
          let workspaces := <[idx := unname ws]> workspaces in
          workspaces ← (if has_windows (unname ws) then Some workspaces
                        else r ← vec_remove idx workspaces; Some (snd r));
          Some (set_ly_set (SetNoOutputs workspaces) ly)
      end
  end.

(** [unset_workspace_name] and [unname_workspace_by_ref]. *)
Definition unset_workspace_name (ly : Layout) (reference : option WorkspaceReference) : option Layout :=
  place ← place_of ly reference;
  match place with
  | None => Some ly
  | Some (i, j) => l ← ly_stacks ly !! i; ws ← l !! j; unname_workspace_by_id ly ws.(ws_id)
  end.

(** [is_some_and(|ws| ws.id() == id)]. *)
Definition is_id (id : N) (o : option Workspace) : bool :=
  match o with Some ws => N.eqb ws.(ws_id) id | None => false end.

(** The empty workspaces at the ends after the workspace [id] got a name. *)
Definition pad_named (m : Monitor) (id : N) : Fresh Monitor :=
  m ← (if mo_above_first m && is_id id (head m.(mo_workspaces)) then add_workspace_top m else mret m);
  if is_id id (last m.(mo_workspaces)) then add_workspace_bottom m else mret m.

Definition set_workspace_name (ly : Layout) (name : string) (reference : option WorkspaceReference) :
    Fresh Layout :=
  match find_workspace_by_name ly name with
  | Some _ => mret ly
  | None =>
      place ← lift (place_of ly reference);
      match place with
      | None => mret ly
      | Some place =>
          r ← lift (with_workspace ly place (λ ws, Some (ws.(ws_id), set_ws_name (Some name) ws)));
          with_active_monitor (snd r) (λ m, pad_named m (fst r))
      end
  end.

(** ** Windows *)
Section windows.
  Context (parent_of : N → option N) (g : Placement).

Definition add_column_by_idx (ly : Layout) (monitor_idx workspace_idx : nat) (column : Column)
    (activate : bool) : Fresh Layout :=
  match ly.(ly_set) with
  | SetNormal monitors primary active =>
      m ← lift (monitors !! monitor_idx);
      m ← mon_add_column m workspace_idx column activate;
      mret (set_ly_set (SetNormal (<[monitor_idx := m]> monitors) primary
                          (if activate then monitor_idx else active)) ly)
  | SetNoOutputs _ => lift None
  end.

(** The monitor a new window goes to. *)
Definition resolve_target (monitors : list Monitor) (active : nat) (target : AddWindowTarget) :
    option (nat * MonitorAddWindowTarget) :=
  match target with
  | AddAuto => Some (active, MonAuto)
  | AddOutput output => i ← monitor_position monitors output; Some (i, MonAuto)
  | AddWorkspace id =>
      place ← find_place (λ ws, N.eqb ws.(ws_id) id) (mo_workspaces <$> monitors);
      Some (fst place, MonWorkspace id None)
  | AddNextTo window => place ← window_location monitors window; Some (fst place, MonNextTo window)
  end.

(** The same without outputs; a first workspace is made if there is none. *)
Definition resolve_target_no_outputs (options : Options) (workspaces : list Workspace)
    (target : AddWindowTarget) : Fresh (list Workspace * nat * WorkspaceAddWindowTarget) :=
  match target with
  | AddAuto =>
      workspaces ← match workspaces with
                   | [] => id ← next_id; mret [new_with_config_no_outputs id None options]
                   | _ => mret workspaces
                   end;
      mret (workspaces, 0, WsAuto)
  | AddOutput _ => lift None
  | AddWorkspace id =>
      i ← lift (vec_position (λ ws, N.eqb ws.(ws_id) id) workspaces); mret (workspaces, i, WsAuto)
  | AddNextTo window =>
      i ← lift (vec_position (λ ws, has_window ws window) workspaces); mret (workspaces, i, WsNextTo window)
  end.

(** [width] is what [resolve_scrolling_width] answers; the result has the output. *)
Definition add_window (ly : Layout) (window : N) (pending : SizingMode)
    (rule_display : option ColumnDisplay) (target : AddWindowTarget) (width : ColumnWidth)
    (is_full_width is_floating : bool) (activate : ActivateWindow) :
    Fresh (Layout * option OutputName) :=
  match ly.(ly_set) with
  | SetNormal monitors primary active =>
      r ← lift (resolve_target monitors active target);
      let '(mon_idx, target) := r in
      m ← lift (monitors !! mon_idx);
      _ ← lift (resolve_add_window_target m target);
      m ← mon_add_window parent_of m window pending rule_display target activate width is_full_width
            is_floating;
      activate ← lift (map_smart activate (Some false));
      mret (set_ly_set (SetNormal (<[mon_idx := m]> monitors) primary
                          (if activate : bool then mon_idx else active)) ly, Some m.(mo_output))
  | SetNoOutputs workspaces =>
      r ← resolve_target_no_outputs ly.(ly_options) workspaces target;
      let '(workspaces, ws_idx, target) := r in
      ws ← lift (workspaces !! ws_idx);
      ws ← lift (ws_add_tile parent_of ws (make_tile ws window pending rule_display) target activate
                   width is_full_width is_floating);
      mret (set_ly_set (SetNoOutputs (<[ws_idx := ws]> workspaces)) ly, None)
  end.

Definition remove_window (ly : Layout) (window : N) : option (Layout * option RemovedTile) :=
  match ly.(ly_set) with
  | SetNormal monitors primary active =>
      r ← first_that (λ m,
            r ← mon_remove_window g m window;
            Some match r with Some (removed, m) => (m, Some removed) | None => (m, None) end) monitors;
      Some (set_ly_set (SetNormal (fst r) primary active) ly,
            match snd r with Some (_, removed) => Some removed | None => None end)
  | SetNoOutputs workspaces =>
      match vec_position (λ ws, has_window ws window) workspaces with
      | None => Some (ly, None)
      | Some idx =>
          ws ← workspaces !! idx;
          r ← ws_remove_tile g ws window;
          let workspaces := <[idx := snd r]> workspaces in
          workspaces ← (if has_windows_or_name (snd r) then Some workspaces
                        else r ← vec_remove idx workspaces; Some (snd r));
          Some (set_ly_set (SetNoOutputs workspaces) ly, Some (fst r))
      end
  end.

(** A gesture that shows the workspace is left alone. *)
Definition shows (m : Monitor) (idx : nat) : bool :=
  match m.(mo_switch) with
  | Some (SwitchGesture gesture) =>
      f64_eqb (f64_floor gesture.(wg_current)) (f64_of_nat idx) ||
      f64_eqb (f64_ceil gesture.(wg_current)) (f64_of_nat idx)
  | _ => false
  end.

(** What [activate_window] and [activate_window_without_raising] do on one monitor with the
    operation [f] of the workspace. *)
Definition mon_activate_with (f : Workspace → option (Workspace * bool)) (m : Monitor) :
    option (Monitor * option unit) :=
  r ← first_that (λ ws, r ← f ws; Some (fst r, if snd r : bool then Some tt else None)) m.(mo_workspaces);
  let m := set_mo_workspaces (fst r) m in
  match snd r with
  | None => Some (m, None)
  | Some (idx, _) => m ← (if shows m idx then Some m else switch_workspace m idx); Some (m, Some tt)
  end.

Definition ly_activate_with (f : Workspace → option (Workspace * bool)) (ly : Layout) : option Layout :=
  match ly.(ly_set) with
  | SetNormal monitors primary active =>
      r ← first_that (mon_activate_with f) monitors;
      Some (set_ly_set (SetNormal (fst r) primary
                          match snd r with Some (i, _) => i | None => active end) ly)
  | SetNoOutputs _ => Some ly
  end.

Definition ly_activate_window (ly : Layout) (window : N) : option Layout :=
  ly_activate_with (λ ws, ws_activate_window parent_of ws window) ly.

Definition ly_activate_window_without_raising (ly : Layout) (window : N) : option Layout :=
  ly_activate_with (λ ws, ws_activate_window_without_raising ws window) ly.

(** ** Between monitors *)

(** Whether a window that is moved to an output is to be activated there. *)
Definition follows (m : Monitor) (is_active : bool) (window : option N) : option bool :=
  match window with
  | None => Some true
  | Some win =>
      if is_active then w ← mon_active_window m; Some (bool_decide (w = Some win)) else Some false
  end.

(** Takes a window, or the active one, out of a workspace. *)
Definition take_tile (window : option N) (ws : Workspace) : option (option RemovedTile * Workspace) :=
  match window with
  | Some window => r ← ws_remove_tile g ws window; Some (Some (fst r), snd r)
  | None => ws_remove_active_tile g ws
  end.

Definition move_to_output (ly : Layout) (window : option N) (output : OutputName)
    (target_ws_idx : option nat) (activate : ActivateWindow) : Fresh Layout :=
  match ly.(ly_set) with
  | SetNoOutputs _ => mret ly
  | SetNormal monitors primary active =>
      new_idx ← lift (monitor_position monitors output);
      source ← lift (match window with
                     | Some window => window_location monitors window
                     | None => m ← monitors !! active; Some (active, m.(mo_active))
                     end);
      let '(mon_idx, ws_idx) := source in
      target ← lift (monitors !! new_idx);
      let workspace_idx := default target.(mo_active) target_ws_idx in
      if (mon_idx =? new_idx) && (ws_idx =? workspace_idx) then mret ly
      else
        match target.(mo_workspaces) !! workspace_idx with
        | None => mret ly
        | Some target_ws =>
            m ← lift (monitors !! mon_idx);
            activate ← lift (map_smart activate (follows m (mon_idx =? active) window));
            r ← lift (on_workspace m ws_idx (take_tile window));
            match fst r with
            | None => mret ly
            | Some removed =>
                let monitors := <[mon_idx := snd r]> monitors in
                m ← lift (monitors !! new_idx);
                m ← add_removed parent_of m removed target_ws.(ws_id)
                      (if activate : bool then ActivateYes else ActivateNo);
                let monitors := <[new_idx := m]> monitors in
                m ← lift (monitors !! mon_idx);
                m ← lift (clean_up_if_settled m);
                mret (set_ly_set (SetNormal (<[mon_idx := m]> monitors) primary
                                    (if activate : bool then new_idx else active)) ly)
            end
        end
  end.

Definition move_column_to_output (ly : Layout) (output : OutputName) (target_ws_idx : option nat)
    (activate : bool) : Fresh Layout :=
  match ly.(ly_set) with
  | SetNoOutputs _ => mret ly
  | SetNormal monitors primary active =>
      new_idx ← lift (monitor_position monitors output);
      current ← lift (monitors !! active);
      ws ← lift (current.(mo_workspaces) !! current.(mo_active));
      if floating_active ws then move_to_output ly None output None ActivateSmart
      else
        r ← lift (on_workspace current current.(mo_active) ws_remove_active_column);
        let monitors := <[active := snd r]> monitors in
        let ly := set_ly_set (SetNormal monitors primary active) ly in
        match fst r with
        | None => mret ly
        | Some column =>
            target ← lift (monitors !! new_idx);
            last ← lift (last_idx target);
            add_column_by_idx ly new_idx (Nat.min (default target.(mo_active) target_ws_idx) last)
              column activate
        end
  end.

(** [move_column_left_or_to_output] and [move_column_right_or_to_output], which differ in [move]. *)
Definition move_column_or_to_output (move : Workspace → option (Workspace * bool)) (ly : Layout)
    (output : OutputName) : Fresh (Layout * bool) :=
  r ← lift (with_active_workspace ly false (λ ws, r ← move ws; Some (snd r, fst r)));
  if fst r : bool then mret (snd r, false)
  else ly ← move_column_to_output (snd r) output None true; mret (ly, true).

(** The result tells whether the workspace was the focused one. *)
Definition move_workspace_to_output_by_id (ly : Layout) (old_idx : nat) (old_output : option OutputName)
    (new_output : OutputName) : Fresh (Layout * bool) :=
  match ly.(ly_set) with
  | SetNoOutputs _ => mret (ly, false)
  | SetNormal monitors primary active =>
      current_idx ← lift (match old_output with
                          | Some output => monitor_position monitors output
                          | None => Some active
                          end);
      target_idx ← lift (monitor_position monitors new_output);
      current ← lift (monitors !! current_idx);
      if mo_count current <=? old_idx then mret (ly, false)
      else if current_idx =? target_idx then
        r ← lift (on_workspace current old_idx (λ ws,
                    Some (tt, set_ws_original_output (OutputId_new current.(mo_output)) ws)));
        mret (set_ly_set (SetNormal (<[current_idx := snd r]> monitors) primary active) ly, false)
      else
        let activate := (current_idx =? active) && (old_idx =? current.(mo_active)) in
        r ← remove_workspace_by_idx current old_idx;
        let ws := set_ws_original_output (OutputId_new new_output) (fst r) in
        let monitors := <[current_idx := snd r]> monitors in
        target ← lift (monitors !! target_idx);
        target ← insert_workspace target ws (target.(mo_active) + 1) activate;
        mret (set_ly_set (SetNormal (<[target_idx := target]> monitors) primary
                            (if activate then target_idx else active)) ly, activate)
  end.

Definition move_workspace_to_output (ly : Layout) (output : OutputName) : Fresh (Layout * bool) :=
  a ← lift (active_monitor ly);
  match a with
  | None => mret (ly, false)
  | Some (_, m) => move_workspace_to_output_by_id ly m.(mo_active) None output
  end.

(** Moves a window, or the active one, to another workspace of its monitor. *)
Definition ly_move_to_workspace (ly : Layout) (window : option N) (idx : nat) (activate : ActivateWindow) :
    Fresh Layout :=
  match ly.(ly_set) with
  | SetNoOutputs _ => mret ly
  | SetNormal monitors _ active =>
      i ← lift (match window with
                | Some window => place ← window_location monitors window; Some (fst place)
                | None => Some active
                end);
      with_monitor ly i (λ m, move_to_workspace parent_of g m window idx activate)
  end.

End windows.

(** The monitor is that of the reference, or the active one. *)
Definition ly_move_workspace_to_idx (ly : Layout) (reference : option (option OutputName * nat))
    (new_idx : nat) : Fresh Layout :=
  match reference with
  | Some (Some output, old_idx) =>
      match ly.(ly_set) with
      | SetNormal monitors _ _ =>
          match monitor_position monitors output with
          | Some i => with_monitor ly i (λ m, move_workspace_to_idx m old_idx new_idx)
          | None => mret ly
          end
      | SetNoOutputs _ => mret ly
      end
  | Some (None, old_idx) => with_active_monitor ly (λ m, move_workspace_to_idx m old_idx new_idx)
  | None => with_active_monitor ly (λ m, move_workspace_to_idx m m.(mo_active) new_idx)
  end.
