(* ===== verification/LayoutSetOwn.v ===== *)
(** * The layout: names and homes of workspaces

    Two facts tie the workspaces of all monitors together: no two have the same name, and every
    workspace is where its output says.  Both survive whatever a monitor does to its own
    workspaces. *)
From stdpp Require Import gmap strings.
From S2P Require Import Prelude Float64 FloatRound LayoutScrolling LayoutFloating LayoutOutput LayoutWorkspace LayoutWorkspaceOps LayoutWorkspaceProps LayoutMonitor LayoutMonitorOps LayoutSet.

(** ** Outputs *)

(** Nothing matches both outputs. *)
Definition disjoint_outputs (o o' : OutputName) : Prop :=
  ∀ id, output_matches o id = true → output_matches o' id = false.

Lemma disjoint_outputs_sym o o' : disjoint_outputs o o' → disjoint_outputs o' o.
Proof.
  intros H id H'. apply not_true_is_false. intros Ho. apply H in Ho. congruence.
Qed.

Lemma eq_ignore_ascii_case_trans a b c :
  eq_ignore_ascii_case a b = true → eq_ignore_ascii_case b c = true → eq_ignore_ascii_case a c = true.
Proof.
  revert b c. induction a as [|x a IH]; intros [|y b] [|z c]; simpl; try done.
  intros [E1%Ascii.eqb_eq H1]%andb_true_iff [E2%Ascii.eqb_eq H2]%andb_true_iff.
  rewrite E1, E2, Ascii.eqb_refl. by eapply IH.
Qed.

Lemma own_matches o : output_matches o (OutputId_new o) = true.
Proof.
  rewrite output_matches_eq. unfold OutputId_new, format_make_model_serial_or_connector.
  destruct (missing_mms o); by rewrite eq_ignore_ascii_case_refl, ?orb_true_r.
Qed.

(** Outputs that [name_connectors] names are disjoint. *)
Lemma apart_disjoint o o' : connectors_differ o o' → apart o o' → disjoint_outputs o o'.
Proof.
  intros (Hne & Hs & Hs') [_ Ha] id. rewrite !output_matches_eq. intros H. apply not_true_is_false. intros H'.
  unfold OutputId_new, format_make_model_serial_or_connector in Ha. rewrite output_matches_eq in Ha.
  assert (Hclash : ∀ a b, eq_ignore_ascii_case id a = true → eq_ignore_ascii_case id b = true →
            eq_ignore_ascii_case a b = true).
  { intros a b H1 H2. rewrite eq_ignore_ascii_case_sym in H1. by eapply eq_ignore_ascii_case_trans. }
  apply orb_true_iff in H as [H|[Hm H]%andb_true_iff], H' as [H'|[Hm' H']%andb_true_iff].
  - by rewrite (Hclash _ _ H H') in Hne.
  - pose proof (Hclash _ _ H H') as Hc. by rewrite connector_not_formatted in Hc.
  - pose proof (Hclash _ _ H' H) as Hc. by rewrite connector_not_formatted in Hc.
  - apply negb_true_iff in Hm. rewrite Hm, Hm', (Hclash _ _ H H') in Ha. by rewrite orb_true_r in Ha.
Qed.

(** ** Names *)
Definition names_agree (ws ws' : Workspace) : bool :=
  match ws.(ws_name), ws'.(ws_name) with
  | Some name, Some name' => eq_ignore_ascii_case name name'
  | _, _ => false
  end.

Definition names_distinct (l : list Workspace) : Prop :=
  ∀ ws ws', ws ∈ l → ws' ∈ l → names_agree ws ws' = true → ws.(ws_id) = ws'.(ws_id).

(** The names of [l'] are names that the same workspaces have in [l]. *)
Definition names_from (l l' : list Workspace) : Prop :=
  ∀ ws', ws' ∈ l' → ws'.(ws_name) = None ∨
    ∃ ws, ws ∈ l ∧ ws'.(ws_id) = ws.(ws_id) ∧ ws'.(ws_name) = ws.(ws_name).

Lemma names_from_distinct l l' : names_from l l' → names_distinct l → names_distinct l'.
Proof.
  intros H Hd x x' Hx Hx'. unfold names_agree.
  destruct (H x Hx) as [->|(w & Hw & -> & ->)]; [done|].
  destruct (H x' Hx') as [->|(w' & Hw' & -> & ->)]; [by destruct (ws_name w)|]. by apply Hd.
Qed.

Lemma names_from_incl l l' : (∀ ws, ws ∈ l' → ws ∈ l) → names_from l l'.
Proof. intros H ws Hws. right. exists ws. auto. Qed.

Lemma names_from_app l l' k k' : names_from l l' → names_from k k' → names_from (l ++ k) (l' ++ k').
Proof.
  intros H1 H2 ws [Hws|Hws]%elem_of_app; [apply H1 in Hws|apply H2 in Hws];
    (destruct Hws as [?|(w & ? & ?)]; [by left|right; exists w; split; [set_solver|done]]).
Qed.

#[export] Instance names_from_Permutation : Proper ((≡ₚ) ==> (≡ₚ) ==> iff) names_from.
Proof. intros l1 l2 Hl k1 k2 Hk. unfold names_from. setoid_rewrite Hl. by setoid_rewrite Hk. Qed.

#[export] Instance names_distinct_Permutation : Proper ((≡ₚ) ==> iff) names_distinct.
Proof. intros l1 l2 Hl. unfold names_distinct. by repeat setoid_rewrite Hl. Qed.

Lemma new_ids_names out c l c' l' : new_ids out c l c' l' → names_from l l'.
Proof.
  intros H ws [(w & Hw & [Hid [Hn|Hn] _])|(_ & Hn & _)]%H; [right; eauto|by left..].
Qed.

Lemma tags_names (l l' : list Workspace) : ws_tag <$> l' = ws_tag <$> l → names_from l l'.
Proof. intros E ws Hws. destruct (tags_lookup _ _ _ E Hws) as (w & Hw & [= E1 E2 _]). right. eauto. Qed.

(** A name that no workspace has. *)
Definition name_fresh (name : string) (l : list Workspace) : Prop := ∀ ws, ws ∈ l → is_named name ws = false.

Lemma fresh_disagree name l ws ws' :
  name_fresh name l → ws ∈ l → ws'.(ws_name) = Some name → names_agree ws ws' = false ∧ names_agree ws' ws = false.
Proof.
  intros Hf Hws%Hf En. unfold is_named, names_agree in *. rewrite En.
  destruct (ws_name ws) as [n|]; [|done]. by rewrite (eq_ignore_ascii_case_sym name).
Qed.

Lemma names_distinct_cons name ws l :
  names_distinct l → name_fresh name l → ws.(ws_name) = Some name → names_distinct (ws :: l).
Proof.
  intros Hd Hf En x y [->|Hx]%elem_of_cons [->|Hy]%elem_of_cons H; [done| | |by apply Hd].
  - by destruct (fresh_disagree name l y ws Hf Hy En) as [_ H'%not_true_iff_false].
  - by destruct (fresh_disagree name l x ws Hf Hx En) as [H'%not_true_iff_false _].
Qed.

(** ** Homes *)
Definition belongs (output : OutputName) (ws : Workspace) : bool :=
  output_matches output ws.(ws_original_output).

(** The primary monitor takes what belongs to no other connected output. *)
Definition at_home (outputs : list OutputName) (primary i : nat) (ws : Workspace) : Prop :=
  if decide (i = primary) then ∀ j o, j ≠ primary → outputs !! j = Some o → belongs o ws = false
  else ∃ o, outputs !! i = Some o ∧ belongs o ws = true.

Definition all_disjoint (outputs : list OutputName) : Prop :=
  ∀ i j o o', i ≠ j → outputs !! i = Some o → outputs !! j = Some o' → disjoint_outputs o o'.

Definition outputs_of (ms : list Monitor) : list OutputName := mo_output <$> ms.

Record homes_ok (primary : nat) (ms : list Monitor) : Prop := {
  ho_outputs : all_disjoint (outputs_of ms);
  ho_home i m : ms !! i = Some m → Forall (at_home (outputs_of ms) primary i) m.(mo_workspaces)
}.

Section homes.
  Context (outputs : list OutputName) (p : nat).
  Hypothesis Hd : all_disjoint outputs.

Lemma own_at_home i o ws : outputs !! i = Some o → belongs o ws = true → at_home outputs p i ws.
Proof using Hd.
  intros Hi Hb. unfold at_home. case_decide as E; [|by eauto]. subst i. intros j o' Hj Ho'.
  exact (Hd p j o o' (not_eq_sym Hj) Hi Ho' _ Hb).
Qed.

Lemma new_at_home i o ws :
  outputs !! i = Some o → ws.(ws_original_output) = OutputId_new o → at_home outputs p i ws.
Proof using Hd. intros Hi E. apply (own_at_home i o); [done|]. unfold belongs. rewrite E. apply own_matches. Qed.

Lemma same_at_home i ws ws' :
  ws'.(ws_original_output) = ws.(ws_original_output) → at_home outputs p i ws → at_home outputs p i ws'.
Proof using. unfold at_home, belongs. by intros ->. Qed.

Lemma heir_at_home i o c l c' l' :
  outputs !! i = Some o → new_ids o c l c' l' → Forall (at_home outputs p i) l → Forall (at_home outputs p i) l'.
Proof using Hd.
  intros Hi Hids Hl. apply Forall_forall. intros ws' [(ws & Hws & [_ _ [E|E]])|(_ & _ & E)]%Hids.
  - eapply same_at_home; [exact E|]. rewrite Forall_forall in Hl. by apply Hl.
  - by eapply new_at_home.
  - by eapply new_at_home.
Qed.

(** A workspace belongs to no other connected output, wherever it is. *)
Lemma at_home_elsewhere i j o ws :
  at_home outputs p i ws → i ≠ j → outputs !! j = Some o → belongs o ws = false.
Proof using Hd.
  unfold at_home. case_decide as E; [subst; eauto|]. intros (o' & Ho' & Hb) Hij Hj. by eapply Hd.
Qed.

End homes.

Lemma outputs_insert ms i (m m' : Monitor) :
  ms !! i = Some m → m'.(mo_output) = m.(mo_output) → outputs_of (<[i := m']> ms) = outputs_of ms.
Proof.
  intros Hi E. unfold outputs_of. rewrite list_fmap_insert, E. apply list_insert_id.
  by rewrite list_lookup_fmap, Hi.
Qed.

Lemma outputs_lookup ms i (m : Monitor) : ms !! i = Some m → outputs_of ms !! i = Some m.(mo_output).
Proof. intros Hi. unfold outputs_of. by rewrite list_lookup_fmap, Hi. Qed.

Lemma homes_update p ms i m m' c src c' :
  homes_ok p ms → ms !! i = Some m → m'.(mo_output) = m.(mo_output) →
  new_ids m.(mo_output) c src c' m'.(mo_workspaces) → Forall (at_home (outputs_of ms) p i) src →
  homes_ok p (<[i := m']> ms).
Proof.
  intros [H1 H2] Hi Ho Hids Hsrc. split; rewrite (outputs_insert ms i m m') by done; [done|].
  intros j x [(-> & -> & _)|[_ Hx]]%list_lookup_insert_Some; [|by apply H2].
  eapply heir_at_home; [done|by eapply outputs_lookup|exact Hids|done].
Qed.

(** Every monitor changes. *)
Definition mon_heir (m m' : Monitor) : Prop :=
  m'.(mo_output) = m.(mo_output) ∧ ∃ c c', new_ids m.(mo_output) c m.(mo_workspaces) c' m'.(mo_workspaces).

Lemma homes_all p ms ms' : Forall2 mon_heir ms ms' → homes_ok p ms → homes_ok p ms'.
Proof.
  intros Hf [H1 H2]. assert (E : outputs_of ms' = outputs_of ms).
  { unfold outputs_of. clear H1 H2. induction Hf as [|m m' ms ms' [Ho _] _ IH]; [done|]. cbn. by rewrite Ho, IH. }
  split; rewrite E; [done|]. intros i m' Hi.
  destruct (Forall2_lookup_r _ _ _ _ _ Hf Hi) as (m & Hm & Ho & c & c' & Hids).
  eapply heir_at_home; [done|by eapply outputs_lookup|exact Hids|]. by apply H2.
Qed.

Lemma names_all ms ms' : Forall2 mon_heir ms ms' → names_from (ms ≫= mo_workspaces) (ms' ≫= mo_workspaces).
Proof.
  induction 1 as [|m m' ms ms' (_ & c & c' & H) _ IH]; [by intros ws ?%not_elem_of_nil|]. cbn.
  apply names_from_app; [by eapply new_ids_names|exact IH].
Qed.

Lemma homes_one m : homes_ok 0 [m].
Proof.
  split.
  - intros [|i] [|j] o o' Hij Hi Hj; try done.
  - intros [|i] x Hx; [|done]. apply Forall_forall. intros ws _ [|j] o Hj Ho; done.
Qed.

(** A monitor goes; what it had belongs to none of the others. *)
Definition others {A} (l : list A) (i : nat) : list A := take i l ++ drop (S i) l.

Lemma others_index {A} (l : list A) i j x :
  i < length l → others l i !! j = Some x → ∃ k, k ≠ i ∧ l !! k = Some x ∧ j = (if i <=? k then k - 1 else k).
Proof.
  intros Hi Hj. unfold others in Hj. destruct (decide (j < i)) as [Hlt|Hge].
  - rewrite vec_remove_lookup_lt in Hj by lia. exists j. destruct (Nat.leb_spec i j); [lia|].
    split_and!; [lia|done|done].
  - rewrite vec_remove_lookup_ge in Hj by lia. exists (S j). destruct (Nat.leb_spec i (S j)); [|lia].
    split_and!; [lia|done|lia].
Qed.

Lemma homes_remove p ms i m :
  homes_ok p ms → p < length ms → ms !! i = Some m →
  let p' := if i <=? p then p - 1 else p in
  homes_ok p' (others ms i) ∧ Forall (at_home (outputs_of (others ms i)) p' p') m.(mo_workspaces).
Proof.
  intros [H1 H2] Hp Hm p'. apply lookup_lt_Some in Hm as Hi.
  assert (Hout : outputs_of (others ms i) = others (outputs_of ms) i).
  { unfold outputs_of, others. by rewrite fmap_app, fmap_take, fmap_drop. }
  assert (Hil : i < length (outputs_of ms)) by (unfold outputs_of; by rewrite length_fmap).
  rewrite Hout. split; [split|]; rewrite ?Hout.
  - intros j k o o' Hjk Hj Hk.
    destruct (others_index _ i j o Hil Hj) as (j' & Hj' & Ej & ->).
    destruct (others_index _ i k o' Hil Hk) as (k' & Hk' & Ek & ->).
    apply (H1 j' k'); [|done..]. by intros ->.
  - intros j x Hx. destruct (others_index _ i j x Hi Hx) as (j' & Hj' & Ej & ->).
    eapply Forall_impl; [exact (H2 _ _ Ej)|]. intros ws Hws. unfold at_home. case_decide as Ep.
    + intros k o Hk Ho. destruct (others_index _ i k o Hil Ho) as (k' & Hk' & Ek & ->).
      eapply at_home_elsewhere; [exact H1|exact Hws| |exact Ek]. intros ->. by apply Hk.
    + unfold at_home in Hws. case_decide as Ep'; [exfalso; apply Ep; by subst j' p'|].
      destruct Hws as (o & Ho & Hb). exists o. split; [|done].
      unfold others. destruct (Nat.leb_spec i j').
      * rewrite vec_remove_lookup_ge by lia. rewrite <- Ho. f_equal. lia.
      * by rewrite vec_remove_lookup_lt by lia.
  - eapply Forall_impl; [exact (H2 _ _ Hm)|]. intros ws Hws. unfold at_home. case_decide; [|done].
    intros k o Hk Ho. destruct (others_index _ i k o Hil Ho) as (k' & Hk' & Ek & ->).
    eapply at_home_elsewhere; [exact H1|exact Hws| |exact Ek]. done.
Qed.

(** A monitor comes; what belongs to it has left the primary one. *)
Lemma homes_add p ms t m c src c' :
  homes_ok p ms → p < length ms → Forall (λ m', disjoint_outputs m'.(mo_output) m.(mo_output)) ms →
  ms !! p = Some t → Forall (λ ws, belongs m.(mo_output) ws = false) t.(mo_workspaces) →
  new_ids m.(mo_output) c src c' m.(mo_workspaces) → Forall (λ ws, belongs m.(mo_output) ws = true) src →
  homes_ok p (ms ++ [m]).
Proof.
  intros [H1 H2] Hp Hdis Ht Hstay Hids Hsrc.
  assert (Hout : outputs_of (ms ++ [m]) = outputs_of ms ++ [m.(mo_output)]) by (unfold outputs_of; by rewrite fmap_app).
  assert (Hlen : length (outputs_of ms) = length ms) by apply length_fmap.
  assert (Hlook : ∀ j o, outputs_of (ms ++ [m]) !! j = Some o →
            outputs_of ms !! j = Some o ∧ j < length ms ∨ j = length ms ∧ o = m.(mo_output)).
  { intros j o. rewrite Hout. intros [Hj|[Hge Hj]]%lookup_app_Some.
    - left. split; [done|]. rewrite <- Hlen. by eapply lookup_lt_Some.
    - right. apply list_lookup_singleton_Some in Hj as [? <-]. split; [lia|done]. }
  assert (Hnew : ∀ j o, outputs_of ms !! j = Some o → disjoint_outputs o m.(mo_output)).
  { intros j o (x & -> & Hx)%list_lookup_fmap_Some. rewrite Forall_lookup in Hdis. by eapply Hdis. }
  assert (Hd' : all_disjoint (outputs_of (ms ++ [m]))).
  { intros i j o o' Hij [[Hi _]|[-> ->]]%Hlook [[Hj _]|[-> ->]]%Hlook; [by eapply H1|by eapply Hnew| |done].
    eapply disjoint_outputs_sym, Hnew, Hj. }
  split; [done|]. intros i x [Hx|[Hge Hx]]%lookup_app_Some.
  - apply Forall_forall. intros ws Hws. pose proof (H2 i x Hx) as Hh. rewrite Forall_forall in Hh.
    specialize (Hh ws Hws). unfold at_home in *. case_decide as E.
    + subst i. rewrite Ht in Hx. injection Hx as <-. intros j o Hj [[Ho _]|[-> ->]]%Hlook; [by eapply Hh|].
      rewrite Forall_forall in Hstay. by apply Hstay.
    + destruct Hh as (o & Ho & Hb). exists o. split; [|done]. rewrite Hout. by apply lookup_app_l_Some.
  - apply list_lookup_singleton_Some in Hx as [Hi <-].
    assert (Hlast : outputs_of (ms ++ [m]) !! i = Some m.(mo_output)).
    { rewrite Hout. replace i with (length (outputs_of ms)) by lia. by apply list_lookup_middle. }
    eapply heir_at_home; [done|exact Hlast|exact Hids|].
    eapply Forall_impl; [exact Hsrc|]. intros ws Hws. by eapply own_at_home.
Qed.
