(* ===== verification/LayoutSetOps.v ===== *)
(** * The layout: the invariant and changes of one monitor

    What [Layout::verify_invariants] checks of the monitors together: their indices, that ids and
    windows are unique across them, and that they follow the options and the overview of the
    layout.  A change of one monitor keeps this when the ids it brings are its own, new, or those
    of workspaces in transit. *)
From stdpp Require Import gmap strings.
From S2P Require Import Prelude Float64 FloatRound LayoutScrolling LayoutFloating LayoutOutput LayoutWorkspace LayoutWorkspaceOps LayoutWorkspaceProps LayoutMonitor LayoutMonitorOps LayoutMonitorMoves LayoutMonitorSwitch LayoutMonitorJoin LayoutMonitorProps LayoutSet LayoutSetOwn.

(** ** The invariant *)
Definition all_workspaces (monitors : list Monitor) : list Workspace := monitors ≫= mo_workspaces.

(** The monitors while the workspaces [held] are in transit. *)
Record set_ok par (c : N) (options : Options) (overview : bool) (held : list Workspace)
    (monitors : list Monitor) : Prop := {
  st_monitors : Forall (monitor_ok par c) monitors;
  st_base : base_stack par c (held ++ all_workspaces monitors);
  st_kept : Forall (λ m, m.(mo_base_options) = options ∧ m.(mo_overview_open) = overview) monitors;
  st_names : names_distinct (held ++ all_workspaces monitors)
}.

Record no_outputs_ok par (c : N) (options : Options) (l : list Workspace) : Prop := {
  no_base : base_stack par c l;
  no_occupied : Forall occupied l;
  no_names : names_distinct l;
  no_options : Forall (λ ws, ws.(ws_base_options) = options ∧ ws.(ws_output) = None) l
}.

Definition layout_ok par (c : N) (ly : Layout) : Prop :=
  match ly.(ly_set) with
  | SetNormal monitors primary active =>
      primary < length monitors ∧ active < length monitors ∧
      set_ok par c ly.(ly_options) ly.(ly_overview_open) [] monitors ∧
      homes_ok primary monitors
  | SetNoOutputs l => no_outputs_ok par c ly.(ly_options) l
  end.

Definition ly_workspaces (ly : Layout) : list Workspace :=
  match ly.(ly_set) with
  | SetNormal monitors _ _ => all_workspaces monitors
  | SetNoOutputs l => l
  end.

Definition ly_windows (ly : Layout) : list N := wss_windows (ly_workspaces ly).

(** The outcome of an operation inside a monitor that starts with giving a name: the workspaces
    come from [src], where they have it. *)
Record outcome_from par (c : N) (m : Monitor) (src : list Workspace) (added removed : list N)
    (m' : Monitor) (c' : N) : Prop := {
  of_ok : monitor_ok par c' m';
  of_windows : removed ++ mon_windows m' ≡ₚ added ++ mon_windows m;
  of_counter : (c ≤ c' ≤ c + 2)%N;
  of_kept : mo_kept m' = mo_kept m;
  of_ids : new_ids m.(mo_output) c src c' m'.(mo_workspaces);
  of_src ws : ws ∈ src → ∃ w, w ∈ m.(mo_workspaces) ∧ ws.(ws_id) = w.(ws_id) ∧
    ws.(ws_original_output) = w.(ws_original_output)
}.

Lemma plain_outcome par c m added removed m' c' :
  mon_outcome par c m added removed m' c' → outcome_from par c m m.(mo_workspaces) added removed m' c'.
Proof. intros []. split; eauto. Qed.

(** ** Stacks *)
Lemma all_workspaces_split ms i (m : Monitor) :
  ms !! i = Some m → ∃ rest, all_workspaces ms ≡ₚ m.(mo_workspaces) ++ rest ∧
    ∀ m', all_workspaces (<[i := m']> ms) ≡ₚ m'.(mo_workspaces) ++ rest.
Proof.
  intros Hi. exists (all_workspaces (take i ms ++ drop (S i) ms)).
  assert (H : ∀ k m', all_workspaces (k ++ m' :: drop (S i) ms) ≡ₚ
            m'.(mo_workspaces) ++ all_workspaces (k ++ drop (S i) ms)).
  { intros k m'. unfold all_workspaces. rewrite !bind_app. cbn [mbind list_bind app].
    rewrite !app_assoc. by rewrite (Permutation_app_comm (k ≫= mo_workspaces) m'.(mo_workspaces)). }
  split.
  - rewrite <- (take_drop_middle ms i m Hi) at 1. apply H.
  - intros m'. apply lookup_lt_Some in Hi. rewrite insert_take_drop by done. apply H.
Qed.

#[export] Instance all_workspaces_Permutation : Proper ((≡ₚ) ==> (≡ₚ)) all_workspaces.
Proof. intros ms ms' H. unfold all_workspaces. by rewrite H. Qed.

Lemma all_workspaces_app ms ms' : all_workspaces (ms ++ ms') = all_workspaces ms ++ all_workspaces ms'.
Proof. apply bind_app. Qed.

Section base.
  Context (par : N → option N).
Local Abbreviation base := (base_stack par).

Lemma base_nil c : base c [].
Proof. split; try constructor. Qed.

(** Part of the workspaces change; the new ids are not among the others. *)
Lemma base_replace c c' x y rest :
  base c (x ++ rest) → base c' y → (c ≤ c')%N →
  (∀ id, id ∈ ws_id <$> y → id ∈ ws_id <$> x ∨ (c ≤ id)%N) →
  wss_windows y ## wss_windows rest → base c' (y ++ rest).
Proof.
  intros (_ & Hr & Hi & _)%base_app Hy Hc Hids Hw. apply base_app. split_and!; [done|by eapply base_mono| |done].
  intros id [Hid|Hid]%Hids Hid2; [by eapply Hi|].
  apply list_elem_of_fmap in Hid2 as (ws & -> & Hin). pose proof (bs_fresh _ _ _ Hr) as Hf.
  rewrite Forall_forall in Hf. apply Hf in Hin. lia.
Qed.

Lemma monitor_ok_mono c c' m : (c ≤ c')%N → monitor_ok par c m → monitor_ok par c' m.
Proof. intros Hc [Hst Hsh Hop]. split; [by eapply stack_mono|done..]. Qed.

(** One monitor changes; [held] workspaces may come to rest or start to be in transit. *)
Lemma base_update c c' held held' ms i m m' added removed :
  Forall (monitor_ok par c) ms → base c (held ++ all_workspaces ms) → ms !! i = Some m →
  monitor_ok par c' m' → (c ≤ c')%N → base c' (held' ++ m'.(mo_workspaces)) →
  (∀ id, id ∈ ws_id <$> held' ++ m'.(mo_workspaces) →
     id ∈ ws_id <$> held ++ m.(mo_workspaces) ∨ (c ≤ id)%N) →
  removed ++ wss_windows held' ++ mon_windows m' ≡ₚ added ++ wss_windows held ++ mon_windows m →
  NoDup (added ++ wss_windows (held ++ all_workspaces ms)) →
  Forall (monitor_ok par c') (<[i := m']> ms) ∧ base c' (held' ++ all_workspaces (<[i := m']> ms)) ∧
  removed ++ wss_windows (held' ++ all_workspaces (<[i := m']> ms)) ≡ₚ
    added ++ wss_windows (held ++ all_workspaces ms).
Proof.
  intros Hms Hb Hi Hm' Hc Hb' Hids Hw Hnd.
  destruct (all_workspaces_split ms i m Hi) as (rest & Hall & Hall').
  assert (HW : removed ++ wss_windows (held' ++ m'.(mo_workspaces) ++ rest) ≡ₚ
               added ++ wss_windows (held ++ m.(mo_workspaces) ++ rest)).
  { rewrite !wss_windows_app. rewrite (app_assoc (wss_windows held')), app_assoc.
    fold (mon_windows m') (mon_windows m). rewrite Hw. by rewrite <- !app_assoc. }
  assert (Hdis : wss_windows (held' ++ m'.(mo_workspaces)) ## wss_windows rest).
  { rewrite Hall in Hnd. rewrite <- HW in Hnd. rewrite (app_assoc held'), wss_windows_app in Hnd.
    apply NoDup_app in Hnd as (_ & _ & Hnd). apply NoDup_app in Hnd as (_ & Hnd & _). set_solver. }
  split_and!.
  - apply Forall_insert; [|done]. eapply Forall_impl; [exact Hms|]. intros x. by apply monitor_ok_mono.
  - eapply base_permutation; [by rewrite Hall', app_assoc|].
    eapply base_replace; [|exact Hb'|exact Hc|exact Hids|exact Hdis].
    eapply base_permutation; [|exact Hb]. by rewrite Hall, app_assoc.
  - by rewrite Hall, Hall'.
Qed.

(** Names, when one monitor changes. *)
Lemma names_update held held' ms i (m m' : Monitor) :
  ms !! i = Some m → names_from (held ++ m.(mo_workspaces)) (held' ++ m'.(mo_workspaces)) →
  names_distinct (held ++ all_workspaces ms) → names_distinct (held' ++ all_workspaces (<[i := m']> ms)).
Proof.
  intros Hi Hn. destruct (all_workspaces_split ms i m Hi) as (rest & Hall & Hall').
  rewrite Hall, Hall', !app_assoc. apply names_from_distinct, names_from_app; [done|].
  by apply names_from_incl.
Qed.

Lemma set_update c c' opts ov held held' ms i m m' added removed :
  set_ok par c opts ov held ms → ms !! i = Some m → monitor_ok par c' m' → (c ≤ c')%N →
  m'.(mo_base_options) = opts ∧ m'.(mo_overview_open) = ov →
  base c' (held' ++ m'.(mo_workspaces)) →
  (∀ id, id ∈ ws_id <$> held' ++ m'.(mo_workspaces) →
     id ∈ ws_id <$> held ++ m.(mo_workspaces) ∨ (c ≤ id)%N) →
  removed ++ wss_windows held' ++ mon_windows m' ≡ₚ added ++ wss_windows held ++ mon_windows m →
  NoDup (added ++ wss_windows (held ++ all_workspaces ms)) →
  names_distinct (held' ++ all_workspaces (<[i := m']> ms)) →
  set_ok par c' opts ov held' (<[i := m']> ms) ∧
  removed ++ wss_windows (held' ++ all_workspaces (<[i := m']> ms)) ≡ₚ
    added ++ wss_windows (held ++ all_workspaces ms).
Proof.
  intros [Hms Hb Hk _] Hi Hm' Hc Hkept Hb' Hids Hw Hnd Hn.
  destruct (base_update c c' held held' ms i m m' added removed) as (H1 & H2 & H3); [done..|].
  split; [|done]. split; [done|done| |done]. by apply Forall_insert.
Qed.

Lemma set_mono c c' opts ov held ms : (c ≤ c')%N → set_ok par c opts ov held ms → set_ok par c' opts ov held ms.
Proof.
  intros Hc [Hms Hb Hk Hn]. split; [|by eapply base_mono|done..]. eapply Forall_impl; [exact Hms|].
  intros x. by apply monitor_ok_mono.
Qed.

Lemma kept_fields m m' opts ov :
  mo_kept m' = mo_kept m → m.(mo_base_options) = opts ∧ m.(mo_overview_open) = ov →
  m'.(mo_base_options) = opts ∧ m'.(mo_overview_open) = ov.
Proof. by intros [= _ -> ->]. Qed.

Section one.
  Context (c : N) (opts : Options) (ov : bool) (ms : list Monitor) (i : nat) (m : Monitor).
  Hypothesis Hi : ms !! i = Some m.

Lemma set_monitor held : set_ok par c opts ov held ms → monitor_ok par c m.
Proof using Hi. intros [H _ _ _]. rewrite Forall_lookup in H. by eapply H. Qed.

Lemma set_kept held :
  set_ok par c opts ov held ms → m.(mo_base_options) = opts ∧ m.(mo_overview_open) = ov.
Proof using Hi. intros [_ _ H _]. rewrite Forall_lookup in H. by apply (H i). Qed.

(** An operation inside a monitor, once the workspaces are those of [src]. *)
Lemma set_outcome_from src added removed m' c' :
  set_ok par c opts ov [] ms → outcome_from par c m src added removed m' c' →
  NoDup (added ++ wss_windows (all_workspaces ms)) →
  names_distinct (all_workspaces (<[i := set_mo_workspaces src m]> ms)) →
  set_ok par c' opts ov [] (<[i := m']> ms) ∧
  removed ++ wss_windows (all_workspaces (<[i := m']> ms)) ≡ₚ added ++ wss_windows (all_workspaces ms).
Proof using Hi.
  intros Hs [Hok Hw Hc Hk Hids Hsrc] Hnd Hn.
  apply (set_update c c' opts ov [] [] ms i m m' added removed); try done.
  - lia.
  - eapply kept_fields; [done|]. by eapply set_kept.
  - eapply stack_base, Hok.
  - intros id [H|H]%(new_ids_id _ _ _ _ _ _ Hids); [|right; lia]. left.
    apply list_elem_of_fmap in H as (ws & -> & (w & Hw' & -> & _)%Hsrc). by apply list_elem_of_fmap_2.
  - rewrite <- (list_insert_insert_eq ms i m' (set_mo_workspaces src m)).
    apply (names_update [] [] _ i (set_mo_workspaces src m)); [|by eapply new_ids_names|done].
    apply list_lookup_insert_eq. by eapply lookup_lt_Some.
Qed.

(** Workspaces in transit arrive. *)
Lemma set_arrival l m' c' :
  set_ok par c opts ov l ms → mon_arrival par c m l m' c' →
  set_ok par c' opts ov [] (<[i := m']> ms) ∧
  wss_windows (all_workspaces (<[i := m']> ms)) ≡ₚ wss_windows (l ++ all_workspaces ms).
Proof using Hi.
  intros Hs [Hok Hw Hc Hk Hids].
  apply (set_update c c' opts ov l [] ms i m m' [] []); try done.
  - lia.
  - eapply kept_fields; [done|]. by eapply set_kept.
  - eapply stack_base, Hok.
  - intros id [H|H]%(new_ids_id _ _ _ _ _ _ Hids); [by left|right; lia].
  - apply Hs.
  - apply (names_update l [] ms i m); [done|by eapply new_ids_names|apply Hs].
Qed.

(** The workspaces of one monitor are apart from those in transit. *)
Lemma held_monitor held :
  set_ok par c opts ov held ms → base c (held ++ m.(mo_workspaces)).
Proof using Hi.
  intros [_ Hb _ _]. destruct (all_workspaces_split ms i m Hi) as (rest & Hall & _).
  assert (H : base c ((held ++ m.(mo_workspaces)) ++ rest)).
  { eapply base_permutation; [|exact Hb]. by rewrite Hall, app_assoc. }
  by apply base_app in H as (H & _).
Qed.

Lemma monitor_windows_in w : w ∈ mon_windows m → w ∈ wss_windows (all_workspaces ms).
Proof using Hi.
  destruct (all_workspaces_split ms i m Hi) as (rest & Hall & _). rewrite Hall, wss_windows_app.
  intros H. apply elem_of_app. by left.
Qed.

Lemma added_monitor added :
  NoDup (added ++ wss_windows (all_workspaces ms)) → NoDup (added ++ mon_windows m).
Proof using Hi.
  destruct (all_workspaces_split ms i m Hi) as (rest & Hall & _). rewrite Hall, wss_windows_app, app_assoc.
  by intros (H & _ & _)%NoDup_app.
Qed.

End one.

(** Workspaces in transit become a new monitor. *)
Lemma set_new c c' opts ov held ms m :
  set_ok par c opts ov held ms → monitor_ok par c' m → (c ≤ c')%N →
  m.(mo_base_options) = opts ∧ m.(mo_overview_open) = ov →
  mon_windows m ≡ₚ wss_windows held → new_ids m.(mo_output) c held c' m.(mo_workspaces) →
  set_ok par c' opts ov [] (ms ++ [m]) ∧
  wss_windows (all_workspaces (ms ++ [m])) ≡ₚ wss_windows (held ++ all_workspaces ms).
Proof.
  intros [Hms Hb Hk Hn] Hm Hc Hkept Hw Hids.
  assert (Hall : all_workspaces (ms ++ [m]) ≡ₚ m.(mo_workspaces) ++ all_workspaces ms).
  { rewrite all_workspaces_app. unfold all_workspaces at 2. cbn. rewrite app_nil_r.
    apply Permutation_app_comm. }
  split; [split|].
  - apply Forall_app. split; [|by constructor]. eapply Forall_impl; [exact Hms|].
    intros x. by apply monitor_ok_mono.
  - eapply base_permutation; [by symmetry|]. eapply base_replace; [exact Hb| |done| |].
    + eapply stack_base, Hm.
    + intros id [H|H]%(new_ids_id _ _ _ _ _ _ Hids); [by left|right; lia].
    + pose proof (bs_windows _ _ _ Hb) as Hnd. rewrite wss_windows_app in Hnd.
      apply NoDup_app in Hnd as (_ & Hd & _). intros w Hwm. apply Hd. fold (mon_windows m) in Hwm.
      by rewrite Hw in Hwm.
  - apply Forall_app. split; [done|by constructor].
  - cbn [app]. rewrite Hall. eapply names_from_distinct; [|exact Hn].
    apply names_from_app; [by eapply new_ids_names|by apply names_from_incl].
  - rewrite Hall, !wss_windows_app. fold (mon_windows m). by rewrite Hw.
Qed.

(** A monitor is taken away and leaves the workspaces [held]. *)
Lemma set_removed c opts ov ms i m held :
  set_ok par c opts ov [] ms → ms !! i = Some m → base c held →
  wss_windows held = mon_windows m → new_ids m.(mo_output) c m.(mo_workspaces) c held →
  set_ok par c opts ov held (take i ms ++ drop (S i) ms) ∧
  wss_windows (held ++ all_workspaces (take i ms ++ drop (S i) ms)) ≡ₚ wss_windows (all_workspaces ms).
Proof.
  intros [Hms Hb Hk Hn] Hi Hh Hw Hids.
  pose proof (vec_remove_perm i m ms Hi) as Hp.
  assert (Hall : all_workspaces ms ≡ₚ m.(mo_workspaces) ++ all_workspaces (take i ms ++ drop (S i) ms)).
  { exact (all_workspaces_Permutation _ _ Hp). }
  rewrite Hp in Hms, Hk. apply Forall_cons in Hms as [_ Hms], Hk as [_ Hk]. split; [split; [done| |done|]|].
  - eapply base_replace; [|exact Hh|reflexivity| |].
    + eapply base_permutation; [exact Hall|done].
    + intros id [H|H]%(new_ids_id _ _ _ _ _ _ Hids); [by left|right; lia].
    + pose proof (bs_windows _ _ _ Hb) as Hnd. cbn [app] in Hnd. rewrite Hall, wss_windows_app in Hnd.
      apply NoDup_app in Hnd as (_ & Hd & _). rewrite Hw. set_solver.
  - cbn [app] in Hn. rewrite Hall in Hn. eapply names_from_distinct; [|exact Hn].
    apply names_from_app; [by eapply new_ids_names|by apply names_from_incl].
  - by rewrite Hall, !wss_windows_app, Hw.
Qed.

End base.

(** ** Outcomes *)

(** The outcome of an operation of the layout: the invariant holds, the given windows came and
    went. *)
Record layout_outcome par (c : N) (ly : Layout) (added removed : list N) (ly' : Layout) (c' : N) : Prop := {
  lo_ok : layout_ok par c' ly';
  lo_windows : removed ++ ly_windows ly' ≡ₚ added ++ ly_windows ly;
  lo_counter : (c ≤ c')%N
}.

Definition ly_monitors (ly : Layout) : list Monitor :=
  match ly.(ly_set) with SetNormal monitors _ _ => monitors | SetNoOutputs _ => [] end.

(** Room for the ids an operation may draw. *)
Definition ly_room (c : N) (ly : Layout) : Prop := room (4 + 2 * N.of_nat (length (ly_monitors ly))) c.

Lemma room_less k k' c : (k' ≤ k)%N → room k c → room k' c.
Proof. unfold room. lia. Qed.

Lemma normal_parts par c ly ms p a :
  layout_ok par c ly → ly.(ly_set) = SetNormal ms p a →
  p < length ms ∧ a < length ms ∧ set_ok par c ly.(ly_options) ly.(ly_overview_open) [] ms.
Proof. unfold layout_ok. intros H E. rewrite E in H. tauto. Qed.

Lemma normal_homes par c ly ms p a :
  layout_ok par c ly → ly.(ly_set) = SetNormal ms p a → homes_ok p ms.
Proof. unfold layout_ok. intros H E. rewrite E in H. tauto. Qed.

Lemma layout_ok_normal par c ly ms p a :
  p < length ms → a < length ms → set_ok par c ly.(ly_options) ly.(ly_overview_open) [] ms → homes_ok p ms →
  layout_ok par c (set_ly_set (SetNormal ms p a) ly).
Proof. intros. unfold layout_ok. cbn. by split_and!. Qed.

(** One monitor was operated on. *)
Lemma normal_outcome_from par c ly ms p a i m src added removed m' c' a' :
  layout_ok par c ly → ly.(ly_set) = SetNormal ms p a → ms !! i = Some m →
  outcome_from par c m src added removed m' c' → NoDup (added ++ ly_windows ly) → a' < length ms →
  names_distinct (all_workspaces (<[i := set_mo_workspaces src m]> ms)) →
  layout_outcome par c ly added removed (set_ly_set (SetNormal (<[i := m']> ms) p a') ly) c'.
Proof.
  intros Hok E Hi Ho Hnd Ha' Hn. destruct (normal_parts par c ly ms p a Hok E) as (Hp & Ha & Hs).
  unfold ly_windows, ly_workspaces in Hnd. rewrite E in Hnd.
  destruct (set_outcome_from par c _ _ ms i m Hi src added removed m' c' Hs Ho Hnd Hn) as [Hs' Hw'].
  pose proof (normal_homes par c ly ms p a Hok E) as Hh. destruct Ho as [_ _ Hc Hk Hids Hsrc].
  split; [|unfold ly_windows, ly_workspaces; by rewrite E|lia].
  apply layout_ok_normal; rewrite ?length_insert; try done.
  eapply (homes_update p ms i m m'); [done|done|by injection Hk|exact Hids|].
  pose proof (ho_home _ _ Hh i m Hi) as Hhome. rewrite Forall_forall in Hhome. apply Forall_forall.
  intros ws (w & Hw & _ & Eo)%Hsrc. eapply same_at_home; [exact Eo|by apply Hhome].
Qed.

Lemma normal_outcome par c ly ms p a i m added removed m' c' a' :
  layout_ok par c ly → ly.(ly_set) = SetNormal ms p a → ms !! i = Some m →
  mon_outcome par c m added removed m' c' → NoDup (added ++ ly_windows ly) → a' < length ms →
  layout_outcome par c ly added removed (set_ly_set (SetNormal (<[i := m']> ms) p a') ly) c'.
Proof.
  intros Hok E Hi Ho%plain_outcome Hnd Ha'. eapply normal_outcome_from; [done..|].
  assert (Em : set_mo_workspaces m.(mo_workspaces) m = m) by (by destruct m).
  rewrite Em, list_insert_id by done. destruct (normal_parts par c ly ms p a Hok E) as (_ & _ & [_ _ _ Hn]).
  exact Hn.
Qed.

Lemma layout_windows_NoDup par c ly : layout_ok par c ly → NoDup (ly_windows ly).
Proof.
  unfold layout_ok, ly_windows, ly_workspaces.
  destruct (ly_set ly) as [ms p a|l]; [intros (_ & _ & H & _)|intros H]; apply H.
Qed.

Lemma layout_outcome_trans par c ly added removed ly1 c1 ly2 c2 :
  layout_outcome par c ly added removed ly1 c1 → layout_outcome par c1 ly1 [] [] ly2 c2 →
  layout_outcome par c ly added removed ly2 c2.
Proof. intros [H1 H2 H3] [G1 G2 G3]. split; [done| |lia]. cbn in G2. by rewrite G2. Qed.

(** Operations of a monitor that hand nothing over. *)
Lemma op_outcome par c m op r c' :
  mon_op_ok par c m op r c' → mon_arrived op = [] → mon_base op m = m →
  mon_outcome par c m (mon_added op) (snd r) (fst r) c'.
Proof. intros [H1 H2 H3 H4 H5] Ha Hb. rewrite Ha in H5. rewrite Hb in H4. by split. Qed.

Lemma joined_outcome par c m k m' c' :
  monitor_ok par c m → joined par c m k m' c' → mon_outcome par c m k [] m' c'.
Proof.
  intros [_ Hm]%monitor_ok_loose [H1 H2 H3 H4 H5 H6]. split; try done. apply monitor_ok_loose. auto.
Qed.

(** ** Finding *)
Lemma find_place_Some p stacks i j :
  find_place p stacks = Some (i, j) →
  ∃ l ws, stacks !! i = Some l ∧ l !! j = Some ws ∧ p ws = true ∧ vec_position p l = Some j.
Proof.
  revert i. induction stacks as [|l stacks IH]; intros i; cbn; [done|].
  destruct (vec_position p l) as [j'|] eqn:E.
  - intros [= <- <-]. pose proof E as (ws & Hws & Hp)%vec_position_Some. exists l, ws.
    by split_and!.
  - destruct (find_place p stacks) as [[i' j']|]; [|done]. intros [= <- <-]. by apply IH.
Qed.

Lemma find_place_is_Some p stacks l ws :
  l ∈ stacks → ws ∈ l → p ws = true → is_Some (find_place p stacks).
Proof.
  intros Hl Hws Hp. induction stacks as [|k stacks IH]; [by apply not_elem_of_nil in Hl|]. cbn.
  destruct (vec_position p k) as [j|] eqn:E; [by eexists|].
  apply elem_of_cons in Hl as [->|Hl].
  - destruct (vec_position_is_Some p k ws Hws Hp) as [? ?]. congruence.
  - destruct (IH Hl) as [[i j] ->]. by eexists.
Qed.

(** Nothing changes until the first element that returns something. *)
Lemma first_that_runs {A B} (f : A → option (A * option B)) l :
  (∀ x, x ∈ l → runs (f x) (λ r, snd r = None → fst r = x)) →
  runs (first_that f l) (λ r,
    r = (l, None) ∧ (∀ x, x ∈ l → f x = Some (x, None)) ∨
    ∃ i x x' b, l !! i = Some x ∧ f x = Some (x', Some b) ∧ r = (<[i := x']> l, Some (i, b))).
Proof.
  induction l as [|x l IH]; intros Hf; cbn [first_that].
  { apply runs_ret. left. split; [done|]. by intros x ?%not_elem_of_nil. }
  destruct (Hf x) as ([x' [b|]] & E & Hx); [left| |]; rewrite E; cbn [mbind option_bind fst snd].
  - apply runs_ret. right. by exists 0, x, x', b.
  - cbn in Hx. rewrite Hx in * by done. clear Hx.
    eapply runs_bind; [apply IH; intros y Hy; apply Hf; by right|]. intros r Hr.
    apply runs_ret. destruct Hr as [[-> Hall]|(i & y & y' & b & Hi & Ey & ->)]; cbn [fst snd].
    + left. split; [done|]. intros y [->|Hy]%elem_of_cons; auto.
    + right. by exists (S i), y, y', b.
Qed.
