(* ===== verification/LayoutSetOutputs.v ===== *)
(** * The layout: outputs that come and go

    Connecting an output takes the workspaces that belong to it from the primary monitor;
    disconnecting one gives its workspaces to the primary monitor. *)
From stdpp Require Import gmap strings.
From S2P Require Import Prelude Float64 FloatRound LayoutScrolling LayoutFloating LayoutOutput LayoutWorkspace LayoutWorkspaceOps LayoutWorkspaceProps LayoutMonitor LayoutMonitorOps LayoutMonitorMoves LayoutMonitorSwitch LayoutMonitorJoin LayoutMonitorProps LayoutSet LayoutSetOwn LayoutSetOps.

(** ** Reclaiming *)
(** A new output does not claim the empty workspaces of a connected monitor. *)
Definition separate (output : OutputName) (m : Monitor) : Prop :=
  output_matches output (OutputId_new m.(mo_output)) = false.

Lemma disjoint_separate output m : disjoint_outputs m.(mo_output) output → separate output m.
Proof. intros H. apply H, own_matches. Qed.

Definition staying (output : OutputName) (l : list Workspace) : list Workspace :=
  List.filter (λ ws, negb (belongs output ws)) l.

Definition leaving (output : OutputName) (l : list Workspace) : list Workspace :=
  List.filter (λ ws, belongs output ws && has_windows_or_name ws) l.

Lemma partition_perm (p : Workspace → bool) l :
  l ≡ₚ List.filter p l ++ List.filter (λ ws, negb (p ws)) l.
Proof.
  induction l as [|ws l IH]; [done|]. cbn. destruct (p ws); cbn; [by rewrite <- IH|].
  rewrite <- Permutation_middle. by rewrite <- IH.
Qed.

Lemma filter_andb (p q : Workspace → bool) l :
  List.filter (λ ws, p ws && q ws) l = List.filter q (List.filter p l).
Proof. induction l as [|ws l IH]; [done|]. cbn. destruct (p ws); cbn; by rewrite IH. Qed.

(** Only empty workspaces are lost. *)
Lemma leaving_perm output l :
  ∃ gone, Forall vacant gone ∧ l ≡ₚ gone ++ leaving output l ++ staying output l.
Proof.
  exists (List.filter (λ ws, negb (has_windows_or_name ws)) (List.filter (belongs output) l)). split.
  - apply Forall_forall. intros ws [_ H%negb_true_iff]%list_elem_of_In%List.filter_In. exact H.
  - rewrite app_assoc. rewrite (partition_perm (belongs output) l) at 1. apply Permutation_app_tail.
    unfold leaving. rewrite filter_andb. rewrite (partition_perm has_windows_or_name) at 1.
    apply Permutation_app_comm.
Qed.

Lemma vacant_gone gone l : Forall vacant gone → wss_windows (gone ++ l) = wss_windows l.
Proof. induction 1 as [|ws gone Hv _ IH]; [done|]. cbn. rewrite (vacant_windows ws Hv). exact IH. Qed.

Lemma leaving_windows output l :
  wss_windows l ≡ₚ wss_windows (leaving output l ++ staying output l).
Proof.
  destruct (leaving_perm output l) as (gone & Hv & Hl). rewrite Hl at 1. by rewrite vacant_gone.
Qed.

Lemma leaving_occupied output l : Forall occupied (leaving output l).
Proof. apply Forall_forall. by intros ws [_ [_ H]%andb_true_iff]%list_elem_of_In%List.filter_In. Qed.

Section reclaim.
  Context (par : N → option N) (output : OutputName) (c : N) (m : Monitor).
  Hypothesis Hok : monitor_ok par c m.
  Hypothesis Hsep : separate output m.
Local Abbreviation l := m.(mo_workspaces).

(** The primary monitor once the workspaces from [i] on were looked at. *)
Record reclaimed (i : nat) (m' : Monitor) (taken : list Workspace) (stopped : bool) : Prop := {
  rc_workspaces : m'.(mo_workspaces) = take i l ++ staying output (drop i l);
  rc_taken : rev taken = leaving output (drop i l);
  rc_meta : mo_meta m' = mo_meta m;
  rc_weak : weak_shape m';
  rc_switch : switch_ok m';
  rc_stopped : stopped = true → m'.(mo_switch) = None;
  rc_unchanged : m' = m ∨ m'.(mo_switch) = None;
  rc_middle : stopped = false → m'.(mo_switch) = None → middle_ok None m'
}.

Lemma blank_stays m' ws : mo_meta m' = mo_meta m → blank m'.(mo_output) ws → belongs output ws = false.
Proof using Hsep. intros HM [_ E]. unfold belongs. rewrite E, (output_meta _ _ HM). exact Hsep. Qed.

(** One workspace leaves; it is not at the ends. *)
Lemma leave_weak m' i ws :
  mo_meta m' = mo_meta m → weak_shape m' → m'.(mo_workspaces) !! i = Some ws → belongs output ws = true →
  let a := if (i <=? m'.(mo_active)) && negb (mo_above_first m' && (m'.(mo_active) =? 1))
           then m'.(mo_active) - 1 else m'.(mo_active) in
  let m2 := set_mo_active a (set_mo_switch None
              (set_mo_workspaces (take i m'.(mo_workspaces) ++ drop (S i) m'.(mo_workspaces)) m')) in
  weak_shape m2 ∧ (m'.(mo_switch) = None → middle_ok None m' → middle_ok None m2).
Proof using Hsep.
  intros HM [Ha Hl Hf] Hi Hb a m2. apply lookup_lt_Some in Hi as Hlt. unfold mo_count in *.
  pose proof (length_vec_remove i ws _ Hi) as Hlen.
  assert (Hlast : S i < length m'.(mo_workspaces)).
  { destruct (decide (i = length m'.(mo_workspaces) - 1)) as [->|]; [|lia].
    specialize (Hl ws Hi). by rewrite (blank_stays m' ws) in Hb. }
  assert (Hfirst : mo_above_first m' = true → 0 < i).
  { intros Haf. destruct (decide (i = 0)) as [->|]; [|lia].
    specialize (Hf ws Haf Hi). by rewrite (blank_stays m' ws) in Hb. }
  assert (Ha2 : (i <= mo_active m' ∧ a = mo_active m' - 1 ∨ mo_active m' < i ∧ a = mo_active m') ∨
                mo_above_first m' = true ∧ mo_active m' = 1 ∧ i = 1 ∧ a = 1).
  { unfold a. destruct (Nat.leb_spec i (mo_active m')); cbn [andb]; [|lia].
    destruct (mo_above_first m') eqn:Haf; cbn [andb negb]; [|lia].
    specialize (Hfirst eq_refl). destruct (Nat.eqb_spec (mo_active m') 1); cbn [negb]; [right|left]; lia. }
  clearbody a. split.
  - split; unfold mo_count; cbn.
    + lia.
    + intros x Hx. apply Hl. rewrite vec_remove_lookup_ge in Hx by lia. rewrite <- Hx. f_equal. lia.
    + intros x Haf Hx. change (mo_above_first m' = true) in Haf. specialize (Hfirst Haf).
      rewrite vec_remove_lookup_lt in Hx by lia. by apply Hf.
  - intros Hn Hmid j x Hj Hjl Hja _ Hx. change (range_start m2) with (range_start m') in Hj.
    unfold mo_count in Hjl. cbn in Hjl, Hja, Hx. destruct (decide (j < i)).
    + rewrite vec_remove_lookup_lt in Hx by lia. apply (Hmid j x); [done|unfold mo_count; lia|lia|done|done].
    + rewrite vec_remove_lookup_ge in Hx by lia.
      apply (Hmid (S j) x); [lia|unfold mo_count; lia| |done|done]. lia.
Qed.

Lemma reclaim_runs i m' taken stopped :
  i ≤ length l → reclaimed i m' taken stopped →
  runs (reclaim output (rev (seq 0 i)) m' taken stopped) (λ r, reclaimed 0 (fst (fst r)) (snd (fst r)) (snd r)).
Proof using Hsep.
  revert m' taken stopped. induction i as [|i IH]; intros m' taken stopped Hi Hrec; [by apply runs_ret|].
  rewrite seq_S, rev_app_distr. cbn [rev app reclaim Nat.add].
  destruct (lookup_lt_is_Some_2 l i) as [ws Hws]; [lia|].
  pose proof Hrec as [HW HT HM Hweak Hsw Hst Hun Hmid].
  assert (Hi' : m'.(mo_workspaces) !! i = Some ws).
  { rewrite HW, lookup_app_l by (rewrite length_take; lia). by rewrite lookup_take_lt by lia. }
  rewrite Hi'. cbn [mbind option_bind]. pose proof (drop_S _ _ _ Hws) as Hdrop.
  assert (Hrest : take i m'.(mo_workspaces) ++ drop (S i) m'.(mo_workspaces) =
                  take i l ++ staying output (drop (S i) l)).
  { rewrite HW, take_app_le, drop_app_ge by (rewrite length_take; lia).
    rewrite length_take, take_take, Nat.min_l by lia. f_equal.
    replace (S i - S i `min` length l) with 0 by lia. by rewrite drop_0. }
  fold (belongs output ws). destruct (belongs output ws) eqn:Hb.
  - rewrite (vec_remove_ok _ ws) by done. cbn [mbind option_bind snd]. apply IH; [lia|].
    destruct (leave_weak m' i ws HM Hweak Hi' Hb) as [Hweak2 Hmid2]. rewrite Hrest in Hweak2, Hmid2 |- *.
    split; try done.
    + rewrite Hdrop. unfold staying. cbn. by rewrite Hb.
    + rewrite Hdrop. unfold leaving in *. cbn. rewrite Hb. cbn [andb].
      destruct (has_windows_or_name ws); [|done]. rewrite rev_app_distr. cbn. by rewrite HT.
    + by right.
    + intros [-> Hset]%orb_false_iff _. unfold settled in Hset.
      destruct (mo_switch m') eqn:En; [done|]. auto.
  - apply IH; [lia|]. split; try done.
    + rewrite HW, Hdrop, (take_S_r _ _ ws) by done. unfold staying. cbn. rewrite Hb.
      by rewrite <- app_assoc.
    + rewrite Hdrop. unfold leaving in *. cbn. by rewrite Hb.
Qed.

(** The outcome: what belongs to the new output has left, empty workspaces aside. *)
Lemma reclaim_workspaces_runs :
  runs (reclaim_workspaces output m) (λ r, monitor_ok par c (fst r) ∧ mo_kept (fst r) = mo_kept m ∧
    snd r = leaving output l ∧
    ∃ m1, m1.(mo_workspaces) = staying output l ∧
      (fst r = m1 ∨ clean_up_workspaces m1 = Some (fst r)) ∧
      (∃ gone, staying output l ≡ₚ gone ++ (fst r).(mo_workspaces)) ∧
      wss_windows (fst r).(mo_workspaces) = wss_windows (staying output l)).
Proof using Hok Hsep.
  pose proof Hok as [Hst Hsh Hop]. unfold reclaim_workspaces.
  eapply runs_bind; [apply (reclaim_runs (mo_count m) m [] false); [done|]|].
  { split; try done.
    - by rewrite take_ge, drop_ge, app_nil_r.
    - by rewrite drop_ge.
    - by destruct (ok_weak _ _ _ Hok).
    - apply Hsh.
    - by left.
    - intros _. apply Hsh. }
  intros [[m1 taken] stopped] [HW HT HM Hweak Hsw Hstop Hun Hmid]. cbn [fst snd] in *.
  rewrite take_0, drop_0 in HW. rewrite drop_0 in HT. cbn [app] in HW.
  pose proof (kept_meta _ _ HM) as HK. pose proof (above_first_meta _ _ HM) as Haf.
  assert (Hst1 : stack_ok par m1.(mo_output) m1.(mo_options) c m1.(mo_workspaces)).
  { rewrite (output_meta _ _ HM), (options_meta _ _ HM), HW.
    eapply stack_shrink; [exact (partition_perm (belongs output) l)|done]. }
  assert (Hop1 : m1.(mo_options) = with_merged_layout m1.(mo_base_options) m1.(mo_layout_config))
    by (injection HM as _ -> -> -> _; done).
  destruct (stopped || (mo_above_first m1 && (mo_count m1 =? 2))) eqn:E.
  - assert (Hn : m1.(mo_switch) = None).
    { apply orb_true_iff in E as [->|[E1 E2%Nat.eqb_eq]%andb_true_iff]; [by apply Hstop|].
      destruct Hun as [->|?]; [|done]. by destruct (eo_count _ _ (sh_ends _ Hsh) E1). }
    destruct (clean_up_outcome par c m1) as (m2 & Ec & H1 & H2 & H3 & Ht); [done..|].
    rewrite Ec. apply runs_ret. cbn [fst snd].
    split_and!; [done|by rewrite H3|done|]. exists m1. split_and!; [done|by right| |].
    + rewrite <- HW. apply Ht.
    + by rewrite (td_windows _ _ Ht), HW.
  - apply orb_false_iff in E as [-> E]. cbn [mbind option_bind]. apply runs_ret. cbn [fst snd].
    split_and!; [|done|done|].
    + split; [done| |done]. destruct Hweak as [W1 W2 W3]. split; [split|..]; try done; auto.
      intros Haf1. rewrite Haf1 in E. by apply Nat.eqb_neq in E.
    + exists m1. split_and!; [done|by left|by exists []; rewrite HW|by rewrite HW].
Qed.

End reclaim.

(** ** Outputs *)

Section outputs.
  Context (par : N → option N).
Local Abbreviation ok := (layout_ok par).
Local Abbreviation keeps c ly := (layout_outcome par c ly [] []).

Lemma layout_keeps_refl c ly : ok c ly → keeps c ly ly c.
Proof. by split. Qed.

Lemma room_two c ly : ly_room c ly → room 2 c.
Proof. apply room_less. lia. Qed.

Lemma connect_wp c ly output l lc :
  base_stack par c l → forallb has_windows_or_name l = true → room 2 c →
  wp (connect ly output l lc) (λ m c', monitor_ok par c' m ∧ mon_windows m ≡ₚ wss_windows l ∧
    (c ≤ c')%N ∧ (m.(mo_base_options) = ly.(ly_options) ∧ m.(mo_overview_open) = ly.(ly_overview_open)) ∧
    m.(mo_output) = output ∧ new_ids output c l c' m.(mo_workspaces)) c.
Proof.
  intros Hb Hocc Hr. apply wp_bind. eapply wp_weaken; [by apply Monitor_new_wp|].
  intros m c' (Hok & Hw & Hc & HK & Hids). injection HK as Ho Hbase _. apply wp_ret. split_and!; try done.
  - by apply (overview_keeps par c' m).
  - lia.
Qed.

Lemma forallb_occupied l : Forall occupied l ↔ forallb has_windows_or_name l = true.
Proof. rewrite List.forallb_forall, Forall_forall. by setoid_rewrite list_elem_of_In. Qed.

(** The new output has no name of a connected one. *)
Definition output_new (ly : Layout) (output : OutputName) : Prop :=
  Forall (λ m, disjoint_outputs m.(mo_output) output) (ly_monitors ly).

Lemma leaving_belongs output l : Forall (λ ws, belongs output ws = true) (leaving output l).
Proof. apply Forall_forall. by intros ws [_ [H _]%andb_true_iff]%list_elem_of_In%List.filter_In. Qed.

Lemma staying_belongs output l : Forall (λ ws, belongs output ws = false) (staying output l).
Proof. apply Forall_forall. by intros ws [_ H%negb_true_iff]%list_elem_of_In%List.filter_In. Qed.

Lemma add_output_wp c ly output lc :
  ok c ly → ly_room c ly → output_new ly output →
  wp (add_output ly output lc) (keeps c ly) c.
Proof.
  intros Hok Hr%room_two Hdis. unfold add_output, output_new, layout_ok, ly_monitors in *.
  destruct ly as [[ms p a|l] la ov opts]; cbn [ly_set ly_options ly_overview_open ly_last_active] in *.
  - destruct Hok as (Hp & Ha & Hs & Hh). destruct (lookup_lt_is_Some_2 ms p Hp) as [m Hm]. rewrite Hm.
    pose proof (set_monitor par _ _ _ _ _ _ Hm _ Hs) as Hmok.
    assert (Hsep : separate output m).
    { rewrite Forall_lookup in Hdis. by eapply disjoint_separate, Hdis. }
    apply wp_bind, wp_lift, runs_ret, wp_bind, wp_lift.
    eapply runs_weaken; [by apply (reclaim_workspaces_runs par output c m)|].
    intros [m1 held] (Hok1 & Hk1 & Hheld & m0 & _ & _ & (gone & Hg) & Hw1). cbn [fst snd] in *.
    destruct (leaving_perm output m.(mo_workspaces)) as (lost & Hlost & Hperm).
    rewrite <- Hheld in Hperm. pose proof (leaving_windows output m.(mo_workspaces)) as HW. rewrite <- Hheld in HW.
    assert (Hpart : m.(mo_workspaces) ≡ₚ (lost ++ gone) ++ held ++ m1.(mo_workspaces)).
    { rewrite Hperm, Hg, <- app_assoc. apply Permutation_app_head.
      rewrite !app_assoc. by rewrite (Permutation_app_comm held gone). }
    destruct (set_update par c c opts ov [] held ms p m m1 [] []) as [Hs1 Hw']; try done.
    + eapply kept_fields; [done|]. by eapply set_kept.
    + pose proof (stack_base par _ _ _ _ (mok_stack _ _ _ Hmok)) as Hb.
      apply (base_permutation par _ _ _ Hpart) in Hb. by apply base_app in Hb as (_ & Hb & _).
    + intros id Hid. left. cbn [app]. rewrite Hpart, fmap_app. set_solver.
    + cbn [app]. unfold mon_windows at 2. rewrite HW, wss_windows_app. by rewrite <- Hw1.
    + apply Hs.
    + apply (names_update [] held ms p m); [done| |apply Hs]. cbn [app]. rewrite Hpart.
      apply names_from_incl. set_solver.
    + apply wp_bind. pose proof (st_base _ _ _ _ _ _ Hs1) as Hb1. apply base_app in Hb1 as (Hb1 & _).
      eapply wp_weaken; [apply connect_wp; [done| |done]|].
      { apply forallb_occupied. rewrite Hheld. apply leaving_occupied. }
      intros m2 c2 (Hok2 & Hw2 & Hc2 & Hk2 & Ho2 & Hids2). rewrite <- Ho2 in Hids2, Hheld, Hdis. apply wp_ret.
      destruct (set_new par c c2 opts ov held (<[p:=m1]> ms) m2) as [Hs2 Hw3]; try done.
      split; [|unfold ly_windows; cbn; by rewrite Hw3, Hw'|done].
      cbn. rewrite length_app, length_insert. split_and!; [lia|lia|done|].
      eapply (homes_add p _ m1 m2); [|by rewrite length_insert| |by apply list_lookup_insert_eq| |exact Hids2|].
      * apply (homes_update p ms p m m1 c m.(mo_workspaces) c);
          [done|done|by injection Hk1|by eapply new_ids_gone; rewrite Hpart, app_assoc|].
        by eapply ho_home.
      * apply Forall_insert; [done|]. injection Hk1 as -> _ _. rewrite Forall_lookup in Hdis. by eapply Hdis.
      * pose proof (staying_belongs output m.(mo_workspaces)) as Hst. rewrite Hg in Hst.
        rewrite Ho2. by apply Forall_app in Hst as [_ ?].
      * rewrite Hheld. apply leaving_belongs.
  - destruct Hok as [Hb Hocc Hn Hopt]. apply wp_bind.
    eapply wp_weaken; [apply connect_wp; [done|by apply forallb_occupied|done]|].
    intros m c' (Hok & Hw & Hc & Hk & Ho & Hids). rewrite <- Ho in Hids. apply wp_ret.
    destruct (set_new par c c' opts ov l [] m) as [Hs Hw']; try done.
    { split; [by constructor| |by constructor|]; by rewrite app_nil_r. }
    split; [|unfold ly_windows; cbn in *; by rewrite Hw', app_nil_r|done].
    cbn in *. split_and!; [lia|lia|done|apply homes_one].
Qed.

(** The primary monitor stays the same one unless it is the one that goes. *)
Lemma next_idx_ok {A} (l : list A) idx i :
  i < length l → idx < length l → length (take idx l ++ drop (S idx) l) ≠ 0 →
  (if idx <=? i then i - 1 else i) < length (take idx l ++ drop (S idx) l).
Proof.
  intros Hi Hidx. rewrite length_app, length_take, length_drop. intros.
  destruct (Nat.leb_spec idx i); lia.
Qed.

Lemma update_config_base par' opts c l :
  base_stack par' c l → base_stack par' c (ws_update_config opts <$> l) ∧
  wss_windows (ws_update_config opts <$> l) ≡ₚ wss_windows l.
Proof.
  intros [H1 H2 H3 H4].
  assert (Hs : Forall (λ ws, same_workspace ws (ws_update_config opts ws)) l).
  { eapply Forall_impl; [exact H1|]. intros ws. apply update_config_same. }
  pose proof (wss_windows_fmap _ _ Hs) as Hw. split; [|done]. split.
  - apply Forall_fmap. eapply Forall_impl; [exact H1|]. intros ws Hws. by apply ws_update_config_ok.
  - by rewrite (ids_fmap _ _ Hs).
  - by apply Forall_fmap.
  - by rewrite Hw.
Qed.

Lemma last_gone_ok c opts l :
  base_stack par c l → Forall occupied l → names_distinct l → Forall (λ ws, ws.(ws_output) = None) l →
  no_outputs_ok par c opts (ws_update_config opts <$> l).
Proof.
  intros Hb Hocc Hn Ho. pose proof (bs_ok _ _ _ Hb) as Hwok. split.
  - by apply update_config_base.
  - apply Forall_fmap. rewrite Forall_lookup in *. intros i ws Hi. unfold compose, occupied.
    rewrite (same_workspace_occupied ws); [by apply (Hocc i)|]. by apply (update_config_same par), (Hwok i).
  - eapply names_from_distinct; [|exact Hn]. apply tags_names. by rewrite <- list_fmap_compose.
  - apply Forall_fmap. eapply Forall_impl; [exact Ho|]. by intros ws.
Qed.

Lemma into_workspaces_output m : Forall (λ ws, ws.(ws_output) = None) (into_workspaces m).
Proof. apply Forall_fmap, Forall_forall. intros ws _. apply set_output_same. Qed.

Lemma into_at_home outputs p i m :
  Forall (at_home outputs p i) m.(mo_workspaces) → Forall (at_home outputs p i) (into_workspaces m).
Proof.
  intros H. apply Forall_fmap, Forall_forall. intros ws [Hws _]%list_elem_of_In%List.filter_In.
  apply list_elem_of_In in Hws. rewrite Forall_forall in H. eapply same_at_home; [|by apply H].
  unfold set_output. by case_decide.
Qed.

Lemma monitor_position_Some ms output i :
  monitor_position ms output = Some i → ∃ m, ms !! i = Some m ∧ m.(mo_output) = output.
Proof. intros (m & Hm & H%bool_decide_eq_true)%vec_position_Some. eauto. Qed.

Lemma monitor_position_runs ms output :
  (∃ m, m ∈ ms ∧ m.(mo_output) = output) →
  runs (monitor_position ms output) (λ i, ∃ m, ms !! i = Some m ∧ m.(mo_output) = output).
Proof.
  intros (m & Hm & Ho).
  destruct (vec_position_is_Some (λ m, bool_decide (m.(mo_output) = output)) ms m) as [i Hi];
    [done|by apply bool_decide_eq_true|].
  exists i. split; [done|]. by apply monitor_position_Some.
Qed.

Lemma remove_output_wp c ly output :
  ok c ly → ly_room c ly → (∃ m, m ∈ ly_monitors ly ∧ m.(mo_output) = output) →
  wp (remove_output ly output) (keeps c ly) c.
Proof.
  intros Hok Hr%room_two Hin. unfold remove_output, layout_ok, ly_monitors in *.
  destruct ly as [[ms p a|l] la ov opts]; cbn [ly_set ly_options ly_overview_open ly_last_active] in *.
  2:{ by destruct Hin as (m & []%not_elem_of_nil & _). }
  destruct Hok as (Hp & Ha & Hs & Hh). apply wp_bind, wp_lift.
  eapply runs_weaken; [by apply monitor_position_runs|]. intros idx (m & Hm & Ho).
  pose proof (set_monitor par _ _ _ _ _ _ Hm _ Hs) as Hmok.
  rewrite (vec_remove_ok _ m) by done. apply wp_bind, wp_lift, runs_ret.
  destruct (lookup_workspace m m.(mo_active)) as [ws Hws]; [by eapply ok_active|]. rewrite Hws.
  apply wp_bind, wp_lift, runs_ret. apply lookup_lt_Some in Hm as Hlt.
  destruct (into_workspaces_ok par c m Hmok) as (Hb & Hw & Hocc & Hids).
  destruct (set_removed par c opts ov ms idx m (into_workspaces m)) as [Hs1 Hw1]; [done..|].
  pose proof (next_idx_ok ms idx p Hp Hlt) as Hp'. pose proof (next_idx_ok ms idx a Ha Hlt) as Ha'.
  destruct (homes_remove p ms idx m Hh Hp Hm) as [Hh1 Hfit]. unfold others in Hh1, Hfit.
  set (rest := take idx ms ++ drop (S idx) ms) in *. set (held := into_workspaces m) in *.
  destruct rest as [|x rest0] eqn:Erest.
  - apply wp_ret. cbn [all_workspaces mbind list_bind] in Hw1. rewrite app_nil_r in Hw1.
    destruct (update_config_base par opts c held Hb) as [_ Hw2]. split; [|cbn|lia].
    + apply last_gone_ok; [done|by apply forallb_occupied| |apply into_workspaces_output].
      destruct Hs1 as [_ _ _ Hn]. cbn in Hn. by rewrite app_nil_r in Hn.
    + unfold ly_windows. cbn. by rewrite Hw2.
  - rewrite <- Erest in *. specialize (Hp' ltac:(rewrite Erest; cbn; lia)).
    specialize (Ha' ltac:(rewrite Erest; cbn; lia)). clear Erest. clearbody rest.
    set (p' := if idx <=? p then p - 1 else p) in *. set (a' := if idx <=? a then a - 1 else a) in *.
    destruct (lookup_lt_is_Some_2 rest p' Hp') as [m1 Hm1]. rewrite Hm1.
    apply wp_bind, wp_lift, runs_ret, wp_bind. eapply wp_weaken; [apply (append_workspaces_wp par)|].
    + by eapply set_monitor.
    + done.
    + eapply held_monitor; [exact Hm1|exact Hs1].
    + by apply forallb_occupied.
    + intros m2 c2 Harr. apply wp_ret.
      destruct (set_arrival par c opts ov rest p' m1 Hm1 held m2 c2 Hs1 Harr) as [Hs2 Hw2].
      split; cbn; [|unfold ly_windows; cbn; by rewrite Hw2, Hw1|destruct Harr; lia].
      rewrite length_insert. split_and!; [done..|]. destruct Harr as [_ _ _ Hk2 Hids2].
      eapply (homes_update p' rest p' m1 m2); [done|done|by injection Hk2|exact Hids2|].
      apply Forall_app. split; [|by eapply ho_home].
      by apply into_at_home.
Qed.

End outputs.
