(* ===== verification/LayoutSetMoves.v ===== *)
(** * The layout: workspaces and windows

    Operations of the workspace or monitor that a method looks up, opening, closing and activating
    windows, and moving windows, columns and workspaces between monitors. *)
From stdpp Require Import gmap strings.
From S2P Require Import Prelude Float64 FloatRound LayoutScrolling LayoutFloating LayoutOutput LayoutWorkspace LayoutWorkspaceOps LayoutWorkspaceProps LayoutMonitor LayoutMonitorOps LayoutMonitorMoves LayoutMonitorSwitch LayoutMonitorJoin LayoutMonitorProps LayoutSet LayoutSetOwn LayoutSetOps LayoutSetOutputs.

(** ** Workspaces without outputs *)
Section no_outputs.
  Context (par : N → option N).

(** One workspace changes. *)
Lemma base_update_workspace c l j ws ws' added removed :
  base_stack par c l → l !! j = Some ws → workspace_ok par ws' → ws'.(ws_id) = ws.(ws_id) →
  removed ++ ws_windows ws' ≡ₚ added ++ ws_windows ws → NoDup (added ++ wss_windows l) →
  base_stack par c (<[j := ws']> l) ∧
  removed ++ wss_windows (<[j := ws']> l) ≡ₚ added ++ wss_windows l.
Proof.
  intros Hb Hj Hok Hid Hw Hnd. destruct (insert_split l j ws ws' Hj) as (rest & Hl & Hl').
  assert (HW : removed ++ wss_windows (ws' :: rest) ≡ₚ added ++ wss_windows (ws :: rest)).
  { change (wss_windows (?x :: rest)) with (ws_windows x ++ wss_windows rest).
    by rewrite app_assoc, Hw, <- app_assoc. }
  apply (base_permutation par _ _ _ Hl) in Hb. rewrite Hl in Hnd. split; [|by rewrite Hl', Hl].
  eapply base_permutation; [by symmetry|].
  pose proof Hb as (B1 & _)%(base_app par c [ws]).
  apply (base_replace par c c [ws] [ws'] rest).
  - done.
  - destruct B1 as [_ _ [Bf _]%Forall_cons _]. split.
    + by constructor.
    + apply NoDup_singleton.
    + constructor; [by rewrite Hid|constructor].
    + cbn. rewrite app_nil_r. by apply Hok.
  - reflexivity.
  - intros id. cbn. rewrite Hid. auto.
  - rewrite <- HW in Hnd. apply NoDup_app in Hnd as (_ & _ & Hnd).
    change (wss_windows (ws' :: rest)) with (ws_windows ws' ++ wss_windows rest) in Hnd.
    apply NoDup_app in Hnd as (_ & Hd & _). cbn. rewrite app_nil_r. set_solver.
Qed.

(** What ties a workspace to its place. *)
Definition ws_place (ws : Workspace) := (ws.(ws_id), ws.(ws_base_options), ws.(ws_output)).

Lemma meta_place ws ws' : ws_meta ws' = ws_meta ws → ws_place ws' = ws_place ws.
Proof. unfold ws_place. by intros [= -> _ _ -> -> _ _]. Qed.

(** A workspace keeps its identity and is occupied afterwards. *)
Lemma no_outputs_fill c opts l j ws ws' added removed :
  base_stack par c l → (∀ k x, k ≠ j → l !! k = Some x → occupied x) →
  Forall (λ ws, ws.(ws_base_options) = opts ∧ ws.(ws_output) = None) l →
  l !! j = Some ws → workspace_ok par ws' → ws_place ws' = ws_place ws →
  removed ++ ws_windows ws' ≡ₚ added ++ ws_windows ws → NoDup (added ++ wss_windows l) → occupied ws' →
  names_distinct (<[j := ws']> l) →
  no_outputs_ok par c opts (<[j := ws']> l) ∧
  removed ++ wss_windows (<[j := ws']> l) ≡ₚ added ++ wss_windows l.
Proof.
  intros Hb Hocc Hopt Hj Hok Hm Hw Hnd Hocc' Hn. injection Hm as Hid Hbo Ho.
  destruct (base_update_workspace c l j ws ws' added removed) as [Hb' Hw']; [done..|].
  rewrite Forall_lookup in Hopt. destruct (Hopt _ _ Hj) as [E1 E2].
  split; [|done]. split; [done| |done|].
  - apply Forall_lookup. intros k x [(-> & -> & _)|[Hne Hk]]%list_lookup_insert_Some; [done|]. by eapply Hocc.
  - apply Forall_insert; [by apply Forall_lookup|]. by rewrite Hbo, Ho.
Qed.

Lemma no_outputs_update c opts l j ws ws' added removed :
  no_outputs_ok par c opts l → l !! j = Some ws → workspace_ok par ws' → ws_place ws' = ws_place ws →
  removed ++ ws_windows ws' ≡ₚ added ++ ws_windows ws → NoDup (added ++ wss_windows l) → occupied ws' →
  names_distinct (<[j := ws']> l) →
  no_outputs_ok par c opts (<[j := ws']> l) ∧
  removed ++ wss_windows (<[j := ws']> l) ≡ₚ added ++ wss_windows l.
Proof.
  intros [Hb Hocc _ Hopt]. rewrite Forall_lookup in Hocc. apply no_outputs_fill; [done| |done].
  intros k x _. by apply Hocc.
Qed.

(** The names when the workspace keeps its own, or has none. *)
Lemma names_keep (l : list Workspace) j ws ws' :
  l !! j = Some ws → ws'.(ws_id) = ws.(ws_id) → ws'.(ws_name) = ws.(ws_name) ∨ ws'.(ws_name) = None →
  names_distinct l → names_distinct (<[j := ws']> l).
Proof.
  intros Hj Hid Hname. apply names_from_distinct. intros x [k Hk]%list_elem_of_lookup.
  apply list_lookup_insert_Some in Hk as [(-> & -> & _)|[_ Hk]].
  - destruct Hname as [Hname|Hname]; [right; exists ws; split; [by eapply list_elem_of_lookup_2|done]|by left].
  - right. exists x. split; [by eapply list_elem_of_lookup_2|done].
Qed.

(** A workspace becomes empty and goes. *)
Lemma no_outputs_drop c opts l j ws ws' removed :
  no_outputs_ok par c opts l → l !! j = Some ws → workspace_ok par ws' → ws'.(ws_id) = ws.(ws_id) →
  removed ++ ws_windows ws' ≡ₚ ws_windows ws → vacant ws' →
  let l' := take j (<[j := ws']> l) ++ drop (S j) (<[j := ws']> l) in
  no_outputs_ok par c opts l' ∧ removed ++ wss_windows l' ≡ₚ wss_windows l.
Proof.
  intros [Hb Hocc Hn Hopt] Hj Hok Hid Hw Hv l'. apply lookup_lt_Some in Hj as Hlt.
  destruct (base_update_workspace c l j ws ws' [] removed) as [Hb' Hw']; [done..|apply Hb|].
  assert (Hp : l ≡ₚ ws :: l').
  { unfold l'. rewrite take_insert_ge, drop_insert_lt by lia. by apply vec_remove_perm. }
  assert (Hp' : <[j := ws']> l ≡ₚ [ws'] ++ l').
  { by apply vec_remove_perm, list_lookup_insert_eq. }
  split; [split|].
  - apply (base_permutation par _ _ _ Hp') in Hb'. by apply base_app in Hb' as (_ & Hb' & _).
  - rewrite Hp in Hocc. by apply Forall_cons in Hocc as [_ ?].
  - rewrite Hp in Hn. eapply names_from_distinct; [|exact Hn]. apply names_from_incl. intros x. by right.
  - rewrite Hp in Hopt. by apply Forall_cons in Hopt as [_ ?].
  - rewrite Hp' in Hw'. cbn in Hw'. by rewrite (vacant_windows ws' Hv) in Hw'.
Qed.
End no_outputs.

(** ** Places *)
Section places.
  Context (par : N → option N).
Local Abbreviation ok := (layout_ok par).
Local Abbreviation keeps c ly := (layout_outcome par c ly [] []).

Definition at_place (ly : Layout) (place : nat * nat) (ws : Workspace) : Prop :=
  ∃ l, ly_stacks ly !! fst place = Some l ∧ l !! snd place = Some ws.

Lemma at_place_normal ly ms p a i j ws :
  ly.(ly_set) = SetNormal ms p a → at_place ly (i, j) ws ↔
  ∃ m, ms !! i = Some m ∧ m.(mo_workspaces) !! j = Some ws.
Proof.
  intros E. unfold at_place, ly_stacks. rewrite E. cbn. split.
  - intros (l & (m & -> & Hm)%list_lookup_fmap_Some & Hj). eauto.
  - intros (m & Hm & Hj). exists m.(mo_workspaces). split; [|done]. by rewrite list_lookup_fmap, Hm.
Qed.

Lemma at_place_no_outputs ly l i j ws :
  ly.(ly_set) = SetNoOutputs l → at_place ly (i, j) ws ↔ i = 0 ∧ l !! j = Some ws.
Proof.
  intros E. unfold at_place, ly_stacks. rewrite E. cbn. split.
  - intros (k & Hk & Hj). destruct i; [|done]. injection Hk as <-. done.
  - intros [-> Hj]. by exists l.
Qed.

Lemma in_stacks ly ws : ws ∈ ly_workspaces ly ↔ ∃ l, l ∈ ly_stacks ly ∧ ws ∈ l.
Proof.
  unfold ly_workspaces, ly_stacks, all_workspaces. destruct (ly_set ly) as [ms p a|l].
  - rewrite list_elem_of_bind. split.
    + intros (m & Hws & Hm). exists m.(mo_workspaces). split; [|done]. by apply list_elem_of_fmap_2.
    + intros (l & (m & -> & Hm)%list_elem_of_fmap & Hws). eauto.
  - split; [intros; exists l; set_solver|]. by intros (k & ->%list_elem_of_singleton & ?).
Qed.

(** Looking a workspace up finds a place with that property. *)
Lemma find_place_runs ly p :
  (∃ ws, ws ∈ ly_workspaces ly ∧ p ws = true) →
  runs (find_place p (ly_stacks ly)) (λ place, ∃ ws, at_place ly place ws ∧ p ws = true).
Proof.
  intros (ws & (l & Hl & Hws)%in_stacks & Hp).
  destruct (find_place_is_Some p (ly_stacks ly) l ws Hl Hws Hp) as [[i j] E]. rewrite E. apply runs_ret.
  apply find_place_Some in E as (k & w & Hk & Hw & Hpw & _). exists w. split; [|done]. by exists k.
Qed.

Lemma window_in ly w : w ∈ ly_windows ly ↔ ∃ ws, ws ∈ ly_workspaces ly ∧ has_window ws w = true.
Proof.
  unfold ly_windows, wss_windows. rewrite list_elem_of_bind. setoid_rewrite has_window_spec. naive_solver.
Qed.

Lemma at_place_ok c ly place ws : ok c ly → at_place ly place ws → workspace_ok par ws.
Proof.
  intros Hok (l & Hl & Hws). assert (Hin : ws ∈ ly_workspaces ly).
  { apply in_stacks. exists l. split; by eapply list_elem_of_lookup_2. }
  unfold layout_ok, ly_workspaces in *. destruct (ly_set ly) as [ms p a|k].
  - destruct Hok as (_ & _ & [_ Hb _ _] & _). pose proof (bs_ok _ _ _ Hb) as H. cbn [app] in H.
    rewrite Forall_forall in H. by apply H.
  - pose proof (bs_ok _ _ _ (no_base _ _ _ _ Hok)) as H. rewrite Forall_forall in H. by apply H.
Qed.

Definition ly_outputs (ly : Layout) : list OutputName := mo_output <$> ly_monitors ly.

(** An operation of one workspace that keeps its windows. *)
Lemma with_workspace_runs {B} c ly place ws (f : Workspace → option (B * Workspace)) :
  ok c ly → at_place ly place ws → runs (f ws) (λ r, ws_keeps par ws (snd r)) →
  runs (with_workspace ly place f) (λ r, keeps c ly (snd r) c ∧ ly_outputs (snd r) = ly_outputs ly).
Proof.
  intros Hok Hat Hf. destruct place as [i j]. unfold with_workspace.
  pose proof (layout_windows_NoDup par c ly Hok) as Hnd. destruct (ly_set ly) as [ms p a|l] eqn:E.
  - apply (at_place_normal _ _ _ _ _ _ _ E) in Hat as (m & Hm & Hj). cbn [fst snd]. rewrite Hm.
    cbn [mbind option_bind]. unfold on_workspace. rewrite Hj. cbn [mbind option_bind].
    destruct Hf as (r & -> & Hr). cbn [mbind option_bind]. apply runs_ret. cbn [fst snd].
    destruct (normal_parts par c ly ms p a Hok E) as (Hp & Ha & Hs).
    split.
    + eapply (normal_outcome par c ly ms p a i m [] []); try done.
      apply (kept_workspace par c m j ws); [by eapply set_monitor|done..].
    + unfold ly_outputs, ly_monitors. rewrite E. cbn. rewrite list_fmap_insert, list_insert_id; [done|].
      by rewrite list_lookup_fmap, Hm.
  - apply (at_place_no_outputs _ _ _ _ _ E) in Hat as [-> Hj]. cbn [snd]. rewrite Hj.
    cbn [mbind option_bind]. destruct Hf as (r & -> & (Hwok & Hw & Hm)). cbn [mbind option_bind].
    apply runs_ret. cbn [fst snd]. unfold layout_ok in Hok. rewrite E in Hok.
    assert (Hn : (snd r).(ws_name) = ws.(ws_name)) by (by injection Hm).
    destruct (no_outputs_update par c (ly_options ly) l j ws (snd r) [] []) as [Hok' Hw']; try done.
    { by apply meta_place. }
    { apply Hok. }
    { unfold occupied. rewrite (occupied_proper ws (snd r) Hw Hn).
      pose proof (no_occupied _ _ _ _ Hok) as Hocc. rewrite Forall_lookup in Hocc. by apply (Hocc j). }
    { eapply names_keep; [done|by injection Hm|by left|apply Hok]. }
    split; [split; [done| |lia]|].
    + unfold ly_windows, ly_workspaces. rewrite E. exact Hw'.
    + unfold ly_outputs, ly_monitors. by rewrite E.
Qed.

Lemma active_place_runs c ly :
  ok c ly → runs (active_place ly) (λ o, ∀ place, o = Some place → ∃ ws, at_place ly place ws).
Proof.
  intros Hok. unfold active_place, active_monitor.
  destruct (ly_set ly) as [ms p a|l] eqn:E; [|by apply runs_ret].
  destruct (normal_parts par c ly ms p a Hok E) as (Hp & Ha & Hs). destruct (lookup_lt_is_Some_2 ms a Ha) as [m Hm]. rewrite Hm.
  cbn [mbind option_bind]. apply runs_ret. intros place [= <-].
  pose proof (set_monitor par _ _ _ _ _ _ Hm _ Hs) as Hmok.
  destruct (lookup_workspace m m.(mo_active)) as [ws Hws]; [by eapply ok_active|].
  exists ws. apply (at_place_normal _ _ _ _ _ _ _ E). eauto.
Qed.

Lemma with_active_workspace_runs {B} c ly (b : B) f :
  ok c ly →
  (∀ place ws, at_place ly place ws → active_place ly = Some (Some place) → workspace_ok par ws →
     runs (f ws) (λ r, ws_keeps par ws (snd r))) →
  runs (with_active_workspace ly b f) (λ r, keeps c ly (snd r) c ∧ ly_outputs (snd r) = ly_outputs ly).
Proof.
  intros Hok Hf. destruct (active_place_runs c ly Hok) as (o & Eo & Hp). unfold with_active_workspace.
  rewrite Eo. cbn [mbind option_bind]. destruct o as [place|].
  - destruct (Hp place eq_refl) as [ws Hws]. eapply with_workspace_runs; [done..|].
    eapply Hf; [done|done|]. by eapply at_place_ok.
  - apply runs_ret. split; [by apply layout_keeps_refl|done].
Qed.

(** The workspace that [with_window_workspace] takes. *)
Definition looked_up (ly : Layout) (window : option N) (place : nat * nat) (ws : Workspace) : Prop :=
  at_place ly place ws ∧
  match window with Some w => w ∈ ws_windows ws | None => active_place ly = Some (Some place) end.

Lemma with_window_workspace_runs {B} c ly window (b : B) f :
  ok c ly → (∀ w, window = Some w → w ∈ ly_windows ly) →
  (∀ place ws, looked_up ly window place ws → workspace_ok par ws → runs (f ws) (λ r, ws_keeps par ws (snd r))) →
  runs (with_window_workspace ly window b f) (λ r, keeps c ly (snd r) c ∧ ly_outputs (snd r) = ly_outputs ly).
Proof.
  intros Hok Hin Hf. unfold with_window_workspace. destruct window as [w|].
  - eapply runs_bind; [by apply find_place_runs, window_in, Hin|].
    intros place (ws & Hat & Hw%has_window_spec). eapply with_workspace_runs; [done..|].
    eapply Hf; [done|by eapply at_place_ok].
  - apply with_active_workspace_runs; [done|]. intros place ws Hat Ha Hws. by eapply Hf.
Qed.

(** ** Monitors *)
Lemma with_monitor_wp c ly i f :
  ok c ly → (∀ ms p a, ly.(ly_set) = SetNormal ms p a → i < length ms) →
  (∀ ms p a m, ly.(ly_set) = SetNormal ms p a → ms !! i = Some m → monitor_ok par c m →
     wp (f m) (mon_keeps par c m) c) →
  wp (with_monitor ly i f) (keeps c ly) c.
Proof.
  intros Hok Hi Hf. unfold with_monitor. pose proof (layout_windows_NoDup par c ly Hok) as Hnd.
  destruct (ly_set ly) as [ms p a|l] eqn:E; [|by apply wp_ret, layout_keeps_refl].
  destruct (normal_parts par c ly ms p a Hok E) as (Hp & Ha & Hs).
  destruct (lookup_lt_is_Some_2 ms i) as [m Hm]; [by eapply Hi|]. rewrite Hm.
  apply wp_bind, wp_lift, runs_ret, wp_bind. eapply wp_weaken; [eapply Hf; [done|exact Hm|]|].
  - by eapply set_monitor.
  - intros m' c' Ho. apply wp_ret. by eapply normal_outcome.
Qed.

Lemma with_active_monitor_wp c ly f :
  ok c ly →
  (∀ ms p a m, ly.(ly_set) = SetNormal ms p a → ms !! a = Some m → monitor_ok par c m →
     wp (f m) (mon_keeps par c m) c) →
  wp (with_active_monitor ly f) (keeps c ly) c.
Proof.
  intros Hok Hf. unfold with_active_monitor. destruct (ly_set ly) as [ms p a|l] eqn:E;
    [|by apply wp_ret, layout_keeps_refl].
  apply with_monitor_wp; [done| |].
  - intros ms' p' a' E'. rewrite E in E'. injection E' as <- <- <-.
    by destruct (normal_parts par c ly ms p a Hok E) as (_ & ? & _).
  - intros ms' p' a' m E' Hm. rewrite E in E'. injection E' as <- <- <-. by eapply Hf.
Qed.

End places.
