(* ===== verification/LayoutSetWindows.v ===== *)
(** * The layout: windows, columns and workspaces that change monitors, and windows that get the focus *)
From stdpp Require Import gmap strings.
From S2P Require Import Prelude Float64 FloatRound LayoutScrolling LayoutScrollingOps LayoutScrollingProps LayoutFloating LayoutFloatingProps LayoutOutput LayoutWorkspace LayoutWorkspaceOps LayoutWorkspaceProps LayoutMonitor LayoutMonitorOps LayoutMonitorMoves LayoutMonitorSwitch LayoutMonitorJoin LayoutMonitorProps LayoutSet LayoutSetOwn LayoutSetOps LayoutSetOutputs LayoutSetMoves.

Section windows.
  Context (par : N → option N) (Hcycle : no_cycle par) (g : Placement).
Local Abbreviation ok := (layout_ok par).
Local Abbreviation keeps c ly := (layout_outcome par c ly [] []).

(** ** Activation *)
Lemma mon_activate_runs c m f :
  monitor_ok par c m →
  (∀ ws, ws ∈ m.(mo_workspaces) → runs (f ws) (λ r, ws_keeps par ws (fst r) ∧ (snd r = false → fst r = ws))) →
  runs (mon_activate_with f m) (λ r, mon_keeps par c m (fst r) c ∧ (snd r = None → fst r = m)).
Proof.
  intros Hok Hf. unfold mon_activate_with.
  eapply runs_bind; [apply first_that_runs|].
  { intros ws Hws. eapply runs_bind; [by apply Hf|]. intros [ws' b] [_ H]. apply runs_ret.
    cbn in *. destruct b; [done|]. auto. }
  intros r [[-> _]|(i & ws & ws' & b & Hi & E & ->)]; cbn [fst snd].
  - apply runs_ret. cbn [fst snd]. assert (E : set_mo_workspaces m.(mo_workspaces) m = m) by (by destruct m).
    rewrite E. split; [by apply outcome_refl|done].
  - destruct (Hf ws) as ([x bx] & Ef & Hk & _); [by eapply list_elem_of_lookup_2|].
    rewrite Ef in E. cbn in E. injection E as -> _.
    pose proof (kept_workspace par c m i ws ws' Hok Hi Hk) as Hm.
    set (m1 := set_mo_workspaces _ m) in *. destruct (shows m1 i); cbn [mbind option_bind].
    + apply runs_ret. done.
    + eapply runs_bind; [eapply switch_workspace_runs, Hm|]. intros m2 H2. apply runs_ret.
      split; [by eapply outcome_trans|done].
Qed.

Lemma ly_activate_runs c ly f :
  ok c ly →
  (∀ ws, workspace_ok par ws → runs (f ws) (λ r, ws_keeps par ws (fst r) ∧ (snd r = false → fst r = ws))) →
  runs (ly_activate_with f ly) (λ ly', keeps c ly ly' c).
Proof.
  intros Hok Hf. unfold ly_activate_with. pose proof (layout_windows_NoDup par c ly Hok) as Hnd.
  destruct (ly_set ly) as [ms p a|l] eqn:E; [|by apply runs_ret, layout_keeps_refl].
  destruct (normal_parts par c ly ms p a Hok E) as (Hp & Ha & Hs).
  assert (Hm : ∀ m, m ∈ ms → runs (mon_activate_with f m)
                 (λ r, mon_keeps par c m (fst r) c ∧ (snd r = None → fst r = m))).
  { intros m Hm. pose proof (st_monitors _ _ _ _ _ _ Hs) as HM. rewrite Forall_forall in HM.
    apply mon_activate_runs; [by apply HM|]. intros ws Hws. apply Hf.
    pose proof (so_on _ _ _ _ _ (mok_stack _ _ _ (HM m Hm))) as Hon. rewrite Forall_forall in Hon.
    by apply Hon. }
  eapply runs_bind; [apply first_that_runs; intros m Hin; eapply runs_weaken; [by apply Hm|naive_solver]|].
  intros r [[-> _]|(i & m & m' & b & Hi & Em & ->)]; cbn [fst snd]; apply runs_ret.
  - assert (E2 : set_ly_set (SetNormal ms p a) ly = ly) by (rewrite <- E; by destruct ly).
    rewrite E2. by apply layout_keeps_refl.
  - destruct (Hm m) as (x & Ex & Hk & _); [by eapply list_elem_of_lookup_2|].
    rewrite Em in Ex. injection Ex as <-. eapply normal_outcome; [done|done|done|exact Hk|done|].
    by eapply lookup_lt_Some.
Qed.

(** A window that is not in the workspace leaves it alone. *)
Lemma activate_window_keeps ws w :
  workspace_ok par ws →
  runs (ws_activate_window par ws w) (λ r, ws_keeps par ws (fst r) ∧ (snd r = false → fst r = ws)).
Proof.
  intros Hok. destruct (ws_op_keeps par Hcycle g ws (WopActivateWindow w) (ws_activate_window par ws w))
    as (r & E & Hk); [done|split; [apply Hok|done]|done|done|].
  exists r. split_and!; [done|done|]. unfold ws_activate_window in E.
  destruct (fl_activate_window _ _ _) as [[f []]|]; cbn in E; [by simplify_eq/=| |done].
  destruct (sc_activate_window _ _) as [[s []]|]; cbn in E; by simplify_eq/=.
Qed.

Lemma activate_without_raising_keeps ws w :
  workspace_ok par ws →
  runs (ws_activate_window_without_raising ws w)
    (λ r, ws_keeps par ws (fst r) ∧ (snd r = false → fst r = ws)).
Proof.
  intros Hok. destruct (ws_op_keeps par Hcycle g ws (WopActivateWithoutRaising w)
    (ws_activate_window_without_raising ws w)) as (r & E & Hk); [done|split; [apply Hok|done]|done|done|].
  exists r. split_and!; [done|done|]. unfold ws_activate_window_without_raising in E.
  destruct (activate_window_without_raising _ _) as [f []]; [by simplify_eq/=|].
  destruct (sc_activate_window _ _) as [[s []]|]; cbn in E; by simplify_eq/=.
Qed.

(** ** Closing *)
Lemma mon_remove_absent m w : w ∉ mon_windows m → mon_remove_window g m w = Some None.
Proof.
  intros Hw. unfold mon_remove_window, ws_position.
  destruct (vec_position _ _) as [i|] eqn:E; [|done].
  apply vec_position_Some in E as (ws & Hi & H%has_window_spec). exfalso. apply Hw.
  apply list_elem_of_bind. exists ws. split; [done|]. by eapply list_elem_of_lookup_2.
Qed.

Lemma all_windows ms w : w ∈ wss_windows (all_workspaces ms) ↔ ∃ m, m ∈ ms ∧ w ∈ mon_windows m.
Proof.
  unfold mon_windows, wss_windows, all_workspaces. repeat setoid_rewrite list_elem_of_bind. naive_solver.
Qed.

Lemma remove_window_runs c ly w :
  ok c ly → w ∈ ly_windows ly →
  runs (remove_window g ly w) (λ r, ∃ t, snd r = Some t ∧ tl_window (rt_tile t) = w ∧
    layout_outcome par c ly [] [w] (fst r) c).
Proof.
  intros Hok Hw. unfold remove_window. pose proof (layout_windows_NoDup par c ly Hok) as Hnd.
  destruct (ly_set ly) as [ms p a|l] eqn:E; pose proof Hok as Hok'; unfold layout_ok in Hok'; rewrite E in Hok'.
  - destruct Hok' as (Hp & Ha & Hs & Hh). pose proof (st_monitors _ _ _ _ _ _ Hs) as HM. rewrite Forall_forall in HM.
    assert (Hrun : ∀ m, m ∈ ms → w ∈ mon_windows m → ∃ t m', mon_remove_window g m w = Some (Some (t, m')) ∧
              tl_window (rt_tile t) = w ∧ mon_outcome par c m [] [w] m' c).
    { intros m Hm Hmw. destruct (mon_remove_window_runs par g c m w) as (r & Er & t & m' & -> & H); eauto. }
    unfold ly_windows, ly_workspaces in Hw. rewrite E in Hw. apply all_windows in Hw as (m0 & Hm0 & Hw0).
    eapply runs_bind; [apply first_that_runs|].
    { intros m Hm. destruct (decide (w ∈ mon_windows m)) as [Hmw|Hmw].
      - destruct (Hrun m Hm Hmw) as (t & m' & -> & _). by apply runs_ret.
      - rewrite mon_remove_absent by done. by apply runs_ret. }
    intros r [[-> Hall]|(i & m & m' & t & Hi & Em & ->)]; cbn [fst snd]; apply runs_ret; cbn [fst snd].
    + exfalso. specialize (Hall m0 Hm0). destruct (Hrun m0 Hm0 Hw0) as (t & m' & Er & _).
      rewrite Er in Hall. done.
    + destruct (decide (w ∈ mon_windows m)) as [Hmw|Hmw].
      2:{ rewrite mon_remove_absent in Em by done. done. }
      destruct (Hrun m) as (t' & m2 & Er & Ht & Ho); [by eapply list_elem_of_lookup_2|done|].
      rewrite Er in Em. cbn in Em. injection Em as <- <-. exists t'. split_and!; [done|done|].
      by eapply normal_outcome.
  - unfold ly_windows, ly_workspaces in Hw, Hnd. rewrite E in Hw, Hnd.
    destruct (find_by_window l w Hw) as (idx & ws & Hpos & Hi & Hin).
    rewrite Hpos, Hi. cbn [mbind option_bind].
    assert (Hwok : workspace_ok par ws).
    { pose proof (bs_ok _ _ _ (no_base _ _ _ _ Hok')) as H. rewrite Forall_lookup in H. by apply (H idx). }
    destruct (ws_remove_tile_runs par g ws w) as ([t ws'] & -> & Ht & (Hok2 & Hw2 & Hm2)); [done|done|].
    cbn [mbind option_bind fst snd] in *. pose proof (meta_id _ _ Hm2) as Hid.
    destruct (has_windows_or_name ws') eqn:Hocc.
    + cbn [mbind option_bind]. apply runs_ret. exists t. split_and!; [done|done|].
      destruct (no_outputs_update par c (ly_options ly) l idx ws ws' [] [w]) as [H1 H2];
        [done..|by apply meta_place|done|done|done| |].
      { eapply names_keep; [done|done|left; by injection Hm2|apply Hok']. }
      split; [done| |lia]. unfold ly_windows, ly_workspaces. rewrite E. exact H2.
    + rewrite (vec_remove_ok _ ws') by (by apply list_lookup_insert_eq; eapply lookup_lt_Some).
      cbn [mbind option_bind fst snd]. apply runs_ret. exists t. split_and!; [done|done|].
      destruct (no_outputs_drop par c (ly_options ly) l idx ws ws' [w]) as [H1 H2]; try done.
      split; [done| |lia]. unfold ly_windows, ly_workspaces. rewrite E. exact H2.
Qed.

(** ** Opening *)
Definition add_target_ok (ly : Layout) (target : AddWindowTarget) : Prop :=
  match target with
  | AddAuto => True
  | AddOutput output => ∃ m, m ∈ ly_monitors ly ∧ m.(mo_output) = output
  | AddWorkspace id => id ∈ ws_id <$> ly_workspaces ly
  | AddNextTo w => w ∈ ly_windows ly
  end.

Lemma place_of_monitor ms p :
  (∃ ws, ws ∈ all_workspaces ms ∧ p ws = true) →
  runs (find_place p (mo_workspaces <$> ms)) (λ place, ∃ m ws, ms !! fst place = Some m ∧
    m.(mo_workspaces) !! snd place = Some ws ∧ p ws = true).
Proof.
  intros (ws & (m & Hws & Hm)%list_elem_of_bind & Hp).
  destruct (find_place_is_Some p (mo_workspaces <$> ms) m.(mo_workspaces) ws) as [[i j] E];
    [by apply list_elem_of_fmap_2|done|done|].
  rewrite E. apply runs_ret.
  apply find_place_Some in E as (l & x & (m' & -> & Hm')%list_lookup_fmap_Some & Hx & Hpx & _). eauto 10.
Qed.

Lemma window_location_runs ms w :
  w ∈ wss_windows (all_workspaces ms) →
  runs (window_location ms w) (λ place, ∃ m ws, ms !! fst place = Some m ∧
    m.(mo_workspaces) !! snd place = Some ws ∧ w ∈ ws_windows ws).
Proof.
  intros (ws & Hw & Hin)%list_elem_of_bind. eapply runs_weaken; [apply place_of_monitor|].
  - exists ws. split; [done|]. by apply has_window_spec.
  - intros place (m & x & Hm & Hx & H%has_window_spec). eauto 10.
Qed.

Lemma workspace_windows_in m j ws w :
  m.(mo_workspaces) !! j = Some ws → w ∈ ws_windows ws → w ∈ mon_windows m.
Proof. intros Hj Hw. apply list_elem_of_bind. exists ws. split; [done|]. by eapply list_elem_of_lookup_2. Qed.

Lemma resolve_layout_target_runs ly ms p a target :
  ly.(ly_set) = SetNormal ms p a → a < length ms → add_target_ok ly target →
  runs (resolve_target ms a target) (λ r, ∃ m, ms !! fst r = Some m ∧ mon_target_ok m (snd r)).
Proof.
  unfold add_target_ok, ly_monitors, ly_windows, ly_workspaces. intros E Ha Ht. rewrite E in Ht.
  destruct target as [|output|id|w]; cbn [resolve_target].
  - apply runs_ret. destruct (lookup_lt_is_Some_2 ms a Ha) as [m Hm]. by exists m.
  - eapply runs_bind; [by apply monitor_position_runs|]. intros i (m & Hm & _). apply runs_ret. by exists m.
  - apply list_elem_of_fmap in Ht as (ws & -> & Hws).
    eapply runs_bind; [apply place_of_monitor; exists ws; split; [done|apply N.eqb_refl]|].
    intros place (m & x & Hm & Hx & Hid%N.eqb_eq). apply runs_ret. exists m. split; [done|]. by exists (snd place), x.
  - eapply runs_bind; [by apply window_location_runs|]. intros place (m & x & Hm & Hx & Hw). apply runs_ret.
    exists m. split; [done|]. by eapply workspace_windows_in.
Qed.

Lemma add_window_normal_wp c ly ms p a w pending rule target width full floating activate :
  ok c ly → ly.(ly_set) = SetNormal ms p a → room 2 c → add_target_ok ly target → w ∉ ly_windows ly →
  wp (add_window par ly w pending rule target width full floating activate)
    (λ r, layout_outcome par c ly [w] [] (fst r)) c.
Proof.
  intros Hok E Hr Ht Hw. unfold add_window. rewrite E.
  destruct (normal_parts par c ly ms p a Hok E) as (Hp & Ha & Hs).
  apply wp_bind, wp_lift. eapply runs_weaken; [by eapply resolve_layout_target_runs|].
  intros [i tgt] (m & Hm & Htgt). cbn [fst snd] in *. rewrite Hm. apply wp_bind, wp_lift, runs_ret.
  pose proof (set_monitor par _ _ _ _ _ _ Hm _ Hs) as Hmok. pose proof Hmok as [Hl _]%monitor_ok_loose.
  apply wp_bind, wp_lift. eapply runs_weaken; [by eapply resolve_target_runs|]. intros _ _.
  apply wp_bind. unfold mon_add_window.
  destruct (lookup_workspace m 0) as [first Hfirst]; [pose proof (ok_active _ _ _ Hmok); lia|].
  rewrite Hfirst. apply wp_bind, wp_lift, runs_ret.
  assert (Hnew : w ∉ mon_windows m).
  { intros H. apply Hw. unfold ly_windows, ly_workspaces. rewrite E. by eapply monitor_windows_in. }
  eapply wp_weaken; [by apply mon_add_tile_wp|]. intros m' c' Hj%joined_outcome; [|done].
  apply wp_bind, wp_lift. destruct (map_smart_runs activate (Some false)) as [b ->]; [by eexists|].
  apply runs_ret, wp_ret. cbn [fst]. eapply normal_outcome; [done|done|done|exact Hj| |].
  - cbn. apply NoDup_cons. split; [done|]. by eapply layout_windows_NoDup.
  - destruct b; [by eapply lookup_lt_Some|done].
Qed.

(** Without outputs a first workspace may be made. *)
Definition place_made c opts l (r : list Workspace * nat * WorkspaceAddWindowTarget) (c' : N) : Prop :=
  let '(l', i, target) := r in
  base_stack par c' l' ∧ wss_windows l' = wss_windows l ∧ (c ≤ c')%N ∧
  Forall (λ ws, ws.(ws_base_options) = opts ∧ ws.(ws_output) = None) l' ∧
  (∀ k x, k ≠ i → l' !! k = Some x → occupied x) ∧ names_distinct l' ∧
  ∃ ws, l' !! i = Some ws ∧ workspace_ok par ws ∧ target_ok ws target.

Lemma new_no_outputs_ok id config opts : workspace_ok par (new_with_config_no_outputs id config opts).
Proof. destruct (Workspace_new_ok par id (MkOutputName "" None None None) config opts). by split. Qed.

Lemma place_made_old c opts l i ws target :
  no_outputs_ok par c opts l → l !! i = Some ws → target_ok ws target → place_made c opts l (l, i, target) c.
Proof.
  intros [Hb Hocc Hn Hopt] Hi Ht. rewrite Forall_lookup in Hocc. split_and!; try done.
  - intros k x _. by apply Hocc.
  - exists ws. split_and!; [done| |done]. pose proof (bs_ok _ _ _ Hb) as H. rewrite Forall_lookup in H.
    by eapply H.
Qed.

Lemma resolve_no_outputs_wp c ly l target :
  ly.(ly_set) = SetNoOutputs l → ok c ly → room 2 c → add_target_ok ly target →
  wp (resolve_target_no_outputs ly.(ly_options) l target) (place_made c ly.(ly_options) l) c.
Proof.
  unfold layout_ok, add_target_ok, ly_monitors, ly_windows, ly_workspaces. intros E Hok Hr Ht.
  rewrite E in Hok, Ht. destruct target as [|output|id|w]; cbn [resolve_target_no_outputs].
  - apply wp_bind. destruct l as [|ws l]; [|by apply wp_ret, wp_ret, (place_made_old _ _ _ 0 ws)].
    apply wp_bind, (wp_next_id 1); [done|]. apply wp_ret, wp_ret. set (ws := new_with_config_no_outputs c None (ly_options ly)).
    split_and!; try done; [|lia|by constructor| | |].
    + split; [constructor; [apply new_no_outputs_ok|constructor]|apply NoDup_singleton| |apply NoDup_nil_2].
      constructor; [cbn; lia|constructor].
    + intros [|k] x Hk Hx; done.
    + by intros x y ->%list_elem_of_singleton ->%list_elem_of_singleton.
    + exists ws. split_and!; [done|apply new_no_outputs_ok|done].
  - by destruct Ht as (m & []%not_elem_of_nil & _).
  - apply list_elem_of_fmap in Ht as (ws & -> & Hws).
    destruct (vec_position_is_Some (λ x, N.eqb x.(ws_id) ws.(ws_id)) l ws Hws (N.eqb_refl _)) as [i Hi].
    rewrite Hi. apply wp_bind, wp_lift, runs_ret, wp_ret.
    apply vec_position_Some in Hi as (x & Hx & _). by eapply place_made_old.
  - destruct (find_by_window l w Ht) as (i & ws & Hi & Hws & Hw). rewrite Hi.
    apply wp_bind, wp_lift, runs_ret, wp_ret. by eapply place_made_old.
Qed.

(** The first workspace gets the window. *)
Lemma no_outputs_added c ly l l' i tgt c' ws ws' w :
  ly.(ly_set) = SetNoOutputs l → place_made c ly.(ly_options) l (l', i, tgt) c' → l' !! i = Some ws →
  w ∉ ly_windows ly → added_tile par w ws ws' →
  layout_outcome par c ly [w] [] (set_ly_set (SetNoOutputs (<[i := ws']> l')) ly) c'.
Proof.
  intros E (Hb & Hw' & Hc & Hopt & Hocc & Hn & _) Hws Hw (Hwok' & Hwin & Hm).
  unfold ly_windows, ly_workspaces in Hw. rewrite E, <- Hw' in Hw.
  destruct (no_outputs_fill par c' (ly_options ly) l' i ws ws' [w] []) as [H1 H2]; try done.
  - by apply meta_place.
  - apply NoDup_cons. split; [done|apply Hb].
  - apply occupied_by_window. rewrite (perm_nil _ _ Hwin). done.
  - eapply names_keep; [done|by injection Hm|left; by injection Hm|done].
  - split; [done| |done]. unfold ly_windows, ly_workspaces. rewrite E. cbn in *. by rewrite H2, Hw'.
Qed.

Lemma place_window_new c ly l r c' ws w :
  ly.(ly_set) = SetNoOutputs l → place_made c ly.(ly_options) l r c' → fst (fst r) !! snd (fst r) = Some ws →
  w ∉ ly_windows ly → w ∉ ws_windows ws.
Proof.
  destruct r as [[l' i] tgt]. intros E (_ & Hw' & _) Hws Hw Hin. apply Hw.
  unfold ly_windows, ly_workspaces. rewrite E, <- Hw'. apply list_elem_of_bind. exists ws.
  split; [done|by eapply list_elem_of_lookup_2].
Qed.

Lemma add_window_wp c ly w pending rule target width full floating activate :
  ok c ly → ly_room c ly → add_target_ok ly target → w ∉ ly_windows ly →
  wp (add_window par ly w pending rule target width full floating activate)
    (λ r, layout_outcome par c ly [w] [] (fst r)) c.
Proof.
  intros Hok Hr%room_two Ht Hw. destruct (ly_set ly) as [ms p a|l] eqn:E; [by eapply add_window_normal_wp|].
  unfold add_window. rewrite E. apply wp_bind. eapply wp_weaken; [by apply resolve_no_outputs_wp|].
  intros [[l' i] tgt] c' Hp. pose proof Hp as (_ & _ & _ & _ & _ & _ & ws & Hws & Hwok & Htgt). rewrite Hws.
  apply wp_bind, wp_lift, runs_ret, wp_bind, wp_lift.
  eapply runs_weaken; [apply (ws_add_tile_runs par Hcycle ws (make_tile ws w pending rule)); [done| |done]|].
  { by eapply (place_window_new c ly l (l', i, tgt)). }
  intros ws' Hadd. apply wp_ret. by eapply no_outputs_added.
Qed.

(** ** Between monitors *)
Lemma with_monitor_window_wp c ly w idx activate :
  ok c ly → ly_room c ly → (∀ x, w = Some x → x ∈ ly_windows ly) →
  wp (ly_move_to_workspace par g ly w idx activate) (keeps c ly) c.
Proof.
  intros Hok Hr%room_two Hw. unfold ly_move_to_workspace.
  destruct (ly_set ly) as [ms p a|l] eqn:E; [|by apply wp_ret, layout_keeps_refl].
  destruct (normal_parts par c ly ms p a Hok E) as (Hp & Ha & Hs).
  apply wp_bind, wp_lift.
  assert (Hsrc : runs (match w with
                       | Some window => place ← window_location ms window; Some (fst place)
                       | None => Some a
                       end) (λ i, ∃ m, ms !! i = Some m ∧ ∀ x, w = Some x → x ∈ mon_windows m)).
  { destruct w as [w|].
    - specialize (Hw w eq_refl). unfold ly_windows, ly_workspaces in Hw. rewrite E in Hw.
      eapply runs_bind; [by apply window_location_runs|]. intros place (m & ws & Hm & Hws & Hin).
      apply runs_ret. exists m. split; [done|]. intros x [= <-]. by eapply workspace_windows_in.
    - apply runs_ret. destruct (lookup_lt_is_Some_2 ms a Ha) as [m Hm]. by exists m. }
  eapply runs_weaken; [exact Hsrc|]. intros i (m & Hm & Hin). apply with_monitor_wp; [done| |].
  - intros ms' p' a' E'. rewrite E in E'. injection E' as <- _ _. by eapply lookup_lt_Some.
  - intros ms' p' a' m' E' Hm' Hmok. rewrite E in E'. injection E' as <- _ _.
    rewrite Hm in Hm'. injection Hm' as <-. by apply move_to_workspace_wp.
Qed.

Lemma move_workspace_to_idx_layout_wp c ly reference new_idx :
  ok c ly → ly_room c ly → wp (ly_move_workspace_to_idx ly reference new_idx) (keeps c ly) c.
Proof.
  intros Hok Hr%room_two. unfold ly_move_workspace_to_idx. destruct reference as [[[output|] old]|].
  - destruct (ly_set ly) as [ms p a|l] eqn:E; [|by apply wp_ret, layout_keeps_refl].
    destruct (monitor_position ms output) as [i|] eqn:Ei; [|by apply wp_ret, layout_keeps_refl].
    apply monitor_position_Some in Ei as (m & Hm & _). apply with_monitor_wp; [done| |].
    + intros ms' p' a' E'. rewrite E in E'. injection E' as <- _ _. by eapply lookup_lt_Some.
    + intros ms' p' a' m' _ _ Hmok. by apply move_workspace_to_idx_wp.
  - apply with_active_monitor_wp; [done|]. intros ms p a m _ _ Hm. by apply move_workspace_to_idx_wp.
  - apply with_active_monitor_wp; [done|]. intros ms p a m _ _ Hm. by apply move_workspace_to_idx_wp.
Qed.

Lemma take_tile_runs ws window :
  workspace_ok par ws → (∀ w, window = Some w → w ∈ ws_windows ws) →
  runs (take_tile g window ws) (λ r, match fst r with
    | None => snd r = ws
    | Some t => True ∧ removed_windows par [tl_window (rt_tile t)] ws (snd r)
    end).
Proof.
  intros Hok Hw. unfold take_tile. destruct window as [w|].
  - destruct (ws_remove_tile_runs par g ws w) as ([t ws'] & -> & Ht & Hrem); [done|by apply Hw|].
    cbn in *. apply runs_ret. cbn. by rewrite Ht.
  - eapply runs_weaken; [by apply ws_remove_active_tile_runs|]. intros [[t|] ws']; cbn; naive_solver.
Qed.

(** Windows leave one place and arrive at another. *)
Lemma outcome_handed c ly k ly1 c1 ly2 c2 :
  layout_outcome par c ly [] k ly1 c1 → layout_outcome par c1 ly1 k [] ly2 c2 →
  keeps c ly ly2 c2.
Proof. intros [H1 H2 H3] [G1 G2 G3]. split; [done| |lia]. cbn in *. by rewrite G2, <- H2. Qed.

Section handover.
  Context (c : N) (ly : Layout) (ms : list Monitor) (p a : nat).
  Hypothesis Hok : ok c ly.
  Hypothesis E : ly.(ly_set) = SetNormal ms p a.

Lemma monitor_at i m : ms !! i = Some m → monitor_ok par c m.
Proof using Hok E. intros Hm. destruct (normal_parts par c ly ms p a Hok E) as (_ & _ & Hs). by eapply set_monitor. Qed.

Lemma monitors_apart i j m t w :
  ms !! i = Some m → ms !! j = Some t → i ≠ j → w ∈ mon_windows m → w ∉ mon_windows t.
Proof using Hok E.
  intros Hm Ht Hij Hw Hw'. destruct (normal_parts par c ly ms p a Hok E) as (_ & _ & [_ Hb _ _]). cbn [app] in Hb.
  pose proof (bs_windows _ _ _ Hb) as Hnd.
  rewrite (all_workspaces_Permutation _ _ (vec_remove_perm i m ms Hm)) in Hnd.
  change (NoDup (wss_windows (m.(mo_workspaces) ++ all_workspaces (take i ms ++ drop (S i) ms)))) in Hnd.
  rewrite wss_windows_app in Hnd. apply NoDup_app in Hnd as (_ & Hd & _). apply (Hd w Hw), all_windows.
  exists t. split; [|done]. apply lookup_lt_Some in Hm as Hlt. destruct (decide (j < i)).
  - apply list_elem_of_lookup_2 with j. by rewrite vec_remove_lookup_lt by lia.
  - apply list_elem_of_lookup_2 with (j - 1). rewrite vec_remove_lookup_ge by lia.
    by replace (S (j - 1)) with j by lia.
Qed.

(** A window goes from one monitor to a workspace of another. *)
Lemma hand_over_wp i j m t m1 src (removed : RemovedTile) target activate a' Q :
  ms !! i = Some m → ms !! j = Some t → i ≠ j → room 2 c → a' < length ms →
  taken par c m src (λ t, [tl_window (rt_tile t)]) (λ _, True) (Some removed, m1) →
  (∃ k ws, t.(mo_workspaces) !! k = Some ws ∧ ws.(ws_id) = target) →
  (∀ ly' c', keeps c ly ly' c' → Q ly' c') →
  wp (t' ← add_removed par t removed target activate;
      m' ← lift (<[j := t']> (<[i := m1]> ms) !! i);
      m' ← lift (clean_up_if_settled m');
      mret (set_ly_set (SetNormal (<[i := m']> (<[j := t']> (<[i := m1]> ms))) p a') ly)) Q c.
Proof using Hcycle Hok E.
  intros Hm Ht Hij Hr Ha' (_ & Hl1 & Hw1 & _ & HM & Hids) Hid HQ. cbn [fst snd] in *.
  set (w := tl_window (rt_tile removed)) in *. apply lookup_lt_Some in Hm as Hil.
  pose proof (monitor_at j t Ht) as Htok. pose proof Htok as [Htl _]%monitor_ok_loose.
  assert (Hw : w ∈ mon_windows m) by (rewrite Hw1; left).
  apply wp_bind. eapply wp_weaken; [apply (add_removed_wp par Hcycle c t t); try done|].
  { by apply (monitors_apart i j m t). }
  intros t' c' Hj%joined_outcome; [|done]. fold w in Hj.
  rewrite list_lookup_insert_ne, list_lookup_insert_eq by done. apply wp_bind, wp_lift, runs_ret.
  apply wp_bind, wp_lift. eapply runs_weaken; [by apply clean_up_if_settled_outcome|].
  intros m2 (Hok2 & Hw2 & Hk2 & gone & Hgone). apply wp_ret, HQ.
  assert (Ho : mon_outcome par c m [] [w] m2 c).
  { split; [done| |lia|by rewrite Hk2; apply kept_meta|].
    - cbn [app]. rewrite Hw2. by rewrite Hw1.
    - eapply (new_ids_trans _ _ _ c); [lia|by apply new_ids_same|exact (new_ids_gone _ _ _ _ gone _ Hgone)]. }
  destruct (normal_parts par c ly ms p a Hok E) as (Hp & Ha & Hs). pose proof (layout_windows_NoDup par c ly Hok) as Hnd.
  assert (H1 : layout_outcome par c ly [] [w] (set_ly_set (SetNormal (<[i := m2]> ms) p a) ly) c)
    by (by eapply normal_outcome).
  rewrite list_insert_insert_ne, list_insert_insert_eq by done.
  eapply outcome_handed; [exact H1|].
  apply (normal_outcome par c (set_ly_set (SetNormal (<[i := m2]> ms) p a) ly) (<[i := m2]> ms) p a j t [w] [] t' c' a');
    [apply H1|done|by rewrite list_lookup_insert_ne|exact Hj| |by rewrite length_insert].
  pose proof (lo_windows _ _ _ _ _ _ _ H1) as Hw'. cbn [app] in Hw' |- *. by rewrite Hw'.
Qed.

(** The same monitor. *)
Lemma put_back_wp i m m1 src (removed : RemovedTile) target activate a' Q :
  ms !! i = Some m → room 2 c → a' < length ms →
  taken par c m src (λ t, [tl_window (rt_tile t)]) (λ _, True) (Some removed, m1) →
  (∃ k ws, m.(mo_workspaces) !! k = Some ws ∧ ws.(ws_id) = target) →
  (∀ ly' c', keeps c ly ly' c' → Q ly' c') →
  wp (t' ← add_removed par m1 removed target activate;
      m' ← lift (<[i := t']> (<[i := m1]> ms) !! i);
      m' ← lift (clean_up_if_settled m');
      mret (set_ly_set (SetNormal (<[i := m']> (<[i := t']> (<[i := m1]> ms))) p a') ly)) Q c.
Proof using Hcycle Hok E.
  intros Hm Hr Ha' (_ & Hl1 & Hw1 & _ & HM & Hids) Hid HQ. cbn [fst snd] in *.
  apply lookup_lt_Some in Hm as Hil. pose proof (monitor_at i m Hm) as Hmok.
  pose proof Hmok as [Hl _]%monitor_ok_loose.
  apply wp_bind. eapply wp_weaken; [apply (add_removed_wp par Hcycle c m m1); try done|].
  { eapply (taken_fresh par Hcycle []); [apply Hl|done]. }
  intros t' c' Hj. rewrite list_lookup_insert_eq by (by rewrite length_insert).
  apply wp_bind, wp_lift, runs_ret, wp_bind.
  eapply wp_weaken; [exact (joined_settled par c m m1 _ t' c' Hw1 (kept_meta _ _ HM) Hids Hj)|].
  intros m2 c2 Ho. apply wp_ret, HQ. rewrite !list_insert_insert_eq.
  eapply normal_outcome; [done|done|done|exact Ho|by eapply layout_windows_NoDup|done].
Qed.

End handover.

(** The output exists when there are outputs. *)
Definition output_in (ly : Layout) (output : OutputName) : Prop :=
  ∃ m, m ∈ ly_monitors ly ∧ m.(mo_output) = output.

Lemma output_in_normal ly ms p a output :
  ly.(ly_set) = SetNormal ms p a → output_in ly output →
  runs (monitor_position ms output) (λ i, ∃ m, ms !! i = Some m ∧ m.(mo_output) = output).
Proof. unfold output_in, ly_monitors. intros E. rewrite E. apply monitor_position_runs. Qed.

Lemma active_monitor_at c ly ms p a :
  ok c ly → ly.(ly_set) = SetNormal ms p a →
  ∃ m ws, ms !! a = Some m ∧ monitor_ok par c m ∧ m.(mo_workspaces) !! m.(mo_active) = Some ws ∧
    workspace_ok par ws.
Proof.
  intros Hok E. destruct (normal_parts par c ly ms p a Hok E) as (_ & Ha & _).
  destruct (lookup_lt_is_Some_2 ms a Ha) as [m Hm]. pose proof (monitor_at c ly ms p a Hok E a m Hm) as Hmok.
  destruct (lookup_workspace m m.(mo_active)) as [ws Hws]; [by eapply ok_active|].
  exists m, ws. split_and!; [done..|]. apply monitor_ok_loose in Hmok as [Hl _]. by eapply loose_workspace.
Qed.

Lemma source_runs c ly ms p a window :
  ok c ly → ly.(ly_set) = SetNormal ms p a → (∀ w, window = Some w → w ∈ ly_windows ly) →
  runs (match window with
        | Some window => window_location ms window
        | None => m ← ms !! a; Some (a, m.(mo_active))
        end) (λ place, ∃ m ws, ms !! fst place = Some m ∧ m.(mo_workspaces) !! snd place = Some ws ∧
    ∀ w, window = Some w → w ∈ ws_windows ws).
Proof.
  intros Hok E Hw. destruct window as [w|].
  - specialize (Hw w eq_refl). unfold ly_windows, ly_workspaces in Hw. rewrite E in Hw.
    eapply runs_weaken; [by apply window_location_runs|]. intros place (m & ws & Hm & Hws & Hin).
    exists m, ws. split_and!; [done..|]. by intros x [= <-].
  - destruct (active_monitor_at c ly ms p a Hok E) as (m & ws & Hm & _ & Hws & _). rewrite Hm. apply runs_ret.
    by exists m, ws.
Qed.

Lemma follows_runs c m b window : monitor_ok par c m → ∃ r, follows m b window = Some r.
Proof.
  intros Hok. unfold follows. destruct window as [w|]; [|by eexists]. destruct b; [|by eexists].
  unfold mon_active_window. destruct (lookup_workspace m m.(mo_active)) as [ws Hws]; [by eapply ok_active|].
  rewrite Hws. by eexists.
Qed.

Lemma move_to_output_wp c ly window output target activate :
  ok c ly → ly_room c ly → output_in ly output ∨ ly_monitors ly = [] →
  (∀ w, window = Some w → w ∈ ly_windows ly) →
  wp (move_to_output par g ly window output target activate) (keeps c ly) c.
Proof.
  intros Hok Hr%room_two Hout Hw. unfold move_to_output.
  destruct (ly_set ly) as [ms p a|l] eqn:E; [|by apply wp_ret, layout_keeps_refl].
  destruct (normal_parts par c ly ms p a Hok E) as (Hp & Ha & Hs).
  destruct Hout as [Hout|Hout]; [|unfold ly_monitors in Hout; rewrite E in Hout; subst ms; cbn in Ha; lia].
  apply wp_bind, wp_lift. eapply runs_weaken; [by eapply output_in_normal|]. intros j (t & Ht & _).
  apply wp_bind, wp_lift. eapply runs_weaken; [by eapply source_runs|].
  intros [i src] (m & ws & Hm & Hws & Hin). cbn [fst snd] in *. rewrite Ht. apply wp_bind, wp_lift, runs_ret.
  destruct ((i =? j) && (src =? default (mo_active t) target)); [by apply wp_ret, layout_keeps_refl|].
  destruct (t.(mo_workspaces) !! default (mo_active t) target) as [tws|] eqn:Htws; [|by apply wp_ret, layout_keeps_refl].
  rewrite Hm. apply wp_bind, wp_lift, runs_ret. pose proof (monitor_at c ly ms p a Hok E i m Hm) as Hmok.
  apply wp_bind, wp_lift. destruct (map_smart_runs activate (follows m (i =? a) window)) as [b ->];
    [by eapply follows_runs|]. apply runs_ret.
  pose proof Hmok as [Hl _]%monitor_ok_loose. apply wp_bind, wp_lift.
  eapply runs_weaken; [eapply (on_workspace_taken par c m src _ (λ t, [tl_window (rt_tile t)]) (λ _, True) ws Hl Hws)|].
  { apply take_tile_runs; [by eapply loose_workspace|done]. }
  intros [[removed|] m1] Htk; cbn [fst snd]; [|by apply wp_ret, layout_keeps_refl].
  assert (Ha' : (if b then j else a) < length ms) by (destruct b; [by eapply lookup_lt_Some|done]).
  destruct (decide (i = j)) as [->|Hij].
  - rewrite Hm in Ht. injection Ht as <-. rewrite list_lookup_insert_eq by (by eapply lookup_lt_Some).
    apply wp_bind, wp_lift, runs_ret. eapply put_back_wp; try done. eauto.
  - rewrite list_lookup_insert_ne by done. rewrite Ht. apply wp_bind, wp_lift, runs_ret.
    eapply hand_over_wp; try done. eauto.
Qed.

(** ** Columns *)
Lemma add_column_by_idx_wp c ly ms p a i m idx col activate k :
  ok c ly → ly.(ly_set) = SetNormal ms p a → ms !! i = Some m → room 2 c → idx < mo_count m →
  column_ok col → NoDup (col_windows col ++ ly_windows ly) → k = col_windows col →
  wp (add_column_by_idx ly i idx col activate) (layout_outcome par c ly k []) c.
Proof.
  intros Hok E Hm Hr Hi Hcol Hnd ->. unfold add_column_by_idx. rewrite E, Hm.
  destruct (normal_parts par c ly ms p a Hok E) as (Hp & Ha & Hs).
  pose proof (monitor_at c ly ms p a Hok E i m Hm) as Hmok. pose proof Hmok as [Hl _]%monitor_ok_loose.
  apply wp_bind, wp_lift, runs_ret, wp_bind. eapply wp_weaken; [apply mon_add_column_wp; try done|].
  { eapply added_monitor; [exact Hm|]. unfold ly_windows, ly_workspaces in Hnd. by rewrite E in Hnd. }
  intros m' c' Hj%joined_outcome; [|done]. apply wp_ret. eapply normal_outcome; [done..|].
  destruct activate; [by eapply lookup_lt_Some|done].
Qed.

Lemma move_column_to_output_wp c ly output target activate :
  ok c ly → ly_room c ly → output_in ly output ∨ ly_monitors ly = [] →
  wp (move_column_to_output par g ly output target activate) (keeps c ly) c.
Proof.
  intros Hok Hr Hout. pose proof (room_two c ly Hr) as Hr2. unfold move_column_to_output.
  destruct (ly_set ly) as [ms p a|l] eqn:E; [|by apply wp_ret, layout_keeps_refl].
  destruct (normal_parts par c ly ms p a Hok E) as (Hp & Ha & Hs). pose proof Hout as Hout'.
  destruct Hout as [Hout|Hout]; [|unfold ly_monitors in Hout; rewrite E in Hout; subst ms; cbn in Ha; lia].
  apply wp_bind, wp_lift. eapply runs_weaken; [by eapply output_in_normal|]. intros j (t & Ht & _).
  destruct (active_monitor_at c ly ms p a Hok E) as (m & ws & Hm & Hmok & Hws & Hwok).
  rewrite Hm. apply wp_bind, wp_lift, runs_ret. rewrite Hws. apply wp_bind, wp_lift, runs_ret.
  destruct (floating_active ws); [by apply move_to_output_wp|].
  pose proof Hmok as [Hl Hmid]%monitor_ok_loose. apply wp_bind, wp_lift.
  eapply runs_weaken; [eapply (on_workspace_taken par c m _ _ col_windows column_ok ws Hl Hws)|].
  { eapply runs_weaken; [by apply (ws_remove_active_column_runs par)|]. intros [[t'|] ws']; cbn; naive_solver. }
  intros [[col|] m1] Htk; cbn [fst snd] in *.
  2:{ apply wp_ret. unfold taken in Htk. cbn in Htk. subst m1. rewrite list_insert_id by done.
      assert (E2 : set_ly_set (SetNormal ms p a) ly = ly) by (rewrite <- E; by destruct ly).
      rewrite E2. by apply layout_keeps_refl. }
  destruct Htk as (Hcol & Hl1 & Hw1 & Hm1 & HM & Hids). cbn [fst snd] in *.
  assert (Ho : mon_outcome par c m [] (col_windows col) m1 c).
  { split; [apply monitor_ok_loose; auto|by cbn; rewrite <- Hw1|lia|by apply kept_meta|by apply new_ids_same]. }
  pose proof (layout_windows_NoDup par c ly Hok) as Hnd.
  assert (H1 : layout_outcome par c ly [] (col_windows col) (set_ly_set (SetNormal (<[a := m1]> ms) p a) ly) c)
    by (by eapply normal_outcome).
  destruct (lookup_lt_is_Some_2 (<[a := m1]> ms) j) as [t' Ht'].
  { rewrite length_insert. by eapply lookup_lt_Some. }
  rewrite Ht'. apply wp_bind, wp_lift, runs_ret.
  pose proof (monitor_at c _ (<[a := m1]> ms) p a (lo_ok _ _ _ _ _ _ _ H1) eq_refl j t' Ht') as Htok.
  pose proof (ok_active _ _ _ Htok) as Hta. rewrite last_idx_some by lia. apply wp_bind, wp_lift, runs_ret.
  eapply wp_weaken; [eapply (add_column_by_idx_wp c _ (<[a := m1]> ms) p a j t' _ col activate (col_windows col))|];
    try done; [apply H1|lia| |].
  - pose proof (lo_windows _ _ _ _ _ _ _ H1) as Hw'. cbn [app] in Hw'. by rewrite Hw'.
  - intros ly2 c2 H2. by eapply outcome_handed.
Qed.

Lemma output_in_outputs ly output : output_in ly output ↔ output ∈ ly_outputs ly.
Proof. unfold output_in, ly_outputs. rewrite list_elem_of_fmap. naive_solver. Qed.

Lemma same_outputs ly ly' output :
  ly_outputs ly' = ly_outputs ly → output_in ly output ∨ ly_monitors ly = [] →
  (output_in ly' output ∨ ly_monitors ly' = []) ∧ length (ly_monitors ly') = length (ly_monitors ly).
Proof.
  intros Ho Hout. assert (Hlen : length (ly_monitors ly') = length (ly_monitors ly)).
  { apply (f_equal length) in Ho. unfold ly_outputs in Ho. by rewrite !length_fmap in Ho. }
  split; [|done]. destruct Hout as [Hout|Hout].
  - left. rewrite output_in_outputs in *. by rewrite Ho.
  - right. apply nil_length_inv. by rewrite Hlen, Hout.
Qed.

Lemma move_column_or_to_output_wp c ly (move : Workspace → option (Workspace * bool)) output :
  ok c ly → ly_room c ly → output_in ly output ∨ ly_monitors ly = [] →
  (∀ ws, workspace_ok par ws → runs (move ws) (λ r, ws_keeps par ws (fst r))) →
  wp (move_column_or_to_output par g move ly output) (λ r, keeps c ly (fst r)) c.
Proof.
  intros Hok Hr Hout Hmove. unfold move_column_or_to_output. apply wp_bind, wp_lift.
  eapply runs_weaken; [apply (with_active_workspace_runs par c ly false)|]; [done| |].
  { intros place ws _ _ Hws. eapply runs_bind; [by apply Hmove|]. intros r H. by apply runs_ret. }
  intros [b ly1] [H1 Ho1]. cbn [fst snd] in *. destruct (same_outputs ly ly1 output Ho1 Hout) as [Hout1 Hlen].
  destruct b; [by apply wp_ret|].
  apply wp_bind. eapply wp_weaken; [apply move_column_to_output_wp; [apply H1|unfold ly_room; by rewrite Hlen|done]|].
  intros ly2 c2 H2. apply wp_ret. by eapply layout_outcome_trans.
Qed.

(** ** Workspaces *)

(** A workspace changes in ways that do not concern its place. *)
Lemma replaced_keeps c m i ws ws' :
  monitor_ok par c m → m.(mo_workspaces) !! i = Some ws → ws_on par m.(mo_output) m.(mo_options) ws' →
  descends m.(mo_output) ws ws' → ws_windows ws' = ws_windows ws → ws'.(ws_name) = ws.(ws_name) →
  (blank m.(mo_output) ws → blank m.(mo_output) ws') →
  mon_keeps par c m (set_mo_workspaces (<[i := ws']> m.(mo_workspaces)) m) c.
Proof.
  intros [Hl Hmid]%monitor_ok_loose Hi Hon Hd Hw Hn Hb.
  destruct (replaced_loose par c m i ws ws') as [Hl1 Hw1]; [done..|apply Hd|done|done|].
  split; [|done|lia|done|by eapply new_ids_update].
  apply monitor_ok_loose. split; [done|]. intros Hset j x Hs Hlt Ha _ Hx. rewrite update_count in Hlt.
  apply lookup_lt_Some in Hi as Hil. destruct (decide (j = i)) as [->|Hne].
  - cbn in Hx. rewrite list_lookup_insert_eq in Hx by done. injection Hx as <-.
    unfold occupied. rewrite (occupied_proper ws ws') by (by rewrite ?Hw). by eapply (Hmid Hset i).
  - apply update_lookup in Hx; [|done]. by eapply (Hmid Hset j).
Qed.

Lemma base_cons_same c x x' l :
  base_stack par c (x :: l) → workspace_ok par x' → x'.(ws_id) = x.(ws_id) → ws_windows x' = ws_windows x →
  base_stack par c (x' :: l).
Proof.
  intros [[H1 H1']%Forall_cons H2 [H3 H3']%Forall_cons H4] Hok Hid Hw. split.
  - by constructor.
  - cbn in *. by rewrite Hid.
  - constructor; [by rewrite Hid|done].
  - unfold wss_windows in *. cbn in *. by rewrite Hw.
Qed.

Lemma set_original_ok o ws : workspace_ok par ws → workspace_ok par (set_ws_original_output o ws).
Proof. intros [H1 H2 H3 H4 H5]. by split. Qed.

(** A workspace leaves its monitor for another. *)
Lemma workspace_handed c ly ms p a i j m ws src name activate a' Q :
  ok c ly → ly.(ly_set) = SetNormal ms p a → ms !! i = Some m → i ≠ j → (∃ t, ms !! j = Some t ∧ name = OutputId_new t.(mo_output)) →
  m.(mo_workspaces) !! src = Some ws → room 4 c → a' < length ms →
  (∀ ly' c', keeps c ly ly' c' → Q (ly', activate) c') →
  wp (r ← remove_workspace_by_idx m src;
      target ← lift (<[i := snd r]> ms !! j);
      target ← insert_workspace target (set_ws_original_output name (fst r)) (target.(mo_active) + 1) activate;
      mret (set_ly_set (SetNormal (<[j := target]> (<[i := snd r]> ms)) p a') ly, activate)) Q c.
Proof.
  intros Hok E Hm Hij (t & Ht & ->) Hws Hr Ha' HQ. set (name := OutputId_new _). destruct (normal_parts par c ly ms p a Hok E) as (Hp & Ha & Hs).
  pose proof (monitor_at c ly ms p a Hok E i m Hm) as Hmok.
  apply wp_bind. eapply wp_weaken; [by apply (remove_workspace_by_idx_wp par c m src ws); [|eapply room_less; [|exact Hr]; lia|]|].
  intros [ws1 m1] c1 (E1 & [H1 H2 H3 H4 H5] & Hst). cbn [fst snd] in *. subst ws1.
  set (ws' := set_ws_original_output name (set_output None ws)).
  destruct (set_output_same None ws) as (Sw & Sid & _).
  pose proof (stack_base par _ _ _ _ Hst) as Hb.
  assert (Hb' : base_stack par c1 ([ws'] ++ m1.(mo_workspaces))).
  { cbn [app]. eapply base_cons_same; [exact Hb| |done|done].
    apply set_original_ok, set_output_ok. by pose proof (bs_ok _ _ _ Hb) as [? _]%Forall_cons. }
  destruct (set_update par c c1 (ly_options ly) (ly_overview_open ly) [] [ws'] ms i m m1 [] [])
    as [Hs1 Hw1]; try done.
  { lia. }
  { eapply kept_fields; [exact H4|]. by eapply set_kept. }
  { intros id. cbn [app]. rewrite fmap_cons, elem_of_cons. intros [->|[Hid|Hid]%(new_ids_id _ _ _ _ _ _ H5)]; [|by left|right; lia].
    left. change (ws_id ws') with (ws_id (set_output None ws)). rewrite Sid.
    apply list_elem_of_fmap_2. by eapply list_elem_of_lookup_2. }
  { cbn [app]. change (wss_windows [ws']) with (ws_windows (set_output None ws) ++ []).
    rewrite app_nil_r, Sw. exact H2. }
  { apply Hs. }
  { apply (names_update [] [ws'] ms i m m1); [done| |apply Hs].
    change ([ws'] ++ m1.(mo_workspaces)) with (ws' :: m1.(mo_workspaces)).
    intros x [->|Hx]%elem_of_cons; [|by apply (new_ids_names _ _ _ _ _ H5)].
    right. exists ws. split; [by eapply list_elem_of_lookup_2|]. split; [exact Sid|]. unfold ws', set_output. by case_decide. }
  assert (Hh1 : homes_ok p (<[i := m1]> ms)).
  { pose proof (normal_homes par c ly ms p a Hok E) as Hh.
    eapply (homes_update p ms i m m1); [done|done|by injection H4|exact H5|by eapply ho_home]. }
  assert (Ht1 : <[i := m1]> ms !! j = Some t) by (by rewrite list_lookup_insert_ne).
  clear Ht. rename Ht1 into Ht. rewrite Ht. apply wp_bind, wp_lift, runs_ret, wp_bind.
  pose proof (set_monitor par _ _ _ _ _ _ Ht _ Hs1) as Htok.
  eapply wp_weaken; [apply (insert_workspace_wp par c1 t ws' (t.(mo_active) + 1) activate)|].
  - done.
  - unfold room in *. lia.
  - pose proof (ok_active _ _ _ Htok). lia.
  - exact (held_monitor par _ _ _ _ _ _ Ht _ Hs1).
  - intros t' c2 Harr. apply wp_ret, HQ.
    destruct (set_arrival par c1 _ _ _ _ _ Ht [ws'] t' c2 Hs1 Harr) as [Hs2 Hw2].
    split; [|unfold ly_windows, ly_workspaces; rewrite E; cbn|destruct Harr; lia].
    + apply layout_ok_normal; rewrite ?length_insert; try done. destruct Harr as [_ _ _ K4 K5].
      eapply (homes_update p _ j t t'); [done|done|by injection K4|exact K5|].
      apply Forall_app. split; [|by eapply ho_home]. apply Forall_singleton.
      eapply new_at_home; [apply Hh1|by apply outputs_lookup|done].
    + rewrite Hw2. exact Hw1.
Qed.

Lemma move_workspace_to_output_by_id_wp c ly old_idx old_output new_output :
  ok c ly → ly_room c ly → output_in ly new_output ∨ ly_monitors ly = [] →
  (∀ o, old_output = Some o → output_in ly o ∨ ly_monitors ly = []) →
  wp (move_workspace_to_output_by_id ly old_idx old_output new_output) (λ r, keeps c ly (fst r)) c.
Proof.
  intros Hok Hr Hnew Hold. unfold move_workspace_to_output_by_id.
  destruct (ly_set ly) as [ms p a|l] eqn:E; [|by apply wp_ret, layout_keeps_refl].
  destruct (normal_parts par c ly ms p a Hok E) as (Hp & Ha & Hs).
  assert (Hne : ly_monitors ly ≠ []) by (unfold ly_monitors; rewrite E; intros ->; cbn in Ha; lia).
  destruct Hnew as [Hnew|]; [|done].
  assert (Hsrc : runs (match old_output with
                       | Some output => monitor_position ms output
                       | None => Some a
                       end) (λ i, ∃ m, ms !! i = Some m)).
  { destruct old_output as [o|].
    - destruct (Hold o eq_refl) as [Ho|]; [|done].
      eapply runs_weaken; [by eapply output_in_normal|]. intros i (m & Hm & _). by exists m.
    - apply runs_ret. by apply lookup_lt_is_Some_2. }
  apply wp_bind, wp_lift. eapply runs_weaken; [exact Hsrc|]. intros i (m & Hm).
  apply wp_bind, wp_lift. eapply runs_weaken; [by eapply output_in_normal|]. intros j (t & Ht & Ho).
  rewrite Hm. apply wp_bind, wp_lift, runs_ret.
  destruct (Nat.leb_spec (mo_count m) old_idx); [by apply wp_ret, layout_keeps_refl|].
  destruct (lookup_workspace m old_idx) as [ws Hws]; [done|].
  pose proof (monitor_at c ly ms p a Hok E i m Hm) as Hmok.
  destruct (Nat.eqb_spec i j) as [->|Hij].
  - unfold on_workspace. rewrite Hws. apply wp_bind, wp_lift, runs_ret, wp_ret. cbn [fst snd].
    eapply normal_outcome; [done|done|exact Hm| |by eapply layout_windows_NoDup|done].
    pose proof (so_on _ _ _ _ _ (mok_stack _ _ _ Hmok)) as Hon. rewrite Forall_lookup in Hon.
    destruct (Hon _ _ Hws) as [O1 O2 O3].
    apply (replaced_keeps c m old_idx ws); try done.
    + by split; [apply set_original_ok|..].
    + by split; [|left|right].
    + by intros [Hv _].
  - eapply workspace_handed; try done.
    + eexists. split; [exact Ht|]. by rewrite Ho.
    + eapply room_less; [|exact Hr]. lia.
    + destruct (_ && _); [by eapply lookup_lt_Some|done].
Qed.

Lemma move_workspace_to_output_wp c ly output :
  ok c ly → ly_room c ly → output_in ly output ∨ ly_monitors ly = [] →
  wp (move_workspace_to_output ly output) (λ r, keeps c ly (fst r)) c.
Proof.
  intros Hok Hr Hout. unfold move_workspace_to_output, active_monitor.
  destruct (ly_set ly) as [ms p a|l] eqn:E; [|apply wp_bind, wp_lift, runs_ret, wp_ret; by apply layout_keeps_refl].
  destruct (active_monitor_at c ly ms p a Hok E) as (m & _ & Hm & _). rewrite Hm.
  apply wp_bind, wp_lift, runs_ret. by apply move_workspace_to_output_by_id_wp.
Qed.

End windows.

(** ** Focusing a window

    [activate_window] makes a window the active one of its workspace, its workspace the active one
    of its monitor, and that monitor the active one. *)

(** ** In a workspace *)
Lemma activate_column_active s i s' : activate_column s i = Some s' → sc_active s' = i ∧ sc_columns s' = sc_columns s.
Proof.
  unfold activate_column. destruct (decide (sc_active s = i)); [by intros [= <-]|].
  destruct (sc_columns s !! i); [|done]. cbn. by intros [= <-].
Qed.

Lemma activate_idx_active c j c' b : activate_idx c j = Some (c', b) → co_active c' = j ∧ co_tiles c' = co_tiles c.
Proof.
  unfold activate_idx. destruct (decide (co_active c = j)); [by intros [= <- _]|].
  destruct (co_tiles c !! j); [|done]. cbn. by intros [= <- _].
Qed.

Lemma sc_activate_active s w s' :
  sc_activate_window s w = Some (s', true) → w ∈ windows s → active_window s' = Some w.
Proof.
  intros E Hw. destruct (position_col_runs s w Hw) as (i & Ei & c & j & t & Hi & Hpos & Hj & Ht).
  unfold sc_activate_window in E. rewrite Ei, Hi in E. cbn [mbind option_bind] in E. unfold col_activate_window in E. rewrite Hpos in E.
  cbn [mbind option_bind] in E. destruct (activate_idx c j) as [[c' b]|] eqn:Ec; [|done]. cbn in E.
  destruct (activate_column _ i) as [s2|] eqn:Es; [|done]. injection E as <-.
  apply activate_idx_active in Ec as [Ea Et]. apply activate_column_active in Es as [Es1 Es2].
  unfold active_window. rewrite Es1, Es2. cbn. rewrite list_lookup_insert_eq by (by eapply lookup_lt_Some).
  rewrite Ea, Et, Hj. cbn. by rewrite Ht.
Qed.

Section focus.
  Context (par : N → option N) (Hcycle : no_cycle par) (g : Placement).

(** The window is there just if it is found, and then it becomes the active one. *)
Lemma ws_activate_active ws w ws' b :
  workspace_ok par ws → ws_activate_window par ws w = Some (ws', b) →
  (b = true ↔ w ∈ ws_windows ws) ∧ (b = true → ws_active_window ws' = Some w).
Proof.
  intros Hok E. unfold ws_activate_window in E. unfold ws_windows. rewrite elem_of_app.
  destruct (decide (w ∈ fl_windows ws.(ws_floating))) as [Hf|Hf].
  - destruct (fl_activate_window_runs par Hcycle _ w (wo_floating _ _ Hok) Hf) as ([f d] & Ef & Hfok & _ & Ha & Hd).
    cbn in Hd, Ha, Hfok. subst d. rewrite Ef in E. cbn in E. injection E as <- <-. split; [tauto|]. intros _.
    unfold ws_active_window. cbn. by rewrite (fl_active_window_eq _ _ Hfok).
  - rewrite fl_activate_window_absent in E by done. cbn [mbind option_bind] in E.
    destruct (sc_activate_window_done _ w (wo_scrolling _ _ Hok)) as ([s d] & Es & _ & Hd & _). rewrite Es in E. cbn in E, Hd.
    destruct d; injection E as <- <-.
    + specialize (Hd eq_refl). split; [tauto|]. intros _. unfold ws_active_window. cbn. by eapply sc_activate_active.
    + split; [|done]. split; [done|]. intros [Hw|?]; [|done]. exfalso. unfold sc_activate_window in Es.
      destruct (position_col_runs _ w Hw) as (i & Ei & c & j & t & Hi & Hpos & _). rewrite Ei, Hi in Es.
      cbn [mbind option_bind] in Es. destruct (col_activate_window c w) as [c'|]; [|done]. cbn [mbind option_bind] in Es.
      by destruct (activate_column _ i).
Qed.

(** ** In the layout *)

(** No swipe between workspaces is going on. *)
Definition no_swipe (m : Monitor) : Prop := ∀ gesture, m.(mo_switch) ≠ Some (SwitchGesture gesture).

Lemma no_swipe_shows m idx : no_swipe m → shows m idx = false.
Proof. intros H. unfold shows. destruct (mo_switch m) as [[to|gesture]|] eqn:E; [done| |done]. by destruct (H gesture). Qed.

Lemma activate_workspace_active m idx m' :
  activate_workspace m idx = Some m' → mo_active m' = idx ∧ mo_workspaces m' = mo_workspaces m.
Proof.
  unfold activate_workspace, remember_previous. intros (m1 & E1 & [= <-])%bind_Some.
  assert (Ew : mo_workspaces m1 = mo_workspaces m).
  { destruct (mo_active m =? idx); [by injection E1 as <-|]. destruct (mo_workspaces m !! mo_active m); [|done]. by injection E1 as <-. }
  cbn. destruct (mo_switch m1) as [[x|[? ? ? ? ? []]]|]; try destruct (mo_active m1 =? idx); cbn; by rewrite Ew.
Qed.

Lemma ws_activate_same ws w ws' : ws_activate_window par ws w = Some (ws', false) → ws' = ws.
Proof.
  unfold ws_activate_window. destruct (fl_activate_window _ _ _) as [[f []]|]; cbn; [done| |done].
  destruct (sc_activate_window _ _) as [[s []]|]; cbn; [done| |done]. by intros [= <-].
Qed.

Lemma mon_activate_active m w r :
  Forall (workspace_ok par) m.(mo_workspaces) → no_swipe m →
  mon_activate_with (λ ws, ws_activate_window par ws w) m = Some r →
  match snd r with Some _ => mon_active_window (fst r) = Some (Some w) | None => w ∉ mon_windows m end.
Proof.
  intros Hws Hs E. unfold mon_activate_with in E. rewrite Forall_forall in Hws. apply bind_Some in E as (q & Eq & E).
  destruct (first_that_runs (λ ws, r ← ws_activate_window par ws w; Some (fst r, if snd r : bool then Some tt else None))
    m.(mo_workspaces)) as (q' & Eq' & Hq).
  { intros ws Hin. destruct (ws_activate_window_runs par Hcycle ws w (Hws _ Hin)) as ([ws' []] & Ew & _); rewrite Ew;
      apply runs_ret; [done|]. intros _. by eapply ws_activate_same. }
  rewrite Eq in Eq'. injection Eq' as <-. destruct Hq as [[-> Hnone]|(i & ws & ws' & b & Hi & Ew & ->)]; cbn [fst snd] in E.
  - injection E as <-. cbn [snd]. unfold mon_windows, wss_windows. intros (ws & Hw & Hin)%list_elem_of_bind.
    specialize (Hnone ws Hin). apply bind_Some in Hnone as ([x b] & Ew & [= -> Eb]). cbn in Eb.
    destruct b; [done|]. destruct (ws_activate_active ws w ws false) as [[_ H] _]; [by apply Hws|done|]. by specialize (H Hw).
  - apply bind_Some in E as (m2 & Em & [= <-]). rewrite no_swipe_shows in Em by done. cbn [fst snd].
    apply bind_Some in Ew as ([x b'] & Ew & [= -> Eb]). cbn in Eb. destruct b'; [|done].
    destruct (ws_activate_active ws w ws' true) as [_ Ha]; [by eapply Hws, list_elem_of_lookup_2|done|].
    unfold switch_workspace in Em. apply bind_Some in Em as (last & El & Em). apply activate_workspace_active in Em as [E1 E2].
    unfold mon_active_window. rewrite E1, E2. cbn [mo_workspaces set_mo_workspaces].
    unfold last_idx, mo_count in El. cbn in El. rewrite length_insert in El. apply lookup_lt_Some in Hi as Hlt.
    destruct (length (mo_workspaces m)) as [|n] eqn:En; [lia|]. injection El as <-.
    rewrite Nat.min_l by lia. rewrite list_lookup_insert_eq by lia. cbn. by rewrite Ha.
Qed.

Lemma ly_activate_active c ly w :
  layout_ok par c ly → w ∈ ly_windows ly → ly_monitors ly ≠ [] → Forall no_swipe (ly_monitors ly) →
  runs (ly_activate_window par ly w) (λ ly', ∃ i m, active_monitor ly' = Some (Some (i, m)) ∧ mon_active_window m = Some (Some w)).
Proof.
  intros Hok Hw Hne Hs. unfold ly_activate_window, ly_activate_with. unfold ly_windows, ly_workspaces in Hw. unfold ly_monitors in Hne, Hs.
  destruct (ly_set ly) as [ms p a|l] eqn:E; [|done]. rewrite Forall_forall in Hs.
  assert (Hm : ∀ m, m ∈ ms → monitor_ok par c m ∧ Forall (workspace_ok par) m.(mo_workspaces)).
  { intros m [i Hi]%list_elem_of_lookup. pose proof (monitor_at par c ly ms p a Hok E i m Hi) as Hmok. split; [done|].
    eapply Forall_impl; [apply (so_on _ _ _ _ _ (mok_stack _ _ _ Hmok))|]. by intros ws []. }
  set (f := λ ws, ws_activate_window par ws w).
  assert (Hf : ∀ m, m ∈ ms → runs (mon_activate_with f m) (λ r, snd r = None → fst r = m)).
  { intros m Hin. destruct (Hm m Hin) as [Hmok Hws]. rewrite Forall_forall in Hws. eapply runs_weaken.
    - apply mon_activate_runs with (c := c); [done|]. intros ws Hin'. by eapply activate_window_keeps, Hws.
    - by intros r [_ Hr]. }
  eapply runs_bind; [by apply first_that_runs|]. intros q [[-> Hnone]|(i & m & m' & b & Hi & Em & ->)]; apply runs_ret; cbn [fst snd].
  - exfalso. apply list_elem_of_bind in Hw as (ws & Hw & Hin). apply list_elem_of_bind in Hin as (m & Hws & Hin).
    pose proof (mon_activate_active m w _ (proj2 (Hm m Hin)) (Hs m Hin) (Hnone m Hin)) as Hn. cbn in Hn. apply Hn.
    apply list_elem_of_bind. by exists ws.
  - assert (Hin : m ∈ ms) by (by eapply list_elem_of_lookup_2).
    pose proof (mon_activate_active m w _ (proj2 (Hm m Hin)) (Hs m Hin) Em) as Ha. cbn [fst snd] in Ha. exists i, m'.
    split; [|done]. unfold active_monitor. cbn. by rewrite list_lookup_insert_eq by (by eapply lookup_lt_Some).
Qed.

End focus.
