(* ===== verification/LayoutSetNames.v ===== *)
(** * The layout: named workspaces, configuration, overview *)
From stdpp Require Import gmap strings.
From S2P Require Import Prelude Float64 FloatRound LayoutScrolling LayoutFloating LayoutOutput LayoutWorkspace LayoutWorkspaceOps LayoutWorkspaceProps LayoutMonitor LayoutMonitorOps LayoutMonitorMoves LayoutMonitorSwitch LayoutMonitorJoin LayoutMonitorProps LayoutSet LayoutSetOwn LayoutSetOps LayoutSetOutputs LayoutSetMoves LayoutSetWindows.

Section names.
  Context (par : N → option N).
Local Abbreviation ok := (layout_ok par).
Local Abbreviation keeps c ly := (layout_outcome par c ly [] []).

Lemma set_name_ok o ws : workspace_ok par ws → workspace_ok par (set_ws_name o ws).
Proof. intros [H1 H2 H3 H4 H5]. by split. Qed.

Lemma named_occupied name ws : occupied (set_ws_name (Some name) ws).
Proof. unfold occupied, has_windows_or_name. cbn. apply orb_true_r. Qed.

(** ** Naming a workspace *)

(** The workspace at [idx] gets a name. *)
Lemma named_stack c m idx ws name :
  mon_loose par c m → m.(mo_workspaces) !! idx = Some ws →
  let m1 := set_mo_workspaces (<[idx := set_ws_name (Some name) ws]> m.(mo_workspaces)) m in
  stack_ok par m.(mo_output) m.(mo_options) c m1.(mo_workspaces) ∧ mon_windows m1 ≡ₚ mon_windows m.
Proof.
  intros [Hst Hends Hsw Hop] Hi m1.
  destruct (insert_split m.(mo_workspaces) idx ws (set_ws_name (Some name) ws) Hi) as (rest & Hl & Hl').
  pose proof (so_on _ _ _ _ _ Hst) as Hon. rewrite Forall_lookup in Hon. destruct (Hon _ _ Hi) as [O1 O2 O3].
  split.
  - eapply (stack_update _ _ _ _ _ _ ws); [done..|split; [by apply set_name_ok|done|done]|done|].
    intros rest' Hr. pose proof (so_windows _ _ _ _ _ Hst) as Hnd. by rewrite Hr in Hnd.
  - unfold mon_windows, m1. cbn. by rewrite Hl', Hl.
Qed.

(** The workspaces of a monitor when the one at [j] has the name. *)
Definition named_at (name : string) (j : nat) (ws : Workspace) (m : Monitor) : list Workspace :=
  <[j := set_ws_name (Some name) ws]> m.(mo_workspaces).

Lemma named_distinct ms i m j ws name :
  ms !! i = Some m → m.(mo_workspaces) !! j = Some ws → names_distinct (all_workspaces ms) →
  name_fresh name (all_workspaces ms) →
  names_distinct (all_workspaces (<[i := set_mo_workspaces (named_at name j ws m) m]> ms)).
Proof.
  intros Hi Hj Hd Hf. destruct (all_workspaces_split ms i m Hi) as (rest & Hall & Hall').
  destruct (insert_split m.(mo_workspaces) j ws (set_ws_name (Some name) ws) Hj) as (l & Hl & Hl').
  specialize (Hall' (set_mo_workspaces (named_at name j ws m) m)). change (named_at name j ws m ≡ₚ set_ws_name (Some name) ws :: l) in Hl'.
  rewrite Hall'. change (mo_workspaces (set_mo_workspaces (named_at name j ws m) m)) with (named_at name j ws m).
  rewrite Hl'. cbn [app].
  assert (Hin : all_workspaces ms ≡ₚ ws :: l ++ rest) by (by rewrite Hall, Hl).
  apply (names_distinct_cons name); [| |done].
  - eapply names_from_distinct; [|exact Hd]. apply names_from_incl. intros x Hx. rewrite Hin. by right.
  - intros x Hx. apply Hf. rewrite Hin. by right.
Qed.

(** The outcome of naming a workspace. *)
Local Abbreviation named_outcome c m name j ws m' c' := (outcome_from par c m (named_at name j ws m) [] [] m' c').

Lemma named_src (m : Monitor) name j ws w :
  m.(mo_workspaces) !! j = Some ws → w ∈ named_at name j ws m →
  ∃ w0, w0 ∈ m.(mo_workspaces) ∧ w.(ws_id) = w0.(ws_id) ∧ w.(ws_original_output) = w0.(ws_original_output).
Proof.
  intros Hj [k Hk]%list_elem_of_lookup. apply list_lookup_insert_Some in Hk as [(-> & <- & _)|[_ Hk]].
  - exists ws. split; [by eapply list_elem_of_lookup_2|done].
  - exists w. split; [by eapply list_elem_of_lookup_2|done].
Qed.

Lemma grown_named c m m' i c' name j ws :
  monitor_ok par c m → m.(mo_workspaces) !! j = Some ws → grown par c m (named_at name j ws m) [] m' i c' →
  named_outcome c m name j ws m' c'.
Proof.
  intros [_ Hm]%monitor_ok_loose Hj [H1 H2 H3 _ H4 H5 _ H6]. split; try done; [apply monitor_ok_loose; auto|].
  intros w Hw. by eapply named_src.
Qed.

Lemma name_last_wp c m name :
  monitor_ok par c m → room 2 c →
  wp (name_last m name) (λ r c', ∃ j ws, m.(mo_workspaces) !! j = Some ws ∧
    named_outcome c m name j ws (fst r) c') c.
Proof.
  intros Hok Hr. pose proof (ok_active _ _ _ Hok) as Ha. unfold name_last. rewrite last_idx_some by lia.
  destruct (lookup_workspace m (mo_count m - 1)) as [ws Hws]; [lia|]. rewrite Hws.
  apply wp_bind, wp_lift, runs_ret. pose proof (blank_vacant _ _ (ok_last _ _ _ _ Hok Hws)) as Hv.
  unfold vacant in Hv. rewrite Hv. apply wp_bind, wp_ret. rewrite last_idx_some by lia.
  unfold set_name, on_workspace. rewrite Hws. apply wp_bind, wp_lift, runs_ret, wp_bind. cbn [fst snd].
  pose proof Hok as [Hl _]%monitor_ok_loose. destruct (named_stack c m _ ws name Hl Hws) as [Hst Hw].
  eapply wp_weaken; [apply (fill_pad_wp par c m _ ws _ (named_at name (mo_count m - 1) ws m) [])|]; try done.
  - apply new_ids_refl.
  - apply named_occupied.
  - intros [m' i] c' Hg. apply wp_ret. exists (mo_count m - 1), ws. split; [done|]. by eapply grown_named.
Qed.

Lemma normal_named c ly ms p a i m j ws name m' c' :
  ok c ly → ly.(ly_set) = SetNormal ms p a → ms !! i = Some m → m.(mo_workspaces) !! j = Some ws →
  name_fresh name (ly_workspaces ly) → named_outcome c m name j ws m' c' →
  keeps c ly (set_ly_set (SetNormal (<[i := m']> ms) p a) ly) c'.
Proof.
  intros Hok E Hi Hj Hf Ho. destruct (normal_parts par c ly ms p a Hok E) as (_ & Ha & [_ _ _ Hn]).
  eapply (normal_outcome_from par c ly ms p a i m); [done|done|done|exact Ho| |done|].
  - by eapply layout_windows_NoDup.
  - apply named_distinct; [done|done|exact Hn|]. unfold ly_workspaces in Hf. by rewrite E in Hf.
Qed.

(** A name that is not found. *)
Lemma find_place_None q (stacks : list (list Workspace)) l ws :
  find_place q stacks = None → l ∈ stacks → ws ∈ l → q ws = false.
Proof.
  intros H Hl Hws. apply not_true_is_false. intros Hq.
  destruct (find_place_is_Some q stacks l ws Hl Hws Hq). congruence.
Qed.

Lemma not_found_fresh ly name : find_workspace_by_name ly name = None → name_fresh name (ly_workspaces ly).
Proof. intros H ws (l & Hl & Hws)%in_stacks. by eapply find_place_None. Qed.

Lemma name_last_of_wp c ly i name :
  ok c ly → room 2 c → (ly_monitors ly ≠ [] → i < length (ly_monitors ly)) → name_fresh name (ly_workspaces ly) →
  wp (name_last_of ly i name) (λ r, keeps c ly (fst r)) c.
Proof.
  intros Hok Hr Hi Hf. unfold name_last_of. destruct (ly_set ly) as [ms p a|l] eqn:E; [|by apply wp_ret, layout_keeps_refl].
  destruct (normal_parts par c ly ms p a Hok E) as (Hp & Ha & Hs).
  unfold ly_monitors in Hi. rewrite E in Hi. destruct (lookup_lt_is_Some_2 ms i) as [m Hm].
  { apply Hi. intros ->. cbn in Ha. lia. }
  rewrite Hm. apply wp_bind, wp_lift, runs_ret, wp_bind.
  eapply wp_weaken; [apply name_last_wp; [by eapply monitor_at|done]|].
  intros [m' o] c' (j & ws & Hj & Ho). apply wp_ret. by eapply normal_named.
Qed.

Lemma active_lt c ly ms p a : ok c ly → ly.(ly_set) = SetNormal ms p a → a < length (ly_monitors ly).
Proof. intros Hok E. unfold ly_monitors. rewrite E. by destruct (normal_parts par c ly ms p a Hok E) as (_ & ? & _). Qed.

(** No other monitor has the name. *)
Definition name_not_elsewhere (ly : Layout) (name : string) : Prop :=
  ∀ ms p a i m, ly.(ly_set) = SetNormal ms p a → i ≠ a → ms !! i = Some m →
    find_named_workspace_index m name = None.

Lemma not_named_fresh m name : find_named_workspace_index m name = None → name_fresh name m.(mo_workspaces).
Proof.
  intros H ws Hws. apply not_true_is_false. intros Hn.
  destruct (vec_position_is_Some (is_named name) m.(mo_workspaces) ws Hws Hn) as [j Hj].
  unfold find_named_workspace_index in H. congruence.
Qed.

Lemma ensure_on_active_wp c ly name :
  ok c ly → ly_room c ly → name_not_elsewhere ly name →
  wp (ensure_named_workspace_on_active_monitor ly name) (λ r, keeps c ly (fst r)) c.
Proof.
  intros Hok Hr%room_two Hout. unfold ensure_named_workspace_on_active_monitor, active_monitor.
  destruct (ly_set ly) as [ms p a|l] eqn:E; [|by apply wp_bind, wp_lift, runs_ret, wp_ret, layout_keeps_refl].
  pose proof (active_lt c ly ms p a Hok E) as Ha.
  destruct (active_monitor_at par c ly ms p a Hok E) as (m & _ & Hm & _). rewrite Hm.
  apply wp_bind, wp_lift, runs_ret.
  destruct (find_named_workspace_index m name) eqn:Ef; [by apply wp_ret, layout_keeps_refl|].
  apply name_last_of_wp; [done..|]. unfold ly_workspaces. rewrite E.
  intros ws (x & Hws & [i Hx]%list_elem_of_lookup)%list_elem_of_bind.
  eapply not_named_fresh; [|exact Hws]. destruct (decide (i = a)) as [->|Hia]; [congruence|]. by eapply Hout.
Qed.

Lemma default_position (ms : list Monitor) (p : Monitor → bool) i :
  i < length ms → default i (vec_position p ms) < length ms.
Proof.
  intros. destruct (vec_position p ms) as [j|] eqn:E; [|done].
  apply vec_position_Some in E as (m & Hm & _). by eapply lookup_lt_Some.
Qed.

Lemma ensure_on_monitor_wp c ly name output_name :
  ok c ly → ly_room c ly →
  wp (ensure_named_workspace_on_monitor ly name output_name) (λ r, keeps c ly (fst r)) c.
Proof.
  intros Hok Hr%room_two. unfold ensure_named_workspace_on_monitor.
  destruct (find_workspace_by_name ly name) eqn:Ef; [by apply wp_ret, layout_keeps_refl|].
  destruct (ly_set ly) as [ms p a|l] eqn:E; [|by apply wp_ret, layout_keeps_refl].
  apply name_last_of_wp; [done..| |by apply not_found_fresh]. intros _. pose proof (active_lt c ly ms p a Hok E) as Ha.
  unfold ly_monitors in *. rewrite E in *. destruct output_name; [by apply default_position|done].
Qed.

(** The monitor that the configuration asks for. *)
Lemma configured_home ms primary active i m config id options :
  homes_ok primary ms → ms !! i = Some m →
  i = match config.(wc_open_on_output) with
      | Some name => default primary (vec_position (λ m, output_matches m.(mo_output) name) ms)
      | None => active
      end →
  at_home (outputs_of ms) primary i (new_with_config id m.(mo_output) (Some config) options).
Proof.
  intros Hh Hi Ei. pose proof (ho_outputs _ _ Hh) as Hd. pose proof (outputs_lookup ms i m Hi) as Ho.
  destruct (wc_open_on_output config) as [name|] eqn:En.
  2:{ eapply new_at_home; [done|exact Ho|]. cbn. by rewrite En. }
  assert (Eb : ∀ o, belongs o (new_with_config id m.(mo_output) (Some config) options) = output_matches o name).
  { intros o. unfold belongs. cbn. by rewrite En. }
  destruct (vec_position _ ms) as [j|] eqn:Ej; cbn in Ei; subst i.
  - apply vec_position_Some in Ej as (x & Hx & Hb). eapply own_at_home; [done|exact Ho|].
    rewrite Hi in Hx. injection Hx as <-. by rewrite Eb.
  - unfold at_home. rewrite decide_True by done. intros j o _ (x & -> & Hx)%list_lookup_fmap_Some. rewrite Eb.
    apply not_true_is_false. intros Hb.
    destruct (vec_position_is_Some (λ m, output_matches m.(mo_output) name) ms x) as [? ?];
      [by eapply list_elem_of_lookup_2|done|congruence].
Qed.

(** A named workspace from the configuration arrives. *)
Lemma ensure_named_workspace_wp c ly config :
  ok c ly → ly_room c ly → wp (ensure_named_workspace ly config) (keeps c ly) c.
Proof.
  intros Hok Hr. unfold ensure_named_workspace.
  destruct (find_workspace_by_name ly (wc_name config)) eqn:Ef; [by apply wp_ret, layout_keeps_refl|].
  apply not_found_fresh in Ef. unfold ly_workspaces in Ef.
  destruct (ly_set ly) as [ms p a|l] eqn:E.
  - destruct (normal_parts par c ly ms p a Hok E) as (Hp & Ha & Hs).
    set (i := match wc_open_on_output config with Some name => _ | None => a end).
    assert (Hi : i < length ms) by (unfold i; destruct (wc_open_on_output config); [by apply default_position|done]).
    assert (Ei : i = match wc_open_on_output config with Some name => _ | None => a end) by reflexivity.
    clearbody i. destruct (lookup_lt_is_Some_2 ms i Hi) as [m Hm]. rewrite Hm.
    apply wp_bind, wp_lift, runs_ret, wp_bind, (wp_next_id 0); [by eapply room_less; [|exact Hr]; lia|].
    apply wp_bind. set (ws := new_with_config c m.(mo_output) (Some config) (ly_options ly)).
    assert (Hs1 : set_ok par (c + 1) (ly_options ly) (ly_overview_open ly) [ws] ms).
    { destruct (set_mono par c (c + 1)%N _ _ _ _ ltac:(lia) Hs) as [S1 S2 S3 S4]. split; [done| |done|].
      2:{ by apply (names_distinct_cons (wc_name config)). }
      destruct Hs as [_ Hb _ _]. cbn [app] in *. apply (base_app par _ [ws]). split_and!; [|done| |].
      - split; [by constructor; [apply Workspace_new_ok|]|apply NoDup_singleton| |apply NoDup_nil_2].
        constructor; [cbn; lia|constructor].
      - intros id ->%list_elem_of_singleton (x & Ex & Hx)%list_elem_of_fmap.
        pose proof (bs_fresh _ _ _ Hb) as Hf. rewrite Forall_forall in Hf. apply Hf in Hx. cbn in Ex. lia.
      - intros w Hw. by apply not_elem_of_nil in Hw. }
    pose proof (set_monitor par _ _ _ _ _ _ Hm _ Hs1) as Hmok.
    eapply wp_weaken; [apply (insert_workspace_wp par (c + 1)%N m ws 0 false)|].
    + done.
    + unfold ly_room, room in *. lia.
    + lia.
    + exact (held_monitor par _ _ _ _ _ _ Hm _ Hs1).
    + intros m' c' Harr. apply wp_ret.
      destruct (set_arrival par _ _ _ _ _ _ Hm [ws] m' c' Hs1 Harr) as [Hs2 Hw2].
      split; [|unfold ly_windows, ly_workspaces; rewrite E; exact Hw2|destruct Harr; lia].
      apply layout_ok_normal; rewrite ?length_insert; try done. destruct Harr as [_ _ _ K4 K5].
      pose proof (normal_homes par c ly ms p a Hok E) as Hh.
      eapply (homes_update p ms i m m'); [done|done|by injection K4|exact K5|].
      apply Forall_app. split; [|by eapply ho_home]. apply Forall_singleton. by eapply configured_home.
  - apply wp_bind, (wp_next_id 0); [by eapply room_less; [|exact Hr]; lia|]. apply wp_ret.
    set (ws := new_with_config_no_outputs c (Some config) (ly_options ly)).
    unfold layout_ok in Hok. rewrite E in Hok. destruct Hok as [Hb Hocc Hn Hopt].
    split; [|unfold ly_windows, ly_workspaces; by rewrite E|lia]. split.
    + apply (base_app par _ [ws]). split_and!; [|by apply (base_mono par c); [lia|]| |].
      * split; [constructor; [by apply new_no_outputs_ok|constructor]|apply NoDup_singleton| |apply NoDup_nil_2].
        constructor; [cbn; lia|constructor].
      * intros id ->%list_elem_of_singleton (x & Ex & Hx)%list_elem_of_fmap.
        pose proof (bs_fresh _ _ _ Hb) as Hf. rewrite Forall_forall in Hf. apply Hf in Hx. cbn in Ex. lia.
      * intros w Hw. by apply not_elem_of_nil in Hw.
    + by constructor.
    + by apply (names_distinct_cons (wc_name config)).
    + by constructor.
Qed.

(** ** References *)
Lemma place_of_runs c ly reference :
  ok c ly → runs (place_of ly reference) (λ o, ∀ place, o = Some place → ∃ ws, at_place ly place ws).
Proof.
  intros Hok. assert (Hfind : ∀ p place, find_place p (ly_stacks ly) = Some place → ∃ ws, at_place ly place ws).
  { intros p [i j] (l & ws & Hl & Hws & _)%find_place_Some. exists ws. by exists l. }
  destruct reference as [[id|index|name]|]; cbn [place_of find_workspace_by_ref].
  - apply runs_ret. intros place. apply Hfind.
  - unfold active_monitor. destruct (ly_set ly) as [ms p a|l] eqn:E; [|by apply runs_ret].
    destruct (active_monitor_at par c ly ms p a Hok E) as (m & _ & Hm & _). rewrite Hm.
    cbn [mbind option_bind]. apply runs_ret. intros place.
    destruct (Nat.ltb_spec (index - 1) (mo_count m)) as [Hlt|]; [|done]. intros [= <-].
    destruct (lookup_workspace m (index - 1) Hlt) as [ws Hws]. exists ws.
    apply (at_place_normal _ _ _ _ _ _ _ E). eauto.
  - apply runs_ret. intros place. apply Hfind.
  - by eapply active_place_runs.
Qed.

(** ** Unnaming *)
Lemma unname_false m id m' : unname_workspace m id = Some (m', false) → m' = m.
Proof.
  unfold unname_workspace. destruct (update_first _ _ _) as [l|]; [|by intros [= <-]].
  destruct (clean_up_if_settled _); cbn; congruence.
Qed.

Lemma unname_workspace_by_id_runs c ly id :
  ok c ly → runs (unname_workspace_by_id ly id) (λ ly', keeps c ly ly' c).
Proof.
  intros Hok. unfold unname_workspace_by_id. pose proof (layout_windows_NoDup par c ly Hok) as Hnd.
  destruct (ly_set ly) as [ms p a|l] eqn:E.
  - destruct (normal_parts par c ly ms p a Hok E) as (Hp & Ha & Hs).
    assert (Hun : ∀ m, m ∈ ms → runs (unname_workspace m id) (λ r, mon_keeps par c m (fst r) c)).
    { intros m (i & Hm)%list_elem_of_lookup. by apply unname_workspace_runs, (monitor_at par c ly ms p a Hok E i). }
    eapply runs_bind; [apply first_that_runs|].
    { intros m Hm. destruct (Hun m Hm) as ([m' b] & Em & _). rewrite Em. apply runs_ret. cbn.
      destruct b; [done|]. intros _. by eapply unname_false. }
    intros r [[-> _]|(i & m & m' & b & Hi & Em & ->)]; cbn [fst snd]; apply runs_ret.
    + assert (E2 : set_ly_set (SetNormal ms p a) ly = ly) by (rewrite <- E; by destruct ly).
      rewrite E2. by apply layout_keeps_refl.
    + destruct (Hun m) as ([x bx] & Ex & Hk); [by eapply list_elem_of_lookup_2|]. rewrite Ex in Em.
      cbn in Em. injection Em as -> _. by eapply normal_outcome.
  - unfold layout_ok in Hok. rewrite E in Hok.
    destruct (vec_position _ l) as [idx|] eqn:Ei.
    2:{ apply runs_ret, layout_keeps_refl. unfold layout_ok. by rewrite E. }
    apply vec_position_Some in Ei as (ws & Hws & _). rewrite Hws. cbn [mbind option_bind].
    assert (Hwok : workspace_ok par (unname ws)).
    { apply unname_ok. pose proof (bs_ok _ _ _ (no_base _ _ _ _ Hok)) as H. rewrite Forall_lookup in H. by apply (H idx). }
    unfold ly_windows, ly_workspaces in Hnd. rewrite E in Hnd.
    destruct (has_windows (unname ws)) eqn:Hh; cbn [mbind option_bind].
    + apply runs_ret.
      destruct (no_outputs_update par c (ly_options ly) l idx ws (unname ws) [] []) as [H1 H2]; try done.
      { unfold occupied, has_windows_or_name. by rewrite Hh. }
      { eapply names_keep; [done|done|by right|apply Hok]. }
      split; [done| |lia]. unfold ly_windows, ly_workspaces. rewrite E. exact H2.
    + rewrite (vec_remove_ok _ (unname ws)) by (apply list_lookup_insert_eq; by eapply lookup_lt_Some).
      cbn [mbind option_bind fst snd]. apply runs_ret.
      destruct (no_outputs_drop par c (ly_options ly) l idx ws (unname ws) []) as [H1 H2]; try done.
      { unfold vacant, has_windows_or_name. by rewrite Hh. }
      split; [done| |lia]. unfold ly_windows, ly_workspaces. rewrite E. exact H2.
Qed.

Lemma unset_workspace_name_runs c ly reference :
  ok c ly → runs (unset_workspace_name ly reference) (λ ly', keeps c ly ly' c).
Proof.
  intros Hok. unfold unset_workspace_name. eapply runs_bind; [by eapply place_of_runs|].
  intros [[i j]|] Hp; [|by apply runs_ret, layout_keeps_refl].
  destruct (Hp (i, j) eq_refl) as (ws & l & Hl & Hws). cbn [fst snd] in *. rewrite Hl. cbn [mbind option_bind].
  rewrite Hws. cbn [mbind option_bind]. by apply unname_workspace_by_id_runs.
Qed.

(** ** Naming by reference *)
Lemma is_id_lookup (l : list Workspace) i j ws :
  NoDup (ws_id <$> l) → l !! j = Some ws → i < length l → is_id ws.(ws_id) (l !! i) = (i =? j).
Proof.
  intros Hnd Hj Hi. destruct (lookup_lt_is_Some_2 l i Hi) as [x Hx]. rewrite Hx. cbn.
  apply Bool.eq_iff_eq_true. rewrite N.eqb_eq, Nat.eqb_eq. split; [|intros ->; congruence].
  intros Hid. eapply (NoDup_lookup (ws_id <$> l)); [done| |]; rewrite list_lookup_fmap_Some; eauto.
Qed.

(** The padding of [set_workspace_name] is that of a filled workspace, in the other order. *)
Lemma pad_named_wp c m j ws Q :
  stack_ok par m.(mo_output) m.(mo_options) c m.(mo_workspaces) → m.(mo_active) < mo_count m → switch_ok m →
  room 2 c → m.(mo_workspaces) !! j = Some ws →
  (∀ pre post m' c', padded_at m j pre post m' → (c ≤ c' ≤ c + 2)%N →
     stack_ok par m.(mo_output) m.(mo_options) c' m'.(mo_workspaces) →
     wss_windows m'.(mo_workspaces) = wss_windows m.(mo_workspaces) →
     new_ids m.(mo_output) c m.(mo_workspaces) c' m'.(mo_workspaces) → Q m' c') →
  wp (pad_named m ws.(ws_id)) Q c.
Proof.
  intros Hst Ha Hsw Hr Hj HQ. unfold pad_named.
  apply lookup_lt_Some in Hj as Hlt. pose proof (so_ids _ _ _ _ _ Hst) as Hnd.
  rewrite head_lookup, (is_id_lookup _ 0 j ws) by (done || lia). rewrite (Nat.eqb_sym 0 j).
  set (top := mo_above_first m && (j =? 0)). apply wp_bind.
  assert (Hbottom : ∀ m1 c1 pre, m1.(mo_workspaces) = pre ++ m.(mo_workspaces) → mo_meta m1 = mo_meta m →
    length pre = (if top then 1 else 0) → Forall (blank m.(mo_output)) pre →
    m1.(mo_active) = length pre + m.(mo_active) → m1.(mo_previous) = m.(mo_previous) →
    (m1.(mo_switch) = None ↔ m.(mo_switch) = None) → switch_ok m1 → (c ≤ c1 ≤ c + 1)%N →
    stack_ok par m.(mo_output) m.(mo_options) c1 m1.(mo_workspaces) →
    wss_windows m1.(mo_workspaces) = wss_windows m.(mo_workspaces) →
    new_ids m.(mo_output) c m.(mo_workspaces) c1 m1.(mo_workspaces) →
    wp (if is_id ws.(ws_id) (last m1.(mo_workspaces)) then add_workspace_bottom m1 else mret m1) Q c1).
  { intros m1 c1 pre HW HM Hpre Hbl Ha1 Hprev Hs1 Hsw1 Hc1 Hst1 Hw1 Hids1.
    assert (Hc : mo_count m1 = length pre + mo_count m) by (unfold mo_count; rewrite HW, length_app; lia).
    assert (Hlast : is_id ws.(ws_id) (last m1.(mo_workspaces)) = (j =? mo_count m - 1)).
    { rewrite last_lookup, HW, length_app, lookup_app_r by (unfold mo_count in *; lia).
      replace (pred (length pre + length (mo_workspaces m)) - length pre) with (mo_count m - 1)
        by (unfold mo_count in *; lia).
      rewrite Nat.eqb_sym. apply is_id_lookup; [done|done|unfold mo_count in *; lia]. }
    rewrite Hlast. assert (HO := output_meta _ _ HM). assert (HP := options_meta _ _ HM).
    destruct (Nat.eqb_spec j (mo_count m - 1)) as [Ej|Ej].
    - apply add_workspace_at_wp; [done|unfold room in *; lia|].
      destruct (insert_new_bottom m1 c1) as [HW2 Ha2]; [lia|].
      destruct (insert_new_stack par m1 (mo_count m1) c1) as (Hst2 & Hw2 & Hids2); [done|by rewrite HO, HP|].
      eapply (HQ pre [Workspace_new c1 m1.(mo_output) m1.(mo_options)]).
      + split; try done.
        * by rewrite HW2, HW, app_assoc.
        * apply Forall_app. split; [done|]. rewrite HO. by repeat constructor.
        * rewrite <- Ej, Nat.eqb_refl. done.
        * by rewrite Ha2.
        * by rewrite insert_new_settled.
        * by apply insert_new_switch.
      + lia.
      + by rewrite <- HO, <- HP.
      + by rewrite Hw2.
      + rewrite HO in Hids2. eapply new_ids_trans; [|exact Hids1|exact Hids2]. lia.
    - apply wp_ret, (HQ pre []); [|lia|done|done|done]. split; try done.
      + by rewrite app_nil_r.
      + by rewrite app_nil_r.
      + by rewrite (proj2 (Nat.eqb_neq _ _) Ej). }
  destruct top eqn:Et.
  - apply add_workspace_at_wp; [lia|unfold room in *; lia|].
    destruct (insert_new_stack par m 0 c) as (Hst1 & Hw1 & Hids1); [lia|done|].
    apply (Hbottom _ _ [Workspace_new c m.(mo_output) m.(mo_options)]); try done.
    + by repeat constructor.
    + cbn. lia.
    + by rewrite insert_new_settled.
    + apply insert_new_switch; [lia|done].
    + lia.
  - apply wp_ret, (Hbottom m c []); try done; [lia|apply new_ids_refl].
Qed.

(** The new name does not leave an end of another monitor without its empty workspace. *)
Definition name_in_place (ly : Layout) (reference : option WorkspaceReference) : Prop :=
  ∀ place ms p a, place_of ly reference = Some (Some place) → ly.(ly_set) = SetNormal ms p a →
    fst place = a ∨ ∃ ws, at_place ly place ws ∧ occupied ws.

Lemma named_active_wp c ly ms p a m j ws name :
  ok c ly → ly.(ly_set) = SetNormal ms p a → ms !! a = Some m → m.(mo_workspaces) !! j = Some ws → room 2 c →
  name_fresh name (ly_workspaces ly) →
  let m1 := set_mo_workspaces (<[j := set_ws_name (Some name) ws]> m.(mo_workspaces)) m in
  wp (with_active_monitor (set_ly_set (SetNormal (<[a := m1]> ms) p a) ly) (λ m, pad_named m ws.(ws_id)))
    (keeps c ly) c.
Proof.
  intros Hok E Hm Hj Hr Hf m1. unfold with_active_monitor, with_monitor. cbn [ly_set set_ly_set].
  rewrite list_lookup_insert_eq by (by eapply lookup_lt_Some). apply wp_bind, wp_lift, runs_ret, wp_bind.
  pose proof (monitor_at par c ly ms p a Hok E a m Hm) as Hmok. pose proof Hmok as [Hl _]%monitor_ok_loose.
  destruct (named_stack c m j ws name Hl Hj) as [Hst1 Hw1]. apply lookup_lt_Some in Hj as Hlt.
  pose proof (update_count m j (set_ws_name (Some name) ws)) as Hcount. fold m1 in Hst1, Hw1, Hcount.
  assert (Hj1 : m1.(mo_workspaces) !! j = Some (set_ws_name (Some name) ws)) by (by apply list_lookup_insert_eq).
  apply (pad_named_wp c m1 j (set_ws_name (Some name) ws)); [done| | |done|done|].
  - rewrite Hcount. apply Hl.
  - apply switch_ok_update; [apply length_insert|apply Hl].
  - intros pre post m' c' Hp Hc Hst' Hw' Hids. apply wp_ret. rewrite list_insert_insert_eq.
    eapply (normal_named c ly ms p a a m j ws); [done..|]. apply (grown_named c m m' (length pre + j)); [done|done|].
    eapply (padded_grown par c m j ws); try done; [apply new_ids_refl|apply named_occupied].
Qed.

Lemma pad_named_absent m id c : id ∉ ws_id <$> m.(mo_workspaces) → pad_named m id c = Some (m, c).
Proof.
  intros Hid. assert (Hno : ∀ i, is_id id (m.(mo_workspaces) !! i) = false).
  { intros i. destruct (m.(mo_workspaces) !! i) as [x|] eqn:E; [|done]. cbn. apply N.eqb_neq. intros <-.
    apply Hid, list_elem_of_fmap_2. by eapply list_elem_of_lookup_2. }
  unfold pad_named. rewrite head_lookup, Hno, andb_false_r.
  unfold mbind, Fresh_bind, mret, Fresh_ret. cbn. by rewrite last_lookup, Hno.
Qed.

(** The workspace is on another monitor: nothing is added on the active one. *)
Lemma pad_named_elsewhere c ly ms p a i m j ws m1 :
  ok c ly → ly.(ly_set) = SetNormal ms p a → ms !! i = Some m → m.(mo_workspaces) !! j = Some ws → i ≠ a →
  let ly1 := set_ly_set (SetNormal (<[i := m1]> ms) p a) ly in
  with_active_monitor ly1 (λ m, pad_named m ws.(ws_id)) c = Some (ly1, c).
Proof.
  intros Hok E Hm Hj Hia ly1. destruct (normal_parts par c ly ms p a Hok E) as (Hp & Ha & Hs).
  destruct (lookup_lt_is_Some_2 ms a Ha) as [t Ht].
  assert (Hid : ws.(ws_id) ∉ ws_id <$> t.(mo_workspaces)).
  { intros Hid. destruct (all_workspaces_split ms i m Hm) as (rest & Hall & _).
    destruct Hs as [_ Hb _ _]. cbn [app] in Hb. pose proof (bs_ids _ _ _ Hb) as Hnd.
    rewrite (all_workspaces_Permutation _ _ (vec_remove_perm i m ms Hm)) in Hnd.
    change (NoDup (ws_id <$> (m.(mo_workspaces) ++ all_workspaces (take i ms ++ drop (S i) ms)))) in Hnd.
    rewrite fmap_app in Hnd. apply NoDup_app in Hnd as (_ & Hd & _). apply (Hd ws.(ws_id)).
    + apply list_elem_of_fmap_2. by eapply list_elem_of_lookup_2.
    + apply list_elem_of_fmap in Hid as (x & -> & Hx). apply list_elem_of_fmap_2, list_elem_of_bind. exists t. split; [done|].
      apply lookup_lt_Some in Hm as Hlt. destruct (decide (a < i)).
      * apply list_elem_of_lookup_2 with a. by rewrite vec_remove_lookup_lt by lia.
      * apply list_elem_of_lookup_2 with (a - 1). rewrite vec_remove_lookup_ge by lia.
        by replace (S (a - 1)) with a by lia. }
  unfold with_active_monitor, with_monitor, ly1, lift, mbind, Fresh_bind, mret, Fresh_ret. cbn [ly_set set_ly_set].
  rewrite list_lookup_insert_ne, Ht by done. cbn. rewrite (pad_named_absent t ws.(ws_id) c Hid). cbn.
  by rewrite list_insert_id by (by rewrite list_lookup_insert_ne).
Qed.

(** Another monitor: the workspace is occupied already. *)
Lemma named_other_wp c ly ms p a i m j ws name :
  ok c ly → ly.(ly_set) = SetNormal ms p a → ms !! i = Some m → m.(mo_workspaces) !! j = Some ws →
  i ≠ a → occupied ws → name_fresh name (ly_workspaces ly) →
  let m1 := set_mo_workspaces (<[j := set_ws_name (Some name) ws]> m.(mo_workspaces)) m in
  wp (with_active_monitor (set_ly_set (SetNormal (<[i := m1]> ms) p a) ly) (λ m, pad_named m ws.(ws_id)))
    (keeps c ly) c.
Proof.
  intros Hok E Hm Hj Hia Hocc Hf m1. destruct (normal_parts par c ly ms p a Hok E) as (Hp & Ha & Hs).
  pose proof (monitor_at par c ly ms p a Hok E i m Hm) as Hmok. pose proof Hmok as [Hl Hmid]%monitor_ok_loose.
  destruct (named_stack c m j ws name Hl Hj) as [Hst1 Hw1]. fold m1 in Hst1, Hw1.
  assert (Ho : named_outcome c m name j ws m1 c).
  { split; [|done|lia|done|apply new_ids_refl|intros w Hw; by eapply named_src]. apply monitor_ok_loose.
    destruct Hl as [Hst Hends Hsw Hop]. split; [split; [done| | |done]|].
    - eapply update_ends_vacant; [done| |done]. intros [Hv _]. by destruct (occupied_not_vacant ws).
    - apply switch_ok_update; [apply length_insert|done].
    - intros Hn k x Hk Hkl Hka _ Hx. destruct (decide (k = j)) as [->|Hkj].
      + cbn in Hx. rewrite list_lookup_insert_eq in Hx by (by eapply lookup_lt_Some). injection Hx as <-.
        apply named_occupied.
      + eapply (update_middle m j _ (Hmid Hn) k); try done. congruence. }
  exists (set_ly_set (SetNormal (<[i := m1]> ms) p a) ly), c.
  split; [by eapply pad_named_elsewhere|]. by apply (normal_named c ly ms p a i m j ws name).
Qed.

Lemma set_workspace_name_wp c ly name reference :
  ok c ly → ly_room c ly → name_in_place ly reference →
  wp (set_workspace_name ly name reference) (keeps c ly) c.
Proof.
  intros Hok Hr%room_two Hin. unfold set_workspace_name.
  destruct (find_workspace_by_name ly name) eqn:Ef; [by apply wp_ret, layout_keeps_refl|].
  apply not_found_fresh in Ef. destruct (place_of_runs c ly reference Hok) as (o & Eo & Hp). apply wp_bind, wp_lift. rewrite Eo. apply runs_ret.
  destruct o as [[i j]|]; [|by apply wp_ret, layout_keeps_refl]. destruct (Hp (i, j) eq_refl) as [ws Hat]. clear Hp.
  apply wp_bind, wp_lift. unfold with_workspace. destruct (ly_set ly) as [ms p a|l] eqn:E.
  - pose proof Hat as (m & Hm & Hj)%(at_place_normal _ _ _ _ _ _ _ E). cbn [fst snd]. rewrite Hm.
    cbn [mbind option_bind]. unfold on_workspace. rewrite Hj. cbn [mbind option_bind fst snd]. apply runs_ret.
    destruct (decide (i = a)) as [->|Hia]; [by eapply named_active_wp|].
    destruct (Hin _ _ _ _ Eo E) as [?|(x & Hx & Hocc)]; [done|].
    apply (at_place_normal _ _ _ _ _ _ _ E) in Hx as (m' & Hm' & Hx). rewrite Hm in Hm'. injection Hm' as <-.
    rewrite Hj in Hx. injection Hx as <-. by eapply named_other_wp.
  - destruct (proj1 (at_place_no_outputs ly l i j ws E) Hat) as [Ei Hj]. subst i. cbn [snd]. rewrite Hj.
    cbn [mbind option_bind fst snd]. apply runs_ret.
    unfold layout_ok in Hok. rewrite E in Hok.
    assert (Hwok : workspace_ok par ws).
    { pose proof (bs_ok _ _ _ (no_base _ _ _ _ Hok)) as H. rewrite Forall_lookup in H. by apply (H j). }
    destruct (no_outputs_update par c (ly_options ly) l j ws (set_ws_name (Some name) ws) [] []) as [H1 H2]; try done.
    { by apply set_name_ok. }
    { apply Hok. }
    { apply named_occupied. }
    { unfold ly_workspaces in Ef. rewrite E in Ef.
      destruct (insert_split l j ws (set_ws_name (Some name) ws) Hj) as (rest & Hl & Hl'). rewrite Hl'.
      apply (names_distinct_cons name); [| |done].
      - eapply names_from_distinct; [|apply Hok]. apply names_from_incl. intros x Hx. rewrite Hl. by right.
      - intros x Hx. apply Ef. rewrite Hl. by right. }
    apply wp_ret. split; [done| |lia]. unfold ly_windows, ly_workspaces. rewrite E. exact H2.
Qed.

(** Wherever the workspace is, it is named without a panic, and all windows stay. *)
Lemma set_workspace_name_runs c ly name reference :
  ok c ly → ly_room c ly → wp (set_workspace_name ly name reference) (λ ly' _, ly_windows ly' ≡ₚ ly_windows ly) c.
Proof.
  intros Hok Hr. assert (Hplain : name_in_place ly reference →
    wp (set_workspace_name ly name reference) (λ ly' _, ly_windows ly' ≡ₚ ly_windows ly) c).
  { intros Hin. eapply wp_weaken; [by apply set_workspace_name_wp|]. by intros ly' c' [_ Hw _]. }
  destruct (place_of_runs c ly reference Hok) as (o & Eo & Hp).
  destruct (ly_set ly) as [ms p a|l] eqn:E; [|apply Hplain; intros ???? _ E'; by rewrite E in E'].
  destruct o as [[i j]|]; [|apply Hplain; intros ???? Eo'; by rewrite Eo in Eo'].
  destruct (decide (i = a)) as [->|Hia].
  { apply Hplain. intros place ms' p' a' Eo' E'. rewrite Eo in Eo'. rewrite E in E'. simplify_eq. by left. }
  destruct (Hp (i, j) eq_refl) as [ws Hat]. pose proof Hat as (m & Hm & Hj)%(at_place_normal _ _ _ _ _ _ _ E).
  unfold set_workspace_name. destruct (find_workspace_by_name ly name); [by apply wp_ret|].
  apply wp_bind, wp_lift. rewrite Eo. apply runs_ret, wp_bind, wp_lift.
  unfold with_workspace. rewrite E. cbn [fst snd]. rewrite Hm. cbn [mbind option_bind].
  unfold on_workspace. rewrite Hj. cbn [mbind option_bind fst snd]. apply runs_ret.
  pose proof (monitor_at par c ly ms p a Hok E i m Hm) as Hmok. pose proof Hmok as [Hl _]%monitor_ok_loose.
  destruct (named_stack c m j ws name Hl Hj) as [_ Hw].
  eexists _, c. split; [by eapply pad_named_elsewhere|]. unfold ly_windows, ly_workspaces. rewrite E. cbn.
  destruct (all_workspaces_split ms i m Hm) as (rest & H1 & H2). rewrite H1, H2, !wss_windows_app.
  by apply Permutation_app.
Qed.

End names.
