(* ===== verification/LayoutSetConfig.v ===== *)
(** * The layout: configuration and the overview

    Options are handed down to every monitor and workspace; the overview is opened and closed on
    all of them. *)
From stdpp Require Import gmap strings.
From S2P Require Import Prelude Float64 FloatRound LayoutScrolling LayoutFloating LayoutOutput LayoutWorkspace LayoutWorkspaceOps LayoutWorkspaceProps LayoutMonitor LayoutMonitorOps LayoutMonitorMoves LayoutMonitorSwitch LayoutMonitorJoin LayoutMonitorProps LayoutSet LayoutSetOwn LayoutSetOps LayoutSetOutputs LayoutSetMoves LayoutSetWindows LayoutSetNames.

Section config.
  Context (par : N → option N).
Local Abbreviation ok := (layout_ok par).
Local Abbreviation keeps c ly := (layout_outcome par c ly [] []).

(** ** Settings of single workspaces *)

(** The workspace stays what it is and where it is. *)
Record retuned (ws ws' : Workspace) : Prop := {
  rt_ok : workspace_ok par ws';
  rt_same : same_workspace ws ws';
  rt_place : ws_place ws' = ws_place ws;
  rt_original : ws'.(ws_original_output) = ws.(ws_original_output)
}.

Lemma update_named_retuned configs ws : workspace_ok par ws → retuned ws (update_named configs ws).
Proof.
  intros Hok. assert (H0 : retuned ws ws) by done. unfold update_named.
  destruct (ws_name ws); [|done]. destruct (List.find _ configs) as [config|]; [|done].
  unfold ws_update_layout_config. case_decide; [done|].
  assert (Hok' : workspace_ok par (set_ws_layout_config (wc_layout config) ws)) by (by destruct Hok).
  split; [by apply ws_update_config_ok| |done|done].
  by destruct (update_config_same par (ws_base_options ws) _ Hok').
Qed.

Lemma retuned_occupied ws ws' : retuned ws ws' → has_windows_or_name ws' = has_windows_or_name ws.
Proof. intros [_ H _ _]. by apply same_workspace_occupied. Qed.

Lemma retuned_descends out ws ws' : retuned ws ws' → descends out ws ws'.
Proof. intros [_ [] _ Ho]. split; auto. Qed.

Lemma retuned_names (l : list Workspace) f : Forall (λ ws, retuned ws (f ws)) l → names_from l (f <$> l).
Proof.
  intros H. apply (new_ids_names (MkOutputName "" None None None) 0 _ 0), new_ids_fmap. intros ws Hws.
  rewrite Forall_forall in H. by apply retuned_descends, H.
Qed.

Lemma fmap_keeps c m f :
  monitor_ok par c m → (∀ ws, workspace_ok par ws → retuned ws (f ws)) →
  mon_keeps par c m (set_mo_workspaces (f <$> m.(mo_workspaces)) m) c.
Proof.
  intros [Hst [[E1 E2 E3 E4] Hm Hs] Hop] Hf. pose proof (so_on _ _ _ _ _ Hst) as Hon.
  assert (Hret : ∀ i ws, (f <$> m.(mo_workspaces)) !! i = Some ws →
            ∃ ws0, m.(mo_workspaces) !! i = Some ws0 ∧ retuned ws0 ws).
  { intros i ws (ws0 & -> & Hi)%list_lookup_fmap_Some. exists ws0. split; [done|]. apply Hf.
    rewrite Forall_lookup in Hon. by destruct (Hon _ _ Hi). }
  assert (Hb : ∀ ws0 ws, retuned ws0 ws → blank m.(mo_output) ws0 → blank m.(mo_output) ws).
  { intros ws0 ws Hr [Hv Ho]. split; [unfold vacant; by rewrite (retuned_occupied _ _ Hr)|].
    by rewrite (rt_original _ _ Hr). }
  destruct (stack_fmap par m.(mo_output) m.(mo_options) c m.(mo_workspaces) f) as [Hst' Hw'].
  { by eapply stack_base. }
  { eapply Forall_impl; [exact Hon|]. intros ws [O1 O2 O3]. destruct (Hf ws O1) as [R1 R2 R3 _].
    unfold ws_place in R3. split; [split; [done|congruence..]|done]. }
  split; [split; [done| |done]|exact Hw'|lia|done|].
  - unfold mo_count in *. split; [split|..]; unfold mo_count; cbn; rewrite ?length_fmap.
    + done.
    + intros ws (ws0 & Hi & Hr)%Hret Hsk. eauto.
    + intros ws Haf (ws0 & Hi & Hr)%Hret Hsk. eauto.
    + done.
    + intros Hn i ws Hi Hl Ha Hsk (ws0 & Hi0 & Hr)%Hret. unfold occupied. rewrite (retuned_occupied _ _ Hr).
      unfold mo_count in Hl. cbn in Hl. rewrite length_fmap in Hl. by eapply (Hm Hn i).
    + unfold switch_ok, mo_count in *. cbn. by rewrite length_fmap.
  - apply new_ids_fmap. intros ws Hws. rewrite Forall_forall in Hon. destruct (Hon ws Hws) as [O1 _ _].
    by apply retuned_descends, Hf.
Qed.

(** ** Every monitor *)

(** Monitors are visited in their order; [pre] are those that were. *)
Lemma mapM_monitors f kept k ms :
  (∀ c m, monitor_ok par c m → (k ≠ 0%N → room k c) →
     wp (f m) (λ m' c', mon_keeps par c (kept m) m' c' ∧ (c' ≤ c + k)%N) c) →
  (∀ m, (kept m).(mo_workspaces) = m.(mo_workspaces) ∧ (kept m).(mo_output) = m.(mo_output)) →
  ∀ pre c, Forall (monitor_ok par c) (pre ++ ms) → base_stack par c (all_workspaces (pre ++ ms)) →
    (k ≠ 0%N → room (k * N.of_nat (length ms)) c) →
    wp (mapM f ms) (λ ms' c', Forall (monitor_ok par c') (pre ++ ms') ∧
        base_stack par c' (all_workspaces (pre ++ ms')) ∧
        wss_windows (all_workspaces (pre ++ ms')) ≡ₚ wss_windows (all_workspaces (pre ++ ms)) ∧
        mo_kept <$> ms' = (mo_kept ∘ kept) <$> ms ∧ Forall2 mon_heir ms ms' ∧ (c ≤ c')%N) c.
Proof.
  intros Hf Hkept. induction ms as [|m ms IH]; intros pre c Hms Hb Hr.
  { apply wp_ret. by split_and!; [..|constructor|]. }
  cbn [mapM]. cbn [length] in Hr. apply wp_bind. destruct (Hkept m) as [Hkw Hko].
  assert (Hm : (pre ++ m :: ms) !! length pre = Some m) by (by rewrite list_lookup_middle).
  assert (Hmok : monitor_ok par c m) by (rewrite Forall_lookup in Hms; by eapply Hms).
  eapply wp_weaken; [apply Hf; [done|]|]; [intros Hk; specialize (Hr Hk); unfold room in *; lia|].
  intros m' c1 [[H1 H2 H3 H4 H5] Hc1].
  destruct (base_update par c c1 [] [] (pre ++ m :: ms) (length pre) m m' [] []) as (G1 & G2 & G3); try done.
  - lia.
  - by eapply stack_base, H1.
  - cbn [app]. intros id [Hid|Hid]%(new_ids_id _ _ _ _ _ _ H5); [rewrite Hkw in Hid; by left|right; lia].
  - cbn in *. unfold mon_windows in *. by rewrite Hkw in H2.
  - apply Hb.
  - rewrite insert_app_r_alt, Nat.sub_diag in G1, G2, G3 by lia. cbn [list_insert insert] in G1, G2, G3.
    apply wp_bind. eapply wp_weaken; [apply (IH (pre ++ [m']) c1)|].
    + by rewrite <- app_assoc.
    + by rewrite <- app_assoc.
    + intros Hk. specialize (Hr Hk). unfold room in *. lia.
    + intros ms' c2 (K1 & K2 & K3 & K4 & K5 & K6). rewrite <- !app_assoc in K1, K2, K3. apply wp_ret.
      split_and!; try done; [| | |lia].
      * rewrite K3, <- app_assoc. exact G3.
      * cbn. rewrite K4. by rewrite H4.
      * constructor; [|done]. rewrite Hkw, Hko in H5. split; [|by eexists _, _].
        injection H4 as -> _ _. done.
Qed.

Lemma kept_list (ms ms' : list Monitor) kept :
  mo_kept <$> ms' = (mo_kept ∘ kept) <$> ms → length ms' = length ms ∧
  ∀ (P : OutputName * Options * bool → Prop), Forall P ((mo_kept ∘ kept) <$> ms) → Forall (λ m, P (mo_kept m)) ms'.
Proof.
  intros E. split; [by rewrite <- (length_fmap mo_kept), E, length_fmap|].
  intros P. rewrite <- E. by rewrite Forall_fmap.
Qed.

Lemma update_options_wp c ly options :
  ok c ly → ly_room c ly → wp (update_options ly options) (keeps c ly) c.
Proof.
  intros Hok Hr. unfold update_options, layout_ok, ly_room, ly_monitors in *. apply wp_bind.
  destruct ly as [[ms p a|l] la ov opts]; cbn [ly_set] in *.
  - destruct Hok as (Hp & Ha & [Hms Hb Hk Hn] & Hh). cbn [ly_overview_open ly_options] in *. apply wp_bind.
    eapply wp_weaken; [apply (mapM_monitors _ (λ m, set_mo_options options m.(mo_options) m) 2 ms) with (pre := [])|].
    + intros c1 m [M1 M2 M3] Hr1. eapply wp_weaken; [by apply mon_update_config_wp; auto|].
      intros m' c' Ho. split; [done|]. destruct Ho; lia.
    + done.
    + done.
    + done.
    + intros _. unfold room in *. lia.
    + intros ms' c' (K1 & K2 & K3 & K4 & K5 & K6). apply wp_ret, wp_ret. cbn [app] in *.
      destruct (kept_list _ _ _ K4) as [Hlen HK].
      split; [|exact K3|done]. unfold layout_ok. cbn. rewrite Hlen. split_and!; [done|done| |by eapply homes_all].
      split; [done|done| |by eapply names_from_distinct, Hn; apply names_all]. apply (HK (λ k, k.1.2 = options ∧ k.2 = ov)).
      apply Forall_fmap. eapply Forall_impl; [exact Hk|]. by intros m [_ H].
  - apply wp_ret, wp_ret. destruct Hok as [Hb Hocc Hn Hopt].
    destruct (update_config_base par options c l Hb) as [_ Hw]. split; [|exact Hw|lia].
    apply last_gone_ok; [done|done|done|]. eapply Forall_impl; [exact Hopt|]. by intros ws [_ H].
Qed.

Lemma mapM_pure {A B} (f : A → B) l c : mapM (M := Fresh) (λ x, mret (f x)) l c = Some (f <$> l, c).
Proof.
  induction l as [|x l IH]; [done|]. cbn [mapM]. unfold mbind, Fresh_bind, mret, Fresh_ret in *. cbn in *.
  by rewrite IH.
Qed.

(** The same, for settings that draw no ids. *)
Lemma all_monitors_keep c ms f kept :
  (∀ c m, monitor_ok par c m → mon_keeps par c (kept m) (f m) c) →
  (∀ m, (kept m).(mo_workspaces) = m.(mo_workspaces) ∧ (kept m).(mo_output) = m.(mo_output)) →
  Forall (monitor_ok par c) ms → base_stack par c (all_workspaces ms) →
  Forall (monitor_ok par c) (f <$> ms) ∧ base_stack par c (all_workspaces (f <$> ms)) ∧
  wss_windows (all_workspaces (f <$> ms)) ≡ₚ wss_windows (all_workspaces ms) ∧
  mo_kept <$> (f <$> ms) = (mo_kept ∘ kept) <$> ms ∧ Forall2 mon_heir ms (f <$> ms).
Proof.
  intros Hf Hkept Hms Hb.
  assert (Hf0 : ∀ c m, monitor_ok par c m → (0%N ≠ 0%N → room 0 c) →
            wp (mret (f m)) (λ m' c', mon_keeps par c (kept m) m' c' ∧ (c' ≤ c + 0)%N) c).
  { intros c1 m Hm _. apply wp_ret. split; [auto|lia]. }
  assert (Hr : 0%N ≠ 0%N → room (0 * N.of_nat (length ms)) c) by done.
  destruct (mapM_monitors _ kept 0 ms Hf0 Hkept [] c Hms Hb Hr) as (ms' & c' & E & K1 & K2 & K3 & K4 & K5 & _).
  rewrite mapM_pure in E. injection E as <- <-. done.
Qed.

(** ** Settings of named workspaces *)
Lemma update_config_wp c ly configs options :
  ok c ly → ly_room c ly → wp (update_config ly configs options) (keeps c ly) c.
Proof.
  intros Hok Hr. unfold update_config.
  set (s := match ly.(ly_set) with SetNormal _ _ _ => _ | SetNoOutputs _ => _ end).
  assert (H : keeps c ly (set_ly_set s ly) c ∧ length (ly_monitors (set_ly_set s ly)) = length (ly_monitors ly)).
  { unfold s, ly_monitors, layout_ok in *. destruct (ly_set ly) as [ms p a|l] eqn:E; cbn [ly_set set_ly_set].
    - destruct Hok as (Hp & Ha & [Hms Hb Hk Hn] & Hh).
      destruct (all_monitors_keep c ms
        (λ m, set_mo_workspaces (update_named configs <$> m.(mo_workspaces)) m) (λ m, m)) as (K1 & K2 & K3 & K4 & K5);
        [|done..|].
      { intros c1 m Hm. apply fmap_keeps; [done|]. intros ws. apply update_named_retuned. }
      split; [|by rewrite length_fmap].
      split; [|unfold ly_windows, ly_workspaces; rewrite E; exact K3|lia].
      unfold layout_ok. cbn. rewrite length_fmap. split_and!; [done|done| |by eapply homes_all].
      split; [done|done|by apply Forall_fmap|]. by eapply names_from_distinct, Hn; apply names_all.
    - split; [|done]. destruct Hok as [Hb Hocc Hn Hopt]. pose proof (bs_ok _ _ _ Hb) as Hwok.
      assert (Hs : Forall (λ ws, retuned ws (update_named configs ws)) l).
      { eapply Forall_impl; [exact Hwok|]. intros ws. apply update_named_retuned. }
      assert (Hs' : Forall (λ ws, same_workspace ws (update_named configs ws)) l).
      { eapply Forall_impl; [exact Hs|]. by intros ws []. }
      pose proof (wss_windows_fmap _ _ Hs') as Hw.
      split; [|unfold ly_windows, ly_workspaces; rewrite E; exact Hw|lia]. split.
      + destruct Hb as [_ B2 B3 B4]. split.
        * apply Forall_fmap. eapply Forall_impl; [exact Hs|]. by intros ws [].
        * by rewrite (ids_fmap _ _ Hs').
        * apply Forall_fmap. rewrite Forall_lookup in *. intros i ws Hi. cbn.
          rewrite (sw_id _ _ (Hs' _ _ Hi)). by eapply B3.
        * by rewrite Hw.
      + apply Forall_fmap. rewrite Forall_lookup in *. intros i ws Hi. unfold compose, occupied.
        rewrite (retuned_occupied ws) by (by eapply Hs). by eapply Hocc.
      + eapply names_from_distinct, Hn. by apply retuned_names.
      + apply Forall_fmap. rewrite Forall_lookup in *. intros i ws Hi. cbn.
        destruct (Hs _ _ Hi) as [_ _ R _]. injection R as _ -> ->. by eapply Hopt. }
  destruct H as [Hk Hlen]. eapply wp_weaken; [apply update_options_wp; [apply Hk|]|].
  - unfold ly_room in *. by rewrite Hlen.
  - intros ly' c' Ho. by eapply layout_outcome_trans.
Qed.

(** ** The overview and the focused output *)
Lemma set_overview_keeps c ly b : ok c ly → keeps c ly (set_overview b ly) c.
Proof.
  unfold set_overview, layout_ok. destruct ly as [[ms p a|l] la ov opts]; cbn [ly_set ly_options ly_overview_open].
  - intros (Hp & Ha & [Hms Hb Hk Hn] & Hh).
    destruct (all_monitors_keep c ms (set_mo_overview_open b) (set_mo_overview_open b)) as (K1 & K2 & K3 & K4 & K5);
      [by intros; apply overview_keeps|done..|].
    split; [|exact K3|lia]. unfold layout_ok. cbn. rewrite length_fmap. split_and!; [done|done| |by eapply homes_all].
    split; [done|done| |by eapply names_from_distinct, Hn; apply names_all]. apply Forall_fmap. eapply Forall_impl; [exact Hk|]. by intros m [H _].
  - intros Hok. by split; [| |lia].
Qed.

Lemma toggle_overview_keeps c ly : ok c ly → keeps c ly (toggle_overview ly) c.
Proof. apply set_overview_keeps. Qed.

Lemma focus_output_keeps c ly output : ok c ly → keeps c ly (focus_output ly output) c.
Proof.
  intros Hok. unfold focus_output. destruct (ly_set ly) as [ms p a|l] eqn:E; [|by apply layout_keeps_refl].
  destruct (monitor_position ms output) as [i|] eqn:Ei; [|by apply layout_keeps_refl].
  apply monitor_position_Some in Ei as (m & Hm & _). destruct (normal_parts par c ly ms p a Hok E) as (Hp & Ha & Hs).
  split; [|unfold ly_windows, ly_workspaces; by rewrite E|lia]. unfold layout_ok. cbn.
  split_and!; [done|by eapply lookup_lt_Some|done|by eapply normal_homes].
Qed.

Lemma toggle_overview_to_workspace_wp c ly idx :
  ok c ly → (∀ m, active_monitor ly = Some (Some m) → idx < mo_count (snd m)) →
  wp (toggle_overview_to_workspace ly idx) (keeps c ly) c.
Proof.
  intros Hok Hi. unfold toggle_overview_to_workspace. apply wp_bind.
  eapply wp_weaken; [apply (with_active_monitor_wp par c ly); [done|]|].
  - intros ms p a m E Hm Hmok. apply wp_lift. apply (activate_outcome par c m idx Hmok).
    specialize (Hi (a, m)). unfold active_monitor in Hi. rewrite E, Hm in Hi. by apply Hi.
  - intros ly' c' Ho. apply wp_ret. eapply layout_outcome_trans; [exact Ho|].
    apply toggle_overview_keeps, Ho.
Qed.

(** ** The start *)
Lemma with_options_ok c options : ok c (with_options options).
Proof. split; [by apply base_nil|constructor| |constructor]. by intros ws ws' ?%not_elem_of_nil. Qed.

(** The parser of the configuration refuses the same name twice. *)
Definition configs_distinct (configs : list WorkspaceConfig) : Prop :=
  ForallOrdPairs (λ x y, eq_ignore_ascii_case x.(wc_name) y.(wc_name) = false) configs.

Lemma with_options_and_workspaces_wp c configs options :
  room (N.of_nat (length configs)) c → configs_distinct configs →
  wp (with_options_and_workspaces configs options) (λ ly c', ok c' ly ∧ ly_windows ly = [] ∧ (c ≤ c')%N) c.
Proof.
  intros Hr Hdis. unfold with_options_and_workspaces. apply wp_bind.
  assert (H : ∀ configs c, room (N.of_nat (length configs)) c → configs_distinct configs →
    wp (mapM (λ config, id ← next_id; mret (new_with_config_no_outputs id (Some config) options)) configs)
      (λ l c', no_outputs_ok par c' options l ∧ ws_name <$> l = (Some ∘ wc_name) <$> configs ∧ Forall (λ ws, (c ≤ ws.(ws_id))%N) l ∧
               wss_windows l = [] ∧ (c ≤ c')%N) c).
  { clear. intros configs. induction configs as [|config configs IH]; intros c Hr Hd.
    { apply wp_ret. split_and!; try done. apply (with_options_ok c options). }
    inversion Hd as [|? ? Hd1 Hd2]; subst.
    cbn [mapM]. cbn [length] in Hr. apply wp_bind, wp_bind, (wp_next_id (N.of_nat (length configs)));
      [unfold room in *; lia|]. apply wp_ret, wp_bind.
    eapply wp_weaken; [apply (IH (c + 1)%N)|]; [unfold room in *; lia|done|].
    intros l c' ([Hb Hocc Hn Hopt] & Hnames & Hids & Hw & Hc). apply wp_ret.
    split_and!; [|cbn; by rewrite Hnames|constructor; [cbn; lia|]|by cbn|lia].
    - split; [|by constructor| |by constructor].
      2:{ apply (names_distinct_cons config.(wc_name)); [done| |done]. intros ws Hws.
          apply (list_elem_of_fmap_2 ws_name) in Hws. rewrite Hnames in Hws.
          apply list_elem_of_fmap in Hws as (x & Ex & Hx). unfold is_named. rewrite Ex. cbn.
          rewrite eq_ignore_ascii_case_sym. rewrite Forall_forall in Hd1. by apply Hd1. }
      apply (base_app par _ [_]). split_and!.
      + split; [by constructor; [apply new_no_outputs_ok|]|apply NoDup_singleton| |apply NoDup_nil_2].
        constructor; [cbn; lia|constructor].
      + done.
      + intros id ->%list_elem_of_singleton (x & Ex & Hx)%list_elem_of_fmap.
        rewrite Forall_forall in Hids. apply Hids in Hx. cbn in Ex. lia.
      + intros w Hw'. by apply not_elem_of_nil in Hw'.
    - eapply Forall_impl; [exact Hids|]. cbn. lia. }
  eapply wp_weaken; [by apply H|]. intros l c' (Hok & _ & _ & Hw & Hc). apply wp_ret. by split_and!.
Qed.

End config.
