(* ===== verification/LayoutSetProps.v ===== *)
(** * The layout: properties

    The operations of the layout as one type, what their callers provide, and the states they
    reach. *)
From stdpp Require Import gmap strings.
From S2P Require Import Prelude Float64 FloatRound LayoutScrolling LayoutFloating LayoutFloatingProps LayoutOutput LayoutWorkspace LayoutWorkspaceOps LayoutWorkspaceProps LayoutMonitor LayoutMonitorOps LayoutMonitorMoves LayoutMonitorSwitch LayoutMonitorJoin LayoutMonitorProps LayoutSet LayoutSetOwn LayoutSetOps LayoutSetOutputs LayoutSetMoves LayoutSetWindows LayoutSetNames LayoutSetConfig.

(** ** The operations *)
Inductive LyOp :=
| LopAddOutput (output : OutputName) (layout_config : option LayoutPart)
| LopRemoveOutput (output : OutputName)
| LopFocusOutput (output : OutputName)
| LopAddWindow (window : N) (pending : SizingMode) (rule_display : option ColumnDisplay)
    (target : AddWindowTarget) (width : ColumnWidth) (is_full_width is_floating : bool)
    (activate : ActivateWindow)
| LopRemoveWindow (window : N)
| LopActivateWindow (window : N)
| LopActivateWithoutRaising (window : N)
| LopWorkspace (window : option N) (op : WsOp)
| LopMonitor (monitor_idx : nat) (op : MonOp)
| LopMoveToWorkspace (window : option N) (idx : nat) (activate : ActivateWindow)
| LopMoveWorkspaceToIdx (reference : option (option OutputName * nat)) (new_idx : nat)
| LopMoveToOutput (window : option N) (output : OutputName) (target_ws_idx : option nat)
    (activate : ActivateWindow)
| LopMoveColumnToOutput (output : OutputName) (target_ws_idx : option nat) (activate : bool)
| LopMoveColumnLeftOrTo (output : OutputName)
| LopMoveColumnRightOrTo (output : OutputName)
| LopMoveWorkspaceToOutput (output : OutputName)
| LopMoveWorkspaceToOutputById (old_idx : nat) (old_output : option OutputName) (new_output : OutputName)
| LopEnsureOnActive (name : string)
| LopEnsureOnMonitor (name : string) (output_name : option string)
| LopEnsure (config : WorkspaceConfig)
| LopSetName (name : string) (reference : option WorkspaceReference)
| LopUnsetName (reference : option WorkspaceReference)
| LopUpdateConfig (configs : list WorkspaceConfig) (options : Options)
| LopUpdateOptions (options : Options)
| LopToggleOverview
| LopOpenOverview
| LopCloseOverview
| LopToggleOverviewTo (ws_idx : nat).

Definition fst_of {A B} (o : Fresh (A * B)) : Fresh (A * list N) := r ← o; mret (fst r, []).

(** The new layout and the windows that left. *)
Definition run_ly_op (parent_of : N → option N) (g : Placement) (ly : Layout) (op : LyOp) :
    Fresh (Layout * list N) :=
  let keep (o : Fresh Layout) : Fresh (Layout * list N) := ly ← o; mret (ly, []) in
  let keep_o (o : option Layout) : Fresh (Layout * list N) := keep (lift o) in
  match op with
  | LopAddOutput o lc => keep (add_output ly o lc)
  | LopRemoveOutput o => keep (remove_output ly o)
  | LopFocusOutput o => keep (mret (focus_output ly o))
  | LopAddWindow w p rule t wd full fl a => fst_of (add_window parent_of ly w p rule t wd full fl a)
  | LopRemoveWindow w =>
      r ← lift (remove_window g ly w);
      mret (fst r, match snd r with Some t => [tl_window (rt_tile t)] | None => [] end)
  | LopActivateWindow w => keep_o (ly_activate_window parent_of ly w)
  | LopActivateWithoutRaising w => keep_o (ly_activate_window_without_raising ly w)
  | LopWorkspace w op =>
      keep_o (r ← with_window_workspace ly w [] (λ ws, r ← run_ws_op parent_of g ws op; Some (snd r, fst r));
              Some (snd r))
  | LopMonitor i op => keep (with_monitor ly i (λ m, r ← run_mon_op parent_of g m op; mret (fst r)))
  | LopMoveToWorkspace w i a => keep (ly_move_to_workspace parent_of g ly w i a)
  | LopMoveWorkspaceToIdx r i => keep (ly_move_workspace_to_idx ly r i)
  | LopMoveToOutput w o t a => keep (move_to_output parent_of g ly w o t a)
  | LopMoveColumnToOutput o t a => keep (move_column_to_output parent_of g ly o t a)
  | LopMoveColumnLeftOrTo o => fst_of (move_column_or_to_output parent_of g ws_move_left ly o)
  | LopMoveColumnRightOrTo o => fst_of (move_column_or_to_output parent_of g ws_move_right ly o)
  | LopMoveWorkspaceToOutput o => fst_of (move_workspace_to_output ly o)
  | LopMoveWorkspaceToOutputById i o o' => fst_of (move_workspace_to_output_by_id ly i o o')
  | LopEnsureOnActive n => fst_of (ensure_named_workspace_on_active_monitor ly n)
  | LopEnsureOnMonitor n o => fst_of (ensure_named_workspace_on_monitor ly n o)
  | LopEnsure config => keep (ensure_named_workspace ly config)
  | LopSetName n r => keep (set_workspace_name ly n r)
  | LopUnsetName r => keep_o (unset_workspace_name ly r)
  | LopUpdateConfig l o => keep (update_config ly l o)
  | LopUpdateOptions o => keep (update_options ly o)
  | LopToggleOverview => keep (mret (toggle_overview ly))
  | LopOpenOverview => keep (mret (fst (open_overview ly)))
  | LopCloseOverview => keep (mret (fst (close_overview ly)))
  | LopToggleOverviewTo i => keep (toggle_overview_to_workspace ly i)
  end.

Definition ly_added (op : LyOp) : list N :=
  match op with LopAddWindow w _ _ _ _ _ _ _ => [w] | _ => [] end.

(** The operations of a monitor that keep its windows, its workspaces apart from empty ones, and
    the settings of the layout. *)
Definition mon_op_inside (op : MonOp) : Prop :=
  match op with
  | MopAddTile _ _ _ _ _ _ _ | MopAddTileToColumn _ _ _ _ _ _ | MopAddColumn _ _ _
  | MopRemoveWindow _ | MopRemoveWorkspace _ | MopInsertWorkspace _ _ _ | MopAppendWorkspaces _
  | MopUpdateConfig _ | MopOverview _ => False
  | _ => True
  end.

(** What the callers provide: outputs that are connected, windows that are in the layout. *)
Definition ly_op_pre par (c : N) (ly : Layout) (op : LyOp) : Prop :=
  match op with
  | LopAddOutput o _ => output_new ly o
  | LopRemoveOutput o => output_in ly o
  | LopAddWindow w _ _ target _ _ _ _ => (w ∉ ly_windows ly) ∧ add_target_ok ly target
  | LopRemoveWindow w => w ∈ ly_windows ly
  | LopWorkspace window op =>
      ws_op_inside op ∧ (∀ w, window = Some w → w ∈ ly_windows ly) ∧
      ∀ place ws, looked_up ly window place ws → ws_op_pre ws op
  | LopMonitor i op =>
      mon_op_inside op ∧ (ly_monitors ly ≠ [] → i < length (ly_monitors ly)) ∧
      ∀ m, ly_monitors ly !! i = Some m → mon_op_pre par c m op
  | LopMoveToWorkspace window _ _ => ∀ w, window = Some w → w ∈ ly_windows ly
  | LopMoveToOutput window o _ _ =>
      (output_in ly o ∨ ly_monitors ly = []) ∧ ∀ w, window = Some w → w ∈ ly_windows ly
  | LopMoveColumnToOutput o _ _ | LopMoveColumnLeftOrTo o | LopMoveColumnRightOrTo o
  | LopMoveWorkspaceToOutput o => output_in ly o ∨ ly_monitors ly = []
  | LopMoveWorkspaceToOutputById _ old new =>
      (output_in ly new ∨ ly_monitors ly = []) ∧
      ∀ o, old = Some o → output_in ly o ∨ ly_monitors ly = []
  | LopEnsureOnActive name => name_not_elsewhere ly name
  | LopSetName _ r => name_in_place ly r
  | LopToggleOverviewTo i => ∀ m, active_monitor ly = Some (Some m) → i < mo_count (snd m)
  | _ => True
  end.

Section ops.
  Context (par : N → option N) (Hcycle : no_cycle par) (g : Placement).
Local Abbreviation ok := (layout_ok par).
Local Abbreviation keeps c ly := (layout_outcome par c ly [] []).

(** What every operation promises. *)
Definition ly_op_ok c ly op (r : Layout * list N) (c' : N) : Prop :=
  layout_outcome par c ly (ly_added op) (snd r) (fst r) c'.

Lemma keeps_ly_op_wp c ly op (o : Fresh Layout) :
  ly_added op = [] → wp o (keeps c ly) c → wp (ly' ← o; mret (ly', [])) (ly_op_ok c ly op) c.
Proof.
  intros Ha Ho. apply wp_bind. eapply wp_weaken; [exact Ho|]. intros ly' c' H. apply wp_ret.
  unfold ly_op_ok. by rewrite Ha.
Qed.

Lemma keeps_ly_op_fst {B} c ly op (o : Fresh (Layout * B)) :
  wp o (λ r, layout_outcome par c ly (ly_added op) [] (fst r)) c →
  wp (r ← o; mret (fst r, [])) (ly_op_ok c ly op) c.
Proof. intros Ho. apply wp_bind. eapply wp_weaken; [exact Ho|]. intros r c' H. by apply wp_ret. Qed.

Lemma keeps_ly_op_runs c ly op (o : option Layout) :
  ly_added op = [] → runs o (λ ly', keeps c ly ly' c) →
  wp (ly' ← lift o; mret (ly', [])) (ly_op_ok c ly op) c.
Proof. intros Ha Ho. apply keeps_ly_op_wp; [done|]. by apply wp_lift. Qed.

Lemma inside_ws_removes ws op r :
  ws_op_inside op → run_ws_op par g ws op = Some r → snd r = [] ∧ ws_added op = [].
Proof.
  intros Hin E. destruct op; try done; split; try done; cbn [run_ws_op] in E;
    apply fmap_Some in E as (? & _ & ->); done.
Qed.

Lemma inside_ws_op_runs ws op :
  workspace_ok par ws → ws_op_inside op → ws_op_pre ws op →
  runs (r ← run_ws_op par g ws op; Some (snd r, fst r)) (λ r, ws_keeps par ws (snd r)).
Proof.
  intros Hok Hin Hpre. destruct (run_ws_op_runs par Hcycle g ws op Hok Hpre) as (r & E & H1 & H2 & H3).
  destruct (inside_ws_removes ws op r Hin E) as [Hs Ha]. rewrite Ha, Hs in H2. rewrite E. by apply runs_ret.
Qed.

Lemma keep_nil (o : Fresh Monitor) c m' k c' :
  (m ← o; mret (m, [])) c = Some ((m', k), c') → k = @nil N.
Proof.
  unfold mbind, Fresh_bind, mret, Fresh_ret. destruct (o c) as [[? ?]|]; [|done]. cbn. by intros [= _ <- _].
Qed.

Lemma inside_mon_removes m op c m' k c' :
  mon_op_inside op → mon_op_pre par c m op → run_mon_op par g m op c = Some ((m', k), c') →
  k = [] ∧ mon_added op = [] ∧ mon_arrived op = [] ∧ mon_base op m = m.
Proof.
  intros Hin [_ Hpre] E. destruct op; try done; cbn [run_mon_op] in *; (split; [|done]); try by apply keep_nil in E.
  destruct Hpre as [Hws _]. unfold on_workspace, lift, mbind, Fresh_bind, mret, Fresh_ret in E.
  destruct (m.(mo_workspaces) !! idx) as [ws|]; [|done]. cbn in E.
  destruct (run_ws_op par g ws op) as [r|] eqn:Er; [|done]. cbn in E. injection E as _ <- _.
  by destruct (inside_ws_removes ws op r Hws Er).
Qed.

Lemma inside_mon_op_wp c m op :
  monitor_ok par c m → mon_op_inside op → mon_op_pre par c m op → room 2 c →
  wp (r ← run_mon_op par g m op; mret (fst r)) (mon_keeps par c m) c.
Proof.
  intros Hok Hin Hpre Hr.
  destruct (run_mon_op_wp par Hcycle g c m op Hok Hpre Hr) as ([m' k] & c' & E & Hop).
  destruct (inside_mon_removes m op c m' k c' Hin Hpre E) as (-> & Ha & Har & Hb).
  apply wp_bind. exists (m', []), c'. split; [done|]. apply wp_ret.
  apply (op_outcome par c m op (m', []) c') in Hop; [|done..]. by rewrite Ha in Hop.
Qed.

Lemma run_ly_op_wp c ly op :
  ok c ly → ly_op_pre par c ly op → ly_room c ly → wp (run_ly_op par g ly op) (ly_op_ok c ly op) c.
Proof.
  intros Hok Hpre Hr. destruct op; cbn [run_ly_op ly_op_pre] in *.
  - apply keeps_ly_op_wp; [done|]. by apply add_output_wp.
  - apply keeps_ly_op_wp; [done|]. by apply remove_output_wp.
  - apply keeps_ly_op_wp; [done|]. by apply wp_ret, focus_output_keeps.
  - apply keeps_ly_op_fst. destruct Hpre. by apply add_window_wp.
  - apply wp_bind, wp_lift. eapply runs_weaken; [by apply remove_window_runs|].
    intros [ly' o] (t & Ht & Hw & Ho). cbn in *. subst o. apply wp_ret. unfold ly_op_ok. cbn. by rewrite Hw.
  - apply keeps_ly_op_runs; [done|]. apply ly_activate_runs; [done|]. intros ws Hws.
    by eapply activate_window_keeps.
  - apply keeps_ly_op_runs; [done|]. apply ly_activate_runs; [done|]. intros ws Hws.
    by eapply activate_without_raising_keeps.
  - destruct Hpre as (Hin & Hw & Hop). apply keeps_ly_op_runs; [done|].
    eapply runs_bind.
    + apply (with_window_workspace_runs par c); [done|done|]. intros place ws Hl Hws.
      apply inside_ws_op_runs; [done|done|]. by eapply Hop.
    + intros r [H _]. by apply runs_ret.
  - destruct Hpre as (Hin & Hi & Hop). apply keeps_ly_op_wp; [done|]. apply with_monitor_wp; [done| |].
    + intros ms p a E. unfold ly_monitors in Hi. rewrite E in Hi. apply Hi.
      destruct (normal_parts par c ly ms p a Hok E) as (_ & Ha & _). intros ->. cbn in Ha. lia.
    + intros ms p a m E Hm Hmok. apply inside_mon_op_wp; [done|done| |by apply room_two in Hr].
      apply Hop. unfold ly_monitors. by rewrite E.
  - apply keeps_ly_op_wp; [done|]. by eapply with_monitor_window_wp.
  - apply keeps_ly_op_wp; [done|]. by apply move_workspace_to_idx_layout_wp.
  - destruct Hpre. apply keeps_ly_op_wp; [done|]. by apply move_to_output_wp.
  - apply keeps_ly_op_wp; [done|]. by apply move_column_to_output_wp.
  - apply keeps_ly_op_fst. apply move_column_or_to_output_wp; [done..|]. intros ws Hws.
    apply (ws_op_keeps par Hcycle g ws WopMoveLeft); [done|split; [apply Hws|done]|done|done].
  - apply keeps_ly_op_fst. apply move_column_or_to_output_wp; [done..|]. intros ws Hws.
    apply (ws_op_keeps par Hcycle g ws WopMoveRight); [done|split; [apply Hws|done]|done|done].
  - apply keeps_ly_op_fst. by apply move_workspace_to_output_wp.
  - destruct Hpre. apply keeps_ly_op_fst. by apply move_workspace_to_output_by_id_wp.
  - apply keeps_ly_op_fst. by apply ensure_on_active_wp.
  - apply keeps_ly_op_fst. by apply ensure_on_monitor_wp.
  - apply keeps_ly_op_wp; [done|]. by apply ensure_named_workspace_wp.
  - apply keeps_ly_op_wp; [done|]. by apply set_workspace_name_wp.
  - apply keeps_ly_op_runs; [done|]. by apply unset_workspace_name_runs.
  - apply keeps_ly_op_wp; [done|]. by apply update_config_wp.
  - apply keeps_ly_op_wp; [done|]. by apply update_options_wp.
  - apply keeps_ly_op_wp; [done|]. by apply wp_ret, toggle_overview_keeps.
  - apply keeps_ly_op_wp; [done|]. apply wp_ret. unfold open_overview.
    destruct (ly_overview_open ly); [by apply layout_keeps_refl|by apply toggle_overview_keeps].
  - apply keeps_ly_op_wp; [done|]. apply wp_ret. unfold close_overview.
    destruct (ly_overview_open ly); [by apply toggle_overview_keeps|by apply layout_keeps_refl].
  - apply keeps_ly_op_wp; [done|]. by apply toggle_overview_to_workspace_wp.
Qed.

End ops.

(** ** Reachable layouts *)
Inductive ly_step (par : N → option N) (g : Placement) : N * Layout → N * Layout → Prop :=
| ly_op_step c ly op ly' removed c' :
    ly_op_pre par c ly op → ly_room c ly → run_ly_op par g ly op c = Some ((ly', removed), c') →
    ly_step par g (c, ly) (c', ly').

(** The layout the compositor starts with. *)
Inductive fresh_layout : N * Layout → Prop :=
| fresh_layout_intro c configs options ly c' :
    room (N.of_nat (length configs)) c → configs_distinct configs → with_options_and_workspaces configs options c = Some (ly, c') →
    fresh_layout (c', ly).

Section reachable.
  Context (par : N → option N) (Hcycle : no_cycle par) (g : Placement).

Lemma fresh_layout_ok s : fresh_layout s → layout_ok par s.1 s.2.
Proof.
  intros [c configs options ly c' Hr Hd E].
  destruct (with_options_and_workspaces_wp par c configs options Hr Hd) as (ly2 & c2 & E2 & H & _).
  rewrite E in E2. by injection E2 as <- <-.
Qed.

Lemma ly_step_ok s s' : ly_step par g s s' → layout_ok par s.1 s.2 → layout_ok par s'.1 s'.2.
Proof.
  intros [c ly op ly' removed c' Hpre Hr E] Hok. cbn in *.
  destruct (run_ly_op_wp par Hcycle g c ly op Hok Hpre Hr) as (r & c2 & E2 & [H _ _]).
  rewrite E in E2. by injection E2 as <- <-.
Qed.

Lemma ly_steps_ok s s' : rtc (ly_step par g) s s' → layout_ok par s.1 s.2 → layout_ok par s'.1 s'.2.
Proof. induction 1; eauto using ly_step_ok. Qed.

End reachable.


(** ** Witnesses *)
Fixpoint run_ly_ops (ly : Layout) (ops : list LyOp) : Fresh Layout :=
  match ops with
  | [] => mret ly
  | op :: ops => r ← run_ly_op unparented sample_placement ly op; run_ly_ops (fst r) ops
  end.

Definition left_output : OutputName := MkOutputName "DP-1" (Some "Acme") (Some "Wide") (Some "1").
Definition right_output : OutputName := MkOutputName "DP-2" (Some "Acme") (Some "Wide") (Some "2").

Definition lop_add (w : N) (target : AddWindowTarget) : LyOp :=
  LopAddWindow w SizeNormal None target (WidthFixed f64_one) false false ActivateYes.

(** Two outputs; a window on a workspace of its own on each. *)
Definition sample_ly_ops : list LyOp :=
  [LopAddOutput left_output None; lop_add 1 AddAuto; LopAddOutput right_output None;
   lop_add 2 (AddOutput right_output); LopFocusOutput left_output].

(** Names and windows of the workspaces, by monitor, and the active indices. *)
Definition ly_view (ly : Layout) : list (list (option string * list N) * nat) * option nat :=
  let view l := (λ ws, (ws.(ws_name), ws_windows ws)) <$> l in
  match ly.(ly_set) with
  | SetNormal monitors _ active => ((λ m, (view m.(mo_workspaces), m.(mo_active))) <$> monitors, Some active)
  | SetNoOutputs l => ([(view l, 0)], None)
  end.

Definition no_layout : Layout := with_options float_options.

Definition ly_after (n : nat) : N * Layout :=
  match (ly ← with_options_and_workspaces [] float_options; run_ly_ops ly (take n sample_ly_ops)) 1%N with
  | Some (ly, c) => (c, ly)
  | None => (0%N, no_layout)
  end.

Definition ly0 : N * Layout := Eval vm_compute in ly_after 0.
Definition ly1 : N * Layout := Eval vm_compute in ly_after 1.
Definition ly2 : N * Layout := Eval vm_compute in ly_after 2.
Definition ly3 : N * Layout := Eval vm_compute in ly_after 3.
Definition ly4 : N * Layout := Eval vm_compute in ly_after 4.
Definition ly5 : N * Layout := Eval vm_compute in ly_after 5.

Example ly5_view :
  ly_view ly5.2 = ([([(None, [1%N]); (None, [])], 0); ([(None, [2%N]); (None, [])], 0)], Some 0).
Proof. vm_compute. reflexivity. Qed.

Lemma ly0_fresh : fresh_layout ly0.
Proof. apply (fresh_layout_intro 1 [] float_options); [reflexivity|constructor|vm_compute; reflexivity]. Qed.

(** Runs one of the sample operations. *)
Ltac sample_ly_step op :=
  apply (ly_op_step _ _ _ _ op _ []);
  [try (apply (bool_decide_unpack _); vm_compute; exact I)|reflexivity|vm_compute; reflexivity].

Lemma sample_outputs_disjoint : disjoint_outputs left_output right_output.
Proof. apply apart_disjoint; repeat split; vm_compute; reflexivity. Qed.

Lemma ly5_reached : rtc (ly_step unparented sample_placement) ly0 ly5.
Proof.
  apply rtc_l with ly1; [sample_ly_step (LopAddOutput left_output None); by constructor|].
  apply rtc_l with ly2; [sample_ly_step (lop_add 1 AddAuto)|].
  apply rtc_l with ly3; [sample_ly_step (LopAddOutput right_output None)|].
  { apply Forall_forall. intros m ->%list_elem_of_singleton. exact sample_outputs_disjoint. }
  apply rtc_l with ly4; [sample_ly_step (lop_add 2 (AddOutput right_output))|].
  { split; [apply (bool_decide_unpack _); vm_compute; exact I|].
    eexists. split; [apply list_elem_of_further, list_elem_of_here|reflexivity]. }
  apply rtc_l with ly5; [sample_ly_step (LopFocusOutput left_output); done|]. apply rtc_refl.
Qed.

Lemma ly5_ok : layout_ok unparented ly5.1 ly5.2.
Proof.
  apply (ly_steps_ok unparented unparented_no_cycle sample_placement _ _ ly5_reached).
  exact (fresh_layout_ok unparented _ ly0_fresh).
Qed.


(** ** What the invariant misses *)

(** A name given by id to the last workspace of a monitor that is not the active one leaves that
    monitor without its empty workspace. *)
Theorem set_name_elsewhere_breaks_invariant :
  ∃ ly' c', set_workspace_name ly5.2 "mail" (Some (RefId 4)) ly5.1 = Some (ly', c') ∧
    fst (ly_view ly') = [([(None, [1%N]); (None, [])], 0); ([(None, [2%N]); (Some "mail", [])], 0)] ∧
    ¬ layout_ok unparented c' ly'.
Proof.
  eexists _, _. split_and!; [vm_compute; reflexivity|vm_compute; reflexivity|].
  intros (_ & _ & [Hms _ _ _] & _). apply Forall_cons in Hms as [_ [Hm _]%Forall_cons].
  destruct (sh_ends _ (mok_shape _ _ _ Hm)) as [_ Hlast _ _].
  destruct (Hlast _ eq_refl) as [Hv _]; [done|]. vm_compute in Hv. discriminate Hv.
Qed.

(** After that, moving a workspace may panic. With an empty workspace above the first one, a window
    on the second of three workspaces of the right output and the left output active, the last
    workspace of the right output gets a name by its id; moving the workspace with the window to the
    left output leaves two workspaces, and [clean_up_workspaces] asserts that both are empty and
    unnamed. *)
Definition above_first_ops : list LyOp :=
  [LopAddOutput left_output None; LopAddOutput right_output None; lop_add 1 (AddOutput right_output);
   LopFocusOutput left_output; LopSetName "mail" (Some (RefId 3))].

Definition above_first_run : option (Layout * N) :=
  Eval vm_compute in
    (ly ← with_options_and_workspaces [] (MkOptions DisplayNormal true); run_ly_ops ly above_first_ops) 1%N.

Theorem naming_elsewhere_panics :
  ∃ ly c, above_first_run = Some (ly, c) ∧
    (ly ← with_options_and_workspaces [] (MkOptions DisplayNormal true); run_ly_ops ly above_first_ops) 1%N =
      above_first_run ∧
    ly_view ly = ([([(None, [])], 0); ([(None, []); (None, [1%N]); (Some "mail", [])], 1)], Some 0) ∧
    run_ly_op unparented sample_placement ly (LopMoveWorkspaceToOutputById 1 (Some right_output) left_output) c = None.
Proof.
  eexists _, _. split; [reflexivity|]. split; [vm_compute; reflexivity|]. split; vm_compute; reflexivity.
Qed.

(** The names of a configuration are told apart only within one file. Two workspaces of the same
    name, one of them from an included file, are both created. *)
Theorem included_name_is_created_twice :
  let config := MkWorkspaceConfig "mail" None None in
  ∃ ly c', with_options_and_workspaces [config; config] float_options 1%N = Some (ly, c') ∧
    fst (ly_view ly) = [([(Some "mail", []); (Some "mail", [])], 0)] ∧ ¬ layout_ok unparented c' ly.
Proof.
  eexists _, _. split_and!; [vm_compute; reflexivity|vm_compute; reflexivity|].
  intros [_ _ Hn _]. discriminate (Hn _ _ (list_elem_of_here _ _)
    (list_elem_of_further _ _ _ (list_elem_of_here _ _)) eq_refl).
Qed.

(** Asked for on the active monitor, a name that another monitor has is given again. *)
Theorem ensure_on_active_duplicates_name :
  ∃ ly1 i ly2 j c', (r ← ensure_named_workspace_on_monitor ly5.2 "term" (Some "DP-2");
                     r' ← ensure_named_workspace_on_active_monitor (fst r) "term";
                     mret (r, r')) ly5.1 = Some (((ly1, i), (ly2, j)), c') ∧
    fst (ly_view ly2) = [([(None, [1%N]); (Some "term", []); (None, [])], 0);
                         ([(None, [2%N]); (Some "term", []); (None, [])], 0)].
Proof. eexists _, _, _, _, _. split; vm_compute; reflexivity. Qed.

(** The index of a named workspace on another output is used on the active one: the column goes
    to the workspace that happens to be there. *)
Theorem scratch_column_misses_workspace :
  ∃ ly1 i ly2 c', (r ← ensure_named_workspace_on_monitor ly5.2 "__scratch_term" (Some "DP-2");
                   ly2 ← with_active_monitor (fst r) (λ m,
                     move_column_to_workspace unparented sample_placement m (default 0 (snd r)) true);
                   mret (r, ly2)) ly5.1 = Some (((ly1, i), ly2), c') ∧
    fst (ly_view ly2) = [([(None, []); (None, [1%N]); (None, [])], 1);
                         ([(None, [2%N]); (Some "__scratch_term", []); (None, [])], 0)].
Proof. eexists _, _, _, _. split; vm_compute; reflexivity. Qed.
