(* ===== verification/LayoutSetReconnect.v ===== *)
(** * The layout: an output that is disconnected and comes back

    Its workspaces spend the time in between on the primary monitor; when the output is connected
    again they return in their order, and the one that was active is active again. *)
From stdpp Require Import gmap strings.
From S2P Require Import Prelude Float64 FloatRound LayoutScrolling LayoutFloating LayoutFloatingProps LayoutOutput LayoutWorkspace LayoutWorkspaceOps LayoutWorkspaceProps LayoutMonitor LayoutMonitorOps LayoutMonitorMoves LayoutMonitorSwitch LayoutMonitorJoin LayoutMonitorProps LayoutSet LayoutSetOwn LayoutSetOps LayoutSetOutputs LayoutSetMoves LayoutSetWindows LayoutSetNames LayoutSetConfig LayoutSetProps.

(** ** Steps that run *)
Lemma fresh_bind_Some {A B} (o : Fresh A) (f : A → Fresh B) c r :
  (o ≫= f) c = Some r ↔ ∃ a c1, o c = Some (a, c1) ∧ f a c1 = Some r.
Proof.
  unfold mbind, Fresh_bind. destruct (o c) as [[a c1]|] eqn:E; split.
  - intros H. exists a, c1. split; [done|exact H].
  - intros (a' & c' & [= <- <-] & H). exact H.
  - done.
  - by intros (? & ? & ? & _).
Qed.

Lemma lift_Some {A} (o : option A) c a c' : lift o c = Some (a, c') ↔ o = Some a ∧ c' = c.
Proof. unfold lift. destruct o; cbn; naive_solver. Qed.

Lemma fresh_ret_Some {A} (x : A) c a c' : mret (M := Fresh) x c = Some (a, c') ↔ a = x ∧ c' = c.
Proof. unfold mret, Fresh_ret. naive_solver. Qed.

(** Takes a run of a method apart. *)
Ltac run_steps :=
  repeat match goal with
  | H : (_ ≫= _) _ = Some _ |- _ => apply fresh_bind_Some in H as (? & ? & ? & ?)
  | H : lift _ _ = Some _ |- _ => apply lift_Some in H as [? ->]
  | H : mret _ _ = Some _ |- _ => apply fresh_ret_Some in H as [-> ->]
  end.

(** ** The workspaces that are not empty *)
Definition inhabited_ones (l : list Workspace) : list Workspace := List.filter has_windows_or_name l.

Lemma inhabited_app l k : inhabited_ones (l ++ k) = inhabited_ones l ++ inhabited_ones k.
Proof. apply List.filter_app. Qed.

Lemma filter_keeps (q : Workspace → bool) l : Forall (λ ws, q ws = true) l → List.filter q l = l.
Proof. induction 1 as [|ws l H _ IH]; [done|]. cbn. rewrite H. by f_equal. Qed.

Lemma filter_drops (q : Workspace → bool) l : Forall (λ ws, q ws = false) l → List.filter q l = [].
Proof. induction 1 as [|ws l H _ IH]; [done|]. cbn. by rewrite H. Qed.

Lemma inhabited_all l : Forall occupied l → inhabited_ones l = l.
Proof. apply filter_keeps. Qed.

Lemma inhabited_none l : Forall vacant l → inhabited_ones l = [].
Proof. apply filter_drops. Qed.

Lemma inhabited_drop i l ws l' :
  vec_remove i l = Some (ws, l') → vacant ws → inhabited_ones l' = inhabited_ones l.
Proof.
  intros (Hi & ->)%vec_remove_Some Hv. rewrite <- (take_drop_middle l i ws Hi) at 3.
  rewrite !inhabited_app. f_equal. cbn. unfold vacant in Hv. by rewrite Hv.
Qed.

Lemma inhabited_elem ws l : ws ∈ inhabited_ones l ↔ ws ∈ l ∧ occupied ws.
Proof. unfold inhabited_ones. by rewrite list_elem_of_In, List.filter_In, <- list_elem_of_In. Qed.

Lemma clean_up_loop_inhabited indices l a r :
  clean_up_loop indices l a = Some r → inhabited_ones (fst r) = inhabited_ones l.
Proof.
  revert l a. induction indices as [|i indices IH]; intros l a; cbn [clean_up_loop]; [by intros [= <-]|].
  destruct (a =? i); [apply IH|]. intros (ws & Hws & H)%bind_Some.
  destruct (has_windows_or_name ws) eqn:E; [by eapply IH|].
  apply bind_Some in H as ([x l'] & Hr & H). apply IH in H. cbn [snd] in H. rewrite H.
  pose proof Hr as [Hx _]%vec_remove_Some. eapply inhabited_drop; [exact Hr|].
  unfold vacant. congruence.
Qed.

Lemma clean_up_inhabited m m' :
  clean_up_workspaces m = Some m' → inhabited_ones m'.(mo_workspaces) = inhabited_ones m.(mo_workspaces).
Proof.
  unfold clean_up_workspaces. intros (_ & _ & (last & _ & ([l a] & Hl & H)%bind_Some)%bind_Some)%bind_Some.
  apply clean_up_loop_inhabited in Hl. cbn [fst snd] in *. rewrite <- Hl. unfold collapse_empty in H.
  destruct (_ && _); [|by injection H as <-].
  apply bind_Some in H as (first & _ & (_ & _ & (second & Hs & (u & Hv & ([x l'] & Hr & H)%bind_Some)%bind_Some)%bind_Some)%bind_Some).
  injection H as <-. cbn in *. eapply inhabited_drop; [exact Hr|].
  pose proof Hr as [Hx _]%vec_remove_Some. rewrite Hx in Hs. injection Hs as ->.
  unfold assert, vacant in *. by destruct (has_windows_or_name second).
Qed.

Lemma add_top_inhabited m c r :
  add_workspace_top m c = Some r → inhabited_ones (fst r).(mo_workspaces) = inhabited_ones m.(mo_workspaces).
Proof.
  unfold add_workspace_top, add_workspace_at, new_workspace. destruct r as [m' c']. intros H. run_steps.
  match goal with H : vec_insert _ _ _ = Some _ |- _ => apply vec_insert_Some in H as [_ ->] end.
  subst. cbn. by destruct (mo_switch m) as [s|]; [destruct (at_or_before_target 0 s)|].
Qed.

Section reconnect.
  Context (par : N → option N).

Lemma prepared_same_list out opts l :
  Forall (workspace_ok par) l → Forall2 same_workspace l (prepare_workspace out opts <$> l).
Proof. intros H. apply Forall2_fmap_r, Forall_Forall2_diag. eapply Forall_impl; [exact H|]. intros ws. apply prepare_same. Qed.

Lemma prepared_inhabited out opts l :
  Forall (workspace_ok par) l → Forall occupied l → Forall occupied (prepare_workspace out opts <$> l).
Proof. intros Hok Hl. apply (prepared_occupied par out opts l Hok). by apply forallb_occupied. Qed.

(** The workspaces that are appended follow those of the monitor. *)
Lemma append_inhabited c m l m' c' :
  monitor_ok par c m → Forall (workspace_ok par) l → Forall occupied l →
  append_workspaces m l c = Some (m', c') →
  inhabited_ones m'.(mo_workspaces) =
    inhabited_ones m.(mo_workspaces) ++ (prepare_workspace m.(mo_output) m.(mo_options) <$> l).
Proof.
  intros Hok Hl Hocc. pose proof (ok_active _ _ _ Hok) as Ha. unfold append_workspaces. destruct l as [|x l0].
  { intros [-> ->]%fresh_ret_Some. by rewrite app_nil_r. }
  lazy beta iota. set (l := x :: l0) in *. clearbody l. clear x l0.
  set (l' := prepare_workspace m.(mo_output) m.(mo_options) <$> l).
  assert (Hl' : inhabited_ones l' = l') by (by apply inhabited_all, prepared_inhabited).
  intros H. apply fresh_bind_Some in H as (last & c1 & [Hlast ->]%lift_Some & H).
  rewrite last_idx_some in Hlast by lia. injection Hlast as <-.
  apply fresh_bind_Some in H as ([empty init] & c1 & [Hrem ->]%lift_Some & H). cbn [fst snd] in H.
  pose proof Hrem as [Hempty _]%vec_remove_Some. pose proof (blank_vacant _ _ (ok_last _ _ _ _ Hok Hempty)) as Hv.
  set (m1 := set_mo_workspaces _ m) in *.
  assert (Hm1 : inhabited_ones m1.(mo_workspaces) = inhabited_ones m.(mo_workspaces) ++ l').
  { unfold m1. cbn [mo_workspaces set_mo_workspaces]. rewrite !inhabited_app, Hl', (inhabited_drop _ _ _ _ Hrem Hv).
    by rewrite (inhabited_none [empty]), app_nil_r by (by constructor). }
  apply fresh_bind_Some in H as (first & c1 & [_ ->]%lift_Some & H).
  apply fresh_bind_Some in H as (m2 & c1 & Htop & H).
  assert (Hm2 : inhabited_ones m2.(mo_workspaces) = inhabited_ones m1.(mo_workspaces)).
  { destruct (_ && _); [by apply add_top_inhabited in Htop|by apply fresh_ret_Some in Htop as [-> _]]. }
  apply lift_Some in H as [H _]. apply clean_up_inhabited in H. rewrite H, <- Hm1, <- Hm2.
  by destruct (_ =? _).
Qed.

(** What belongs to the new output leaves, the rest stays. *)
Lemma reclaim_inhabited output c m r :
  monitor_ok par c m → separate output m → reclaim_workspaces output m = Some r →
  snd r = List.filter (belongs output) (inhabited_ones m.(mo_workspaces)) ∧
  inhabited_ones (fst r).(mo_workspaces) =
    List.filter (λ ws, negb (belongs output ws)) (inhabited_ones m.(mo_workspaces)).
Proof.
  intros Hok Hsep E. destruct (reclaim_workspaces_runs par output c m Hok Hsep) as (r' & E' & _ & _ & Hh & m1 & H1 & H2 & _).
  rewrite E in E'. injection E' as <-.
  assert (Hswap : ∀ (p q : Workspace → bool) l, List.filter p (List.filter q l) = List.filter q (List.filter p l)).
  { intros p q l. rewrite <- !filter_andb. apply List.filter_ext. intros ws. apply andb_comm. }
  split.
  - rewrite Hh. unfold leaving, inhabited_ones. by rewrite filter_andb, Hswap.
  - assert (Hin : inhabited_ones (fst r).(mo_workspaces) = inhabited_ones m1.(mo_workspaces)).
    { destruct H2 as [->|H2]; [done|by apply clean_up_inhabited]. }
    rewrite Hin, H1. unfold staying, inhabited_ones. apply Hswap.
Qed.

(** ** The workspace that was active *)
Lemma idx_to_activate_eq l i ws :
  NoDup (ws_id <$> l) → l !! i = Some ws → idx_to_activate l (Some ws.(ws_id)) = i.
Proof.
  intros Hnd Hi. unfold idx_to_activate.
  assert (H : ∀ k n r, (∀ j x, k !! j = Some x → x.(ws_id) = ws.(ws_id) → n + j = i) →
    (r = i ∨ ∃ j, k !! j = Some ws) → 
    foldl (λ r iw, if N.eqb (ws_id (snd iw)) ws.(ws_id) then fst iw else r) r (imap (λ j, pair (n + j)) k) = i).
  { induction k as [|x k IH]; intros n r Hk Hr; cbn.
    { destruct Hr as [->|[j Hj]]; [done|]. by rewrite lookup_nil in Hj. }
    rewrite (imap_ext _ (λ j, pair (S n + j))) by (intros; cbn; f_equal; lia). apply IH.
    - intros j y Hy Ey. specialize (Hk (S j) y Hy Ey). lia.
    - destruct (N.eqb_spec (ws_id x) (ws_id ws)) as [E|E].
      + left. specialize (Hk 0 x eq_refl E). lia.
      + destruct Hr as [->|[[|j] Hj]]; [by left| |right; by exists j]. cbn in Hj. congruence. }
  apply (H l 0 0).
  - intros j x Hj E. cbn. eapply (NoDup_lookup (ws_id <$> l)); [done| |]; rewrite list_lookup_fmap_Some; eauto.
  - right. by exists i.
Qed.

Lemma Monitor_new_inhabited out l id base lc c m c' :
  Forall (workspace_ok par) l → Forall occupied l → NoDup (ws_id <$> l) →
  Monitor_new out l id base lc c = Some (m, c') →
  let l' := prepare_workspace out (with_merged_layout base lc) <$> l in
  m.(mo_output) = out ∧ inhabited_ones m.(mo_workspaces) = l' ∧
  ∀ i ws, l' !! i = Some ws → id = Some ws.(ws_id) → m.(mo_workspaces) !! m.(mo_active) = Some ws.
Proof.
  intros Hok Hocc Hnd H l'. assert (Hl' : inhabited_ones l' = l') by (by apply inhabited_all, prepared_inhabited).
  assert (Hnd' : NoDup (ws_id <$> l')).
  { unfold l'. rewrite ids_fmap; [done|]. eapply Forall_impl; [exact Hok|]. intros ws. apply prepare_same. }
  unfold Monitor_new in H. fold l' in H.
  apply fresh_bind_Some in H as (u & c1 & _ & H). apply fresh_bind_Some in H as ([k a] & c2 & Hk & H).
  unfold new_workspace in H. run_steps. cbn [fst snd mo_output mo_workspaces mo_active] in *.
  assert (Hka : (∃ pre, Forall vacant pre ∧ k = pre ++ l' ∧ a = length pre + idx_to_activate l' id)).
  { destruct (_ && _).
    - unfold new_workspace in Hk. apply fresh_bind_Some in Hk as (ws & c3 & Hws & [[= -> ->] _]%fresh_ret_Some).
      apply fresh_bind_Some in Hws as (x & c4 & _ & [-> _]%fresh_ret_Some).
      exists [Workspace_new x out (with_merged_layout base lc)].
      split_and!; [by repeat constructor|done|cbn; lia].
    - apply fresh_ret_Some in Hk as [[= -> ->] _]. by exists []. }
  destruct Hka as (pre & Hpre & -> & ->). split_and!; [done| |].
  - rewrite !inhabited_app, Hl', (inhabited_none pre), (inhabited_none [_]), app_nil_r by (by repeat constructor). done.
  - intros i ws Hi ->. rewrite <- app_assoc, lookup_app_r, (idx_to_activate_eq l' i ws) by (done || lia).
    replace (length pre + i - length pre) with i by lia. rewrite lookup_app_l; [done|]. by eapply lookup_lt_Some.
Qed.

End reconnect.

(** ** Away and back *)
(** An index of the remaining monitors. *)
Definition after_removal (i k : nat) : nat := if i <=? k then k - 1 else k.

Lemma others_lookup (ms : list Monitor) i k : i < length ms → i ≠ k → others ms i !! after_removal i k = ms !! k.
Proof.
  intros Hi Hne. unfold others, after_removal. destruct (Nat.leb_spec i k).
  - rewrite vec_remove_lookup_ge by lia. f_equal. lia.
  - by rewrite vec_remove_lookup_lt.
Qed.

Lemma remove_output_run ly ms p a i m t c ly1 c1 :
  ly.(ly_set) = SetNormal ms p a → monitor_position ms m.(mo_output) = Some i → ms !! i = Some m →
  ms !! p = Some t → i ≠ p → remove_output ly m.(mo_output) c = Some (ly1, c1) →
  ∃ ws t1, m.(mo_workspaces) !! m.(mo_active) = Some ws ∧
    append_workspaces t (into_workspaces m) c = Some (t1, c1) ∧
    ly1.(ly_set) = SetNormal (<[after_removal i p := t1]> (others ms i)) (after_removal i p) (after_removal i a) ∧
    ly1.(ly_last_active) !! m.(mo_output).(on_connector) = Some ws.(ws_id) ∧
    ly1.(ly_options) = ly.(ly_options).
Proof.
  intros E Hpos Hi Ht Hne. unfold remove_output. rewrite E, Hpos.
  intros (j & c2 & [[= <-] ->]%lift_Some & H)%fresh_bind_Some.
  rewrite (vec_remove_ok _ m) in H by done. fold (others ms i) in H.
  apply fresh_bind_Some in H as (x & c2 & [[= <-] ->]%lift_Some & H).
  apply fresh_bind_Some in H as (ws & c2 & [Hws ->]%lift_Some & H).
  fold (after_removal i p) (after_removal i a) in H.
  pose proof (others_lookup ms i p (lookup_lt_Some _ _ _ Hi) Hne) as Hp. rewrite Ht in Hp.
  destruct (others ms i) as [|y rest] eqn:Er; [by rewrite lookup_nil in Hp|]. rewrite <- Er in *.
  rewrite Hp in H. apply fresh_bind_Some in H as (x & c2 & [[= <-] ->]%lift_Some & H).
  apply fresh_bind_Some in H as (t1 & c2 & Happ & [-> ->]%fresh_ret_Some).
  exists ws, t1. split_and!; [done|exact Happ|done| |done]. cbn. by rewrite lookup_insert_eq.
Qed.

Lemma add_output_run ly ms p a t output lc c ly1 c1 :
  ly.(ly_set) = SetNormal ms p a → ms !! p = Some t → add_output ly output lc c = Some (ly1, c1) →
  ∃ t' held m', reclaim_workspaces output t = Some (t', held) ∧
    ly1.(ly_set) = SetNormal (<[p := t']> ms ++ [set_mo_overview_open ly.(ly_overview_open) m']) p a ∧
    Monitor_new output held (ly.(ly_last_active) !! output.(on_connector)) ly.(ly_options) lc c = Some (m', c1).
Proof.
  intros E Ht. unfold add_output, connect. rewrite E, Ht.
  intros (x & c2 & [[= <-] ->]%lift_Some & H)%fresh_bind_Some.
  apply fresh_bind_Some in H as ([t' held] & c2 & [Hr ->]%lift_Some & H). cbn [fst snd] in H.
  apply fresh_bind_Some in H as (m2 & c2 & Hm & [-> ->]%fresh_ret_Some).
  apply fresh_bind_Some in Hm as (m' & c3 & Hm & [-> ->]%fresh_ret_Some).
  by exists t', held, m'.
Qed.

Section theorem.
  Context (par : N → option N).

Lemma into_same_list l :
  Forall2 same_workspace (inhabited_ones l) (set_output None <$> inhabited_ones l).
Proof.
  apply Forall2_fmap_r, Forall_Forall2_diag, Forall_forall. intros ws _.
  destruct (set_output_same None ws) as (H1 & H2 & H3 & _). split; [by rewrite H1|done|done].
Qed.

Lemma same_list_trans l1 l2 l3 :
  Forall2 same_workspace l1 l2 → Forall2 same_workspace l2 l3 → Forall2 same_workspace l1 l3.
Proof.
  intros H. revert l3. induction H as [|x y l1 l2 Hxy _ IH]; intros l3.
  - by intros ->%Forall2_nil_inv_l.
  - intros (z & k & Hz & Hk & ->)%Forall2_cons_inv_l. constructor; [by eapply same_trans|auto].
Qed.

(** On another monitor the workspaces still belong to their own output. *)
Lemma away_belongs output out opts l :
  Forall (λ ws, belongs output ws = true ∧ belongs out ws = false) l →
  Forall (λ ws, belongs output ws = true) (prepare_workspace out opts <$> (set_output None <$> l)).
Proof.
  intros Hl. rewrite !Forall_fmap. eapply Forall_impl; [exact Hl|]. intros ws [Ho Hout]. cbn.
  unfold belongs, prepare_workspace in *. cbn. unfold set_output.
  destruct (decide (ws_output ws = None)), (decide _); cbn; rewrite ?Hout; done.
Qed.

Context (c : N) (ly : Layout) (ms : list Monitor) (p a i : nat) (m t : Monitor) (lc : option LayoutPart).
Hypothesis Hok : layout_ok par c ly.
Hypothesis Hroom : ly_room c ly.
Hypothesis E : ly.(ly_set) = SetNormal ms p a.
Hypothesis Hpos : monitor_position ms m.(mo_output) = Some i.
Hypothesis Hm : ms !! i = Some m.
Hypothesis Ht : ms !! p = Some t.
Hypothesis Hne : i ≠ p.
Hypothesis Hsep : Forall (λ m', disjoint_outputs m'.(mo_output) m.(mo_output)) (others ms i).
Hypothesis Hown : Forall (λ ws, belongs m.(mo_output) ws = true ∧ belongs t.(mo_output) ws = false)
  (inhabited_ones m.(mo_workspaces)).
Hypothesis Hother : Forall (λ ws, belongs m.(mo_output) ws = false) (inhabited_ones t.(mo_workspaces)).

(** Where the workspaces are while the output is away. *)
Record away (ly1 : Layout) (c1 : N) (t1 : Monitor) (held : list Workspace) : Prop := {
  aw_ok : layout_ok par c1 ly1;
  aw_room : ly_room c1 ly1;
  aw_set : ly1.(ly_set) = SetNormal (<[after_removal i p := t1]> (others ms i)) (after_removal i p)
                            (after_removal i a);
  aw_place : others ms i !! after_removal i p = Some t;
  aw_separate : output_new ly1 m.(mo_output);
  aw_held : Forall2 same_workspace (inhabited_ones m.(mo_workspaces)) held;
  aw_belong : Forall (λ ws, belongs m.(mo_output) ws = true) held;
  aw_primary : inhabited_ones t1.(mo_workspaces) = inhabited_ones t.(mo_workspaces) ++ held;
  aw_monitor : monitor_ok par c1 t1;
  aw_active ws : m.(mo_workspaces) !! m.(mo_active) = Some ws →
    ly1.(ly_last_active) !! m.(mo_output).(on_connector) = Some ws.(ws_id)
}.

Lemma goes_away :
  ∃ ly1 c1 t1 held, remove_output ly m.(mo_output) c = Some (ly1, c1) ∧ away ly1 c1 t1 held.
Proof using All.
  destruct (normal_parts par c ly ms p a Hok E) as (Hp & Ha & Hs).
  pose proof (monitor_at par c ly ms p a Hok E) as Hmok.
  pose proof (others_lookup ms i p (lookup_lt_Some _ _ _ Hm) Hne) as Hpl. rewrite Ht in Hpl.
  destruct (remove_output_wp par c ly m.(mo_output)) as (ly1 & c1 & E1 & [K1 _ K3]); [done|done| |].
  { exists m. split; [|done]. unfold ly_monitors. rewrite E. by eapply list_elem_of_lookup_2. }
  destruct (remove_output_run ly ms p a i m t c ly1 c1 E Hpos Hm Ht Hne E1)
    as (act & t1 & Hact & Happ & Eset & Elast & _).
  destruct (into_workspaces_ok par c m (Hmok _ _ Hm)) as (Hb & Hwin & Hocc & Hids).
  apply forallb_occupied in Hocc.
  pose proof (append_inhabited par c t (into_workspaces m) t1 c1 (Hmok _ _ Ht) (bs_ok _ _ _ Hb) Hocc Happ) as Hin.
  set (held := prepare_workspace _ _ <$> into_workspaces m) in *.
  assert (Harr : mon_arrival par c t (into_workspaces m) t1 c1).
  { destruct (set_removed par c _ _ ms i m (into_workspaces m) Hs Hm Hb Hwin Hids) as [Hs1 _].
    destruct (append_workspaces_wp par c t (into_workspaces m)) as (t2 & c2 & E2 & H2); [by eauto|by apply room_two in Hroom| |done|].
    - eapply held_monitor; [exact Hpl|exact Hs1].
    - rewrite Happ in E2. by injection E2 as <- <-. }
  exists ly1, c1, t1, held. split; [done|]. destruct Harr as [A1 _ A3 A4 _]. split; try done.
  - unfold ly_room, ly_monitors, room in *. rewrite Eset, E in *. rewrite length_insert.
    pose proof (length_vec_remove i m ms Hm) as Hlen. fold (others ms i) in Hlen. lia.
  - unfold output_new, ly_monitors. rewrite Eset. apply Forall_insert; [done|].
    rewrite (kept_output _ _ A4). rewrite Forall_lookup in Hsep. by apply (Hsep _ _ Hpl).
  - eapply same_list_trans; [apply into_same_list|]. apply (prepared_same_list par), Hb.
  - by apply away_belongs.
  - intros ws Hws. rewrite Hact in Hws. by injection Hws as <-.
Qed.

Lemma comes_back ly1 c1 t1 held :
  away ly1 c1 t1 held →
  ∃ ly2 c2 t2 m2, add_output ly1 m.(mo_output) lc c1 = Some (ly2, c2) ∧ layout_ok par c2 ly2 ∧
    ly2.(ly_set) = SetNormal (<[after_removal i p := t2]> (others ms i) ++ [m2]) (after_removal i p)
                     (after_removal i a) ∧
    m2.(mo_output) = m.(mo_output) ∧ inhabited_ones t2.(mo_workspaces) = inhabited_ones t.(mo_workspaces) ∧
    Forall2 same_workspace (inhabited_ones m.(mo_workspaces)) (inhabited_ones m2.(mo_workspaces)) ∧
    ∀ ws, m.(mo_workspaces) !! m.(mo_active) = Some ws → occupied ws →
      ∃ ws', m2.(mo_workspaces) !! m2.(mo_active) = Some ws' ∧ same_workspace ws ws'.
Proof using Hother.
  intros [W1 W2 W3 W4 W5 W6 W7 W8 W9 W10].
  destruct (add_output_wp par c1 ly1 m.(mo_output) lc W1 W2 W5) as (ly2 & c2 & E2 & [K1 _ _]).
  destruct (add_output_run ly1 _ _ _ t1 m.(mo_output) lc c1 ly2 c2 W3) as (t2 & back & m' & Er & Eset & En).
  { apply list_lookup_insert_eq. by eapply lookup_lt_Some. }
  { done. }
  assert (Hst : separate m.(mo_output) t1).
  { unfold output_new, ly_monitors in W5. rewrite W3 in W5. rewrite Forall_lookup in W5.
    apply disjoint_separate, (W5 (after_removal i p)), list_lookup_insert_eq. by eapply lookup_lt_Some. }
  destruct (reclaim_inhabited par _ _ _ _ W9 Hst Er) as [Hback Hstay]. cbn [fst snd] in *. rewrite W8 in Hback, Hstay.
  assert (Hback' : back = held).
  { rewrite Hback, List.filter_app, (filter_keeps _ held), (filter_drops _ (inhabited_ones _)); [done..|].
    by eapply Forall_impl. }
  assert (Hstay' : inhabited_ones t2.(mo_workspaces) = inhabited_ones t.(mo_workspaces)).
  { rewrite Hstay, List.filter_app, filter_keeps, filter_drops; [by rewrite app_nil_r| |].
    - eapply Forall_impl; [exact W7|]. by intros ws ->.
    - eapply Forall_impl; [exact Hother|]. by intros ws ->. }
  clear Hback Hstay. subst back.
  assert (Hheld : Forall (workspace_ok par) held ∧ Forall occupied held ∧ NoDup (ws_id <$> held)).
  { pose proof (stack_base par _ _ _ _ (mok_stack _ _ _ W9)) as [B1 B2 _ _].
    assert (Hin : ∀ ws, ws ∈ held → ws ∈ t1.(mo_workspaces) ∧ occupied ws).
    { intros ws Hws. apply inhabited_elem. rewrite W8. apply elem_of_app. by right. }
    rewrite Forall_forall in B1. split_and!; [apply Forall_forall..|].
    - intros ws Hws. by apply B1, Hin.
    - intros ws Hws. by apply Hin.
    - destruct (filter_occupied_perm t1.(mo_workspaces)) as [gone Hg]. fold (inhabited_ones t1.(mo_workspaces)) in Hg.
      rewrite Hg, W8, !fmap_app in B2. apply NoDup_app in B2 as (_ & _ & B2). by apply NoDup_app in B2 as (_ & _ & B2). }
  destruct Hheld as (Hhok & Hhocc & Hhnd).
  destruct (Monitor_new_inhabited par _ _ _ _ _ _ _ _ Hhok Hhocc Hhnd En) as (Ho & Hinh & Hact).
  pose proof (prepared_same_list par m.(mo_output) (with_merged_layout ly1.(ly_options) lc) held Hhok) as Hprep.
  set (m2 := set_mo_overview_open ly1.(ly_overview_open) m') in *.
  rewrite list_insert_insert_eq in Eset.
  exists ly2, c2, t2, m2. split_and!; [done|done|done|done|done| |].
  - change (mo_workspaces m2) with (mo_workspaces m'). rewrite Hinh. by eapply same_list_trans.
  - intros ws Hws Hwocc.
    assert (Hin : ws ∈ inhabited_ones m.(mo_workspaces)).
    { apply inhabited_elem. split; [by eapply list_elem_of_lookup_2|done]. }
    apply list_elem_of_lookup in Hin as [k Hk].
    destruct (Forall2_lookup_l _ _ _ _ _ W6 Hk) as (w1 & Hk1 & S1).
    destruct (Forall2_lookup_l _ _ _ _ _ Hprep Hk1) as (w2 & Hk2 & S2).
    pose proof (same_trans _ _ _ S1 S2) as S. exists w2. split; [|done].
    apply (Hact k w2 Hk2). rewrite (W10 ws Hws). by rewrite (sw_id _ _ S).
Qed.

End theorem.

(** What the invariant says of the output that goes. *)
Record apart_from_others (ms : list Monitor) (i : nat) (m t : Monitor) : Prop := {
  ap_position : monitor_position ms m.(mo_output) = Some i;
  ap_others : Forall (λ m', disjoint_outputs m'.(mo_output) m.(mo_output)) (others ms i);
  ap_own : Forall (λ ws, belongs m.(mo_output) ws = true ∧ belongs t.(mo_output) ws = false)
             (inhabited_ones m.(mo_workspaces));
  ap_primary : Forall (λ ws, belongs m.(mo_output) ws = false) (inhabited_ones t.(mo_workspaces))
}.

Lemma homes_apart p ms i m t :
  homes_ok p ms → ms !! i = Some m → ms !! p = Some t → i ≠ p → apart_from_others ms i m t.
Proof.
  intros [Hd Hh] Hm Ht Hne. pose proof (outputs_lookup ms i m Hm) as Om. pose proof (outputs_lookup ms p t Ht) as Ot.
  assert (Hin : ∀ (P : Workspace → Prop) l, Forall P l → Forall P (inhabited_ones l)).
  { intros P l H. apply Forall_forall. intros ws [Hws _]%inhabited_elem. rewrite Forall_forall in H. by apply H. }
  split.
  - destruct (monitor_position_runs ms m.(mo_output)) as (j & Ej & x & Hx & Ex).
    { exists m. split; [by eapply list_elem_of_lookup_2|done]. }
    rewrite Ej. f_equal. apply dec_stable. intros Hij. pose proof (outputs_lookup ms j x Hx) as Ox.
    pose proof (Hd j i _ _ Hij Ox Om _ (own_matches _)) as H. rewrite Ex, own_matches in H. done.
  - apply Forall_lookup. intros j x Hx.
    destruct (others_index ms i j x (lookup_lt_Some _ _ _ Hm) Hx) as (k & Hk & Ek & _).
    apply (Hd k i); [done|by apply outputs_lookup|done].
  - apply Hin. eapply Forall_impl; [exact (Hh i m Hm)|]. intros ws Hws.
    split; [|by eapply at_home_elsewhere]. unfold at_home in Hws. rewrite decide_False in Hws by done.
    destruct Hws as (o & Ho & Hb). rewrite Om in Ho. by injection Ho as <-.
  - apply Hin. eapply Forall_impl; [exact (Hh p t Ht)|]. intros ws Hws. by eapply at_home_elsewhere.
Qed.

(** C26: an output that is disconnected and connected again gets its workspaces back. In a layout
    that satisfies the invariant, disconnecting the output of a secondary monitor leaves its
    workspaces on the primary monitor, and connecting it again makes a monitor with those of its
    workspaces that had windows or a name, in their order, with their ids, names and windows. If the
    active one was such a workspace, it is active again. The primary monitor has the workspaces with
    windows or a name that it had before (which of them is active may have changed), and the
    other monitors are not touched. *)
Theorem reconnect_restores_workspaces par c ly ms p a i m t lc :
  layout_ok par c ly → ly_room c ly → ly.(ly_set) = SetNormal ms p a →
  ms !! i = Some m → ms !! p = Some t → i ≠ p →
  ∃ ly1 c1 t1 ly2 c2 t2 m2,
    remove_output ly m.(mo_output) c = Some (ly1, c1) ∧
    ly1.(ly_set) = SetNormal (<[after_removal i p := t1]> (others ms i)) (after_removal i p) (after_removal i a) ∧
    add_output ly1 m.(mo_output) lc c1 = Some (ly2, c2) ∧ layout_ok par c2 ly2 ∧
    ly2.(ly_set) = SetNormal (<[after_removal i p := t2]> (others ms i) ++ [m2]) (after_removal i p)
                     (after_removal i a) ∧
    m2.(mo_output) = m.(mo_output) ∧ inhabited_ones t2.(mo_workspaces) = inhabited_ones t.(mo_workspaces) ∧
    Forall2 same_workspace (inhabited_ones m.(mo_workspaces)) (inhabited_ones m2.(mo_workspaces)) ∧
    ∀ ws, m.(mo_workspaces) !! m.(mo_active) = Some ws → occupied ws →
      ∃ ws', m2.(mo_workspaces) !! m2.(mo_active) = Some ws' ∧ same_workspace ws ws'.
Proof.
  intros Hok Hr E Hm Ht Hne.
  destruct (homes_apart p ms i m t (normal_homes par c ly ms p a Hok E) Hm Ht Hne) as [Hpos Hsep Hown Hother].
  destruct (goes_away par c ly ms p a i m t) as (ly1 & c1 & t1 & held & E1 & Haw); [done..|].
  destruct (comes_back par ms p a i m t lc Hother ly1 c1 t1 held Haw) as (ly2 & c2 & t2 & m2 & E2 & H).
  exists ly1, c1, t1, ly2, c2, t2, m2. destruct Haw, H as (? & ? & ? & ? & ? & ?). by split_and!.
Qed.

(** ** Witnesses *)
Definition right_monitor : Monitor := Eval vm_compute in
  match ly5.2.(ly_set) with SetNormal (_ :: m :: _) _ _ => m | _ => mon0.2 end.
Definition left_monitor : Monitor := Eval vm_compute in
  match ly5.2.(ly_set) with SetNormal (m :: _) _ _ => m | _ => mon0.2 end.

Lemma reconnect_restores_workspaces_witness :
  (ws_windows <$> left_monitor.(mo_workspaces) = [[1%N]; []] ∧
   ws_windows <$> right_monitor.(mo_workspaces) = [[2%N]; []]) ∧
  ∃ ly1 c1 ly2 c2 t2 m2,
    remove_output ly5.2 right_output ly5.1 = Some (ly1, c1) ∧
    fst (ly_view ly1) = [([(None, [1%N]); (None, [2%N]); (None, [])], 0)] ∧
    add_output ly1 right_output None c1 = Some (ly2, c2) ∧ ly2.(ly_set) = SetNormal [t2; m2] 0 0 ∧
    ∃ ws, m2.(mo_workspaces) !! m2.(mo_active) = Some ws ∧ ws_windows ws ≡ₚ [2%N].
Proof.
  split; [split; reflexivity|].
  destruct (reconnect_restores_workspaces unparented ly5.1 ly5.2 [left_monitor; right_monitor] 0 0 1
              right_monitor left_monitor None)
    as (ly1 & c1 & t1 & ly2 & c2 & t2 & m2 & E1 & _ & E2 & _ & Eset & _ & _ & _ & Hact).
  - exact ly5_ok.
  - reflexivity.
  - vm_compute. reflexivity.
  - reflexivity.
  - reflexivity.
  - done.
  - exists ly1, c1, ly2, c2, t2, m2. split_and!; [exact E1| |exact E2|exact Eset|].
    + vm_compute in E1. injection E1 as <- _. vm_compute. reflexivity.
    + destruct (Hact (default (new_with_config_no_outputs 0 None float_options)
                        (right_monitor.(mo_workspaces) !! 0))) as (ws & Hws & Hs); [reflexivity|reflexivity|].
      exists ws. split; [exact Hws|]. exact (sw_windows _ _ Hs).
Defined.
