(* ===== verification/LayoutSetOptions.v ===== *)
(** * The options of the layout

    No operation but a change of the configuration touches the options of the layout. *)
From stdpp Require Import gmap strings.
From S2P Require Import Prelude LayoutScrolling LayoutFloating LayoutOutput LayoutWorkspace LayoutWorkspaceProps LayoutMonitor LayoutMonitorProps LayoutSet LayoutSetProps.

(** What holds of every result, if there is one. *)
Definition yields {A} (P : A → Prop) (o : Fresh A) : Prop := ∀ c a c', o c = Some (a, c') → P a.
Definition offers {A} (P : A → Prop) (o : option A) : Prop := ∀ a, o = Some a → P a.

Lemma yields_ret {A} (P : A → Prop) a : P a → yields P (mret a).
Proof. by intros H c b c' [= <- _]. Qed.

Lemma yields_bind {A B} (Q : A → Prop) (P : B → Prop) (o : Fresh A) (f : A → Fresh B) :
  yields Q o → (∀ a, Q a → yields P (f a)) → yields P (o ≫= f).
Proof.
  intros Ho Hf c b c' E. unfold mbind, Fresh_bind in E. apply bind_Some in E as ([a c1] & Eo & Ef).
  eapply Hf; [by eapply Ho|exact Ef].
Qed.

Lemma yields_any {A B} (P : B → Prop) (o : Fresh A) (f : A → Fresh B) :
  (∀ a, yields P (f a)) → yields P (o ≫= f).
Proof. intros Hf. by apply (yields_bind (λ _, True)). Qed.

Lemma yields_lift {A} (P : A → Prop) (o : option A) : offers P o → yields P (lift o).
Proof. intros H c a c' E. apply bind_Some in E as (b & E & [= <- _]). by apply H. Qed.

Lemma offers_some {A} (P : A → Prop) a : P a → offers P (Some a).
Proof. by intros H b [= <-]. Qed.

Lemma offers_bind {A B} (Q : A → Prop) (P : B → Prop) (o : option A) (f : A → option B) :
  offers Q o → (∀ a, Q a → offers P (f a)) → offers P (o ≫= f).
Proof. intros Ho Hf b (a & Eo & Ef)%bind_Some. eapply Hf; [by apply Ho|exact Ef]. Qed.

Lemma offers_any {A B} (P : B → Prop) (o : option A) (f : A → option B) : (∀ a, offers P (f a)) → offers P (o ≫= f).
Proof. intros Hf. by apply (offers_bind (λ _, True)). Qed.

Lemma offers_fmap {A B} (P : B → Prop) (o : option A) (f : A → B) : offers (λ a, P (f a)) o → offers P (f <$> o).
Proof. intros H b (a & Eo & ->)%fmap_Some. by apply H. Qed.

(** Goes through the branches and forgets the intermediate values. *)
Ltac yields_step :=
  first
    [ apply yields_ret; done
    | apply offers_some; done
    | match goal with
      | |- yields _ (match ?x with _ => _ end) => destruct x
      | |- offers _ (match ?x with _ => _ end) => destruct x
      end
    | apply yields_any; intros ?
    | apply offers_any; intros ?
    | apply yields_lift
    | done ].
Ltac yields_all := cbn beta iota zeta; repeat (yields_step; cbn beta iota zeta).

Local Abbreviation same ly := (λ ly' : Layout, ly'.(ly_options) = ly.(ly_options)).
Local Abbreviation same_fst ly := (λ r : Layout * _, (fst r).(ly_options) = ly.(ly_options)).
Local Abbreviation same_snd ly := (λ r : _ * Layout, (snd r).(ly_options) = ly.(ly_options)).

Section options.
  Context (par : N → option N) (g : Placement).

Lemma with_monitor_options ly i f : yields (same ly) (with_monitor ly i f).
Proof. unfold with_monitor. yields_all. Qed.

Lemma with_active_monitor_options ly f : yields (same ly) (with_active_monitor ly f).
Proof. unfold with_active_monitor. destruct (ly_set ly); [apply with_monitor_options|yields_all]. Qed.

Lemma with_workspace_options {B} ly place (f : Workspace → option (B * Workspace)) :
  offers (same_snd ly) (with_workspace ly place f).
Proof. unfold with_workspace. yields_all. Qed.

Lemma with_active_workspace_options {B} ly (b : B) f : offers (same_snd ly) (with_active_workspace ly b f).
Proof. unfold with_active_workspace. apply offers_any. intros [p|]; [apply with_workspace_options|yields_all]. Qed.

Lemma with_window_workspace_options {B} ly window (b : B) f : offers (same_snd ly) (with_window_workspace ly window b f).
Proof.
  destruct window as [w|]; [|apply with_active_workspace_options].
  apply offers_any. intros p. apply with_workspace_options.
Qed.

Lemma add_output_options ly output config : yields (same ly) (add_output ly output config).
Proof. unfold add_output. yields_all. Qed.

Lemma remove_output_options ly output : yields (same ly) (remove_output ly output).
Proof. unfold remove_output. yields_all. Qed.

Lemma focus_output_options ly output : (focus_output ly output).(ly_options) = ly.(ly_options).
Proof. unfold focus_output. by repeat case_match. Qed.

Lemma add_window_options ly w p rule t wd full fl a : yields (same_fst ly) (add_window par ly w p rule t wd full fl a).
Proof. unfold add_window. yields_all. Qed.

Lemma remove_window_options ly w : offers (same_fst ly) (remove_window g ly w).
Proof. unfold remove_window. yields_all. Qed.

Lemma activate_options f ly : offers (same ly) (ly_activate_with f ly).
Proof. unfold ly_activate_with. yields_all. Qed.

Lemma move_to_output_options ly w o t a : yields (same ly) (move_to_output par g ly w o t a).
Proof. unfold move_to_output. yields_all. Qed.

Lemma add_column_options ly i j c a : yields (same ly) (add_column_by_idx ly i j c a).
Proof. unfold add_column_by_idx. yields_all. Qed.

Lemma move_column_options ly o t a : yields (same ly) (move_column_to_output par g ly o t a).
Proof.
  unfold move_column_to_output. destruct (ly_set ly) as [ms p i|l]; [|yields_all].
  apply yields_any; intros j. apply yields_any; intros m. apply yields_any; intros ws.
  destruct (floating_active ws); [apply move_to_output_options|].
  apply yields_any; intros [[c|] m']; cbn [fst snd]; [|by apply yields_ret].
  apply yields_any; intros m''. apply yields_any; intros k.
  intros n ly' n' E%add_column_options. exact E.
Qed.

Lemma move_column_or_options move ly o : yields (same_fst ly) (move_column_or_to_output par g move ly o).
Proof.
  unfold move_column_or_to_output. eapply yields_bind; [apply yields_lift, with_active_workspace_options|].
  intros [[|] ly1] H; cbn [fst snd] in *; [by apply yields_ret|].
  eapply yields_bind; [apply move_column_options|]. intros ly2 H2. apply yields_ret. cbn. congruence.
Qed.

Lemma move_workspace_by_id_options ly i o o' : yields (same_fst ly) (move_workspace_to_output_by_id ly i o o').
Proof. unfold move_workspace_to_output_by_id. yields_all. Qed.

Lemma move_to_workspace_options ly w i a : yields (same ly) (ly_move_to_workspace par g ly w i a).
Proof.
  unfold ly_move_to_workspace. destruct (ly_set ly); [|yields_all]. apply yields_any; intros j.
  apply with_monitor_options.
Qed.

Lemma move_workspace_idx_options ly r i : yields (same ly) (ly_move_workspace_to_idx ly r i).
Proof.
  unfold ly_move_workspace_to_idx.
  repeat case_match; first [apply with_monitor_options | apply with_active_monitor_options | by apply yields_ret].
Qed.

Lemma name_last_options ly i name : yields (same_fst ly) (name_last_of ly i name).
Proof. unfold name_last_of. yields_all. Qed.

Lemma ensure_active_options ly name : yields (same_fst ly) (ensure_named_workspace_on_active_monitor ly name).
Proof.
  unfold ensure_named_workspace_on_active_monitor. apply yields_any; intros [[i m]|]; [|by apply yields_ret].
  case_match; [by apply yields_ret|apply name_last_options].
Qed.

Lemma ensure_monitor_options ly name o : yields (same_fst ly) (ensure_named_workspace_on_monitor ly name o).
Proof.
  unfold ensure_named_workspace_on_monitor. case_match; [by apply yields_ret|].
  destruct (ly_set ly); [apply name_last_options|by apply yields_ret].
Qed.

Lemma ensure_options ly config : yields (same ly) (ensure_named_workspace ly config).
Proof. unfold ensure_named_workspace. yields_all. Qed.

Lemma set_name_options ly name r : yields (same ly) (set_workspace_name ly name r).
Proof.
  unfold set_workspace_name. destruct (find_workspace_by_name ly name); [by apply yields_ret|].
  apply yields_any; intros [p|]; [|by apply yields_ret].
  eapply yields_bind; [apply yields_lift, with_workspace_options|]. intros [id ly1] H. cbn in H.
  intros c ly2 c' E%with_active_monitor_options. cbn in E. congruence.
Qed.

Lemma unname_by_id_options ly id : offers (same ly) (unname_workspace_by_id ly id).
Proof. unfold unname_workspace_by_id. yields_all. Qed.

Lemma unset_name_options ly r : offers (same ly) (unset_workspace_name ly r).
Proof.
  unfold unset_workspace_name. apply offers_any; intros [[i j]|]; [|by apply offers_some].
  apply offers_any; intros l. apply offers_any; intros ws. apply unname_by_id_options.
Qed.

Lemma overview_to_options ly i : yields (same ly) (toggle_overview_to_workspace ly i).
Proof.
  unfold toggle_overview_to_workspace. eapply yields_bind; [apply with_active_monitor_options|].
  intros ly1 H. apply yields_ret. exact H.
Qed.

Lemma keep_options (o : Fresh Layout) ly : yields (same ly) o → yields (same_fst ly) (ly' ← o; mret (ly', @nil N)).
Proof. intros H. eapply yields_bind; [exact H|]. intros ly' E. by apply yields_ret. Qed.

Lemma fst_options {B} (o : Fresh (Layout * B)) ly :
  yields (same_fst ly) o → yields (same_fst ly) (r ← o; mret (fst r, @nil N)).
Proof. intros H. eapply yields_bind; [exact H|]. intros r E. by apply yields_ret. Qed.

(** The operations that change the configuration. *)
Definition configures (op : LyOp) : bool :=
  match op with LopUpdateConfig _ _ | LopUpdateOptions _ => true | _ => false end.

Lemma run_ly_op_options ly op : configures op = false → yields (same_fst ly) (run_ly_op par g ly op).
Proof.
  intros Hc. destruct op; try done; cbn [run_ly_op];
    first [apply keep_options | apply fst_options | idtac]; try apply yields_lift;
    auto using add_output_options, remove_output_options, add_window_options, activate_options, move_to_output_options,
      move_column_options, move_column_or_options, move_workspace_by_id_options, move_to_workspace_options,
      move_workspace_idx_options, ensure_active_options, ensure_monitor_options, ensure_options, set_name_options,
      unset_name_options, overview_to_options, with_monitor_options, yields_ret, focus_output_options.
  - eapply yields_bind; [apply yields_lift, remove_window_options|]. intros r E. by apply yields_ret.
  - apply activate_options.
  - apply activate_options.
  - eapply offers_bind; [apply with_window_workspace_options|]. intros r E. by apply offers_some.
  - unfold move_workspace_to_output. apply yields_any; intros [[i m]|]; [|by apply yields_ret].
    apply move_workspace_by_id_options.
  - apply yields_ret. unfold open_overview. by case_match.
  - apply yields_ret. unfold close_overview. by case_match.
Qed.
(** Only closing a window takes one away. *)
Lemma run_ly_op_closes ly op : (∀ w, op ≠ LopRemoveWindow w) → yields (λ r, snd r = []) (run_ly_op par g ly op).
Proof.
  intros Hne. destruct op; try (by destruct (Hne window)); cbn [run_ly_op]; apply yields_any; intros r; by apply yields_ret.
Qed.
End options.
