(* ===== verification/LayoutView.v ===== *)
(** * The horizontal view of a scrolling space (src/layout/scrolling.rs)

    Where columns start, and at which column and view offset a view gesture ends: the view snaps to
    the point that is closest to where the gesture would stop, the furthest column that still fits is
    focused, and the view then moves so that this column is placed as a newly focused one is.
    All sizes are doubles, and expressions round as in the code.  Where the gesture would stop comes
    from the swipe tracker and is an argument. *)
From stdpp Require Import prelude.
From S2P Require Import Prelude Float64 FloatRound LayoutScrolling.

(** ** Positions *)

(** [column_xs]: one more than there are columns. *)
Fixpoint column_xs (gaps x : f64) (widths : list f64) : list f64 :=
  match widths with
  | [] => [x]
  | w :: widths => x :: column_xs gaps (f64_add x (f64_add w gaps)) widths
  end.

(** [NotNan::new(..).unwrap()]. *)
Definition not_nan (x : f64) : option f64 := if f64_is_nan x then None else Some x.

Definition f64_neg : f64 → f64 := SpecFloat.SFopp.

Definition distance (a b : f64) : f64 := f64_abs (f64_sub a b).

(** [min_by_key] over the distances to [x]: the first of the closest, with its index. *)
Definition closer (x : f64) (a b : nat * f64) : nat * f64 :=
  if f64_ltb (distance (snd b) x) (distance (snd a) x) then b else a.

Definition closest (x : f64) (l : list f64) : option (nat * f64) :=
  _ ← mapM (λ v, not_nan (distance v x)) l;
  match imap pair l with [] => None | a :: l => Some (foldl (closer x) a l) end.

(** ** The view *)
Inductive CenterFocusedColumn := CenterNever | CenterAlways | CenterOnOverflow.

(** The horizontal extent of a rectangle. *)
Record Area := MkArea { ar_x : f64; ar_w : f64 }.

Record ColumnView := MkColumnView { cv_width : f64; cv_mode : SizingMode }.

(** What a gesture reads of a [ScrollingSpace]; the cached widths of columns are their widths. *)
Record ViewState := MkViewState {
  vs_columns : list ColumnView;
  vs_active : nat;
  vs_view_w : f64;
  vs_working : Area;
  vs_parent : Area;
  vs_gaps : f64;
  vs_scale : f64;
  vs_center : CenterFocusedColumn;
  vs_always_center_single : bool
}.

Record Snap := MkSnap { sn_pos : f64; sn_col : nat }.

Definition is_maximized (mode : SizingMode) : bool := match mode with SizeMaximized => true | _ => false end.
Definition is_fullscreen (mode : SizingMode) : bool := match mode with SizeFullscreen => true | _ => false end.

Section view.
  Context (vs : ViewState).
Local Abbreviation gaps := vs.(vs_gaps).

Definition is_centering_focused_column : bool :=
  match vs.(vs_center) with CenterAlways => true | _ => false end ||
  (vs.(vs_always_center_single) && (length vs.(vs_columns) <=? 1)).

Definition column_x (i : nat) : option f64 := column_xs gaps f64_zero (cv_width <$> vs.(vs_columns)) !! i.

(** The area a column is aligned with, and the space on each side of the column in it. *)
Definition column_area (col : ColumnView) : Area :=
  if is_maximized col.(cv_mode) then vs.(vs_parent) else vs.(vs_working).

Definition column_slack (col : ColumnView) : f64 :=
  f64_div (f64_sub (column_area col).(ar_w) col.(cv_width)) (f64_of_Z 2).

Definition column_padding (col : ColumnView) : option f64 :=
  if is_maximized col.(cv_mode) then Some f64_zero else f64_clamp (column_slack col) f64_zero gaps.

Definition column_center (x : f64) (col : ColumnView) : f64 :=
  let area := column_area col in
  if f64_leb area.(ar_w) col.(cv_width) then f64_sub x area.(ar_x)
  else f64_sub (f64_sub x (column_slack col)) area.(ar_x).

(** ** Snapping points *)
Fixpoint centering_snaps (i : nat) (x : f64) (columns : list ColumnView) : list Snap :=
  match columns with
  | [] => []
  | col :: columns =>
      MkSnap (if is_fullscreen col.(cv_mode) then x else column_center x col) i
      :: centering_snaps (S i) (f64_add x (f64_add col.(cv_width) gaps)) columns
  end.

(** A neighbour does not fit next to the column. *)
Definition is_overflowing (col : ColumnView) (neighbour : option ColumnView) : bool :=
  match vs.(vs_center), neighbour with
  | CenterOnOverflow, Some n =>
      f64_ltb (column_area col).(ar_w)
        (f64_add (f64_add n.(cv_width) (f64_mul (f64_of_Z 3) gaps)) col.(cv_width))
  | _, _ => false
  end.

(** The closure [snap_points]: the view positions at which the column is at the left, and the right
    end of the view at which it is at the right. *)
Definition snap_points (x : f64) (col : ColumnView) (prev next : option ColumnView) : option (f64 * f64) :=
  let area := column_area col in
  let left_strut := area.(ar_x) in
  let right_strut := f64_sub (f64_sub vs.(vs_view_w) area.(ar_w)) area.(ar_x) in
  if is_fullscreen col.(cv_mode) then Some (x, f64_add x col.(cv_width))
  else
    padding ← column_padding col;
    let center := column_center x col in
    Some (if is_overflowing col next then center else f64_sub (f64_sub x padding) left_strut,
          if is_overflowing col prev then f64_add center vs.(vs_view_w)
          else f64_add (f64_add (f64_add x col.(cv_width)) padding) right_strut).

Definition previous (i : nat) : option ColumnView :=
  match i with O => None | S i => vs.(vs_columns) !! i end.

(** Points between those of the first and the last column. *)
Definition inner_snap (leftmost rightmost : f64) (i : nat) (pos : f64) : list Snap :=
  if f64_ltb leftmost pos && f64_ltb pos rightmost then [MkSnap pos i] else [].

Fixpoint inner_snaps (leftmost rightmost : f64) (i : nat) (x : f64) (columns : list ColumnView) : option (list Snap) :=
  match columns with
  | [] => Some []
  | col :: columns =>
      r ← snap_points x col (previous i) (vs.(vs_columns) !! S i);
      l ← inner_snaps leftmost rightmost (S i) (f64_add x (f64_add col.(cv_width) gaps)) columns;
      Some (inner_snap leftmost rightmost i (fst r) ++
            inner_snap leftmost rightmost i (f64_sub (snd r) vs.(vs_view_w)) ++ l)
  end.

Definition fitting_snaps : option (list Snap) :=
  first ← vs.(vs_columns) !! 0;
  r ← snap_points f64_zero first None (vs.(vs_columns) !! 1);
  let leftmost := fst r in
  let last_idx := length vs.(vs_columns) - 1 in
  let last_x := foldl (λ x col, f64_add (f64_add x col.(cv_width)) gaps) f64_zero (take last_idx vs.(vs_columns)) in
  last ← vs.(vs_columns) !! last_idx;
  r ← snap_points last_x last (previous last_idx) None;
  let rightmost := f64_sub (snd r) vs.(vs_view_w) in
  l ← inner_snaps leftmost rightmost 0 f64_zero vs.(vs_columns);
  Some (MkSnap leftmost 0 :: MkSnap rightmost last_idx :: l).

Definition snapping_points : option (list Snap) :=
  if is_centering_focused_column then Some (centering_snaps 0 f64_zero vs.(vs_columns)) else fitting_snaps.

(** [sort_by_key], which is stable, over keys that are numbers. *)
Fixpoint insert_snap (s : Snap) (l : list Snap) : list Snap :=
  match l with
  | [] => [s]
  | t :: l => if f64_leb s.(sn_pos) t.(sn_pos) then s :: t :: l else t :: insert_snap s l
  end.

Definition sort_snaps (l : list Snap) : option (list Snap) :=
  _ ← mapM (λ s, not_nan s.(sn_pos)) l; Some (foldr insert_snap [] l).

(** ** The column the gesture ends at *)

(** Goes on while columns fit. *)
Fixpoint furthest (fits : nat → option bool) (col_idx : nat) (l : list nat) : option nat :=
  match l with
  | [] => Some col_idx
  | i :: l => b ← fits i; if (b : bool) then furthest fits i l else Some col_idx
  end.

Definition fits_right (pos : f64) (i : nat) : option bool :=
  col ← vs.(vs_columns) !! i;
  x ← column_x i;
  let area := column_area col in
  if is_fullscreen col.(cv_mode) then
    Some (negb (f64_ltb (f64_add pos vs.(vs_view_w)) (f64_add x col.(cv_width))))
  else
    padding ← column_padding col;
    Some (negb (f64_ltb (f64_add (f64_add pos area.(ar_x)) area.(ar_w)) (f64_add (f64_add x col.(cv_width)) padding))).

Definition fits_left (pos : f64) (i : nat) : option bool :=
  col ← vs.(vs_columns) !! i;
  x ← column_x i;
  if is_fullscreen col.(cv_mode) then Some (negb (f64_ltb x pos))
  else
    padding ← column_padding col;
    Some (negb (f64_ltb (f64_sub x padding) (f64_add pos (column_area col).(ar_x)))).

(** ** View offsets of columns *)

(** The function [compute_new_view_offset]. *)
Definition compute_new_view_offset (cur_x view_width col_x col_width max_padding : f64) : option f64 :=
  if f64_leb view_width col_width then Some f64_zero
  else
    padding ← f64_clamp (f64_div (f64_sub view_width col_width) (f64_of_Z 2)) f64_zero max_padding;
    let new_x := f64_sub col_x padding in
    let new_right_x := f64_add (f64_add col_x col_width) padding in
    if f64_leb cur_x new_x && f64_leb new_right_x (f64_add cur_x view_width)
    then Some (f64_neg (f64_sub col_x cur_x))
    else if f64_leb (f64_abs (f64_sub cur_x new_x)) (f64_abs (f64_sub (f64_add cur_x view_width) new_right_x))
    then Some (f64_neg padding)
    else Some (f64_neg (f64_sub (f64_sub view_width padding) col_width)).

(** In the following, [target_x] is where the view is or is moving to. *)
Definition compute_new_view_offset_fit (target_x col_x : f64) (col : ColumnView) : option f64 :=
  if is_fullscreen col.(cv_mode) then Some f64_zero
  else
    let area := column_area col in
    let padding := if is_maximized col.(cv_mode) then f64_zero else gaps in
    offset ← compute_new_view_offset (f64_add target_x area.(ar_x)) area.(ar_w) col_x col.(cv_width) padding;
    Some (f64_sub offset area.(ar_x)).

Definition compute_new_view_offset_centered (target_x col_x : f64) (col : ColumnView) : option f64 :=
  let area := column_area col in
  if is_fullscreen col.(cv_mode) || f64_leb area.(ar_w) col.(cv_width)
  then compute_new_view_offset_fit target_x col_x col
  else Some (f64_sub (f64_div (f64_neg (f64_sub area.(ar_w) col.(cv_width))) (f64_of_Z 2)) area.(ar_x)).

(** The column and its neighbour in the direction of the previous one take more than the view. *)
Definition overflows_with (source_x source_w col_x col_w : f64) : bool :=
  let width := if f64_ltb source_x col_x then f64_add (f64_sub col_x source_x) col_w
               else f64_add (f64_sub source_x col_x) source_w in
  negb (f64_leb (f64_add width (f64_mul gaps (f64_of_Z 2))) vs.(vs_working).(ar_w)).

Definition compute_new_view_offset_for_column (target_x : f64) (idx : nat) (prev_idx : option nat) : option f64 :=
  col ← vs.(vs_columns) !! idx;
  col_x ← column_x idx;
  let fit := compute_new_view_offset_fit target_x col_x col in
  let centered := compute_new_view_offset_centered target_x col_x col in
  if is_centering_focused_column then centered
  else
    match vs.(vs_center), prev_idx with
    | CenterAlways, _ => centered
    | CenterOnOverflow, Some prev =>
        if prev =? idx then fit
        else
          let source_idx := if idx <? prev then Nat.min (idx + 1) (length vs.(vs_columns) - 1) else idx - 1 in
          source ← vs.(vs_columns) !! source_idx;
          source_x ← column_x source_idx;
          if overflows_with source_x source.(cv_width) col_x col.(cv_width) then centered else fit
    | _, _ => fit
    end.

(** [animate_view_offset_with_config] for the active column, and not while something is dragged:
    where an animation to [target] ends then. *)
Definition animate_view_offset (x target new_view_offset : f64) : f64 :=
  let target := f64_add target (f64_sub x x) in
  let to_diff := f64_sub new_view_offset target in
  if f64_ltb (f64_abs to_diff) (f64_div f64_one vs.(vs_scale)) then f64_add target to_diff
  else new_view_offset.

(** The snapping point and the new active column and view offset, once its animation is over. *)
Record GestureEnd := MkGestureEnd { gn_snap : Snap; gn_col : nat; gn_offset : f64 }.

(** The rest of [view_offset_gesture_end] once the offsets of the view are known, now and where the
    gesture would stop. *)
Definition view_gesture_end (current target : f64) : option GestureEnd :=
  points ← snapping_points;
  sorted ← sort_snaps points;
  active_x ← column_x vs.(vs_active);
  r ← closest (f64_add active_x target) (sn_pos <$> sorted);
  snap ← sorted !! fst r;
  let col_idx := snap.(sn_col) in
  new_idx ← (if is_centering_focused_column then Some col_idx
             else if f64_leb current target
             then furthest (fits_right snap.(sn_pos)) col_idx (seq (col_idx + 1) (length vs.(vs_columns) - (col_idx + 1)))
             else furthest (fits_left snap.(sn_pos)) col_idx (rev (seq 0 col_idx)));
  new_x ← column_x new_idx;
  let target_offset := f64_sub snap.(sn_pos) new_x in
  offset ← compute_new_view_offset_for_column (f64_add new_x target_offset) new_idx None;
  Some (MkGestureEnd snap new_idx (animate_view_offset new_x target_offset offset)).

End view.

(** ** Lemmas on positions *)
Definition number (x : f64) : Prop := f64_is_nan x = false.

Lemma column_xs_length gaps x widths : length (column_xs gaps x widths) = S (length widths).
Proof. revert x. induction widths as [|w widths IH]; intros x; [done|]. cbn. by rewrite IH. Qed.

Lemma column_xs_number gaps x widths :
  number x → Forall (λ w, f64_finite (f64_add w gaps) = true) widths → Forall number (column_xs gaps x widths).
Proof.
  revert x. induction widths as [|w widths IH]; intros x Hx; cbn; [by repeat constructor|].
  intros [Hw Hws]%Forall_cons. constructor; [done|]. apply IH; [by apply f64_add_not_nan|done].
Qed.

Lemma distance_number v x : number v → f64_finite x = true → number (distance v x).
Proof. intros. unfold number, distance. rewrite f64_abs_not_nan. by apply f64_sub_not_nan. Qed.

(** ** The closest gap *)
Lemma imap_pair_lookup {A} (l : list A) k i v : (i, v) ∈ imap (λ j, pair (k + j)) l ↔ k ≤ i ∧ l !! (i - k) = Some v.
Proof.
  rewrite list_elem_of_lookup. setoid_rewrite list_lookup_imap_Some. split.
  - intros (j & w & Hw & [= -> ->]). split; [lia|]. by replace (k + j - k) with j by lia.
  - intros [Hk Hv]. exists (i - k), v. split; [done|]. f_equal. lia.
Qed.

(** The fold keeps an element of the list, at most as far as any. *)
Lemma foldl_closer x a l :
  f64_finite x = true → number (snd a) → Forall (λ p, number (snd p)) l →
  foldl (closer x) a l ∈ a :: l ∧
  ∀ b, b ∈ a :: l → f64_leb (distance (snd (foldl (closer x) a l)) x) (distance (snd b) x) = true.
Proof.
  intros Hx. revert a. induction l as [|b l IH]; intros a Ha; cbn [foldl].
  { intros _. split; [by left|]. intros b ->%list_elem_of_singleton. by apply f64_leb_refl, distance_number. }
  intros [Hb Hl]%Forall_cons.
  assert (Hc : number (snd (closer x a b))) by (unfold closer; by case_match).
  destruct (IH (closer x a b) Hc Hl) as [IH1 IH2].
  set (r := foldl (closer x) (closer x a b) l) in *.
  assert (Hr : number (snd r)).
  { apply elem_of_cons in IH1 as [->|H]; [done|]. rewrite Forall_forall in Hl. by apply Hl. }
  assert (Hab : f64_leb (distance (snd (closer x a b)) x) (distance (snd a) x) = true ∧
                f64_leb (distance (snd (closer x a b)) x) (distance (snd b) x) = true).
  { pose proof (distance_number _ _ Ha Hx). pose proof (distance_number _ _ Hb Hx). unfold closer.
    destruct (f64_ltb (distance (snd b) x) (distance (snd a) x)) eqn:E;
      split; auto using f64_ltb_leb, f64_leb_refl, f64_ltb_false. }
  assert (Hfar : ∀ p : nat * f64, number (snd p) → f64_leb (distance (snd (closer x a b)) x) (distance (snd p) x) = true →
            f64_leb (distance (snd r) x) (distance (snd p) x) = true).
  { intros p Hp Hle. eapply f64_leb_trans; [..|apply IH2; by left|exact Hle]; by apply distance_number. }
  split.
  - apply elem_of_cons in IH1 as [E|H]; [|by right; right]. rewrite E. unfold closer. case_match; set_solver.
  - intros p [->|[->|Hp]%elem_of_cons]%elem_of_cons; [by apply Hfar, Hab|by apply Hfar, Hab|]. apply IH2. by right.
Qed.

(** Before the element it keeps, all are farther away. *)
Lemma foldl_closer_first x a l b :
  f64_finite x = true → Forall (λ p, number (snd p)) (a :: l) → StronglySorted (λ p q, fst p < fst q) (a :: l) →
  b ∈ a :: l → fst b < fst (foldl (closer x) a l) →
  f64_ltb (distance (snd (foldl (closer x) a l)) x) (distance (snd b) x) = true.
Proof.
  intros Hx. revert a b. induction l as [|c l IH]; intros a b Hn Hs Hb Hlt; cbn [foldl] in *.
  { apply list_elem_of_singleton in Hb as ->. lia. }
  apply StronglySorted_inv in Hs as [Hs Ha]. pose proof Hn as [Ha' [Hc Hl]%Forall_cons]%Forall_cons.
  pose proof (distance_number _ _ Ha' Hx) as Da. pose proof (distance_number _ _ Hc Hx) as Dc.
  apply Forall_cons in Ha as [Hac Hal].
  assert (Hrn : ∀ p, number (snd p) → number (distance (snd (foldl (closer x) p l)) x)).
  { intros p Hp. apply distance_number; [|done].
    destruct (foldl_closer x p l Hx Hp Hl) as [[->|H]%elem_of_cons _]; [done|]. rewrite Forall_forall in Hl. by apply Hl. }
  assert (E : closer x a c = c ∧ f64_ltb (distance (snd c) x) (distance (snd a) x) = true ∨
              closer x a c = a ∧ f64_ltb (distance (snd c) x) (distance (snd a) x) = false)
    by (unfold closer; case_match; auto).
  destruct E as [[E0 E]|[E0 E]]; rewrite E0 in Hlt |- *.
  - apply elem_of_cons in Hb as [->|Hb]; [|apply IH; auto].
    destruct (foldl_closer x c l Hx Hc Hl) as [_ Hmin]. eapply f64_leb_ltb_trans; [by apply Hrn|exact Dc|exact Da|by apply Hmin; left|exact E].
  - assert (Hsa : StronglySorted (λ p q : nat * f64, fst p < fst q) (a :: l))
      by (apply StronglySorted_inv in Hs as [Hs _]; by constructor).
    assert (Hna : Forall (λ p : nat * f64, number (snd p)) (a :: l)) by by constructor.
    apply elem_of_cons in Hb as [->|[->|Hb]%elem_of_cons]; [apply IH; [done..|by left|done]| |apply IH; [done..|by right|done]].
    eapply f64_ltb_leb_trans; [by apply Hrn|exact Da|exact Dc| |by apply f64_ltb_false].
    apply IH; [done..|by left|lia].
Qed.

Lemma imap_pair_sorted {A} (l : list A) : StronglySorted (λ p q, fst p < fst q) (imap pair l).
Proof.
  change (imap pair l) with (imap (λ j, pair (0 + j)) l). generalize 0.
  induction l as [|v l IH]; intros k; cbn; [constructor|].
  assert (E : imap ((λ j, pair (k + j)) ∘ S) l = imap (λ j, pair (S k + j)) l)
    by (apply imap_ext; intros; cbn; f_equal; lia).
  rewrite E. constructor; [apply IH|]. apply Forall_forall. intros [i w] [Hi _]%imap_pair_lookup. cbn. lia.
Qed.

(** The closest element is the first such one. *)
Definition first_closest (x : f64) (l : list f64) (i : nat) (v : f64) : Prop :=
  l !! i = Some v ∧ (∀ u, u ∈ l → f64_leb (distance v x) (distance u x) = true) ∧
  ∀ j u, j < i → l !! j = Some u → f64_ltb (distance v x) (distance u x) = true.

Lemma closest_runs x l :
  f64_finite x = true → Forall number l → l ≠ [] →
  runs (closest x l) (λ r, first_closest x l (fst r) (snd r)).
Proof.
  intros Hx Hl Hne. unfold closest.
  assert (Hm : ∃ ds, mapM (λ v, not_nan (distance v x)) l = Some ds).
  { apply mapM_is_Some. eapply Forall_impl; [exact Hl|]. intros v Hv. cbn.
    unfold not_nan. rewrite (distance_number v x Hv Hx). by eexists. }
  destruct Hm as [ds ->]. cbn [mbind option_bind]. destruct l as [|v l]; [done|].
  assert (Hin : ∀ p, p ∈ imap pair (v :: l) ↔ (v :: l) !! fst p = Some (snd p)).
  { intros [i w]. change (imap pair (v :: l)) with (imap (λ j, pair (0 + j)) (v :: l)).
    rewrite imap_pair_lookup, Nat.sub_0_r. cbn. split; [by intros []|]. split; [lia|done]. }
  pose proof (imap_pair_sorted (v :: l)) as Hsorted.
  cbn [imap] in *. set (ps := imap (pair ∘ S) l) in *.
  assert (Hnum : Forall (λ p : nat * f64, number (snd p)) ((0, v) :: ps)).
  { apply Forall_forall. intros p Hp%Hin%list_elem_of_lookup_2. rewrite Forall_forall in Hl. by apply Hl. }
  pose proof Hnum as [H0 Hps]%Forall_cons. apply runs_ret.
  destruct (foldl_closer x (0, v) ps Hx H0 Hps) as [Hmem Hmin]. split_and!.
  - by apply Hin.
  - intros w Hw. apply list_elem_of_lookup in Hw as [i Hi]. apply (Hmin (i, w)). by apply Hin.
  - intros i w Hi Hw. apply (foldl_closer_first x (0, v) ps (i, w)); [done..|by apply Hin|done].
Qed.


(** ** View gestures end *)

(** Sizes are finite, gaps are not negative, the active column exists and the gesture would stop at
    a finite position. *)
Record view_state_ok (vs : ViewState) (target : f64) : Prop := {
  vk_active : vs.(vs_active) < length vs.(vs_columns);
  vk_gaps : f64_leb f64_zero vs.(vs_gaps) = true ∧ f64_finite vs.(vs_gaps) = true;
  vk_view : f64_finite vs.(vs_view_w) = true;
  vk_columns : Forall (λ col,
    f64_finite col.(cv_width) = true ∧ f64_finite (f64_add col.(cv_width) vs.(vs_gaps)) = true ∧
    f64_finite (column_area vs col).(ar_x) = true ∧ f64_finite (column_slack vs col) = true ∧
    f64_finite (f64_sub (f64_sub vs.(vs_view_w) (column_area vs col).(ar_w)) (column_area vs col).(ar_x)) = true)
    vs.(vs_columns);
  vk_target x : column_x vs vs.(vs_active) = Some x → f64_finite (f64_add x target) = true
}.

(** A point at a number, for a column that exists. *)
Definition snap_ok (vs : ViewState) (s : Snap) : Prop := number s.(sn_pos) ∧ s.(sn_col) < length vs.(vs_columns).

Section ends.
  Context (vs : ViewState) (target : f64) (Hok : view_state_ok vs target).
Local Abbreviation n := (length vs.(vs_columns)).

Lemma column_sizes i col :
  vs.(vs_columns) !! i = Some col →
  f64_finite col.(cv_width) = true ∧ f64_finite (f64_add col.(cv_width) vs.(vs_gaps)) = true ∧
  f64_finite (column_area vs col).(ar_x) = true ∧ f64_finite (column_slack vs col) = true ∧
  f64_finite (f64_sub (f64_sub vs.(vs_view_w) (column_area vs col).(ar_w)) (column_area vs col).(ar_x)) = true.
Proof using Hok. pose proof (vk_columns _ _ Hok) as H. rewrite Forall_lookup in H. apply H. Qed.

Lemma column_x_runs i : i < n → runs (column_x vs i) (λ _, True).
Proof.
  intros Hi. unfold column_x. destruct (lookup_lt_is_Some_2 (column_xs vs.(vs_gaps) f64_zero (cv_width <$> vs.(vs_columns))) i)
    as [x ->]; [rewrite column_xs_length, length_fmap; lia|by apply runs_ret].
Qed.

Lemma column_padding_runs i col :
  vs.(vs_columns) !! i = Some col → runs (column_padding vs col) (λ p, f64_finite p = true).
Proof using Hok.
  intros Hi. destruct (column_sizes i col Hi) as (_ & _ & _ & Hs & _). destruct (vk_gaps _ _ Hok) as [Hg Hgf].
  unfold column_padding. destruct (is_maximized _); [by apply runs_ret|]. unfold f64_clamp. rewrite Hg. apply runs_ret.
  repeat case_match; done.
Qed.

Lemma column_center_number x i col :
  vs.(vs_columns) !! i = Some col → number x → number (column_center vs x col).
Proof using Hok.
  intros Hi Hx. destruct (column_sizes i col Hi) as (_ & _ & Ha & Hs & _). unfold column_center.
  case_match; by repeat apply f64_sub_not_nan.
Qed.

Lemma snap_points_runs x i col prev next :
  vs.(vs_columns) !! i = Some col → number x →
  runs (snap_points vs x col prev next) (λ r, number (fst r) ∧ number (snd r)).
Proof using Hok.
  intros Hi Hx. destruct (column_sizes i col Hi) as (Hw & _ & Ha & Hs & Hr). unfold snap_points.
  destruct (is_fullscreen _); [apply runs_ret; split; [done|by apply f64_add_not_nan]|].
  eapply runs_bind; [by eapply column_padding_runs|]. intros p Hp. apply runs_ret. cbn [fst snd]. split.
  - case_match; [by eapply column_center_number|by repeat apply f64_sub_not_nan].
  - case_match; [|by repeat apply f64_add_not_nan].
    apply f64_add_not_nan; [by eapply column_center_number|apply (vk_view _ _ Hok)].
Qed.

Lemma step_number x i col : vs.(vs_columns) !! i = Some col → number x → number (f64_add x (f64_add col.(cv_width) vs.(vs_gaps))).
Proof using Hok. intros Hi Hx. destruct (column_sizes i col Hi) as (_ & Hw & _). by apply f64_add_not_nan. Qed.

(** *** The snapping points *)
Lemma centering_snaps_ok k x l :
  drop k vs.(vs_columns) = l → number x → Forall (snap_ok vs) (centering_snaps vs k x l) ∧ length (centering_snaps vs k x l) = length l.
Proof using Hok.
  revert k x. induction l as [|col l IH]; intros k x Hl Hx; cbn [centering_snaps]; [split; [constructor|done]|].
  assert (Hk : vs.(vs_columns) !! k = Some col).
  { rewrite <- (Nat.add_0_r k), <- lookup_drop, Hl. done. }
  destruct (IH (S k) (f64_add x (f64_add col.(cv_width) vs.(vs_gaps)))) as [H1 H2].
  { by rewrite <- Nat.add_1_r, <- drop_drop, Hl. }
  { by eapply step_number. }
  split; [|cbn; by rewrite H2]. constructor; [|done]. split; [|by eapply lookup_lt_Some]. cbn.
  case_match; [done|by eapply column_center_number].
Qed.

Lemma inner_snap_ok lo hi i pos : i < n → number pos → Forall (snap_ok vs) (inner_snap lo hi i pos).
Proof. intros Hi Hp. unfold inner_snap. case_match; by repeat constructor. Qed.

Lemma inner_snaps_runs lo hi k x l :
  drop k vs.(vs_columns) = l → number x → runs (inner_snaps vs lo hi k x l) (Forall (snap_ok vs)).
Proof using Hok.
  revert k x. induction l as [|col l IH]; intros k x Hl Hx; cbn [inner_snaps]; [by apply runs_ret|].
  assert (Hk : vs.(vs_columns) !! k = Some col).
  { rewrite <- (Nat.add_0_r k), <- lookup_drop, Hl. done. }
  eapply runs_bind; [by eapply snap_points_runs|]. intros r [H1 H2].
  eapply runs_bind; [apply IH; [by rewrite <- Nat.add_1_r, <- drop_drop, Hl|by eapply step_number]|].
  intros l' Hl'. apply runs_ret. pose proof (lookup_lt_Some _ _ _ Hk) as Hlt.
  apply Forall_app_2; [by apply inner_snap_ok|]. apply Forall_app_2; [|done].
  apply inner_snap_ok; [done|]. apply f64_sub_not_nan; [done|apply (vk_view _ _ Hok)].
Qed.

Lemma last_x_number l x :
  number x → l ⊆ vs.(vs_columns) → number (foldl (λ x col, f64_add (f64_add x col.(cv_width)) vs.(vs_gaps)) x l).
Proof using Hok.
  revert x. induction l as [|col l IH]; intros x Hx Hl; cbn [foldl]; [done|]. apply IH; [|set_solver].
  assert (Hc : col ∈ vs.(vs_columns)) by set_solver. apply list_elem_of_lookup in Hc as [i Hi].
  destruct (column_sizes i col Hi) as (Hw & _). destruct (vk_gaps _ _ Hok) as [_ Hg].
  by repeat apply f64_add_not_nan.
Qed.

Lemma snapping_points_runs : runs (snapping_points vs) (λ l, Forall (snap_ok vs) l ∧ l ≠ []).
Proof using Hok.
  pose proof (vk_active _ _ Hok) as Ha. unfold snapping_points. destruct (is_centering_focused_column vs).
  - apply runs_ret. destruct (centering_snaps_ok 0 f64_zero vs.(vs_columns) (drop_0 _) eq_refl) as [H1 H2].
    split; [done|]. intros E. rewrite E in H2. cbn in H2. lia.
  - unfold fitting_snaps. destruct (lookup_lt_is_Some_2 vs.(vs_columns) 0) as [first Hf]; [lia|].
    rewrite Hf. cbn [mbind option_bind]. eapply runs_bind; [by eapply snap_points_runs|]. intros r1 [H1 _].
    destruct (lookup_lt_is_Some_2 vs.(vs_columns) (n - 1)) as [last Hl]; [lia|]. rewrite Hl. cbn [mbind option_bind].
    eapply runs_bind; [eapply snap_points_runs; [exact Hl|]|].
    { apply last_x_number; [done|]. intros c Hc. by apply elem_of_take in Hc as (i & Hi%list_elem_of_lookup_2 & _). }
    intros r2 [_ H2]. eapply runs_bind; [by eapply inner_snaps_runs; [apply drop_0|]|]. intros l Hl'. apply runs_ret.
    split; [|done]. constructor; [split; [done|cbn; lia]|]. constructor; [|done]. split; [|cbn; lia]. cbn.
    apply f64_sub_not_nan; [done|apply (vk_view _ _ Hok)].
Qed.
End ends.

Lemma insert_snap_perm s l : insert_snap s l ≡ₚ s :: l.
Proof. induction l as [|t l IH]; cbn; [done|]. case_match; [done|]. rewrite IH. apply perm_swap. Qed.

Lemma sort_snaps_runs l : Forall (λ s, number s.(sn_pos)) l → runs (sort_snaps l) (λ l', l' ≡ₚ l).
Proof.
  intros Hl. unfold sort_snaps.
  assert (Hm : ∃ ds, mapM (λ s, not_nan s.(sn_pos)) l = Some ds).
  { apply mapM_is_Some. eapply Forall_impl; [exact Hl|]. intros s Hs. cbn. unfold not_nan. rewrite Hs. by eexists. }
  destruct Hm as [ds ->]. apply runs_ret. clear. induction l as [|s l IH]; cbn; [done|]. by rewrite insert_snap_perm, IH.
Qed.

(** *** How far the focus goes *)
Lemma furthest_runs fits k l :
  Forall (λ i, is_Some (fits i)) l →
  runs (furthest fits k l) (λ r, ∃ p, p ≤ length l ∧ last (k :: take p l) = Some r ∧
    Forall (λ i, fits i = Some true) (take p l) ∧ (∀ i, l !! p = Some i → fits i = Some false)).
Proof.
  revert k. induction l as [|i l IH]; intros k; cbn [furthest]; [intros _; apply runs_ret; by exists 0|].
  intros [[b Hb] Hl]%Forall_cons. rewrite Hb. cbn [mbind option_bind]. destruct b.
  - eapply runs_weaken; [by apply IH|]. intros r (p & Hp & Hlast & Hf & Hn). exists (S p).
    split_and!; [cbn; lia|done|by constructor|done].
  - apply runs_ret. exists 0. split_and!; [lia|done|constructor|]. by intros j [= <-].
Qed.

Lemma last_seq k p : last (k :: seq (k + 1) p) = Some (k + p).
Proof.
  revert k. induction p as [|p IH]; intros k; [cbn; f_equal; lia|]. cbn [seq]. rewrite last_cons_cons.
  replace (S (k + 1)) with ((k + 1) + 1) by lia. rewrite IH. f_equal. lia.
Qed.

Lemma rev_seq_lookup k i : rev (seq 0 k) !! i = if decide (i < k) then Some (k - S i) else None.
Proof.
  assert (E : rev (seq 0 k) = reverse (seq 0 k)) by apply rev_alt. rewrite E. case_decide as Hi.
  - rewrite reverse_lookup by (by rewrite length_seq). rewrite length_seq. apply lookup_seq_lt. lia.
  - apply lookup_ge_None. rewrite length_reverse, length_seq. lia.
Qed.

(** The columns up to [r] fit, and the next one does not. *)
Lemma furthest_right_runs fits k n :
  k < n → (∀ i, i < n → is_Some (fits i)) →
  runs (furthest fits k (seq (k + 1) (n - (k + 1)))) (λ r, k ≤ r < n ∧
    (∀ i, k < i ≤ r → fits i = Some true) ∧ (S r < n → fits (S r) = Some false)).
Proof.
  intros Hk Hf. eapply runs_weaken; [apply furthest_runs, Forall_forall; intros i [_ Hi]%elem_of_seq; apply Hf; lia|].
  intros r (p & Hp & Hlast & Hall & Hn). rewrite length_seq in Hp. rewrite take_seq in Hlast, Hall.
  replace (p `min` (n - (k + 1))) with p in * by lia. rewrite last_seq in Hlast. injection Hlast as <-.
  split_and!; [lia|lia| |].
  - intros i Hi. rewrite Forall_forall in Hall. apply Hall, elem_of_seq. lia.
  - intros Hlt. apply Hn. rewrite lookup_seq_lt by lia. f_equal. lia.
Qed.

Lemma furthest_left_runs fits k :
  (∀ i, i < k → is_Some (fits i)) →
  runs (furthest fits k (rev (seq 0 k))) (λ r, r ≤ k ∧
    (∀ i, r ≤ i < k → fits i = Some true) ∧ (∀ i, r = S i → fits i = Some false)).
Proof.
  intros Hf. eapply runs_weaken; [apply furthest_runs, Forall_lookup; intros i x Hi|].
  { rewrite rev_seq_lookup in Hi. case_decide; [|done]. injection Hi as <-. apply Hf. lia. }
  intros r (p & Hp & Hlast & Hall & Hn). rewrite length_rev, length_seq in Hp.
  assert (Hr : r = k - p).
  { destruct p as [|p]; [cbn in Hlast; injection Hlast; lia|].
    rewrite last_lookup in Hlast. cbn [length pred] in Hlast. rewrite length_take, length_rev, length_seq in Hlast.
    replace (S p `min` k) with (S p) in Hlast by lia.
    change ((k :: take (S p) (rev (seq 0 k))) !! S p) with (take (S p) (rev (seq 0 k)) !! p) in Hlast.
    rewrite lookup_take_lt, rev_seq_lookup in Hlast by lia. rewrite decide_True in Hlast by lia. injection Hlast. lia. }
  subst r. split_and!; [lia| |].
  - intros i Hi. rewrite Forall_lookup in Hall. apply (Hall (k - S i)).
    rewrite lookup_take_lt, rev_seq_lookup by lia. rewrite decide_True by lia. f_equal. lia.
  - intros i Hi. apply Hn. rewrite rev_seq_lookup, decide_True by lia. f_equal. lia.
Qed.

(** Where the gesture would stop, in the coordinates of the columns. *)
Definition goal_of (vs : ViewState) (target : f64) : f64 :=
  match column_x vs vs.(vs_active) with Some x => f64_add x target | None => f64_zero end.

(** What a gesture ends at: the closest snapping point, and the furthest column that fits then. *)
Definition ends_at (vs : ViewState) (current target : f64) (snap : Snap) (idx : nat) : Prop :=
  let fits := if f64_leb current target then fits_right vs else fits_left vs in
  (∃ points, snapping_points vs = Some points ∧ snap ∈ points ∧
    ∀ p, p ∈ points → f64_leb (distance snap.(sn_pos) (goal_of vs target)) (distance p.(sn_pos) (goal_of vs target)) = true) ∧
  if is_centering_focused_column vs then idx = snap.(sn_col)
  else if f64_leb current target then
    snap.(sn_col) ≤ idx ∧ (∀ i, snap.(sn_col) < i ≤ idx → fits snap.(sn_pos) i = Some true) ∧
    (S idx < length vs.(vs_columns) → fits snap.(sn_pos) (S idx) = Some false)
  else
    idx ≤ snap.(sn_col) ∧ (∀ i, idx ≤ i < snap.(sn_col) → fits snap.(sn_pos) i = Some true) ∧
    (∀ i, idx = S i → fits snap.(sn_pos) i = Some false).

(** ** Where the view rests *)

(** The edges of a column with padding on both sides are visible in an area of width [w] at [cur_x]. *)
Definition visible_in (cur_x w x width padding : f64) : Prop :=
  f64_leb cur_x (f64_sub x padding) = true ∧
  f64_leb (f64_add (f64_add x width) padding) (f64_add cur_x w) = true.

(** How far the left edges are apart, and the right ones. *)
Definition off_left (cur_x x padding : f64) : f64 := f64_abs (f64_sub cur_x (f64_sub x padding)).
Definition off_right (cur_x w x width padding : f64) : f64 :=
  f64_abs (f64_sub (f64_add cur_x w) (f64_add (f64_add x width) padding)).

(** The offset of an area from the start [x] of a column narrower than it: the area stays at [cur_x]
    if the column is visible with its padding, and moves to the nearer side of it otherwise. *)
Inductive fits_at (cur_x w x width padding : f64) : f64 → Prop :=
  | fits_visible :
      visible_in cur_x w x width padding →
      fits_at cur_x w x width padding (f64_neg (f64_sub x cur_x))
  | fits_at_left :
      ¬ visible_in cur_x w x width padding →
      f64_leb (off_left cur_x x padding) (off_right cur_x w x width padding) = true →
      fits_at cur_x w x width padding (f64_neg padding)
  | fits_at_right :
      ¬ visible_in cur_x w x width padding →
      f64_leb (off_left cur_x x padding) (off_right cur_x w x width padding) = false →
      fits_at cur_x w x width padding (f64_neg (f64_sub (f64_sub w padding) width)).

(** The offset of the view from the start [x] of a column that is focused while the view goes to
    [view_x].  A fullscreen column is at the left of the view.  Any other is placed in its area: at
    the left if it is at least as wide, in the middle if the focused column is centered, and as above
    otherwise. *)
Inductive rests (vs : ViewState) (view_x x : f64) (col : ColumnView) : f64 → Prop :=
  | rests_fullscreen : is_fullscreen col.(cv_mode) = true → rests vs view_x x col f64_zero
  | rests_wide :
      is_fullscreen col.(cv_mode) = false →
      f64_leb (column_area vs col).(ar_w) col.(cv_width) = true →
      rests vs view_x x col (f64_sub f64_zero (column_area vs col).(ar_x))
  | rests_centered :
      is_fullscreen col.(cv_mode) = false →
      f64_leb (column_area vs col).(ar_w) col.(cv_width) = false →
      is_centering_focused_column vs = true →
      rests vs view_x x col
        (f64_sub (f64_div (f64_neg (f64_sub (column_area vs col).(ar_w) col.(cv_width))) (f64_of_Z 2))
           (column_area vs col).(ar_x))
  | rests_fitting padding offset :
      is_fullscreen col.(cv_mode) = false →
      f64_leb (column_area vs col).(ar_w) col.(cv_width) = false →
      is_centering_focused_column vs = false →
      f64_clamp (column_slack vs col) f64_zero
        (if is_maximized col.(cv_mode) then f64_zero else vs.(vs_gaps)) = Some padding →
      fits_at (f64_add view_x (column_area vs col).(ar_x)) (column_area vs col).(ar_w) x col.(cv_width)
        padding offset →
      rests vs view_x x col (f64_sub offset (column_area vs col).(ar_x)).

(** Where the view ends after it snapped to [pos] and the column [idx] got focused: where that column
    rests. If that is less than a pixel from the snapping point, the end of the animation is shifted
    by the difference. *)
Definition settles_at (vs : ViewState) (pos : f64) (idx : nat) (offset : f64) : Prop :=
  ∃ col x rest,
    vs.(vs_columns) !! idx = Some col ∧ column_x vs idx = Some x ∧
    rests vs (f64_add x (f64_sub pos x)) x col rest ∧
    let snapped := f64_add (f64_sub pos x) (f64_sub x x) in
    offset = if f64_ltb (f64_abs (f64_sub rest snapped)) (f64_div f64_one vs.(vs_scale))
             then f64_add snapped (f64_sub rest snapped) else rest.

Lemma compute_new_view_offset_runs cur_x w x width padding :
  f64_leb f64_zero padding = true → f64_leb w width = false →
  runs (compute_new_view_offset cur_x w x width padding) (λ o, ∃ p,
    f64_clamp (f64_div (f64_sub w width) (f64_of_Z 2)) f64_zero padding = Some p ∧ fits_at cur_x w x width p o).
Proof.
  intros Hp Hw. unfold compute_new_view_offset. rewrite Hw.
  destruct (f64_clamp _ _ padding) as [p|] eqn:Ep; cbn [mbind option_bind].
  2: { unfold f64_clamp in Ep. rewrite Hp in Ep. by repeat case_match. }
  destruct (f64_leb cur_x _ && _) eqn:Ev.
  - apply andb_true_iff in Ev. apply runs_ret. exists p. split; [done|by constructor].
  - assert (Hn : ¬ visible_in cur_x w x width p) by (intros [H1 H2]; by rewrite H1, H2 in Ev).
    destruct (f64_leb (f64_abs _) _) eqn:E; apply runs_ret; exists p; (split; [done|by constructor]).
Qed.

Lemma compute_new_view_offset_fit_runs vs view_x x col :
  f64_leb f64_zero vs.(vs_gaps) = true →
  f64_leb (column_area vs col).(ar_w) col.(cv_width) = true ∨ is_fullscreen col.(cv_mode) = true ∨
    is_centering_focused_column vs = false →
  runs (compute_new_view_offset_fit vs view_x x col) (rests vs view_x x col).
Proof.
  intros Hg Hc. unfold compute_new_view_offset_fit. destruct (is_fullscreen _) eqn:Ef; [by apply runs_ret; constructor|].
  destruct (f64_leb (ar_w _) _) eqn:Ew.
  { unfold compute_new_view_offset. rewrite Ew. apply runs_ret. by constructor. }
  destruct Hc as [?|[?|Hc]]; [done..|]. eapply runs_bind; [apply compute_new_view_offset_runs; [by case_match|done]|].
  intros o (p & Hp & Ho). apply runs_ret. by eapply rests_fitting.
Qed.

Lemma compute_new_view_offset_for_column_runs vs view_x idx col x :
  f64_leb f64_zero vs.(vs_gaps) = true → vs.(vs_columns) !! idx = Some col → column_x vs idx = Some x →
  runs (compute_new_view_offset_for_column vs view_x idx None) (rests vs view_x x col).
Proof.
  intros Hg Hc Hx. unfold compute_new_view_offset_for_column. rewrite Hc, Hx. cbn [mbind option_bind].
  destruct (is_centering_focused_column vs) eqn:Ec.
  - unfold compute_new_view_offset_centered. destruct (is_fullscreen _) eqn:Ef; cbn [orb].
    { apply compute_new_view_offset_fit_runs; auto. }
    destruct (f64_leb (ar_w _) _) eqn:Ew; [apply compute_new_view_offset_fit_runs; auto|].
    apply runs_ret. by constructor.
  - assert (vs_center vs ≠ CenterAlways) by (intros E; unfold is_centering_focused_column in Ec; by rewrite E in Ec).
    destruct (vs_center vs); [|done|]; apply compute_new_view_offset_fit_runs; auto.
Qed.

Section gesture_end.
  Context (vs : ViewState) (target : f64) (Hok : view_state_ok vs target).

Lemma fits_right_runs pos i : i < length vs.(vs_columns) → is_Some (fits_right vs pos i).
Proof using Hok.
  intros Hi. destruct (lookup_lt_is_Some_2 vs.(vs_columns) i Hi) as [col Hc]. unfold fits_right. rewrite Hc.
  cbn [mbind option_bind]. destruct (column_x_runs vs i Hi) as (x & -> & _). cbn [mbind option_bind].
  destruct (is_fullscreen _); [by eexists|].
  destruct (column_padding_runs vs target Hok i col Hc) as (p & -> & _). by eexists.
Qed.

Lemma fits_left_runs pos i : i < length vs.(vs_columns) → is_Some (fits_left vs pos i).
Proof using Hok.
  intros Hi. destruct (lookup_lt_is_Some_2 vs.(vs_columns) i Hi) as [col Hc]. unfold fits_left. rewrite Hc.
  cbn [mbind option_bind]. destruct (column_x_runs vs i Hi) as (x & -> & _). cbn [mbind option_bind].
  destruct (is_fullscreen _); [by eexists|].
  destruct (column_padding_runs vs target Hok i col Hc) as (p & -> & _). by eexists.
Qed.

Lemma view_gesture_end_runs current :
  runs (view_gesture_end vs current target) (λ r, r.(gn_col) < length vs.(vs_columns) ∧
    ends_at vs current target r.(gn_snap) r.(gn_col) ∧ settles_at vs r.(gn_snap).(sn_pos) r.(gn_col) r.(gn_offset)).
Proof using Hok.
  unfold view_gesture_end. destruct (snapping_points_runs vs target Hok) as (points & Ep & Hp & Hne). rewrite Ep.
  cbn [mbind option_bind]. eapply runs_bind; [apply sort_snaps_runs; eapply Forall_impl; [exact Hp|by intros s []]|].
  intros sorted Hperm. pose proof (vk_active _ _ Hok) as Ha.
  destruct (column_x_runs vs _ Ha) as (ax & Eax & _). rewrite Eax. cbn [mbind option_bind].
  assert (Hsp : Forall (snap_ok vs) sorted) by (by rewrite Hperm).
  eapply runs_bind; [apply closest_runs; [by apply (vk_target _ _ Hok)| |]|].
  { apply Forall_fmap. eapply Forall_impl; [exact Hsp|by intros s []]. }
  { intros E%fmap_nil_inv. rewrite E in Hperm. by apply Permutation_nil_l in Hperm. }
  intros [i v] (Hi & Hmin & _). cbn [fst snd] in *. apply list_lookup_fmap_Some in Hi as (snap & -> & Hi).
  rewrite Hi. cbn [mbind option_bind]. rewrite Forall_lookup in Hsp. destruct (Hsp _ _ Hi) as [_ Hcol].
  assert (Hclosest : ∃ points, snapping_points vs = Some points ∧ snap ∈ points ∧
    ∀ p, p ∈ points → f64_leb (distance snap.(sn_pos) (goal_of vs target)) (distance p.(sn_pos) (goal_of vs target)) = true).
  { exists points. split_and!; [done|rewrite <- Hperm; by eapply list_elem_of_lookup_2|].
    intros p Hpin. unfold goal_of. rewrite Eax. apply Hmin. apply list_elem_of_fmap_2. by rewrite Hperm. }
  eapply (runs_bind _ _ (λ idx, idx < length vs.(vs_columns) ∧ ends_at vs current target snap idx)).
  - unfold ends_at. destruct (is_centering_focused_column vs); [by apply runs_ret|]. destruct (f64_leb current target).
    + eapply runs_weaken; [apply furthest_right_runs; [done|by apply fits_right_runs]|]. intros r ([H1 H2] & H3 & H4).
      split; [done|]. by split_and!.
    + eapply runs_weaken; [apply furthest_left_runs; intros j Hj; apply fits_left_runs; lia|].
      intros r (H1 & H2 & H3). split; [lia|]. by split_and!.
  - intros idx [Hidx He]. destruct (column_x_runs vs idx Hidx) as (x & Ex & _). rewrite Ex. cbn [mbind option_bind].
    destruct (lookup_lt_is_Some_2 _ _ Hidx) as [col Hc]. destruct (vk_gaps _ _ Hok) as [Hg _].
    eapply runs_bind; [by eapply compute_new_view_offset_for_column_runs|]. intros rest Hrest.
    apply runs_ret. split_and!; [done..|]. by exists col, x, rest.
Qed.
End gesture_end.


(** Four columns of width 400 in a view of width 1000 with gaps of 10; the last one is focused. The
    gesture would stop near the start of the second one, and both it and the first would fit. *)
Definition sample_view : ViewState :=
  let area := MkArea f64_zero (f64_of_Z 1000) in
  MkViewState (replicate 4 (MkColumnView (f64_of_Z 400) SizeNormal)) 3 (f64_of_Z 1000) area area (f64_of_Z 10)
    f64_one CenterNever false.

Lemma sample_view_ok : view_state_ok sample_view (f64_of_Z (-850)).
Proof.
  split.
  - cbn. lia.
  - split; vm_compute; reflexivity.
  - vm_compute. reflexivity.
  - apply Forall_replicate. repeat split; vm_compute; reflexivity.
  - vm_compute. by intros x [= <-].
Qed.


(** A single column of width 2000 in a view of width 1000: the closest snapping point is the one that
    shows its right half, but the view settles at its left. *)
Definition wide_view : ViewState :=
  let area := MkArea f64_zero (f64_of_Z 1000) in
  MkViewState [MkColumnView (f64_of_Z 2000) SizeNormal] 0 (f64_of_Z 1000) area area (f64_of_Z 10)
    f64_one CenterNever false.

Example wide_column_settles_at_its_left :
  ((λ r, (f64_eqb r.(gn_snap).(sn_pos) (f64_of_Z 1000), f64_eqb r.(gn_offset) f64_zero)) <$>
     view_gesture_end wide_view (f64_of_Z 100) (f64_of_Z 900)) = Some (true, true).
Proof. vm_compute. reflexivity. Qed.
