(* ===== verification/LayoutMove.v ===== *)
(** * Interactive moves, drag and drop and view gestures (src/layout/mod.rs)

    While a window is moved with the pointer it is first still in the layout ([MoveStarting]) and
    then held outside of it ([Moving]); every operation of [Layout] looks whether it concerns the
    window that is held.  Positions that follow from the geometry are arguments: where the views
    are, the rows in which the workspaces of a monitor are shown, the sizes of columns and tiles.
    What is computed from them (where a window is dropped, where a gesture ends) is written out. *)
From stdpp Require Import gmap strings.
From S2P Require Import Prelude Float64 FloatRound LayoutScrolling LayoutView LayoutFloating LayoutOutput LayoutWorkspace LayoutWorkspaceProps LayoutMonitor LayoutMonitorProps LayoutSet LayoutSetOps LayoutSetProps.

(** ** Data *)
Inductive InsertWorkspace := InsertExisting (id : N) | InsertNewAt (idx : nat).

Inductive InsertPosition := PosNewColumn (column : nat) | PosInColumn (column tile : nat) | PosFloating.

Record InteractiveMoveData := MkMoveData {
  md_tile : Tile;
  md_output : OutputName;
  md_width : ColumnWidth;
  md_is_full_width : bool;
  md_is_floating : bool;
  md_output_config : option LayoutPart;
  md_workspace_config : option (N * LayoutPart)
}.

Inductive InteractiveMoveState :=
| MoveStarting (window_id : N) (pointer_delta : f64 * f64)
| Moving (data : InteractiveMoveData).

(** [Layout] with [interactive_move], and whether [dnd] is set. *)
Record MovingLayout := MkMovingLayout {
  ml_layout : Layout;
  ml_move : option InteractiveMoveState;
  ml_dnd : bool
}.

Definition set_ml_layout ly (ml : MovingLayout) : MovingLayout := MkMovingLayout ly ml.(ml_move) ml.(ml_dnd).
Definition set_ml_move mv (ml : MovingLayout) : MovingLayout := MkMovingLayout ml.(ml_layout) mv ml.(ml_dnd).
Definition set_ml_dnd b (ml : MovingLayout) : MovingLayout := MkMovingLayout ml.(ml_layout) ml.(ml_move) b.

(** ** Geometry *)

(** A workspace as a monitor shows it: its index, where it starts and how high it is. *)
Record Row := MkRow { row_idx : nat; row_y : f64; row_h : f64 }.

(** What [insert_position] of a scrolling space reads: the position within the view, the view, the
    gap, the widths of the columns, and for each column where its tiles start and their heights. *)
Record ScrollGeometry := MkScrollGeometry {
  sg_pos_x : f64; sg_pos_y : f64; sg_view_pos : f64; sg_gaps : f64;
  sg_widths : list f64;
  sg_origin : nat → f64;
  sg_heights : nat → list f64
}.

(** Where the views are: by monitor, the shown position and where a workspace switch would end; by
    workspace id, whether its view is not locked yet and whether it has a view gesture; and for a
    workspace whose gesture may end at another column the view, its offset and where it would stop. *)
Record ViewEnv := MkViewEnv {
  ve_render : nat → f64;
  ve_pos : nat → f64;
  ve_starts : N → bool;
  ve_ends : N → bool;
  ve_gesture : Workspace → option (ViewState * f64 * f64)
}.

Record PointerEnv := MkPointerEnv {
  pe_y : f64;
  pe_rows : Monitor → list Row;
  pe_scrolling : Workspace → ScrollGeometry
}.

(** ** Where a window is dropped *)
Definition row_contains (top h y : f64) : bool := f64_leb top y && f64_ltb y (f64_add top h).

Fixpoint insert_below (m : Monitor) (y : f64) (last : Row) (rows : list Row) : option InsertWorkspace :=
  match rows with
  | [] => Some (InsertNewAt (last.(row_idx) + 1))
  | row :: rows =>
      let gap := f64_add last.(row_y) last.(row_h) in
      if row_contains gap (f64_sub row.(row_y) gap) y then Some (InsertNewAt row.(row_idx))
      else if row_contains row.(row_y) row.(row_h) y then
        ws ← m.(mo_workspaces) !! row.(row_idx); Some (InsertExisting ws.(ws_id))
      else insert_below m y row rows
  end.

Definition mon_insert_position (m : Monitor) (y : f64) (rows : list Row) : option InsertWorkspace :=
  match rows with
  | [] => None
  | row :: rows =>
      if f64_ltb y row.(row_y) then Some (InsertNewAt row.(row_idx))
      else if row_contains row.(row_y) row.(row_h) y then
        ws ← m.(mo_workspaces) !! row.(row_idx); Some (InsertExisting ws.(ws_id))
      else insert_below m y row rows
  end.

(** The vertical part of [tile_offsets]: one more than there are tiles. *)
Fixpoint tile_ys (tabbed : bool) (gaps y : f64) (heights : list f64) : list f64 :=
  match heights with
  | [] => [y]
  | h :: heights => y :: tile_ys tabbed gaps (if tabbed then y else f64_add y (f64_add h gaps)) heights
  end.

(** [take_while(|x| x <= pos).last()]. *)
Fixpoint last_at_most (i : nat) (pos : f64) (l : list f64) : option nat :=
  match l with
  | [] => None
  | v :: l => if f64_leb v pos then Some (default i (last_at_most (S i) pos l)) else None
  end.

(** [top] and [bottom] of the active tile of a tabbed column, or the closest gap between tiles. *)
Definition closest_tile (col : Column) (geo : ScrollGeometry) (i : nat) (y : f64) : option (nat * f64) :=
  let heights := geo.(sg_heights) i in
  let tabbed := bool_decide (col.(co_display) = DisplayTabbed) in
  let ys := tile_ys tabbed geo.(sg_gaps) (geo.(sg_origin) i) heights in
  if tabbed then
    top ← ys !! col.(co_active);
    h ← heights !! col.(co_active);
    let bottom := f64_add top h in
    Some (if f64_leb (distance top y) (distance bottom y) then (col.(co_active), top)
          else (col.(co_active) + 1, bottom))
  else closest y ys.

Definition sc_insert_position (s : ScrollingSpace) (geo : ScrollGeometry) : option InsertPosition :=
  if sc_is_empty s then Some (PosNewColumn 0)
  else
    let half := f64_div geo.(sg_gaps) (f64_of_Z 2) in
    let x := f64_add (f64_add geo.(sg_pos_x) geo.(sg_view_pos)) half in
    let y := f64_add geo.(sg_pos_y) half in
    if f64_ltb x f64_zero then Some (PosNewColumn 0)
    else
      let xs := column_xs geo.(sg_gaps) f64_zero geo.(sg_widths) in
      '(closest_col_idx, col_x) ← closest x xs;
      let col_idx := default 0 (last_at_most 0 x xs) in
      if col_idx =? length s.(sc_columns) then Some (PosNewColumn closest_col_idx)
      else
        col ← s.(sc_columns) !! col_idx;
        '(closest_tile_idx, tile_y) ← closest_tile col geo col_idx y;
        if f64_leb (distance col_x x) (distance tile_y y) then Some (PosNewColumn closest_col_idx)
        else Some (PosInColumn col_idx closest_tile_idx).

(** The position when the pointer is not over the output. *)
Definition at_origin (geo : ScrollGeometry) : ScrollGeometry :=
  MkScrollGeometry f64_zero f64_zero geo.(sg_view_pos) geo.(sg_gaps) geo.(sg_widths) geo.(sg_origin) geo.(sg_heights).

(** ** All monitors and workspaces *)
Definition on_monitor (ly : Layout) (i : nat) (f : Monitor → option Monitor) : option Layout :=
  match ly.(ly_set) with
  | SetNormal monitors primary active =>
      m ← monitors !! i;
      m ← f m;
      Some (set_ly_set (SetNormal (<[i := m]> monitors) primary active) ly)
  | SetNoOutputs _ => Some ly
  end.

Fixpoint on_monitors (f : nat → Monitor → option Monitor) (indices : list nat) (ly : Layout) : option Layout :=
  match indices with
  | [] => Some ly
  | i :: indices => ly ← on_monitor ly i (f i); on_monitors f indices ly
  end.

(** [for mon in self.monitors_mut()]. *)
Definition for_monitors (f : nat → Monitor → option Monitor) (ly : Layout) : option Layout :=
  on_monitors f (seq 0 (length (ly_monitors ly))) ly.

Fixpoint stack_places (i : nat) (stacks : list (list Workspace)) : list (nat * nat) :=
  match stacks with
  | [] => []
  | l :: stacks => (pair i <$> seq 0 (length l)) ++ stack_places (S i) stacks
  end.

Fixpoint on_places (f : Workspace → option Workspace) (places : list (nat * nat)) (ly : Layout) : option Layout :=
  match places with
  | [] => Some ly
  | place :: places =>
      r ← with_workspace ly place (λ ws, ws ← f ws; Some (tt, ws)); on_places f places (snd r)
  end.

(** [for ws in self.workspaces_mut()]. *)
Definition for_workspaces (f : Workspace → option Workspace) (ly : Layout) : option Layout :=
  on_places f (stack_places 0 (ly_stacks ly)) ly.

(** ** View gestures *)

(** [dnd_scroll_gesture_begin] and [dnd_scroll_gesture_end] of a workspace: the first stops an
    interactive resize, the second may end at another column. *)
Definition ws_dnd_begin (env : ViewEnv) (ws : Workspace) : Workspace :=
  if env.(ve_starts) ws.(ws_id) then set_ws_scrolling (set_sc_resize None ws.(ws_scrolling)) ws else ws.

Definition ws_view_end (env : ViewEnv) (ws : Workspace) : option Workspace :=
  match env.(ve_gesture) ws with
  | Some (vs, current, target) =>
      if sc_is_empty ws.(ws_scrolling) then Some ws
      else
        r ← view_gesture_end vs current target;
        Some (set_ws_scrolling (set_sc_active (r.(gn_col)) ws.(ws_scrolling)) ws)
  | None => Some ws
  end.

Definition begin_monitors (env : ViewEnv) (ly : Layout) : option Layout :=
  for_monitors (λ i m, Some (mon_dnd_scroll_gesture_begin m (env.(ve_render) i))) ly.
Definition end_monitors (env : ViewEnv) (ly : Layout) : option Layout :=
  for_monitors (λ i m, mon_dnd_scroll_gesture_end m (env.(ve_pos) i)) ly.
Definition begin_workspaces (env : ViewEnv) (ly : Layout) : option Layout :=
  for_workspaces (λ ws, Some (ws_dnd_begin env ws)) ly.
Definition end_workspaces (env : ViewEnv) (ly : Layout) : option Layout :=
  for_workspaces (ws_view_end env) ly.

(** [view_offset_gesture_begin]: the gestures of the other workspaces end. *)
Definition view_offset_gesture_begin (env : ViewEnv) (ly : Layout) (output : OutputName) (workspace_idx : option nat) :
    option Layout :=
  match ly.(ly_set) with
  | SetNoOutputs _ => None
  | SetNormal monitors _ _ =>
      let target := i ← monitor_position monitors output; m ← monitors !! i;
                    Some (i, default m.(mo_active) workspace_idx) in
      on_places (ws_view_end env)
        (List.filter (λ place, negb (bool_decide (Some place = target))) (stack_places 0 (ly_stacks ly))) ly
  end.

(** The first gesture ends. *)
Definition view_offset_gesture_end (env : ViewEnv) (ly : Layout) : option Layout :=
  match ly.(ly_set) with
  | SetNoOutputs _ => Some ly
  | SetNormal _ _ _ =>
      match find_place (λ ws, env.(ve_ends) ws.(ws_id)) (ly_stacks ly) with
      | Some place => snd <$> with_workspace ly place (λ ws, ws ← ws_view_end env ws; Some (tt, ws))
      | None => Some ly
      end
  end.

(** [Layout::workspace_switch_gesture_begin] ends the gestures of the other outputs. *)
Definition ly_switch_gesture_begin (env : ViewEnv) (ly : Layout) (output : OutputName) (is_touchpad : bool) :
    option Layout :=
  match ly.(ly_set) with
  | SetNoOutputs _ => None
  | SetNormal _ _ _ =>
      for_monitors (λ i m,
        if decide (m.(mo_output) = output)
        then Some (workspace_switch_gesture_begin m (env.(ve_render) i) is_touchpad)
        else fst <$> workspace_switch_gesture_end m (env.(ve_pos) i) None) ly
  end.

(** The first monitor that has such a gesture answers. *)
Definition ly_switch_gesture_update (ly : Layout) (zoom pos : f64) (is_touchpad : bool) : option Layout :=
  match ly.(ly_set) with
  | SetNoOutputs _ => Some ly
  | SetNormal monitors primary active =>
      r ← first_that (λ m, workspace_switch_gesture_update m zoom pos is_touchpad) monitors;
      Some (set_ly_set (SetNormal (fst r) primary active) ly)
  end.

Definition ly_switch_gesture_end (ly : Layout) (pos : f64) (is_touchpad : option bool) : option Layout :=
  match ly.(ly_set) with
  | SetNoOutputs _ => Some ly
  | SetNormal monitors primary active =>
      r ← first_that (λ m, r ← workspace_switch_gesture_end m pos is_touchpad;
                           Some (fst r, if snd r : bool then Some tt else None)) monitors;
      Some (set_ly_set (SetNormal (fst r) primary active) ly)
  end.

(** ** Interactive moves *)
Definition monitor_for_output (ly : Layout) (output : OutputName) : option Monitor :=
  List.find (λ m, bool_decide (m.(mo_output) = output)) (ly_monitors ly).

Definition moving (ml : MovingLayout) : option InteractiveMoveData :=
  match ml.(ml_move) with Some (Moving data) => Some data | _ => None end.

(** The window is the one that is held; for methods that take the focused window if none is given,
    [None] stands for it, too. *)
Definition is_held (ml : MovingLayout) (window : N) : bool :=
  match moving ml with Some data => N.eqb data.(md_tile).(tl_window) window | None => false end.

Definition is_held_or_none (ml : MovingLayout) (window : option N) : bool :=
  match moving ml, window with
  | Some _, None => true
  | _, Some window => is_held ml window
  | None, None => false
  end.

Definition held_options (ly : Layout) (output_config : option LayoutPart) (workspace_config : option (N * LayoutPart)) :
    Options :=
  with_merged_layout (with_merged_layout ly.(ly_options) output_config) (snd <$> workspace_config).

Definition interactive_move_begin (env : ViewEnv) (ml : MovingLayout) (window : N) (output : OutputName) :
    option (MovingLayout * bool) :=
  match ml.(ml_move) with
  | Some _ => Some (ml, false)
  | None =>
      let ly := ml.(ml_layout) in
      match window_location (ly_monitors ly) window with
      | None => Some (ml, false)
      | Some (i, j) =>
          m ← ly_monitors ly !! i;
          ws ← m.(mo_workspaces) !! j;
          if decide (m.(mo_output) = output) then
            let is_floating := fl_has_window ws.(ws_floating) window in
            _ ← List.find (tile_is window) (ws_tiles ws);
            ly ← begin_monitors env ly;
            ly ← (if is_floating then Some ly else begin_workspaces env ly);
            Some (MkMovingLayout ly (Some (MoveStarting window (f64_zero, f64_zero))) ml.(ml_dnd), true)
          else Some (ml, false)
      end
  end.

Definition INTERACTIVE_MOVE_START_THRESHOLD : f64 := f64_of_Z (256 * 256).

(** [pointer_delta += delta.downscale(zoom)]. *)
Definition move_pointer (pointer_delta delta : f64 * f64) (zoom : f64) : f64 * f64 :=
  (f64_add (fst pointer_delta) (f64_div (fst delta) zoom), f64_add (snd pointer_delta) (f64_div (snd delta) zoom)).

Definition near_start (pointer_delta : f64 * f64) : bool :=
  let '(cx, cy) := pointer_delta in
  f64_ltb (f64_add (f64_mul cx cx) (f64_mul cy cy)) INTERACTIVE_MOVE_START_THRESHOLD.

Section moves.
  Context (parent_of : N → option N) (g : Placement).

(** The window leaves the layout. *)
Definition unset_sizing (window : N) (ws : Workspace) : option Workspace :=
  ws ← ws_set_fullscreen parent_of g ws window false;
  ws_set_maximized parent_of g ws window false.

Definition start_moving (env : ViewEnv) (ly : Layout) (window : N) (output : OutputName) (ws : Workspace)
    (place : nat * nat) : option (Layout * InteractiveMoveData) :=
  let output_config := m ← monitor_for_output ly output; m.(mo_layout_config) in
  let workspace_config := pair ws.(ws_id) <$> ws.(ws_layout_config) in
  r ← with_workspace ly place (λ ws, ws ← unset_sizing window ws; Some (tt, ws));
  r ← remove_window g (snd r) window;
  let ly := fst r in
  removed ← snd r;
  let tile := set_tl_options (held_options ly output_config workspace_config) removed.(rt_tile) in
  ly ← (if removed.(rt_floating) then end_workspaces env ly else Some ly);
  Some (ly, MkMoveData tile output removed.(rt_width) removed.(rt_full_width) removed.(rt_floating)
              output_config workspace_config).

(** The held window is moved over a workspace, and maybe to another output. *)
Definition keep_moving (pointer : PointerEnv) (ly : Layout) (output : OutputName) (data : InteractiveMoveData) :
    option (Layout * InteractiveMoveData) :=
  ws_id ← match monitor_for_output ly output with
          | Some m =>
              insert_ws ← mon_insert_position m pointer.(pe_y) (pointer.(pe_rows) m);
              Some match insert_ws with InsertExisting id => Some id | InsertNewAt _ => None end
          | None => Some None
          end;
  let left := match data.(md_workspace_config) with
              | Some (id, _) => negb (bool_decide (Some id = ws_id))
              | None => false
              end in
  let workspace_config := if left then None else data.(md_workspace_config) in
  let other := negb (bool_decide (output = data.(md_output))) in
  let ly := if other then focus_output ly output else ly in
  let output_config := if other then m ← monitor_for_output ly output; m.(mo_layout_config)
                       else data.(md_output_config) in
  let tile := if left || other then set_tl_options (held_options ly output_config workspace_config) data.(md_tile)
              else data.(md_tile) in
  Some (ly, MkMoveData tile output data.(md_width) data.(md_is_full_width) data.(md_is_floating) output_config
              workspace_config).

Definition interactive_move_update (env : ViewEnv) (pointer : PointerEnv) (zoom : f64) (ml : MovingLayout) (window : N)
    (delta : f64 * f64) (output : OutputName) : option (MovingLayout * bool) :=
  let ly := ml.(ml_layout) in
  match ml.(ml_move) with
  | None => Some (ml, false)
  | Some (MoveStarting window_id pointer_delta) =>
      if negb (N.eqb window_id window) then Some (ml, false)
      else
        let pointer_delta := move_pointer pointer_delta delta zoom in
        place ← find_place (λ ws, has_window ws window_id) (ly_stacks ly);
        l ← ly_stacks ly !! fst place;
        ws ← l !! snd place;
        _ ← List.find (tile_is window_id) (ws_tiles ws);
        if negb (fl_has_window ws.(ws_floating) window_id) && near_start pointer_delta
        then Some (set_ml_move (Some (MoveStarting window_id pointer_delta)) ml, true)
        else
          r ← start_moving env ly window output ws place;
          Some (MkMovingLayout (fst r) (Some (Moving (snd r))) ml.(ml_dnd), true)
  | Some (Moving data) =>
      if negb (N.eqb data.(md_tile).(tl_window) window) then Some (ml, false)
      else
        r ← keep_moving pointer ly output data;
        Some (MkMovingLayout (fst r) (Some (Moving (snd r))) ml.(ml_dnd), true)
  end.

(** The end of a move that has not left the layout: the view of the window's workspace may end at
    another column, but the window stays active. *)
Definition end_starting (env : ViewEnv) (window : N) (ly : Layout) : option Layout :=
  ly ← end_monitors env ly;
  for_workspaces (λ ws,
    let was_active := bool_decide (ws_active_window ws = Some window) in
    ws ← ws_view_end env ws;
    if was_active then fst <$> ws_activate_window parent_of ws window else Some ws) ly.

(** The monitor a held window is dropped on, with where. *)
Definition drop_target (pointer : PointerEnv) (monitors : list Monitor) (active : nat) (data : InteractiveMoveData) :
    option (nat * InsertWorkspace * InsertPosition) :=
  let position ws geo := if data.(md_is_floating) then Some PosFloating else sc_insert_position ws.(ws_scrolling) geo in
  match monitor_position monitors data.(md_output) with
  | Some i =>
      m ← monitors !! i;
      insert_ws ← mon_insert_position m pointer.(pe_y) (pointer.(pe_rows) m);
      position ← match insert_ws with
                 | InsertExisting id =>
                     ws_idx ← ws_position m (λ ws, N.eqb ws.(ws_id) id);
                     ws ← m.(mo_workspaces) !! ws_idx;
                     position ws (pointer.(pe_scrolling) ws)
                 | InsertNewAt _ => Some (if data.(md_is_floating) then PosFloating else PosNewColumn 0)
                 end;
      Some (i, insert_ws, position)
  | None =>
      m ← monitors !! active;
      ws ← m.(mo_workspaces) !! 0;
      position ← position ws (at_origin (pointer.(pe_scrolling) ws));
      Some (active, InsertExisting ws.(ws_id), position)
  end.

(** The workspace it goes to; an empty one at the ends is used again. *)
Definition drop_workspace (m : Monitor) (insert_ws : InsertWorkspace) : Fresh (Monitor * nat) :=
  match insert_ws with
  | InsertExisting id => ws_idx ← lift (ws_position m (λ ws, N.eqb ws.(ws_id) id)); mret (m, ws_idx)
  | InsertNewAt ws_idx =>
      if mo_above_first m && (ws_idx =? 0) then mret (m, 0)
      else
        last ← lift (last_idx m);
        if last <=? ws_idx then mret (m, last)
        else m ← add_workspace_at m ws_idx; mret (m, ws_idx)
  end.

Definition drop_tile (m : Monitor) (ws_idx : nat) (position : InsertPosition) (data : InteractiveMoveData)
    (allow_to_activate_workspace : bool) : Fresh Monitor :=
  let add column_idx is_floating :=
    ws ← lift (m.(mo_workspaces) !! ws_idx);
    mon_add_tile parent_of m data.(md_tile) (MonWorkspace ws.(ws_id) column_idx) ActivateYes
      allow_to_activate_workspace data.(md_width) data.(md_is_full_width) is_floating in
  match position with
  | PosNewColumn column_idx => add (Some column_idx) false
  | PosInColumn column_idx tile_idx =>
      lift (mon_add_tile_to_column m ws_idx column_idx (Some tile_idx) data.(md_tile) true allow_to_activate_workspace)
  | PosFloating => add None true
  end.

(** The held window goes back into the layout. *)
Definition end_moving (env : ViewEnv) (pointer : PointerEnv) (data : InteractiveMoveData) (ly : Layout) : Fresh Layout :=
  ly ← lift (end_monitors env ly);
  ly ← lift (if data.(md_is_floating) then Some ly else end_workspaces env ly);
  match ly.(ly_set) with
  | SetNormal monitors primary active =>
      r ← lift (drop_target pointer monitors active data);
      let '(i, insert_ws, position) := r in
      m ← lift (monitors !! i);
      r ← drop_workspace m insert_ws;
      m ← drop_tile (fst r) (snd r) position data (negb ly.(ly_overview_open));
      _ ← lift (List.find (λ ws, has_window ws data.(md_tile).(tl_window)) m.(mo_workspaces));
      mret (set_ly_set (SetNormal (<[i := m]> monitors) primary active) ly)
  | SetNoOutputs workspaces =>
      workspaces ← match workspaces with
                   | [] => id ← next_id; mret [new_with_config_no_outputs id None ly.(ly_options)]
                   | _ => mret workspaces
                   end;
      ws ← lift (workspaces !! 0);
      ws ← lift (ws_add_tile parent_of ws data.(md_tile) WsAuto ActivateYes data.(md_width)
                   data.(md_is_full_width) data.(md_is_floating));
      mret (set_ly_set (SetNoOutputs (<[0 := ws]> workspaces)) ly)
  end.

Definition interactive_move_end (env : ViewEnv) (pointer : PointerEnv) (ml : MovingLayout) (window : N) :
    Fresh MovingLayout :=
  match ml.(ml_move) with
  | None => mret ml
  | Some (MoveStarting window_id _) =>
      if negb (N.eqb window_id window) then mret ml
      else ly ← lift (end_starting env window_id ml.(ml_layout)); mret (MkMovingLayout ly None ml.(ml_dnd))
  | Some (Moving data) =>
      if negb (N.eqb data.(md_tile).(tl_window) window) then mret ml
      else ly ← end_moving env pointer data ml.(ml_layout); mret (MkMovingLayout ly None ml.(ml_dnd))
  end.

(** ** The operations of [Layout] while a window is held *)
Definition set_md_floating b (data : InteractiveMoveData) : InteractiveMoveData :=
  MkMoveData data.(md_tile) data.(md_output) data.(md_width) data.(md_is_full_width) b
    data.(md_output_config) data.(md_workspace_config).

(** The part of [toggle_window_floating] about the held window. *)
Definition held_set_floating (env : ViewEnv) (ml : MovingLayout) (data : InteractiveMoveData) (floating : bool) :
    option MovingLayout :=
  if Bool.eqb data.(md_is_floating) floating then Some ml
  else
    ly ← (if floating then end_workspaces env ml.(ml_layout) else Some ml.(ml_layout));
    Some (MkMovingLayout ly (Some (Moving (set_md_floating floating data))) ml.(ml_dnd)).

(** A window opened next to the held one goes to the output it is held over. *)
Definition add_target (ml : MovingLayout) (target : AddWindowTarget) : AddWindowTarget :=
  match target, moving ml with
  | AddNextTo window, Some data =>
      if N.eqb data.(md_tile).(tl_window) window then
        match monitor_position (ly_monitors ml.(ml_layout)) data.(md_output) with
        | Some _ => AddOutput data.(md_output)
        | None => AddAuto
        end
      else target
  | _, _ => target
  end.

(** [remove_window]: a move of the window ends; the held window is given as it is. *)
Definition ml_remove_window (env : ViewEnv) (ml : MovingLayout) (window : N) :
    option (MovingLayout * option RemovedTile) :=
  match ml.(ml_move) with
  | Some (Moving data) =>
      if N.eqb data.(md_tile).(tl_window) window then
        ly ← end_monitors env ml.(ml_layout);
        ly ← end_workspaces env ly;
        Some (MkMovingLayout ly None ml.(ml_dnd),
              Some (MkRemovedTile data.(md_tile) data.(md_width) data.(md_is_full_width) false))
      else r ← remove_window g ml.(ml_layout) window; Some (set_ml_layout (fst r) ml, snd r)
  | Some (MoveStarting window_id _) =>
      ml ← (if N.eqb window_id window
            then ly ← end_starting env window_id ml.(ml_layout); Some (MkMovingLayout ly None ml.(ml_dnd))
            else Some ml);
      r ← remove_window g ml.(ml_layout) window; Some (set_ml_layout (fst r) ml, snd r)
  | None => r ← remove_window g ml.(ml_layout) window; Some (set_ml_layout (fst r) ml, snd r)
  end.

(** The options of the held tile follow the configuration. *)
Definition retune_held (ly : Layout) (mv : option InteractiveMoveState) : option InteractiveMoveState :=
  match mv with
  | Some (Moving data) =>
      Some (Moving (MkMoveData
        (set_tl_options (held_options ly data.(md_output_config) data.(md_workspace_config)) data.(md_tile))
        data.(md_output) data.(md_width) data.(md_is_full_width) data.(md_is_floating) data.(md_output_config)
        data.(md_workspace_config)))
  | _ => mv
  end.

(** [move_column_to_output] is [move_to_output] when the focus is on a floating window. *)
Definition moves_floating (ly : Layout) (output : OutputName) : bool :=
  match active_monitor ly with
  | Some (Some (_, m)) =>
      match m.(mo_workspaces) !! m.(mo_active) with
      | Some ws => floating_active ws && bool_decide (is_Some (monitor_position (ly_monitors ly) output))
      | None => false
      end
  | _ => false
  end.

(** How a method treats the held window: it is left alone, or becomes floating or tiled. *)
Inductive HeldAction := HeldRun | HeldIgnore | HeldFloat (floating : bool).

Definition held_action (ml : MovingLayout) (op : LyOp) : HeldAction :=
  let ignore (b : bool) := if b then HeldIgnore else HeldRun in
  match op with
  | LopActivateWindow window | LopActivateWithoutRaising window => ignore (is_held ml window)
  | LopMoveToWorkspace window _ _ | LopMoveToOutput window _ _ _ => ignore (is_held_or_none ml window)
  | LopWorkspace window (WopConsumeOrExpelLeft _) | LopWorkspace window (WopConsumeOrExpelRight _) =>
      ignore (is_held_or_none ml window)
  | LopMoveColumnToOutput output _ _ => ignore (is_held_or_none ml None && moves_floating ml.(ml_layout) output)
  | LopWorkspace window (WopToggleFloating _) =>
      match moving ml with
      | Some data => if is_held_or_none ml window then HeldFloat (negb data.(md_is_floating)) else HeldRun
      | None => HeldRun
      end
  | LopWorkspace window (WopSetFloating _ b) => if is_held_or_none ml window then HeldFloat b else HeldRun
  | LopWorkspace (Some window) _ => ignore (is_held ml window)
  | _ => HeldRun
  end.

Definition run_layout_op (env : ViewEnv) (ml : MovingLayout) (op : LyOp) : Fresh (MovingLayout * list N) :=
  match op with
  | LopRemoveWindow window =>
      r ← lift (ml_remove_window env ml window);
      mret (fst r, match snd r with Some t => [tl_window (rt_tile t)] | None => [] end)
  | LopAddWindow window pending rule target width full floating activate =>
      r ← run_ly_op parent_of g ml.(ml_layout)
            (LopAddWindow window pending rule (add_target ml target) width full floating activate);
      mret (set_ml_layout (fst r) ml, snd r)
  | LopUpdateConfig _ _ | LopUpdateOptions _ =>
      r ← run_ly_op parent_of g ml.(ml_layout) op;
      mret (MkMovingLayout (fst r) (retune_held (fst r) ml.(ml_move)) ml.(ml_dnd), snd r)
  | _ =>
      match held_action ml op, moving ml with
      | HeldIgnore, _ => mret (ml, [])
      | HeldFloat b, Some data => ml ← lift (held_set_floating env ml data b); mret (ml, [])
      | _, _ => r ← run_ly_op parent_of g ml.(ml_layout) op; mret (set_ml_layout (fst r) ml, snd r)
      end
  end.

(** ** Drag and drop *)
Definition dnd_update (env : ViewEnv) (ml : MovingLayout) : option MovingLayout :=
  if ml.(ml_dnd) then Some ml
  else
    ly ← begin_monitors env ml.(ml_layout);
    ly ← begin_workspaces env ly;
    Some (MkMovingLayout ly ml.(ml_move) true).

Definition dnd_end (env : ViewEnv) (ml : MovingLayout) : option MovingLayout :=
  if ml.(ml_dnd) then
    ly ← end_monitors env ml.(ml_layout);
    ly ← end_workspaces env ly;
    Some (MkMovingLayout ly ml.(ml_move) false)
  else Some ml.

Inductive DndHoldTarget := HoldWindow (id : N) | HoldWorkspace (id : N).

(** The pointer stayed on a target long enough; the target was found under the pointer just now. *)
Definition dnd_hold_done (env : ViewEnv) (ly : Layout) (output : OutputName) (target : DndHoldTarget) : option Layout :=
  match monitor_position (ly_monitors ly) output with
  | None => Some ly
  | Some i =>
      ly' ← on_monitor ly i (λ m,
        r ← match target with
            | HoldWindow id =>
                r ← first_that (λ ws, r ← ws_activate_window parent_of ws id;
                                      Some (fst r, if snd r : bool then Some tt else None)) m.(mo_workspaces);
                found ← snd r; Some (fst r, fst found)
            | HoldWorkspace id =>
                ws_idx ← ws_position m (λ ws, N.eqb ws.(ws_id) id); Some (m.(mo_workspaces), ws_idx)
            end;
        m ← mon_dnd_scroll_gesture_end (set_mo_workspaces (fst r) m) (env.(ve_pos) i);
        activate_workspace m (snd r));
      let ly' := focus_output ly' output in
      Some (if ly.(ly_overview_open) then fst (close_overview ly') else ly')
  end.

(** ** Refreshing *)

(** Whether a drag locks the views, if one is going on. *)
Definition ongoing_scrolling_dnd (ml : MovingLayout) : option (option bool) :=
  if ml.(ml_dnd) then Some (Some true)
  else match ml.(ml_move) with
       | Some (Moving data) => Some (Some (negb data.(md_is_floating)))
       | Some (MoveStarting window_id _) =>
           place ← find_place (λ ws, has_window ws window_id) (ly_stacks ml.(ml_layout));
           l ← ly_stacks ml.(ml_layout) !! fst place;
           ws ← l !! snd place;
           Some (Some (negb (fl_has_window ws.(ws_floating) window_id)))
       | None => Some None
       end.

Definition ly_refresh (env : ViewEnv) (ongoing : option bool) (ly : Layout) : option Layout :=
  match ly.(ly_set) with
  | SetNoOutputs _ => end_workspaces env ly
  | SetNormal _ _ _ =>
      let ov := ly.(ly_overview_open) in
      ly ← (if ov then match ongoing with Some _ => begin_monitors env ly | None => Some ly end
            else end_monitors env ly);
      match ongoing with
      | Some true => begin_workspaces env ly
      | Some false => end_workspaces env ly
      | None =>
          if ov then Some ly
          else on_places (ws_view_end env)
                 (List.filter (λ place, negb (bool_decide
                    (Some (snd place) = mo_active <$> ly_monitors ly !! fst place))) (stack_places 0 (ly_stacks ly))) ly
      end
  end.

Definition ml_refresh (env : ViewEnv) (ml : MovingLayout) : option MovingLayout :=
  ongoing ← ongoing_scrolling_dnd ml;
  ly ← ly_refresh env ongoing ml.(ml_layout);
  Some (set_ml_layout ly ml).

(** ** The operations *)
Inductive MlOp :=
| MlLayout (env : ViewEnv) (op : LyOp)
| MlMoveBegin (env : ViewEnv) (window : N) (output : OutputName)
| MlMoveUpdate (env : ViewEnv) (pointer : PointerEnv) (zoom : f64) (window : N) (delta : f64 * f64) (output : OutputName)
| MlMoveEnd (env : ViewEnv) (pointer : PointerEnv) (window : N)
| MlDndUpdate (env : ViewEnv) | MlDndEnd (env : ViewEnv)
| MlDndHold (env : ViewEnv) (output : OutputName) (target : DndHoldTarget)
| MlRefresh (env : ViewEnv)
| MlViewBegin (env : ViewEnv) (output : OutputName) (workspace_idx : option nat) | MlViewEnd (env : ViewEnv)
| MlSwitchBegin (env : ViewEnv) (output : OutputName) (is_touchpad : bool)
| MlSwitchUpdate (zoom pos : f64) (is_touchpad : bool) | MlSwitchEnd (pos : f64) (is_touchpad : option bool).

Definition run_ml_op (ml : MovingLayout) (op : MlOp) : Fresh (MovingLayout * list N) :=
  let keep (o : Fresh MovingLayout) : Fresh (MovingLayout * list N) := ml ← o; mret (ml, []) in
  let inside (o : option Layout) := keep (lift (ly ← o; Some (set_ml_layout ly ml))) in
  let ly := ml.(ml_layout) in
  match op with
  | MlLayout env op => run_layout_op env ml op
  | MlMoveBegin env w o => keep (lift (fst <$> interactive_move_begin env ml w o))
  | MlMoveUpdate env p zoom w d o => keep (lift (fst <$> interactive_move_update env p zoom ml w d o))
  | MlMoveEnd env p w => keep (interactive_move_end env p ml w)
  | MlDndUpdate env => keep (lift (dnd_update env ml))
  | MlDndEnd env => keep (lift (dnd_end env ml))
  | MlDndHold env o t => inside (if ml.(ml_dnd) then dnd_hold_done env ly o t else Some ly)
  | MlRefresh env => keep (lift (ml_refresh env ml))
  | MlViewBegin env o i => inside (view_offset_gesture_begin env ly o i)
  | MlViewEnd env => inside (view_offset_gesture_end env ly)
  | MlSwitchBegin env o t => inside (ly_switch_gesture_begin env ly o t)
  | MlSwitchUpdate zoom pos t => inside (ly_switch_gesture_update ly zoom pos t)
  | MlSwitchEnd pos t => inside (ly_switch_gesture_end ly pos t)
  end.

End moves.
