(* ===== verification/LayoutMoveGeometry.v ===== *)
(** * Where a moved window is dropped

    The insertion positions that LayoutMove.v computes from the pointer are in range, and they are
    the gaps closest to the pointer. *)
From stdpp Require Import gmap strings.
From S2P Require Import Prelude Float64 FloatRound LayoutScrolling LayoutView LayoutFloating LayoutOutput LayoutWorkspace LayoutMonitor LayoutSet LayoutMove.

(** ** Geometry that makes sense: finite, and as many sizes as columns and tiles *)
Definition sg_x (geo : ScrollGeometry) : f64 :=
  f64_add (f64_add geo.(sg_pos_x) geo.(sg_view_pos)) (f64_div geo.(sg_gaps) (f64_of_Z 2)).
Definition sg_y (geo : ScrollGeometry) : f64 := f64_add geo.(sg_pos_y) (f64_div geo.(sg_gaps) (f64_of_Z 2)).

Record geometry_ok (s : ScrollingSpace) (geo : ScrollGeometry) : Prop := {
  ge_columns : length geo.(sg_widths) = length s.(sc_columns);
  ge_tiles i col : s.(sc_columns) !! i = Some col → length (geo.(sg_heights) i) = length col.(co_tiles);
  ge_x : f64_finite (sg_x geo) = true;
  ge_y : f64_finite (sg_y geo) = true;
  ge_widths : Forall (λ w, f64_finite (f64_add w geo.(sg_gaps)) = true) geo.(sg_widths);
  ge_origin i : f64_finite (geo.(sg_origin) i) = true;
  ge_heights i : Forall (λ h, f64_finite h = true ∧ f64_finite (f64_add h geo.(sg_gaps)) = true) (geo.(sg_heights) i)
}.

Definition pointer_geometry_ok (s : ScrollingSpace) (geo : ScrollGeometry) : Prop :=
  geometry_ok s geo ∧ geometry_ok s (at_origin geo).

Definition rows_ok (m : Monitor) (rows : list Row) : Prop :=
  rows ≠ [] ∧ Forall (λ row, row.(row_idx) < mo_count m) rows.

(** ** Positions of tiles *)
Lemma tile_ys_length tabbed gaps y heights : length (tile_ys tabbed gaps y heights) = S (length heights).
Proof. revert y. induction heights as [|h heights IH]; intros y; [done|]. cbn. by rewrite IH. Qed.

Lemma tile_ys_number tabbed gaps y heights :
  number y → Forall (λ h, f64_finite h = true ∧ f64_finite (f64_add h gaps) = true) heights →
  Forall number (tile_ys tabbed gaps y heights).
Proof.
  revert y. induction heights as [|h heights IH]; intros y Hy; cbn; [by repeat constructor|].
  intros [[_ Hh] Hhs]%Forall_cons. constructor; [done|]. apply IH; [|done].
  destruct tabbed; [done|by apply f64_add_not_nan].
Qed.

(** ** Insertion positions *)
Definition position_ok (s : ScrollingSpace) (pos : InsertPosition) : Prop :=
  match pos with
  | PosNewColumn i => i ≤ length s.(sc_columns)
  | PosInColumn i j => ∃ col, s.(sc_columns) !! i = Some col ∧ j ≤ length col.(co_tiles)
  | PosFloating => False
  end.

(** Where the gaps are between columns, and between the tiles of a column. *)
Definition gaps_x (geo : ScrollGeometry) : list f64 := column_xs geo.(sg_gaps) f64_zero geo.(sg_widths).
Definition gaps_y (col : Column) (geo : ScrollGeometry) (i : nat) : list f64 :=
  tile_ys (bool_decide (col.(co_display) = DisplayTabbed)) geo.(sg_gaps) (geo.(sg_origin) i) (geo.(sg_heights) i).

(** The column under [x]: the last one of those that all start at most there. *)
Definition is_under (x : f64) (xs : list f64) (k : nat) : Prop :=
  k < length xs ∧ (∀ j v, j ≤ k → xs !! j = Some v → f64_leb v x = true) ∧
  (∀ v, xs !! S k = Some v → f64_leb v x = false).

(** The gap of a column closest to [y], which is at [v]: of a tabbed column, whose tiles are all at one
    place, the one before or after the active tile; otherwise the first one that is closest. *)
Definition closest_tile_gap (col : Column) (geo : ScrollGeometry) (k : nat) (y : f64) (j : nat) (v : f64) : Prop :=
  if decide (col.(co_display) = DisplayTabbed) then
    ∃ top h, gaps_y col geo k !! col.(co_active) = Some top ∧ geo.(sg_heights) k !! col.(co_active) = Some h ∧
      (j, v) = if f64_leb (distance top y) (distance (f64_add top h) y) then (col.(co_active), top)
               else (col.(co_active) + 1, f64_add top h)
  else first_closest y (gaps_y col geo k) j v.

(** The position is the start if there are no columns or the pointer is left of them.  Otherwise it is
    the gap between columns that is closest to the pointer, unless the pointer is over a column and
    the closest gap between tiles of that column is closer still: then it is that one. *)
Definition placed (s : ScrollingSpace) (geo : ScrollGeometry) (pos : InsertPosition) : Prop :=
  if bool_decide (s.(sc_columns) = []) || f64_ltb (sg_x geo) f64_zero then pos = PosNewColumn 0
  else
    ∃ i v k, first_closest (sg_x geo) (gaps_x geo) i v ∧ is_under (sg_x geo) (gaps_x geo) k ∧
      match s.(sc_columns) !! k with
      | None => pos = PosNewColumn i
      | Some col =>
          ∃ j w, closest_tile_gap col geo k (sg_y geo) j w ∧
            pos = if f64_leb (distance v (sg_x geo)) (distance w (sg_y geo)) then PosNewColumn i else PosInColumn k j
      end.

Lemma last_at_most_spec n x l k :
  last_at_most n x l = Some k →
  n ≤ k < n + length l ∧ (∀ j v, n ≤ j ≤ k → l !! (j - n) = Some v → f64_leb v x = true) ∧
  (∀ v, l !! (S k - n) = Some v → f64_leb v x = false).
Proof.
  revert n k. induction l as [|u l IH]; intros n k; cbn [last_at_most]; [done|].
  destruct (f64_leb u x) eqn:Eu; [|done]. intros [= <-].
  destruct (last_at_most (S n) x l) as [k|] eqn:E; cbn [default].
  - destruct (IH _ _ E) as (H1 & H2 & H3). cbn. split_and!; [lia|lia| |].
    + intros j v Hj Hv. destruct (decide (j = n)) as [->|Hne]; [rewrite Nat.sub_diag in Hv; by injection Hv as <-|].
      apply (H2 j); [lia|]. by replace (j - n) with (S (j - S n)) in Hv by lia.
    + intros v Hv. apply H3. by replace (S k - n) with (S (S k - S n)) in Hv by lia.
  - cbn. split_and!; [lia|lia| |].
    + intros j v Hj Hv. replace (j - n) with 0 in Hv by lia. by injection Hv as <-.
    + intros v Hv. replace (S n - n) with 1 in Hv by lia. destruct l as [|w l]; [done|]. injection Hv as ->.
      cbn [last_at_most] in E. by case_match.
Qed.

Lemma under_column x gaps widths :
  f64_finite x = true → f64_ltb x f64_zero = false →
  is_under x (column_xs gaps f64_zero widths) (default 0 (last_at_most 0 x (column_xs gaps f64_zero widths))).
Proof.
  intros Hx H0. assert (E : f64_leb f64_zero x = true) by (apply f64_ltb_false; [by apply f64_finite_not_nan|done|done]).
  destruct (last_at_most 0 x (column_xs gaps f64_zero widths)) as [k|] eqn:Ek.
  2: { destruct widths; cbn [column_xs last_at_most] in Ek; by rewrite E in Ek. }
  destruct (last_at_most_spec _ _ _ _ Ek) as (H1 & H2 & H3). cbn. split_and!; [lia| |].
  - intros j v Hj Hv. apply (H2 j); [lia|]. by rewrite Nat.sub_0_r.
  - intros v Hv. apply H3. by rewrite Nat.sub_0_r.
Qed.

Lemma closest_tile_runs s geo i col :
  geometry_ok s geo → scrolling_ok s → s.(sc_columns) !! i = Some col →
  runs (closest_tile col geo i (sg_y geo)) (λ r, fst r ≤ length col.(co_tiles) ∧
    closest_tile_gap col geo i (sg_y geo) (fst r) (snd r)).
Proof.
  intros Hg Hs Hi. pose proof (ge_tiles _ _ Hg i col Hi) as Hlen. unfold closest_tile. fold (gaps_y col geo i).
  pose proof (column_lookup_ok s i col Hs Hi) as Hc. pose proof (co_active_ok _ Hc) as Ha.
  unfold closest_tile_gap. set (ys := gaps_y col geo i).
  assert (Hys : length ys = S (length col.(co_tiles))) by (unfold ys, gaps_y; by rewrite tile_ys_length, Hlen).
  assert (Hnum : Forall number ys).
  { unfold ys, gaps_y. apply tile_ys_number; [apply f64_finite_not_nan, (ge_origin _ _ Hg)|apply (ge_heights _ _ Hg)]. }
  destruct (decide (co_display col = DisplayTabbed)) as [Ht|Ht].
  - rewrite bool_decide_eq_true_2 by done.
    destruct (lookup_lt_is_Some_2 ys col.(co_active)) as [top Htop]; [lia|]. rewrite Htop. cbn [mbind option_bind].
    destruct (lookup_lt_is_Some_2 (sg_heights geo i) col.(co_active)) as [h Hh]; [lia|]. rewrite Hh.
    cbn [mbind option_bind]. apply runs_ret. split; [case_match; cbn [fst]; lia|].
    exists top, h. split_and!; [done..|]. by case_match.
  - rewrite bool_decide_eq_false_2 by done. eapply runs_weaken; [apply closest_runs; [apply Hg|done|]|].
    + intros E. by rewrite E in Hys.
    + intros [j v] Hj. split; [|done]. destruct Hj as [Hj%lookup_lt_Some _]. cbn in *. lia.
Qed.

Lemma insert_position_placed s geo :
  geometry_ok s geo → scrolling_ok s →
  runs (sc_insert_position s geo) (λ pos, placed s geo pos ∧ position_ok s pos).
Proof.
  intros Hg Hs. unfold sc_insert_position, placed. fold (sg_x geo) (sg_y geo) (gaps_x geo).
  rewrite sc_is_empty_spec. case_bool_decide as He; cbn [orb]; [apply runs_ret; split; [done|cbn; lia]|].
  destruct (f64_ltb (sg_x geo) f64_zero) eqn:Ex; [apply runs_ret; split; [done|cbn; lia]|].
  pose proof (under_column (sg_x geo) geo.(sg_gaps) geo.(sg_widths) (ge_x _ _ Hg) Ex) as Hk.
  fold (gaps_x geo) in Hk. set (xs := gaps_x geo) in *.
  assert (Hxs : length xs = S (length s.(sc_columns)))
    by (unfold xs, gaps_x; by rewrite column_xs_length, (ge_columns _ _ Hg)).
  eapply runs_bind; [apply (closest_runs (sg_x geo) xs); [apply Hg|by apply column_xs_number, Hg|]|].
  { intros E. by rewrite E in Hxs. }
  intros [ci cx] Hci. cbn [fst snd] in Hci. assert (Hcil : ci ≤ length s.(sc_columns))
    by (destruct Hci as [Hl%lookup_lt_Some _]; lia).
  set (k := default 0 (last_at_most 0 (sg_x geo) xs)) in *. pose proof Hk as [Hkl _].
  destruct (Nat.eqb_spec k (length s.(sc_columns))) as [Ek|Ek].
  { apply runs_ret. split; [|done]. exists ci, cx, k. split_and!; [done..|]. by rewrite lookup_ge_None_2 by lia. }
  destruct (lookup_lt_is_Some_2 s.(sc_columns) k) as [col Hcol]; [lia|]. rewrite Hcol. cbn [mbind option_bind].
  eapply runs_bind; [by eapply closest_tile_runs|]. intros [ti ty] [Hti Hgap]. cbn [fst snd] in *.
  assert (Hp : ∀ pos, (pos = if f64_leb (distance cx (sg_x geo)) (distance ty (sg_y geo)) then PosNewColumn ci
      else PosInColumn k ti) → ∃ i v k, first_closest (sg_x geo) xs i v ∧ is_under (sg_x geo) xs k ∧
      match s.(sc_columns) !! k with
      | None => pos = PosNewColumn i
      | Some col => ∃ j w, closest_tile_gap col geo k (sg_y geo) j w ∧
          pos = if f64_leb (distance v (sg_x geo)) (distance w (sg_y geo)) then PosNewColumn i else PosInColumn k j
      end).
  { intros pos ->. exists ci, cx, k. split_and!; [done..|]. rewrite Hcol. by exists ti, ty. }
  destruct (f64_leb _ _); apply runs_ret; (split; [by apply Hp|]); [done|]. by exists col.
Qed.

Lemma insert_position_runs s geo :
  geometry_ok s geo → scrolling_ok s → runs (sc_insert_position s geo) (position_ok s).
Proof. intros Hg Hs. eapply runs_weaken; [by apply insert_position_placed|]. by intros pos []. Qed.

(** ** Rows *)
Definition target_in (m : Monitor) (insert_ws : InsertWorkspace) : Prop :=
  match insert_ws with InsertExisting id => id ∈ ws_id <$> m.(mo_workspaces) | InsertNewAt _ => True end.

Lemma existing_target m (row : Row) :
  row.(row_idx) < mo_count m →
  runs (ws ← m.(mo_workspaces) !! row.(row_idx); Some (InsertExisting ws.(ws_id))) (target_in m).
Proof.
  intros [ws Hws]%lookup_lt_is_Some_2. rewrite Hws. apply runs_ret. cbn.
  by eapply list_elem_of_fmap_2, list_elem_of_lookup_2.
Qed.

Lemma insert_below_runs m y last rows :
  Forall (λ row, row.(row_idx) < mo_count m) rows → runs (insert_below m y last rows) (target_in m).
Proof.
  revert last. induction rows as [|row rows IH]; intros last; cbn [insert_below]; [by intros; apply runs_ret|].
  intros [Hr Hrs]%Forall_cons. case_match; [by apply runs_ret|]. case_match; [by apply existing_target|by apply IH].
Qed.

Lemma mon_insert_position_runs m y rows :
  rows_ok m rows → runs (mon_insert_position m y rows) (target_in m).
Proof.
  intros [Hne Hr]. destruct rows as [|row rows]; [done|]. cbn [mon_insert_position]. apply Forall_cons in Hr as [Hr Hrs].
  case_match; [by apply runs_ret|]. case_match; [by apply existing_target|by apply insert_below_runs].
Qed.
