(* ===== verification/LayoutMoveOps.v ===== *)
(** * Interactive moves: all monitors and workspaces, and view gestures

    Loops over monitors and workspaces keep the invariant of the layout when each step does, so
    that locking and unlocking the views does. *)
From stdpp Require Import gmap strings.
From S2P Require Import Prelude Float64 FloatRound LayoutScrolling LayoutView LayoutFloating LayoutOutput LayoutWorkspace LayoutWorkspaceOps LayoutWorkspaceProps LayoutMonitor LayoutMonitorOps LayoutMonitorMoves LayoutMonitorSwitch LayoutMonitorProps LayoutSet LayoutSetOwn LayoutSetOps LayoutSetOutputs LayoutSetMoves LayoutSetWindows LayoutSetConfig LayoutSetProps LayoutMove LayoutMoveGeometry.

(** ** What the callers provide *)

(** Positions are doubles, and the views have the columns of their workspaces. *)
Record view_ok (env : ViewEnv) : Prop := {
  vo_render i : f64_ok (env.(ve_render) i);
  vo_pos i : f64_ok (env.(ve_pos) i);
  vo_gesture ws vs current target :
    env.(ve_gesture) ws = Some (vs, current, target) → ws.(ws_scrolling).(sc_columns) ≠ [] →
    length vs.(vs_columns) = length ws.(ws_scrolling).(sc_columns) ∧ vs.(vs_active) = ws.(ws_scrolling).(sc_active) ∧
    view_state_ok vs target
}.

Record pointer_ok (pointer : PointerEnv) : Prop := {
  po_rows m : 0 < mo_count m → rows_ok m (pointer.(pe_rows) m);
  po_scrolling ws : pointer_geometry_ok ws.(ws_scrolling) (pointer.(pe_scrolling) ws)
}.

(** What loops over monitors and workspaces leave alone. *)
Definition ly_frame (ly : Layout) := (ly_outputs ly, ly.(ly_options), ly.(ly_overview_open)).

Section loops.
  Context (par : N → option N) (Hcycle : no_cycle par) (g : Placement).
Local Abbreviation ok := (layout_ok par).
Local Abbreviation keeps c ly := (layout_outcome par c ly [] []).

(** The outcome of a loop. *)
Definition looped (c : N) (ly ly' : Layout) : Prop := keeps c ly ly' c ∧ ly_frame ly' = ly_frame ly.

Lemma looped_refl c ly : ok c ly → looped c ly ly.
Proof. split; [by apply layout_keeps_refl|done]. Qed.

Lemma looped_trans c ly1 ly2 ly3 : looped c ly1 ly2 → looped c ly2 ly3 → looped c ly1 ly3.
Proof. intros [H1 F1] [H2 F2]. split; [by eapply layout_outcome_trans|congruence]. Qed.

Lemma looped_ok c ly ly' : looped c ly ly' → ok c ly'.
Proof. by intros [[H _ _] _]. Qed.

Lemma frame_count ly ly' : ly_frame ly' = ly_frame ly → length (ly_monitors ly') = length (ly_monitors ly).
Proof. intros [= E _ _]. unfold ly_outputs in E. rewrite <- (length_fmap mo_output), E. by rewrite length_fmap. Qed.

Lemma frame_room c ly ly' : ly_frame ly' = ly_frame ly → ly_room c ly → ly_room c ly'.
Proof. intros E. unfold ly_room. by rewrite (frame_count _ _ E). Qed.

(** ** Monitors *)
Lemma on_monitor_runs c ly i f :
  ok c ly → (ly_monitors ly ≠ [] → i < length (ly_monitors ly)) →
  (∀ m, ly_monitors ly !! i = Some m → monitor_ok par c m → runs (f m) (λ m', mon_keeps par c m m' c)) →
  runs (on_monitor ly i f) (looped c ly).
Proof.
  intros Hok Hi Hf. unfold on_monitor. pose proof (layout_windows_NoDup par c ly Hok) as Hnd.
  unfold looped, ly_frame, ly_outputs, ly_monitors in *. destruct (ly_set ly) as [ms p a|l] eqn:E.
  - destruct (normal_parts par c ly ms p a Hok E) as (Hp & Ha & Hs).
    destruct (lookup_lt_is_Some_2 ms i) as [m Hm]; [apply Hi; intros ->; cbn in Ha; lia|]. rewrite Hm.
    cbn [mbind option_bind]. eapply runs_bind; [apply Hf; [done|by eapply set_monitor]|].
    intros m' Ho. apply runs_ret. split; [by eapply normal_outcome|]. cbn.
    rewrite list_fmap_insert. rewrite (list_insert_id (mo_output <$> ms)); [done|].
    rewrite list_lookup_fmap, Hm. cbn. destruct Ho as [_ _ _ Hk _]. by injection Hk as ->.
  - apply runs_ret. split; [by apply layout_keeps_refl|by rewrite E].
Qed.

Lemma on_monitors_runs c f indices ly :
  ok c ly → (ly_monitors ly ≠ [] → Forall (λ i, i < length (ly_monitors ly)) indices) →
  (∀ i m, monitor_ok par c m → runs (f i m) (λ m', mon_keeps par c m m' c)) →
  runs (on_monitors f indices ly) (looped c ly).
Proof.
  intros Hok Hi Hf. revert ly Hok Hi. induction indices as [|i indices IH]; intros ly Hok Hi; cbn [on_monitors].
  { by apply runs_ret, looped_refl. }
  eapply runs_bind; [apply (on_monitor_runs c); [done| |by auto]|].
  { by intros [H _]%Hi%Forall_cons. }
  intros ly1 H1. pose proof (frame_count _ _ (proj2 H1)) as Hlen.
  eapply runs_weaken; [apply IH; [by eapply looped_ok|]|intros ly2; by eapply looped_trans].
  rewrite Hlen. intros Hne. assert (Hne' : ly_monitors ly ≠ []).
  { intros E. rewrite E in Hlen. by apply length_zero_iff_nil in Hlen. }
  by apply Hi, Forall_cons in Hne' as [_ ?].
Qed.

Lemma for_monitors_runs c f ly :
  ok c ly → (∀ i m, monitor_ok par c m → runs (f i m) (λ m', mon_keeps par c m m' c)) →
  runs (for_monitors f ly) (looped c ly).
Proof.
  intros Hok Hf. apply on_monitors_runs; [done| |done]. intros _. apply Forall_forall.
  by intros i [_ ?]%elem_of_seq.
Qed.

(** ** Workspaces *)
Lemma with_workspace_elsewhere {B} ly p w (f : Workspace → option (B * Workspace)) r q ws :
  at_place ly p w → with_workspace ly p f = Some r → q ≠ p → at_place (snd r) q ws ↔ at_place ly q ws.
Proof.
  destruct p as [i j], q as [i' j']. intros (k & Hk & Hw) E Hne. unfold with_workspace, at_place, ly_stacks, on_workspace in *.
  cbn [fst snd] in *. destruct (ly_set ly) as [ms p a|l] eqn:Es.
  - apply list_lookup_fmap_Some in Hk as (m & -> & Hm). rewrite Hm in E. cbn in E. rewrite Hw in E. cbn in E.
    destruct (f w) as [[b ws']|]; cbn in E; [|done]. injection E as <-. cbn.
    rewrite !list_lookup_fmap. destruct (decide (i' = i)) as [->|Hi].
    + rewrite list_lookup_insert_eq by (by eapply lookup_lt_Some). rewrite Hm. cbn.
      split; intros (k & [= <-] & Hx); eexists; (split; [done|]); rewrite list_lookup_insert_ne in * by congruence; done.
    + by rewrite list_lookup_insert_ne.
  - destruct i as [|i]; [|done]. injection Hk as <-. rewrite Hw in E. cbn in E.
    destruct (f w) as [[b ws']|]; cbn in E; [|done]. injection E as <-. cbn. destruct i' as [|i']; [|done]. cbn.
    split; intros (k & [= <-] & Hx); eexists; (split; [done|]); rewrite list_lookup_insert_ne in * by congruence; done.
Qed.

Lemma with_workspace_frame {B} ly p (f : Workspace → option (B * Workspace)) r :
  with_workspace ly p f = Some r → ly_frame (snd r) = ly_frame ly.
Proof.
  unfold with_workspace, ly_frame, ly_outputs, ly_monitors, on_workspace. intros E.
  destruct (ly_set ly) as [ms pr a|l] eqn:Es.
  - destruct (ms !! fst p) as [m|] eqn:Hm; cbn in E; [|done].
    destruct (_ !! snd p); cbn in E; [|done]. destruct (f _); cbn in E; [|done]. injection E as <-. cbn.
    by rewrite list_fmap_insert, (list_insert_id (mo_output <$> ms)) by (by rewrite list_lookup_fmap, Hm).
  - destruct (_ !! snd p); cbn in E; [|done]. destruct (f _); cbn in E; [|done]. by injection E as <-.
Qed.

(** Each workspace is visited once, as it was. *)
Lemma on_places_runs c f places ly :
  ok c ly → NoDup places → (∀ q, q ∈ places → ∃ ws, at_place ly q ws) →
  (∀ q ws, q ∈ places → at_place ly q ws → workspace_ok par ws → runs (f ws) (ws_keeps par ws)) →
  runs (on_places f places ly) (looped c ly).
Proof.
  intros Hok Hnd. revert ly Hok. induction places as [|p places IH]; intros ly Hok Hex Hf; cbn [on_places].
  { by apply runs_ret, looped_refl. }
  apply NoDup_cons in Hnd as [Hp Hnd]. destruct (Hex p) as [ws Hws]; [by left|].
  pose proof (at_place_ok par c ly p ws Hok Hws) as Hwok.
  destruct (with_workspace_runs par c ly p ws (λ ws, ws ← f ws; Some (tt, ws))) as (r & E & Hk & _); [done|done| |].
  { eapply runs_bind; [apply (Hf p); [by left|done..]|]. intros ws' H. by apply runs_ret. }
  rewrite E. cbn [mbind option_bind]. pose proof (with_workspace_frame _ _ _ _ E) as Hfr.
  assert (Hother : ∀ q w, q ∈ places → at_place (snd r) q w ↔ at_place ly q w).
  { intros q w Hq. eapply with_workspace_elsewhere; [done..|]. by intros ->. }
  eapply runs_weaken; [apply IH; [done|apply Hk| |]|].
  - intros q Hq. destruct (Hex q) as [w Hw]; [by right|]. exists w. by apply Hother.
  - intros q w Hq Hw. apply (Hf q); [by right|]. by apply Hother.
  - intros ly'. by apply looped_trans.
Qed.

Lemma elem_of_stack_places i j k stacks :
  (i, j) ∈ stack_places k stacks ↔ k ≤ i ∧ ∃ l, stacks !! (i - k) = Some l ∧ j < length l.
Proof.
  revert k. induction stacks as [|l stacks IH]; intros k; cbn [stack_places].
  - split; [by intros ?%not_elem_of_nil|]. by intros (_ & l & ? & _).
  - rewrite elem_of_app, list_elem_of_fmap, IH. split.
    + intros [(j' & [= -> ->] & [_ Hj]%elem_of_seq)|(Hk & l' & Hl & Hj)].
      * rewrite Nat.sub_diag. split; [lia|]. exists l. split; [done|lia].
      * split; [lia|]. exists l'. replace (i - k) with (S (i - S k)) by lia. done.
    + intros (Hk & l' & Hl & Hj). destruct (decide (i = k)) as [->|Hne].
      * rewrite Nat.sub_diag in Hl. injection Hl as ->. left. exists j. split; [done|]. apply elem_of_seq. lia.
      * right. split; [lia|]. exists l'. replace (i - k) with (S (i - S k)) in Hl by lia. done.
Qed.

Lemma stack_places_NoDup k stacks : NoDup (stack_places k stacks).
Proof.
  revert k. induction stacks as [|l stacks IH]; intros k; cbn [stack_places]; [constructor|].
  apply NoDup_app. split_and!; [|intros [i j]|apply IH].
  - apply NoDup_fmap; [by intros ?? [=]|apply NoDup_seq].
  - intros (j' & [= -> ->] & _)%list_elem_of_fmap [Hk _]%elem_of_stack_places. lia.
Qed.

Lemma stack_place_at ly q : q ∈ stack_places 0 (ly_stacks ly) → ∃ ws, at_place ly q ws.
Proof.
  destruct q as [i j]. intros (_ & l & Hl & [ws Hws]%lookup_lt_is_Some_2)%elem_of_stack_places.
  rewrite Nat.sub_0_r in Hl. by exists ws, l.
Qed.

Lemma some_places_runs c f (p : nat * nat → bool) ly :
  ok c ly → (∀ ws, workspace_ok par ws → runs (f ws) (ws_keeps par ws)) →
  runs (on_places f (List.filter p (stack_places 0 (ly_stacks ly))) ly) (looped c ly).
Proof.
  intros Hok Hf. apply on_places_runs; [done| | |by auto].
  - apply NoDup_ListNoDup, List.NoDup_filter, NoDup_ListNoDup, stack_places_NoDup.
  - intros q [Hq _]%list_elem_of_In%List.filter_In. by apply stack_place_at, list_elem_of_In.
Qed.

Lemma for_workspaces_runs c f ly :
  ok c ly → (∀ ws, workspace_ok par ws → runs (f ws) (ws_keeps par ws)) → runs (for_workspaces f ly) (looped c ly).
Proof.
  intros Hok Hf. unfold for_workspaces. apply on_places_runs; [done|apply stack_places_NoDup|apply stack_place_at|by auto].
Qed.

(** ** View gestures *)
Section views.
  Context (env : ViewEnv) (Hv : view_ok env).

Lemma ws_dnd_begin_keeps ws : workspace_ok par ws → ws_keeps par ws (ws_dnd_begin env ws).
Proof using.
  intros Hok. unfold ws_dnd_begin. case_match; [|by apply ws_keeps_refl].
  apply set_scrolling_keeps; [done|]. destruct Hok as [[H1 H2 H3 H4] _ _ _ _]. split; [by split|done].
Qed.

Lemma ws_view_end_runs ws : workspace_ok par ws → runs (ws_view_end env ws) (ws_keeps par ws).
Proof using Hv.
  intros Hok. unfold ws_view_end. destruct (ve_gesture env ws) as [[[vs current] target]|] eqn:E;
    [|by apply runs_ret, ws_keeps_refl].
  destruct (sc_is_empty _) eqn:He; [by apply runs_ret, ws_keeps_refl|].
  destruct (vo_gesture _ Hv _ _ _ _ E) as (Hlen & _ & Hs).
  { intros H%sc_is_empty_true. congruence. }
  eapply runs_bind; [by apply view_gesture_end_runs|]. intros r [Hi _].
  apply runs_ret, set_scrolling_keeps; [done|].
  destruct Hok as [[H1 H2 H3 H4] _ _ _ _]. split; [split; [done|left; cbn; congruence|done|done]|done].
Qed.

Lemma begin_monitors_runs c ly : ok c ly → runs (begin_monitors env ly) (looped c ly).
Proof using Hv.
  intros Hok. apply for_monitors_runs; [done|]. intros i m Hm. apply runs_ret, dnd_begin_keeps; [done|apply Hv].
Qed.

Lemma room_monitor c ly : ly_room c ly → room 2 c.
Proof using. apply room_less. lia. Qed.

Lemma end_monitors_runs c ly : ok c ly → ly_room c ly → runs (end_monitors env ly) (looped c ly).
Proof using Hv.
  intros Hok Hr. apply for_monitors_runs; [done|]. intros i m Hm.
  eapply dnd_end_runs; [done|by eapply room_monitor|apply Hv].
Qed.

Lemma begin_workspaces_runs c ly : ok c ly → runs (begin_workspaces env ly) (looped c ly).
Proof using.
  intros Hok. apply for_workspaces_runs; [done|]. intros ws Hws. by apply runs_ret, ws_dnd_begin_keeps.
Qed.

Lemma end_workspaces_runs c ly : ok c ly → runs (end_workspaces env ly) (looped c ly).
Proof using Hv.
  intros Hok. apply for_workspaces_runs; [done|]. intros ws Hws. by apply ws_view_end_runs.
Qed.

Lemma view_begin_runs c ly output idx :
  ok c ly → ly_monitors ly ≠ [] → runs (view_offset_gesture_begin env ly output idx) (looped c ly).
Proof using Hv.
  intros Hok Hne. unfold view_offset_gesture_begin, ly_monitors in *. destruct (ly_set ly); [|done].
  apply some_places_runs; [done|]. intros ws Hws. by apply ws_view_end_runs.
Qed.

Lemma view_end_runs c ly : ok c ly → runs (view_offset_gesture_end env ly) (looped c ly).
Proof using Hv.
  intros Hok. unfold view_offset_gesture_end. destruct (ly_set ly); [|by apply runs_ret, looped_refl].
  destruct (find_place _ _) as [[i j]|] eqn:E; [|by apply runs_ret, looped_refl].
  apply find_place_Some in E as (l & ws & Hl & Hj & _ & _).
  assert (Hat : at_place ly (i, j) ws) by (by exists l).
  destruct (with_workspace_runs par c ly (i, j) ws (λ ws, ws ← ws_view_end env ws; Some (tt, ws))) as (r & E & Hk & _);
    [done|done| |].
  { eapply runs_bind; [by apply ws_view_end_runs, (at_place_ok par c ly (i, j))|]. intros ws' H. by apply runs_ret. }
  rewrite E. apply runs_ret. split; [done|]. by eapply with_workspace_frame.
Qed.

Lemma switch_begin_runs c ly output t :
  ok c ly → ly_room c ly → ly_monitors ly ≠ [] → runs (ly_switch_gesture_begin env ly output t) (looped c ly).
Proof using Hv.
  intros Hok Hr Hne. unfold ly_switch_gesture_begin, ly_monitors in *. destruct (ly_set ly); [|done].
  apply for_monitors_runs; [done|]. intros i m Hm. case_decide.
  - apply runs_ret, gesture_begin_keeps; [done|apply Hv].
  - eapply runs_fmap; [eapply gesture_end_runs; [done|by eapply room_monitor|apply Hv]|]. by intros r.
Qed.

(** A loop over the monitors that stops at the first one concerned. *)
Lemma first_monitor_runs {B} c ly ms p a (f : Monitor → option (Monitor * option B)) :
  ok c ly → ly.(ly_set) = SetNormal ms p a →
  (∀ m, monitor_ok par c m → runs (f m) (λ r, mon_keeps par c m (fst r) c ∧ (snd r = None → fst r = m))) →
  runs (r ← first_that f ms; Some (set_ly_set (SetNormal (fst r) p a) ly)) (looped c ly).
Proof using.
  intros Hok E Hf. pose proof (layout_windows_NoDup par c ly Hok) as Hnd.
  destruct (normal_parts par c ly ms p a Hok E) as (Hp & Ha & Hs).
  pose proof (st_monitors _ _ _ _ _ _ Hs) as HM. rewrite Forall_forall in HM.
  eapply runs_bind; [apply first_that_runs; intros m Hm; eapply runs_weaken; [by apply Hf, HM|naive_solver]|].
  intros r [[-> _]|(i & m & m' & b & Hi & Em & ->)]; cbn [fst snd]; apply runs_ret.
  - assert (E2 : set_ly_set (SetNormal ms p a) ly = ly) by (rewrite <- E; by destruct ly).
    rewrite E2. by apply looped_refl.
  - destruct (Hf m) as (x & Ex & Hk & _); [by eapply HM, list_elem_of_lookup_2|].
    rewrite Em in Ex. injection Ex as <-. cbn [fst snd] in Hk. split; [by eapply normal_outcome|].
    unfold ly_frame, ly_outputs, ly_monitors. rewrite E. cbn. rewrite list_fmap_insert, (list_insert_id (mo_output <$> ms)); [done|].
    rewrite list_lookup_fmap, Hi. cbn. destruct Hk as [_ _ _ Hk _]. by injection Hk as ->.
Qed.
End views.

Lemma switch_update_runs c ly zoom pos t :
  ok c ly → ly_room c ly → f64_ok pos → runs (ly_switch_gesture_update ly zoom pos t) (looped c ly).
Proof.
  intros Hok Hr Hpos. unfold ly_switch_gesture_update. destruct (ly_set ly) as [ms p a|l] eqn:E; [|by apply runs_ret, looped_refl].
  eapply first_monitor_runs; [done|done|]. intros m Hm.
  destruct (gesture_update_runs par 2 c m zoom pos t) as (r & Er & Hk); [done|by eapply room_monitor|done|].
  exists r. split_and!; [done|done|]. intros Hn. unfold workspace_switch_gesture_update in Er.
  repeat (case_match; simplify_eq/=; try done). all: by destruct (band_clamp _ _ _ _); cbn in Er; [case_match|]; simplify_eq/=.
Qed.

Lemma switch_end_runs c ly pos t :
  ok c ly → ly_room c ly → f64_ok pos → runs (ly_switch_gesture_end ly pos t) (looped c ly).
Proof.
  intros Hok Hr Hpos. unfold ly_switch_gesture_end. destruct (ly_set ly) as [ms p a|l] eqn:E; [|by apply runs_ret, looped_refl].
  eapply first_monitor_runs; [done|done|]. intros m Hm.
  destruct (gesture_end_runs par 2 c m pos t) as (r & Er & Hk); [done|by eapply room_monitor|done|].
  rewrite Er. cbn [mbind option_bind]. apply runs_ret. cbn [fst snd]. split; [done|].
  destruct (snd r) eqn:Eb; [done|]. intros _. unfold workspace_switch_gesture_end in Er.
  repeat (case_match; simplify_eq/=; try done).
  all: destruct (f64_clamp _ _ _); cbn in Er; [|done]; destruct (remember_previous _ _); cbn in Er; by simplify_eq/=.
Qed.

End loops.
