(* ===== verification/LayoutMoveDrop.v ===== *)
(** * Interactive moves: the window that leaves the layout and is dropped

    Unfullscreening and unmaximizing a window, before it is removed from its workspace to be held,
    leaves it at the normal size, wherever it goes back to.  When it is dropped it goes to the
    workspace under the pointer, or to a new one between two workspaces. *)
From stdpp Require Import gmap strings.
From S2P Require Import Prelude LayoutScrolling LayoutScrollingOps LayoutFloating LayoutOutput LayoutWorkspace LayoutWorkspaceOps LayoutWorkspaceProps LayoutMonitor LayoutMonitorOps LayoutMonitorMoves LayoutMonitorProps LayoutSet LayoutSetOwn LayoutSetOps LayoutSetOutputs LayoutSetMoves LayoutSetWindows LayoutMove LayoutMoveGeometry LayoutMoveOps.

(** What holds of the column of a window, if it is tiled. *)
Definition column_of (Q : Column → Prop) (w : N) (s : ScrollingSpace) : Prop :=
  ∀ c, c ∈ sc_columns s → w ∈ col_windows c → Q c.

Definition sized (fs mx : bool) (c : Column) : Prop := c.(co_fullscreen) = fs ∧ c.(co_maximized) = mx.

Lemma column_of_weaken (Q Q' : Column → Prop) w s : (∀ c, Q c → Q' c) → column_of Q w s → column_of Q' w s.
Proof. unfold column_of. eauto. Qed.

Lemma repended_column s s' i c fs mx w :
  scrolling_ok s → s.(sc_columns) !! i = Some c → w ∈ col_windows c → column_repended s s' i c fs mx →
  column_of (sized fs mx) w s'.
Proof.
  intros Hs Hi Hw (c' & Hc & _ & _ & _ & _ & _ & Hf & Hm & _) d [k Hk]%list_elem_of_lookup Hd.
  rewrite Hc in Hk. apply list_lookup_insert_Some in Hk as [(-> & <- & _)|(Hne & Hk)]; [done|].
  pose proof (position_col_unique s i c w Hs Hi Hw) as E1. pose proof (position_col_unique s k d w Hs Hk Hd) as E2.
  congruence.
Qed.

Lemma first_that_found {A B} (f : A → option (A * option B)) l r i b :
  first_that f l = Some r → snd r = Some (i, b) → ∃ x x', l !! i = Some x ∧ f x = Some (x', Some b).
Proof.
  revert r i. induction l as [|x l IH]; intros r i E Hr; cbn in E; [by injection E as <-|].
  apply bind_Some in E as ([x' [b'|]] & Ef & E); cbn in E.
  - injection E as <-. injection Hr as <- <-. by exists x, x'.
  - apply bind_Some in E as ([l' o] & El & E). destruct o as [[j b']|]; cbn in E; injection E as <-; [|done].
    injection Hr as <- <-. by apply (IH _ _ El).
Qed.

Section sizing.
  Context (par : N → option N) (Hcycle : no_cycle par) (g : Placement).
Local Abbreviation ok := (workspace_ok par).

Lemma floating_not_tiled ws w Q : ok ws → fl_has_window ws.(ws_floating) w = true → column_of Q w ws.(ws_scrolling).
Proof.
  intros Hok Hf%fl_has_window_spec c Hc Hw. pose proof (wo_distinct _ _ Hok) as Hd. unfold ws_windows in Hd.
  apply NoDup_app in Hd as (_ & Hd & _). destruct (Hd w); [|done].
  apply list_elem_of_join. exists (col_windows c). split; [done|]. by apply list_elem_of_fmap_2.
Qed.

Lemma tiled_column ws w :
  w ∈ windows ws.(ws_scrolling) → ∃ i c, sc_columns ws.(ws_scrolling) !! i = Some c ∧ w ∈ col_windows c.
Proof.
  intros (l & Hwl & (c & -> & [i Hi]%list_elem_of_lookup)%list_elem_of_fmap)%list_elem_of_join. by exists i, c.
Qed.

Lemma resize_column ws w restore apply ws' fs mx :
  ok ws → w ∈ windows ws.(ws_scrolling) →
  runs (apply ws.(ws_scrolling)) (λ r, keeps ws.(ws_scrolling) (fst r) ∧ column_of (sized fs mx) w (fst r)) →
  resize_in_scrolling ws w restore apply = Some ws' → column_of (sized fs mx) w ws'.(ws_scrolling).
Proof using.
  intros Hok Hw (r & Er & Hk%keeps_sc_keeps & Hc). unfold resize_in_scrolling. rewrite Er.
  destruct (sc_find_tile_some _ _ Hw) as [t ->]. cbn [mbind option_bind].
  assert (Hw' : w ∈ windows (fst r)) by (by rewrite (proj2 Hk)).
  destruct (sc_find_tile_some _ _ Hw') as [t' ->]. cbn [mbind option_bind].
  destruct (_ && _); [|by intros [= <-]].
  destruct (sc_update_tile_runs (fst r) w (set_tl_restore restore)) as (s & -> & _ & i & j & c & u & Hi & Hj & Hu & ->);
    [apply Hk|done|done|]. cbn [mbind option_bind]. intros [= <-]. intros d [k Hd]%list_elem_of_lookup. cbn in Hd.
  apply list_lookup_insert_Some in Hd as [(-> & <- & _)|(Hne & Hd)]; [|intros; apply Hc; [by eapply list_elem_of_lookup_2|done]].
  intros _. destruct (Hc c) as [Hf Hm]; [by eapply list_elem_of_lookup_2| |done].
  rewrite <- Hu. by eapply list_elem_of_fmap_2, list_elem_of_lookup_2.
Qed.

Lemma toggled_column ws w ws' Q :
  ok ws → w ∈ ws_windows ws → fl_has_window ws.(ws_floating) w = false →
  toggle_window_floating par g ws (Some w) = Some ws' → column_of Q w ws'.(ws_scrolling).
Proof.
  intros Hok Hw Hf E. destruct (toggle_window_floating_runs par Hcycle g ws (Some w) Hok) as (x & Ex & Hk & Hfl).
  { by intros ? [= <-]. }
  rewrite E in Ex. injection Ex as <-. apply floating_not_tiled; [apply Hk|].
  destruct (Hfl w eq_refl) as [-> _]. by rewrite Hf.
Qed.

Lemma tiled_pending ws i c :
  ok ws → sc_columns ws.(ws_scrolling) !! i = Some c → Forall (λ t, t.(tl_pending) = pending_sizing_mode c) c.(co_tiles).
Proof using. intros [Hs _ _ _ _] Hi. exact (co_pending_ok _ (column_lookup_ok _ _ _ Hs Hi)). Qed.

Lemma unset_fullscreen_column ws w :
  ok ws → w ∈ ws_windows ws →
  runs (ws_set_fullscreen par g ws w false) (λ ws', ws_keeps par ws ws' ∧
    column_of (λ c, c.(co_fullscreen) = false) w ws'.(ws_scrolling)).
Proof.
  intros Hok Hw. destruct (ws_set_fullscreen_runs par Hcycle g ws w false Hok Hw) as (ws' & E & Hk).
  exists ws'. split_and!; [done|done|]. unfold ws_set_fullscreen in E.
  destruct (fl_has_window (ws_floating ws) w) eqn:Hf; [injection E as <-; by apply floating_not_tiled|].
  pose proof (in_scrolling ws w Hw Hf) as Hws. cbn [andb] in E.
  destruct (find_column ws w Hws) as (c0 & t & Hfc & Ht). rewrite Hfc in E. cbn [mbind option_bind] in E.
  assert (Hr : ∀ restore : bool, (if restore then toggle_window_floating par g ws (Some w)
      else resize_in_scrolling ws w false (λ s, sc_set_fullscreen s w false)) = Some ws' →
      column_of (λ c, c.(co_fullscreen) = false) w ws'.(ws_scrolling)).
  { intros [|] Er; [by eapply (toggled_column ws)|]. destruct (tiled_column ws w Hws) as (i & c & Hi & Hc).
    apply (column_of_weaken (sized false c.(co_maximized))); [by intros ? []|].
    eapply resize_column; [done|done| |done].
    destruct (sc_set_fullscreen_runs (ws_scrolling ws) w false (wo_scrolling _ _ Hok) Hws) as (r & Ers & Hks).
    destruct (unset_fullscreen_runs (ws_scrolling ws) i c w) as (r' & Er' & Hrep);
      [apply Hok|done|done|by eapply tiled_pending|].
    exists r. split_and!; [done|apply Hks|]. assert (r' = r) as -> by congruence.
    eapply repended_column; [apply Hok|done..]. }
  destruct (co_fullscreen c0 && negb (co_maximized c0)); [rewrite Ht in E|]; cbn [mbind option_bind] in E;
    [exact (Hr _ E)|exact (Hr false E)].
Qed.

Lemma unset_maximized_column ws w :
  ok ws → w ∈ ws_windows ws → column_of (λ c, c.(co_fullscreen) = false) w ws.(ws_scrolling) →
  runs (ws_set_maximized par g ws w false) (λ ws', ws_keeps par ws ws' ∧
    column_of (sized false false) w ws'.(ws_scrolling)).
Proof.
  intros Hok Hw Hfs. destruct (ws_set_maximized_runs par Hcycle g ws w false Hok Hw) as (ws' & E & Hk).
  exists ws'. split_and!; [done|done|]. unfold ws_set_maximized in E.
  destruct (fl_has_window (ws_floating ws) w) eqn:Hf; [injection E as <-; by apply floating_not_tiled|].
  pose proof (in_scrolling ws w Hw Hf) as Hws. cbn [andb] in E.
  destruct (sc_find_tile_some _ _ Hws) as [t Ht]. rewrite Ht in E. cbn [mbind option_bind] in E.
  destruct (_ && _); [by eapply toggled_column|]. destruct (tiled_column ws w Hws) as (i & c & Hi & Hc).
  eapply resize_column; [done|done| |done].
  destruct (sc_set_maximized_runs (ws_scrolling ws) w false (wo_scrolling _ _ Hok) Hws) as (r & Ers & Hks).
  destruct (unset_maximized_runs (ws_scrolling ws) i c w) as (r' & Er' & Hrep);
    [apply Hok|done|done|by eapply tiled_pending|].
  exists r. split_and!; [done|apply Hks|]. assert (r' = r) as -> by congruence.
  rewrite (Hfs c (list_elem_of_lookup_2 _ _ _ Hi) Hc) in Hrep. eapply repended_column; [apply Hok|done..].
Qed.

Lemma unset_sizing_runs ws w :
  ok ws → w ∈ ws_windows ws →
  runs (unset_sizing par g w ws) (λ ws', ws_keeps par ws ws' ∧ column_of (sized false false) w ws'.(ws_scrolling)).
Proof.
  intros Hok Hw. unfold unset_sizing. eapply runs_bind; [by apply unset_fullscreen_column|].
  intros ws1 [H1 Hc]. eapply runs_weaken; [apply unset_maximized_column; [apply H1| |done]|].
  - destruct H1 as (_ & -> & _). done.
  - intros ws2 [H2 Hc2]. split; [by eapply ws_keeps_trans|done].
Qed.

(** ** The tile that is removed *)
Lemma removed_normal ws w :
  ok ws → w ∈ ws_windows ws → column_of (sized false false) w ws.(ws_scrolling) →
  runs (ws_remove_tile g ws w) (λ r, tl_pending (rt_tile (fst r)) = SizeNormal).
Proof.
  intros Hok Hw Hc. unfold ws_remove_tile. destruct (fl_has_window (ws_floating ws) w) eqn:Hf.
  - apply fl_has_window_spec in Hf.
    destruct (fl_remove_tile_runs par (pl_width g) _ _ (wo_floating _ _ Hok) Hf) as (r & -> & _ & _ & _ & Hp & _).
    by apply runs_ret.
  - pose proof (in_scrolling ws w Hw Hf) as Hws. unfold sc_remove_tile.
    destruct (position_col_runs _ w Hws) as (i & -> & c & j & t & Hi & Hp & Hj & Ht). cbn [mbind option_bind].
    rewrite Hi. cbn [mbind option_bind]. rewrite Hp. cbn [mbind option_bind].
    destruct (remove_tile_runs _ i j c t (wo_scrolling _ _ Hok) Hi Hj) as (r & -> & Hr & _).
    apply runs_ret. cbn. rewrite Hr. pose proof (tiled_pending ws i c Hok Hi) as Hpe.
    rewrite (Forall_lookup_1 _ _ _ _ Hpe Hj). destruct (Hc c) as [Hfs Hmx].
    + by eapply list_elem_of_lookup_2.
    + rewrite <- Ht. by eapply list_elem_of_fmap_2, list_elem_of_lookup_2.
    + unfold pending_sizing_mode. by rewrite Hfs, Hmx.
Qed.

(** A removed window comes from its workspace. *)
Lemma mon_remove_source m w r m' :
  mon_remove_window g m w = Some (Some (r, m')) →
  ∃ ws ws', ws ∈ m.(mo_workspaces) ∧ has_window ws w = true ∧ ws_remove_tile g ws w = Some (r, ws').
Proof using.
  unfold mon_remove_window, ws_position. destruct (vec_position _ _) as [i|] eqn:Hp; [|done].
  apply vec_position_Some in Hp as (ws & Hi & Hw). unfold on_workspace. rewrite Hi. cbn [mbind option_bind].
  intros E. destruct (ws_remove_tile g ws w) as [[t ws']|] eqn:Er; [|done]. cbn in E.
  exists ws, ws'. split_and!; [by eapply list_elem_of_lookup_2|done|].
  repeat match type of E with
  | mbind _ ?o = _ => destruct o; [cbn in E|done]
  end. by injection E as -> _.
Qed.

Lemma remove_window_source ly w ly' r :
  remove_window g ly w = Some (ly', Some r) →
  ∃ ws ws', ws ∈ ly_workspaces ly ∧ has_window ws w = true ∧ ws_remove_tile g ws w = Some (r, ws').
Proof using.
  unfold remove_window, ly_workspaces. destruct (ly_set ly) as [ms p a|l].
  - intros (x & Ex & [= <- Hr])%bind_Some. destruct (snd x) as [[i' r']|] eqn:Es; [|done]. injection Hr as ->.
    destruct (first_that_found _ _ _ _ _ Ex Es) as (m & m' & Hm & Ef).
    apply bind_Some in Ef as ([[r2 m2]|] & Er & [= <- E2]). subst r2.
    destruct (mon_remove_source m w r m2 Er) as (ws & ws' & Hws & Hh & Hr). exists ws, ws'. split_and!; [|done..].
    apply list_elem_of_bind. exists m. split; [done|by eapply list_elem_of_lookup_2].
  - destruct (vec_position _ _) as [i|] eqn:Hp; [|done]. apply vec_position_Some in Hp as (ws & Hi & Hw).
    rewrite Hi. cbn [mbind option_bind]. intros (x & Ex & E)%bind_Some.
    apply bind_Some in E as (l' & _ & [= _ E]). exists ws, (snd x).
    split_and!; [by eapply list_elem_of_lookup_2|done|]. by rewrite Ex, <- E, <- surjective_pairing.
Qed.

(** ** The workspace of a window *)
Lemma NoDup_bind_unique (f : Workspace → list N) l x y w :
  NoDup (l ≫= f) → x ∈ l → y ∈ l → w ∈ f x → w ∈ f y → x = y.
Proof.
  induction l as [|z l IH]; csimpl; [by intros _ ?%not_elem_of_nil|]. intros (_ & Hd & Hn)%NoDup_app.
  assert (Hno : ∀ v, v ∈ l → w ∈ f z → w ∈ f v → False).
  { intros v Hv Hz Hw. destruct (Hd w Hz). apply list_elem_of_bind. by exists v. }
  intros [->|Hx]%elem_of_cons [->|Hy]%elem_of_cons; naive_solver.
Qed.

Lemma with_workspace_here {B} ly p ws (f : Workspace → option (B * Workspace)) b ws' :
  at_place ly p ws → f ws = Some (b, ws') →
  ∃ ly', with_workspace ly p f = Some (b, ly') ∧ at_place ly' p ws'.
Proof.
  destruct p as [i j]. intros (l & Hl & Hws) Ef. unfold with_workspace, at_place, ly_stacks, on_workspace in *.
  cbn [fst snd] in *. destruct (ly_set ly) as [ms p a|k] eqn:E.
  - apply list_lookup_fmap_Some in Hl as (m & -> & Hm). rewrite Hm. cbn. rewrite Hws. cbn. rewrite Ef. cbn.
    eexists. split; [done|]. eexists. cbn. split.
    + by rewrite list_lookup_fmap, list_lookup_insert_eq by (by eapply lookup_lt_Some).
    + cbn. by rewrite list_lookup_insert_eq by (by eapply lookup_lt_Some).
  - destruct i as [|i]; [|done]. injection Hl as <-. rewrite Hws. cbn. rewrite Ef. cbn.
    eexists. split; [done|]. eexists. cbn. split; [done|].
    by rewrite list_lookup_insert_eq by (by eapply lookup_lt_Some).
Qed.

(** The held window: it leaves the layout at its normal size. *)
Lemma unset_and_removed c ly p ws w :
  layout_ok par c ly → at_place ly p ws → has_window ws w = true →
  runs (r ← with_workspace ly p (λ ws, ws ← unset_sizing par g w ws; Some (tt, ws)); remove_window g (snd r) w)
    (λ q, ∃ t, snd q = Some t ∧ tl_window (rt_tile t) = w ∧ tl_pending (rt_tile t) = SizeNormal ∧
      layout_outcome par c ly [] [w] (fst q) c).
Proof.
  intros Hok Hp Hw%has_window_spec. pose proof (at_place_ok par c ly p ws Hok Hp) as Hwok.
  destruct (unset_sizing_runs ws w Hwok Hw) as (ws' & Eu & Hk & Hc).
  set (f := λ ws, ws ← unset_sizing par g w ws; Some (tt, ws)).
  assert (Ef : f ws = Some (tt, ws')) by (unfold f; by rewrite Eu).
  destruct (with_workspace_runs par c ly p ws f Hok Hp) as (r & Er & Ho & _).
  { rewrite Ef. by apply runs_ret. }
  destruct (with_workspace_here ly p ws f tt ws' Hp Ef) as (ly1 & Er' & Hp').
  rewrite Er in Er'. injection Er' as ->. rewrite Er. cbn [mbind option_bind snd] in *.
  assert (Hw' : w ∈ ws_windows ws') by (destruct Hk as (_ & -> & _); done).
  assert (Hws' : ws' ∈ ly_workspaces ly1).
  { apply in_stacks. destruct Hp' as (l & Hl & Hws). exists l. split; by eapply list_elem_of_lookup_2. }
  assert (Hin : w ∈ ly_windows ly1) by (apply list_elem_of_bind; by exists ws').
  destruct Ho as [Hok1 Hwin1 Hc1].
  destruct (remove_window_runs par g c ly1 w Hok1 Hin) as ([ly2 o] & E2 & t & E3 & Ht & Ho2).
  cbn in E3. subst o. exists (ly2, Some t). split; [done|]. exists t. cbn [fst snd]. split_and!; [done|done| |].
  - destruct (remove_window_source ly1 w ly2 t E2) as (ws2 & ws3 & H2 & Hh2%has_window_spec & E4).
    assert (ws2 = ws') as ->.
    { by eapply (NoDup_bind_unique ws_windows); [eapply (layout_windows_NoDup par c ly1)|..]. }
    destruct (removed_normal ws' w) as (q & Eq & Hq); [apply Hk|done..|]. rewrite E4 in Eq. by injection Eq as <-.
  - destruct Ho2 as [Hok2 Hwin2 Hc2]. split; [done| |lia]. cbn [fst app] in *. by rewrite Hwin2, Hwin1.
Qed.

End sizing.

(** ** Dropping the held window

    The held window goes to the workspace under the pointer, or to a new one between two
    workspaces, and every other window stays where it is known. *)

Lemma wp_bind_inv {A B} (o : Fresh A) (f : A → Fresh B) Q c : wp (o ≫= f) Q c → wp o (λ a, wp (f a) Q) c.
Proof.
  intros (b & c' & E & H). unfold mbind, Fresh_bind in E. apply bind_Some in E as ([a c1] & Eo & Ef).
  exists a, c1. split; [done|]. by exists b, c'.
Qed.

Section drop.
  Context (par : N → option N) (Hcycle : no_cycle par).
Local Abbreviation mok := (monitor_ok par).

(** ** Between the ends *)

(** A place that needs no empty workspace next to it once it is filled. *)
Definition interior (m : Monitor) (idx : nat) : Prop :=
  idx < mo_count m - 1 ∧ (mo_above_first m = true → 0 < idx).

Lemma add_interior m idx f m' i : add_to_workspace m idx f = Some m' → interior m i → interior m' i.
Proof.
  unfold add_to_workspace. intros (ws & _ & (ws' & _ & [= <-])%bind_Some)%bind_Some [H1 H2].
  split; [|exact H2]. by rewrite update_count.
Qed.

Lemma pad_interior m idx c : interior m idx → pad_workspaces m idx c = Some ((m, idx), c).
Proof.
  intros [Hi Ha]. unfold pad_workspaces. rewrite last_idx_some by lia. unfold pad.
  change (lift (Some (mo_count m - 1)) ≫= ?f) with (f (mo_count m - 1)).
  cbn beta. destruct (Nat.eqb_spec idx (mo_count m - 1)); [lia|].
  unfold mbind, Fresh_bind, mret, Fresh_ret. cbn [mbind option_bind].
  destruct (mo_above_first m) eqn:E; cbn [andb]; [|done].
  destruct (Nat.eqb_spec idx 0); [specialize (Ha eq_refl); lia|done].
Qed.

Lemma occupied_interior c m idx ws :
  mon_loose par c m → m.(mo_workspaces) !! idx = Some ws → ws_windows ws ≠ [] → interior m idx.
Proof.
  intros [_ [H1 H2 H3 _] _ _] Hi Hw%occupied_by_window. pose proof (lookup_lt_Some _ _ _ Hi) as Hlt.
  fold (mo_count m) in Hlt. split.
  - destruct (decide (idx = mo_count m - 1)) as [->|]; [|lia].
    exfalso. eapply occupied_not_vacant; [exact Hw|]. by apply H2.
  - intros Ha. destruct idx; [|lia]. exfalso. eapply occupied_not_vacant; [exact Hw|]. by apply H3.
Qed.

(** Windows added there. *)
Lemma fill_interior c m idx ws f k (b : bool) :
  mon_loose par c m → (m.(mo_switch) = None → middle_ok (Some idx) m) → interior m idx →
  m.(mo_workspaces) !! idx = Some ws → runs (f ws) (added_windows par k ws) → k ≠ [] → NoDup (k ++ mon_windows m) →
  runs (m ← add_to_workspace m idx f; if b then activate_workspace m idx else Some m)
    (λ m', mon_outcome par c m k [] m' c).
Proof.
  intros Hl Hmid [Hlast Hfirst] Hi (ws' & Ef & Hadd) Hk Hnd. unfold add_to_workspace. rewrite Hi. cbn [mbind option_bind].
  rewrite Ef. cbn [mbind option_bind]. set (ws1 := own_workspace m.(mo_output) ws').
  destruct (stack_added par _ _ c _ idx ws ws' k (ml_stack _ _ _ Hl) Hi Hadd Hnd) as [Hst1 Hw1].
  pose proof Hadd as (_ & Hw & Hm). fold ws1 in Hst1, Hw1.
  assert (Hocc : occupied ws1).
  { apply own_workspace_occupied, occupied_by_window. rewrite (perm_nil _ _ Hw). by destruct k. }
  set (m1 := set_mo_workspaces (<[idx := ws1]> m.(mo_workspaces)) m).
  pose proof (update_count m idx ws1) as Hcount. fold m1 in Hcount.
  destruct Hl as [Hst Hends Hsw Hop].
  assert (Hl1 : mon_loose par c m1).
  { split; [exact Hst1| | |exact Hop].
    - destruct (update_ends m idx ws1 Hends) as [U1 U2 U3 U4]. fold m1 in U1, U2, U3, U4. split; [done| | |done].
      + intros x Hx _. apply U2; [done|]. intros [= E]. lia.
      + intros x Haf Hx _. apply U3; [done|done|]. intros [= E]. specialize (Hfirst Haf). lia.
    - apply switch_ok_update; [apply length_insert|done]. }
  assert (Hmid1 : middle_settled m1).
  { intros Hn i x Hs Hlt Ha _ Hx. destruct (decide (i = idx)) as [->|Hne].
    - cbn in Hx. rewrite list_lookup_insert_eq in Hx by (by eapply lookup_lt_Some). by injection Hx as <-.
    - rewrite Hcount in Hlt. apply (Hmid Hn i); [done..|congruence|]. by apply update_lookup in Hx. }
  assert (Ho : ∀ m', mo_kept m' = mo_kept m → m'.(mo_workspaces) = m1.(mo_workspaces) → monitor_ok par c m' →
            mon_outcome par c m k [] m' c).
  { intros m' Hkm Em Hok. split; [done| |lia|done|].
    - unfold mon_windows. rewrite Em. exact Hw1.
    - rewrite Em. eapply new_ids_update; [done|]. by apply own_descends, meta_descends. }
  destruct b; [|by apply runs_ret, Ho; [..|apply monitor_ok_loose]].
  assert (Hidx : idx < mo_count m1) by (rewrite Hcount; by eapply lookup_lt_Some).
  eapply runs_weaken; [apply activate_workspace_runs; [apply Hl1|done]|].
  intros m' Hact. apply Ho; [exact (kept_meta m1 m' (ac_meta _ _ _ Hact))|apply Hact|].
  apply monitor_ok_loose. split; [by eapply (activated_loose m1)|by eapply (activated_middle m1)].
Qed.

(** ** A new workspace *)
Lemma insert_new_lookup m idx c i :
  idx ≤ mo_count m →
  (insert_new m idx c).(mo_workspaces) !! i =
    if decide (i < idx) then m.(mo_workspaces) !! i
    else if decide (i = idx) then Some (Workspace_new c m.(mo_output) m.(mo_options))
    else m.(mo_workspaces) !! (i - 1).
Proof.
  intros Hi. unfold insert_new, mo_count in *. cbn.
  destruct (decide (i < idx)); [by apply vec_insert_lookup_lt|].
  destruct (decide (i = idx)) as [->|]; [by apply vec_insert_lookup_eq|].
  destruct i as [|i]; [lia|]. rewrite vec_insert_lookup_ge by lia. f_equal. lia.
Qed.

Lemma insert_new_interior m idx c : interior m idx → interior (insert_new m idx c) idx.
Proof. intros [H1 H2]. split; [rewrite insert_new_count by lia; lia|exact H2]. Qed.

Lemma insert_new_active m idx c :
  idx ≤ mo_count m →
  (insert_new m idx c).(mo_active) = if decide (idx ≤ m.(mo_active)) then m.(mo_active) + 1 else m.(mo_active).
Proof. intros _. unfold insert_new. cbn. by destruct (Nat.leb_spec idx m.(mo_active)), (decide _); try lia. Qed.

Lemma insert_new_loose c m idx :
  mon_loose par c m → interior m idx → mon_loose par (c + 1) (insert_new m idx c).
Proof.
  intros [Hst [H1 H2 H3 H4] Hsw Hop] [Hlt Hpos].
  assert (Hle : idx ≤ mo_count m) by lia. pose proof (insert_new_count m idx c Hle) as Hcount. split.
  - by apply (insert_new_stack par m idx c).
  - split; rewrite ?Hcount.
    + rewrite insert_new_active by done. case_decide; lia.
    + intros ws. rewrite insert_new_lookup by done. rewrite decide_False by lia. rewrite decide_False by lia.
      intros Hws _. apply (H2 ws); [|done]. rewrite <- Hws. f_equal. lia.
    + intros ws Haf. change (mo_above_first m = true) in Haf. specialize (Hpos Haf).
      rewrite insert_new_lookup by done. rewrite decide_True by done. intros Hws _. by apply (H3 ws).
    + intros Haf. change (mo_above_first m = true) in Haf. specialize (Hpos Haf). lia.
  - by apply insert_new_switch.
  - exact Hop.
Qed.

Lemma insert_new_middle c m idx :
  interior m idx → middle_settled m →
  (insert_new m idx c).(mo_switch) = None → middle_ok (Some idx) (insert_new m idx c).
Proof.
  intros [Hlt Hpos] Hmid Hn%insert_new_settled i ws Hs Hi Ha Hne Hws. specialize (Hmid Hn).
  assert (Hle : idx ≤ mo_count m) by lia. rewrite insert_new_count in Hi by done.
  rewrite insert_new_active in Ha by done. rewrite insert_new_lookup in Hws by done.
  change (range_start m ≤ i) in Hs. unfold range_start in *.
  destruct (decide (i < idx)).
  - apply (Hmid i); [done|lia| |done|done]. case_decide; lia.
  - rewrite decide_False in Hws by congruence. assert (i ≠ idx) by congruence. apply (Hmid (i - 1)); [|lia| |done|done].
    + unfold range_start. destruct (mo_above_first m); [specialize (Hpos eq_refl)|]; lia.
    + case_decide; lia.
Qed.

(** ** The monitor *)

(** Where the window goes: a workspace and a position that exist. *)
Definition drop_ok (m : Monitor) (insert_ws : InsertWorkspace) (position : InsertPosition) : Prop :=
  match insert_ws with
  | InsertExisting id => ∃ idx ws, m.(mo_workspaces) !! idx = Some ws ∧ ws.(ws_id) = id ∧
      (position = PosFloating ∨ position_ok ws.(ws_scrolling) position)
  | InsertNewAt _ => position = PosFloating ∨ position = PosNewColumn 0
  end.

Definition column_choice (position : InsertPosition) : option (option nat * bool) :=
  match position with
  | PosNewColumn column_idx => Some (Some column_idx, false)
  | PosFloating => Some (None, true)
  | PosInColumn _ _ => None
  end.

Lemma drop_tile_choice m idx position data allow ws column_idx is_floating :
  column_choice position = Some (column_idx, is_floating) → m.(mo_workspaces) !! idx = Some ws →
  drop_tile par m idx position data allow =
    mon_add_tile par m data.(md_tile) (MonWorkspace ws.(ws_id) column_idx) ActivateYes allow data.(md_width)
      data.(md_is_full_width) is_floating.
Proof. destruct position; intros [= <- <-] Hws; cbn [drop_tile]; by rewrite Hws. Qed.

(** On a workspace that is there. *)
Lemma drop_existing_wp c m idx ws position data allow :
  mok c m → room 2 c → m.(mo_workspaces) !! idx = Some ws →
  position = PosFloating ∨ position_ok ws.(ws_scrolling) position → tl_window data.(md_tile) ∉ mon_windows m →
  wp (drop_tile par m idx position data allow) (mon_outcome par c m [tl_window data.(md_tile)] []) c.
Proof.
  intros Hok Hr Hi Hpos Hnew. pose proof Hok as [Hl Hmid]%monitor_ok_loose.
  assert (Hadd : ∀ column_idx is_floating, column_choice position = Some (column_idx, is_floating) →
            (∀ j, column_idx = Some j → j ≤ length ws.(ws_scrolling).(sc_columns)) →
            wp (drop_tile par m idx position data allow) (mon_outcome par c m [tl_window data.(md_tile)] []) c).
  { intros ci fl Hc Hj. rewrite (drop_tile_choice m idx position data allow ws ci fl Hc Hi).
    eapply wp_weaken; [apply mon_add_tile_wp; [done..| |done]|intros m' c'; by apply joined_outcome].
    exists idx, ws. by split_and!. }
  destruct position as [i|i j|]; [eapply Hadd; [done|]| |by eapply Hadd].
  - destruct Hpos as [|Hpos]; [done|]. by intros ? [= <-].
  - destruct Hpos as [|(col & Hcol & Hj)]; [done|]. cbn [drop_tile]. apply wp_lift.
    assert (Hne : ws_windows ws ≠ []).
    { pose proof (loose_workspace par c m idx ws Hl Hi) as Hw. unfold ws_windows. intros [E%windows_nil _]%app_nil; [|apply Hw].
      by rewrite E in Hcol. }
    eapply (fill_interior c m idx ws _ [tl_window data.(md_tile)] (allow && true)); try done.
    + intros Hn. specialize (Hmid Hn). intros k x Hs Hlt Ha _. by apply Hmid.
    + by eapply occupied_interior.
    + eapply runs_weaken; [eapply (ws_add_tile_to_column_runs par Hcycle); [by eapply loose_workspace| |done|done]|done].
      intros H. apply Hnew, list_elem_of_bind. exists ws. split; [done|by eapply list_elem_of_lookup_2].
    + apply NoDup_cons. split; [done|apply Hl].
Qed.

(** On a new one. *)
Lemma drop_new_wp c m idx position data allow :
  mok c m → room 2 c → interior m idx → position = PosFloating ∨ position = PosNewColumn 0 →
  tl_window data.(md_tile) ∉ mon_windows m →
  wp (m ← add_workspace_at m idx; drop_tile par m idx position data allow)
    (mon_outcome par c m [tl_window data.(md_tile)] []) c.
Proof.
  intros Hok Hr Hint Hpos Hnew. pose proof Hok as [Hl Hmid]%monitor_ok_loose.
  pose proof Hint as [Hlt _]. assert (Hle : idx ≤ mo_count m) by lia.
  apply wp_bind, add_workspace_at_wp; [done|by eapply room_less; [|done]|].
  set (m1 := insert_new m idx c). pose proof (insert_new_loose c m idx Hl Hint) as Hl1.
  pose proof (insert_new_middle c m idx Hint Hmid) as Hmid1. pose proof (insert_new_interior m idx c Hint) as Hint1.
  fold m1 in Hl1, Hmid1, Hint1. set (ws := Workspace_new c m.(mo_output) m.(mo_options)).
  assert (Hi : m1.(mo_workspaces) !! idx = Some ws).
  { unfold m1. rewrite insert_new_lookup by done. by rewrite decide_False, decide_True by lia. }
  destruct (insert_new_stack par m idx c Hle (ml_stack _ _ _ Hl)) as (_ & Hw1 & Hids1). fold m1 in Hw1, Hids1.
  assert (∃ ci fl, column_choice position = Some (ci, fl) ∧ ∀ j, ci = Some j → j ≤ 0) as (ci & fl & Hc & Hj).
  { destruct Hpos as [-> | ->]; eexists _, _; (split; [done|]); [done|by intros ? [= <-]]. }
  rewrite (drop_tile_choice m1 idx position data allow ws ci fl Hc Hi). unfold mon_add_tile.
  apply wp_bind, wp_lift. cbn [resolve_add_window_target]. unfold ws_position.
  rewrite (find_by_id par _ _ _ _ idx ws (ml_stack _ _ _ Hl1) Hi). cbn [mbind option_bind]. apply runs_ret.
  set (tgt := match ci with Some i => WsNewColumnAt i | None => WsAuto end).
  set (w := tl_window data.(md_tile)). set (f := λ ws, ws_add_tile par ws data.(md_tile) tgt ActivateYes _ _ fl).
  destruct (fill_interior (c + 1) m1 idx ws f [w] allow) as (m' & Em & [H1 H2 H3 H4 H5]); try done.
  - apply ws_add_tile_runs; [done|by eapply loose_workspace|apply not_elem_of_nil|].
    unfold tgt. destruct ci as [i|]; [|done]. cbn. by apply Hj.
  - apply NoDup_cons. split; [|apply Hl1]. unfold mon_windows. by rewrite Hw1.
  - apply bind_Some in Em as (m2 & Ea & Em). rewrite Ea. apply wp_bind, wp_lift, runs_ret, wp_bind.
    eexists _, _. split; [by apply pad_interior, (add_interior m1 idx f)|]. cbn [fst snd].
    apply wp_bind, wp_lift, runs_ret. rewrite andb_true_r.
    assert (Hdone : mon_outcome par c m [w] [] m' (c + 1)).
    { split; [done|by rewrite H2; unfold mon_windows; rewrite Hw1|lia|done|].
      eapply (new_ids_trans _ c _ (c + 1)); [lia|exact Hids1|exact H5]. }
    destruct allow; [apply wp_lift; rewrite Em; by apply runs_ret|]. injection Em as ->. by apply wp_ret.
Qed.

(** Dropping the window on a monitor. *)
Lemma drop_wp c m insert_ws position data allow :
  mok c m → room 2 c → drop_ok m insert_ws position → tl_window data.(md_tile) ∉ mon_windows m →
  wp (r ← drop_workspace m insert_ws; drop_tile par (fst r) (snd r) position data allow)
    (mon_outcome par c m [tl_window data.(md_tile)] []) c.
Proof.
  intros Hok Hr Hd Hnew. pose proof Hok as [Hl _]%monitor_ok_loose. pose proof (ok_active par c m Hok) as Ha.
  assert (Hold : ∀ idx, idx < mo_count m → position = PosFloating ∨ position = PosNewColumn 0 →
            wp (drop_tile par m idx position data allow) (mon_outcome par c m [tl_window data.(md_tile)] []) c).
  { intros idx [ws Hws]%lookup_lt_is_Some_2 Hp. apply (drop_existing_wp c m idx ws); [done..| |done].
    destruct Hp as [-> | ->]; [by left|right; cbn; lia]. }
  destruct insert_ws as [id|idx]; cbn [drop_workspace drop_ok] in *.
  - destruct Hd as (idx & ws & Hi & <- & Hp). unfold ws_position.
    rewrite (find_by_id par _ _ _ _ idx ws (ml_stack _ _ _ Hl) Hi).
    apply wp_bind, wp_bind, wp_lift, runs_ret, wp_ret. by apply (drop_existing_wp c m idx ws).
  - destruct (mo_above_first m && (idx =? 0)) eqn:E.
    { apply wp_bind, wp_ret. cbn [fst snd]. apply Hold; [lia|done]. }
    rewrite last_idx_some by lia. apply wp_bind, wp_bind, wp_lift, runs_ret.
    destruct (Nat.leb_spec (mo_count m - 1) idx) as [|Hlt].
    { apply wp_ret. cbn [fst snd]. apply Hold; [lia|done]. }
    assert (Hint : interior m idx).
    { split; [lia|]. intros Haf. rewrite Haf in E. destruct idx; [done|lia]. }
    apply wp_bind. eapply wp_weaken; [by eapply wp_bind_inv, (drop_new_wp c m idx position data allow)|].
    intros m1 c1 H. by apply wp_ret.
Qed.

(** ** The layout *)
Section pointer.
  Context (pointer : PointerEnv) (Hpt : pointer_ok pointer).

Lemma drop_position_runs c m idx ws (floating : bool) geo :
  mok c m → m.(mo_workspaces) !! idx = Some ws → geometry_ok ws.(ws_scrolling) geo →
  runs (if floating then Some PosFloating else sc_insert_position ws.(ws_scrolling) geo)
    (λ position, drop_ok m (InsertExisting ws.(ws_id)) position).
Proof.
  intros [Hl _]%monitor_ok_loose Hi Hg. destruct floating.
  - apply runs_ret. exists idx, ws. split_and!; [done|done|by left].
  - eapply runs_weaken; [apply insert_position_runs; [done|]|].
    + by eapply wo_scrolling, loose_workspace.
    + intros position H. exists idx, ws. split_and!; [done|done|by right].
Qed.

Lemma drop_target_runs c ms active data :
  Forall (mok c) ms → active < length ms →
  runs (drop_target pointer ms active data) (λ r, ∃ m, ms !! fst (fst r) = Some m ∧ drop_ok m (snd (fst r)) (snd r)).
Proof using Hpt.
  intros Hms Ha. rewrite Forall_lookup in Hms. unfold drop_target.
  destruct (monitor_position ms data.(md_output)) as [i|] eqn:E.
  - apply monitor_position_Some in E as (m & Hm & _). rewrite Hm. cbn [mbind option_bind].
    pose proof (Hms _ _ Hm) as Hok. pose proof (ok_active par c m Hok) as Hact.
    eapply runs_bind; [apply mon_insert_position_runs, Hpt; lia|]. intros iw Hiw.
    eapply (runs_bind _ _ (λ position, drop_ok m iw position)).
    + destruct iw as [id|idx]; [|apply runs_ret; destruct (md_is_floating data); [by left|by right]].
      apply list_elem_of_fmap in Hiw as (ws & -> & [idx Hi]%list_elem_of_lookup).
      pose proof Hok as [Hl _]%monitor_ok_loose. unfold ws_position.
      rewrite (find_by_id par _ _ _ _ idx ws (ml_stack _ _ _ Hl) Hi). cbn [mbind option_bind]. rewrite Hi.
      eapply drop_position_runs; [done|done|apply Hpt].
    + intros position Hp. apply runs_ret. by exists m.
  - destruct (lookup_lt_is_Some_2 ms active Ha) as [m Hm]. rewrite Hm. cbn [mbind option_bind].
    pose proof (Hms _ _ Hm) as Hok. pose proof (ok_active par c m Hok) as Hact.
    destruct (lookup_workspace m 0) as [ws Hws]; [lia|]. rewrite Hws. cbn [mbind option_bind].
    eapply runs_bind; [eapply drop_position_runs; [done|done|apply Hpt]|]. intros position Hp. apply runs_ret. by exists m.
Qed.

Lemma drop_normal_wp c ly ms p a data :
  layout_ok par c ly → ly.(ly_set) = SetNormal ms p a → room 2 c → tl_window data.(md_tile) ∉ ly_windows ly →
  wp (r ← lift (drop_target pointer ms a data);
      let '(i, insert_ws, position) := r in
      m ← lift (ms !! i);
      r ← drop_workspace m insert_ws;
      m ← drop_tile par (fst r) (snd r) position data (negb ly.(ly_overview_open));
      _ ← lift (List.find (λ ws, has_window ws data.(md_tile).(tl_window)) m.(mo_workspaces));
      mret (set_ly_set (SetNormal (<[i := m]> ms) p a) ly))
    (layout_outcome par c ly [tl_window data.(md_tile)] []) c.
Proof.
  intros Hok E Hr Hnew. destruct (normal_parts par c ly ms p a Hok E) as (Hp & Ha & Hs).
  apply wp_bind, wp_lift. eapply runs_weaken; [apply (drop_target_runs c); [apply Hs|done]|].
  intros [[i iw] position] (m & Hm & Hd). cbn [fst snd] in *. rewrite Hm. apply wp_bind, wp_lift, runs_ret.
  pose proof (set_monitor par _ _ _ _ _ _ Hm _ Hs) as Hmok.
  assert (Hnew' : tl_window data.(md_tile) ∉ mon_windows m).
  { intros H. apply Hnew. unfold ly_windows, ly_workspaces. rewrite E. by eapply monitor_windows_in. }
  apply wp_bind. eapply wp_weaken; [eapply wp_bind_inv, (drop_wp c m iw position data (negb ly.(ly_overview_open)));
    done|].
  intros r c1 H. apply wp_bind. eapply wp_weaken; [exact H|]. intros m' c' Ho.
  apply wp_bind, wp_lift.
  assert (Hin : tl_window data.(md_tile) ∈ mon_windows m').
  { pose proof (oc_windows _ _ _ _ _ _ _ Ho) as Hw. cbn in Hw. rewrite Hw. by left. }
  apply list_elem_of_bind in Hin as (ws & Hw & Hws).
  destruct (List.find _ m'.(mo_workspaces)) as [x|] eqn:Ef.
  - apply runs_ret, wp_ret. eapply normal_outcome; [done|done|done|exact Ho| |done].
    apply NoDup_cons. split; [done|]. by eapply layout_windows_NoDup.
  - apply list_elem_of_In in Hws. pose proof (List.find_none _ _ Ef ws Hws) as Hn. cbn in Hn.
    by rewrite (proj2 (has_window_spec ws _) Hw) in Hn.
Qed.
End pointer.

Lemma first_workspace_wp c ly l :
  layout_ok par c ly → ly.(ly_set) = SetNoOutputs l → room 2 c →
  wp (match l with
      | [] => id ← next_id; mret [new_with_config_no_outputs id None ly.(ly_options)]
      | _ => mret l
      end) (λ l', place_made par c ly.(ly_options) l (l', 0, WsAuto)) c.
Proof.
  intros Hok E Hr. pose proof (resolve_no_outputs_wp par c ly l AddAuto E Hok Hr I) as H.
  cbn [resolve_target_no_outputs] in H. apply wp_bind_inv in H. eapply wp_weaken; [exact H|].
  intros l' c' (r & c2 & [= <- <-] & Hp). exact Hp.
Qed.

Lemma drop_no_outputs_wp c ly l data :
  layout_ok par c ly → ly.(ly_set) = SetNoOutputs l → room 2 c → tl_window data.(md_tile) ∉ ly_windows ly →
  wp (workspaces ← match l with
                   | [] => id ← next_id; mret [new_with_config_no_outputs id None ly.(ly_options)]
                   | _ => mret l
                   end;
      ws ← lift (workspaces !! 0);
      ws ← lift (ws_add_tile par ws data.(md_tile) WsAuto ActivateYes data.(md_width)
                   data.(md_is_full_width) data.(md_is_floating));
      mret (set_ly_set (SetNoOutputs (<[0 := ws]> workspaces)) ly))
    (layout_outcome par c ly [tl_window data.(md_tile)] []) c.
Proof.
  intros Hok E Hr Hnew. apply wp_bind. eapply wp_weaken; [by apply first_workspace_wp|].
  intros l' c' Hp. pose proof Hp as (_ & _ & _ & _ & _ & _ & ws & Hws & Hwok & Htgt). rewrite Hws.
  apply wp_bind, wp_lift, runs_ret, wp_bind, wp_lift.
  eapply runs_weaken; [apply (ws_add_tile_runs par Hcycle ws data.(md_tile)); [done| |done]|].
  { exact (place_window_new par c ly l (l', 0, WsAuto) c' ws _ E Hp Hws Hnew). }
  intros ws' Hadd. apply wp_ret. exact (no_outputs_added par c ly l l' 0 WsAuto c' ws ws' _ E Hp Hws Hnew Hadd).
Qed.

Lemma end_moving_wp env pointer c ly data :
  view_ok env → pointer_ok pointer → layout_ok par c ly → ly_room c ly → tl_window data.(md_tile) ∉ ly_windows ly →
  wp (end_moving par env pointer data ly) (layout_outcome par c ly [tl_window data.(md_tile)] []) c.
Proof.
  intros Hv Hpt Hok Hr Hnew. unfold end_moving. apply wp_bind, wp_lift.
  eapply runs_weaken; [by eapply end_monitors_runs|]. intros ly1 H1.
  apply wp_bind, wp_lift. eapply (runs_weaken _ (looped par c ly)).
  { destruct (md_is_floating data); [by apply runs_ret|].
    eapply runs_weaken; [eapply end_workspaces_runs; [done|by eapply looped_ok]|]. intros ly2. by apply looped_trans. }
  intros ly2 [[Hok2 Hw2 Hc2] Hf2]. pose proof (room_monitor _ _ Hr) as Hr2. cbn in Hw2.
  assert (Hnew2 : tl_window data.(md_tile) ∉ ly_windows ly2) by (by rewrite Hw2).
  eapply (wp_weaken _ (layout_outcome par c ly2 [tl_window data.(md_tile)] [])).
  - destruct (ly_set ly2) as [ms p a|l] eqn:E.
    + by apply drop_normal_wp.
    + by apply drop_no_outputs_wp.
  - intros ly3 c3 [H3 Hw3 Hc3]. split; [done| |done]. cbn in *. by rewrite Hw3, Hw2.
Qed.

End drop.
