(* ===== verification/LayoutMoveProps.v ===== *)
(** * Theorems on interactive moves

    The invariant of the layout with a window that is held: the window is in the layout until the
    move has left its start, and from then on it is only held, at its normal size and with the
    options of the output and the workspace it is over.  Every operation keeps this and accounts
    for every window. *)
From stdpp Require Import gmap strings.
From S2P Require Import Prelude Float64 FloatRound LayoutScrolling LayoutScrollingOps LayoutScrollingProps LayoutView LayoutFloating LayoutFloatingProps LayoutOutput LayoutWorkspace LayoutWorkspaceOps LayoutWorkspaceProps LayoutMonitor LayoutMonitorOps LayoutMonitorMoves LayoutMonitorSwitch LayoutMonitorProps LayoutSet LayoutSetOwn LayoutSetOps LayoutSetOutputs LayoutSetMoves LayoutSetWindows LayoutSetConfig LayoutSetProps LayoutSetOptions LayoutMove LayoutMoveGeometry LayoutMoveOps LayoutMoveDrop.

(** ** The invariant *)
Definition held_ok (ly : Layout) (mv : option InteractiveMoveState) : Prop :=
  match mv with
  | None => True
  | Some (MoveStarting w _) => w ∈ ly_windows ly
  | Some (Moving data) =>
      (tl_window data.(md_tile) ∉ ly_windows ly) ∧ tl_pending data.(md_tile) = SizeNormal ∧
      tl_options data.(md_tile) = held_options ly data.(md_output_config) data.(md_workspace_config)
  end.

Definition ml_ok par (c : N) (ml : MovingLayout) : Prop := layout_ok par c ml.(ml_layout) ∧ held_ok ml.(ml_layout) ml.(ml_move).

Definition held (mv : option InteractiveMoveState) : list N :=
  match mv with Some (Moving data) => [tl_window data.(md_tile)] | _ => [] end.

(** Every window: the one that is held, and those in the layout. *)
Definition ml_windows (ml : MovingLayout) : list N := held ml.(ml_move) ++ ly_windows ml.(ml_layout).

Record ml_outcome par (c : N) (ml : MovingLayout) (added removed : list N) (ml' : MovingLayout) (c' : N) : Prop := {
  mc_ok : ml_ok par c' ml';
  mc_windows : removed ++ ml_windows ml' ≡ₚ added ++ ml_windows ml;
  mc_counter : (c ≤ c')%N
}.

Section moves.
  Context (par : N → option N) (Hcycle : no_cycle par) (g : Placement).
Local Abbreviation lok := (layout_ok par).
Local Abbreviation ok := (ml_ok par).
Local Abbreviation keeps c ml := (ml_outcome par c ml [] []).

Lemma ml_refl c ml : ok c ml → keeps c ml ml c.
Proof. by split. Qed.

(** The held window stays out of a layout with the same windows. *)
Lemma held_kept ly ly' mv :
  ly_windows ly' ≡ₚ ly_windows ly → ly'.(ly_options) = ly.(ly_options) → held_ok ly mv → held_ok ly' mv.
Proof.
  intros Hw Ho. destruct mv as [[w d|data]|]; [cbn; by rewrite Hw| |done].
  unfold held_ok, held_options. by rewrite Hw, Ho.
Qed.

Lemma ml_carry c ml ly' dnd c' :
  ok c ml → layout_outcome par c ml.(ml_layout) [] [] ly' c' → ly'.(ly_options) = ml.(ml_layout).(ly_options) →
  keeps c ml (MkMovingLayout ly' ml.(ml_move) dnd) c'.
Proof.
  intros [H1 H2] [G1 G2 G3] Ho. cbn in G2. split; [split; [done|by eapply held_kept]| |done].
  unfold ml_windows. cbn. by rewrite G2.
Qed.

Lemma looped_options c ly ly' : looped par c ly ly' → ly'.(ly_options) = ly.(ly_options).
Proof. by intros [_ [=]]. Qed.

Lemma ml_looped c ml ly' dnd :
  ok c ml → looped par c ml.(ml_layout) ly' → keeps c ml (MkMovingLayout ly' ml.(ml_move) dnd) c.
Proof. intros Hok H. apply ml_carry; [done|apply H|by eapply looped_options]. Qed.

(** The move ends, or has not left its start. *)
Lemma ml_unheld c ml ly' mv dnd :
  ok c ml → held ml.(ml_move) = [] → held mv = [] → (∀ w d, mv = Some (MoveStarting w d) → w ∈ ly_windows ml.(ml_layout)) →
  looped par c ml.(ml_layout) ly' → keeps c ml (MkMovingLayout ly' mv dnd) c.
Proof.
  intros [H1 H2] Hh Hh' Hs [[G1 G2 G3] _]. cbn in G2. split; [|unfold ml_windows; cbn; by rewrite Hh, Hh', G2|done].
  split; [done|]. destruct mv as [[w d|data]|]; cbn; [rewrite G2; by eapply Hs|done|done].
Qed.

Section views.
  Context (env : ViewEnv) (Hv : view_ok env).

(** ** The start of a move *)
Lemma move_begin_runs c ml w output :
  ok c ml → runs (interactive_move_begin env ml w output) (λ r, keeps c ml (fst r) c).
Proof.
  intros Hok. pose proof Hok as [Hl Hh]. unfold interactive_move_begin.
  destruct (ml_move ml) as [mv|] eqn:Em; [by apply runs_ret, ml_refl|].
  destruct (window_location _ w) as [[i j]|] eqn:E; [|by apply runs_ret, ml_refl].
  unfold window_location in E. apply find_place_Some in E as (l & ws & Hi & Hj & Hw & _).
  apply list_lookup_fmap_Some in Hi as (m & -> & Hm). rewrite Hm. cbn [mbind option_bind]. rewrite Hj.
  cbn [mbind option_bind]. destruct (decide _); [|by apply runs_ret, ml_refl].
  pose proof (proj1 (has_window_spec ws w) Hw) as Hin.
  destruct (ws_find_tile ws w Hin) as [t ->]. cbn [mbind option_bind].
  eapply runs_bind; [by eapply begin_monitors_runs|]. intros ly1 H1.
  eapply (runs_bind _ _ (looped par c (ml_layout ml))).
  { destruct (fl_has_window _ _); [by apply runs_ret|].
    eapply runs_weaken; [eapply begin_workspaces_runs; by eapply looped_ok|]. intros ly2. by apply looped_trans. }
  intros ly2 H2. apply runs_ret. cbn [fst]. apply ml_unheld; [done|by rewrite Em|done| |done].
  intros w' d [= <- _]. unfold ly_windows. apply list_elem_of_bind. exists ws. split; [done|].
  unfold ly_workspaces, ly_monitors in *. destruct (ly_set (ml_layout ml)); [|done].
  apply list_elem_of_bind. exists m. split; by eapply list_elem_of_lookup_2.
Qed.

(** ** The window leaves the layout *)
Lemma window_place ly w :
  w ∈ ly_windows ly →
  runs (find_place (λ ws, has_window ws w) (ly_stacks ly)) (λ place, ∃ ws, at_place ly place ws ∧ w ∈ ws_windows ws).
Proof.
  intros Hw. eapply runs_weaken; [by apply find_place_runs, window_in|].
  intros place (ws & Hat & H%has_window_spec). by exists ws.
Qed.

Lemma start_moving_runs c ly w output ws place :
  lok c ly → at_place ly place ws → w ∈ ws_windows ws →
  runs (start_moving par g env ly w output ws place) (λ r,
    layout_outcome par c ly [] [w] (fst r) c ∧ held_ok (fst r) (Some (Moving (snd r))) ∧
    tl_window (md_tile (snd r)) = w).
Proof.
  intros Hok Hat Hw. pose proof (proj2 (has_window_spec ws w) Hw) as Hh. unfold start_moving.
  destruct (unset_and_removed par Hcycle g c ly place ws w Hok Hat Hh) as (q & Eq & t & Et & Htw & Htp & Ho).
  apply bind_Some in Eq as (r1 & E1 & E2). rewrite E1. cbn [mbind option_bind]. rewrite E2. cbn [mbind option_bind].
  rewrite Et. cbn [mbind option_bind]. set (tile := set_tl_options _ _). 
  eapply (runs_bind _ _ (looped par c (fst q))).
  { destruct (rt_floating t); [eapply end_workspaces_runs; [done|apply Ho]|by apply runs_ret, looped_refl, Ho]. }
  intros ly2 H2. pose proof (looped_options _ _ _ H2) as Ho2. destruct H2 as [[H2 Hw2 _] _]. destruct Ho as [H1 Hw1 _].
  cbn in Hw1, Hw2. apply runs_ret. cbn [fst snd md_tile]. split_and!; [|split_and!|done].
  - split; [done| |done]. cbn. by rewrite Hw2.
  - cbn. rewrite Htw, Hw2. intros Hin. pose proof (layout_windows_NoDup par c ly Hok) as Hnd.
    rewrite <- Hw1 in Hnd. by apply NoDup_cons in Hnd as [? _].
  - exact Htp.
  - cbn. unfold held_options. by rewrite Ho2.
Qed.

(** ** The window is held over other places *)
Lemma keep_moving_runs pointer c ly output data :
  pointer_ok pointer → lok c ly → held_ok ly (Some (Moving data)) →
  runs (keep_moving pointer ly output data) (λ r,
    layout_outcome par c ly [] [] (fst r) c ∧ held_ok (fst r) (Some (Moving (snd r))) ∧
    tl_window (md_tile (snd r)) = tl_window (md_tile data)).
Proof.
  intros Hpt Hok (Hn & Hp & Ho). unfold keep_moving.
  eapply (runs_bind _ _ (λ _, True)).
  { unfold monitor_for_output. destruct (List.find _ _) as [m|] eqn:E; [|by apply runs_ret].
    apply List.find_some in E as [Hm%list_elem_of_In _].
    eapply runs_bind; [apply mon_insert_position_runs, Hpt|intros iw _; by apply runs_ret].
    unfold ly_monitors in Hm. destruct (ly_set ly) as [ms p a|l] eqn:E; [|by apply not_elem_of_nil in Hm].
    destruct (normal_parts par c ly ms p a Hok E) as (_ & _ & [HM _ _ _]). rewrite Forall_forall in HM.
    pose proof (ok_active par c m (HM m Hm)). lia. }
  intros id _. apply runs_ret.
  set (left := match md_workspace_config data with Some _ => _ | None => _ end).
  set (other := negb (bool_decide (output = md_output data))).
  set (ly' := if other then focus_output ly output else ly).
  assert (Hk : layout_outcome par c ly [] [] ly' c).
  { unfold ly'. destruct other; [by apply focus_output_keeps|by apply layout_keeps_refl]. }
  cbn [fst snd md_tile]. split; [exact Hk|]. destruct Hk as [_ Hw _]. cbn in Hw.
  destruct left, other; cbn [orb]; unfold held_ok; cbn [md_tile md_output_config md_workspace_config];
    rewrite Hw; (split; [|done]); split_and!; try done.
Qed.

Lemma move_update_runs pointer c ml zoom w delta output :
  pointer_ok pointer → ok c ml →
  runs (interactive_move_update par g env pointer zoom ml w delta output) (λ r, keeps c ml (fst r) c).
Proof.
  intros Hpt Hok. pose proof Hok as [Hl Hh]. unfold interactive_move_update.
  destruct (ml_move ml) as [[id pd|data]|] eqn:Em; [| |by apply runs_ret, ml_refl].
  - destruct (negb (N.eqb id w)) eqn:E; [by apply runs_ret, ml_refl|].
    apply negb_false_iff, N.eqb_eq in E. subst id. cbn in Hh.
    eapply runs_bind; [by apply window_place|]. intros [i j] (ws & Hat & Hin).
    pose proof Hat as (l & Hi & Hj). cbn [fst snd] in *. rewrite Hi. cbn [mbind option_bind]. rewrite Hj.
    cbn [mbind option_bind]. destruct (ws_find_tile ws w Hin) as [t ->]. cbn [mbind option_bind].
    destruct (_ && _).
    + apply runs_ret. cbn [fst]. apply ml_unheld; [done|by rewrite Em|done| |by apply looped_refl].
      by intros w' d' [= <- _].
    + eapply runs_bind; [by eapply start_moving_runs|]. intros r ([G1 G2 G3] & Hr & Hw). apply runs_ret. cbn [fst].
      split; [by split| |done]. unfold ml_windows. cbn in G2 |- *. rewrite Em, Hw. exact G2.
  - destruct (negb (N.eqb _ w)); [by apply runs_ret, ml_refl|].
    eapply runs_bind; [by eapply keep_moving_runs|]. intros r ([G1 G2 G3] & Hr & Hw). apply runs_ret. cbn [fst].
    split; [by split| |done]. unfold ml_windows. cbn in G2 |- *. by rewrite Em, Hw, G2.
Qed.

(** ** The end of a move *)
Lemma end_starting_runs c ly w :
  lok c ly → ly_room c ly → runs (end_starting par env w ly) (looped par c ly).
Proof.
  intros Hok Hr. unfold end_starting. eapply runs_bind; [by eapply end_monitors_runs|]. intros ly1 H1.
  eapply runs_weaken; [apply for_workspaces_runs; [by eapply looped_ok|]|intros ly2; by apply looped_trans].
  intros ws Hws. eapply runs_bind; [by apply (ws_view_end_runs par env Hv)|]. intros ws1 Hk.
  destruct (bool_decide _); [|by apply runs_ret].
  eapply runs_fmap; [eapply (activate_window_keeps par Hcycle g _ w), Hk|]. intros r [H _]. by eapply ws_keeps_trans.
Qed.

Lemma move_end_wp pointer c ml w :
  pointer_ok pointer → ok c ml → ly_room c ml.(ml_layout) →
  wp (interactive_move_end par env pointer ml w) (keeps c ml) c.
Proof.
  intros Hpt Hok Hr. pose proof Hok as [Hl Hh]. unfold interactive_move_end.
  destruct (ml_move ml) as [[id pd|data]|] eqn:Em; [| |by apply wp_ret, ml_refl].
  - destruct (negb (N.eqb id w)); [by apply wp_ret, ml_refl|]. apply wp_bind, wp_lift.
    eapply runs_weaken; [by apply end_starting_runs|]. intros ly1 H1. apply wp_ret.
    apply ml_unheld; [done|by rewrite Em|done|done|done].
  - destruct (negb (N.eqb _ w)); [by apply wp_ret, ml_refl|]. destruct Hh as (Hn & _). apply wp_bind.
    eapply wp_weaken; [by apply end_moving_wp|]. intros ly1 c1 [G1 G2 G3]. apply wp_ret.
    split; [done| |done]. unfold ml_windows. cbn in G2 |- *. by rewrite Em.
Qed.

(** ** Closing a window *)
Lemma remove_inside_runs c ml w :
  ok c ml → w ∈ ly_windows ml.(ml_layout) → (∀ d, ml.(ml_move) ≠ Some (MoveStarting w d)) →
  runs (r ← remove_window g ml.(ml_layout) w; Some (set_ml_layout (fst r) ml, snd r))
    (λ r, ∃ t, snd r = Some t ∧ tl_window (rt_tile t) = w ∧ ml_outcome par c ml [] [w] (fst r) c).
Proof.
  intros [Hl Hh] Hw Hne.
  destruct (remove_window_runs par g c (ml_layout ml) w Hl Hw) as ([ly' o] & E & t & Et & Ht & [G1 G2 G3]).
  pose proof (remove_window_options g (ml_layout ml) w _ E) as Hopt. cbn in Et, G1, G2, Hopt. subst o.
  rewrite E. apply runs_ret. exists t. cbn [fst snd].
  split_and!; [done|done|]. split; [split; [done|]| |done].
  - unfold set_ml_layout. cbn [ml_layout ml_move]. destruct (ml_move ml) as [[w' d|data]|]; [| |done].
    + cbn in *. rewrite <- G2 in Hh. apply elem_of_cons in Hh as [->|]; [by destruct (Hne d)|done].
    + destruct Hh as (Hn & Hp & Ho). split_and!; [|done|].
      * intros Hin. apply Hn. rewrite <- G2. by right.
      * rewrite Ho. unfold held_options. by rewrite Hopt.
  - unfold ml_windows. cbn. rewrite Permutation_middle. by rewrite G2.
Qed.

Lemma ml_remove_runs c ml w :
  ok c ml → ly_room c ml.(ml_layout) → w ∈ ml_windows ml →
  runs (ml_remove_window par g env ml w)
    (λ r, ∃ t, snd r = Some t ∧ tl_window (rt_tile t) = w ∧ ml_outcome par c ml [] [w] (fst r) c).
Proof.
  intros Hok Hr Hw. pose proof Hok as [Hl Hh]. unfold ml_remove_window, ml_windows in *.
  destruct (ml_move ml) as [[id pd|data]|] eqn:Em; cbn [held app] in Hw.
  - destruct (N.eqb_spec id w) as [->|Hne]; cbn [mbind option_bind].
    2:{ apply remove_inside_runs; [done|done|]. intros d. rewrite Em. congruence. }
    eapply (runs_bind _ _ (λ ml1, keeps c ml ml1 c ∧ w ∈ ly_windows ml1.(ml_layout) ∧ ml1.(ml_move) = None)).
    { eapply runs_bind; [by apply end_starting_runs|]. intros ly1 H1. apply runs_ret. split_and!; [| |done].
      - apply ml_unheld; [done|by rewrite Em|done|done|done].
      - destruct H1 as [[_ G2 _] _]. cbn in G2 |- *. by rewrite G2. }
    intros ml1 ([H1 G1 _] & Hw1 & Em1). eapply runs_weaken; [apply (remove_inside_runs c ml1 w); [done|done|by rewrite Em1]|].
    intros r (t & Et & Ht & [H2 G2 G3]). exists t. split_and!; [done|done|]. split; [done| |done].
    cbn in *. by rewrite G2.
  - destruct (N.eqb_spec (tl_window (md_tile data)) w) as [Ew|Hne].
    + eapply runs_bind; [by eapply end_monitors_runs|]. intros ly1 H1.
      eapply runs_bind; [eapply end_workspaces_runs; [done|by eapply looped_ok]|]. intros ly2 H2.
      pose proof (looped_trans par c _ _ _ H1 H2) as [[G1 G2 G3] _]. apply runs_ret.
      eexists. split_and!; [done|done|]. split; [by split| |done]. unfold ml_windows. cbn in G2 |- *.
      by rewrite Em, G2; cbn; rewrite Ew.
    + apply elem_of_cons in Hw as [->|Hw]; [done|]. apply remove_inside_runs; [done|done|]. intros d. by rewrite Em.
  - apply remove_inside_runs; [done|done|]. intros d. by rewrite Em.
Qed.

(** ** The operations of the layout *)
Lemma held_action_float ml op b : held_action ml op = HeldFloat b → ∃ data, moving ml = Some data.
Proof.
  destruct (moving ml) as [data|] eqn:Em; [by exists data|]. intros E. exfalso.
  unfold held_action, is_held_or_none, is_held in E. rewrite Em in E.
  destruct op; repeat case_match; discriminate.
Qed.

Lemma set_floating_runs c ml data b :
  ok c ml → moving ml = Some data → runs (held_set_floating env ml data b) (λ ml', keeps c ml ml' c).
Proof.
  intros Hok Hm. unfold held_set_floating. destruct (Bool.eqb _ _); [by apply runs_ret, ml_refl|].
  assert (Em : ml_move ml = Some (Moving data)).
  { unfold moving in Hm. destruct (ml_move ml) as [[]|]; congruence. }
  pose proof Hok as [Hl Hh]. rewrite Em in Hh. eapply (runs_bind _ _ (looped par c (ml_layout ml))).
  { destruct b; [by eapply end_workspaces_runs|by apply runs_ret, looped_refl]. }
  intros ly1 H1. apply runs_ret. pose proof (ml_looped c ml ly1 (ml_dnd ml) Hok H1) as [[G1 G2] G3 G4].
  cbn in G1, G2. rewrite Em in G2. split; [split; [done|exact G2]| |done].
  unfold ml_windows in *. cbn in *. by rewrite Em in *.
Qed.

(** What the callers provide: windows of the layout or the held one, outputs that are connected. *)
Definition window_known (ml : MovingLayout) (window : option N) : Prop := ∀ w, window = Some w → w ∈ ml_windows ml.

Definition layout_op_pre (c : N) (ml : MovingLayout) (op : LyOp) : Prop :=
  match op with
  | LopAddWindow w _ _ target _ _ _ _ =>
      (w ∉ ml_windows ml) ∧
      match target with AddNextTo w' => w' ∈ ml_windows ml | _ => add_target_ok ml.(ml_layout) target end
  | LopRemoveWindow w => w ∈ ml_windows ml
  | LopMoveToWorkspace window _ _ => window_known ml window
  | LopMoveToOutput window o _ _ =>
      (output_in ml.(ml_layout) o ∨ ly_monitors ml.(ml_layout) = []) ∧ window_known ml window
  | LopWorkspace window op =>
      ws_op_inside op ∧ window_known ml window ∧
      ∀ place ws, looked_up ml.(ml_layout) window place ws → ws_op_pre ws op
  | _ => ly_op_pre par c ml.(ml_layout) op
  end.

(** A window that a method does not treat as held is in a workspace. *)
Lemma known_inside ml window :
  window_known ml window → (∀ w, window = Some w → is_held ml w = false) →
  ∀ w, window = Some w → w ∈ ly_windows ml.(ml_layout).
Proof.
  intros Hk Hh w E. specialize (Hk w E). specialize (Hh w E). unfold ml_windows, is_held, moving in *.
  destruct (ml_move ml) as [[id pd|data]|]; cbn [held app] in *; [done| |done].
  apply elem_of_cons in Hk as [->|]; [|done]. by rewrite N.eqb_refl in Hh.
Qed.

Lemma held_or_none ml window : is_held_or_none ml window = false → ∀ w, window = Some w → is_held ml w = false.
Proof. unfold is_held_or_none. intros H w ->. by destruct (moving ml). Qed.

Lemma held_action_run ml window op :
  held_action ml (LopWorkspace window op) = HeldRun → ∀ w, window = Some w → is_held ml w = false.
Proof.
  intros E w ->. cbn [held_action] in E.
  assert (is_held_or_none ml (Some w) = is_held ml w) as Eq by (unfold is_held_or_none; by destruct (moving ml)).
  destruct op; rewrite ?Eq in E; try (by destruct (is_held ml w)).
  unfold is_held. destruct (moving ml) as [data|] eqn:Em; [|done]. unfold is_held in E. rewrite Em in E.
  by destruct (N.eqb _ _).
Qed.

(** What is not done to the held window is done to the layout. *)
Lemma layout_op_inside c ml op :
  layout_op_pre c ml op → (∀ w, op ≠ LopRemoveWindow w) → ly_added op = [] → held_action ml op = HeldRun →
  ly_op_pre par c ml.(ml_layout) op.
Proof.
  intros Hpre Hne Ha Hrun. destruct op; try done; cbn [layout_op_pre ly_op_pre] in *; cbn [held_action] in Hrun.
  - by destruct (Hne window).
  - destruct Hpre as (Hin & Hk & Hop). split_and!; [done| |done]. apply known_inside; [done|]. by eapply held_action_run.
  - apply known_inside; [done|]. apply held_or_none. by destruct (is_held_or_none ml window).
  - destruct Hpre as [Ho Hk]. split; [done|]. apply known_inside; [done|]. apply held_or_none.
    by destruct (is_held_or_none ml window).
Qed.

Lemma add_target_held ml target :
  match target with AddNextTo w' => w' ∈ ml_windows ml | _ => add_target_ok ml.(ml_layout) target end →
  add_target_ok ml.(ml_layout) (add_target ml target).
Proof.
  destruct target as [| | |w]; cbn [add_target]; try done. unfold ml_windows, moving.
  destruct (ml_move ml) as [[id pd|data]|]; cbn [held app]; [done| |done].
  destruct (N.eqb_spec (tl_window (md_tile data)) w) as [|Hne]; [|by intros [->|]%elem_of_cons].
  intros _. destruct (monitor_position _ _) as [i|] eqn:E; [|done].
  apply monitor_position_Some in E as (m & Hm & <-). exists m. split; [by eapply list_elem_of_lookup_2|done].
Qed.

(** An operation of the layout that closes no window. *)
Lemma run_open_wp c ml op :
  ok c ml → ly_room c ml.(ml_layout) → ly_op_pre par c ml.(ml_layout) op → (∀ w, op ≠ LopRemoveWindow w) →
  wp (run_ly_op par g ml.(ml_layout) op) (λ r c', snd r = [] ∧
    layout_outcome par c ml.(ml_layout) (ly_added op) [] (fst r) c' ∧
    (configures op = false → (fst r).(ly_options) = ml.(ml_layout).(ly_options))) c.
Proof.
  intros [Hl Hh] Hr Hpre Hne.
  destruct (run_ly_op_wp par Hcycle g c (ml_layout ml) op Hl Hpre Hr) as ([ly' k] & c' & E & Ho).
  pose proof (run_ly_op_closes par g _ op Hne _ _ _ E) as Hk. cbn in Hk. subst k.
  exists (ly', []), c'. split_and!; [done|done|exact Ho|]. intros Hc. exact (run_ly_op_options par g _ op Hc _ _ _ E).
Qed.

Lemma add_window_held_wp c ml w p rule target width full fl a :
  ok c ml → ly_room c ml.(ml_layout) → w ∉ ml_windows ml →
  match target with AddNextTo w' => w' ∈ ml_windows ml | _ => add_target_ok ml.(ml_layout) target end →
  wp (run_layout_op par g env ml (LopAddWindow w p rule target width full fl a))
    (λ r, ml_outcome par c ml [w] (snd r) (fst r)) c.
Proof.
  intros Hok Hr Hw Ht. cbn [run_layout_op]. apply wp_bind. unfold ml_windows in Hw.
  apply not_elem_of_app in Hw as [Hw1 Hw2].
  eapply wp_weaken; [apply run_open_wp; [done|done|split; [done|by apply add_target_held]|done]|].
  intros [ly' k] c' (Hk & [G1 G2 G3] & Hopt). cbn in Hk, G1, G2, Hopt. subst k. specialize (Hopt eq_refl).
  apply wp_ret. destruct Hok as [Hl Hh]. cbn [fst snd]. split; [split; [done|]| |done].
  - cbn. destruct (ml_move ml) as [[id pd|data]|]; [| |done]; cbn in *.
    + rewrite G2. by right.
    + destruct Hh as (Hn & Hp & Ho). split_and!; [|done|by unfold held_options; rewrite Hopt].
      rewrite G2. intros [E|]%elem_of_cons; [|done]. apply Hw1. rewrite E. by left.
  - unfold ml_windows. cbn. by rewrite G2, Permutation_middle.
Qed.

Lemma configure_wp c ml op :
  ok c ml → ly_room c ml.(ml_layout) → configures op = true →
  wp (r ← run_ly_op par g ml.(ml_layout) op;
      mret (MkMovingLayout (fst r) (retune_held (fst r) ml.(ml_move)) ml.(ml_dnd), snd r))
    (λ r, ml_outcome par c ml [] (snd r) (fst r)) c.
Proof.
  intros Hok Hr Hc. assert (Hop : ly_op_pre par c (ml_layout ml) op ∧ (∀ w, op ≠ LopRemoveWindow w) ∧ ly_added op = []).
  { by destruct op. }
  destruct Hop as (Hpre & Hne & Ha). apply wp_bind. eapply wp_weaken; [by apply run_open_wp|].
  intros [ly' k] c' (Hk & [G1 G2 G3] & _). rewrite Ha in G2. cbn in Hk, G1, G2. subst k. apply wp_ret.
  destruct Hok as [Hl Hh]. cbn [fst snd]. split; [split; [done|]| |done].
  - cbn. destruct (ml_move ml) as [[id pd|data]|]; [| |done]; cbn in *; [by rewrite G2|].
    destruct Hh as (Hn & Hp & Ho). by split_and!; [rewrite G2|..].
  - unfold ml_windows. cbn. rewrite G2. by destruct (ml_move ml) as [[id pd|data]|].
Qed.

Lemma run_inside_wp c ml op :
  ok c ml → ly_room c ml.(ml_layout) → ly_op_pre par c ml.(ml_layout) op → (∀ w, op ≠ LopRemoveWindow w) →
  configures op = false → ly_added op = [] →
  wp (r ← run_ly_op par g ml.(ml_layout) op; mret (set_ml_layout (fst r) ml, snd r))
    (λ r, ml_outcome par c ml [] (snd r) (fst r)) c.
Proof.
  intros Hok Hr Hpre Hne Hc Ha. apply wp_bind. eapply wp_weaken; [by apply run_open_wp|].
  intros [ly' k] c' (Hk & Ho & Hopt). rewrite Ha in Ho. cbn in Hk, Ho. subst k. apply wp_ret. cbn [fst snd].
  apply ml_carry; [done|done|by apply Hopt].
Qed.

Lemma run_layout_op_wp c ml op :
  ok c ml → ly_room c ml.(ml_layout) → layout_op_pre c ml op →
  wp (run_layout_op par g env ml op) (λ r, ml_outcome par c ml (ly_added op) (snd r) (fst r)) c.
Proof.
  intros Hok Hr Hpre.
  assert (Hgen : (∀ w, op ≠ LopRemoveWindow w) → configures op = false → ly_added op = [] →
    (held_action ml op = HeldRun → ly_op_pre par c ml.(ml_layout) op) →
    wp (match held_action ml op, moving ml with
        | HeldIgnore, _ => mret (ml, [])
        | HeldFloat b, Some data => ml ← lift (held_set_floating env ml data b); mret (ml, [])
        | _, _ => r ← run_ly_op par g ml.(ml_layout) op; mret (set_ml_layout (fst r) ml, snd r)
        end) (λ r, ml_outcome par c ml [] (snd r) (fst r)) c).
  { intros Hne Hc Ha Hrun. destruct (held_action ml op) as [| |b] eqn:E.
    - apply run_inside_wp; auto.
    - by apply wp_ret, ml_refl.
    - destruct (held_action_float ml op b E) as [data Em]. rewrite Em. apply wp_bind, wp_lift.
      eapply runs_weaken; [by eapply set_floating_runs|]. intros ml' H. by apply wp_ret. }
  destruct op; cbn [run_layout_op ly_added layout_op_pre] in *;
    try (apply Hgen; [done|done|done|by apply layout_op_inside]); try (by apply configure_wp).
  - destruct Hpre. by apply add_window_held_wp.
  - apply wp_bind, wp_lift. eapply runs_weaken; [by apply ml_remove_runs|].
    intros [ml' o] (t & Et & Ht & Ho). cbn in Et. subst o. apply wp_ret. cbn [fst snd]. by rewrite Ht.
Qed.

(** ** Drag and drop *)
Lemma dnd_update_runs c ml : ok c ml → runs (dnd_update env ml) (λ ml', keeps c ml ml' c).
Proof.
  intros Hok. unfold dnd_update. destruct (ml_dnd ml); [by apply runs_ret, ml_refl|].
  eapply runs_bind; [by eapply begin_monitors_runs, Hok|]. intros ly1 H1.
  eapply runs_bind; [eapply begin_workspaces_runs; by eapply looped_ok|]. intros ly2 H2. apply runs_ret.
  apply ml_looped; [done|by eapply looped_trans].
Qed.

Lemma unlock_runs c ly :
  lok c ly → ly_room c ly → runs (ly ← end_monitors env ly; end_workspaces env ly) (looped par c ly).
Proof.
  intros Hok Hr. eapply runs_bind; [by eapply end_monitors_runs|]. intros ly1 H1.
  eapply runs_weaken; [eapply end_workspaces_runs; [done|by eapply looped_ok]|]. intros ly2. by apply looped_trans.
Qed.

Lemma dnd_end_keeps c ml : ok c ml → ly_room c ml.(ml_layout) → runs (dnd_end env ml) (λ ml', keeps c ml ml' c).
Proof.
  intros Hok Hr. unfold dnd_end. destruct (ml_dnd ml); [|by apply runs_ret, ml_refl].
  destruct (unlock_runs c _ (proj1 Hok) Hr) as (ly2 & (ly1 & E1 & E2)%bind_Some & H). rewrite E1. cbn [mbind option_bind].
  rewrite E2. by apply runs_ret, ml_looped.
Qed.

(** *** A hold on a target *)
Definition hold_in (m : Monitor) (target : DndHoldTarget) : Prop :=
  match target with HoldWindow id => id ∈ mon_windows m | HoldWorkspace id => id ∈ ws_id <$> m.(mo_workspaces) end.

Lemma activate_present ws w :
  workspace_ok par ws → w ∈ ws_windows ws → runs (ws_activate_window par ws w) (λ r, ws_keeps par ws (fst r) ∧ snd r = true).
Proof.
  intros Hok Hw. destruct (activate_window_keeps par Hcycle g ws w Hok) as (r & E & Hk & _).
  exists r. split_and!; [done|done|]. unfold ws_activate_window in E.
  apply bind_Some in E as ([f d] & Ef & E). destruct d; [by injection E as <-|].
  assert (Hws : w ∈ windows (ws_scrolling ws)).
  { apply elem_of_app in Hw as [|Hf]; [done|].
    destruct (fl_activate_window_runs par Hcycle _ w (wo_floating _ _ Hok) Hf) as ([f' d'] & Ef' & _ & _ & _ & Hd).
    rewrite Ef in Ef'. injection Ef' as <- <-. done. }
  apply bind_Some in E as ([s d] & Es & E). destruct d; [by injection E as <-|].
  unfold sc_activate_window in Es. destruct (position_col_runs _ w Hws) as (i & Ei & _). rewrite Ei in Es.
  apply bind_Some in Es as (c1 & _ & Es). apply bind_Some in Es as (c2 & _ & Es). by apply bind_Some in Es as (s1 & _ & [=]).
Qed.

Lemma dnd_end_workspaces m pos m' : mon_dnd_scroll_gesture_end m pos = Some m' → m'.(mo_workspaces) = m.(mo_workspaces).
Proof.
  unfold mon_dnd_scroll_gesture_end. destruct (dnd_current m); [|by intros [= <-]].
  intros (r & E & [= <-])%bind_Some. unfold workspace_switch_gesture_end in E.
  destruct (mo_switch m) as [[|gs]|]; [by injection E as <-| |by injection E as <-]. cbn in E.
  destruct (min_max gs (mo_count m)). apply bind_Some in E as (x & _ & (m1 & E1 & [= <-])%bind_Some). cbn.
  unfold remember_previous in E1. case_match; [by injection E1 as <-|]. by apply bind_Some in E1 as (ws & _ & [= <-]).
Qed.

Lemma hold_found c m target :
  monitor_ok par c m → hold_in m target →
  runs (match target with
        | HoldWindow id =>
            r ← first_that (λ ws, r ← ws_activate_window par ws id;
                                  Some (fst r, if snd r : bool then Some tt else None)) m.(mo_workspaces);
            found ← snd r; Some (fst r, fst found)
        | HoldWorkspace id =>
            ws_idx ← ws_position m (λ ws, N.eqb ws.(ws_id) id); Some (m.(mo_workspaces), ws_idx)
        end) (λ r, mon_keeps par c m (set_mo_workspaces (fst r) m) c ∧ snd r < length (fst r)).
Proof.
  intros Hok Hin. pose proof Hok as [Hl _]%monitor_ok_loose. destruct target as [id|id]; cbn [hold_in] in Hin.
  - apply list_elem_of_bind in Hin as (ws0 & Hw0 & Hws0).
    assert (Hwok : ∀ ws, ws ∈ mo_workspaces m → workspace_ok par ws).
    { intros ws [i Hi]%list_elem_of_lookup. by eapply loose_workspace. }
    eapply runs_bind; [apply first_that_runs|].
    { intros ws Hws. eapply runs_bind; [by apply (activate_window_keeps par Hcycle g ws id), Hwok|].
      intros [ws' b] [_ H]. apply runs_ret. cbn in *. destruct b; [done|auto]. }
    intros r [[-> Hall]|(i & ws & ws' & b & Hi & E & ->)]; cbn [fst snd mbind option_bind].
    + exfalso. specialize (Hall ws0 Hws0). destruct (activate_present ws0 id (Hwok _ Hws0) Hw0) as ([x d] & Ex & _ & Hd).
      cbn in Hd. subst d. rewrite Ex in Hall. done.
    + apply runs_ret. cbn [fst snd]. rewrite length_insert. split; [|by eapply lookup_lt_Some].
      destruct (activate_window_keeps par Hcycle g ws id) as ([x d] & Ef & Hk & _); [by eapply Hwok, list_elem_of_lookup_2|].
      rewrite Ef in E. cbn in E. injection E as -> _. by apply (kept_workspace par c m i ws).
  - apply list_elem_of_fmap in Hin as (ws & -> & [i Hi]%list_elem_of_lookup). unfold ws_position.
    rewrite (find_by_id par _ _ _ _ i ws (ml_stack _ _ _ Hl) Hi). cbn [mbind option_bind]. apply runs_ret. cbn [fst snd].
    assert (E : set_mo_workspaces m.(mo_workspaces) m = m) by (by destruct m). rewrite E.
    split; [by apply outcome_refl|by eapply lookup_lt_Some].
Qed.

Lemma hold_done_runs c ly output target :
  lok c ly → ly_room c ly →
  (∀ i m, monitor_position (ly_monitors ly) output = Some i → ly_monitors ly !! i = Some m → hold_in m target) →
  runs (dnd_hold_done par env ly output target) (λ ly',
    layout_outcome par c ly [] [] ly' c ∧ ly'.(ly_options) = ly.(ly_options)).
Proof.
  intros Hok Hr Hin. unfold dnd_hold_done. destruct (monitor_position _ output) as [i|] eqn:E.
  2:{ apply runs_ret. split; [by apply layout_keeps_refl|done]. }
  pose proof E as (m0 & Hm0 & _)%monitor_position_Some.
  eapply runs_bind; [apply (on_monitor_runs par c ly i); [done| |]|].
  { intros _. by eapply lookup_lt_Some. }
  { intros m Hm Hmok. eapply runs_bind; [apply (hold_found c m target); [done|by apply (Hin i)]|].
    intros r [Hk Hlt]. pose proof (oc_ok _ _ _ _ _ _ _ Hk) as Hok1.
    destruct (dnd_end_runs par 2 c (set_mo_workspaces (fst r) m) (ve_pos env i)) as (m2 & E2 & Hk2);
      [done|by eapply room_monitor|apply Hv|]. rewrite E2. cbn [mbind option_bind].
    pose proof (dnd_end_workspaces _ _ _ E2) as Hws.
    eapply runs_weaken; [apply (activate_outcome par c m2)|].
    - apply Hk2.
    - unfold mo_count. by rewrite Hws.
    - intros m3 H3. eapply outcome_trans; [exact Hk|]. by eapply outcome_trans. }
  intros ly1 H1. apply runs_ret. pose proof (looped_options _ _ _ H1) as Ho1. destruct H1 as [H1 _].
  pose proof (focus_output_keeps par c ly1 output (lo_ok _ _ _ _ _ _ _ H1)) as H2.
  pose proof (focus_output_options ly1 output) as Ho2. set (ly2 := focus_output ly1 output) in *.
  pose proof (layout_outcome_trans par c ly [] [] ly1 c ly2 c H1 H2) as H3. destruct (ly_overview_open ly).
  - unfold close_overview. destruct (ly_overview_open ly2); cbn [fst]; (split; [|congruence || (cbn; congruence)]); [|done].
    eapply layout_outcome_trans; [exact H3|]. apply toggle_overview_keeps, H3.
  - split; [done|congruence].
Qed.

(** ** Refreshing *)
Lemma ongoing_runs ml c : ok c ml → runs (ongoing_scrolling_dnd ml) (λ _, True).
Proof.
  intros [Hl Hh]. unfold ongoing_scrolling_dnd. destruct (ml_dnd ml); [by apply runs_ret|].
  destruct (ml_move ml) as [[id pd|data]|]; [|by apply runs_ret|by apply runs_ret].
  cbn in Hh. eapply runs_bind; [by apply window_place|]. intros place (ws & (l & Hi & Hj) & _).
  rewrite Hi. cbn [mbind option_bind]. rewrite Hj. by apply runs_ret.
Qed.

Lemma ly_refresh_runs c ly ongoing :
  lok c ly → ly_room c ly → runs (ly_refresh env ongoing ly) (looped par c ly).
Proof.
  intros Hok Hr. unfold ly_refresh. destruct (ly_set ly); [|by eapply end_workspaces_runs].
  eapply (runs_bind _ _ (looped par c ly)).
  { destruct (ly_overview_open ly); [destruct ongoing|].
    - by eapply begin_monitors_runs.
    - by apply runs_ret, looped_refl.
    - by eapply end_monitors_runs. }
  intros ly1 H1. pose proof (looped_ok _ _ _ _ H1) as Hok1. destruct ongoing as [[|]|].
  - eapply runs_weaken; [by eapply begin_workspaces_runs|]. intros ly2. by apply looped_trans.
  - eapply runs_weaken; [by eapply end_workspaces_runs|]. intros ly2. by apply looped_trans.
  - destruct (ly_overview_open ly); [by apply runs_ret|].
    eapply runs_weaken; [apply some_places_runs; [done|]|intros ly2; by apply looped_trans].
    intros ws Hws. by apply ws_view_end_runs.
Qed.

End views.

(** ** Every operation *)
Definition ml_added (op : MlOp) : list N := match op with MlLayout _ op => ly_added op | _ => [] end.

(** What the callers provide. *)
Definition ml_op_pre (c : N) (ml : MovingLayout) (op : MlOp) : Prop :=
  match op with
  | MlLayout env op => view_ok env ∧ layout_op_pre c ml op
  | MlMoveUpdate env pointer _ _ _ _ | MlMoveEnd env pointer _ => view_ok env ∧ pointer_ok pointer
  | MlMoveBegin env _ _ | MlDndUpdate env | MlDndEnd env | MlRefresh env | MlViewEnd env => view_ok env
  | MlDndHold env output target =>
      view_ok env ∧ ∀ i m, monitor_position (ly_monitors ml.(ml_layout)) output = Some i →
        ly_monitors ml.(ml_layout) !! i = Some m → hold_in m target
  | MlViewBegin env _ _ | MlSwitchBegin env _ _ => view_ok env ∧ ly_monitors ml.(ml_layout) ≠ []
  | MlSwitchUpdate _ pos _ | MlSwitchEnd pos _ => f64_ok pos
  end.

Definition ml_room (c : N) (ml : MovingLayout) : Prop := ly_room c ml.(ml_layout).

Definition ml_op_ok c ml op (r : MovingLayout * list N) (c' : N) : Prop :=
  ml_outcome par c ml (ml_added op) (snd r) (fst r) c'.

Lemma keep_wp c ml op (o : Fresh MovingLayout) :
  ml_added op = [] → wp o (keeps c ml) c → wp (ml ← o; mret (ml, [])) (ml_op_ok c ml op) c.
Proof.
  intros Ha Ho. apply wp_bind. eapply wp_weaken; [exact Ho|]. intros ml' c' H. apply wp_ret. unfold ml_op_ok. by rewrite Ha.
Qed.

Lemma inside_wp c ml op (o : option Layout) :
  ok c ml → ml_added op = [] →
  runs o (λ ly', layout_outcome par c ml.(ml_layout) [] [] ly' c ∧ ly'.(ly_options) = ml.(ml_layout).(ly_options)) →
  wp (ml ← lift (ly ← o; Some (set_ml_layout ly ml)); mret (ml, [])) (ml_op_ok c ml op) c.
Proof.
  intros Hok Ha Ho. apply keep_wp; [done|]. apply wp_lift. eapply runs_bind; [exact Ho|]. intros ly' [H1 H2].
  apply runs_ret. by apply ml_carry.
Qed.

Lemma inside_loop_wp c ml op (o : option Layout) :
  ok c ml → ml_added op = [] → runs o (looped par c ml.(ml_layout)) →
  wp (ml ← lift (ly ← o; Some (set_ml_layout ly ml)); mret (ml, [])) (ml_op_ok c ml op) c.
Proof.
  intros Hok Ha Ho. apply inside_wp; [done..|]. eapply runs_weaken; [exact Ho|]. intros ly' H.
  split; [apply H|by eapply looped_options].
Qed.

Lemma run_ml_op_wp c ml op :
  ok c ml → ml_op_pre c ml op → ml_room c ml → wp (run_ml_op par g ml op) (ml_op_ok c ml op) c.
Proof.
  intros Hok Hpre Hr. unfold ml_room in Hr. destruct op; cbn [run_ml_op ml_op_pre] in *.
  - destruct Hpre as [Hv Hpre]. exact (run_layout_op_wp env Hv c ml op Hok Hr Hpre).
  - apply keep_wp; [done|]. apply wp_lift. eapply runs_fmap; [by apply move_begin_runs|done].
  - destruct Hpre as [Hv Hpt]. apply keep_wp; [done|]. apply wp_lift. eapply runs_fmap; [by apply move_update_runs|done].
  - destruct Hpre as [Hv Hpt]. apply keep_wp; [done|]. by apply move_end_wp.
  - apply keep_wp; [done|]. apply wp_lift. by apply dnd_update_runs.
  - apply keep_wp; [done|]. apply wp_lift. by apply dnd_end_keeps.
  - destruct Hpre as [Hv Ht]. apply inside_wp; [done..|]. destruct (ml_dnd ml).
    + by apply hold_done_runs; [|apply Hok|..].
    + apply runs_ret. split; [apply layout_keeps_refl, Hok|done].
  - apply keep_wp; [done|]. apply wp_lift. unfold ml_refresh. eapply runs_bind; [by eapply ongoing_runs|]. intros o _.
    eapply runs_bind; [eapply ly_refresh_runs; [done|apply Hok|done]|]. intros ly' H. apply runs_ret. by apply ml_looped.
  - destruct Hpre as [Hv Hne]. apply inside_loop_wp; [done..|]. eapply view_begin_runs; [done|apply Hok|done].
  - apply inside_loop_wp; [done..|]. eapply view_end_runs; [done|apply Hok].
  - destruct Hpre as [Hv Hne]. apply inside_loop_wp; [done..|]. eapply switch_begin_runs; [done|apply Hok|done|done].
  - apply inside_loop_wp; [done..|]. eapply switch_update_runs; [apply Hok|done|done].
  - apply inside_loop_wp; [done..|]. eapply switch_end_runs; [apply Hok|done|done].
Qed.

End moves.

(** ** Reachable layouts *)
Inductive ml_step (par : N → option N) (g : Placement) : N * MovingLayout → N * MovingLayout → Prop :=
| ml_op_step c ml op ml' removed c' :
    ml_op_pre par c ml op → ml_room c ml → run_ml_op par g ml op c = Some ((ml', removed), c') →
    ml_step par g (c, ml) (c', ml').

(** A layout that was reached without any move. *)
Inductive still_layout (par : N → option N) (g : Placement) : N * MovingLayout → Prop :=
| still_layout_intro s0 c ly :
    fresh_layout s0 → rtc (ly_step par g) s0 (c, ly) → still_layout par g (c, MkMovingLayout ly None false).

Section reachable.
  Context (par : N → option N) (Hcycle : no_cycle par) (g : Placement).

Lemma still_layout_ok s : still_layout par g s → ml_ok par s.1 s.2.
Proof.
  intros [s0 c ly Hf Hs]. split; [|done]. exact (ly_steps_ok par Hcycle g _ _ Hs (fresh_layout_ok par _ Hf)).
Qed.

Lemma ml_step_ok s s' : ml_step par g s s' → ml_ok par s.1 s.2 → ml_ok par s'.1 s'.2.
Proof.
  intros [c ml op ml' removed c' Hpre Hr E] Hok. cbn in *.
  destruct (run_ml_op_wp par Hcycle g c ml op Hok Hpre Hr) as (r & c2 & E2 & [H _ _]).
  rewrite E in E2. by injection E2 as <- <-.
Qed.

Lemma ml_steps_ok s s' : rtc (ml_step par g) s s' → ml_ok par s.1 s.2 → ml_ok par s'.1 s'.2.
Proof. induction 1; eauto using ml_step_ok. Qed.

End reachable.

(** C2: no window is lost or duplicated while windows are moved with the pointer. In every layout
    reached by the operations of the layout, by starting, continuing and ending interactive moves,
    by drag and drop, view gestures and refreshes, the window of a move that has started is in the
    layout until it leaves its start; from then on it is outside of the layout, of normal size and
    with the options of where it is. While ids are left for new workspaces, every operation that
    [ml_op_pre] admits runs and accounts for every window, the held one included: its outputs are
    connected, its windows are in the layout or held, sizes and positions are finite, and, as for the
    layout alone, an empty unnamed workspace gets a name only on the active monitor and no other
    monitor has a name asked for there ([naming_elsewhere_panics] shows what else may happen). *)
Theorem moves_keep_windows par g s0 c ml :
  no_cycle par → still_layout par g s0 → rtc (ml_step par g) s0 (c, ml) →
  ml_ok par c ml ∧
  ∀ op, ml_op_pre par c ml op → ml_room c ml →
    ∃ ml' removed c', run_ml_op par g ml op c = Some ((ml', removed), c') ∧ ml_ok par c' ml' ∧
      removed ++ ml_windows ml' ≡ₚ ml_added op ++ ml_windows ml.
Proof.
  intros Hc Hf Hs. pose proof (ml_steps_ok par Hc g _ _ Hs (still_layout_ok par Hc g _ Hf)) as Hok.
  split; [done|]. intros op Hpre Hr.
  destruct (run_ml_op_wp par Hc g c ml op Hok Hpre Hr) as ([ml' removed] & c' & E & [H1 H2 _]). eauto 10.
Qed.

(** ** Witnesses *)

(** Every column and tile is one high and wide; the views are at the start and do not move. *)
Definition unit_geometry (ws : Workspace) : ScrollGeometry :=
  let s := ws.(ws_scrolling) in
  MkScrollGeometry f64_zero f64_zero f64_zero f64_zero (replicate (length s.(sc_columns)) f64_one) (λ _, f64_zero)
    (λ i, replicate (match s.(sc_columns) !! i with Some col => length col.(co_tiles) | None => 0 end) f64_one).

Definition still_env : ViewEnv := MkViewEnv (λ _, f64_zero) (λ _, f64_zero) (λ _, true) (λ _, true) (λ _, None).

(** The pointer is below the rows, or on the first one. *)
Definition pointer_at (y : f64) : PointerEnv := MkPointerEnv y (λ _, [MkRow 0 f64_zero f64_one]) unit_geometry.

Lemma still_env_ok : view_ok still_env.
Proof. split; [intros i; apply (f64_of_nat_ok 0)|intros i; apply (f64_of_nat_ok 0)|done]. Qed.

Lemma unit_geometry_ok ws : pointer_geometry_ok ws.(ws_scrolling) (unit_geometry ws).
Proof.
  assert (H : geometry_ok ws.(ws_scrolling) (unit_geometry ws)).
  { split; cbn [unit_geometry sg_widths sg_heights sg_gaps sg_origin]; try (intros; vm_compute; reflexivity).
    - apply length_replicate.
    - intros i col Hi. cbn. rewrite Hi. apply length_replicate.
    - apply Forall_replicate. vm_compute. reflexivity.
    - intros i. apply Forall_replicate. split; vm_compute; reflexivity. }
  split; [exact H|]. exact H.
Qed.

Lemma pointer_at_ok y : pointer_ok (pointer_at y).
Proof.
  split; [|apply unit_geometry_ok]. intros m Hm. split; [done|]. by constructor.
Qed.

(** The first window of the sample is taken with the pointer and held over the right output. *)
Definition far_delta : f64 * f64 := (f64_of_Z 1000, f64_of_Z 1000).

Definition moved (ml : N * MovingLayout) (op : MlOp) : N * MovingLayout :=
  match run_ml_op unparented sample_placement (snd ml) op (fst ml) with Some ((ml, _), c) => (c, ml) | None => ml end.

Definition ml0 : N * MovingLayout := (ly5.1, MkMovingLayout ly5.2 None false).
Definition begin_op : MlOp := MlMoveBegin still_env 1 left_output.
Definition update_op : MlOp := MlMoveUpdate still_env (pointer_at f64_one) f64_one 1 far_delta right_output.
Definition drop_op : MlOp := MlMoveEnd still_env (pointer_at f64_one) 1.
Definition ml1 : N * MovingLayout := Eval vm_compute in moved ml0 begin_op.
Definition ml2 : N * MovingLayout := Eval vm_compute in moved ml1 update_op.

Example ml2_view :
  held ml2.2.(ml_move) = [1%N] ∧
  ly_view ml2.2.(ml_layout) = ([([(None, []); (None, [])], 0); ([(None, [2%N]); (None, [])], 0)], Some 0).
Proof. split; vm_compute; reflexivity. Qed.

Lemma ml0_still : still_layout unparented sample_placement ml0.
Proof. exact (still_layout_intro _ _ _ _ _ ly0_fresh ly5_reached). Qed.

(** Runs one of the sample operations. *)
Ltac sample_move_step op :=
  apply (ml_op_step _ _ _ _ op _ []);
  [first [exact still_env_ok | split; [exact still_env_ok|apply pointer_at_ok]]|reflexivity|vm_compute; reflexivity].

Lemma ml2_reached : rtc (ml_step unparented sample_placement) ml0 ml2.
Proof.
  apply rtc_l with ml1; [sample_move_step begin_op|]. apply rtc_l with ml2; [sample_move_step update_op|]. apply rtc_refl.
Qed.

(** The window is dropped below the rows of the other output, on a workspace of its own. *)
Lemma moves_keep_windows_witness :
  held ml2.2.(ml_move) = [1%N] ∧
  ly_view (moved ml2 drop_op).2.(ml_layout) =
    ([([(None, []); (None, [])], 0); ([(None, [2%N]); (None, [1%N]); (None, [])], 1)], Some 0) ∧
  ∃ ml' removed c', run_ml_op unparented sample_placement ml2.2 drop_op ml2.1 = Some ((ml', removed), c') ∧
    ml_ok unparented c' ml' ∧ removed ++ ml_windows ml' ≡ₚ ml_windows ml2.2.
Proof.
  split; [vm_compute; reflexivity|]. split; [vm_compute; reflexivity|].
  destruct (moves_keep_windows unparented sample_placement ml0 ml2.1 ml2.2) as [_ H].
  - apply unparented_no_cycle.
  - exact ml0_still.
  - exact ml2_reached.
  - apply (H drop_op); [split; [exact still_env_ok|apply pointer_at_ok]|reflexivity].
Defined.

(** C31: a window is dropped at the gap that is closest to the pointer. For finite sizes, one per
    column and tile, the insertion position of a tiled window is computed without a panic and is: the
    start, if there are no columns or the pointer is left of them; the gap between columns that is
    closest to the pointer, if the pointer is past the last column or that gap is at most as far as
    the closest gap between tiles of the column under the pointer; and otherwise that gap of that
    column. For a tabbed column it is the closer one of the edges of the active tile. So it is
    always a position that exists. *)
Theorem window_is_dropped_at_closest_gap s geo :
  scrolling_ok s → geometry_ok s geo →
  ∃ pos, sc_insert_position s geo = Some pos ∧ placed s geo pos ∧ position_ok s pos.
Proof. intros Hs Hg. exact (insert_position_placed s geo Hg Hs). Qed.

(** Two columns of width ten, the second of two tiles of height ten. *)
Definition ten : f64 := f64_of_Z 10.
Definition sample_geometry (x y : Z) : ScrollGeometry :=
  MkScrollGeometry (f64_of_Z x) (f64_of_Z y) f64_zero f64_zero [ten; ten] (λ _, f64_zero)
    (λ i, match i with 0 => [ten] | 1 => [ten; ten] | _ => [] end).

Lemma sample_geometry_ok : geometry_ok sample_space (sample_geometry 16 9).
Proof.
  split; try (intros; vm_compute; reflexivity).
  - intros i col Hi. destruct i as [|[|i]]; [by injection Hi as <-..|done].
  - repeat constructor; vm_compute; reflexivity.
  - intros i. destruct i as [|[|i]]; repeat constructor; vm_compute; reflexivity.
Qed.

(** At (16, 9) the gap between the tiles of the second column is closest; at (20, 8) the gap after
    that column, and left of everything the first one. *)
Lemma window_is_dropped_at_closest_gap_witness :
  sc_insert_position sample_space (sample_geometry 16 9) = Some (PosInColumn 1 1) ∧
  sc_insert_position sample_space (sample_geometry 20 8) = Some (PosNewColumn 2) ∧
  sc_insert_position sample_space (sample_geometry (-5) 8) = Some (PosNewColumn 0) ∧
  ∃ pos, sc_insert_position sample_space (sample_geometry 16 9) = Some pos ∧
    placed sample_space (sample_geometry 16 9) pos ∧ position_ok sample_space pos.
Proof.
  split; [vm_compute; reflexivity|]. split; [vm_compute; reflexivity|]. split; [vm_compute; reflexivity|].
  apply (window_is_dropped_at_closest_gap sample_space); [|exact sample_geometry_ok].
  exact (scroll_steps_ok _ _ sample_space_reached (scrolling_new_ok sample_options)).
Defined.
