(* ===== verification/ConfigBinds.v ===== *)
(** * Key bindings of the configuration (crates/niri-config/src/binds.rs, input.rs)

    Actions, triggers and binds as data.  A keysym is its number; a duration is in nanoseconds. *)
From stdpp Require Import gmap strings.
From S2P Require Import Prelude Float64 LayoutScrolling LayoutSet.

(** ** Arguments of actions (niri-ipc) *)
Inductive SizeChange :=
| SizeSetFixed (_ : Z) | SizeSetProportion (_ : f64) | SizeAdjustFixed (_ : Z) | SizeAdjustProportion (_ : f64).

Inductive PositionChange :=
| PosSetFixed (_ : f64) | PosSetProportion (_ : f64) | PosAdjustFixed (_ : f64) | PosAdjustProportion (_ : f64).

Inductive LayoutSwitchTarget := SwitchNext | SwitchPrev | SwitchIndex (_ : N).
Inductive MruDirection := MruForward | MruBackward.
Inductive MruScope := MruScopeAll | MruScopeOutput | MruScopeWorkspace.
Inductive MruFilter := MruFilterAll | MruFilterAppId.

(** ** Actions *)
Inductive Action :=
| ActQuit (_ : bool)
| ActChangeVt (_ : Z)
| ActSuspend | ActPowerOffMonitors | ActPowerOnMonitors | ActToggleDebugTint | ActDebugToggleOpaqueRegions
| ActDebugToggleDamage
| ActSpawn (_ : list string)
| ActSpawnSh (_ : string)
| ActDoScreenTransition (_ : option N)
| ActConfirmScreenshot (write_to_disk : bool)
| ActCancelScreenshot | ActScreenshotTogglePointer
| ActScreenshot (_ : bool) (_ : option string)
| ActScreenshotScreen (_ : bool) (_ : bool) (_ : option string)
| ActScreenshotWindow (_ : bool) (_ : bool) (_ : option string)
| ActScreenshotWindowById (id : N) (write_to_disk : bool) (show_pointer : bool) (path : option string)
| ActToggleKeyboardShortcutsInhibit | ActCloseWindow
| ActCloseWindowById (_ : N)
| ActFullscreenWindow
| ActFullscreenWindowById (_ : N)
| ActToggleWindowedFullscreen
| ActToggleWindowedFullscreenById (_ : N)
| ActFocusWindow (_ : N)
| ActFocusWindowInColumn (_ : N)
| ActFocusWindowPrevious | ActFocusColumnLeft | ActFocusColumnLeftUnderMouse | ActFocusColumnRight
| ActFocusColumnRightUnderMouse | ActFocusColumnFirst | ActFocusColumnLast | ActFocusColumnRightOrFirst
| ActFocusColumnLeftOrLast
| ActFocusColumn (_ : nat)
| ActFocusWindowOrMonitorUp | ActFocusWindowOrMonitorDown | ActFocusColumnOrMonitorLeft
| ActFocusColumnOrMonitorRight | ActFocusWindowDown | ActFocusWindowUp | ActFocusWindowDownOrColumnLeft
| ActFocusWindowDownOrColumnRight | ActFocusWindowUpOrColumnLeft | ActFocusWindowUpOrColumnRight
| ActFocusWindowOrWorkspaceDown | ActFocusWindowOrWorkspaceUp | ActFocusWindowTop | ActFocusWindowBottom
| ActFocusWindowDownOrTop | ActFocusWindowUpOrBottom | ActMoveColumnLeft | ActMoveColumnRight
| ActMoveColumnToFirst | ActMoveColumnToLast | ActMoveColumnLeftOrToMonitorLeft
| ActMoveColumnRightOrToMonitorRight
| ActMoveColumnToIndex (_ : nat)
| ActMoveWindowDown | ActMoveWindowUp | ActMoveWindowDownOrToWorkspaceDown | ActMoveWindowUpOrToWorkspaceUp
| ActConsumeOrExpelWindowLeft
| ActConsumeOrExpelWindowLeftById (_ : N)
| ActConsumeOrExpelWindowRight
| ActConsumeOrExpelWindowRightById (_ : N)
| ActConsumeWindowIntoColumn | ActExpelWindowFromColumn | ActSwapWindowLeft | ActSwapWindowRight
| ActToggleColumnTabbedDisplay
| ActSetColumnDisplay (_ : ColumnDisplay)
| ActCenterColumn | ActCenterWindow
| ActCenterWindowById (_ : N)
| ActCenterVisibleColumns | ActFocusWorkspaceDown | ActFocusWorkspaceDownUnderMouse | ActFocusWorkspaceUp
| ActFocusWorkspaceUpUnderMouse
| ActFocusWorkspace (_ : WorkspaceReference)
| ActFocusWorkspacePrevious
| ActMoveWindowToWorkspaceDown (_ : bool)
| ActMoveWindowToWorkspaceUp (_ : bool)
| ActMoveWindowToWorkspace (_ : WorkspaceReference) (_ : bool)
| ActMoveWindowToWorkspaceById (window_id : N) (reference : WorkspaceReference) (focus : bool)
| ActMoveColumnToWorkspaceDown (_ : bool)
| ActMoveColumnToWorkspaceUp (_ : bool)
| ActMoveColumnToWorkspace (_ : WorkspaceReference) (_ : bool)
| ActMoveWorkspaceDown | ActMoveWorkspaceUp
| ActMoveWorkspaceToIndex (_ : nat)
| ActMoveWorkspaceToIndexByRef (new_idx : nat) (reference : WorkspaceReference)
| ActMoveWorkspaceToMonitorByRef (output_name : string) (reference : WorkspaceReference)
| ActMoveWorkspaceToMonitor (_ : string)
| ActSetWorkspaceName (_ : string)
| ActSetWorkspaceNameByRef (name : string) (reference : WorkspaceReference)
| ActUnsetWorkspaceName
| ActUnsetWorkSpaceNameByRef (_ : WorkspaceReference)
| ActFocusMonitorLeft | ActFocusMonitorRight | ActFocusMonitorDown | ActFocusMonitorUp
| ActFocusMonitorPrevious | ActFocusMonitorNext
| ActFocusMonitor (_ : string)
| ActMoveWindowToMonitorLeft | ActMoveWindowToMonitorRight | ActMoveWindowToMonitorDown
| ActMoveWindowToMonitorUp | ActMoveWindowToMonitorPrevious | ActMoveWindowToMonitorNext
| ActMoveWindowToMonitor (_ : string)
| ActMoveWindowToMonitorById (id : N) (output : string)
| ActMoveColumnToMonitorLeft | ActMoveColumnToMonitorRight | ActMoveColumnToMonitorDown
| ActMoveColumnToMonitorUp | ActMoveColumnToMonitorPrevious | ActMoveColumnToMonitorNext
| ActMoveColumnToMonitor (_ : string)
| ActSetWindowWidth (_ : SizeChange)
| ActSetWindowWidthById (id : N) (change : SizeChange)
| ActSetWindowHeight (_ : SizeChange)
| ActSetWindowHeightById (id : N) (change : SizeChange)
| ActResetWindowHeight
| ActResetWindowHeightById (_ : N)
| ActSwitchPresetColumnWidth | ActSwitchPresetColumnWidthBack | ActSwitchPresetWindowWidth
| ActSwitchPresetWindowWidthBack
| ActSwitchPresetWindowWidthById (_ : N)
| ActSwitchPresetWindowWidthBackById (_ : N)
| ActSwitchPresetWindowHeight | ActSwitchPresetWindowHeightBack
| ActSwitchPresetWindowHeightById (_ : N)
| ActSwitchPresetWindowHeightBackById (_ : N)
| ActMaximizeColumn | ActMaximizeWindowToEdges
| ActMaximizeWindowToEdgesById (_ : N)
| ActSetColumnWidth (_ : SizeChange)
| ActExpandColumnToAvailableWidth
| ActSwitchLayout (_ : LayoutSwitchTarget)
| ActShowHotkeyOverlay | ActMoveWorkspaceToMonitorLeft | ActMoveWorkspaceToMonitorRight
| ActMoveWorkspaceToMonitorDown | ActMoveWorkspaceToMonitorUp | ActMoveWorkspaceToMonitorPrevious
| ActMoveWorkspaceToMonitorNext | ActToggleWindowFloating
| ActToggleWindowFloatingById (_ : N)
| ActMoveWindowToFloating
| ActMoveWindowToFloatingById (_ : N)
| ActMoveWindowToTiling
| ActMoveWindowToTilingById (_ : N)
| ActFocusFloating | ActFocusTiling | ActSwitchFocusBetweenFloatingAndTiling
| ActMoveFloatingWindowById (id : option N) (x : PositionChange) (y : PositionChange)
| ActToggleWindowRuleOpacity
| ActToggleWindowRuleOpacityById (_ : N)
| ActSetDynamicCastWindow
| ActSetDynamicCastWindowById (_ : N)
| ActSetDynamicCastMonitor (_ : option string)
| ActClearDynamicCastTarget
| ActStopCast (_ : N)
| ActToggleOverview | ActOpenOverview | ActCloseOverview
| ActToggleWindowUrgent (_ : N)
| ActSetWindowUrgent (_ : N)
| ActUnsetWindowUrgent (_ : N)
| ActLoadConfigFile (_ : option string)
| ActMruAdvance (direction : MruDirection) (scope : option MruScope) (filter : option MruFilter)
| ActMruConfirm | ActMruCancel | ActMruCloseCurrentWindow | ActMruFirst | ActMruLast
| ActMruSetScope (_ : MruScope)
| ActMruCycleScope
| ActSetAnimationProfile (_ : string)
| ActToggleScratchColumn (_ : string)
| ActSetMaterial (_ : string)
| ActToggleActionPalette | ActToggleSafeMode | ActLinkEnable | ActLinkDisable | ActLinkToggle
| ActLinkJoin (_ : string)
| ActLinkLeave
| ActLinkPair (_ : option string)
| ActLinkUnpair (_ : string)
| ActLinkTrustNode (_ : string)
| ActLinkForgetNode (_ : string)
| ActLinkRestoreSession (_ : string)
| ActLinkSetLeader (_ : string)
| ActLinkStatus.

(** ** Keys *)
Inductive Trigger :=
| TrKeysym (keysym : N)
| MouseLeft | MouseRight | MouseMiddle | MouseBack | MouseForward
| WheelScrollDown | WheelScrollUp | WheelScrollLeft | WheelScrollRight
| TouchpadScrollDown | TouchpadScrollUp | TouchpadScrollLeft | TouchpadScrollRight
| TabletStylusButton1 | TabletStylusButton2 | TabletStylusButton3.

#[export] Instance Trigger_eq_dec : EqDecision Trigger.
Proof. solve_decision. Defined.

(** The triggers that are not keys, numbered. *)
Definition other_triggers : list Trigger :=
  [MouseLeft; MouseRight; MouseMiddle; MouseBack; MouseForward; WheelScrollDown; WheelScrollUp; WheelScrollLeft;
   WheelScrollRight; TouchpadScrollDown; TouchpadScrollUp; TouchpadScrollLeft; TouchpadScrollRight;
   TabletStylusButton1; TabletStylusButton2; TabletStylusButton3].

Definition trigger_code (t : Trigger) : N + nat :=
  match t with
  | TrKeysym keysym => inl keysym
  | MouseLeft => inr 0 | MouseRight => inr 1 | MouseMiddle => inr 2 | MouseBack => inr 3 | MouseForward => inr 4
  | WheelScrollDown => inr 5 | WheelScrollUp => inr 6 | WheelScrollLeft => inr 7 | WheelScrollRight => inr 8
  | TouchpadScrollDown => inr 9 | TouchpadScrollUp => inr 10 | TouchpadScrollLeft => inr 11
  | TouchpadScrollRight => inr 12
  | TabletStylusButton1 => inr 13 | TabletStylusButton2 => inr 14 | TabletStylusButton3 => inr 15
  end.

Definition trigger_of_code (c : N + nat) : Trigger :=
  match c with inl keysym => TrKeysym keysym | inr n => nth n other_triggers MouseLeft end.

#[export] Instance Trigger_countable : Countable Trigger.
Proof. apply (inj_countable' trigger_code trigger_of_code). by intros []. Defined.

(** Sets of modifiers as bits; [COMPOSITOR] is the "Mod" of the configuration. *)
Definition Modifiers : Type := N.
Definition CTRL : Modifiers := 1%N.
Definition SHIFT : Modifiers := 2%N.
Definition ALT : Modifiers := 4%N.
Definition SUPER : Modifiers := 8%N.
Definition ISO_LEVEL3_SHIFT : Modifiers := 16%N.
Definition ISO_LEVEL5_SHIFT : Modifiers := 32%N.
Definition COMPOSITOR : Modifiers := 64%N.

(** [Modifiers::contains]. *)
Definition has_modifiers (m other : Modifiers) : bool := N.eqb (N.land m other) other.

Record Key := MkKey { key_trigger : Trigger; key_modifiers : Modifiers }.

#[export] Instance Key_eq_dec : EqDecision Key.
Proof. intros [t1 m1] [t2 m2]. unfold Modifiers in *. solve_decision. Defined.

#[export] Instance Key_countable : Countable Key.
Proof.
  apply (inj_countable' (λ k, (k.(key_trigger), k.(key_modifiers) : N)) (λ p, MkKey p.1 p.2)). by intros [].
Defined.

Record Bind := MkBind {
  bi_key : Key;
  bi_action : Action;
  bi_repeat : bool;
  bi_cooldown : option N;
  bi_allow_when_locked : bool;
  bi_allow_inhibiting : bool;
  bi_hotkey_overlay_title : option (option string)
}.

Inductive ModKey := ModCtrl | ModShift | ModAlt | ModSuper | ModIsoLevel3Shift | ModIsoLevel5Shift.

Definition to_modifiers (k : ModKey) : Modifiers :=
  match k with
  | ModCtrl => CTRL
  | ModShift => SHIFT
  | ModAlt => ALT
  | ModSuper => SUPER
  | ModIsoLevel3Shift => ISO_LEVEL3_SHIFT
  | ModIsoLevel5Shift => ISO_LEVEL5_SHIFT
  end.

(** Binds to switches spawn programs. *)
Record SwitchBinds := MkSwitchBinds {
  sb_lid_open : option (list string);
  sb_lid_close : option (list string);
  sb_tablet_mode_on : option (list string);
  sb_tablet_mode_off : option (list string)
}.

Definition or_else {A} (part self : option A) : option A := match part with Some _ => part | None => self end.

Definition SwitchBinds_merge_with (self part : SwitchBinds) : SwitchBinds :=
  MkSwitchBinds (or_else part.(sb_lid_open) self.(sb_lid_open)) (or_else part.(sb_lid_close) self.(sb_lid_close))
    (or_else part.(sb_tablet_mode_on) self.(sb_tablet_mode_on))
    (or_else part.(sb_tablet_mode_off) self.(sb_tablet_mode_off)).
