(* ===== verification/Keyboard.v ===== *)
(** * Keyboard input (src/input/mod.rs)

    Which key events are intercepted and which reach the client, the binds they trigger, key repeat
    and cooldowns.  Keysyms of the keyboard library, and the state of other parts of the compositor
    at the time of an event, are arguments; what is done is recorded in a log, in order. *)
From Stdlib Require Import Ascii.
From stdpp Require Import gmap strings.
From S2P Require Import Prelude Float64 Duration ConfigBinds.

(** ** Data *)

(** The keysyms the code names. *)
Record Keysyms := MkKeysyms {
  ks_XF86Switch_VT_1 : N; ks_XF86Switch_VT_12 : N; ks_XF86PowerOff : N;
  ks_Escape : N; ks_Return : N; ks_BackSpace : N; ks_space : N;
  ks_Left : N; ks_Right : N; ks_Up : N; ks_Down : N;
  ks_modifiers : list N;
  ks_name : N → string
}.

Record ModifiersState := MkModifiersState {
  ms_ctrl : bool; ms_shift : bool; ms_alt : bool; ms_logo : bool; ms_iso_level3_shift : bool; ms_iso_level5_shift : bool
}.

Record KeyEvent := MkKeyEvent {
  kv_key_code : N;
  kv_pressed : bool;
  kv_modified : N;
  kv_raw : option N;
  kv_mods : ModifiersState
}.

Inductive KbMonBlock := BlockPass | BlockModifierFirstPress | BlockBlock.
#[export] Instance KbMonBlock_eq_dec : EqDecision KbMonBlock.
Proof. solve_decision. Defined.

(** The configuration and the state of other parts at the time of an event. *)
Record KeyEnv := MkKeyEnv {
  ke_mod_key : ModKey;
  ke_binds : list Bind;
  ke_recent_windows_on : bool;
  ke_recent_windows_binds : list Bind;
  ke_opened_binds : list Bind;
  ke_disable_power_key_handling : bool;
  ke_repeat_rate : N;
  ke_repeat_delay : N;
  ke_locked : bool;
  ke_inhibiting_shortcuts : bool;
  ke_palette_open : bool;
  ke_palette_selected : option Action;
  ke_exit_dialog_open : bool;
  ke_mru_open : bool;
  ke_cancellable_grab : bool;
  ke_screenshot_open : bool;
  ke_screenshot_action : N → ModifiersState → option Action;
  ke_overview_focused : bool;
  ke_block : KbMonBlock
}.

Inductive Effect :=
| DoAction (action : Action)
| PaletteHide | PaletteBackspace | PaletteUp | PaletteDown | PaletteChar (c : Ascii.ascii)
| StopSignal
| UnsetGrab
| SetSpaceDown (down : bool)
| MruCommit.

Inductive KeyTimer := TimerRepeat (bind : Bind) | TimerCooldown (key : Key).

Record Keyboard := MkKeyboard {
  kb_suppressed_keys : gset N;
  kb_suppressed_buttons : gset N;
  kb_bind_repeat_timer : option N;
  kb_bind_cooldown_timers : gmap Key N;
  kb_timers : gmap N KeyTimer;
  kb_next_token : N;
  kb_log : list Effect
}.

Definition set_suppressed_keys v (kb : Keyboard) : Keyboard :=
  MkKeyboard v kb.(kb_suppressed_buttons) kb.(kb_bind_repeat_timer) kb.(kb_bind_cooldown_timers) kb.(kb_timers)
    kb.(kb_next_token) kb.(kb_log).
Definition set_suppressed_buttons v (kb : Keyboard) : Keyboard :=
  MkKeyboard kb.(kb_suppressed_keys) v kb.(kb_bind_repeat_timer) kb.(kb_bind_cooldown_timers) kb.(kb_timers)
    kb.(kb_next_token) kb.(kb_log).
Definition set_repeat_timer v (kb : Keyboard) : Keyboard :=
  MkKeyboard kb.(kb_suppressed_keys) kb.(kb_suppressed_buttons) v kb.(kb_bind_cooldown_timers) kb.(kb_timers)
    kb.(kb_next_token) kb.(kb_log).
Definition set_cooldown_timers v (kb : Keyboard) : Keyboard :=
  MkKeyboard kb.(kb_suppressed_keys) kb.(kb_suppressed_buttons) kb.(kb_bind_repeat_timer) v kb.(kb_timers)
    kb.(kb_next_token) kb.(kb_log).
Definition set_key_timers v next (kb : Keyboard) : Keyboard :=
  MkKeyboard kb.(kb_suppressed_keys) kb.(kb_suppressed_buttons) kb.(kb_bind_repeat_timer) kb.(kb_bind_cooldown_timers)
    v next kb.(kb_log).

Definition emit (e : Effect) (kb : Keyboard) : Keyboard :=
  MkKeyboard kb.(kb_suppressed_keys) kb.(kb_suppressed_buttons) kb.(kb_bind_repeat_timer) kb.(kb_bind_cooldown_timers)
    kb.(kb_timers) kb.(kb_next_token) (kb.(kb_log) ++ [e]).

Definition insert_key_timer (timer : KeyTimer) (kb : Keyboard) : N * Keyboard :=
  (kb.(kb_next_token), set_key_timers (<[kb.(kb_next_token) := timer]> kb.(kb_timers)) (kb.(kb_next_token) + 1)%N kb).
Definition remove_key_timer (token : N) (kb : Keyboard) : Keyboard :=
  set_key_timers (delete token kb.(kb_timers)) kb.(kb_next_token) kb.

Definition suppress_key (key_code : N) (kb : Keyboard) : Keyboard :=
  set_suppressed_keys ({[key_code]} ∪ kb.(kb_suppressed_keys)) kb.
Definition unsuppress_key (key_code : N) (kb : Keyboard) : Keyboard :=
  set_suppressed_keys (kb.(kb_suppressed_keys) ∖ {[key_code]}) kb.

Definition keyboard_new : Keyboard := MkKeyboard ∅ ∅ None ∅ ∅ 0 [].

(** ** Modifiers and binds *)
Definition flag (b : bool) (m : Modifiers) : Modifiers := if b then m else 0%N.

Definition modifiers_from_state (mods : ModifiersState) : Modifiers :=
  N.lor (flag mods.(ms_ctrl) CTRL) (N.lor (flag mods.(ms_shift) SHIFT) (N.lor (flag mods.(ms_alt) ALT)
    (N.lor (flag mods.(ms_logo) SUPER) (N.lor (flag mods.(ms_iso_level3_shift) ISO_LEVEL3_SHIFT)
      (flag mods.(ms_iso_level5_shift) ISO_LEVEL5_SHIFT))))).

(** The modifiers of a bind with both "Mod" and the key it stands for. *)
Definition bind_modifiers (mod_key : ModKey) (modifiers : Modifiers) : Modifiers :=
  if has_modifiers modifiers COMPOSITOR then N.lor modifiers (to_modifiers mod_key)
  else if has_modifiers modifiers (to_modifiers mod_key) then N.lor modifiers COMPOSITOR
  else modifiers.

Fixpoint find_configured_bind_in (mod_key : ModKey) (trigger : Trigger) (modifiers : Modifiers) (bindings : list Bind) :
    option Bind :=
  match bindings with
  | [] => None
  | bind :: bindings =>
      if decide (bind.(bi_key).(key_trigger) ≠ trigger)
      then find_configured_bind_in mod_key trigger modifiers bindings
      else if N.eqb (bind_modifiers mod_key bind.(bi_key).(key_modifiers)) modifiers then Some bind
      else find_configured_bind_in mod_key trigger modifiers bindings
  end.

Definition find_configured_bind (bindings : list Bind) (mod_key : ModKey) (trigger : Trigger) (mods : ModifiersState) :
    option Bind :=
  let modifiers := modifiers_from_state mods in
  let modifiers := if has_modifiers modifiers (to_modifiers mod_key) then N.lor modifiers COMPOSITOR else modifiers in
  find_configured_bind_in mod_key trigger modifiers bindings.

Definition mods_with_binds (mod_key : ModKey) (binds : list Bind) (triggers : list Trigger) : gset N :=
  list_to_set (omap (λ bind,
    if decide (bind.(bi_key).(key_trigger) ∈ triggers) then
      let mods := bind.(bi_key).(key_modifiers) in
      Some (if has_modifiers mods COMPOSITOR then N.lor (N.ldiff mods COMPOSITOR) (to_modifiers mod_key) else mods)
    else None) binds).

Definition mods_with_mouse_binds (mod_key : ModKey) (binds : list Bind) : gset N :=
  mods_with_binds mod_key binds [MouseLeft; MouseRight; MouseMiddle; MouseBack; MouseForward].
Definition mods_with_wheel_binds (mod_key : ModKey) (binds : list Bind) : gset N :=
  mods_with_binds mod_key binds [WheelScrollUp; WheelScrollDown; WheelScrollLeft; WheelScrollRight].
Definition mods_with_finger_scroll_binds (mod_key : ModKey) (binds : list Bind) : gset N :=
  mods_with_binds mod_key binds [TouchpadScrollUp; TouchpadScrollDown; TouchpadScrollLeft; TouchpadScrollRight].
Definition mods_with_tablet_stylus_binds (mod_key : ModKey) (binds : list Bind) : gset N :=
  mods_with_binds mod_key binds [TabletStylusButton1; TabletStylusButton2; TabletStylusButton3].

(** [WindowMruUi::opened_bindings] fills in the modifiers that are held. *)
Definition opened_bindings (env : KeyEnv) (mods : Modifiers) : list Bind :=
  (λ b, MkBind (MkKey b.(bi_key).(key_trigger) mods) b.(bi_action) b.(bi_repeat) b.(bi_cooldown)
          b.(bi_allow_when_locked) b.(bi_allow_inhibiting) b.(bi_hotkey_overlay_title)) <$> env.(ke_opened_binds).

Definition make_binds_iter (env : KeyEnv) (mods : Modifiers) : list Bind :=
  (if env.(ke_mru_open) then [] else env.(ke_binds)) ++
  (if env.(ke_recent_windows_on) || env.(ke_mru_open) then env.(ke_recent_windows_binds) else []) ++
  (if env.(ke_mru_open) then opened_bindings env mods else []).

Definition find_configured_switch_action (bindings : SwitchBinds) (lid on : bool) : option Action :=
  ActSpawn <$> match lid, on with
               | true, false => bindings.(sb_lid_open)
               | true, true => bindings.(sb_lid_close)
               | false, false => bindings.(sb_tablet_mode_off)
               | false, true => bindings.(sb_tablet_mode_on)
               end.

Definition allowed_when_locked (action : Action) : bool :=
  match action with
  | ActQuit _ | ActChangeVt _ | ActSuspend | ActPowerOffMonitors | ActPowerOnMonitors | ActSwitchLayout _
  | ActToggleKeyboardShortcutsInhibit => true
  | _ => false
  end.

Definition allowed_during_screenshot (action : Action) : bool :=
  match action with
  | ActQuit _ | ActChangeVt _ | ActSuspend | ActPowerOffMonitors | ActPowerOnMonitors | ActSpawn _ | ActSpawnSh _
  | ActMoveColumnLeft | ActMoveColumnLeftOrToMonitorLeft | ActMoveColumnRight | ActMoveColumnRightOrToMonitorRight
  | ActMoveWindowUp | ActMoveWindowUpOrToWorkspaceUp | ActMoveWindowDown | ActMoveWindowDownOrToWorkspaceDown
  | ActMoveColumnToMonitorLeft | ActMoveColumnToMonitorRight | ActMoveColumnToMonitorUp | ActMoveColumnToMonitorDown
  | ActMoveColumnToMonitorPrevious | ActMoveColumnToMonitorNext | ActMoveColumnToMonitor _
  | ActMoveWindowToMonitorLeft | ActMoveWindowToMonitorRight | ActMoveWindowToMonitorUp | ActMoveWindowToMonitorDown
  | ActMoveWindowToMonitorPrevious | ActMoveWindowToMonitorNext | ActMoveWindowToMonitor _
  | ActSetWindowWidth _ | ActSetWindowHeight _ | ActSetColumnWidth _ => true
  | _ => false
  end.

(** A bind that is not in the configuration. *)
Definition builtin_bind (keysym : N) (action : Action) (repeat : bool) : Bind :=
  MkBind (MkKey (TrKeysym keysym) 0%N) action repeat None false false None.

(** [u32 as i32]. *)
Definition as_i32 (n : N) : Z := (Z.of_N n + 2 ^ 31) mod 2 ^ 32 - 2 ^ 31.

(** [find_bind] knows the keys that switch consoles and the power key. *)
Definition hardcoded_action (ks : Keysyms) (modified : N) (disable_power_key_handling : bool) : option Action :=
  if (ks.(ks_XF86Switch_VT_1) <=? modified)%N && (modified <=? ks.(ks_XF86Switch_VT_12))%N
  then Some (ActChangeVt (as_i32 (modified - ks.(ks_XF86Switch_VT_1) + 1)))
  else if N.eqb modified ks.(ks_XF86PowerOff) && negb disable_power_key_handling then Some ActSuspend
  else None.

Definition find_bind (ks : Keysyms) (bindings : list Bind) (mod_key : ModKey) (modified : N) (raw : option N)
    (mods : ModifiersState) (disable_power_key_handling : bool) : option Bind :=
  match hardcoded_action ks modified disable_power_key_handling with
  | Some action => Some (builtin_bind modified action true)
  | None => raw ← raw; find_configured_bind bindings mod_key (TrKeysym raw) mods
  end.

Definition hardcoded_overview_bind (ks : Keysyms) (raw : N) (mods : ModifiersState) : option Bind :=
  if negb (N.eqb (modifiers_from_state mods) 0) then None
  else if N.eqb raw ks.(ks_Escape) || N.eqb raw ks.(ks_Return) then Some (builtin_bind raw ActToggleOverview false)
  else if N.eqb raw ks.(ks_Left) then Some (builtin_bind raw ActFocusColumnLeft true)
  else if N.eqb raw ks.(ks_Right) then Some (builtin_bind raw ActFocusColumnRight true)
  else if N.eqb raw ks.(ks_Up) then Some (builtin_bind raw ActFocusWindowOrWorkspaceUp true)
  else if N.eqb raw ks.(ks_Down) then Some (builtin_bind raw ActFocusWindowOrWorkspaceDown true)
  else None.

(** ** Actions *)

(** What an action does is not modelled, but for the keys that are forgotten. *)
Definition do_action (env : KeyEnv) (action : Action) (allow_when_locked : bool) (kb : Keyboard) : Keyboard :=
  if env.(ke_locked) && negb (allow_when_locked || allowed_when_locked action) then kb
  else
    let kb := emit (DoAction action) kb in
    match action with
    | ActChangeVt _ | ActSuspend => set_suppressed_keys ∅ kb
    | _ => kb
    end.

Definition handle_bind (env : KeyEnv) (bind : Bind) (kb : Keyboard) : Keyboard :=
  match bind.(bi_cooldown) with
  | None => do_action env bind.(bi_action) bind.(bi_allow_when_locked) kb
  | Some cooldown =>
      if env.(ke_locked) && negb (bind.(bi_allow_when_locked) || allowed_when_locked bind.(bi_action)) then kb
      else match kb.(kb_bind_cooldown_timers) !! bind.(bi_key) with
           | Some _ => kb
           | None =>
               let '(token, kb) := insert_key_timer (TimerCooldown bind.(bi_key)) kb in
               let kb := set_cooldown_timers (<[bind.(bi_key) := token]> kb.(kb_bind_cooldown_timers)) kb in
               do_action env bind.(bi_action) bind.(bi_allow_when_locked) kb
           end
  end.

(** The pending repeat is dropped. *)
Definition stop_key_repeat (kb : Keyboard) : Keyboard :=
  match kb.(kb_bind_repeat_timer) with
  | Some token => remove_key_timer token (set_repeat_timer None kb)
  | None => kb
  end.

Definition repeat_duration (env : KeyEnv) : option N :=
  from_secs_f64 (f64_div f64_one (f64_of_Z (Z.of_N env.(ke_repeat_rate)))).

Definition start_key_repeat (env : KeyEnv) (bind : Bind) (kb : Keyboard) : option Keyboard :=
  if negb bind.(bi_repeat) then Some kb
  else
    let kb := stop_key_repeat kb in
    if N.eqb env.(ke_repeat_rate) 0 then Some kb
    else
      _ ← repeat_duration env;
      let '(token, kb) := insert_key_timer (TimerRepeat bind) kb in
      Some (set_repeat_timer (Some token) kb).

(** A timer fires; the repeat timer stays. *)
Definition fire_key_timer (env : KeyEnv) (token : N) (kb : Keyboard) : Keyboard :=
  match kb.(kb_timers) !! token with
  | None => kb
  | Some (TimerRepeat bind) => handle_bind env bind kb
  | Some (TimerCooldown key) =>
      remove_key_timer token (set_cooldown_timers (delete key kb.(kb_bind_cooldown_timers)) kb)
  end.

(** ** Keys *)
Inductive FilterResult := Forward | Intercept (bind : option Bind).

Definition should_intercept_key (ks : Keysyms) (env : KeyEnv) (bindings : list Bind) (ev : KeyEvent) (kb : Keyboard) :
    Keyboard * FilterResult :=
  if negb ev.(kv_pressed) && negb (bool_decide (ev.(kv_key_code) ∈ kb.(kb_suppressed_keys))) then (kb, Forward)
  else
    let final_bind := find_bind ks bindings env.(ke_mod_key) ev.(kv_modified) ev.(kv_raw) ev.(kv_mods)
                        env.(ke_disable_power_key_handling) in
    let final_bind :=
      if env.(ke_screenshot_open) then
        if match final_bind with Some bind => allowed_during_screenshot bind.(bi_action) | None => false end
        then final_bind
        else match ev.(kv_raw) with
             | Some raw => (λ action, builtin_bind raw action true) <$> env.(ke_screenshot_action) raw ev.(kv_mods)
             | None => final_bind
             end
      else final_bind in
    match final_bind, ev.(kv_pressed) with
    | Some bind, true =>
        if env.(ke_inhibiting_shortcuts) && bind.(bi_allow_inhibiting) then (kb, Forward)
        else (suppress_key ev.(kv_key_code) kb, Intercept (Some bind))
    | _, false => (unsuppress_key ev.(kv_key_code) kb, Intercept None)
    | None, true => (kb, Forward)
    end.

Definition keysym_names : list (string * Ascii.ascii) :=
  [("space", " "%char); ("minus", "-"%char); ("underscore", "_"%char); ("period", "."%char); ("comma", ","%char); ("slash", "/"%char);
   ("colon", ":"%char); ("semicolon", ";"%char); ("equal", "="%char); ("plus", "+"%char); ("bracketleft", "["%char); ("bracketright", "]"%char);
   ("braceleft", "{"%char); ("braceright", "}"%char); ("backslash", "\"%char); ("bar", "|"%char); ("apostrophe", "'"%char);
   ("quotedbl", Ascii.ascii_of_nat 34); ("grave", "`"%char); ("asciitilde", "~"%char); ("at", "@"%char); ("numbersign", "#"%char);
   ("dollar", "$"%char); ("percent", "%"%char); ("asciicircum", "^"%char); ("ampersand", "&"%char); ("asterisk", "*"%char);
   ("parenleft", "("%char); ("parenright", ")"%char); ("question", "?"%char)]%string.

Definition keysym_to_char (ks : Keysyms) (sym : N) : option Ascii.ascii :=
  match ks.(ks_name) sym with
  | String.String c String.EmptyString => Some c
  | name => snd <$> find (λ p, String.eqb p.1 name) keysym_names
  end.

Definition is_sym (raw : option N) (sym : N) : bool := bool_decide (raw = Some sym).

(** A key that is pressed while the action palette is open. *)
Definition palette_key (ks : Keysyms) (env : KeyEnv) (raw : option N) (kb : Keyboard) : Keyboard :=
  if is_sym raw ks.(ks_Escape) then emit PaletteHide kb
  else if is_sym raw ks.(ks_Return) then
    emit PaletteHide (match env.(ke_palette_selected) with
                      | Some action => do_action env action false kb
                      | None => kb
                      end)
  else if is_sym raw ks.(ks_BackSpace) then emit PaletteBackspace kb
  else if is_sym raw ks.(ks_Up) then emit PaletteUp kb
  else if is_sym raw ks.(ks_Down) then emit PaletteDown kb
  else match raw ≫= keysym_to_char ks with Some c => emit (PaletteChar c) kb | None => kb end.

(** The filter of [KeyboardHandle::input]. *)
Definition filter_key (ks : Keysyms) (env : KeyEnv) (ev : KeyEvent) (kb : Keyboard) : Keyboard * FilterResult :=
  let modifiers := modifiers_from_state ev.(kv_mods) in
  if decide (env.(ke_block) ≠ BlockPass) then
    (kb, if negb ev.(kv_pressed) && bool_decide (ev.(kv_modified) ∈ ks.(ks_modifiers)) then Forward else Intercept None)
  else if env.(ke_palette_open) && ev.(kv_pressed) then
    (suppress_key ev.(kv_key_code) (palette_key ks env ev.(kv_raw) kb), Intercept None)
  else if env.(ke_exit_dialog_open) && ev.(kv_pressed) then
    (suppress_key ev.(kv_key_code) (if is_sym ev.(kv_raw) ks.(ks_Return) then emit StopSignal kb else kb),
     Intercept None)
  else if env.(ke_mru_open) && negb ev.(kv_pressed) && N.eqb modifiers 0 then
    let kb := do_action env ActMruConfirm false kb in
    (unsuppress_key ev.(kv_key_code) kb,
     if bool_decide (ev.(kv_key_code) ∈ kb.(kb_suppressed_keys)) then Intercept None else Forward)
  else if ev.(kv_pressed) && is_sym ev.(kv_raw) ks.(ks_Escape) && env.(ke_cancellable_grab) then
    (suppress_key ev.(kv_key_code) (emit UnsetGrab kb), Intercept None)
  else
    let kb := if is_sym ev.(kv_raw) ks.(ks_space) then emit (SetSpaceDown ev.(kv_pressed)) kb else kb in
    let '(kb, res) := should_intercept_key ks env (make_binds_iter env modifiers) ev kb in
    match res with
    | Intercept _ => (kb, res)
    | Forward =>
        match (if env.(ke_overview_focused) && ev.(kv_pressed)
               then raw ← ev.(kv_raw); hardcoded_overview_bind ks raw ev.(kv_mods) else None) with
        | Some bind => (suppress_key ev.(kv_key_code) kb, Intercept (Some bind))
        | None => (emit MruCommit kb, Forward)
        end
    end.

(** Whether the event reached the client; [None] in the result when it was not even put in. *)
Definition on_keyboard (ks : Keysyms) (env : KeyEnv) (ev : KeyEvent) (kb : Keyboard) :
    option (Keyboard * option FilterResult) :=
  let kb := if ev.(kv_pressed) then kb else stop_key_repeat kb in
  if decide (env.(ke_block) = BlockModifierFirstPress) then Some (kb, None)
  else
    let '(kb, res) := filter_key ks env ev kb in
    match res with
    | Intercept (Some bind) =>
        if ev.(kv_pressed) then
          kb ← start_key_repeat env bind (handle_bind env bind kb); Some (kb, Some res)
        else Some (kb, Some res)
    | _ => Some (kb, Some res)
    end.

(** ** Buttons and switches *)
Definition BTN_STYLUS : N := 331.
Definition BTN_STYLUS2 : N := 332.
Definition BTN_STYLUS3 : N := 329.

Definition stylus_trigger (button : N) : option Trigger :=
  if N.eqb button BTN_STYLUS then Some TabletStylusButton1
  else if N.eqb button BTN_STYLUS2 then Some TabletStylusButton2
  else if N.eqb button BTN_STYLUS3 then Some TabletStylusButton3
  else None.

(** A bind that a press triggers, if any. *)
Definition button_bind (env : KeyEnv) (mods_with : gset N) (bindings : list Bind) (trigger : option Trigger)
    (mods : ModifiersState) : option Bind :=
  if decide (modifiers_from_state mods ∈ mods_with) then
    trigger ← trigger;
    bind ← find_configured_bind bindings env.(ke_mod_key) trigger mods;
    if negb env.(ke_screenshot_open) || allowed_during_screenshot bind.(bi_action) then Some bind else None
  else None.

(** The button of a tablet tool; the result is whether the tool gets it. *)
Definition on_tablet_tool_button (env : KeyEnv) (button : N) (pressed : bool) (mods : ModifiersState) (kb : Keyboard) :
    Keyboard * bool :=
  if bool_decide (button ∈ kb.(kb_suppressed_buttons))
  then (set_suppressed_buttons (kb.(kb_suppressed_buttons) ∖ {[button]}) kb, false)
  else
    match (if pressed
           then button_bind env (mods_with_tablet_stylus_binds env.(ke_mod_key) env.(ke_binds)) env.(ke_binds)
                  (stylus_trigger button) mods
           else None) with
    | Some bind =>
        (handle_bind env bind (set_suppressed_buttons ({[button]} ∪ kb.(kb_suppressed_buttons)) kb), false)
    | None => (kb, true)
    end.

Definition on_switch_toggle (env : KeyEnv) (bindings : SwitchBinds) (lid on : bool) (kb : Keyboard) : Keyboard :=
  match find_configured_switch_action bindings lid on with
  | Some action => do_action env action true kb
  | None => kb
  end.
