(* ===== verification/KeyboardProps.v ===== *)
(** * Keyboard input: properties *)
From stdpp Require Import gmap strings.
From S2P Require Import Prelude Float64 Duration ConfigBinds Keyboard.

(** ** Inputs *)
Inductive KbInput :=
| InKey (env : KeyEnv) (ev : KeyEvent)
| InTimer (env : KeyEnv) (token : N)
| InStylus (env : KeyEnv) (button : N) (pressed : bool) (mods : ModifiersState)
| InSwitch (env : KeyEnv) (bindings : SwitchBinds) (lid on : bool).

Definition input_env (i : KbInput) : KeyEnv :=
  match i with InKey env _ | InTimer env _ | InStylus env _ _ _ | InSwitch env _ _ _ => env end.

(** The event of a key, and whether it was forwarded. *)
Definition physical (i : KbInput) : list (N * bool) :=
  match i with InKey _ ev => [(ev.(kv_key_code), ev.(kv_pressed))] | _ => [] end.

(** The new state, and the key event that reaches the client, if any. *)
Definition run_input (ks : Keysyms) (i : KbInput) (kb : Keyboard) : option (Keyboard * list (N * bool)) :=
  match i with
  | InKey env ev =>
      '(kb, res) ← on_keyboard ks env ev kb;
      Some (kb, match res with Some Forward => [(ev.(kv_key_code), ev.(kv_pressed))] | _ => [] end)
  | InTimer env token => Some (fire_key_timer env token kb, [])
  | InStylus env button pressed mods => Some (fst (on_tablet_tool_button env button pressed mods kb), [])
  | InSwitch env bindings lid on => Some (on_switch_toggle env bindings lid on kb, [])
  end.

Fixpoint run_inputs (ks : Keysyms) (ins : list KbInput) (kb : Keyboard) : option (Keyboard * list (N * bool)) :=
  match ins with
  | [] => Some (kb, [])
  | i :: ins =>
      '(kb, client) ← run_input ks i kb;
      '(kb, client') ← run_inputs ks ins kb;
      Some (kb, client ++ client')
  end.

(** ** The log *)

(** What an operation adds to the log. *)
Definition logs (kb kb' : Keyboard) (new : list Effect) : Prop := kb'.(kb_log) = kb.(kb_log) ++ new.

Definition extends (kb kb' : Keyboard) : Prop := ∃ new, logs kb kb' new.

Lemma extends_same kb kb' : kb'.(kb_log) = kb.(kb_log) → extends kb kb'.
Proof. intros E. exists []. unfold logs. by rewrite app_nil_r. Qed.

Lemma extends_trans kb1 kb2 kb3 : extends kb1 kb2 → extends kb2 kb3 → extends kb1 kb3.
Proof. intros [l1 E1] [l2 E2]. exists (l1 ++ l2). unfold logs in *. by rewrite E2, E1, app_assoc. Qed.

Lemma extends_emit e kb : extends kb (emit e kb).
Proof. by exists [e]. Qed.

(** No action made the compositor forget the keys that are held. *)
Definition is_reset (e : Effect) : bool :=
  match e with DoAction (ActChangeVt _) | DoAction ActSuspend => true | _ => false end.

Definition no_reset (kb : Keyboard) : Prop := Forall (λ e, is_reset e = false) kb.(kb_log).

Lemma no_reset_back kb kb' : extends kb kb' → no_reset kb' → no_reset kb.
Proof. intros [l E]. unfold no_reset. rewrite E, Forall_app. tauto. Qed.

(** The keys that are suppressed stay so. *)
Definition keeps_keys (kb kb' : Keyboard) : Prop :=
  extends kb kb' ∧ (no_reset kb' → kb'.(kb_suppressed_keys) = kb.(kb_suppressed_keys)).

Lemma keeps_keys_same kb kb' :
  kb'.(kb_log) = kb.(kb_log) → kb'.(kb_suppressed_keys) = kb.(kb_suppressed_keys) → keeps_keys kb kb'.
Proof. intros E1 E2. split; [by apply extends_same|done]. Qed.

Lemma keeps_keys_trans kb1 kb2 kb3 : keeps_keys kb1 kb2 → keeps_keys kb2 kb3 → keeps_keys kb1 kb3.
Proof.
  intros [H1 H2] [H3 H4]. split; [by eapply extends_trans|]. intros Hn. rewrite (H4 Hn). apply H2.
  by eapply no_reset_back.
Qed.

Lemma keeps_keys_emit e kb : keeps_keys kb (emit e kb).
Proof. split; [apply extends_emit|done]. Qed.

Lemma do_action_keeps env action allow kb : keeps_keys kb (do_action env action allow kb).
Proof.
  unfold do_action. destruct (ke_locked env && _); [by apply keeps_keys_same|]. split.
  - apply (extends_trans _ (emit (DoAction action) kb)); [apply extends_emit|].
    destruct action; by apply extends_same.
  - intros Hn. destruct action; try done; apply Forall_app in Hn as [_ [Hn _]%Forall_cons]; done.
Qed.

Lemma handle_bind_keeps env bind kb : keeps_keys kb (handle_bind env bind kb).
Proof.
  unfold handle_bind. destruct (bi_cooldown bind); [|apply do_action_keeps].
  destruct (ke_locked env && _); [by apply keeps_keys_same|].
  destruct (kb_bind_cooldown_timers kb !! _); [by apply keeps_keys_same|]. cbn [insert_key_timer].
  eapply keeps_keys_trans; [|apply do_action_keeps]. by apply keeps_keys_same.
Qed.

Lemma stop_key_repeat_keeps kb : keeps_keys kb (stop_key_repeat kb).
Proof. unfold stop_key_repeat. destruct (kb_bind_repeat_timer kb); by apply keeps_keys_same. Qed.

Lemma start_key_repeat_keeps env bind kb kb' : start_key_repeat env bind kb = Some kb' → keeps_keys kb kb'.
Proof.
  unfold start_key_repeat. destruct (negb _); [intros [= <-]; by apply keeps_keys_same|].
  destruct (ke_repeat_rate env =? 0)%N; [intros [= <-]; apply stop_key_repeat_keeps|].
  destruct (repeat_duration env); [|done]. cbn [mbind option_bind insert_key_timer]. intros [= <-].
  eapply keeps_keys_trans; [apply stop_key_repeat_keeps|]. by apply keeps_keys_same.
Qed.

Lemma fire_key_timer_keeps env token kb : keeps_keys kb (fire_key_timer env token kb).
Proof.
  unfold fire_key_timer. destruct (kb_timers kb !! token) as [[bind|key]|]; [apply handle_bind_keeps|..];
    by apply keeps_keys_same.
Qed.

Lemma palette_key_keeps ks env raw kb : keeps_keys kb (palette_key ks env raw kb).
Proof.
  unfold palette_key. repeat (destruct (is_sym raw _); try apply keeps_keys_emit).
  - eapply keeps_keys_trans; [|apply keeps_keys_emit].
    destruct (ke_palette_selected env); [apply do_action_keeps|by apply keeps_keys_same].
  - destruct (raw ≫= _); [apply keeps_keys_emit|by apply keeps_keys_same].
Qed.

Lemma other_input_keeps ks i kb kb' client :
  physical i = [] → run_input ks i kb = Some (kb', client) → keeps_keys kb kb' ∧ client = [].
Proof.
  destruct i as [env ev|env token|env button pressed mods|env bindings lid on]; [done|..]; intros _ [= <- <-];
    (split; [|done]).
  - apply fire_key_timer_keeps.
  - unfold on_tablet_tool_button. destruct (bool_decide _); [by apply keeps_keys_same|].
    destruct (if pressed then _ else None); [|by apply keeps_keys_same].
    eapply keeps_keys_trans; [|apply handle_bind_keeps]. by apply keeps_keys_same.
  - unfold on_switch_toggle. destruct (find_configured_switch_action _ _ _); [apply do_action_keeps|].
    by apply keeps_keys_same.
Qed.

(** ** Key events *)

(** What a key event does to the keys that are suppressed. *)
Definition key_step (ev : KeyEvent) (kb kb' : Keyboard) (forwarded : bool) : Prop :=
  let k := ev.(kv_key_code) in
  extends kb kb' ∧
  (no_reset kb' →
   if ev.(kv_pressed) then
     kb'.(kb_suppressed_keys) = if forwarded then kb.(kb_suppressed_keys) else {[k]} ∪ kb.(kb_suppressed_keys)
   else
     (forwarded = true ↔ k ∉ kb.(kb_suppressed_keys)) ∧
     kb'.(kb_suppressed_keys) = kb.(kb_suppressed_keys) ∖ {[k]}).

Definition forwards (res : FilterResult) : bool := match res with Forward => true | Intercept _ => false end.

Lemma key_step_after ev kb kb1 kb2 f : keeps_keys kb kb1 → key_step ev kb1 kb2 f → key_step ev kb kb2 f.
Proof.
  intros [H1 H2] [H3 H4]. split; [by eapply extends_trans|]. intros Hn. rewrite <- (H2 (no_reset_back _ _ H3 Hn)). exact (H4 Hn).
Qed.

Lemma key_step_before ev kb kb1 kb2 f : key_step ev kb kb1 f → keeps_keys kb1 kb2 → key_step ev kb kb2 f.
Proof.
  intros [H1 H2] [H3 H4]. split; [by eapply extends_trans|]. intros Hn. rewrite (H4 Hn).
  exact (H2 (no_reset_back _ _ H3 Hn)).
Qed.

Lemma key_step_suppress ev kb : ev.(kv_pressed) = true → key_step ev kb (suppress_key ev.(kv_key_code) kb) false.
Proof. intros E. split; [by apply extends_same|]. by rewrite E. Qed.

Lemma should_intercept_step ks env bindings ev kb :
  key_step ev kb (fst (should_intercept_key ks env bindings ev kb))
    (forwards (snd (should_intercept_key ks env bindings ev kb))).
Proof.
  unfold should_intercept_key. destruct (kv_pressed ev) eqn:Ep; cbn [negb andb].
  - match goal with |- context [match ?b with Some _ => _ | None => _ end] => destruct b as [bind|] end.
    + destruct (ke_inhibiting_shortcuts env && _); cbn; [|by apply key_step_suppress].
      split; [by apply extends_same|]. by rewrite Ep.
    + split; [by apply extends_same|]. by rewrite Ep.
  - case_bool_decide as Hin; cbn [negb].
    + match goal with |- context [match ?b with Some _ => _ | None => _ end] => destruct b as [bind|] end;
        (split; [by apply extends_same|]; rewrite Ep; intros _; cbn; split; [|done]; split; [done|by intros []]).
    + split; [by apply extends_same|]. rewrite Ep. intros _. cbn. split; [done|]. set_solver.
Qed.

Lemma filter_key_step ks env ev kb :
  env.(ke_block) = BlockPass →
  key_step ev kb (fst (filter_key ks env ev kb)) (forwards (snd (filter_key ks env ev kb))).
Proof.
  intros Hb. unfold filter_key. rewrite decide_False by (rewrite Hb; by intros []).
  destruct (ke_palette_open env && kv_pressed ev) eqn:E1.
  { apply andb_true_iff in E1 as [_ Ep].
    eapply key_step_after; [apply palette_key_keeps|by apply key_step_suppress]. }
  destruct (ke_exit_dialog_open env && kv_pressed ev) eqn:E2.
  { apply andb_true_iff in E2 as [_ Ep].
    eapply (key_step_after _ _ (if is_sym _ _ then _ else _)); [|by apply key_step_suppress].
    destruct (is_sym _ _); [apply keeps_keys_emit|by apply keeps_keys_same]. }
  destruct (ke_mru_open env && negb (kv_pressed ev) && _) eqn:E3.
  { apply andb_true_iff in E3 as [[_ Ep%negb_true_iff]%andb_true_iff _].
    eapply key_step_after; [apply (do_action_keeps env ActMruConfirm false)|]. split; [by apply extends_same|].
    intros _. rewrite Ep. cbn [fst snd]. split; [|done]. case_bool_decide; cbn; split; naive_solver. }
  destruct (kv_pressed ev && _ && _) eqn:E4.
  { apply andb_true_iff in E4 as [[Ep _]%andb_true_iff _].
    eapply key_step_after; [apply keeps_keys_emit|by apply key_step_suppress]. }
  eapply (key_step_after _ _ (if is_sym (kv_raw ev) (ks_space ks) then emit (SetSpaceDown (kv_pressed ev)) kb else kb)).
  { destruct (is_sym (kv_raw ev) (ks_space ks)); [apply keeps_keys_emit|by apply keeps_keys_same]. }
  set (kb0 := if is_sym (kv_raw ev) (ks_space ks) then _ else kb). clearbody kb0.
  pose proof (should_intercept_step ks env (make_binds_iter env (modifiers_from_state (kv_mods ev))) ev kb0) as H.
  destruct (should_intercept_key _ _ _ _ _) as [kb1 [|bind]]; cbn [fst snd forwards] in *; [|exact H].
  destruct (ke_overview_focused env && kv_pressed ev) eqn:E5.
  - destruct (kv_raw ev ≫= _); cbn [fst snd forwards]; [|eapply key_step_before; [exact H|apply keeps_keys_emit]].
    apply andb_true_iff in E5 as [_ Ep]. destruct H as [H1 H2]. rewrite Ep in H2.
    split; [eapply extends_trans; [exact H1|by apply extends_same]|]. rewrite Ep. intros Hn. cbn. by rewrite (H2 Hn).
  - eapply key_step_before; [exact H|apply keeps_keys_emit].
Qed.

Lemma on_keyboard_step ks env ev kb kb' res :
  env.(ke_block) = BlockPass → on_keyboard ks env ev kb = Some (kb', res) →
  ∃ r, res = Some r ∧ key_step ev kb kb' (forwards r).
Proof.
  intros Hb. unfold on_keyboard. rewrite decide_False by (by rewrite Hb).
  set (kb0 := if kv_pressed ev then kb else stop_key_repeat kb).
  assert (H0 : keeps_keys kb kb0).
  { unfold kb0. destruct (kv_pressed ev); [by apply keeps_keys_same|apply stop_key_repeat_keeps]. }
  clearbody kb0. pose proof (filter_key_step ks env ev kb0 Hb) as H1. destruct (filter_key ks env ev kb0) as [kb1 r].
  cbn [fst snd] in H1. pose proof (key_step_after _ _ _ _ _ H0 H1) as H.
  destruct r as [|[bind|]]; [intros [= <- <-]; by exists Forward| |intros [= <- <-]; by exists (Intercept None)].
  destruct (kv_pressed ev) eqn:Ep; [|intros [= <- <-]; by exists (Intercept (Some bind))].
  destruct (start_key_repeat _ _ _) as [kb2|] eqn:E; [|done]. cbn [mbind option_bind]. intros [= <- <-].
  exists (Intercept (Some bind)). split; [done|]. eapply key_step_before; [exact H|].
  eapply keeps_keys_trans; [apply handle_bind_keeps|by eapply start_key_repeat_keeps].
Qed.

(** ** What clients see *)

(** A key is pressed only when it is up and released only when it is down; the keys that are down. *)
Definition press_release (down : gset N) (e : N * bool) : option (gset N) :=
  if e.2 then (if decide (e.1 ∈ down) then None else Some ({[e.1]} ∪ down))
  else if decide (e.1 ∈ down) then Some (down ∖ {[e.1]}) else None.

Fixpoint keys_held (down : gset N) (l : list (N * bool)) : option (gset N) :=
  match l with
  | [] => Some down
  | e :: l => down ← press_release down e; keys_held down l
  end.

Lemma keys_held_app down l k : keys_held down (l ++ k) = down ← keys_held down l; keys_held down k.
Proof.
  revert down. induction l as [|e l IH]; intros down; cbn; [done|]. destruct (press_release down e); cbn; auto.
Qed.

Definition unblocked (i : KbInput) : Prop := (input_env i).(ke_block) = BlockPass.

(** One input keeps the client's keys in step with the keyboard. *)
Lemma run_input_held ks i kb kb' client down down' :
  unblocked i → run_input ks i kb = Some (kb', client) → no_reset kb' →
  keys_held down (physical i) = Some down' → kb.(kb_suppressed_keys) ⊆ down →
  kb'.(kb_suppressed_keys) ⊆ down' ∧
  keys_held (down ∖ kb.(kb_suppressed_keys)) client = Some (down' ∖ kb'.(kb_suppressed_keys)).
Proof.
  intros Hb Hrun Hn Hd Hsub. destruct (decide (physical i = [])) as [Hp|Hp].
  { destruct (other_input_keeps _ _ _ _ _ Hp Hrun) as [[_ H] ->]. rewrite Hp in Hd. injection Hd as <-.
    rewrite (H Hn). by cbn. }
  destruct i as [env ev| | |]; try done. cbn [run_input physical] in *.
  destruct (on_keyboard ks env ev kb) as [[kb1 res]|] eqn:E; [|done]. cbn [mbind option_bind] in Hrun.
  destruct (on_keyboard_step _ _ _ _ _ _ Hb E) as (r & -> & _ & H). injection Hrun as -> <-. specialize (H Hn).
  cbn [keys_held mbind option_bind] in Hd. unfold press_release in Hd. cbn [fst snd] in Hd.
  set (k := kv_key_code ev) in *.
  assert (Hc : match r with Forward => [(k, kv_pressed ev)] | Intercept _ => [] end =
            if forwards r then [(k, kv_pressed ev)] else []) by by destruct r.
  change (match Some r with Some Forward => [(k, kv_pressed ev)] | _ => [] end) with
    (match r with Forward => [(k, kv_pressed ev)] | Intercept _ => [] end). rewrite Hc. clear Hc.
  destruct (kv_pressed ev); case_decide as Hin; try done; injection Hd as <-.
  - rewrite H. destruct (forwards r); cbn [keys_held mbind option_bind press_release fst snd].
    + split; [set_solver|]. unfold press_release. cbn [fst snd]. rewrite decide_False by set_solver. cbn. f_equal. set_solver.
    + split; [set_solver|]. f_equal. set_solver.
  - destruct H as [Hf ->]. split; [set_solver|]. destruct (forwards r); cbn [keys_held mbind option_bind].
    + unfold press_release. cbn [fst snd]. rewrite decide_True by set_solver. cbn. f_equal. set_solver.
    + f_equal. assert (k ∈ kb.(kb_suppressed_keys)) by (apply dec_stable; intros Hk; by apply Hf in Hk). set_solver.
Qed.

Lemma run_input_extends ks i kb kb' client : run_input ks i kb = Some (kb', client) → unblocked i → extends kb kb'.
Proof.
  intros E Hb. destruct (decide (physical i = [])) as [Hp|Hp].
  { destruct (other_input_keeps _ _ _ _ _ Hp E) as [[H _] _]. exact H. }
  destruct i as [env ev| | |]; try done. cbn in E. destruct (on_keyboard ks env ev kb) as [[kb1 res]|] eqn:E'; [|done].
  injection E as -> _. destruct (on_keyboard_step _ _ _ _ _ _ Hb E') as (r & _ & H & _). exact H.
Qed.

Lemma run_inputs_held ks ins kb kb' client down down' :
  Forall unblocked ins → run_inputs ks ins kb = Some (kb', client) → no_reset kb' →
  keys_held down (ins ≫= physical) = Some down' → kb.(kb_suppressed_keys) ⊆ down →
  keys_held (down ∖ kb.(kb_suppressed_keys)) client = Some (down' ∖ kb'.(kb_suppressed_keys)) ∧ extends kb kb'.
Proof.
  revert kb client down. induction ins as [|i ins IH]; intros kb client down Hb Hrun Hn Hd Hsub.
  { injection Hrun as <- <-. cbn in Hd. injection Hd as <-. split; [done|by apply extends_same]. }
  apply Forall_cons in Hb as [Hbi Hb]. cbn [run_inputs] in Hrun.
  destruct (run_input ks i kb) as [[kb1 c1]|] eqn:E1; [|done]. cbn [mbind option_bind] in Hrun.
  destruct (run_inputs ks ins kb1) as [[kb2 c2]|] eqn:E2; [|done]. cbn [mbind option_bind] in Hrun.
  injection Hrun as -> <-. rewrite bind_cons, keys_held_app in Hd.
  destruct (keys_held down (physical i)) as [down1|] eqn:Ed; [|done]. cbn [mbind option_bind] in Hd.
  assert (Hext : extends kb1 kb').
  { clear -Hb E2. revert kb1 c2 E2. induction Hb as [|i ins Hi _ IH]; intros kb1 c2 E2.
    { injection E2 as <- _. by apply extends_same. }
    cbn [run_inputs] in E2. destruct (run_input ks i kb1) as [[kb3 c3]|] eqn:E3; [|done]. cbn [mbind option_bind] in E2.
    destruct (run_inputs ks ins kb3) as [[kb4 c4]|] eqn:E4; [|done]. injection E2 as -> _.
    eapply extends_trans; [by eapply run_input_extends|by eapply IH]. }
  destruct (run_input_held _ _ _ _ _ _ _ Hbi E1 (no_reset_back _ _ Hext Hn) Ed Hsub) as [K1 K2].
  destruct (IH kb1 c2 down1 Hb E2 Hn Hd K1) as [K3 _]. split.
  - by rewrite keys_held_app, K2.
  - eapply extends_trans; [by eapply run_input_extends|exact Hext].
Qed.

(** C14: clients see every key go down before it goes up. Whatever the configuration, the binds
    that run, the timers that fire and the dialogs that are open: if the keys of the keyboard are
    pressed and released in turn, so are those that reach the clients, and a key is held for the
    clients exactly when it is held and not suppressed. (No assistive technology grabs keys, and no
    action switches the console or suspends, when releases may be lost.) *)
Theorem clients_see_balanced_keys ks ins kb client down :
  Forall unblocked ins → run_inputs ks ins keyboard_new = Some (kb, client) → no_reset kb →
  keys_held ∅ (ins ≫= physical) = Some down →
  keys_held ∅ client = Some (down ∖ kb.(kb_suppressed_keys)).
Proof.
  intros Hb Hrun Hn Hd. assert (Hs : keyboard_new.(kb_suppressed_keys) ⊆ ∅) by done.
  destruct (run_inputs_held ks ins keyboard_new kb client ∅ down Hb Hrun Hn Hd Hs) as [H _].
  by rewrite <- H.
Qed.

(** *** A sample run: the bind for Mod+Q is pressed, then Mod is released before Q *)
Definition sample_keysyms : Keysyms :=
  MkKeysyms 269024769 269024780 269025066 65307 65293 65288 32 65361 65363 65362 65364 [65505; 65515]%N (λ _, "unnamed"%string).

Definition sample_bind (locked_too : bool) : Bind :=
  MkBind (MkKey (TrKeysym 113) COMPOSITOR) (ActSpawn ["terminal"%string]) true (Some 500000000%N) locked_too true None.

Definition sample_kenv (locked : bool) : KeyEnv :=
  MkKeyEnv ModSuper [sample_bind false] false [] [] false 25 600 locked false false None false false false false
    (λ _ _, None) false BlockPass.

Definition no_mods : ModifiersState := MkModifiersState false false false false false false.
Definition super_held : ModifiersState := MkModifiersState false false false true false false.

Definition sample_inputs (locked : bool) : list KbInput :=
  let env := sample_kenv locked in
  [InKey env (MkKeyEvent 133 true 65515 (Some 65515%N) super_held);
   InKey env (MkKeyEvent 24 true 113 (Some 113%N) super_held);
   InKey env (MkKeyEvent 133 false 65515 (Some 65515%N) no_mods);
   InKey env (MkKeyEvent 24 false 113 (Some 113%N) no_mods)].

Lemma clients_see_balanced_keys_witness :
  ∃ kb client, run_inputs sample_keysyms (sample_inputs false) keyboard_new = Some (kb, client) ∧
    client = [(133%N, true); (133%N, false)] ∧ DoAction (ActSpawn ["terminal"%string]) ∈ kb.(kb_log) ∧
    keys_held ∅ client = Some (∅ ∖ kb.(kb_suppressed_keys)).
Proof.
  destruct (run_inputs sample_keysyms (sample_inputs false) keyboard_new) as [[kb client]|] eqn:E;
    [|vm_compute in E; discriminate E].
  exists kb, client. split; [done|].
  assert (Hkb : kb_log kb = [MruCommit; DoAction (ActSpawn ["terminal"%string]); MruCommit] ∧
                client = [(133%N, true); (133%N, false)]).
  { vm_compute in E. injection E as <- <-. by split. }
  destruct Hkb as [Hlog Hc]. split; [done|]. split; [rewrite Hlog; right; left|].
  apply (clients_see_balanced_keys sample_keysyms (sample_inputs false) kb client ∅); [|exact E| |].
  - repeat constructor.
  - unfold no_reset. rewrite Hlog. repeat constructor.
  - vm_compute. reflexivity.
Defined.

(** ** A locked session *)

(** Every action that an operation adds to the log satisfies [P]. *)
Definition adds (P : Action → Prop) (kb kb' : Keyboard) : Prop :=
  ∃ new, logs kb kb' new ∧ ∀ a, DoAction a ∈ new → P a.

Lemma adds_same P kb kb' : kb'.(kb_log) = kb.(kb_log) → adds P kb kb'.
Proof. intros E. exists []. unfold logs. rewrite app_nil_r. split; [done|]. by intros a ?%elem_of_nil. Qed.

Lemma adds_trans P kb1 kb2 kb3 : adds P kb1 kb2 → adds P kb2 kb3 → adds P kb1 kb3.
Proof.
  intros (l1 & E1 & H1) (l2 & E2 & H2). exists (l1 ++ l2). unfold logs in *. rewrite E2, E1, app_assoc.
  split; [done|]. intros a [Ha|Ha]%elem_of_app; auto.
Qed.

Lemma adds_weaken (P Q : Action → Prop) kb kb' : (∀ a, P a → Q a) → adds P kb kb' → adds Q kb kb'.
Proof. intros HPQ (l & E & H). exists l. auto. Qed.

Lemma adds_emit P e kb : (∀ a, e = DoAction a → P a) → adds P kb (emit e kb).
Proof. intros H. exists [e]. split; [done|]. intros a Ha%list_elem_of_singleton. by apply H. Qed.

(** What may run while the session is locked. *)
Definition allowed (action : Action) (allow_when_locked : bool) : Prop :=
  allowed_when_locked action = true ∨ allow_when_locked = true.

Lemma do_action_adds env action allow kb :
  env.(ke_locked) = true → adds (λ a, a = action ∧ allowed action allow) kb (do_action env action allow kb).
Proof.
  intros Hl. unfold do_action. rewrite Hl. cbn [andb].
  destruct (negb (allow || allowed_when_locked action)) eqn:E; [by apply adds_same|].
  apply negb_false_iff, orb_true_iff in E.
  apply (adds_trans _ _ (emit (DoAction action) kb)).
  - apply adds_emit. intros a [= <-]. unfold allowed. tauto.
  - destruct action; by apply adds_same.
Qed.

Lemma handle_bind_adds env bind kb :
  env.(ke_locked) = true →
  adds (λ a, a = bind.(bi_action) ∧ allowed a bind.(bi_allow_when_locked)) kb (handle_bind env bind kb).
Proof.
  intros Hl. assert (H : ∀ kb, adds (λ a, a = bind.(bi_action) ∧ allowed a bind.(bi_allow_when_locked)) kb
    (do_action env bind.(bi_action) bind.(bi_allow_when_locked) kb)).
  { intros kb0. eapply adds_weaken; [|by apply do_action_adds]. by intros a [-> ?]. }
  unfold handle_bind. destruct (bi_cooldown bind); [|apply H]. destruct (ke_locked env && _); [by apply adds_same|].
  destruct (kb_bind_cooldown_timers kb !! _); [by apply adds_same|]. cbn [insert_key_timer].
  eapply adds_trans; [|apply H]. by apply adds_same.
Qed.

(** The binds that a key or button can trigger. *)
Definition env_binds (env : KeyEnv) : list Bind :=
  env.(ke_binds) ++ env.(ke_recent_windows_binds) ++ env.(ke_opened_binds).

(** The action is allowed in a locked session, or it comes from a bind or switch for which the
    configuration says so. *)
Definition permitted (i : KbInput) (kb : Keyboard) (a : Action) : Prop :=
  allowed_when_locked a = true ∨
  (∃ b, b ∈ env_binds (input_env i) ∧ b.(bi_action) = a ∧ b.(bi_allow_when_locked) = true) ∨
  (∃ env token b, i = InTimer env token ∧ kb.(kb_timers) !! token = Some (TimerRepeat b) ∧
     b.(bi_action) = a ∧ b.(bi_allow_when_locked) = true) ∨
  (∃ env bindings lid on, i = InSwitch env bindings lid on ∧
     find_configured_switch_action bindings lid on = Some a).

Lemma find_configured_bind_elem bindings mod_key trigger mods b :
  find_configured_bind bindings mod_key trigger mods = Some b → b ∈ bindings.
Proof.
  unfold find_configured_bind. generalize (if has_modifiers (modifiers_from_state mods) (to_modifiers mod_key)
    then N.lor (modifiers_from_state mods) COMPOSITOR else modifiers_from_state mods) as m. intros m.
  induction bindings as [|b' bindings IH]; cbn; [done|]. case_decide; [intros H'; right; auto|].
  destruct (N.eqb _ _); [intros [= ->]; left|intros H'; right; auto].
Qed.

Lemma make_binds_elem env mods b :
  b ∈ make_binds_iter env mods →
  ∃ b', b' ∈ env_binds env ∧ b'.(bi_action) = b.(bi_action) ∧ b'.(bi_allow_when_locked) = b.(bi_allow_when_locked).
Proof.
  unfold make_binds_iter, env_binds. rewrite !elem_of_app. intros [H|[H|H]].
  - destruct (ke_mru_open env); [by apply elem_of_nil in H|]. exists b. rewrite !elem_of_app. auto.
  - destruct (_ || _); [|by apply elem_of_nil in H]. exists b. rewrite !elem_of_app. auto.
  - destruct (ke_mru_open env); [|by apply elem_of_nil in H].
    apply list_elem_of_fmap in H as (b' & -> & H). exists b'. rewrite !elem_of_app. auto.
Qed.

(** A bind to run: from the configuration, or built in, and then not allowed by itself. *)
Definition runnable (env : KeyEnv) (b : Bind) : Prop :=
  b.(bi_allow_when_locked) = false ∨
  ∃ b', b' ∈ env_binds env ∧ b'.(bi_action) = b.(bi_action) ∧ b'.(bi_allow_when_locked) = b.(bi_allow_when_locked).

Lemma find_bind_runnable ks env mods modified raw ms disable b :
  find_bind ks (make_binds_iter env mods) env.(ke_mod_key) modified raw ms disable = Some b → runnable env b.
Proof.
  unfold find_bind. destruct (hardcoded_action _ _ _); [intros [= <-]; by left|].
  destruct raw; [|done]. cbn [mbind option_bind]. intros H%find_configured_bind_elem. right. by eapply make_binds_elem.
Qed.

Lemma should_intercept_runnable ks env mods ev kb kb' b :
  should_intercept_key ks env (make_binds_iter env mods) ev kb = (kb', Intercept (Some b)) → runnable env b.
Proof.
  unfold should_intercept_key. destruct (negb (kv_pressed ev) && _); [done|].
  destruct (find_bind _ _ _ _ _ _ _) as [b0|] eqn:E; destruct (ke_screenshot_open env).
  - apply find_bind_runnable in E. destruct (allowed_during_screenshot _); [|destruct (kv_raw ev);
      [destruct (ke_screenshot_action env _ _); cbn|]]; destruct (kv_pressed ev); try done;
      (destruct (_ && _); [done|]); intros [= _ <-]; first [done|by left].
  - apply find_bind_runnable in E. destruct (kv_pressed ev); [|done]. destruct (_ && _); [done|]. by intros [= _ <-].
  - destruct (kv_raw ev); [|by destruct (kv_pressed ev)]. destruct (ke_screenshot_action env _ _); cbn;
      destruct (kv_pressed ev); try done. destruct (_ && _); [done|]. intros [= _ <-]. by left.
  - by destruct (kv_pressed ev).
Qed.

Lemma should_intercept_log ks env bindings ev kb :
  (fst (should_intercept_key ks env bindings ev kb)).(kb_log) = kb.(kb_log).
Proof.
  unfold should_intercept_key. destruct (negb (kv_pressed ev) && _); [done|].
  match goal with |- context [match ?b with Some _ => _ | None => _ end] => destruct b end;
    destruct (kv_pressed ev); try done. by destruct (_ && _).
Qed.

Lemma overview_runnable ks env raw mods b : hardcoded_overview_bind ks raw mods = Some b → runnable env b.
Proof.
  unfold hardcoded_overview_bind, builtin_bind. intros H. left. destruct (negb _); [done|].
  repeat (destruct (N.eqb _ _); cbn in H; [by injection H as <-|]). done.
Qed.

Lemma palette_key_adds ks env raw kb :
  env.(ke_locked) = true → adds (λ a, allowed_when_locked a = true) kb (palette_key ks env raw kb).
Proof.
  intros Hl. unfold palette_key. repeat (destruct (is_sym raw _); try by apply adds_emit).
  - eapply adds_trans; [|by apply adds_emit]. destruct (ke_palette_selected env); [|by apply adds_same].
    eapply adds_weaken; [|by apply do_action_adds]. intros a' [-> [H|H]]; done.
  - destruct (raw ≫= _); [by apply adds_emit|by apply adds_same].
Qed.

Lemma filter_key_adds ks env ev kb kb' res :
  env.(ke_locked) = true → filter_key ks env ev kb = (kb', res) →
  adds (λ a, allowed_when_locked a = true) kb kb' ∧ ∀ b, res = Intercept (Some b) → runnable env b.
Proof.
  intros Hl. unfold filter_key.
  case_decide.
  { intros [= <- <-]. split; [by apply adds_same|]. by destruct (_ && _). }
  destruct (ke_palette_open env && _).
  { intros [= <- <-]. split; [|done]. eapply adds_trans; [by apply palette_key_adds|by apply adds_same]. }
  destruct (ke_exit_dialog_open env && _).
  { intros [= <- <-]. split; [|done]. destruct (is_sym _ _); [|by apply adds_same].
    by apply (adds_trans _ _ (emit StopSignal kb)); [apply adds_emit|apply adds_same]. }
  destruct (ke_mru_open env && _ && _).
  { intros [= <- <-]. split; [|by case_bool_decide]. eapply adds_trans; [|by apply adds_same].
    eapply adds_weaken; [|by apply do_action_adds]. intros a' [-> [Ha|Ha]]; done. }
  destruct (kv_pressed ev && _ && _).
  { intros [= <- <-]. split; [|done]. by apply (adds_trans _ _ (emit UnsetGrab kb)); [apply adds_emit|apply adds_same]. }
  set (kb0 := if is_sym (kv_raw ev) (ks_space ks) then _ else kb).
  assert (H0 : adds (λ a, allowed_when_locked a = true) kb kb0).
  { unfold kb0. destruct (is_sym _ _); [by apply adds_emit|by apply adds_same]. }
  clearbody kb0. pose proof (should_intercept_log ks env (make_binds_iter env (modifiers_from_state (kv_mods ev))) ev kb0) as Hlog.
  destruct (should_intercept_key _ _ _ _ _) as [kb1 r] eqn:E. cbn [fst] in Hlog.
  assert (H1 : adds (λ a, allowed_when_locked a = true) kb kb1) by (eapply adds_trans; [exact H0|by apply adds_same]).
  destruct r as [|bind].
  - destruct (if _ && _ then _ else None) as [b|] eqn:Eb; intros [= <- <-].
    + split; [eapply adds_trans; [exact H1|by apply adds_same]|]. intros b' [= <-].
      destruct (_ && _); [|done]. destruct (kv_raw ev); [|done]. by eapply overview_runnable.
    + split; [|done]. eapply adds_trans; [exact H1|by apply adds_emit].
  - intros [= <- <-]. split; [done|]. intros b [= ->]. by eapply should_intercept_runnable.
Qed.

Lemma start_key_repeat_log env bind kb kb' : start_key_repeat env bind kb = Some kb' → kb'.(kb_log) = kb.(kb_log).
Proof.
  assert (H : (stop_key_repeat kb).(kb_log) = kb.(kb_log)) by (unfold stop_key_repeat; by destruct (kb_bind_repeat_timer kb)).
  unfold start_key_repeat. destruct (negb _); [by intros [= <-]|]. destruct (ke_repeat_rate env =? 0)%N; [by intros [= <-]|].
  destruct (repeat_duration env); [|done]. cbn [mbind option_bind insert_key_timer]. intros [= <-]. exact H.
Qed.

Lemma runnable_permitted i kb b a :
  runnable (input_env i) b → a = b.(bi_action) → allowed a b.(bi_allow_when_locked) → permitted i kb a.
Proof.
  intros Hr -> [H|H]; [by left|]. destruct Hr as [Hr|(b' & Hb & Ha & Hal)]; [congruence|].
  right. left. exists b'. by rewrite Hal.
Qed.

(** C15: a locked session stays locked down. While it is locked, every action that a key, a button,
    a switch or a timer makes the compositor run is one of those that are allowed when locked, or
    comes from a bind or a switch for which the configuration allows it; the action palette, the
    switcher and the binds that are built in cannot run any other. *)
Theorem locked_actions_permitted ks i kb kb' client :
  (input_env i).(ke_locked) = true → run_input ks i kb = Some (kb', client) →
  ∃ new, kb'.(kb_log) = kb.(kb_log) ++ new ∧ ∀ a, DoAction a ∈ new → permitted i kb a.
Proof.
  intros Hl Hrun. change (adds (permitted i kb) kb kb').
  destruct i as [env ev|env token|env button pressed mods|env bindings lid on]; cbn [run_input input_env] in *.
  - destruct (on_keyboard ks env ev kb) as [[kb1 res]|] eqn:E; [|done]. injection Hrun as -> _. unfold on_keyboard in E.
    set (kb0 := if kv_pressed ev then kb else stop_key_repeat kb) in E.
    assert (H0 : adds (permitted (InKey env ev) kb) kb kb0).
    { unfold kb0, stop_key_repeat. destruct (kv_pressed ev), (kb_bind_repeat_timer kb); by apply adds_same. }
    clearbody kb0. case_decide; [by injection E as <- <-|].
    destruct (filter_key ks env ev kb0) as [kb2 r] eqn:Ef. destruct (filter_key_adds _ _ _ _ _ _ Hl Ef) as [H1 Hrn].
    assert (H2 : adds (permitted (InKey env ev) kb) kb kb2).
    { eapply adds_trans; [exact H0|]. eapply adds_weaken; [|exact H1]. by left. }
    destruct r as [|[b|]]; [by injection E as <- <-| |by injection E as <- <-].
    destruct (kv_pressed ev); [|by injection E as <- <-].
    destruct (start_key_repeat _ _ _) as [kb3|] eqn:Es; [|done]. injection E as <- <-.
    eapply adds_trans; [exact H2|]. eapply adds_trans; [|by apply adds_same; eapply start_key_repeat_log].
    eapply adds_weaken; [|by apply handle_bind_adds]. intros a [Ha Hal]. by eapply (runnable_permitted (InKey env ev) kb b); [apply Hrn|..].
  - injection Hrun as <- _. unfold fire_key_timer. destruct (kb_timers kb !! token) as [[b|key]|] eqn:Et;
      [|by apply adds_same|by apply adds_same].
    eapply adds_weaken; [|by apply handle_bind_adds]. intros a [-> [H|H]]; [by left|]. right. right. left. by exists env, token, b.
  - injection Hrun as <- _. unfold on_tablet_tool_button. destruct (bool_decide _); [by apply adds_same|].
    destruct (if pressed then _ else None) as [b|] eqn:E; [|by apply adds_same]. cbn [fst].
    apply (adds_trans _ _ (set_suppressed_buttons ({[button]} ∪ kb.(kb_suppressed_buttons)) kb)); [by apply adds_same|].
    eapply adds_weaken; [|by apply handle_bind_adds]. intros a [Ha Hal]. eapply (runnable_permitted (InStylus env button pressed mods) kb b); [|done|done].
    right. exists b. split; [|done]. unfold env_binds. apply elem_of_app. left.
    destruct pressed; [|done]. unfold button_bind in E. case_decide; [|done]. destruct (stylus_trigger button); [|done].
    cbn [mbind option_bind] in E. destruct (find_configured_bind _ _ _ _) eqn:Ef; [|done]. cbn [mbind option_bind] in E.
    destruct (_ || _); [|done]. injection E as ->. by eapply find_configured_bind_elem.
  - injection Hrun as <- _. unfold on_switch_toggle. destruct (find_configured_switch_action _ _ _) as [a0|] eqn:E; [|by apply adds_same].
    eapply adds_weaken; [|by apply do_action_adds]. intros a [-> _]. right. right. right. by exists env, bindings, lid, on.
Qed.

(** Mod+Q in a locked session. *)
Definition locked_press : KbInput := InKey (sample_kenv true) (MkKeyEvent 24 true 113 (Some 113%N) super_held).

Lemma locked_actions_permitted_witness :
  ∃ kb' client,
    run_input sample_keysyms locked_press keyboard_new = Some (kb', client) ∧ ¬ DoAction (ActSpawn ["terminal"%string]) ∈ kb'.(kb_log).
Proof.
  destruct (run_input sample_keysyms locked_press keyboard_new)
    as [[kb' client]|] eqn:E; [|vm_compute in E; discriminate E].
  exists kb', client. split; [done|].
  destruct (locked_actions_permitted sample_keysyms locked_press keyboard_new kb' client eq_refl E) as (new & -> & H).
  cbn [kb_log keyboard_new app]. intros Hin%H. destruct Hin as [Hin|[(b & Hb & _ & Hal)|[(? & ? & ? & Hi & _)|(? & ? & ? & ? & Hi & _)]]]; try done.
  cbn in Hb. by apply list_elem_of_singleton in Hb as ->.
Defined.
