(* ===== verification/KeyboardTimers.v ===== *)
(** * Keyboard input: which bind is meant, and who owns the timers *)
From stdpp Require Import gmap strings.
From S2P Require Import Prelude Float64 Duration ConfigBinds Keyboard KeyboardProps.

Local Open Scope N_scope.

(** ** Modifiers *)

(** The modifiers that have to be held for a bind: "Mod" stands for its key. *)
Definition effective (mod_key : ModKey) (modifiers : Modifiers) : Modifiers :=
  if has_modifiers modifiers COMPOSITOR then N.lor (N.ldiff modifiers COMPOSITOR) (to_modifiers mod_key)
  else modifiers.

Definition below (n : N) (P : N → bool) : bool := forallb (λ k, P (N.of_nat k)) (seq 0 (N.to_nat n)).

Lemma below_spec n P : below n P = true → ∀ m, m < n → P m = true.
Proof.
  intros H m Hm. unfold below in H. rewrite List.forallb_forall in H. rewrite <- (N2Nat.id m). apply H.
  apply List.in_seq. lia.
Qed.

(** The modifiers of the keyboard as [find_configured_bind] compares them. *)
Definition held_modifiers (mod_key : ModKey) (modifiers : Modifiers) : Modifiers :=
  if has_modifiers modifiers (to_modifiers mod_key) then N.lor modifiers COMPOSITOR else modifiers.

(** All sets of modifiers, for each "Mod" key. *)
Lemma bind_modifiers_effective mod_key b m :
  b < 128 → m < 64 → N.eqb (bind_modifiers mod_key b) (held_modifiers mod_key m) = N.eqb (effective mod_key b) m.
Proof.
  intros Hb Hm. set (P := λ mk b m, Bool.eqb (N.eqb (bind_modifiers mk b) (held_modifiers mk m)) (N.eqb (effective mk b) m)).
  assert (H : forallb (λ mk, below 128 (λ b, below 64 (P mk b)))
            [ModCtrl; ModShift; ModAlt; ModSuper; ModIsoLevel3Shift; ModIsoLevel5Shift] = true) by (vm_compute; reflexivity).
  rewrite List.forallb_forall in H. specialize (H mod_key ltac:(destruct mod_key; cbn; tauto)). cbv beta in H.
  pose proof (below_spec _ _ (below_spec _ _ H b Hb) m Hm) as E. by apply eqb_prop in E.
Qed.

Lemma modifiers_from_state_small mods : modifiers_from_state mods < 64.
Proof. destruct mods as [[] [] [] [] [] []]; vm_compute; reflexivity. Qed.

Definition binds_ok (bindings : list Bind) : Prop := Forall (λ b, b.(bi_key).(key_modifiers) < 128) bindings.

(** The bind that is asked for. *)
Definition meant (mod_key : ModKey) (trigger : Trigger) (mods : ModifiersState) (b : Bind) : bool :=
  bool_decide (b.(bi_key).(key_trigger) = trigger) &&
  N.eqb (effective mod_key b.(bi_key).(key_modifiers)) (modifiers_from_state mods).

Lemma find_configured_bind_find bindings mod_key trigger mods :
  binds_ok bindings → find_configured_bind bindings mod_key trigger mods = find (meant mod_key trigger mods) bindings.
Proof.
  intros Hok. change (find_configured_bind_in mod_key trigger (held_modifiers mod_key (modifiers_from_state mods)) bindings =
    find (meant mod_key trigger mods) bindings).
  induction Hok as [|b bindings Hb _ IH]; cbn [find_configured_bind_in find]; [done|]. unfold meant at 1.
  rewrite (bind_modifiers_effective _ _ _ Hb (modifiers_from_state_small mods)).
  case_decide as Ht; [rewrite bool_decide_eq_false_2 by done; exact IH|].
  rewrite bool_decide_eq_true_2 by done. cbn [andb]. destruct (N.eqb _ _); [done|exact IH].
Qed.

(** "Mod" is the key it stands for. The bind that is found is the first whose trigger is the
    one that was used and whose modifiers, with the key of the configuration in place of "Mod", are
    exactly those that are held. The modifiers that are collected beforehand for mouse buttons,
    wheels and styluses are those for which some bind is found. *)
Theorem mod_stands_for_its_key bindings mod_key mods :
  binds_ok bindings →
  (∀ trigger, find_configured_bind bindings mod_key trigger mods = find (meant mod_key trigger mods) bindings) ∧
  ∀ triggers, modifiers_from_state mods ∈ mods_with_binds mod_key bindings triggers ↔
    ∃ trigger, trigger ∈ triggers ∧ is_Some (find_configured_bind bindings mod_key trigger mods).
Proof.
  intros Hok. split; [intros trigger; by apply find_configured_bind_find|]. intros triggers. unfold mods_with_binds.
  rewrite elem_of_list_to_set, list_elem_of_omap. split.
  - intros (b & Hin & E). case_decide as Ht; [|done]. exists b.(bi_key).(key_trigger). split; [done|].
    rewrite find_configured_bind_find by done. destruct (find _ bindings) eqn:Ef; [by eexists|]. exfalso.
    apply list_elem_of_In in Hin. pose proof (List.find_none _ _ Ef b Hin) as Hb. unfold meant in Hb.
    rewrite bool_decide_eq_true_2 in Hb by done. injection E as E. apply N.eqb_neq in Hb. done.
  - intros (trigger & Ht & [b Hb]). rewrite find_configured_bind_find in Hb by done.
    apply List.find_some in Hb as [Hin%list_elem_of_In [Et%bool_decide_eq_true E%N.eqb_eq]%andb_true_iff].
    exists b. split; [done|]. rewrite decide_True by (by rewrite Et). f_equal. exact E.
Qed.

Lemma mod_stands_for_its_key_witness :
  binds_ok [sample_bind false] ∧
  is_Some (find_configured_bind [sample_bind false] ModSuper (TrKeysym 113) super_held) ∧
  modifiers_from_state super_held ∈ mods_with_binds ModSuper [sample_bind false] [TrKeysym 113].
Proof.
  assert (H : binds_ok [sample_bind false]) by (repeat constructor). split; [done|].
  destruct (mod_stands_for_its_key [sample_bind false] ModSuper super_held H) as [H1 H2].
  split; [rewrite H1; by eexists|]. apply H2. exists (TrKeysym 113). split; [left|]. rewrite H1. by eexists.
Defined.

(** ** Timers *)
Record key_timers_ok (repeat : option N) (cooldowns : gmap Key N) (timers : gmap N KeyTimer) (next : N) : Prop := {
  kt_fresh t x : timers !! t = Some x → t < next;
  kt_repeat t : repeat = Some t ↔ ∃ b, timers !! t = Some (TimerRepeat b);
  kt_cooldown k t : cooldowns !! k = Some t ↔ timers !! t = Some (TimerCooldown k)
}.

Definition kb_ok (kb : Keyboard) : Prop :=
  key_timers_ok kb.(kb_bind_repeat_timer) kb.(kb_bind_cooldown_timers) kb.(kb_timers) kb.(kb_next_token).

(** The timers and their owners stay as they are. *)
Definition same_timers (kb kb' : Keyboard) : Prop :=
  kb'.(kb_bind_repeat_timer) = kb.(kb_bind_repeat_timer) ∧
  kb'.(kb_bind_cooldown_timers) = kb.(kb_bind_cooldown_timers) ∧
  kb'.(kb_timers) = kb.(kb_timers) ∧ kb'.(kb_next_token) = kb.(kb_next_token).

Lemma same_timers_ok kb kb' : same_timers kb kb' → kb_ok kb → kb_ok kb'.
Proof. intros (E1 & E2 & E3 & E4). unfold kb_ok. by rewrite E1, E2, E3, E4. Qed.

Lemma same_timers_trans kb1 kb2 kb3 : same_timers kb1 kb2 → same_timers kb2 kb3 → same_timers kb1 kb3.
Proof. unfold same_timers. intros (-> & -> & -> & ->) (-> & -> & -> & ->). done. Qed.

Lemma do_action_timers env action allow kb : same_timers kb (do_action env action allow kb).
Proof. unfold do_action. destruct (_ && _); [done|]. by destruct action. Qed.

Section key_timers.
  Context (repeat : option N) (cooldowns : gmap Key N) (timers : gmap N KeyTimer) (next : N).
  Hypothesis Hok : key_timers_ok repeat cooldowns timers next.

Lemma key_timers_fresh : timers !! next = None.
Proof using Hok. destruct (timers !! next) as [x|] eqn:E; [|done]. apply (kt_fresh _ _ _ _ Hok) in E. lia. Qed.

Lemma key_timers_add_cooldown k :
  cooldowns !! k = None → key_timers_ok repeat (<[k := next]> cooldowns) (<[next := TimerCooldown k]> timers) (next + 1).
Proof using Hok.
  intros Hk. pose proof key_timers_fresh as Hf. destruct Hok as [H1 H2 H3]. split.
  - intros t x [[<- _]|[_ Hx%H1]]%lookup_insert_Some; lia.
  - intros t. rewrite H2. split; intros [b Hb].
    + exists b. rewrite lookup_insert_ne; [done|]. congruence.
    + apply lookup_insert_Some in Hb as [[_ ?]|[_ Hb]]; [done|by exists b].
  - intros k' t. rewrite !lookup_insert_Some. split.
    + intros [[<- <-]|[Hne Ht%H3]]; [by left|]. right. split; [congruence|done].
    + intros [[<- [= <-]]|[Hne Ht%H3]]; [by left|]. right. split; [congruence|done].
Qed.

Lemma key_timers_drop_cooldown k t :
  timers !! t = Some (TimerCooldown k) → key_timers_ok repeat (delete k cooldowns) (delete t timers) next.
Proof using Hok.
  intros Ht. destruct Hok as [H1 H2 H3]. split.
  - intros t' x [_ Hx]%lookup_delete_Some. by eapply H1.
  - intros t'. rewrite H2. split; intros [b Hb].
    + exists b. rewrite lookup_delete_ne; [done|]. congruence.
    + apply lookup_delete_Some in Hb as [_ Hb]. by exists b.
  - intros k' t'. rewrite !lookup_delete_Some, H3. split; intros [Hne Hk]; (split; [|done]); [congruence|].
    intros ->. apply Hne. apply H3 in Ht, Hk. congruence.
Qed.

Lemma key_timers_drop_repeat t : repeat = Some t → key_timers_ok None cooldowns (delete t timers) next.
Proof using Hok.
  intros Ht. destruct Hok as [H1 H2 H3]. pose proof (proj1 (H2 t) Ht) as [b0 Hb0]. split.
  - intros t' x [_ Hx]%lookup_delete_Some. by eapply H1.
  - intros t'. split; [done|]. intros [b [Hne Hb]%lookup_delete_Some]. exfalso.
    assert (repeat = Some t') by (apply H2; by exists b). congruence.
  - intros k' t'. rewrite H3, lookup_delete_Some. split; [|naive_solver]. intros Hk. split; [congruence|done].
Qed.

Lemma key_timers_add_repeat b : repeat = None → key_timers_ok (Some next) cooldowns (<[next := TimerRepeat b]> timers) (next + 1).
Proof using Hok.
  intros Hr. pose proof key_timers_fresh as Hf. destruct Hok as [H1 H2 H3]. split.
  - intros t x [[<- _]|[_ Hx%H1]]%lookup_insert_Some; lia.
  - intros t. split.
    + intros [= <-]. exists b. apply lookup_insert_eq.
    + intros [b' [[-> _]|[Hne Hb]]%lookup_insert_Some]; [done|].
      assert (repeat = Some t) by (apply H2; by exists b'). congruence.
  - intros k t. rewrite H3, lookup_insert_Some. split; [|naive_solver]. intros Hk. right. split; [congruence|done].
Qed.
End key_timers.

Lemma stop_key_repeat_ok kb : kb_ok kb → kb_ok (stop_key_repeat kb) ∧ (stop_key_repeat kb).(kb_bind_repeat_timer) = None.
Proof.
  intros H. unfold stop_key_repeat. destruct (kb_bind_repeat_timer kb) as [t|] eqn:E; [|done]. split; [|done].
  by eapply key_timers_drop_repeat.
Qed.

Lemma handle_bind_ok env bind kb : kb_ok kb → kb_ok (handle_bind env bind kb).
Proof.
  intros H. unfold handle_bind. destruct (bi_cooldown bind); [|by eapply same_timers_ok, H; apply do_action_timers].
  destruct (_ && _); [done|]. destruct (kb_bind_cooldown_timers kb !! _) eqn:E; [done|]. cbn [insert_key_timer].
  eapply same_timers_ok; [apply do_action_timers|]. by apply key_timers_add_cooldown.
Qed.

(** The binds of an environment repeat at most 255 times per second. *)
Definition rate_ok (env : KeyEnv) : Prop := env.(ke_repeat_rate) < 256.

Lemma repeat_duration_some env : rate_ok env → env.(ke_repeat_rate) ≠ 0 → is_Some (repeat_duration env).
Proof.
  intros Hr Hne. set (P := λ r, N.eqb r 0 || bool_decide (is_Some (from_secs_f64 (f64_div f64_one (f64_of_Z (Z.of_N r)))))).
  assert (H : below 256 P = true) by (vm_compute; reflexivity).
  pose proof (below_spec _ _ H _ Hr) as E. clear H. unfold P in E. apply orb_true_iff in E as [E|E].
  - by apply N.eqb_eq in E.
  - by apply bool_decide_eq_true in E.
Qed.

Lemma start_key_repeat_runs env bind kb :
  kb_ok kb → rate_ok env → runs (start_key_repeat env bind kb) kb_ok.
Proof.
  intros H Hr. unfold start_key_repeat. destruct (negb _); [by apply runs_ret|].
  destruct (stop_key_repeat_ok kb H) as [H1 H2]. destruct (N.eqb_spec (ke_repeat_rate env) 0); [by apply runs_ret|].
  destruct (repeat_duration_some env) as [d ->]; [done|done|]. cbn [mbind option_bind insert_key_timer].
  apply runs_ret. by eapply key_timers_add_repeat.
Qed.

Lemma fire_key_timer_ok env token kb : kb_ok kb → kb_ok (fire_key_timer env token kb).
Proof.
  intros H. unfold fire_key_timer. destruct (kb_timers kb !! token) as [[bind|key]|] eqn:E; [by apply handle_bind_ok| |done].
  by eapply key_timers_drop_cooldown.
Qed.

Lemma palette_key_timers ks env raw kb : same_timers kb (palette_key ks env raw kb).
Proof.
  unfold palette_key. repeat (destruct (is_sym raw _); [try done|]).
  - destruct (ke_palette_selected env); [|done]. eapply same_timers_trans; [apply do_action_timers|done].
  - by destruct (raw ≫= _).
Qed.

Lemma should_intercept_timers ks env bindings ev kb :
  same_timers kb (fst (should_intercept_key ks env bindings ev kb)).
Proof.
  unfold should_intercept_key. destruct (negb (kv_pressed ev) && _); [done|].
  match goal with |- context [match ?b with Some _ => _ | None => _ end] => destruct b end;
    destruct (kv_pressed ev); try done. by destruct (_ && _).
Qed.

Lemma filter_key_timers ks env ev kb : same_timers kb (fst (filter_key ks env ev kb)).
Proof.
  unfold filter_key. case_decide; [done|].
  destruct (ke_palette_open env && _); [eapply same_timers_trans; [apply palette_key_timers|done]|].
  destruct (ke_exit_dialog_open env && _); [by destruct (is_sym _ _)|].
  destruct (ke_mru_open env && _ && _); [eapply same_timers_trans; [apply do_action_timers|done]|].
  destruct (kv_pressed ev && _ && _); [done|].
  set (kb0 := if is_sym (kv_raw ev) (ks_space ks) then _ else kb).
  assert (H0 : same_timers kb kb0) by (unfold kb0; by destruct (is_sym _ _)). clearbody kb0.
  pose proof (should_intercept_timers ks env (make_binds_iter env (modifiers_from_state (kv_mods ev))) ev kb0) as H1.
  destruct (should_intercept_key _ _ _ _ _) as [kb1 [|b]]; cbn [fst] in *; [|by eapply same_timers_trans].
  destruct (if _ && _ then _ else None); cbn [fst]; by do 2 (eapply same_timers_trans; [eassumption|]).
Qed.

Lemma on_keyboard_runs ks env ev kb :
  kb_ok kb → rate_ok env →
  runs (on_keyboard ks env ev kb) (λ r, kb_ok r.1 ∧ (ev.(kv_pressed) = false → r.1.(kb_bind_repeat_timer) = None)).
Proof.
  intros H Hr. unfold on_keyboard. set (kb0 := if kv_pressed ev then kb else stop_key_repeat kb).
  assert (H0 : kb_ok kb0 ∧ (ev.(kv_pressed) = false → kb0.(kb_bind_repeat_timer) = None)).
  { unfold kb0. destruct (kv_pressed ev); [done|]. destruct (stop_key_repeat_ok kb H). auto. }
  clearbody kb0. case_decide as Hbl; [by apply runs_ret|].
  pose proof (filter_key_timers ks env ev kb0) as Hs. destruct (filter_key ks env ev kb0) as [kb1 r]. cbn [fst] in Hs.
  assert (H1 : kb_ok kb1 ∧ (ev.(kv_pressed) = false → kb1.(kb_bind_repeat_timer) = None)).
  { split; [by eapply same_timers_ok, H0|]. destruct Hs as (-> & _). apply H0. }
  destruct r as [|[b|]]; [by apply runs_ret| |by apply runs_ret]. destruct (kv_pressed ev); [|by apply runs_ret].
  eapply runs_bind; [apply start_key_repeat_runs; [apply handle_bind_ok, H1|done]|]. intros kb2 H2. by apply runs_ret.
Qed.

Lemma run_input_runs ks i kb :
  kb_ok kb → rate_ok (input_env i) →
  runs (run_input ks i kb) (λ r, kb_ok r.1 ∧
    ∀ env ev, i = InKey env ev → ev.(kv_pressed) = false → r.1.(kb_bind_repeat_timer) = None).
Proof.
  intros H Hr. destruct i as [env ev|env token|env button pressed mods|env bindings lid on]; cbn [run_input input_env] in *.
  - eapply runs_bind; [by apply on_keyboard_runs|]. intros [kb1 res] [K1 K2]. apply runs_ret. split; [done|].
    intros env' ev' [= <- <-]. exact K2.
  - apply runs_ret. split; [by apply fire_key_timer_ok|done].
  - apply runs_ret. split; [|done]. unfold on_tablet_tool_button. destruct (bool_decide _); [done|].
    destruct (if pressed then _ else None); [|done]. by apply handle_bind_ok.
  - apply runs_ret. split; [|done]. unfold on_switch_toggle. destruct (find_configured_switch_action _ _ _); [|done].
    eapply same_timers_ok; [apply do_action_timers|done].
Qed.

Lemma run_inputs_runs ks ins kb :
  kb_ok kb → Forall (λ i, rate_ok (input_env i)) ins → runs (run_inputs ks ins kb) (λ r, kb_ok r.1).
Proof.
  intros H Hr. revert kb H. induction Hr as [|i ins Hi _ IH]; intros kb H; cbn [run_inputs]; [by apply runs_ret|].
  eapply runs_bind; [by apply run_input_runs|]. intros [kb1 c1] [K1 _].
  eapply runs_bind; [by apply IH|]. intros [kb2 c2] K2. by apply runs_ret.
Qed.

(** The keyboard forgets no timer. After any inputs, nothing panics; at most one key repeats,
    and the token of its timer is the one that is remembered; a bind is on cooldown exactly while
    the timer that ends the cooldown is registered; and after any release no key repeats. *)
Theorem key_timers_are_owned ks ins i :
  Forall (λ i, rate_ok (input_env i)) (ins ++ [i]) →
  ∃ kb kb' client client', run_inputs ks ins keyboard_new = Some (kb, client) ∧
    run_input ks i kb = Some (kb', client') ∧
    (∀ t, kb'.(kb_bind_repeat_timer) = Some t ↔ ∃ b, kb'.(kb_timers) !! t = Some (TimerRepeat b)) ∧
    (∀ k t, kb'.(kb_bind_cooldown_timers) !! k = Some t ↔ kb'.(kb_timers) !! t = Some (TimerCooldown k)) ∧
    (∀ env ev, i = InKey env ev → ev.(kv_pressed) = false → ∀ t b, kb'.(kb_timers) !! t ≠ Some (TimerRepeat b)).
Proof.
  intros [Hr [Hi _]%Forall_cons]%Forall_app. assert (H0 : kb_ok keyboard_new).
  { split; [done| |done]. intros t. split; [done|]. by intros [b Hb]. }
  destruct (run_inputs_runs ks ins keyboard_new H0 Hr) as ([kb client] & E & Hk).
  destruct (run_input_runs ks i kb Hk Hi) as ([kb' client'] & E' & [_ H2 H3] & H4).
  exists kb, kb', client, client'. split_and!; [done|done|done|done|].
  intros env ev Hev Hp t b Ht. specialize (H4 env ev Hev Hp). cbn in H4.
  assert (kb_bind_repeat_timer kb' = Some t) by (apply H2; by exists b). congruence.
Qed.

Lemma key_timers_are_owned_witness :
  ∃ kb kb' client client', run_inputs sample_keysyms (take 2 (sample_inputs false)) keyboard_new = Some (kb, client) ∧
    run_input sample_keysyms (InKey (sample_kenv false) (MkKeyEvent 133 false 65515 (Some 65515) no_mods)) kb = Some (kb', client') ∧
    kb.(kb_bind_repeat_timer) = Some 1 ∧ ∀ t b, kb'.(kb_timers) !! t ≠ Some (TimerRepeat b).
Proof.
  destruct (key_timers_are_owned sample_keysyms (take 2 (sample_inputs false))
    (InKey (sample_kenv false) (MkKeyEvent 133 false 65515 (Some 65515) no_mods))) as (kb & kb' & client & client' & E & E' & _ & _ & H).
  { repeat constructor. }
  exists kb, kb', client, client'. split; [done|]. split; [done|]. split; [|by eapply H].
  vm_compute in E. injection E as <- _. reflexivity.
Defined.

(** While the action palette is open no press reaches a client, not even that of the lock screen
    when the session has been locked meanwhile. *)
Theorem palette_swallows_presses ks env ev kb :
  env.(ke_block) = BlockPass → env.(ke_palette_open) = true → ev.(kv_pressed) = true →
  ∃ kb', on_keyboard ks env ev kb = Some (kb', Some (Intercept None)).
Proof.
  intros Hb Hp He. unfold on_keyboard, filter_key. rewrite Hb, Hp, He. eexists. reflexivity.
Qed.

Lemma palette_swallows_presses_witness :
  let env := MkKeyEnv ModSuper [] false [] [] false 25 600 true false true None false false false false
               (λ _ _, None) false BlockPass in
  ∃ kb', on_keyboard sample_keysyms env (MkKeyEvent 38 true 97 (Some 97) no_mods) keyboard_new =
    Some (kb', Some (Intercept None)).
Proof. cbv zeta. by apply palette_swallows_presses. Defined.
