(* ===== verification/WindowMru.v ===== *)
(** * The switcher of recent windows (src/ui/mru.rs; focus times in src/niri.rs)

    [WindowMru] lists the windows of the layout, the most recently focused first, and keeps one of
    those that match the scope and the filter selected; [WindowMruUi] opens and closes it.  Focus
    times come from keyboard focus: a window that had focus before gets a new time only when it keeps
    the focus for a while or is typed into, until then the time is pending with a timer.

    The world joins the switcher with the layout that the windows are in.  Thumbnails are without
    their sizes, animations and textures; the thumbnail under the pointer and whether the closing
    animation is over are arguments.  [None] is a panic.  Times are in nanoseconds. *)
From stdpp Require Import gmap strings.
From S2P Require Import Prelude Float64 BTree LayoutOutput LayoutScrolling LayoutWorkspace LayoutWorkspaceOps LayoutMonitor LayoutMonitorOps LayoutSet LayoutSetOps LayoutSetProps LayoutMove LayoutMoveProps ConfigBinds.

#[export] Instance MruScope_eq_dec : EqDecision MruScope.
Proof. solve_decision. Defined.

(** ** Thumbnails *)
Record Thumbnail := MkThumbnail {
  th_id : N;
  th_timestamp : option N;
  th_on_current_workspace : bool;
  th_on_current_output : bool;
  th_app_id : option string
}.

(** What the switcher reads of a [Mapped]. *)
Record WindowInfo := MkWindowInfo { wi_app_id : option string; wi_timestamp : option N }.

Definition thumbnail_matches (scope : MruScope) (app_id_filter : option string) (t : Thumbnail) : bool :=
  match scope with
  | MruScopeAll => true
  | MruScopeOutput => t.(th_on_current_output)
  | MruScopeWorkspace => t.(th_on_current_workspace)
  end &&
  match app_id_filter with
  | Some app_id => bool_decide (t.(th_app_id) = Some app_id)
  | None => true
  end.

(** ** The list *)
Record WindowMru := MkWindowMru {
  wm_thumbnails : list Thumbnail;
  wm_current_id : option N;
  wm_scope : MruScope;
  wm_app_id_filter : option string
}.
Definition set_wm_thumbnails l wm : WindowMru := MkWindowMru l wm.(wm_current_id) wm.(wm_scope) wm.(wm_app_id_filter).
Definition set_wm_current id wm : WindowMru := MkWindowMru wm.(wm_thumbnails) id wm.(wm_scope) wm.(wm_app_id_filter).
Definition set_wm_scope s wm : WindowMru := MkWindowMru wm.(wm_thumbnails) wm.(wm_current_id) s wm.(wm_app_id_filter).
Definition set_wm_filter f wm : WindowMru := MkWindowMru wm.(wm_thumbnails) wm.(wm_current_id) wm.(wm_scope) f.

(** [t2.cmp(t1)]: the latest first, those without a time last. *)
Definition more_recent (a b : Thumbnail) : bool :=
  match a.(th_timestamp), b.(th_timestamp) with
  | _, None => true
  | None, Some _ => false
  | Some a, Some b => N.leb b a
  end.

Definition from_mapped (info : N → WindowInfo) (on_output on_workspace : bool) (id : N) : Thumbnail :=
  MkThumbnail id (info id).(wi_timestamp) on_workspace on_output (info id).(wi_app_id).

Definition mon_thumbnails (info : N → WindowInfo) (output : OutputName) (mon : Monitor) : list Thumbnail :=
  let on_output := bool_decide (mon.(mo_output) = output) in
  concat (imap (λ ws_idx ws,
    from_mapped info on_output (on_output && (mon.(mo_active) =? ws_idx)) <$> ws_windows ws) mon.(mo_workspaces)).

(** [WindowMru::new]. *)
Definition WindowMru_new (info : N → WindowInfo) (ly : Layout) : option WindowMru :=
  active ← active_monitor ly;
  match active with
  | None => Some (MkWindowMru [] None MruScopeAll None)
  | Some (_, active) =>
      let thumbnails := stable_sort more_recent (ly_monitors ly ≫= mon_thumbnails info active.(mo_output)) in
      Some (MkWindowMru thumbnails (th_id <$> head thumbnails) MruScopeAll None)
  end.

Definition wm_matches (wm : WindowMru) : Thumbnail → bool := thumbnail_matches wm.(wm_scope) wm.(wm_app_id_filter).

(** [thumbnails] and [thumbnails_with_idx]. *)
Definition wm_visible (wm : WindowMru) : list Thumbnail := List.filter (wm_matches wm) wm.(wm_thumbnails).
Definition wm_visible_idx (wm : WindowMru) : list (nat * Thumbnail) :=
  List.filter (λ p, wm_matches wm (snd p)) (imap pair wm.(wm_thumbnails)).

Definition has_id (id : N) (t : Thumbnail) : bool := N.eqb t.(th_id) id.

Fixpoint skip_to_id (id : N) (l : list Thumbnail) : list Thumbnail :=
  match l with [] => [] | t :: l' => if has_id id t then l else skip_to_id id l' end.

(** The one after the selected one in [l], or the first. *)
Definition step_current (l : list Thumbnail) (wm : WindowMru) : option WindowMru :=
  match wm.(wm_current_id) with
  | None => Some wm
  | Some id =>
      t ← (match skip_to_id id l !! 1 with Some t => Some t | None => head l end);
      Some (set_wm_current (Some t.(th_id)) wm)
  end.

Definition wm_forward (wm : WindowMru) : option WindowMru := step_current (wm_visible wm) wm.
Definition wm_backward (wm : WindowMru) : option WindowMru := step_current (rev (wm_visible wm)) wm.

Definition wm_set_current (id : N) (wm : WindowMru) : WindowMru :=
  if existsb (has_id id) (wm_visible wm) then set_wm_current (Some id) wm else wm.

Definition wm_first_id (wm : WindowMru) : option N := th_id <$> head (wm_visible wm).
Definition wm_first (wm : WindowMru) : WindowMru := set_wm_current (wm_first_id wm) wm.
Definition wm_last (wm : WindowMru) : WindowMru := set_wm_current (th_id <$> last (wm_visible wm)) wm.

(** The same thumbnail, the first one to its left, or else the first one to its right. *)
Fixpoint last_left (current_idx : nat) (id : option N) (l : list (nat * Thumbnail)) : option N :=
  match l with
  | [] => id
  | (idx, t) :: l => if current_idx <? idx then id else last_left current_idx (Some t.(th_id)) l
  end.

Definition reselect (current_idx : nat) (wm : WindowMru) : WindowMru :=
  set_wm_current (last_left current_idx (wm_first_id wm) (wm_visible_idx wm)) wm.

(** Where the selected thumbnail is. *)
Definition find_current (id : N) (wm : WindowMru) : option (nat * Thumbnail) :=
  List.find (λ p, has_id id (snd p)) (wm_visible_idx wm).

Definition wm_set_scope (scope : MruScope) (wm : WindowMru) : option (option MruScope * WindowMru) :=
  if decide (wm.(wm_scope) = scope) then Some (None, wm)
  else
    match wm.(wm_current_id) with
    | Some id =>
        current ← find_current id wm;
        Some (Some wm.(wm_scope), reselect (fst current) (set_wm_scope scope wm))
    | None =>
        let wm' := set_wm_scope scope wm in
        Some (Some wm.(wm_scope), set_wm_current (wm_first_id wm') wm')
    end.

Definition filter_is_app_id (filter : MruFilter) : bool := match filter with MruFilterAppId => true | MruFilterAll => false end.

Definition wm_set_filter (filter : MruFilter) (wm : WindowMru) : option (option (option string) * WindowMru) :=
  if Bool.eqb (bool_decide (is_Some wm.(wm_app_id_filter))) (filter_is_app_id filter) then Some (None, wm)
  else
    match wm.(wm_current_id) with
    | Some id =>
        '(current_idx, t) ← find_current id wm;
        match filter with
        | MruFilterAll =>
            old ← wm.(wm_app_id_filter);
            Some (Some (Some old), reselect current_idx (set_wm_filter None wm))
        | MruFilterAppId =>
            match t.(th_app_id) with
            | None => Some (None, wm)
            | Some app_id =>
                if wm.(wm_app_id_filter) then None
                else Some (Some None, reselect current_idx (set_wm_filter (Some app_id) wm))
            end
        end
    | None =>
        match filter with
        | MruFilterAll =>
            old ← wm.(wm_app_id_filter);
            let wm' := set_wm_filter None wm in
            Some (Some (Some old), set_wm_current (wm_first_id wm') wm')
        | MruFilterAppId => Some (None, wm)
        end
    end.

Definition wm_idx_of (id : N) (wm : WindowMru) : option nat := fst <$> List.find (λ p, has_id id (snd p)) (imap pair wm.(wm_thumbnails)).

Definition remove_by_idx (idx : nat) (wm : WindowMru) : option WindowMru :=
  t ← wm.(wm_thumbnails) !! idx;
  wm ← (if decide (wm.(wm_current_id) = Some t.(th_id)) then wm_forward wm else Some wm);
  let wm := if decide (wm.(wm_current_id) = Some t.(th_id)) then set_wm_current None wm else wm in
  Some (set_wm_thumbnails (delete idx wm.(wm_thumbnails)) wm).

(** ** The opened switcher *)
Record MruInner := MkMruInner {
  in_wmru : WindowMru;
  in_freeze_view : bool;
  in_open_at : N;
  in_output : OutputName
}.
Definition set_in_wmru wm inner : MruInner := MkMruInner wm inner.(in_freeze_view) inner.(in_open_at) inner.(in_output).
Definition set_in_freeze b inner : MruInner := MkMruInner inner.(in_wmru) b inner.(in_open_at) inner.(in_output).

Inductive UiState := UiOpen (inner : MruInner) | UiClosing (inner : MruInner) | UiClosed (previous_scope : MruScope).

Inductive MruCloseRequest := MruRequestCancel | MruRequestConfirm.

(** [animate_scope_filter_change] looks the selected thumbnail up. *)
Definition selected_listed (wm : WindowMru) : bool :=
  match wm.(wm_current_id) with Some id => bool_decide (is_Some (wm_idx_of id wm)) | None => true end.

Definition animate_scope_filter_change (wm : WindowMru) : option WindowMru := if selected_listed wm then Some wm else None.

Definition in_set_scope (scope : MruScope) (inner : MruInner) : option MruInner :=
  '(old, wm) ← wm_set_scope scope inner.(in_wmru);
  wm ← (match old with Some _ => animate_scope_filter_change wm | None => Some wm end);
  Some (set_in_wmru wm inner).

Definition in_set_filter (filter : MruFilter) (inner : MruInner) : option MruInner :=
  '(old, wm) ← wm_set_filter filter inner.(in_wmru);
  wm ← (match old with Some _ => animate_scope_filter_change wm | None => Some wm end);
  Some (set_in_wmru wm inner).

(** Whether something was removed. *)
Definition in_remove_window (id : N) (inner : MruInner) : option (MruInner * bool) :=
  match wm_idx_of id inner.(in_wmru) with
  | None => Some (inner, false)
  | Some idx => wm ← remove_by_idx idx inner.(in_wmru); Some (set_in_wmru wm inner, true)
  end.

Definition is_fully_open (now : N) (inner : MruInner) : bool := N.leb inner.(in_open_at) now.

Definition ui_is_open (ui : UiState) : bool := match ui with UiOpen _ => true | _ => false end.

(** What does nothing unless the switcher is open. *)
Definition when_open (f : MruInner → option MruInner) (ui : UiState) : option UiState :=
  match ui with UiOpen inner => inner ← f inner; Some (UiOpen inner) | _ => Some ui end.

Definition ui_open (now open_delay : N) (wm : WindowMru) (output : OutputName) (ui : UiState) : UiState :=
  if ui_is_open ui then ui else UiOpen (MkMruInner wm false (now + open_delay) output).

Definition ui_close (now : N) (request : MruCloseRequest) (ui : UiState) : UiState * option N :=
  match ui with
  | UiOpen inner =>
      (if is_fully_open now inner then UiClosing inner else UiClosed inner.(in_wmru).(wm_scope),
       match request with MruRequestCancel => None | MruRequestConfirm => inner.(in_wmru).(wm_current_id) end)
  | _ => (ui, None)
  end.

Definition ui_advance (dir : MruDirection) (filter : option MruFilter) : UiState → option UiState :=
  when_open (λ inner,
    let inner := set_in_freeze false inner in
    inner ← (match filter with Some filter => in_set_filter filter inner | None => Some inner end);
    wm ← (match dir with MruForward => wm_forward | MruBackward => wm_backward end) inner.(in_wmru);
    Some (set_in_wmru wm inner)).

Definition ui_set_scope (scope : MruScope) : UiState → option UiState :=
  when_open (λ inner, in_set_scope scope (set_in_freeze false inner)).

(** [SCOPE_CYCLE]: all, workspace, output. *)
Definition next_scope (scope : MruScope) : MruScope :=
  match scope with
  | MruScopeAll => MruScopeWorkspace
  | MruScopeWorkspace => MruScopeOutput
  | MruScopeOutput => MruScopeAll
  end.

Definition ui_cycle_scope (ui : UiState) : option UiState :=
  match ui with UiOpen inner => ui_set_scope (next_scope inner.(in_wmru).(wm_scope)) ui | _ => Some ui end.

(** [under] is the thumbnail under the pointer. *)
Definition ui_pointer_motion (now : N) (under : option N) (ui : UiState) : UiState * option N :=
  match ui with
  | UiOpen inner =>
      if is_fully_open now inner then
        let inner := set_in_freeze true inner in
        (UiOpen (match under with Some id => set_in_wmru (wm_set_current id inner.(in_wmru)) inner | None => inner end), under)
      else (ui, None)
  | _ => (ui, None)
  end.

Definition ui_first : UiState → option UiState :=
  when_open (λ inner, Some (set_in_wmru (wm_first inner.(in_wmru)) (set_in_freeze false inner))).
Definition ui_last : UiState → option UiState :=
  when_open (λ inner, Some (set_in_wmru (wm_last inner.(in_wmru)) (set_in_freeze false inner))).

Definition ui_scope (ui : UiState) : MruScope :=
  match ui with UiOpen inner | UiClosing inner => inner.(in_wmru).(wm_scope) | UiClosed previous_scope => previous_scope end.

Definition current_window_id (ui : UiState) : option N :=
  match ui with UiOpen inner => inner.(in_wmru).(wm_current_id) | _ => None end.

Definition ui_output (ui : UiState) : option OutputName := match ui with UiOpen inner => Some inner.(in_output) | _ => None end.

Definition ui_remove_window (now id : N) (ui : UiState) : option UiState :=
  match ui with
  | UiOpen inner =>
      '(inner, removed) ← in_remove_window id inner;
      Some (if (removed : bool) && (match inner.(in_wmru).(wm_thumbnails) with [] => true | _ => false end)
            then fst (ui_close now MruRequestCancel (UiOpen inner)) else UiOpen inner)
  | _ => Some ui
  end.

(** [advance_animations]: the switcher is gone when its closing animation is over. *)
Definition ui_advance_animations (closing_done : bool) (ui : UiState) : UiState :=
  match ui with
  | UiClosing inner => if closing_done then UiClosed inner.(in_wmru).(wm_scope) else ui
  | _ => ui
  end.
