(* ===== verification/WindowMruProps.v ===== *)
(** * The switcher of recent windows: the list and its selection

    The selected window is always one that is visible; going forward and backward walks through the
    visible ones in a cycle; another scope or filter keeps the selection or takes the next one. *)
From stdpp Require Import gmap strings.
From S2P Require Import Prelude BTree ConfigBinds WindowMru.

(** [WindowMru::verify_invariants], and no window is listed twice. *)
Record wmru_ok (wm : WindowMru) : Prop := {
  wk_nodup : NoDup (th_id <$> wm.(wm_thumbnails));
  wk_current : match wm.(wm_current_id) with
               | Some id => id ∈ th_id <$> wm_visible wm
               | None => wm_visible wm = []
               end
}.

Definition visible_ids (wm : WindowMru) : list N := th_id <$> wm_visible wm.

(** ** Filtering and indices *)
Lemma list_filter_elem {A} (p : A → bool) x l : x ∈ List.filter p l ↔ x ∈ l ∧ p x = true.
Proof. rewrite !list_elem_of_In. apply filter_In. Qed.

Lemma list_filter_NoDup {A B} (f : A → B) (p : A → bool) l : NoDup (f <$> l) → NoDup (f <$> List.filter p l).
Proof.
  induction l as [|x l IH]; cbn; [done|]. intros [H1 H2]%NoDup_cons. destruct (p x); cbn; [|by apply IH].
  apply NoDup_cons. split; [|by apply IH]. intros (y & E & [Hy _]%list_filter_elem)%list_elem_of_fmap. apply H1.
  rewrite E. by apply list_elem_of_fmap_2.
Qed.

Lemma visible_elem wm t : t ∈ wm_visible wm ↔ t ∈ wm.(wm_thumbnails) ∧ wm_matches wm t = true.
Proof. apply list_filter_elem. Qed.

Lemma visible_nodup wm : wmru_ok wm → NoDup (visible_ids wm).
Proof. intros [H _]. by apply list_filter_NoDup. Qed.

Lemma visible_listed wm id : id ∈ visible_ids wm → id ∈ th_id <$> wm.(wm_thumbnails).
Proof.
  intros (t & -> & [Ht _]%visible_elem)%list_elem_of_fmap. by apply list_elem_of_fmap_2.
Qed.

(** The visible thumbnails with their indices, in their order. *)
Lemma filter_imap_snd {A} (p : A → bool) (l : list A) (k : nat) :
  snd <$> List.filter (λ x, p (snd x)) (imap (λ i x, (k + i, x)) l) = List.filter p l.
Proof.
  revert k. induction l as [|x l IH]; intros k; [done|]. cbn.
  rewrite (imap_ext _ (λ i x, (S k + i, x)) l) by (intros; cbn; f_equal; lia).
  destruct (p x); cbn; [f_equal|]; exact (IH (S k)).
Qed.

Lemma visible_idx_snd wm : snd <$> wm_visible_idx wm = wm_visible wm.
Proof. apply (filter_imap_snd (wm_matches wm) _ 0). Qed.

Lemma visible_idx_elem wm i t : (i, t) ∈ wm_visible_idx wm ↔ wm.(wm_thumbnails) !! i = Some t ∧ wm_matches wm t = true.
Proof.
  unfold wm_visible_idx. rewrite list_filter_elem, list_elem_of_lookup. cbn. split.
  - intros [[j Hj] Hm]. rewrite list_lookup_imap in Hj. apply fmap_Some in Hj as (x & Hx & [= -> ->]). done.
  - intros [Hi Hm]. split; [|done]. exists i. by rewrite list_lookup_imap, Hi.
Qed.

Lemma filter_imap_sorted {A} (p : A → bool) (l : list A) (k : nat) :
  StronglySorted lt (fst <$> List.filter (λ x, p (snd x)) (imap (λ i x, (k + i, x)) l)) ∧
  Forall (le k) (fst <$> List.filter (λ x, p (snd x)) (imap (λ i x, (k + i, x)) l)).
Proof.
  revert k. induction l as [|x l IH]; intros k; [by repeat constructor|]. cbn.
  rewrite (imap_ext _ (λ i x, (S k + i, x)) l) by (intros; cbn; f_equal; lia).
  destruct (IH (S k)) as [H1 H2]. destruct (p x); cbn.
  - split; [constructor; [done|]|constructor; [lia|]]; (eapply Forall_impl; [exact H2|]); intros; lia.
  - split; [done|]. eapply Forall_impl; [exact H2|]. intros; lia.
Qed.

Lemma visible_idx_sorted wm : StronglySorted lt (fst <$> wm_visible_idx wm).
Proof. apply (filter_imap_sorted (wm_matches wm) wm.(wm_thumbnails) 0). Qed.

Lemma has_id_spec id t : has_id id t = true ↔ th_id t = id.
Proof. unfold has_id. by rewrite N.eqb_eq. Qed.

Lemma find_id_some {A} (f : A → Thumbnail) id (l : list A) :
  id ∈ th_id ∘ f <$> l → ∃ x, List.find (λ x, has_id id (f x)) l = Some x ∧ x ∈ l ∧ th_id (f x) = id.
Proof.
  intros (x & -> & Hx)%list_elem_of_fmap. destruct (List.find _ l) as [y|] eqn:E.
  - exists y. apply find_some in E as [Hy He%has_id_spec]. split_and!; [done|by apply list_elem_of_In|done].
  - eapply find_none in E; [|by apply list_elem_of_In]. cbn in E. unfold has_id, compose in E. by rewrite N.eqb_refl in E.
Qed.

Lemma find_current_spec wm id :
  id ∈ visible_ids wm →
  ∃ i t, find_current id wm = Some (i, t) ∧ wm.(wm_thumbnails) !! i = Some t ∧ wm_matches wm t = true ∧ th_id t = id.
Proof.
  intros H. destruct (find_id_some (snd : nat * Thumbnail → _) id (wm_visible_idx wm)) as ([i t] & E & Hin & Hid).
  { rewrite list_fmap_compose, visible_idx_snd. exact H. }
  apply visible_idx_elem in Hin as [? ?]. eauto 10.
Qed.

Lemma wm_idx_of_some wm id :
  id ∈ th_id <$> wm.(wm_thumbnails) → ∃ i t, wm_idx_of id wm = Some i ∧ wm.(wm_thumbnails) !! i = Some t ∧ th_id t = id.
Proof.
  intros H. unfold wm_idx_of.
  destruct (find_id_some (snd : nat * Thumbnail → _) id (imap pair wm.(wm_thumbnails))) as ([i t] & E & Hin & Hid).
  { rewrite list_fmap_compose. replace (snd <$> imap pair (wm_thumbnails wm)) with (wm_thumbnails wm); [exact H|].
    apply list_eq. intros i. rewrite list_lookup_fmap, list_lookup_imap. by destruct (wm_thumbnails wm !! i). }
  rewrite E. exists i, t. split_and!; [done| |done]. apply list_elem_of_lookup in Hin as [j Hj].
  rewrite list_lookup_imap in Hj. by apply fmap_Some in Hj as (x & Hx & [= -> ->]).
Qed.

Lemma wm_idx_of_listed wm id i : wm_idx_of id wm = Some i → ∃ t, wm.(wm_thumbnails) !! i = Some t ∧ th_id t = id.
Proof.
  unfold wm_idx_of. intros ([j t] & E & ->)%fmap_Some. apply find_some in E as [Hin Hid%has_id_spec].
  apply list_elem_of_In, list_elem_of_lookup in Hin as [k Hk]. rewrite list_lookup_imap in Hk.
  apply fmap_Some in Hk as (x & Hx & [= -> ->]). by exists x.
Qed.

(** ** Forward and backward *)
Lemma skip_to_id_split l1 t l2 : th_id t ∉ (th_id <$> l1) → skip_to_id (th_id t) (l1 ++ t :: l2) = t :: l2.
Proof.
  induction l1 as [|x l1 IH]; intros H; cbn.
  - unfold has_id. by rewrite N.eqb_refl.
  - destruct (has_id (th_id t) x) eqn:E; [apply has_id_spec in E; set_solver|]. apply IH. set_solver.
Qed.

Lemma step_current_at wm l i t :
  NoDup (th_id <$> l) → l !! i = Some t → wm.(wm_current_id) = Some (th_id t) →
  ∃ t', l !! (S i mod length l) = Some t' ∧ step_current l wm = Some (set_wm_current (Some (th_id t')) wm).
Proof.
  intros Hnd Hi Hc. unfold step_current. rewrite Hc. pose proof (lookup_lt_Some _ _ _ Hi) as Hlt.
  pose proof (take_drop_middle l i t Hi) as El.
  assert (Hs : skip_to_id (th_id t) l = t :: drop (S i) l).
  { rewrite <- El at 1. apply skip_to_id_split. rewrite <- El, fmap_app, fmap_cons in Hnd. apply NoDup_app in Hnd as (_ & Hd & _).
    intros Hin. apply (Hd _ Hin). by left. }
  rewrite Hs. change ((t :: drop (S i) l) !! 1) with (drop (S i) l !! 0). rewrite lookup_drop, Nat.add_0_r.
  destruct (decide (S i < length l)) as [Hlt'|Hge].
  - rewrite Nat.mod_small by done. destruct (lookup_lt_is_Some_2 l (S i) Hlt') as [t' E]. exists t'. by rewrite E.
  - assert (S i = length l) as E by lia. rewrite (lookup_ge_None_2 l (S i)) by lia.
    assert (S i mod length l = 0) as -> by (rewrite E; apply Nat.Div0.mod_same).
    destruct l as [|x l]; [done|]. by exists x.
Qed.

(** The position of the selected thumbnail among the visible ones. *)
Definition current_at (wm : WindowMru) (i : nat) : Prop := ∃ id, wm.(wm_current_id) = Some id ∧ visible_ids wm !! i = Some id.

Definition same_list (wm wm' : WindowMru) : Prop :=
  wm'.(wm_thumbnails) = wm.(wm_thumbnails) ∧ wm'.(wm_scope) = wm.(wm_scope) ∧ wm'.(wm_app_id_filter) = wm.(wm_app_id_filter).

#[export] Instance same_list_preorder : PreOrder same_list.
Proof. split; [done|]. intros x y z (? & ? & ?) (? & ? & ?). unfold same_list. split_and!; congruence. Qed.

Lemma same_list_visible wm wm' : same_list wm wm' → wm_visible wm' = wm_visible wm.
Proof. intros (E1 & E2 & E3). unfold wm_visible, wm_matches. by rewrite E1, E2, E3. Qed.

Lemma same_list_ids wm wm' : same_list wm wm' → visible_ids wm' = visible_ids wm.
Proof. intros H. unfold visible_ids. by rewrite (same_list_visible _ _ H). Qed.

Lemma current_at_in wm i : current_at wm i → wm.(wm_current_id) = visible_ids wm !! i.
Proof. intros (id & -> & ->). done. Qed.

Lemma ok_current_at wm id : wmru_ok wm → wm.(wm_current_id) = Some id → ∃ i, current_at wm i ∧ i < length (visible_ids wm).
Proof.
  intros [_ H] E. rewrite E in H. apply list_elem_of_lookup in H as [i Hi]. exists i.
  split; [by exists id|]. by eapply lookup_lt_Some.
Qed.

Lemma set_current_ok wm id : wmru_ok wm → id ∈ visible_ids wm → wmru_ok (set_wm_current (Some id) wm).
Proof. intros [H _] Hin. by split. Qed.

Lemma step_current_ok l wm :
  wmru_ok wm → l ≡ₚ wm_visible wm →
  runs (step_current l wm) (λ wm', wmru_ok wm' ∧ same_list wm wm').
Proof.
  intros Hok Hl. destruct (wm_current_id wm) as [id|] eqn:Ec.
  - assert (Hin : id ∈ th_id <$> l) by (rewrite Hl; pose proof (wk_current _ Hok) as H; by rewrite Ec in H).
    apply list_elem_of_fmap in Hin as (t & -> & Hin). apply list_elem_of_lookup in Hin as [i Hi].
    destruct (step_current_at wm l i t) as (t' & Ht' & ->); [rewrite Hl; by apply visible_nodup|done|done|].
    apply runs_ret. split; [|done]. apply set_current_ok; [done|]. unfold visible_ids. rewrite <- Hl.
    apply list_elem_of_fmap_2. by eapply list_elem_of_lookup_2.
  - unfold step_current. rewrite Ec. by apply runs_ret.
Qed.

Lemma forward_at wm i :
  wmru_ok wm → current_at wm i →
  ∃ wm', wm_forward wm = Some wm' ∧ same_list wm wm' ∧ wmru_ok wm' ∧ current_at wm' (S i mod length (visible_ids wm)).
Proof.
  intros Hok (id & Hc & Hi). unfold wm_forward. pose proof Hi as Hi'. unfold visible_ids in Hi'.
  rewrite list_lookup_fmap in Hi'. apply fmap_Some in Hi' as (t & Ht & ->).
  destruct (step_current_at wm (wm_visible wm) i t) as (t' & Ht' & E); [by apply visible_nodup|done|done|].
  destruct (step_current_ok (wm_visible wm) wm Hok) as (wm' & E' & Hok' & Hs); [done|]. exists wm'. split_and!; [done..|].
  rewrite E in E'. injection E' as <-. exists (th_id t'). split; [done|]. unfold visible_ids.
  rewrite (same_list_visible _ _ Hs), length_fmap, list_lookup_fmap. by rewrite Ht'.
Qed.

Lemma rev_reverse {A} (l : list A) : rev l = reverse l.
Proof. apply rev_alt. Qed.

Lemma backward_at wm i :
  wmru_ok wm → current_at wm i →
  let n := length (visible_ids wm) in
  ∃ wm', wm_backward wm = Some wm' ∧ same_list wm wm' ∧ wmru_ok wm' ∧ current_at wm' ((i + n - 1) mod n).
Proof.
  intros Hok (id & Hc & Hi) n. unfold wm_backward. pose proof (lookup_lt_Some _ _ _ Hi) as Hlt.
  pose proof Hi as Hi'. unfold visible_ids in Hi', Hlt.
  rewrite list_lookup_fmap in Hi'. apply fmap_Some in Hi' as (t & Ht & ->). rewrite length_fmap in Hlt.
  assert (En : n = length (wm_visible wm)) by (unfold n, visible_ids; by rewrite length_fmap).
  destruct (step_current_at wm (rev (wm_visible wm)) (n - S i) t) as (t' & Ht' & E).
  { rewrite rev_reverse, fmap_reverse, reverse_Permutation. by apply visible_nodup. }
  { rewrite rev_reverse, reverse_lookup by lia. rewrite <- Ht. f_equal. lia. }
  { done. }
  destruct (step_current_ok (rev (wm_visible wm)) wm Hok) as (wm' & E' & Hok' & Hs).
  { symmetry. apply Permutation_rev. }
  exists wm'. split_and!; [done..|]. rewrite E in E'. injection E' as <-. exists (th_id t'). split; [done|]. unfold visible_ids.
  rewrite (same_list_visible _ _ Hs), list_lookup_fmap. rewrite length_rev, <- En in Ht'.
  assert (0 < n) by lia. assert (S (n - S i) mod n < n) by (apply Nat.mod_upper_bound; lia).
  rewrite rev_reverse, reverse_lookup in Ht' by lia. rewrite <- En in Ht'.
  replace ((i + n - 1) mod n) with (n - S (S (n - S i) mod n)); [by rewrite Ht'|].
  destruct i as [|i].
  - replace (S (n - 1)) with n by lia. rewrite Nat.Div0.mod_same. rewrite Nat.mod_small; lia.
  - rewrite (Nat.mod_small (S (n - S (S i)))) by lia. replace (S i + n - 1) with (i + 1 * n) by lia.
    rewrite Nat.Div0.mod_add, Nat.mod_small; lia.
Qed.

(** ** Another scope or filter *)

(** The visible thumbnail at [i] is at [k], or the closest one to the left of it, or, when there is
    none, the closest one to the right. *)
Definition nearest (wm : WindowMru) (k i : nat) (t : Thumbnail) : Prop :=
  (i, t) ∈ wm_visible_idx wm ∧
  ((i ≤ k ∧ ∀ j t', (j, t') ∈ wm_visible_idx wm → j ≤ k → j ≤ i) ∨
   (k < i ∧ ∀ j t', (j, t') ∈ wm_visible_idx wm → i ≤ j)).

Lemma last_left_spec k d l :
  StronglySorted lt (fst <$> l) →
  (last_left k d l = d ∧ ∀ i t, (i, t) ∈ l → k < i) ∨
  ∃ i t, (i, t) ∈ l ∧ i ≤ k ∧ last_left k d l = Some (th_id t) ∧ ∀ j t', (j, t') ∈ l → j ≤ k → j ≤ i.
Proof.
  revert d. induction l as [|[i t] l IH]; intros d Hs; cbn [last_left].
  { left. split; [done|]. by intros i t ?%elem_of_nil. }
  cbn in Hs. apply StronglySorted_inv in Hs as [Hs Hi]. rewrite Forall_fmap, Forall_forall in Hi.
  destruct (Nat.ltb_spec k i) as [Hlt|Hle].
  - left. split; [done|]. intros j t' [[= -> ->]|Hj]%elem_of_cons; [done|]. apply Hi in Hj. cbn in Hj. lia.
  - right. destruct (IH (Some (th_id t)) Hs) as [[E Hr]|(j & t' & Hj & Hk & E & Hmax)].
    + exists i, t. split_and!; [by left|done|done|]. intros j t' [[= -> ->]|Hj]%elem_of_cons Hk; [done|]. apply Hr in Hj. lia.
    + exists j, t'. split_and!; [by right|done|done|]. intros m t'' [[= -> ->]|Hm]%elem_of_cons Hk'.
      * apply Hi in Hj. cbn in Hj. lia.
      * by eapply Hmax.
Qed.

Lemma reselect_nearest wm k :
  match (reselect k wm).(wm_current_id) with
  | Some id => ∃ i t, nearest wm k i t ∧ th_id t = id
  | None => wm_visible wm = []
  end.
Proof.
  unfold reselect. cbn [set_wm_current wm_current_id].
  destruct (last_left_spec k (wm_first_id wm) (wm_visible_idx wm) (visible_idx_sorted wm)) as [[-> Hr]|(i & t & Hi & Hk & -> & Hmax)].
  - unfold wm_first_id. rewrite <- visible_idx_snd. pose proof (visible_idx_sorted wm) as Hs.
    destruct (wm_visible_idx wm) as [|[i t] l] eqn:E; [done|]. cbn. exists i, t. split; [|done]. rewrite <- E in *.
    split; [rewrite E; by left|]. right. split; [apply (Hr i t); rewrite E; by left|].
    intros j t' Hj. rewrite E in Hs, Hj. cbn in Hs. apply StronglySorted_inv in Hs as [_ Hall]. rewrite Forall_fmap, Forall_forall in Hall.
    apply elem_of_cons in Hj as [[= -> ->]|Hj]; [done|]. apply Hall in Hj. cbn in Hj. lia.
  - exists i, t. split; [|done]. split; [done|]. by left.
Qed.

Lemma reselect_same wm k : same_list wm (reselect k wm).
Proof. done. Qed.

Lemma reselect_ok wm k : NoDup (th_id <$> wm.(wm_thumbnails)) → wmru_ok (reselect k wm).
Proof.
  intros Hnd. split; [done|]. pose proof (reselect_nearest wm k) as H. rewrite (same_list_visible _ _ (reselect_same wm k)).
  destruct (wm_current_id (reselect k wm)) as [id|]; [|done]. destruct H as (i & t & [Hi _] & <-).
  apply list_elem_of_fmap_2. rewrite <- visible_idx_snd. apply list_elem_of_fmap. by exists (i, t).
Qed.

Lemma first_ok wm : NoDup (th_id <$> wm.(wm_thumbnails)) → wmru_ok (wm_first wm).
Proof.
  intros Hnd. split; [done|]. unfold wm_first, wm_first_id. cbn [set_wm_current wm_current_id].
  change (wm_visible (set_wm_current _ wm)) with (wm_visible wm). destruct (wm_visible wm); [done|by left].
Qed.

Lemma last_ok wm : NoDup (th_id <$> wm.(wm_thumbnails)) → wmru_ok (wm_last wm).
Proof.
  intros Hnd. split; [done|]. unfold wm_last. cbn [set_wm_current wm_current_id].
  change (wm_visible (set_wm_current _ wm)) with (wm_visible wm). destruct (last (wm_visible wm)) as [t|] eqn:E.
  - cbn. apply list_elem_of_fmap_2. rewrite last_lookup in E. by eapply list_elem_of_lookup_2.
  - by apply last_None in E.
Qed.

Lemma wm_set_current_ok wm id : wmru_ok wm → wmru_ok (wm_set_current id wm) ∧ same_list wm (wm_set_current id wm).
Proof.
  intros Hok. unfold wm_set_current. destruct (existsb _ _) eqn:E; [|done]. split; [|done]. apply set_current_ok; [done|].
  apply existsb_exists in E as (t & Ht & <-%has_id_spec). apply list_elem_of_fmap_2. by apply list_elem_of_In.
Qed.

(** Same windows, same order. *)
Definition same_windows (wm wm' : WindowMru) : Prop := wm'.(wm_thumbnails) = wm.(wm_thumbnails).

(** Where the selected thumbnail is in the whole list, if there is one. *)
Definition selected_index (wm : WindowMru) (k : nat) : Prop :=
  ∃ t, wm.(wm_thumbnails) !! k = Some t ∧ wm.(wm_current_id) = Some (th_id t).

Lemma set_scope_runs scope wm :
  wmru_ok wm →
  runs (wm_set_scope scope wm) (λ r,
    wmru_ok (snd r) ∧ same_windows wm (snd r) ∧ (snd r).(wm_scope) = scope ∧
    (snd r).(wm_app_id_filter) = wm.(wm_app_id_filter) ∧
    (wm.(wm_scope) ≠ scope → match wm.(wm_current_id) with
      | Some _ => ∃ k, selected_index wm k ∧ snd r = reselect k (set_wm_scope scope wm)
      | None => snd r = wm_first (set_wm_scope scope wm)
      end)).
Proof.
  intros Hok. unfold wm_set_scope. destruct (decide _) as [<-|Hne]; [by apply runs_ret|].
  pose proof (wk_current _ Hok) as Hc. destruct (wm_current_id wm) as [id|] eqn:Ec.
  - destruct (find_current_spec wm id Hc) as (i & t & -> & Hi & Hm & Hid). cbn. apply runs_ret. cbn [fst snd].
    split_and!; [apply reselect_ok; apply Hok|done..|]. intros _. exists i. split; [|done]. exists t. by rewrite Hid.
  - apply runs_ret. cbn [fst snd]. split_and!; [apply (first_ok (set_wm_scope scope wm)), Hok|done..].
Qed.

Lemma set_filter_runs filter wm :
  wmru_ok wm →
  runs (wm_set_filter filter wm) (λ r,
    wmru_ok (snd r) ∧ same_windows wm (snd r) ∧ (snd r).(wm_scope) = wm.(wm_scope) ∧
    (snd r = wm ∨
     match wm.(wm_current_id) with
     | Some _ => ∃ k t, wm.(wm_thumbnails) !! k = Some t ∧ wm.(wm_current_id) = Some (th_id t) ∧
         snd r = reselect k (set_wm_filter (if filter_is_app_id filter then t.(th_app_id) else None) wm)
     | None => filter = MruFilterAll ∧ snd r = wm_first (set_wm_filter None wm)
     end)).
Proof.
  intros Hok. unfold wm_set_filter. assert (Hsame : runs (Some (@None (option string), wm)) (λ r,
    wmru_ok (snd r) ∧ same_windows wm (snd r) ∧ (snd r).(wm_scope) = wm.(wm_scope) ∧ snd r = wm)).
  { by apply runs_ret. }
  destruct (Bool.eqb _ _) eqn:Eb; [eapply runs_weaken; [exact Hsame|]; naive_solver|].
  rewrite Bool.eqb_false_iff in Eb. pose proof (wk_current _ Hok) as Hc. destruct (wm_current_id wm) as [id|] eqn:Ec.
  - destruct (find_current_spec wm id Hc) as (i & t & -> & Hi & Hm & Hid). cbn [mbind option_bind]. destruct filter; cbn in Eb |- *.
    + destruct (wm_app_id_filter wm) as [old|]; [|by rewrite bool_decide_false in Eb by by intros []].
      apply runs_ret. cbn [fst snd]. split_and!; [apply reselect_ok; apply Hok|done..|]. right. exists i, t. by rewrite Hid.
    + destruct (th_app_id t) as [app|] eqn:Ea; [|eapply runs_weaken; [exact Hsame|]; naive_solver].
      destruct (wm_app_id_filter wm); [by rewrite bool_decide_true in Eb|].
      apply runs_ret. cbn [fst snd]. split_and!; [apply reselect_ok; apply Hok|done..|]. right. exists i, t. by rewrite Hid, Ea.
  - destruct filter; cbn in Eb |- *; [|eapply runs_weaken; [exact Hsame|]; naive_solver].
    destruct (wm_app_id_filter wm) as [old|]; [|by rewrite bool_decide_false in Eb by by intros []].
    apply runs_ret. cbn [fst snd]. split_and!; [apply (first_ok (set_wm_filter None wm)), Hok|done..|]. by right.
Qed.

(** ** Removing a window *)
Definition without (idx : nat) (wm : WindowMru) : list Thumbnail := delete idx wm.(wm_thumbnails).

Lemma without_elem wm idx t x :
  NoDup (th_id <$> wm.(wm_thumbnails)) → wm.(wm_thumbnails) !! idx = Some t →
  x ∈ without idx wm ↔ x ∈ wm.(wm_thumbnails) ∧ th_id x ≠ th_id t.
Proof.
  intros Hnd Hi. unfold without. rewrite delete_take_drop. pose proof (take_drop_middle _ _ _ Hi) as El.
  assert (x ∈ wm_thumbnails wm ↔ x ∈ take idx (wm_thumbnails wm) ∨ x = t ∨ x ∈ drop (S idx) (wm_thumbnails wm)) as ->.
  { rewrite <- El at 1. by rewrite elem_of_app, elem_of_cons. }
  rewrite <- El, fmap_app, fmap_cons in Hnd. apply NoDup_app in Hnd as (_ & Hd & [Hn _]%NoDup_cons).
  rewrite elem_of_app. split; [|naive_solver]. intros [Hx|Hx]; (split; [auto|]); intros E.
  - apply (Hd (th_id x)); [by apply list_elem_of_fmap_2|]. rewrite E. by left.
  - apply Hn. rewrite <- E. by apply list_elem_of_fmap_2.
Qed.

Lemma visible_delete wm idx t id :
  wmru_ok wm → wm.(wm_thumbnails) !! idx = Some t →
  id ∈ th_id <$> List.filter (wm_matches wm) (without idx wm) ↔ id ∈ visible_ids wm ∧ id ≠ th_id t.
Proof.
  intros [Hnd _] Hi. pose proof (λ x, without_elem wm idx t x Hnd Hi) as Hx. unfold visible_ids. rewrite !list_elem_of_fmap.
  setoid_rewrite list_filter_elem. setoid_rewrite Hx. naive_solver.
Qed.

(** The selected window goes: the next visible one is selected, if there is another one. *)
Definition current_without (wm : WindowMru) (id : N) : option N → Prop :=
  λ current, match wm.(wm_current_id) with
             | Some c =>
                 if decide (c = id) then
                   ∃ i, current_at wm i ∧
                     current = if decide (length (visible_ids wm) = 1) then None
                               else visible_ids wm !! (S i mod length (visible_ids wm))
                 else current = Some c
             | None => current = None
             end.

Lemma forward_from wm id :
  wmru_ok wm → wm.(wm_current_id) = Some id →
  ∃ wm' id' i, wm_forward wm = Some wm' ∧ same_list wm wm' ∧ wm'.(wm_current_id) = Some id' ∧ current_at wm i ∧
    visible_ids wm !! (S i mod length (visible_ids wm)) = Some id' ∧ (id' = id ↔ length (visible_ids wm) = 1).
Proof.
  intros Hok Ec. destruct (ok_current_at wm _ Hok Ec) as (i & Hat & Hlt).
  destruct (forward_at wm i Hok Hat) as (wm1 & E & Hs & Hok1 & (id1 & Hc1 & Hid1)). rewrite (same_list_ids _ _ Hs) in Hid1.
  exists wm1, id1, i. split_and!; try done. pose proof Hat as (id0 & Ec' & Hid). rewrite Ec in Ec'. injection Ec' as <-. split.
  - intros ->. assert (S i mod length (visible_ids wm) = i) as Em
      by (apply (NoDup_lookup (visible_ids wm) _ _ id); [by apply visible_nodup|done|done]).
    destruct (decide (S i < length (visible_ids wm))); [rewrite Nat.mod_small in Em; lia|].
    assert (S i = length (visible_ids wm)) as En by lia. rewrite En in Em. rewrite Nat.Div0.mod_same in Em. lia.
  - intros En. rewrite En in Hid1, Hlt. assert (i = 0) as -> by lia. change (1 mod 1) with 0 in Hid1. congruence.
Qed.

Lemma without_ok wm idx t current :
  wmru_ok wm → wm.(wm_thumbnails) !! idx = Some t → current_without wm (th_id t) current →
  wmru_ok (MkWindowMru (without idx wm) current wm.(wm_scope) wm.(wm_app_id_filter)).
Proof.
  intros Hok Hi Hc. split.
  { eapply sublist_NoDup; [apply Hok|]. by apply fmap_sublist, sublist_delete. }
  cbn [wm_current_id]. change (wm_visible _) with (List.filter (wm_matches wm) (without idx wm)).
  assert (Hnil : (∀ id, id ∈ visible_ids wm → id = th_id t) → List.filter (wm_matches wm) (without idx wm) = []).
  { intros H. apply (fmap_nil_inv th_id), elem_of_nil_inv. intros id [Hin Hne]%(visible_delete wm idx t id Hok Hi). auto. }
  pose proof (wk_current _ Hok) as Hcur. unfold current_without in Hc.
  destruct (wm_current_id wm) as [c|] eqn:Ec; [destruct (decide (c = th_id t)) as [->|Hne]|subst].
  - destruct Hc as (i & Hat & ->). destruct (forward_from wm _ Hok Ec) as (wm' & id' & j & _ & _ & _ & Hat' & Hid & Hone).
    assert (i = j) as <-.
    { destruct Hat as (x & Ex & Hx), Hat' as (y & Ey & Hy). rewrite Ex in Ey. injection Ey as <-.
      apply (NoDup_lookup (visible_ids wm) _ _ x); [by apply visible_nodup|done|done]. }
    destruct (decide _) as [E1|N1].
    + apply Hnil. intros id Hid'. apply list_elem_of_lookup in Hcur as [a Ha]. apply list_elem_of_lookup in Hid' as [b Hb].
      fold (visible_ids wm) in Ha. apply lookup_lt_Some in Hb as Hb'. apply lookup_lt_Some in Ha as Ha'.
      assert (a = b) as -> by lia. congruence.
    + rewrite Hid. apply (visible_delete wm idx t id' Hok Hi). split; [by eapply list_elem_of_lookup_2|]. by intros ?%Hone.
  - subst. by apply (visible_delete wm idx t c Hok Hi).
  - apply Hnil. unfold visible_ids. rewrite Hcur. by intros id ?%elem_of_nil.
Qed.

Lemma remove_by_idx_runs wm idx t :
  wmru_ok wm → wm.(wm_thumbnails) !! idx = Some t →
  runs (remove_by_idx idx wm) (λ wm', wmru_ok wm' ∧ wm'.(wm_thumbnails) = without idx wm ∧
    wm'.(wm_scope) = wm.(wm_scope) ∧ current_without wm (th_id t) wm'.(wm_current_id)).
Proof.
  intros Hok Hi. assert (H : ∃ current, remove_by_idx idx wm =
    Some (MkWindowMru (without idx wm) current wm.(wm_scope) wm.(wm_app_id_filter)) ∧ current_without wm (th_id t) current).
  { unfold remove_by_idx, current_without. rewrite Hi. cbn [mbind option_bind].
    destruct (decide (wm_current_id wm = Some (th_id t))) as [Ec|Hc].
    - destruct (forward_from wm _ Hok Ec) as (wm' & id' & i & -> & (E1 & E2 & E3) & Hc' & Hat & Hid & Hone). rewrite Ec.
      destruct (decide (th_id t = th_id t)) as [_|[]]; [|done]. cbn [mbind option_bind]. rewrite Hc'. destruct wm' as [l c sc fl]; cbn in *; subst.
      destruct (decide (Some id' = Some (th_id t))) as [[= E]|N]; eexists; (split; [reflexivity|]); exists i; (split; [done|]); cbn.
      + by rewrite decide_True by by apply Hone.
      + rewrite decide_False by (intros ?%Hone; congruence). congruence.
    - cbn [mbind option_bind]. rewrite decide_False by done. eexists. split; [reflexivity|]. destruct (wm_current_id wm) as [c|]; [|done].
      rewrite decide_False; [done|congruence]. }
  destruct H as (current & -> & Hc). apply runs_ret. split_and!; [by eapply without_ok|done..].
Qed.

(** ** The first window is selected *)
Definition at_first (wm : WindowMru) : Prop := wm.(wm_current_id) = wm_first_id wm.

Lemma first_of_visible wm i t :
  (i, t) ∈ wm_visible_idx wm → (∀ j t', (j, t') ∈ wm_visible_idx wm → i ≤ j) → wm_first_id wm = Some (th_id t).
Proof.
  intros Hi Hmin. unfold wm_first_id. rewrite <- visible_idx_snd. pose proof (visible_idx_sorted wm) as Hs.
  destruct (wm_visible_idx wm) as [|[j t'] l] eqn:E; [by apply elem_of_nil in Hi|]. cbn.
  assert (i ≤ j) by (apply (Hmin j t'); by left). apply elem_of_cons in Hi as [[= -> ->]|Hi]; [done|].
  cbn in Hs. apply StronglySorted_inv in Hs as [_ Hall]. rewrite Forall_fmap, Forall_forall in Hall. apply Hall in Hi. cbn in Hi. lia.
Qed.

Lemma reselect_at_first wm k : (∀ j t, (j, t) ∈ wm_visible_idx wm → k ≤ j) → at_first (reselect k wm).
Proof.
  intros Hk. pose proof (reselect_nearest wm k) as H. unfold at_first. change (wm_first_id (reselect k wm)) with (wm_first_id wm).
  destruct (wm_current_id (reselect k wm)) as [id|].
  - destruct H as (i & t & [Hi Hn] & <-). symmetry. apply (first_of_visible wm i t Hi). intros j t' Hj.
    destruct Hn as [[Hle _]|[_ Hmin]]; [|by eapply Hmin]. assert (i = k) as -> by (specialize (Hk i t Hi); lia). by eapply Hk.
  - unfold wm_first_id. by rewrite H.
Qed.

Lemma at_first_least wm k :
  wmru_ok wm → at_first wm → selected_index wm k → ∀ j t, (j, t) ∈ wm_visible_idx wm → k ≤ j.
Proof.
  intros Hok Hf (t & Ht & Hc) j t' Hj. unfold at_first, wm_first_id in Hf. rewrite Hc, <- visible_idx_snd in Hf.
  pose proof (visible_idx_sorted wm) as Hs. destruct (wm_visible_idx wm) as [|[i t0] l] eqn:E; [done|]. cbn in Hf. injection Hf as Hid.
  assert (Hi : (i, t0) ∈ wm_visible_idx wm) by (rewrite E; by left). apply visible_idx_elem in Hi as [Hi _].
  assert (k = i) as ->.
  { apply (NoDup_lookup (th_id <$> wm.(wm_thumbnails)) _ _ (th_id t)); [apply Hok| |]; rewrite list_lookup_fmap; [by rewrite Ht|by rewrite Hi, Hid]. }
  cbn in Hs. apply StronglySorted_inv in Hs as [_ Hall]. rewrite Forall_fmap, Forall_forall in Hall.
  apply elem_of_cons in Hj as [[= -> ->]|Hj]; [done|]. apply Hall in Hj. cbn in Hj. lia.
Qed.

Lemma narrowed_visible_idx wm wm' :
  same_windows wm wm' → (∀ t, wm_matches wm' t = true → wm_matches wm t = true) →
  ∀ j t, (j, t) ∈ wm_visible_idx wm' → (j, t) ∈ wm_visible_idx wm.
Proof. intros Hs Hm j t. rewrite !visible_idx_elem, Hs. naive_solver. Qed.

(** Selecting again among fewer windows keeps the first one selected. *)
Lemma narrowed_at_first wm wm' k :
  wmru_ok wm → at_first wm → selected_index wm k → same_windows wm wm' →
  (∀ t, wm_matches wm' t = true → wm_matches wm t = true) → at_first (reselect k wm').
Proof.
  intros Hok Hf Hk Hs Hm. apply reselect_at_first. intros j t Hj. eapply at_first_least; [done..|].
  by eapply narrowed_visible_idx.
Qed.

Lemma set_scope_at_first scope wm :
  wmru_ok wm → at_first wm → wm.(wm_scope) = MruScopeAll →
  runs (wm_set_scope scope wm) (λ r, wmru_ok (snd r) ∧ same_windows wm (snd r) ∧ (snd r).(wm_scope) = scope ∧
    (snd r).(wm_app_id_filter) = wm.(wm_app_id_filter) ∧ at_first (snd r)).
Proof.
  intros Hok Hf Hall. destruct (decide (wm.(wm_scope) = scope)) as [<-|Hne].
  - unfold wm_set_scope. rewrite decide_True by done. by apply runs_ret.
  - eapply runs_weaken; [by apply set_scope_runs|]. intros r (H1 & H2 & H3 & H4 & H5). split_and!; [done..|].
    specialize (H5 Hne). destruct (wm_current_id wm) as [id|].
    + destruct H5 as (k & Hk & ->). apply (narrowed_at_first wm _ k); [done..|]. intros t. unfold wm_matches, thumbnail_matches. cbn. rewrite Hall.
      intros [_ ?]%andb_prop. done.
    + rewrite H5. done.
Qed.

Lemma set_filter_at_first filter wm :
  wmru_ok wm → at_first wm → wm.(wm_app_id_filter) = None →
  runs (wm_set_filter filter wm) (λ r, wmru_ok (snd r) ∧ same_windows wm (snd r) ∧ (snd r).(wm_scope) = wm.(wm_scope) ∧
    (snd r).(wm_app_id_filter) = (if filter_is_app_id filter then t ← head (wm_visible wm); t.(th_app_id) else None) ∧ at_first (snd r)).
Proof.
  intros Hok Hf Hnone. destruct filter.
  { unfold wm_set_filter. rewrite Hnone. by apply runs_ret. }
  pose proof Hf as Hf'. unfold at_first, wm_first_id in Hf'. pose proof (wk_current _ Hok) as Hc.
  unfold wm_set_filter. rewrite Hnone. cbn [Bool.eqb filter_is_app_id bool_decide]. rewrite bool_decide_false by (by intros []). cbn [Bool.eqb].
  destruct (wm_current_id wm) as [id|] eqn:Ec.
  - destruct (find_current_spec wm id Hc) as (i & t & -> & Hi & Hm & Hid). cbn [mbind option_bind].
    destruct (head (wm_visible wm)) as [t0|] eqn:E0; [|done]. cbn in Hf'. injection Hf' as Ht0.
    assert (t0 = t) as ->.
    { assert (H0 : t0 ∈ wm_visible wm) by (destruct (wm_visible wm); [done|]; injection E0 as ->; by left).
      apply visible_elem in H0 as [H0 _]. apply list_elem_of_lookup in H0 as [j Hj].
      assert (i = j) as ->; [|congruence]. apply (NoDup_lookup (th_id <$> wm.(wm_thumbnails)) _ _ id); [apply Hok| |];
        rewrite list_lookup_fmap; [by rewrite Hi, <- Hid|by rewrite Hj, Ht0]. }
    cbn. destruct (th_app_id t) as [app|] eqn:Ea; apply runs_ret; cbn [fst snd]; [|by split_and!].
    split_and!; [apply reselect_ok; apply Hok|done|done|done|].
    assert (Hk : selected_index wm i) by (exists t; by rewrite Ec, Hid).
    apply (narrowed_at_first wm _ i); [done|unfold at_first, wm_first_id; by rewrite E0, Ec, Ht0|done|done|].
    intros t'. unfold wm_matches, thumbnail_matches. cbn. rewrite Hnone, andb_true_r. by intros [? _]%andb_prop.
  - apply runs_ret. cbn. rewrite Hc. cbn. by split_and!.
Qed.
