(* ===== verification/MruWorld.v ===== *)
(** * The switcher together with the layout (src/niri.rs, src/input/mod.rs)

    The world has the layout with the window being moved, what the switcher reads of each window, the
    switcher, and the focus time that is pending with the timers of the event loop.  [MwLayout] runs
    any operation of the layout; windows and outputs come and go as [handlers/xdg_shell.rs] and
    [Niri::remove_output] have it.  Warping the cursor and redrawing are left out. *)
From stdpp Require Import gmap strings.
From S2P Require Import Prelude Float64 LayoutOutput LayoutScrolling LayoutFloating LayoutWorkspace LayoutMonitor LayoutMonitorOps LayoutSet LayoutSetOps LayoutSetProps LayoutMove LayoutMoveGeometry LayoutMoveProps ConfigBinds WindowMru.

(** [recent_windows] of the configuration, in nanoseconds. *)
Record MruConfig := MkMruConfig { mc_on : bool; mc_open_delay : N; mc_debounce : N }.

Record PendingMruCommit := MkPendingCommit { pc_id : N; pc_token : N; pc_stamp : N }.

Record MruWorld := MkMruWorld {
  mw_ml : MovingLayout;
  mw_ids : N;                       (* the next workspace id *)
  mw_info : gmap N WindowInfo;
  mw_ui : UiState;
  mw_pending : option PendingMruCommit;
  mw_timers : gmap N N;             (* by token, their deadlines *)
  mw_token : N;
  mw_now : N
}.
Definition set_mw_layout ml c (w : MruWorld) : MruWorld :=
  MkMruWorld ml c w.(mw_info) w.(mw_ui) w.(mw_pending) w.(mw_timers) w.(mw_token) w.(mw_now).
Definition set_mw_info i (w : MruWorld) : MruWorld :=
  MkMruWorld w.(mw_ml) w.(mw_ids) i w.(mw_ui) w.(mw_pending) w.(mw_timers) w.(mw_token) w.(mw_now).
Definition set_mw_ui u (w : MruWorld) : MruWorld :=
  MkMruWorld w.(mw_ml) w.(mw_ids) w.(mw_info) u w.(mw_pending) w.(mw_timers) w.(mw_token) w.(mw_now).
Definition set_mw_pending p (w : MruWorld) : MruWorld :=
  MkMruWorld w.(mw_ml) w.(mw_ids) w.(mw_info) w.(mw_ui) p w.(mw_timers) w.(mw_token) w.(mw_now).
Definition set_mw_timers t (w : MruWorld) : MruWorld :=
  MkMruWorld w.(mw_ml) w.(mw_ids) w.(mw_info) w.(mw_ui) w.(mw_pending) t w.(mw_token) w.(mw_now).
Definition set_mw_token t (w : MruWorld) : MruWorld :=
  MkMruWorld w.(mw_ml) w.(mw_ids) w.(mw_info) w.(mw_ui) w.(mw_pending) w.(mw_timers) t w.(mw_now).
Definition set_mw_now n (w : MruWorld) : MruWorld :=
  MkMruWorld w.(mw_ml) w.(mw_ids) w.(mw_info) w.(mw_ui) w.(mw_pending) w.(mw_timers) w.(mw_token) n.

Definition window_info (w : MruWorld) (id : N) : WindowInfo := default (MkWindowInfo None None) (w.(mw_info) !! id).

Section world.
  Context (parent_of : N → option N) (g : Placement) (env : ViewEnv).

(** ** Focus times *)
Definition set_focus_timestamp (id stamp : N) (w : MruWorld) : MruWorld :=
  set_mw_info (<[id := MkWindowInfo (window_info w id).(wi_app_id) (Some stamp)]> w.(mw_info)) w.

Definition remove_timer (token : N) (w : MruWorld) : MruWorld := set_mw_timers (delete token w.(mw_timers)) w.

(** The window of a workspace that is to get its new time. *)
Definition mru_apply_keyboard_commit (w : MruWorld) : MruWorld :=
  match w.(mw_pending) with
  | None => w
  | Some pending =>
      let w := remove_timer pending.(pc_token) (set_mw_pending None w) in
      if bool_decide (pending.(pc_id) ∈ ly_windows w.(mw_ml).(ml_layout))
      then set_focus_timestamp pending.(pc_id) pending.(pc_stamp) w else w
  end.

(** The part of [update_keyboard_focus] for a window that has got the focus. *)
Definition window_focused (cfg : MruConfig) (id : N) (w : MruWorld) : MruWorld :=
  if bool_decide (id ∈ ml_windows w.(mw_ml)) then
    let stamp := w.(mw_now) in
    if bool_decide ((window_info w id).(wi_timestamp) = None) || N.eqb cfg.(mc_debounce) 0 then set_focus_timestamp id stamp w
    else
      let token := w.(mw_token) in
      let replaced := w.(mw_pending) in
      let w := set_mw_token (N.succ token) (set_mw_timers (<[token := stamp + cfg.(mc_debounce)]> w.(mw_timers)) w)%N in
      let w := set_mw_pending (Some (MkPendingCommit id token stamp)) w in
      match replaced with Some pending => remove_timer pending.(pc_token) w | None => w end
  else w.

(** The timer is dropped after it ran. *)
Definition commit_timer_fired (token : N) (w : MruWorld) : MruWorld :=
  match w.(mw_timers) !! token with
  | Some _ => remove_timer token (mru_apply_keyboard_commit w)
  | None => w
  end.

(** ** Closing the switcher and changing the focus *)
Definition layout_do (op : MlOp) (w : MruWorld) : option MruWorld :=
  '((ml, _), c) ← run_ml_op parent_of g w.(mw_ml) op w.(mw_ids);
  Some (set_mw_layout ml c w).

Definition mw_focus_window (id : N) : MruWorld → option MruWorld := layout_do (MlLayout env (LopActivateWindow id)).

Definition find_window_by_id (w : MruWorld) (id : N) : option N := if bool_decide (id ∈ ml_windows w.(mw_ml)) then Some id else None.

Definition close_mru (request : MruCloseRequest) (w : MruWorld) : MruWorld * option N :=
  let '(ui, id) := ui_close w.(mw_now) request w.(mw_ui) in
  let w := set_mw_ui ui w in
  (w, id ← id; find_window_by_id w id).

Definition cancel_mru (w : MruWorld) : MruWorld := fst (close_mru MruRequestCancel w).

Definition confirm_mru (w : MruWorld) : option MruWorld :=
  let '(w, window) := close_mru MruRequestConfirm w in
  match window with Some id => mw_focus_window id w | None => Some w end.

(** [Layout::focus]. *)
Definition ml_focus (ml : MovingLayout) : option (option N) :=
  match moving ml with
  | Some data => Some (Some (tl_window data.(md_tile)))
  | None =>
      active ← active_monitor ml.(ml_layout);
      match active with None => Some None | Some (_, m) => mon_active_window m end
  end.

(** ** Actions *)

(** [MruAdvance] while the switcher is not open. *)
Definition mru_open (cfg : MruConfig) (direction : MruDirection) (scope : option MruScope) (filter : option MruFilter)
    (w : MruWorld) : option MruWorld :=
  let w := mru_apply_keyboard_commit w in
  let scope := default (ui_scope w.(mw_ui)) scope in
  let ly := w.(mw_ml).(ml_layout) in
  wmru ← WindowMru_new (window_info w) ly;
  if (match wmru.(wm_thumbnails) with [] => true | _ => false end) then Some w
  else
    '(_, wmru) ← wm_set_scope scope wmru;
    wmru ← (match filter with Some filter => snd <$> wm_set_filter filter wmru | None => Some wmru end);
    active ← active_monitor ly;
    match active with
    | None => Some w
    | Some (_, m) =>
        let ui := ui_open w.(mw_now) cfg.(mc_open_delay) wmru m.(mo_output) w.(mw_ui) in
        focus ← ml_focus w.(mw_ml);
        let keep_first := match direction with MruForward => true | MruBackward => false end && bool_decide (focus = None) in
        ui ← (if keep_first then Some ui else ui_advance direction None ui);
        Some (set_mw_ui ui w)
    end.

Definition with_ui (f : UiState → option UiState) (w : MruWorld) : option MruWorld := ui ← f w.(mw_ui); Some (set_mw_ui ui w).

(** [max_by_key]: the last of the windows with the latest time. *)
Fixpoint latest (w : MruWorld) (best : option N) (l : list N) : option N :=
  match l with
  | [] => best
  | id :: l =>
      let newer b := match (window_info w b).(wi_timestamp), (window_info w id).(wi_timestamp) with
                     | None, _ => true
                     | Some _, None => false
                     | Some t, Some t' => N.leb t t'
                     end in
      latest w (match best with Some b => if newer b then Some id else best | None => Some id end) l
  end.

Definition focus_window_previous (w : MruWorld) : option MruWorld :=
  current ← ml_focus w.(mw_ml);
  match latest w None (filter (λ id, Some id ≠ current) (ml_windows w.(mw_ml))) with
  | Some id => mw_focus_window id (mru_apply_keyboard_commit w)
  | None => Some w
  end.

(** The part of [do_action] for the switcher. *)
Definition do_mru_action (cfg : MruConfig) (action : Action) (w : MruWorld) : option MruWorld :=
  match action with
  | ActMruConfirm => confirm_mru w
  | ActMruCancel => Some (cancel_mru w)
  | ActMruAdvance direction scope filter =>
      if ui_is_open w.(mw_ui) then with_ui (ui_advance direction filter) w
      else if cfg.(mc_on) then mru_open cfg direction scope filter w else Some w
  | ActMruFirst => with_ui ui_first w
  | ActMruLast => with_ui ui_last w
  | ActMruSetScope scope => with_ui (ui_set_scope scope) w
  | ActMruCycleScope => with_ui ui_cycle_scope w
  | ActFocusWindowPrevious => focus_window_previous w
  | _ => Some w
  end.

(** A left click while the switcher is open on the output under the pointer ([Some], with the
    thumbnail there) or on another one. *)
Definition mru_click (here : option (option N)) (w : MruWorld) : option MruWorld :=
  if ui_is_open w.(mw_ui) then
    match here with
    | Some under =>
        let '(ui, id) := ui_pointer_motion w.(mw_now) under w.(mw_ui) in
        let w := set_mw_ui ui w in
        match id with Some _ => confirm_mru w | None => Some (cancel_mru w) end
    | None => Some (cancel_mru w)
    end
  else Some w.

(** ** Windows and outputs *)
Definition mw_add_window (op : LyOp) (id : N) (app_id : option string) (w : MruWorld) : option MruWorld :=
  w ← layout_do (MlLayout env op) w;
  Some (set_mw_info (<[id := MkWindowInfo app_id None]> w.(mw_info)) w).

Definition mw_remove_window (id : N) (w : MruWorld) : option MruWorld :=
  ui ← ui_remove_window w.(mw_now) id w.(mw_ui);
  w ← layout_do (MlLayout env (LopRemoveWindow id)) (set_mw_ui ui w);
  Some (set_mw_info (delete id w.(mw_info)) w).

Definition mw_remove_output (output : OutputName) (w : MruWorld) : option MruWorld :=
  w ← layout_do (MlLayout env (LopRemoveOutput output)) w;
  Some (if decide (ui_output w.(mw_ui) = Some output) then cancel_mru w else w).

Inductive MwOp :=
| MwLayout (op : MlOp)
| MwAddWindow (op : LyOp) (id : N) (app_id : option string)
| MwRemoveWindow (id : N)
| MwRemoveOutput (output : OutputName)
| MwFocused (id : N)
| MwCommit
| MwTimer (token : N)
| MwAction (action : Action)
| MwPointer (under : option N)
| MwClick (here : option (option N))
| MwCancel
| MwAnimations (closing_done : bool)
| MwTick (elapsed : N).

Definition run_mw_op (cfg : MruConfig) (op : MwOp) (w : MruWorld) : option MruWorld :=
  match op with
  | MwLayout op => layout_do op w
  | MwAddWindow op id app_id => mw_add_window op id app_id w
  | MwRemoveWindow id => mw_remove_window id w
  | MwRemoveOutput output => mw_remove_output output w
  | MwFocused id => Some (window_focused cfg id w)
  | MwCommit => Some (mru_apply_keyboard_commit w)
  | MwTimer token => Some (commit_timer_fired token w)
  | MwAction action => do_mru_action cfg action w
  | MwPointer under => Some (set_mw_ui (fst (ui_pointer_motion w.(mw_now) under w.(mw_ui))) w)
  | MwClick here => mru_click here w
  | MwCancel => Some (cancel_mru w)
  | MwAnimations b => Some (set_mw_ui (ui_advance_animations b w.(mw_ui)) w)
  | MwTick n => Some (set_mw_now (w.(mw_now) + n)%N w)
  end.

End world.
