(* ===== verification/MruWorldProps.v ===== *)
(** * The switcher together with the layout: properties

    The switcher always has a window of the layout selected as long as it is open, whatever windows
    and outputs do, and nothing panics; the windows it goes through are in the order of their focus
    times; these are up to date when it opens. *)
From stdpp Require Import gmap strings.
From S2P Require Import Prelude Float64 FloatRound BTree LayoutOutput LayoutScrolling LayoutFloating LayoutFloatingProps LayoutWorkspace LayoutWorkspaceOps LayoutMonitor LayoutMonitorOps LayoutMonitorProps LayoutSet LayoutSetOwn LayoutSetOps LayoutSetOutputs LayoutSetMoves LayoutSetWindows LayoutSetProps LayoutSetOptions LayoutMove LayoutMoveGeometry LayoutMoveOps LayoutMoveProps ConfigBinds WindowMru WindowMruProps MruWorld.

(** ** The opened switcher *)
Record inner_ok (windows : list N) (inner : MruInner) : Prop := {
  io_wmru : wmru_ok inner.(in_wmru);
  io_some : inner.(in_wmru).(wm_thumbnails) ≠ [];
  io_listed t : t ∈ inner.(in_wmru).(wm_thumbnails) → th_id t ∈ windows
}.

Definition ui_ok (windows : list N) (ui : UiState) : Prop := match ui with UiOpen inner => inner_ok windows inner | _ => True end.

Lemma inner_same windows inner wm b :
  inner_ok windows inner → wmru_ok wm → same_windows inner.(in_wmru) wm →
  inner_ok windows (set_in_wmru wm (set_in_freeze b inner)).
Proof. intros [_ H2 H3] Hwm Hs. split; cbn; [done|by rewrite Hs|rewrite Hs; apply H3]. Qed.

Lemma inner_same' windows inner wm :
  inner_ok windows inner → wmru_ok wm → same_windows inner.(in_wmru) wm → inner_ok windows (set_in_wmru wm inner).
Proof. intros [_ H2 H3] Hwm Hs. split; cbn; [done|by rewrite Hs|rewrite Hs; apply H3]. Qed.

Lemma inner_freeze windows inner b : inner_ok windows inner → inner_ok windows (set_in_freeze b inner).
Proof. by intros []. Qed.

Lemma animate_runs wm : wmru_ok wm → animate_scope_filter_change wm = Some wm.
Proof.
  intros Hok. unfold animate_scope_filter_change, selected_listed. destruct (wm_current_id wm) as [id|] eqn:E; [|done].
  pose proof (wk_current _ Hok) as Hc. rewrite E in Hc. destruct (wm_idx_of_some wm id) as (i & t & -> & _); [by apply visible_listed|].
  by rewrite bool_decide_true by by eexists.
Qed.

Lemma in_set_scope_runs windows scope inner :
  inner_ok windows inner → runs (in_set_scope scope inner) (inner_ok windows).
Proof.
  intros Hok. unfold in_set_scope. eapply runs_bind; [by eapply set_scope_runs, io_wmru|]. intros [old wm] (H1 & H2 & _). cbn in *.
  destruct old; cbn; [rewrite (animate_runs _ H1); cbn|]; apply runs_ret; by apply inner_same'.
Qed.

Lemma in_set_filter_runs windows filter inner :
  inner_ok windows inner → runs (in_set_filter filter inner) (inner_ok windows).
Proof.
  intros Hok. unfold in_set_filter. eapply runs_bind; [by eapply set_filter_runs, io_wmru|]. intros [old wm] (H1 & H2 & _). cbn in *.
  destruct old; cbn; [rewrite (animate_runs _ H1); cbn|]; apply runs_ret; by apply inner_same'.
Qed.

Lemma step_inner_runs windows inner (f : WindowMru → option WindowMru) :
  inner_ok windows inner → (∀ wm, wmru_ok wm → runs (f wm) (λ wm', wmru_ok wm' ∧ same_list wm wm')) →
  runs (wm ← f inner.(in_wmru); Some (set_in_wmru wm inner)) (inner_ok windows).
Proof.
  intros Hok Hf. eapply runs_bind; [by eapply Hf, io_wmru|]. intros wm (H1 & H2 & _). apply runs_ret. by apply inner_same'.
Qed.

Lemma forward_runs wm : wmru_ok wm → runs (wm_forward wm) (λ wm', wmru_ok wm' ∧ same_list wm wm').
Proof. intros H. by apply step_current_ok. Qed.

Lemma backward_runs wm : wmru_ok wm → runs (wm_backward wm) (λ wm', wmru_ok wm' ∧ same_list wm wm').
Proof. intros H. apply step_current_ok; [done|]. symmetry. apply Permutation_rev. Qed.

Lemma when_open_runs windows f ui :
  ui_ok windows ui → (∀ inner, inner_ok windows inner → runs (f inner) (inner_ok windows)) →
  runs (when_open f ui) (ui_ok windows).
Proof.
  intros Hok Hf. destruct ui as [inner| |]; [|by apply runs_ret..]. cbn. eapply runs_bind; [by apply Hf|]. intros inner' H.
  by apply runs_ret.
Qed.

Lemma ui_advance_runs windows dir filter ui : ui_ok windows ui → runs (ui_advance dir filter ui) (ui_ok windows).
Proof.
  intros Hok. apply when_open_runs; [done|]. intros inner Hi. eapply runs_bind with (P := inner_ok windows).
  - destruct filter; [by apply in_set_filter_runs, inner_freeze|by apply runs_ret, inner_freeze].
  - intros inner' Hi'. apply step_inner_runs; [done|]. destruct dir; [apply forward_runs|apply backward_runs].
Qed.

Lemma ui_set_scope_runs windows scope ui : ui_ok windows ui → runs (ui_set_scope scope ui) (ui_ok windows).
Proof. intros Hok. apply when_open_runs; [done|]. intros inner Hi. by apply in_set_scope_runs, inner_freeze. Qed.

Lemma ui_cycle_scope_runs windows ui : ui_ok windows ui → runs (ui_cycle_scope ui) (ui_ok windows).
Proof. intros Hok. destruct ui; [by apply ui_set_scope_runs|by apply runs_ret..]. Qed.

Lemma ui_ends_runs windows (f : WindowMru → WindowMru) ui :
  ui_ok windows ui → (∀ wm, NoDup (th_id <$> wm.(wm_thumbnails)) → wmru_ok (f wm) ∧ same_windows wm (f wm)) →
  runs (when_open (λ inner, Some (set_in_wmru (f inner.(in_wmru)) (set_in_freeze false inner))) ui) (ui_ok windows).
Proof.
  intros Hok Hf. apply when_open_runs; [done|]. intros inner Hi. apply runs_ret.
  destruct (Hf inner.(in_wmru)) as [H1 H2]; [apply Hi|]. by apply inner_same.
Qed.

Lemma ui_first_runs windows ui : ui_ok windows ui → runs (ui_first ui) (ui_ok windows).
Proof. intros Hok. apply ui_ends_runs; [done|]. intros wm Hnd. split; [by apply first_ok|done]. Qed.

Lemma ui_last_runs windows ui : ui_ok windows ui → runs (ui_last ui) (ui_ok windows).
Proof. intros Hok. apply ui_ends_runs; [done|]. intros wm Hnd. split; [by apply last_ok|done]. Qed.

Lemma ui_pointer_ok windows now under ui : ui_ok windows ui → ui_ok windows (ui_pointer_motion now under ui).1.
Proof.
  intros Hok. destruct ui as [inner| |]; [|done..]. cbn. destruct (is_fully_open now inner); [|done]. cbn.
  destruct under as [id|]; [|by apply inner_freeze]. destruct (wm_set_current_ok inner.(in_wmru) id) as [H1 (H2 & _)]; [apply Hok|].
  apply (inner_same windows inner _ true); [done|done|exact H2].
Qed.

Lemma ui_close_ok windows now request ui : ui_ok windows (ui_close now request ui).1.
Proof. destruct ui as [inner| |]; [|done..]. cbn. by destruct (is_fully_open now inner). Qed.

Lemma ui_remove_runs windows windows' now id ui :
  ui_ok windows ui → (∀ x, x ∈ windows → x ≠ id → x ∈ windows') →
  runs (ui_remove_window now id ui) (ui_ok windows').
Proof.
  intros Hok Hw. destruct ui as [inner| |]; [|by apply runs_ret..]. cbn. destruct Hok as [Hwm Hne Hl]. unfold in_remove_window.
  destruct (wm_idx_of id (in_wmru inner)) as [idx|] eqn:Ei.
  - destruct (wm_idx_of_listed _ _ _ Ei) as (t & Ht & <-).
    destruct (remove_by_idx_runs _ _ _ Hwm Ht) as (wm' & -> & Hok' & El & _). cbn. apply runs_ret. rewrite El.
    destruct (without idx (in_wmru inner)) as [|x l] eqn:Ew; [by destruct (is_fully_open now _)|].
    split; cbn; [done|by rewrite El|]. intros t' Ht'. rewrite El, <- Ew in Ht'.
    apply (without_elem _ idx t) in Ht' as [Hin Hne']; [|apply Hwm|done]. apply Hw; [by apply Hl|done].
  - apply runs_ret. cbn. split; cbn; [done|done|]. intros t Ht. apply Hw; [by apply Hl|]. intros <-.
    destruct (wm_idx_of_some (in_wmru inner) (th_id t)) as (i & _ & E & _); [by apply list_elem_of_fmap_2|]. congruence.
Qed.

(** ** The list of windows *)
Lemma mon_thumbnail_ids info output m : th_id <$> mon_thumbnails info output m = wss_windows m.(mo_workspaces).
Proof.
  unfold mon_thumbnails, wss_windows. generalize (bool_decide (mo_output m = output)). intros on.
  generalize (mo_active m), (mo_workspaces m). clear m output.
  intros active0 l0. assert (H : ∀ l active k, th_id <$> concat (imap (λ i ws,
    from_mapped info on (on && (active =? k + i)) <$> ws_windows ws) l) = l ≫= ws_windows).
  { induction l as [|ws l IH]; intros active k; [done|]. cbn. rewrite fmap_app, <- list_fmap_compose. f_equal; [by apply list_fmap_id|].
    specialize (IH active (S k)). cbn in IH. rewrite <- IH. f_equal. f_equal. apply imap_ext. intros i x _. cbn.
    by replace (k + S i) with (S (k + i)) by lia. }
  exact (H l0 active0 0).
Qed.

Lemma thumbnail_ids info output ms : th_id <$> (ms ≫= mon_thumbnails info output) = wss_windows (all_workspaces ms).
Proof.
  induction ms as [|m ms IH]; [done|]. cbn. rewrite fmap_app, IH, mon_thumbnail_ids.
  unfold all_workspaces. cbn. by rewrite wss_windows_app.
Qed.

Lemma thumbnail_info info output ms t :
  t ∈ ms ≫= mon_thumbnails info output → t.(th_timestamp) = (info t.(th_id)).(wi_timestamp) ∧ t.(th_app_id) = (info t.(th_id)).(wi_app_id).
Proof.
  intros (m & Ht & _)%list_elem_of_bind. unfold mon_thumbnails in Ht. apply list_elem_of_In, in_concat in Ht as (l & Hl & Ht).
  apply list_elem_of_In, list_elem_of_lookup in Hl as [i Hi]. rewrite list_lookup_imap in Hi. apply fmap_Some in Hi as (ws & _ & ->).
  apply list_elem_of_In, list_elem_of_fmap in Ht as (w & -> & _). done.
Qed.

Lemma more_recent_total a b : more_recent a b = true ∨ more_recent b a = true.
Proof. unfold more_recent. destruct (th_timestamp a), (th_timestamp b); auto. rewrite !N.leb_le. lia. Qed.

Lemma more_recent_trans a b c : more_recent a b = true → more_recent b c = true → more_recent a c = true.
Proof. unfold more_recent. destruct (th_timestamp a), (th_timestamp b), (th_timestamp c); try done. rewrite !N.leb_le. lia. Qed.

(** The windows of the layout in the order of their focus times. *)
Record recent_list (info : N → WindowInfo) (ly : Layout) (l : list Thumbnail) : Prop := {
  rl_windows : th_id <$> l ≡ₚ ly_windows ly;
  rl_sorted : StronglySorted (λ a b, more_recent a b = true) l;
  rl_info t : t ∈ l → t.(th_timestamp) = (info t.(th_id)).(wi_timestamp) ∧ t.(th_app_id) = (info t.(th_id)).(wi_app_id)
}.

Section layout.
  Context (par : N → option N) (Hcycle : no_cycle par) (g : Placement).

Lemma active_monitor_runs c ly :
  layout_ok par c ly →
  runs (active_monitor ly) (λ a, match a with
    | Some (_, m) => ly_monitors ly ≠ [] ∧ ∃ w, mon_active_window m = Some w
    | None => ly_monitors ly = []
    end).
Proof.
  intros Hok. unfold active_monitor, ly_monitors. destruct (ly_set ly) as [ms p a|l] eqn:E; [|by apply runs_ret].
  destruct (active_monitor_at par c ly ms p a Hok E) as (m & ws & Hm & _ & Hws & _). rewrite Hm. apply runs_ret.
  split; [by intros ->|]. unfold mon_active_window. rewrite Hws. by eexists.
Qed.

Lemma new_runs info c ly :
  layout_ok par c ly →
  runs (WindowMru_new info ly) (λ wm, wmru_ok wm ∧ at_first wm ∧ wm.(wm_scope) = MruScopeAll ∧ wm.(wm_app_id_filter) = None ∧
    if decide (ly_monitors ly = []) then wm.(wm_thumbnails) = [] else recent_list info ly wm.(wm_thumbnails)).
Proof.
  intros Hok. unfold WindowMru_new. eapply runs_bind; [by eapply active_monitor_runs|]. intros [[i m]|] Ha; apply runs_ret.
  2: { rewrite decide_True by done. split_and!; [split; [constructor|done]|done..]. }
  destruct Ha as [Hne _]. rewrite decide_False by done. cbn [wm_thumbnails wm_scope wm_app_id_filter].
  set (l := ly_monitors ly ≫= mon_thumbnails info (mo_output m)).
  assert (Hids : th_id <$> stable_sort more_recent l ≡ₚ ly_windows ly).
  { rewrite stable_sort_Permutation. unfold l. rewrite thumbnail_ids. unfold ly_windows, ly_workspaces, ly_monitors in *.
    by destruct (ly_set ly). }
  assert (Hvis : ∀ c, wm_visible (MkWindowMru (stable_sort more_recent l) c MruScopeAll None) = stable_sort more_recent l).
  { intros c'. unfold wm_visible. cbn. generalize (stable_sort more_recent l). induction l0 as [|x l0 IH]; cbn; [done|]. by f_equal. }
  split_and!; [split; cbn [wm_thumbnails wm_current_id]|unfold at_first, wm_first_id; by rewrite Hvis|done|done|split].
  - rewrite Hids. by eapply layout_windows_NoDup.
  - rewrite Hvis. by destruct (stable_sort more_recent l); [|left].
  - exact Hids.
  - apply stable_sort_sorted; [apply more_recent_total|apply more_recent_trans].
  - intros t Ht. rewrite stable_sort_Permutation in Ht. by eapply thumbnail_info.
Qed.

Lemma ml_focus_runs c ml : ml_ok par c ml → runs (ml_focus ml) (λ _, True).
Proof.
  intros [Hok _]. unfold ml_focus. destruct (moving ml); [by apply runs_ret|].
  eapply runs_bind; [by eapply active_monitor_runs|]. intros [[i m]|] Ha; [|by apply runs_ret].
  destruct Ha as (_ & w & ->). by apply runs_ret.
Qed.

(** ** The world *)
Context (env : ViewEnv) (Henv : view_ok env).

Definition mw_windows (w : MruWorld) : list N := ml_windows w.(mw_ml).

Definition mw_ok (w : MruWorld) : Prop := ml_ok par w.(mw_ids) w.(mw_ml) ∧ ui_ok (mw_windows w) w.(mw_ui).

Definition mw_room (w : MruWorld) : Prop := ml_room w.(mw_ids) w.(mw_ml).

(** What changes apart from the layout and the switcher. *)
Definition same_layout (w w' : MruWorld) : Prop := w'.(mw_ml) = w.(mw_ml) ∧ w'.(mw_ids) = w.(mw_ids).

Lemma mw_ok_ui w ui : mw_ok w → ui_ok (mw_windows w) ui → mw_ok (set_mw_ui ui w).
Proof. intros [H _] Hui. by split. Qed.

Lemma mw_ok_same w w' : mw_ok w → same_layout w w' → w'.(mw_ui) = w.(mw_ui) → mw_ok w'.
Proof. intros [H1 H2] [E1 E2] E3. unfold mw_ok, mw_windows. by rewrite E1, E2, E3. Qed.

Lemma commit_same w : same_layout w (mru_apply_keyboard_commit w) ∧ mw_ui (mru_apply_keyboard_commit w) = mw_ui w.
Proof. unfold mru_apply_keyboard_commit. destruct (mw_pending w); [|done]. by destruct (bool_decide _). Qed.

Lemma commit_now w : mw_now (mru_apply_keyboard_commit w) = mw_now w.
Proof. unfold mru_apply_keyboard_commit. destruct (mw_pending w); [|done]. by destruct (bool_decide _). Qed.

Lemma commit_ok w : mw_ok w → mw_ok (mru_apply_keyboard_commit w).
Proof. intros Hok. eapply mw_ok_same; [done|apply commit_same..]. Qed.

Lemma cancel_ok w : mw_ok w → mw_ok (cancel_mru w).
Proof.
  intros Hok. unfold cancel_mru, close_mru. pose proof (ui_close_ok (mw_windows w) (mw_now w) MruRequestCancel (mw_ui w)) as H.
  destruct (ui_close _ _ _) as [ui id]. by apply mw_ok_ui.
Qed.

Lemma layout_do_runs op w :
  mw_ok w → ml_op_pre par w.(mw_ids) w.(mw_ml) op → mw_room w →
  runs (layout_do par g op w) (λ w', ml_ok par w'.(mw_ids) w'.(mw_ml) ∧ w'.(mw_ui) = w.(mw_ui) ∧
    ∃ removed c', run_ml_op par g w.(mw_ml) op w.(mw_ids) = Some ((w'.(mw_ml), removed), c') ∧
      removed ++ mw_windows w' ≡ₚ ml_added op ++ mw_windows w).
Proof.
  intros [Hok _] Hpre Hr. unfold layout_do. destruct (run_ml_op_wp par Hcycle g _ _ op Hok Hpre Hr) as ([ml removed] & c' & E & [H1 H2 _]).
  rewrite E. cbn. apply runs_ret. split_and!; [done|done|]. by exists removed, c'.
Qed.

(** Apart from closing a window, no operation takes windows away. *)
Definition keeps_windows (op : MlOp) : Prop := match op with MlLayout _ (LopRemoveWindow _) => False | _ => True end.

Lemma yields_snd {A} (o : Fresh A) : yields (λ r : A * list N, snd r = []) (a ← o; mret (a, [])).
Proof. apply yields_any. intros a. by apply yields_ret. Qed.

Lemma run_ly_op_keeps ly op :
  match op with LopRemoveWindow _ => False | _ => True end → yields (λ r : Layout * list N, snd r = []) (run_ly_op par g ly op).
Proof.
  destruct op; cbn [run_ly_op]; intros []; first [apply yields_snd|unfold fst_of; apply yields_any; intros ?; by apply yields_ret].
Qed.

Lemma run_ml_op_keeps ml op : keeps_windows op → yields (λ r : MovingLayout * list N, snd r = []) (run_ml_op par g ml op).
Proof.
  destruct op; cbn [run_ml_op]; intros Hk; try apply yields_snd.
  assert (Hrun : ∀ op' (f : Layout → MovingLayout), match op' with LopRemoveWindow _ => False | _ => True end →
    yields (λ r : MovingLayout * list N, snd r = []) (r ← run_ly_op par g (ml_layout ml) op'; mret (f (fst r), snd r))).
  { intros op' f Hop. eapply yields_bind; [by apply run_ly_op_keeps|]. intros r Hr. by apply yields_ret. }
  pose proof (λ op', Hrun op' (λ ly, set_ml_layout ly ml)) as Hset.
  pose proof (λ op', Hrun op' (λ ly, MkMovingLayout ly (retune_held ly ml.(ml_move)) ml.(ml_dnd))) as Htune.
  unfold run_layout_op. destruct op; try done; try (by apply Hset); try (by apply Htune).
  all: destruct (held_action _ _), (moving ml); try (by apply Hset); try (by apply yields_ret); apply yields_snd.
Qed.

Lemma ui_ok_windows windows windows' ui : (∀ x, x ∈ windows → x ∈ windows') → ui_ok windows ui → ui_ok windows' ui.
Proof. destruct ui as [inner| |]; [|done..]. intros Hw [H1 H2 H3]. split; [done|done|]. intros t Ht. by apply Hw, H3. Qed.

(** An operation of the layout that takes no window away. *)
Lemma layout_keeps_runs op w :
  mw_ok w → keeps_windows op → ml_op_pre par w.(mw_ids) w.(mw_ml) op → mw_room w →
  runs (layout_do par g op w) (λ w', mw_ok w' ∧ w'.(mw_ui) = w.(mw_ui)).
Proof.
  intros Hok Hk Hpre Hr. eapply runs_weaken; [by apply layout_do_runs|]. intros w' (H1 & Eui & removed & c' & E & Hw).
  split; [|done]. split; [done|]. rewrite Eui. eapply ui_ok_windows; [|apply Hok]. intros x Hx.
  pose proof (run_ml_op_keeps _ op Hk _ _ _ E) as Hn. cbn in Hn. subst removed. cbn in Hw. rewrite Hw. apply elem_of_app. by right.
Qed.

Lemma focus_window_runs id w : mw_ok w → mw_room w → runs (mw_focus_window par g env id w) mw_ok.
Proof.
  intros Hok Hr. eapply runs_weaken; [apply layout_keeps_runs; [done|done| |done]|by intros w' [? _]]. by split.
Qed.

Lemma close_mru_ok request w : mw_ok w → mw_room w → mw_ok (close_mru request w).1 ∧ mw_room (close_mru request w).1.
Proof.
  intros Hok Hr. unfold close_mru. pose proof (ui_close_ok (mw_windows w) (mw_now w) request (mw_ui w)) as H.
  destruct (ui_close _ _ _) as [ui id]. cbn in *. split; [by apply mw_ok_ui|done].
Qed.

Lemma confirm_runs w : mw_ok w → mw_room w → runs (confirm_mru par g env w) mw_ok.
Proof.
  intros Hok Hr. unfold confirm_mru. destruct (close_mru_ok MruRequestConfirm w Hok Hr) as [H1 H2].
  destruct (close_mru _ w) as [w' [id|]]; cbn in *; [by apply focus_window_runs|by apply runs_ret].
Qed.

Lemma with_ui_runs f w :
  mw_ok w → (∀ ui, ui_ok (mw_windows w) ui → runs (f ui) (ui_ok (mw_windows w))) → runs (with_ui f w) mw_ok.
Proof.
  intros Hok Hf. unfold with_ui. eapply runs_bind; [apply Hf, Hok|]. intros ui Hui. apply runs_ret. by apply mw_ok_ui.
Qed.

Lemma listed_windows info ly ml wm t :
  ml.(ml_layout) = ly → recent_list info ly wm.(wm_thumbnails) → t ∈ wm.(wm_thumbnails) → th_id t ∈ ml_windows ml.
Proof.
  intros <- [H _ _] Ht. unfold ml_windows. apply elem_of_app. right. rewrite <- H. by apply list_elem_of_fmap_2.
Qed.

(** Where the selection is when the switcher has opened. *)
Definition start_at (direction : MruDirection) (focused : bool) (n : nat) : nat :=
  match direction with MruForward => if focused then 1 mod n else 0 | MruBackward => n - 1 end.

Definition opened (cfg : MruConfig) (direction : MruDirection) (scope : option MruScope) (filter : option MruFilter)
    (w : MruWorld) (inner : MruInner) : Prop :=
  let w0 := mru_apply_keyboard_commit w in
  let wm := inner.(in_wmru) in
  recent_list (window_info w0) w.(mw_ml).(ml_layout) wm.(wm_thumbnails) ∧
  wm.(wm_scope) = default (ui_scope w.(mw_ui)) scope ∧
  (∃ first, (first = head (List.filter (thumbnail_matches wm.(wm_scope) None) wm.(wm_thumbnails))) ∧
     wm.(wm_app_id_filter) = match filter with Some MruFilterAppId => t ← first; t.(th_app_id) | _ => None end) ∧
  (∃ focus, ml_focus w.(mw_ml) = Some focus ∧
     wm.(wm_current_id) = visible_ids wm !! start_at direction (bool_decide (is_Some focus)) (length (visible_ids wm))) ∧
  inner.(in_open_at) = (w.(mw_now) + cfg.(mc_open_delay))%N.

Lemma at_first_at wm : wmru_ok wm → at_first wm → wm.(wm_current_id) = visible_ids wm !! 0.
Proof. intros _ ->. unfold wm_first_id, visible_ids. by destruct (wm_visible wm). Qed.

(** One step from the first window. *)
Lemma step_from_first dir wm :
  wmru_ok wm → at_first wm →
  runs ((match dir with MruForward => wm_forward | MruBackward => wm_backward end) wm) (λ wm',
    wmru_ok wm' ∧ same_list wm wm' ∧ wm'.(wm_current_id) = visible_ids wm !! start_at dir true (length (visible_ids wm))).
Proof.
  intros Hok Hf. pose proof (at_first_at wm Hok Hf) as Hc. destruct (wm_current_id wm) as [id|] eqn:Ec.
  - assert (Hat : current_at wm 0) by by exists id. destruct dir; cbn [start_at].
    + destruct (forward_at wm 0 Hok Hat) as (wm' & -> & Hs & Hok' & Hat'). apply runs_ret. split_and!; [done..|].
      rewrite (current_at_in _ _ Hat'). by rewrite (same_list_ids _ _ Hs).
    + destruct (backward_at wm 0 Hok Hat) as (wm' & -> & Hs & Hok' & Hat'). apply runs_ret. split_and!; [done..|].
      rewrite (current_at_in _ _ Hat'), (same_list_ids _ _ Hs). symmetry in Hc. apply lookup_lt_Some in Hc. cbn.
      by rewrite Nat.mod_small by lia.
  - assert (Hnil : visible_ids wm = []).
    { unfold visible_ids. pose proof (wk_current _ Hok) as H. rewrite Ec in H. by rewrite H. }
    destruct dir; unfold wm_forward, wm_backward, step_current; rewrite Ec; apply runs_ret; (split_and!; [done..|]); by rewrite Hnil, Ec.
Qed.

Lemma mru_open_runs cfg direction scope filter w :
  mw_ok w → ui_is_open w.(mw_ui) = false →
  runs (mru_open cfg direction scope filter w) (λ w',
    mw_ok w' ∧ same_layout w w' ∧
    (if bool_decide (ly_monitors w.(mw_ml).(ml_layout) = [] ∨ ly_windows w.(mw_ml).(ml_layout) = [])
     then w' = mru_apply_keyboard_commit w
     else ∃ inner, w'.(mw_ui) = UiOpen inner ∧ opened cfg direction scope filter w inner)).
Proof.
  intros Hok Hclosed. unfold mru_open. destruct (commit_same w) as [[Eml Eids] Eui]. pose proof (commit_ok w Hok) as Hok0.
  set (w0 := mru_apply_keyboard_commit w) in *. cbv zeta. rewrite Eml, Eui.
  eapply runs_bind; [eapply new_runs; apply Hok|]. intros wm0 (Hwm0 & Hf0 & Hs0 & Hn0 & Hl0).
  destruct (decide (ly_monitors (ml_layout (mw_ml w)) = [])) as [Em|Em].
  { rewrite Hl0. apply runs_ret. rewrite bool_decide_true by by left. done. }
  pose proof (rl_windows _ _ _ Hl0) as Hperm. destruct (wm_thumbnails wm0) as [|t0 l0] eqn:E0.
  { apply runs_ret. cbn in Hperm. symmetry in Hperm. apply Permutation_nil_r in Hperm. rewrite bool_decide_true by by right. done. }
  rewrite bool_decide_false.
  2: { intros [?|E]; [done|]. rewrite E in Hperm. by apply Permutation_nil_r in Hperm. }
  rewrite <- E0 in Hl0. eapply runs_bind; [by apply set_scope_at_first|]. intros [old wm1] (Hwm1 & Hs1 & Hsc1 & Hfl1 & Hf1). cbn [fst snd] in *.
  eapply runs_bind with (P := λ wm2, wmru_ok wm2 ∧ same_windows wm1 wm2 ∧ wm2.(wm_scope) = wm1.(wm_scope) ∧
    wm2.(wm_app_id_filter) = match filter with Some MruFilterAppId => t ← head (wm_visible wm1); t.(th_app_id) | _ => None end ∧ at_first wm2).
  { destruct filter as [f|].
    - eapply runs_fmap; [apply (set_filter_at_first f); [done..|congruence]|]. intros r (?&?&?&E&?). split_and!; [done..| |done]. rewrite E. by destruct f.
    - apply runs_ret. split_and!; [done..| |done]. congruence. }
  intros wm2 (Hwm2 & Hs2 & Hsc2 & Hfl2 & Hf2).
  eapply runs_bind; [eapply active_monitor_runs; apply Hok|]. intros [[i m]|] Ha; [|by destruct Em].
  destruct (ml_focus_runs _ (mw_ml w) (proj1 Hok)) as (focus & Efocus & _). rewrite Efocus. cbn [mbind option_bind].
  assert (Eopen : ui_open (mw_now w0) (mc_open_delay cfg) wm2 (mo_output m) (mw_ui w) =
    UiOpen (MkMruInner wm2 false (mw_now w + mc_open_delay cfg) (mo_output m))).
  { unfold ui_open. rewrite Hclosed. unfold w0. by rewrite commit_now. }
  rewrite Eopen.
  assert (Hend : ∀ wm3, wmru_ok wm3 → same_list wm2 wm3 →
    wm3.(wm_current_id) = visible_ids wm2 !! start_at direction (bool_decide (is_Some focus)) (length (visible_ids wm2)) →
    let inner := MkMruInner wm3 false (mw_now w + mc_open_delay cfg) (mo_output m) in
    mw_ok (set_mw_ui (UiOpen inner) w0) ∧ opened cfg direction scope filter w inner).
  { intros wm3 Hwm3 Hs3 Hc3. pose proof Hs3 as (El3 & Es3 & Ef3). assert (El : wm_thumbnails wm3 = wm_thumbnails wm0) by congruence.
    split; [apply mw_ok_ui; [done|]; split; cbn; [done|by rewrite El, E0|]|].
    - intros t Ht. rewrite El in Ht. unfold mw_windows. rewrite Eml. by eapply listed_windows.
    - unfold opened. cbn [in_wmru in_open_at]. rewrite El. split_and!; [exact Hl0|congruence| |exists focus|done].
      + eexists. split; [reflexivity|]. rewrite Ef3, Hfl2. destruct filter as [[]|]; [done| |done]. f_equal.
        unfold wm_visible, wm_matches. by rewrite Hfl1, Hn0, Hs1, Es3, Hsc2.
      + split; [done|]. by rewrite (same_list_ids _ _ Hs3). }
  destruct (step_from_first direction wm2 Hwm2 Hf2) as (wm3 & Estep & Hwm3 & Hs3 & Hc3).
  destruct (match direction with MruForward => true | MruBackward => false end && bool_decide (focus = None)) eqn:Ek.
  - apply andb_prop in Ek as [Ed ->%bool_decide_eq_true]. destruct direction; [|done]. cbn [mbind option_bind]. apply runs_ret.
    destruct (Hend wm2 Hwm2) as [H1 H2]; [done|by rewrite (at_first_at wm2)|]. split_and!; [done|done|]. eexists. split; [reflexivity|done].
  - cbn [ui_advance when_open set_in_freeze in_wmru mbind option_bind].
    change (in_wmru _) with wm2. rewrite Estep. cbn [mbind option_bind]. apply runs_ret.
    destruct (Hend wm3 Hwm3 Hs3) as [H1 H2].
    { rewrite Hc3. f_equal. destruct direction; [|done]. by destruct focus. }
    split_and!; [done|done|]. eexists. split; [reflexivity|done].
Qed.

(** ** Every operation *)
Definition mw_op_pre (w : MruWorld) (op : MwOp) : Prop :=
  match op with
  | MwLayout op =>
      keeps_windows op ∧ ml_added op = [] ∧ (∀ env o, op ≠ MlLayout env (LopRemoveOutput o)) ∧
      ml_op_pre par w.(mw_ids) w.(mw_ml) op ∧ mw_room w
  | MwAddWindow op id _ =>
      match op with LopAddWindow id' _ _ _ _ _ _ _ => id' = id | _ => False end ∧
      layout_op_pre par w.(mw_ids) w.(mw_ml) op ∧ mw_room w
  | MwRemoveWindow id => id ∈ mw_windows w ∧ mw_room w
  | MwRemoveOutput output => output_in w.(mw_ml).(ml_layout) output ∧ mw_room w
  | MwAction _ | MwClick _ => mw_room w
  | _ => True
  end.

Lemma layout_remove_runs id w :
  ml_ok par w.(mw_ids) w.(mw_ml) → id ∈ mw_windows w → mw_room w →
  runs (layout_do par g (MlLayout env (LopRemoveWindow id)) w) (λ w',
    ml_ok par w'.(mw_ids) w'.(mw_ml) ∧ w'.(mw_ui) = w.(mw_ui) ∧ id :: mw_windows w' ≡ₚ mw_windows w).
Proof.
  intros Hml Hid Hr. unfold layout_do. cbn [run_ml_op run_layout_op].
  destruct (ml_remove_runs par Hcycle g env Henv _ _ id Hml Hr Hid) as ([ml' t'] & E & t & _ & _ & [H1 H2 _]).
  unfold lift, mret, mbind, Fresh_bind, Fresh_ret, option_bind. rewrite E. apply runs_ret. by split_and!.
Qed.

Lemma close_window_runs id w :
  mw_ok w → id ∈ mw_windows w → mw_room w → runs (mw_remove_window par g env id w) mw_ok.
Proof.
  intros [Hml Hui] Hid Hr. unfold mw_remove_window.
  eapply runs_bind; [apply (ui_remove_runs (mw_windows w) (filter (.≠ id) (mw_windows w)) _ _ _ Hui); intros x Hx Hne; by apply list_elem_of_filter|].
  intros ui Hui'. eapply runs_bind; [by apply (layout_remove_runs id (set_mw_ui ui w))|]. intros w' (Hml' & Ew & Hw). apply runs_ret.
  split; [done|]. cbn in *. rewrite Ew. eapply ui_ok_windows; [|exact Hui']. intros x [Hne Hx]%list_elem_of_filter.
  rewrite <- (Hw : _ ≡ₚ mw_windows w) in Hx. by apply elem_of_cons in Hx as [->|?].
Qed.

Lemma window_focused_ok cfg id w : mw_ok w → mw_ok (window_focused cfg id w).
Proof.
  intros Hok. eapply mw_ok_same; [done|..]; unfold window_focused; (destruct (bool_decide _); [|done]);
    (destruct (_ || _); [done|]); by destruct (mw_pending w).
Qed.

Lemma timer_fired_ok token w : mw_ok w → mw_ok (commit_timer_fired token w).
Proof.
  intros Hok. unfold commit_timer_fired. destruct (mw_timers w !! token); [|done]. by apply commit_ok in Hok.
Qed.

Lemma focus_previous_runs w : mw_ok w → mw_room w → runs (focus_window_previous par g env w) mw_ok.
Proof.
  intros Hok Hr. unfold focus_window_previous. eapply runs_bind; [eapply ml_focus_runs, Hok|]. intros current _.
  destruct (latest _ _ _) as [id|]; [|by apply runs_ret]. apply focus_window_runs; [by apply commit_ok|].
  destruct (commit_same w) as [[E1 E2] _]. unfold mw_room. by rewrite E1, E2.
Qed.

Lemma mru_action_runs cfg action w : mw_ok w → mw_room w → runs (do_mru_action par g env cfg action w) mw_ok.
Proof.
  intros Hok Hr. destruct action; cbn [do_mru_action]; try (by apply runs_ret).
  - by apply focus_previous_runs.
  - destruct (ui_is_open (mw_ui w)) eqn:Eo; [apply with_ui_runs; [done|]; intros; by apply ui_advance_runs|].
    destruct (mc_on cfg); [|by apply runs_ret]. eapply runs_weaken; [by apply mru_open_runs|]. by intros w' [? _].
  - by apply confirm_runs.
  - by apply runs_ret, cancel_ok.
  - apply with_ui_runs; [done|]. intros. by apply ui_first_runs.
  - apply with_ui_runs; [done|]. intros. by apply ui_last_runs.
  - apply with_ui_runs; [done|]. intros. by apply ui_set_scope_runs.
  - apply with_ui_runs; [done|]. intros. by apply ui_cycle_scope_runs.
Qed.

Lemma mru_click_runs here w : mw_ok w → mw_room w → runs (mru_click par g env here w) mw_ok.
Proof.
  intros Hok Hr. unfold mru_click. destruct (ui_is_open _); [|by apply runs_ret].
  destruct here as [under|]; [|by apply runs_ret, cancel_ok].
  pose proof (ui_pointer_ok (mw_windows w) (mw_now w) under (mw_ui w) (proj2 Hok)) as H.
  destruct (ui_pointer_motion _ _ _) as [ui [id|]]; cbn in *; [by apply confirm_runs; [apply mw_ok_ui|]|].
  by apply runs_ret, cancel_ok, mw_ok_ui.
Qed.

Lemma run_mw_op_runs cfg op w : mw_ok w → mw_op_pre w op → runs (run_mw_op par g env cfg op w) mw_ok.
Proof.
  intros Hok Hpre. destruct op; cbn [run_mw_op mw_op_pre] in *.
  - destruct Hpre as (Hk & _ & _ & Hop & Hr). eapply runs_weaken; [by apply layout_keeps_runs|]. by intros w' [? _].
  - destruct Hpre as (Hid & Hop & Hr). unfold mw_add_window. eapply runs_bind.
    { apply layout_keeps_runs; [done| |by split|done]. by destruct op. }
    intros w' [H _]. apply runs_ret. eapply mw_ok_same; done.
  - destruct Hpre. by apply close_window_runs.
  - destruct Hpre as [Ho Hr]. unfold mw_remove_output. eapply runs_bind; [apply layout_keeps_runs; [done|done|by split|done]|].
    intros w' [H _]. apply runs_ret. destruct (decide _); [by apply cancel_ok|done].
  - by apply runs_ret, window_focused_ok.
  - by apply runs_ret, commit_ok.
  - by apply runs_ret, timer_fired_ok.
  - by apply mru_action_runs.
  - apply runs_ret, mw_ok_ui; [done|]. apply ui_pointer_ok, Hok.
  - by apply mru_click_runs.
  - by apply runs_ret, cancel_ok.
  - apply runs_ret, mw_ok_ui; [done|]. destruct Hok as [_ H]. destruct (mw_ui w); [done| |done]. by destruct closing_done.
  - apply runs_ret. by eapply mw_ok_same.
Qed.

End layout.
