(* ===== verification/MruProps.v ===== *)
(** * The switcher of recent windows: theorems *)
From stdpp Require Import gmap strings.
From S2P Require Import Prelude Float64 FloatRound BTree LayoutOutput LayoutScrolling LayoutFloating LayoutFloatingProps LayoutWorkspace LayoutWorkspaceOps LayoutWorkspaceProps LayoutMonitor LayoutMonitorOps LayoutMonitorProps LayoutSet LayoutSetOwn LayoutSetOps LayoutSetOutputs LayoutSetMoves LayoutSetWindows LayoutSetProps LayoutSetOptions LayoutView LayoutMove LayoutMoveGeometry LayoutMoveOps LayoutMoveProps ConfigBinds WindowMru WindowMruProps MruWorld MruWorldProps.

(** ** Reachable worlds *)
Definition mw_new (ids : N) (ml : MovingLayout) (info : gmap N WindowInfo) : MruWorld :=
  MkMruWorld ml ids info (UiClosed MruScopeAll) None ∅ 0 0.

Inductive mw_start (par : N → option N) (g : Placement) : MruWorld → Prop :=
| mw_start_intro ids ml info : still_layout par g (ids, ml) → mw_start par g (mw_new ids ml info).

Inductive mw_step (par : N → option N) (g : Placement) : MruWorld → MruWorld → Prop :=
| mw_step_intro env cfg op w w' :
    view_ok env → mw_op_pre par w op → run_mw_op par g env cfg op w = Some w' → mw_step par g w w'.

Section reachable.
  Context (par : N → option N) (Hcycle : no_cycle par) (g : Placement).

Lemma mw_start_ok w : mw_start par g w → mw_ok par w.
Proof. intros [ids ml info H]. split; [|done]. exact (still_layout_ok par Hcycle g _ H). Qed.

Lemma mw_step_ok w w' : mw_step par g w w' → mw_ok par w → mw_ok par w'.
Proof.
  intros [env cfg op w1 w2 Hv Hpre E] Hok. destruct (run_mw_op_runs par Hcycle g env Hv cfg op w1 Hok Hpre) as (w3 & E' & H).
  rewrite E in E'. by injection E' as <-.
Qed.

Lemma mw_steps_ok w w' : rtc (mw_step par g) w w' → mw_ok par w → mw_ok par w'.
Proof. induction 1; eauto using mw_step_ok. Qed.
End reachable.

(** ** Focusing a window *)

(** No window is held, or it is that one. *)
Definition may_focus (w : MruWorld) (id : N) : Prop := ∀ data, moving w.(mw_ml) = Some data → tl_window data.(md_tile) = id.

Lemma focus_window_gives par g env id w :
  no_cycle par → mw_ok par w → id ∈ mw_windows w → ly_monitors w.(mw_ml).(ml_layout) ≠ [] →
  Forall no_swipe (ly_monitors w.(mw_ml).(ml_layout)) → may_focus w id →
  runs (mw_focus_window par g env id w) (λ w', ml_focus w'.(mw_ml) = Some (Some id)).
Proof.
  intros Hc [[Hly Hheld] _] Hid Hne Hset Hmay. unfold mw_focus_window, layout_do. cbn [run_ml_op run_layout_op held_action].
  unfold mw_windows, ml_windows in Hid. unfold may_focus, moving in Hmay. unfold is_held, moving.
  destruct (ml_move (mw_ml w)) as [[x d|data]|] eqn:Em; cbn [held app] in Hid.
  2: { rewrite (Hmay data eq_refl), N.eqb_refl. cbn. apply runs_ret. unfold ml_focus, moving. cbn. rewrite Em. by rewrite (Hmay data eq_refl). }
  all: destruct (ly_activate_active par Hc g _ _ id Hly Hid Hne Hset) as (ly' & E & i & m & Ea & Hm).
  all: cbn [run_ly_op]; unfold lift, mret, mbind, Fresh_bind, Fresh_ret, option_bind; rewrite E; apply runs_ret.
  all: unfold ml_focus, moving; cbn; rewrite Em, Ea; exact Hm.
Qed.

Lemma layout_do_ui par g op w w' : layout_do par g op w = Some w' → w'.(mw_ui) = w.(mw_ui).
Proof. unfold layout_do. intros ([[ml removed] c] & _ & [= <-])%bind_Some. done. Qed.

Lemma current_listed par w inner id :
  mw_ok par w → w.(mw_ui) = UiOpen inner → inner.(in_wmru).(wm_current_id) = Some id → id ∈ mw_windows w.
Proof.
  intros [_ Hui] Ei Ec. rewrite Ei in Hui. destruct Hui as [H1 _ H3]. pose proof (wk_current _ H1) as Hcur.
  rewrite Ec in Hcur. apply list_elem_of_fmap in Hcur as (t & -> & [Ht _]%visible_elem). by apply H3.
Qed.

Lemma confirm_selected par g env w inner id :
  mw_ok par w → w.(mw_ui) = UiOpen inner → inner.(in_wmru).(wm_current_id) = Some id →
  confirm_mru par g env w = mw_focus_window par g env id (close_mru MruRequestConfirm w).1.
Proof.
  intros Hok Ei Ec. pose proof (current_listed par w inner id Hok Ei Ec) as Hid.
  unfold confirm_mru, close_mru. rewrite Ei. cbn [ui_close]. rewrite Ec. cbn [mbind option_bind].
  unfold find_window_by_id. cbn [mw_ml set_mw_ui]. by rewrite bool_decide_true.
Qed.

(** The selected window of the open switcher gets the focus, and the switcher closes. *)
Lemma confirm_focuses par g env w inner id :
  no_cycle par → mw_ok par w → w.(mw_ui) = UiOpen inner → inner.(in_wmru).(wm_current_id) = Some id →
  ly_monitors w.(mw_ml).(ml_layout) ≠ [] → Forall no_swipe (ly_monitors w.(mw_ml).(ml_layout)) → may_focus w id →
  runs (confirm_mru par g env w) (λ w', ml_focus w'.(mw_ml) = Some (Some id) ∧ ui_is_open w'.(mw_ui) = false).
Proof.
  intros Hc Hok Ei Ec Hne Hs Hm. rewrite (confirm_selected par g env w inner id Hok Ei Ec).
  pose proof (current_listed par w inner id Hok Ei Ec) as Hid. unfold close_mru. rewrite Ei. cbn [ui_close fst].
  set (w1 := set_mw_ui _ w). assert (Hui : ui_is_open w1.(mw_ui) = false) by (unfold w1; cbn; by case_match).
  assert (Hok1 : mw_ok par w1) by (apply mw_ok_ui; [done|by case_match]).
  destruct (focus_window_gives par g env id w1) as (w' & E & Hf); try done.
  exists w'. split; [exact E|]. split; [exact Hf|]. by rewrite (layout_do_ui par g _ _ _ E).
Qed.

(** C4: The switcher selects windows that exist. Whatever happens to windows, outputs and the focus
    while it is open, as long as the switcher is open it lists at least one window and none twice,
    all of them in the layout or held, and one of those that match its scope and filter is selected
    unless none matches. Confirming closes it and gives the focus to the selected window, provided
    there are outputs, no other window is held and no swipe between workspaces is going on; without
    a selected window it leaves the layout alone. No operation on the switcher panics, nor one on the
    layout under the conditions of [ly_op_pre]: known outputs and windows, and the two on names of
    workspaces. *)
Theorem switcher_selects_windows par g w0 w :
  no_cycle par → mw_start par g w0 → rtc (mw_step par g) w0 w →
  (∀ inner, w.(mw_ui) = UiOpen inner →
     wmru_ok inner.(in_wmru) ∧ inner.(in_wmru).(wm_thumbnails) ≠ [] ∧
     (∀ t, t ∈ inner.(in_wmru).(wm_thumbnails) → th_id t ∈ mw_windows w) ∧
     ∀ env cfg, match inner.(in_wmru).(wm_current_id) with
       | None => ∃ w', run_mw_op par g env cfg (MwAction ActMruConfirm) w = Some w' ∧
           w'.(mw_ml) = w.(mw_ml) ∧ ui_is_open w'.(mw_ui) = false
       | Some id =>
           ly_monitors w.(mw_ml).(ml_layout) ≠ [] → Forall no_swipe (ly_monitors w.(mw_ml).(ml_layout)) →
           may_focus w id →
           ∃ w', run_mw_op par g env cfg (MwAction ActMruConfirm) w = Some w' ∧
             ml_focus w'.(mw_ml) = Some (Some id) ∧ ui_is_open w'.(mw_ui) = false
       end) ∧
  ∀ env cfg op, view_ok env → mw_op_pre par w op → ∃ w', run_mw_op par g env cfg op w = Some w'.
Proof.
  intros Hc Hs H. pose proof (mw_steps_ok par Hc g _ _ H (mw_start_ok par Hc g _ Hs)) as Hok. split.
  - intros inner Ei. pose proof Hok as [_ Hui]. rewrite Ei in Hui. destruct Hui as [H1 H2 H3]. split_and!; [done..|].
    intros env cfg. destruct (wm_current_id (in_wmru inner)) as [id|] eqn:Ec.
    + intros. by eapply confirm_focuses.
    + cbn [run_mw_op do_mru_action]. unfold confirm_mru, close_mru. rewrite Ei. cbn [ui_close]. rewrite Ec. cbn.
      eexists. split_and!; [done|done|]. cbn. by case_match.
  - intros env cfg op Hv Hpre. destruct (run_mw_op_runs par Hc g env Hv cfg op w Hok Hpre) as (w' & E & _). by exists w'.
Qed.

(** ** Walking through the windows *)
Fixpoint run_times (par : N → option N) (g : Placement) (env : ViewEnv) (cfg : MruConfig) (op : MwOp) (k : nat)
    (w : MruWorld) : option MruWorld :=
  match k with O => Some w | S k => w ← run_mw_op par g env cfg op w; run_times par g env cfg op k w end.

Definition press_forward : MwOp := MwAction (ActMruAdvance MruForward None None).

Lemma run_forward par g env cfg w inner i k :
  w.(mw_ui) = UiOpen inner → wmru_ok inner.(in_wmru) → current_at inner.(in_wmru) i →
  ∃ w', run_times par g env cfg press_forward k w = Some w' ∧
    current_window_id w'.(mw_ui) = visible_ids inner.(in_wmru) !! ((i + k) mod length (visible_ids inner.(in_wmru))).
Proof.
  revert w inner i. induction k as [|k IH]; intros w inner i Eui Hok Hat; cbn [run_times].
  - exists w. split; [done|]. rewrite Eui. cbn. rewrite (current_at_in _ _ Hat), Nat.add_0_r.
    destruct Hat as (id & _ & Hi). by rewrite Nat.mod_small by by eapply lookup_lt_Some.
  - cbn [run_mw_op press_forward do_mru_action]. rewrite Eui. cbn [ui_is_open].
    destruct (forward_at _ i Hok Hat) as (wm' & E & Hs & Hok' & Hat'). unfold with_ui. rewrite Eui.
    cbn [ui_advance when_open set_in_freeze in_wmru mbind option_bind]. change (in_wmru (set_in_freeze false inner)) with (in_wmru inner).
    rewrite E. cbn [mbind option_bind].
    set (inner' := set_in_wmru wm' (set_in_freeze false inner)).
    destruct (IH (set_mw_ui (UiOpen inner') w) inner' _ eq_refl Hok' Hat') as (w' & E' & Hw'). exists w'. split; [exact E'|]. rewrite Hw'.
    change (in_wmru inner') with wm'. rewrite (same_list_ids _ _ Hs), Nat.Div0.add_mod_idemp_l. f_equal. f_equal. lia.
Qed.

(** C29: The switcher goes through the windows in the order in which they had the focus. When it is
    opened it lists exactly the windows in the workspaces, the most recently focused first. Of those that
    match its scope and its filter, which is the application of the first of them, it selects the
    second one when going forward, or the first one if nothing has the focus, and the last one when
    going backward; every further step forward selects the next one, around the end to the first.
    Without outputs or windows it does not open. *)
Theorem switcher_follows_focus_order par g env cfg w0 w direction scope filter :
  no_cycle par → mw_start par g w0 → rtc (mw_step par g) w0 w → cfg.(mc_on) = true → ui_is_open w.(mw_ui) = false →
  ∃ w1, run_mw_op par g env cfg (MwAction (ActMruAdvance direction scope filter)) w = Some w1 ∧
    if bool_decide (ly_monitors w.(mw_ml).(ml_layout) = [] ∨ ly_windows w.(mw_ml).(ml_layout) = [])
    then ui_is_open w1.(mw_ui) = false
    else ∃ inner, w1.(mw_ui) = UiOpen inner ∧ opened cfg direction scope filter w inner ∧
      let ids := visible_ids inner.(in_wmru) in
      ∀ focus, ml_focus w.(mw_ml) = Some focus → ids ≠ [] → ∀ k, ∃ w', run_times par g env cfg press_forward k w1 = Some w' ∧
        current_window_id w'.(mw_ui) = ids !! ((start_at direction (bool_decide (is_Some focus)) (length ids) + k) mod length ids).
Proof.
  intros Hc Hs H Hon Hclosed. pose proof (mw_steps_ok par Hc g _ _ H (mw_start_ok par Hc g _ Hs)) as Hok.
  destruct (mru_open_runs par cfg direction scope filter w Hok Hclosed) as (w1 & E & Hok1 & _ & Hw1).
  exists w1. split. { cbn. by rewrite Hclosed, Hon. }
  destruct (bool_decide _).
  { subst w1. by destruct (commit_same w) as [_ ->]. }
  destruct Hw1 as (inner & Eui & Hop). exists inner. split_and!; [done|done|]. cbn. intros focus Ef Hne k.
  destruct Hop as (_ & _ & _ & (focus' & Ef' & Hcur) & _). rewrite Ef in Ef'. injection Ef' as <-.
  destruct Hok1 as [_ Hui]. rewrite Eui in Hui. destruct Hui as [Hwm _ _].
  eapply run_forward; [done|done|].
  assert (Hlt : start_at direction (bool_decide (is_Some focus)) (length (visible_ids (in_wmru inner))) < length (visible_ids (in_wmru inner))).
  { destruct (visible_ids (in_wmru inner)) as [|x l]; [done|]. destruct direction; cbn [start_at]; [|cbn; lia].
    destruct (bool_decide _); [|cbn; lia]. apply Nat.mod_upper_bound. done. }
  apply lookup_lt_is_Some_2 in Hlt as [id Hid]. exists id. by rewrite Hcur.
Qed.

(** ** Focus times *)
Definition focus_time (w : MruWorld) (id : N) : option N := (window_info w id).(wi_timestamp).

(** The window whose focus time is pending is not the one being moved. *)
Definition commit_in_place (w : MruWorld) : Prop :=
  ∀ p, w.(mw_pending) = Some p → pc_id p ∈ mw_windows w → pc_id p ∈ ly_windows w.(mw_ml).(ml_layout).

Definition may_commit (op : MwOp) : Prop := match op with MwCommit | MwTimer _ | MwAction _ => True | _ => False end.

(** The window that got the keyboard focus last and when. *)
Definition last_focus (op : MwOp) (w : MruWorld) (f : option (N * N)) : option (N * N) :=
  match op with
  | MwFocused id => if bool_decide (id ∈ mw_windows w) then Some (id, w.(mw_now)) else f
  | MwRemoveWindow id => if bool_decide (fst <$> f = Some id) then None else f
  | _ => f
  end.

(** Steps in which no focus time is applied while its window is being moved, and the id of a window
    whose time is pending is not used again. *)
Inductive focus_step (par : N → option N) (g : Placement) (cfg : MruConfig) :
    option (N * N) * MruWorld → option (N * N) * MruWorld → Prop :=
| focus_step_intro env op f w w' :
    view_ok env → mw_op_pre par w op → (may_commit op → commit_in_place w) →
    (∀ lop id app p, op = MwAddWindow lop id app → w.(mw_pending) = Some p → pc_id p ≠ id) →
    run_mw_op par g env cfg op w = Some w' → focus_step par g cfg (f, w) (last_focus op w f, w').

(** No time is later than the last focus, whose time is known or pending. *)
Record focus_inv (cfg : MruConfig) (f : option (N * N)) (w : MruWorld) : Prop := {
  fi_times x t : focus_time w x = Some t → (t ≤ w.(mw_now))%N;
  fi_pending p : w.(mw_pending) = Some p →
    (p.(pc_stamp) ≤ w.(mw_now))%N ∧ cfg.(mc_debounce) ≠ 0%N ∧ (pc_id p ∈ mw_windows w → focus_time w (pc_id p) ≠ None);
  fi_focus id s : f = Some (id, s) →
    id ∈ mw_windows w ∧ (s ≤ w.(mw_now))%N ∧ (∀ x t, focus_time w x = Some t → (t ≤ s)%N) ∧
    (∀ p, w.(mw_pending) = Some p → (p.(pc_stamp) ≤ s)%N ∧ (pc_id p = id → pc_stamp p = s)) ∧
    (focus_time w id = Some s ∨ ∃ p, w.(mw_pending) = Some p ∧ pc_id p = id)
}.

Record same_times (w w' : MruWorld) : Prop := {
  sa_info : w'.(mw_info) = w.(mw_info);
  sa_pending : w'.(mw_pending) = w.(mw_pending);
  sa_now : w'.(mw_now) = w.(mw_now);
  sa_windows x : x ∈ mw_windows w' ↔ x ∈ mw_windows w
}.

Lemma same_times_refl w : same_times w w.
Proof. by split. Qed.

Lemma same_times_trans w1 w2 w3 : same_times w1 w2 → same_times w2 w3 → same_times w1 w3.
Proof. intros [] []. split; [congruence|congruence|congruence|]. intros x. naive_solver. Qed.

Lemma same_times_ui w ui : same_times w (set_mw_ui ui w).
Proof. by split. Qed.

Lemma same_times_inv cfg f w w' : same_times w w' → focus_inv cfg f w → focus_inv cfg f w'.
Proof.
  intros [E1 E2 E3 E4] [H1 H2 H3]. assert (Et : ∀ x, focus_time w' x = focus_time w x).
  { intros x. unfold focus_time, window_info. by rewrite E1. }
  split.
  - intros x t. rewrite Et, E3. apply H1.
  - intros p. rewrite E2, E3, E4, Et. apply H2.
  - intros id s Ef. rewrite E3, E4, Et, E2. destruct (H3 id s Ef) as (?&?&?&?&?). split_and!; try done.
    intros x t. rewrite Et. eauto.
Qed.

Lemma focus_time_set id s w x :
  focus_time (set_focus_timestamp id s w) x = if decide (x = id) then Some s else focus_time w x.
Proof.
  unfold focus_time, set_focus_timestamp, window_info. cbn. destruct (decide (x = id)) as [->|Hne].
  - by rewrite lookup_insert_eq.
  - by rewrite lookup_insert_ne.
Qed.

(** The pending time is applied. *)
Lemma commit_inv cfg f w :
  focus_inv cfg f w → commit_in_place w →
  focus_inv cfg f (mru_apply_keyboard_commit w) ∧
  ∀ id s, f = Some (id, s) → focus_time (mru_apply_keyboard_commit w) id = Some s.
Proof.
  intros Hinv Hplace. pose proof Hinv as [H1 H2 H3]. unfold mru_apply_keyboard_commit.
  destruct (mw_pending w) as [p|] eqn:Ep.
  2: { split; [done|]. intros id s Ef. destruct (H3 id s Ef) as (_&_&_&_&[?|(p&?&_)]); congruence. }
  cbn [set_mw_pending remove_timer mw_ml]. set (w1 := remove_timer _ _).
  destruct (H2 p eq_refl) as (Hs & Hd & Hts).
  assert (Et : ∀ x, focus_time w1 x = focus_time w x) by done.
  destruct (bool_decide (pc_id p ∈ ly_windows (ml_layout (mw_ml w1)))) eqn:Eb.
  - assert (Htimes : ∀ bound, (pc_stamp p ≤ bound)%N → (∀ x t, focus_time w x = Some t → (t ≤ bound)%N) →
      ∀ x t, focus_time (set_focus_timestamp (pc_id p) (pc_stamp p) w1) x = Some t → (t ≤ bound)%N).
    { intros bound Hb Hall x t. rewrite focus_time_set. destruct (decide _); [by intros [= <-]|apply Hall]. }
    assert (Hf : ∀ id s, f = Some (id, s) → focus_time (set_focus_timestamp (pc_id p) (pc_stamp p) w1) id = Some s).
    { intros id s Ef. destruct (H3 id s Ef) as (_&_&_&Hp&Hor). destruct (Hp p eq_refl) as [_ Hid]. rewrite focus_time_set.
      destruct (decide (id = pc_id p)) as [->|Hne]; [by rewrite Hid|]. destruct Hor as [?|(p' & [= <-] & E)]; [done|by destruct Hne]. }
    split; [|done]. split.
    + intros x t. by apply Htimes.
    + done.
    + intros id s Ef. destruct (H3 id s Ef) as (Hin&Hle&Hall&Hp&_). split_and!; [done|done| |done|left; by apply Hf].
      apply Htimes; [by apply Hp|done].
  - assert (Hout : pc_id p ∉ mw_windows w).
    { intros Hin. apply bool_decide_eq_false in Eb. apply Eb. by apply (Hplace p Ep). }
    assert (Hf : ∀ id s, f = Some (id, s) → focus_time w1 id = Some s).
    { intros id s Ef. destruct (H3 id s Ef) as (Hin&_&_&_&[?|(p' & [= <-] & <-)]); done. }
    split; [|done]. split; [done|done|]. intros id s Ef. destruct (H3 id s Ef) as (Hin&Hle&Hall&_&_). split_and!; auto. done.
Qed.

(** A window gets the focus. *)
Lemma focused_inv cfg f w id :
  focus_inv cfg f w → focus_inv cfg (last_focus (MwFocused id) w f) (window_focused cfg id w).
Proof.
  intros Hinv. pose proof Hinv as [H1 H2 H3]. cbn. unfold window_focused. change (ml_windows (mw_ml w)) with (mw_windows w).
  destruct (bool_decide (id ∈ mw_windows w)) eqn:Ein; [|done]. apply bool_decide_eq_true in Ein. cbv zeta.
  fold (focus_time w id). destruct (bool_decide (focus_time w id = None) || N.eqb (mc_debounce cfg) 0) eqn:Eb.
  - assert (Hp : ∀ p, mw_pending w = Some p → pc_id p ≠ id).
    { intros p Ep E. destruct (H2 p Ep) as (_ & Hd & Hts). rewrite E in Hts. apply orb_prop in Eb as [Eb%bool_decide_eq_true|Eb%N.eqb_eq]; [|done].
      by apply Hts. }
    assert (Htimes : ∀ x t, focus_time (set_focus_timestamp id (mw_now w) w) x = Some t → (t ≤ mw_now w)%N).
    { intros x t. rewrite focus_time_set. destruct (decide _); [by intros [= <-]|apply H1]. }
    split; [done| |].
    + intros p Ep. destruct (H2 p Ep) as (? & ? & Hts). split_and!; [done|done|]. intros Hin. rewrite focus_time_set.
      destruct (decide _); [done|by apply Hts].
    + intros id' s [= <- <-]. split_and!; [done|cbn; lia|done| |left; rewrite focus_time_set; by rewrite decide_True].
      intros p Ep. destruct (H2 p Ep) as (? & _). split; [done|]. intros E. by destruct (Hp p Ep).
  - apply orb_false_iff in Eb as [Et%bool_decide_eq_false Ed%N.eqb_neq].
    set (w1 := match mw_pending w with Some _ => _ | None => _ end).
    assert (E : mw_info w1 = mw_info w ∧ mw_now w1 = mw_now w ∧ mw_windows w1 = mw_windows w ∧
                mw_pending w1 = Some (MkPendingCommit id (mw_token w) (mw_now w))) by (unfold w1; by destruct (mw_pending w)).
    destruct E as (E1 & E2 & E3 & E4). assert (Eft : ∀ x, focus_time w1 x = focus_time w x) by (intros x; unfold focus_time, window_info; by rewrite E1).
    split.
    + intros x t. rewrite Eft, E2. apply H1.
    + intros p. rewrite E4, E2, E3, Eft. intros [= <-]. cbn. split_and!; [lia|done|done].
    + intros id' s [= <- <-]. rewrite E2, E3, E4. split_and!; [done|lia| | |right; by eexists].
      * intros x t. rewrite Eft. apply H1.
      * intros p [= <-]. cbn. split; [lia|done].
Qed.

Section focus_steps.
  Context (par : N → option N) (Hcycle : no_cycle par) (g : Placement) (cfg : MruConfig).

Lemma runs_at {A} (o : option A) (P : A → Prop) a : runs o P → o = Some a → P a.
Proof. by intros (a' & -> & H) [= <-]. Qed.

Lemma mw_windows_NoDup w : mw_ok par w → NoDup (mw_windows w).
Proof.
  intros [[Hl Hh] _]. pose proof (layout_windows_NoDup par _ _ Hl) as Hnd. unfold mw_windows, ml_windows, held, held_ok in *.
  destruct (ml_move (mw_ml w)) as [[]|]; cbn; [done| |done]. destruct Hh as (Hn & _). by apply NoDup_cons.
Qed.

Section env.
  Context (env : ViewEnv) (Henv : view_ok env).

(** An operation of the layout changes no focus time. *)
Lemma layout_times_runs op w :
  mw_ok par w → ml_op_pre par w.(mw_ids) w.(mw_ml) op → mw_room w →
  runs (layout_do par g op w) (λ w', w'.(mw_info) = w.(mw_info) ∧ w'.(mw_pending) = w.(mw_pending) ∧ w'.(mw_now) = w.(mw_now) ∧
    (keeps_windows op → mw_windows w' ≡ₚ ml_added op ++ mw_windows w) ∧ w'.(mw_ui) = w.(mw_ui)).
Proof.
  intros Hok Hpre Hr. destruct (layout_do_runs par Hcycle g op w Hok Hpre Hr) as (w' & E & _ & Eui & removed & c' & Erun & Hw).
  rewrite E. apply runs_ret. unfold layout_do in E. destruct (run_ml_op par g (mw_ml w) op (mw_ids w)) as [[[ml r] c]|] eqn:Er; [|done].
  cbn in E. injection E as <-. split_and!; [done|done|done| |done]. intros Hk. injection Erun as <- _.
  pose proof (run_ml_op_keeps par g _ op Hk _ _ _ Er) as Hn. cbn in Hn. by subst r.
Qed.

Lemma layout_same_runs op w :
  mw_ok par w → keeps_windows op → ml_added op = [] → ml_op_pre par w.(mw_ids) w.(mw_ml) op → mw_room w →
  runs (layout_do par g op w) (same_times w).
Proof.
  intros Hok Hk Ha Hpre Hr. eapply runs_weaken; [by apply layout_times_runs|]. intros w' (E1 & E2 & E3 & Hw & _).
  split; [done..|]. intros x. specialize (Hw Hk). rewrite Ha in Hw. cbn in Hw. by rewrite Hw.
Qed.

Lemma focus_same_runs id w : mw_ok par w → mw_room w → runs (mw_focus_window par g env id w) (same_times w).
Proof. intros Hok Hr. by apply layout_same_runs. Qed.

Lemma close_mru_same request w : same_times w (close_mru request w).1.
Proof. unfold close_mru. destruct (ui_close _ _ _). apply same_times_ui. Qed.

Lemma cancel_same w : same_times w (cancel_mru w).
Proof. apply close_mru_same. Qed.

Lemma confirm_same_runs w : mw_ok par w → mw_room w → runs (confirm_mru par g env w) (same_times w).
Proof.
  intros Hok Hr. unfold confirm_mru. pose proof (close_mru_same MruRequestConfirm w) as Hs.
  destruct (close_mru_ok par MruRequestConfirm w Hok Hr) as [H1 H2]. destruct (close_mru _ w) as [w1 [id|]]; cbn in *; [|by apply runs_ret].
  eapply runs_weaken; [by apply focus_same_runs|]. intros w2. by apply same_times_trans.
Qed.

Lemma with_ui_same f w w' : with_ui f w = Some w' → same_times w w'.
Proof. unfold with_ui. destruct (f (mw_ui w)); [|done]. cbn. intros [= <-]. apply same_times_ui. Qed.

(** Opening the switcher applies the pending time. *)
Lemma mru_open_times direction scope filter w w' :
  mru_open cfg direction scope filter w = Some w' → same_times (mru_apply_keyboard_commit w) w'.
Proof.
  unfold mru_open. set (w0 := mru_apply_keyboard_commit w). cbv zeta. destruct (WindowMru_new _ _) as [wm|]; [|done]. cbn [mbind option_bind].
  destruct (wm_thumbnails wm); [intros [= <-]; apply same_times_refl|]. destruct (wm_set_scope _ _) as [[old wm1]|]; [|done]. cbn [mbind option_bind].
  destruct (match filter with Some _ => _ | None => _ end) as [wm2|]; [|done]. cbn [mbind option_bind].
  destruct (active_monitor _) as [[[i m]|]|]; [|by intros [= <-]|done]. cbn [mbind option_bind].
  destruct (ml_focus _) as [focus|]; [|done]. cbn [mbind option_bind]. destruct (if _ && _ then _ else _) as [ui|]; [|done].
  cbn [mbind option_bind]. intros [= <-]. apply same_times_ui.
Qed.

Lemma action_inv f action w w' :
  mw_ok par w → mw_room w → focus_inv cfg f w → commit_in_place w →
  do_mru_action par g env cfg action w = Some w' → focus_inv cfg f w'.
Proof.
  intros Hok Hr Hinv Hplace. destruct (commit_inv cfg f w Hinv Hplace) as [Hc _].
  assert (Hsame : ∀ w', same_times w w' → focus_inv cfg f w') by (intros w1 H1; by eapply same_times_inv).
  destruct action; cbn [do_mru_action]; try (intros [= <-]; exact Hinv).
  - unfold focus_window_previous. destruct (ml_focus _) as [current|]; [|done]. cbn [mbind option_bind].
    destruct (latest _ _ _) as [id|]; [|by intros [= <-]]. intros E. eapply same_times_inv; [|exact Hc].
    eapply (runs_at _ _ _ (focus_same_runs id _ (commit_ok par w Hok) _)), E.
    Unshelve. destruct (commit_same w) as [[E1 E2] _]. unfold mw_room. by rewrite E1, E2.
  - destruct (ui_is_open (mw_ui w)); [by intros ?%with_ui_same; apply Hsame|]. destruct (mc_on cfg); [|by intros [= <-]].
    intros E%mru_open_times. by eapply same_times_inv.
  - intros E. apply Hsame. exact (runs_at _ _ _ (confirm_same_runs w Hok Hr) E).
  - intros [= <-]. apply Hsame, cancel_same.
  - by intros ?%with_ui_same; apply Hsame.
  - by intros ?%with_ui_same; apply Hsame.
  - by intros ?%with_ui_same; apply Hsame.
  - by intros ?%with_ui_same; apply Hsame.
Qed.

Lemma click_same here w w' : mw_ok par w → mw_room w → mru_click par g env here w = Some w' → same_times w w'.
Proof.
  intros Hok Hr. unfold mru_click. destruct (ui_is_open _); [|by intros [= <-]; apply same_times_refl].
  destruct here as [under|]; [|intros [= <-]; apply cancel_same].
  pose proof (ui_pointer_ok (mw_windows w) (mw_now w) under (mw_ui w) (proj2 Hok)) as H.
  destruct (ui_pointer_motion _ _ _) as [ui [id|]]; cbn in *.
  - intros E. eapply same_times_trans; [apply (same_times_ui w ui)|].
    refine (runs_at _ _ _ (confirm_same_runs (set_mw_ui ui w) _ _) E); [by apply mw_ok_ui|done].
  - intros [= <-]. eapply same_times_trans; [apply (same_times_ui w ui)|apply cancel_same].
Qed.

(** A window comes, without a focus time. *)
Lemma add_inv f lop id app w w' :
  mw_ok par w → mw_op_pre par w (MwAddWindow lop id app) → (∀ p, w.(mw_pending) = Some p → pc_id p ≠ id) →
  focus_inv cfg f w → mw_add_window par g env lop id app w = Some w' → focus_inv cfg f w'.
Proof.
  intros Hok (Hid & Hpre & Hr) Hp [H1 H2 H3]. unfold mw_add_window.
  destruct (layout_times_runs (MlLayout env lop) w Hok) as (w1 & -> & E1 & E2 & E3 & Hw & _); [by split|done|]. cbn [mbind option_bind].
  intros [= <-]. destruct lop; try done. subst. destruct Hpre as [Hnew _]. specialize (Hw I). cbn in Hw.
  set (w2 := set_mw_info _ w1).
  assert (Et : ∀ x, focus_time w2 x = if decide (x = id) then None else focus_time w x).
  { intros x. unfold focus_time, window_info, w2. cbn. rewrite E1. destruct (decide (x = id)) as [->|Hne]; [by rewrite lookup_insert_eq|by rewrite lookup_insert_ne]. }
  assert (Hin : ∀ x, x ∈ mw_windows w2 ↔ x = id ∨ x ∈ mw_windows w).
  { intros x. change (mw_windows w2) with (mw_windows w1). by rewrite Hw, elem_of_cons. }
  change (mw_windows w) with (ml_windows (mw_ml w)) in *.
  split; cbn [w2 set_mw_info mw_now mw_pending].
  - intros x t. rewrite Et, E3. destruct (decide _); [done|apply H1].
  - intros p Ep. rewrite E2 in Ep. destruct (H2 p Ep) as (?&?&Hts). rewrite E3. split_and!; [done|done|]. rewrite Hin, Et.
    intros [E|?]; [by destruct (Hp p Ep)|]. rewrite decide_False by by apply Hp. by apply Hts.
  - intros id' s Ef. destruct (H3 id' s Ef) as (Hin'&?&Hall&?&?). rewrite E3, E2, Hin, Et. split_and!; [by right|done| |done|].
    + intros x t. rewrite Et. destruct (decide _); [done|apply Hall].
    + rewrite decide_False; [done|]. by intros ->.
Qed.

(** A window goes. *)
Lemma remove_inv f id w w' :
  mw_ok par w → mw_op_pre par w (MwRemoveWindow id) → focus_inv cfg f w →
  mw_remove_window par g env id w = Some w' → focus_inv cfg (last_focus (MwRemoveWindow id) w f) w'.
Proof.
  intros Hok [Hid Hr] [H1 H2 H3]. unfold mw_remove_window. destruct (ui_remove_window _ _ _) as [ui|]; [|done]. cbn [mbind option_bind].
  destruct (layout_remove_runs par Hcycle g env Henv id (set_mw_ui ui w)) as (w1 & E & _ & _ & Hw); [apply Hok|done|done|].
  rewrite E. cbn [mbind option_bind]. intros [= <-].
  assert (Es : mw_info w1 = mw_info w ∧ mw_pending w1 = mw_pending w ∧ mw_now w1 = mw_now w).
  { unfold layout_do in E. destruct (run_ml_op _ _ _ _ _) as [[[ml r] c]|]; [|done]. cbn in E. by injection E as <-. }
  destruct Es as (E1 & E2 & E3). change (mw_windows (set_mw_ui ui w)) with (mw_windows w) in Hw.
  set (w2 := set_mw_info _ w1).
  assert (Et : ∀ x, focus_time w2 x = if decide (x = id) then None else focus_time w x).
  { intros x. unfold focus_time, window_info, w2. cbn. rewrite E1. destruct (decide (x = id)) as [->|Hne]; [by rewrite lookup_delete_eq|by rewrite lookup_delete_ne]. }
  assert (Hin : ∀ x, x ∈ mw_windows w2 ↔ x ∈ mw_windows w ∧ x ≠ id).
  { intros x. change (mw_windows w2) with (mw_windows w1). pose proof (mw_windows_NoDup w Hok) as Hnd. rewrite <- Hw in Hnd |- *.
    apply NoDup_cons in Hnd as [Hn _]. rewrite elem_of_cons. split; [|naive_solver]. intros Hx. split; [by right|]. by intros ->. }
  split; cbn [w2 set_mw_info mw_now mw_pending].
  - intros x t. rewrite Et, E3. destruct (decide _); [done|apply H1].
  - intros p Ep. rewrite E2 in Ep. destruct (H2 p Ep) as (?&?&Hts). rewrite E3. split_and!; [done|done|]. rewrite Hin, Et.
    intros [Hx Hne]. rewrite decide_False by done. by apply Hts.
  - intros id' s. cbn. destruct (bool_decide _) eqn:Eb; [done|]. intros Ef. apply bool_decide_eq_false in Eb.
    assert (Hne : id' ≠ id) by (rewrite Ef in Eb; cbn in Eb; congruence).
    destruct (H3 id' s Ef) as (Hin'&?&Hall&?&?). rewrite E3, E2, Hin, Et, decide_False by done. split_and!; try done.
    intros x t. rewrite Et. destruct (decide _); [done|apply Hall].
Qed.
End env.

Lemma focus_step_inv s s' :
  focus_step par g cfg s s' → mw_ok par s.2 → focus_inv cfg s.1 s.2 → mw_ok par s'.2 ∧ focus_inv cfg s'.1 s'.2.
Proof.
  intros [env op f w w' Hv Hpre Hcommit Hid E] Hok Hinv. cbn [fst snd] in *. split.
  { eapply mw_step_ok; [done| |exact Hok]. by econstructor. }
  assert (Hsame : same_times w w' → focus_inv cfg f w') by (intros Hs; by eapply same_times_inv).
  destruct op; cbn [run_mw_op last_focus] in *.
  - destruct Hpre as (Hk & Ha & _ & Hop & Hr). apply Hsame. exact (runs_at _ _ _ (layout_same_runs op w Hok Hk Ha Hop Hr) E).
  - eapply add_inv; [exact Hv|done|done| |done|exact E]. intros p. by eapply Hid.
  - by eapply remove_inv.
  - destruct Hpre as [Ho Hr]. unfold mw_remove_output in E. destruct (layout_do _ _ _ _) as [w1|] eqn:E1; [|done]. cbn in E.
    apply Hsame. injection E as <-.
    assert (H1 : same_times w w1) by (refine (runs_at _ _ _ (layout_same_runs (MlLayout env (LopRemoveOutput output)) w Hok I eq_refl _ Hr) E1); by split).
    destruct (decide _); [|done]. eapply same_times_trans; [exact H1|apply cancel_same].
  - injection E as <-. by apply (focused_inv cfg f w id).
  - injection E as <-. by apply commit_inv; [|apply Hcommit].
  - injection E as <-. unfold commit_timer_fired. destruct (mw_timers w !! token); [|done].
    eapply same_times_inv; [|apply commit_inv; [exact Hinv|by apply Hcommit]]. by split.
  - eapply action_inv; [exact Hv|done|done|exact Hinv|by apply Hcommit|exact E].
  - injection E as <-. apply Hsame, same_times_ui.
  - apply Hsame. eapply click_same; [exact Hv|done|done|exact E].
  - injection E as <-. apply Hsame, cancel_same.
  - injection E as <-. apply Hsame, same_times_ui.
  - injection E as <-. destruct Hinv as [H1 H2 H3]. split; cbn.
    + intros x t Hx. specialize (H1 x t Hx). lia.
    + intros p Ep. destruct (H2 p Ep) as (?&?&?). split_and!; [lia|done|done].
    + intros id s1 Ef. destruct (H3 id s1 Ef) as (?&?&?&?&?). split_and!; try done. lia.
Qed.

Lemma focus_steps_inv s s' :
  rtc (focus_step par g cfg) s s' → mw_ok par s.2 → focus_inv cfg s.1 s.2 → mw_ok par s'.2 ∧ focus_inv cfg s'.1 s'.2.
Proof.
  induction 1 as [|s1 s2 s3 Hs _ IH]; [done|]. intros Hok Hinv. destruct (focus_step_inv _ _ Hs Hok Hinv). by apply IH.
Qed.

Lemma start_focus_inv ids ml : focus_inv cfg None (mw_new ids ml ∅).
Proof. split; [|done|done]. intros x t. unfold focus_time, window_info. cbn. by rewrite lookup_empty. Qed.
End focus_steps.

Lemma head_most_recent l t t0 :
  StronglySorted (λ a b, more_recent a b = true) l → head l = Some t0 → t ∈ l → more_recent t0 t = true.
Proof.
  intros Hs Hh Ht. destruct l as [|x l]; [done|]. injection Hh as ->. apply StronglySorted_inv in Hs as [_ Hall].
  apply elem_of_cons in Ht as [->|Ht]; [unfold more_recent; destruct (th_timestamp t0); [apply N.leb_refl|done]|].
  rewrite Forall_forall in Hall. by apply Hall.
Qed.

(** C30: The window that has the focus comes first. The debounce time being constant, and no focus
    time being applied while its window is moved with the pointer, the first window that the
    switcher lists when it opens has the time of the last change of the focus; that is the window
    that got the focus then, however short a time ago, if no other window has the same time. *)
Theorem focused_window_comes_first par g cfg ids ml f w id s env direction scope filter w' inner :
  no_cycle par → still_layout par g (ids, ml) → rtc (focus_step par g cfg) (None, mw_new ids ml ∅) (f, w) →
  f = Some (id, s) → id ∈ ly_windows w.(mw_ml).(ml_layout) → commit_in_place w →
  cfg.(mc_on) = true → ui_is_open w.(mw_ui) = false →
  run_mw_op par g env cfg (MwAction (ActMruAdvance direction scope filter)) w = Some w' → w'.(mw_ui) = UiOpen inner →
  ∃ t, head inner.(in_wmru).(wm_thumbnails) = Some t ∧ th_timestamp t = Some s ∧
    ((∀ x, x ≠ id → focus_time (mru_apply_keyboard_commit w) x ≠ Some s) → th_id t = id).
Proof.
  intros Hc Hstill Hsteps -> Hin Hplace Hon Hclosed E Eui.
  destruct (focus_steps_inv par Hc g cfg _ _ Hsteps) as [Hok Hinv]; [|apply start_focus_inv|].
  { apply (mw_start_ok par Hc g). by constructor. }
  cbn in Hok, Hinv. destruct (commit_inv cfg _ w Hinv Hplace) as [Hinv' Ht]. specialize (Ht id s eq_refl).
  destruct (fi_focus _ _ _ Hinv' id s eq_refl) as (_ & _ & Hmax & _).
  cbn [run_mw_op do_mru_action] in E. rewrite Hclosed, Hon in E.
  destruct (mru_open_runs par cfg direction scope filter w Hok Hclosed) as (w1 & E1 & _ & _ & Hw1). rewrite E in E1. injection E1 as <-.
  destruct (bool_decide _).
  { subst w'. destruct (commit_same w) as [_ Eu]. rewrite Eu in Eui. rewrite Eui in Hclosed. done. }
  destruct Hw1 as (inner' & Eui' & Hl & _). rewrite Eui in Eui'. injection Eui' as <-. destruct Hl as [Hperm Hs Hinfo].
  assert (Hin' : id ∈ th_id <$> wm_thumbnails (in_wmru inner)) by by rewrite Hperm.
  apply list_elem_of_fmap in Hin' as (t & Eid & Hin'). destruct (head (wm_thumbnails (in_wmru inner))) as [t0|] eqn:Eh.
  2: { destruct (wm_thumbnails (in_wmru inner)); [by apply elem_of_nil in Hin'|done]. }
  assert (Hin0 : t0 ∈ wm_thumbnails (in_wmru inner)).
  { destruct (wm_thumbnails (in_wmru inner)); [done|]. injection Eh as ->. by left. }
  pose proof (head_most_recent _ t t0 Hs Eh Hin') as Hrec. destruct (Hinfo t Hin') as [Et _]. destruct (Hinfo t0 Hin0) as [Et0 _].
  unfold focus_time in Ht, Hmax. rewrite <- Eid, Ht in Et. unfold more_recent in Hrec. rewrite Et in Hrec.
  destruct (th_timestamp t0) as [s0|] eqn:Es0; [|done]. apply N.leb_le in Hrec. pose proof (Hmax (th_id t0) s0 (eq_sym Et0)).
  assert (s0 = s) as -> by lia. exists t0. split_and!; [done|done|]. intros Huniq.
  destruct (decide (th_id t0 = id)) as [|Hne]; [done|]. by destruct (Huniq _ Hne).
Qed.

(** ** Witnesses *)
Definition sample_cfg : MruConfig := MkMruConfig true 0 750.

(** Focus goes from the first window to the second and back within the debounce time. *)
Definition focus_there_and_back : list MwOp := [MwFocused 1; MwTick 1; MwFocused 2; MwTick 1; MwFocused 1].

Definition sample_focus (fw : option (N * N) * MruWorld) (op : MwOp) : option (N * N) * MruWorld :=
  (last_focus op (snd fw) (fst fw),
   match run_mw_op unparented sample_placement still_env sample_cfg op (snd fw) with Some w => w | None => snd fw end).

Definition plain_op (op : MwOp) : bool := match op with MwFocused _ | MwTick _ => true | _ => false end.

Lemma sample_focus_reaches ops fw :
  forallb plain_op ops = true → rtc (focus_step unparented sample_placement sample_cfg) fw (foldl sample_focus fw ops).
Proof.
  revert fw. induction ops as [|op ops IH]; intros [f w] H; [apply rtc_refl|]. cbn in H. apply andb_prop in H as [Hop H].
  eapply rtc_l; [|by apply IH]. apply (focus_step_intro _ _ _ still_env); [exact still_env_ok| | | |]; by destruct op.
Qed.

Lemma focus_step_mw s s' : focus_step unparented sample_placement sample_cfg s s' → mw_step unparented sample_placement s.2 s'.2.
Proof. intros []. by econstructor. Qed.

Lemma focus_steps_mw s s' :
  rtc (focus_step unparented sample_placement sample_cfg) s s' → rtc (mw_step unparented sample_placement) s.2 s'.2.
Proof. induction 1 as [|s1 s2 s3 Hs _ IH]; [apply rtc_refl|]. eapply rtc_l; [by apply focus_step_mw|done]. Qed.

Definition mw0 : MruWorld := mw_new ml0.1 ml0.2 ∅.
Definition fw1 : option (N * N) * MruWorld := Eval vm_compute in foldl sample_focus (None, mw0) focus_there_and_back.

Lemma mw0_start : mw_start unparented sample_placement mw0.
Proof. constructor. exact ml0_still. Qed.

Lemma fw1_reached : rtc (focus_step unparented sample_placement sample_cfg) (None, mw0) fw1.
Proof.
  replace fw1 with (foldl sample_focus (None, mw0) focus_there_and_back) by (vm_compute; reflexivity).
  by apply sample_focus_reaches.
Qed.

Lemma mw1_reached : rtc (mw_step unparented sample_placement) mw0 fw1.2.
Proof. exact (focus_steps_mw _ _ fw1_reached). Qed.

Definition press (op : MwOp) (w : MruWorld) : MruWorld :=
  match run_mw_op unparented sample_placement still_env sample_cfg op w with Some w => w | None => w end.

Definition mw2 : MruWorld := Eval vm_compute in press press_forward fw1.2.

Lemma mw2_reached : rtc (mw_step unparented sample_placement) mw0 mw2.
Proof.
  eapply rtc_r; [exact mw1_reached|]. apply (mw_step_intro _ _ still_env sample_cfg press_forward);
    [exact still_env_ok|vm_compute; reflexivity|vm_compute; reflexivity].
Qed.

Definition listed_ids (w : MruWorld) : list N :=
  match w.(mw_ui) with UiOpen inner => th_id <$> inner.(in_wmru).(wm_thumbnails) | _ => [] end.

Lemma switcher_selects_windows_witness :
  listed_ids mw2 = [1%N; 2%N] ∧ ml_focus mw2.(mw_ml) = Some (Some 1%N) ∧
  (∃ w', run_mw_op unparented sample_placement still_env sample_cfg (MwAction ActMruConfirm) mw2 = Some w' ∧
     ml_focus w'.(mw_ml) = Some (Some 2%N) ∧ ui_is_open w'.(mw_ui) = false) ∧
  ∃ w', run_mw_op unparented sample_placement still_env sample_cfg (MwRemoveWindow 2) mw2 = Some w'.
Proof.
  destruct (switcher_selects_windows unparented sample_placement mw0 mw2) as [H1 H2].
  - exact unparented_no_cycle.
  - exact mw0_start.
  - exact mw2_reached.
  - split; [vm_compute; reflexivity|]. split; [vm_compute; reflexivity|]. split.
    + destruct (mw_ui mw2) as [inner| |] eqn:E; [|discriminate E|discriminate E].
      destruct (H1 inner eq_refl) as (_ & _ & _ & H). vm_compute in E. injection E as <-.
      apply (H still_env sample_cfg).
      * vm_compute. discriminate.
      * vm_compute ly_monitors. repeat constructor; intros gesture; discriminate.
      * intros data. vm_compute. discriminate.
    + apply H2; [exact still_env_ok|]. split; [|vm_compute; reflexivity].
      vm_compute. first [left|right; left].
Defined.

Lemma switcher_follows_focus_order_witness :
  ∃ w1 inner, run_mw_op unparented sample_placement still_env sample_cfg press_forward fw1.2 = Some w1 ∧ w1.(mw_ui) = UiOpen inner ∧
    visible_ids inner.(in_wmru) = [1%N; 2%N] ∧
    ∃ w', run_times unparented sample_placement still_env sample_cfg press_forward 1 w1 = Some w' ∧
      current_window_id w'.(mw_ui) = Some 1%N.
Proof.
  destruct (switcher_follows_focus_order unparented sample_placement still_env sample_cfg mw0 fw1.2 MruForward None None)
    as (w1 & E & H).
  - exact unparented_no_cycle.
  - exact mw0_start.
  - exact mw1_reached.
  - reflexivity.
  - reflexivity.
  - pose proof E as E'. vm_compute in E'. injection E' as <-. rewrite bool_decide_false in H by (intros [Hx|Hx]; vm_compute in Hx; discriminate Hx).
    destruct H as (inner & Eui & _ & H). injection Eui as <-. eexists _, _. split; [exact E|]. split; [reflexivity|].
    split; [vm_compute; reflexivity|]. destruct (H (Some 1%N)) with (k := 1) as (w' & E1 & E2).
    + vm_compute. reflexivity.
    + vm_compute. discriminate.
    + exists w'. split; [exact E1|]. rewrite E2. vm_compute. reflexivity.
Defined.

Lemma focused_window_comes_first_witness :
  ∃ t, head (match mw2.(mw_ui) with UiOpen inner => inner.(in_wmru).(wm_thumbnails) | _ => [] end) = Some t ∧
    th_timestamp t = Some 2%N ∧
    ((∀ x, x ≠ 1%N → focus_time (mru_apply_keyboard_commit fw1.2) x ≠ Some 2%N) → th_id t = 1%N).
Proof.
  destruct (mw_ui mw2) as [inner| |] eqn:Eui; [|discriminate Eui|discriminate Eui].
  apply (focused_window_comes_first unparented sample_placement sample_cfg ml0.1 ml0.2 (Some (1%N, 2%N)) fw1.2 1 2 still_env MruForward None None mw2 inner).
  - exact unparented_no_cycle.
  - exact ml0_still.
  - exact fw1_reached.
  - reflexivity.
  - vm_compute. left.
  - intros p [= <-] _. vm_compute. left.
  - reflexivity.
  - reflexivity.
  - vm_compute. reflexivity.
  - exact Eui.
Defined.

(** The debounce time passes. *)
Definition debounced : list MwOp := [MwTick 750; MwTimer 0].

(** While it passes, the focused window may be moved with the pointer: then the window that had the
    focus before stays first in the list, although it lost the focus long ago. *)
Example drag_loses_focus_time :
  listed_ids (foldl (λ w op, press op w) fw1.2 (debounced ++ [press_forward])) = [1%N; 2%N] ∧
  listed_ids (foldl (λ w op, press op w) fw1.2
    ([MwLayout begin_op; MwLayout update_op] ++ debounced ++ [MwLayout drop_op; press_forward])) = [2%N; 1%N].
Proof. split; vm_compute; reflexivity. Qed.
