(* ===== verification/A11yKeyboard.v ===== *)
(** * Keyboard grabs of assistive technologies (src/dbus/freedesktop_a11y.rs)

    Clients of the accessibility bus watch keys and grab some of them.  Clients are known by their
    bus name, given as a number; a keysym is its number, and times are in nanoseconds. *)
From stdpp Require Import gmap.
From S2P Require Import Prelude Float64 Duration ConfigBinds Keyboard KeyboardProps.

Local Open Scope N_scope.

(** ** State *)
Record A11yClient := MkA11yClient {
  ac_watched : bool;
  ac_grabbed : bool;
  ac_modifiers : gset N;
  ac_keystrokes : list (N * N)
}.

Definition a11y_client_default : A11yClient := MkA11yClient false false ∅ [].

Record KeyboardMonitor := MkKeyboardMonitor {
  km_clients : gmap N A11yClient;
  km_grabbed_mods : gset N;
  km_last_press_time : gmap N N;
  km_suppressed_keys : gset N
}.

Definition monitor_new : KeyboardMonitor := MkKeyboardMonitor ∅ ∅ ∅ ∅.

Definition set_km_clients v (km : KeyboardMonitor) : KeyboardMonitor :=
  MkKeyboardMonitor v km.(km_grabbed_mods) km.(km_last_press_time) km.(km_suppressed_keys).
Definition set_km_last_press_time v (km : KeyboardMonitor) : KeyboardMonitor :=
  MkKeyboardMonitor km.(km_clients) km.(km_grabbed_mods) v km.(km_suppressed_keys).
Definition set_km_suppressed_keys v (km : KeyboardMonitor) : KeyboardMonitor :=
  MkKeyboardMonitor km.(km_clients) km.(km_grabbed_mods) km.(km_last_press_time) v.

(** ** Requests of clients *)
Definition rebuild_grabbed_mods (km : KeyboardMonitor) : KeyboardMonitor :=
  MkKeyboardMonitor km.(km_clients) (map_fold (λ _ client mods, client.(ac_modifiers) ∪ mods) ∅ km.(km_clients))
    km.(km_last_press_time) km.(km_suppressed_keys).

(** [entry(sender).or_default()]. *)
Definition client_or_default (sender : N) (km : KeyboardMonitor) : A11yClient :=
  default a11y_client_default (km.(km_clients) !! sender).

Definition grab_keyboard (sender : N) (km : KeyboardMonitor) : KeyboardMonitor :=
  let c := client_or_default sender km in
  set_km_clients (<[sender := MkA11yClient c.(ac_watched) true c.(ac_modifiers) c.(ac_keystrokes)]> km.(km_clients)) km.

Definition ungrab_keyboard (sender : N) (km : KeyboardMonitor) : KeyboardMonitor :=
  set_km_clients (alter (λ c, MkA11yClient c.(ac_watched) false c.(ac_modifiers) c.(ac_keystrokes)) sender km.(km_clients)) km.

Definition watch_keyboard (sender : N) (km : KeyboardMonitor) : KeyboardMonitor :=
  let c := client_or_default sender km in
  set_km_clients (<[sender := MkA11yClient true c.(ac_grabbed) c.(ac_modifiers) c.(ac_keystrokes)]> km.(km_clients)) km.

Definition unwatch_keyboard (sender : N) (km : KeyboardMonitor) : KeyboardMonitor :=
  set_km_clients (alter (λ c, MkA11yClient false c.(ac_grabbed) c.(ac_modifiers) c.(ac_keystrokes)) sender km.(km_clients)) km.

Definition set_key_grabs (sender : N) (modifiers : list N) (keystrokes : list (N * N)) (km : KeyboardMonitor) :
    KeyboardMonitor :=
  let c := client_or_default sender km in
  rebuild_grabbed_mods
    (set_km_clients (<[sender := MkA11yClient c.(ac_watched) c.(ac_grabbed) (list_to_set modifiers) keystrokes]>
                       km.(km_clients)) km).

(** A client leaves the bus. *)
Definition client_disappeared (name : N) (km : KeyboardMonitor) : KeyboardMonitor :=
  rebuild_grabbed_mods (set_km_clients (delete name km.(km_clients)) km).

(** The clients can no longer be monitored. *)
Definition monitor_broken (km : KeyboardMonitor) : KeyboardMonitor := rebuild_grabbed_mods (set_km_clients ∅ km).

(** ** Keys *)
Definition should_grab_keypress (client : A11yClient) (suppressed_keys : gset N) (mods keysym : N) : bool :=
  client.(ac_grabbed) ||
  bool_decide (set_Exists (λ modifier, modifier = keysym ∨ modifier ∈ suppressed_keys) client.(ac_modifiers)) ||
  existsb (λ k, (k.1 =? keysym) && (k.2 =? mods)) client.(ac_keystrokes).

Definition should_watch_keypress (client : A11yClient) (suppressed_keys : gset N) (mods keysym : N) : bool :=
  client.(ac_watched) || should_grab_keypress client suppressed_keys mods keysym.

(** The clients that are told of the key. *)
Definition notified (mods keysym : N) (km : KeyboardMonitor) : gset N :=
  dom (filter (λ p, should_watch_keypress p.2 km.(km_suppressed_keys) mods keysym = true) km.(km_clients)).

(** [Duration::saturating_add]. *)
Definition duration_saturating_add (a b : N) : N := N.min (a + b) (duration_end - 1).

Definition grabbed_by_some (mods keysym : N) (km : KeyboardMonitor) : bool :=
  existsb (λ p, should_grab_keypress p.2 km.(km_suppressed_keys) mods keysym) (map_to_list km.(km_clients)).

Definition process_key (repeat_delay time : N) (released : bool) (mods keysym : N) (km : KeyboardMonitor) :
    KeyboardMonitor * KbMonBlock :=
  let is_mod := bool_decide (keysym ∈ km.(km_grabbed_mods)) in
  let is_suppressed := bool_decide (keysym ∈ km.(km_suppressed_keys)) in
  let last_press := default 0 (km.(km_last_press_time) !! keysym) in
  let km1 := if is_mod && negb released
             then set_km_last_press_time (<[keysym := time]> km.(km_last_press_time)) km else km in
  if is_mod && (if released then negb is_suppressed else time <=? duration_saturating_add last_press repeat_delay)
  then (km1, BlockPass)
  else
    let '(km2, block) :=
      if released then
        if is_suppressed
        then (set_km_suppressed_keys (km1.(km_suppressed_keys) ∖ {[keysym]}) km1, true) else (km1, false)
      else if is_suppressed then (km1, true)
      else if grabbed_by_some mods keysym km1
      then (set_km_suppressed_keys ({[keysym]} ∪ km1.(km_suppressed_keys)) km1, true) else (km1, false) in
    (km2, if negb block then BlockPass else if is_mod then BlockModifierFirstPress else BlockBlock).

(** ** Runs *)
Inductive A11yInput :=
| A11yGrab (sender : N) | A11yUngrab (sender : N) | A11yWatch (sender : N) | A11yUnwatch (sender : N)
| A11ySetKeyGrabs (sender : N) (modifiers : list N) (keystrokes : list (N * N))
| A11yDisappeared (name : N) | A11yBroken
| A11yKey (repeat_delay time : N) (pressed : bool) (mods keysym : N).

(** The new state, and the event of a key that was not blocked. *)
Definition run_a11y (i : A11yInput) (km : KeyboardMonitor) : KeyboardMonitor * list (N * bool) :=
  match i with
  | A11yGrab sender => (grab_keyboard sender km, [])
  | A11yUngrab sender => (ungrab_keyboard sender km, [])
  | A11yWatch sender => (watch_keyboard sender km, [])
  | A11yUnwatch sender => (unwatch_keyboard sender km, [])
  | A11ySetKeyGrabs sender modifiers keystrokes => (set_key_grabs sender modifiers keystrokes km, [])
  | A11yDisappeared name => (client_disappeared name km, [])
  | A11yBroken => (monitor_broken km, [])
  | A11yKey repeat_delay time pressed mods keysym =>
      let '(km, block) := process_key repeat_delay time (negb pressed) mods keysym km in
      (km, if decide (block = BlockPass) then [(keysym, pressed)] else [])
  end.

Definition a11y_physical (i : A11yInput) : list (N * bool) :=
  match i with A11yKey _ _ pressed _ keysym => [(keysym, pressed)] | _ => [] end.

Fixpoint run_a11ys (ins : list A11yInput) (km : KeyboardMonitor) : KeyboardMonitor * list (N * bool) :=
  match ins with
  | [] => (km, [])
  | i :: ins =>
      let '(km, passed) := run_a11y i km in
      let '(km, passed') := run_a11ys ins km in
      (km, passed ++ passed')
  end.

(** ** Properties *)

(** What a key does to the keys that are suppressed. *)
Lemma process_key_step repeat_delay time released mods keysym km km' block :
  process_key repeat_delay time released mods keysym km = (km', block) →
  if released then
    (block = BlockPass ↔ keysym ∉ km.(km_suppressed_keys)) ∧
    km'.(km_suppressed_keys) = km.(km_suppressed_keys) ∖ {[keysym]}
  else
    keysym ∉ km.(km_suppressed_keys) →
    km'.(km_suppressed_keys) =
      if decide (block = BlockPass) then km.(km_suppressed_keys) else {[keysym]} ∪ km.(km_suppressed_keys).
Proof.
  unfold process_key. cbv zeta. set (km1 := if _ && negb released then _ else km).
  assert (E1 : km1.(km_suppressed_keys) = km.(km_suppressed_keys)) by (unfold km1; by destruct (_ && negb released)).
  clearbody km1. destruct released.
  - destruct (bool_decide_reflect (keysym ∈ km.(km_suppressed_keys))) as [Hs|Hs]; cbn [negb]; rewrite ?andb_false_r, ?andb_true_r.
    + intros [= <- <-]. cbn. rewrite E1. split; [|done]. destruct (bool_decide _); by split.
    + destruct (bool_decide _); intros [= <- <-]; rewrite E1; (split; [done|set_solver]).
  - destruct (bool_decide (keysym ∈ km_grabbed_mods km) && _).
    { intros [= <- <-] _. by rewrite decide_True. }
    intros H Hs. rewrite bool_decide_eq_false_2 in H by done. destruct (grabbed_by_some _ _ _); injection H as <- <-; cbn.
    + rewrite E1, decide_False; [done|]. by destruct (bool_decide _).
    + by rewrite decide_True.
Qed.

Lemma rebuild_suppressed km : (rebuild_grabbed_mods km).(km_suppressed_keys) = km.(km_suppressed_keys).
Proof. done. Qed.

Lemma run_a11y_held i km down down' :
  km.(km_suppressed_keys) ⊆ down → keys_held down (a11y_physical i) = Some down' →
  (run_a11y i km).1.(km_suppressed_keys) ⊆ down' ∧
  keys_held (down ∖ km.(km_suppressed_keys)) (run_a11y i km).2 = Some (down' ∖ (run_a11y i km).1.(km_suppressed_keys)).
Proof.
  intros Hsub Hd. destruct i as [s|s|s|s|s ms ks|s| |delay time pressed mods keysym];
    try (injection Hd as <-; by split). cbn [run_a11y a11y_physical keys_held mbind option_bind] in *.
  destruct (process_key delay time (negb pressed) mods keysym km) as [km' block] eqn:E. cbn [fst snd].
  apply process_key_step in E. unfold press_release in Hd. cbn [fst snd] in Hd.
  destruct pressed; cbn [negb] in E; destruct (decide (keysym ∈ down)) as [Hin|Hin]; try done; injection Hd as <-.
  - rewrite E by set_solver. case_decide; cbn [keys_held mbind option_bind].
    + unfold press_release. cbn [fst snd]. rewrite decide_False by set_solver. split; [set_solver|]. cbn. f_equal. set_solver.
    + split; [set_solver|]. f_equal. set_solver.
  - destruct E as [Hb ->]. split; [set_solver|]. case_decide as Hp; cbn [keys_held mbind option_bind].
    + unfold press_release. cbn [fst snd]. rewrite decide_True by set_solver. cbn. f_equal. set_solver.
    + f_equal. assert (keysym ∈ km.(km_suppressed_keys)) by (apply dec_stable; tauto). set_solver.
Qed.

Lemma run_a11ys_held ins km down down' :
  km.(km_suppressed_keys) ⊆ down → keys_held down (ins ≫= a11y_physical) = Some down' →
  keys_held (down ∖ km.(km_suppressed_keys)) (run_a11ys ins km).2 = Some (down' ∖ (run_a11ys ins km).1.(km_suppressed_keys)).
Proof.
  revert km down. induction ins as [|i ins IH]; intros km down Hsub Hd; cbn [run_a11ys]; [by injection Hd as <-|].
  rewrite bind_cons, keys_held_app in Hd. destruct (keys_held down (a11y_physical i)) as [down1|] eqn:E; [|done].
  cbn [mbind option_bind] in Hd. destruct (run_a11y_held i km down down1 Hsub E) as [H1 H2].
  destruct (run_a11y i km) as [km1 p1]. cbn [fst snd] in *. specialize (IH km1 down1 H1 Hd).
  destruct (run_a11ys ins km1) as [km2 p2]. cbn [fst snd] in *. by rewrite keys_held_app, H2.
Qed.

(** C40: grabbed keys are blocked in pairs. Whatever clients watch and grab meanwhile, and when a
    grabbed modifier is pressed twice in a row: if keysyms are pressed and released in turn, so are
    those that are not blocked, and every keysym that is held is either passed on or suppressed. *)
Theorem grabs_block_in_pairs ins down :
  keys_held ∅ (ins ≫= a11y_physical) = Some down →
  keys_held ∅ (run_a11ys ins monitor_new).2 = Some (down ∖ (run_a11ys ins monitor_new).1.(km_suppressed_keys)).
Proof.
  intros Hd. assert (Hs : monitor_new.(km_suppressed_keys) ⊆ ∅) by done.
  rewrite <- (run_a11ys_held ins monitor_new ∅ down Hs Hd). f_equal.
Qed.

(** A screen reader grabs Insert; it is pressed twice in a row. *)
Definition sample_a11y : list A11yInput :=
  [A11ySetKeyGrabs 1 [65379] []; A11yKey 600 5000 true 0 65379; A11yKey 600 5100 false 0 65379;
   A11yKey 600 5200 true 0 65379; A11yKey 600 5300 false 0 65379].

Lemma grabs_block_in_pairs_witness :
  (run_a11ys sample_a11y monitor_new).2 = [(65379, true); (65379, false)] ∧
  keys_held ∅ (run_a11ys sample_a11y monitor_new).2 = Some (∅ ∖ (run_a11ys sample_a11y monitor_new).1.(km_suppressed_keys)).
Proof. split; [vm_compute; reflexivity|]. apply (grabs_block_in_pairs sample_a11y ∅). vm_compute. reflexivity. Defined.

(** Keys are suppressed by keysym, and the keysym of a key depends on the modifiers.  Shift+A is
    grabbed and Shift is released before A: the press (of "A") is blocked but the release (of "a")
    is not, and from then on every "A" is blocked, even after the client has left the bus. *)
Definition shift_released_first : list A11yInput :=
  [A11ySetKeyGrabs 1 [] [(65, 1)]; A11yKey 600 5000 true 0 65505; A11yKey 600 5100 true 1 65;
   A11yKey 600 5200 false 1 65505; A11yKey 600 5300 false 0 97; A11yDisappeared 1; A11yKey 600 9000 true 1 65].

Theorem shifted_grab_is_stuck :
  (run_a11ys shift_released_first monitor_new).2 = [(65505, true); (65505, false); (97, false)].
Proof. vm_compute. reflexivity. Qed.
