(* ===== verification/Region.v ===== *)
(** * Regions (src/utils/region.rs)

    A Wayland region is a list of rectangles that are added and subtracted in turn; it is turned
    into rectangles that do not overlap.  [Rectangle::from_extremities] of Smithay, which makes a
    rectangle of two corners, is a parameter; it is known to give the rectangle between them when
    its sides fit into an [i32].  [None] is a panic of checked [i32] arithmetic or of an index. *)
From stdpp Require Import sorting.
From S2P Require Import Prelude.

Local Open Scope Z_scope.

(** ** Checked [i32] arithmetic *)
Definition i32_ok (z : Z) : Prop := - 2 ^ 31 ≤ z < 2 ^ 31.
#[export] Instance i32_ok_dec z : Decision (i32_ok z).
Proof. unfold i32_ok. apply _. Defined.

Definition i32_add (a b : Z) : option Z := if decide (i32_ok (a + b)) then Some (a + b) else None.

(** ** Data *)
Inductive RectangleKind := KindAdd | KindSubtract.

Record Rect := MkRect { re_x : Z; re_y : Z; re_w : Z; re_h : Z }.

(** [RegionAttributes]. *)
Definition RegionAttributes : Type := list (RectangleKind * Rect).

(** ** The unique Y coordinates, in order *)
Fixpoint btree_insert (z : Z) (l : list Z) : list Z :=
  match l with
  | [] => [z]
  | y :: l' => if z <? y then z :: l else if z =? y then l else y :: btree_insert z l'
  end.

Fixpoint y_coordinates (region : RegionAttributes) : option (list Z) :=
  match region with
  | [] => Some []
  | (_, r) :: region =>
      y2 ← i32_add r.(re_y) r.(re_h);
      ys ← y_coordinates region;
      Some (btree_insert r.(re_y) (btree_insert y2 ys))
  end.

(** ** Spans

    Both loops go through the spans backwards; [i] is how many are left. *)
Abbreviation Span := (Z * Z)%type (only parsing).

Fixpoint add_span (i : nat) (spans : list Span) (x1 x2 : Z) : option (list Span) :=
  match i with
  | O => vec_insert 0 (x1, x2) spans
  | S i =>
      '(start, end_) ← spans !! i;
      if end_ <? x1 then vec_insert (i + 1) (x1, x2) spans
      else if x2 <? start then add_span i spans x1 x2
      else '(_, spans) ← vec_remove i spans; add_span i spans (Z.min x1 start) (Z.max x2 end_)
  end.

Fixpoint subtract_span (i : nat) (spans : list Span) (x1 x2 : Z) : option (list Span) :=
  match i with
  | O => Some spans
  | S i =>
      '(start, end_) ← spans !! i;
      if end_ <=? x1 then Some spans
      else if x2 <=? start then subtract_span i spans x1 x2
      else
        '(_, spans) ← vec_remove i spans;
        spans ← (if x2 <? end_ then vec_insert i (x2, end_) spans else Some spans);
        spans ← (if start <? x1 then vec_insert i (start, x1) spans else Some spans);
        subtract_span i spans x1 x2
  end.

(** One rectangle within the band from [lo] to [hi]. *)
Definition band_rect (lo hi : Z) (k : RectangleKind) (r : Rect) (spans : list Span) : option (list Span) :=
  y2 ← i32_add r.(re_y) r.(re_h);
  if (hi <=? r.(re_y)) || (y2 <=? lo) then Some spans
  else
    x2 ← i32_add r.(re_x) r.(re_w);
    if r.(re_x) =? x2 then Some spans
    else match k with
         | KindAdd => add_span (length spans) spans r.(re_x) x2
         | KindSubtract => subtract_span (length spans) spans r.(re_x) x2
         end.

Definition band_spans (lo hi : Z) (region : RegionAttributes) : option (list Span) :=
  foldl (λ spans p, spans ← spans; band_rect lo hi p.1 p.2 spans) (Some []) region.

Section output.
  Context (from_extremities : Z * Z → Z * Z → option Rect).

Fixpoint bands (region : RegionAttributes) (lo : Z) (ys : list Z) : option (list Rect) :=
  match ys with
  | [] => Some []
  | hi :: ys =>
      spans ← band_spans lo hi region;
      rects ← mapM (λ s, from_extremities (s.1, lo) (s.2, hi)) spans;
      output ← bands region hi ys;
      Some (rects ++ output)
  end.

Definition region_to_non_overlapping_rects (region : RegionAttributes) : option (list Rect) :=
  ys ← y_coordinates region;
  match ys with
  | [] => Some []
  | lo :: ys => bands region lo ys
  end.

End output.

(** The rectangle between two corners, when its sides fit. *)
Definition makes_rects (from_extremities : Z * Z → Z * Z → option Rect) : Prop :=
  ∀ x1 y1 x2 y2, i32_ok x1 → i32_ok y1 → i32_ok x2 → i32_ok y2 → 0 ≤ x2 - x1 → i32_ok (x2 - x1) → 0 ≤ y2 - y1 → i32_ok (y2 - y1) →
    from_extremities (x1, y1) (x2, y2) = Some (MkRect x1 y1 (x2 - x1) (y2 - y1)).

(** ** What a region is *)
Definition in_rect (r : Rect) (x y : Z) : bool :=
  (r.(re_x) <=? x) && (x <? r.(re_x) + r.(re_w)) && (r.(re_y) <=? y) && (y <? r.(re_y) + r.(re_h)).

(** The last rectangle that has the point decides. *)
Definition region_contains (region : RegionAttributes) (x y : Z) : bool :=
  foldl (λ inside p, match p.1 with
                     | KindAdd => inside || in_rect p.2 x y
                     | KindSubtract => inside && negb (in_rect p.2 x y)
                     end) false region.

(** Sizes are not negative, and the corners are [i32]s. *)
Definition rect_ok (r : Rect) : Prop :=
  0 ≤ r.(re_w) ∧ 0 ≤ r.(re_h) ∧ i32_ok r.(re_x) ∧ i32_ok r.(re_y) ∧
  i32_ok (r.(re_x) + r.(re_w)) ∧ i32_ok (r.(re_y) + r.(re_h)).

(** No two edges are further apart than an [i32] can tell. *)
Definition fits_i32 (a b : Rect) : Prop :=
  b.(re_x) + b.(re_w) - a.(re_x) < 2 ^ 31 ∧ b.(re_y) + b.(re_h) - a.(re_y) < 2 ^ 31.

Definition region_ok (region : RegionAttributes) : Prop :=
  Forall (λ p, rect_ok p.2) region ∧ ∀ p q, p ∈ region → q ∈ region → fits_i32 p.2 q.2.

(** ** Coordinates *)
Lemma btree_insert_elem z x l : x ∈ btree_insert z l ↔ x = z ∨ x ∈ l.
Proof.
  induction l as [|y l IH]; cbn; [by rewrite list_elem_of_singleton, elem_of_nil; naive_solver|].
  destruct (Z.ltb_spec z y); [by rewrite !elem_of_cons|]. destruct (Z.eqb_spec z y) as [->|].
  - rewrite elem_of_cons. naive_solver.
  - rewrite !elem_of_cons, IH. naive_solver.
Qed.

Lemma btree_insert_sorted z l : StronglySorted Z.lt l → StronglySorted Z.lt (btree_insert z l).
Proof.
  induction 1 as [|y l Hl IH Hy]; cbn; [repeat constructor|].
  destruct (Z.ltb_spec z y); [|destruct (Z.eqb_spec z y); [by constructor|]].
  - constructor; [by constructor|]. constructor; [done|]. eapply Forall_impl; [exact Hy|]. cbn. lia.
  - constructor; [done|]. apply Forall_forall. intros x [->|Hx]%btree_insert_elem; [lia|].
    by eapply Forall_forall in Hy.
Qed.

Lemma i32_add_ok a b : i32_ok (a + b) → i32_add a b = Some (a + b).
Proof. intros H. unfold i32_add. by rewrite decide_True. Qed.

(** An edge of a rectangle of the region. *)
Definition edge_y (region : RegionAttributes) (y : Z) : Prop :=
  ∃ p, p ∈ region ∧ (y = p.2.(re_y) ∨ y = p.2.(re_y) + p.2.(re_h)).

Lemma y_coordinates_runs region :
  Forall (λ p, rect_ok p.2) region → runs (y_coordinates region) (λ ys, StronglySorted Z.lt ys ∧
    (∀ k r, (k, r) ∈ region → r.(re_y) ∈ ys ∧ r.(re_y) + r.(re_h) ∈ ys) ∧ Forall (edge_y region) ys).
Proof.
  induction 1 as [|[k r] region (Hw & Hh & _ & _ & Hx & Hy) _ IH]; cbn [y_coordinates].
  { apply runs_ret. split_and!; [constructor| |constructor]. by intros k r ?%not_elem_of_nil. }
  cbn [snd] in *. rewrite i32_add_ok by done. cbn [mbind option_bind].
  eapply runs_bind; [exact IH|]. intros ys (Hs & Hin & He). apply runs_ret. split_and!; [by do 2 apply btree_insert_sorted| |].
  - intros k' r' [[= -> ->]|H]%elem_of_cons; rewrite !btree_insert_elem; [auto|]. apply Hin in H. naive_solver.
  - apply Forall_forall. intros y [->|[->|Hy']%btree_insert_elem]%btree_insert_elem.
    + exists (k, r). split; [left|by left].
    + exists (k, r). split; [left|by right].
    + rewrite Forall_forall in He. destruct (He y Hy') as (p & Hp & Hpy). exists p. split; [by right|done].
Qed.

(** ** Spans *)
Definition covers (l : list Span) (x : Z) : Prop := ∃ s, s ∈ l ∧ s.1 ≤ x < s.2.

(** Spans are not empty, in order, and do not touch. *)
Definition before (a b : Span) : Prop := a.2 < b.1.
Definition spans_ok (l : list Span) : Prop := StronglySorted before l ∧ Forall (λ s, s.1 < s.2) l.

Lemma covers_app l k x : covers (l ++ k) x ↔ covers l x ∨ covers k x.
Proof.
  unfold covers. split.
  - intros (s & [H|H]%elem_of_app & Hx); [left|right]; by exists s.
  - intros [(s & H & Hx)|(s & H & Hx)]; exists s; rewrite elem_of_app; auto.
Qed.

Lemma covers_cons s l x : covers (s :: l) x ↔ s.1 ≤ x < s.2 ∨ covers l x.
Proof.
  unfold covers. split.
  - intros (s' & [->|H]%elem_of_cons & Hx); [by left|right; by exists s'].
  - intros [Hx|(s' & H & Hx)]; [exists s|exists s']; rewrite elem_of_cons; auto.
Qed.

Lemma covers_nil x : covers [] x ↔ False.
Proof. split; [|done]. by intros (s & H%elem_of_nil & _). Qed.

Lemma spans_ok_app l k :
  spans_ok (l ++ k) ↔ spans_ok l ∧ spans_ok k ∧ ∀ a b, a ∈ l → b ∈ k → before a b.
Proof. unfold spans_ok. rewrite StronglySorted_app, Forall_app. naive_solver. Qed.

Lemma spans_ok_cons s l : spans_ok (s :: l) ↔ s.1 < s.2 ∧ spans_ok l ∧ ∀ b, b ∈ l → before s b.
Proof.
  unfold spans_ok. rewrite Forall_cons. split.
  - intros [H [Hs Hl]]. inversion H as [|? ? ? Hf]; subst. rewrite Forall_forall in Hf. naive_solver.
  - intros (H1 & [H2 H3] & H4). split; [|done]. constructor; [done|]. by apply Forall_forall.
Qed.

Lemma spans_ok_nil : spans_ok [].
Proof. split; constructor. Qed.

(** Indices at the boundary of two parts. *)
Lemma lookup_last_of (pre suf : list Span) s : (pre ++ [s]) ++ suf = pre ++ s :: suf.
Proof. by rewrite <- app_assoc. Qed.

Lemma vec_remove_mid (pre suf : list Span) s : vec_remove (length pre) (pre ++ s :: suf) = Some (s, pre ++ suf).
Proof.
  rewrite (vec_remove_ok _ s) by by apply list_lookup_middle.
  rewrite take_app_length, (app_assoc pre [s] suf : pre ++ s :: suf = _).
  by rewrite (drop_app_length' (pre ++ [s])) by (rewrite length_app; cbn; lia).
Qed.

Lemma vec_insert_mid (pre suf : list Span) s : vec_insert (length pre) s (pre ++ suf) = Some (pre ++ s :: suf).
Proof.
  rewrite vec_insert_ok by (rewrite length_app; lia). by rewrite take_app_length, drop_app_length.
Qed.

Lemma vec_insert_after (pre suf : list Span) s s' :
  vec_insert (length pre + 1) s (pre ++ s' :: suf) = Some (pre ++ s' :: s :: suf).
Proof.
  rewrite <- lookup_last_of. replace (length pre + 1)%nat with (length (pre ++ [s'])) by (rewrite length_app; cbn; lia).
  by rewrite vec_insert_mid, lookup_last_of.
Qed.

(** The loop over the spans of [pre] adds the span. *)
Lemma add_span_runs pre suf x1 x2 :
  spans_ok (pre ++ suf) → x1 < x2 → (∀ b, b ∈ suf → x2 < b.1) →
  runs (add_span (length pre) (pre ++ suf) x1 x2)
    (λ l, spans_ok l ∧ ∀ x, covers l x ↔ covers (pre ++ suf) x ∨ x1 ≤ x < x2).
Proof.
  revert suf x1 x2. induction pre as [|[s e] pre IH] using rev_ind; intros suf x1 x2 Hok Hx Hsuf.
  { cbn [length app add_span]. rewrite vec_insert_ok by lia. apply runs_ret. rewrite take_0, drop_0. cbn [app]. split.
    - by apply spans_ok_cons.
    - intros x. rewrite covers_cons. cbn. tauto. }
  rewrite length_app. cbn [length]. rewrite Nat.add_1_r. cbn [add_span]. rewrite lookup_last_of in *.
  rewrite list_lookup_middle by done. cbn [mbind option_bind].
  pose proof (proj1 (spans_ok_app _ _) Hok) as (H1 & H2 & H3).
  pose proof (proj1 (spans_ok_cons _ _) H2) as (H4 & H5 & H6). cbn in H4.
  destruct (Z.ltb_spec e x1).
  - rewrite vec_insert_after. apply runs_ret. split.
    + apply spans_ok_app. split_and!; [done| |].
      * apply spans_ok_cons. split_and!; [done| |].
        -- by apply spans_ok_cons.
        -- intros b [->|Hb]%elem_of_cons; [by unfold before|auto].
      * intros a b Ha [->|[->|Hb]%elem_of_cons]%elem_of_cons.
        -- apply H3; [done|by left].
        -- pose proof (H3 a (s, e) Ha ltac:(by left)). unfold before in *. cbn in *. lia.
        -- apply H3; [done|by right].
    + intros x. rewrite !covers_app, !covers_cons. cbn. tauto.
  - destruct (Z.ltb_spec x2 s).
    + apply IH; [done|done|]. intros b [->|Hb]%elem_of_cons; [done|auto].
    + rewrite vec_remove_mid. cbn [mbind option_bind]. eapply runs_weaken; [apply IH|].
      * apply spans_ok_app. split_and!; [done|done|]. intros a b Ha Hb. apply H3; [done|by right].
      * lia.
      * intros b Hb. pose proof (Hsuf b Hb). pose proof (H6 b Hb) as Hbe. unfold before in Hbe. cbn in Hbe. lia.
      * intros l [K1 K2]. split; [done|]. intros x. rewrite K2, !covers_app, covers_cons. cbn.
        assert (Z.min x1 s ≤ x < Z.max x2 e ↔ s ≤ x < e ∨ x1 ≤ x < x2) by lia. tauto.
Qed.

(** The loop over the spans of [pre] takes the span away; [suf] does not meet it. *)
Lemma subtract_span_runs pre suf x1 x2 :
  spans_ok (pre ++ suf) → x1 < x2 → (∀ x, covers suf x → ¬ x1 ≤ x < x2) →
  runs (subtract_span (length pre) (pre ++ suf) x1 x2)
    (λ l, spans_ok l ∧ ∀ x, covers l x ↔ covers (pre ++ suf) x ∧ ¬ x1 ≤ x < x2).
Proof.
  revert suf. induction pre as [|[s e] pre IH] using rev_ind; intros suf Hok Hx Hsuf.
  { cbn. apply runs_ret. split; [done|]. intros x. specialize (Hsuf x). tauto. }
  rewrite length_app. cbn [length]. rewrite Nat.add_1_r. cbn [subtract_span]. rewrite lookup_last_of in *.
  rewrite list_lookup_middle by done. cbn [mbind option_bind].
  pose proof (proj1 (spans_ok_app _ _) Hok) as (H1 & H2 & H3).
  pose proof (proj1 (spans_ok_cons _ _) H2) as (H4 & H5 & H6). cbn in H4.
  destruct (Z.leb_spec e x1).
  { apply runs_ret. split; [done|]. intros x. rewrite covers_app, covers_cons. cbn. specialize (Hsuf x).
    assert (covers pre x → x < x1); [|intuition lia]. intros (a & Ha & Hax).
    pose proof (H3 a (s, e) Ha ltac:(by left)) as Hb. unfold before in Hb. cbn in Hb. lia. }
  destruct (Z.leb_spec x2 s).
  { apply IH; [done|done|]. intros x. rewrite covers_cons. cbn. specialize (Hsuf x). intuition lia. }
  rewrite vec_remove_mid. cbn [mbind option_bind].
  set (right := if x2 <? e then [(x2, e)] else []). set (left := if s <? x1 then [(s, x1)] else []).
  assert (E1 : (if x2 <? e then vec_insert (length pre) (x2, e) (pre ++ suf) else Some (pre ++ suf)) =
            Some (pre ++ right ++ suf)).
  { unfold right. destruct (x2 <? e); [apply vec_insert_mid|done]. }
  rewrite E1. cbn [mbind option_bind].
  assert (E2 : (if s <? x1 then vec_insert (length pre) (s, x1) (pre ++ right ++ suf) else Some (pre ++ right ++ suf)) =
            Some (pre ++ left ++ right ++ suf)).
  { unfold left. destruct (s <? x1); [apply vec_insert_mid|done]. }
  rewrite E2. cbn [mbind option_bind]. clear E1 E2.
  assert (Hcov : ∀ x, covers (left ++ right) x ↔ s ≤ x < e ∧ ¬ x1 ≤ x < x2).
  { intros x. rewrite covers_app. unfold left, right. destruct (Z.ltb_spec s x1), (Z.ltb_spec x2 e);
      rewrite ?covers_cons, ?covers_nil; cbn; lia. }
  assert (Hin : ∀ b, b ∈ left ++ right → s ≤ b.1 ∧ b.2 ≤ e).
  { intros b. unfold left, right. destruct (Z.ltb_spec s x1), (Z.ltb_spec x2 e); cbn;
      rewrite ?elem_of_cons, ?elem_of_nil; intros Hb; naive_solver lia. }
  assert (Hlr : spans_ok (left ++ right)).
  { unfold left, right. destruct (Z.ltb_spec s x1), (Z.ltb_spec x2 e); cbn; rewrite ?spans_ok_cons; cbn;
      (split_and?; try apply spans_ok_nil; try lia; try (by intros b ?%elem_of_nil)).
    intros b ->%list_elem_of_singleton. unfold before. cbn. lia. }
  rewrite (app_assoc left). clearbody left right. revert Hcov Hin Hlr. generalize (left ++ right) as mid.
  intros mid Hcov Hin Hlr. eapply runs_weaken; [apply IH|].
  - apply spans_ok_app. split_and!; [done| |].
    + apply spans_ok_app. split_and!; [done|done|]. intros a b Ha Hb. pose proof (H6 b Hb) as Hbe.
      unfold before in *. cbn in *. pose proof (Hin a Ha). lia.
    + intros a b Ha [Hb|Hb]%elem_of_app; [|apply H3; [done|by right]].
      pose proof (H3 a (s, e) Ha ltac:(by left)) as Hae. unfold before in *. cbn in *. pose proof (Hin b Hb). lia.
  - done.
  - intros x. rewrite covers_app, Hcov. specialize (Hsuf x). tauto.
  - intros l [K1 K2]. split; [done|]. intros x. rewrite K2, !covers_app, covers_cons, Hcov. cbn. tauto.
Qed.

(** ** Bands *)

(** No corner lies strictly between [lo] and [hi]. *)
Definition apart_from (lo hi : Z) (r : Rect) : Prop :=
  (r.(re_y) ≤ lo ∨ hi ≤ r.(re_y)) ∧ (r.(re_y) + r.(re_h) ≤ lo ∨ hi ≤ r.(re_y) + r.(re_h)).

Lemma in_rect_spec r x y :
  in_rect r x y = true ↔ r.(re_x) ≤ x < r.(re_x) + r.(re_w) ∧ r.(re_y) ≤ y < r.(re_y) + r.(re_h).
Proof. unfold in_rect. rewrite !andb_true_iff, !Z.leb_le, !Z.ltb_lt. tauto. Qed.

Lemma band_rect_runs lo hi k r l :
  spans_ok l → rect_ok r → lo < hi → apart_from lo hi r →
  runs (band_rect lo hi k r l) (λ l', spans_ok l' ∧ ∀ x y, lo ≤ y < hi →
    (covers l' x ↔ match k with
                   | KindAdd => covers l x ∨ in_rect r x y = true
                   | KindSubtract => covers l x ∧ in_rect r x y ≠ true
                   end)).
Proof.
  intros Hl (Hw & Hh & _ & _ & Hx & Hy) Hlt [A1 A2]. unfold band_rect. rewrite (i32_add_ok r.(re_y)) by done.
  cbn [mbind option_bind]. destruct ((hi <=? r.(re_y)) || (r.(re_y) + r.(re_h) <=? lo)) eqn:E.
  { apply runs_ret. split; [done|]. intros x y Hin.
    apply orb_true_iff in E as [E|E]; apply Z.leb_le in E; destruct k; rewrite in_rect_spec; intuition lia. }
  apply orb_false_iff in E as [E1 E2]. apply Z.leb_gt in E1, E2. rewrite i32_add_ok by done. cbn [mbind option_bind].
  destruct (Z.eqb_spec r.(re_x) (r.(re_x) + r.(re_w))).
  { apply runs_ret. split; [done|]. intros x y Hin. destruct k; rewrite in_rect_spec; intuition lia. }
  assert (Hin : ∀ x y, lo ≤ y < hi → in_rect r x y = true ↔ r.(re_x) ≤ x < r.(re_x) + r.(re_w)).
  { intros x y Hin. rewrite in_rect_spec. lia. }
  pose proof (add_span_runs l [] r.(re_x) (r.(re_x) + r.(re_w))) as Hadd.
  pose proof (subtract_span_runs l [] r.(re_x) (r.(re_x) + r.(re_w))) as Hsub. rewrite app_nil_r in Hadd, Hsub.
  destruct k; (eapply runs_weaken; [first [apply Hadd|apply Hsub]; [done|lia|]|]).
  - by intros b ?%elem_of_nil.
  - intros l' [K1 K2]. split; [done|]. intros x y Hy'. by rewrite K2, Hin.
  - by intros x ?%covers_nil.
  - intros l' [K1 K2]. split; [done|]. intros x y Hy'. by rewrite K2, Hin.
Qed.

Lemma region_contains_snoc region p x y :
  region_contains (region ++ [p]) x y =
    match p.1 with
    | KindAdd => region_contains region x y || in_rect p.2 x y
    | KindSubtract => region_contains region x y && negb (in_rect p.2 x y)
    end.
Proof. unfold region_contains. by rewrite foldl_app. Qed.

Lemma band_spans_runs lo hi region :
  Forall (λ p, rect_ok p.2) region → lo < hi → Forall (λ p, apart_from lo hi p.2) region →
  runs (band_spans lo hi region) (λ l, spans_ok l ∧ ∀ x y, lo ≤ y < hi →
    (covers l x ↔ region_contains region x y = true)).
Proof.
  intros Hok Hlt Hap. unfold band_spans. induction region as [|[k r] region IH] using rev_ind.
  { apply runs_ret. split; [apply spans_ok_nil|]. intros x y _. by rewrite covers_nil. }
  apply Forall_app in Hok as [Hok [Hr _]%Forall_cons]. apply Forall_app in Hap as [Hap [Hr' _]%Forall_cons].
  rewrite foldl_app. cbn [foldl fst snd] in *. eapply runs_bind; [by apply IH|]. intros l [K1 K2].
  eapply runs_weaken; [exact (band_rect_runs lo hi k r l K1 Hr Hlt Hr')|]. intros l' [L1 L2]. split; [done|]. intros x y Hy.
  specialize (K2 x y Hy). specialize (L2 x y Hy). rewrite region_contains_snoc. cbn [fst snd].
  destruct k; cbn in L2 |- *.
  - by rewrite orb_true_iff, L2, K2.
  - by rewrite andb_true_iff, negb_true_iff, <- not_true_iff_false, L2, K2.
Qed.

(** Every corner is at or above [lo], or among [ys]. *)
Definition corners_in (lo : Z) (ys : list Z) (region : RegionAttributes) : Prop :=
  Forall (λ p, (p.2.(re_y) ≤ lo ∨ p.2.(re_y) ∈ ys) ∧
               (p.2.(re_y) + p.2.(re_h) ≤ lo ∨ p.2.(re_y) + p.2.(re_h) ∈ ys)) region.

(** Rectangles are in bands from top to bottom, and in a band from left to right, without touching. *)
Definition rect_before (a b : Rect) : Prop := a.(re_y) + a.(re_h) ≤ b.(re_y) ∨ a.(re_x) + a.(re_w) < b.(re_x).
Definition rect_below (lo : Z) (e : Rect) : Prop := 0 < e.(re_w) ∧ 0 < e.(re_h) ∧ lo ≤ e.(re_y).

Lemma contains_below region x y :
  Forall (λ p, p.2.(re_y) + p.2.(re_h) ≤ y ∨ y < p.2.(re_y)) region → region_contains region x y = false.
Proof.
  induction region as [|[k r] region IH] using rev_ind; [done|].
  intros [H [Hr _]%Forall_cons]%Forall_app. rewrite region_contains_snoc, (IH H). cbn [fst snd] in *.
  destruct k; [|done]. cbn. apply not_true_is_false. rewrite in_rect_spec. lia.
Qed.

Lemma contains_rect region x y :
  region_contains region x y = true → ∃ p, p ∈ region ∧ in_rect p.2 x y = true.
Proof.
  induction region as [|[k r] region IH] using rev_ind; [done|]. rewrite region_contains_snoc. cbn [fst snd]. intros H.
  assert (Hc : region_contains region x y = true ∨ in_rect r x y = true).
  { destruct k; [by apply orb_true_iff in H|]. apply andb_true_iff in H. by left; destruct H. }
  destruct Hc as [(p & Hp & Hin)%IH|Hr].
  - exists p. split; [|done]. apply elem_of_app. by left.
  - exists (k, r). split; [|done]. apply elem_of_app. right. left.
Qed.

Section bands.
  Context (from_extremities : Z * Z → Z * Z → option Rect) (Hmake : makes_rects from_extremities).

(** The ends of a span that the region covers are edges of its rectangles, so the rectangle is made. *)
Lemma span_rect region lo hi s :
  region_ok region → edge_y region lo → edge_y region hi → lo < hi → s.1 < s.2 →
  (∀ x, s.1 ≤ x < s.2 → region_contains region x lo = true) →
  from_extremities (s.1, lo) (s.2, hi) = Some (MkRect s.1 lo (s.2 - s.1) (hi - lo)).
Proof using Hmake.
  intros [Hok Hfit] (p & Hp & Hlo) (q & Hq & Hhi) Hlt Hs Hc. rewrite Forall_forall in Hok.
  destruct (contains_rect region s.1 lo) as (a & Ha & Hain); [apply Hc; lia|].
  destruct (contains_rect region (s.2 - 1) lo) as (b & Hb & Hbin); [apply Hc; lia|].
  apply in_rect_spec in Hain, Hbin. destruct (Hok p Hp) as (? & ? & ? & ? & ? & ?), (Hok q Hq) as (? & ? & ? & ? & ? & ?).
  destruct (Hok a Ha) as (? & ? & ? & ? & ? & ?), (Hok b Hb) as (? & ? & ? & ? & ? & ?).
  pose proof (Hfit p q Hp Hq) as [_ Hy]. pose proof (Hfit a b Ha Hb) as [Hx _]. unfold i32_ok in *.
  apply Hmake; unfold i32_ok; lia.
Qed.

Lemma bands_runs region lo ys :
  region_ok region → StronglySorted Z.lt (lo :: ys) → corners_in lo ys region → Forall (edge_y region) (lo :: ys) →
  runs (bands from_extremities region lo ys) (λ out, StronglySorted rect_before out ∧ Forall (rect_below lo) out ∧
    ∀ x y, (∃ e, e ∈ out ∧ in_rect e x y = true) ↔ lo ≤ y ∧ region_contains region x y = true).
Proof using Hmake.
  intros Hok. revert lo. induction ys as [|hi ys IH]; intros lo Hs Hc Hedge; cbn [bands].
  { apply runs_ret. split_and!; [constructor|constructor|]. intros x y. split; [by intros (e & ?%elem_of_nil & _)|].
    intros [Hy H]. rewrite contains_below in H; [done|]. eapply Forall_impl; [exact Hc|].
    intros p [_ [Hp|?%elem_of_nil]]; [left; lia|done]. }
  inversion Hs as [|? ? Hs' Hlo]; subst. apply Forall_cons in Hlo as [Hlt Hlo]. apply Forall_cons in Hedge as [Elo Hedge].
  assert (Hhi : ∀ z, z ∈ ys → hi < z) by (inversion Hs' as [|? ? _ Hf]; subst; by apply Forall_forall).
  eapply runs_bind; [apply (band_spans_runs lo hi); [apply Hok|done|]|].
  { eapply Forall_impl; [exact Hc|]. intros p [H1 H2]. unfold apart_from. rewrite !elem_of_cons in *.
    split; [destruct H1 as [?|[?|?%Hhi]]|destruct H2 as [?|[?|?%Hhi]]]; lia. }
  intros spans [[K1 K2] K3].
  assert (Hm : mapM (λ s, from_extremities (s.1, lo) (s.2, hi)) spans =
            Some ((λ s, MkRect s.1 lo (s.2 - s.1) (hi - lo)) <$> spans)).
  { apply mapM_Some_2, Forall2_fmap_r, Forall_Forall2_diag, Forall_forall. intros s Hin. rewrite Forall_forall in K2.
    apply (span_rect region); [done|done|by apply Forall_cons in Hedge as [? _]|done|by apply K2|].
    intros x Hx. apply (K3 x lo); [lia|]. by exists s. }
  rewrite Hm. cbn [mbind option_bind]. eapply runs_bind; [apply IH; [done| |done]|].
  { eapply Forall_impl; [exact Hc|]. intros p [H1 H2]. rewrite !elem_of_cons in *.
    split; [destruct H1 as [?|[?|?]]|destruct H2 as [?|[?|?]]]; first [by right|left; lia]. }
  intros out (L1 & L2 & L3). apply runs_ret. split_and!.
  - apply StronglySorted_app_2; [|eapply StronglySorted_fmap; [|exact K1]|done].
    + intros a b (s & -> & _)%list_elem_of_fmap Hb. eapply Forall_forall in L2; [|exact Hb]. left. cbn. destruct L2 as (_ & _ & ?). lia.
    + intros a b Hab. right. unfold before in Hab. cbn. lia.
  - apply Forall_app. split.
    + apply Forall_fmap. eapply Forall_impl; [exact K2|]. intros s Hs2. cbn in Hs2. unfold compose, rect_below. cbn. lia.
    + eapply Forall_impl; [exact L2|]. unfold rect_below. intros e (? & ? & ?). lia.
  - intros x y. split.
    + intros (e & [(s & -> & Hin)%list_elem_of_fmap|Hin]%elem_of_app & Hxy).
      * apply in_rect_spec in Hxy. cbn in Hxy. split; [lia|]. apply (K3 x y); [lia|]. exists s. split; [done|lia].
      * destruct (proj1 (L3 x y) ltac:(by exists e)) as [? ?]. split; [lia|done].
    + intros [Hy H]. destruct (Z.lt_ge_cases y hi) as [Hyh|Hyh].
      * apply (K3 x y ltac:(lia)) in H as (s & Hin & Hx). exists (MkRect s.1 lo (s.2 - s.1) (hi - lo)).
        split; [|apply in_rect_spec; cbn; lia]. apply elem_of_app. left. apply list_elem_of_fmap. by exists s.
      * destruct (proj2 (L3 x y) ltac:(done)) as (e & Hin & Hxy). exists e. split; [|done]. apply elem_of_app. by right.
Qed.
End bands.

Lemma sorted_lookup {A} (R : relation A) l i j a b :
  StronglySorted R l → (i < j)%nat → l !! i = Some a → l !! j = Some b → R a b.
Proof.
  intros Hs Hij Ha Hb. rewrite <- (take_drop j l) in Hs. eapply StronglySorted_app_1_elem_of; [exact Hs| |].
  - apply list_elem_of_lookup. exists i. by rewrite lookup_take_lt.
  - apply list_elem_of_lookup. exists 0%nat. by rewrite lookup_drop, Nat.add_0_r.
Qed.

(** ** Properties *)

(** C16: a region is cut into rectangles that cover it exactly. When the edges of its rectangles are
    [i32]s, no two of them further apart than an [i32] can tell, every point of the region lies in
    exactly one of the rectangles made and every other point in none; no rectangle is empty and no
    two overlap. The loops stay within their vectors, and the arithmetic does not overflow. *)
Theorem region_rects_partition from_extremities region :
  makes_rects from_extremities → region_ok region →
  ∃ out, region_to_non_overlapping_rects from_extremities region = Some out ∧
    (∀ x y, (∃ e, e ∈ out ∧ in_rect e x y = true) ↔ region_contains region x y = true) ∧
    (∀ e, e ∈ out → 0 < e.(re_w) ∧ 0 < e.(re_h)) ∧
    ∀ i j a b x y, out !! i = Some a → out !! j = Some b → in_rect a x y = true → in_rect b x y = true → i = j.
Proof.
  intros Hmake Hok. destruct (y_coordinates_runs region (proj1 Hok)) as (ys & E & Hs & Hc & He).
  unfold region_to_non_overlapping_rects. rewrite E. cbn [mbind option_bind]. destruct ys as [|lo ys].
  { exists []. split_and!; [done| |by intros e ?%elem_of_nil|done]. intros x y. split.
    - by intros (e & ?%elem_of_nil & _).
    - destruct region as [|[k r] region]; [done|]. destruct (Hc k r) as [H%elem_of_nil _]; [left|done]. }
  assert (Hlo : ∀ z, z ∈ lo :: ys → lo ≤ z).
  { inversion Hs as [|? ? _ Hf]; subst. intros z [->|Hz]%elem_of_cons; [lia|]. eapply Forall_forall in Hf; [|exact Hz]. lia. }
  destruct (bands_runs from_extremities Hmake region lo ys Hok Hs) as (out & Eo & H1 & H2 & H3); [|done|].
  { apply Forall_forall. intros [k r] Hin. destruct (Hc k r Hin) as [[?|?]%elem_of_cons [?|?]%elem_of_cons];
      cbn; split; first [by right|left; lia]. }
  exists out. split; [done|]. rewrite Forall_forall in H2. split_and!.
  - intros x y. rewrite H3. split; [by intros [_ H]|]. intros H. split; [|done].
    destruct (Z.le_gt_cases lo y) as [|Hy]; [done|]. rewrite contains_below in H; [done|].
    apply Forall_forall. intros [k r] Hin. right. destruct (Hc k r Hin) as [Hr%Hlo _]. cbn. lia.
  - intros e Hin. destruct (H2 e Hin) as (? & ? & _). done.
  - intros i j a b x y Ha Hb Hax%in_rect_spec Hbx%in_rect_spec. destruct (Nat.lt_trichotomy i j) as [Hij|[Hij|Hij]]; [|done|].
    + destruct (sorted_lookup _ _ _ _ _ _ H1 Hij Ha Hb); lia.
    + destruct (sorted_lookup _ _ _ _ _ _ H1 Hij Hb Ha); lia.
Qed.

(** Rectangles with checked sides, and a hole in a square. *)
Definition checked_rect (a b : Z * Z) : option Rect :=
  if decide (i32_ok (b.1 - a.1) ∧ i32_ok (b.2 - a.2)) then Some (MkRect a.1 a.2 (b.1 - a.1) (b.2 - a.2)) else None.

Definition sample_region : RegionAttributes :=
  [(KindAdd, MkRect 0 0 20 20); (KindSubtract, MkRect 5 5 10 10)].

Lemma region_rects_partition_witness :
  region_ok sample_region ∧
  ∃ out, region_to_non_overlapping_rects checked_rect sample_region = Some out ∧ length out = 4%nat ∧
    ∃ e, e ∈ out ∧ in_rect e 15 5 = true.
Proof.
  assert (Hm : makes_rects checked_rect).
  { intros x1 y1 x2 y2 _ _ _ _ _ Hx _ Hy. unfold checked_rect. by rewrite decide_True by (by split). }
  assert (H : region_ok sample_region).
  { split; [repeat constructor; cbn; lia|]. intros p q Hp Hq. unfold sample_region in *.
    apply elem_of_cons in Hp as [->|Hp], Hq as [->|Hq]; try apply list_elem_of_singleton in Hp as ->;
      try apply list_elem_of_singleton in Hq as ->; split; cbn; lia. }
  split; [done|].
  destruct (region_rects_partition checked_rect sample_region Hm H) as (out & E & Hcov & _). exists out. split; [done|].
  split; [|by apply (Hcov 15 5)]. vm_compute in E. injection E as <-. reflexivity.
Defined.

(** A rectangle whose lower edge is beyond the [i32] range makes the sum overflow. *)
Theorem region_overflow_panics from_extremities region k r :
  (k, r) ∈ region → ¬ i32_ok (r.(re_y) + r.(re_h)) → region_to_non_overlapping_rects from_extremities region = None.
Proof.
  intros Hin Hr. unfold region_to_non_overlapping_rects. assert (E : y_coordinates region = None); [|by rewrite E].
  induction region as [|[k' r'] region IH]; [by apply elem_of_nil in Hin|]. cbn [y_coordinates].
  apply elem_of_cons in Hin as [[= <- <-]|Hin]; [unfold i32_add; by rewrite decide_False|].
  rewrite (IH Hin). by destruct (i32_add _ _).
Qed.

Lemma region_overflow_panics_witness :
  region_to_non_overlapping_rects checked_rect [(KindAdd, MkRect 0 2147483647 10 10)] = None.
Proof. apply (region_overflow_panics _ _ KindAdd (MkRect 0 2147483647 10 10)); [left|by intros [_ H]]. Defined.
