(* ===== verification/OutputPositions.v ===== *)
(** * Where outputs are (src/niri.rs, [OutputName::compare] of crates/niri-config/src/output.rs)

    Outputs are placed in the global space one after the other: first those with a position in the
    configuration, then the others to the right of what is there, each kind in the order of their
    names.  Actions go from an output to its neighbours.

    The global space is Smithay's: [OutputSpace] has its operations with what they promise.  An
    output is known by its name.  [None] is a panic of checked [i32] arithmetic or of an unwrap. *)
From stdpp Require Import sorting strings.
From S2P Require Import Prelude BTree LayoutOutput Region.

Local Open Scope Z_scope.

(** ** The order of names *)
Definition then_with (a b : comparison) : comparison := match a with Eq => b | _ => a end.

Definition option_compare {A} (cmp : A → A → comparison) (a b : option A) : comparison :=
  match a, b with
  | None, None => Eq
  | None, Some _ => Lt
  | Some _, None => Gt
  | Some a, Some b => cmp a b
  end.

Definition output_compare (a b : OutputName) : comparison :=
  match missing_mms a, missing_mms b with
  | true, true => String.compare a.(on_connector) b.(on_connector)
  | true, false => Gt
  | false, true => Lt
  | false, false =>
      then_with (option_compare String.compare a.(on_make) b.(on_make))
        (then_with (option_compare String.compare a.(on_model) b.(on_model))
          (then_with (option_compare String.compare a.(on_serial) b.(on_serial))
            (String.compare a.(on_connector) b.(on_connector))))
  end.

Definition output_leb (a b : OutputName) : bool := match output_compare a b with Gt => false | _ => true end.

(** ** The global space *)
Definition Point : Type := Z * Z.
Definition Size : Type := Z * Z.

Definition rect_at (pos : Point) (size : Size) : Rect := MkRect (fst pos) (snd pos) (fst size) (snd size).

(** [Space] of Smithay: the outputs that are mapped in it, each with a location and a size. *)
Class OutputSpace (S : Type) := {
  sp_outputs : S → list OutputName;
  sp_geometry : S → OutputName → option Rect;
  sp_size : OutputName → Size;
  sp_map : OutputName → Point → S → S;
  sp_unmap : OutputName → S → S;
  sp_outputs_mapped s o : o ∈ sp_outputs s ↔ is_Some (sp_geometry s o);
  sp_outputs_NoDup s : NoDup (sp_outputs s);
  sp_geometry_map s o p o' :
    sp_geometry (sp_map o p s) o' = if decide (o' = o) then Some (rect_at p (sp_size o)) else sp_geometry s o';
  sp_geometry_unmap s o o' :
    sp_geometry (sp_unmap o s) o' = if decide (o' = o) then None else sp_geometry s o'
}.

(** The part of the configuration of an output that is about its position. *)
Record OutputConfig := MkOutputConfig { oc_name : string; oc_position : option Point }.

(** [Outputs::find]. *)
Definition find_output_config (outputs : list OutputConfig) (name : OutputName) : option OutputConfig :=
  List.find (λ o, output_matches name o.(oc_name)) outputs.

(** The global space, and [sorted_outputs] of [Niri]. *)
Record Outputs (S : Type) := MkOutputs { os_space : S; os_sorted : list OutputName }.
Arguments MkOutputs {S}.
Arguments os_space {S}.
Arguments os_sorted {S}.

Record OutputData := MkOutputData { od_output : OutputName; od_position : option Point; od_config : option Point }.

Section positions.
  Context {S : Type} `{OutputSpace S}.

(** [output_size(output).to_i32_round()], [Rectangle::overlaps], and the configuration. *)
  Context (output_size : OutputName → Size) (overlaps : Rect → Rect → bool) (config : list OutputConfig).

Definition location (r : Rect) : Point := (r.(re_x), r.(re_y)).

(** ** Placing outputs *)
Definition output_data (s : S) (output : OutputName) : OutputData :=
  MkOutputData output (location <$> sp_geometry s output)
    (c ← find_output_config config output; c.(oc_position)).

(** Both sorts: by name, then the configured ones first. *)
Definition by_name (a b : OutputData) : bool := output_leb a.(od_output) b.(od_output).
Definition is_none {A} (o : option A) : bool := match o with None => true | Some _ => false end.
Definition configured_first (a b : OutputData) : bool := implb (is_none a.(od_config)) (is_none b.(od_config)).

Definition placing_order (l : list OutputData) : list OutputData := stable_sort configured_first (stable_sort by_name l).

Definition geometries (s : S) : option (list Rect) := mapM (sp_geometry s) (sp_outputs s).

(** [max().unwrap_or(0)]. *)
Definition max_or_0 (l : list Z) : Z := match l with [] => 0 | x :: l => foldr Z.max x l end.

Definition free_x (s : S) : option Z :=
  l ← geometries s; edges ← mapM (λ geom, i32_add geom.(re_x) geom.(re_w)) l; Some (max_or_0 edges).

Definition new_position (s : S) (d : OutputData) : option Point :=
  configured ← match d.(od_config) with
               | Some pos =>
                   l ← geometries s;
                   Some (if existsb (λ geom, overlaps geom (rect_at pos (output_size d.(od_output)))) l
                         then None else Some pos)
               | None => Some None
               end;
  match configured with
  | Some pos => Some pos
  | None => x ← free_x s; Some (x, 0)
  end.

(** Maps the outputs and collects those that moved. *)
Fixpoint place_outputs (l : list OutputData) (s : S) : option (S * list (OutputName * Point)) :=
  match l with
  | [] => Some (s, [])
  | d :: l =>
      pos ← new_position s d;
      r ← place_outputs l (sp_map d.(od_output) pos s);
      Some (fst r, if decide (Some pos = d.(od_position)) then snd r else (d.(od_output), pos) :: snd r)
  end.

Definition reposition_outputs (os : Outputs S) (new_output : option OutputName) :
    option (Outputs S * list (OutputName * Point)) :=
  let outputs := output_data os.(os_space) <$> (sp_outputs os.(os_space) ++ option_list new_output) in
  let s := foldl (λ s d, sp_unmap d.(od_output) s) os.(os_space) outputs in
  let outputs := placing_order outputs in
  r ← place_outputs outputs s;
  Some (MkOutputs (fst r) (od_output <$> outputs), snd r).

(** ** Neighbours *)
Definition I32_MIN : Z := - 2 ^ 31.
Definition I32_MAX : Z := 2 ^ 31 - 1.

Definition i32_sub (a b : Z) : option Z := i32_add a (- b).

(** [center]: sizes are halved with rounding towards zero. *)
Definition center_x (r : Rect) : option Z := i32_add r.(re_x) (Z.quot r.(re_w) 2).
Definition center_y (r : Rect) : option Z := i32_add r.(re_y) (Z.quot r.(re_h) 2).

(** The row and the column of an output. *)
Definition extended_row (geo : Rect) : Rect := MkRect (Z.quot I32_MIN 2) geo.(re_y) I32_MAX geo.(re_h).
Definition extended_column (geo : Rect) : Rect := MkRect geo.(re_x) (Z.quot I32_MIN 2) geo.(re_w) I32_MAX.

(** [filter(..).min_by_key(..)]: the first of the nearest outputs on one side. *)
Fixpoint nearest_output (distance : Rect → option (option Z)) (s : S) (l : list OutputName) :
    option (option (OutputName * Z)) :=
  match l with
  | [] => Some None
  | output :: l =>
      geo ← sp_geometry s output;
      d ← distance geo;
      best ← nearest_output distance s l;
      Some (match d, best with
            | None, _ => best
            | Some d, Some (_, d') => if d' <? d then best else Some (output, d)
            | Some d, None => Some (output, d)
            end)
  end.

(** How far [geo] is on the side of [current] where the centers grow ([forward]) or shrink, if it
    is on that side and meets the row or column. *)
Definition distance_on (center : Rect → option Z) (forward : bool) (extended current geo : Rect) : option (option Z) :=
  c ← center geo;
  c0 ← center current;
  if (if forward then c0 <? c else c <? c0) && overlaps geo extended
  then d ← (if forward then i32_sub c c0 else i32_sub c0 c); Some (Some d)
  else Some None.

Definition output_beside (center : Rect → option Z) (forward : bool) (extend : Rect → Rect) (s : S)
    (current : OutputName) : option (option OutputName) :=
  match sp_geometry s current with
  | None => Some None
  | Some geo =>
      best ← nearest_output (distance_on center forward (extend geo) geo) s (sp_outputs s);
      Some (option_map fst best)
  end.

Definition output_left_of := output_beside center_x false extended_row.
Definition output_right_of := output_beside center_x true extended_row.
Definition output_up_of := output_beside center_y false extended_column.
Definition output_down_of := output_beside center_y true extended_column.

(** [skip_while(..).nth(1).or(first).filter(..)] over the sorted outputs or their reverse. *)
Fixpoint skip_to (current : OutputName) (l : list OutputName) : list OutputName :=
  match l with
  | [] => []
  | o :: l' => if decide (o = current) then l else skip_to current l'
  end.

Definition output_after (current : OutputName) (l : list OutputName) : option OutputName :=
  o ← (match skip_to current l !! 1%nat with Some o => Some o | None => head l end);
  if decide (o = current) then None else Some o.

Definition output_next_of (os : Outputs S) (current : OutputName) : option OutputName :=
  output_after current os.(os_sorted).

Definition output_previous_of (os : Outputs S) (current : OutputName) : option OutputName :=
  output_after current (rev os.(os_sorted)).

Definition output_by_name_match (s : S) (target : string) : option OutputName :=
  List.find (λ o, output_matches o target) (sp_outputs s).

End positions.

(** ** Comparisons *)

(** A comparison that orders the classes of elements it finds equal. *)
Record compares {A} (cmp : A → A → comparison) : Prop := {
  cmp_opp a b : cmp b a = CompOpp (cmp a b);
  cmp_same a b c : cmp a b = Eq → cmp a c = cmp b c;
  cmp_trans a b c : cmp a b = Lt → cmp b c = Lt → cmp a c = Lt
}.

Section compares.
  Context {A : Type} (cmp : A → A → comparison) (Hcmp : compares cmp).

Lemma cmp_refl a : cmp a a = Eq.
Proof. pose proof (cmp_opp _ Hcmp a a) as E. by destruct (cmp a a). Qed.

Lemma compares_total a b : cmp a b ≠ Gt ∨ cmp b a ≠ Gt.
Proof. rewrite (cmp_opp _ Hcmp a b). destruct (cmp a b); [by left|by left|by right]. Qed.

Lemma compares_le_trans a b c : cmp a b ≠ Gt → cmp b c ≠ Gt → cmp a c ≠ Gt.
Proof.
  intros H1 H2. destruct (cmp a b) eqn:E1; [|destruct (cmp b c) eqn:E2|]; try done.
  - by rewrite (cmp_same _ Hcmp a b c).
  - assert (cmp c b = Eq) as E by (rewrite (cmp_opp _ Hcmp b c); by rewrite E2).
    rewrite (cmp_opp _ Hcmp c a), (cmp_same _ Hcmp c b a E), (cmp_opp _ Hcmp a b). by rewrite E1.
  - by rewrite (cmp_trans _ Hcmp a b c).
Qed.

Lemma option_compares : compares (option_compare cmp).
Proof.
  split.
  - intros [a|] [b|]; cbn; try done. apply (cmp_opp _ Hcmp).
  - intros [a|] [b|] [c|]; cbn; try done. apply (cmp_same _ Hcmp).
  - intros [a|] [b|] [c|]; cbn; try done. apply (cmp_trans _ Hcmp).
Qed.

Lemma pull_compares {B} (f : B → A) : compares (λ a b, cmp (f a) (f b)).
Proof. split; intros; [apply (cmp_opp _ Hcmp)|by apply (cmp_same _ Hcmp)|by eapply (cmp_trans _ Hcmp)]. Qed.

Lemma then_compares (cmp' : A → A → comparison) :
  compares cmp' → compares (λ a b, then_with (cmp a b) (cmp' a b)).
Proof.
  intros Hcmp'. split.
  - intros a b. rewrite (cmp_opp _ Hcmp a b), (cmp_opp _ Hcmp' a b). by destruct (cmp a b).
  - intros a b c. destruct (cmp a b) eqn:E; [|done..]. cbn. intros E'.
    by rewrite (cmp_same _ Hcmp a b c E), (cmp_same _ Hcmp' a b c E').
  - intros a b c. destruct (cmp a b) eqn:E1; [| |done]; cbn; intros E1'.
    + rewrite (cmp_same _ Hcmp a b c E1). destruct (cmp b c); [|done..]. cbn. by eapply (cmp_trans _ Hcmp').
    + destruct (cmp b c) eqn:E2; [| |done]; cbn; intros E2'.
      * assert (cmp c b = Eq) as E by (rewrite (cmp_opp _ Hcmp b c); by rewrite E2).
        rewrite (cmp_opp _ Hcmp c a), (cmp_same _ Hcmp c b a E), (cmp_opp _ Hcmp a b). by rewrite E1.
      * by rewrite (cmp_trans _ Hcmp a b c).
Qed.
End compares.

Lemma bool_compares : compares Bool.compare.
Proof. split; by intros [] []; try intros []. Qed.

Lemma ascii_compares : compares Ascii.compare.
Proof.
  split; unfold Ascii.compare; intros.
  - apply N.compare_antisym.
  - apply N.compare_eq in H. by rewrite H.
  - rewrite N.compare_lt_iff in *. lia.
Qed.

Lemma string_compares : compares String.compare.
Proof.
  split.
  - induction a as [|x a IH]; intros [|y b]; cbn; try done. rewrite (cmp_opp _ ascii_compares x y), IH.
    by destruct (Ascii.compare x y).
  - intros a b c E. by apply String.compare_eq_iff in E as ->.
  - induction a as [|x a IH]; intros [|y b] [|z c]; cbn; try done.
    destruct (Ascii.compare x y) eqn:E1; [| |done]; intros H1;
      (destruct (Ascii.compare y z) eqn:E2; [| |done]); intros H2.
    + rewrite (cmp_same _ ascii_compares x y z E1), E2. by eapply IH.
    + by rewrite (cmp_same _ ascii_compares x y z E1), E2.
    + apply Ascii.compare_eq_iff in E2 as ->. by rewrite E1.
    + by rewrite (cmp_trans _ ascii_compares x y z).
Qed.

Definition field_compare (f : OutputName → option string) (a b : OutputName) : comparison :=
  option_compare String.compare (f a) (f b).

(** The order is lexicographic. *)
Lemma output_compare_fields a b :
  output_compare a b =
  then_with (Bool.compare (missing_mms a) (missing_mms b))
    (then_with (field_compare on_make a b) (then_with (field_compare on_model a b)
      (then_with (field_compare on_serial a b) (String.compare a.(on_connector) b.(on_connector))))).
Proof.
  unfold output_compare, field_compare. destruct a as [ca [ma|] [oa|] [sa|]], b as [cb [mb|] [ob|] [sb|]]; reflexivity.
Qed.

Lemma output_compares : compares output_compare.
Proof.
  assert (Hf : ∀ f, compares (field_compare f)).
  { intros f. apply (pull_compares _ (option_compares _ string_compares)). }
  pose proof (then_compares _ (pull_compares _ bool_compares missing_mms) _
    (then_compares _ (Hf on_make) _ (then_compares _ (Hf on_model) _ (then_compares _ (Hf on_serial) _
      (pull_compares _ string_compares on_connector))))) as [H1 H2 H3].
  split; intros; rewrite !output_compare_fields in *; eauto.
Qed.

Lemma output_compare_connector a b : output_compare a b = Eq → on_connector a = on_connector b.
Proof.
  rewrite output_compare_fields. repeat (destruct (Bool.compare _ _) || destruct (field_compare _ _ _); cbn; try done).
  apply String.compare_eq_iff.
Qed.

Lemma output_leb_spec a b : output_leb a b = true ↔ output_compare a b ≠ Gt.
Proof. unfold output_leb. by destruct (output_compare a b). Qed.

Lemma output_leb_total a b : output_leb a b = true ∨ output_leb b a = true.
Proof. rewrite !output_leb_spec. apply compares_total, output_compares. Qed.

Lemma output_leb_trans a b c : output_leb a b = true → output_leb b c = true → output_leb a c = true.
Proof. rewrite !output_leb_spec. apply compares_le_trans, output_compares. Qed.

Lemma output_leb_antisym a b : output_leb a b = true → output_leb b a = true → on_connector a = on_connector b.
Proof.
  rewrite !output_leb_spec. intros H1 H2. apply output_compare_connector.
  rewrite (cmp_opp _ output_compares) in H2. by destruct (output_compare a b).
Qed.

(** ** Lists of coordinates *)
Lemma max_or_0_spec l :
  (l = [] ∧ max_or_0 l = 0) ∨ (max_or_0 l ∈ l ∧ ∀ x, x ∈ l → x ≤ max_or_0 l).
Proof.
  destruct l as [|x l]; [by left|right]. cbn [max_or_0]. induction l as [|y l IH]; cbn [foldr].
  - split; [left|]. intros z ->%list_elem_of_singleton. done.
  - destruct IH as [IH1 IH2]. split.
    + destruct (Z.max_spec y (foldr Z.max x l)) as [[_ ->]|[_ ->]]; [|right; left].
      apply elem_of_cons in IH1 as [->|H]; [left|right; by right].
    + intros z [->|[->|Hz]%elem_of_cons]%elem_of_cons; [|lia|]; (etrans; [apply IH2|lia]); [by left|by right].
Qed.

Section space.
  Context {S : Type} `{OutputSpace S}.

Lemma geometries_runs (s : S) :
  runs (geometries s) (λ l, ∀ r, r ∈ l ↔ ∃ o, sp_geometry s o = Some r).
Proof.
  unfold geometries.
  assert (Hin : ∀ o, o ∈ sp_outputs s → is_Some (sp_geometry s o)) by (intros o; apply sp_outputs_mapped).
  destruct (mapM (sp_geometry s) (sp_outputs s)) as [l|] eqn:E.
  - apply runs_ret. apply mapM_Some_1 in E. intros r. split.
    + intros Hr. apply list_elem_of_lookup in Hr as [i Hi].
      destruct (Forall2_lookup_r _ _ _ _ _ E Hi) as (o & _ & Ho). by exists o.
    + intros [o Ho]. assert (o ∈ sp_outputs s) as Hs by (apply sp_outputs_mapped; by eexists).
      apply list_elem_of_lookup in Hs as [i Hi]. destruct (Forall2_lookup_l _ _ _ _ _ E Hi) as (r' & Hr & Ho').
      rewrite Ho in Ho'. injection Ho' as ->. by eapply list_elem_of_lookup_2.
  - exfalso. apply eq_None_not_Some in E. apply E. apply mapM_is_Some. by apply Forall_forall.
Qed.

(** Outputs whose right edges overflow make the search for free space panic. *)
Definition edges_ok (s : S) : Prop := ∀ o r, sp_geometry s o = Some r → i32_ok (r.(re_x) + r.(re_w)).

(** [x] is where the rightmost output ends, if there is one, and zero otherwise. *)
Definition ends_all (s : S) (x : Z) : Prop :=
  (∀ o r, sp_geometry s o = Some r → r.(re_x) + r.(re_w) ≤ x) ∧
  ((x = 0 ∧ ∀ o, sp_geometry s o = None) ∨ ∃ o r, sp_geometry s o = Some r ∧ r.(re_x) + r.(re_w) = x).

Lemma ends_all_unique s x y : ends_all s x → ends_all s y → x = y.
Proof.
  intros [H1 [[-> N1]|(o1 & r1 & G1 & <-)]] [H2 [[-> N2]|(o2 & r2 & G2 & <-)]]; try done; try congruence.
  apply H2 in G1. apply H1 in G2. lia.
Qed.

Lemma free_x_runs s : edges_ok s → runs (free_x s) (ends_all s).
Proof.
  intros He. unfold free_x. eapply runs_bind; [apply geometries_runs|]. intros l Hl. cbv beta.
  assert (E : mapM (λ geom, i32_add geom.(re_x) geom.(re_w)) l = Some ((λ r, r.(re_x) + r.(re_w)) <$> l)).
  { apply mapM_Some_2. apply Forall2_fmap_r, Forall_Forall2_diag, Forall_forall. intros r Hr.
    apply Hl in Hr as [o Ho]. by eapply i32_add_ok, He. }
  rewrite E. cbn [mbind option_bind]. apply runs_ret. destruct (max_or_0_spec ((λ r, r.(re_x) + r.(re_w)) <$> l)) as [[Hn ->]|[Hm Hmax]].
  - apply fmap_nil_inv in Hn as ->. assert (Hno : ∀ o, sp_geometry s o = None).
    { intros o. destruct (sp_geometry s o) as [r|] eqn:Eo; [|done]. assert (r ∈ []) as Hr by (apply Hl; by exists o).
      by apply elem_of_nil in Hr. }
    split; [by intros o r; rewrite Hno|]. left. done.
  - split.
    + intros o r Ho. apply Hmax. apply list_elem_of_fmap. exists r. split; [done|]. apply Hl. by exists o.
    + right. apply list_elem_of_fmap in Hm as (r & -> & Hr). apply Hl in Hr as [o Ho]. by exists o, r.
Qed.

Lemma free_x_edges s x : free_x s = Some x → edges_ok s.
Proof.
  unfold free_x. destruct (geometries_runs s) as (l & -> & Hl). cbn [mbind option_bind].
  intros (edges & E & _)%bind_Some o r Ho. apply mapM_Some_1 in E.
  assert (r ∈ l) as Hr by (apply Hl; by exists o). apply list_elem_of_lookup in Hr as [i Hi].
  destruct (Forall2_lookup_l _ _ _ _ _ E Hi) as (e & _ & He). unfold i32_add in He.
  by destruct (decide (i32_ok (re_x r + re_w r))).
Qed.

(** Two spaces are the same to their users when outputs are in the same places in them. *)
#[export] Instance space_equiv : Equiv S := λ s1 s2, ∀ o, sp_geometry s1 o = sp_geometry s2 o.

#[export] Instance space_equivalence : Equivalence (≡@{S}).
Proof. split; [by intros s o|by intros s1 s2 E o|intros s1 s2 s3 E1 E2 o; by rewrite E1, E2]. Qed.

#[export] Instance sp_map_proper o p : Proper ((≡) ==> (≡@{S})) (sp_map o p).
Proof. intros s1 s2 E o'. rewrite !sp_geometry_map. by destruct (decide _). Qed.

#[export] Instance sp_unmap_proper o : Proper ((≡) ==> (≡@{S})) (sp_unmap o).
Proof. intros s1 s2 E o'. rewrite !sp_geometry_unmap. by destruct (decide _). Qed.

#[export] Instance edges_ok_proper : Proper ((≡@{S}) ==> iff) edges_ok.
Proof. intros s1 s2 E. split; intros He o r Ho; eapply He; [by rewrite E|by rewrite <- E]. Qed.

#[export] Instance ends_all_proper : Proper ((≡@{S}) ==> (=) ==> iff) ends_all.
Proof.
  assert (Himp : ∀ s1 s2 x, s1 ≡@{S} s2 → ends_all s1 x → ends_all s2 x).
  { intros s1 s2 x E [H1 H2]. split; [intros o r Ho; eapply H1; by rewrite E|].
    destruct H2 as [[Hx Hn]|(o & r & Ho & Hr)]; [left; split; [done|]; intros o; by rewrite <- E|right].
    exists o, r. by rewrite <- E. }
  intros s1 s2 E x y ->. split; apply Himp; [done|by symmetry].
Qed.

Lemma free_x_equiv s1 s2 x : s1 ≡@{S} s2 → free_x s1 = Some x → free_x s2 = Some x.
Proof.
  intros E E1. pose proof (free_x_edges _ _ E1) as He. destruct (free_x_runs s1 He) as (x1 & E1' & H1).
  rewrite E in He, H1. destruct (free_x_runs s2 He) as (x2 & E2 & H2). pose proof (ends_all_unique _ _ _ H1 H2). congruence.
Qed.

#[export] Instance free_x_proper : Proper ((≡@{S}) ==> (=)) free_x.
Proof.
  intros s1 s2 E. destruct (free_x s1) as [x1|] eqn:E1; [by rewrite (free_x_equiv s1 s2 x1)|].
  destruct (free_x s2) as [x2|] eqn:E2; [|done]. symmetry in E. by rewrite (free_x_equiv s2 s1 x2) in E1.
Qed.

Section placing.
  Context (output_size : OutputName → Size) (overlaps : Rect → Rect → bool) (config : list OutputConfig).

#[export] Instance new_position_proper d : Proper ((≡@{S}) ==> (=)) (λ s, new_position output_size overlaps s d).
Proof.
  intros s1 s2 E. unfold new_position. rewrite (free_x_proper s1 s2 E). destruct (od_config d) as [pos|]; [|done].
  destruct (geometries_runs s1) as (l1 & -> & H1), (geometries_runs s2) as (l2 & -> & H2). cbn [mbind option_bind].
  assert (Hl : ∀ r, r ∈ l1 ↔ r ∈ l2) by (intros r; rewrite H1, H2; split; intros [o Ho]; exists o; by rewrite <- ?E, ?Ho; rewrite ?E).
  replace (existsb (λ geom, overlaps geom (rect_at pos (output_size (od_output d)))) l2)
    with (existsb (λ geom, overlaps geom (rect_at pos (output_size (od_output d)))) l1); [done|].
  apply Bool.eq_iff_eq_true. rewrite !existsb_exists. setoid_rewrite <- list_elem_of_In. by setoid_rewrite Hl.
Qed.

(** Where an output is put does not depend on where it was. *)
Lemma place_outputs_equiv l1 l2 s1 s2 :
  s1 ≡@{S} s2 → (λ d, (d.(od_output), d.(od_config))) <$> l1 = (λ d, (d.(od_output), d.(od_config))) <$> l2 →
  option_relation (λ r1 r2, fst r1 ≡@{S} fst r2) (λ _, False) (λ _, False)
    (place_outputs output_size overlaps l1 s1) (place_outputs output_size overlaps l2 s2).
Proof.
  revert l2 s1 s2. induction l1 as [|d1 l1 IH]; intros [|d2 l2] s1 s2 E Hl; try done.
  rewrite !fmap_cons in Hl. injection Hl as Ho Hc Hl. cbn [place_outputs].
  assert (Hp : new_position output_size overlaps s1 d1 = new_position output_size overlaps s2 d2).
  { rewrite (new_position_proper d1 s1 s2 E). unfold new_position. by rewrite Ho, Hc. }
  rewrite Hp, Ho. destruct (new_position output_size overlaps s2 d2) as [pos|]; [|done]. cbn [mbind option_bind].
  pose proof (IH l2 _ _ (sp_map_proper d2.(od_output) pos s1 s2 E) Hl) as IH'.
  destruct (place_outputs _ _ l1 _), (place_outputs _ _ l2 _); done.
Qed.

End placing.
End space.
