(* ===== verification/OutputPositionsProps.v ===== *)
(** * Where outputs are: properties

    Outputs are placed without overlapping those placed before, at their configured positions where
    these are free; the result depends only on which outputs there are.  Going to the next output
    and back is the identity. *)
From stdpp Require Import sorting strings.
From S2P Require Import Prelude BTree LayoutOutput Region OutputPositions.

Local Open Scope Z_scope.

Definition in_rect (r : Rect) (x y : Z) : Prop :=
  r.(re_x) ≤ x < r.(re_x) + r.(re_w) ∧ r.(re_y) ≤ y < r.(re_y) + r.(re_h).

Definition meet (a b : Rect) : Prop := ∃ x y, in_rect a x y ∧ in_rect b x y.

(** A rectangle with an area, all of it within the range of coordinates. *)
Definition rect_fits (r : Rect) : Prop :=
  0 < r.(re_w) ∧ 0 < r.(re_h) ∧ i32_ok r.(re_x) ∧ i32_ok r.(re_y) ∧
  i32_ok (r.(re_x) + r.(re_w)) ∧ i32_ok (r.(re_y) + r.(re_h)).

(** What Smithay says of [Rectangle::overlaps]. *)
Definition overlaps_spec (overlaps : Rect → Rect → bool) : Prop :=
  ∀ a b, rect_fits a → rect_fits b → overlaps a b = true ↔ meet a b.

Definition total_width (size : OutputName → Size) (l : list OutputName) : Z :=
  foldr (λ o n, fst (size o) + n) 0 l.

Section placing.
  Context {S : Type} `{!OutputSpace S}.
  Context (output_size : OutputName → Size) (overlaps : Rect → Rect → bool) (config : list OutputConfig).
  Context (Hoverlaps : overlaps_spec overlaps).

Definition size_fits (size : Size) : Prop := 0 < fst size < 2 ^ 31 ∧ 0 < snd size < 2 ^ 31.

(** The coordinates that arise when the outputs are placed are in range: [edge] bounds where the
    configured ones start. *)
Record data_fits (edge : Z) (d : OutputData) : Prop := {
  df_size : size_fits (output_size d.(od_output));
  df_mapped : size_fits (sp_size (S:=S) d.(od_output));
  df_config p : d.(od_config) = Some p →
    fst p ≤ edge ∧ rect_fits (rect_at p (output_size d.(od_output))) ∧ rect_fits (rect_at p (sp_size (S:=S) d.(od_output)))
}.

(** Where an output is put after those of [earlier]. *)
Definition placed_after (s : S) (earlier : list OutputName) (d : OutputData) (pos : Point) : Prop :=
  (d.(od_config) = Some pos ∧
   ∀ o r, o ∈ earlier → sp_geometry s o = Some r → ¬ meet r (rect_at pos (output_size d.(od_output)))) ∨
  (snd pos = 0 ∧
   (∀ o r, o ∈ earlier → sp_geometry s o = Some r → r.(re_x) + r.(re_w) ≤ fst pos) ∧
   ((earlier = [] ∧ fst pos = 0) ∨ ∃ o r, o ∈ earlier ∧ sp_geometry s o = Some r ∧ r.(re_x) + r.(re_w) = fst pos) ∧
   ∀ p, d.(od_config) = Some p →
     ∃ o r, o ∈ earlier ∧ sp_geometry s o = Some r ∧ meet r (rect_at p (output_size d.(od_output)))).

Record placed (s : S) (earlier : list OutputName) (edge : Z) : Prop := {
  pl_outputs o : is_Some (sp_geometry s o) ↔ o ∈ earlier;
  pl_fits o r : sp_geometry s o = Some r → rect_fits r ∧ r.(re_x) + r.(re_w) ≤ edge;
  pl_edge : 0 ≤ edge
}.

Lemma placed_edges s earlier edge : placed s earlier edge → edges_ok s.
Proof. intros [_ Hf _] o r Ho. by apply Hf in Ho as [(_ & _ & _ & _ & Hx & _) _]. Qed.

Lemma placed_in s earlier edge o r : placed s earlier edge → sp_geometry s o = Some r → o ∈ earlier.
Proof. intros Hp Ho. apply (pl_outputs _ _ _ Hp). by eexists. Qed.

(** The free place to the right of everything. *)
Lemma free_x_placed s earlier edge d :
  placed s earlier edge → data_fits edge d → edge + fst (sp_size (S:=S) d.(od_output)) ≤ I32_MAX →
  (∀ p, d.(od_config) = Some p →
     ∃ o r, o ∈ earlier ∧ sp_geometry s o = Some r ∧ meet r (rect_at p (output_size d.(od_output)))) →
  runs (x ← free_x s; Some (x, 0)) (λ pos, placed_after s earlier d pos ∧ fst pos ≤ edge ∧
    rect_fits (rect_at pos (sp_size (S:=S) d.(od_output)))).
Proof.
  intros Hp [_ [[W1 W2] [H1 H2]] _] Hroom Hcfg. eapply runs_bind; [by eapply free_x_runs, placed_edges|].
  intros x [Hle Hx]. apply runs_ret. unfold I32_MAX in Hroom.
  assert (- 2 ^ 31 ≤ x ≤ edge) as Hb.
  { destruct Hx as [[-> _]|(o & r & Ho & <-)]; [pose proof (pl_edge _ _ _ Hp); lia|].
    apply (pl_fits _ _ _ Hp) in Ho as [(_ & _ & _ & _ & [? ?] & _) ?]. lia. }
  split; [right; split_and!; [done| | |done]|split; [cbn; lia|]].
  - intros o r _ Ho. by eapply Hle.
  - destruct Hx as [[-> Hno]|(o & r & Ho & <-)]; [left|right].
    + split; [|done]. destruct earlier as [|o earlier]; [done|].
      destruct (proj2 (pl_outputs _ _ _ Hp o)) as [r Hr]; [left|]. by rewrite Hno in Hr.
    + exists o, r. split_and!; [by eapply placed_in|done|done].
  - unfold rect_fits, i32_ok; cbn. lia.
Qed.

Lemma new_position_placed s earlier edge d :
  placed s earlier edge → data_fits edge d → edge + fst (sp_size (S:=S) d.(od_output)) ≤ I32_MAX →
  runs (new_position output_size overlaps s d) (λ pos, placed_after s earlier d pos ∧ fst pos ≤ edge ∧
    rect_fits (rect_at pos (sp_size (S:=S) d.(od_output)))).
Proof.
  intros Hp Hd Hroom. unfold new_position. destruct (od_config d) as [p|] eqn:Ec.
  - destruct (geometries_runs s) as (l & -> & Hl). cbn [mbind option_bind].
    destruct (df_config _ _ Hd p Ec) as (He & Hf & Hm).
    assert (Hex : existsb (λ geom, overlaps geom (rect_at p (output_size (od_output d)))) l = true ↔
      ∃ o r, o ∈ earlier ∧ sp_geometry s o = Some r ∧ meet r (rect_at p (output_size (od_output d)))).
    { rewrite existsb_exists. split.
      - intros (r & Hr%list_elem_of_In%Hl & Ho). destruct Hr as [o Hr]. exists o, r.
        split_and!; [by eapply placed_in|done|]. apply Hoverlaps; [by apply (pl_fits _ _ _ Hp) in Hr as [? _]|done|done].
      - intros (o & r & _ & Hr & Ho). exists r. split; [apply list_elem_of_In, Hl; by exists o|].
        apply Hoverlaps; [by apply (pl_fits _ _ _ Hp) in Hr as [? _]|done|done]. }
    destruct (existsb _ l) eqn:Eo; cbn [mbind option_bind].
    + apply free_x_placed; [done..|]. intros p' Ep. rewrite Ec in Ep. injection Ep as <-. by apply Hex.
    + apply runs_ret. split; [left; split; [done|]|done]. intros o r Ho Hr Hmeet.
      assert (false = true); [|done]. apply Hex. by exists o, r.
  - cbn [mbind option_bind]. apply free_x_placed; [done..|]. by rewrite Ec.
Qed.

Lemma placed_map s earlier edge o pos :
  placed s earlier edge → 0 < fst (sp_size (S:=S) o) → fst pos ≤ edge → rect_fits (rect_at pos (sp_size (S:=S) o)) →
  placed (sp_map o pos s) (earlier ++ [o]) (edge + fst (sp_size (S:=S) o)).
Proof.
  intros Hp Hw He Hf. split.
  - intros o'. rewrite sp_geometry_map, elem_of_app, list_elem_of_singleton. destruct (decide (o' = o)) as [->|Hne].
    + split; [by right|by eexists].
    + rewrite (pl_outputs _ _ _ Hp). naive_solver.
  - intros o' r. rewrite sp_geometry_map. destruct (decide (o' = o)) as [->|Hne].
    + intros [= <-]. split; [done|]. cbn. lia.
    + intros [? ?]%(pl_fits _ _ _ Hp). split; [done|lia].
  - pose proof (pl_edge _ _ _ Hp). lia.
Qed.

Lemma data_fits_weaken edge edge' d : edge ≤ edge' → data_fits edge d → data_fits edge' d.
Proof.
  intros Hle [H1 H2 H3]. split; [done|done|]. intros p Ep. destruct (H3 p Ep) as (? & ? & ?). split_and!; [lia|done|done].
Qed.

(** ** All the outputs *)

(** The outputs that moved, and where to. *)
Definition moved_to (s : S) (d : OutputData) (ch : list (OutputName * Point)) : Prop :=
  ∀ p, (d.(od_output), p) ∈ ch ↔ (location <$> sp_geometry s d.(od_output)) = Some p ∧ d.(od_position) ≠ Some p.

Lemma place_outputs_runs l s earlier edge :
  placed s earlier edge → Forall (data_fits edge) l → NoDup (earlier ++ (od_output <$> l)) →
  edge + total_width (sp_size (S:=S)) (od_output <$> l) ≤ I32_MAX →
  runs (place_outputs output_size overlaps l s) (λ r,
    (∀ o, is_Some (sp_geometry r.1 o) ↔ o ∈ earlier ++ (od_output <$> l)) ∧
    (∀ o, o ∈ earlier → sp_geometry r.1 o = sp_geometry s o) ∧
    (∀ o p, (o, p) ∈ r.2 → o ∈ od_output <$> l) ∧
    ∀ l1 d l2, l = l1 ++ d :: l2 → moved_to r.1 d r.2 ∧
      ∃ pos, sp_geometry r.1 d.(od_output) = Some (rect_at pos (sp_size (S:=S) d.(od_output))) ∧
        placed_after r.1 (earlier ++ (od_output <$> l1)) d pos).
Proof.
  revert s earlier edge. induction l as [|d l IH]; intros s earlier edge Hp Hf Hnd Hroom; cbn [place_outputs].
  { apply runs_ret. cbn. rewrite app_nil_r. split_and!; [apply (pl_outputs _ _ _ Hp)|done|by intros ? ? ?%elem_of_nil|].
    intros [|? l1] d l2; discriminate. }
  rewrite fmap_cons in Hnd, Hroom. cbn [total_width foldr] in Hroom. apply Forall_cons in Hf as [Hd Hf].
  assert (Hw : 0 < fst (sp_size (S:=S) (od_output d))) by (by destruct Hd as [_ [[? _] _] _]).
  assert (Hl0 : 0 ≤ total_width (sp_size (S:=S)) (od_output <$> l)).
  { clear -Hf. induction Hf as [|d' l [_ [[? _] _] _] _ IH]; cbn; [done|]. fold (total_width (sp_size (S:=S)) (od_output <$> l)). lia. }
  fold (total_width (sp_size (S:=S)) (od_output <$> l)) in Hroom.
  eapply runs_bind; [eapply new_position_placed; [done|done|lia]|]. intros pos (Hpl & He & Hfit).
  set (s1 := sp_map (od_output d) pos s).
  eapply runs_bind.
  { apply (IH s1 (earlier ++ [od_output d]) (edge + fst (sp_size (S:=S) (od_output d)))).
    - by apply placed_map.
    - eapply Forall_impl; [exact Hf|]. intros d'. apply data_fits_weaken. lia.
    - by rewrite <- app_assoc.
    - lia. }
  intros [s' ch] (G1 & G2 & G3 & G4). cbn [fst snd] in *. apply runs_ret. cbn [fst snd].
  apply NoDup_app in Hnd as (_ & Hdis & Hnd). apply NoDup_cons in Hnd as [Hnin _].
  assert (Hd1 : od_output d ∉ earlier) by (intros Hin; apply (Hdis _ Hin); left).
  assert (Hgeo : sp_geometry s' (od_output d) = Some (rect_at pos (sp_size (S:=S) (od_output d)))).
  { rewrite G2 by (apply elem_of_app; right; left). unfold s1. rewrite sp_geometry_map. by rewrite decide_True. }
  assert (Hold : ∀ o, o ∈ earlier → sp_geometry s' o = sp_geometry s o).
  { intros o Ho. rewrite G2 by (apply elem_of_app; by left). unfold s1. rewrite sp_geometry_map.
    rewrite decide_False; [done|]. by intros ->. }
  split_and!.
  - intros o. by rewrite G1, <- app_assoc.
  - exact Hold.
  - intros o p. destruct (decide _); [intros Hin; right; by eapply G3|].
    intros [[= -> ->]|Hin]%elem_of_cons; [left|right; by eapply G3].
  - intros l1 d' l2 El. destruct l1 as [|d1 l1]; cbn [app] in El; injection El as <- El; subst; cbn [fmap list_fmap app].
    + split; [|exists pos; split; [done|]; rewrite app_nil_r].
      * intros p. rewrite Hgeo. cbn. unfold location. cbn. rewrite <- surjective_pairing.
        assert (Hno : (od_output d, p) ∉ ch) by (intros Hin; by apply G3 in Hin).
        destruct (decide (Some pos = od_position d)) as [<-|Hne]; [naive_solver|]. rewrite elem_of_cons. naive_solver.
      * destruct Hpl as [[Hc Hfree]|(Hy & Hle & Hx & Hc)]; [left|right].
        -- split; [done|]. intros o r Ho. rewrite Hold by done. by apply Hfree.
        -- split_and!; [done| | |].
           ++ intros o r Ho. rewrite Hold by done. by apply Hle.
           ++ destruct Hx as [?|(o & r & Ho & Hr & Hx)]; [by left|right]. exists o, r. by rewrite Hold.
           ++ intros p Ep. destruct (Hc p Ep) as (o & r & Ho & Hr & Hm). exists o, r. by rewrite Hold.
    + destruct (G4 l1 d' l2 eq_refl) as (Hm & pos' & Hg' & Ha). split.
      * intros p. destruct (decide (Some pos = od_position d)); [apply Hm|]. rewrite elem_of_cons.
        split; [intros [[= E ->]|Hin]; [|by apply Hm]|intros Hin; right; by apply Hm]. exfalso. apply Hnin. rewrite <- E. rewrite fmap_app.
        apply elem_of_app. right. left.
      * exists pos'. split; [done|]. by rewrite <- app_assoc in Ha.
Qed.

End placing.

Section reposition.
  Context {S : Type} `{!OutputSpace S}.
  Context (output_size : OutputName → Size) (overlaps : Rect → Rect → bool) (config : list OutputConfig).

Definition configured (o : OutputName) : option Point := c ← find_output_config config o; c.(oc_position).

(** The names in the order in which the outputs are placed. *)
Definition configured_name_first (a b : OutputName) : bool := implb (is_none (configured a)) (is_none (configured b)).
Definition placing_names (l : list OutputName) : list OutputName :=
  stable_sort configured_name_first (stable_sort output_leb l).

Lemma placing_order_names (s : S) (l : list OutputName) :
  placing_order (output_data config s <$> l) = output_data config s <$> placing_names l.
Proof.
  unfold placing_order, placing_names.
  rewrite (stable_sort_map output_leb by_name (output_data config s)) by done.
  by rewrite (stable_sort_map configured_name_first configured_first (output_data config s)).
Qed.

Lemma outputs_of_data (s : S) (l : list OutputName) : od_output <$> (output_data config s <$> l) = l.
Proof. rewrite <- list_fmap_compose. by apply list_fmap_id. Qed.

Lemma placing_names_Permutation l : placing_names l ≡ₚ l.
Proof. unfold placing_names. by rewrite !stable_sort_Permutation. Qed.

Lemma placing_names_unique l1 l2 : l1 ≡ₚ l2 → NoDup (on_connector <$> l1) → placing_names l1 = placing_names l2.
Proof.
  intros E Hnd. unfold placing_names. f_equal. apply (StronglySorted_unique_strong (λ a b, output_leb a b = true)).
  - intros a b Ha Hb H1 H2. rewrite elem_of_stable_sort in Ha, Hb. rewrite <- E in Hb.
    pose proof (output_leb_antisym a b H1 H2) as Ec. apply list_elem_of_lookup in Ha as [i Hi], Hb as [j Hj].
    assert (i = j) as ->; [|congruence]. eapply NoDup_lookup; [exact Hnd|..]; rewrite list_lookup_fmap.
    + by rewrite Hi.
    + rewrite Hj. cbn. by rewrite Ec.
  - apply stable_sort_sorted; [apply output_leb_total|apply output_leb_trans].
  - apply stable_sort_sorted; [apply output_leb_total|apply output_leb_trans].
  - by rewrite !stable_sort_Permutation.
Qed.

Lemma unmapped (s : S) l o :
  sp_geometry (foldl (λ s d, sp_unmap d.(od_output) s) s l) o =
  if decide (o ∈ od_output <$> l) then None else sp_geometry s o.
Proof.
  revert s. induction l as [|d l IH]; intros s; cbn [foldl]; [by rewrite decide_False by apply not_elem_of_nil|].
  rewrite IH, sp_geometry_unmap, fmap_cons. destruct (decide (o ∈ od_output <$> l)).
  - by rewrite decide_True by (by right).
  - destruct (decide (o = od_output d)) as [->|]; [by rewrite decide_True by left|].
    rewrite decide_False; [done|]. by intros [?|?]%elem_of_cons.
Qed.

(** All outputs that take part. *)
Definition all_outputs (os : Outputs S) (new_output : option OutputName) : list OutputName :=
  sp_outputs os.(os_space) ++ option_list new_output.

Lemma reposition_unfold os new_output :
  reposition_outputs output_size overlaps config os new_output =
  r ← place_outputs output_size overlaps (output_data config os.(os_space) <$> placing_names (all_outputs os new_output))
        (foldl (λ s d, sp_unmap d.(od_output) s) os.(os_space) (output_data config os.(os_space) <$> all_outputs os new_output));
  Some (MkOutputs (fst r) (placing_names (all_outputs os new_output)), snd r).
Proof.
  unfold reposition_outputs. fold (all_outputs os new_output). rewrite placing_order_names.
  destruct (place_outputs _ _ _ _); [|done]. cbn [mbind option_bind]. by rewrite outputs_of_data.
Qed.

Lemma all_unmapped os new_output o :
  sp_geometry (foldl (λ s d, sp_unmap d.(od_output) s) os.(os_space)
    (output_data config os.(os_space) <$> all_outputs os new_output)) o = None.
Proof.
  rewrite unmapped, outputs_of_data. destruct (decide _) as [|Hn]; [done|]. apply eq_None_not_Some. intros Hs.
  apply Hn. apply elem_of_app. left. by apply sp_outputs_mapped.
Qed.

Lemma total_width_Permutation size l1 l2 : l1 ≡ₚ l2 → total_width size l1 = total_width size l2.
Proof.
  intros E. unfold total_width. induction E as [|o l1 l2 _ IH|o1 o2 l|l1 l2 l3 _ IH1 _ IH2]; cbn [foldr]; [done|by rewrite IH| |congruence].
  lia.
Qed.

(** C18: Outputs are placed apart. When a new output appears or one has gone, and the widths and
    configured positions add up to coordinates within range, no sum overflows; every output gets a
    place, and as large as the compositor takes it to be it does not meet any output that was
    placed before it. That place is the configured one if no output before it is in the way, and
    otherwise the one to the right of them all; exactly the outputs that are not where they were are
    reported as moved. *)
Theorem outputs_are_placed_apart edge os new_output :
  overlaps_spec overlaps →
  NoDup (all_outputs os new_output) → 0 ≤ edge →
  Forall (λ o, data_fits (S:=S) output_size edge (output_data config os.(os_space) o)) (all_outputs os new_output) →
  edge + total_width (sp_size (S:=S)) (all_outputs os new_output) ≤ I32_MAX →
  ∃ os' ch, reposition_outputs output_size overlaps config os new_output = Some (os', ch) ∧
    os'.(os_sorted) ≡ₚ all_outputs os new_output ∧
    (∀ o, o ∈ sp_outputs os'.(os_space) ↔ o ∈ all_outputs os new_output) ∧
    ∀ earlier o later, os'.(os_sorted) = earlier ++ o :: later →
      moved_to os'.(os_space) (output_data config os.(os_space) o) ch ∧
      ∃ pos, sp_geometry os'.(os_space) o = Some (rect_at pos (sp_size (S:=S) o)) ∧
        placed_after output_size os'.(os_space) earlier (output_data config os.(os_space) o) pos ∧
        ∀ o' r, o' ∈ earlier → sp_geometry os'.(os_space) o' = Some r → ¬ meet r (rect_at pos (output_size o)).
Proof.
  intros Hov Hnd He Hf Hroom. rewrite reposition_unfold. set (names := placing_names _).
  assert (Hn : names ≡ₚ all_outputs os new_output) by apply placing_names_Permutation.
  destruct (place_outputs_runs output_size overlaps Hov (output_data config os.(os_space) <$> names)
    (foldl (λ s d, sp_unmap d.(od_output) s) os.(os_space) (output_data config os.(os_space) <$> all_outputs os new_output))
    [] edge) as ([s' ch] & E & G1 & _ & _ & G4).
  - split; [|by intros o r; rewrite all_unmapped|done]. intros o. rewrite all_unmapped.
    split; [by intros [? ?]|by intros ?%elem_of_nil].
  - apply Forall_fmap. by rewrite Hn.
  - rewrite outputs_of_data. cbn. by rewrite Hn.
  - by rewrite outputs_of_data, (total_width_Permutation _ _ _ Hn).
  - rewrite E. cbn [mbind option_bind fst snd] in *. eexists _, ch. split; [done|]. cbn [os_sorted os_space].
    split; [done|]. rewrite outputs_of_data in G1. split.
    + intros o. by rewrite sp_outputs_mapped, G1, <- Hn.
    + intros earlier o later Es.
      destruct (G4 (output_data config os.(os_space) <$> earlier) (output_data config os.(os_space) o)
        (output_data config os.(os_space) <$> later)) as (Hm & pos & Hg & Hp).
      { by rewrite Es, fmap_app. }
      split; [done|]. rewrite outputs_of_data in Hp. exists pos. split_and!; [done|done|].
      intros o' r Ho Hr. destruct Hp as [[_ Hfree]|(_ & Hle & _)]; [by eapply Hfree|].
      specialize (Hle o' r Ho Hr). intros (x & y & [Hx _] & [Hx' _]). cbn in Hx'. lia.
Qed.

(** C33: The places of the outputs depend on which outputs there are, not on the order in which they
    appeared nor on where they were, as long as their connectors differ: from two arrangements of
    the same outputs both computations panic or neither does, and they give the same order and the
    same places. *)
Theorem positions_ignore_history os1 os2 new1 new2 :
  all_outputs os1 new1 ≡ₚ all_outputs os2 new2 → NoDup (on_connector <$> all_outputs os1 new1) →
  option_relation (λ r1 r2, r1.1.(os_sorted) = r2.1.(os_sorted) ∧ r1.1.(os_space) ≡@{S} r2.1.(os_space))
    (λ _, False) (λ _, False)
    (reposition_outputs output_size overlaps config os1 new1) (reposition_outputs output_size overlaps config os2 new2).
Proof.
  intros E Hnd. rewrite !reposition_unfold, (placing_names_unique _ _ E Hnd). set (names := placing_names _).
  assert (He : (foldl (λ s d, sp_unmap d.(od_output) s) os1.(os_space) (output_data config os1.(os_space) <$> all_outputs os1 new1))
    ≡@{S} (foldl (λ s d, sp_unmap d.(od_output) s) os2.(os_space) (output_data config os2.(os_space) <$> all_outputs os2 new2))).
  { intros o. by rewrite !all_unmapped. }
  assert (Hl : (λ d, (d.(od_output), d.(od_config))) <$> (output_data config os1.(os_space) <$> names) =
    (λ d, (d.(od_output), d.(od_config))) <$> (output_data config os2.(os_space) <$> names)).
  { by rewrite <- !list_fmap_compose. }
  pose proof (place_outputs_equiv output_size overlaps _ _ _ _ He Hl) as Hr.
  destruct (place_outputs _ _ _ _) as [r1|], (place_outputs _ _ _ _) as [r2|]; done.
Qed.

End reposition.

(** ** Neighbours *)
Section neighbours.
  Context {S : Type} `{!OutputSpace S}.

Lemma skip_to_split l1 o l2 : o ∉ l1 → skip_to o (l1 ++ o :: l2) = o :: l2.
Proof.
  induction l1 as [|x l1 IH]; cbn; intros Hn; [by rewrite decide_True|].
  apply not_elem_of_cons in Hn as [Hne Hn]. rewrite decide_False by done. by apply IH.
Qed.

Lemma output_after_split l1 o l2 :
  NoDup (l1 ++ o :: l2) →
  output_after o (l1 ++ o :: l2) = match l2, l1 with o' :: _, _ => Some o' | [], o' :: _ => Some o' | [], [] => None end.
Proof.
  intros Hnd. apply NoDup_app in Hnd as (_ & Hd & Hnd). apply NoDup_cons in Hnd as [Ho _].
  assert (Hn : o ∉ l1) by (intros Hin; apply (Hd _ Hin); left).
  unfold output_after. rewrite skip_to_split by done. destruct l2 as [|o2 l2]; cbn.
  - destruct l1 as [|o1 l1]; cbn; [by rewrite decide_True|]. rewrite decide_False; [done|]. intros ->. apply Hn. left.
  - rewrite decide_False; [done|]. intros ->. apply Ho. left.
Qed.

(** The next and the previous output by their places in the sorted order. *)
Lemma output_next_at (os : Outputs S) i o :
  NoDup os.(os_sorted) → (1 < length os.(os_sorted))%nat → os.(os_sorted) !! i = Some o →
  output_next_of os o = os.(os_sorted) !! (Datatypes.S i mod length os.(os_sorted))%nat.
Proof.
  intros Hnd Hlen Hi. pose proof (lookup_lt_Some _ _ _ Hi) as Hlt. unfold output_next_of.
  apply list_elem_of_split_length in Hi as (l1 & l2 & E & ->). rewrite E in *. rewrite output_after_split by done.
  rewrite length_app in *. cbn [length] in *. destruct l2 as [|o2 l2]; cbn [length] in *.
  - replace (Datatypes.S (length l1)) with (length l1 + 1)%nat by lia. rewrite Nat.Div0.mod_same.
    destruct l1; [cbn in *; lia|done].
  - rewrite Nat.mod_small by lia. rewrite lookup_app_r by lia. by replace (Datatypes.S (length l1) - length l1)%nat with 1%nat by lia.
Qed.

Lemma output_previous_at (os : Outputs S) i o :
  NoDup os.(os_sorted) → (1 < length os.(os_sorted))%nat → os.(os_sorted) !! i = Some o →
  output_previous_of os o = os.(os_sorted) !! ((i + length os.(os_sorted) - 1) mod length os.(os_sorted))%nat.
Proof.
  intros Hnd Hlen Hi. pose proof (lookup_lt_Some _ _ _ Hi) as Hlt. unfold output_previous_of.
  apply list_elem_of_split_length in Hi as (l1 & l2 & E & ->). rewrite E in *.
  assert (Er : rev (l1 ++ o :: l2) = rev l2 ++ o :: rev l1) by (rewrite rev_app_distr; cbn; by rewrite <- app_assoc).
  rewrite Er, output_after_split by (rewrite <- Er; by rewrite <- Permutation_rev).
  rewrite length_app in *. cbn [length] in *. destruct l1 as [|a l1 _] using rev_ind.
  - cbn [rev app length]. rewrite Nat.mod_small by lia. destruct l2 as [|b l2 _] using rev_ind; [cbn in *; lia|].
    rewrite rev_app_distr. cbn. rewrite length_app. cbn. replace (length l2 + 1 - 0)%nat with (Datatypes.S (length l2)) by lia.
    rewrite (lookup_app_r (o :: l2) [b]) by (cbn; lia). by rewrite Nat.sub_diag.
  - rewrite rev_app_distr, length_app in *. cbn [rev app length] in *.
    replace (length l1 + 1 + (length l1 + 1 + Datatypes.S (length l2)) - 1)%nat
      with (length l1 + 1 * (length l1 + 1 + Datatypes.S (length l2)))%nat by lia.
    rewrite Nat.Div0.mod_add, Nat.mod_small by lia. rewrite <- app_assoc, lookup_app_r by lia. by rewrite Nat.sub_diag.
Qed.

(** One step forward and one back in a cycle of [n] places. *)
Lemma cycle_forth n i : (i < n)%nat → ((Datatypes.S i mod n + n - 1) mod n)%nat = i.
Proof.
  intros Hi. destruct (decide (Datatypes.S i = n)) as [E|].
  - rewrite E, Nat.Div0.mod_same, Nat.mod_small by lia. lia.
  - rewrite (Nat.mod_small (Datatypes.S i)) by lia. replace (Datatypes.S i + n - 1)%nat with (i + 1 * n)%nat by lia.
    by rewrite Nat.Div0.mod_add, Nat.mod_small by lia.
Qed.

Lemma cycle_back n i : (i < n)%nat → (Datatypes.S ((i + n - 1) mod n) mod n)%nat = i.
Proof.
  intros Hi. destruct (decide (i = 0%nat)) as [->|].
  - rewrite (Nat.mod_small (0 + n - 1)) by lia. replace (Datatypes.S (0 + n - 1)) with n by lia. apply Nat.Div0.mod_same.
  - replace (i + n - 1)%nat with (i - 1 + 1 * n)%nat by lia. rewrite Nat.Div0.mod_add, (Nat.mod_small (i - 1)) by lia.
    replace (Datatypes.S (i - 1)) with i by lia. by apply Nat.mod_small.
Qed.

(** Going to the next and then to the previous output, or the other way, ends where it began. *)
Lemma next_previous (os : Outputs S) o :
  NoDup os.(os_sorted) → (1 < length os.(os_sorted))%nat → o ∈ os.(os_sorted) →
  (∃ o', o' ∈ os.(os_sorted) ∧ output_next_of os o = Some o' ∧ output_previous_of os o' = Some o) ∧
  ∃ o', o' ∈ os.(os_sorted) ∧ output_previous_of os o = Some o' ∧ output_next_of os o' = Some o.
Proof.
  intros Hnd Hlen [i Hi]%list_elem_of_lookup. pose proof (lookup_lt_Some _ _ _ Hi) as Hlt. split.
  - destruct (lookup_lt_is_Some_2 os.(os_sorted) (Datatypes.S i mod length os.(os_sorted))%nat) as [o' Ho'];
      [apply Nat.mod_upper_bound; lia|].
    exists o'. rewrite (output_next_at os i o), (output_previous_at os _ o' Hnd Hlen Ho'), cycle_forth by done.
    split_and!; [by eapply list_elem_of_lookup_2|done..].
  - destruct (lookup_lt_is_Some_2 os.(os_sorted) ((i + length os.(os_sorted) - 1) mod length os.(os_sorted))%nat) as [o' Ho'];
      [apply Nat.mod_upper_bound; lia|].
    exists o'. rewrite (output_previous_at os i o), (output_next_at os _ o' Hnd Hlen Ho'), cycle_back by done.
    split_and!; [by eapply list_elem_of_lookup_2|done..].
Qed.

(** The outputs form a cycle. In their sorted order, with more than one of them, the next of every
    output is the one after it, the first after the last, and the previous of every output is the one
    before it; so going to the next and then to the previous output ends where it began. *)
Theorem outputs_form_a_cycle (os : Outputs S) i o :
  NoDup os.(os_sorted) → (1 < length os.(os_sorted))%nat → os.(os_sorted) !! i = Some o →
  let n := length os.(os_sorted) in
  output_next_of os o = os.(os_sorted) !! (Datatypes.S i mod n)%nat ∧
  output_previous_of os o = os.(os_sorted) !! ((i + n - 1) mod n)%nat ∧
  ∃ o', output_next_of os o = Some o' ∧ output_previous_of os o' = Some o.
Proof.
  intros Hnd Hlen Hi n. split_and!; [by apply output_next_at|by apply output_previous_at|].
  destruct (next_previous os o Hnd Hlen) as [(o' & _ & ?) _]; [by eapply list_elem_of_lookup_2|]. by exists o'.
Qed.

(** *** Above, below, left and right *)
Context (overlaps : Rect → Rect → bool).

Lemma nearest_output_runs distance (s : S) l :
  (∀ o, o ∈ l → ∃ r d, sp_geometry s o = Some r ∧ distance r = Some d) →
  runs (nearest_output distance s l) (λ best, match best with
    | None => ∀ o r, o ∈ l → sp_geometry s o = Some r → distance r = Some None
    | Some (o, d) => o ∈ l ∧ (∃ r, sp_geometry s o = Some r ∧ distance r = Some (Some d)) ∧
        ∀ o' r' d', o' ∈ l → sp_geometry s o' = Some r' → distance r' = Some (Some d') → d ≤ d'
    end).
Proof.
  induction l as [|o l IH]; cbn [nearest_output]; intros Hl; [apply runs_ret; by intros ? ? ?%elem_of_nil|].
  destruct (Hl o) as (r & d & Hr & Hd); [left|]. rewrite Hr. cbn [mbind option_bind]. rewrite Hd. cbn [mbind option_bind].
  eapply runs_bind; [by apply IH; intros; apply Hl; right|]. intros best Hb. apply runs_ret.
  destruct d as [d|], best as [[ob db]|].
  - destruct Hb as (Ho & (rb & Hrb & Hdb) & Hmin). destruct (Z.ltb_spec db d).
    + split_and!; [by right|by exists rb|]. intros o' r' d' [->|Ho']%elem_of_cons Hr' Hd'; [|by eapply Hmin].
      rewrite Hr in Hr'. injection Hr' as <-. rewrite Hd in Hd'. injection Hd' as <-. lia.
    + split_and!; [left|by exists r|]. intros o' r' d' [->|Ho']%elem_of_cons Hr' Hd'.
      * rewrite Hr in Hr'. injection Hr' as <-. rewrite Hd in Hd'. injection Hd' as <-. done.
      * specialize (Hmin o' r' d' Ho' Hr' Hd'). lia.
  - split_and!; [left|by exists r|]. intros o' r' d' [->|Ho']%elem_of_cons Hr' Hd'.
    + rewrite Hr in Hr'. injection Hr' as <-. rewrite Hd in Hd'. by injection Hd' as <-.
    + by rewrite (Hb o' r' Ho' Hr') in Hd'.
  - destruct Hb as (Ho & (rb & Hrb & Hdb) & Hmin). split_and!; [by right|by exists rb|].
    intros o' r' d' [->|Ho']%elem_of_cons Hr' Hd'; [|by eapply Hmin]. rewrite Hr in Hr'. injection Hr' as <-. congruence.
  - intros o' r' [->|Ho']%elem_of_cons Hr'; [|by eapply Hb]. rewrite Hr in Hr'. by injection Hr' as <-.
Qed.

(** The nearest of the outputs on one side, by their centers, that meet the row or column; an output
    is never its own neighbour. *)
Lemma output_beside_nearest center forward extend (s : S) current geo :
  sp_geometry s current = Some geo →
  (∀ o r, sp_geometry s o = Some r → is_Some (distance_on overlaps center forward (extend geo) geo r)) →
  runs (output_beside overlaps center forward extend s current) (λ best,
    let beside o d := ∃ r, sp_geometry s o = Some r ∧ distance_on overlaps center forward (extend geo) geo r = Some (Some d) in
    match best with
    | None => ∀ o d, ¬ beside o d
    | Some o => o ≠ current ∧ o ∈ sp_outputs s ∧ ∃ d, beside o d ∧ ∀ o' d', beside o' d' → d ≤ d'
    end).
Proof.
  intros Hg Hd. unfold output_beside. rewrite Hg.
  assert (Hin : ∀ o r, sp_geometry s o = Some r → o ∈ sp_outputs s) by (intros o r Hr; apply sp_outputs_mapped; by eexists).
  eapply runs_bind; [apply nearest_output_runs|].
  { intros o [r Hr]%sp_outputs_mapped. destruct (Hd o r Hr) as [d E]. by exists r, d. }
  intros [[o d]|] Hb; apply runs_ret; cbn [option_map fst].
  - destruct Hb as (Ho & (r & Hr & E) & Hmin). split_and!; [|done|].
    + intros ->. rewrite Hg in Hr. injection Hr as <-. unfold distance_on in E.
      destruct (center geo) as [c|]; [|done]. cbn in E. rewrite Z.ltb_irrefl in E. by destruct forward.
    + exists d. split; [by exists r|]. intros o' d' (r' & Hr' & E'). eapply Hmin; [by eapply Hin|done|done].
  - intros o d (r & Hr & E). by rewrite (Hb o r (Hin _ _ Hr) Hr) in E.
Qed.

End neighbours.

(** ** Overflow *)
Section overflow.
  Context {S : Type} `{!OutputSpace S}.
  Context (output_size : OutputName → Size) (overlaps : Rect → Rect → bool).

(** An output whose right edge is out of range, which its configured position may put there, makes
    the next one without a position panic. *)
Theorem far_output_panics (s : S) o r d l :
  sp_geometry s o = Some r → ¬ i32_ok (r.(re_x) + r.(re_w)) → d.(od_config) = None →
  place_outputs output_size overlaps (d :: l) s = None.
Proof.
  intros Ho Hr Hd. cbn [place_outputs]. unfold new_position. rewrite Hd. cbn [mbind option_bind].
  destruct (free_x s) as [x|] eqn:E; [|done]. apply free_x_edges in E. by apply E in Ho.
Qed.

End overflow.

(** ** A concrete space *)
#[export] Instance OutputName_countable : Countable OutputName.
Proof.
  apply (inj_countable' (λ o, (o.(on_connector), o.(on_make), o.(on_model), o.(on_serial)))
    (λ '(c, m, o, s), MkOutputName c m o s)). by intros [].
Defined.

(** The large output is called "DP-1". *)
Definition sample_size (o : OutputName) : Size :=
  if String.eqb o.(on_connector) "DP-1" then (1920, 1080) else (1280, 720).

#[export] Program Instance map_space : OutputSpace (gmap OutputName Point) := {
  sp_outputs s := fst <$> map_to_list s;
  sp_geometry s o := (λ p, rect_at p (sample_size o)) <$> s !! o;
  sp_size := sample_size;
  sp_map o p s := <[o := p]> s;
  sp_unmap o s := delete o s
}.
Next Obligation.
  intros s o. rewrite fmap_is_Some, list_elem_of_fmap. split.
  - intros ([o' p] & -> & Hin%elem_of_map_to_list). by exists p.
  - intros [p Hp]. exists (o, p). split; [done|]. by apply elem_of_map_to_list.
Qed.
Next Obligation. intros s. apply NoDup_fst_map_to_list. Qed.
Next Obligation.
  intros s o p o'. destruct (decide (o' = o)) as [->|]; [by rewrite lookup_insert_eq|by rewrite lookup_insert_ne].
Qed.
Next Obligation.
  intros s o o'. destruct (decide (o' = o)) as [->|]; [by rewrite lookup_delete_eq|by rewrite lookup_delete_ne].
Qed.

Definition sample_overlaps (a b : Rect) : bool :=
  (a.(re_x) <? b.(re_x) + b.(re_w)) && (b.(re_x) <? a.(re_x) + a.(re_w)) &&
  (a.(re_y) <? b.(re_y) + b.(re_h)) && (b.(re_y) <? a.(re_y) + a.(re_h)).

Lemma sample_overlaps_spec : overlaps_spec sample_overlaps.
Proof.
  intros a b (A1 & A2 & _) (B1 & B2 & _). unfold sample_overlaps, meet, in_rect.
  rewrite !andb_true_iff, !Z.ltb_lt. split.
  - intros (((H1 & H2) & H3) & H4).
    exists (Z.max a.(re_x) b.(re_x)), (Z.max a.(re_y) b.(re_y)). lia.
  - intros (x & y & [? ?] & [? ?]). lia.
Qed.

Definition dp1 : OutputName := MkOutputName "DP-1" (Some "Dell") (Some "U2720Q") None.
Definition dp2 : OutputName := MkOutputName "DP-2" (Some "Asus") (Some "PA278") None.
Definition edp : OutputName := MkOutputName "eDP-1" None None None.

(** The second output is configured on top of the first one, so that it goes to the right. *)
Definition sample_config : list OutputConfig :=
  [MkOutputConfig "DP-1" (Some (100, 0)); MkOutputConfig "eDP-1" (Some (200, 50)); MkOutputConfig "DP-2" None].
Definition sample_outputs : Outputs (gmap OutputName Point) := MkOutputs {[dp1 := (0, 0); dp2 := (1920, 0)]} [dp2; dp1].

Definition placed_sample : option (Outputs (gmap OutputName Point) * list (OutputName * Point)) :=
  reposition_outputs sample_size sample_overlaps sample_config sample_outputs (Some edp).

Definition places (r : option (Outputs (gmap OutputName Point) * list (OutputName * Point))) :
    option (list (OutputName * option Point)) :=
  (λ r, (λ o, (o, r.1.(os_space) !! o)) <$> r.1.(os_sorted)) <$> r.

Lemma sample_data_fits :
  Forall (λ o, data_fits (S:=gmap OutputName Point) sample_size 200 (output_data sample_config sample_outputs.(os_space) o))
    (all_outputs sample_outputs (Some edp)).
Proof.
  change (all_outputs sample_outputs (Some edp)) with [dp2; dp1; edp].
  assert (Hs : ∀ o, o ∈ [dp2; dp1; edp] → size_fits (sample_size o)).
  { intros o [->|[->|[->|[]%elem_of_nil]%elem_of_cons]%elem_of_cons]%elem_of_cons; vm_compute; done. }
  apply Forall_forall. intros o Ho. split; [by apply Hs..|].
  apply elem_of_cons in Ho as [->|[->|[->|[]%elem_of_nil]%elem_of_cons]%elem_of_cons]; intros p Ep;
    vm_compute in Ep; try done; injection Ep as <-; split_and!; [cbn; lia| | |cbn; lia| |];
    unfold rect_fits, i32_ok; cbn; lia.
Qed.

Lemma outputs_are_placed_apart_witness :
  places placed_sample = Some [(dp1, Some (100, 0)); (edp, Some (2020, 0)); (dp2, Some (3300, 0))] ∧
  ∃ os' ch, placed_sample = Some (os', ch) ∧ os'.(os_sorted) ≡ₚ all_outputs sample_outputs (Some edp).
Proof.
  split; [vm_compute; reflexivity|].
  destruct (outputs_are_placed_apart sample_size sample_overlaps sample_config 200 sample_outputs (Some edp))
    as (os' & ch & E & Hp & _).
  - exact sample_overlaps_spec.
  - change (all_outputs sample_outputs (Some edp)) with [dp2; dp1; edp]. repeat constructor; set_solver.
  - lia.
  - exact sample_data_fits.
  - vm_compute. discriminate.
  - exists os', ch. split; [exact E|exact Hp].
Defined.

(** The same outputs, connected in another order. *)
Definition other_outputs : Outputs (gmap OutputName Point) := MkOutputs {[edp := (0, 0); dp2 := (1280, 0)]} [dp2; edp].

Lemma positions_ignore_history_witness :
  places (reposition_outputs sample_size sample_overlaps sample_config other_outputs (Some dp1)) = places placed_sample ∧
  option_relation (λ r1 r2, r1.1.(os_sorted) = r2.1.(os_sorted) ∧ r1.1.(os_space) ≡ r2.1.(os_space))
    (λ _, False) (λ _, False) placed_sample
    (reposition_outputs sample_size sample_overlaps sample_config other_outputs (Some dp1)).
Proof.
  split; [vm_compute; reflexivity|].
  apply (positions_ignore_history sample_size sample_overlaps sample_config sample_outputs other_outputs).
  - change (all_outputs sample_outputs (Some edp)) with [dp2; dp1; edp].
    change (all_outputs other_outputs (Some dp1)) with [edp; dp2; dp1]. symmetry.
    apply (Permutation_cons_append [dp2; dp1] edp).
  - change (all_outputs sample_outputs (Some edp)) with [dp2; dp1; edp]. repeat constructor; set_solver.
Defined.

Definition three_outputs : Outputs (gmap OutputName Point) := MkOutputs ∅ [dp1; edp; dp2].

Lemma outputs_form_a_cycle_witness :
  output_next_of three_outputs dp2 = Some dp1 ∧ output_previous_of three_outputs dp1 = Some dp2.
Proof.
  destruct (outputs_form_a_cycle three_outputs 2 dp2) as (H1 & _ & o' & H2 & H3);
    [cbn; repeat constructor; set_solver|cbn; lia|reflexivity|].
  rewrite H2 in H1. injection H1 as ->. by split.
Defined.

(** A position at the far right of the range. *)
Example far_position_panics :
  reposition_outputs sample_size sample_overlaps [MkOutputConfig "DP-1" (Some (2147483000, 0))]
    (MkOutputs (S:=gmap OutputName Point) {[dp1 := (0, 0)]} [dp1]) (Some dp2) = None.
Proof. vm_compute. reflexivity. Qed.

Lemma far_output_panics_witness :
  place_outputs (S:=gmap OutputName Point) sample_size sample_overlaps [MkOutputData dp2 None None] {[dp1 := (2147483000, 0)]} = None.
Proof.
  apply (far_output_panics sample_size sample_overlaps _ dp1 (rect_at (2147483000, 0) (1920, 1080)));
    [vm_compute; reflexivity|unfold i32_ok; cbn; lia|reflexivity].
Defined.
