(* ===== verification/Actions.v ===== *)
(** * Actions on the layout ([do_action] of src/input/mod.rs)

    What the actions of binds and of the IPC do to the layout, the switcher and the window that is
    held: each arm of [do_action] runs methods of [Layout] on the world of MruWorld.v, with the
    outputs of OutputPositions.v to find neighbours.  [layout_arm] gives the arm of an action, group
    by group; actions that only concern other parts of the compositor (sizes of windows, spawning,
    screenshots, casts, the link) have none.  That a locked session runs none of them is in
    Keyboard.v.  Moving the cursor, redrawing and the selection of the screenshot UI are left out;
    whether that UI is open decides where actions go. *)
From stdpp Require Import strings.
From S2P Require Import Prelude Region LayoutOutput LayoutScrolling LayoutFloating LayoutWorkspace LayoutWorkspaceProps LayoutMonitor LayoutMonitorProps LayoutSet LayoutSetOwn LayoutSetOps LayoutSetProps LayoutMove LayoutMoveGeometry ConfigBinds WindowMru MruWorld OutputPositions.

(** What an action reads besides the layout: the outputs, the configuration, the output with the
    selection of the screenshot UI when that is open, and what is under the cursor. *)
Record ActionEnv (S : Type) := MkActionEnv {
  ae_view : ViewEnv;
  ae_outputs : Outputs S;
  ae_recent : MruConfig;
  ae_back_and_forth : bool;
  ae_selection : option OutputName;
  ae_output_under : option OutputName;
  ae_workspace_under : option N
}.
Arguments MkActionEnv {S}.
Arguments ae_view {S}.
Arguments ae_outputs {S}.
Arguments ae_recent {S}.
Arguments ae_back_and_forth {S}.
Arguments ae_selection {S}.
Arguments ae_output_under {S}.
Arguments ae_workspace_under {S}.

Inductive OutputDirection := OutLeft | OutRight | OutUp | OutDown | OutPrevious | OutNext.

Section actions.
  Context (parent_of : N → option N) (g : Placement).
  Context {S : Type} `{OutputSpace S} (overlaps : Rect → Rect → bool) (env : ActionEnv S).

Definition Arm : Type := MruWorld → option MruWorld.

(** ** Looking things up *)
Definition active_output (w : MruWorld) : option (option OutputName) :=
  active ← active_monitor w.(mw_ml).(ml_layout);
  Some (option_map (λ a, (snd a).(mo_output)) active).

Definition beside (dir : OutputDirection) (current : OutputName) : option (option OutputName) :=
  let space := env.(ae_outputs).(os_space) in
  match dir with
  | OutLeft => output_left_of overlaps space current
  | OutRight => output_right_of overlaps space current
  | OutUp => output_up_of overlaps space current
  | OutDown => output_down_of overlaps space current
  | OutPrevious => Some (output_previous_of env.(ae_outputs) current)
  | OutNext => Some (output_next_of env.(ae_outputs) current)
  end.

(** [output_left] and the others: beside the active output. *)
Definition neighbouring_output (dir : OutputDirection) (w : MruWorld) : option (option OutputName) :=
  active ← active_output w;
  match active with Some current => beside dir current | None => Some None end.

Definition by_name_match (target : string) : option OutputName :=
  output_by_name_match env.(ae_outputs).(os_space) target.

Definition find_output_and_workspace_index (w : MruWorld) (reference : WorkspaceReference) :
    option (option OutputName * nat) :=
  let ly := w.(mw_ml).(ml_layout) in
  let found (place : option (nat * nat)) :=
    place ← place; l ← ly_stacks ly !! fst place; ws ← l !! snd place; Some (ws.(ws_output), snd place) in
  match reference with
  | RefIndex index => Some (None, index - 1)
  | RefName name => found (find_workspace_by_name ly name)
  | RefId id => found (find_workspace_by_id ly id)
  end.

(** The output if it is not the active one. *)
Definition other_output (w : MruWorld) (output : option OutputName) : option (option OutputName) :=
  active ← active_output w;
  Some (if decide (output = active) then None else output).

(** ** Running methods of [Layout] *)
Definition on_layout (op : LyOp) : Arm := layout_do parent_of g (MlLayout env.(ae_view) op).

(** Methods that forward to the active workspace, to the active monitor, or to the workspace of a
    window. *)
Definition on_active (op : WsOp) : Arm := on_layout (LopWorkspace None op).

Definition on_active_monitor (op : MonOp) : Arm := λ w,
  active ← active_monitor w.(mw_ml).(ml_layout);
  match active with Some (i, _) => on_layout (LopMonitor i op) w | None => Some w end.

Definition on_window (op : N → WsOp) (id : N) : Arm := on_layout (LopWorkspace (Some id) (op id)).

(** [windows().find(..)] by the id of an action, and [focus()]. *)
Definition with_id (id : N) (f : N → Arm) : Arm := λ w,
  match find_window_by_id w id with Some id => f id w | None => Some w end.

Definition with_focus (f : N → Arm) : Arm := λ w,
  focus ← ml_focus w.(mw_ml);
  match focus with Some id => f id w | None => Some w end.

Definition with_output (output : MruWorld → option (option OutputName)) (f : OutputName → Arm) : Arm := λ w,
  output ← output w;
  match output with Some output => f output w | None => Some w end.

(** The open screenshot UI takes the action. *)
Definition unless_screenshot (f : Arm) : Arm := λ w,
  match env.(ae_selection) with Some _ => Some w | None => f w end.

Definition and_then (f f' : Arm) : Arm := λ w, w ← f w; f' w.

(** ** Windows *)
Definition window_arms (action : Action) : option Arm :=
  match action with
  | ActFullscreenWindow => Some (with_focus (on_window WopToggleFullscreen))
  | ActFullscreenWindowById id => Some (with_id id (on_window WopToggleFullscreen))
  | ActFocusWindow id => Some (with_id id (mw_focus_window parent_of g env.(ae_view)))
  | ActFocusWindowInColumn index => Some (on_active (WopFocusWindowInColumn (N.to_nat index)))
  | ActFocusWindowPrevious => Some (focus_window_previous parent_of g env.(ae_view))
  | _ => None
  end.

Definition maximize_arms (action : Action) : option Arm :=
  match action with
  | ActMaximizeWindowToEdges => Some (with_focus (on_window WopToggleMaximized))
  | ActMaximizeWindowToEdgesById id => Some (with_id id (on_window WopToggleMaximized))
  | _ => None
  end.

Definition floating_arms (action : Action) : option Arm :=
  match action with
  | ActToggleWindowFloating => Some (on_active (WopToggleFloating None))
  | ActToggleWindowFloatingById id => Some (with_id id (on_window (λ id, WopToggleFloating (Some id))))
  | ActMoveWindowToFloating => Some (on_active (WopSetFloating None true))
  | ActMoveWindowToFloatingById id => Some (with_id id (on_window (λ id, WopSetFloating (Some id) true)))
  | ActMoveWindowToTiling => Some (on_active (WopSetFloating None false))
  | ActMoveWindowToTilingById id => Some (with_id id (on_window (λ id, WopSetFloating (Some id) false)))
  | ActFocusFloating => Some (on_active WopFocusFloating)
  | ActFocusTiling => Some (on_active WopFocusTiling)
  | ActSwitchFocusBetweenFloatingAndTiling => Some (on_active WopSwitchFocus)
  | _ => None
  end.

(** ** Columns *)

(** [move_column_left_or_to_output], or [move_left] if there is no output on that side. *)
Definition move_or_to (dir : OutputDirection) (to_output : OutputName → LyOp) (move : WsOp) : Arm :=
  unless_screenshot (λ w,
    output ← neighbouring_output dir w;
    match output with Some output => on_layout (to_output output) w | None => on_active move w end).

Definition move_arms (action : Action) : option Arm :=
  match action with
  | ActMoveColumnLeft => Some (unless_screenshot (on_active WopMoveLeft))
  | ActMoveColumnRight => Some (unless_screenshot (on_active WopMoveRight))
  | ActMoveColumnToFirst => Some (on_active WopMoveColumnToFirst)
  | ActMoveColumnToLast => Some (on_active WopMoveColumnToLast)
  | ActMoveColumnLeftOrToMonitorLeft => Some (move_or_to OutLeft LopMoveColumnLeftOrTo WopMoveLeft)
  | ActMoveColumnRightOrToMonitorRight => Some (move_or_to OutRight LopMoveColumnRightOrTo WopMoveRight)
  | ActMoveWindowDown => Some (unless_screenshot (on_active WopMoveDown))
  | ActMoveWindowUp => Some (unless_screenshot (on_active WopMoveUp))
  | ActMoveWindowDownOrToWorkspaceDown => Some (unless_screenshot (on_active_monitor MopMoveDownOrTo))
  | ActMoveWindowUpOrToWorkspaceUp => Some (unless_screenshot (on_active_monitor MopMoveUpOrTo))
  | ActConsumeOrExpelWindowLeft => Some (on_active (WopConsumeOrExpelLeft None))
  | ActConsumeOrExpelWindowLeftById id => Some (with_id id (on_window (λ id, WopConsumeOrExpelLeft (Some id))))
  | ActConsumeOrExpelWindowRight => Some (on_active (WopConsumeOrExpelRight None))
  | ActConsumeOrExpelWindowRightById id => Some (with_id id (on_window (λ id, WopConsumeOrExpelRight (Some id))))
  | _ => None
  end.

Definition column_arms (action : Action) : option Arm :=
  match action with
  | ActConsumeWindowIntoColumn => Some (on_active WopConsumeIntoColumn)
  | ActExpelWindowFromColumn => Some (on_active WopExpelFromColumn)
  | ActSwapWindowRight => Some (on_active (WopSwap ScrollRight))
  | ActSwapWindowLeft => Some (on_active (WopSwap ScrollLeft))
  | ActToggleColumnTabbedDisplay => Some (on_active WopToggleTabbed)
  | ActSetColumnDisplay display => Some (on_active (WopSetColumnDisplay display))
  | _ => None
  end.

(** ** Focus *)

(** [workspaces_mut().find(..).unwrap()]. *)
Definition on_workspace_under (op : WsOp) : Arm := λ w,
  match env.(ae_workspace_under) with
  | Some id =>
      place ← find_workspace_by_id w.(mw_ml).(ml_layout) id;
      on_layout (LopMonitor (fst place) (MopWorkspace (snd place) op)) w
  | None => Some w
  end.

(** A method of the active workspace that tells whether the focus moved. *)
Definition focus_in_workspace (focus : Workspace → option (Workspace * bool)) (w : MruWorld) : option (bool * MruWorld) :=
  r ← with_active_workspace w.(mw_ml).(ml_layout) false (λ ws, r ← focus ws; Some (snd r, fst r));
  Some (fst r, set_mw_layout (set_ml_layout (snd r) w.(mw_ml)) w.(mw_ids) w).

(** [focus_window_up_or_output] and the like. *)
Definition focus_or_to (dir : OutputDirection) (focus : Workspace → option (Workspace * bool)) : Arm := λ w,
  output ← neighbouring_output dir w;
  '(moved, w) ← focus_in_workspace focus w;
  match output with
  | Some output => if moved : bool then Some w else on_layout (LopFocusOutput output) w
  | None => Some w
  end.

Definition focus_arms (action : Action) : option Arm :=
  match action with
  | ActFocusColumnLeft => Some (on_active WopFocusLeft)
  | ActFocusColumnLeftUnderMouse => Some (on_workspace_under WopFocusLeft)
  | ActFocusColumnRight => Some (on_active WopFocusRight)
  | ActFocusColumnRightUnderMouse => Some (on_workspace_under WopFocusRight)
  | ActFocusColumnFirst => Some (on_active WopFocusColumnFirst)
  | ActFocusColumnLast => Some (on_active WopFocusColumnLast)
  | ActFocusColumnRightOrFirst => Some (on_active WopFocusColumnRightOrFirst)
  | ActFocusColumnLeftOrLast => Some (on_active WopFocusColumnLeftOrLast)
  | ActFocusColumn index => Some (on_active (WopFocusColumn index))
  | ActFocusWindowOrMonitorUp => Some (focus_or_to OutUp (ws_focus_up parent_of g))
  | ActFocusWindowOrMonitorDown => Some (focus_or_to OutDown (ws_focus_down parent_of g))
  | ActFocusColumnOrMonitorLeft => Some (focus_or_to OutLeft (ws_focus_left parent_of g))
  | ActFocusColumnOrMonitorRight => Some (focus_or_to OutRight (ws_focus_right parent_of g))
  | _ => None
  end.

Definition focus_window_arms (action : Action) : option Arm :=
  match action with
  | ActFocusWindowDown => Some (on_active WopFocusDown)
  | ActFocusWindowUp => Some (on_active WopFocusUp)
  | ActFocusWindowDownOrColumnLeft => Some (on_active WopFocusDownOrLeft)
  | ActFocusWindowDownOrColumnRight => Some (on_active WopFocusDownOrRight)
  | ActFocusWindowUpOrColumnLeft => Some (on_active WopFocusUpOrLeft)
  | ActFocusWindowUpOrColumnRight => Some (on_active WopFocusUpOrRight)
  | ActFocusWindowOrWorkspaceDown => Some (on_active_monitor MopFocusDownOrTo)
  | ActFocusWindowOrWorkspaceUp => Some (on_active_monitor MopFocusUpOrTo)
  | ActFocusWindowTop => Some (on_active WopFocusWindowTop)
  | ActFocusWindowBottom => Some (on_active WopFocusWindowBottom)
  | ActFocusWindowDownOrTop => Some (on_active WopFocusWindowDownOrTop)
  | ActFocusWindowUpOrBottom => Some (on_active WopFocusWindowUpOrBottom)
  | _ => None
  end.

(** ** Workspaces *)
Definition smart_if (focus : bool) : ActivateWindow := if focus then ActivateSmart else ActivateNo.

Definition move_window_to_workspace (reference : WorkspaceReference) (focus : bool) : Arm := λ w,
  match find_output_and_workspace_index w reference with
  | None => Some w
  | Some (output, index) =>
      output ← other_output w output;
      match output with
      | Some output => on_layout (LopMoveToOutput None output (Some index) (smart_if focus)) w
      | None => on_layout (LopMoveToWorkspace None index (smart_if focus)) w
      end
  end.

Definition move_window_to_workspace_by_id (id : N) (reference : WorkspaceReference) (focus : bool) : Arm :=
  with_id id (λ window w,
    match find_output_and_workspace_index w reference with
    | None => Some w
    | Some (Some output, index) => on_layout (LopMoveToOutput (Some window) output (Some index) (smart_if focus)) w
    | Some (None, index) => on_layout (LopMoveToWorkspace (Some window) index (smart_if focus)) w
    end).

Definition move_column_to_workspace_ref (reference : WorkspaceReference) (focus : bool) : Arm := λ w,
  match find_output_and_workspace_index w reference with
  | None => Some w
  | Some (output, index) =>
      output ← other_output w output;
      match output with
      | Some output => on_layout (LopMoveColumnToOutput output (Some index) focus) w
      | None => on_active_monitor (MopMoveColumnTo index focus) w
      end
  end.

Definition to_workspace_arms (action : Action) : option Arm :=
  match action with
  | ActMoveWindowToWorkspaceDown focus => Some (on_active_monitor (MopMoveToDown focus))
  | ActMoveWindowToWorkspaceUp focus => Some (on_active_monitor (MopMoveToUp focus))
  | ActMoveWindowToWorkspace reference focus => Some (move_window_to_workspace reference focus)
  | ActMoveWindowToWorkspaceById id reference focus => Some (move_window_to_workspace_by_id id reference focus)
  | ActMoveColumnToWorkspaceDown focus => Some (on_active_monitor (MopMoveColumnDown focus))
  | ActMoveColumnToWorkspaceUp focus => Some (on_active_monitor (MopMoveColumnUp focus))
  | ActMoveColumnToWorkspace reference focus => Some (move_column_to_workspace_ref reference focus)
  | ActMoveColumnToIndex idx => Some (on_active (WopMoveColumnToIndex idx))
  | _ => None
  end.

(** [monitor_for_output_mut] of the output under the cursor. *)
Definition on_monitor_under (op : MonOp) : Arm := λ w,
  match o ← env.(ae_output_under); monitor_position (ly_monitors w.(mw_ml).(ml_layout)) o with
  | Some i => on_layout (LopMonitor i op) w
  | None => Some w
  end.

Definition focus_workspace (reference : WorkspaceReference) : Arm := λ w,
  match find_output_and_workspace_index w reference with
  | None => Some w
  | Some (output, index) =>
      output ← other_output w output;
      match output with
      | Some output => and_then (on_layout (LopFocusOutput output)) (on_active_monitor (MopSwitch index)) w
      | None => on_active_monitor (if env.(ae_back_and_forth) then MopSwitchBackAndForth index else MopSwitch index) w
      end
  end.

Definition move_workspace_to_index_by_ref (new_idx : nat) (reference : WorkspaceReference) : Arm := λ w,
  match find_output_and_workspace_index w reference with
  | Some res => on_layout (LopMoveWorkspaceToIdx (Some res) (new_idx - 1)) w
  | None => Some w
  end.

Definition workspace_arms (action : Action) : option Arm :=
  match action with
  | ActFocusWorkspaceDown => Some (on_active_monitor MopSwitchDown)
  | ActFocusWorkspaceDownUnderMouse => Some (on_monitor_under MopSwitchDown)
  | ActFocusWorkspaceUp => Some (on_active_monitor MopSwitchUp)
  | ActFocusWorkspaceUpUnderMouse => Some (on_monitor_under MopSwitchUp)
  | ActFocusWorkspace reference => Some (focus_workspace reference)
  | ActFocusWorkspacePrevious => Some (on_active_monitor MopSwitchPrevious)
  | ActMoveWorkspaceDown => Some (on_active_monitor MopMoveWorkspaceDown)
  | ActMoveWorkspaceUp => Some (on_active_monitor MopMoveWorkspaceUp)
  | ActMoveWorkspaceToIndex new_idx => Some (on_layout (LopMoveWorkspaceToIdx None (new_idx - 1)))
  | ActMoveWorkspaceToIndexByRef new_idx reference => Some (move_workspace_to_index_by_ref new_idx reference)
  | ActSetWorkspaceName name => Some (on_layout (LopSetName name None))
  | ActSetWorkspaceNameByRef name reference => Some (on_layout (LopSetName name (Some reference)))
  | ActUnsetWorkspaceName => Some (on_layout (LopUnsetName None))
  | ActUnsetWorkSpaceNameByRef reference => Some (on_layout (LopUnsetName (Some reference)))
  | _ => None
  end.

(** ** Monitors *)
Definition focus_monitor (dir : OutputDirection) : Arm := with_output (neighbouring_output dir) (λ output, on_layout (LopFocusOutput output)).

Definition focus_monitor_arms (action : Action) : option Arm :=
  match action with
  | ActFocusMonitorLeft => Some (focus_monitor OutLeft)
  | ActFocusMonitorRight => Some (focus_monitor OutRight)
  | ActFocusMonitorDown => Some (focus_monitor OutDown)
  | ActFocusMonitorUp => Some (focus_monitor OutUp)
  | ActFocusMonitorPrevious => Some (focus_monitor OutPrevious)
  | ActFocusMonitorNext => Some (focus_monitor OutNext)
  | ActFocusMonitor output => Some (with_output (λ _, Some (by_name_match output)) (λ output, on_layout (LopFocusOutput output)))
  | _ => None
  end.

(** The open screenshot UI moves its selection to the output beside it. *)
Definition to_monitor (dir : OutputDirection) (f : OutputName → Arm) : Arm := λ w,
  match env.(ae_selection) with
  | Some current => _ ← beside dir current; Some w
  | None => with_output (neighbouring_output dir) f w
  end.

Definition to_named_monitor (output : string) (f : OutputName → Arm) : Arm :=
  with_output (λ _, Some (by_name_match output)) (λ output, unless_screenshot (f output)).

Definition window_to_output (output : OutputName) : Arm :=
  and_then (on_layout (LopMoveToOutput None output None ActivateSmart)) (on_layout (LopFocusOutput output)).

Definition move_window_arms (action : Action) : option Arm :=
  match action with
  | ActMoveWindowToMonitorLeft => Some (to_monitor OutLeft window_to_output)
  | ActMoveWindowToMonitorRight => Some (to_monitor OutRight window_to_output)
  | ActMoveWindowToMonitorDown => Some (to_monitor OutDown window_to_output)
  | ActMoveWindowToMonitorUp => Some (to_monitor OutUp window_to_output)
  | ActMoveWindowToMonitorPrevious => Some (to_monitor OutPrevious window_to_output)
  | ActMoveWindowToMonitorNext => Some (to_monitor OutNext window_to_output)
  | ActMoveWindowToMonitor output => Some (to_named_monitor output window_to_output)
  | ActMoveWindowToMonitorById id output =>
      Some (with_output (λ _, Some (by_name_match output)) (λ output,
        with_id id (λ window, on_layout (LopMoveToOutput (Some window) output None ActivateSmart))))
  | _ => None
  end.

Definition column_to_output (output : OutputName) : Arm :=
  and_then (on_layout (LopMoveColumnToOutput output None true)) (on_layout (LopFocusOutput output)).

Definition move_column_arms (action : Action) : option Arm :=
  match action with
  | ActMoveColumnToMonitorLeft => Some (to_monitor OutLeft column_to_output)
  | ActMoveColumnToMonitorRight => Some (to_monitor OutRight column_to_output)
  | ActMoveColumnToMonitorDown => Some (to_monitor OutDown column_to_output)
  | ActMoveColumnToMonitorUp => Some (to_monitor OutUp column_to_output)
  | ActMoveColumnToMonitorPrevious => Some (to_monitor OutPrevious column_to_output)
  | ActMoveColumnToMonitorNext => Some (to_monitor OutNext column_to_output)
  | ActMoveColumnToMonitor output => Some (to_named_monitor output column_to_output)
  | _ => None
  end.

Definition move_workspace_to (dir : OutputDirection) : Arm :=
  with_output (neighbouring_output dir) (λ output, on_layout (LopMoveWorkspaceToOutput output)).

Definition move_workspace_by_ref (output_name : string) (reference : WorkspaceReference) : Arm := λ w,
  match find_output_and_workspace_index w reference with
  | None => Some w
  | Some (output, old_idx) =>
      match by_name_match output_name with
      | Some new_output => on_layout (LopMoveWorkspaceToOutputById old_idx output new_output) w
      | None => Some w
      end
  end.

Definition move_workspace_arms (action : Action) : option Arm :=
  match action with
  | ActMoveWorkspaceToMonitorLeft => Some (move_workspace_to OutLeft)
  | ActMoveWorkspaceToMonitorRight => Some (move_workspace_to OutRight)
  | ActMoveWorkspaceToMonitorDown => Some (move_workspace_to OutDown)
  | ActMoveWorkspaceToMonitorUp => Some (move_workspace_to OutUp)
  | ActMoveWorkspaceToMonitorPrevious => Some (move_workspace_to OutPrevious)
  | ActMoveWorkspaceToMonitorNext => Some (move_workspace_to OutNext)
  | ActMoveWorkspaceToMonitor output =>
      Some (with_output (λ _, Some (by_name_match output)) (λ output, on_layout (LopMoveWorkspaceToOutput output)))
  | ActMoveWorkspaceToMonitorByRef output_name reference => Some (move_workspace_by_ref output_name reference)
  | _ => None
  end.

(** ** The overview and the switcher *)
Definition overview_arms (action : Action) : option Arm :=
  match action with
  | ActToggleOverview => Some (on_layout LopToggleOverview)
  | ActOpenOverview => Some (on_layout LopOpenOverview)
  | ActCloseOverview => Some (on_layout LopCloseOverview)
  | _ => None
  end.

Definition switcher_arms (action : Action) : option Arm :=
  match action with
  | ActMruConfirm | ActMruCancel | ActMruAdvance _ _ _ | ActMruFirst | ActMruLast | ActMruSetScope _ | ActMruCycleScope =>
      Some (do_mru_action parent_of g env.(ae_view) env.(ae_recent) action)
  | _ => None
  end.

(** ** All of them *)
Fixpoint first_arm (groups : list (Action → option Arm)) (action : Action) : option Arm :=
  match groups with
  | [] => None
  | arms :: groups => match arms action with Some arm => Some arm | None => first_arm groups action end
  end.

Definition layout_arm : Action → option Arm :=
  first_arm [window_arms; move_arms; focus_arms; focus_window_arms; to_workspace_arms; workspace_arms; column_arms;
             maximize_arms; focus_monitor_arms; move_window_arms; move_column_arms; move_workspace_arms; floating_arms;
             overview_arms; switcher_arms].

End actions.
