(* ===== verification/ActionsProps.v ===== *)
(** * Actions on the layout: properties

    Every action that is about the layout runs in every reachable world and moves windows without
    losing one; it keeps the invariants of the layout, of the held window and of the switcher unless
    it names a workspace of another monitor where that is not safe. *)
From stdpp Require Import gmap strings.
From S2P Require Import Prelude Float64 Region LayoutOutput LayoutScrolling LayoutFloating LayoutFloatingProps LayoutWorkspace LayoutWorkspaceOps LayoutWorkspaceProps LayoutMonitor LayoutMonitorOps LayoutMonitorMoves LayoutMonitorProps LayoutSet LayoutSetOwn LayoutSetOps LayoutSetOutputs LayoutSetMoves LayoutSetWindows LayoutSetNames LayoutSetConfig LayoutSetProps LayoutSetOptions LayoutMove LayoutMoveGeometry LayoutMoveOps LayoutMoveProps ConfigBinds WindowMru WindowMruProps MruWorld MruWorldProps MruProps OutputPositions OutputPositionsProps Actions.

(** ** What stays *)
Section keeps.
  Context (par : N → option N) (Hcycle : no_cycle par) (g : Placement).

(** The invariants hold again, with the same windows. *)
Definition keeps_world (w w' : MruWorld) : Prop := mw_ok par w' ∧ mw_windows w' ≡ₚ mw_windows w.

Lemma keeps_world_refl w : mw_ok par w → keeps_world w w.
Proof. by split. Qed.

Lemma keeps_world_trans w w1 w2 : keeps_world w w1 → keeps_world w1 w2 → keeps_world w w2.
Proof. intros [_ E1] [H E2]. split; [done|]. by rewrite E2. Qed.

Lemma keeps_same_layout w w' : mw_ok par w' → same_layout w w' → keeps_world w w'.
Proof. intros H [E _]. split; [done|]. unfold mw_windows. by rewrite E. Qed.

Section views.
  Context (env : ViewEnv) (Hv : view_ok env).

Lemma layout_do_keeps op w :
  mw_ok par w → keeps_windows op → ml_added op = [] → ml_op_pre par w.(mw_ids) w.(mw_ml) op → mw_room w →
  runs (layout_do par g op w) (keeps_world w).
Proof.
  intros Hok Hk Ha Hpre Hr. eapply runs_weaken; [by apply layout_do_runs|]. intros w' (H1 & Eui & removed & c' & E & Hw).
  pose proof (run_ml_op_keeps par g _ op Hk _ _ _ E) as Hn. cbn in Hn. subst removed. rewrite Ha in Hw. cbn in Hw.
  split; [|done]. split; [done|]. rewrite Eui. eapply ui_ok_windows; [|apply Hok]. intros x. by rewrite Hw.
Qed.

(** Focusing an output draws no ids. *)
Definition output_focused (output : OutputName) (w : MruWorld) : MruWorld :=
  set_mw_layout (set_ml_layout (focus_output w.(mw_ml).(ml_layout) output) w.(mw_ml)) w.(mw_ids) w.

Lemma focus_output_does output w : layout_do par g (MlLayout env (LopFocusOutput output)) w = Some (output_focused output w).
Proof. reflexivity. Qed.

Lemma output_focused_keeps output w : mw_ok par w → keeps_world w (output_focused output w).
Proof.
  intros [Hml Hui]. destruct (ml_carry par _ _ (focus_output w.(mw_ml).(ml_layout) output) w.(mw_ml).(ml_dnd) _ Hml
    (focus_output_keeps par _ _ output (proj1 Hml)) (focus_output_options _ _)) as [H1 H2 _].
  cbn [app] in H2. change (mw_windows (output_focused output w) ≡ₚ mw_windows w) in H2.
  split; [split; [exact H1|]|exact H2]. eapply ui_ok_windows; [|exact Hui]. intros x. by rewrite H2.
Qed.

Lemma output_focused_room output w : mw_room (output_focused output w) ↔ mw_room w.
Proof.
  unfold mw_room, ml_room, ly_room. cbn. unfold focus_output, ly_monitors.
  destruct (ly_set (ml_layout (mw_ml w))) as [ms p a|l] eqn:E; [|by rewrite E].
  destruct (monitor_position ms output); cbn; by rewrite ?E.
Qed.

Lemma focus_window_keeps id w : mw_ok par w → mw_room w → runs (mw_focus_window par g env id w) (keeps_world w).
Proof. intros Hok Hr. by apply layout_do_keeps. Qed.

(** *** The switcher *)
Lemma with_ui_keeps f w :
  mw_ok par w → (∀ ui, ui_ok (mw_windows w) ui → runs (f ui) (ui_ok (mw_windows w))) → runs (with_ui f w) (keeps_world w).
Proof.
  intros Hok Hf. unfold with_ui. eapply runs_bind; [apply Hf, Hok|]. intros ui Hui. apply runs_ret.
  apply keeps_same_layout; [by apply mw_ok_ui|done].
Qed.

Lemma cancel_keeps w : mw_ok par w → keeps_world w (cancel_mru w).
Proof.
  intros Hok. apply keeps_same_layout; [by apply cancel_ok|]. unfold cancel_mru, close_mru. by destruct (ui_close _ _ _).
Qed.

Lemma confirm_keeps w : mw_ok par w → mw_room w → runs (confirm_mru par g env w) (keeps_world w).
Proof.
  intros Hok Hr. unfold confirm_mru. destruct (close_mru_ok par MruRequestConfirm w Hok Hr) as [H1 H2].
  assert (Hs : same_layout w (close_mru MruRequestConfirm w).1) by (unfold close_mru; by destruct (ui_close _ _ _)).
  destruct (close_mru _ w) as [w' [id|]]; cbn [fst] in *; [|by apply runs_ret, keeps_same_layout].
  eapply runs_weaken; [by apply focus_window_keeps|]. intros w2. by apply keeps_world_trans, keeps_same_layout.
Qed.

Lemma focus_previous_keeps w : mw_ok par w → mw_room w → runs (focus_window_previous par g env w) (keeps_world w).
Proof.
  intros Hok Hr. unfold focus_window_previous. eapply runs_bind; [eapply ml_focus_runs, Hok|]. intros current _.
  destruct (latest _ _ _) as [id|]; [|by apply runs_ret, keeps_world_refl]. destruct (commit_same w) as [Hs _].
  eapply runs_weaken; [apply focus_window_keeps; [by apply commit_ok|]|].
  - destruct Hs as [E1 E2]. unfold mw_room. by rewrite E1, E2.
  - intros w2. apply keeps_world_trans, keeps_same_layout; [by apply commit_ok|done].
Qed.

Lemma mru_action_keeps cfg action w : mw_ok par w → mw_room w → runs (do_mru_action par g env cfg action w) (keeps_world w).
Proof.
  intros Hok Hr. destruct action; cbn [do_mru_action]; try (by apply runs_ret, keeps_world_refl).
  - by apply focus_previous_keeps.
  - destruct (ui_is_open (mw_ui w)) eqn:Eo; [apply with_ui_keeps; [done|]; intros; by apply ui_advance_runs|].
    destruct (mc_on cfg); [|by apply runs_ret, keeps_world_refl]. eapply runs_weaken; [by apply mru_open_runs|].
    intros w' (H1 & H2 & _). by apply keeps_same_layout.
  - by apply confirm_keeps.
  - by apply runs_ret, cancel_keeps.
  - apply with_ui_keeps; [done|]. intros. by apply ui_first_runs.
  - apply with_ui_keeps; [done|]. intros. by apply ui_last_runs.
  - apply with_ui_keeps; [done|]. intros. by apply ui_set_scope_runs.
  - apply with_ui_keeps; [done|]. intros. by apply ui_cycle_scope_runs.
Qed.

End views.
End keeps.

(** ** The arms *)
Section arms.
  Context (par : N → option N) (Hcycle : no_cycle par) (g : Placement).
  Context {S : Type} `{OutputSpace S} (overlaps : Rect → Rect → bool) (env : ActionEnv S).
Local Abbreviation keeps := (keeps_world par).

(** Outputs lie within some 500 million pixels of the origin, which rules out overflow when their
    centers are compared. *)
Definition rect_near (r : Rect) : Prop :=
  (- 2 ^ 29 ≤ r.(re_x) ≤ 2 ^ 29 ∧ - 2 ^ 29 ≤ r.(re_y) ≤ 2 ^ 29 ∧ 0 ≤ r.(re_w) ≤ 2 ^ 29 ∧ 0 ≤ r.(re_h) ≤ 2 ^ 29)%Z.

(** The outputs of the global space and the sorted ones have monitors, and what is under the cursor
    exists. *)
Record env_ok (w : MruWorld) : Prop := {
  eo_view : view_ok env.(ae_view);
  eo_outputs o : o ∈ sp_outputs env.(ae_outputs).(os_space) ∨ o ∈ env.(ae_outputs).(os_sorted) →
    output_in w.(mw_ml).(ml_layout) o;
  eo_near o r : sp_geometry env.(ae_outputs).(os_space) o = Some r → rect_near r;
  eo_workspace id : env.(ae_workspace_under) = Some id →
    ly_monitors w.(mw_ml).(ml_layout) ≠ [] ∧ ∃ ws, ws ∈ ly_workspaces w.(mw_ml).(ml_layout) ∧ ws.(ws_id) = id
}.

Lemma near_i32 x : (- 2 ^ 31 ≤ x < 2 ^ 31)%Z → i32_ok x.
Proof. unfold i32_ok. lia. Qed.

Lemma half_near w : (0 ≤ w ≤ 2 ^ 29)%Z → (0 ≤ Z.quot w 2 ≤ 2 ^ 28)%Z.
Proof. intros Hw. rewrite Z.quot_div_nonneg by lia. split; [apply Z.div_pos; lia|]. apply Z.div_le_upper_bound; lia. Qed.

Lemma center_near r : rect_near r →
  (∃ c, center_x r = Some c ∧ - 2 ^ 30 ≤ c < 2 ^ 30)%Z ∧ (∃ c, center_y r = Some c ∧ - 2 ^ 30 ≤ c < 2 ^ 30)%Z.
Proof.
  intros (Hx & Hy & Hw%half_near & Hh%half_near). unfold center_x, center_y. rewrite !i32_add_ok by (apply near_i32; lia).
  split; (eexists; split; [reflexivity|lia]).
Qed.

Lemma distance_near center forward extended current geo :
  (∀ r, rect_near r → ∃ c, center r = Some c ∧ - 2 ^ 30 ≤ c < 2 ^ 30)%Z → rect_near current → rect_near geo →
  is_Some (distance_on overlaps center forward extended current geo).
Proof.
  intros Hc Hcur Hgeo. unfold distance_on. destruct (Hc _ Hgeo) as (c & -> & ?), (Hc _ Hcur) as (c0 & -> & ?).
  cbn [mbind option_bind]. destruct (_ && _); [|by eexists]. destruct forward; unfold i32_sub;
    rewrite i32_add_ok by (apply near_i32; lia); by eexists.
Qed.

(** *** Methods of the layout *)
Definition plain_ws (op : WsOp) : Prop := ws_op_inside op ∧ ∀ ws, NoDup (ws_windows ws) → ws_op_pre ws op.

Definition plain_mon (op : MonOp) : Prop := mon_op_inside op ∧ ∀ c m, NoDup (mon_windows m) → mon_op_pre par c m op.

Section methods.
  Context (Hv : view_ok env.(ae_view)) (w : MruWorld) (Hok : mw_ok par w) (Hr : mw_room w).
Local Abbreviation ly := (w.(mw_ml).(ml_layout)).

Lemma on_layout_keeps op :
  match op with LopRemoveWindow _ => False | _ => True end → ly_added op = [] →
  layout_op_pre par w.(mw_ids) w.(mw_ml) op → runs (on_layout par g env op w) (keeps w).
Proof. intros Hne Ha Hpre. apply layout_do_keeps; [done|done|by destruct op|done|by split|done]. Qed.

Lemma looked_up_NoDup window place ws : looked_up ly window place ws → NoDup (ws_windows ws).
Proof. intros [Hat _]. destruct Hok as [[Hly _] _]. by eapply wo_distinct, at_place_ok. Qed.

Lemma on_active_keeps op : plain_ws op → runs (on_active par g env op w) (keeps w).
Proof.
  intros [Hin Hpre]. apply on_layout_keeps; [done..|]. split_and!; [done|done|].
  intros place ws Hl. by eapply Hpre, looked_up_NoDup.
Qed.

Lemma on_window_keeps op id :
  id ∈ mw_windows w → ws_op_inside (op id) →
  (∀ ws, NoDup (ws_windows ws) → id ∈ ws_windows ws → ws_op_pre ws (op id)) →
  runs (on_window par g env op id w) (keeps w).
Proof.
  intros Hid Hin Hpre. apply on_layout_keeps; [done..|]. split_and!; [done|by intros ? [= <-]|].
  intros place ws Hl. apply Hpre; [by eapply looked_up_NoDup|apply Hl].
Qed.

Lemma monitor_windows_NoDup m : m ∈ ly_monitors ly → NoDup (mon_windows m).
Proof.
  unfold ly_monitors. destruct (ly_set ly) as [ms p a|l] eqn:E; [|by intros ?%elem_of_nil].
  intros [i Hi]%list_elem_of_lookup. destruct Hok as [[Hly _] _].
  pose proof (monitor_at par _ _ ms p a Hly E i m Hi) as [Hst _ _]. apply Hst.
Qed.

Lemma on_monitor_keeps op i :
  plain_mon op → (ly_monitors ly ≠ [] → i < length (ly_monitors ly)) → runs (on_layout par g env (LopMonitor i op) w) (keeps w).
Proof.
  intros [Hin Hpre] Hi. apply on_layout_keeps; [done..|]. split_and!; [done|done|].
  intros m Hm. apply Hpre, monitor_windows_NoDup. by eapply list_elem_of_lookup_2.
Qed.

Lemma active_monitor_index :
  runs (active_monitor ly) (λ a, match a with
    | Some (i, m) => ly_monitors ly !! i = Some m
    | None => ly_monitors ly = []
    end).
Proof.
  destruct Hok as [[Hly _] _]. unfold active_monitor, ly_monitors. destruct (ly_set ly) as [ms p a|l] eqn:E; [|by apply runs_ret].
  destruct (active_monitor_at par _ ly ms p a Hly E) as (m & _ & Hm & _). rewrite Hm. by apply runs_ret.
Qed.

Lemma on_active_monitor_keeps op : plain_mon op → runs (on_active_monitor par g env op w) (keeps w).
Proof.
  intros Hop. unfold on_active_monitor. eapply runs_bind; [apply active_monitor_index|]. intros [[i m]|] Hm.
  - apply on_monitor_keeps; [done|]. intros _. by eapply lookup_lt_Some.
  - by apply runs_ret, keeps_world_refl.
Qed.

Lemma active_output_runs : runs (active_output w) (λ o, ∀ output, o = Some output → output_in ly output).
Proof.
  unfold active_output. eapply runs_bind; [apply active_monitor_index|]. intros [[i m]|] Hm; apply runs_ret; [|done].
  intros output [= <-]. exists m. split; [by eapply list_elem_of_lookup_2|done].
Qed.

(** *** Looking things up *)
Lemma with_id_keeps id f :
  (id ∈ mw_windows w → runs (f id w) (keeps w)) → runs (with_id id f w) (keeps w).
Proof.
  intros Hf. unfold with_id, find_window_by_id. destruct (bool_decide _) eqn:E; [|by apply runs_ret, keeps_world_refl].
  by apply bool_decide_eq_true in E; apply Hf.
Qed.

Lemma active_window_elem ws id : workspace_ok par ws → ws_active_window ws = Some id → id ∈ ws_windows ws.
Proof.
  intros Hws E. destruct (ws_windows ws) as [|x l] eqn:Ew.
  - unfold ws_windows in Ew. apply app_nil in Ew as [Es Ef]. apply fl_windows_nil in Ef.
    unfold ws_active_window in E. rewrite (wo_floating_empty _ _ Hws Ef) in E.
    apply (windows_nil _ (wo_scrolling _ _ Hws)) in Es. unfold active_window in E. by rewrite Es in E.
  - destruct (ws_active_window_some par ws Hws) as (y & E' & Hy); [by rewrite Ew|]. rewrite E in E'. injection E' as <-. by rewrite <- Ew.
Qed.

Lemma focus_elem : runs (ml_focus w.(mw_ml)) (λ o, ∀ id, o = Some id → id ∈ mw_windows w).
Proof.
  unfold ml_focus, mw_windows, ml_windows, moving. destruct Hok as [[Hly _] _].
  destruct (ml_move (mw_ml w)) as [[x d|data]|]; cbn [held].
  2: { apply runs_ret. intros id [= <-]. left. }
  all: unfold active_monitor, ly_windows, ly_workspaces; destruct (ly_set ly) as [ms p a|l] eqn:E; [|by apply runs_ret].
  all: destruct (active_monitor_at par _ ly ms p a Hly E) as (m & ws & Hm & _ & Hws & Hwok); rewrite Hm; cbn [mbind option_bind].
  all: unfold mon_active_window; rewrite Hws; apply runs_ret; intros id Hid%active_window_elem; [|done].
  all: apply list_elem_of_bind; exists ws; split; [done|]; apply list_elem_of_bind; exists m; split; by eapply list_elem_of_lookup_2.
Qed.

Lemma with_focus_keeps f :
  (∀ id, id ∈ mw_windows w → runs (f id w) (keeps w)) → runs (with_focus f w) (keeps w).
Proof.
  intros Hf. unfold with_focus. eapply runs_bind; [apply focus_elem|]. intros [id|] Hid; [by apply Hf, Hid|].
  by apply runs_ret, keeps_world_refl.
Qed.

Lemma place_output place ws output : at_place ly place ws → ws.(ws_output) = Some output → output_in ly output.
Proof.
  intros Hat E. destruct Hok as [[Hly _] _]. unfold output_in, ly_monitors. destruct (ly_set ly) as [ms p a|l] eqn:El.
  - destruct place as [i j]. apply (at_place_normal _ _ _ _ _ _ _ El) in Hat as (m & Hm & Hj).
    exists m. split; [by eapply list_elem_of_lookup_2|]. pose proof (monitor_at par _ _ ms p a Hly El i m Hm) as [Hst _ _].
    pose proof (so_on _ _ _ _ _ Hst) as Hon. rewrite Forall_lookup in Hon. destruct (Hon _ _ Hj) as [_ _ Ho]. congruence.
  - destruct place as [i j]. apply (at_place_no_outputs _ _ _ _ _ El) in Hat as [_ Hj].
    unfold layout_ok in Hly. rewrite El in Hly. pose proof (no_options _ _ _ _ Hly) as Hon. rewrite Forall_lookup in Hon.
    destruct (Hon _ _ Hj) as [_ Ho]. congruence.
Qed.

Lemma found_output reference output index :
  find_output_and_workspace_index w reference = Some (Some output, index) → output_in ly output.
Proof.
  assert (H0 : ∀ place : option (nat * nat),
    (place ← place; l ← ly_stacks ly !! fst place; ws ← l !! snd place; Some (ws.(ws_output), snd place)) = Some (Some output, index) →
    output_in ly output).
  { intros place (pl & _ & (l & Hl & (ws & Hws & [= E _])%bind_Some)%bind_Some)%bind_Some.
    eapply place_output; [by exists l|done]. }
  destruct reference; cbn; [apply H0|done|apply H0].
Qed.

Lemma other_output_runs o :
  (∀ output, o = Some output → output_in ly output) →
  runs (other_output w o) (λ o', ∀ output, o' = Some output → output_in ly output).
Proof.
  intros Ho. unfold other_output. eapply runs_bind; [apply active_output_runs|]. intros active _. apply runs_ret.
  destruct (decide _); [done|exact Ho].
Qed.

End methods.

Section world.
  Context (w : MruWorld) (Hok : mw_ok par w) (Hr : mw_room w) (Henv : env_ok w).
Local Abbreviation ly := (w.(mw_ml).(ml_layout)).

Lemma output_after_in current l o : output_after current l = Some o → o ∈ l.
Proof.
  unfold output_after. intros (o' & E & E')%bind_Some. destruct (decide _); [done|]. injection E' as <-.
  assert (Hs : ∀ x, x ∈ skip_to current l → x ∈ l).
  { clear. induction l as [|y l IH]; [done|]. cbn. destruct (decide _); [done|]. intros x Hx. right. by apply IH. }
  destruct (skip_to current l !! 1) eqn:E1.
  - injection E as <-. by eapply Hs, list_elem_of_lookup_2.
  - by apply head_Some_elem_of in E.
Qed.

Lemma beside_runs dir current :
  runs (beside overlaps env dir current) (λ o, ∀ output, o = Some output → output_in ly output).
Proof.
  assert (Hb : ∀ center forward extend,
    (∀ r, rect_near r → ∃ c, center r = Some c ∧ - 2 ^ 30 ≤ c < 2 ^ 30)%Z →
    runs (output_beside overlaps center forward extend env.(ae_outputs).(os_space) current)
      (λ o, ∀ output, o = Some output → output_in ly output)).
  { intros center forward extend Hc. destruct (sp_geometry env.(ae_outputs).(os_space) current) as [geo|] eqn:Eg.
    - eapply runs_weaken; [apply (output_beside_nearest overlaps center forward extend _ current geo Eg)|].
      + intros o r Ho. apply distance_near; [done| |]; by eapply (eo_near _ Henv).
      + intros o Ho output ->. destruct Ho as (_ & Ho & _). apply (eo_outputs _ Henv). by left.
    - unfold output_beside. rewrite Eg. by apply runs_ret. }
  pose proof (λ r Hn, proj1 (center_near r Hn)) as Hx. pose proof (λ r Hn, proj2 (center_near r Hn)) as Hy.
  destruct dir; cbn [beside]; [by apply Hb..| |]; apply runs_ret; intros output E%output_after_in;
    apply (eo_outputs _ Henv); right; [|done]. by rewrite (Permutation_rev (os_sorted _)).
Qed.

Lemma neighbour_runs dir : runs (neighbouring_output overlaps env dir w) (λ o, ∀ output, o = Some output → output_in ly output).
Proof.
  unfold neighbouring_output. eapply runs_bind; [by apply active_output_runs|]. intros [current|] _; [apply beside_runs|by apply runs_ret].
Qed.

Lemma by_name_match_in target output : by_name_match env target = Some output → output_in ly output.
Proof.
  unfold by_name_match, output_by_name_match. intros [Hin%list_elem_of_In _]%List.find_some. apply (eo_outputs _ Henv). by left.
Qed.

Let Hv : view_ok env.(ae_view) := eo_view _ Henv.

Lemma with_output_keeps o f :
  runs (o w) (λ o, ∀ output, o = Some output → output_in ly output) →
  (∀ output, output_in ly output → runs (f output w) (keeps w)) → runs (with_output o f w) (keeps w).
Proof.
  intros Ho Hf. unfold with_output. eapply runs_bind; [exact Ho|]. intros [output|] Hin; [by apply Hf, Hin|].
  by apply runs_ret, keeps_world_refl.
Qed.

Lemma with_neighbour_keeps dir f :
  (∀ output, output_in ly output → runs (f output w) (keeps w)) → runs (with_output (neighbouring_output overlaps env dir) f w) (keeps w).
Proof. intros Hf. apply with_output_keeps; [apply neighbour_runs|done]. Qed.

Lemma with_named_keeps target f :
  (∀ output, output_in ly output → runs (f output w) (keeps w)) →
  runs (with_output (λ _, Some (by_name_match env target)) f w) (keeps w).
Proof. intros Hf. apply with_output_keeps; [apply runs_ret; intros output; by apply by_name_match_in|done]. Qed.

Lemma unless_screenshot_keeps f : runs (f w) (keeps w) → runs (unless_screenshot env f w) (keeps w).
Proof. intros Hf. unfold unless_screenshot. destruct (ae_selection env); [by apply runs_ret, keeps_world_refl|done]. Qed.

Lemma to_monitor_keeps dir f :
  (∀ output, output_in ly output → runs (f output w) (keeps w)) → runs (to_monitor overlaps env dir f w) (keeps w).
Proof.
  intros Hf. unfold to_monitor. destruct (ae_selection env) as [current|]; [|by apply with_neighbour_keeps].
  eapply runs_bind; [apply beside_runs|]. intros _ _. by apply runs_ret, keeps_world_refl.
Qed.

Lemma to_named_monitor_keeps target f :
  (∀ output, output_in ly output → runs (f output w) (keeps w)) → runs (to_named_monitor env target f w) (keeps w).
Proof. intros Hf. apply with_named_keeps. intros output Ho. by apply unless_screenshot_keeps, Hf. Qed.

Lemma focus_output_runs output w' : keeps w w' → runs (on_layout par g env (LopFocusOutput output) w') (keeps w).
Proof.
  intros Hk. unfold on_layout. rewrite focus_output_does. apply runs_ret. eapply keeps_world_trans; [exact Hk|].
  by apply output_focused_keeps, Hk.
Qed.

Lemma and_focus_keeps f output :
  runs (f w) (keeps w) → runs (and_then f (on_layout par g env (LopFocusOutput output)) w) (keeps w).
Proof. intros Hf. unfold and_then. eapply runs_bind; [exact Hf|]. intros w'. by apply focus_output_runs. Qed.

Lemma focus_in_workspace_runs focus :
  (∀ ws, workspace_ok par ws → runs (focus ws) (λ r, ws_keeps par ws (fst r))) →
  runs (focus_in_workspace focus w) (λ r, keeps w (snd r)).
Proof.
  intros Hf. destruct Hok as [Hml Hui]. unfold focus_in_workspace.
  destruct (with_active_workspace_runs par w.(mw_ids) ly false (λ ws, r ← focus ws; Some (snd r, fst r)) (proj1 Hml))
    as (r & E & Hk & _).
  { intros _ ws _ _ Hws. eapply runs_bind; [by apply Hf|]. intros r Hr'. by apply runs_ret. }
  rewrite E. apply runs_ret. pose proof (with_active_workspace_options _ _ _ _ E) as Ho. cbn in Ho.
  destruct (ml_carry par _ _ _ w.(mw_ml).(ml_dnd) _ Hml Hk Ho) as [H1 H2 _]. cbn [app] in H2.
  set (w' := set_mw_layout _ _ w). change (mw_windows w' ≡ₚ mw_windows w) in H2. split; [split; [exact H1|]|exact H2].
  eapply ui_ok_windows; [|exact Hui]. intros x. by rewrite H2.
Qed.

Lemma focus_or_to_keeps dir focus :
  (∀ ws, workspace_ok par ws → runs (focus ws) (λ r, ws_keeps par ws (fst r))) →
  runs (focus_or_to par g overlaps env dir focus w) (keeps w).
Proof.
  intros Hf. unfold focus_or_to. eapply runs_bind; [apply neighbour_runs|]. intros output _.
  eapply runs_bind; [by apply focus_in_workspace_runs|]. intros [moved w'] Hk. cbn in Hk.
  destruct output as [output|]; [|by apply runs_ret]. destruct moved; [by apply runs_ret|by apply focus_output_runs].
Qed.

Lemma on_workspace_under_keeps op : plain_ws op → runs (on_workspace_under par g env op w) (keeps w).
Proof.
  intros [Hin Hpre]. unfold on_workspace_under. destruct (ae_workspace_under env) as [id|] eqn:E; [|by apply runs_ret, keeps_world_refl].
  destruct (eo_workspace _ Henv id E) as [Hne Hws]. eapply runs_bind.
  { apply find_place_runs. destruct Hws as (ws & Hws & <-). exists ws. split; [done|apply N.eqb_refl]. }
  intros [i j] (ws & Hat & _). unfold ly_monitors in Hne. destruct (ly_set ly) as [ms p a|l] eqn:El; [|done].
  apply (at_place_normal _ _ _ _ _ _ _ El) in Hat as (m & Hm & Hj). apply on_layout_keeps; [done..|]. cbn [fst snd].
  assert (Em : ly_monitors ly = ms) by (unfold ly_monitors; by rewrite El).
  split_and!; [done|intros _; rewrite Em; by eapply lookup_lt_Some|]. intros m'. rewrite Em, Hm. intros [= <-].
  assert (Hnd : NoDup (mon_windows m)).
  { apply (monitor_windows_NoDup w Hok). rewrite Em. by eapply list_elem_of_lookup_2. }
  split; [done|]. split; [done|]. exists ws. split; [done|]. apply Hpre.
  destruct Hok as [[Hly _] _]. pose proof (monitor_at par _ _ ms p a Hly El i m Hm) as [Hst _ _].
  pose proof (so_on _ _ _ _ _ Hst) as Hon. rewrite Forall_lookup in Hon. destruct (Hon _ _ Hj) as [Hwok _ _]. apply Hwok.
Qed.

Lemma on_monitor_under_keeps op : plain_mon op → runs (on_monitor_under par g env op w) (keeps w).
Proof.
  intros Hop. unfold on_monitor_under. destruct (o ← ae_output_under env; _) as [i|] eqn:E; [|by apply runs_ret, keeps_world_refl].
  apply bind_Some in E as (o & _ & (m & Hm & _)%monitor_position_Some). apply on_monitor_keeps; [done..|].
  intros _. by eapply lookup_lt_Some.
Qed.

(** *** The groups *)

(** A workspace off the active monitor can be named only if it has windows or a name. *)
Definition action_pre (action : Action) : Prop :=
  match action with ActSetWorkspaceNameByRef _ reference => name_in_place ly (Some reference) | _ => True end.

Definition group_keeps (arms : Action → option Arm) : Prop :=
  ∀ action arm, arms action = Some arm → action_pre action → runs (arm w) (keeps w).

Ltac arm := intros action f E Hpre; destruct action; try done; cbn in E; injection E as <-.
Ltac plain := split; [exact I|by split].
Ltac on_known := apply on_window_keeps; [done..|by split].

Lemma window_arms_keep : group_keeps (window_arms par g env).
Proof.
  arm.
  - apply with_focus_keeps; [done|]. intros id Hid. on_known.
  - apply with_id_keeps; [done|]. intros Hid. on_known.
  - apply with_id_keeps; [done|]. intros Hid. by apply focus_window_keeps.
  - apply on_active_keeps; [done..|plain].
  - by apply focus_previous_keeps.
Qed.

Lemma maximize_arms_keep : group_keeps (maximize_arms par g env).
Proof.
  arm.
  - apply with_focus_keeps; [done|]. intros id Hid. on_known.
  - apply with_id_keeps; [done|]. intros Hid. on_known.
Qed.

Lemma floating_arms_keep : group_keeps (floating_arms par g env).
Proof. arm; try (apply on_active_keeps; [done..|plain]); (apply with_id_keeps; [done|]; intros Hid; on_known). Qed.

Lemma move_or_to_keeps dir to_output move :
  plain_ws move → (∀ output, output_in ly output → runs (on_layout par g env (to_output output) w) (keeps w)) →
  runs (move_or_to par g overlaps env dir to_output move w) (keeps w).
Proof.
  intros Hm Hto. apply unless_screenshot_keeps. eapply runs_bind; [apply neighbour_runs|].
  intros [output|] Ho; [by apply Hto, Ho|by apply on_active_keeps].
Qed.

Lemma move_arms_keep : group_keeps (move_arms par g overlaps env).
Proof.
  arm; try (apply on_active_keeps; [done..|plain]);
    try (apply unless_screenshot_keeps; first [apply on_active_keeps|apply on_active_monitor_keeps]; [done..|plain]);
    try (apply with_id_keeps; [done|]; intros Hid; on_known).
  all: apply move_or_to_keeps; [plain|]; intros output Ho; apply on_layout_keeps; [done..|by left].
Qed.

Lemma column_arms_keep : group_keeps (column_arms par g env).
Proof. arm; apply on_active_keeps; [done..|plain]. Qed.

Ltac on_active_ws := apply on_active_keeps; [done..|plain].
Ltac on_active_mon := apply on_active_monitor_keeps; [done..|plain].

Lemma focus_arms_keep : group_keeps (focus_arms par g overlaps env).
Proof.
  arm; try on_active_ws; try (apply on_workspace_under_keeps; plain); apply focus_or_to_keeps; intros ws Hws.
  - by apply ws_focus_up_runs.
  - by apply ws_focus_down_runs.
  - by apply ws_focus_left_runs.
  - by apply ws_focus_right_runs.
Qed.

Lemma focus_window_arms_keep : group_keeps (focus_window_arms par g env).
Proof. arm; first [on_active_ws|on_active_mon]. Qed.

(** The output and the index that a reference stands for. *)
Lemma with_reference_keeps reference (f : option OutputName → nat → option MruWorld) :
  (∀ output index, (∀ o, output = Some o → output_in ly o) → runs (f output index) (keeps w)) →
  runs (match find_output_and_workspace_index w reference with
        | None => Some w
        | Some (output, index) => f output index
        end) (keeps w).
Proof.
  intros Hf. destruct (find_output_and_workspace_index w reference) as [[output index]|] eqn:E; [|by apply runs_ret, keeps_world_refl].
  apply Hf. intros o ->. by eapply found_output.
Qed.

Lemma with_other_keeps output (f : option OutputName → option MruWorld) :
  (∀ o, output = Some o → output_in ly o) →
  (∀ output', (∀ o, output' = Some o → output_in ly o) → runs (f output') (keeps w)) →
  runs (output ← other_output w output; f output) (keeps w).
Proof. intros Ho Hf. eapply runs_bind; [by apply other_output_runs|]. intros output'. apply Hf. Qed.

Lemma to_workspace_arms_keep : group_keeps (to_workspace_arms par g env).
Proof.
  arm; try on_active_ws; try on_active_mon.
  - apply with_reference_keeps. intros output index Ho. apply with_other_keeps; [done|]. intros [o|] Ho'; apply on_layout_keeps; try done.
    split; [left; by apply Ho'|done].
  - apply with_id_keeps; [done|]. intros Hid. apply with_reference_keeps.
    intros [o|] index Ho; apply on_layout_keeps; try done; [|by intros ? [= <-]]. split; [left; by apply Ho|by intros ? [= <-]].
  - apply with_reference_keeps. intros output index Ho. apply with_other_keeps; [done|]. intros [o|] Ho'; [|on_active_mon].
    apply on_layout_keeps; try done. left. by apply Ho'.
Qed.

Lemma active_named_in_place : name_in_place ly None.
Proof.
  intros place ms p a E El. left. unfold place_of, active_place, active_monitor in E. rewrite El in E.
  destruct (ms !! a); [|done]. by injection E as <-.
Qed.

Lemma focus_workspace_keeps reference : runs (focus_workspace par g env reference w) (keeps w).
Proof.
  apply with_reference_keeps. intros output index Ho. apply with_other_keeps; [done|]. intros [o|] _.
  - unfold and_then, on_layout at 1. rewrite focus_output_does. cbn [mbind option_bind].
    pose proof (output_focused_keeps par o w Hok) as Hk. eapply runs_weaken.
    + apply on_active_monitor_keeps; [done|apply Hk|by apply output_focused_room|plain].
    + intros w'. by apply keeps_world_trans.
  - destruct (ae_back_and_forth env); on_active_mon.
Qed.

Lemma workspace_arms_keep : group_keeps (workspace_arms par g env).
Proof.
  arm; try on_active_mon; try (apply on_monitor_under_keeps; plain); try (by apply on_layout_keeps).
  - apply focus_workspace_keeps.
  - unfold move_workspace_to_index_by_ref. destruct (find_output_and_workspace_index w reference) as [res|]; [by apply on_layout_keeps|by apply runs_ret, keeps_world_refl].
  - apply on_layout_keeps; [done..|apply active_named_in_place].
Qed.

Lemma focus_monitor_arms_keep : group_keeps (focus_monitor_arms par g overlaps env).
Proof.
  arm; first [apply with_neighbour_keeps|apply with_named_keeps]; intros output _; by apply focus_output_runs, keeps_world_refl.
Qed.

Lemma window_to_output_keeps output : output_in ly output → runs (window_to_output par g env output w) (keeps w).
Proof. intros Ho. apply and_focus_keeps, on_layout_keeps; try done. by split; [left|]. Qed.

Lemma column_to_output_keeps output : output_in ly output → runs (column_to_output par g env output w) (keeps w).
Proof. intros Ho. apply and_focus_keeps, on_layout_keeps; try done. by left. Qed.

Lemma move_window_arms_keep : group_keeps (move_window_arms par g overlaps env).
Proof.
  arm; try (apply to_monitor_keeps, window_to_output_keeps); [apply to_named_monitor_keeps, window_to_output_keeps|].
  apply with_named_keeps. intros o Ho. apply with_id_keeps; [done|]. intros Hid. apply on_layout_keeps; try done.
  split; [by left|by intros ? [= <-]].
Qed.

Lemma move_column_arms_keep : group_keeps (move_column_arms par g overlaps env).
Proof. arm; try (apply to_monitor_keeps, column_to_output_keeps). apply to_named_monitor_keeps, column_to_output_keeps. Qed.

Lemma move_workspace_arms_keep : group_keeps (move_workspace_arms par g overlaps env).
Proof.
  arm; try (first [apply with_neighbour_keeps|apply with_named_keeps]; intros o Ho; apply on_layout_keeps; [done..|by left]).
  apply with_reference_keeps. intros old index Ho. destruct (by_name_match env output_name) as [new|] eqn:E; [|by apply runs_ret, keeps_world_refl].
  apply on_layout_keeps; [done..|]. split; [left; by eapply by_name_match_in|]. intros o Eo. left. by apply Ho.
Qed.

Lemma overview_arms_keep : group_keeps (overview_arms par g env).
Proof. arm; by apply on_layout_keeps. Qed.

Lemma switcher_arms_keep : group_keeps (switcher_arms par g env).
Proof. arm; by apply mru_action_keeps. Qed.

Lemma first_arm_keeps groups : Forall group_keeps groups → group_keeps (first_arm groups).
Proof.
  induction 1 as [|arms groups Ha _ IH]; intros action arm; cbn; [done|].
  destruct (arms action) as [f|] eqn:E; [intros [= <-]; by apply Ha|apply IH].
Qed.

Lemma layout_arm_keeps : group_keeps (layout_arm par g overlaps env).
Proof.
  apply first_arm_keeps. repeat constructor.
  - apply window_arms_keep.
  - apply move_arms_keep.
  - apply focus_arms_keep.
  - apply focus_window_arms_keep.
  - apply to_workspace_arms_keep.
  - apply workspace_arms_keep.
  - apply column_arms_keep.
  - apply maximize_arms_keep.
  - apply focus_monitor_arms_keep.
  - apply move_window_arms_keep.
  - apply move_column_arms_keep.
  - apply move_workspace_arms_keep.
  - apply floating_arms_keep.
  - apply overview_arms_keep.
  - apply switcher_arms_keep.
Qed.

End world.
End arms.

(** Giving a workspace a name by a reference runs wherever that workspace is. *)
Lemma name_by_reference_runs par g {S : Type} (env : ActionEnv S) name reference w :
  mw_ok par w → mw_room w →
  runs (on_layout par g env (LopSetName name (Some reference)) w) (λ w', mw_windows w' ≡ₚ mw_windows w).
Proof.
  intros [[Hly _] _] Hr. destruct (set_workspace_name_runs par _ _ name (Some reference) Hly Hr) as (ly' & c' & E & Hw).
  unfold on_layout, layout_do. cbn [run_ml_op run_layout_op held_action run_ly_op].
  unfold lift, mret, mbind, Fresh_bind, Fresh_ret, option_bind. rewrite E. cbn. apply runs_ret.
  unfold mw_windows, ml_windows. cbn. by rewrite Hw.
Qed.

(** C3: Actions move windows without losing one. In every reachable world every action about the
    layout, the switcher or an output runs without a panic and keeps exactly the windows there are,
    whatever is held or selected, while ids are left for new workspaces and provided that the outputs
    have monitors, what is under the cursor exists and outputs lie within 2^29 pixels of the origin
    ([env_ok]).  It also keeps the invariants of the layout, the held window and the switcher, unless it
    names an empty unnamed workspace of a monitor that is not the active one ([action_pre]); a world
    is reachable by steps with this exception, and after it a later action may panic
    ([naming_elsewhere_panics]). *)
Theorem actions_keep_windows par g {S : Type} `{OutputSpace S} overlaps (env : ActionEnv S) w0 w action arm :
  no_cycle par → mw_start par g w0 → rtc (mw_step par g) w0 w → mw_room w → env_ok env w →
  layout_arm par g overlaps env action = Some arm →
  ∃ w', arm w = Some w' ∧ mw_windows w' ≡ₚ mw_windows w ∧ (action_pre w action → mw_ok par w').
Proof.
  intros Hc Hs Hsteps Hr Henv E. pose proof (mw_steps_ok par Hc g _ _ Hsteps (mw_start_ok par Hc g _ Hs)) as Hok.
  assert (Hplain : action_pre w action →
    ∃ w', arm w = Some w' ∧ mw_windows w' ≡ₚ mw_windows w ∧ (action_pre w action → mw_ok par w')).
  { intros Hpre. destruct (layout_arm_keeps par Hc g overlaps env w Hok Hr Henv action arm E Hpre) as (w' & ? & ? & ?). eauto. }
  destruct action; try by apply Hplain. injection E as <-.
  destruct (name_by_reference_runs par g env name reference w Hok Hr) as (w' & E' & Hw).
  exists w'. split_and!; [done..|]. intros Hpre. destruct (Hplain Hpre) as (w2 & E2 & _ & Hok2).
  rewrite E' in E2. injection E2 as <-. by apply Hok2.
Qed.

(** ** Where the focus goes *)
Definition earlier (w : MruWorld) (x y : N) : Prop :=
  match focus_time w x, focus_time w y with
  | None, Some _ => True
  | Some t, Some t' => (t < t')%N
  | _, None => False
  end.

Lemma latest_is w id l best :
  id ∈ option_list best ++ l → (∀ x, x ∈ option_list best ++ l → x ≠ id → earlier w x id) → latest w best l = Some id.
Proof.
  revert best. induction l as [|y l IH]; intros best Hin Hall; cbn [latest].
  { destruct best as [b|]; cbn in Hin; [|by apply elem_of_nil in Hin]. by apply list_elem_of_singleton in Hin as ->. }
  destruct best as [b|]; [|by apply IH]. cbn [option_list app] in Hin, Hall.
  set (newer := match (window_info w b).(wi_timestamp) with None => _ | _ => _ end).
  assert (Hn : y = id → newer = true).
  { intros ->. subst newer. destruct (decide (b = id)) as [->|Hne].
    - destruct (wi_timestamp (window_info w id)); [|done]. apply N.leb_refl.
    - specialize (Hall b). unfold earlier, focus_time in Hall. specialize (Hall ltac:(left) Hne).
      destruct (wi_timestamp (window_info w b)), (wi_timestamp (window_info w id)); try done. apply N.leb_le. lia. }
  assert (Hb : b = id → y ≠ id → newer = false).
  { intros -> Hne. subst newer. specialize (Hall y). unfold earlier, focus_time in Hall. specialize (Hall ltac:(right; left) Hne).
    destruct (wi_timestamp (window_info w y)), (wi_timestamp (window_info w id)); try done. apply N.leb_gt. lia. }
  destruct newer; apply IH.
  - cbn. apply elem_of_cons in Hin as [->|Hin]; [|done]. destruct (decide (y = b)) as [->|Hne]; [left|]. by specialize (Hb eq_refl Hne).
  - intros x [->|Hx]%elem_of_cons; apply Hall; [right; left|right; by right].
  - cbn. apply elem_of_cons in Hin as [->|[->|Hin]%elem_of_cons]; [left| |by right]. by specialize (Hn eq_refl).
  - intros x [->|Hx]%elem_of_cons; apply Hall; [left|right; by right].
Qed.

(** The window an action asks to focus: by its id, the selected one of the switcher, or the one that
    had the focus before the current one. *)
Inductive asks_for (w : MruWorld) : Action → N → Prop :=
| asks_window id : id ∈ mw_windows w → asks_for w (ActFocusWindow id) id
| asks_selected id : current_window_id w.(mw_ui) = Some id → asks_for w ActMruConfirm id
| asks_previous id current :
    ml_focus w.(mw_ml) = Some current → id ∈ mw_windows w → current ≠ Some id →
    (∀ x, x ∈ mw_windows w → x ≠ id → current ≠ Some x → earlier w x id) → asks_for w ActFocusWindowPrevious id.

(** C12: The focus goes where an action asks. Focusing a window by its id, confirming the selection of
    the switcher and going back to the window that had the focus before give the focus to that
    window, on whatever monitor and workspace it is, tiled, floating or tabbed behind others, provided
    that there are outputs, that no other window is held by an interactive move and that no swipe
    between workspaces is going on, on any monitor. *)
Theorem focus_goes_where_asked par g {S : Type} `{OutputSpace S} overlaps (env : ActionEnv S) w0 w action id arm :
  no_cycle par → mw_start par g w0 → rtc (mw_step par g) w0 w → asks_for w action id →
  ly_monitors w.(mw_ml).(ml_layout) ≠ [] → Forall no_swipe (ly_monitors w.(mw_ml).(ml_layout)) → may_focus w id →
  layout_arm par g overlaps env action = Some arm →
  ∃ w', arm w = Some w' ∧ ml_focus w'.(mw_ml) = Some (Some id).
Proof.
  intros Hc Hs Hsteps Hask Hne Hset Hmay E. pose proof (mw_steps_ok par Hc g _ _ Hsteps (mw_start_ok par Hc g _ Hs)) as Hok.
  destruct Hask as [id Hid|id Hsel|id current Hfocus Hid Hcur Hlast]; injection E as <-.
  - unfold with_id, find_window_by_id. rewrite bool_decide_true by done. by apply (focus_window_gives par g).
  - cbn [do_mru_action]. unfold confirm_mru, close_mru. destruct (mw_ui w) as [inner| |] eqn:Eui; try done. cbn in Hsel. cbn [ui_close].
    rewrite Hsel. cbn [mbind option_bind]. pose proof Hok as [_ Hui]. rewrite Eui in Hui. destruct Hui as [H1 _ H3].
    assert (Hid : id ∈ mw_windows w).
    { pose proof (wk_current _ H1) as Hv. rewrite Hsel in Hv. apply list_elem_of_fmap in Hv as (t & -> & [Ht _]%visible_elem). by apply H3. }
    unfold find_window_by_id. cbn [mw_ml set_mw_ui]. rewrite bool_decide_true by done.
    apply (focus_window_gives par g); try done. apply mw_ok_ui; [done|]. by destruct (is_fully_open _ _).
  - unfold focus_window_previous. rewrite Hfocus. cbn [mbind option_bind].
    rewrite (latest_is w id).
    + destruct (commit_same w) as [[E1 E2] _]. apply (focus_window_gives par g); rewrite ?E1; try done; [by apply commit_ok| |].
      * unfold mw_windows. by rewrite E1.
      * unfold may_focus. by rewrite E1.
    + cbn [option_list app]. apply list_elem_of_filter. by split; [intros E; apply Hcur|].
    + intros x [Hx1 Hx2]%list_elem_of_filter Hx. apply Hlast; [done|done|]. by intros E.
Qed.

(** *** Around the outputs *)
(** Focusing another output and then the one that was active gives the same world again. *)
Lemma focus_there_and_again par w o o' :
  mw_ok par w → active_output w = Some (Some o) → output_in w.(mw_ml).(ml_layout) o' →
  active_output (output_focused o' w) = Some (Some o') ∧ output_focused o (output_focused o' w) = w.
Proof.
  intros [[Hly _] _] Ha Hin. unfold active_output, active_monitor in *. unfold output_focused, focus_output.
  destruct (ly_set (ml_layout (mw_ml w))) as [ms p a|l] eqn:E; [|done]. cbn [mw_ml set_mw_layout ml_layout set_ml_layout].
  destruct (ms !! a) as [m|] eqn:Em; [|done]. cbn in Ha. injection Ha as <-.
  destruct (output_in_normal _ ms p a o' E Hin) as (i & Ei & m' & Hm' & Ho'). rewrite Ei. cbn [ly_set set_ly_set].
  split; [by rewrite Hm'; cbn; rewrite Ho'|].
  assert (Ej : monitor_position ms (mo_output m) = Some a).
  { destruct (monitor_position_runs ms (mo_output m)) as (j & Ej & m2 & Hm2 & Eo); [exists m; split; [by eapply list_elem_of_lookup_2|done]|].
    rewrite Ej. f_equal. destruct (decide (j = a)) as [|Hne]; [done|exfalso].
    pose proof (normal_homes par _ _ ms p a Hly E) as [Hd _].
    pose proof (Hd j a _ _ Hne (outputs_lookup _ _ _ Hm2) (outputs_lookup _ _ _ Em) (OutputId_new (mo_output m2)) (own_matches _)) as Hf.
    rewrite Eo, own_matches in Hf. done. }
  rewrite Ej. clear - E. destruct w as [[[] ? ?] ? ? ? ? ? ? ?]. cbn in *. by rewrite <- E.
Qed.

(** Going to the next output and then to the previous one, or the other way around, undoes itself:
    the world is the one from before, however many outputs there are. *)
Theorem next_output_and_back par g {S : Type} `{OutputSpace S} overlaps (env : ActionEnv S) w0 w o :
  no_cycle par → mw_start par g w0 → rtc (mw_step par g) w0 w →
  active_output w = Some (Some o) → NoDup env.(ae_outputs).(os_sorted) → o ∈ env.(ae_outputs).(os_sorted) →
  (∀ o, o ∈ env.(ae_outputs).(os_sorted) → output_in w.(mw_ml).(ml_layout) o) →
  ∀ next previous, layout_arm par g overlaps env ActFocusMonitorNext = Some next →
  layout_arm par g overlaps env ActFocusMonitorPrevious = Some previous →
  and_then next previous w = Some w ∧ and_then previous next w = Some w.
Proof.
  intros Hc Hs Hsteps Ha Hnd Hin Hall next previous [= <-] [= <-].
  pose proof (mw_steps_ok par Hc g _ _ Hsteps (mw_start_ok par Hc g _ Hs)) as Hok.
  unfold and_then, focus_monitor, with_output, neighbouring_output. rewrite Ha. cbn [mbind option_bind beside].
  destruct (decide (1 < length env.(ae_outputs).(os_sorted))) as [Hlen|Hlen].
  - destruct (next_previous env.(ae_outputs) o Hnd Hlen Hin) as [(o1 & Hin1 & E1 & E1') (o2 & Hin2 & E2 & E2')].
    rewrite E1, E2. unfold on_layout. rewrite !focus_output_does. cbn [mbind option_bind].
    destruct (focus_there_and_again par w o o1 Hok Ha (Hall _ Hin1)) as [F1 G1].
    destruct (focus_there_and_again par w o o2 Hok Ha (Hall _ Hin2)) as [F2 G2].
    rewrite F1, F2. cbn [mbind option_bind]. rewrite E1', E2', !focus_output_does, G1, G2. done.
  - assert (Eo : os_sorted env.(ae_outputs) = [o]).
    { destruct (os_sorted (ae_outputs env)) as [|x [|y l]]; cbn in *; [by apply elem_of_nil in Hin| |lia].
      by apply list_elem_of_singleton in Hin as ->. }
    unfold output_next_of, output_previous_of, output_after. rewrite Eo. cbn. rewrite decide_True by done. cbn.
    rewrite decide_True by done. cbn. rewrite Ha. cbn. rewrite decide_True by done. cbn. by rewrite decide_True.
Qed.

(** ** Witnesses *)
Definition act_outputs : Outputs (gmap OutputName Point) :=
  MkOutputs {[left_output := (0, 0)%Z; right_output := (1280, 0)%Z]} [left_output; right_output].
Definition act_env : ActionEnv (gmap OutputName Point) := MkActionEnv still_env act_outputs sample_cfg false None None None.

Lemma act_env_ok : env_ok act_env fw1.2.
Proof.
  assert (Hin : ∀ o, o = left_output ∨ o = right_output → output_in fw1.2.(mw_ml).(ml_layout) o).
  { intros o Ho. assert (H : o ∈ mo_output <$> ly_monitors fw1.2.(mw_ml).(ml_layout)).
    { replace (mo_output <$> ly_monitors fw1.2.(mw_ml).(ml_layout)) with [left_output; right_output] by (vm_compute; reflexivity).
      destruct Ho as [->| ->]; [left|right; left]. }
    apply list_elem_of_fmap in H as (m & -> & Hm). by exists m. }
  split.
  - exact still_env_ok.
  - intros o [Ho|Ho]; apply Hin.
    + apply sp_outputs_mapped in Ho as [r Hr]. cbn in Hr. apply fmap_Some in Hr as (p & Hp & _).
      apply lookup_insert_Some in Hp as [[<- _]|[_ [<- _]%lookup_singleton_Some]]; auto.
    + cbn in Ho. set_solver.
  - intros o r Hr. cbn in Hr. apply fmap_Some in Hr as (p & Hp & ->).
    apply lookup_insert_Some in Hp as [[<- <-]|[_ [<- <-]%lookup_singleton_Some]]; vm_compute; split_and!; discriminate.
  - discriminate.
Qed.

Lemma actions_keep_windows_witness :
  ∃ arm w', layout_arm unparented sample_placement sample_overlaps act_env ActMoveWindowToMonitorRight = Some arm ∧
    arm fw1.2 = Some w' ∧ active_output w' = Some (Some right_output) ∧ mw_windows w' ≡ₚ mw_windows fw1.2.
Proof.
  eexists _. destruct (actions_keep_windows unparented sample_placement sample_overlaps act_env mw0 fw1.2 ActMoveWindowToMonitorRight
    _ unparented_no_cycle mw0_start mw1_reached ltac:(vm_compute; reflexivity) act_env_ok eq_refl) as (w' & E & Hw & _).
  exists w'. split; [reflexivity|]. split; [exact E|]. split; [|exact Hw]. vm_compute in E. injection E as <-. vm_compute. reflexivity.
Defined.

Lemma focus_goes_where_asked_witness :
  ∃ w', layout_arm unparented sample_placement sample_overlaps act_env ActMruConfirm ≫= (λ arm, arm mw2) = Some w' ∧
    ml_focus mw2.(mw_ml) = Some (Some 1%N) ∧ ml_focus w'.(mw_ml) = Some (Some 2%N).
Proof.
  destruct (focus_goes_where_asked unparented sample_placement sample_overlaps act_env mw0 mw2 ActMruConfirm 2%N
    (do_mru_action unparented sample_placement still_env sample_cfg ActMruConfirm) unparented_no_cycle mw0_start mw2_reached) as (w' & E & Hw).
  - constructor. vm_compute. reflexivity.
  - vm_compute. discriminate.
  - vm_compute ly_monitors. repeat constructor; intros gesture; discriminate.
  - intros data. vm_compute. discriminate.
  - reflexivity.
  - exists w'. split; [exact E|]. split; [vm_compute; reflexivity|exact Hw].
Defined.

Lemma next_output_and_back_witness :
  ∃ next previous, layout_arm unparented sample_placement sample_overlaps act_env ActFocusMonitorNext = Some next ∧
    layout_arm unparented sample_placement sample_overlaps act_env ActFocusMonitorPrevious = Some previous ∧
    option_map active_output (next fw1.2) = Some (Some (Some right_output)) ∧
    and_then next previous fw1.2 = Some fw1.2 ∧ and_then previous next fw1.2 = Some fw1.2.
Proof.
  eexists _, _. split; [reflexivity|]. split; [reflexivity|]. split; [vm_compute; reflexivity|].
  apply (next_output_and_back unparented sample_placement sample_overlaps act_env mw0 fw1.2 left_output).
  - exact unparented_no_cycle.
  - exact mw0_start.
  - exact mw1_reached.
  - vm_compute. reflexivity.
  - repeat constructor; set_solver.
  - cbn. set_solver.
  - intros o Ho. apply (eo_outputs _ _ act_env_ok). by right.
  - reflexivity.
  - reflexivity.
Defined.
