(* ===== verification/ScratchColumns.v ===== *)
(** * Scratch columns (src/niri.rs)

    A scratch column is a column that an action takes to a workspace of its own and back.  The
    workspace it comes from is named meanwhile, so that it is not cleaned up when it becomes empty.
    The state adds to the world of MruWorld.v what is recorded of each scratch column that is open.
    Publishing events and updating the status are left out. *)
From stdpp Require Import gmap strings.
From S2P Require Import Prelude Float64 LayoutScrolling LayoutFloating LayoutFloatingProps LayoutOutput LayoutWorkspace LayoutWorkspaceOps LayoutWorkspaceProps LayoutMonitor LayoutMonitorOps LayoutMonitorMoves LayoutMonitorProps LayoutSet LayoutSetOwn LayoutSetOps LayoutSetOutputs LayoutSetMoves LayoutSetWindows LayoutSetNames LayoutSetProps LayoutSetOptions LayoutMove LayoutMoveGeometry LayoutMoveOps LayoutMoveProps ConfigBinds WindowMru WindowMruProps MruWorld MruWorldProps MruProps OutputPositions Actions ActionsProps.

Record ScratchColumn := MkScratchColumn {
  sk_name : string;
  sk_monitor : option string;
  sk_close_on_focus_loss : option bool
}.

Record ScratchColumnRuntime := MkScratchRuntime { sr_source_workspace_id : N; sr_return_workspace_name : string }.

(** [scratch_columns] of [Niri], and the world. *)
Record ScratchWorld := MkScratchWorld { sw_world : MruWorld; sw_columns : gmap string ScratchColumnRuntime }.
Definition set_sw_world w s : ScratchWorld := MkScratchWorld w s.(sw_columns).
Definition set_sw_columns c s : ScratchWorld := MkScratchWorld s.(sw_world) c.

Definition scratch_workspace_name (name : string) : string := "__scratch_" +:+ name.
Definition scratch_return_name (name : string) : string := "__scratch_return_" +:+ name.

Section scratch.
  Context (parent_of : N → option N) (g : Placement) (env : ViewEnv) (config : list ScratchColumn).

Definition world_layout (w : MruWorld) : Layout := w.(mw_ml).(ml_layout).

Definition active_workspace (ly : Layout) : option (option Workspace) :=
  active ← active_monitor ly;
  match active with
  | Some (_, m) => ws ← m.(mo_workspaces) !! m.(mo_active); Some (Some ws)
  | None => Some None
  end.

Definition workspace_at (ly : Layout) (place : nat * nat) : option Workspace :=
  l ← ly_stacks ly !! fst place; l !! snd place.

Definition do_layout (op : LyOp) : MruWorld → option MruWorld := layout_do parent_of g (MlLayout env op).

(** Methods that start with [let Some(monitor) = self.active_monitor() else { return }]. *)
Definition do_active_monitor (op : MonOp) (w : MruWorld) : option MruWorld :=
  active ← active_monitor (world_layout w);
  match active with Some (i, _) => do_layout (LopMonitor i op) w | None => Some w end.

Definition focus_output_of (output : option OutputName) (w : MruWorld) : option MruWorld :=
  match output with Some output => do_layout (LopFocusOutput output) w | None => Some w end.

(** [unname_workspace]. *)
Definition unname_named (name : string) : MruWorld → option MruWorld := do_layout (LopUnsetName (Some (RefName name))).

(** [ensure_named_workspace_on_monitor] gives the index of the workspace on its monitor. *)
Definition ensure_scratch_workspace (name : string) (monitor : option string) (w : MruWorld) : option (MruWorld * option nat) :=
  '((ly, idx), c) ← ensure_named_workspace_on_monitor (world_layout w) name monitor w.(mw_ids);
  Some (set_mw_layout (set_ml_layout ly w.(mw_ml)) c w, idx).

(** The scratch column goes back to where it came from. *)
Definition restore_scratch (name : string) (s : ScratchWorld) : option (ScratchWorld * bool) :=
  match s.(sw_columns) !! name with
  | None => Some (s, false)
  | Some runtime =>
      let s := set_sw_columns (delete name s.(sw_columns)) s in
      let ly := world_layout s.(sw_world) in
      let source := match find_workspace_by_name ly runtime.(sr_return_workspace_name) with
                    | Some place => Some place
                    | None => find_workspace_by_id ly runtime.(sr_source_workspace_id)
                    end in
      match source with
      | None => Some (s, false)
      | Some source =>
          ws ← workspace_at ly source;
          w ← focus_output_of ws.(ws_output) s.(sw_world);
          w ← do_active_monitor (MopMoveColumnTo (snd source) true) w;
          w ← do_active_monitor (MopSwitch (snd source)) w;
          w ← unname_named runtime.(sr_return_workspace_name) w;
          w ← (match find_workspace_by_name (world_layout w) (scratch_workspace_name name) with
               | Some place =>
                   ws ← workspace_at (world_layout w) place;
                   if has_windows ws then Some w else unname_named (scratch_workspace_name name) w
               | None => Some w
               end);
          Some (set_sw_world w s, true)
      end
  end.

(** The scratch column is shown, or made of the active column. *)
Definition open_scratch (column : ScratchColumn) (source : Workspace) (s : ScratchWorld) : option (ScratchWorld * bool) :=
  let name := column.(sk_name) in
  let runtime := MkScratchRuntime source.(ws_id) (scratch_return_name name) in
  w ← do_layout (LopSetName (scratch_return_name name) None) s.(sw_world);
  let s := set_sw_world w s in
  let s' := set_sw_columns (<[name := runtime]> s.(sw_columns)) s in
  shown ← (match find_workspace_by_name (world_layout w) (scratch_workspace_name name) with
           | Some place =>
               ws ← workspace_at (world_layout w) place;
               Some (if has_windows ws then Some (snd place, ws.(ws_output)) else None)
           | None => Some None
           end);
  match shown with
  | Some (scratch_idx, scratch_output) =>
      w ← focus_output_of scratch_output w;
      w ← do_active_monitor (MopSwitch scratch_idx) w;
      Some (set_sw_world w s', true)
  | None =>
      '(w, scratch_idx) ← ensure_scratch_workspace (scratch_workspace_name name) column.(sk_monitor) w;
      match scratch_idx with
      | None => Some (set_sw_world w s, false)
      | Some scratch_idx => w ← do_active_monitor (MopMoveColumnTo scratch_idx true) w; Some (set_sw_world w s', true)
      end
  end.

Definition toggle_scratch_column (name : string) (s : ScratchWorld) : option (ScratchWorld * bool) :=
  match List.find (λ column, String.eqb column.(sk_name) name) config with
  | None => Some (s, false)
  | Some column =>
      active ← active_workspace (world_layout s.(sw_world));
      match active with
      | None => Some (s, false)
      | Some ws =>
          if bool_decide (ws.(ws_name) = Some (scratch_workspace_name name)) then restore_scratch name s
          else open_scratch column ws s
      end
  end.

(** ** Losing the focus *)
Definition is_scratch_name (name : option string) : bool :=
  match name with Some name => String.prefix "__scratch_" name | None => false end.

Definition closes_on_focus_loss (name : string) : bool :=
  match List.find (λ column, String.eqb column.(sk_name) name) config with
  | Some column => default false column.(sk_close_on_focus_loss)
  | None => false
  end.

Fixpoint close_columns (names : list string) (s : ScratchWorld) : option ScratchWorld :=
  match names with
  | [] => Some s
  | name :: names =>
      let ly := world_layout s.(sw_world) in
      shown ← (match find_workspace_by_name ly (scratch_workspace_name name) with
               | Some place => ws ← workspace_at ly place; Some (has_windows ws)
               | None => Some false
               end);
      s ← (if shown : bool then fst <$> toggle_scratch_column name s else Some s);
      close_columns names s
  end.

(** [names] are the names of [scratch_columns] in the order of the hash map. *)
Definition check_scratch_column_focus_loss (names : list string) (s : ScratchWorld) : option ScratchWorld :=
  active ← active_workspace (world_layout s.(sw_world));
  match active with
  | None => Some s
  | Some ws =>
      if is_scratch_name ws.(ws_name) then Some s
      else close_columns (List.filter closes_on_focus_loss names) s
  end.

End scratch.

(** ** Properties

    Toggling scratch columns and the check for a lost focus run to their end, keep the invariants of
    the world and every window.  A toggle is a sequence of operations of the layout, so besides the
    invariants it takes bounds on the ids that each operation draws. *)

(** ** Ids drawn *)
Definition draws {A} (k : N) (o : Fresh A) : Prop := ∀ c a c', o c = Some (a, c') → (c' ≤ c + k)%N.

Lemma draws_ret {A} (a : A) : draws 0 (mret a).
Proof. intros c b c' [= _ <-]. lia. Qed.

Lemma draws_lift {A} (o : option A) : draws 0 (lift o).
Proof. intros c a c' (b & _ & [= _ <-])%bind_Some. lia. Qed.

Lemma draws_bind {A B} j k (o : Fresh A) (f : A → Fresh B) : draws j o → (∀ a, draws k (f a)) → draws (j + k) (o ≫= f).
Proof.
  intros Ho Hf c b c' E. unfold mbind, Fresh_bind in E. apply bind_Some in E as ([a c1] & Eo & Ef).
  apply Ho in Eo. apply Hf in Ef. lia.
Qed.

Lemma draws_le {A} j k (o : Fresh A) : draws j o → (j ≤ k)%N → draws k o.
Proof. intros Ho Hjk c a c' E. apply Ho in E. lia. Qed.

Lemma draws_lift_bind {A B} k (o : option A) (f : A → Fresh B) : (∀ a, draws k (f a)) → draws k (lift o ≫= f).
Proof. intros Hf. apply (draws_bind 0 k); [apply draws_lift|done]. Qed.

Lemma draws_next : draws 1 next_id.
Proof. intros c a c' [= _ <-]. unfold wrapping_add_u64. apply N.Div0.mod_le. Qed.

(** Goes through the branches of a function that draws no more than the calls in its branches. *)
Ltac draws_step :=
  first
    [ by (eapply draws_le; [apply draws_ret|lia])
    | by (eapply draws_le; [apply draws_lift|lia])
    | match goal with
      | |- draws _ (lift _ ≫= _) => apply draws_lift_bind; intros ?
      | |- draws _ (match ?x with _ => _ end) => destruct x
      end ].
Ltac draws_all := cbn beta iota zeta; repeat (draws_step; cbn beta iota zeta).

Lemma add_workspace_draws m i : draws 1 (add_workspace_at m i).
Proof. unfold add_workspace_at, new_workspace. apply (draws_bind 1 0); [apply (draws_bind 1 0); [apply draws_next|intros; apply draws_ret]|]. intros ws. draws_all. Qed.

Lemma add_if_draws (b : bool) m i : draws 1 (if b then add_workspace_at m i else mret m).
Proof. destruct b; [apply add_workspace_draws|eapply draws_le; [apply draws_ret|lia]]. Qed.

Lemma pad_draws m bottom above idx : draws 2 (pad m bottom above idx).
Proof.
  unfold pad, add_workspace_bottom, add_workspace_top. apply (draws_bind 1 1); [apply add_if_draws|]. intros m'.
  destruct (mo_above_first m' && above m'); [|draws_all]. apply (draws_bind 1 0); [apply add_workspace_draws|]. intros. draws_all.
Qed.

Lemma pad_workspaces_draws m idx : draws 2 (pad_workspaces m idx).
Proof. unfold pad_workspaces. draws_all. apply pad_draws. Qed.

Lemma pad_named_draws m id : draws 2 (pad_named m id).
Proof.
  unfold pad_named, add_workspace_bottom, add_workspace_top. apply (draws_bind 1 1); [apply add_if_draws|]. intros. apply add_if_draws.
Qed.

Section layout.
  Context (par : N → option N) (g : Placement).

Lemma mon_add_column_draws m i col b : draws 2 (mon_add_column m i col b).
Proof. unfold mon_add_column. draws_all. apply (draws_bind 2 0); [apply pad_workspaces_draws|]. intros. draws_all. Qed.

Lemma add_removed_draws m removed id activate : draws 2 (add_removed par m removed id activate).
Proof.
  unfold add_removed, mon_add_tile. draws_all. apply (draws_bind 2 0); [apply pad_workspaces_draws|]. intros. draws_all.
Qed.

Lemma move_to_workspace_draws m window idx activate : draws 2 (move_to_workspace par g m window idx activate).
Proof. unfold move_to_workspace. draws_all. apply (draws_bind 2 0); [apply add_removed_draws|]. intros. draws_all. Qed.

Lemma move_column_draws m idx activate : draws 2 (move_column_to_workspace par g m idx activate).
Proof.
  unfold move_column_to_workspace, move_active_column_to. draws_all; first [apply move_to_workspace_draws|apply mon_add_column_draws].
Qed.

Lemma with_monitor_draws k ly i f : (∀ m, draws k (f m)) → draws k (with_monitor ly i f).
Proof.
  intros Hf. unfold with_monitor. destruct (ly_set ly); [|eapply draws_le; [apply draws_ret|lia]]. draws_all.
  apply (draws_le (k + 0)); [|lia]. apply draws_bind; [apply Hf|]. intros. apply draws_ret.
Qed.

Lemma set_name_draws ly name reference : draws 2 (set_workspace_name ly name reference).
Proof.
  unfold set_workspace_name. draws_all. unfold with_active_monitor. destruct (ly_set _); [|draws_all].
  apply with_monitor_draws. intros. apply pad_named_draws.
Qed.

Lemma ensure_draws ly name monitor : draws 3 (ensure_named_workspace_on_monitor ly name monitor).
Proof.
  unfold ensure_named_workspace_on_monitor. destruct (find_workspace_by_name ly name); [draws_all|].
  destruct (ly_set ly) as [ms p a|l] eqn:E; [|draws_all]. unfold name_last_of. rewrite E. draws_all.
  apply (draws_le (3 + 0)); [|lia]. apply draws_bind; [|intros; apply draws_ret]. unfold name_last. draws_all.
  apply (draws_bind 1 2); [unfold add_workspace_bottom; apply add_if_draws|]. intros. draws_all.
  apply (draws_le (2 + 0)); [|lia]. apply draws_bind; [apply pad_workspaces_draws|]. intros. draws_all.
Qed.

(** *** The number of monitors *)
Definition same_count (ly ly' : Layout) : Prop := length (ly_monitors ly') = length (ly_monitors ly).

Lemma insert_same_count ly ms p a a' i m :
  ly.(ly_set) = SetNormal ms p a → same_count ly (set_ly_set (SetNormal (<[i := m]> ms) p a') ly).
Proof. intros E. unfold same_count, ly_monitors. rewrite E. cbn. apply length_insert. Qed.

Lemma with_monitor_count ly i f : yields (same_count ly) (with_monitor ly i f).
Proof.
  unfold with_monitor. destruct (ly_set ly) as [ms p a|l] eqn:E; [|by apply yields_ret].
  apply yields_any. intros m. apply yields_any. intros m'. apply yields_ret. by eapply insert_same_count.
Qed.

Lemma with_workspace_count {B} ly place (f : Workspace → option (B * Workspace)) :
  offers (λ r, same_count ly (snd r)) (with_workspace ly place f).
Proof.
  unfold with_workspace. destruct (ly_set ly) as [ms p a|l] eqn:E; repeat (apply offers_any; intros ?); apply offers_some; cbn.
  - by eapply insert_same_count.
  - unfold same_count, ly_monitors. by rewrite E.
Qed.

Lemma set_name_count ly name reference : yields (same_count ly) (set_workspace_name ly name reference).
Proof.
  unfold set_workspace_name. destruct (find_workspace_by_name ly name); [by apply yields_ret|].
  apply yields_any. intros [place|]; [|by apply yields_ret].
  eapply yields_bind; [apply yields_lift, with_workspace_count|]. intros r Hr. unfold with_active_monitor.
  destruct (ly_set (snd r)) eqn:E; [|by apply yields_ret]. intros c ly' c' E'. unfold same_count in *. rewrite <- Hr.
  eapply with_monitor_count, E'.
Qed.

Lemma ensure_count ly name monitor : yields (λ r, same_count ly (fst r)) (ensure_named_workspace_on_monitor ly name monitor).
Proof.
  unfold ensure_named_workspace_on_monitor. destruct (find_workspace_by_name ly name); [by apply yields_ret|].
  destruct (ly_set ly) as [ms p a|l] eqn:E; [|by apply yields_ret]. unfold name_last_of. rewrite E.
  apply yields_any. intros m. apply yields_any. intros r. apply yields_ret. by eapply insert_same_count.
Qed.

Lemma unset_name_count ly reference : offers (same_count ly) (unset_workspace_name ly reference).
Proof.
  unfold unset_workspace_name. apply offers_any. intros [[i j]|]; [|by apply offers_some].
  apply offers_any. intros l. apply offers_any. intros ws. unfold unname_workspace_by_id.
  destruct (ly_set ly) as [ms p a|k] eqn:E.
  - intros ly' (r & Er & [= <-])%bind_Some. unfold same_count, ly_monitors. rewrite E. cbn.
    clear E. revert r Er. induction ms as [|m ms IH]; cbn; intros r Er; [by injection Er as <-|].
    apply bind_Some in Er as (q & _ & Er). destruct (snd q); [by injection Er as <-|].
    apply bind_Some in Er as (q' & Eq & [= <-]). cbn. f_equal. by apply IH.
  - assert (H0 : ∀ l', same_count ly (set_ly_set (SetNoOutputs l') ly)) by (intros l'; unfold same_count, ly_monitors; by rewrite E).
    destruct (vec_position _ k); [|by apply offers_some]. apply offers_any. intros ws'. apply offers_any. intros l'. by apply offers_some.
Qed.

End layout.

(** ** Steps of the world *)
Section world.
  Context (par : N → option N) (Hcycle : no_cycle par) (g : Placement) (env : ViewEnv) (Hv : view_ok env).

(** The invariants, and room for the ids of one operation and [k] more. *)
Definition ready (k : N) (w : MruWorld) : Prop :=
  mw_ok par w ∧ room (4 + 2 * N.of_nat (length (ly_monitors (world_layout w))) + k) w.(mw_ids).

Definition stepped (k : N) (w w' : MruWorld) : Prop := ready k w' ∧ mw_windows w' ≡ₚ mw_windows w.

Lemma ready_room k w : ready k w → mw_room w.
Proof. intros [_ H]. eapply room_less; [|exact H]. unfold world_layout. lia. Qed.

Lemma ready_less j k w : (j ≤ k)%N → ready k w → ready j w.
Proof. intros Hj [H1 H2]. split; [done|]. eapply room_less; [|exact H2]. lia. Qed.

Lemma stepped_refl k w : ready k w → stepped k w w.
Proof. by split. Qed.

Lemma stepped_trans j k w w1 w2 : stepped j w w1 → stepped k w1 w2 → stepped k w w2.
Proof. intros [_ E1] [H E2]. split; [done|]. by rewrite E2. Qed.

(** An operation that is not about the held window. *)
Definition direct (op : LyOp) : Prop :=
  match op with LopFocusOutput _ | LopMonitor _ _ | LopSetName _ _ | LopUnsetName _ => True | _ => False end.

Lemma do_layout_step op j k w :
  ready (j + k) w → direct op → layout_op_pre par w.(mw_ids) w.(mw_ml) op →
  draws j (run_ly_op par g (world_layout w) op) → yields (λ r, same_count (world_layout w) (fst r)) (run_ly_op par g (world_layout w) op) →
  runs (do_layout par g env op w) (stepped k w).
Proof.
  intros Hr Hd Hpre Hdraws Hcount. pose proof Hr as [Hok Hroom].
  destruct (layout_do_keeps par Hcycle g (MlLayout env op) w) as (w' & E & [Hok' Hw']); [done|by destruct op..|by split|by eapply ready_room|].
  exists w'. split; [done|]. split; [|done]. split; [done|]. unfold layout_do in E.
  apply bind_Some in E as ([[ml removed] c'] & E & [= <-]). cbn [mw_ids set_mw_layout world_layout mw_ml].
  assert (Erun : ∃ r, run_ly_op par g (world_layout w) op w.(mw_ids) = Some (r, c') ∧ ml = set_ml_layout (fst r) w.(mw_ml)).
  { assert (E' : (r ← run_ly_op par g (world_layout w) op; mret (set_ml_layout (fst r) w.(mw_ml), snd r)) w.(mw_ids) = Some ((ml, removed), c')).
    { destruct op; try done; exact E. }
    unfold mbind, Fresh_bind in E'. apply bind_Some in E' as ([r c1] & Er & [= <- _ <-]). by exists r. }
  destruct Erun as (r & Er & ->). pose proof (Hdraws _ _ _ Er). pose proof (Hcount _ _ _ Er) as Hc. unfold same_count in Hc. cbn in Hc.
  cbn. rewrite Hc. unfold room in *. lia.
Qed.

Lemma active_focus_step output k w : ready k w → runs (focus_output_of par g env output w) (stepped k w).
Proof.
  intros Hr. destruct output as [output|]; [|by apply runs_ret, stepped_refl]. unfold focus_output_of, do_layout.
  rewrite focus_output_does. apply runs_ret. destruct Hr as [Hok Hr]. pose proof (output_focused_keeps par output w Hok) as [H1 H2].
  split; [|done]. split; [done|]. unfold world_layout, output_focused. cbn [mw_ml mw_ids set_mw_layout ml_layout set_ml_layout].
  assert (Hc : length (ly_monitors (focus_output (ml_layout (mw_ml w)) output)) = length (ly_monitors (world_layout w))).
  { unfold focus_output, ly_monitors, world_layout. destruct (ly_set (ml_layout (mw_ml w))) as [ms p a|l] eqn:E; [|by rewrite E].
    destruct (monitor_position ms output); cbn; by rewrite ?E. }
  by rewrite Hc.
Qed.

Lemma mon_run_draws k ly i op :
  (∀ m, draws k (run_mon_op par g m op)) → draws k (run_ly_op par g ly (LopMonitor i op)).
Proof.
  intros Hm. cbn [run_ly_op]. apply (draws_le (k + 0)); [|lia]. apply draws_bind; [|intros; apply draws_ret].
  apply with_monitor_draws. intros m. apply (draws_le (k + 0)); [|lia]. apply draws_bind; [apply Hm|]. intros. apply draws_ret.
Qed.

Lemma mon_run_count ly i op : yields (λ r, same_count ly (fst r)) (run_ly_op par g ly (LopMonitor i op)).
Proof. cbn [run_ly_op]. eapply yields_bind; [apply with_monitor_count|]. intros ly' H. by apply yields_ret. Qed.

Lemma active_monitor_step op j k w :
  ready (j + k) w → plain_mon par op → (∀ m, draws j (run_mon_op par g m op)) →
  runs (do_active_monitor par g env op w) (stepped k w).
Proof.
  intros Hr [Hin Hpre] Hd. unfold do_active_monitor. eapply runs_bind; [apply (active_monitor_index par), Hr|].
  intros [[i m]|] Hm; [|by apply runs_ret, stepped_refl, (ready_less _ (j + k)); [lia|]].
  apply (do_layout_step _ j); [done|done| |by apply mon_run_draws|apply mon_run_count]. cbn. split_and!; [done| |].
  - intros _. by eapply lookup_lt_Some.
  - intros m' Hm'. apply Hpre. eapply (monitor_windows_NoDup par w); [apply Hr|by eapply list_elem_of_lookup_2].
Qed.

Lemma switch_step i k w : ready k w → runs (do_active_monitor par g env (MopSwitch i) w) (stepped k w).
Proof.
  intros Hr. apply (active_monitor_step _ 0); [done|split; [exact I|by split]|]. intros m. cbn [run_mon_op].
  apply (draws_bind 0 0); [apply draws_lift|intros; apply draws_ret].
Qed.

Lemma move_column_step i b k w : ready (2 + k) w → runs (do_active_monitor par g env (MopMoveColumnTo i b) w) (stepped k w).
Proof.
  intros Hr. apply (active_monitor_step _ 2); [done|split; [exact I|by split]|]. intros m. cbn [run_mon_op].
  apply (draws_bind 2 0); [apply move_column_draws|intros; apply draws_ret].
Qed.

Lemma unname_step name k w : ready k w → runs (unname_named par g env name w) (stepped k w).
Proof.
  intros Hr. apply (do_layout_step _ 0); [done|done|done| |].
  - cbn [run_ly_op]. apply (draws_bind 0 0); [apply draws_lift|intros; apply draws_ret].
  - cbn [run_ly_op]. eapply yields_bind; [apply yields_lift, unset_name_count|]. intros ly' H. by apply yields_ret.
Qed.

Lemma set_active_name_step name k w : ready (2 + k) w → runs (do_layout par g env (LopSetName name None) w) (stepped k w).
Proof.
  intros Hr. apply (do_layout_step _ 2); [done|done|apply active_named_in_place| |].
  - cbn [run_ly_op]. apply (draws_bind 2 0); [apply set_name_draws|intros; apply draws_ret].
  - cbn [run_ly_op]. eapply yields_bind; [apply set_name_count|]. intros ly' H. by apply yields_ret.
Qed.

Lemma ensure_step name monitor k w :
  ready (3 + k) w → runs (ensure_scratch_workspace name monitor w) (λ r, stepped k w (fst r)).
Proof.
  intros Hr. pose proof Hr as [[Hml Hui] Hroom]. unfold ensure_scratch_workspace.
  destruct (ensure_on_monitor_wp par _ (world_layout w) name monitor (proj1 Hml)) as ([ly idx] & c' & E & Hk).
  { by eapply ready_room. }
  rewrite E. apply runs_ret. cbn [fst] in *. pose proof (ensure_draws _ _ _ _ _ _ E). pose proof (ensure_count _ _ _ _ _ _ E) as Hc.
  pose proof (ensure_monitor_options _ _ _ _ _ _ E) as Ho. cbn in Hc, Ho. unfold same_count in Hc.
  destruct (ml_carry par _ _ _ w.(mw_ml).(ml_dnd) _ Hml Hk Ho) as [H1 H2 _]. cbn [app] in H2.
  set (w' := set_mw_layout _ c' w). change (mw_windows w' ≡ₚ mw_windows w) in H2.
  split; [|exact H2]. split; [split; [exact H1|]|].
  - eapply ui_ok_windows; [|exact Hui]. intros x. by rewrite H2.
  - unfold world_layout. cbn. rewrite Hc. unfold room in *. lia.
Qed.

(** ** Toggling *)
Lemma found_workspace ly p place : find_place p (ly_stacks ly) = Some place → runs (workspace_at ly place) (λ _, True).
Proof.
  destruct place as [i j]. intros (l & ws & Hl & Hws & _)%find_place_Some. unfold workspace_at. cbn. rewrite Hl. cbn.
  rewrite Hws. by apply runs_ret.
Qed.

Lemma active_workspace_runs w : mw_ok par w → runs (active_workspace (world_layout w)) (λ _, True).
Proof.
  intros [[Hly _] _]. unfold active_workspace, active_monitor, world_layout in *.
  destruct (ly_set (ml_layout (mw_ml w))) as [ms p a|l] eqn:E; [|by apply runs_ret].
  destruct (active_monitor_at par _ _ ms p a Hly E) as (m & ws & Hm & _ & Hws & _). rewrite Hm. cbn. rewrite Hws. by apply runs_ret.
Qed.

(** What a toggle does to the world and to the records of the other scratch columns. *)
Definition toggled (k : N) (name : string) (s s' : ScratchWorld) : Prop :=
  stepped k s.(sw_world) s'.(sw_world) ∧ delete name s'.(sw_columns) = delete name s.(sw_columns).

Lemma restore_runs name k s : ready (2 + k) s.(sw_world) → runs (restore_scratch par g env name s) (λ r, toggled k name s (fst r)).
Proof.
  intros Hr. assert (Hr0 : ready k s.(sw_world)) by (eapply ready_less; [|exact Hr]; lia). unfold restore_scratch.
  destruct (sw_columns s !! name) as [runtime|]; [|by apply runs_ret; split; [apply stepped_refl|]].
  assert (Hc : delete name (delete name (sw_columns s)) = delete name (sw_columns s)) by apply delete_delete_eq.
  cbn [sw_world set_sw_columns]. set (ly := world_layout _).
  destruct (match find_workspace_by_name ly (sr_return_workspace_name runtime) with
            | Some place => Some place | None => find_workspace_by_id ly (sr_source_workspace_id runtime) end) as [place|] eqn:Ep;
    [|by apply runs_ret; split; [apply stepped_refl|]].
  eapply runs_bind.
  { destruct (find_workspace_by_name ly _) eqn:En in Ep; injection Ep as <- || idtac; by eapply found_workspace. }
  intros ws _. eapply runs_bind; [by apply (active_focus_step _ (2 + k))|]. intros w1 H1.
  eapply runs_bind; [by apply (move_column_step _ _ k), H1|]. intros w2 H2.
  eapply runs_bind; [by apply (switch_step _ k), H2|]. intros w3 H3.
  eapply runs_bind; [by apply (unname_step _ k), H3|]. intros w4 H4.
  pose proof (stepped_trans _ _ _ _ _ (stepped_trans _ _ _ _ _ (stepped_trans _ _ _ _ _ H1 H2) H3) H4) as H04.
  eapply runs_bind; [|intros w5 H5; by apply runs_ret; split; [exact H5|exact Hc]].
  destruct (find_workspace_by_name (world_layout w4) _) eqn:Ef; [|by apply runs_ret].
  eapply runs_bind; [by eapply found_workspace|]. intros ws' _. destruct (has_windows ws'); [by apply runs_ret|].
  eapply runs_weaken; [by apply (unname_step _ k), H4|]. intros w5 H5. by eapply stepped_trans.
Qed.

Lemma open_runs column source k s :
  ready (7 + k) s.(sw_world) → runs (open_scratch par g env column source s) (λ r, toggled k column.(sk_name) s (fst r)).
Proof.
  intros Hr. unfold open_scratch. eapply runs_bind; [by apply (set_active_name_step _ (5 + k)); eapply ready_less; [|exact Hr]; lia|].
  intros w1 H1. cbn [sw_world sw_columns set_sw_world set_sw_columns]. set (columns := <[_ := _]> (sw_columns s)).
  assert (Hc : delete (sk_name column) columns = delete (sk_name column) (sw_columns s)) by apply delete_insert_eq.
  assert (Hk : ∀ w, stepped (5 + k) w1 w → stepped k (sw_world s) w).
  { intros w Hw. pose proof (stepped_trans _ _ _ _ _ H1 Hw) as [G1 G2]. split; [|done]. eapply ready_less; [|exact G1]. lia. }
  eapply (runs_bind _ _ (λ _, True)).
  { destruct (find_workspace_by_name (world_layout w1) _) eqn:Ef; [|by apply runs_ret].
    eapply runs_bind; [by eapply found_workspace|]. intros ws _. by apply runs_ret. }
  intros [[idx output]|] _.
  - eapply runs_bind; [by apply (active_focus_step _ (5 + k)), H1|]. intros w2 H2.
    eapply runs_bind; [by apply (switch_step _ (5 + k)), H2|]. intros w3 H3. apply runs_ret. split; [|exact Hc].
    apply Hk. by eapply stepped_trans.
  - eapply runs_bind; [by apply (ensure_step _ _ (2 + k)); eapply ready_less; [|apply H1]; lia|]. intros [w2 [idx|]] H2; cbn [fst] in H2.
    + eapply runs_bind; [by apply (move_column_step _ _ k), H2|]. intros w3 H3. apply runs_ret. split; [|exact Hc]. cbn.
      split; [apply H3|]. rewrite (proj2 H3), (proj2 H2). apply H1.
    + apply runs_ret. split; [|done]. cbn. split; [eapply ready_less; [|apply H2]; lia|]. rewrite (proj2 H2). apply H1.
Qed.

Lemma toggle_runs config name k s :
  ready (7 + k) s.(sw_world) → runs (toggle_scratch_column par g env config name s) (λ r, toggled k name s (fst r)).
Proof.
  intros Hr. assert (Hr0 : ready k s.(sw_world)) by (eapply ready_less; [|exact Hr]; lia). unfold toggle_scratch_column.
  assert (Hn : toggled k name s s) by (split; [by apply stepped_refl|done]).
  destruct (List.find _ config) as [column|] eqn:Ef; [|by apply runs_ret].
  apply find_some in Ef as [_ Hname%String.eqb_eq].
  eapply runs_bind; [apply active_workspace_runs, Hr|]. intros [ws|] _; [|by apply runs_ret].
  case_bool_decide.
  - apply restore_runs. eapply ready_less; [|exact Hr]. lia.
  - rewrite <- Hname. by apply open_runs.
Qed.

Lemma close_runs config names : ∀ k s,
  ready (7 * N.of_nat (length names) + k) s.(sw_world) →
  runs (close_columns par g env config names s) (λ s', stepped k s.(sw_world) s'.(sw_world)).
Proof.
  induction names as [|name names IH]; intros k s Hr; [by apply runs_ret, stepped_refl|]. cbn [close_columns].
  eapply (runs_bind _ _ (λ _, True)).
  { destruct (find_workspace_by_name _ _) eqn:Ef; [|by apply runs_ret]. eapply runs_bind; [by eapply found_workspace|].
    intros ws _. by apply runs_ret. }
  set (j := (7 * N.of_nat (length names) + k)%N).
  intros shown _. eapply (runs_bind _ _ (λ s', stepped j s.(sw_world) s'.(sw_world))).
  - destruct shown; [|apply runs_ret, stepped_refl; eapply ready_less; [|exact Hr]; unfold j; cbn [length]; lia].
    eapply runs_fmap; [apply (toggle_runs _ _ j); eapply ready_less; [|exact Hr]; unfold j; cbn [length]; lia|]. intros r Hs. apply Hs.
  - intros s1 H1. eapply runs_weaken; [apply (IH k), H1|]. intros s2 H2. by eapply stepped_trans.
Qed.

Lemma check_runs config names k s :
  ready (7 * N.of_nat (length names) + k) s.(sw_world) →
  runs (check_scratch_column_focus_loss par g env config names s) (λ s', stepped k s.(sw_world) s'.(sw_world)).
Proof.
  intros Hr. assert (Hr0 : ready k s.(sw_world)) by (eapply ready_less; [|exact Hr]; lia). unfold check_scratch_column_focus_loss.
  eapply runs_bind; [apply active_workspace_runs, Hr|]. intros [ws|] _; [|by apply runs_ret, stepped_refl].
  destruct (is_scratch_name (ws_name ws)); [by apply runs_ret, stepped_refl|]. apply close_runs.
  eapply ready_less; [|exact Hr]. pose proof (filter_length_le (closes_on_focus_loss config) names). lia.
Qed.
End world.

(** C13: Toggling a scratch column and then checking for a lost focus run to their end from every world
    that operations reach, whatever the configuration, the records of open scratch columns and the
    order in which the hash map lists them.  The invariants hold afterwards and every window is still
    there.  The toggle changes no other scratch column's record; the check may change any of them.  The
    worlds are those of [mw_step], in which other operations name workspaces only where that is safe,
    and enough ids are left: each toggle draws at most seven, and the check toggles each column at
    most once. *)
Theorem scratch_columns_keep_windows par g env config name names w0 s :
  no_cycle par → view_ok env → mw_start par g w0 → rtc (mw_step par g) w0 s.(sw_world) →
  room (4 + 2 * N.of_nat (length (ly_monitors (world_layout s.(sw_world)))) + (7 + 7 * N.of_nat (length names)))
    s.(sw_world).(mw_ids) →
  runs (toggle_scratch_column par g env config name s) (λ r,
    delete name (fst r).(sw_columns) = delete name s.(sw_columns) ∧
    mw_ok par (fst r).(sw_world) ∧ mw_windows (fst r).(sw_world) ≡ₚ mw_windows s.(sw_world) ∧
    runs (check_scratch_column_focus_loss par g env config names (fst r)) (λ s',
      mw_ok par s'.(sw_world) ∧ mw_windows s'.(sw_world) ≡ₚ mw_windows s.(sw_world))).
Proof.
  intros Hc Hv Hs Hsteps Hr. pose proof (mw_steps_ok par Hc g _ _ Hsteps (mw_start_ok par Hc g _ Hs)) as Hok.
  eapply runs_weaken; [by apply (toggle_runs par Hc g env Hv config name (7 * N.of_nat (length names)))|].
  intros [s1 b] [[H1 Hw1] Hcol]. cbn [fst] in *. split_and!; [done|apply H1|done|].
  eapply runs_weaken; [apply (check_runs par Hc g env Hv config names 0); by rewrite N.add_0_r|].
  intros s2 [H2 Hw2]. split; [apply H2|]. by rewrite Hw2.
Qed.

(** ** Witness and examples *)
Definition scratch_config : list ScratchColumn := [MkScratchColumn "term" None (Some true)].
Definition scratch_start : ScratchWorld := MkScratchWorld fw1.2 ∅.
Definition toggle_term (s : ScratchWorld) : option ScratchWorld :=
  fst <$> toggle_scratch_column unparented sample_placement still_env scratch_config "term" s.
Definition check_term : ScratchWorld → option ScratchWorld :=
  check_scratch_column_focus_loss unparented sample_placement still_env scratch_config ["term"].

Lemma scratch_columns_keep_windows_witness :
  ∃ s', toggle_term scratch_start = Some s' ∧ map_to_list s'.(sw_columns) = [("term", MkScratchRuntime 1 "__scratch_return_term")] ∧
    mw_windows s'.(sw_world) ≡ₚ mw_windows fw1.2.
Proof.
  destruct (scratch_columns_keep_windows unparented sample_placement still_env scratch_config "term" ["term"] mw0 scratch_start
    unparented_no_cycle still_env_ok mw0_start mw1_reached ltac:(vm_compute; reflexivity)) as ([s' b] & E & _ & _ & Hw & _).
  exists s'. cbn [fst] in Hw. unfold toggle_term. rewrite E. split; [done|]. split; [|exact Hw].
  vm_compute in E. injection E as <- _. vm_compute. reflexivity.
Defined.

(** The workspaces of each monitor with their names and windows, the active ones, and the columns recorded as open. *)
Definition scratch_view (s : ScratchWorld) := (ly_view (world_layout s.(sw_world)), fst <$> map_to_list s.(sw_columns)).
Definition in_layout (op : LyOp) (s : ScratchWorld) : option ScratchWorld :=
  w ← do_layout unparented sample_placement still_env op s.(sw_world); Some (set_sw_world w s).

(** The column that has lost the focus to the workspace below is not closed by the check.  It gets
    the focus again, because a toggle on another workspace than its own opens the column. *)
Example focus_loss_reopens :
  (s ← toggle_term scratch_start; s ← in_layout (LopMonitor 0 MopSwitchDown) s; s' ← check_term s;
   Some (scratch_view s, scratch_view s')) =
  Some (([([(Some "__scratch_return_term", []); (Some "__scratch_term", [1%N]); (None, [])], 2); ([(None, [2%N]); (None, [])], 0)],
         Some 0, ["term"]),
        ([([(Some "__scratch_return_term", []); (Some "__scratch_term", [1%N]); (None, [])], 1); ([(None, [2%N]); (None, [])], 0)],
         Some 0, ["term"])).
Proof. vm_compute. reflexivity. Qed.

(** A workspace that had a name has none after the column went away and came back. *)
Example toggle_loses_the_name :
  (s ← in_layout (LopSetName "mail" None) scratch_start; s' ← toggle_term s; s' ← toggle_term s';
   Some (scratch_view s, scratch_view s')) =
  Some (([([(Some "mail", [1%N]); (None, [])], 0); ([(None, [2%N]); (None, [])], 0)], Some 0, []),
        ([([(None, [1%N]); (None, []); (None, [])], 0); ([(None, [2%N]); (None, [])], 0)], Some 0, [])).
Proof. vm_compute. reflexivity. Qed.

(** A column whose workspace was moved to another monitor stays there when it is toggled away, and
    is no longer recorded: its source's monitor gets the focus before the column is moved. *)
Example toggle_leaves_the_column :
  (s ← toggle_term scratch_start; s ← in_layout (LopMoveWorkspaceToOutput right_output) s; s' ← toggle_term s;
   Some (scratch_view s, scratch_view s')) =
  Some (([([(Some "__scratch_return_term", []); (None, [])], 0);
          ([(None, [2%N]); (Some "__scratch_term", [1%N]); (None, [])], 1)], Some 1, ["term"]),
        ([([(None, []); (None, [])], 0); ([(None, [2%N]); (Some "__scratch_term", [1%N]); (None, [])], 1)], Some 0, [])).
Proof. vm_compute. reflexivity. Qed.

(** On the workspace the column came from the check does nothing, because the name that workspace
    bears meanwhile starts like the names of scratch workspaces. *)
Example source_counts_as_scratch :
  (s ← toggle_term scratch_start; s ← in_layout (LopMonitor 0 MopSwitchUp) s; s' ← check_term s;
   Some (scratch_view s, scratch_view s')) =
  let view := ([([(Some "__scratch_return_term", []); (Some "__scratch_term", [1%N]); (None, [])], 0); ([(None, [2%N]); (None, [])], 0)],
               Some 0, ["term"]) in Some (view, view).
Proof. vm_compute. reflexivity. Qed.
