(* ===== verification/FrameClock.v ===== *)
(** * The frame clock (src/frame_clock.rs) and vblank throttling (src/utils/vblank_throttle.rs)

    Predicts when the next frame will be presented from the time of the last one and the refresh
    interval of the output.  The current time is an argument; [None] is a panic. *)
From S2P Require Import Prelude Float64 Duration.

Local Open Scope N_scope.

(** ** Data *)
Record FrameClock := MkFrameClock {
  fc_last_presentation_time : option N;
  fc_refresh_interval_ns : option N;
  fc_vrr : bool
}.

(** The interval is below one second and not zero. *)
Definition FrameClock_new (refresh_interval : option N) (vrr : bool) : option FrameClock :=
  match refresh_interval with
  | Some interval =>
      if (interval / NANOS_PER_SEC =? 0) && negb (interval mod NANOS_PER_SEC =? 0)
      then Some (MkFrameClock None (Some (interval mod NANOS_PER_SEC)) vrr) else None
  | None => Some (MkFrameClock None None vrr)
  end.

Definition set_vrr (clock : FrameClock) (vrr : bool) : FrameClock :=
  if Bool.eqb clock.(fc_vrr) vrr then clock
  else MkFrameClock None clock.(fc_refresh_interval_ns) vrr.

Definition presented (clock : FrameClock) (presentation_time : N) : FrameClock :=
  if presentation_time =? 0 then clock
  else MkFrameClock (Some presentation_time) clock.(fc_refresh_interval_ns) clock.(fc_vrr).

(** The time from which the next presentation is counted, after an early vblank. *)
Definition adjusted_now (now last refresh : N) : option N :=
  if now <=? last then
    now ← duration_add now refresh;
    if now <? last then duration_add last refresh else Some now
  else Some now.

Definition next_presentation_time (clock : FrameClock) (now : N) : option N :=
  match clock.(fc_refresh_interval_ns), clock.(fc_last_presentation_time) with
  | Some refresh, Some last =>
      now ← adjusted_now now last refresh;
      since_last ← duration_sub now last;
      secs ← u64_mul (since_last / NANOS_PER_SEC) NANOS_PER_SEC;
      since_last_ns ← u64_add secs (since_last mod NANOS_PER_SEC);
      frames ← u64_add (since_last_ns / refresh) 1;
      to_next ← u64_mul frames refresh;
      if clock.(fc_vrr) && (refresh <? to_next) then Some now else duration_add last to_next
  | _, _ => Some now
  end.

(** *** Throttling *)
Record VBlankThrottle := MkVBlankThrottle {
  vt_last_vblank_timestamp : option N;
  vt_throttle_timer_token : option N
}.

Definition VBlankThrottle_new : VBlankThrottle := MkVBlankThrottle None None.

(** How long to wait when the vblank came too early. *)
Definition throttle_remaining (throttle : VBlankThrottle) (refresh_interval : option N) (timestamp : N) :
    option N :=
  match throttle.(vt_last_vblank_timestamp), refresh_interval with
  | Some last, Some refresh =>
      let passed := saturating_sub timestamp last in
      if passed <? refresh / 2 then Some (refresh - passed) else None
  | _, _ => None
  end.

(** ** Invariant *)

(** Times are below 2^62 nanoseconds, about 146 years of uptime. *)
Definition time_ok (t : N) : Prop := t < 2 ^ 62.

Record clock_ok (clock : FrameClock) : Prop := {
  ck_refresh refresh : clock.(fc_refresh_interval_ns) = Some refresh → 0 < refresh < NANOS_PER_SEC;
  ck_last last : clock.(fc_last_presentation_time) = Some last → time_ok last
}.

Lemma FrameClock_new_ok refresh_interval vrr clock :
  FrameClock_new refresh_interval vrr = Some clock → clock_ok clock.
Proof.
  unfold FrameClock_new. destruct refresh_interval as [interval|]; [|by intros [= <-]].
  destruct (_ && _) eqn:E; [|done]. intros [= <-]. reflect_bools. split; [|done].
  intros r [= <-]. pose proof (N.mod_lt interval NANOS_PER_SEC ltac:(done)). set (m := interval mod NANOS_PER_SEC) in *. clearbody m. clear H. lia.
Qed.

Lemma set_vrr_ok clock vrr : clock_ok clock → clock_ok (set_vrr clock vrr).
Proof. intros [H1 H2]. unfold set_vrr. destruct (Bool.eqb _ _); by split. Qed.

Lemma presented_ok clock t : clock_ok clock → time_ok t → clock_ok (presented clock t).
Proof. intros [H1 H2] Ht. unfold presented. destruct (t =? 0); split; try done. by intros x [= <-]. Qed.

Lemma throttle_remaining_pos throttle refresh_interval timestamp d :
  throttle_remaining throttle refresh_interval timestamp = Some d → 0 < d.
Proof.
  unfold throttle_remaining. destruct (vt_last_vblank_timestamp throttle) as [last|], refresh_interval as [r|]; try done.
  destruct (N.ltb_spec (saturating_sub timestamp last) (r / 2)) as [H|]; [|done]. intros [= <-].
  pose proof (N.Div0.div_le_upper_bound r 2 r). lia.
Qed.

(** ** Theory *)

(** The prediction in exact arithmetic. *)
Definition predicted (now last refresh : N) (vrr : bool) : N :=
  let now := if now <=? last then (if now + refresh <? last then last + refresh else now + refresh) else now in
  let to_next := ((now - last) / refresh + 1) * refresh in
  if vrr && (refresh <? to_next) then now else last + to_next.

Lemma next_multiple s r : 0 < r → s < (s / r + 1) * r ≤ s + r.
Proof.
  intros Hr. assert (Hr0 : r ≠ 0) by lia. pose proof (N.div_mod s r Hr0) as H1. pose proof (N.mod_lt s r Hr0) as H2.
  set (q := s / r) in *. set (m := s mod r) in *. clearbody q m. nia.
Qed.

Lemma next_presentation_time_eq clock now last refresh :
  clock_ok clock → time_ok now → clock.(fc_refresh_interval_ns) = Some refresh →
  clock.(fc_last_presentation_time) = Some last →
  next_presentation_time clock now = Some (predicted now last refresh clock.(fc_vrr)).
Proof.
  intros [H1 H2] Hn Er El. specialize (H1 _ Er). specialize (H2 _ El).
  unfold next_presentation_time, predicted, adjusted_now, time_ok in *. rewrite Er, El.
  assert (Hend : 2 ^ 62 + 2 ^ 62 + 2 ^ 62 < duration_end) by reflexivity.
  assert (Hmax : 2 ^ 62 + 2 ^ 62 + 2 ^ 62 ≤ u64_max) by done.
  assert (HNP : NANOS_PER_SEC < 2 ^ 31) by reflexivity. assert (H31 : 2 ^ 31 < 2 ^ 60) by reflexivity.
  assert (H62 : 2 ^ 60 + 2 ^ 60 < 2 ^ 62) by reflexivity.
  set (big := 2 ^ 62) in *. clearbody big.
  set (now' := if now <=? last then _ else now).
  assert (Hadj : (if now <=? last then
                    now0 ← duration_add now refresh;
                    if now0 <? last then duration_add last refresh else Some now0
                  else Some now) = Some now' ∧ last ≤ now' < big + big).
  { unfold now'. destruct (N.leb_spec now last); [|split; [done|lia]].
    rewrite (duration_add_ok now refresh) by lia. cbn [mbind option_bind].
    destruct (N.ltb_spec (now + refresh) last); [rewrite (duration_add_ok last refresh) by lia|]; (split; [done|lia]). }
  destruct Hadj as [-> Hn']. clearbody now'. cbn [mbind option_bind].
  rewrite duration_sub_ok by lia. cbn [mbind option_bind]. set (s := now' - last).
  pose proof (N.div_mod s NANOS_PER_SEC ltac:(done)) as Hdm. rewrite N.mul_comm in Hdm.
  pose proof (next_multiple s refresh ltac:(lia)) as Hm.
  assert (Hs : last + s < big + big) by lia. clearbody s.
  set (q := s / NANOS_PER_SEC) in *. set (m := s mod NANOS_PER_SEC) in *. clearbody q m.
  rewrite u64_mul_ok by lia. cbn [mbind option_bind]. rewrite u64_add_ok by lia.
  cbn [mbind option_bind]. rewrite <- Hdm. clear Hdm.
  set (k := s / refresh) in *. clearbody k. assert (Hk : k + 1 ≤ u64_max) by nia.
  rewrite u64_add_ok by lia. cbn [mbind option_bind].
  rewrite u64_mul_ok by lia. cbn [mbind option_bind].
  destruct (_ && _); [done|]. rewrite duration_add_ok by lia. done.
Qed.

(** C38: the predicted presentation time, in every case. It is never in the past. Without variable
    refresh rate it is the first whole number of refresh intervals after the last presentation that
    is after now, when that presentation is in the past; one interval after it, when it is at most
    an interval ahead; and two intervals after it, when it is now or further ahead. With variable
    refresh rate it is one interval after the last presentation, or now once a whole interval has
    passed. The arithmetic does not overflow. *)
Theorem next_presentation_time_spec clock now :
  clock_ok clock → time_ok now →
  ∃ t, next_presentation_time clock now = Some t ∧ now ≤ t ∧
    ∀ refresh last, clock.(fc_refresh_interval_ns) = Some refresh → clock.(fc_last_presentation_time) = Some last →
      if clock.(fc_vrr) then t = if last + refresh <=? now then now else last + refresh
      else (last < now → ∃ k, t = last + k * refresh ∧ now < t ≤ now + refresh) ∧
           (now < last ≤ now + refresh → t = last + refresh) ∧
           (now = last ∨ now + refresh < last → t = last + 2 * refresh).
Proof.
  intros Hok Hn. destruct (fc_refresh_interval_ns clock) as [r|] eqn:Er, (fc_last_presentation_time clock) as [l|] eqn:El;
    try (exists now; split_and!; [unfold next_presentation_time; by rewrite Er, ?El|lia|done]).
  eexists. split; [by eapply next_presentation_time_eq|]. pose proof (ck_refresh _ Hok r Er) as Hr.
  unfold predicted. set (now' := if now <=? l then _ else now).
  assert (Hn' : now ≤ now' ∧ (l < now → now' = now) ∧ (now < l ≤ now + r → l ≤ now' < l + r) ∧
                (now = l ∨ now + r < l → now' = l + r)).
  { unfold now'. destruct (N.leb_spec now l); [|lia]. destruct (N.ltb_spec (now + r) l); lia. }
  assert (Hl' : l ≤ now') by (unfold now'; destruct (N.leb_spec now l); [destruct (N.ltb_spec (now + r) l)|]; lia).
  clearbody now'. pose proof (next_multiple (now' - l) r ltac:(lia)) as Hm.
  set (k := (now' - l) / r + 1) in *. assert (Hk : 1 ≤ k) by (unfold k; lia). clearbody k.
  assert (H1 : now' < l + r → k = 1) by nia. assert (H2 : now' = l + r → k = 2) by nia.
  assert (Hvrr : l + r ≤ now → r < k * r) by nia.
  split; [destruct (_ && _); lia|]. intros refresh last [= <-] [= <-]. destruct (fc_vrr clock); cbn [andb].
  - destruct (N.leb_spec (l + r) now).
    + rewrite (proj2 (N.ltb_lt _ _)) by auto. lia.
    + destruct (N.ltb_spec r (k * r)) as [Hlt|Hge]; [|nia]. destruct (N.lt_ge_cases now' (l + r)) as [Hlt'|Hge'].
      * rewrite (H1 Hlt') in Hlt. lia.
      * lia.
  - split_and!.
    + intros Hl. exists k. split; [done|]. lia.
    + intros Hl. rewrite H1 by lia. lia.
    + intros Hl. rewrite H2 by lia. lia.
Qed.

Definition sample_clock : FrameClock := MkFrameClock (Some 5000) (Some 1000) false.

Lemma next_presentation_time_spec_witness :
  clock_ok sample_clock ∧ ∃ t, next_presentation_time sample_clock 7300 = Some t ∧ t = 8000.
Proof.
  assert (H : clock_ok sample_clock) by (split; intros x [= <-]; [done|reflexivity]).
  split; [done|]. destruct (next_presentation_time_spec sample_clock 7300 H eq_refl) as (t & E & _ & _).
  exists t. split; [done|]. vm_compute in E. by injection E.
Defined.

(** At the very moment of the last presentation the next interval is skipped, though neither a
    moment before nor a moment after. *)
Theorem presentation_skipped_at_equality :
  (next_presentation_time sample_clock <$> [4999; 5000; 5001]) = [Some 6000; Some 7000; Some 6000].
Proof. reflexivity. Qed.
