(* ===== verification/Transaction.v ===== *)
(** * Transactions between clients (src/utils/transaction.rs)

    A change of size that involves several windows is one transaction: the commits of all of them
    are held back until each window has answered, or until a deadline.  A [Transaction] is a counted
    reference to shared state; the last one to be dropped completes it.

    The world keeps the shared states with their reference counts ([tw_txs], by the address of the
    [Arc]), everything that holds references (windows, sources that wait for buffers) or weak ones
    (blockers of commits and of closing animations), the timers and pings in the event loop, and the
    channel of notifications.  A client is a number; [None] is a panic, or the use of a transaction
    whose state is gone.  Times are in nanoseconds.

    [handlers/xdg_shell.rs], [window/mapped.rs] and [layout/scrolling.rs] use them as modelled in
    the second part. *)
From stdpp Require Import gmap.
From S2P Require Import Prelude.

Definition TIME_LIMIT : N := 300000000.

Inductive Deadline := DeadlineNotRegistered (at_ : N) | DeadlineRegistered (remove : N).

#[export] Instance Deadline_eq_dec : EqDecision Deadline.
Proof. solve_decision. Defined.

(** [Inner], with the number of references to it, and the deadline that they share. *)
Record Tx := MkTx {
  tx_completed : bool;
  tx_notifications : option (N * list N);
  tx_deadline : Deadline;
  tx_strong : nat
}.
Definition set_tx_strong n (tx : Tx) : Tx := MkTx tx.(tx_completed) tx.(tx_notifications) tx.(tx_deadline) n.
Definition set_tx_deadline d (tx : Tx) : Tx := MkTx tx.(tx_completed) tx.(tx_notifications) d tx.(tx_strong).
Definition set_tx_notifications n (tx : Tx) : Tx := MkTx tx.(tx_completed) n tx.(tx_deadline) tx.(tx_strong).

(** The parts of a [Mapped] that hold transactions. *)
Record WinTx := MkWinTx { wt_next : option N; wt_pending : list (N * N) }.

(** Who waits for a transaction: a commit of a client, or a closing animation; and on what. *)
Inductive Waiter := WaitCommit (client : N) | WaitClosing (window : N).

Record TxWorld := MkTxWorld {
  tw_now : N;
  tw_txs : gmap N Tx;
  tw_windows : gmap N WinTx;
  tw_dmabufs : gmap N (option N);       (* sources, by token, and [transaction_for_dmabuf] *)
  tw_timers : gmap N (N * N);           (* timers, by token: deadline and weak reference *)
  tw_pings : gmap N (N * bool);         (* ping sources: the timer to remove, and whether pinged *)
  tw_blockers : list (Waiter * option N);   (* weak references of blockers *)
  tw_sent : list (N * N * N);           (* what went through channels: transaction, sender, client *)
  tw_fresh : N
}.
Definition set_tw_txs t w : TxWorld :=
  MkTxWorld w.(tw_now) t w.(tw_windows) w.(tw_dmabufs) w.(tw_timers) w.(tw_pings) w.(tw_blockers) w.(tw_sent) w.(tw_fresh).
Definition set_tw_windows x w : TxWorld :=
  MkTxWorld w.(tw_now) w.(tw_txs) x w.(tw_dmabufs) w.(tw_timers) w.(tw_pings) w.(tw_blockers) w.(tw_sent) w.(tw_fresh).
Definition set_tw_dmabufs d w : TxWorld :=
  MkTxWorld w.(tw_now) w.(tw_txs) w.(tw_windows) d w.(tw_timers) w.(tw_pings) w.(tw_blockers) w.(tw_sent) w.(tw_fresh).
Definition set_tw_timers t w : TxWorld :=
  MkTxWorld w.(tw_now) w.(tw_txs) w.(tw_windows) w.(tw_dmabufs) t w.(tw_pings) w.(tw_blockers) w.(tw_sent) w.(tw_fresh).
Definition set_tw_pings p w : TxWorld :=
  MkTxWorld w.(tw_now) w.(tw_txs) w.(tw_windows) w.(tw_dmabufs) w.(tw_timers) p w.(tw_blockers) w.(tw_sent) w.(tw_fresh).
Definition set_tw_blockers b w : TxWorld :=
  MkTxWorld w.(tw_now) w.(tw_txs) w.(tw_windows) w.(tw_dmabufs) w.(tw_timers) w.(tw_pings) b w.(tw_sent) w.(tw_fresh).
Definition set_tw_sent s w : TxWorld :=
  MkTxWorld w.(tw_now) w.(tw_txs) w.(tw_windows) w.(tw_dmabufs) w.(tw_timers) w.(tw_pings) w.(tw_blockers) s w.(tw_fresh).
Definition set_tw_now n w : TxWorld :=
  MkTxWorld n w.(tw_txs) w.(tw_windows) w.(tw_dmabufs) w.(tw_timers) w.(tw_pings) w.(tw_blockers) w.(tw_sent) w.(tw_fresh).
Definition set_tw_fresh n w : TxWorld :=
  MkTxWorld w.(tw_now) w.(tw_txs) w.(tw_windows) w.(tw_dmabufs) w.(tw_timers) w.(tw_pings) w.(tw_blockers) w.(tw_sent) n.

(** An address, a registration token. *)
Definition fresh_id (w : TxWorld) : N * TxWorld := (w.(tw_fresh), set_tw_fresh (N.succ w.(tw_fresh)) w).

Definition update_tx (t : N) (f : Tx → Tx) (w : TxWorld) : option TxWorld :=
  tx ← w.(tw_txs) !! t; Some (set_tw_txs (<[t := f tx]> w.(tw_txs)) w).

(** ** [Transaction] *)

(** [Transaction::new]: one reference, which the caller holds. *)
Definition Transaction_new (w : TxWorld) : N * TxWorld :=
  let r := fresh_id w in
  (fst r, set_tw_txs (<[fst r := MkTx false None (DeadlineNotRegistered (w.(tw_now) + TIME_LIMIT)) 1]> (snd r).(tw_txs)) (snd r)).

Definition tx_clone (t : N) (w : TxWorld) : option TxWorld := update_tx t (λ tx, set_tx_strong (S tx.(tx_strong)) tx) w.

Definition is_completed (t : N) (w : TxWorld) : option bool := tx_completed <$> w.(tw_txs) !! t.

Definition is_last (t : N) (w : TxWorld) : option bool := (λ tx, tx.(tx_strong) =? 1) <$> w.(tw_txs) !! t.

Definition add_notification (t sender client : N) (w : TxWorld) : option TxWorld :=
  completed ← is_completed t w;
  if (completed : bool) then Some w
  else update_tx t (λ tx,
         let n := default (sender, []) tx.(tx_notifications) in
         set_tx_notifications (Some (fst n, snd n ++ [client])) tx) w.

Definition register_deadline_timer (t : N) (w : TxWorld) : option TxWorld :=
  tx ← w.(tw_txs) !! t;
  match tx.(tx_deadline) with
  | DeadlineNotRegistered deadline =>
      let '(token, w) := fresh_id w in
      let w := set_tw_timers (<[token := (deadline, t)]> w.(tw_timers)) w in
      let '(ping, w) := fresh_id w in
      let w := set_tw_pings (<[ping := (token, false)]> w.(tw_pings)) w in
      update_tx t (set_tx_deadline (DeadlineRegistered ping)) w
  | DeadlineRegistered _ => Some w
  end.

(** [Inner::complete]. *)
Definition tx_complete (t : N) (w : TxWorld) : option TxWorld :=
  tx ← w.(tw_txs) !! t;
  let sent := match tx.(tx_notifications) with
              | Some (sender, clients) => (λ c, (t, sender, c)) <$> clients
              | None => []
              end in
  Some (set_tw_sent (w.(tw_sent) ++ sent)
          (set_tw_txs (<[t := MkTx true None tx.(tx_deadline) tx.(tx_strong)]> w.(tw_txs)) w)).

Definition ping (p : N) (w : TxWorld) : TxWorld := set_tw_pings (alter (λ s, (fst s, true)) p w.(tw_pings)) w.

(** [Drop]: the last reference completes the transaction, has its timer removed and frees it. *)
Definition tx_drop (t : N) (w : TxWorld) : option TxWorld :=
  last ← is_last t w;
  if (last : bool) then
    w ← tx_complete t w;
    tx ← w.(tw_txs) !! t;
    let w := match tx.(tx_deadline) with DeadlineRegistered p => ping p w | DeadlineNotRegistered _ => w end in
    Some (set_tw_txs (delete t w.(tw_txs)) w)
  else update_tx t (λ tx, set_tx_strong (Nat.pred tx.(tx_strong)) tx) w.

Definition tx_drop_opt (t : option N) (w : TxWorld) : option TxWorld :=
  match t with Some t => tx_drop t w | None => Some w end.

Inductive BlockerState := BlockerReleased | BlockerPending.

(** [TransactionBlocker::state]. *)
Definition blocker_state (b : option N) (w : TxWorld) : BlockerState :=
  match b with
  | None => BlockerReleased
  | Some t => match w.(tw_txs) !! t with
              | None => BlockerReleased
              | Some tx => if tx.(tx_completed) then BlockerReleased else BlockerPending
              end
  end.

(** *** The event loop *)

(** The deadline timer runs and is removed. *)
Definition fire_deadline_timer (token : N) (w : TxWorld) : option TxWorld :=
  match w.(tw_timers) !! token with
  | None => Some w
  | Some (_, t) =>
      let w := set_tw_timers (delete token w.(tw_timers)) w in
      match w.(tw_txs) !! t with Some _ => tx_complete t w | None => Some w end
  end.

(** A pinged source removes the timer. *)
Definition dispatch_ping (p : N) (w : TxWorld) : TxWorld :=
  match w.(tw_pings) !! p with
  | Some (token, true) => set_tw_timers (delete token w.(tw_timers)) (set_tw_pings (delete p w.(tw_pings)) w)
  | _ => w
  end.

(** ** Windows *)
Definition window_tx (w : TxWorld) (win : N) : WinTx := default (MkWinTx None []) (w.(tw_windows) !! win).

Definition set_window (win : N) (s : WinTx) (w : TxWorld) : TxWorld := set_tw_windows (<[win := s]> w.(tw_windows)) w.

(** [self.transaction_for_next_configure = t], which drops what was there. *)
Definition set_next (win : N) (t : option N) (w : TxWorld) : option TxWorld :=
  let s := window_tx w win in
  tx_drop_opt s.(wt_next) (set_window win (MkWinTx t s.(wt_pending)) w).

(** [request_size] with a clone of the transaction, for the windows that take part. *)
Fixpoint request_sizes (t : N) (windows : list (N * bool)) (w : TxWorld) : option TxWorld :=
  match windows with
  | [] => Some w
  | (win, participates) :: windows =>
      w ← (if participates : bool then w ← tx_clone t w; set_next win (Some t) w else Some w);
      request_sizes t windows w
  end.

(** [update_tile_sizes_with_transaction], which owns the transaction. *)
Definition update_tile_sizes_with_transaction (t : N) (windows : list (N * bool)) (w : TxWorld) : option TxWorld :=
  w ← request_sizes t windows w; tx_drop t w.

(** [update_tile_sizes]. *)
Definition resize_windows (windows : list (N * bool)) (w : TxWorld) : option TxWorld :=
  let r := Transaction_new w in update_tile_sizes_with_transaction (fst r) windows (snd r).

(** [request_size_once]. *)
Definition request_size_once (win : N) (w : TxWorld) : option TxWorld := set_next win None w.

(** [send_pending_configure]: the transaction is kept with the serial of the configure. *)
Definition send_pending_configure (win : N) (has_pending_changes : bool) (serial : N) (w : TxWorld) : option TxWorld :=
  let s := window_tx w win in
  let w := if has_pending_changes then
             match s.(wt_next) with
             | Some t => set_window win (MkWinTx None (s.(wt_pending) ++ [(serial, t)])) w
             | None => w
             end
           else w in
  set_next win None w.

(** The serials of configures wrap around; [no_older] compares them. *)
Section hook.
  Context (no_older : N → N → bool).

(** [take_pending_transaction]: the last of those up to the serial; the others are dropped. *)
Fixpoint take_pending (win commit_serial : N) (rv : option N) (pending : list (N * N)) (w : TxWorld) :
    option (option N * TxWorld) :=
  match pending with
  | [] => Some (rv, w)
  | (serial, t) :: rest =>
      if no_older commit_serial serial then
        let w := set_window win (MkWinTx (window_tx w win).(wt_next) rest) w in
        w ← tx_drop_opt rv w;
        take_pending win commit_serial (Some t) rest w
      else Some (rv, w)
  end.

Definition take_pending_transaction (win commit_serial : N) (w : TxWorld) : option (option N * TxWorld) :=
  take_pending win commit_serial None (window_tx w win).(wt_pending) w.

(** What a commit brings: the acked serial, the client if it is alive, whether its buffer has a
    blocker whose source could be inserted. *)
Record Commit := MkCommit {
  cm_serial : option N;
  cm_client : option N;
  cm_dmabuf : bool;
  cm_disable_transactions : bool
}.

(** [TransactionBlocker] added to the surface or the animation. *)
Definition add_blocker (who : Waiter) (b : option N) (w : TxWorld) : TxWorld := set_tw_blockers ((who, b) :: w.(tw_blockers)) w.

(** The transaction of the commit takes part: it gets a deadline and, if other windows are awaited,
    the commit is held back. *)
Definition join_transaction (sender : N) (client : option N) (t : N) (w : TxWorld) : option TxWorld :=
  w ← register_deadline_timer t w;
  last ← is_last t w;
  match last, client with
  | false, Some client => w ← add_notification t sender client w; Some (add_blocker (WaitCommit client) (Some t) w)
  | _, _ => Some w
  end.

(** The pre-commit hook of a mapped toplevel. *)
Definition pre_commit (sender win : N) (cm : Commit) (w : TxWorld) : option TxWorld :=
  r ← match cm.(cm_serial) with
      | None => Some (None, w)
      | Some serial =>
          '(taken, w) ← take_pending_transaction win serial w;
          match taken with
          | None => Some (None, w)
          | Some t =>
              completed ← is_completed t w;
              if completed || cm.(cm_disable_transactions) then w ← tx_drop t w; Some (None, w)
              else w ← join_transaction sender cm.(cm_client) t w; Some (Some t, w)
          end
      end;
  let '(transaction_for_dmabuf, w) := r : option N * TxWorld in
  if cm.(cm_dmabuf) && bool_decide (is_Some cm.(cm_client)) then
    let '(token, w) := fresh_id w in
    Some (set_tw_dmabufs (<[token := transaction_for_dmabuf]> w.(tw_dmabufs)) w)
  else tx_drop_opt transaction_for_dmabuf w.

End hook.

(** The buffer is ready: its source lets go of the transaction. *)
Definition dmabuf_ready (token : N) (w : TxWorld) : option TxWorld :=
  match w.(tw_dmabufs) !! token with
  | None => Some w
  | Some t => tx_drop_opt t (set_tw_dmabufs (delete token w.(tw_dmabufs)) w)
  end.

(** A window is gone with the transactions it holds. *)
Fixpoint drop_all (l : list N) (w : TxWorld) : option TxWorld :=
  match l with [] => Some w | t :: l => w ← tx_drop t w; drop_all l w end.

Definition drop_window (win : N) (w : TxWorld) : option TxWorld :=
  let s := window_tx w win in
  drop_all (option_list s.(wt_next) ++ (snd <$> s.(wt_pending))) (set_tw_windows (delete win w.(tw_windows)) w).

(** [toplevel_destroyed], and a commit that unmaps: the closing animation waits for the windows that
    share the column to take the new size; without one the transaction is complete at once. *)
Definition close_window (win : N) (column : list (N * bool)) (disable_transactions : bool) (w : TxWorld) : option TxWorld :=
  let r := Transaction_new w in
  let t := fst r in
  let w := add_blocker (WaitClosing win) (if disable_transactions then None else Some t) (snd r) in
  w ← tx_clone t w;
  w ← update_tile_sizes_with_transaction t column w;
  w ← drop_window win w;
  last ← is_last t w;
  w ← (if last : bool then Some w else register_deadline_timer t w);
  tx_drop t w.

(** ** The operations *)
Inductive TxOp :=
| TxResize (windows : list (N * bool))
| TxResizeOnce (win : N)
| TxSendConfigure (win : N) (has_pending_changes : bool) (serial : N)
| TxCommit (win : N) (commit : Commit)
| TxDmabufReady (token : N)
| TxClose (win : N) (column : list (N * bool)) (disable_transactions : bool)
| TxTimer (token : N)
| TxPing (p : N)
| TxTick (elapsed : N).

(** [blocker_cleared_tx], the only sender there is. *)
Definition blocker_cleared_tx : N := 0.

Definition run_tx_op (no_older : N → N → bool) (op : TxOp) (w : TxWorld) : option TxWorld :=
  match op with
  | TxResize windows => resize_windows windows w
  | TxResizeOnce win => request_size_once win w
  | TxSendConfigure win b serial => send_pending_configure win b serial w
  | TxCommit win cm => pre_commit no_older blocker_cleared_tx win cm w
  | TxDmabufReady token => dmabuf_ready token w
  | TxClose win column b => close_window win column b w
  | TxTimer token => fire_deadline_timer token w
  | TxPing p => Some (dispatch_ping p w)
  | TxTick elapsed => Some (set_tw_now (w.(tw_now) + elapsed) w)
  end.

Definition tx_world_new : TxWorld := MkTxWorld 0 ∅ ∅ ∅ ∅ ∅ [] [] 0.
