(* ===== verification/TransactionOps.v ===== *)
(** * Transactions: the invariant and the primitive operations

    Reference counts are exact, so that no transaction is used after it is freed; a transaction that
    holds back a commit has its deadline timer in the event loop until it completes; and the clients
    of the commits it held back are notified once, when it does. *)
From stdpp Require Import gmap.
From S2P Require Import Prelude Transaction.

(** ** Sums over maps *)
Section map_sum.
  Context {A : Type} (f : A → nat).

Definition map_sum (m : gmap N A) : nat := map_fold (λ _ a n, f a + n) 0 m.

Lemma map_sum_empty : map_sum ∅ = 0.
Proof. apply map_fold_empty. Qed.

Lemma map_sum_insert m i a : m !! i = None → map_sum (<[i := a]> m) = f a + map_sum m.
Proof. intros Hi. unfold map_sum. rewrite map_fold_insert_L; [done|intros; lia|done]. Qed.

Lemma map_sum_delete m i a : m !! i = Some a → map_sum m = f a + map_sum (delete i m).
Proof.
  intros Hi. rewrite <- (insert_delete_id m i a Hi) at 1. rewrite map_sum_insert; [done|]. apply lookup_delete_eq.
Qed.

Lemma map_sum_update m i a : map_sum (<[i := a]> m) + match m !! i with Some b => f b | None => 0 end = f a + map_sum m.
Proof.
  destruct (m !! i) as [b|] eqn:E; [|rewrite map_sum_insert by done; lia].
  rewrite <- insert_delete_eq, map_sum_insert by apply lookup_delete_eq. rewrite (map_sum_delete m i b E). lia.
Qed.
End map_sum.

(** ** Who holds references *)
Definition count (t : N) (l : list N) : nat := length (filter (t =.) l).

Arguments count : simpl never.

Lemma count_app t l1 l2 : count t (l1 ++ l2) = count t l1 + count t l2.
Proof. unfold count. by rewrite filter_app, length_app. Qed.

Lemma count_cons t x l : count t (x :: l) = (if decide (t = x) then 1 else 0) + count t l.
Proof. unfold count. rewrite filter_cons. by destruct (decide (t = x)). Qed.

#[export] Instance count_proper t : Proper ((≡ₚ) ==> (=)) (count t).
Proof. intros l1 l2 E. unfold count. by rewrite E. Qed.

Definition window_refs (s : WinTx) : list N := option_list s.(wt_next) ++ (snd <$> s.(wt_pending)).

Definition holders (w : TxWorld) (t : N) : nat :=
  map_sum (λ s, count t (window_refs s)) w.(tw_windows) + map_sum (λ d, count t (option_list d)) w.(tw_dmabufs).

Definition positive (n : nat) : option nat := match n with 0 => None | _ => Some n end.

(** The counts are exact; [held] are the references of the function that runs. *)
Definition refs_ok (held : list N) (w : TxWorld) : Prop :=
  ∀ t, (tx_strong <$> w.(tw_txs) !! t) = positive (holders w t + count t held).

(** ** Who waits *)
Definition waiting_clients (w : TxWorld) (t : N) : list N :=
  omap (λ b, match b with (WaitCommit c, Some t') => if decide (t' = t) then Some c else None | _ => None end) w.(tw_blockers).

Definition sent_clients (w : TxWorld) (t : N) : list N :=
  omap (λ e : N * N * N, if decide (e.1.1 = t) then Some e.2 else None) w.(tw_sent).

Definition notified_later (w : TxWorld) (t : N) : list N :=
  match w.(tw_txs) !! t with Some tx => match tx.(tx_notifications) with Some (_, l) => l | None => [] end | None => [] end.

Arguments waiting_clients : simpl never.
Arguments sent_clients : simpl never.
Arguments notified_later : simpl never.

(** [exempt] are transactions whose timer the function that runs has yet to register. *)
Record tx_inv (held exempt : list N) (w : TxWorld) : Prop := {
  ti_refs : refs_ok held w;
  ti_completed t tx : w.(tw_txs) !! t = Some tx → tx.(tx_completed) = true → tx.(tx_notifications) = None;
  ti_registered t tx p : w.(tw_txs) !! t = Some tx → tx.(tx_deadline) = DeadlineRegistered p →
    ∃ token, w.(tw_pings) !! p = Some (token, false) ∧
      (tx.(tx_completed) = true ∨ ∃ d, w.(tw_timers) !! token = Some (d, t));
  ti_owner t1 tx1 t2 tx2 p : w.(tw_txs) !! t1 = Some tx1 → w.(tw_txs) !! t2 = Some tx2 →
    tx1.(tx_deadline) = DeadlineRegistered p → tx2.(tx_deadline) = DeadlineRegistered p → t1 = t2;
  ti_waiting who t tx : (who, Some t) ∈ w.(tw_blockers) → w.(tw_txs) !! t = Some tx →
    t ∈ exempt ∨ tx.(tx_completed) = true ∨ ∃ p, tx.(tx_deadline) = DeadlineRegistered p;
  ti_notified t : waiting_clients w t ≡ₚ sent_clients w t ++ notified_later w t;
  ti_deadline t tx d : w.(tw_txs) !! t = Some tx → tx.(tx_deadline) = DeadlineNotRegistered d →
    (d ≤ w.(tw_now) + TIME_LIMIT)%N;
  ti_timers token d t : w.(tw_timers) !! token = Some (d, t) →
    (d ≤ w.(tw_now) + TIME_LIMIT)%N ∧
    ∃ p b, w.(tw_pings) !! p = Some (token, b) ∧
      match w.(tw_txs) !! t with Some tx => tx.(tx_deadline) = DeadlineRegistered p | None => b = true end;
  ti_pings p1 p2 token b1 b2 : w.(tw_pings) !! p1 = Some (token, b1) → w.(tw_pings) !! p2 = Some (token, b2) → p1 = p2;
  ti_fresh_txs t : is_Some (w.(tw_txs) !! t) → (t < w.(tw_fresh))%N;
  ti_fresh_timers token d t : w.(tw_timers) !! token = Some (d, t) → (token < w.(tw_fresh))%N ∧ (t < w.(tw_fresh))%N;
  ti_fresh_pings p token b : w.(tw_pings) !! p = Some (token, b) → (p < w.(tw_fresh))%N ∧ (token < w.(tw_fresh))%N;
  ti_fresh_dmabufs token : is_Some (w.(tw_dmabufs) !! token) → (token < w.(tw_fresh))%N;
  ti_fresh_blockers who t : (who, Some t) ∈ w.(tw_blockers) → (t < w.(tw_fresh))%N
}.

(** What a step of an operation promises. *)
Definition keeps_inv held exempt (o : option TxWorld) : Prop := runs o (tx_inv held exempt).

Lemma keeps_bind held exempt held' exempt' o f :
  keeps_inv held exempt o → (∀ w, tx_inv held exempt w → keeps_inv held' exempt' (f w)) →
  keeps_inv held' exempt' (o ≫= f).
Proof. intros Ho Hf. by eapply runs_bind. Qed.

(** ** References *)
Lemma refs_Permutation held held' w : held ≡ₚ held' → refs_ok held w → refs_ok held' w.
Proof. intros E H t. by rewrite <- E. Qed.

Lemma held_alive held w t : refs_ok held w → t ∈ held → ∃ tx, w.(tw_txs) !! t = Some tx.
Proof.
  intros H Ht. specialize (H t). destruct (tw_txs w !! t) as [tx|] eqn:E; [by exists tx|]. exfalso. cbn in H.
  assert (0 < count t held); [|destruct (holders w t + count t held) eqn:En; [lia|done]].
  unfold count. destruct (filter (t =.) held) as [|] eqn:Ef; [|cbn; lia].
  assert (t ∈ filter (t =.) held) as Hin by (by apply list_elem_of_filter). rewrite Ef in Hin. by apply elem_of_nil in Hin.
Qed.

Lemma strong_of held w t tx : refs_ok held w → w.(tw_txs) !! t = Some tx → tx.(tx_strong) = holders w t + count t held.
Proof. intros H E. specialize (H t). rewrite E in H. cbn in H. by destruct (holders w t + count t held); inversion H. Qed.

Lemma positive_Some n : 0 < n → positive n = Some n.
Proof. by destruct n; [lia|]. Qed.

(** An update of the shared state of one transaction that may change its count. *)
Lemma refs_update held held' w t tx tx' :
  refs_ok held w → w.(tw_txs) !! t = Some tx →
  (∀ t', t' ≠ t → count t' held' = count t' held) → tx'.(tx_strong) + count t held = tx.(tx_strong) + count t held' →
  0 < tx'.(tx_strong) → refs_ok held' (set_tw_txs (<[t := tx']> w.(tw_txs)) w).
Proof.
  intros H E Ho Hs Hp t'. specialize (H t') as Ht. cbn [set_tw_txs tw_txs]. unfold holders in *. cbn [tw_windows tw_dmabufs].
  destruct (decide (t' = t)) as [->|Hne].
  - rewrite lookup_insert_eq. cbn. pose proof (strong_of held w t tx H E) as Es. unfold holders in Es.
    symmetry. rewrite <- (positive_Some (tx_strong tx')) by done. f_equal. lia.
  - by rewrite lookup_insert_ne, Ho.
Qed.

(** ** New references *)

(** Every field, one by one. *)
Ltac tx_fields := intros [H1 H2 H3 H4 H5 H6 H7 H8 H9 H10 H11 H12 H13 H14].

Lemma inv_set_strong held held' exempt w t tx n :
  tx_inv held exempt w → w.(tw_txs) !! t = Some tx → 0 < n →
  (∀ t', t' ≠ t → count t' held' = count t' held) → n + count t held = tx.(tx_strong) + count t held' →
  tx_inv held' exempt (set_tw_txs (<[t := set_tx_strong n tx]> w.(tw_txs)) w).
Proof.
  tx_fields. intros E Hn Ho Hs.
  assert (Hl : ∀ t' tx', <[t := set_tx_strong n tx]> (tw_txs w) !! t' = Some tx' →
    ∃ tx0, tw_txs w !! t' = Some tx0 ∧ tx_completed tx' = tx_completed tx0 ∧
      tx_notifications tx' = tx_notifications tx0 ∧ tx_deadline tx' = tx_deadline tx0).
  { intros t' tx'. rewrite lookup_insert_Some. intros [[<- <-]|[_ E']]; [by exists tx|by exists tx']. }
  split; cbn; try done.
  - by eapply refs_update.
  - intros t' tx' (tx0 & E0 & -> & -> & _)%Hl. by apply (H2 t').
  - intros t' tx' p (tx0 & E0 & -> & _ & ->)%Hl. by apply (H3 t').
  - intros t1 tx1 t2 tx2 p (y1 & E1 & _ & _ & ->)%Hl (y2 & E2 & _ & _ & ->)%Hl. by apply (H4 t1 y1 t2 y2 p).
  - intros who t' tx' Hin (tx0 & E0 & -> & _ & ->)%Hl. by apply (H5 who t').
  - intros t'. unfold waiting_clients, sent_clients, notified_later. cbn. rewrite (H6 t').
    unfold sent_clients, notified_later. destruct (decide (t' = t)) as [->|]; [by rewrite lookup_insert_eq, E|by rewrite lookup_insert_ne].
  - intros t' tx' d (tx0 & E0 & _ & _ & ->)%Hl. by apply (H7 t').
  - intros token d t' Ht. destruct (H8 token d t' Ht) as (Hd & p & b & Hp & Hb). split; [done|]. exists p, b. split; [done|].
    destruct (decide (t' = t)) as [->|]; [rewrite lookup_insert_eq; by rewrite E in Hb|by rewrite lookup_insert_ne].
  - intros t' Hs'. apply H10. destruct Hs' as [tx' (tx0 & E0 & _)%Hl]. by exists tx0.
Qed.

Lemma clone_inv held exempt w t :
  tx_inv held exempt w → is_Some (w.(tw_txs) !! t) → keeps_inv (t :: held) exempt (tx_clone t w).
Proof.
  intros H [tx E]. unfold tx_clone, update_tx, keeps_inv. rewrite E. cbn. apply runs_ret. eapply inv_set_strong; [done|done|lia|..].
  - intros t' Hne. rewrite count_cons. by rewrite decide_False.
  - rewrite count_cons, decide_True by done. lia.
Qed.

(** Facts that freshness gives. *)
Lemma fresh_txs held exempt w : tx_inv held exempt w → w.(tw_txs) !! w.(tw_fresh) = None.
Proof. intros H. apply eq_None_not_Some. intros Hs%(ti_fresh_txs _ _ _ H). lia. Qed.

Lemma no_waiting_fresh held exempt w : tx_inv held exempt w → waiting_clients w w.(tw_fresh) = [].
Proof.
  intros H. unfold waiting_clients. apply elem_of_nil_inv. intros c ([who b] & Hin & E)%list_elem_of_omap.
  destruct who as [c'|], b as [t|]; try done. destruct (decide _) as [->|]; [|done].
  apply (ti_fresh_blockers _ _ _ H) in Hin. lia.
Qed.

(** The references outside [held] to a transaction that does not exist. *)
Lemma gone_unheld held w t : refs_ok held w → w.(tw_txs) !! t = None → holders w t + count t held = 0.
Proof. intros H E. specialize (H t). rewrite E in H. by destruct (holders w t + count t held). Qed.

Lemma new_inv held exempt w :
  tx_inv held exempt w →
  tx_inv ((Transaction_new w).1 :: held) exempt (Transaction_new w).2 ∧
  (Transaction_new w).2.(tw_txs) !! (Transaction_new w).1 =
    Some (MkTx false None (DeadlineNotRegistered (w.(tw_now) + TIME_LIMIT)) 1) ∧
  (Transaction_new w).2.(tw_blockers) = w.(tw_blockers) ∧ (Transaction_new w).1 = w.(tw_fresh).
Proof.
  intros H. pose proof (fresh_txs _ _ _ H) as Hf. pose proof (no_waiting_fresh _ _ _ H) as Hw. revert H. tx_fields.
  unfold Transaction_new. cbn. set (t := tw_fresh w) in *. set (tx0 := MkTx _ _ _ _).
  split; [|split_and!; [by rewrite lookup_insert_eq|done|done]].
  assert (Hl : ∀ t' tx', <[t := tx0]> (tw_txs w) !! t' = Some tx' → (t' = t ∧ tx' = tx0) ∨ (t' ≠ t ∧ tw_txs w !! t' = Some tx')).
  { intros t' tx'. rewrite lookup_insert_Some. naive_solver. }
  split; cbn; try done.
  - intros t'. unfold holders. cbn. rewrite count_cons. destruct (decide (t' = t)) as [->|Hne].
    + rewrite lookup_insert_eq. cbn. pose proof (gone_unheld held w t H1 Hf) as E0. unfold holders in E0.
      by replace (_ + _ + (1 + count t held)) with 1 by lia.
    + rewrite lookup_insert_ne by done. apply H1.
  - intros t' tx' [[-> ->]|[_ E]]%Hl; [done|by apply (H2 t')].
  - intros t' tx' p [[-> ->]|[_ E]]%Hl; [done|by apply (H3 t')].
  - intros t1 tx1 t2 tx2 p [[-> ->]|[_ E1]]%Hl [[-> ->]|[_ E2]]%Hl; try done. by apply (H4 t1 tx1 t2 tx2 p).
  - intros who t' tx' Hin [[-> ->]|[_ E]]%Hl; [|by apply (H5 who t')]. apply H14 in Hin. unfold t in Hin. lia.
  - intros t'. unfold waiting_clients, sent_clients, notified_later in *. cbn. destruct (decide (t' = t)) as [->|Hne].
    + rewrite lookup_insert_eq. cbn. rewrite Hw. specialize (H6 t). rewrite Hf in H6. by rewrite Hw in H6.
    + rewrite lookup_insert_ne by done. apply H6.
  - intros t' tx' d [[-> ->]|[_ E]]%Hl; [intros [= <-]; lia|by apply (H7 t')].
  - intros token d t' Ht. destruct (H8 token d t' Ht) as (Hd & p & b & Hp & Hb). split; [done|]. exists p, b. split; [done|].
    rewrite lookup_insert_ne; [done|]. apply H11 in Ht. unfold t. lia.
  - intros t' [tx' [[-> _]|[_ E]]%Hl]; [unfold t; lia|]. assert (t' < tw_fresh w)%N by (apply H10; by eexists). lia.
  - intros token d t' Ht%H11. lia.
  - intros p token b Hp%H12. lia.
  - intros token Hd%H13. lia.
  - intros who t' Hin%H14. lia.
Qed.

(** ** Completion *)
Lemma sent_app w t l :
  omap (λ e : N * N * N, if decide (e.1.1 = t) then Some e.2 else None) (w.(tw_sent) ++ l) =
  sent_clients w t ++ omap (λ e : N * N * N, if decide (e.1.1 = t) then Some e.2 else None) l.
Proof. unfold sent_clients. by rewrite omap_app. Qed.

Lemma sent_tagged t t' sender (l : list N) :
  omap (λ e : N * N * N, if decide (e.1.1 = t') then Some e.2 else None) ((λ c, (t, sender, c)) <$> l) =
  if decide (t = t') then l else [].
Proof.
  induction l as [|c l IH]; cbn; [by destruct (decide _)|]. destruct (decide (t = t')); [|done]. cbn in IH. by rewrite IH.
Qed.

(** What is left to notify of goes through the channel. *)
Definition notices (t : N) (tx : Tx) : list (N * N * N) :=
  match tx.(tx_notifications) with Some (sender, clients) => (λ c, (t, sender, c)) <$> clients | None => [] end.

Lemma notices_sent w t t' tx :
  w.(tw_txs) !! t = Some tx →
  omap (λ e : N * N * N, if decide (e.1.1 = t') then Some e.2 else None) (w.(tw_sent) ++ notices t tx) =
  sent_clients w t' ++ (if decide (t = t') then notified_later w t' else []).
Proof.
  intros E. rewrite sent_app. f_equal. unfold notices, notified_later.
  destruct (tx_notifications tx) as [[sender l]|] eqn:En.
  - rewrite sent_tagged. destruct (decide _) as [<-|]; [by rewrite E, En|done].
  - destruct (decide _) as [<-|]; [by rewrite E, En|done].
Qed.

Definition completed_tx (tx : Tx) : Tx := MkTx true None tx.(tx_deadline) tx.(tx_strong).

Lemma complete_eq t w tx :
  w.(tw_txs) !! t = Some tx →
  tx_complete t w = Some (set_tw_sent (w.(tw_sent) ++ notices t tx) (set_tw_txs (<[t := completed_tx tx]> w.(tw_txs)) w)).
Proof. intros E. unfold tx_complete. by rewrite E. Qed.

Lemma complete_inv held exempt w t tx :
  tx_inv held exempt w → w.(tw_txs) !! t = Some tx →
  keeps_inv held exempt (tx_complete t w).
Proof.
  intros H E. unfold keeps_inv. rewrite (complete_eq t w tx E). apply runs_ret. revert H. tx_fields.
  assert (Hl : ∀ t' tx', <[t := completed_tx tx]> (tw_txs w) !! t' = Some tx' →
    ∃ tx0, tw_txs w !! t' = Some tx0 ∧ tx_deadline tx' = tx_deadline tx0 ∧ (tx_completed tx' = true ∨ tx' = tx0)).
  { intros t' tx'. rewrite lookup_insert_Some. intros [[<- <-]|[_ E']]; [exists tx|exists tx']; split_and!; auto. }
  split; cbn; try done.
  - eapply refs_update; [done|done|done|done|].
    pose proof (strong_of held w t tx H1 E) as Es. specialize (H1 t). rewrite E in H1. cbn in *.
    destruct (tx_strong tx); [by destruct (holders w t + count t held)|lia].
  - intros t' tx'. rewrite lookup_insert_Some. intros [[<- <-]|[_ E']]; [done|by apply (H2 t')].
  - intros t' tx' p (tx0 & E0 & -> & Hc)%Hl Hd. destruct (H3 t' tx0 p E0 Hd) as (token & Hp & Ht). exists token.
    split; [done|]. destruct Hc as [Hc| ->]; [by left|done].
  - intros t1 tx1 t2 tx2 p (y1 & E1 & -> & _)%Hl (y2 & E2 & -> & _)%Hl. by apply (H4 t1 y1 t2 y2 p).
  - intros who t' tx' Hin (tx0 & E0 & -> & Hc)%Hl. destruct (H5 who t' tx0 Hin E0) as [?|[Hc'|?]]; auto.
    destruct Hc as [Hc| ->]; auto.
  - intros t'. change (waiting_clients _ t') with (waiting_clients w t'). rewrite (H6 t').
    unfold sent_clients at 2. cbn. rewrite (notices_sent w t t' tx E). unfold notified_later at 3. cbn.
    destruct (decide (t = t')) as [<-|]; [by rewrite lookup_insert_eq, !app_nil_r|].
    rewrite lookup_insert_ne by done. by rewrite app_nil_r.
  - intros t' tx' d (tx0 & E0 & -> & _)%Hl. by apply (H7 t').
  - intros token d t' Ht. destruct (H8 token d t' Ht) as (Hd & p & b & Hp & Hb). split; [done|]. exists p, b. split; [done|].
    destruct (decide (t' = t)) as [->|]; [rewrite lookup_insert_eq; by rewrite E in Hb|by rewrite lookup_insert_ne].
  - intros t' [tx' (tx0 & E0 & _)%Hl]. apply H10. by exists tx0.
Qed.

(** A completed transaction whose only reference is dropped. *)
Lemma free_inv held exempt w t tx :
  tx_inv (t :: held) exempt w → w.(tw_txs) !! t = Some tx → tx.(tx_completed) = true → tx.(tx_strong) = 1 →
  tx_inv held exempt
    (let w := match tx.(tx_deadline) with DeadlineRegistered p => ping p w | DeadlineNotRegistered _ => w end in
     set_tw_txs (delete t w.(tw_txs)) w).
Proof.
  tx_fields. intros E Hc Hs. cbn zeta. pose proof (strong_of _ _ _ _ H1 E) as Es. rewrite Hs, count_cons, decide_True in Es by done.
  pose proof (H2 t tx E Hc) as Hn.
  set (w0 := match tx_deadline tx with DeadlineRegistered p => ping p w | DeadlineNotRegistered _ => w end).
  assert (Hw : w0 = set_tw_pings (tw_pings w0) w) by (subst w0; by destruct (tx_deadline tx), w).
  assert (Hp : ∀ p token b, tw_pings w0 !! p = Some (token, b) → ∃ b0, tw_pings w !! p = Some (token, b0) ∧ (b0 = true → b = true)).
  { intros p token b. subst w0. destruct (tx_deadline tx) as [d|p0]; [intros Hp; by exists b|]. cbn. destruct (decide (p = p0)) as [->|].
    - rewrite lookup_alter_eq. intros ([token0 b0] & -> & [= -> ->])%fmap_Some. by exists b0.
    - rewrite lookup_alter_ne by done. intros Hp. by exists b. }
  assert (Hp' : ∀ p token b, tw_pings w !! p = Some (token, b) →
    tw_pings w0 !! p = Some (token, b || bool_decide (tx_deadline tx = DeadlineRegistered p))).
  { intros p token b Hpp. subst w0. destruct (tx_deadline tx) as [d|p0] eqn:Ed.
    - rewrite bool_decide_false by done. by rewrite orb_false_r.
    - cbn. destruct (decide (p = p0)) as [->|Hne].
      + rewrite lookup_alter_eq, Hpp. cbn. rewrite bool_decide_true by done. by rewrite orb_true_r.
      + rewrite lookup_alter_ne by done. rewrite bool_decide_false by (intros [= ->]; done). by rewrite orb_false_r. }
  assert (Hl : ∀ t' tx', delete t (tw_txs w) !! t' = Some tx' → t' ≠ t ∧ tw_txs w !! t' = Some tx').
  { intros t' tx' [? ?]%lookup_delete_Some. by split. }
  rewrite Hw. clearbody w0. clear Hw. split; cbn; try done.
  - intros t'. unfold holders in *. cbn. specialize (H1 t'). rewrite count_cons in H1. destruct (decide (t' = t)) as [->|Hne].
    + rewrite lookup_delete_eq. cbn. by replace (_ + count t held) with 0 by lia.
    + rewrite lookup_delete_ne by done. rewrite H1. done.
  - intros t' tx' [_ E']%Hl. by apply (H2 t').
  - intros t' tx' p [Hne E']%Hl Hd. destruct (H3 t' tx' p E' Hd) as (token & Hpp & Ht). exists token. split; [|done].
    rewrite (Hp' p token false Hpp). rewrite bool_decide_false; [done|]. intros Hd'. by apply Hne, (H4 t' tx' t tx p).
  - intros t1 tx1 t2 tx2 p [_ E1]%Hl [_ E2]%Hl. by apply (H4 t1 tx1 t2 tx2 p).
  - intros who t' tx' Hin [_ E']%Hl. by apply (H5 who t').
  - intros t'. change (waiting_clients _ t') with (waiting_clients w t'). rewrite (H6 t').
    change (sent_clients _ t') with (sent_clients w t') at 2. f_equiv. unfold notified_later. cbn.
    destruct (decide (t' = t)) as [->|]; [by rewrite lookup_delete_eq, E, Hn|by rewrite lookup_delete_ne].
  - intros t' tx' d [_ E']%Hl. by apply (H7 t').
  - intros token d t' Ht. destruct (H8 token d t' Ht) as (Hd & p & b & Hpp & Hb). split; [done|].
    exists p. eexists. split; [by apply Hp'|]. destruct (decide (t' = t)) as [->|].
    + rewrite lookup_delete_eq. rewrite E in Hb. rewrite bool_decide_true by done. apply orb_true_r.
    + rewrite lookup_delete_ne by done. destruct (tw_txs w !! t'); [done|]. by rewrite Hb.
  - intros p1 p2 token b1 b2 (c1 & E1 & _)%Hp (c2 & E2 & _)%Hp. by apply (H9 p1 p2 token c1 c2).
  - intros t' [tx' [_ E']%Hl]. apply H10. by exists tx'.
  - intros p token b (c & E' & _)%Hp. by apply (H12 p token c).
Qed.

Lemma drop_inv held exempt w t : tx_inv (t :: held) exempt w → keeps_inv held exempt (tx_drop t w).
Proof.
  intros H. destruct (held_alive _ w t (ti_refs _ _ _ H)) as [tx E]; [left|].
  unfold tx_drop, is_last. rewrite E. cbn. destruct (Nat.eqb_spec (tx_strong tx) 1) as [Hs|Hs].
  - destruct (complete_inv _ _ _ _ _ H E) as (w1 & E1 & H1). unfold keeps_inv. rewrite E1. cbn.
    rewrite (complete_eq t w tx E) in E1. injection E1 as <-. cbn. rewrite lookup_insert_eq. cbn. apply runs_ret.
    apply (free_inv held exempt _ t (completed_tx tx)) in H1; [exact H1|by apply lookup_insert_eq|done|done].
  - unfold update_tx. rewrite E. cbn. apply runs_ret. pose proof (strong_of _ _ _ _ (ti_refs _ _ _ H) E) as Es.
    rewrite count_cons, decide_True in Es by done. eapply inv_set_strong; [done|done|lia|..].
    + intros t' Hne. rewrite count_cons. by rewrite decide_False.
    + rewrite count_cons, decide_True by done. lia.
Qed.

Lemma drop_opt_inv held exempt w t : tx_inv (option_list t ++ held) exempt w → keeps_inv held exempt (tx_drop_opt t w).
Proof. destruct t as [t|]; cbn; [apply drop_inv|]. intros H. by apply runs_ret. Qed.

Lemma drop_all_inv held exempt l w : tx_inv (l ++ held) exempt w → keeps_inv held exempt (drop_all l w).
Proof.
  revert w. induction l as [|t l IH]; intros w H; cbn; [by apply runs_ret|].
  eapply keeps_bind; [by apply drop_inv|]. exact IH.
Qed.

(** ** Deadlines *)
Lemma register_inv held exempt w t tx :
  tx_inv held exempt w → w.(tw_txs) !! t = Some tx →
  runs (register_deadline_timer t w) (λ w', tx_inv held exempt w' ∧
    ∃ p, w'.(tw_txs) !! t = Some (set_tx_deadline (DeadlineRegistered p) tx)).
Proof.
  intros H E. unfold register_deadline_timer. rewrite E. cbn. destruct (tx_deadline tx) as [d|p] eqn:Ed.
  2: { apply runs_ret. split; [done|]. exists p. rewrite E. destruct tx as [c n dl s]. cbn in *. by subst dl. }
  unfold update_tx, fresh_id. cbn. rewrite E. cbn. apply runs_ret. split; [|exists (N.succ (tw_fresh w)); cbn; by rewrite lookup_insert_eq].
  revert H. tx_fields. set (token := tw_fresh w). set (p0 := N.succ token). set (tx0 := set_tx_deadline _ tx).
  assert (Hl : ∀ t' tx', <[t := tx0]> (tw_txs w) !! t' = Some tx' → (t' = t ∧ tx' = tx0) ∨ (t' ≠ t ∧ tw_txs w !! t' = Some tx')).
  { intros t' tx'. rewrite lookup_insert_Some. naive_solver. }
  assert (Hpl : ∀ p tk b, tw_pings w !! p = Some (tk, b) → p ≠ p0 ∧ tk ≠ token).
  { intros p tk b [? ?]%H12. unfold p0, token in *. lia. }
  assert (Htl : ∀ tk d' t', tw_timers w !! tk = Some (d', t') → tk ≠ token).
  { intros tk d' t' [? ?]%H11. unfold token in *. lia. }
  assert (Hpi : ∀ p tk b, <[p0 := (token, false)]> (tw_pings w) !! p = Some (tk, b) →
    (p = p0 ∧ tk = token ∧ b = false) ∨ (p ≠ p0 ∧ tk ≠ token ∧ tw_pings w !! p = Some (tk, b))).
  { intros p tk b. rewrite lookup_insert_Some. intros [[<- [= <- <-]]|[Hne Hp]]; [by left|right]. split_and!; [done| |done].
    by apply (Hpl p tk b). }
  split; cbn; try done.
  - intros t'. specialize (H1 t'). unfold holders in *. cbn. destruct (decide (t' = t)) as [->|Hne].
    + rewrite lookup_insert_eq. cbn. by rewrite E in H1.
    + by rewrite lookup_insert_ne.
  - intros t' tx' [[-> ->]|[_ E']]%Hl; [apply (H2 t tx E)|by apply (H2 t')].
  - intros t' tx' p [[-> ->]|[Hne E']]%Hl Hd.
    + cbn in Hd. injection Hd as <-. exists token. rewrite lookup_insert_eq. split; [done|]. right. exists d. by rewrite lookup_insert_eq.
    + destruct (H3 t' tx' p E' Hd) as (tk & Hp & Ht). destruct (Hpl _ _ _ Hp) as [N1 N2]. exists tk.
      rewrite lookup_insert_ne by done. split; [done|]. destruct Ht as [?|[d' Ht]]; [by left|right]. exists d'.
      by rewrite lookup_insert_ne.
  - intros t1 tx1 t2 tx2 p [[-> ->]|[N1 E1]]%Hl [[-> ->]|[N2 E2]]%Hl; cbn; try done.
    + intros [= <-] Hd. destruct (H3 t2 tx2 p0 E2 Hd) as (tk & Hp & _). by apply Hpl in Hp as [? _].
    + intros Hd [= <-]. destruct (H3 t1 tx1 p0 E1 Hd) as (tk & Hp & _). by apply Hpl in Hp as [? _].
    + by apply (H4 t1 tx1 t2 tx2 p).
  - intros who t' tx' Hin [[-> ->]|[_ E']]%Hl; [right; right; by exists p0|by apply (H5 who t')].
  - intros t'. change (waiting_clients _ t') with (waiting_clients w t'). rewrite (H6 t').
    change (sent_clients _ t') with (sent_clients w t') at 2. f_equiv. unfold notified_later. cbn.
    destruct (decide (t' = t)) as [->|]; [rewrite lookup_insert_eq; by rewrite E|by rewrite lookup_insert_ne].
  - intros t' tx' d' [[-> ->]|[_ E']]%Hl; [done|by apply (H7 t')].
  - intros tk d' t'. rewrite lookup_insert_Some. intros [[<- [= <- <-]]|[Hne Ht]].
    + split; [by apply (H7 t tx)|]. exists p0, false. rewrite !lookup_insert_eq. done.
    + destruct (H8 tk d' t' Ht) as (Hd & p & b & Hp & Hb). split; [done|]. exists p, b. rewrite lookup_insert_ne by (symmetry; by apply Hpl in Hp as [? _]).
      split; [done|]. destruct (decide (t' = t)) as [->|]; [|by rewrite lookup_insert_ne].
      rewrite E in Hb. by rewrite Ed in Hb.
  - intros p1 p2 tk b1 b2 [(-> & -> & _)|(? & ? & E1)]%Hpi [(-> & E2' & _)|(? & ? & E2)]%Hpi; try done.
    by apply (H9 p1 p2 tk b1 b2).
  - intros t' [tx' [[-> _]|[_ E']]%Hl]; [assert (t < tw_fresh w)%N by (apply H10; by eexists)|assert (t' < tw_fresh w)%N by (apply H10; by eexists)]; lia.
  - intros tk d' t'. rewrite lookup_insert_Some. intros [[<- [= <- <-]]|[Hne Ht%H11]]; [|lia].
    assert (t < tw_fresh w)%N by (apply H10; by eexists). unfold token. lia.
  - intros p tk b [(-> & -> & _)|(_ & _ & Hp%H12)]%Hpi; unfold p0, token; lia.
  - intros tk Hd%H13. lia.
  - intros who t' Hin%H14. lia.
Qed.

(** A commit is held back by a transaction that has a deadline, and its client is to be notified. *)
Lemma hold_back_inv held exempt w t tx sender client p :
  tx_inv held exempt w → w.(tw_txs) !! t = Some tx → tx.(tx_completed) = false → tx.(tx_deadline) = DeadlineRegistered p →
  keeps_inv held exempt (w ← add_notification t sender client w; Some (add_blocker (WaitCommit client) (Some t) w)).
Proof.
  intros H E Hc Hd. unfold add_notification, is_completed. rewrite E. cbn. rewrite Hc. unfold update_tx. rewrite E. cbn.
  apply runs_ret. revert H. tx_fields. set (tx0 := set_tx_notifications _ tx).
  assert (Hl : ∀ t' tx', <[t := tx0]> (tw_txs w) !! t' = Some tx' → ∃ y, tw_txs w !! t' = Some y ∧
    tx_completed tx' = tx_completed y ∧ tx_deadline tx' = tx_deadline y ∧ (t' = t ∨ tx' = y)).
  { intros t' tx'. rewrite lookup_insert_Some. intros [[<- <-]|[_ E']]; [exists tx|exists tx']; split_and!; auto. }
  split; cbn; try done.
  - intros t'. specialize (H1 t'). unfold holders in *. cbn. destruct (decide (t' = t)) as [->|Hne].
    + rewrite lookup_insert_eq. cbn. by rewrite E in H1.
    + by rewrite lookup_insert_ne.
  - intros t' tx' (y & E' & Ec & _ & Hy)%Hl Hc'. destruct Hy as [->| ->]; [|by apply (H2 t')].
    rewrite E in E'. injection E' as <-. congruence.
  - intros t' tx' q (y & E' & -> & -> & _)%Hl. by apply (H3 t').
  - intros t1 tx1 t2 tx2 q (y1 & E1 & _ & -> & _)%Hl (y2 & E2 & _ & -> & _)%Hl. by apply (H4 t1 y1 t2 y2 q).
  - intros who t' tx' Hin (y & E' & Ec & Ed & Hy)%Hl. rewrite Ec, Ed. apply elem_of_cons in Hin as [[= -> ->]|Hin].
    + rewrite E in E'. injection E' as <-. right. right. by exists p.
    + by apply (H5 who t' y).
  - intros t'. unfold waiting_clients. cbn. change (sent_clients _ t') with (sent_clients w t').
    unfold notified_later. cbn. fold (waiting_clients w t'). specialize (H6 t'). unfold notified_later in H6.
    destruct (decide (t = t')) as [<-|Hne]; [|by rewrite lookup_insert_ne].
    rewrite lookup_insert_eq. rewrite E in H6. cbn. fold (waiting_clients w t). rewrite H6.
    destruct (tx_notifications tx) as [[s l]|]; cbn; [|by rewrite app_nil_r, Permutation_app_comm].
    rewrite (Permutation_app_comm l [client]). cbn. by rewrite Permutation_middle.
  - intros t' tx' d (y & E' & _ & -> & _)%Hl. by apply (H7 t').
  - intros token d t' Ht. destruct (H8 token d t' Ht) as (Hd' & q & b & Hp & Hb). split; [done|]. exists q, b. split; [done|].
    destruct (decide (t' = t)) as [->|]; [rewrite lookup_insert_eq; by rewrite E in Hb|by rewrite lookup_insert_ne].
  - intros t' [tx' (y & E' & _)%Hl]. apply H10. by exists y.
  - intros who t' [[= -> ->]|Hin]%elem_of_cons; [|by apply (H14 who)]. apply H10. by exists tx.
Qed.

(** ** Moving references *)
Lemma inv_held held held' exempt w :
  tx_inv held exempt w → held ≡ₚ held' → tx_inv held' exempt w.
Proof. tx_fields. intros E. split; try done. by eapply refs_Permutation. Qed.

(** Windows and sources take references from [held] or give them back. *)
Lemma inv_holders held held' exempt w windows dmabufs :
  tx_inv held exempt w →
  (∀ t, holders (set_tw_dmabufs dmabufs (set_tw_windows windows w)) t + count t held' = holders w t + count t held) →
  (∀ token, is_Some (dmabufs !! token) → (token < w.(tw_fresh))%N) →
  tx_inv held' exempt (set_tw_dmabufs dmabufs (set_tw_windows windows w)).
Proof.
  tx_fields. intros Hh Hd. split; cbn; try done. intros t. cbn. rewrite Hh. apply H1.
Qed.

Definition refs_of (w : TxWorld) (win : N) : list N := window_refs (window_tx w win).

Lemma set_window_inv held held' exempt w win s :
  tx_inv held exempt w → (∀ t, count t (window_refs s) + count t held' = count t (refs_of w win) + count t held) →
  tx_inv held' exempt (set_window win s w).
Proof.
  intros H E. replace (set_window win s w) with (set_tw_dmabufs w.(tw_dmabufs) (set_tw_windows (<[win := s]> w.(tw_windows)) w)) by done.
  eapply inv_holders; [done| |by apply H]. intros t. unfold holders. cbn. specialize (E t). unfold refs_of, window_tx in E.
  pose proof (map_sum_update (λ s, count t (window_refs s)) (tw_windows w) win s) as Hs.
  destruct (tw_windows w !! win) as [s0|]; cbn in *; [lia|]. change (window_refs (MkWinTx None [])) with (@nil N) in E. change (count t []) with 0 in E. lia.
Qed.

Lemma drop_window_refs held exempt w win :
  tx_inv held exempt w → tx_inv (refs_of w win ++ held) exempt (set_tw_windows (delete win w.(tw_windows)) w).
Proof.
  intros H.
  replace (set_tw_windows (delete win (tw_windows w)) w)
    with (set_tw_dmabufs w.(tw_dmabufs) (set_tw_windows (delete win w.(tw_windows)) w)) by done.
  eapply inv_holders; [done| |by apply H]. intros t. unfold holders. cbn. rewrite count_app. unfold refs_of, window_tx.
  destruct (tw_windows w !! win) as [s0|] eqn:E; cbn.
  - rewrite (map_sum_delete _ (tw_windows w) win s0 E). lia.
  - rewrite delete_id by done. change (window_refs (MkWinTx None [])) with (@nil N). change (count t []) with 0. lia.
Qed.

Lemma dmabuf_insert_inv held exempt w token d :
  tx_inv (option_list d ++ held) exempt w → w.(tw_dmabufs) !! token = None → (token < w.(tw_fresh))%N →
  tx_inv held exempt (set_tw_dmabufs (<[token := d]> w.(tw_dmabufs)) w).
Proof.
  intros H E Hf.
  change (set_tw_dmabufs (<[token:=d]> (tw_dmabufs w)) w) with (set_tw_dmabufs (<[token:=d]> (tw_dmabufs w)) (set_tw_windows w.(tw_windows) w)).
  eapply inv_holders; [done| |].
  - intros t. unfold holders. cbn. rewrite map_sum_insert, count_app by done. lia.
  - intros t'. rewrite lookup_insert_is_Some. intros [<-|[_ Hs]]; [done|]. by apply (ti_fresh_dmabufs _ _ _ H).
Qed.

Lemma dmabuf_delete_inv held exempt w token d :
  tx_inv held exempt w → w.(tw_dmabufs) !! token = Some d →
  tx_inv (option_list d ++ held) exempt (set_tw_dmabufs (delete token w.(tw_dmabufs)) w).
Proof.
  intros H E.
  change (set_tw_dmabufs (delete token (tw_dmabufs w)) w) with (set_tw_dmabufs (delete token (tw_dmabufs w)) (set_tw_windows w.(tw_windows) w)).
  eapply inv_holders; [done| |].
  - intros t. unfold holders. cbn. rewrite (map_sum_delete _ (tw_dmabufs w) token d E), count_app. lia.
  - intros t' [x [_ Hs]%lookup_delete_Some]. apply (ti_fresh_dmabufs _ _ _ H). by exists x.
Qed.

Lemma fresh_inv held exempt w : tx_inv held exempt w → tx_inv held exempt (fresh_id w).2.
Proof.
  tx_fields. split; cbn; try done.
  - intros t Ht%H10. lia.
  - intros token d t Ht%H11. lia.
  - intros p token b Hp%H12. lia.
  - intros token Ht%H13. lia.
  - intros who t Ht%H14. lia.
Qed.

(** A closing animation waits for a transaction. *)
Lemma closing_blocker_inv held exempt w win b :
  tx_inv held exempt w → (∀ t, b = Some t → t ∈ exempt ∧ (t < w.(tw_fresh))%N) →
  tx_inv held exempt (add_blocker (WaitClosing win) b w).
Proof.
  tx_fields. intros Hb. split; cbn; try done.
  - intros who t tx [[= -> <-]|Hin]%elem_of_cons E; [left; by apply Hb|by apply (H5 who t)].
  - intros who t [[= -> <-]|Hin]%elem_of_cons; [by apply Hb|by apply (H14 who)].
Qed.

(** Nothing is exempt that has its timer or is not waited for any more. *)
Lemma inv_exempt held exempt w :
  tx_inv held exempt w →
  (∀ t tx, t ∈ exempt → w.(tw_txs) !! t = Some tx → ∃ p, tx.(tx_deadline) = DeadlineRegistered p) → tx_inv held [] w.
Proof.
  tx_fields. intros He. split; try done. intros who t tx Hin E. right. destruct (H5 who t tx Hin E) as [Ht|[?|?]]; auto.
  right. by apply (He t tx).
Qed.

Lemma inv_more_exempt held exempt w t : tx_inv held exempt w → tx_inv held (t :: exempt) w.
Proof.
  tx_fields. split; try done. intros who t' tx Hin E. destruct (H5 who t' tx Hin E) as [Ht|[?|?]]; auto. left. by right.
Qed.

(** ** The event loop *)
Lemma tick_inv held exempt w n : tx_inv held exempt w → tx_inv held exempt (set_tw_now (w.(tw_now) + n)%N w).
Proof.
  tx_fields. split; cbn; try done.
  - intros t tx d E Ed. specialize (H7 t tx d E Ed). lia.
  - intros token d t Ht. destruct (H8 token d t Ht) as [Hd Hx]. split; [lia|done].
Qed.

Lemma remove_timer_inv held exempt w token d t :
  tx_inv held exempt w → w.(tw_timers) !! token = Some (d, t) →
  (∀ tx, w.(tw_txs) !! t = Some tx → tx.(tx_completed) = true) →
  tx_inv held exempt (set_tw_timers (delete token w.(tw_timers)) w).
Proof.
  tx_fields. intros Ht Hc. split; cbn; try done.
  - intros t' tx p E Ed. destruct (H3 t' tx p E Ed) as (tk & Hp & [?|[d' Htk]]); exists tk; (split; [done|]); [by left|].
    destruct (decide (tk = token)) as [->|]; [|right; exists d'; by rewrite lookup_delete_ne].
    left. rewrite Ht in Htk. injection Htk as <- <-. by apply Hc.
  - intros tk d' t' [_ Htk]%lookup_delete_Some. by apply (H8 tk).
  - intros tk d' t' [_ Htk]%lookup_delete_Some. by apply (H11 tk d').
Qed.

Lemma fire_timer_inv held w token : tx_inv held [] w → keeps_inv held [] (fire_deadline_timer token w).
Proof.
  intros H. unfold fire_deadline_timer. destruct (tw_timers w !! token) as [[d t]|] eqn:Et; [|by apply runs_ret].
  cbn [set_tw_timers tw_txs]. destruct (tw_txs w !! t) as [tx|] eqn:E.
  - destruct (complete_inv _ _ _ _ _ H E) as (w1 & E1 & H1). rewrite (complete_eq t w tx E) in E1. injection E1 as <-.
    unfold keeps_inv. rewrite (complete_eq t (set_tw_timers (delete token (tw_timers w)) w) tx E). apply runs_ret.
    eapply (remove_timer_inv _ _ _ token d t) in H1; [exact H1|done|]. intros tx'. cbn. rewrite lookup_insert_eq. by intros [= <-].
  - apply runs_ret. eapply remove_timer_inv; [done|done|]. intros tx'. by rewrite E.
Qed.

Lemma dispatch_ping_inv held exempt w p : tx_inv held exempt w → tx_inv held exempt (dispatch_ping p w).
Proof.
  intros H. unfold dispatch_ping. destruct (tw_pings w !! p) as [[token [|]]|] eqn:Ep; [|done..]. revert H. tx_fields.
  assert (Hne : ∀ p' tk b, p' ≠ p → tw_pings w !! p' = Some (tk, b) → tk ≠ token).
  { intros p' tk b Hn Hp' ->. apply Hn. by apply (H9 p' p token b true). }
  split; cbn; try done.
  - intros t tx q E Ed. destruct (H3 t tx q E Ed) as (tk & Hq & Ht).
    assert (q ≠ p) as Hqp by (intros ->; congruence). exists tk. rewrite lookup_delete_ne by done. split; [done|].
    destruct Ht as [?|[d Ht]]; [by left|right]. exists d. rewrite lookup_delete_ne; [done|]. intros <-. by apply (Hne q token false).
  - intros tk d t [Hn Ht]%lookup_delete_Some. destruct (H8 tk d t Ht) as (Hd & q & b & Hq & Hb). split; [done|]. exists q, b.
    split; [|done]. rewrite lookup_delete_ne; [done|]. intros <-. congruence.
  - intros p1 p2 tk b1 b2 [_ E1]%lookup_delete_Some [_ E2]%lookup_delete_Some. by apply (H9 p1 p2 tk b1 b2).
  - intros tk d t [_ Ht]%lookup_delete_Some. by apply (H11 tk d).
  - intros q tk b [_ Hq]%lookup_delete_Some. by apply (H12 q tk b).
Qed.

#[export] Hint Resolve drop_inv clone_inv drop_opt_inv drop_all_inv fire_timer_inv dispatch_ping_inv tick_inv : core.
