(* ===== verification/TransactionProps.v ===== *)
(** * Transactions: properties

    The operations of windows on transactions, in any order with the event loop, keep the invariant;
    what follows for commits that are held back. *)
From stdpp Require Import gmap.
From S2P Require Import Prelude Transaction TransactionOps.

(** ** Windows *)
Lemma set_next_inv held exempt w win t :
  tx_inv (option_list t ++ held) exempt w → keeps_inv held exempt (set_next win t w).
Proof.
  intros H. unfold set_next. apply drop_opt_inv. eapply set_window_inv; [exact H|]. intros x.
  unfold refs_of, window_refs. cbn. rewrite !count_app. lia.
Qed.

Lemma request_sizes_inv held exempt w t windows :
  tx_inv (t :: held) exempt w → keeps_inv (t :: held) exempt (request_sizes t windows w).
Proof.
  revert w. induction windows as [|[win b] windows IH]; intros w H; cbn; [by apply runs_ret|].
  eapply keeps_bind; [|exact IH]. destruct b; [|by apply runs_ret].
  eapply keeps_bind; [apply clone_inv; [exact H|]|intros w' H'; apply set_next_inv; exact H'].
  destruct (held_alive _ w t (ti_refs _ _ _ H)) as [tx E]; [left|by exists tx].
Qed.

Lemma update_sizes_inv held exempt w t windows :
  tx_inv (t :: held) exempt w → keeps_inv held exempt (update_tile_sizes_with_transaction t windows w).
Proof. intros H. eapply keeps_bind; [by apply request_sizes_inv|]. auto. Qed.

Lemma resize_windows_inv w windows : tx_inv [] [] w → keeps_inv [] [] (resize_windows windows w).
Proof. intros H. apply update_sizes_inv. by apply new_inv. Qed.

Lemma send_pending_configure_inv held exempt w win b serial :
  tx_inv held exempt w → keeps_inv held exempt (send_pending_configure win b serial w).
Proof.
  intros H. unfold send_pending_configure. apply set_next_inv. cbn.
  destruct b; [|done]. destruct (wt_next (window_tx w win)) as [t|] eqn:E; [|done].
  eapply set_window_inv; [exact H|]. intros x. unfold refs_of, window_refs. rewrite E. cbn.
  rewrite fmap_app, count_app, !count_cons. cbn. rewrite count_cons. change (count x []) with 0. lia.
Qed.

(** Dropping leaves the windows alone. *)
Lemma tx_drop_windows t w w' : tx_drop t w = Some w' → w'.(tw_windows) = w.(tw_windows).
Proof.
  unfold tx_drop, is_last, update_tx. destruct (tw_txs w !! t) as [tx|] eqn:E; [|done]. cbn.
  destruct (tx_strong tx =? 1).
  - rewrite (complete_eq t w tx E). cbn. rewrite lookup_insert_eq. cbn. intros [= <-]. by destruct (tx_deadline tx).
  - by intros [= <-].
Qed.

Lemma last_drop_frees t w w' tx :
  w.(tw_txs) !! t = Some tx → tx.(tx_strong) = 1 → tx_drop t w = Some w' → w'.(tw_txs) !! t = None.
Proof.
  intros E Hs. unfold tx_drop, is_last. rewrite E. cbn [fmap option_fmap option_map mbind option_bind]. rewrite Hs. cbn [Nat.eqb].
  rewrite (complete_eq t w tx E). cbn. rewrite lookup_insert_eq. cbn. intros [= <-]. cbn. apply lookup_delete_eq.
Qed.

Lemma take_pending_inv no_older held exempt win serial rv pending w :
  tx_inv (option_list rv ++ held) exempt w → wt_pending (window_tx w win) = pending →
  runs (take_pending no_older win serial rv pending w) (λ r, tx_inv (option_list r.1 ++ held) exempt r.2).
Proof.
  revert rv w. induction pending as [|[s t] rest IH]; intros rv w H E; cbn [take_pending]; [by apply runs_ret|].
  destruct (no_older serial s); [|by apply runs_ret]. set (w1 := set_window win _ w).
  assert (H1 : tx_inv (option_list rv ++ t :: held) exempt w1).
  { eapply set_window_inv; [exact H|]. intros x. unfold refs_of, window_refs. cbn. rewrite E. cbn.
    rewrite !count_app, !count_cons. lia. }
  destruct (drop_opt_inv _ _ _ _ H1) as (w2 & E2 & H2). rewrite E2. cbn [mbind option_bind]. apply IH; [done|].
  assert (tw_windows w2 = tw_windows w1) as Ew.
  { destruct rv as [r|]; cbn in E2; [by eapply tx_drop_windows|by injection E2 as <-]. }
  unfold window_tx. rewrite Ew. cbn. by rewrite lookup_insert_eq.
Qed.

Lemma join_transaction_inv held exempt w sender client t tx :
  tx_inv held exempt w → w.(tw_txs) !! t = Some tx → tx.(tx_completed) = false →
  keeps_inv held exempt (join_transaction sender client t w).
Proof.
  intros H E Hc. unfold join_transaction. eapply runs_bind; [by apply register_inv|]. intros w1 [H1 [p E1]].
  unfold is_last. rewrite E1. cbn [fmap option_fmap option_map mbind option_bind]. destruct (_ =? 1); [by apply runs_ret|].
  destruct client as [client|]; [|by apply runs_ret]. eapply hold_back_inv; [done|exact E1|done|done].
Qed.

Lemma pre_commit_inv no_older sender win cm w : tx_inv [] [] w → keeps_inv [] [] (pre_commit no_older sender win cm w).
Proof.
  intros H. unfold pre_commit. eapply (runs_bind _ _ (λ r, tx_inv (option_list r.1 ++ []) [] r.2)).
  - destruct (cm_serial cm) as [serial|]; [|by apply runs_ret].
    eapply runs_bind; [by apply (take_pending_inv _ []); [|reflexivity]|]. intros [[t|] w1] H1; [|by apply runs_ret]. cbn in H1.
    destruct (held_alive _ w1 t (ti_refs _ _ _ H1)) as [tx E]; [left|].
    unfold is_completed. rewrite E. cbn [fmap option_fmap option_map mbind option_bind]. destruct (tx_completed tx) eqn:Ec.
    + cbn [orb]. eapply runs_bind; [by apply drop_inv|]. intros w2 H2. by apply runs_ret.
    + destruct (cm_disable_transactions cm); cbn [orb].
      * eapply runs_bind; [by apply drop_inv|]. intros w2 H2. by apply runs_ret.
      * eapply runs_bind; [by eapply join_transaction_inv|]. intros w2 H2. by apply runs_ret.
  - intros [d w1] H1. cbn [fst snd] in H1. destruct (_ && _); [|by apply drop_opt_inv].
    cbn. apply runs_ret. apply (dmabuf_insert_inv [] [] (fresh_id w1).2 (tw_fresh w1) d).
    + by apply fresh_inv.
    + cbn. apply eq_None_not_Some. intros Hs%(ti_fresh_dmabufs _ _ _ H1). lia.
    + cbn. lia.
Qed.

Lemma dmabuf_ready_inv w token : tx_inv [] [] w → keeps_inv [] [] (dmabuf_ready token w).
Proof.
  intros H. unfold dmabuf_ready. destruct (tw_dmabufs w !! token) as [d|] eqn:E; [|by apply runs_ret].
  apply drop_opt_inv. by apply dmabuf_delete_inv.
Qed.

Lemma drop_window_inv held exempt w win : tx_inv held exempt w → keeps_inv held exempt (drop_window win w).
Proof. intros H. apply drop_all_inv. by apply drop_window_refs. Qed.

Lemma close_window_inv w win column b : tx_inv [] [] w → keeps_inv [] [] (close_window win column b w).
Proof.
  intros H. unfold close_window. destruct (new_inv [] [] w H) as (H0 & E0 & _ & Ef). cbn zeta.
  set (t := (Transaction_new w).1) in *. set (w0 := (Transaction_new w).2) in *.
  assert (H1 : tx_inv [t] [t] (add_blocker (WaitClosing win) (if b then None else Some t) w0)).
  { apply closing_blocker_inv; [by apply inv_more_exempt|]. intros t' Et. destruct b; [done|]. injection Et as <-.
    split; [left|]. apply (ti_fresh_txs _ _ _ H0). by eexists. }
  eapply keeps_bind; [apply clone_inv; [exact H1|cbn; by eexists]|]. intros w2 H2.
  eapply keeps_bind; [by apply update_sizes_inv|]. intros w3 H3.
  eapply keeps_bind; [by apply drop_window_inv|]. intros w4 H4.
  destruct (held_alive _ w4 t (ti_refs _ _ _ H4)) as [tx E4]; [left|].
  unfold is_last. rewrite E4. cbn [fmap option_fmap option_map mbind option_bind]. destruct (Nat.eqb_spec (tx_strong tx) 1) as [Hs|Hs].
  - cbn [mbind option_bind]. destruct (drop_inv [] [t] w4 t H4) as (w5 & E5 & H5). exists w5. split; [exact E5|].
    eapply inv_exempt; [exact H5|]. intros t' tx' ->%list_elem_of_singleton Ex. exfalso.
    by rewrite (last_drop_frees t w4 w5 tx) in Ex.
  - eapply runs_bind; [by apply register_inv|]. intros w5 [H5 [p E5]]. apply drop_inv.
    eapply inv_exempt; [exact H5|]. intros t' tx' ->%list_elem_of_singleton Ex. rewrite E5 in Ex. injection Ex as <-. by exists p.
Qed.

Lemma run_tx_op_inv no_older op w : tx_inv [] [] w → keeps_inv [] [] (run_tx_op no_older op w).
Proof.
  intros H. destruct op; cbn [run_tx_op].
  - by apply resize_windows_inv.
  - by apply set_next_inv.
  - by apply send_pending_configure_inv.
  - by apply pre_commit_inv.
  - by apply dmabuf_ready_inv.
  - by apply close_window_inv.
  - by apply fire_timer_inv.
  - apply runs_ret. by apply dispatch_ping_inv.
  - apply runs_ret. by apply tick_inv.
Qed.

(** ** Reachable worlds *)
Definition tx_step (no_older : N → N → bool) (w w' : TxWorld) : Prop := ∃ op, run_tx_op no_older op w = Some w'.

Lemma tx_world_new_inv : tx_inv [] [] tx_world_new.
Proof.
  split; cbn; try done; try (by intros ? [? ?]); try (by intros ? ? ?%elem_of_nil); try (by intros ? ? ? ?%elem_of_nil).
Qed.

Lemma tx_reachable_inv no_older w : rtc (tx_step no_older) tx_world_new w → tx_inv [] [] w.
Proof.
  intros H. refine (rtc_ind_r (tx_inv [] []) _ tx_world_new_inv _ w H).
  intros w1 w2 _ [op E] H1. destruct (run_tx_op_inv no_older op w1 H1) as (w3 & E3 & H3). congruence.
Qed.

(** C39: Transactions are counted exactly. Whatever windows, buffers and the event loop do, no operation
    panics or uses a transaction whose state was freed; the state exists as long as a window or the
    source of a buffer holds the transaction, and its reference count is the number of those. *)
Theorem transactions_are_counted no_older w :
  rtc (tx_step no_older) tx_world_new w →
  (∀ t, (tx_strong <$> w.(tw_txs) !! t) = positive (holders w t)) ∧
  ∀ op, ∃ w', run_tx_op no_older op w = Some w'.
Proof.
  intros H%tx_reachable_inv. split.
  - intros t. pose proof (ti_refs _ _ _ H t) as Ht. by rewrite Nat.add_0_r in Ht.
  - intros op. destruct (run_tx_op_inv no_older op w H) as (w' & E & _). by exists w'.
Qed.

(** C17: Commits that were held back are released. As long as a transaction holds something back its
    deadline timer is in the event loop, due within the time limit; when that timer fires, if not
    before, the transaction no longer holds anything back. The clients whose commits a transaction
    held back have then been notified, once for each of those commits. A timer that no ping is about
    to remove belongs to a transaction that exists. *)
Theorem blocked_commits_are_released no_older w :
  rtc (tx_step no_older) tx_world_new w →
  (∀ who t, (who, Some t) ∈ w.(tw_blockers) →
    match blocker_state (Some t) w with
    | BlockerReleased => sent_clients w t ≡ₚ waiting_clients w t
    | BlockerPending =>
        ∃ token d, w.(tw_timers) !! token = Some (d, t) ∧ (d ≤ w.(tw_now) + TIME_LIMIT)%N ∧
          ∃ w', fire_deadline_timer token w = Some w' ∧ blocker_state (Some t) w' = BlockerReleased ∧
            sent_clients w' t ≡ₚ waiting_clients w t
    end) ∧
  ∀ token d t, w.(tw_timers) !! token = Some (d, t) → (∀ p, w.(tw_pings) !! p ≠ Some (token, true)) →
    is_Some (w.(tw_txs) !! t).
Proof.
  intros H%tx_reachable_inv. split.
  - intros who t Hin. cbn. destruct (tw_txs w !! t) as [tx|] eqn:E.
    2: { rewrite (ti_notified _ _ _ H t). unfold notified_later. by rewrite E, app_nil_r. }
    destruct (tx_completed tx) eqn:Ec.
    { rewrite (ti_notified _ _ _ H t). unfold notified_later. rewrite E, (ti_completed _ _ _ H t tx E Ec). by rewrite app_nil_r. }
    destruct (ti_waiting _ _ _ H who t tx Hin E) as [[]%elem_of_nil|[?|[p Ed]]]; [congruence|].
    destruct (ti_registered _ _ _ H t tx p E Ed) as (token & Hp & [?|[d Ht]]); [congruence|].
    exists token, d. split; [done|]. split; [by apply (ti_timers _ _ _ H token d t)|].
    destruct (fire_timer_inv [] w token H) as (w' & E' & H'). exists w'. split; [done|].
    unfold fire_deadline_timer in E'. rewrite Ht in E'. cbn [set_tw_timers tw_txs] in E'. rewrite E in E'.
    rewrite (complete_eq t (set_tw_timers (delete token (tw_timers w)) w) tx E) in E'. injection E' as <-.
    cbn. rewrite lookup_insert_eq. cbn. split; [done|].
    pose proof (ti_notified _ _ _ H' t) as Hn. unfold notified_later in Hn. cbn in Hn. rewrite lookup_insert_eq in Hn. cbn in Hn.
    rewrite app_nil_r in Hn. by rewrite <- Hn.
  - intros token d t Ht Hp. destruct (ti_timers _ _ _ H token d t Ht) as (_ & p & b & Ep & Hb).
    destruct (tw_txs w !! t) as [tx|]; [by eexists|]. subst b. by apply Hp in Ep.
Qed.

(** ** An example *)
Fixpoint tx_run (no_older : N → N → bool) (ops : list TxOp) (w : TxWorld) : option TxWorld :=
  match ops with [] => Some w | op :: ops => w ← run_tx_op no_older op w; tx_run no_older ops w end.

Lemma tx_run_reaches no_older ops w w' : tx_run no_older ops w = Some w' → rtc (tx_step no_older) w w'.
Proof.
  revert w. induction ops as [|op ops IH]; intros w; cbn; [intros [= <-]; apply rtc_refl|].
  intros (w1 & E1 & E2)%bind_Some. eapply rtc_l; [by exists op|by apply IH].
Qed.

(** Two windows of a column are resized, and the first one commits. *)
Definition by_number (a b : N) : bool := N.leb b a.

Definition half_answered : list TxOp :=
  [TxResize [(1, true); (2, true)]; TxSendConfigure 1 true 10; TxSendConfigure 2 true 11;
   TxCommit 1 (MkCommit (Some 10) (Some 7) true false)]%N.

Definition held_world : TxWorld :=
  Eval vm_compute in default tx_world_new (tx_run by_number half_answered tx_world_new).

Lemma held_reached : rtc (tx_step by_number) tx_world_new held_world.
Proof. apply (tx_run_reaches _ half_answered). vm_compute. reflexivity. Qed.

(** Two references are left, of the second window and of the buffer of the first. *)
Lemma transactions_are_counted_witness :
  (tx_strong <$> held_world.(tw_txs) !! 0%N) = Some 2 ∧ positive (holders held_world 0%N) = Some 2 ∧
  ∃ w', run_tx_op by_number (TxClose 2 [] false) held_world = Some w'.
Proof.
  destruct (transactions_are_counted by_number held_world held_reached) as [H1 H2].
  split; [vm_compute; reflexivity|]. split; [|apply H2]. rewrite <- H1. vm_compute. reflexivity.
Defined.

(** The first commit is held back until the timer fires. *)
Lemma blocked_commits_are_released_witness :
  blocker_state (Some 0%N) held_world = BlockerPending ∧
  ∃ token d, held_world.(tw_timers) !! token = Some (d, 0%N) ∧ (d ≤ held_world.(tw_now) + TIME_LIMIT)%N ∧
    ∃ w', fire_deadline_timer token held_world = Some w' ∧ blocker_state (Some 0%N) w' = BlockerReleased ∧
      sent_clients w' 0%N ≡ₚ waiting_clients held_world 0%N.
Proof.
  split; [vm_compute; reflexivity|].
  destruct (blocked_commits_are_released by_number held_world held_reached) as [H _].
  apply (H (WaitCommit 7) 0%N). vm_compute tw_blockers. left.
Defined.
