(* ===== verification/NiriRedraw.v ===== *)
(** * Redrawing and locking (src/niri.rs, src/backend/tty.rs, winit.rs, headless.rs)

    Every output has a redraw state, which says whether a frame is queued, submitted or awaited;
    locking the session waits until every output has shown a locked frame.  Timers are sources of
    the event loop, known by their registration tokens.

    An output is a number, which also stands for its node and crtc; the list of output states is in
    the order in which the hash map is iterated.  What rendering does with a frame, the current
    time and the state of other parts of the compositor are arguments.  [None] is a panic. *)
From stdpp Require Import gmap.
From S2P Require Import Prelude Float64 Duration FrameClock.

(** ** Data *)
Inductive RedrawState :=
| RedrawIdle
| RedrawQueued
| WaitingForVBlank (redraw_needed : bool)
| WaitingForEstimatedVBlank (token : N)
| WaitingForEstimatedVBlankAndQueued (token : N).

(** [RedrawState::queue_redraw]. *)
Definition redraw_state_queue (s : RedrawState) : RedrawState :=
  match s with
  | RedrawIdle => RedrawQueued
  | WaitingForEstimatedVBlank token => WaitingForEstimatedVBlankAndQueued token
  | RedrawQueued | WaitingForEstimatedVBlankAndQueued _ => s
  | WaitingForVBlank _ => WaitingForVBlank true
  end.

Definition is_queued (s : RedrawState) : bool :=
  match s with RedrawQueued | WaitingForEstimatedVBlankAndQueued _ => true | _ => false end.

(** A session lock and the client that has it; its [SessionLocker] is not told apart from it. *)
Record SessionLock := MkSessionLock { sl_id : N; sl_client : N }.

Inductive LockState :=
| Unlocked
| WaitingForSurfaces (confirmation : SessionLock) (deadline_token : N)
| Locking (confirmation : SessionLock)
| Locked (lock : SessionLock).

Inductive LockRenderState := RenderUnlocked | RenderLocked.

#[export] Instance LockRenderState_eq_dec : EqDecision LockRenderState.
Proof. solve_decision. Defined.

Record LockSurface := MkLockSurface { ls_client : N; ls_mapped : bool }.

Record OutputState := MkOutputState {
  os_frame_clock : FrameClock;
  os_redraw_state : RedrawState;
  os_unfinished_animations_remain : bool;
  os_last_drm_sequence : option N;
  os_vblank_throttle : VBlankThrottle;
  os_frame_callback_sequence : N;
  os_lock_render_state : LockRenderState;
  os_lock_surface : option LockSurface
}.

Definition set_os_frame_clock v (s : OutputState) : OutputState :=
  MkOutputState v s.(os_redraw_state) s.(os_unfinished_animations_remain) s.(os_last_drm_sequence)
    s.(os_vblank_throttle) s.(os_frame_callback_sequence) s.(os_lock_render_state) s.(os_lock_surface).
Definition set_os_redraw_state v (s : OutputState) : OutputState :=
  MkOutputState s.(os_frame_clock) v s.(os_unfinished_animations_remain) s.(os_last_drm_sequence)
    s.(os_vblank_throttle) s.(os_frame_callback_sequence) s.(os_lock_render_state) s.(os_lock_surface).
Definition set_os_unfinished v (s : OutputState) : OutputState :=
  MkOutputState s.(os_frame_clock) s.(os_redraw_state) v s.(os_last_drm_sequence)
    s.(os_vblank_throttle) s.(os_frame_callback_sequence) s.(os_lock_render_state) s.(os_lock_surface).
Definition set_os_last_drm_sequence v (s : OutputState) : OutputState :=
  MkOutputState s.(os_frame_clock) s.(os_redraw_state) s.(os_unfinished_animations_remain) v
    s.(os_vblank_throttle) s.(os_frame_callback_sequence) s.(os_lock_render_state) s.(os_lock_surface).
Definition set_os_vblank_throttle v (s : OutputState) : OutputState :=
  MkOutputState s.(os_frame_clock) s.(os_redraw_state) s.(os_unfinished_animations_remain)
    s.(os_last_drm_sequence) v s.(os_frame_callback_sequence) s.(os_lock_render_state) s.(os_lock_surface).
Definition set_os_frame_callback_sequence v (s : OutputState) : OutputState :=
  MkOutputState s.(os_frame_clock) s.(os_redraw_state) s.(os_unfinished_animations_remain)
    s.(os_last_drm_sequence) s.(os_vblank_throttle) v s.(os_lock_render_state) s.(os_lock_surface).
Definition set_os_lock_render_state v (s : OutputState) : OutputState :=
  MkOutputState s.(os_frame_clock) s.(os_redraw_state) s.(os_unfinished_animations_remain)
    s.(os_last_drm_sequence) s.(os_vblank_throttle) s.(os_frame_callback_sequence) v s.(os_lock_surface).
Definition set_os_lock_surface v (s : OutputState) : OutputState :=
  MkOutputState s.(os_frame_clock) s.(os_redraw_state) s.(os_unfinished_animations_remain)
    s.(os_last_drm_sequence) s.(os_vblank_throttle) s.(os_frame_callback_sequence) s.(os_lock_render_state) v.

(** [u32::wrapping_add(1)]. *)
Definition next_sequence (n : N) : N := ((n + 1) mod (u32_max + 1))%N.

Definition bump_sequence (s : OutputState) : OutputState :=
  set_os_frame_callback_sequence (next_sequence s.(os_frame_callback_sequence)) s.

(** What a timer does when it fires. *)
Inductive Callback :=
| CbLockDeadline
| CbEstimatedVBlank (output : N)
| CbThrottledVBlank (output sequence : N).

Record Niri := MkNiri {
  ni_output_state : list (N * OutputState);
  ni_lock_state : LockState;
  ni_monitors_active : bool;
  ni_timers : gmap N (N * Callback);
  ni_next_token : N;
  ni_confirmed : list SessionLock
}.

Definition set_outputs v (n : Niri) : Niri :=
  MkNiri v n.(ni_lock_state) n.(ni_monitors_active) n.(ni_timers) n.(ni_next_token) n.(ni_confirmed).
Definition set_lock_state v (n : Niri) : Niri :=
  MkNiri n.(ni_output_state) v n.(ni_monitors_active) n.(ni_timers) n.(ni_next_token) n.(ni_confirmed).
Definition set_monitors_active v (n : Niri) : Niri :=
  MkNiri n.(ni_output_state) n.(ni_lock_state) v n.(ni_timers) n.(ni_next_token) n.(ni_confirmed).
Definition set_timers v (n : Niri) : Niri :=
  MkNiri n.(ni_output_state) n.(ni_lock_state) n.(ni_monitors_active) v n.(ni_next_token) n.(ni_confirmed).

(** ** Outputs and timers *)
Definition output_keys (l : list (N * OutputState)) : list N := l.*1.

Fixpoint get_output (o : N) (l : list (N * OutputState)) : option OutputState :=
  match l with
  | [] => None
  | (k, s) :: l => if N.eqb k o then Some s else get_output o l
  end.

Definition alter_output (f : OutputState → OutputState) (o : N) (l : list (N * OutputState)) :
    list (N * OutputState) :=
  (λ p, if N.eqb p.1 o then (p.1, f p.2) else p) <$> l.

Definition alter_all (f : OutputState → OutputState) (l : list (N * OutputState)) : list (N * OutputState) :=
  (λ p, (p.1, f p.2)) <$> l.

Definition output_of (n : Niri) (o : N) : option OutputState := get_output o n.(ni_output_state).
Definition on_output (f : OutputState → OutputState) (o : N) (n : Niri) : Niri :=
  set_outputs (alter_output f o n.(ni_output_state)) n.

(** [insert_source] with a fresh token, and [remove]. *)
Definition insert_timer (duration : N) (callback : Callback) (n : Niri) : N * Niri :=
  (n.(ni_next_token),
   MkNiri n.(ni_output_state) n.(ni_lock_state) n.(ni_monitors_active)
     (<[n.(ni_next_token) := (duration, callback)]> n.(ni_timers)) (n.(ni_next_token) + 1)%N n.(ni_confirmed)).
Definition remove_timer (token : N) (n : Niri) : Niri := set_timers (delete token n.(ni_timers)) n.

(** ** Queueing *)
Definition queue_redraw (o : N) (n : Niri) : option Niri :=
  s ← output_of n o;
  Some (on_output (λ s, set_os_redraw_state (redraw_state_queue s.(os_redraw_state)) s) o n).

Definition queue_redraw_all (n : Niri) : Niri :=
  set_outputs (alter_all (λ s, set_os_redraw_state (redraw_state_queue s.(os_redraw_state)) s)
                 n.(ni_output_state)) n.

(** ** Locking *)
Definition is_locked (n : Niri) : bool :=
  match n.(ni_lock_state) with
  | Unlocked | WaitingForSurfaces _ _ => false
  | Locking _ | Locked _ => true
  end.

(** [confirmation.lock()]: the client learns that the session is locked. *)
Definition confirm (lock : SessionLock) (n : Niri) : Niri :=
  MkNiri n.(ni_output_state) (Locked lock) n.(ni_monitors_active) n.(ni_timers) n.(ni_next_token)
    (n.(ni_confirmed) ++ [lock]).

Definition all_locked (n : Niri) : bool :=
  forallb (λ p, bool_decide (p.2.(os_lock_render_state) = RenderLocked)) n.(ni_output_state).

Definition lock_timeout : N := 1000 * 1000000.

(** [alive] is whether the client of the lock that is held still exists. *)
Definition lock (confirmation : SessionLock) (alive : bool) (n : Niri) : Niri :=
  match n.(ni_lock_state) with
  | WaitingForSurfaces _ _ | Locking _ => n
  | Locked _ => if alive then n else confirm confirmation n
  | Unlocked =>
      match n.(ni_output_state) with
      | [] => confirm confirmation n
      | _ =>
          let '(token, n) := insert_timer lock_timeout CbLockDeadline n in
          set_lock_state (WaitingForSurfaces confirmation token) n
      end
  end.

(** A call in another state only logs an error. *)
Definition continue_to_locking (n : Niri) : Niri :=
  match n.(ni_lock_state) with
  | WaitingForSurfaces confirmation deadline_token =>
      let n := remove_timer deadline_token n in
      match n.(ni_output_state) with
      | [] => confirm confirmation n
      | _ => queue_redraw_all (set_lock_state (Locking confirmation) n)
      end
  | _ => n
  end.

Definition surface_ready (s : OutputState) : bool :=
  match s.(os_lock_surface) with Some surface => surface.(ls_mapped) | None => false end.

Definition maybe_continue_to_locking (n : Niri) : Niri :=
  match n.(ni_lock_state) with
  | WaitingForSurfaces _ _ =>
      if forallb (λ p, surface_ready p.2) n.(ni_output_state) then continue_to_locking n else n
  | _ => n
  end.

Definition unlock (n : Niri) : Niri :=
  let n := match n.(ni_lock_state) with
           | WaitingForSurfaces _ deadline_token => remove_timer deadline_token n
           | _ => n
           end in
  queue_redraw_all (set_outputs (alter_all (set_os_lock_surface None) n.(ni_output_state))
                      (set_lock_state Unlocked n)).

Definition new_lock_surface (surface : LockSurface) (o : N) (n : Niri) : Niri :=
  match match n.(ni_lock_state) with
        | Unlocked => None
        | WaitingForSurfaces lock _ | Locking lock | Locked lock => Some lock
        end with
  | Some lock =>
      if N.eqb lock.(sl_client) surface.(ls_client)
      then on_output (set_os_lock_surface (Some surface)) o n else n
  | None => n
  end.

(** A commit of the lock surface of an output (src/handlers/compositor.rs). *)
Definition commit_lock_surface (o : N) (mapped : bool) (n : Niri) : option Niri :=
  match s ← output_of n o; s.(os_lock_surface) with
  | None => Some n
  | Some surface =>
      let n := on_output (set_os_lock_surface (Some (MkLockSurface surface.(ls_client) mapped))) o n in
      match n.(ni_lock_state) with
      | WaitingForSurfaces _ _ => Some (maybe_continue_to_locking n)
      | _ => queue_redraw o n
      end
  end.

(** If the session is being locked and all outputs are, the client is told. *)
Definition check_locked (confirmation : SessionLock) (n : Niri) : Niri :=
  if all_locked n then confirm confirmation n else n.

(** ** Outputs that come and go *)
Definition new_output_state (clock : FrameClock) (locked : bool) : OutputState :=
  MkOutputState clock RedrawIdle false None VBlankThrottle_new 0
    (if locked then RenderLocked else RenderUnlocked) None.

(** The redraws that [reposition_outputs] queues are those of [moved]. *)
Definition queue_redraws (moved : list N) (n : Niri) : option Niri :=
  foldl (λ n o, n ← n; queue_redraw o n) (Some n) moved.

Definition niri_add_output (o : N) (refresh_interval : option N) (vrr : bool) (moved : list N) (n : Niri) :
    option Niri :=
  clock ← FrameClock_new refresh_interval vrr;
  match output_of n o with
  | Some _ => None
  | None =>
      queue_redraws moved
        (set_outputs (n.(ni_output_state) ++ [(o, new_output_state clock (is_locked n))]) n)
  end.

Definition niri_remove_output (o : N) (moved : list N) (screenshot_ui_open : bool) (n : Niri) : option Niri :=
  n ← queue_redraws moved n;
  s ← output_of n o;
  let n := set_outputs (filter (λ p, p.1 ≠ o) n.(ni_output_state)) n in
  let n := match s.(os_redraw_state) with
           | WaitingForEstimatedVBlank token | WaitingForEstimatedVBlankAndQueued token => remove_timer token n
           | _ => n
           end in
  let n := match n.(ni_lock_state) with
           | Locking confirmation => check_locked confirmation n
           | _ => maybe_continue_to_locking n
           end in
  Some (if screenshot_ui_open then queue_redraw_all n else n).

Definition deactivate_monitors (n : Niri) : Niri := set_monitors_active false n.

Definition activate_monitors (n : Niri) : Niri :=
  if n.(ni_monitors_active) then n else queue_redraw_all (set_monitors_active true n).

(** ** Rendering *)
Inductive Backend := Tty | Winit | Headless.

Inductive RenderResult := ResSubmitted | ResNoDamage | ResSkipped.

#[export] Instance RenderResult_eq_dec : EqDecision RenderResult.
Proof. solve_decision. Defined.

(** What becomes of a frame: there was no device to render with, it could not be rendered or
    queued, nothing in it changed, or it was submitted. *)
Inductive RenderOutcome := OutcomeNoDevice | OutcomeFailed | OutcomeNoDamage | OutcomeSubmitted.

(** What one redraw meets: the outcome, whether animations go on, and the time before and after. *)
Record RenderEnv := MkRenderEnv {
  re_outcome : RenderOutcome;
  re_unfinished : bool;
  re_now : N;
  re_then : N
}.

Definition default_refresh : N := 16667 * 1000.

Definition queue_estimated_vblank_timer (o : N) (target now : N) (n : Niri) : option Niri :=
  s ← output_of n o;
  match s.(os_redraw_state) with
  | RedrawIdle | WaitingForVBlank _ => None
  | WaitingForEstimatedVBlank token | WaitingForEstimatedVBlankAndQueued token =>
      Some (on_output (set_os_redraw_state (WaitingForEstimatedVBlank token)) o n)
  | RedrawQueued =>
      let duration := saturating_sub target now in
      let duration := if N.eqb duration 0
                      then default default_refresh s.(os_frame_clock).(fc_refresh_interval_ns)
                      else duration in
      let '(token, n) := insert_timer duration (CbEstimatedVBlank o) n in
      Some (on_output (set_os_redraw_state (WaitingForEstimatedVBlank token)) o n)
  end.

Definition tty_render (o : N) (env : RenderEnv) (target : N) (n : Niri) : option (Niri * RenderResult) :=
  match env.(re_outcome) with
  | OutcomeNoDevice => Some (n, ResSkipped)
  | OutcomeSubmitted =>
      s ← output_of n o;
      n ← match s.(os_redraw_state) with
          | RedrawQueued => Some n
          | WaitingForEstimatedVBlankAndQueued token => Some (remove_timer token n)
          | _ => None
          end;
      Some (on_output (λ s, bump_sequence (set_os_redraw_state (WaitingForVBlank false) s)) o n, ResSubmitted)
  | OutcomeNoDamage =>
      n ← queue_estimated_vblank_timer o target env.(re_then) n; Some (n, ResNoDamage)
  | OutcomeFailed =>
      n ← queue_estimated_vblank_timer o target env.(re_then) n; Some (n, ResSkipped)
  end.

(** The other backends show every frame at once. *)
Definition direct_render (o : N) (res : RenderResult) (n : Niri) : option (Niri * RenderResult) :=
  s ← output_of n o;
  match s.(os_redraw_state) with
  | RedrawQueued => Some (on_output (λ s, bump_sequence (set_os_redraw_state RedrawIdle s)) o n, res)
  | _ => None
  end.

Definition render (backend : Backend) (o : N) (env : RenderEnv) (target : N) (n : Niri) :
    option (Niri * RenderResult) :=
  match backend with
  | Tty => tty_render o env target n
  | Winit =>
      direct_render o (match env.(re_outcome) with OutcomeSubmitted => ResSubmitted | _ => ResNoDamage end) n
  | Headless => direct_render o ResSubmitted n
  end.

(** The state after a frame that was not rendered. *)
Definition skipped_state (s : RedrawState) : RedrawState :=
  match s with
  | WaitingForEstimatedVBlank token | WaitingForEstimatedVBlankAndQueued token =>
      WaitingForEstimatedVBlank token
  | _ => RedrawIdle
  end.

Definition finish_redraw (o : N) (res : RenderResult) (n : Niri) : option Niri :=
  let locked := is_locked n in
  let n := if decide (res = ResSkipped)
           then on_output (λ s, set_os_redraw_state (skipped_state s.(os_redraw_state)) s) o n else n in
  let n := if negb (bool_decide (res = ResSkipped)) || negb n.(ni_monitors_active)
           then on_output (set_os_lock_render_state (if locked then RenderLocked else RenderUnlocked)) o n
           else n in
  match n.(ni_lock_state) with
  | Locking confirmation =>
      s ← output_of n o;
      Some (if decide (s.(os_lock_render_state) = RenderUnlocked) then unlock n
            else check_locked confirmation n)
  | _ => Some n
  end.

Definition redraw (backend : Backend) (o : N) (env : RenderEnv) (n : Niri) : option Niri :=
  s ← output_of n o;
  if is_queued s.(os_redraw_state) then
    target ← next_presentation_time s.(os_frame_clock) env.(re_now);
    if n.(ni_monitors_active) then
      r ← render backend o env target (on_output (set_os_unfinished env.(re_unfinished)) o n);
      finish_redraw o (snd r) (fst r)
    else finish_redraw o ResSkipped n
  else None.

(** The first output whose redraw is queued. *)
Fixpoint find_queued (l : list (N * OutputState)) : option N :=
  match l with
  | [] => None
  | (o, s) :: l => if is_queued s.(os_redraw_state) then Some o else find_queued l
  end.

(** [envs] is what each redraw meets, in order. *)
Fixpoint redraw_queued_outputs (fuel : nat) (backend : Backend) (envs : nat → RenderEnv) (n : Niri) :
    option Niri :=
  match find_queued n.(ni_output_state) with
  | None => Some n
  | Some o =>
      match fuel with
      | 0 => None
      | S fuel => n ← redraw backend o (envs 0) n; redraw_queued_outputs fuel backend (λ k, envs (S k)) n
      end
  end.

(** ** VBlanks *)
Definition on_vblank (o : N) (presentation_time now sequence : N) (n : Niri) : option Niri :=
  match output_of n o with
  | None => Some n
  | Some s =>
      let throttle := s.(os_vblank_throttle) in
      let refresh_interval := s.(os_frame_clock).(fc_refresh_interval_ns) in
      let time := if N.eqb presentation_time 0 then now else presentation_time in
      let n := match throttle.(vt_throttle_timer_token) with
               | Some token => remove_timer token n
               | None => n
               end in
      match throttle_remaining throttle refresh_interval time with
      | Some remaining =>
          let '(token, n) := insert_timer remaining (CbThrottledVBlank o sequence) n in
          Some (on_output (set_os_vblank_throttle
                             (MkVBlankThrottle throttle.(vt_last_vblank_timestamp) (Some token))) o n)
      | None =>
          let redraw_needed := match s.(os_redraw_state) with WaitingForVBlank b => b | _ => true end in
          let n := on_output (λ s,
                     set_os_frame_clock (presented s.(os_frame_clock) presentation_time)
                       (set_os_last_drm_sequence (Some sequence)
                          (set_os_redraw_state RedrawIdle
                             (set_os_vblank_throttle (MkVBlankThrottle (Some time) None) s)))) o n in
          if redraw_needed || s.(os_unfinished_animations_remain) then queue_redraw o n else Some n
      end
  end.

Definition on_estimated_vblank_timer (o : N) (n : Niri) : option Niri :=
  match output_of n o with
  | None => Some n
  | Some s =>
      match s.(os_redraw_state) with
      | RedrawIdle | RedrawQueued | WaitingForVBlank _ => None
      | WaitingForEstimatedVBlank _ =>
          let n := on_output (λ s, set_os_redraw_state RedrawIdle (bump_sequence s)) o n in
          if s.(os_unfinished_animations_remain) then queue_redraw o n else Some n
      | WaitingForEstimatedVBlankAndQueued _ =>
          Some (on_output (λ s, set_os_redraw_state RedrawQueued (bump_sequence s)) o n)
      end
  end.

(** A timer fires and is dropped. *)
Definition fire_timer (token now : N) (n : Niri) : option Niri :=
  match n.(ni_timers) !! token with
  | None => Some n
  | Some (_, callback) =>
      let n := remove_timer token n in
      match callback with
      | CbLockDeadline => Some (continue_to_locking n)
      | CbEstimatedVBlank o => on_estimated_vblank_timer o n
      | CbThrottledVBlank o sequence => on_vblank o 0 now sequence n
      end
  end.

(** Variable refresh rate is switched on or off. *)
Definition set_output_vrr (o : N) (vrr : bool) (n : Niri) : Niri :=
  on_output (λ s, set_os_frame_clock (set_vrr s.(os_frame_clock) vrr) s) o n.
