(* ===== verification/NiriRedrawOps.v ===== *)
(** * Redrawing and locking: the timers and their owners

    Every registered timer has exactly one owner that remembers its token: an output that waits
    for an estimated or a throttled vblank, or the lock that waits for its surfaces. *)
From stdpp Require Import gmap.
From S2P Require Import Prelude Float64 Duration FrameClock NiriRedraw.

Local Open Scope N_scope.

(** ** Output states *)
Lemma get_output_alter f o o' l :
  get_output o' (alter_output f o l) = if N.eqb o o' then f <$> get_output o' l else get_output o' l.
Proof.
  induction l as [|[k s] l IH]; cbn; [by destruct (o =? o')|]. unfold alter_output in *. cbn.
  destruct (N.eqb_spec k o) as [E|Hko]; cbn; destruct (N.eqb_spec k o') as [E'|Hko'].
  - subst. by rewrite N.eqb_refl.
  - exact IH.
  - destruct (N.eqb_spec o o'); [congruence|done].
  - exact IH.
Qed.

Lemma get_output_all f o l : get_output o (alter_all f l) = f <$> get_output o l.
Proof. induction l as [|[k s] l IH]; cbn; [done|]. by destruct (k =? o). Qed.

Lemma get_output_app o l k :
  get_output o (l ++ k) = match get_output o l with Some s => Some s | None => get_output o k end.
Proof. induction l as [|[k' s] l IH]; cbn; [done|]. by destruct (k' =? o). Qed.

Lemma get_output_filter o o' l :
  get_output o' (filter (λ p, p.1 ≠ o) l) = if N.eqb o o' then None else get_output o' l.
Proof.
  induction l as [|[k s] l IH]; [by cbn; destruct (o =? o')|]. rewrite filter_cons.
  destruct (decide ((k, s).1 ≠ o)) as [Hk|Hk]; cbn in Hk |- *.
  - destruct (N.eqb_spec k o') as [E|]; [|exact IH]. by destruct (N.eqb_spec o o'); [congruence|].
  - apply dec_stable in Hk. subst k. rewrite IH. by destruct (o =? o').
Qed.

Lemma get_output_elem o s l : get_output o l = Some s → (o, s) ∈ l.
Proof.
  induction l as [|[k s'] l IH]; cbn; [done|]. destruct (N.eqb_spec k o) as [->|].
  - intros [= ->]. left.
  - intros H. right. auto.
Qed.

Lemma elem_get_output o s l : NoDup (output_keys l) → (o, s) ∈ l → get_output o l = Some s.
Proof.
  unfold output_keys. induction l as [|[k s'] l IH]; cbn; [by intros _ ?%not_elem_of_nil|].
  intros [Hk Hnd]%NoDup_cons [[= -> ->]|Hin]%elem_of_cons; [by rewrite N.eqb_refl|].
  destruct (N.eqb_spec k o) as [->|]; [|auto]. destruct Hk. apply list_elem_of_fmap. by exists (o, s).
Qed.

Lemma alter_output_keys f o l : output_keys (alter_output f o l) = output_keys l.
Proof.
  unfold output_keys, alter_output. rewrite <- list_fmap_compose. apply list_fmap_ext.
  intros i [k s] _. cbn. by destruct (k =? o).
Qed.

Lemma alter_all_keys f l : output_keys (alter_all f l) = output_keys l.
Proof. unfold output_keys, alter_all. rewrite <- list_fmap_compose. by apply list_fmap_ext. Qed.

Lemma output_of_on f o o' n :
  output_of (on_output f o n) o' = if N.eqb o o' then f <$> output_of n o' else output_of n o'.
Proof. apply get_output_alter. Qed.

Lemma output_of_on_eq f o n s : output_of n o = Some s → output_of (on_output f o n) o = Some (f s).
Proof. intros H. by rewrite output_of_on, N.eqb_refl, H. Qed.

Lemma output_of_all f o n : output_of (set_outputs (alter_all f n.(ni_output_state)) n) o = f <$> output_of n o.
Proof. apply get_output_all. Qed.

(** ** Owners *)

(** What an output remembers: the token of its estimated vblank, that of its throttled one, and
    whether it waits for a vblank. *)
Record Tokens := MkTokens { tk_estimated : option N; tk_throttled : option N; tk_waiting : bool }.

Definition estimated_token (s : RedrawState) : option N :=
  match s with
  | WaitingForEstimatedVBlank t | WaitingForEstimatedVBlankAndQueued t => Some t
  | _ => None
  end.

Definition is_waiting (s : RedrawState) : bool :=
  match s with WaitingForVBlank _ => true | _ => false end.

Definition tokens (s : OutputState) : Tokens :=
  MkTokens (estimated_token s.(os_redraw_state)) s.(os_vblank_throttle).(vt_throttle_timer_token)
    (is_waiting s.(os_redraw_state)).

Definition tokens_of (n : Niri) (o : N) : option Tokens := tokens <$> output_of n o.

Definition deadline_of (s : LockState) : option N :=
  match s with WaitingForSurfaces _ t => Some t | _ => None end.

(** A throttled vblank may outlive its output. *)
Definition owned (tok : N → option Tokens) (deadline : option N) (t : N) (cb : Callback) : Prop :=
  match cb with
  | CbLockDeadline => deadline = Some t
  | CbEstimatedVBlank o => ∃ k, tok o = Some k ∧ k.(tk_estimated) = Some t
  | CbThrottledVBlank o _ => ∀ k, tok o = Some k → k.(tk_throttled) = Some t
  end.

Record timers_ok (tok : N → option Tokens) (deadline : option N) (timers : gmap N (N * Callback)) (next : N) :
    Prop := {
  tm_fresh t x : timers !! t = Some x → t < next;
  tm_owned t d cb : timers !! t = Some (d, cb) → owned tok deadline t cb;
  tm_estimated o k t : tok o = Some k → k.(tk_estimated) = Some t → ∃ d, timers !! t = Some (d, CbEstimatedVBlank o);
  tm_throttled o k t : tok o = Some k → k.(tk_throttled) = Some t → ∃ d q, timers !! t = Some (d, CbThrottledVBlank o q);
  tm_deadline t : deadline = Some t → ∃ d, timers !! t = Some (d, CbLockDeadline);
  tm_waiting o k t : tok o = Some k → k.(tk_throttled) = Some t → k.(tk_waiting) = true
}.

Definition with_tokens (o : N) (k : option Tokens) (tok : N → option Tokens) (o' : N) : option Tokens :=
  if N.eqb o o' then k else tok o'.

Lemma with_tokens_eq o k tok : with_tokens o k tok o = k.
Proof. unfold with_tokens. by rewrite N.eqb_refl. Qed.

Lemma with_tokens_ne o o' k tok : o ≠ o' → with_tokens o k tok o' = tok o'.
Proof. unfold with_tokens. by destruct (N.eqb_spec o o'). Qed.

Section timers.
  Context (tok : N → option Tokens) (deadline : option N) (timers : gmap N (N * Callback)) (next : N).
  Hypothesis Hok : timers_ok tok deadline timers next.

Lemma timers_ext tok' : (∀ o, tok' o = tok o) → timers_ok tok' deadline timers next.
Proof using Hok.
  intros E. destruct Hok as [H1 H2 H3 H4 H5 H6]. split; try done; try (intros o k t; rewrite E; eauto).
  intros t d [|o|o q] Ht%H2; cbn in *; [done|by setoid_rewrite E|by setoid_rewrite E].
Qed.

(** An output without tokens may wait or not. *)
Lemma timers_idle o k w :
  tok o = Some k → k.(tk_estimated) = None → k.(tk_throttled) = None →
  timers_ok (with_tokens o (Some (MkTokens None None w)) tok) deadline timers next.
Proof using Hok.
  intros Ho He Ht. destruct Hok as [H1 H2 H3 H4 H5 H6]. unfold with_tokens. split; try done.
  - intros t d [|o'|o' q] Hx%H2; cbn in *; [done| |].
    + destruct (N.eqb_spec o o') as [->|]; [|done]. destruct Hx as (k' & Hk' & E). naive_solver.
    + destruct (N.eqb_spec o o') as [->|]; [|done]. specialize (Hx k Ho). naive_solver.
  - intros o' k' t. destruct (N.eqb_spec o o') as [->|]; [by intros [= <-]|]. apply H3.
  - intros o' k' t. destruct (N.eqb_spec o o') as [->|]; [by intros [= <-]|]. apply H4.
  - intros o' k' t. destruct (N.eqb_spec o o') as [->|]; [by intros [= <-]|]. apply H6.
Qed.

(** The estimated vblank is over, or no longer awaited. *)
Lemma timers_drop_estimated o k t w :
  tok o = Some k → k.(tk_estimated) = Some t → k.(tk_throttled) = None →
  timers_ok (with_tokens o (Some (MkTokens None None w)) tok) deadline (delete t timers) next.
Proof using Hok.
  intros Ho He Hth. destruct Hok as [H1 H2 H3 H4 H5 H6]. destruct (H3 _ _ _ Ho He) as [d0 Hd0].
  unfold with_tokens. split.
  - intros t' x [_ Hx]%lookup_delete_Some. by eapply H1.
  - intros t' d cb [Hne Hx]%lookup_delete_Some. pose proof (H2 _ _ _ Hx) as Hc.
    destruct cb as [|o'|o' q]; cbn in *; [done| |].
    + destruct (N.eqb_spec o o') as [->|]; [|done]. destruct Hc as (k' & Hk' & E). naive_solver.
    + destruct (N.eqb_spec o o') as [->|]; [|done]. specialize (Hc k Ho). naive_solver.
  - intros o' k' t'. destruct (N.eqb_spec o o') as [->|]; [by intros [= <-]|]. intros Hk' E.
    destruct (H3 _ _ _ Hk' E) as [d Hd]. exists d. rewrite lookup_delete_ne; [done|]. naive_solver.
  - intros o' k' t'. destruct (N.eqb_spec o o') as [->|]; [by intros [= <-]|]. intros Hk' E.
    destruct (H4 _ _ _ Hk' E) as (d & q & Hd). exists d, q. rewrite lookup_delete_ne; [done|]. naive_solver.
  - intros t' (d & Hd)%H5. exists d. rewrite lookup_delete_ne; [done|]. naive_solver.
  - intros o' k' t'. destruct (N.eqb_spec o o') as [->|]; [by intros [= <-]|]. apply H6.
Qed.

(** An output starts to wait for an estimated vblank. *)
Lemma timers_add_estimated o k d :
  tok o = Some k → k.(tk_estimated) = None → k.(tk_throttled) = None →
  timers_ok (with_tokens o (Some (MkTokens (Some next) None false)) tok) deadline
    (<[next := (d, CbEstimatedVBlank o)]> timers) (next + 1).
Proof using Hok.
  intros Ho He Hth. destruct Hok as [H1 H2 H3 H4 H5 H6].
  assert (Hne : ∀ t x, timers !! t = Some x → next ≠ t) by (intros t x Hx%H1; lia).
  unfold with_tokens. split.
  - intros t x [[<- _]|[_ Hx%H1]]%lookup_insert_Some; lia.
  - intros t d' cb [[<- [= <- <-]]|[_ Hx]]%lookup_insert_Some; cbn.
    + rewrite N.eqb_refl. eauto.
    + pose proof (H2 _ _ _ Hx) as Hc. destruct cb as [|o'|o' q]; cbn in *; [done| |];
        (destruct (N.eqb_spec o o') as [->|]; [|done]).
      * destruct Hc as (k' & Hk' & E). naive_solver.
      * specialize (Hc k Ho). naive_solver.
  - intros o' k' t'. destruct (N.eqb_spec o o') as [->|].
    + intros [= <-] [= <-]. exists d. apply lookup_insert_eq.
    + intros Hk' E. destruct (H3 _ _ _ Hk' E) as [d' Hd]. exists d'. rewrite lookup_insert_ne; [done|]. eauto.
  - intros o' k' t'. destruct (N.eqb_spec o o') as [->|]; [by intros [= <-]|]. intros Hk' E.
    destruct (H4 _ _ _ Hk' E) as (d' & q & Hd). exists d', q. rewrite lookup_insert_ne; [done|]. eauto.
  - intros t' (d' & Hd)%H5. exists d'. rewrite lookup_insert_ne; [done|]. eauto.
  - intros o' k' t'. destruct (N.eqb_spec o o') as [->|]; [by intros [= <-]|]. apply H6.
Qed.

(** A throttled vblank is due, or replaced; removing an absent token does nothing. *)
Lemma timers_drop_throttled o k t w :
  tok o = Some k → k.(tk_estimated) = None → k.(tk_throttled) = Some t →
  timers_ok (with_tokens o (Some (MkTokens None None w)) tok) deadline (delete t timers) next.
Proof using Hok.
  intros Ho He Hth. destruct Hok as [H1 H2 H3 H4 H5 H6]. destruct (H4 _ _ _ Ho Hth) as (d0 & q0 & Hd0).
  unfold with_tokens. split.
  - intros t' x [_ Hx]%lookup_delete_Some. by eapply H1.
  - intros t' d cb [Hne Hx]%lookup_delete_Some. pose proof (H2 _ _ _ Hx) as Hc.
    destruct cb as [|o'|o' q]; cbn in *; [done| |].
    + destruct (N.eqb_spec o o') as [->|]; [|done]. destruct Hc as (k' & Hk' & E). naive_solver.
    + destruct (N.eqb_spec o o') as [->|]; [|done]. specialize (Hc k Ho). naive_solver.
  - intros o' k' t'. destruct (N.eqb_spec o o') as [->|]; [by intros [= <-]|]. intros Hk' E.
    destruct (H3 _ _ _ Hk' E) as [d Hd]. exists d. rewrite lookup_delete_ne; [done|]. naive_solver.
  - intros o' k' t'. destruct (N.eqb_spec o o') as [->|]; [by intros [= <-]|]. intros Hk' E.
    destruct (H4 _ _ _ Hk' E) as (d & q & Hd). exists d, q. rewrite lookup_delete_ne; [done|]. naive_solver.
  - intros t' (d & Hd)%H5. exists d. rewrite lookup_delete_ne; [done|]. naive_solver.
  - intros o' k' t'. destruct (N.eqb_spec o o') as [->|]; [by intros [= <-]|]. apply H6.
Qed.

Lemma timers_add_throttled o k d q :
  tok o = Some k → k.(tk_estimated) = None → k.(tk_throttled) = None →
  timers_ok (with_tokens o (Some (MkTokens None (Some next) true)) tok) deadline
    (<[next := (d, CbThrottledVBlank o q)]> timers) (next + 1).
Proof using Hok.
  intros Ho He Hth. destruct Hok as [H1 H2 H3 H4 H5 H6].
  assert (Hne : ∀ t x, timers !! t = Some x → next ≠ t) by (intros t x Hx%H1; lia).
  unfold with_tokens. split.
  - intros t x [[<- _]|[_ Hx%H1]]%lookup_insert_Some; lia.
  - intros t d' cb [[<- [= <- <-]]|[_ Hx]]%lookup_insert_Some; cbn.
    + rewrite N.eqb_refl. by intros k' [= <-].
    + pose proof (H2 _ _ _ Hx) as Hc. destruct cb as [|o'|o' q']; cbn in *; [done| |];
        (destruct (N.eqb_spec o o') as [->|]; [|done]).
      * destruct Hc as (k' & Hk' & E). naive_solver.
      * specialize (Hc k Ho). naive_solver.
  - intros o' k' t'. destruct (N.eqb_spec o o') as [->|]; [by intros [= <-]|]. intros Hk' E.
    destruct (H3 _ _ _ Hk' E) as [d' Hd]. exists d'. rewrite lookup_insert_ne; [done|]. eauto.
  - intros o' k' t'. destruct (N.eqb_spec o o') as [->|].
    + intros [= <-] [= <-]. exists d, q. apply lookup_insert_eq.
    + intros Hk' E. destruct (H4 _ _ _ Hk' E) as (d' & q' & Hd). exists d', q'.
      rewrite lookup_insert_ne; [done|]. eauto.
  - intros t' (d' & Hd)%H5. exists d'. rewrite lookup_insert_ne; [done|]. eauto.
  - intros o' k' t'. destruct (N.eqb_spec o o') as [->|]; [by intros [= <-]|]. apply H6.
Qed.

Lemma timers_drop_deadline t : deadline = Some t → timers_ok tok None (delete t timers) next.
Proof using Hok.
  intros Hdl. destruct Hok as [H1 H2 H3 H4 H5 H6]. destruct (H5 _ Hdl) as (d0 & Hd0). split; try done.
  - intros t' x [_ Hx]%lookup_delete_Some. by eapply H1.
  - intros t' d cb [Hne Hx]%lookup_delete_Some. pose proof (H2 _ _ _ Hx) as Hc.
    destruct cb; cbn in *; [naive_solver|done..].
  - intros o' k' t' Hk' E. destruct (H3 _ _ _ Hk' E) as [d Hd]. exists d. rewrite lookup_delete_ne; [done|]. naive_solver.
  - intros o' k' t' Hk' E. destruct (H4 _ _ _ Hk' E) as (d & q & Hd). exists d, q. rewrite lookup_delete_ne; [done|]. naive_solver.
Qed.

Lemma timers_add_deadline d :
  deadline = None → timers_ok tok (Some next) (<[next := (d, CbLockDeadline)]> timers) (next + 1).
Proof using Hok.
  intros Hdl. destruct Hok as [H1 H2 H3 H4 H5 H6].
  assert (Hne : ∀ t x, timers !! t = Some x → next ≠ t) by (intros t x Hx%H1; lia). split; try done.
  - intros t x [[<- _]|[_ Hx%H1]]%lookup_insert_Some; lia.
  - intros t d' cb [[<- [= <- <-]]|[_ Hx]]%lookup_insert_Some; cbn; [done|].
    pose proof (H2 _ _ _ Hx) as Hc. destruct cb; cbn in *; [congruence|done..].
  - intros o' k' t' Hk' E. destruct (H3 _ _ _ Hk' E) as [d' Hd]. exists d'. rewrite lookup_insert_ne; [done|]. eauto.
  - intros o' k' t' Hk' E. destruct (H4 _ _ _ Hk' E) as (d' & q & Hd). exists d', q. rewrite lookup_insert_ne; [done|]. eauto.
  - intros t' [= <-]. exists d. apply lookup_insert_eq.
Qed.

(** A new output; no vblank of an earlier one is still throttled. *)
Lemma timers_add_output o :
  (∀ t d q, timers !! t ≠ Some (d, CbThrottledVBlank o q)) → tok o = None →
  timers_ok (with_tokens o (Some (MkTokens None None false)) tok) deadline timers next.
Proof using Hok.
  intros Hno Ho. destruct Hok as [H1 H2 H3 H4 H5 H6]. unfold with_tokens. split; try done.
  - intros t d [|o'|o' q] Hx; pose proof (H2 _ _ _ Hx) as Hc; cbn in *; [done| |].
    + destruct (N.eqb_spec o o') as [->|]; [|done]. destruct Hc as (k' & Hk' & E). naive_solver.
    + destruct (N.eqb_spec o o') as [->|]; [|done]. by destruct (Hno t d q).
  - intros o' k' t. destruct (N.eqb_spec o o') as [->|]; [by intros [= <-]|]. apply H3.
  - intros o' k' t. destruct (N.eqb_spec o o') as [->|]; [by intros [= <-]|]. apply H4.
  - intros o' k' t. destruct (N.eqb_spec o o') as [->|]; [by intros [= <-]|]. apply H6.
Qed.

(** An output goes; its estimated vblank goes with it. *)
Lemma timers_remove_output o k :
  tok o = Some k →
  timers_ok (with_tokens o None tok) deadline
    (match k.(tk_estimated) with Some t => delete t timers | None => timers end) next.
Proof using Hok.
  intros Ho. destruct Hok as [H1 H2 H3 H4 H5 H6].
  set (timers' := match k.(tk_estimated) with Some t => delete t timers | None => timers end).
  assert (Hsub : ∀ t x, timers' !! t = Some x → timers !! t = Some x ∧ k.(tk_estimated) ≠ Some t).
  { unfold timers'. intros t x. destruct (tk_estimated k) as [t0|]; [|done].
    intros [Hne Hx]%lookup_delete_Some. split; [done|]. by intros [= ->]. }
  assert (Hsup : ∀ t d cb, timers !! t = Some (d, cb) → cb ≠ CbEstimatedVBlank o → timers' !! t = Some (d, cb)).
  { unfold timers'. intros t d cb Hx Hcb. destruct (tk_estimated k) as [t0|] eqn:Et; [|done].
    destruct (H3 _ _ _ Ho Et) as (d0 & Hd0). rewrite lookup_delete_ne; [done|]. naive_solver. }
  clearbody timers'. unfold with_tokens. split.
  - intros t x [Hx _]%Hsub. by eapply H1.
  - intros t d cb [Hx Hne]%Hsub. pose proof (H2 _ _ _ Hx) as Hc. destruct cb as [|o'|o' q]; cbn in *; [done| |];
      (destruct (N.eqb_spec o o') as [->|]; [|done]); [|done].
    destruct Hc as (k' & Hk' & E). naive_solver.
  - intros o' k' t. destruct (N.eqb_spec o o') as [->|]; [done|]. intros Hk' E.
    destruct (H3 _ _ _ Hk' E) as (d & Hd). exists d. apply Hsup; [done|]. naive_solver.
  - intros o' k' t. destruct (N.eqb_spec o o') as [->|]; [done|]. intros Hk' E.
    destruct (H4 _ _ _ Hk' E) as (d & q & Hd). exists d, q. by apply Hsup.
  - intros t (d & Hd)%H5. exists d. by apply Hsup.
  - intros o' k' t. destruct (N.eqb_spec o o') as [->|]; [done|]. apply H6.
Qed.

End timers.
