(* ===== verification/NiriRedrawInv.v ===== *)
(** * Redrawing and locking: the invariant and what each operation does to it *)
From stdpp Require Import gmap.
From S2P Require Import Prelude Float64 Duration FrameClock NiriRedraw NiriRedrawOps.

Local Open Scope N_scope.

(** ** The invariant *)

(** A redraw will follow without anything else happening than the vblank. *)
Definition will_redraw (s : RedrawState) : bool :=
  match s with
  | RedrawQueued | WaitingForEstimatedVBlankAndQueued _ | WaitingForVBlank true => true
  | _ => false
  end.

(** Only the TTY backend waits for vblanks. *)
Definition backend_ok (b : Backend) (s : RedrawState) : Prop :=
  match b with Tty => True | _ => s = RedrawIdle ∨ s = RedrawQueued end.

Definition each (P : OutputState → Prop) (n : Niri) : Prop := ∀ o s, output_of n o = Some s → P s.

Record base_ok (b : Backend) (n : Niri) : Prop := {
  bk_keys : NoDup (output_keys n.(ni_output_state));
  bk_timers : timers_ok (tokens_of n) (deadline_of n.(ni_lock_state)) n.(ni_timers) n.(ni_next_token);
  bk_clocks : each (λ s, clock_ok s.(os_frame_clock)) n;
  bk_backend : each (λ s, backend_ok b s.(os_redraw_state)) n
}.

(** When the session is locked every output shows a locked frame; while it is being locked every
    output that does not will be redrawn. *)
Definition lock_ok (n : Niri) : Prop :=
  match n.(ni_lock_state) with
  | Locked _ => each (λ s, s.(os_lock_render_state) = RenderLocked) n
  | Locking _ =>
      (∃ o s, output_of n o = Some s ∧ will_redraw s.(os_redraw_state) = true) ∧
      each (λ s, s.(os_lock_render_state) = RenderUnlocked → will_redraw s.(os_redraw_state) = true) n
  | _ => True
  end.

Definition niri_ok (b : Backend) (n : Niri) : Prop := base_ok b n ∧ lock_ok n.

(** At most one client was told, and then its lock holds. *)
Definition answered (n n' : Niri) : Prop :=
  n'.(ni_confirmed) = n.(ni_confirmed) ∨
  ∃ c, n'.(ni_confirmed) = n.(ni_confirmed) ++ [c] ∧ n'.(ni_lock_state) = Locked c.

Lemma answered_same n n' : n'.(ni_confirmed) = n.(ni_confirmed) → answered n n'.
Proof. by left. Qed.

(** ** Changes of one output *)
Lemma tokens_on f o n o' :
  tokens_of (on_output f o n) o' =
    if N.eqb o o' then (λ s, tokens (f s)) <$> output_of n o' else tokens_of n o'.
Proof.
  unfold tokens_of. rewrite output_of_on. destruct (o =? o'); [|done]. by destruct (output_of n o').
Qed.

Lemma tokens_with f o n s :
  output_of n o = Some s →
  ∀ o', tokens_of (on_output f o n) o' = with_tokens o (Some (tokens (f s))) (tokens_of n) o'.
Proof.
  intros Ho o'. rewrite tokens_on. unfold with_tokens. destruct (N.eqb_spec o o') as [<-|]; [|done]. by rewrite Ho.
Qed.

Lemma each_on P f o n :
  each P n → (∀ s, output_of n o = Some s → P s → P (f s)) → each P (on_output f o n).
Proof.
  intros H Hf o' s. rewrite output_of_on. destruct (N.eqb_spec o o') as [<-|]; [|apply H].
  destruct (output_of n o) as [s0|] eqn:E; [|done]. intros [= <-]. apply Hf; [done|]. by eapply H.
Qed.

Lemma each_all (P Q : OutputState → Prop) f n :
  each P n → (∀ s, P s → Q (f s)) → each Q (set_outputs (alter_all f n.(ni_output_state)) n).
Proof.
  intros H Hf o s. rewrite output_of_all. destruct (output_of n o) as [s0|] eqn:E; [|done].
  intros [= <-]. eapply Hf, H, E.
Qed.

(** A change that leaves alone what the invariant is about. *)
Record harmless (s s' : OutputState) : Prop := {
  hl_tokens : tokens s' = tokens s;
  hl_clock : clock_ok s.(os_frame_clock) → clock_ok s'.(os_frame_clock);
  hl_backend b : backend_ok b s.(os_redraw_state) → backend_ok b s'.(os_redraw_state)
}.

Definition stays_locked (s s' : OutputState) : Prop :=
  s'.(os_lock_render_state) = s.(os_lock_render_state) ∧
  (will_redraw s.(os_redraw_state) = true → will_redraw s'.(os_redraw_state) = true).

Lemma base_on b f o n :
  base_ok b n → (∀ s, output_of n o = Some s → harmless s (f s)) → base_ok b (on_output f o n).
Proof.
  intros [H1 H2 H3 H4] Hf. split.
  - cbn. by rewrite alter_output_keys.
  - cbn. eapply timers_ext; [exact H2|]. intros o'. rewrite tokens_on. unfold tokens_of.
    destruct (N.eqb_spec o o') as [<-|]; [|done]. destruct (output_of n o) as [s|] eqn:E; [|done].
    cbn. f_equal. by apply Hf.
  - apply each_on; [done|]. intros s Hs. by apply Hf.
  - apply each_on; [done|]. intros s Hs. by apply Hf.
Qed.

Lemma lock_on f o n :
  lock_ok n → (∀ s, output_of n o = Some s → stays_locked s (f s)) → lock_ok (on_output f o n).
Proof.
  unfold lock_ok. intros H Hf. change (ni_lock_state (on_output f o n)) with (ni_lock_state n).
  destruct (ni_lock_state n); [done|done| |].
  - destruct H as [(o' & s & Ho' & Hw) H]. split.
    + destruct (N.eqb_spec o o') as [<-|Hne].
      * exists o, (f s). split; [by apply output_of_on_eq|]. by apply Hf.
      * exists o', s. split; [|done]. rewrite output_of_on. by destruct (N.eqb_spec o o').
    + apply each_on; [done|]. intros s' Hs' Hr. destruct (Hf s' Hs') as [-> Hw']. auto.
  - apply each_on; [done|]. intros s Hs. by destruct (Hf s Hs) as [-> _].
Qed.

Lemma ok_on b f o n :
  niri_ok b n → (∀ s, output_of n o = Some s → harmless s (f s) ∧ stays_locked s (f s)) →
  niri_ok b (on_output f o n).
Proof. intros [H1 H2] Hf. split; [apply base_on|apply lock_on]; try done; intros s Hs; by apply Hf. Qed.

Lemma base_all b f n :
  base_ok b n → (∀ s, harmless s (f s)) → base_ok b (set_outputs (alter_all f n.(ni_output_state)) n).
Proof.
  intros [H1 H2 H3 H4] Hf. split.
  - cbn. by rewrite alter_all_keys.
  - cbn. eapply timers_ext; [exact H2|]. intros o. unfold tokens_of. rewrite output_of_all.
    destruct (output_of n o) as [s|]; [|done]. cbn. f_equal. by apply Hf.
  - eapply each_all; [exact H3|]. intros s. apply Hf.
  - eapply each_all; [exact H4|]. intros s. apply Hf.
Qed.

Lemma lock_all f n :
  lock_ok n → (∀ s, stays_locked s (f s)) → lock_ok (set_outputs (alter_all f n.(ni_output_state)) n).
Proof.
  unfold lock_ok. intros H Hf. cbn [set_outputs ni_lock_state]. destruct (ni_lock_state n); [done|done| |].
  - destruct H as [(o & s & Ho & Hw) H]. split.
    + exists o, (f s). split; [by rewrite output_of_all, Ho|]. by apply Hf.
    + eapply each_all; [exact H|]. intros s' Hs' Hr. destruct (Hf s') as [E Hw']. rewrite E in Hr. auto.
  - eapply each_all; [exact H|]. intros s' Hs'. by destruct (Hf s') as [-> _].
Qed.

(** ** Queueing *)
Definition queue_output (s : OutputState) : OutputState :=
  set_os_redraw_state (redraw_state_queue s.(os_redraw_state)) s.

Lemma queue_harmless s : harmless s (queue_output s) ∧ stays_locked s (queue_output s).
Proof.
  unfold queue_output. split; [split|split]; destruct s as [? r ? ? ? ? ? ?]; try done;
    cbn [os_redraw_state set_os_redraw_state tokens].
  - by destruct r.
  - intros []; destruct r; cbn; naive_solver.
  - by destruct r as [| |[]| |].
Qed.

Lemma will_redraw_queued s : will_redraw (redraw_state_queue s) = true.
Proof. by destruct s as [| |[]| |]. Qed.

Lemma queue_redraw_runs b o n :
  niri_ok b n → is_Some (output_of n o) →
  runs (queue_redraw o n) (λ n', niri_ok b n' ∧ answered n n' ∧
    ∀ o', is_Some (output_of n' o') ↔ is_Some (output_of n o')).
Proof.
  intros Hok [s Hs]. unfold queue_redraw. rewrite Hs. apply runs_ret. split_and!.
  - apply ok_on; [done|]. intros s' _. apply queue_harmless.
  - by left.
  - intros o'. rewrite output_of_on. destruct (o =? o'); [|done]. by rewrite fmap_is_Some.
Qed.

Lemma queue_redraw_all_ok b n : niri_ok b n → niri_ok b (queue_redraw_all n).
Proof.
  intros [H1 H2]. split; [apply base_all|apply lock_all]; try done; intros s; by apply queue_harmless.
Qed.

Lemma queue_redraw_all_base b n : base_ok b n → base_ok b (queue_redraw_all n).
Proof. intros H1. apply base_all; [done|]. intros s. by apply queue_harmless. Qed.

Lemma queue_redraws_runs b moved n :
  niri_ok b n → (∀ o, o ∈ moved → is_Some (output_of n o)) →
  runs (queue_redraws moved n) (λ n', niri_ok b n' ∧ n'.(ni_confirmed) = n.(ni_confirmed) ∧
    n'.(ni_lock_state) = n.(ni_lock_state) ∧ ∀ o', is_Some (output_of n' o') ↔ is_Some (output_of n o')).
Proof.
  unfold queue_redraws. revert n. induction moved as [|o moved IH]; intros n Hok Hm; cbn [foldl].
  { by apply runs_ret. }
  cbn [mbind option_bind]. destruct (queue_redraw_runs b o n Hok) as (n1 & E & Hok1 & _ & H1); [apply Hm; left|].
  rewrite E. assert (En : n1 = on_output queue_output o n).
  { unfold queue_redraw in E. destruct (output_of n o); cbn in E; [|done]. by injection E as <-. }
  eapply runs_weaken; [apply IH; [done|]|].
  - intros o' Ho'. apply H1, Hm. by right.
  - intros n2 (K1 & K2 & K3 & K4). rewrite K2, K3, En. split_and!; [done..|]. intros o'. by rewrite K4, H1.
Qed.

(** ** Locking *)
Lemma all_locked_spec b n :
  base_ok b n → all_locked n = true ↔ each (λ s, s.(os_lock_render_state) = RenderLocked) n.
Proof.
  intros [Hk _ _ _]. unfold all_locked, each. rewrite List.forallb_forall. split.
  - intros H o s Hs%get_output_elem. apply list_elem_of_In in Hs. by apply H, bool_decide_eq_true in Hs.
  - intros H [o s] Hs%list_elem_of_In. apply bool_decide_eq_true. cbn. eapply H. by apply elem_get_output.
Qed.

Lemma base_lock_state b v n :
  base_ok b n → deadline_of v = deadline_of n.(ni_lock_state) → base_ok b (set_lock_state v n).
Proof. intros [H1 H2 H3 H4] E. split; try done. cbn. by rewrite E. Qed.

Lemma confirm_ok b c n :
  base_ok b n → deadline_of n.(ni_lock_state) = None → each (λ s, s.(os_lock_render_state) = RenderLocked) n →
  niri_ok b (confirm c n) ∧ answered n (confirm c n).
Proof.
  intros [H1 H2 H3 H4] E Hl. split; [split; [split|]|]; try done.
  - cbn. by rewrite E in H2.
  - right. by exists c.
Qed.

(** An output that is not locked yet, if not all of them are. *)
Lemma not_all_locked n :
  all_locked n = false → ∃ o s, (o, s) ∈ n.(ni_output_state) ∧ s.(os_lock_render_state) = RenderUnlocked.
Proof.
  unfold all_locked. induction (ni_output_state n) as [|[o s] l IH]; cbn; [done|].
  destruct (bool_decide_reflect (os_lock_render_state s = RenderLocked)) as [|E]; cbn.
  - intros (o' & s' & Hin & Hs')%IH. exists o', s'. split; [by right|done].
  - intros _. exists o, s. split; [left|]. by destruct (os_lock_render_state s).
Qed.

Lemma check_locked_ok b c n :
  base_ok b n → n.(ni_lock_state) = Locking c →
  each (λ s, s.(os_lock_render_state) = RenderUnlocked → will_redraw s.(os_redraw_state) = true) n →
  niri_ok b (check_locked c n) ∧ answered n (check_locked c n).
Proof.
  intros Hb E Hw. unfold check_locked. destruct (all_locked n) eqn:Ea.
  - apply confirm_ok; [done|by rewrite E|]. by apply (all_locked_spec b).
  - split; [split; [done|]|by left]. unfold lock_ok. rewrite E. split; [|done].
    destruct (not_all_locked n Ea) as (o & s & Hin & Hs). exists o, s.
    assert (Ho : output_of n o = Some s) by (apply elem_get_output; [apply Hb|done]). split; [done|]. by eapply Hw.
Qed.

Lemma outputs_nil n : n.(ni_output_state) = [] → ∀ P, each P n.
Proof. intros E P o s. unfold output_of. by rewrite E. Qed.

(** After all redraws were queued, the session can be locked. *)
Lemma locking_ok b c n :
  base_ok b n → deadline_of n.(ni_lock_state) = None → n.(ni_output_state) ≠ [] →
  niri_ok b (queue_redraw_all (set_lock_state (Locking c) n)).
Proof.
  intros Hb E Hne. split; [by apply queue_redraw_all_base, base_lock_state; rewrite ?E|].
  unfold lock_ok. cbn [queue_redraw_all set_outputs ni_lock_state set_lock_state].
  split.
  - destruct (ni_output_state n) as [|[o s] l] eqn:El; [done|]. exists o, (queue_output s).
    split; [|apply will_redraw_queued]. unfold output_of, queue_redraw_all. cbn. rewrite El. cbn.
    by rewrite N.eqb_refl.
  - apply (each_all (λ _, True)); [done|]. intros s _ _. apply will_redraw_queued.
Qed.

Lemma remove_deadline_ok b c t n :
  base_ok b n → n.(ni_lock_state) = WaitingForSurfaces c t →
  ∀ v, deadline_of v = None → base_ok b (set_lock_state v (remove_timer t n)).
Proof.
  intros [H1 H2 H3 H4] E v Ev. split; try done. cbn. rewrite Ev.
  eapply timers_drop_deadline; [exact H2|]. by rewrite E.
Qed.

Lemma continue_ok b n : niri_ok b n → niri_ok b (continue_to_locking n) ∧ answered n (continue_to_locking n).
Proof.
  intros [Hb Hl]. unfold continue_to_locking. destruct (ni_lock_state n) as [|c t| |] eqn:E; try (split; [done|by left]).
  pose proof (remove_deadline_ok b c t n Hb E) as Hrem.
  destruct (ni_output_state (remove_timer t n)) as [|p l] eqn:El.
  - specialize (Hrem (Locked c) eq_refl). split; [|right; by exists c]. split.
    + destruct Hrem as [H1 H2 H3 H4]. by split.
    + unfold lock_ok. cbn. apply outputs_nil. exact El.
  - split; [|by left]. specialize (Hrem Unlocked eq_refl).
    apply (locking_ok b c (set_lock_state Unlocked (remove_timer t n))); [done|done|].
    cbn in *. by rewrite El.
Qed.

Lemma maybe_continue_ok b n :
  niri_ok b n → niri_ok b (maybe_continue_to_locking n) ∧ answered n (maybe_continue_to_locking n).
Proof.
  intros Hok. unfold maybe_continue_to_locking. destruct (ni_lock_state n); try (split; [done|by left]).
  destruct (forallb _ _); [by apply continue_ok|]. split; [done|by left].
Qed.

Lemma unlock_ok b n : base_ok b n → niri_ok b (unlock n) ∧ (unlock n).(ni_confirmed) = n.(ni_confirmed) ∧
  (unlock n).(ni_lock_state) = Unlocked.
Proof.
  intros Hb. unfold unlock.
  assert (H : base_ok b (set_lock_state Unlocked (match ni_lock_state n with
                | WaitingForSurfaces _ t => remove_timer t n | _ => n end))).
  { destruct (ni_lock_state n) as [|c t| |] eqn:E; try (apply base_lock_state; [done|by rewrite E]).
    by eapply remove_deadline_ok. }
  set (n1 := match ni_lock_state n with WaitingForSurfaces _ t => remove_timer t n | _ => n end) in *.
  assert (Hc : n1.(ni_confirmed) = n.(ni_confirmed)) by (unfold n1; by destruct (ni_lock_state n)).
  split; [|done]. apply queue_redraw_all_ok. split; [|done].
  change (set_outputs (alter_all (set_os_lock_surface None) (ni_output_state n1)) (set_lock_state Unlocked n1)) with
    (set_outputs (alter_all (set_os_lock_surface None) (ni_output_state (set_lock_state Unlocked n1)))
       (set_lock_state Unlocked n1)).
  apply base_all; [exact H|]. intros s. by split.
Qed.

Lemma lock_event_ok b c alive n : niri_ok b n → niri_ok b (lock c alive n) ∧ answered n (lock c alive n).
Proof.
  intros [Hb Hl]. unfold lock. destruct (ni_lock_state n) as [|c' t|c'|c'] eqn:E; try (split; [done|by left]).
  - destruct (ni_output_state n) as [|p l] eqn:El.
    + apply confirm_ok; [done|by rewrite E|by apply outputs_nil].
    + cbn [insert_timer]. split; [|by left]. split; [|done]. destruct Hb as [H1 H2 H3 H4]. split; try done.
      cbn. eapply timers_add_deadline; [exact H2|]. by rewrite E.
  - destruct alive; [split; [done|by left]|]. apply confirm_ok; [done|by rewrite E|].
    unfold lock_ok in Hl. by rewrite E in Hl.
Qed.

(** ** Rendering *)

(** What rendering one output leaves alone. *)
Record rendered (o : N) (s : OutputState) (n : Niri) (res : RenderResult) (n' : Niri) : Prop := {
  rn_others o' : o ≠ o' → output_of n' o' = output_of n o';
  rn_keys : output_keys n'.(ni_output_state) = output_keys n.(ni_output_state);
  rn_lock : n'.(ni_lock_state) = n.(ni_lock_state);
  rn_confirmed : n'.(ni_confirmed) = n.(ni_confirmed);
  rn_active : n'.(ni_monitors_active) = n.(ni_monitors_active);
  rn_output : ∃ s', output_of n' o = Some s' ∧ s'.(os_lock_render_state) = s.(os_lock_render_state) ∧
    if decide (res = ResSkipped) then is_waiting s'.(os_redraw_state) = false
    else is_queued s'.(os_redraw_state) = false ∧ s'.(os_redraw_state) ≠ WaitingForVBlank true
}.

(** One output changes, and with it the timers. *)
Lemma base_change b f o n s timers next :
  base_ok b n → output_of n o = Some s →
  timers_ok (with_tokens o (Some (tokens (f s))) (tokens_of n)) (deadline_of n.(ni_lock_state)) timers next →
  clock_ok (f s).(os_frame_clock) → backend_ok b (f s).(os_redraw_state) →
  base_ok b (on_output f o (MkNiri n.(ni_output_state) n.(ni_lock_state) n.(ni_monitors_active) timers next
                              n.(ni_confirmed))).
Proof.
  intros [H1 H2 H3 H4] Ho Ht Hc Hb. split.
  - change (NoDup (output_keys (alter_output f o n.(ni_output_state)))). by rewrite alter_output_keys.
  - eapply timers_ext; [exact Ht|]. intros o'.
    by apply (tokens_with f o (MkNiri (ni_output_state n) (ni_lock_state n) (ni_monitors_active n) timers next (ni_confirmed n))).
  - apply (each_on (λ s, clock_ok s.(os_frame_clock)) f o (MkNiri _ _ _ _ _ _)); [done|].
    intros s' Hs' _. change (output_of n o = Some s') in Hs'. by simplify_eq.
  - apply (each_on (λ s, backend_ok b s.(os_redraw_state)) f o (MkNiri _ _ _ _ _ _)); [done|].
    intros s' Hs' _. change (output_of n o = Some s') in Hs'. by simplify_eq.
Qed.

Lemma rendered_on f o s n timers next res :
  output_of n o = Some s → (f s).(os_lock_render_state) = s.(os_lock_render_state) →
  (if decide (res = ResSkipped) then is_waiting (f s).(os_redraw_state) = false
   else is_queued (f s).(os_redraw_state) = false ∧ (f s).(os_redraw_state) ≠ WaitingForVBlank true) →
  rendered o s n res (on_output f o (MkNiri n.(ni_output_state) n.(ni_lock_state) n.(ni_monitors_active)
                                       timers next n.(ni_confirmed))).
Proof.
  intros Ho Hl Hr. split; try done.
  - intros o' Hne. rewrite output_of_on. by destruct (N.eqb_spec o o').
  - apply alter_output_keys.
  - exists (f s). split; [by apply output_of_on_eq|done].
Qed.

(** The tokens of an output that does not wait for a vblank. *)
Lemma not_throttled b n o s :
  base_ok b n → output_of n o = Some s → is_waiting s.(os_redraw_state) = false →
  s.(os_vblank_throttle).(vt_throttle_timer_token) = None.
Proof.
  intros [_ Ht _ _] Ho Hw. destruct (vt_throttle_timer_token _) as [t|] eqn:E; [|done].
  assert (Htok : tokens_of n o = Some (tokens s)) by (unfold tokens_of; by rewrite Ho).
  pose proof (tm_waiting _ _ _ _ Ht o (tokens s) t Htok E) as H. cbn in H. congruence.
Qed.

Lemma queue_timer_runs n o s target now res :
  base_ok Tty n → output_of n o = Some s → is_queued s.(os_redraw_state) = true →
  runs (queue_estimated_vblank_timer o target now n) (λ n', base_ok Tty n' ∧ rendered o s n res n').
Proof.
  intros Hb Ho Hq. unfold queue_estimated_vblank_timer. rewrite Ho. cbn [mbind option_bind].
  assert (Hw : is_waiting s.(os_redraw_state) = false) by (by destruct (os_redraw_state s)).
  pose proof (not_throttled Tty n o s Hb Ho Hw) as Hth. pose proof Hb as [H1 H2 H3 H4].
  assert (Htok : tokens_of n o = Some (tokens s)) by (unfold tokens_of; by rewrite Ho).
  destruct (os_redraw_state s) as [| | |t|t] eqn:Er; try done; cbn [insert_timer]; apply runs_ret; split.
  - apply (base_change Tty _ o n s); [done|done| |exact (H3 o s Ho)|done].
    unfold tokens at 1. cbn. rewrite Hth.
    eapply timers_add_estimated; [exact H2|exact Htok|by cbn; rewrite Er|done].
  - apply rendered_on; [done|done|]. by case_decide; [|split].
  - apply base_on; [done|]. intros s' Hs'. simplify_eq. split; [unfold tokens; cbn; by rewrite Er|done|].
    intros []; rewrite Er; cbn; naive_solver.
  - apply (rendered_on _ o s n n.(ni_timers) n.(ni_next_token)); [done|done|]. by case_decide; [|split].
Qed.

Lemma render_runs b n o s env target :
  base_ok b n → output_of n o = Some s → is_queued s.(os_redraw_state) = true →
  runs (render b o env target n) (λ r, base_ok b (fst r) ∧ rendered o s n (snd r) (fst r) ∧
    (snd r = ResSkipped → b = Tty ∧ (env.(re_outcome) = OutcomeNoDevice ∨ env.(re_outcome) = OutcomeFailed))).
Proof.
  intros Hb Ho Hq.
  assert (Hw : is_waiting s.(os_redraw_state) = false) by (by destruct (os_redraw_state s)).
  pose proof (not_throttled b n o s Hb Ho Hw) as Hth. pose proof Hb as [H1 H2 H3 H4].
  assert (Htok : tokens_of n o = Some (tokens s)) by (unfold tokens_of; by rewrite Ho).
  assert (Hdirect : ∀ res, b ≠ Tty → res ≠ ResSkipped → runs (direct_render o res n)
    (λ r, base_ok b (fst r) ∧ rendered o s n (snd r) (fst r) ∧ (snd r = ResSkipped → b = Tty ∧ (env.(re_outcome) = OutcomeNoDevice ∨ env.(re_outcome) = OutcomeFailed)))).
  { intros res Hne Hres. unfold direct_render. rewrite Ho. cbn [mbind option_bind].
    assert (Hs : s.(os_redraw_state) = RedrawQueued).
    { specialize (H4 o s Ho). destruct b; cbn in H4; [done|..]; destruct H4 as [E|E]; rewrite E in *; done. }
    rewrite Hs. apply runs_ret. cbn [fst snd]. split_and!; [| |done].
    - apply base_on; [done|]. intros s' Hs'. simplify_eq. split; [unfold tokens; cbn; by rewrite Hs|done|].
      intros []; cbn; auto.
    - apply (rendered_on _ o s n n.(ni_timers) n.(ni_next_token)); [done|done|]. by rewrite decide_False. }
  destruct b; cbn [render]; [|apply Hdirect; [done|by destruct (re_outcome env)]|by apply Hdirect].
  unfold tty_render. destruct (re_outcome env) eqn:Eo.
  - apply runs_ret. cbn. split_and!; [done| |auto]. split; try done. exists s. by rewrite decide_True.
  - eapply runs_bind; [by apply (queue_timer_runs n o s _ _ ResSkipped)|]. intros n' [K1 K2]. apply runs_ret. auto.
  - eapply runs_bind; [by apply (queue_timer_runs n o s _ _ ResNoDamage)|]. intros n' [K1 K2]. by apply runs_ret.
  - rewrite Ho. cbn [mbind option_bind]. destruct (os_redraw_state s) as [| | |t|t] eqn:Er; try done;
      cbn [mbind option_bind]; apply runs_ret; cbn [fst snd]; (split_and!; [| |done]).
    + apply (base_change Tty _ o n s n.(ni_timers) n.(ni_next_token)); [done|done| |exact (H3 o s Ho)|done].
      unfold tokens at 1. cbn. rewrite Hth.
      eapply timers_idle; [exact H2|exact Htok|by cbn; rewrite Er|done].
    + by apply (rendered_on _ o s n n.(ni_timers) n.(ni_next_token)).
    + apply (base_change Tty _ o n s); [done|done| |exact (H3 o s Ho)|done].
      unfold tokens at 1. cbn. rewrite Hth.
      eapply timers_drop_estimated; [exact H2|exact Htok|by cbn; rewrite Er|done].
    + by apply (rendered_on _ o s n).
Qed.

(** ** After rendering *)

(** Whether the frame counts as shown. *)
Definition shown (res : RenderResult) (active : bool) : bool :=
  negb (bool_decide (res = ResSkipped)) || negb active.

Lemma skipped_harmless s :
  is_waiting s.(os_redraw_state) = false → harmless s (set_os_redraw_state (skipped_state s.(os_redraw_state)) s).
Proof.
  intros Hw. destruct s as [? r ? ? ? ? ? ?]. cbn [os_redraw_state] in *. split; [|done|].
  - by destruct r.
  - intros []; destruct r; cbn; naive_solver.
Qed.

(** The output once the frame is finished. *)
Definition finish_output (res : RenderResult) (active locked : bool) (s : OutputState) : OutputState :=
  let s := if decide (res = ResSkipped)
           then set_os_redraw_state (skipped_state s.(os_redraw_state)) s else s in
  if shown res active then set_os_lock_render_state (if locked then RenderLocked else RenderUnlocked) s else s.

Lemma on_output_compose f g o n : on_output f o (on_output g o n) = on_output (λ s, f (g s)) o n.
Proof.
  unfold on_output, set_outputs. cbn. f_equal. unfold alter_output. rewrite <- list_fmap_compose.
  apply list_fmap_ext. intros i [k s] _. cbn. destruct (N.eqb_spec k o) as [->|]; cbn.
  - by rewrite N.eqb_refl.
  - by destruct (N.eqb_spec k o).
Qed.

Lemma on_output_id o n : on_output (λ s, s) o n = n.
Proof.
  destruct n as [l ? ? ? ? ?]. unfold on_output, set_outputs. cbn. f_equal. unfold alter_output.
  rewrite <- (list_fmap_id l) at 2. apply list_fmap_ext. intros i [k s] _. cbn. by destruct (k =? o).
Qed.

Lemma finish_redraw_eq o res n :
  finish_redraw o res n =
    (let n' := on_output (finish_output res n.(ni_monitors_active) (is_locked n)) o n in
     match n.(ni_lock_state) with
     | Locking confirmation =>
         s ← output_of n' o;
         Some (if decide (s.(os_lock_render_state) = RenderUnlocked) then unlock n' else check_locked confirmation n')
     | _ => Some n'
     end).
Proof.
  unfold finish_redraw, finish_output. fold (shown res n.(ni_monitors_active)). cbv zeta.
  destruct (decide (res = ResSkipped)); cbn [ni_monitors_active on_output set_outputs].
  all: fold (shown res n.(ni_monitors_active)); destruct (shown res (ni_monitors_active n)) eqn:Es.
  all: rewrite ?on_output_compose, ?on_output_id; done.
Qed.
