(* ===== verification/NiriRedrawLoop.v ===== *)
(** * Redrawing and locking: redraws come to an end, and decide whether the session is locked *)
From stdpp Require Import gmap.
From S2P Require Import Prelude Float64 Duration FrameClock NiriRedraw NiriRedrawOps NiriRedrawInv.

Local Open Scope N_scope.

(** ** One redraw *)

(** The lock state stays as it is, unless the session is being locked. *)
Definition decides (n n' : Niri) : Prop :=
  n'.(ni_lock_state) = n.(ni_lock_state) ∧ n'.(ni_confirmed) = n.(ni_confirmed) ∨
  ∃ c, n.(ni_lock_state) = Locking c ∧
    (n'.(ni_lock_state) = Unlocked ∧ n'.(ni_confirmed) = n.(ni_confirmed) ∨
     n'.(ni_lock_state) = Locked c ∧ n'.(ni_confirmed) = n.(ni_confirmed) ++ [c]).

(** Locking was given up. *)
Definition gave_up (n n' : Niri) : Prop :=
  (∃ c, n.(ni_lock_state) = Locking c) ∧ n'.(ni_lock_state) = Unlocked.

(** The outcome of one redraw of the output [o]. *)
Record redrawn (b : Backend) (failed : Prop) (o : N) (n n' : Niri) : Prop := {
  rd_ok : niri_ok b n';
  rd_keys : output_keys n'.(ni_output_state) = output_keys n.(ni_output_state);
  rd_active : n'.(ni_monitors_active) = n.(ni_monitors_active);
  rd_decides : decides n n';
  rd_shown : gave_up n n' → failed;
  rd_others o' : o ≠ o' → gave_up n n' ∨ output_of n' o' = output_of n o';
  rd_done : gave_up n n' ∨
    ∃ s', output_of n' o = Some s' ∧ is_queued s'.(os_redraw_state) = false ∧
      s'.(os_redraw_state) ≠ WaitingForVBlank true
}.

Lemma gave_up_dec n n' : gave_up n n' ∨ ¬ gave_up n n'.
Proof.
  unfold gave_up. destruct (ni_lock_state n), (ni_lock_state n'); try (right; by intros [[? ?] ?]). left. by split; [eexists|].
Qed.

Lemma decides_refl n : decides n n.
Proof. by left. Qed.

Lemma decides_trans n1 n2 n3 : decides n1 n2 → decides n2 n3 → decides n1 n3.
Proof.
  intros [[E1 E2]|(c & E & H)] [[F1 F2]|(c' & F & H')].
  - left. by rewrite F1, F2.
  - right. exists c'. by rewrite <- E1, <- E2.
  - right. exists c. by rewrite F1, F2.
  - exfalso. destruct H as [[H _]|[H _]]; by rewrite H in F.
Qed.

Lemma decides_answered n n' : decides n n' → answered n n'.
Proof. intros [[_ H]|(c & _ & [[_ H]|[H1 H2]])]; [by left|by left|right; by exists c]. Qed.

Lemma gave_up_trans n1 n2 n3 : decides n1 n2 → decides n2 n3 → gave_up n1 n3 → gave_up n1 n2 ∨ gave_up n2 n3.
Proof.
  intros [[E1 _]|(c & E & H)] Hd [[c' Hc] H3].
  - right. split; [|done]. exists c'. by rewrite E1.
  - destruct H as [[H _]|[H _]].
    + left. split; [by exists c|done].
    + exfalso. destruct Hd as [[F _]|(c2 & F & _)]; congruence.
Qed.

Lemma finish_harmless res active locked s :
  (res = ResSkipped → is_waiting s.(os_redraw_state) = false) → harmless s (finish_output res active locked s).
Proof.
  intros Hw. unfold finish_output.
  assert (H : harmless s (if decide (res = ResSkipped)
             then set_os_redraw_state (skipped_state s.(os_redraw_state)) s else s)).
  { case_decide; [by apply skipped_harmless, Hw|by split]. }
  destruct H as [H1 H2 H3]. destruct (shown res active); by split.
Qed.

(** The redraw state of the output after the frame. *)
Lemma finish_settled res active locked s :
  (if decide (res = ResSkipped) then is_waiting s.(os_redraw_state) = false
   else is_queued s.(os_redraw_state) = false ∧ s.(os_redraw_state) ≠ WaitingForVBlank true) →
  is_queued (finish_output res active locked s).(os_redraw_state) = false ∧
  (finish_output res active locked s).(os_redraw_state) ≠ WaitingForVBlank true.
Proof.
  intros H. unfold finish_output. destruct (shown res active); case_decide; try exact H; cbn;
    by destruct (os_redraw_state s).
Qed.

Lemma finish_lock_state res active locked s :
  (finish_output res active locked s).(os_lock_render_state) =
    if shown res active then (if locked then RenderLocked else RenderUnlocked) else s.(os_lock_render_state).
Proof. unfold finish_output. destruct (shown res active); [done|]. by case_decide. Qed.

Lemma finished_lock_ok c s o n0 n1 s1 :
  lock_ok n0 → output_of n0 o = Some s → n0.(ni_lock_state) = Locked c →
  (∀ o', o ≠ o' → output_of n1 o' = output_of n0 o') → output_of n1 o = Some s1 →
  s1.(os_lock_render_state) = RenderLocked ∨ s1.(os_lock_render_state) = s.(os_lock_render_state) →
  each (λ s, s.(os_lock_render_state) = RenderLocked) n1.
Proof.
  unfold lock_ok. intros Hl Ho El Hoth Ho1 Hs1 o' s'. rewrite El in Hl.
  destruct (N.eqb_spec o o') as [<-|Hne].
  - rewrite Ho1. intros [= <-]. destruct Hs1 as [H|H]; [done|]. rewrite H. by eapply Hl.
  - rewrite (Hoth o' Hne). apply Hl.
Qed.

Lemma locking_others s o n0 n1 s1 c :
  lock_ok n0 → output_of n0 o = Some s → n0.(ni_lock_state) = Locking c →
  (∀ o', o ≠ o' → output_of n1 o' = output_of n0 o') → output_of n1 o = Some s1 →
  s1.(os_lock_render_state) = RenderLocked →
  each (λ s, s.(os_lock_render_state) = RenderUnlocked → will_redraw s.(os_redraw_state) = true) n1.
Proof.
  unfold lock_ok. intros Hl Ho El Hoth Ho1 Hs1 o' s'. rewrite El in Hl. destruct Hl as [_ Hl].
  destruct (N.eqb_spec o o') as [<-|Hne].
  - rewrite Ho1. intros [= <-]. by rewrite Hs1.
  - rewrite (Hoth o' Hne). apply Hl.
Qed.

Lemma unlock_gives_up n : output_keys (unlock n).(ni_output_state) = output_keys n.(ni_output_state) ∧
  (unlock n).(ni_monitors_active) = n.(ni_monitors_active).
Proof.
  unfold unlock, queue_redraw_all. cbn [set_outputs ni_output_state]. rewrite !alter_all_keys.
  by destruct (ni_lock_state n).
Qed.

Lemma finish_redraw_runs b o s n0 n res :
  niri_ok b n0 → output_of n0 o = Some s → rendered o s n0 res n → base_ok b n →
  runs (finish_redraw o res n) (redrawn b (shown res n.(ni_monitors_active) = false) o n0).
Proof.
  intros [Hb0 Hl0] Ho [Ro Rk Rl Rc Ra (s' & Hs' & Hls & Hq)] Hb. rewrite finish_redraw_eq. cbv zeta.
  set (f := finish_output res n.(ni_monitors_active) (is_locked n)).
  pose proof (finish_settled res n.(ni_monitors_active) (is_locked n) s' Hq) as Hset. fold f in Hset.
  pose proof (finish_lock_state res n.(ni_monitors_active) (is_locked n) s') as Hlock. fold f in Hlock.
  assert (Hb1 : base_ok b (on_output f o n)).
  { apply base_on; [done|]. intros x Hx. rewrite Hs' in Hx. injection Hx as <-. apply finish_harmless.
    intros ->. by rewrite decide_True in Hq. }
  assert (Ho1 : output_of (on_output f o n) o = Some (f s')) by by apply output_of_on_eq.
  assert (Hoth : ∀ o', o ≠ o' → output_of (on_output f o n) o' = output_of n0 o').
  { intros o' Hne. rewrite output_of_on. destruct (N.eqb_spec o o'); [done|]. by apply Ro. }
  assert (Hk : output_keys (on_output f o n).(ni_output_state) = output_keys n0.(ni_output_state)).
  { rewrite <- Rk. apply alter_output_keys. }
  change (ni_lock_state (on_output f o n)) with (ni_lock_state n).
  assert (Hsame : niri_ok b (on_output f o n) →
    redrawn b (shown res n.(ni_monitors_active) = false) o n0 (on_output f o n)).
  { intros Hok. split; [done|done|done|left; by rewrite <- Rl, <- Rc| |by right; apply Hoth|right; by exists (f s')].
    intros [[c E] H]. change (ni_lock_state n = Unlocked) in H. congruence. }
  clearbody f. destruct (ni_lock_state n) as [|c t|c|c] eqn:El.
  - apply runs_ret, Hsame. split; [done|]. unfold lock_ok. cbn. by rewrite El.
  - apply runs_ret, Hsame. split; [done|]. unfold lock_ok. cbn. by rewrite El.
  - rewrite Ho1. cbn [mbind option_bind]. apply runs_ret.
    destruct (decide (os_lock_render_state (f s') = RenderUnlocked)) as [Hu|Hu].
    + destruct (unlock_ok b _ Hb1) as (K1 & K2 & K3). destruct (unlock_gives_up (on_output f o n)) as [K4 K5].
      assert (Hg : gave_up n0 (unlock (on_output f o n))) by (split; [exists c; congruence|done]).
      split; [done|by rewrite K4|rewrite K5; exact Ra| | |by left|by left].
      * right. exists c. split; [congruence|left]. by rewrite K3, K2.
      * intros _. destruct (shown res (ni_monitors_active n)) eqn:Esh; [|done]. rewrite Hlock in Hu.
        unfold is_locked in Hu. by rewrite El in Hu.
    + assert (Hlk : (f s').(os_lock_render_state) = RenderLocked) by (by destruct (os_lock_render_state (f s'))).
      destruct (check_locked_ok b c (on_output f o n)) as [K1 K2]; [done|exact El|by eapply locking_others|].
      unfold check_locked in *. destruct (all_locked _); [|by apply Hsame].
      split; [done|done|done| | |by right; apply Hoth|right; by exists (f s')].
      * right. exists c. split; [congruence|right]. cbn. by rewrite Rc.
      * intros [_ H]. done.
  - apply runs_ret, Hsame. split; [done|]. unfold lock_ok. change (ni_lock_state (on_output f o n)) with (ni_lock_state n).
    rewrite El. eapply finished_lock_ok; [exact Hl0|exact Ho|symmetry; exact Rl|exact Hoth|exact Ho1|].
    rewrite Hlock. unfold is_locked. rewrite El. destruct (shown _ _); [by left|by right].
Qed.

(** The outcome of a frame that is not shown although the monitors are on. *)
Definition render_failed (b : Backend) (env : RenderEnv) : Prop :=
  b = Tty ∧ (env.(re_outcome) = OutcomeNoDevice ∨ env.(re_outcome) = OutcomeFailed).

Lemma next_presentation_runs clock now :
  clock_ok clock → time_ok now → ∃ t, next_presentation_time clock now = Some t.
Proof.
  intros Hok Hn. destruct (fc_refresh_interval_ns clock) as [r|] eqn:Er, (fc_last_presentation_time clock) as [l|] eqn:El.
  - eexists. by eapply next_presentation_time_eq.
  - exists now. unfold next_presentation_time. by rewrite Er, El.
  - exists now. unfold next_presentation_time. by rewrite Er.
  - exists now. unfold next_presentation_time. by rewrite Er.
Qed.

Lemma redrawn_weaken b (P Q : Prop) o n n' : (P → Q) → redrawn b P o n n' → redrawn b Q o n n'.
Proof. intros HPQ [H1 H2 H3 H4 H5 H6 H7]. split; auto. Qed.

Lemma rendered_after f o s n res n' :
  output_of n o = Some s → (f s).(os_lock_render_state) = s.(os_lock_render_state) →
  rendered o (f s) (on_output f o n) res n' → rendered o s n res n'.
Proof.
  intros Ho Hf [R1 R2 R3 R4 R5 (s' & K1 & K2 & K3)]. split; try done.
  - intros o' Hne. rewrite (R1 o' Hne), output_of_on. by destruct (N.eqb_spec o o').
  - rewrite R2. apply alter_output_keys.
  - exists s'. by rewrite K2, Hf.
Qed.

Lemma redraw_runs b o s env n :
  niri_ok b n → output_of n o = Some s → is_queued s.(os_redraw_state) = true → time_ok env.(re_now) →
  runs (redraw b o env n) (redrawn b (n.(ni_monitors_active) = true ∧ render_failed b env) o n).
Proof.
  intros Hok Ho Hq Ht. unfold redraw. rewrite Ho. cbn [mbind option_bind]. rewrite Hq.
  destruct (next_presentation_runs s.(os_frame_clock) env.(re_now)) as [target Etarget];
    [by apply Hok in Ho|done|]. rewrite Etarget. cbn [mbind option_bind].
  destruct (ni_monitors_active n) eqn:Ea.
  - set (f := set_os_unfinished (re_unfinished env)).
    assert (Hok1 : niri_ok b (on_output f o n)) by (apply ok_on; [done|]; intros s' _; by split).
    assert (Ho1 : output_of (on_output f o n) o = Some (f s)) by by apply output_of_on_eq.
    eapply runs_bind; [by apply (render_runs b (on_output f o n) o (f s)); [apply Hok1|..]|].
    intros [n1 res] (K1 & K2 & K3). cbn [fst snd] in *.
    eapply runs_weaken; [by eapply finish_redraw_runs; [exact Hok|exact Ho|eapply (rendered_after f)|]|].
    intros n2. apply redrawn_weaken. rewrite (rn_active _ _ _ _ _ K2). change (ni_monitors_active (on_output f o n)) with (ni_monitors_active n).
    rewrite Ea. unfold shown. intros H. split; [done|]. apply K3. destruct (bool_decide_reflect (res = ResSkipped)); [done|]. done.
  - eapply runs_weaken; [eapply (finish_redraw_runs b o s n n ResSkipped); [exact Hok|exact Ho| |apply Hok]|].
    + split; try done. exists s. rewrite decide_True by done. split_and!; [done..|]. by destruct (os_redraw_state s).
    + intros n2. apply redrawn_weaken. rewrite Ea. done.
Qed.

(** ** The loop *)

(** The outputs whose redraw is queued, and once more all of them while locking may be given up. *)
Definition queued_at (n : Niri) (o : N) : bool :=
  match output_of n o with Some s => is_queued s.(os_redraw_state) | None => false end.

Definition queued_count (n : Niri) : nat :=
  length (List.filter (queued_at n) (output_keys n.(ni_output_state))).

Definition is_locking (n : Niri) : bool := match n.(ni_lock_state) with Locking _ => true | _ => false end.

Definition redraws_left (n : Niri) : nat :=
  (queued_count n + if is_locking n then length n.(ni_output_state) else 0)%nat.

Lemma filter_one_less {A} (P Q : A → bool) (x : A) l :
  NoDup l → x ∈ l → P x = true → Q x = false → (∀ y, x ≠ y → Q y = P y) →
  length (List.filter P l) = S (length (List.filter Q l)).
Proof.
  intros Hnd Hx HP HQ Hoth.
  assert (Heq : ∀ k, x ∉ k → List.filter P k = List.filter Q k).
  { induction k as [|y k IH]; [done|]. intros [Hy Hk]%not_elem_of_cons. cbn. by rewrite (Hoth y), IH. }
  induction Hnd as [|y l Hy Hnd IH]; [by apply not_elem_of_nil in Hx|].
  apply elem_of_cons in Hx as [<-|Hx]; cbn.
  - by rewrite HP, HQ, (Heq l Hy).
  - assert (Hne : x ≠ y) by (by intros ->). rewrite (Hoth y Hne). destruct (P y); cbn; by rewrite (IH Hx).
Qed.

Lemma queued_count_le n : (queued_count n ≤ length n.(ni_output_state))%nat.
Proof.
  unfold queued_count, output_keys. rewrite <- (length_fmap fst). apply List.filter_length_le.
Qed.

Lemma same_length n n' :
  output_keys n'.(ni_output_state) = output_keys n.(ni_output_state) →
  length n'.(ni_output_state) = length n.(ni_output_state).
Proof. unfold output_keys. intros H. by rewrite <- !(length_fmap fst), H. Qed.

Lemma get_output_key o l : is_Some (get_output o l) → o ∈ output_keys l.
Proof. intros [s Hs%get_output_elem]. unfold output_keys. apply list_elem_of_fmap. by exists (o, s). Qed.

Lemma redraws_decrease b P o s n n' :
  niri_ok b n → output_of n o = Some s → is_queued s.(os_redraw_state) = true → redrawn b P o n n' →
  (redraws_left n' < redraws_left n)%nat.
Proof.
  intros Hok Ho Hq [_ Hk _ Hd _ Hoth Hdone]. unfold redraws_left. rewrite (same_length _ _ Hk).
  assert (Hin : o ∈ output_keys n.(ni_output_state)) by (apply get_output_key; by exists s).
  assert (Hqo : queued_at n o = true) by (unfold queued_at; by rewrite Ho).
  destruct (gave_up_dec n n') as [[[c Hc] Hu]|Hg].
  - unfold is_locking. rewrite Hc, Hu. pose proof (queued_count_le n') as Hle. rewrite (same_length _ _ Hk) in Hle.
    assert (0 < queued_count n)%nat; [|lia]. unfold queued_count.
    rewrite (filter_one_less _ (λ o', queued_at n o' && negb (o =? o')) o); [lia|apply Hok|done|done| |].
    + by rewrite N.eqb_refl, andb_false_r.
    + intros y Hy. destruct (N.eqb_spec o y); [done|]. by rewrite andb_true_r.
  - destruct Hdone as [|(s' & Hs' & Hns & _)]; [done|].
    assert (Hle : queued_count n = S (queued_count n')).
    { unfold queued_count. rewrite Hk. apply (filter_one_less _ _ o); [apply Hok|done|done| |].
      - unfold queued_at. by rewrite Hs'.
      - intros y Hy. unfold queued_at. by destruct (Hoth y Hy) as [| ->]. }
    assert (is_locking n' = true → is_locking n = true); [|destruct (is_locking n'), (is_locking n); naive_solver lia].
    unfold is_locking. destruct Hd as [[-> _]|(c & -> & _)]; [done|done].
Qed.

Lemma find_queued_some l o :
  NoDup (output_keys l) → find_queued l = Some o →
  ∃ s, get_output o l = Some s ∧ is_queued s.(os_redraw_state) = true.
Proof.
  intros Hnd H. assert (∃ s, (o, s) ∈ l ∧ is_queued s.(os_redraw_state) = true) as (s & Hin & Hs).
  { clear Hnd. induction l as [|[k s] l IH]; cbn in H; [done|].
    destruct (is_queued (os_redraw_state s)) eqn:E.
    - injection H as <-. exists s. split; [left|done].
    - destruct (IH H) as (s' & Hin & Hs'). exists s'. split; [by right|done]. }
  exists s. split; [by apply elem_get_output|done].
Qed.

(** No output waits for a vblank with a redraw to follow. *)
Definition settled (n : Niri) : Prop := each (λ s, s.(os_redraw_state) ≠ WaitingForVBlank true) n.

Lemma find_queued_none n o s :
  find_queued n.(ni_output_state) = None → output_of n o = Some s → is_queued s.(os_redraw_state) = false.
Proof.
  unfold output_of. induction (ni_output_state n) as [|[k s'] l IH]; cbn; [done|].
  destruct (is_queued (os_redraw_state s')) eqn:E; [done|]. intros H. destruct (N.eqb_spec k o); [|auto].
  by intros [= <-].
Qed.

(** The outcome of redrawing all outputs that are queued. *)
Record all_redrawn (b : Backend) (failed : Prop) (n n' : Niri) : Prop := {
  ar_ok : niri_ok b n';
  ar_none : find_queued n'.(ni_output_state) = None;
  ar_keys : output_keys n'.(ni_output_state) = output_keys n.(ni_output_state);
  ar_active : n'.(ni_monitors_active) = n.(ni_monitors_active);
  ar_decides : decides n n';
  ar_shown : gave_up n n' → failed;
  ar_settled : settled n → gave_up n n' ∨ settled n'
}.

Lemma redrawn_settled b P o n n' : redrawn b P o n n' → settled n → gave_up n n' ∨ settled n'.
Proof.
  intros [_ _ _ _ _ Hoth Hdone] Hs. destruct (gave_up_dec n n') as [Hg|Hg]; [by left|right].
  destruct Hdone as [|(s' & Hs' & _ & Hne)]; [done|]. intros o' x. destruct (N.eqb_spec o o') as [<-|Ho].
  - rewrite Hs'. by intros [= <-].
  - destruct (Hoth o' Ho) as [| ->]; [done|]. apply Hs.
Qed.

Lemma redraws_run fuel b envs n :
  niri_ok b n → (∀ k, time_ok (envs k).(re_now)) → (redraws_left n ≤ fuel)%nat →
  runs (redraw_queued_outputs fuel b envs n)
    (all_redrawn b (n.(ni_monitors_active) = true ∧ ∃ k, render_failed b (envs k)) n).
Proof.
  revert envs n. induction fuel as [|fuel IH]; intros envs n Hok Ht Hf; cbn [redraw_queued_outputs].
  all: destruct (find_queued (ni_output_state n)) as [o|] eqn:Eq;
    [|apply runs_ret; split; [done|done|done|done|apply decides_refl|intros [[c Hc] H]; congruence|by right]].
  all: destruct (find_queued_some _ _ ltac:(apply Hok) Eq) as (s & Ho & Hs); change (output_of n o = Some s) in Ho.
  - exfalso. destruct (redraw_runs b o s (envs 0%nat) n Hok Ho Hs (Ht _)) as (n' & _ & Hr).
    pose proof (redraws_decrease _ _ _ _ _ _ Hok Ho Hs Hr). lia.
  - eapply runs_bind; [by apply (redraw_runs b o s)|]. intros n1 Hr.
    pose proof (redraws_decrease _ _ _ _ _ _ Hok Ho Hs Hr) as Hlt. pose proof (redrawn_settled _ _ _ _ _ Hr) as Hset.
    destruct Hr as [K1 K2 K3 K4 K5 _ _].
    eapply runs_weaken; [apply (IH (λ k, envs (S k)) n1); [done|intros k; apply Ht|lia]|].
    intros n2 [A1 A2 A3 A4 A5 A6 A7].
    assert (Hd : decides n n2) by by eapply decides_trans.
    assert (Hg : gave_up n n1 → decides n1 n2 → gave_up n n2).
    { intros [Hc Hu] [[E _]|(c & E & _)]; [|congruence]. split; [done|]. by rewrite E. }
    assert (Hg' : gave_up n1 n2 → gave_up n n2).
    { intros [[c E] Hu]. split; [|done]. destruct K4 as [[E' _]|(c' & E' & _)]; [exists c; congruence|by exists c']. }
    split; [done|done|by rewrite A3|by rewrite A4|done| |].
    + intros [Hx|Hx]%(gave_up_trans n n1 n2); [|destruct (A6 Hx) as [H1 [k H2]]|done..].
      * destruct (K5 Hx) as [H1 H2]. split; [done|by exists 0%nat].
      * split; [by rewrite <- K3|by exists (S k)].
    + intros [Hx|Hx]%Hset; [left; auto|]. destruct (A7 Hx) as [Hy|Hy]; [left; auto|by right].
Qed.

(** Fuel for [redraw_queued_outputs]. *)
Definition redraw_fuel (n : Niri) : nat := (2 * length n.(ni_output_state))%nat.

Lemma redraw_fuel_enough n : (redraws_left n ≤ redraw_fuel n)%nat.
Proof.
  unfold redraws_left, redraw_fuel. pose proof (queued_count_le n). destruct (is_locking n); lia.
Qed.
