(* ===== verification/NiriRedrawEvents.v ===== *)
(** * Redrawing and locking: vblanks, timers, outputs, and the events of the event loop *)
From stdpp Require Import gmap.
From S2P Require Import Prelude Float64 Duration FrameClock NiriRedraw NiriRedrawOps NiriRedrawInv NiriRedrawLoop.

Local Open Scope N_scope.

(** ** Timers that fire *)
Lemma remove_twice t n : remove_timer t (remove_timer t n) = remove_timer t n.
Proof. destruct n. unfold remove_timer, set_timers. cbn. f_equal. apply delete_delete_eq. Qed.

(** The timer of an output that is gone. *)
Lemma timers_drop_dangling tok deadline timers next t d o q :
  timers_ok tok deadline timers next → timers !! t = Some (d, CbThrottledVBlank o q) → tok o = None →
  timers_ok tok deadline (delete t timers) next.
Proof.
  intros [H1 H2 H3 H4 H5 H6] Hx Ho. split; try done.
  - intros t' x [_ H]%lookup_delete_Some. by eapply H1.
  - intros t' d' cb [_ H]%lookup_delete_Some. by eapply H2.
  - intros o' k t' Hk E. destruct (H3 _ _ _ Hk E) as [d' Hd]. exists d'. rewrite lookup_delete_ne; [done|]. naive_solver.
  - intros o' k t' Hk E. destruct (H4 _ _ _ Hk E) as (d' & q' & Hd). exists d', q'.
    rewrite lookup_delete_ne; [done|]. naive_solver.
  - intros t' (d' & Hd)%H5. exists d'. rewrite lookup_delete_ne; [done|]. naive_solver.
Qed.

Lemma queue_redraw_after f o s n :
  output_of n o = Some s → queue_redraw o (on_output f o n) = Some (on_output (λ s, queue_output (f s)) o n).
Proof.
  intros Ho. unfold queue_redraw. rewrite (output_of_on_eq f o n s Ho). cbn [mbind option_bind].
  by rewrite on_output_compose.
Qed.

(** One output changes together with the timers, and the session stays locked. *)
Lemma ok_change b f o n s timers next :
  niri_ok b n → output_of n o = Some s →
  timers_ok (with_tokens o (Some (tokens (f s))) (tokens_of n)) (deadline_of n.(ni_lock_state)) timers next →
  clock_ok (f s).(os_frame_clock) → backend_ok b (f s).(os_redraw_state) → stays_locked s (f s) →
  niri_ok b (on_output f o (MkNiri n.(ni_output_state) n.(ni_lock_state) n.(ni_monitors_active) timers next
                              n.(ni_confirmed))).
Proof.
  intros [Hb Hl] Ho Ht Hc Hbk Hs. split; [by eapply base_change|].
  apply (lock_on f o (MkNiri _ _ _ _ _ _)); [exact Hl|]. intros s' Hs'. change (output_of n o = Some s') in Hs'.
  by simplify_eq.
Qed.

Lemma estimated_runs b o s n t :
  niri_ok b n → output_of n o = Some s → estimated_token s.(os_redraw_state) = Some t →
  runs (on_estimated_vblank_timer o (remove_timer t n)) (λ n', niri_ok b n' ∧ answered n n').
Proof.
  intros Hok Ho He. unfold on_estimated_vblank_timer. change (output_of (remove_timer t n) o) with (output_of n o).
  rewrite Ho. pose proof Hok as [[H1 H2 H3 H4] _].
  assert (Htok : tokens_of n o = Some (tokens s)) by (unfold tokens_of; by rewrite Ho).
  assert (Hth : s.(os_vblank_throttle).(vt_throttle_timer_token) = None).
  { apply (not_throttled b n o s); [apply Hok|done|]. by destruct (os_redraw_state s). }
  assert (Hb : b = Tty).
  { specialize (H4 o s Ho). destruct b; [done|..]; destruct H4 as [E|E]; by rewrite E in He. }
  assert (Hdrop : timers_ok (with_tokens o (Some (MkTokens None None false)) (tokens_of n)) (deadline_of n.(ni_lock_state))
            (delete t n.(ni_timers)) n.(ni_next_token)) by (eapply timers_drop_estimated; [exact H2|exact Htok|done|done]).
  pose proof (H3 o s Ho) as Hc. subst b.
  destruct (os_redraw_state s) as [| | |t'|t'] eqn:Er; try done; injection He as ->.
  - destruct (os_unfinished_animations_remain s); [rewrite (queue_redraw_after _ o s) by done|]; apply runs_ret.
    all: split; [|by left]; apply (ok_change Tty _ o n s (delete t n.(ni_timers)) n.(ni_next_token)); try done;
      try (unfold tokens; cbn; by rewrite Hth).
    split; [done|by rewrite Er].
  - apply runs_ret. split; [|by left].
    apply (ok_change Tty _ o n s (delete t n.(ni_timers)) n.(ni_next_token)); try done;
      try (unfold tokens; cbn; by rewrite Hth).
Qed.

Lemma with_tokens_twice o k k' tok o' : with_tokens o k (with_tokens o k' tok) o' = with_tokens o k tok o'.
Proof. unfold with_tokens. by destruct (o =? o'). Qed.

(** A vblank that is not throttled, or whose output waits for one. *)
Definition vblank_expected (s : OutputState) (presentation_time now : N) : Prop :=
  is_waiting s.(os_redraw_state) = true ∨
  throttle_remaining s.(os_vblank_throttle) s.(os_frame_clock).(fc_refresh_interval_ns)
    (if presentation_time =? 0 then now else presentation_time) = None.

(** A vblank, while the output does not wait for an estimated one. *)
Lemma vblank_runs b o s n presentation_time now sequence :
  niri_ok b n → output_of n o = Some s → estimated_token s.(os_redraw_state) = None →
  vblank_expected s presentation_time now → time_ok presentation_time →
  runs (on_vblank o presentation_time now sequence n) (λ n', niri_ok b n' ∧ answered n n').
Proof.
  intros Hok Ho He Hx Ht. unfold on_vblank. rewrite Ho. cbv zeta. pose proof Hok as [[H1 H2 H3 H4] _].
  assert (Htok : tokens_of n o = Some (tokens s)) by (unfold tokens_of; by rewrite Ho).
  set (token := vt_throttle_timer_token (os_vblank_throttle s)).
  set (timers1 := match token with Some t => delete t n.(ni_timers) | None => n.(ni_timers) end).
  assert (Hdrop : ∀ w, timers_ok (with_tokens o (Some (MkTokens None None w)) (tokens_of n))
            (deadline_of n.(ni_lock_state)) timers1 n.(ni_next_token)).
  { intros w. unfold timers1. destruct token as [t|] eqn:Et.
    - by eapply timers_drop_throttled.
    - by eapply timers_idle. }
  assert (En : match token with Some t => remove_timer t n | None => n end =
    MkNiri n.(ni_output_state) n.(ni_lock_state) n.(ni_monitors_active) timers1 n.(ni_next_token) n.(ni_confirmed)).
  { unfold timers1. destruct token; [done|by destruct n]. }
  rewrite En. clearbody timers1 token. pose proof (H3 o s Ho) as Hc. 
  pose proof (H4 o s Ho : backend_ok b s.(os_redraw_state)) as Hbk. unfold vblank_expected in Hx.
  destruct (throttle_remaining _ _ _) as [remaining|].
  - cbn [insert_timer]. apply runs_ret. split; [|by left]. apply (ok_change b _ o n s); try done.
    destruct Hx as [Hx|]; [|done].
    eapply timers_ext; [eapply (timers_add_throttled _ _ _ _ (Hdrop true) o); [by rewrite with_tokens_eq|done|done]|].
    intros o'. rewrite with_tokens_twice. unfold tokens. cbn. by rewrite He, Hx.
  - assert (Hb : ∀ x, x = RedrawIdle ∨ x = RedrawQueued → backend_ok b x) by (by destruct b).
    destruct (_ || os_unfinished_animations_remain s) eqn:Eq; [rewrite (queue_redraw_after _ o s) by done|];
      apply runs_ret; (split; [|by left]); apply (ok_change b _ o n s); try done; try apply (Hdrop false);
      try (by apply presented_ok); try (apply Hb; auto).
    split; [done|]. by destruct (os_redraw_state s) as [| |[]| |].
Qed.

Lemma continue_removed n c t :
  n.(ni_lock_state) = WaitingForSurfaces c t → continue_to_locking (remove_timer t n) = continue_to_locking n.
Proof.
  intros E. unfold continue_to_locking. change (ni_lock_state (remove_timer t n)) with (ni_lock_state n).
  rewrite E. by rewrite remove_twice.
Qed.

Lemma vblank_removed n o s t presentation_time now sequence :
  output_of n o = Some s → s.(os_vblank_throttle).(vt_throttle_timer_token) = Some t →
  on_vblank o presentation_time now sequence (remove_timer t n) = on_vblank o presentation_time now sequence n.
Proof.
  intros Ho E. unfold on_vblank. change (output_of (remove_timer t n) o) with (output_of n o).
  rewrite Ho. cbv zeta. by rewrite E, remove_twice.
Qed.

Lemma fire_timer_runs b token now n :
  niri_ok b n → runs (fire_timer token now n) (λ n', niri_ok b n' ∧ answered n n').
Proof.
  intros Hok. unfold fire_timer. destruct (ni_timers n !! token) as [[d cb]|] eqn:Et;
    [|apply runs_ret; split; [done|by left]].
  pose proof Hok as [[H1 H2 H3 H4] Hl]. pose proof (tm_owned _ _ _ _ H2 _ _ _ Et) as Hown.
  destruct cb as [|o|o q]; cbn in Hown.
  - apply runs_ret. destruct (ni_lock_state n) as [|c t| |] eqn:El; try done. injection Hown as ->.
    rewrite (continue_removed n c token El). by apply continue_ok.
  - destruct Hown as (k & Hk & He). unfold tokens_of in Hk. destruct (output_of n o) as [s|] eqn:Ho; [|done].
    injection Hk as <-. by apply (estimated_runs b o s).
  - unfold tokens_of in Hown. destruct (output_of n o) as [s|] eqn:Ho.
    + specialize (Hown _ eq_refl). cbn in Hown. rewrite (vblank_removed n o s) by done.
      assert (Htok : tokens_of n o = Some (tokens s)) by (unfold tokens_of; by rewrite Ho).
      pose proof (tm_waiting _ _ _ _ H2 _ _ _ Htok Hown) as Hw. cbn in Hw.
      apply (vblank_runs b o s); [done|done| |by left|done]. by destruct (os_redraw_state s).
    + unfold on_vblank. change (output_of (remove_timer token n) o) with (output_of n o). rewrite Ho.
      apply runs_ret. split; [|by left]. split; [|exact Hl]. split; try done.
      eapply timers_drop_dangling; [exact H2|exact Et|]. unfold tokens_of.
      change (output_of (remove_timer token n) o) with (output_of n o). by rewrite Ho.
Qed.

(** *** The deadline of a lock *)
Lemma deadline_fires b n c t now :
  niri_ok b n → n.(ni_lock_state) = WaitingForSurfaces c t → fire_timer t now n = Some (continue_to_locking n).
Proof.
  intros [[_ H2 _ _] _] El. destruct (tm_deadline _ _ _ _ H2 t) as [d Hd]; [by rewrite El|].
  unfold fire_timer. rewrite Hd. by rewrite (continue_removed n c t El).
Qed.

Lemma continue_spec n c t :
  n.(ni_lock_state) = WaitingForSurfaces c t →
  ((continue_to_locking n).(ni_confirmed) = n.(ni_confirmed) ++ [c] ∧
     (continue_to_locking n).(ni_lock_state) = Locked c) ∨
  ((continue_to_locking n).(ni_confirmed) = n.(ni_confirmed) ∧
     (continue_to_locking n).(ni_lock_state) = Locking c ∧
     (continue_to_locking n).(ni_monitors_active) = n.(ni_monitors_active) ∧
     ∀ o, output_of (continue_to_locking n) o = queue_output <$> output_of n o).
Proof.
  intros E. unfold continue_to_locking. rewrite E. change (ni_output_state (remove_timer t n)) with (ni_output_state n).
  destruct (ni_output_state n) as [|p l] eqn:El; [by left|right]. split_and!; [done..|]. intros o.
  unfold queue_redraw_all. rewrite output_of_all. by unfold output_of.
Qed.

(** A lock that is not decided by the redraws waits for a vblank. *)
Lemma still_locking b n c n1 n2 P :
  NoDup (output_keys n.(ni_output_state)) → all_redrawn b P n1 n2 → n2.(ni_lock_state) = Locking c →
  (∀ o, output_of n1 o = queue_output <$> output_of n o) →
  (∃ o s, output_of n o = Some s ∧ is_waiting s.(os_redraw_state) = true) ∧
  ∃ o s, output_of n2 o = Some s ∧ s.(os_redraw_state) = WaitingForVBlank true.
Proof.
  intros Hnd [[_ Hl] Hnone _ _ _ _ Hset] El Hout. unfold lock_ok in Hl. rewrite El in Hl.
  destruct Hl as [(o & s & Ho & Hw) _]. pose proof (find_queued_none n2 o s Hnone Ho) as Hq.
  assert (Er : s.(os_redraw_state) = WaitingForVBlank true) by (by destruct (os_redraw_state s) as [| |[]| |]).
  split; [|by exists o, s].
  destruct (decide (Exists (λ p, is_waiting p.2.(os_redraw_state) = true) n.(ni_output_state))) as [Hex|Hex].
  - apply Exists_exists in Hex as ([k s'] & Hin & Hs'). exists k, s'. split; [by apply elem_get_output|done].
  - exfalso. destruct Hset as [[_ Hu]|Hs2]; [|congruence|exact (Hs2 o s Ho Er)].
    intros o' s'. rewrite Hout. destruct (output_of n o') as [s0|] eqn:E0; [|done]. intros [= <-] Ew.
    apply Hex, Exists_exists. exists (o', s0). split; [by apply get_output_elem|].
    cbn in Ew |- *. by destruct (os_redraw_state s0).
Qed.

(** ** Outputs that come and go *)
Lemma output_of_filter o o' n :
  output_of (set_outputs (filter (λ p, p.1 ≠ o) n.(ni_output_state)) n) o' =
    if N.eqb o o' then None else output_of n o'.
Proof. apply get_output_filter. Qed.

Lemma filtered_keys (o : N) (l : list (N * OutputState)) :
  NoDup (output_keys l) → NoDup (output_keys (filter (λ p, p.1 ≠ o) l)).
Proof.
  unfold output_keys. induction l as [|[k s] l IH]; [done|]. rewrite fmap_cons. intros [Hk Hnd]%NoDup_cons.
  rewrite filter_cons. destruct (decide _); [rewrite fmap_cons|auto]. apply NoDup_cons. split; [|auto].
  intros (p & E & [_ Hp]%list_elem_of_filter)%list_elem_of_fmap. apply Hk, list_elem_of_fmap. by exists p.
Qed.

Lemma each_without P o n : each P n → each P (set_outputs (filter (λ p, p.1 ≠ o) n.(ni_output_state)) n).
Proof. intros H o' s. rewrite output_of_filter. destruct (N.eqb_spec o o'); [done|]. apply H. Qed.

(** The output is gone, and the timer it waited for. *)
Definition without_output (o : N) (s : OutputState) (n : Niri) : Niri :=
  let n := set_outputs (filter (λ p, p.1 ≠ o) n.(ni_output_state)) n in
  match s.(os_redraw_state) with
  | WaitingForEstimatedVBlank token | WaitingForEstimatedVBlankAndQueued token => remove_timer token n
  | _ => n
  end.

Lemma without_output_base b o s n : base_ok b n → output_of n o = Some s → base_ok b (without_output o s n).
Proof.
  intros [H1 H2 H3 H4] Ho. set (n1 := set_outputs (filter (λ p, p.1 ≠ o) n.(ni_output_state)) n).
  assert (En : without_output o s n = set_timers (match estimated_token s.(os_redraw_state) with
            | Some t => delete t n.(ni_timers) | None => n.(ni_timers) end) n1).
  { unfold without_output. by destruct (os_redraw_state s). }
  rewrite En. split.
  - by apply filtered_keys.
  - assert (Htok : tokens_of n o = Some (tokens s)) by (unfold tokens_of; by rewrite Ho).
    eapply timers_ext; [exact (timers_remove_output _ _ _ _ H2 o _ Htok)|]. intros o'.
    change (tokens <$> output_of n1 o' = with_tokens o None (tokens_of n) o'). unfold n1.
    rewrite output_of_filter. unfold with_tokens. by destruct (o =? o').
  - by apply (each_without (λ s, clock_ok s.(os_frame_clock))).
  - by apply (each_without (λ s, backend_ok b s.(os_redraw_state))).
Qed.

Lemma remove_output_runs b o moved ui n :
  niri_ok b n → is_Some (output_of n o) → (∀ o, o ∈ moved → is_Some (output_of n o)) →
  runs (niri_remove_output o moved ui n) (λ n', niri_ok b n' ∧ answered n n').
Proof.
  intros Hok Hex Hm. unfold niri_remove_output. eapply runs_bind; [by apply (queue_redraws_runs b)|].
  intros n1 (Hok1 & Ec & El & Hsame). destruct (proj2 (Hsame o) Hex) as [s Ho]. rewrite Ho. cbn [mbind option_bind].
  cbv zeta. fold (without_output o s n1). pose proof (without_output_base b o s n1 (proj1 Hok1) Ho) as Hb.
  assert (Hlock : (without_output o s n1).(ni_lock_state) = n1.(ni_lock_state) ∧
    (without_output o s n1).(ni_confirmed) = n1.(ni_confirmed) ∧
    ∀ P, each P n1 → each P (without_output o s n1)).
  { unfold without_output. destruct (os_redraw_state s); (split_and!; [done|done|]); intros P; apply each_without. }
  destruct Hlock as (EL & EC & Heach). set (n2 := without_output o s n1) in *. clearbody n2.
  set (n3 := match ni_lock_state n2 with Locking c => check_locked c n2 | _ => maybe_continue_to_locking n2 end).
  assert (H3 : niri_ok b n3 ∧ answered n2 n3).
  { unfold n3. destruct Hok1 as [_ Hl1]. unfold lock_ok in Hl1. rewrite <- EL in Hl1.
    destruct (ni_lock_state n2) as [|c t|c|c] eqn:E.
    1, 2, 4: apply maybe_continue_ok; split; [done|]; unfold lock_ok; rewrite E; auto.
    apply check_locked_ok; [done|done|]. apply Heach, Hl1. }
  clearbody n3. destruct H3 as [Hok3 Ha]. apply runs_ret.
  assert (Ha' : answered n n3) by (unfold answered in *; by rewrite <- Ec, <- EC).
  destruct ui; [|done]. split; [by apply queue_redraw_all_ok|exact Ha'].
Qed.

Lemma add_output_base b o clock locked n :
  base_ok b n → output_of n o = None → clock_ok clock →
  (∀ t d q, n.(ni_timers) !! t ≠ Some (d, CbThrottledVBlank o q)) →
  base_ok b (set_outputs (n.(ni_output_state) ++ [(o, new_output_state clock locked)]) n).
Proof.
  intros [H1 H2 H3 H4] Ho Hc Hd.
  assert (Hget : ∀ o', output_of (set_outputs (n.(ni_output_state) ++ [(o, new_output_state clock locked)]) n) o' =
            if N.eqb o o' then Some (new_output_state clock locked) else output_of n o').
  { intros o'. unfold output_of. cbn [set_outputs ni_output_state]. rewrite get_output_app. cbn [get_output].
    destruct (N.eqb_spec o o') as [<-|]; [|by destruct (get_output o' _)].
    change (match output_of n o with Some s => Some s | None => Some (new_output_state clock locked) end =
      Some (new_output_state clock locked)). by rewrite Ho. }
  set (n1 := set_outputs _ n) in *. split.
  - change (NoDup (output_keys (n.(ni_output_state) ++ [(o, new_output_state clock locked)]))). unfold output_keys.
    rewrite fmap_app. apply NoDup_app. split_and!; [exact H1| |apply NoDup_singleton].
    intros k Hk E%list_elem_of_singleton. cbn in E. subst k. apply list_elem_of_fmap in Hk as ([k s] & E & Hin).
    cbn in E. subst k. by rewrite (elem_get_output o s _ H1 Hin : output_of n o = Some s) in Ho.
  - eapply timers_ext; [apply (timers_add_output _ _ _ _ H2 o Hd); unfold tokens_of; by rewrite Ho|]. intros o'.
    unfold tokens_of at 1, with_tokens. rewrite Hget. by destruct (o =? o').
  - intros o' s. rewrite Hget. destruct (o =? o'); [by intros [= <-]|]. apply H3.
  - intros o' s. rewrite Hget. destruct (o =? o'); [intros [= <-]; destruct b; cbn; auto|]. apply H4.
Qed.

Lemma add_output_runs b o refresh_interval vrr moved n clock :
  niri_ok b n → output_of n o = None → FrameClock_new refresh_interval vrr = Some clock →
  (∀ t d q, n.(ni_timers) !! t ≠ Some (d, CbThrottledVBlank o q)) →
  (∀ o', o' ∈ moved → o' = o ∨ is_Some (output_of n o')) →
  runs (niri_add_output o refresh_interval vrr moved n) (λ n', niri_ok b n' ∧ answered n n').
Proof.
  intros [Hb Hl] Ho Hc Hd Hm. unfold niri_add_output. rewrite Hc, Ho. cbn [mbind option_bind].
  pose proof (add_output_base b o clock (is_locked n) n Hb Ho (FrameClock_new_ok _ _ _ Hc) Hd) as Hb1.
  assert (Hget : ∀ o' s, output_of (set_outputs (n.(ni_output_state) ++ [(o, new_output_state clock (is_locked n))]) n) o' = Some s ↔
            (o = o' ∧ s = new_output_state clock (is_locked n)) ∨ output_of n o' = Some s).
  { intros o' s. unfold output_of. cbn [set_outputs ni_output_state]. rewrite get_output_app. cbn [get_output].
    unfold output_of in Ho. destruct (N.eqb_spec o o') as [<-|]; [rewrite Ho; naive_solver|].
    destruct (get_output o' _); naive_solver. }
  set (n1 := set_outputs _ n) in *. assert (El : ni_lock_state n1 = ni_lock_state n) by done.
  assert (Hok1 : niri_ok b n1).
  { split; [done|]. unfold lock_ok in *. rewrite El. unfold is_locked in Hget.
    destruct (ni_lock_state n) as [| |c|c] eqn:E; [done|done| |].
    - destruct Hl as [(o' & s & Ho' & Hw) Hl]. split; [exists o', s; split; [apply Hget; by right|done]|].
      intros o2 s2 [[_ ->]|H2]%Hget; [done|]. exact (Hl o2 s2 H2).
    - intros o2 s2 [[_ ->]|H2]%Hget; [done|]. exact (Hl o2 s2 H2). }
  eapply runs_weaken; [apply (queue_redraws_runs b moved n1 Hok1)|].
  - intros o' [->|[s Hs]]%Hm; eexists; apply Hget; [by left|by right].
  - intros n2 (K1 & K2 & _). split; [done|by left].
Qed.

Lemma monitors_ok b v n : niri_ok b n → niri_ok b (set_monitors_active v n).
Proof. intros [[H1 H2 H3 H4] Hl]. by split. Qed.

(** ** The events *)
Inductive NiriEvent :=
| EvQueueRedraw (o : N)
| EvQueueRedrawAll
| EvLock (confirmation : SessionLock) (alive : bool)
| EvUnlock
| EvNewLockSurface (surface : LockSurface) (o : N)
| EvCommitLockSurface (o : N) (mapped : bool)
| EvAddOutput (o : N) (refresh_interval : option N) (vrr : bool) (moved : list N)
| EvRemoveOutput (o : N) (moved : list N) (screenshot_ui_open : bool)
| EvDeactivateMonitors
| EvActivateMonitors
| EvRedraw (envs : nat → RenderEnv)
| EvVBlank (o presentation_time now sequence : N)
| EvTimer (token now : N)
| EvSetVrr (o : N) (vrr : bool).

Definition run_event (b : Backend) (e : NiriEvent) (n : Niri) : option Niri :=
  match e with
  | EvQueueRedraw o => queue_redraw o n
  | EvQueueRedrawAll => Some (queue_redraw_all n)
  | EvLock confirmation alive => Some (lock confirmation alive n)
  | EvUnlock => Some (unlock n)
  | EvNewLockSurface surface o => Some (new_lock_surface surface o n)
  | EvCommitLockSurface o mapped => commit_lock_surface o mapped n
  | EvAddOutput o refresh_interval vrr moved => niri_add_output o refresh_interval vrr moved n
  | EvRemoveOutput o moved ui => niri_remove_output o moved ui n
  | EvDeactivateMonitors => Some (deactivate_monitors n)
  | EvActivateMonitors => Some (activate_monitors n)
  | EvRedraw envs => redraw_queued_outputs (redraw_fuel n) b envs n
  | EvVBlank o presentation_time now sequence => on_vblank o presentation_time now sequence n
  | EvTimer token now => fire_timer token now n
  | EvSetVrr o vrr => Some (set_output_vrr o vrr n)
  end.

(** What the compositor and the kernel see to: outputs are known; a new one has a refresh interval
    below a second, and its crtc has no vblank that is still throttled; times are below 2^62
    nanoseconds. A vblank may come when none was asked for, with two exceptions that the kernel is
    relied on for: not while the output waits for an estimated one, and not earlier than the
    throttle lets it through. *)
Definition event_pre (e : NiriEvent) (n : Niri) : Prop :=
  match e with
  | EvQueueRedraw o => is_Some (output_of n o)
  | EvAddOutput o refresh_interval vrr moved =>
      output_of n o = None ∧ is_Some (FrameClock_new refresh_interval vrr) ∧
      (∀ t d q, n.(ni_timers) !! t ≠ Some (d, CbThrottledVBlank o q)) ∧
      ∀ o', o' ∈ moved → o' = o ∨ is_Some (output_of n o')
  | EvRemoveOutput o moved _ => is_Some (output_of n o) ∧ ∀ o', o' ∈ moved → is_Some (output_of n o')
  | EvRedraw envs => ∀ k, time_ok (envs k).(re_now)
  | EvVBlank o presentation_time now _ =>
      time_ok presentation_time ∧
      ∀ s, output_of n o = Some s →
        estimated_token s.(os_redraw_state) = None ∧ vblank_expected s presentation_time now
  | _ => True
  end.

Lemma commit_runs b o mapped n :
  niri_ok b n → runs (commit_lock_surface o mapped n) (λ n', niri_ok b n' ∧ answered n n').
Proof.
  intros Hok. unfold commit_lock_surface. destruct (output_of n o) as [s|] eqn:Ho;
    [|apply runs_ret; split; [done|by left]].
  cbn [mbind option_bind]. destruct (os_lock_surface s) as [surface|]; [|apply runs_ret; split; [done|by left]].
  cbv zeta. set (n1 := on_output _ o n).
  assert (Hok1 : niri_ok b n1) by (apply ok_on; [done|]; intros s' _; by split).
  assert (Ho1 : is_Some (output_of n1 o)) by (unfold n1; rewrite (output_of_on_eq _ _ _ _ Ho); by eexists).
  assert (Ha : ∀ n2, answered n1 n2 → answered n n2) by done.
  destruct (ni_lock_state n1); try (apply runs_ret; destruct (maybe_continue_ok b n1 Hok1); auto).
  all: eapply runs_weaken; [by apply (queue_redraw_runs b)|]; intros n2 (K1 & K2 & _); auto.
Qed.

(** Every event keeps the invariant. *)
Lemma event_runs b e n :
  niri_ok b n → event_pre e n → runs (run_event b e n) (λ n', niri_ok b n' ∧ answered n n').
Proof.
  intros Hok Hpre.
  destruct e as [o| |c alive| |surface o|o mapped|o ri vrr moved|o moved ui| | |envs|o pt now sq|token now|o vrr];
    cbn [run_event event_pre] in *.
  - eapply runs_weaken; [by apply (queue_redraw_runs b)|]. naive_solver.
  - apply runs_ret. split; [by apply queue_redraw_all_ok|by left].
  - apply runs_ret. by apply lock_event_ok.
  - apply runs_ret. destruct (unlock_ok b n (proj1 Hok)) as (K1 & K2 & _). split; [done|by left].
  - apply runs_ret. unfold new_lock_surface. destruct (match ni_lock_state n with Unlocked => None | _ => _ end); [|split; [done|by left]].
    destruct (_ =? _); [|split; [done|by left]]. split; [|by left]. apply ok_on; [done|]. intros s0 _. by split.
  - by apply commit_runs.
  - destruct Hpre as (H1 & [clock H2] & H3 & H4). by eapply add_output_runs.
  - destruct Hpre. by apply remove_output_runs.
  - apply runs_ret. split; [by apply monitors_ok|by left].
  - apply runs_ret. unfold activate_monitors. destruct (ni_monitors_active n); [split; [done|by left]|].
    split; [by apply queue_redraw_all_ok, monitors_ok|by left].
  - eapply runs_weaken; [apply redraws_run; [done|done|apply redraw_fuel_enough]|].
    intros n' [K1 _ _ _ K2 _ _]. split; [done|by apply decides_answered].
  - destruct Hpre as [Ht Hw]. destruct (output_of n o) as [s|] eqn:Ho.
    + destruct (Hw s eq_refl). by apply (vblank_runs b o s).
    + unfold on_vblank. rewrite Ho. apply runs_ret. split; [done|by left].
  - by apply fire_timer_runs.
  - apply runs_ret. split; [|by left]. unfold set_output_vrr. apply ok_on; [done|]. intros s _. split; [|done].
    split; [done| |done]. apply set_vrr_ok.
Qed.

(** ** Runs of the event loop *)
Definition fresh_niri : Niri := MkNiri [] Unlocked true ∅ 0 [].

Inductive niri_step (b : Backend) (n n' : Niri) : Prop :=
| step_event e : event_pre e n → run_event b e n = Some n' → niri_step b n n'.

Definition reachable (b : Backend) (n : Niri) : Prop := rtc (niri_step b) fresh_niri n.

Lemma fresh_ok b : niri_ok b fresh_niri.
Proof. split; [|done]. split; [apply NoDup_nil_2| |done|done]. by split. Qed.

Lemma step_ok b n n' : niri_ok b n → niri_step b n n' → niri_ok b n' ∧ answered n n'.
Proof.
  intros Hok [e Hpre E]. destruct (event_runs b e n Hok Hpre) as (n2 & E2 & H). congruence.
Qed.

Lemma reachable_ok b n : reachable b n → niri_ok b n.
Proof.
  intros H. unfold reachable in H. pose proof (fresh_ok b) as Hok.
  induction H as [|n1 n2 n3 Hs _ IH]; [done|]. by eapply IH, step_ok.
Qed.
