(* ===== verification/NiriRedrawProps.v ===== *)
(** * Redrawing and locking: properties *)
From stdpp Require Import gmap.
From S2P Require Import Prelude Float64 Duration FrameClock NiriRedraw NiriRedrawOps NiriRedrawInv NiriRedrawLoop NiriRedrawEvents.

Local Open Scope N_scope.

(** ** A sample run *)
Definition sample_lock : SessionLock := MkSessionLock 7 3.

(** Two outputs are connected and a client locks the session. *)
Definition sample_events : list NiriEvent :=
  [EvAddOutput 0 (Some 16666667) false []; EvAddOutput 1 None false [0]; EvLock sample_lock true].

Fixpoint run_events (b : Backend) (es : list NiriEvent) (n : Niri) : option Niri :=
  match es with
  | [] => Some n
  | e :: es => n ← run_event b e n; run_events b es n
  end.

Definition first_output : Niri := Eval vm_compute in default fresh_niri (run_events Tty (take 1 sample_events) fresh_niri).
Definition two_outputs : Niri := Eval vm_compute in default fresh_niri (run_events Tty (take 2 sample_events) fresh_niri).
Definition waiting_niri : Niri := Eval vm_compute in default fresh_niri (run_events Tty sample_events fresh_niri).

Definition sample_env (outcome : RenderOutcome) : RenderEnv := MkRenderEnv outcome false 1000 2000.

Lemma two_outputs_reachable : reachable Tty two_outputs.
Proof.
  eapply rtc_l; [apply (step_event _ fresh_niri first_output (EvAddOutput 0 (Some 16666667) false [])); [|reflexivity]|].
  - split_and!; [done|by eexists|done|]. by intros o' ?%not_elem_of_nil.
  - eapply rtc_l; [apply (step_event _ first_output two_outputs (EvAddOutput 1 None false [0])); [|reflexivity]|apply rtc_refl].
    split_and!; [done|by eexists|done|]. intros o' ->%list_elem_of_singleton. right. by eexists.
Qed.

Lemma waiting_reachable : reachable Tty waiting_niri.
Proof.
  eapply rtc_r; [apply two_outputs_reachable|].
  by apply (step_event _ two_outputs waiting_niri (EvLock sample_lock true)).
Qed.

(** ** Timers *)



(** C5: a client is told that the session is locked only when it is, and while it is locked no
    output shows an unlocked frame. An event tells at most one client, and then the session is
    locked by that client; whenever it is locked, the last frame of every output was rendered
    locked. *)
Theorem locked_is_shown_locked b n n' :
  reachable b n → niri_step b n n' →
  (n'.(ni_confirmed) = n.(ni_confirmed) ∨
   ∃ c, n'.(ni_confirmed) = n.(ni_confirmed) ++ [c] ∧ n'.(ni_lock_state) = Locked c) ∧
  ∀ c o s, n'.(ni_lock_state) = Locked c → output_of n' o = Some s → s.(os_lock_render_state) = RenderLocked.
Proof.
  intros Hr Hs. destruct (step_ok b n n' (reachable_ok b n Hr) Hs) as [[_ Hl] Ha]. split; [exact Ha|].
  intros c o s Hc Ho. unfold lock_ok in Hl. rewrite Hc in Hl. exact (Hl o s Ho).
Qed.

Definition locking_niri : Niri := Eval vm_compute in default fresh_niri (fire_timer 0 5000 waiting_niri).
Definition locked_niri : Niri := Eval vm_compute in
  default fresh_niri (redraw_queued_outputs (redraw_fuel locking_niri) Tty (λ _, sample_env OutcomeSubmitted) locking_niri).

Lemma locking_reachable : reachable Tty locking_niri.
Proof.
  eapply rtc_r; [apply waiting_reachable|].
  apply (step_event _ waiting_niri locking_niri (EvTimer 0 5000)); [done|vm_compute; reflexivity].
Qed.

Lemma locked_is_shown_locked_witness :
  locked_niri.(ni_lock_state) = Locked sample_lock ∧ locked_niri.(ni_confirmed) = [sample_lock] ∧
  ∀ o s, output_of locked_niri o = Some s → s.(os_lock_render_state) = RenderLocked.
Proof.
  split; [reflexivity|]. split; [reflexivity|]. intros o s Ho.
  assert (Hs : niri_step Tty locking_niri locked_niri).
  { apply (step_event _ locking_niri locked_niri (EvRedraw (λ _, sample_env OutcomeSubmitted))); [done|vm_compute; reflexivity]. }
  exact (proj2 (locked_is_shown_locked Tty locking_niri locked_niri locking_reachable Hs) sample_lock o s eq_refl Ho).
Defined.

(** ** The redraw loop *)

(** C8: the redraw loop ends. Whatever the frames turn out to be, redrawing the first queued
    output again and again, with an unlock that queues them all once more, takes at most two
    redraws per output, and then none is queued; no output appears or disappears. *)
Theorem redraw_loop_ends b n envs fuel :
  reachable b n → (∀ k, time_ok (envs k).(re_now)) → (2 * length n.(ni_output_state) ≤ fuel)%nat →
  ∃ n', redraw_queued_outputs fuel b envs n = Some n' ∧
    find_queued n'.(ni_output_state) = None ∧
    output_keys n'.(ni_output_state) = output_keys n.(ni_output_state).
Proof.
  intros Hr Ht Hf. destruct (redraws_run fuel b envs n (reachable_ok b n Hr) Ht) as (n' & E & H).
  - pose proof (redraw_fuel_enough n). unfold redraw_fuel in *. lia.
  - exists n'. split; [done|]. split; apply H.
Qed.

(** The first frame fails, so that locking is given up and every output is redrawn. *)
Lemma redraw_loop_ends_witness :
  reachable Tty locking_niri ∧
  ∃ n', redraw_queued_outputs 4 Tty (λ k, sample_env (if Nat.eqb k 0 then OutcomeFailed else OutcomeSubmitted))
          locking_niri = Some n' ∧ n'.(ni_lock_state) = Unlocked ∧ find_queued n'.(ni_output_state) = None.
Proof.
  split; [exact locking_reachable|].
  destruct (redraw_loop_ends Tty locking_niri (λ k, sample_env (if Nat.eqb k 0 then OutcomeFailed else OutcomeSubmitted)) 4
              locking_reachable (λ k, eq_refl) ltac:(cbn; lia)) as (n' & E & Hq & _).
  exists n'. split; [exact E|]. split; [|exact Hq]. vm_compute in E. injection E as <-. reflexivity.
Defined.

(** C7: a lock is decided. When the deadline for the lock surfaces passes, the redraws that
    follow lead to one of three states: the session is locked and its client is told; it is
    unlocked, because a frame could not be rendered while the monitors were on; or it is still
    being locked, and then an output that was waiting for its vblank at the deadline will be
    redrawn after it. *)
Theorem lock_is_decided b n envs c t now :
  reachable b n → n.(ni_lock_state) = WaitingForSurfaces c t → (∀ k, time_ok (envs k).(re_now)) →
  ∃ n1 n2, fire_timer t now n = Some n1 ∧ redraw_queued_outputs (redraw_fuel n1) b envs n1 = Some n2 ∧
    (n2.(ni_lock_state) = Locked c ∧ n2.(ni_confirmed) = n.(ni_confirmed) ++ [c] ∨
     n2.(ni_lock_state) = Unlocked ∧ n2.(ni_confirmed) = n.(ni_confirmed) ∧ n.(ni_monitors_active) = true ∧
       (∃ k, render_failed b (envs k)) ∨
     n2.(ni_lock_state) = Locking c ∧ n2.(ni_confirmed) = n.(ni_confirmed) ∧
       (∃ o s, output_of n o = Some s ∧ is_waiting s.(os_redraw_state) = true) ∧
       ∃ o s, output_of n2 o = Some s ∧ s.(os_redraw_state) = WaitingForVBlank true).
Proof.
  intros Hr El Ht. pose proof (reachable_ok b n Hr) as Hok.
  rewrite (deadline_fires b n c t now Hok El). exists (continue_to_locking n).
  pose proof (continue_ok b n Hok) as [Hok1 _].
  destruct (redraws_run _ b envs _ Hok1 Ht (redraw_fuel_enough _)) as (n2 & E & H). exists n2. split; [done|]. split; [done|].
  destruct (continue_spec n c t El) as [(Hc & Hl)|(Hc & Hl & Ha & Hout)].
  - left. destruct (ar_decides _ _ _ _ H) as [[E1 E2]|(c' & E1 & _)]; [by rewrite E1, E2|congruence].
  - destruct (ar_decides _ _ _ _ H) as [[E1 E2]|(c' & E1 & [[E2 E3]|[E2 E3]])].
    + right. right. split; [congruence|]. split; [congruence|]. apply (still_locking b n c _ _ _ (bk_keys _ _ (proj1 Hok)) H); [congruence|done].
    + right. left. destruct (ar_shown _ _ _ _ H) as [H1 H2]; [split; [by exists c'|done]|].
      split_and!; [done|congruence|congruence|done].
    + left. rewrite E1 in Hl. injection Hl as ->. split; [done|congruence].
Qed.

(** Nothing changed on the screens, so the frames bring no damage; they count as shown. *)
Lemma lock_is_decided_witness :
  reachable Tty waiting_niri ∧
  ∃ n1 n2, fire_timer 0 5000 waiting_niri = Some n1 ∧
    redraw_queued_outputs (redraw_fuel n1) Tty (λ _, sample_env OutcomeNoDamage) n1 = Some n2 ∧
    n2.(ni_lock_state) = Locked sample_lock ∧ n2.(ni_confirmed) = [sample_lock].
Proof.
  split; [exact waiting_reachable|].
  destruct (lock_is_decided Tty waiting_niri (λ _, sample_env OutcomeNoDamage) sample_lock 0 5000
              waiting_reachable eq_refl (λ _, eq_refl)) as (n1 & n2 & E1 & E2 & H).
  exists n1, n2. split; [exact E1|]. split; [exact E2|].
  vm_compute in E1. injection E1 as <-. vm_compute in E2. injection E2 as <-. split; reflexivity.
Defined.

(** ** Rogue vblanks *)

(** C9: a vblank that was not asked for can make the compositor panic later. The code expects such
    vblanks and logs them, but when the output is waiting for an estimated vblank, and the vblank is
    not throttled, it forgets the token of that timer without removing it: if the timer is the next
    thing that happens, before a redraw, the output is not waiting, and the handler declares that
    impossible. *)
Theorem rogue_vblank_panics n o s t presentation_time now sequence :
  reachable Tty n → output_of n o = Some s → estimated_token s.(os_redraw_state) = Some t →
  throttle_remaining s.(os_vblank_throttle) s.(os_frame_clock).(fc_refresh_interval_ns)
    (if presentation_time =? 0 then now else presentation_time) = None →
  ∃ n', on_vblank o presentation_time now sequence n = Some n' ∧ ∀ later, fire_timer t later n' = None.
Proof.
  intros Hr Ho He Hth. pose proof (reachable_ok Tty n Hr) as [Hb _]. pose proof Hb as [_ H2 _ _].
  assert (Hno : s.(os_vblank_throttle).(vt_throttle_timer_token) = None).
  { apply (not_throttled Tty n o s Hb Ho). by destruct (os_redraw_state s). }
  destruct (tm_estimated _ _ _ _ H2 o (tokens s) t) as [d Hd]; [unfold tokens_of; by rewrite Ho|done|].
  unfold on_vblank. rewrite Ho. cbv zeta. rewrite Hno, Hth.
  assert (Er : match s.(os_redraw_state) with WaitingForVBlank b => b | _ => true end = true) by (by destruct (os_redraw_state s)).
  rewrite Er. cbn [orb]. rewrite (queue_redraw_after _ o s) by done. eexists. split; [done|]. intros later.
  unfold fire_timer. set (n' := on_output _ o n). change (ni_timers n') with (ni_timers n). rewrite Hd.
  unfold on_estimated_vblank_timer. change (output_of (remove_timer t n') o) with (output_of n' o).
  unfold n'. by rewrite (output_of_on_eq _ o n s Ho).
Qed.

Definition estimated_niri : Niri := Eval vm_compute in
  default fresh_niri (redraw_queued_outputs 4 Tty (λ _, sample_env OutcomeNoDamage) two_outputs).

Lemma estimated_reachable : reachable Tty estimated_niri.
Proof.
  eapply rtc_r; [apply two_outputs_reachable|].
  apply (step_event _ two_outputs estimated_niri (EvRedraw (λ _, sample_env OutcomeNoDamage))); [done|vm_compute; reflexivity].
Qed.

Lemma rogue_vblank_panics_witness :
  reachable Tty estimated_niri ∧
  ∃ n', on_vblank 0 3000 3500 1 estimated_niri = Some n' ∧ ∀ later, fire_timer 0 later n' = None.
Proof.
  split; [exact estimated_reachable|].
  exact (rogue_vblank_panics estimated_niri 0
    (default (new_output_state sample_clock false) (output_of estimated_niri 0)) 0 3000 3500 1
    estimated_reachable eq_refl eq_refl eq_refl).
Defined.
