(* ===== verification/LiquidRules.v ===== *)
(** * The rule engine (src/liquid/rule_engine.rs)

    Rules of the configuration are kept sorted by descending priority; a query returns the
    rules, or their actions, that match a target. *)
From S2P Require Import Prelude BTree Float64.

(** ** Data (crates/niri-config/src/liquid.rs) *)
Inductive RuleTarget :=
  | TWindow | TLayer | TWorkspace | TColumn | TSpecialWorkspace | TOutput.

#[export] Instance RuleTarget_eq_dec : EqDecision RuleTarget.
Proof. solve_decision. Defined.

Inductive RuleAction :=
  | SetMaterial (name : string)
  | SetAnimationProfile (name : string)
  | SetWorkspace (name : string)
  | SetEffectPreset (name : string)
  | SetFloatingRule (floating : bool)
  | SetOpacity (opacity : f64)
  | SetColumnDisplay (display : string).

Record UnifiedRule := MkUnifiedRule {
  ur_id : string;
  ur_target : RuleTarget;
  ur_priority : Z;
  ur_app_id_filter : option string;
  ur_title_filter : option string;
  ur_actions : list RuleAction
}.

Record RuleEngine := MkRuleEngine { re_rules : list UnifiedRule }.

(** The [i32] range. *)
Definition i32_min : Z := -2147483648.
Definition i32_max : Z := 2147483647.

(** ** Operations *)

(** The order of [sort_by_key(|r| -r.priority)]. *)
Definition rule_leb (a b : UnifiedRule) : bool := Z.leb (- a.(ur_priority)) (- b.(ur_priority)).

(** [rules.sort_by_key(|r| -r.priority)]: [None] is the panic of negating [i32::MIN], which
    happens when keys are computed at all, for two or more rules. *)
Definition sort_rules (rules : list UnifiedRule) : option (list UnifiedRule) :=
  if (2 <=? length rules) && existsb (λ r, Z.eqb r.(ur_priority) i32_min) rules then None
  else Some (stable_sort rule_leb rules).

Definition RuleEngine_new (unified_rules : list UnifiedRule) : option RuleEngine :=
  MkRuleEngine <$> sort_rules unified_rules.

(** [str::contains]. *)
Definition str_contains (haystack needle : string) : bool :=
  match String.index 0 needle haystack with Some _ => true | None => false end.

(** [filter.map(|f| value.is_some_and(|v| v.contains(f))).unwrap_or(true)]. *)
Definition filter_matches (filter value : option string) : bool :=
  match filter with
  | Some f => match value with Some v => str_contains v f | None => false end
  | None => true
  end.

Definition rule_matches (app_id title : option string) (rule : UnifiedRule) : bool :=
  filter_matches rule.(ur_app_id_filter) app_id && filter_matches rule.(ur_title_filter) title.

Definition target_matches (target : RuleTarget) (app_id title : option string)
    (rule : UnifiedRule) : bool :=
  bool_decide (rule.(ur_target) = target) && rule_matches app_id title rule.

Definition find_matching (e : RuleEngine) (target : RuleTarget) (app_id title : option string) :
    list UnifiedRule :=
  List.filter (target_matches target app_id title) e.(re_rules).

Definition RuleEngine_apply (e : RuleEngine) (target : RuleTarget) (app_id title : option string) :
    list RuleAction :=
  mjoin (ur_actions <$> find_matching e target app_id title).

(** A line of [trace]; the text of a line is a rendering of these values. *)
Inductive TraceLine :=
  | TraceRule (matched : bool) (id : string) (target : RuleTarget) (priority : Z)
  | TraceApply (action : RuleAction).

Definition trace_rule (app_id title : option string) (rule : UnifiedRule) : list TraceLine :=
  let matched := rule_matches app_id title rule in
  TraceRule matched rule.(ur_id) rule.(ur_target) rule.(ur_priority) ::
  (if matched then TraceApply <$> rule.(ur_actions) else []).

Definition trace (e : RuleEngine) (target : RuleTarget) (app_id title : option string) :
    list TraceLine :=
  mjoin (trace_rule app_id title <$>
           List.filter (λ r, bool_decide (r.(ur_target) = target)) e.(re_rules)).

Definition RuleEngine_reload (e : RuleEngine) (unified_rules : list UnifiedRule) :
    option RuleEngine := MkRuleEngine <$> sort_rules unified_rules.

(** ** Lemmas *)
Lemma rule_leb_total a b : rule_leb a b = true ∨ rule_leb b a = true.
Proof. unfold rule_leb. rewrite !Z.leb_le. lia. Qed.

Lemma rule_leb_trans a b c : rule_leb a b = true → rule_leb b c = true → rule_leb a c = true.
Proof. unfold rule_leb. rewrite !Z.leb_le. lia. Qed.

Lemma StronglySorted_weaken {A} (R S : relation A) l :
  (∀ x y, R x y → S x y) → StronglySorted R l → StronglySorted S l.
Proof.
  intros HRS. induction 1 as [|x l Hs IH Hf]; constructor; [done|].
  by eapply Forall_impl; [exact Hf|auto].
Qed.

Lemma StronglySorted_filter {A} (R : relation A) (p : A → bool) l :
  StronglySorted R l → StronglySorted R (List.filter p l).
Proof.
  induction 1 as [|x l Hs IH Hf]; simpl; [constructor|].
  destruct (p x); [|done]. constructor; [done|].
  rewrite Forall_forall in Hf |- *. intros y Hy. apply Hf.
  by apply list_elem_of_In, List.filter_In, proj1, list_elem_of_In in Hy.
Qed.

Lemma filter_filter {A} (p q : A → bool) l :
  List.filter p (List.filter q l) = List.filter (λ x, q x && p x) l.
Proof.
  induction l as [|x l IH]; simpl; [done|]. destruct (q x); simpl; [|done].
  destruct (p x); by rewrite IH.
Qed.

(** The actions that a trace reports as applied. *)
Definition traced_actions (lines : list TraceLine) : list RuleAction :=
  omap (λ l, match l with TraceApply a => Some a | _ => None end) lines.

Lemma traced_actions_app l1 l2 : traced_actions (l1 ++ l2) = traced_actions l1 ++ traced_actions l2.
Proof. apply omap_app. Qed.

Lemma traced_actions_apply (l : list RuleAction) : traced_actions (TraceApply <$> l) = l.
Proof.
  induction l as [|a l IH]; [done|].
  change (a :: traced_actions (TraceApply <$> l) = a :: l). by rewrite IH.
Qed.

Lemma mjoin_cons {A} (l : list A) ls : mjoin (l :: ls) = l ++ mjoin ls.
Proof. done. Qed.

Lemma traced_actions_rule app_id title r :
  traced_actions (trace_rule app_id title r) =
  if rule_matches app_id title r then ur_actions r else [].
Proof.
  unfold trace_rule. destruct (rule_matches app_id title r); [|done].
  apply traced_actions_apply.
Qed.

Lemma traced_actions_trace e target app_id title :
  traced_actions (trace e target app_id title) = RuleEngine_apply e target app_id title.
Proof.
  unfold trace, RuleEngine_apply, find_matching. induction (re_rules e) as [|r l IH]; [done|].
  cbn [List.filter]. unfold target_matches at 1.
  destruct (bool_decide (ur_target r = target)); [|done].
  rewrite fmap_cons, mjoin_cons, traced_actions_app, traced_actions_rule.
  destruct (rule_matches app_id title r); simpl; [|exact IH]. f_equal. exact IH.
Qed.

(** ** Properties *)

(** Functional behaviour of the rule engine. The rules a query finds are ordered by
    descending priority, and those of one priority are exactly the matching rules of that
    priority in the order of the configuration; [apply] lists their actions in that order, and
    the debug [trace] reports exactly the actions that [apply] applies. *)
Theorem rule_engine_spec rules e target app_id title :
  RuleEngine_new rules = Some e →
  let found := find_matching e target app_id title in
  StronglySorted (λ a b, (b.(ur_priority) ≤ a.(ur_priority))%Z) found ∧
  (∀ p, List.filter (λ r, Z.eqb r.(ur_priority) p) found =
        List.filter (λ r, Z.eqb r.(ur_priority) p && target_matches target app_id title r) rules) ∧
  RuleEngine_apply e target app_id title = mjoin (ur_actions <$> found) ∧
  traced_actions (trace e target app_id title) = RuleEngine_apply e target app_id title.
Proof.
  unfold RuleEngine_new, sort_rules. split_match; [done|]. intros [= <-]. simpl.
  split_and!; [..|done|].
  - assert (Hs : StronglySorted (λ a b, rule_leb a b = true) (stable_sort rule_leb rules))
      by (apply stable_sort_sorted; [apply rule_leb_total|apply rule_leb_trans]).
    apply StronglySorted_filter. eapply StronglySorted_weaken, Hs.
    intros a b. unfold rule_leb. rewrite Z.leb_le. lia.
  - intros p. unfold find_matching. simpl. rewrite filter_filter.
    transitivity (List.filter (λ r, Z.eqb r.(ur_priority) p && target_matches target app_id title r)
      (stable_sort rule_leb rules)); [apply List.filter_ext; intros; apply andb_comm|].
    apply stable_sort_stable.
    intros x y. rewrite !andb_true_iff, !Z.eqb_eq. unfold rule_leb. rewrite Z.leb_le. lia.
  - apply traced_actions_trace.
Qed.

Definition sample_rules : list UnifiedRule :=
  [MkUnifiedRule "all" TWindow 10 None None [SetEffectPreset "glass"];
   MkUnifiedRule "term" TWindow 100 (Some "ghostty"%string) None [SetMaterial "obsidian"]].

Lemma rule_engine_spec_witness :
  ∃ e, RuleEngine_new sample_rules = Some e ∧
    RuleEngine_apply e TWindow (Some "com.ghostty"%string) None =
      [SetMaterial "obsidian"; SetEffectPreset "glass"] ∧
    traced_actions (trace e TWindow (Some "com.ghostty"%string) None) =
      RuleEngine_apply e TWindow (Some "com.ghostty"%string) None.
Proof.
  destruct (RuleEngine_new sample_rules) as [e|] eqn:E; [|discriminate E].
  exists e. split; [reflexivity|]. split; [by injection E as <-|].
  exact (proj2 (proj2 (proj2 (rule_engine_spec sample_rules e TWindow (Some "com.ghostty"%string) None E)))).
Defined.
