(* ===== verification/LiquidBus.v ===== *)
(** * The event bus and the overlay manager (src/liquid/state_bus.rs, src/liquid/overlay.rs)

    [StateBus] is the bounded queue through which the compositor announces state changes; it
    is drained once per frame.  [OverlayManager] keeps the internal UI overlays sorted by
    priority and routes keys to the topmost visible one. *)
From S2P Require Import Prelude BTree LiquidRules.

Module StateBus.

(** ** Data *)
Inductive LiquidEvent :=
  | MaterialChanged (to : string)
  | AnimationProfileChanged (to : string)
  | PerformanceProfileChanged (to : string)
  | FocusChanged (app_id title : option string)
  | WorkspaceChanged (name : option string)
  | SpecialWorkspaceToggled (name : string)
  | SafeModeToggled (active : bool)
  | ConfigReloaded
  | ActionDispatched (action_id source : string).

(** [StateBus]; the front of the [VecDeque] is the head of the list. *)
Record StateBus := MkStateBus { sb_queue : list LiquidEvent; sb_max_queue : nat }.

(** ** Operations *)
Definition short_token (id : string) : string :=
  if String.eqb id "set-material" then "material"
  else if String.eqb id "set-animation-profile" then "anim"
  else if String.eqb id "toggle-scratch-column" then "scratch"
  else if String.eqb id "toggle-safe-mode" then "safe"
  else if String.eqb id "toggle-action-palette" then "palette"
  else if String.eqb id "close-window" then "close"
  else if String.eqb id "fullscreen-window" then "fullscreen"
  else if String.eqb id "toggle-window-floating" then "float"
  else if String.eqb id "quit" then "quit"
  else id.

Definition hud_line (e : LiquidEvent) : option string :=
  match e with
  | MaterialChanged to => Some (String.append "MATERIAL · " to)
  | AnimationProfileChanged to => Some (String.append "PROFILE · " to)
  | PerformanceProfileChanged to => Some (String.append "PERF · " to)
  | SpecialWorkspaceToggled name => Some (String.append "SCRATCH · " name)
  | SafeModeToggled active =>
      let state := if active then "ON"%string else "OFF"%string in
      Some (String.append "SAFE MODE · " state)
  | ActionDispatched action_id _ =>
      let token := short_token action_id in
      Some (String.append "ACTION · " token)
  | FocusChanged _ _ => None
  | WorkspaceChanged _ => None
  | ConfigReloaded => Some "CONFIG · reloaded"%string
  end.

Definition new : StateBus := MkStateBus [] 64.

(** [StateBus::default()], derived. *)
Definition default_bus : StateBus := MkStateBus [] 0.

Definition publish (b : StateBus) (event : LiquidEvent) : StateBus :=
  let queue :=
    if sb_max_queue b <=? length (sb_queue b) then tail (sb_queue b) else sb_queue b in
  MkStateBus (queue ++ [event]) (sb_max_queue b).

Definition drain (b : StateBus) : StateBus * list LiquidEvent :=
  (MkStateBus [] (sb_max_queue b), sb_queue b).

Definition has_pending (b : StateBus) : bool := negb (bool_decide (sb_queue b = [])).

Definition snapshot (b : StateBus) : list LiquidEvent := sb_queue b.

(** ** The specification: an unbounded log since the last drain *)
Inductive BusOp := Publish (e : LiquidEvent) | Drain.

(** A run of the bus: the final bus and the batches the drains returned. *)
Fixpoint run (b : StateBus) (ops : list BusOp) : StateBus * list (list LiquidEvent) :=
  match ops with
  | [] => (b, [])
  | Publish e :: ops => run (publish b e) ops
  | Drain :: ops =>
      let '(b, batch) := drain b in
      let '(b, batches) := run b ops in (b, batch :: batches)
  end.

Definition newest {A} (n : nat) (l : list A) : list A := drop (length l - n) l.

(** The same run over the log of all the events since the last drain, of which a drain
    returns the newest [cap]. *)
Fixpoint run_log (cap : nat) (log : list LiquidEvent) (ops : list BusOp) :
    list LiquidEvent * list (list LiquidEvent) :=
  match ops with
  | [] => (log, [])
  | Publish e :: ops => run_log cap (log ++ [e]) ops
  | Drain :: ops => let '(log', batches) := run_log cap [] ops in (log', newest cap log :: batches)
  end.

(** The number of events a bus keeps: [publish] pushes after the eviction, so a bus of
    capacity zero still keeps one. *)
Definition capacity (b : StateBus) : nat := Nat.max 1 (sb_max_queue b).

(** ** Lemmas *)
Lemma tail_newest {A} n (l : list A) :
  tail (newest n l) = drop (S (length l - n)) l.
Proof.
  unfold newest. replace (S (length l - n)) with (length l - n + 1) by lia.
  rewrite <-drop_drop. by destruct (drop (length l - n) l).
Qed.

Lemma length_newest {A} n (l : list A) : length (newest n l) = Nat.min n (length l).
Proof. unfold newest. rewrite length_drop. lia. Qed.

Lemma newest_snoc {A} n (l : list A) x :
  0 < n →
  newest n (l ++ [x]) =
  (if n <=? length (newest n l) then tail (newest n l) else newest n l) ++ [x].
Proof.
  intros Hn. rewrite length_newest. destruct (Nat.leb_spec n (Nat.min n (length l))).
  - rewrite tail_newest. unfold newest. rewrite length_app. simpl.
    rewrite drop_app_le by lia. f_equal. f_equal. lia.
  - unfold newest. rewrite length_app. simpl.
    rewrite !(proj2 (Nat.sub_0_le _ _)) by lia. done.
Qed.

Lemma publish_newest b log e :
  sb_queue b = newest (capacity b) log →
  sb_queue (publish b e) = newest (capacity b) (log ++ [e]).
Proof.
  intros Hb. rewrite newest_snoc by (unfold capacity; lia). rewrite <-Hb.
  unfold publish. cbn [sb_queue]. f_equal. unfold capacity in *.
  destruct (sb_max_queue b) as [|m] eqn:E; [|done].
  by destruct (sb_queue b) as [|x [|y q]].
Qed.

(** ** Properties *)

(** Refinement of an unbounded log. Over any sequence of publishes and drains from a bus
    whose queue holds the newest events of a log, every drain returns, oldest first, the newest
    [capacity] events published since the previous drain, and [snapshot] and [has_pending]
    observe the same events without consuming them. *)
Theorem bus_refines_log b log ops :
  sb_queue b = newest (capacity b) log →
  let '(b', batches) := run b ops in
  let '(log', batches') := run_log (capacity b) log ops in
  batches = batches' ∧ sb_max_queue b' = sb_max_queue b ∧
  snapshot b' = newest (capacity b) log' ∧
  (has_pending b' = true ↔ log' ≠ []).
Proof.
  revert b log. induction ops as [|[e|] ops IH]; intros b log Hb; simpl.
  - split_and!; [done..|]. unfold has_pending. rewrite negb_true_iff, bool_decide_eq_false, Hb.
    assert (H : newest (capacity b) log = [] ↔ log = []); [|by rewrite H].
    split; [|by intros ->]. intros H%(f_equal length). rewrite length_newest in H.
    unfold capacity in H. simpl in H. by destruct log; [|simpl in H; lia].
  - exact (IH (publish b e) (log ++ [e]) (publish_newest b log e Hb)).
  - specialize (IH (MkStateBus [] (sb_max_queue b)) [] eq_refl).
    change (capacity (MkStateBus [] (sb_max_queue b))) with (capacity b) in IH.
    destruct (run _ ops), (run_log _ _ ops). destruct IH as (-> & ? & ? & ?).
    split_and!; [by f_equal; rewrite Hb|done..].
Qed.

Lemma bus_refines_log_witness :
  let b := MkStateBus [] 2 in
  let ops := [Publish ConfigReloaded; Publish (SafeModeToggled true);
              Publish (SafeModeToggled false); Drain; Publish ConfigReloaded] in
  run b ops = (MkStateBus [ConfigReloaded] 2, [[SafeModeToggled true; SafeModeToggled false]]) ∧
  snapshot (fst (run b ops)) = newest 2 [ConfigReloaded].
Proof.
  split; [reflexivity|].
  exact (proj1 (proj2 (proj2 (bus_refines_log (MkStateBus [] 2) []
    [Publish ConfigReloaded; Publish (SafeModeToggled true);
     Publish (SafeModeToggled false); Drain; Publish ConfigReloaded] eq_refl)))).
Defined.

End StateBus.

Module Overlay.

(** ** Data *)
Inductive OverlayPriority :=
  | Critical | ActionPalettePrio | PowerMenu | DebugOverlay | KeybindViewer | ModeHudPrio.

(** The discriminants, which the derived [Ord] compares. *)
Definition OverlayPriority_disc (p : OverlayPriority) : N :=
  match p with
  | Critical => 0 | ActionPalettePrio => 10 | PowerMenu => 20
  | DebugOverlay => 30 | KeybindViewer => 40 | ModeHudPrio => 50
  end.

Definition priority_leb (p q : OverlayPriority) : bool :=
  N.leb (OverlayPriority_disc p) (OverlayPriority_disc q).

Inductive OverlayKeyResult := Consumed | Pass | Dismiss.

(** The trait; [handle_key] has its state as a result. *)
Class UiOverlay (O : Type) := {
  ov_id : O → string;
  ov_visible : O → bool;
  ov_priority : O → OverlayPriority;
  ov_handle_key : O → string → O * OverlayKeyResult;
  ov_captures_input : O → bool
}.

(** What the manager relies on for its order: a key does not change an overlay's priority. *)
Class UiOverlayLaws (O : Type) `{UiOverlay O} := {
  handle_key_priority o key : ov_priority (fst (ov_handle_key o key)) = ov_priority o
}.

(** The default of [handle_key]. *)
Definition default_handle_key {O} (o : O) (key : string) : O * OverlayKeyResult := (o, Pass).

(** The default of [captures_input]. *)
Definition default_captures_input {O} (o : O) : bool := false.

(** The adapters, over what they read of the components they wrap:
    [ActionPalette::is_open] and [ModeHud::are_animations_ongoing]. *)
Record ActionPaletteOverlay := MkActionPaletteOverlay { apo_is_open : bool }.
Record ModeHudOverlay := MkModeHudOverlay { mho_ongoing : bool }.

#[export] Instance ActionPaletteOverlay_ui : UiOverlay ActionPaletteOverlay := {|
  ov_id o := "action-palette"%string;
  ov_visible o := apo_is_open o;
  ov_priority o := ActionPalettePrio;
  ov_handle_key := default_handle_key;
  ov_captures_input o := true
|}.

#[export] Instance ModeHudOverlay_ui : UiOverlay ModeHudOverlay := {|
  ov_id o := "mode-hud"%string;
  ov_visible o := mho_ongoing o;
  ov_priority o := ModeHudPrio;
  ov_handle_key := default_handle_key;
  ov_captures_input o := false
|}.

#[export] Instance ActionPaletteOverlay_laws : UiOverlayLaws ActionPaletteOverlay.
Proof. by constructor. Qed.

#[export] Instance ModeHudOverlay_laws : UiOverlayLaws ModeHudOverlay.
Proof. by constructor. Qed.

(** [Box<dyn UiOverlay>] of a lawful implementation, and its methods by dynamic dispatch. *)
Record DynOverlay := MkDyn {
  dyn_type : Type;
  dyn_impl : UiOverlay dyn_type;
  dyn_laws : UiOverlayLaws dyn_type;
  dyn_self : dyn_type
}.

#[export] Instance DynOverlay_ui : UiOverlay DynOverlay := {|
  ov_id o := @ov_id _ (dyn_impl o) (dyn_self o);
  ov_visible o := @ov_visible _ (dyn_impl o) (dyn_self o);
  ov_priority o := @ov_priority _ (dyn_impl o) (dyn_self o);
  ov_handle_key o key :=
    let '(self, r) := @ov_handle_key _ (dyn_impl o) (dyn_self o) key in
    (MkDyn (dyn_type o) (dyn_impl o) (dyn_laws o) self, r);
  ov_captures_input o := @ov_captures_input _ (dyn_impl o) (dyn_self o)
|}.

#[export] Instance DynOverlay_laws : UiOverlayLaws DynOverlay.
Proof.
  constructor. intros [T impl laws self] key. simpl.
  rewrite <-(@handle_key_priority T impl laws self key). by destruct (ov_handle_key self key).
Qed.

Section manager.
Context {O : Type} `{UiOverlay O}.

Record OverlayManager := MkOverlayManager {
  om_overlays : list O;
  om_input_captured_by : option string
}.

(** ** Operations *)
Definition OverlayManager_new : OverlayManager := MkOverlayManager [] None.

Definition overlay_leb (a b : O) : bool := priority_leb (ov_priority a) (ov_priority b).

Definition register (m : OverlayManager) (o : O) : OverlayManager :=
  MkOverlayManager (stable_sort overlay_leb (om_overlays m ++ [o])) (om_input_captured_by m).

Definition topmost_visible (m : OverlayManager) : option O :=
  head (List.filter ov_visible (om_overlays m)).

Definition is_input_captured (m : OverlayManager) : bool :=
  match topmost_visible m with Some o => ov_captures_input o | None => false end.

(** [handle_key] on the first visible overlay, which is replaced by its new state. *)
Fixpoint handle_topmost (key : string) (os : list O) : list O * option OverlayKeyResult :=
  match os with
  | [] => ([], None)
  | o :: os =>
      if ov_visible o then
        if ov_captures_input o then
          let '(o, r) := ov_handle_key o key in (o :: os, Some r)
        else (o :: os, None)
      else let '(os, r) := handle_topmost key os in (o :: os, r)
  end.

Definition route_key (m : OverlayManager) (key : string) : OverlayManager * bool :=
  let '(os, r) := handle_topmost key (om_overlays m) in
  match r with
  | Some Consumed => (MkOverlayManager os (om_input_captured_by m), true)
  | Some Dismiss => (MkOverlayManager os None, true)
  | Some Pass | None => (MkOverlayManager os (om_input_captured_by m), false)
  end.

Definition is_blocking (m : OverlayManager) (priority : OverlayPriority) : bool :=
  existsb (λ o, priority_leb (ov_priority o) priority) (List.filter ov_visible (om_overlays m)).

Definition notify_visibility_changed (m : OverlayManager) (overlay_id : string) (visible : bool) :
    OverlayManager :=
  if visible then
    match List.find (λ o, String.eqb (ov_id o) overlay_id && ov_captures_input o) (om_overlays m) with
    | Some o => MkOverlayManager (om_overlays m) (Some (ov_id o))
    | None => m
    end
  else if bool_decide (om_input_captured_by m = Some overlay_id)
  then MkOverlayManager (om_overlays m) None
  else m.

(** The calls of the manager that change its state. *)
Inductive overlay_step : OverlayManager → OverlayManager → Prop :=
  | step_register m o : overlay_step m (register m o)
  | step_key m key : overlay_step m (fst (route_key m key))
  | step_notify m id visible : overlay_step m (notify_visibility_changed m id visible).

Definition overlays_sorted (m : OverlayManager) : Prop :=
  StronglySorted (λ a b, overlay_leb a b = true) (om_overlays m).

(** ** Lemmas *)
Lemma overlay_leb_total a b : overlay_leb a b = true ∨ overlay_leb b a = true.
Proof. unfold overlay_leb, priority_leb. rewrite !N.leb_le. lia. Qed.

Lemma overlay_leb_trans a b c :
  overlay_leb a b = true → overlay_leb b c = true → overlay_leb a c = true.
Proof. unfold overlay_leb, priority_leb. rewrite !N.leb_le. lia. Qed.

(** A key keeps the priorities of all overlays, in order. *)
Lemma handle_topmost_priorities `{!UiOverlayLaws O} key os :
  ov_priority <$> fst (handle_topmost key os) = ov_priority <$> os.
Proof.
  induction os as [|o os IH]; [done|]. cbn [handle_topmost].
  destruct (ov_visible o).
  - destruct (ov_captures_input o); [|done].
    pose proof (handle_key_priority o key) as Hp.
    destruct (ov_handle_key o key); simpl in *. by rewrite Hp.
  - destruct (handle_topmost key os) as [os' r]. change (ov_priority o :: (ov_priority <$> os') =
      ov_priority o :: (ov_priority <$> os)).
    f_equal. exact IH.
Qed.

Lemma sorted_by_priorities os os' :
  ov_priority <$> os' = ov_priority <$> os →
  StronglySorted (λ a b, overlay_leb a b = true) os →
  StronglySorted (λ a b, overlay_leb a b = true) os'.
Proof.
  intros Heq Hs. revert os' Heq.
  induction Hs as [|o os Hs IH Hf]; intros [|o' os'] Heq; try discriminate; [constructor|].
  injection Heq as Hp Heq. constructor; [by apply IH|].
  rewrite Forall_forall in Hf |- *. intros x Hx.
  assert (Hin : ov_priority x ∈ ov_priority <$> os)
    by (replace (ov_priority <$> os) with (ov_priority <$> os'); by apply list_elem_of_fmap_2).
  apply list_elem_of_fmap in Hin as (y & Hxy & Hy). specialize (Hf y Hy).
  unfold overlay_leb in *. by rewrite Hp, Hxy.
Qed.

Lemma route_key_overlays m key :
  om_overlays (fst (route_key m key)) = fst (handle_topmost key (om_overlays m)).
Proof. unfold route_key. by destruct (handle_topmost key _) as [? [[]|]]. Qed.

Lemma overlay_step_sorted `{!UiOverlayLaws O} m m' :
  overlay_step m m' → overlays_sorted m → overlays_sorted m'.
Proof.
  intros [|? key|? id visible] Hs; unfold overlays_sorted in *.
  - apply stable_sort_sorted; [apply overlay_leb_total|apply overlay_leb_trans].
  - rewrite route_key_overlays. eapply sorted_by_priorities, Hs. apply handle_topmost_priorities.
  - unfold notify_visibility_changed. repeat split_match; done.
Qed.

(** ** Properties *)

(** Invariant of the overlay manager. However overlays are registered, notified and
    given keys, provided a key never changes an overlay's priority, the topmost visible overlay
    is a visible one of the least discriminant among the visible overlays (there is one exactly
    when some overlay is visible), and [is_blocking] compares its priority. *)
Theorem topmost_has_priority `{!UiOverlayLaws O} m :
  rtc overlay_step OverlayManager_new m →
  (topmost_visible m = None ↔ ∀ o, o ∈ om_overlays m → ov_visible o = false) ∧
  (∀ o, topmost_visible m = Some o →
    o ∈ om_overlays m ∧ ov_visible o = true ∧
    ∀ o', o' ∈ om_overlays m → ov_visible o' = true →
      priority_leb (ov_priority o) (ov_priority o') = true) ∧
  (∀ p, is_blocking m p =
    match topmost_visible m with Some o => priority_leb (ov_priority o) p | None => false end).
Proof.
  intros Hr. assert (Hs : overlays_sorted m).
  { assert (H0 : overlays_sorted OverlayManager_new) by constructor. revert H0.
    induction Hr as [|x y z Hxy Hyz IH]; intros Hx; [done|]. eauto using overlay_step_sorted. }
  unfold overlays_sorted in Hs. apply (StronglySorted_filter _ ov_visible) in Hs.
  assert (Hin : ∀ o, o ∈ List.filter ov_visible (om_overlays m) ↔
    o ∈ om_overlays m ∧ ov_visible o = true).
  { intros o. by rewrite list_elem_of_In, List.filter_In, <-list_elem_of_In. }
  unfold topmost_visible, is_blocking.
  destruct (List.filter ov_visible (om_overlays m)) as [|o l]; simpl.
  - split_and!; [|done|done]. split; [|done]. intros _ o Ho.
    destruct (ov_visible o) eqn:E; [|done]. by destruct (not_elem_of_nil o (proj2 (Hin o) (conj Ho E))).
  - apply StronglySorted_inv in Hs as [_ Hf].
    split_and!.
    + split; [done|]. intros Hv. destruct (proj1 (Hin o) (list_elem_of_here _ _)) as [? Ho].
      by rewrite Hv in Ho.
    + intros ? [= <-]. destruct (proj1 (Hin o) (list_elem_of_here _ _)) as [? ?].
      split_and!; [done..|]. intros o' Ho' Hv'.
      destruct (proj1 (elem_of_cons l o' o) (proj2 (Hin o') (conj Ho' Hv'))) as [->|Hl].
      * unfold priority_leb. apply N.leb_le. lia.
      * by apply (proj1 (Forall_forall _ _) Hf).
    + intros p. destruct (priority_leb (ov_priority o) p) eqn:E; [done|]. simpl.
      apply not_true_iff_false. rewrite existsb_exists. intros (o' & Ho'%list_elem_of_In & Hp).
      apply (proj1 (Forall_forall _ _) Hf) in Ho'. unfold overlay_leb in Ho'.
      unfold priority_leb in *. rewrite N.leb_le in *. rewrite N.leb_gt in E. lia.
Qed.
End manager.
Arguments OverlayManager : clear implicits.

Definition boxed {O} `{UiOverlayLaws O} (o : O) : DynOverlay := MkDyn O _ _ o.

Definition sample_manager : OverlayManager DynOverlay :=
  register (register OverlayManager_new (boxed (MkModeHudOverlay true)))
    (boxed (MkActionPaletteOverlay true)).

Lemma topmost_has_priority_witness :
  rtc overlay_step OverlayManager_new sample_manager ∧
  topmost_visible sample_manager = Some (boxed (MkActionPaletteOverlay true)) ∧
  is_blocking sample_manager PowerMenu = true.
Proof.
  assert (Hr : rtc overlay_step OverlayManager_new sample_manager).
  { eapply rtc_l; [apply step_register|]. eapply rtc_l; [apply step_register|]. apply rtc_refl. }
  split; [exact Hr|]. split; [reflexivity|].
  rewrite (proj2 (proj2 (topmost_has_priority sample_manager Hr)) PowerMenu). reflexivity.
Defined.

End Overlay.
