(* ===== verification/LiquidBudget.v ===== *)
(** * The performance budget (src/liquid/performance_budget.rs)

    Frame times are tracked over a window; a counter of dropped frames lowers the quality of
    the material effects and good times raise it again, both at a limited rate.

    A [Duration] is its number of nanoseconds, an [Instant] the nanoseconds since some origin;
    [None] is a panic (overflow of a counter or of a duration, or a duration from a float that
    is negative, too large or not a number). *)
From S2P Require Import Prelude Float64 Duration LiquidBus.
From Stdlib Require Import SpecFloat.

Local Open Scope N_scope.

(** ** Sums *)

(** [iter().sum::<Duration>()]. *)
Definition sum_durations (l : list N) : option N :=
  foldl (λ acc d, a ← acc; if a + d <? duration_end then Some (a + d) else None) (Some 0) l.

(** [Instant::elapsed] at a later reading of the clock; saturates at zero. *)
Definition elapsed (since now : N) : N := now - since.

(** ** Data *)
Inductive QualityLevel := QHigh | QMedium | QLow | QSafe.

(** The discriminants, which the derived [Ord] compares. *)
Definition level (q : QualityLevel) : N :=
  match q with QHigh => 0 | QMedium => 1 | QLow => 2 | QSafe => 3 end.

Definition QualityLevel_name (q : QualityLevel) : string :=
  match q with QHigh => "HIGH" | QMedium => "MEDIUM" | QLow => "LOW" | QSafe => "SAFE" end.

(** [niri_config::PerformanceBudget]. *)
Record PerformanceBudget := MkPerformanceBudget {
  pb_target_fps : N;
  pb_max_blur_passes : N;
  pb_disable_dispersion_on_battery : bool;
  pb_downgrade_material_on_frame_drop : bool;
  pb_quality_levels : list string
}.

Definition PerformanceBudget_default : PerformanceBudget :=
  MkPerformanceBudget 60 3 true false
    ["hologram-film"; "liquid-mocha"; "acrylic-smoke"; "safe-solid"]%string.

Record PerformanceBudgetPart := MkPerformanceBudgetPart {
  pbp_target_fps : option N;
  pbp_max_blur_passes : option N;
  pbp_disable_dispersion_on_battery : option bool;
  pbp_downgrade_material_on_frame_drop : option bool
}.

Definition PerformanceBudget_merge_with (b : PerformanceBudget) (p : PerformanceBudgetPart) :
    PerformanceBudget :=
  MkPerformanceBudget
    (default b.(pb_target_fps) p.(pbp_target_fps))
    (default b.(pb_max_blur_passes) p.(pbp_max_blur_passes))
    (default b.(pb_disable_dispersion_on_battery) p.(pbp_disable_dispersion_on_battery))
    (default b.(pb_downgrade_material_on_frame_drop) p.(pbp_downgrade_material_on_frame_drop))
    b.(pb_quality_levels).

Record PerformanceBudgetManager := MkBudget {
  target_frame_duration : N;
  max_blur_passes : N;
  disable_dispersion_on_battery : bool;
  downgrade_on_frame_drop : bool;
  frame_times : list N;
  max_samples : nat;
  current_quality : QualityLevel;
  consecutive_drops : N;
  last_quality_change : N;
  quality_cooldown : N;
  on_battery : bool;
  drop_threshold : f64
}.

Definition u32_max : N := 4294967295.

(** ** Operations *)

(** The literal [1.5]. *)
Definition f64_three_halves : f64 := f64_div (f64_of_Z 3) (f64_of_Z 2).

Definition PerformanceBudgetManager_new (config : PerformanceBudget) (now : N) :
    option PerformanceBudgetManager :=
  d ← from_secs_f64 (f64_div f64_one (f64_of_Z (Z.of_N config.(pb_target_fps))));
  Some (MkBudget d config.(pb_max_blur_passes) config.(pb_disable_dispersion_on_battery)
    config.(pb_downgrade_material_on_frame_drop) [] 60 QHigh 0 now (from_secs 2) false
    f64_three_halves).

Definition average_frame_time (m : PerformanceBudgetManager) : option N :=
  match m.(frame_times) with
  | [] => Some 0
  | ts => total ← sum_durations ts; Some (total / N.of_nat (length ts))
  end.

Definition push_frame_time (m : PerformanceBudgetManager) (frame_time : N) :
    PerformanceBudgetManager :=
  let times := m.(frame_times) ++ [frame_time] in
  let times := if (m.(max_samples) <? length times)%nat then tail times else times in
  MkBudget m.(target_frame_duration) m.(max_blur_passes) m.(disable_dispersion_on_battery)
    m.(downgrade_on_frame_drop) times m.(max_samples) m.(current_quality)
    m.(consecutive_drops) m.(last_quality_change) m.(quality_cooldown) m.(on_battery)
    m.(drop_threshold).

Definition set_drops (m : PerformanceBudgetManager) (drops : N) : PerformanceBudgetManager :=
  MkBudget m.(target_frame_duration) m.(max_blur_passes) m.(disable_dispersion_on_battery)
    m.(downgrade_on_frame_drop) m.(frame_times) m.(max_samples) m.(current_quality)
    drops m.(last_quality_change) m.(quality_cooldown) m.(on_battery) m.(drop_threshold).

Definition set_quality (m : PerformanceBudgetManager) (q : QualityLevel) (now : N) :
    PerformanceBudgetManager :=
  MkBudget m.(target_frame_duration) m.(max_blur_passes) m.(disable_dispersion_on_battery)
    m.(downgrade_on_frame_drop) m.(frame_times) m.(max_samples) q
    m.(consecutive_drops) now m.(quality_cooldown) m.(on_battery) m.(drop_threshold).

(** The count of drops after a frame: a dropped frame adds one, a good one takes one away. *)
Definition count_drop (m : PerformanceBudgetManager) (is_drop : bool) :
    option PerformanceBudgetManager :=
  if is_drop then
    if m.(consecutive_drops) <? u32_max then Some (set_drops m (m.(consecutive_drops) + 1)) else None
  else Some (set_drops m (m.(consecutive_drops) - 1)).

Definition lower_quality (q : QualityLevel) : QualityLevel :=
  match q with QHigh => QMedium | QMedium => QLow | QLow => QSafe | QSafe => QSafe end.

Definition raise_quality (q : QualityLevel) : QualityLevel :=
  match q with QSafe => QLow | QLow => QMedium | QMedium => QHigh | QHigh => QHigh end.

(** The readings of the clock that one call can take, in order: for the guard of the downgrade,
    the time of the downgrade, the guard of the upgrade, the time of the upgrade. *)
Record Readings := MkReadings { t_down : N; t_down_set : N; t_up : N; t_up_set : N }.

Definition downgrade_step (m : PerformanceBudgetManager) (rd : Readings) : PerformanceBudgetManager :=
  if (5 <=? m.(consecutive_drops)) && (level m.(current_quality) <? level QSafe)
     && (m.(quality_cooldown) <? elapsed m.(last_quality_change) rd.(t_down))
  then set_drops (set_quality m (lower_quality m.(current_quality)) rd.(t_down_set)) 0
  else m.

Definition upgrade_step (m : PerformanceBudgetManager) (rd : Readings) :
    option PerformanceBudgetManager :=
  if (m.(consecutive_drops) =? 0) && (level QHigh <? level m.(current_quality)) then
    average ← average_frame_time m;
    Some (if (average <? m.(target_frame_duration))
             && (from_secs 10 <? elapsed m.(last_quality_change) rd.(t_up))
          then set_quality m (raise_quality m.(current_quality)) rd.(t_up_set)
          else m)
  else Some m.

Definition record_frame (m : PerformanceBudgetManager) (frame_time : N) (rd : Readings) :
    option (PerformanceBudgetManager * QualityLevel) :=
  let m := push_frame_time m frame_time in
  if negb m.(downgrade_on_frame_drop) then Some (m, m.(current_quality))
  else
    limit ← mul_f64 m.(target_frame_duration) m.(drop_threshold);
    m ← count_drop m (limit <? frame_time);
    let m := downgrade_step m rd in
    m ← upgrade_step m rd;
    Some (m, m.(current_quality)).

Definition effective_blur_passes (m : PerformanceBudgetManager) : N :=
  match m.(current_quality) with
  | QHigh => m.(max_blur_passes)
  | QMedium => N.min m.(max_blur_passes) 2
  | QLow => N.min m.(max_blur_passes) 1
  | QSafe => 0
  end.

Definition disable_dispersion (m : PerformanceBudgetManager) : bool :=
  (m.(on_battery) && m.(disable_dispersion_on_battery))
  || (level m.(current_quality) <=? level QMedium).

Definition quality_level (m : PerformanceBudgetManager) : QualityLevel := m.(current_quality).

Definition current_fps (m : PerformanceBudgetManager) : option f64 :=
  avg ← average_frame_time m;
  Some (if avg =? 0 then f64_zero else f64_div f64_one (as_secs_f64 avg)).

Definition set_battery_state (m : PerformanceBudgetManager) (b : bool) : PerformanceBudgetManager :=
  MkBudget m.(target_frame_duration) m.(max_blur_passes) m.(disable_dispersion_on_battery)
    m.(downgrade_on_frame_drop) m.(frame_times) m.(max_samples) m.(current_quality)
    m.(consecutive_drops) m.(last_quality_change) m.(quality_cooldown) b m.(drop_threshold).

Definition quality_just_changed (m : PerformanceBudgetManager) (now : N) : option QualityLevel :=
  if elapsed m.(last_quality_change) now <? from_millis 500 then Some m.(current_quality) else None.

(** The frames of a session, each with the readings of its call. *)
Fixpoint record_frames (m : PerformanceBudgetManager) (frames : list (N * Readings)) :
    option PerformanceBudgetManager :=
  match frames with
  | [] => Some m
  | (frame_time, rd) :: frames =>
      r ← record_frame m frame_time rd; record_frames (fst r) frames
  end.

(** A monotonic clock: the readings of a session never go back. *)
Fixpoint clock_ok (now : N) (frames : list (N * Readings)) : Prop :=
  match frames with
  | [] => True
  | (_, rd) :: frames =>
      now <= rd.(t_down) ∧ rd.(t_down) <= rd.(t_down_set) ∧ rd.(t_down_set) <= rd.(t_up) ∧
      rd.(t_up) <= rd.(t_up_set) ∧ clock_ok rd.(t_up_set) frames
  end.

(** The frames of a session that count as dropped. *)
Definition dropped (m : PerformanceBudgetManager) (frames : list (N * Readings)) : nat :=
  match mul_f64 m.(target_frame_duration) m.(drop_threshold) with
  | Some limit => length (List.filter (λ f, limit <? fst f) frames)
  | None => 0
  end.

(** ** Lemmas *)

(** The fields that recording frames does not touch. *)
Definition same_settings (m m' : PerformanceBudgetManager) : Prop :=
  m'.(target_frame_duration) = m.(target_frame_duration) ∧
  m'.(max_blur_passes) = m.(max_blur_passes) ∧
  m'.(disable_dispersion_on_battery) = m.(disable_dispersion_on_battery) ∧
  m'.(downgrade_on_frame_drop) = m.(downgrade_on_frame_drop) ∧
  m'.(max_samples) = m.(max_samples) ∧ m'.(quality_cooldown) = m.(quality_cooldown) ∧
  m'.(on_battery) = m.(on_battery) ∧ m'.(drop_threshold) = m.(drop_threshold).

(** The quality moves at a limited rate: a step down takes two seconds and a step up ten, and
    five dropped frames pay for a step down. *)
Record paced (m m' : PerformanceBudgetManager) (drops : N) : Prop := {
  paced_time : m.(last_quality_change) <= m'.(last_quality_change);
  paced_down : from_secs 2 * (level m'.(current_quality) - level m.(current_quality)) <=
    m'.(last_quality_change) - m.(last_quality_change);
  paced_up : from_secs 10 * (level m.(current_quality) - level m'.(current_quality)) <=
    m'.(last_quality_change) - m.(last_quality_change);
  paced_drops : 5 * level m'.(current_quality) + m'.(consecutive_drops) <=
    5 * level m.(current_quality) + m.(consecutive_drops) + drops
}.

Lemma paced_refl m : paced m m 0.
Proof. split; lia. Qed.

Lemma paced_trans m1 m2 m3 d1 d2 : paced m1 m2 d1 → paced m2 m3 d2 → paced m1 m3 (d1 + d2).
Proof. intros [] []; split; unfold from_secs, NANOS_PER_SEC in *; lia. Qed.

Lemma level_lower q : level q < level QSafe → level (lower_quality q) = level q + 1.
Proof. destruct q; simpl; lia. Qed.

Lemma level_raise q : level QHigh < level q → level q = level (raise_quality q) + 1.
Proof. destruct q; simpl; lia. Qed.

Lemma downgrade_paced m rd :
  m.(quality_cooldown) = from_secs 2 → m.(last_quality_change) <= rd.(t_down) →
  rd.(t_down) <= rd.(t_down_set) → paced m (downgrade_step m rd) 0.
Proof.
  intros Hc Hl Ht. unfold downgrade_step, elapsed. split_match; [|apply paced_refl].
  rewrite !andb_true_iff, N.leb_le, !N.ltb_lt in *. destruct_and?.
  rewrite Hc in *. unfold from_secs, NANOS_PER_SEC in *.
  split; simpl; unfold from_secs, NANOS_PER_SEC; rewrite ?level_lower by done; lia.
Qed.

Lemma upgrade_paced m rd m' :
  m.(last_quality_change) <= rd.(t_up) → rd.(t_up) <= rd.(t_up_set) →
  upgrade_step m rd = Some m' → paced m m' 0.
Proof.
  intros Hl Ht. unfold upgrade_step, elapsed. split_match; [|intros [= <-]; apply paced_refl].
  destruct (average_frame_time m) as [avg|]; [|done]. intros [= <-].
  split_match; [|apply paced_refl].
  rewrite !andb_true_iff, ?N.eqb_eq, !N.ltb_lt in *. destruct_and?.
  pose proof (level_raise (current_quality m) ltac:(done)).
  unfold from_secs, NANOS_PER_SEC in *.
  split; simpl; unfold from_secs, NANOS_PER_SEC; lia.
Qed.

Lemma count_drop_paced m b m' : count_drop m b = Some m' → paced m m' (if b then 1 else 0).
Proof.
  unfold count_drop. repeat split_match; intros ?; simplify_eq; split; simpl; lia.
Qed.

Lemma push_frame_time_paced m frame_time : paced m (push_frame_time m frame_time) 0.
Proof. split; simpl; lia. Qed.

Lemma push_frame_time_newest m log frame_time :
  m.(frame_times) = StateBus.newest m.(max_samples) log →
  frame_times (push_frame_time m frame_time) = StateBus.newest m.(max_samples) (log ++ [frame_time]).
Proof.
  intros Hm. simpl. rewrite Hm, length_app, StateBus.length_newest. simpl.
  destruct (Nat.ltb_spec (max_samples m) (Nat.min (max_samples m) (length log) + 1)).
  - unfold StateBus.newest. rewrite length_app. simpl.
    replace (length log + 1 - max_samples m)%nat with (length log - max_samples m + 1)%nat by lia.
    rewrite <-drop_drop, (drop_app_le _ [frame_time]) by lia. by destruct (drop _ _ ++ _).
  - unfold StateBus.newest. rewrite length_app. simpl.
    by rewrite !(proj2 (Nat.sub_0_le _ _)) by lia.
Qed.

Lemma downgrade_settings m rd :
  same_settings m (downgrade_step m rd) ∧ frame_times (downgrade_step m rd) = frame_times m ∧
  (last_quality_change (downgrade_step m rd) = m.(last_quality_change) ∨
   last_quality_change (downgrade_step m rd) = rd.(t_down_set)).
Proof. unfold downgrade_step. split_match; unfold same_settings; simpl; auto 10. Qed.

Lemma upgrade_settings m rd m' :
  upgrade_step m rd = Some m' →
  same_settings m m' ∧ frame_times m' = frame_times m ∧
  (m'.(last_quality_change) = m.(last_quality_change) ∨ m'.(last_quality_change) = rd.(t_up_set)).
Proof.
  unfold upgrade_step. split_match; [|intros [= <-]; unfold same_settings; auto 10].
  destruct (average_frame_time m); [|done]. intros [= <-].
  split_match; unfold same_settings; simpl; auto 10.
Qed.

Lemma count_drop_settings m b m' :
  count_drop m b = Some m' →
  same_settings m m' ∧ frame_times m' = frame_times m ∧
  m'.(last_quality_change) = m.(last_quality_change).
Proof. unfold count_drop. repeat split_match; intros ?; simplify_eq; unfold same_settings; auto 10. Qed.

Lemma same_settings_trans m1 m2 m3 :
  same_settings m1 m2 → same_settings m2 m3 → same_settings m1 m3.
Proof. unfold same_settings. intuition congruence. Qed.

(** One recorded frame. *)
Lemma record_frame_step m frame_time rd m' q :
  m.(quality_cooldown) = from_secs 2 → m.(last_quality_change) <= rd.(t_down) →
  rd.(t_down) <= rd.(t_down_set) → rd.(t_down_set) <= rd.(t_up) → rd.(t_up) <= rd.(t_up_set) →
  record_frame m frame_time rd = Some (m', q) →
  q = m'.(current_quality) ∧ same_settings m m' ∧
  frame_times m' = frame_times (push_frame_time m frame_time) ∧
  m'.(last_quality_change) <= rd.(t_up_set) ∧
  paced m m' (N.of_nat (dropped m [(frame_time, rd)])) ∧
  (m.(downgrade_on_frame_drop) = false → m'.(current_quality) = m.(current_quality)).
Proof.
  intros Hc H1 H2 H3 H4. unfold record_frame.
  assert (Hp : same_settings m (push_frame_time m frame_time)) by (unfold same_settings; auto 10).
  pose proof (push_frame_time_paced m frame_time) as Pp.
  set (mp := push_frame_time m frame_time) in *.
  assert (Hlp : last_quality_change mp = last_quality_change m) by done.
  assert (Hqp : current_quality mp = current_quality m) by done.
  assert (Hdp : dropped m [(frame_time, rd)] = dropped mp [(frame_time, rd)]) by done.
  rewrite Hdp. clear Hdp. clearbody mp. split_match.
  { intros [= <- <-]. split_and!; try done; [lia|].
    replace (N.of_nat _) with (0 + N.of_nat (dropped mp [(frame_time, rd)])) by lia.
    eapply paced_trans; [done|]. split; lia. }
  destruct (mul_f64 _ _) as [limit|] eqn:El; [|done]. simpl.
  destruct (count_drop mp _) as [mc|] eqn:Ec; [|done]. simpl.
  destruct (upgrade_step _ rd) as [mu|] eqn:Eu; [|done]. intros [= <- <-].
  pose proof (count_drop_settings _ _ _ Ec) as (Sc & Fc & Lc).
  pose proof (downgrade_settings mc rd) as (Sd & Fd & Ld).
  pose proof (upgrade_settings _ _ _ Eu) as (Su & Fu & Lu).
  assert (Pd : paced mc (downgrade_step mc rd) 0).
  { apply downgrade_paced; [|lia..]. destruct Hp as (_&_&_&_&_&Hp&_), Sc as (_&_&_&_&_&Sc&_).
    congruence. }
  assert (Pu : paced (downgrade_step mc rd) mu 0) by (eapply upgrade_paced; [..|done]; lia).
  pose proof (count_drop_paced _ _ _ Ec) as Pc.
  split_and!; [done|eauto using same_settings_trans|congruence|lia| |].
  - unfold dropped. rewrite El. simpl.
    replace (N.of_nat _) with (0 + ((if limit <? frame_time then 1 else 0) + (0 + 0)))
      by (destruct (limit <? frame_time); simpl; lia).
    eauto using paced_trans.
  - intros Hm. destruct Hp as (_&_&_&Hp&_). rewrite Hp, Hm in *. done.
Qed.

Lemma dropped_cons m m' f frames :
  same_settings m m' → dropped m (f :: frames) = (dropped m [f] + dropped m' frames)%nat.
Proof.
  intros (H1&_&_&_&_&_&_&H2). unfold dropped. rewrite H1, H2.
  destruct (mul_f64 _ _) as [limit|]; [|done]. simpl. by destruct (limit <? fst f).
Qed.

Lemma clock_ok_weaken t t' frames : t <= t' → clock_ok t' frames → clock_ok t frames.
Proof. destruct frames as [|[ft rd] frames]; simpl; [done|]. intuition lia. Qed.

Lemma sum_durations_bound c l acc :
  Forall (λ d, d <= c) l → acc + N.of_nat (length l) * c < duration_end →
  ∃ total, foldl (λ acc d, a ← acc; if a + d <? duration_end then Some (a + d) else None)
    (Some acc) l = Some total.
Proof.
  intros Hl. revert acc. induction Hl as [|d l Hd Hl IH]; intros acc Hb; simpl; [eauto|].
  cbn [length] in Hb. rewrite (proj2 (N.ltb_lt _ _)) by nia. apply IH. nia.
Qed.

Lemma push_frame_time_bounds (P : N → Prop) m frame_time :
  Forall P (frame_time :: frame_times m) →
  Forall P (frame_times (push_frame_time m frame_time)) ∧
  (length (frame_times (push_frame_time m frame_time)) <= S (length (frame_times m)))%nat.
Proof.
  intros [Hf Ht]%Forall_cons. simpl.
  assert (Ha : Forall P (frame_times m ++ [frame_time])) by (apply Forall_app; auto).
  assert (Hl : length (frame_times m ++ [frame_time]) = S (length (frame_times m)))
    by (rewrite length_app; simpl; lia).
  split_match; [|by rewrite Hl]. destruct (frame_times m ++ [frame_time]); [done|].
  apply Forall_cons in Ha as [_ Ha]. simpl in *. split; [done|lia].
Qed.

(** ** Properties *)

(** Rate limits of the adaptive quality. Over any sequence of frames under a
    monotonic clock that does not panic, the window holds the newest 60 frame times, each step
    down of the quality costs two seconds and five dropped frames, each step up costs ten
    seconds, and with [downgrade_on_frame_drop] off the quality never changes. *)
Theorem quality_is_rate_limited m log frames m' :
  m.(quality_cooldown) = from_secs 2 →
  m.(frame_times) = StateBus.newest m.(max_samples) log →
  clock_ok m.(last_quality_change) frames →
  record_frames m frames = Some m' →
  m'.(frame_times) = StateBus.newest m.(max_samples) (log ++ (fst <$> frames)) ∧
  paced m m' (N.of_nat (dropped m frames)) ∧
  (m.(downgrade_on_frame_drop) = false → m'.(current_quality) = m.(current_quality)).
Proof.
  revert m log. induction frames as [|[ft rd] frames IH]; intros m log Hc Hw Hk Hr.
  - injection Hr as <-. rewrite app_nil_r. split_and!; [done| |done].
    unfold dropped. destruct (mul_f64 _ _); apply paced_refl.
  - simpl in Hk, Hr. destruct Hk as (H1 & H2 & H3 & H4 & Hk).
    destruct (record_frame m ft rd) as [[m1 q]|] eqn:E; [|done]. simpl in Hr.
    apply record_frame_step in E as (_ & Hs & Hf & Hl & Hp & Hq); [|done..].
    pose proof Hs as (_&_&_&Hd&Hm&Hc'&_).
    destruct (IH m1 (log ++ [ft])) as (Hw' & Hp' & Hq').
    + congruence.
    + rewrite Hf, Hm. by apply push_frame_time_newest.
    + eapply clock_ok_weaken; [exact Hl|done].
    + done.
    + rewrite Hw', Hm, <-app_assoc. split_and!; [done| |].
      * rewrite (dropped_cons m m1) by done. rewrite Nat2N.inj_add. by eapply paced_trans.
      * intros Hoff. rewrite Hq', Hq by congruence. done.
Qed.

(** A manager with the default target of 60 frames per second and downgrades on. *)
Definition sample_budget : PerformanceBudgetManager :=
  MkBudget 16666667 3 true true [] 60 QHigh 0 0 (from_secs 2) false f64_three_halves.

Definition sample_frames : list (N * Readings) :=
  (λ t, (from_millis 40, MkReadings t t t t)) <$>
    [from_secs 1; from_secs 1; from_secs 2; from_secs 3; from_secs 4].

Lemma quality_is_rate_limited_witness :
  PerformanceBudgetManager_new
    (MkPerformanceBudget 60 3 true true []) 0 = Some sample_budget ∧
  ∃ m', record_frames sample_budget sample_frames = Some m' ∧
    m'.(current_quality) = QMedium ∧ dropped sample_budget sample_frames = 5%nat ∧
    paced sample_budget m' 5.
Proof.
  split; [vm_compute; reflexivity|].
  destruct (record_frames sample_budget sample_frames) as [m'|] eqn:E; [|by vm_compute in E].
  exists m'. split; [reflexivity|]. split; [by vm_compute in E; injection E as <-|].
  split; [vm_compute; reflexivity|].
  refine (proj1 (proj2 (quality_is_rate_limited sample_budget [] sample_frames m'
    eq_refl eq_refl _ E))).
  vm_compute. repeat split; discriminate.
Defined.

(** A frame is recorded without a panic. When the frame-drop limit of the
    configured frame rate is representable, the window is within its 60 samples, none of them
    longer than 2^57 seconds, and the counter of drops is below its maximum, [record_frame]
    returns. *)
Theorem record_frame_total m frame_time rd limit :
  mul_f64 m.(target_frame_duration) m.(drop_threshold) = Some limit →
  m.(max_samples) = 60%nat → (length m.(frame_times) <= 60)%nat →
  Forall (λ d, d <= from_secs (2 ^ 57)) (frame_time :: m.(frame_times)) →
  m.(consecutive_drops) < u32_max →
  is_Some (record_frame m frame_time rd).
Proof.
  intros Hl Hm Hn Hf Hc. unfold record_frame. split_match; [done|].
  change (target_frame_duration (push_frame_time m frame_time)) with (target_frame_duration m).
  change (drop_threshold (push_frame_time m frame_time)) with (drop_threshold m).
  rewrite Hl. simpl.
  destruct (count_drop _ _) as [mc|] eqn:Ec; simpl.
  2: { unfold count_drop in Ec. simpl in Ec. rewrite (proj2 (N.ltb_lt _ _) Hc) in Ec.
       by destruct (limit <? frame_time). }
  apply count_drop_settings in Ec as (_ & Hfc & _).
  destruct (downgrade_settings mc rd) as (_ & Hfd & _).
  assert (Ha : is_Some (average_frame_time (downgrade_step mc rd))).
  { unfold average_frame_time. rewrite Hfd, Hfc.
    destruct (push_frame_time_bounds (λ d, d <= from_secs (2 ^ 57)) m frame_time Hf) as [Hts Hlen].
    destruct (frame_times (push_frame_time m frame_time)) as [|d ts] eqn:Et; [done|].
    unfold sum_durations. rewrite <-Et in *.
    destruct (sum_durations_bound (from_secs (2 ^ 57)) (frame_times (push_frame_time m frame_time)) 0)
      as [total ->]; [done| |done].
    unfold from_secs, duration_end, NANOS_PER_SEC. lia. }
  unfold upgrade_step. destruct Ha as [avg ->]. simpl. by split_match.
Qed.

Lemma record_frame_total_witness :
  is_Some (record_frame sample_budget (from_millis 40) (MkReadings 1 2 3 4)).
Proof.
  apply (record_frame_total sample_budget (from_millis 40) (MkReadings 1 2 3 4) 25000001);
    [vm_compute; reflexivity|reflexivity|simpl; lia| |reflexivity].
  apply Forall_cons. split; [vm_compute; discriminate|apply Forall_nil; exact I].
Defined.

(** Bounds of the blur passes. They never exceed the configured maximum, lowering the
    quality never raises them, and there are none in safe quality. *)
Theorem blur_passes_follow_quality m m' :
  m'.(max_blur_passes) = m.(max_blur_passes) →
  level m.(current_quality) <= level m'.(current_quality) →
  effective_blur_passes m' <= effective_blur_passes m ∧
  effective_blur_passes m <= m.(max_blur_passes) ∧
  (m'.(current_quality) = QSafe → effective_blur_passes m' = 0).
Proof.
  unfold effective_blur_passes. intros ->.
  destruct (current_quality m), (current_quality m'); simpl; intros; split_and!; intros; try done; lia.
Qed.

Lemma blur_passes_follow_quality_witness :
  effective_blur_passes (set_quality sample_budget QLow 9) <= effective_blur_passes sample_budget.
Proof.
  refine (proj1 (blur_passes_follow_quality sample_budget (set_quality sample_budget QLow 9) eq_refl _)).
  vm_compute. discriminate.
Defined.

(** When chromatic dispersion is disabled. On mains power it is disabled exactly
    in the high and medium quality levels, and left on in the low and safe ones. *)
Theorem disable_dispersion_spec m :
  m.(on_battery) && m.(disable_dispersion_on_battery) = false →
  disable_dispersion m = true ↔
  (m.(current_quality) = QHigh ∨ m.(current_quality) = QMedium).
Proof.
  intros Hb. unfold disable_dispersion. rewrite Hb.
  destruct (current_quality m); simpl; split; naive_solver.
Qed.

Lemma disable_dispersion_spec_witness :
  disable_dispersion sample_budget = true ∧
  disable_dispersion (set_quality sample_budget QSafe 9) = false.
Proof.
  split; [|reflexivity]. apply (proj2 (disable_dispersion_spec sample_budget eq_refl)).
  left. reflexivity.
Defined.

(** A configured frame rate of zero panics. [target_fps] is any [u32] of the
    configuration file; one divided by zero is infinite, which is no duration. *)
Theorem zero_fps_panics config now :
  config.(pb_target_fps) = 0 → PerformanceBudgetManager_new config now = None.
Proof. intros Hf. unfold PerformanceBudgetManager_new. by rewrite Hf. Qed.

Lemma zero_fps_panics_witness :
  let config := PerformanceBudget_merge_with PerformanceBudget_default
    (MkPerformanceBudgetPart (Some 0) None None None) in
  PerformanceBudgetManager_new config 7 = None.
Proof.
  exact (zero_fps_panics (PerformanceBudget_merge_with PerformanceBudget_default
    (MkPerformanceBudgetPart (Some 0) None None None)) 7 eq_refl).
Defined.
